(* ===== verification/_CoqProject ===== *)
-Q . S2P
Prelude.v
Ident.v
Lifecycle.v
Run.v
Job.v
Budget.v
Json.v
EventLog.v
EventFeed.v
FileState.v
Session.v
SessionSteps.v
MessageBus.v
SessionQueue.v
JobEpisode.v
Truncate.v
ShellParse.v
ShellRules.v
FsPath.v
TextEdit.v
FsTools.v
FsRead.v
ShellExec.v
LlmTypes.v
Normalize.v
ContextHistory.v
Episodic.v
ContextBuild.v
ToolResults.v
Scheduler.v
RunManager.v
RunControl.v
JobStore.v
Notify.v
JobEngine.v
Triggers.v
JobTasks.v
JobLiveness.v
Errors.v
RuntimeTypes.v
LlmCall.v
ToolCalls.v
ToolCallProps.v
AgentLoop.v
AgentLoopProps.v
AgentRun.v
AgentRunProps.v
Coordinator.v
Subagents.v
SubagentSafety.v
SubagentProps.v
F32.v
LlmClient.v
RunConfig.v
Settings.v
SettingsProps.v
Exec.v
RunExec.v
RunTrace.v
RunSettles.v
RunExecProps.v
Wire.v
Anthropic.v
AnthropicProps.v
Gemini.v
GeminiProps.v
SseStream.v
StreamProps.v
AnswerProps.v
LlmRequest.v
LlmHttp.v
LlmHttpProps.v
