(* ===== verification/Prelude.v ===== *)
(** * A verification library for ALMS

    ALMS is a multi-agent server written in Rust: a gateway admits runs of
    agents, a runtime executes them against a language model and a sandbox of
    tools, a coordinator passes messages between agents, and a session layer
    keeps every conversation.  The library models the parts that carry the
    program's own logic as executable Rocq definitions and proves the
    properties those parts rely on.  Paths below are relative to
    [src/crates/].

    ** The parts and how they interact

    - _Identities_ ([alms-core/src/lib.rs], [source_label.rs], [registry.rs]):
      agents, sessions, runs and jobs are UUIDs; a session also has a context
      id whose prefix is its type and whose body carries ownership.  Every
      other part mints or reads these.
    - _Lifecycles_ ([alms-core/src/lifecycle.rs], [run.rs], [job.rs]): a run
      and a scheduled job are state machines with a revision; many writers
      race to end them.
    - _Token budgets_ ([alms-core/src/config/budget.rs]): the check that a
      configured budget fits a model's window.
    - _Event logs_ ([alms-gateway/src/event_log.rs]): bounded logs with
      monotonic ids behind the event streams, and what a reconnecting client
      is replayed.
    - _File state_ ([alms-sandbox/src/file_state_cache.rs]): which version of
      each file an agent has read, and the guard that refuses stale writes.
    - _Sessions_ ([alms-session/src/lib.rs], [types.rs]): the session manager,
      five maps kept in agreement over a write-through store, and the claiming
      of queued inputs.
    - _Message bus_ ([alms-coordinator/src/message_bus/]): direct messages
      between two agents through one shared session, with a loop limit,
      inactivity expiry and end notifications.  It calls the session manager
      and feeds the gateway's trigger channel.
    - _Session queue_ ([alms-gateway/src/session_queue.rs]): bounded admission
      and serial execution of work per key.
    - _Job episodes_ ([alms-gateway/src/runs/job_episode.rs]): when a job's
      firing, with everything it set in motion, is over.  It consumes the
      bus's end notifications.
    - _Tool output_ ([alms-runtime/src/tool_output_truncate.rs]): what an agent
      sees of a long tool result, and the file that keeps the rest.
    - _Shell_ ([alms-sandbox/src/shell/]): what a command passes before a shell
      process starts (permissions, risk classifier, built-in patterns,
      environment filter, containment of its directory), and how its directory
      is read back from its output.
    - _File tools_ ([alms-sandbox/src/builtin/]): path checks against the
      sandbox root in the presence of symbolic links, and the tools that read,
      write and edit files.  They consult and update the file state.
    - _Context building_ ([alms-runtime/src/context/], [agent/context.rs]): from
      the persisted messages of a session to the messages sent to a model,
      within a token window, with compaction of what does not fit.
    - _Episodic memory_ ([alms-runtime/src/episodic.rs]): summaries of sessions
      written at the end of runs and shown to later ones; concurrent runs
      reconcile on the last summarised run.
    - _Tool results_ ([alms-runtime/src/agent/]): the rows a run leaves for its
      tool calls and how the next run reads them back.
    - _Agent loop_ ([alms-runtime/src/agent/loop_impl.rs], [mod.rs]): a run asks
      the model, executes the tools it calls, under approval where the posture
      asks for it, and asks again, until it has an answer, a cap is reached or its
      token is fired.  It builds its context, consults the sandbox's tools and
      leaves rows, audit entries and events.
    - _Scheduler_ ([alms-runtime/src/scheduler.rs]): the timer of scheduled jobs.
    - _Event feeds_ ([alms-gateway/src/sse.rs], [runs/streaming.rs] and the
      subscriptions of [server/run_manager.rs]): who receives which event of a
      log, live and after a reconnect.
    - _Run manager_ ([alms-gateway/src/server/run_manager.rs]): the registry of
      runs over a write-through store; it owns the run machine, the event logs
      and the reply text in flight.
    - _Run control_ ([alms-gateway/src/approvals.rs], [runs/lifecycle.rs]):
      approvals and cancellation, which end runs from outside through the run
      manager.
    - _Run execution_ ([runs/lifecycle.rs], [runs/dm_lifecycle.rs]): the turn of
      a run that left the queue, from the claim of its input to the releases at
      its end, with its early exits, what it tells watchers and the peer of a
      direct message, and the boundary that catches a panic.  It joins the run
      configuration, the run manager, the agent loop, the bus and the episodes.
    - _Job store_ ([alms-session/src/job_store.rs], [sqlite/jobs.rs]): the jobs
      in memory over a write-through table.
    - _Notifications_ ([alms-gateway/src/runs/notifications.rs], [markers.rs]):
      what the user and the agents are told about ends of jobs, conversations
      and subagents, as stored markers and live events.
    - _Job engine_ ([runs/notifications.rs], [alms-gateway/src/jobs.rs],
      [server/mod.rs]): firing a job, admitting its run, closing its episode and
      arming it again, beside requests that create and cancel jobs.  It joins
      the job store, the scheduler, the episodes and the run manager.
    - _Triggered runs_ ([runs/notifications.rs]): the loops that turn the bus's
      triggers and finished subagents into runs.
    - _Subagents_ ([alms-coordinator/src/lib.rs]): an agent hands work to a
      subagent; the coordinator gives it a session, registers its run with the
      run manager, relays its events and reports its end.
    - _Errors_ ([alms-core/src/error.rs]): the errors every part returns and what
      of them reaches session history and the audit log.
    - _Model clients_ ([alms-runtime/src/llm_client/mod.rs], [summary_client.rs],
      [alms-core/src/secrets.rs]): which provider, address, model and key a
      request is sent with; clients are cloned from one shared client and
      retargeted.
    - _Provider formats and streams_ ([alms-runtime/src/anthropic.rs],
      [gemini.rs], [llm_client/streaming.rs], [sse_parsers.rs],
      [diagnostic.rs]): a conversation in the shape of a provider's request, and
      from the bytes of its response to the chunks or the message the agent loop
      reads.
    - _Model requests_ ([llm_client/request.rs], [llm_client/mod.rs],
      [gemini_cache.rs], [cache_retry.rs]): one call of a provider, with the
      caches of prefixes that the calls on one client share.
    - _Run configuration_ ([alms-gateway/src/configuration.rs], [agents.rs]): the
      server's configuration under an agent's own record, and the checks before
      a run.
    - _Settings_ ([alms-gateway/src/settings.rs], [server/state.rs]): what an
      operator changes while the server runs, what is kept on disk and what a
      start makes of it.  It rebuilds the shared client and asks the run
      configuration what the agents would run.

    ** The files

    - [Prelude.v] (this file): machine integers, [Result] and its [let?]
      notation, strings as UTF-8 bytes with the [str] operations the code
      uses, stable sorting, sums over maps, and the shared tactics.
    - [Ident.v]: identifiers and context ids.  The [uuid] crate is the class
      [UuidCrate] with its documented facts in [UuidLaws]; [SimpleUuid] is an
      instance on which everything can be evaluated.
    - [Lifecycle.v]: the interface [Lifecycle] of a revisioned state machine
      with its laws, and what follows for every sequence of competing writers.
    - [Run.v], [Job.v]: the two machines, their invariants, and their
      instances of that interface.
    - [Budget.v], [Json.v], [EventLog.v], [FileState.v]: one file per part;
      [Json.v] holds the [serde_json] values the code looks into.
    - [Session.v]: [SessionManager] as a record of the five maps, one
      definition per method.  The SQLite store is the class [SqliteStore]
      (each write may fail), [chrono] the class [ChronoCrate].
    - [MessageBus.v]: the bus over the interface [DmStore], whose laws
      [Session.v]'s manager is proved to satisfy ([manager_dm_store_laws]).
      [bus_step] interleaves locked sections, sweeps and the consumers.
    - [SessionQueue.v]: [qstep] performs one atomic action of an admission
      call, a reservation or a worker; every interleaving is a list of labels.
    - [JobEpisode.v]: the tracker behind its one mutex, one definition per
      method.
    - [Truncate.v]: the caps, the preview and the spill file; the file system
      is a map, and whether its calls succeed an argument.
    - [ShellParse.v]: the splitter and tokenizer of [classification.rs], and a
      grammar of shell scripts with its printer.
    - [ShellRules.v]: the rules of the classifier, each giving the findings it
      adds, and [enforce].
    - [ShellExec.v]: [permissions.rs] over the class [RegexCrate],
      [security.rs], [pathnorm.rs] with [canonicalize] as an argument, and the
      checks of [mod.rs] and [exec.rs] composed as [execute_start].
    - [EventFeed.v]: [feed_run] executes any interleaving of appends, fan-outs,
      subscriptions, replays and stream reads over one store of channels.
    - [FsPath.v]: a tree with symbolic links, [canonicalize] and the two path
      checks of [builtin/mod.rs]; [TextEdit.v]: how [fs_edit] finds its text;
      [FsTools.v]: the handlers of [fs_write] and [fs_edit] over both and
      [FileState.v]; [FsRead.v]: buffered line reading and the pages of [fs_read].
    - [LlmTypes.v]: a model's messages and their estimated cost; [Normalize.v]:
      the passes that give them the shape a model accepts; [ContextHistory.v]:
      history rows to messages and the selection strategies; [ContextBuild.v]:
      [build] and compaction, with a reference definition of [build].
    - [Episodic.v]: the summary table and its optimistic upsert as a step
      relation; [ToolResults.v]: tool rows written and read back.
    - [Scheduler.v]: the timer over the class [MinHeap], [sched_step] its steps.
    - [RunManager.v]: [RunManager] as a record of the source's maps, one
      definition per method, over the class [RunStore] with [RunStoreLaws].
    - [RunControl.v]: the two handlers of approvals and [cancel_run].
    - [JobStore.v]: [JobStore] over the class [JobTable] with [JobTableLaws] and
      an instance that refuses writes after a while.
    - [Notify.v]: markers, cards, transcripts and their events.
    - [JobEngine.v]: the handlers of the job engine over [AppState], cut where
      the code awaits a lock or the disk; [Triggers.v]: the trigger and
      completion loops.
    - [JobTasks.v]: the same handlers as tasks, [engine_step] one atomic piece
      of one task; [JobLiveness.v]: the invariant of all interleavings.
    - [Errors.v]: building and showing errors; the type itself is in [Session.v].
    - [RuntimeTypes.v]: postures, events and outputs of runs.
    - [LlmCall.v]: one call of the model, whose stream is a script of chunks;
      [ToolCalls.v]: the tool calls of a turn as pieces between their waits,
      [batch_step] one piece of one call, and [ToolCallProps.v] the invariant of
      all interleavings.
    - [AgentLoop.v]: [loop_turn] over the script of a turn and [agent_loop] over
      those of a run, [AgentLoopProps.v] what holds of them; [AgentRun.v]: [run]
      and [run_on_session] around the loop, over [Session.v]'s manager, and
      [AgentRunProps.v] what they leave in a session.
    - [Coordinator.v]: the data of the coordinator and the pieces of
      [run_subagent], over the class [RunRegistrar], of which the run manager is
      an instance; [Subagents.v]: subagents as tasks, [sub_step] one piece of one
      task; [SubagentSafety.v]: the invariant of all interleavings;
      [SubagentProps.v]: what follows, with concrete executions.
    - [F32.v]: the configuration's floats; [LlmClient.v]: the client and its
      switches, the environment an argument; [RunConfig.v]: the configuration of
      a run; [Settings.v]: [patch_settings] section by section, [persist] and
      [boot]; [SettingsProps.v]: what follows.
    - [Exec.v]: handlers that wait, as programs over a [Schedule] that says what
      others do before each access of the shared state and which accesses
      unwind, with a logic of them ([wp]) whose rely is any relation;
      [RunExec.v]: [execute_run] and its exits over a [World] of the shared
      parts, the agent being the class [AgentRuntime]; [RunTrace.v]: what each
      exit puts out; [RunSettles.v]: what it leaves, given what the others may
      do; [RunExecProps.v]: what follows, with concrete executions.

    - [Wire.v]: [serde]'s decoders and the OpenAI shapes; [Anthropic.v] and
      [Gemini.v]: the adapters, with [AnthropicProps.v] and [GeminiProps.v] on the
      requests they make; [SseStream.v]: a response as a script of network reads,
      [stream_items] what a consumer can poll of it; [StreamProps.v]: where the
      network cuts it; [AnswerProps.v]: streamed and buffered answers.
    - [LlmRequest.v]: requests, answers and the cache's store; [LlmHttp.v]: the
      calls as programs of [Exec.v]; [LlmHttpProps.v]: what they send and answer
      among others.

    State is passed explicitly; clock readings and random ids are arguments;
    a fallible method returns [Result] with the state it leaves.  A record has
    the source's fields and an inductive type the source's variants, with a
    prefix where Rocq needs distinct names.

    ** What the theorems show

    - Runs and jobs: the transition functions implement the intended step
      relations on every branch; every reachable record is well formed; the
      first terminal writer wins; the retry budget is exact.
    - Sessions: the maps agree in every reachable state whichever store
      writes fail; creation is idempotent; the context shown to an agent is
      exactly the visible messages in claim order; every outcome of a claim;
      one key per subagent name however it is spelled.
    - Bus: the invariant over all interleavings; a delivered message is one
      message and one trigger; an end happens once, reaches the right
      sessions, survives the inactivity sweep; saturation changes nothing;
      the loop limit counts speaker changes exactly.
    - Queue: permits are conserved; a reservation is never refused and its
      receipt is right; order and priority; one worker per key; a worker that
      stops has run everything unless an item was dispatched between the two
      reads of its stop condition, and an execution in which that loses an
      item ([retirement_race_loses_item]).
    - Episodes: none stays open with nothing to wait for; exactly when a
      completion closes one; the end of a DM resolves every waiting episode
      once; the deadline sweep takes exactly the expired.
    - Logs, file state, budgets, identities: contiguous ids and exact replay
      windows; writes only on versions that were read; the validator refuses
      exactly the known overshoots; context ids round trip and grant access to
      the right parent.
    - Tool output: a preview is two disjoint parts of the output cut at
      character boundaries, with the exact number of bytes left out.
    - File tools: a tool that writes leaves everything outside the sandbox root
      as it was when no link dangles, with the execution in which a dangling
      link leads out ([dangling_link_write_escapes]); an edit replaces exactly
      the matched text; a page of a file is exactly its lines, and paging through
      a file ends with the file readable and writable.
    - Context: what is sent to a model is canonical whatever the history, and
      canonical messages are exactly the fixed points of the passes; every call
      keeps its result; compaction accounts for every row; [build] equals a
      reference definition without its early exits; no summary is lost among
      concurrent runs; tool rows round trip.
    - Scheduler: no job is overslept and a one-shot job fires once.
    - Jobs in the gateway: the job store implements the job machine over a disk
      that may refuse, and reopening loses nothing; in every interleaving a job
      has at most one driver, and a live one has exactly one unless the model's
      output says that it was abandoned and why; a cancelled job is silent; an
      episode counts exactly its unfinished runs; a closing task ends in the
      state of the sequential handler.
    - Subagents: in every interleaving each background subagent is reported
      exactly once; two named ones at work are never in one session, except in
      the execution [registration_race_shares_session]; everyone who hears of an
      end hears the same; tasks wind down; a cancellation answers what it did; a
      panic leaves a handle that stays ([panicked_handle_stays]).
    - Errors: a provider's answer reaches neither history nor audit log.
    - Agent loop: what a screen shows of a call is what the call returns; in every
      interleaving each tool shown to start is shown to end once; in the guarded
      posture nothing runs unapproved and a denial is the end of the run; a run
      ends within its cap; the conversation grows by answered calls only; records
      have no gap; the session is left with one record of how the run ended.
    - Configuration: a run's client is on the provider its agent asks for and
      keeps no key of the client it came from; the settings stay usable whatever is
      sent; an accepted budget passes the check of every agent's next run; a
      restart keeps what was accepted.  [telegram_token_leaves],
      [rejected_pair_leaves_budget], [chosen_default_pair_is_lost] and
      [patched_model_is_shadowed] are executions that surprise.
    - Run execution: for every schedule of the other tasks a turn announces
      exactly what it settled, calls the agent once and as announced, answers the
      peer of a direct message on every exit and settles its run even when it
      panics.  [cancelled_run_announced_failed] and [panicked_turn_says_nothing]
      are executions in which a cancelled run is also announced as failed, and a
      peer hears nothing.
    - Providers: a canonical conversation, which is what the context builder
      makes, becomes a request with everything it says and the shape its provider
      asks for; a streamed answer ends in what the buffered one gives, however it
      is cut.  [cut_character_is_lost], [cut_line_ending_loses_event],
      [message_delta_result], [calls_in_two_events_merge] and
      [renumbered_call_renames] are executions in which text, an event, a usage or
      the name of a call is lost.  A call sends what it was given, once, or again
      without a cache that is gone; [model_switch_wedges_session] is an execution
      in which a session is refused for good.
    - Notifications: live event and stored marker of a job agree; an
      interrupted end reaches the model; a transcript is the longest tail that
      fits.
    - Runs in the gateway: the registry agrees with the durable rows; the end of
      a run is announced once; the text kept for a run is the reply not yet
      stored; a stream delivers each event once and in order; cancellation and
      denial answer what happened.  [overtaken_event_lost] and
      [late_delta_leaks] are executions in which an event or a delta is lost or
      outlives its run.
    - Shell: the splitter finds every command of every script of the grammar,
      so that neither chaining nor nesting hides a command from the rules;
      dangerous programs are blocked in every mode but one; a command starts
      exactly when every check passes; no secret variable reaches a child; the
      directory never leaves its root; command output and directory are told
      apart whatever was printed.  Four more theorems show where a check
      differs from its comment: [denylist_exact], [quoted_backslash_hides],
      [wrapper_hides_program], [invalid_allowlist_allows].

    ** Bounds and fuel

    Fuel is the length of the input: in [trim] and the boundary search of
    [tail_to_char_boundary], which [trim_bytes_clean] and [boundary_above_spec]
    show is enough, in the splitter [walk], where [walk_fuel_eq] shows that more
    never changes the result, and in the two scans of [ShellRules] over white
    space, which consume a byte a step.  The passes of [Normalize]
    ([close_loop_total]), the replacement loops of [TextEdit] and the page loop
    of [FsRead] have the length of their input; the loops of the scheduler the
    size of its heap; the events of a stream's buffer are cut off with the
    buffer's length ([drain_loop_fuel]).  The retries of an episode's close are
    the source's three attempts.  Path resolution follows 40 links, the operating system's
    own limit.  Integers
    that can reach their width are [Z] with the source's saturation or wrap
    written out; counters bounded far below their width by the code (queue
    lengths, depths) are [nat] or [Z] without it.  Instants are nanoseconds.

    ** What is not modelled

    HTTP (what a server answers is an argument), the UI, the command line, Telegram, process spawning and
    SQL text: I/O and third-party code.  The lock table of the bus and the
    notifications of the queue's [Notify] (a waiting worker may be woken at any
    time instead).  Paths are Unix paths; the Windows rewrites are text
    transforms.  File permissions and what another process does between two
    calls of one file tool.  The context builder takes the
    products of its fractions as functions of the budget ([RunConfig.fraction_of]
    gives them), and prompts, workspace texts, a model's answers and
    the suggestions of an edit distance are arguments.  Waiting for runs to drain
    at shutdown.  How a subagent's runtime is built: its loop is what it returns.
    In the turn of a run: what [forward_runtime_events] makes of the events of the
    agent loop, the tools' own state (their names are kept), the spill directories and the
    environment a shell starts with; the request that cancels a conversation.  Workspace files
    and the other sandbox tools. *)
From Stdlib Require Export ZArith Ascii String.
From stdpp Require Export base gmap strings list sorting fin_maps.

(** [String.append] unfolds on a constructor, so that names and context ids
    compute. *)
#[global] Arguments String.append !_ _ / : simpl nomatch.

(** * Machine integers *)

Declare Scope alms_scope.
Delimit Scope alms_scope with alms.
Open Scope alms_scope.
Open Scope string_scope.
Open Scope list_scope.
Open Scope nat_scope.

Definition u32_max : Z := 2 ^ 32 - 1.
Definition u64_max : Z := 2 ^ 64 - 1.
Definition i64_max : Z := 2 ^ 63 - 1.

(** [u32::saturating_add] and [u64::saturating_add]. *)
Definition sat_add_u32 (a b : Z) : Z := Z.min (a + b) u32_max.
Definition sat_add_u64 (a b : Z) : Z := Z.min (a + b) u64_max.

(** * Results *)

(** Rust's [Result<A, E>]. *)
Inductive Result (A E : Type) : Type :=
| Ok (a : A)
| Err (e : E).
Arguments Ok {A E} a.
Arguments Err {A E} e.

(** The [?] operator: continue with the value or return the error. *)
Definition result_bind {A B E} (r : Result A E) (f : A → Result B E) : Result B E :=
  match r with Ok a => f a | Err e => Err e end.
Notation "'let?' x := r 'in' k" := (result_bind r (λ x, k))
  (at level 200, x name, r at level 100, k at level 200) : alms_scope.

Definition is_ok {A E} (r : Result A E) : bool :=
  match r with Ok _ => true | Err _ => false end.

Lemma result_bind_Ok {A B E} (r : Result A E) (f : A → Result B E) b :
  result_bind r f = Ok b ↔ ∃ a, r = Ok a ∧ f a = Ok b.
Proof. destruct r; simpl; naive_solver. Qed.

(** * Automation *)

(** Reading a map at the key just written, or at another key whose difference
    is at hand. *)
Ltac simpl_lookup :=
  repeat first
    [ rewrite lookup_insert_eq | rewrite lookup_delete_eq
    | rewrite lookup_insert_ne by congruence | rewrite lookup_delete_ne by congruence ];
  try done.

(** [alms] collects the rewriting rules that end most string goals. *)
Create HintDb alms discriminated.

(** * Byte strings

    A Rust [str] is its UTF-8 bytes; [string] is a sequence of bytes, so
    [len], [starts_with], [split_once] on an ASCII separator, slicing and the
    byte-wise order are the operations below. *)

Fixpoint strip_prefix (p s : string) : option string :=
  match p, s with
  | EmptyString, _ => Some s
  | String a p', String b s' =>
      if Ascii.eqb a b then strip_prefix p' s' else None
  | String _ _, EmptyString => None
  end.

Definition starts_with (s p : string) : bool :=
  match strip_prefix p s with Some _ => true | None => false end.

Fixpoint char_in (c : ascii) (s : string) : bool :=
  match s with
  | EmptyString => false
  | String a s' => Ascii.eqb a c || char_in c s'
  end.

(** [str::split_once] with an ASCII separator. *)
Fixpoint split_once (c : ascii) (s : string) : option (string * string) :=
  match s with
  | EmptyString => None
  | String a s' =>
      if Ascii.eqb a c then Some (EmptyString, s')
      else match split_once c s' with
           | Some (l, r) => Some (String a l, r)
           | None => None
           end
  end.

Definition is_ascii_upper (a : ascii) : bool :=
  (65 <=? N_of_ascii a)%N && (N_of_ascii a <=? 90)%N.
Definition is_ascii_lower (a : ascii) : bool :=
  (97 <=? N_of_ascii a)%N && (N_of_ascii a <=? 122)%N.
Definition is_ascii_digit (a : ascii) : bool :=
  (48 <=? N_of_ascii a)%N && (N_of_ascii a <=? 57)%N.
Definition is_ascii_alphanumeric (a : ascii) : bool :=
  is_ascii_upper a || is_ascii_lower a || is_ascii_digit a.

Definition ascii_lower (a : ascii) : ascii :=
  if is_ascii_upper a then ascii_of_N (N_of_ascii a + 32) else a.

Fixpoint to_ascii_lowercase (s : string) : string :=
  match s with
  | EmptyString => EmptyString
  | String a s' => String (ascii_lower a) (to_ascii_lowercase s')
  end.

Definition eq_ignore_ascii_case (a b : string) : bool :=
  String.eqb (to_ascii_lowercase a) (to_ascii_lowercase b).

Fixpoint forall_chars (f : ascii → bool) (s : string) : bool :=
  match s with
  | EmptyString => true
  | String a s' => f a && forall_chars f s'
  end.

(** ** [str::trim]

    Unicode [White_Space], as UTF-8: U+0009..U+000D and U+0020 (one byte),
    U+0085 and U+00A0 ([C2 85], [C2 A0]), U+1680 ([E1 9A 80]), U+2000..U+200A,
    U+2028, U+2029, U+202F ([E2 80 ..]), U+205F ([E2 81 9F]) and U+3000
    ([E3 80 80]). *)

Definition ws1 (a : N) : bool := ((9 <=? a) && (a <=? 13) || (a =? 32))%N.
Definition ws2 (a b : N) : bool := ((a =? 194) && ((b =? 133) || (b =? 160)))%N.
Definition ws3 (a b c : N) : bool :=
  ((a =? 225) && (b =? 154) && (c =? 128)
   || (a =? 226) && (b =? 128)
      && ((128 <=? c) && (c <=? 138) || (c =? 168) || (c =? 169) || (c =? 175))
   || (a =? 226) && (b =? 129) && (c =? 159)
   || (a =? 227) && (b =? 128) && (c =? 128))%N.

(** The bytes left once one leading white-space character is removed. *)
Definition drop_ws (l : list N) : option (list N) :=
  match l with
  | a :: l1 =>
      if ws1 a then Some l1
      else match l1 with
           | b :: l2 =>
               if ws2 a b then Some l2
               else match l2 with
                    | c :: l3 => if ws3 a b c then Some l3 else None
                    | [] => None
                    end
           | [] => None
           end
  | [] => None
  end.

(** The same at the end of the text, on the reversed bytes. *)
Definition drop_ws_rev (l : list N) : option (list N) :=
  match l with
  | c :: l1 =>
      if ws1 c then Some l1
      else match l1 with
           | b :: l2 =>
               if ws2 b c then Some l2
               else match l2 with
                    | a :: l3 => if ws3 a b c then Some l3 else None
                    | [] => None
                    end
           | [] => None
           end
  | [] => None
  end.

Fixpoint drop_while_ws (step : list N → option (list N)) (fuel : nat) (l : list N) : list N :=
  match fuel with
  | O => l
  | S n => match step l with Some l' => drop_while_ws step n l' | None => l end
  end.

Fixpoint bytes_of (s : string) : list N :=
  match s with
  | EmptyString => []
  | String a s' => N_of_ascii a :: bytes_of s'
  end.

Fixpoint of_bytes (l : list N) : string :=
  match l with
  | [] => EmptyString
  | b :: l' => String (ascii_of_N b) (of_bytes l')
  end.

Definition trim_bytes (l : list N) : list N :=
  let front := drop_while_ws drop_ws (length l) l in
  rev (drop_while_ws drop_ws_rev (length front) (rev front)).

Definition trim (s : string) : string := of_bytes (trim_bytes (bytes_of s)).

(** [str::is_char_boundary]: the two ends, and every index whose byte does
    not continue a multi-byte character. *)
Definition is_char_boundary (s : string) (i : nat) : bool :=
  match i with
  | O => true
  | _ => match String.get i s with
         | None => Nat.eqb i (String.length s)
         | Some a => negb ((128 <=? N_of_ascii a)%N && (N_of_ascii a <=? 191)%N)
         end
  end.

(** [&s[..n]] and [&s[n..]]. *)
Fixpoint str_take (n : nat) (s : string) : string :=
  match n, s with
  | S n', String a s' => String a (str_take n' s')
  | _, _ => EmptyString
  end.

Fixpoint str_drop (n : nat) (s : string) : string :=
  match n, s with
  | S n', String _ s' => str_drop n' s'
  | _, _ => s
  end.

(** [trim_end_matches] with a set of ASCII characters. *)
Fixpoint trim_end_if (f : ascii → bool) (s : string) : string :=
  match s with
  | EmptyString => EmptyString
  | String a s' => if forall_chars f s then EmptyString else String a (trim_end_if f s')
  end.

Definition ch (c : ascii) : string := String c EmptyString.

Definition lf : ascii := ascii_of_N 10.

(** The lines of a text with a flag, whether a newline ended them. *)
Fixpoint raw_lines (s : string) : list (string * bool) :=
  match s with
  | EmptyString => []
  | String c s' =>
      if Ascii.eqb c lf then ("", true) :: raw_lines s'
      else match raw_lines s' with
           | (l, t) :: ls => (String c l, t) :: ls
           | [] => [(String c EmptyString, false)]
           end
  end.

Definition cr : ascii := ascii_of_N 13.

(** Removes one trailing carriage return. *)
Fixpoint strip_cr (s : string) : string :=
  match s with
  | EmptyString => EmptyString
  | String c EmptyString => if Ascii.eqb c cr then EmptyString else s
  | String c s' => String c (strip_cr s')
  end.

Definition line_text (l : string * bool) : string := if l.2 then strip_cr l.1 else l.1.

(** [str::lines]. *)
Definition lines (s : string) : list string := map line_text (raw_lines s).

(** [str::rfind]: the last index at which [p] occurs in [s]. *)
Fixpoint rfind (p s : string) : option nat :=
  match s with
  | EmptyString => if String.eqb p "" then Some 0 else None
  | String _ s' =>
      match rfind p s' with
      | Some n => Some (S n)
      | None => if starts_with s p then Some 0 else None
      end
  end.

(** * Lemmas on strings *)

Lemma strip_prefix_Some p s r : strip_prefix p s = Some r ↔ s = p +:+ r.
Proof.
  revert s; induction p as [|a p IH]; intros s; simpl.
  - split; [by intros [= ->] | by intros ->].
  - destruct s as [|b s]; simpl; [split; discriminate|].
    destruct (Ascii.eqb_spec a b) as [->|Hab].
    + rewrite IH. split; [by intros -> | by intros [= ->]].
    + split; [discriminate | by intros [= -> _]].
Qed.

Lemma strip_prefix_app p r : strip_prefix p (p +:+ r) = Some r.
Proof. by apply strip_prefix_Some. Qed.

Lemma starts_with_app p r : starts_with (p +:+ r) p = true.
Proof. unfold starts_with. by rewrite strip_prefix_app. Qed.

Lemma starts_with_true s p : starts_with s p = true ↔ ∃ r, s = p +:+ r.
Proof.
  unfold starts_with. destruct (strip_prefix p s) as [r|] eqn:E.
  - apply strip_prefix_Some in E. naive_solver.
  - split; [done|]. intros [r ->]. by rewrite strip_prefix_app in E.
Qed.

Lemma char_in_app c s t : char_in c (s +:+ t) = char_in c s || char_in c t.
Proof. induction s as [|a s IH]; simpl; [done|]. by rewrite IH, orb_assoc. Qed.

Lemma split_once_Some c s l r :
  split_once c s = Some (l, r) ↔ s = l +:+ String c r ∧ char_in c l = false.
Proof.
  revert l r; induction s as [|a s IH]; intros l r; simpl.
  - split; [done|]. intros [H _]. by destruct l.
  - destruct (Ascii.eqb_spec a c) as [->|Hac].
    + split; [by intros [= <- <-]|].
      intros [H Hl]. destruct l as [|b l]; simplify_eq/=; [done|].
      by rewrite Ascii.eqb_refl in Hl.
    + split.
      * destruct (split_once c s) as [[l' r']|]; [|done].
        intros [= <- <-]. destruct (proj1 (IH l' r') eq_refl) as [-> Hl]. split; [done|]. simpl.
        rewrite Hl. by destruct (Ascii.eqb_spec a c).
      * intros [H Hl]. destruct l as [|b l]; simplify_eq/=.
        apply orb_false_iff in Hl as [_ Hl].
        by rewrite (proj2 (IH l r) (conj eq_refl Hl)).
Qed.

Lemma split_once_app c l r :
  char_in c l = false → split_once c (l +:+ String c r) = Some (l, r).
Proof. intros. by apply split_once_Some. Qed.

Lemma split_once_None c s : split_once c s = None ↔ char_in c s = false.
Proof.
  induction s as [|a s IH]; simpl; [done|].
  destruct (Ascii.eqb a c); simpl; [done|].
  rewrite <-IH. by destruct (split_once c s) as [[??]|].
Qed.

Lemma ascii_lower_idem a : ascii_lower (ascii_lower a) = ascii_lower a.
Proof. destruct a as [[] [] [] [] [] [] [] []]; reflexivity. Qed.

Lemma to_ascii_lowercase_idem s :
  to_ascii_lowercase (to_ascii_lowercase s) = to_ascii_lowercase s.
Proof. induction s; simpl; [done|]. by rewrite ascii_lower_idem, IHs. Qed.

Lemma eq_ignore_ascii_case_spec a b :
  eq_ignore_ascii_case a b = true ↔ to_ascii_lowercase a = to_ascii_lowercase b.
Proof. unfold eq_ignore_ascii_case. apply String.eqb_eq. Qed.

Lemma eq_ignore_ascii_case_refl a : eq_ignore_ascii_case a a = true.
Proof. by apply eq_ignore_ascii_case_spec. Qed.

Lemma forall_chars_not_in f c s :
  forall_chars f s = true → f c = false → char_in c s = false.
Proof.
  intros Hs Hc. induction s as [|a s IH]; simpl in *; [done|].
  apply andb_true_iff in Hs as [Ha Hs]. rewrite (IH Hs).
  destruct (Ascii.eqb_spec a c) as [->|]; [congruence|done].
Qed.

Lemma str_length_app s t : String.length (s +:+ t) = String.length s + String.length t.
Proof. induction s; simpl; [done|]. by rewrite IHs. Qed.

Lemma string_app_inj_l p s t : p +:+ s = p +:+ t → s = t.
Proof. induction p; simpl; [done|]. intros [= H]. auto. Qed.

Lemma string_app_nil_r (a : string) : a +:+ "" = a.
Proof. induction a; simpl; [done|]. by rewrite IHa. Qed.

Lemma string_app_assoc (a b c : string) : (a +:+ b) +:+ c = a +:+ (b +:+ c).
Proof. induction a; simpl; [done|]. by rewrite IHa. Qed.

Lemma str_take_length n s : String.length (str_take n s) = n `min` String.length s.
Proof. revert s; induction n; intros [|a s]; simpl; [done..|]. by rewrite IHn. Qed.

Lemma str_drop_length n s : String.length (str_drop n s) = String.length s - n.
Proof. revert s; induction n; intros [|a s]; simpl; [done..|]. by rewrite IHn. Qed.

Lemma str_take_drop n s : str_take n s +:+ str_drop n s = s.
Proof. revert s; induction n; intros [|a s]; simpl; [done..|]. by rewrite IHn. Qed.

Lemma raw_lines_app a b :
  raw_lines (a +:+ String lf b) = raw_lines (a +:+ ch lf) ++ raw_lines b.
Proof.
  induction a as [|c a IH]; [done|]. cbn [String.append raw_lines].
  destruct (Ascii.eqb c lf); [simpl; by rewrite IH|].
  rewrite IH. destruct (raw_lines (a +:+ ch lf)) as [|[l t] ls] eqn:E; [|done].
  exfalso. destruct a as [|d a]; cbn [String.append raw_lines] in E; [done|].
  destruct (Ascii.eqb d lf); [done|]. destruct (raw_lines (a +:+ ch lf)) as [|[??] ?]; done.
Qed.

Lemma raw_lines_line l : char_in lf l = false → raw_lines (l +:+ ch lf) = [(l, true)].
Proof.
  induction l as [|c l IH]; [done|]. simpl. intros [-> H]%orb_false_iff.
  by rewrite IH.
Qed.

Lemma rfind_Some p s n : rfind p s = Some n → ∃ r, str_drop n s = p +:+ r ∧ n ≤ String.length s.
Proof.
  revert n. induction s as [|a s IH]; intros n; simpl.
  - destruct (String.eqb_spec p "") as [-> |]; [|done]. intros [= <-]. by exists "".
  - destruct (rfind p s) as [k|] eqn:Hk.
    + intros [= <-]. destruct (IH k eq_refl) as (r & Hr & Hle). exists r. split; [done|lia].
    + destruct (starts_with (String a s) p) eqn:Hs; [|done]. intros [= <-].
      apply starts_with_true in Hs as [r Hr]. exists r. split; [exact Hr|lia].
Qed.

(** The last occurrence is found behind any prefix. *)
Lemma rfind_app_r p a b n : rfind p b = Some n → rfind p (a +:+ b) = Some (String.length a + n).
Proof. intros H. induction a as [|c a IH]; simpl; [done|]. by rewrite IH. Qed.

Lemma is_char_boundary_len s : is_char_boundary s (String.length s) = true.
Proof.
  unfold is_char_boundary. destruct (String.length s) eqn:E; [done|]. rewrite <-E.
  replace (String.get (String.length s) s) with (@None ascii); [apply Nat.eqb_refl|].
  clear E. induction s; simpl; auto.
Qed.

(** ** The byte-wise order on names *)

Lemma ltb_false_swap a b : String.ltb a b = false → String.ltb b a = false → a = b.
Proof.
  unfold String.ltb. intros H1 H2.
  destruct (String.compare a b) eqn:E; [by apply String.compare_eq_iff|done|].
  rewrite String.compare_antisym, E in H2. done.
Qed.

Lemma ltb_antisym a b : String.ltb a b = true → String.ltb b a = false.
Proof.
  unfold String.ltb. rewrite (String.compare_antisym a b).
  by destruct (String.compare b a).
Qed.

(** ** Trimming *)

Lemma drop_ws_length l l' : drop_ws l = Some l' → length l' < length l.
Proof.
  unfold drop_ws. intros H. repeat case_match; simplify_eq/=; lia.
Qed.

Lemma drop_ws_rev_length l l' : drop_ws_rev l = Some l' → length l' < length l.
Proof.
  unfold drop_ws_rev. intros H. repeat case_match; simplify_eq/=; lia.
Qed.

Lemma drop_ws_prefix l k : drop_ws (l ++ k) = None → drop_ws l = None.
Proof.
  unfold drop_ws. destruct l as [|a [|b [|c l]]]; simpl; intros H;
    repeat (case_match; try done).
Qed.

Lemma drop_ws_suffix l l' : drop_ws l = Some l' → ∃ k, l = k ++ l'.
Proof.
  unfold drop_ws. intros H. repeat case_match; simplify_eq/=.
  - by exists [n].
  - by exists [n; n0].
  - by exists [n; n0; n1].
Qed.

Lemma drop_ws_rev_suffix l l' : drop_ws_rev l = Some l' → ∃ k, l = k ++ l'.
Proof.
  unfold drop_ws_rev. intros H. repeat case_match; simplify_eq/=.
  - by exists [n].
  - by exists [n; n0].
  - by exists [n; n0; n1].
Qed.

Section drop_while.
Context (step : list N → option (list N)).
Context (step_length : ∀ l l', step l = Some l' → length l' < length l).
Context (step_suffix : ∀ l l', step l = Some l' → ∃ k, l = k ++ l').

Lemma drop_while_ws_stop fuel l : length l ≤ fuel → step (drop_while_ws step fuel l) = None.
Proof.
  revert l; induction fuel as [|n IH]; intros l Hl; simpl.
  - destruct l; [|simpl in *; lia]. destruct (step []) as [l'|] eqn:E; [|done].
    apply step_length in E. simpl in E. lia.
  - destruct (step l) as [l'|] eqn:E; [|done]. apply IH. apply step_length in E. lia.
Qed.

Lemma drop_while_ws_suffix fuel l : ∃ k, l = k ++ drop_while_ws step fuel l.
Proof.
  revert l; induction fuel as [|n IH]; intros l; simpl; [by exists []|].
  destruct (step l) as [l'|] eqn:E; [|by exists []].
  apply step_suffix in E as [k ->]. destruct (IH l') as [k' Hk].
  exists (k ++ k'). rewrite <-app_assoc. by f_equal.
Qed.

Lemma drop_while_ws_id fuel l : step l = None → drop_while_ws step fuel l = l.
Proof. by intros H; destruct fuel; simpl; rewrite ?H. Qed.
End drop_while.

Lemma trim_bytes_clean l : drop_ws (trim_bytes l) = None ∧ drop_ws_rev (rev (trim_bytes l)) = None.
Proof.
  unfold trim_bytes. set (front := drop_while_ws drop_ws (length l) l).
  assert (drop_ws front = None) as Hf
    by (apply drop_while_ws_stop; [apply drop_ws_length|done]).
  rewrite rev_involutive. split.
  - destruct (drop_while_ws_suffix drop_ws_rev drop_ws_rev_suffix (length front) (rev front))
      as [k Hk].
    apply (drop_ws_prefix _ (rev k)). rewrite <-rev_app_distr, <-Hk, rev_involutive. done.
  - apply drop_while_ws_stop; [apply drop_ws_rev_length|]. by rewrite length_rev.
Qed.

Lemma trim_bytes_idem l : trim_bytes (trim_bytes l) = trim_bytes l.
Proof.
  destruct (trim_bytes_clean l) as [H1 H2]. unfold trim_bytes at 1.
  rewrite (drop_while_ws_id _ _ _ H1), (drop_while_ws_id _ _ _ H2). apply rev_involutive.
Qed.

Lemma bytes_of_lt s : Forall (λ b, (b < 256)%N) (bytes_of s).
Proof. induction s; simpl; constructor; [apply N_ascii_bounded|done]. Qed.

Lemma bytes_of_of_bytes l : Forall (λ b, (b < 256)%N) l → bytes_of (of_bytes l) = l.
Proof. induction 1; simpl; [done|]. by rewrite N_ascii_embedding, IHForall by done. Qed.

Lemma forall_chars_app f s t : forall_chars f (s +:+ t) = forall_chars f s && forall_chars f t.
Proof. induction s; simpl; [done|]. by rewrite IHs, andb_assoc. Qed.

Lemma bytes_of_app a b : bytes_of (a +:+ b) = bytes_of a ++ bytes_of b.
Proof. induction a; simpl; [done|]. by rewrite IHa. Qed.

Lemma drop_ws_plain b l : (b <? 128)%N = true → ws1 b = false → drop_ws (b :: l) = None.
Proof.
  intros Hb%N.ltb_lt H1. unfold drop_ws. rewrite H1. unfold ws2, ws3.
  assert ((b =? 194)%N = false ∧ (b =? 225)%N = false ∧ (b =? 226)%N = false ∧ (b =? 227)%N = false)
    as (-> & -> & -> & ->) by (split_and!; apply N.eqb_neq; lia).
  destruct l as [|x [|y l]]; done.
Qed.

Lemma drop_ws_rev_plain b l : (b <? 128)%N = true → ws1 b = false → drop_ws_rev (b :: l) = None.
Proof.
  intros Hb%N.ltb_lt H1. unfold drop_ws_rev. rewrite H1.
  destruct l as [|x l]; [done|].
  assert (ws2 x b = false) as ->.
  { unfold ws2. assert ((b =? 133)%N = false ∧ (b =? 160)%N = false) as [-> ->]
      by (split; apply N.eqb_neq; lia). by rewrite andb_false_r. }
  destruct l as [|y l]; [done|].
  assert (ws3 y x b = false) as ->; [|done]. unfold ws3.
  assert ((b =? 128)%N = false ∧ (128 <=? b)%N = false ∧ (b =? 168)%N = false ∧ (b =? 169)%N = false
    ∧ (b =? 175)%N = false ∧ (b =? 159)%N = false) as (-> & -> & -> & -> & -> & ->).
  { split_and!; first [apply N.eqb_neq; lia|apply N.leb_gt; lia]. }
  by rewrite !andb_false_r.
Qed.

Lemma of_bytes_of s : of_bytes (bytes_of s) = s.
Proof. induction s; simpl; [done|]. by rewrite ascii_N_embedding, IHs. Qed.

(** An ASCII text whose ends are not white space is its own trim. *)
Lemma trim_bytes_plain l b k :
  (∃ a m, l = a :: m ∧ (a <? 128)%N = true ∧ ws1 a = false) →
  l = k ++ [b] → (b <? 128)%N = true → ws1 b = false → trim_bytes l = l.
Proof.
  intros (a & m & Hl & Ha & Hwa) Hb Hb1 Hwb. unfold trim_bytes.
  assert (drop_while_ws drop_ws (length l) l = l) as ->.
  { rewrite Hl. cbn [length drop_while_ws]. by rewrite (drop_ws_plain a m Ha Hwa). }
  assert (rev l = b :: rev k) as E by (rewrite Hb, rev_app_distr; done).
  assert (drop_while_ws drop_ws_rev (length l) (rev l) = rev l) as ->; [|apply rev_involutive].
  rewrite E. rewrite Hl. cbn [length drop_while_ws]. by rewrite (drop_ws_rev_plain b _ Hb1 Hwb).
Qed.

(** Nothing is trimmed between two ASCII characters that are no white space. *)
Definition plain (c : ascii) : bool := (N_of_ascii c <? 128)%N && negb (ws1 (N_of_ascii c)).

Lemma trim_plain a m z : plain a = true → plain z = true → trim (String a (m +:+ ch z)) = String a (m +:+ ch z).
Proof.
  unfold plain. intros [Ha Hwa%negb_true_iff]%andb_true_iff [Hz Hwz%negb_true_iff]%andb_true_iff. unfold trim.
  rewrite (trim_bytes_plain _ (N_of_ascii z) (N_of_ascii a :: bytes_of m)); [apply of_bytes_of| | |done|done].
  - by eexists _, _.
  - simpl. by rewrite bytes_of_app.
Qed.

Lemma trim_bytes_forall P l : Forall P l → Forall P (trim_bytes l).
Proof.
  intros H. unfold trim_bytes. apply Forall_rev.
  destruct (drop_while_ws_suffix drop_ws drop_ws_suffix (length l) l) as [k Hk].
  set (front := drop_while_ws _ _ _) in *.
  destruct (drop_while_ws_suffix drop_ws_rev drop_ws_rev_suffix (length front) (rev front))
    as [k' Hk'].
  assert (Forall P (rev front)) as Hr.
  { apply Forall_rev. rewrite Hk in H. by apply Forall_app in H as [_ ?]. }
  rewrite Hk' in Hr. by apply Forall_app in Hr as [_ ?].
Qed.

(** Trimming removes all the white space it can: a second pass changes
    nothing. *)
Lemma trim_idem s : trim (trim s) = trim s.
Proof.
  unfold trim. rewrite bytes_of_of_bytes by apply trim_bytes_forall, bytes_of_lt.
  by rewrite trim_bytes_idem.
Qed.

#[export] Hint Rewrite strip_prefix_app starts_with_app to_ascii_lowercase_idem trim_idem : alms.

(** * Options and lists *)

Lemma is_Some_None_iff {A B} (o : option A) : (is_Some o ↔ is_Some (@None B)) → o = None.
Proof. intros H. apply eq_None_not_Some. intros Ho. by apply H, is_Some_None in Ho. Qed.

Lemma filter_none {A} (P : A → Prop) `{∀ x, Decision (P x)} (l : list A) :
  Forall (λ x, ¬ P x) l → filter P l = [].
Proof. induction 1; [done|]. by rewrite filter_cons_False. Qed.

Lemma filter_ext_in {A} (P Q : A → Prop) `{∀ x, Decision (P x)} `{∀ x, Decision (Q x)}
    (l : list A) :
  Forall (λ x, P x ↔ Q x) l → filter P l = filter Q l.
Proof.
  induction 1 as [|x l Hx _ IH]; [done|]. rewrite !filter_cons, IH.
  repeat case_decide; naive_solver.
Qed.

Lemma filter_split {A} (P : A → Prop) `{∀ x, Decision (P x)} (l : list A) : l ≡ₚ filter P l ++ filter (λ x, ¬ P x) l.
Proof.
  induction l as [|x l IH]; [done|]. rewrite !filter_cons. destruct (decide (P x)) as [Hx|Hx].
  - rewrite decide_False by tauto. cbn. by rewrite <- IH.
  - rewrite decide_True by done. by rewrite <- Permutation_middle, <- IH.
Qed.

Lemma omap_delete_perm {A B} (f : A → option B) (l : list A) i x : l !! i = Some x →
  omap f l ≡ₚ option_list (f x) ++ omap f (delete i l).
Proof.
  intros Hi. rewrite (delete_Permutation l i x Hi) at 1. cbn. by destruct (f x).
Qed.

Lemma list_delete_insert {A} (l : list A) : ∀ i y, delete i (<[i := y]> l) = delete i l.
Proof. induction l as [|x l IH]; intros [|i] y; [done..|]. cbn. f_equal. apply IH. Qed.

Lemma omap_insert_perm {A B} (f : A → option B) (l : list A) i x y : l !! i = Some x →
  omap f (<[i := y]> l) ≡ₚ option_list (f y) ++ omap f (delete i l).
Proof.
  intros Hi. rewrite (omap_delete_perm f (<[i := y]> l) i y).
  - by rewrite list_delete_insert.
  - apply list_lookup_insert_eq. by eapply lookup_lt_Some.
Qed.

Lemma omap_NoDup_index {A B} (f : A → option B) (l : list A) i j x y k :
  NoDup (omap f l) → l !! i = Some x → l !! j = Some y → f x = Some k → f y = Some k → i = j.
Proof.
  intros Hnd Hi Hj Hx Hy. destruct (decide (i = j)) as [|Hne]; [done|exfalso].
  rewrite (omap_delete_perm f l i x Hi), Hx in Hnd. apply NoDup_cons in Hnd as [Hn _]. apply Hn, list_elem_of_omap.
  exists y. split; [|done]. rewrite delete_take_drop. apply elem_of_app. destruct (decide (j < i)%nat) as [Hlt|Hge].
  - left. apply elem_of_take. eauto.
  - right. apply list_elem_of_lookup. exists (j - S i)%nat. rewrite lookup_drop. replace (S i + (j - S i))%nat with j by lia. done.
Qed.

Lemma filter_all {A} (P : A → Prop) `{∀ x, Decision (P x)} (l : list A) :
  Forall P l → filter P l = l.
Proof. induction 1; [done|]. by rewrite filter_cons_True, IHForall. Qed.

(** ** Stable sorting by an integer key

    [slice::sort_by_key]: a stable sort.  Inserting from the right in front of
    the first element that is not smaller keeps equal keys in their order. *)
Section sort_by_key.
Context {A : Type} (key : A → Z).

Fixpoint insert_by_key (x : A) (l : list A) : list A :=
  match l with
  | [] => [x]
  | y :: l' => if (key x <=? key y)%Z then x :: l else y :: insert_by_key x l'
  end.

Definition sort_by_key (l : list A) : list A := foldr insert_by_key [] l.

Lemma insert_by_key_perm x l : insert_by_key x l ≡ₚ x :: l.
Proof.
  induction l as [|y l IH]; simpl; [done|]. destruct (key x <=? key y)%Z; [done|].
  by rewrite IH, Permutation_swap.
Qed.

Lemma sort_by_key_perm l : sort_by_key l ≡ₚ l.
Proof. induction l as [|x l IH]; simpl; [done|]. by rewrite insert_by_key_perm, IH. Qed.

Lemma insert_by_key_sorted x l :
  StronglySorted (λ a b, (key a ≤ key b)%Z) l →
  StronglySorted (λ a b, (key a ≤ key b)%Z) (insert_by_key x l).
Proof.
  induction 1 as [|y l Hs IH Hy]; simpl; [repeat constructor|].
  destruct (Z.leb_spec (key x) (key y)) as [Hxy|Hxy].
  - constructor; [by constructor|]. constructor; [done|].
    eapply Forall_impl; [exact Hy|]. simpl. lia.
  - constructor; [done|]. rewrite insert_by_key_perm. constructor; [lia|done].
Qed.

Lemma sort_by_key_sorted l : StronglySorted (λ a b, (key a ≤ key b)%Z) (sort_by_key l).
Proof. induction l; simpl; [constructor|]. by apply insert_by_key_sorted. Qed.

Lemma insert_by_key_filter x l k :
  filter (λ y, key y = k) (insert_by_key x l) = filter (λ y, key y = k) (x :: l).
Proof.
  induction l as [|y l IH]; [done|]. cbn [insert_by_key].
  destruct (Z.leb_spec (key x) (key y)) as [|Hxy]; [done|].
  rewrite filter_cons, IH, !filter_cons. repeat case_decide; simplify_eq; try done. lia.
Qed.

(** Stability: the elements of one key keep their order. *)
Lemma sort_by_key_stable l k :
  filter (λ y, key y = k) (sort_by_key l) = filter (λ y, key y = k) l.
Proof.
  induction l as [|x l IH]; [done|]. cbn [sort_by_key foldr].
  fold (sort_by_key l). rewrite insert_by_key_filter, !filter_cons, IH. done.
Qed.

Lemma insert_by_key_last x l :
  Forall (λ y, (key y < key x)%Z) l → insert_by_key x l = l ++ [x].
Proof.
  induction 1 as [|y l Hy _ IH]; simpl; [done|].
  destruct (Z.leb_spec (key x) (key y)); [lia|]. by rewrite IH.
Qed.

(** An element of the largest key, strictly above the others, is sorted to the
    end. *)
Lemma sort_by_key_max l1 x l2 :
  Forall (λ y, (key y < key x)%Z) (l1 ++ l2) →
  sort_by_key (l1 ++ x :: l2) = sort_by_key (l1 ++ l2) ++ [x].
Proof.
  intros Hall. apply Forall_app in Hall as [H1 H2]. induction H1 as [|y l1 Hy H1 IH]; simpl.
  - rewrite insert_by_key_last; [done|]. by rewrite sort_by_key_perm.
  - rewrite IH. generalize (sort_by_key (l1 ++ l2)) as l. intros l.
    induction l as [|z l IHl]; simpl.
    + destruct (Z.leb_spec (key y) (key x)); [done|lia].
    + destruct (key y <=? key z)%Z; [done|]. by rewrite IHl.
Qed.
End sort_by_key.

(** [Iterator::max] on integers. *)
Fixpoint max_opt (l : list Z) : option Z :=
  match l with
  | [] => None
  | x :: l' => match max_opt l' with Some y => Some (Z.max x y) | None => Some x end
  end.

Lemma max_opt_upper l m : max_opt l = Some m → Forall (λ x, (x ≤ m)%Z) l.
Proof.
  revert m; induction l as [|x l IH]; intros m; simpl; [done|].
  destruct (max_opt l) as [y|] eqn:E; intros [= <-]; constructor; try lia.
  - eapply Forall_impl; [by apply IH|]. simpl. lia.
  - destruct l; [constructor|]. simpl in E. by destruct (max_opt l).
Qed.

Lemma max_opt_elem l m : max_opt l = Some m → m ∈ l.
Proof.
  revert m; induction l as [|x l IH]; intros m; simpl; [done|].
  destruct (max_opt l) as [y|] eqn:E; intros [= <-]; [|left].
  destruct (Z.max_spec x y) as [[? ->]|[? ->]]; [right; by apply IH|left].
Qed.

Lemma max_opt_None l : max_opt l = None → l = [].
Proof. destruct l; simpl; [done|]. by destruct (max_opt l). Qed.

(** ** Sums over finite maps *)
Section map_sum.
Context {K : Type} `{Countable K} {A : Type} (f : A → nat).

Definition map_sum (m : gmap K A) : nat := map_fold (λ _ x acc, f x + acc) 0 m.

Lemma map_sum_empty : map_sum ∅ = 0.
Proof. apply map_fold_empty. Qed.

Lemma map_sum_insert m i x : m !! i = None → map_sum (<[i := x]> m) = f x + map_sum m.
Proof. intros Hi. unfold map_sum. rewrite map_fold_insert_L; [done| |done]. intros; lia. Qed.

Lemma map_sum_delete m i x : m !! i = Some x → f x + map_sum (delete i m) = map_sum m.
Proof.
  intros Hi. rewrite <-(insert_delete_id m i x Hi) at 2.
  by rewrite map_sum_insert by apply lookup_delete_eq.
Qed.

Lemma map_sum_update m i x y :
  m !! i = Some x → f x + map_sum (<[i := y]> m) = f y + map_sum m.
Proof.
  intros Hi. rewrite <-(insert_delete_eq m i y), map_sum_insert by apply lookup_delete_eq.
  rewrite <-(map_sum_delete m i x Hi). lia.
Qed.

Lemma map_sum_elem m i x : m !! i = Some x → f x ≤ map_sum m.
Proof. intros Hi. rewrite <-(map_sum_delete m i x Hi). lia. Qed.
End map_sum.

Lemma map_sum_zero {K A} `{Countable K} (f : A → nat) (m : gmap K A) :
  (∀ i x, m !! i = Some x → f x = 0) → map_sum f m = 0.
Proof.
  induction m as [|i x m Hi IH] using map_ind; intros Hz; [apply map_sum_empty|].
  rewrite map_sum_insert by done. rewrite (Hz i x) by apply lookup_insert_eq.
  rewrite IH; [done|]. intros j y Hj. apply (Hz j). rewrite lookup_insert_ne; [done|]. congruence.
Qed.
