(* ===== verification/Ident.v ===== *)
(** Identities and context ids: [alms-core/src/lib.rs], [source_label.rs] and
    the agent-name validator of [registry.rs].

    Every session carries a [context_id] string whose prefix is its type and
    whose body carries ownership (the two participants of a DM, the parent of
    a subagent).  The [uuid] crate is a parameter, the class [UuidCrate], with
    the documented facts the code relies on in [UuidLaws]. *)
From S2P Require Import Prelude.

(** * Identifiers *)

(** A 128-bit [uuid::Uuid]. *)
Record Uuid := MkUuid { uuid_bits : N }.
Definition uuid_nil : Uuid := MkUuid 0.
Definition uuid_valid (u : Uuid) : bool := (uuid_bits u <? 2 ^ 128)%N.

Record AgentId := MkAgentId { agent_uuid : Uuid }.
Record SessionId := MkSessionId { session_uuid : Uuid }.
Record RunId := MkRunId { run_uuid : Uuid }.
Record JobId := MkJobId { job_uuid : Uuid }.

#[export] Instance uuid_eq_dec : EqDecision Uuid.
Proof. solve_decision. Defined.
#[export] Instance uuid_countable : Countable Uuid.
Proof. by refine (inj_countable' uuid_bits MkUuid _); intros []. Defined.
#[export] Instance agent_id_eq_dec : EqDecision AgentId.
Proof. solve_decision. Defined.
#[export] Instance agent_id_countable : Countable AgentId.
Proof. by refine (inj_countable' agent_uuid MkAgentId _); intros []. Defined.
#[export] Instance session_id_eq_dec : EqDecision SessionId.
Proof. solve_decision. Defined.
#[export] Instance session_id_countable : Countable SessionId.
Proof. by refine (inj_countable' session_uuid MkSessionId _); intros []. Defined.
#[export] Instance run_id_eq_dec : EqDecision RunId.
Proof. solve_decision. Defined.
#[export] Instance run_id_countable : Countable RunId.
Proof. by refine (inj_countable' run_uuid MkRunId _); intros []. Defined.
#[export] Instance job_id_eq_dec : EqDecision JobId.
Proof. solve_decision. Defined.
#[export] Instance job_id_countable : Countable JobId.
Proof. by refine (inj_countable' job_uuid MkJobId _); intros []. Defined.

(** The [uuid] crate: parsing, the [Display] rendering and v5 derivation. *)
Class UuidCrate := {
  parse_str : string → option Uuid;
  uuid_to_string : Uuid → string;
  new_v5 : Uuid → string → Uuid;
}.

(** Documented behaviour of the crate: what [Display] prints parses back, no
    accepted input format (simple, hyphenated, URN, braced) contains an
    underscore, and a parsed value has 128 bits. *)
Class UuidLaws (U : UuidCrate) := {
  parse_to_string u : uuid_valid u = true → parse_str (uuid_to_string u) = Some u;
  parse_no_underscore s u : parse_str s = Some u → char_in "_"%char s = false;
  parse_valid s u : parse_str s = Some u → uuid_valid u = true;
}.

(** * Session types *)

Definition classify_session_type (context_id : string) : string :=
  if starts_with context_id "dm:" then "dm"
  else if starts_with context_id "notifications:" then "notification"
  else if starts_with context_id "job_" then "job"
  else if starts_with context_id "subagent_" then "subagent"
  else if starts_with context_id "episodic:" then "episodic"
  else if starts_with context_id "telegram_" then "telegram"
  else "chat".

(** * Agent names *)

Definition RESERVED_AGENT_NAMES : list string := ["default"; "dm"; "workspace"].

(** The five messages of [AlmsError::InvalidConfig] the validator builds. *)
Inductive NameError :=
| NameLength (len : nat)
| NameHyphen (name : string)
| NameCharacter (name : string)
| NameReserved (name : string)
| NameUuid (name : string).

Definition name_char_ok (a : ascii) : bool :=
  is_ascii_alphanumeric a || Ascii.eqb a "-"%char.

Fixpoint last_char (s : string) : option ascii :=
  match s with
  | EmptyString => None
  | String a EmptyString => Some a
  | String _ s' => last_char s'
  end.

Definition is_hyphen (o : option ascii) : bool :=
  match o with Some a => Ascii.eqb a "-"%char | None => false end.

Section Uuid.
Context `{U : UuidCrate}.

Definition validate_agent_name (name : string) : Result unit NameError :=
  if String.eqb name "" || Nat.ltb 64 (String.length name) then
    Err (NameLength (String.length name))
  else if is_hyphen (String.get 0 name) || is_hyphen (last_char name) then
    Err (NameHyphen name)
  else if negb (forall_chars name_char_ok name) then Err (NameCharacter name)
  else if existsb (λ reserved, eq_ignore_ascii_case reserved name) RESERVED_AGENT_NAMES then
    Err (NameReserved name)
  else match parse_str name with
       | Some _ => Err (NameUuid name)
       | None => Ok tt
       end.

(** * Subagent contexts *)

Inductive SubagentOwner :=
| Named (name : string)
| Ephemeral.

Definition split_subagent_context (context_id : string) : option (AgentId * string) :=
  rest ← strip_prefix "subagent_" context_id;
  '(parent, trailing) ← split_once "_"%char rest;
  u ← parse_str parent;
  Some (MkAgentId u, trailing).

Definition parse_subagent_context (context_id : string) : option SubagentOwner :=
  '(_, trailing) ← split_subagent_context context_id;
  match parse_str trailing with
  | Some _ => Some Ephemeral
  | None => match validate_agent_name trailing with
            | Ok _ => Some (Named trailing)
            | Err _ => None
            end
  end.

Definition parse_subagent_parent (context_id : string) : option AgentId :=
  fst <$> split_subagent_context context_id.

Definition named_subagent_context_id (parent_agent_id : AgentId) (name : string) : string :=
  "subagent_" +:+ uuid_to_string (agent_uuid parent_agent_id) +:+ "_" +:+ name.

Inductive SubagentAccessDenial :=
| OtherParent
| LegacyNoParent
| UnrecognizedShape.

Inductive SubagentSessionAccess :=
| NotSubagent
| Owner (trailing : string)
| Denied (reason : SubagentAccessDenial).

Definition denial_message (d : SubagentAccessDenial) (session_id : SessionId) : string :=
  let sid := uuid_to_string (session_uuid session_id) in
  match d with
  | OtherParent =>
      "Session " +:+ sid +:+ " belongs to another agent's subagent. You can only read "
      +:+ "sessions of subagents you invoked."
  | LegacyNoParent =>
      "Session " +:+ sid +:+ " is a legacy ephemeral subagent session without parent "
      +:+ "ownership metadata and cannot be read back."
  | UnrecognizedShape =>
      "Session " +:+ sid +:+ " has an unrecognized subagent session format."
  end.

Definition subagent_session_access (context_id : string) (reader : AgentId)
    : SubagentSessionAccess :=
  match strip_prefix "subagent_" context_id with
  | None => NotSubagent
  | Some rest =>
      match parse_str rest with
      | Some _ => Denied LegacyNoParent
      | None =>
          match split_subagent_context context_id with
          | Some (parent, trailing) =>
              if decide (parent = reader) then Owner trailing else Denied OtherParent
          | None => Denied UnrecognizedShape
          end
      end
  end.

(** * Deterministic ids *)

Definition ALMS_NAMESPACE : Uuid := MkUuid 0xa1b2c3d4e5f64789abcdef0123456789.

Definition agent_is_nil (a : AgentId) : bool := bool_decide (agent_uuid a = uuid_nil).

Definition deterministic_agent (parent : AgentId) (subagent_name : string) : AgentId :=
  MkAgentId (new_v5 ALMS_NAMESPACE
    (uuid_to_string (agent_uuid parent) +:+ ":" +:+ subagent_name)).

Definition deterministic (context : string) : SessionId :=
  MkSessionId (new_v5 ALMS_NAMESPACE context).

(** * Direct messages *)

Definition dm_context_id (a b : string) : string :=
  let '(first, second) := if String.ltb a b then (a, b) else (b, a) in
  "dm:" +:+ first +:+ ":" +:+ second.

Definition deterministic_dm (a b : string) : SessionId := deterministic (dm_context_id a b).

Definition dm_participants (context_id : string) : option (string * string) :=
  rest ← strip_prefix "dm:" context_id;
  split_once ":"%char rest.

Definition dm_peer (context_id agent_name : string) : option string :=
  '(a, b) ← dm_participants context_id;
  if eq_ignore_ascii_case a agent_name then Some b
  else if eq_ignore_ascii_case b agent_name then Some a
  else None.

End Uuid.

(** * Source labels *)

Record SourceLabel := { source_type : string; source_label : string }.

(** The largest character boundary at or below [end]. *)
Fixpoint boundary_below (s : string) (e : nat) : nat :=
  if is_char_boundary s e then e
  else match e with O => O | S e' => boundary_below s e' end.

Definition truncate_to_char_boundary (s : string) (max : nat) : string :=
  if Nat.leb (String.length s) max then s else str_take (boundary_below s max) s.

(** The smallest character boundary at or above [start]; [fuel] is the
    distance to the end of the text, which is a boundary. *)
Fixpoint boundary_above (s : string) (fuel start : nat) : nat :=
  if is_char_boundary s start then start
  else match fuel with O => start | S n => boundary_above s n (S start) end.

Definition tail_to_char_boundary (s : string) (max : nat) : string :=
  if Nat.leb (String.length s) max then s
  else str_drop (boundary_above s max (String.length s - max)) s.

Definition derive_source_label (context_id agent_name : string) : option SourceLabel :=
  if starts_with context_id "dm:" then
    match dm_peer context_id agent_name with
    | Some peer => Some {| source_type := "dm"; source_label := "DM with " +:+ peer |}
    | None => None
    end
  else if starts_with context_id "subagent_" then None
  else if starts_with context_id "episodic:" then None
  else if starts_with context_id "notifications:" then None
  else if starts_with context_id "telegram_" then
    Some {| source_type := "telegram"; source_label := "Telegram chat" |}
  else match strip_prefix "job_" context_id with
       | Some job_part =>
           let label :=
             if Nat.ltb 40 (String.length job_part) then
               "Scheduled job: " +:+ truncate_to_char_boundary job_part 37 +:+ "..."
             else "Scheduled job: " +:+ job_part in
           Some {| source_type := "job"; source_label := label |}
       | None => Some {| source_type := "web"; source_label := "User chat" |}
       end.

(** * A concrete rendering of UUIDs

    The crate's "simple" format, 32 hexadecimal digits: an instance of the
    interface on which the theorems below are evaluated. *)
Module SimpleUuid.
Local Open Scope N_scope.

Definition hex_digit (n : N) : ascii :=
  if n <? 10 then ascii_of_N (48 + n) else ascii_of_N (87 + n).

Definition hex_value (a : ascii) : option N :=
  let n := N_of_ascii a in
  if is_ascii_digit a then Some (n - 48)
  else if (97 <=? n) && (n <=? 102) then Some (n - 87)
  else if (65 <=? n) && (n <=? 70) then Some (n - 55)
  else None.

Fixpoint hex_print (k : nat) (n : N) : string :=
  match k with
  | O => EmptyString
  | S k' => hex_print k' (n / 16) +:+ String (hex_digit (n mod 16)) EmptyString
  end.

Fixpoint hex_read (s : string) (acc : N) : option N :=
  match s with
  | EmptyString => Some acc
  | String a s' => match hex_value a with
                   | Some v => hex_read s' (16 * acc + v)
                   | None => None
                   end
  end.

Definition fold_bytes (ns : Uuid) (s : string) : Uuid :=
  MkUuid (fold_left (λ h b, (31 * h + b) mod 2 ^ 128) (bytes_of s) (uuid_bits ns)).

Definition simple_parse (s : string) : option Uuid :=
  if Nat.eqb (String.length s) 32 then MkUuid <$> hex_read s 0 else None.

#[export] Instance simple_uuid : UuidCrate := {
  parse_str := simple_parse;
  uuid_to_string u := hex_print 32 (uuid_bits u);
  new_v5 := fold_bytes;
}.

Lemma hex_value_digit n : n < 16 → hex_value (hex_digit n) = Some n.
Proof.
  intros H. rewrite <-(N2Nat.id n). assert (N.to_nat n < 16)%nat as Hk by lia.
  revert Hk. generalize (N.to_nat n) as k. intros k Hk.
  do 16 (destruct k as [|k]; [done|]). lia.
Qed.

Lemma hex_read_app s t acc :
  hex_read (s +:+ t) acc = match hex_read s acc with Some v => hex_read t v | None => None end.
Proof.
  revert acc; induction s as [|a s IH]; intros acc; simpl; [done|].
  destruct (hex_value a); auto.
Qed.

Lemma hex_print_length k n : String.length (hex_print k n) = k.
Proof.
  revert n; induction k as [|k IH]; intros n; simpl; [done|].
  rewrite str_length_app, IH. simpl. lia.
Qed.

Lemma hex_read_print k n acc :
  hex_read (hex_print k n) acc = Some (16 ^ N.of_nat k * acc + n mod 16 ^ N.of_nat k).
Proof.
  revert n acc; induction k as [|k IH]; intros n acc.
  - simpl. f_equal. rewrite N.mod_1_r. lia.
  - cbn [hex_print]. rewrite hex_read_app, IH. cbn [hex_read].
    rewrite hex_value_digit by (apply N.mod_lt; lia). f_equal.
    rewrite Nat2N.inj_succ, N.pow_succ_r', N.Div0.mod_mul_r. lia.
Qed.

Lemma hex_read_no_underscore s acc v : hex_read s acc = Some v → char_in "_"%char s = false.
Proof.
  revert acc; induction s as [|a s IH]; intros acc; simpl; [done|].
  destruct (hex_value a) eqn:E; [|done]. intros H. rewrite (IH _ H).
  destruct (Ascii.eqb_spec a "_"%char) as [->|]; [by vm_compute in E|done].
Qed.

Lemma hex_value_bound a v : hex_value a = Some v → v < 16.
Proof.
  unfold hex_value, is_ascii_digit. cbv zeta. intros H.
  repeat case_match; simplify_eq; match goal with H : (_ && _) = true |- _ =>
    apply andb_true_iff in H as [?%N.leb_le ?%N.leb_le] end; lia.
Qed.

Lemma hex_read_bound s acc v :
  hex_read s acc = Some v → v < (acc + 1) * 16 ^ N.of_nat (String.length s).
Proof.
  revert acc; induction s as [|a s IH]; intros acc.
  - simpl. intros [= <-]. lia.
  - cbn [hex_read String.length]. destruct (hex_value a) as [d|] eqn:Hd; [|done].
    apply hex_value_bound in Hd. intros H. apply IH in H.
    rewrite Nat2N.inj_succ, N.pow_succ_r'.
    assert (0 < 16 ^ N.of_nat (String.length s)) by (apply N.neq_0_lt_0, N.pow_nonzero; lia). nia.
Qed.

#[export] Instance simple_uuid_laws : UuidLaws simple_uuid.
Proof.
  split.
  - intros [b] Hv. cbn -[hex_print N.pow]. unfold simple_parse.
    rewrite hex_print_length, Nat.eqb_refl, hex_read_print. simpl. do 2 f_equal.
    apply N.ltb_lt in Hv. apply N.mod_small.
    replace (16 ^ N.of_nat 32) with (2 ^ 128) by (vm_compute; reflexivity). exact Hv.
  - intros s u. cbn. unfold simple_parse. destruct (Nat.eqb _ _); [|done].
    destruct (hex_read s 0) eqn:E; [|done]. intros _. by eapply hex_read_no_underscore.
  - intros s u. cbn. unfold simple_parse. destruct (Nat.eqb_spec (String.length s) 32) as [Hl|]; [|done].
    destruct (hex_read s 0) as [v|] eqn:E; [|done]. intros [= <-].
    apply hex_read_bound in E. rewrite Hl in E. unfold uuid_valid. simpl uuid_bits.
    apply N.ltb_lt. exact E.
Qed.

End SimpleUuid.

(** * Facts *)

Section facts.
Context `{U : UuidCrate} `{!UuidLaws U}.

Lemma validate_agent_name_Ok name :
  validate_agent_name name = Ok tt →
  name ≠ EmptyString ∧ String.length name ≤ 64 ∧
  forall_chars name_char_ok name = true ∧ parse_str name = None.
Proof.
  unfold validate_agent_name. intros H. repeat case_match; simplify_eq.
  repeat match goal with
  | H : _ || _ = false |- _ => apply orb_false_iff in H as [??]
  | H : negb _ = false |- _ => apply negb_false_iff in H
  | H : Nat.ltb _ _ = false |- _ => apply Nat.ltb_ge in H
  | H : String.eqb _ _ = false |- _ => apply String.eqb_neq in H
  end; auto.
Qed.

Lemma valid_name_not_in name c :
  validate_agent_name name = Ok tt → name_char_ok c = false → char_in c name = false.
Proof. intros (_ & _ & Hn & _)%validate_agent_name_Ok. by apply forall_chars_not_in. Qed.

Lemma dm_context_id_comm a b : dm_context_id a b = dm_context_id b a.
Proof.
  unfold dm_context_id. destruct (String.ltb a b) eqn:E.
  - by rewrite (ltb_antisym _ _ E).
  - destruct (String.ltb b a) eqn:E'; [done|]. by rewrite (ltb_false_swap _ _ E E').
Qed.

Lemma dm_participants_context a b :
  char_in ":"%char a = false → char_in ":"%char b = false →
  dm_participants (dm_context_id a b) = Some (if String.ltb a b then (a, b) else (b, a)).
Proof.
  intros Ha Hb. unfold dm_participants, dm_context_id.
  destruct (String.ltb a b); autorewrite with alms; by apply split_once_app.
Qed.

Lemma classify_dm_context a b : classify_session_type (dm_context_id a b) = "dm".
Proof. unfold dm_context_id. by destruct (String.ltb a b). Qed.

Lemma eq_ignore_ascii_case_sym a b : eq_ignore_ascii_case a b = eq_ignore_ascii_case b a.
Proof. apply String.eqb_sym. Qed.

Lemma split_named_subagent p name :
  uuid_valid (agent_uuid p) = true →
  split_subagent_context (named_subagent_context_id p name) = Some (p, name).
Proof.
  intros Hp. unfold split_subagent_context, named_subagent_context_id.
  rewrite strip_prefix_app. cbn [mbind option_bind].
  pose proof (parse_to_string _ Hp) as Hparse.
  replace ("_" +:+ name) with (String "_" name) by reflexivity.
  rewrite split_once_app by (by eapply parse_no_underscore).
  cbn. rewrite Hparse. by destruct p.
Qed.

Lemma split_subagent_not_legacy ctx p t rest :
  split_subagent_context ctx = Some (p, t) → strip_prefix "subagent_" ctx = Some rest →
  parse_str rest = None.
Proof.
  unfold split_subagent_context. intros H Hr. rewrite Hr in H. cbn in H.
  destruct (split_once "_"%char rest) as [[l r]|] eqn:E; [|done].
  apply split_once_Some in E as [-> _].
  destruct (parse_str (l +:+ String "_" r)) eqn:Ep; [|done].
  apply parse_no_underscore in Ep. rewrite char_in_app in Ep. simpl in Ep.
  by rewrite orb_true_r in Ep.
Qed.

(** A DM between two valid names that differ beyond case has one context
    id whichever side mints it; the context classifies as a DM; and
    [dm_peer] hands each participant the other one, and nothing to any third
    name, under the case-insensitive matching names resolve with. *)
Theorem dm_context_roundtrip a b c :
  validate_agent_name a = Ok tt → validate_agent_name b = Ok tt →
  eq_ignore_ascii_case a b = false →
  dm_context_id a b = dm_context_id b a ∧
  classify_session_type (dm_context_id a b) = "dm" ∧
  dm_peer (dm_context_id a b) a = Some b ∧
  dm_peer (dm_context_id a b) b = Some a ∧
  (eq_ignore_ascii_case a c = false → eq_ignore_ascii_case b c = false →
   dm_peer (dm_context_id a b) c = None).
Proof.
  intros Ha Hb Hab.
  pose proof (valid_name_not_in a ":" Ha eq_refl) as Ca.
  pose proof (valid_name_not_in b ":" Hb eq_refl) as Cb.
  pose proof Hab as Hba. rewrite eq_ignore_ascii_case_sym in Hba.
  split; [apply dm_context_id_comm|]. split; [apply classify_dm_context|].
  unfold dm_peer. rewrite (dm_participants_context a b Ca Cb).
  destruct (String.ltb a b); cbn; rewrite ?eq_ignore_ascii_case_refl, ?Hab, ?Hba;
    repeat split; try done; intros H1 H2; by rewrite ?H1, ?H2; rewrite ?H1, ?H2.
Qed.

(** DM context ids separate pairs: two pairs of valid names that mint the
    same context id are the same unordered pair, so distinct pairs never
    share a DM session key. *)
Theorem dm_context_injective a b c d :
  validate_agent_name a = Ok tt → validate_agent_name b = Ok tt →
  validate_agent_name c = Ok tt → validate_agent_name d = Ok tt →
  dm_context_id a b = dm_context_id c d →
  (a = c ∧ b = d) ∨ (a = d ∧ b = c).
Proof.
  intros Ha Hb Hc Hd E.
  pose proof (dm_participants_context a b (valid_name_not_in a ":" Ha eq_refl)
                (valid_name_not_in b ":" Hb eq_refl)) as P1.
  pose proof (dm_participants_context c d (valid_name_not_in c ":" Hc eq_refl)
                (valid_name_not_in d ":" Hd eq_refl)) as P2.
  rewrite E, P2 in P1. repeat case_match; naive_solver.
Qed.

(** The context minted for a named subagent reads back as exactly that
    parent and that name. *)
Theorem subagent_context_roundtrip p name :
  uuid_valid (agent_uuid p) = true → validate_agent_name name = Ok tt →
  parse_subagent_context (named_subagent_context_id p name) = Some (Named name) ∧
  parse_subagent_parent (named_subagent_context_id p name) = Some p ∧
  classify_session_type (named_subagent_context_id p name) = "subagent".
Proof.
  intros Hp Hn. destruct (validate_agent_name_Ok _ Hn) as (_ & _ & _ & Hu).
  unfold parse_subagent_context, parse_subagent_parent.
  rewrite (split_named_subagent p name Hp). cbn. by rewrite Hu, Hn.
Qed.

(** Reading a subagent transcript is granted to the parent named in the
    context id and to nobody else: access is [Owner] for a reader exactly
    when [parse_subagent_parent] returns that reader.  Every other
    [subagent_] context is a denial (the legacy shape for everyone), and only
    a context without the prefix is left to another rule. *)
Theorem subagent_access_owner ctx reader :
  ((∃ t, subagent_session_access ctx reader = Owner t) ↔
   parse_subagent_parent ctx = Some reader) ∧
  (subagent_session_access ctx reader = NotSubagent ↔ starts_with ctx "subagent_" = false) ∧
  (∀ other, parse_subagent_parent ctx = Some other → other ≠ reader →
   subagent_session_access ctx reader = Denied OtherParent).
Proof.
  unfold subagent_session_access, parse_subagent_parent, starts_with.
  destruct (strip_prefix "subagent_" ctx) as [rest|] eqn:Er.
  2: { assert (split_subagent_context ctx = None) as ->
         by (unfold split_subagent_context; by rewrite Er). naive_solver. }
  destruct (split_subagent_context ctx) as [[p t]|] eqn:Es; cbn.
  - rewrite (split_subagent_not_legacy _ _ _ _ Es Er).
    case_decide; naive_solver.
  - destruct (parse_str rest); naive_solver.
Qed.

End facts.

(** ** Truncation at character boundaries *)

Lemma boundary_below_spec s e :
  boundary_below s e ≤ e ∧ is_char_boundary s (boundary_below s e) = true ∧
  ∀ j, j ≤ e → is_char_boundary s j = true → j ≤ boundary_below s e.
Proof.
  induction e as [|e IH]; cbn [boundary_below].
  - by destruct (is_char_boundary s 0) eqn:E.
  - destruct (is_char_boundary s (S e)) eqn:E; [by auto|].
    destruct IH as (H1 & H2 & H3). split; [lia|]. split; [done|].
    intros j Hj Hb. apply H3; [|done]. destruct (decide (j = S e)); [congruence|lia].
Qed.

Lemma boundary_above_spec s fuel start :
  start + fuel = String.length s →
  start ≤ boundary_above s fuel start ≤ String.length s ∧
  is_char_boundary s (boundary_above s fuel start) = true ∧
  ∀ j, start ≤ j → is_char_boundary s j = true → boundary_above s fuel start ≤ j.
Proof.
  revert start; induction fuel as [|n IH]; intros start Hl; cbn [boundary_above].
  - replace start with (String.length s) by lia.
    rewrite !is_char_boundary_len. split_and!; auto with lia.
  - destruct (is_char_boundary s start) eqn:E; [split; [lia|]; auto|].
    destruct (IH (S start) ltac:(lia)) as (H1 & H2 & H3).
    split; [lia|]. split; [done|]. intros j Hj Hb. apply H3; [|done].
    destruct (decide (j = start)); [congruence|lia].
Qed.

(** [truncate_to_char_boundary] keeps the longest prefix, and
    [tail_to_char_boundary] the longest suffix, of at most [max] bytes whose
    cut falls on a character boundary; a text already within [max] is
    returned unchanged. *)
Theorem char_boundary_truncation s max :
  (String.length s ≤ max →
   truncate_to_char_boundary s max = s ∧ tail_to_char_boundary s max = s) ∧
  (max < String.length s →
   ∃ e b, truncate_to_char_boundary s max = str_take e s ∧
          tail_to_char_boundary s max = str_drop b s ∧
          e ≤ max ∧ String.length s - b ≤ max ∧ b ≤ String.length s ∧
          is_char_boundary s e = true ∧ is_char_boundary s b = true ∧
          ∀ j, is_char_boundary s j = true →
            (j ≤ max → j ≤ e) ∧ (String.length s - max ≤ j → b ≤ j)).
Proof.
  unfold truncate_to_char_boundary, tail_to_char_boundary. split; intros H.
  - by rewrite (proj2 (Nat.leb_le _ _) H).
  - rewrite (proj2 (Nat.leb_gt _ _) H).
    destruct (boundary_below_spec s max) as (H1 & H2 & H3).
    destruct (boundary_above_spec s max (String.length s - max) ltac:(lia)) as (B1 & B2 & B3).
    exists (boundary_below s max), (boundary_above s max (String.length s - max)).
    repeat split; auto; lia.
Qed.

(** A session is left out of user-facing summaries exactly when
    [classify_session_type] calls it a subagent, episodic or notification
    session, or a DM the agent does not take part in; the two prefix tables
    agree. *)
Theorem source_label_excludes ctx agent :
  derive_source_label ctx agent = None ↔
  classify_session_type ctx ∈ ["subagent"; "episodic"; "notification"] ∨
  (classify_session_type ctx = "dm" ∧ dm_peer ctx agent = None).
Proof.
  unfold derive_source_label, classify_session_type.
  assert (∀ s l, (s : string) ∈ l ↔ existsb (String.eqb s) l = true) as Hin.
  { intros s l. rewrite existsb_exists. setoid_rewrite String.eqb_eq.
    rewrite list_elem_of_In. naive_solver. }
  rewrite Hin.
  destruct (starts_with ctx "dm:") eqn:E1; [by destruct (dm_peer ctx agent); naive_solver|].
  destruct (starts_with ctx "subagent_") eqn:E2.
  { apply starts_with_true in E2 as [r ->]. by split; [left|]. }
  destruct (starts_with ctx "episodic:") eqn:E3.
  { apply starts_with_true in E3 as [r ->]. by split; [left|]. }
  destruct (starts_with ctx "notifications:") eqn:E4; [by split; [left|]|].
  destruct (starts_with ctx "telegram_") eqn:E5.
  { apply starts_with_true in E5 as [r ->]. split; [done|]. by intros [H|[H _]]. }
  unfold starts_with. destruct (strip_prefix "job_" ctx); (split; [done|]);
    by intros [H|[H _]].
Qed.

(** * Witnesses *)

Section witnesses.
Import SimpleUuid.

Lemma dm_context_roundtrip_witness :
  dm_context_id "atlas" "Bob" = "dm:Bob:atlas" ∧
  dm_peer (dm_context_id "atlas" "Bob") "ATLAS" = Some "Bob" ∧
  dm_peer (dm_context_id "atlas" "Bob") "Bob" = Some "atlas" ∧
  dm_peer (dm_context_id "atlas" "Bob") "carol" = None.
Proof.
  destruct (dm_context_roundtrip (U:=simple_uuid) "atlas" "Bob" "carol" eq_refl eq_refl eq_refl)
    as (_ & _ & _ & H & H'). split; [reflexivity|]. split; [reflexivity|].
  split; [exact H | exact (H' eq_refl eq_refl)].
Defined.

Lemma dm_context_injective_witness :
  ("atlas" = "atlas" ∧ "Bob" = "Bob") ∨ ("atlas" = "Bob" ∧ "Bob" = "atlas").
Proof. exact (dm_context_injective (U:=simple_uuid) "atlas" "Bob" "atlas" "Bob" eq_refl eq_refl eq_refl eq_refl eq_refl). Defined.

Lemma subagent_context_roundtrip_witness :
  parse_subagent_context (named_subagent_context_id (MkAgentId (MkUuid 42)) "Scout")
    = Some (Named "Scout").
Proof. exact (proj1 (subagent_context_roundtrip (U:=simple_uuid) (MkAgentId (MkUuid 42)) "Scout" eq_refl eq_refl)). Defined.

Lemma subagent_access_owner_witness :
  parse_subagent_parent "subagent_0000000000000000000000000000002a_scout"
    = Some (MkAgentId (MkUuid 42)) ∧
  subagent_session_access "subagent_0000000000000000000000000000002a_scout" (MkAgentId (MkUuid 7))
    = Denied OtherParent.
Proof.
  split; [reflexivity|].
  apply (proj2 (proj2 (subagent_access_owner (U:=simple_uuid)
    "subagent_0000000000000000000000000000002a_scout" (MkAgentId (MkUuid 7))))
    (MkAgentId (MkUuid 42))); [reflexivity | discriminate].
Defined.

End witnesses.
