(* ===== verification/Lifecycle.v ===== *)
(** Lifecycle transitions: [alms-core/src/lifecycle.rs], and the interface a
    lifecycle state machine promises.

    [Run] and [Job] are both guarded by one [transition] function whose
    outcome gates every external side effect.  [Lifecycle] names what such a
    machine provides and [LifecycleLaws] what it promises; the theorems on
    request sequences are proved once, here, against the interface. *)
From S2P Require Import Prelude.

(** The largest revision SQLite's INTEGER represents. *)
Definition MAX_LIFECYCLE_REVISION : Z := i64_max.

Inductive TransitionOutcome (St : Type) : Type :=
| Applied (from to : St) (revision : Z)
| NoOp (state : St) (revision : Z)
| Rejected (from to : St) (revision : Z).
Arguments Applied {St} from to revision.
Arguments NoOp {St} state revision.
Arguments Rejected {St} from to revision.

Definition is_applied {St} (o : TransitionOutcome St) : bool :=
  match o with Applied _ _ _ => true | _ => false end.

Definition outcome_revision {St} (o : TransitionOutcome St) : Z :=
  match o with Applied _ _ r => r | NoOp _ r => r | Rejected _ _ r => r end.

(** * The interface *)

Class Lifecycle (R T St : Type) := {
  lc_status : R → St;
  lc_revision : R → Z;
  lc_terminal : St → bool;
  (** [lc_apply now r t] is [r.transition(t)] with the clock reading [now]. *)
  lc_apply : Z → R → T → R * TransitionOutcome St;
}.

Class LifecycleLaws {R T St} (L : Lifecycle R T St) := {
  (** Only an applied transition changes the record: it leaves a
      non-terminal status, reaches the status it reports and advances the
      revision by one, below the bound. *)
  lc_applied now r t r' from to rev :
    lc_apply now r t = (r', Applied from to rev) →
    from = lc_status r ∧ to = lc_status r' ∧ lc_terminal from = false ∧
    rev = (lc_revision r + 1)%Z ∧ lc_revision r' = rev ∧
    (lc_revision r < MAX_LIFECYCLE_REVISION)%Z;
  lc_unapplied now r t r' o :
    lc_apply now r t = (r', o) → is_applied o = false →
    r' = r ∧ outcome_revision o = lc_revision r;
}.

(** A sequence of requests, each with its clock reading. *)
Fixpoint lc_run {R T St : Type} `{Lifecycle R T St} (r : R) (reqs : list (Z * T))
    : R * list (TransitionOutcome St) :=
  match reqs with
  | [] => (r, [])
  | (now, t) :: reqs' =>
      let '(r1, o) := lc_apply now r t in
      let '(r2, os) := lc_run r1 reqs' in
      (r2, o :: os)
  end.

Definition applied_count {St} (os : list (TransitionOutcome St)) : nat :=
  length (filter (λ o, is_applied o = true) os).

(** The applied outcomes that entered a terminal status. *)
Definition terminal_wins {R T St : Type} `{L : Lifecycle R T St} (os : list (TransitionOutcome St)) : nat :=
  length (filter (λ o, match o with Applied _ to _ => lc_terminal to | _ => false end = true) os).

(** * Theorems on request sequences *)

Section laws.
Context {R T St : Type} `{L : Lifecycle R T St} `{!LifecycleLaws L}.

Lemma lc_terminal_stuck now r t r' o :
  lc_terminal (lc_status r) = true → lc_apply now r t = (r', o) →
  r' = r ∧ is_applied o = false.
Proof.
  intros Ht E. destruct (is_applied o) eqn:Ho.
  - destruct o as [from to rev| |]; try done.
    apply lc_applied in E as (-> & _ & Hf & _). congruence.
  - by destruct (lc_unapplied _ _ _ _ _ E Ho).
Qed.

Lemma lc_run_terminal r reqs :
  lc_terminal (lc_status r) = true →
  ∃ os, lc_run r reqs = (r, os) ∧ Forall (λ o, is_applied o = false) os.
Proof.
  intros Ht. induction reqs as [|[now t] reqs IH]; simpl; [eauto|].
  destruct (lc_apply now r t) as [r1 o] eqn:E.
  destruct (lc_terminal_stuck _ _ _ _ _ Ht E) as [-> Ho].
  destruct IH as (os & -> & Hos). eauto.
Qed.

Lemma lc_run_revision r reqs r' os :
  lc_run r reqs = (r', os) →
  lc_revision r' = (lc_revision r + Z.of_nat (applied_count os))%Z.
Proof.
  revert r r' os; induction reqs as [|[now t] reqs IH]; intros r r' os; simpl.
  - intros [= <- <-]. unfold applied_count. simpl. lia.
  - destruct (lc_apply now r t) as [r1 o] eqn:E.
    destruct (lc_run r1 reqs) as [r2 os'] eqn:E'. intros [= <- <-].
    apply IH in E'. unfold applied_count in *. rewrite filter_cons.
    destruct (is_applied o) eqn:Ho.
    + rewrite decide_True by done. destruct o; try done. simpl length.
      apply lc_applied in E as (_ & _ & _ & -> & Hr & _). lia.
    + rewrite decide_False by done. destruct (lc_unapplied _ _ _ _ _ E Ho) as [-> _]. done.
Qed.

Lemma lc_run_one_terminal r reqs r' os :
  lc_run r reqs = (r', os) → terminal_wins os ≤ 1.
Proof.
  revert r r' os; induction reqs as [|[now t] reqs IH]; intros r r' os; simpl.
  - intros [= _ <-]. unfold terminal_wins. simpl. lia.
  - destruct (lc_apply now r t) as [r1 o] eqn:E.
    destruct (lc_run r1 reqs) as [r2 os'] eqn:E'. intros [= _ <-].
    unfold terminal_wins in *. rewrite filter_cons. case_decide as Hd; [|by eapply IH].
    destruct o as [from to rev| |]; try done.
    apply lc_applied in E as (_ & -> & _).
    destruct (lc_run_terminal r1 reqs Hd) as (os'' & E'' & Hos).
    assert (os' = os'') as -> by congruence. simpl.
    enough (filter (λ o, match o with Applied _ to _ => lc_terminal to | _ => false end = true) os''
            = []) as -> by done.
    clear -Hos. induction Hos as [|o os Ho _ IHos]; [done|].
    rewrite filter_cons, decide_False; [done|]. by destruct o.
Qed.

End laws.
