(* ===== verification/Run.v ===== *)
(** Runs: [alms-core/src/run.rs].

    A run is one agent execution.  [transition] is its only mutator; the
    gateway's terminal broadcasts, summaries and DM bookkeeping are gated on
    the boolean the [mark_*] wrappers return.  Timestamps ([DateTime<Utc>])
    are integers, and [transition] takes the reading of [Utc::now()] it
    stamps. *)
From S2P Require Import Prelude Ident Lifecycle.

(** * Data *)

Inductive ReasoningEffort := Minimal | Low | Medium | High.

#[export] Instance reasoning_effort_eq_dec : EqDecision ReasoningEffort.
Proof. solve_decision. Defined.

Definition effort_as_wire_str (e : ReasoningEffort) : string :=
  match e with
  | Minimal => "minimal" | Low => "low" | Medium => "medium" | High => "high"
  end.

Definition effort_from_str (s : string) : Result ReasoningEffort string :=
  let l := to_ascii_lowercase s in
  if String.eqb l "minimal" then Ok Minimal
  else if String.eqb l "low" then Ok Low
  else if String.eqb l "medium" then Ok Medium
  else if String.eqb l "high" then Ok High
  else Err l.

Record ResolvedRunConfig := {
  rc_provider : string;
  rc_model : string;
  rc_max_tokens : Z;
  rc_posture : string;
  rc_debug_mode : bool;
  rc_thinking_budget_tokens : Z;
  rc_reasoning_effort : option ReasoningEffort;
  rc_gemini_thinking_budget : option Z;
}.

Record TokenUsage := {
  prompt_tokens : Z;
  completion_tokens : Z;
  reasoning_tokens : option Z;
  cache_creation_input_tokens : option Z;
  cache_read_input_tokens : option Z;
}.

Inductive ToolCallRole := RoleAssistant | RoleTool.

#[export] Instance tool_call_role_eq_dec : EqDecision ToolCallRole.
Proof. solve_decision. Defined.

Definition role_to_string (r : ToolCallRole) : string :=
  match r with RoleAssistant => "assistant" | RoleTool => "tool" end.

Definition role_from_str (s : string) : Result ToolCallRole string :=
  if String.eqb s "assistant" then Ok RoleAssistant
  else if String.eqb s "tool" then Ok RoleTool
  else Err s.

Record ToolCallRecord := {
  tc_seq : Z;
  tc_role : ToolCallRole;
  tc_tool_name : option string;
  tc_tool_id : option string;
  tc_tool_invocation_id : option string;
  tc_params : option string;
  tc_result : option string;
  tc_timestamp : Z;
  tc_from_agent : option string;
}.

Inductive RunStatus := Queued | Running | Completed | Failed | Cancelled.

#[export] Instance run_status_eq_dec : EqDecision RunStatus.
Proof. solve_decision. Defined.

Definition run_is_terminal (s : RunStatus) : bool :=
  match s with Completed | Failed | Cancelled => true | Queued | Running => false end.

Inductive RunTransition :=
| Start (resolved_config : option ResolvedRunConfig)
| Complete (output : string) (usage : TokenUsage)
| Fail (error terminal_reason : string)
| Cancel (terminal_reason : string).

Definition target_status (t : RunTransition) : RunStatus :=
  match t with
  | Start _ => Running
  | Complete _ _ => Completed
  | Fail _ _ => Failed
  | Cancel _ => Cancelled
  end.

Record Run := mkRun {
  run_id : RunId;
  run_session_id : SessionId;
  run_agent_id : AgentId;
  run_status : RunStatus;
  run_input : string;
  run_output : option string;
  run_error : option string;
  run_usage : option TokenUsage;
  run_created_at : Z;
  run_started_at : option Z;
  run_ended_at : option Z;
  run_job_id : option JobId;
  run_parent_run_id : option RunId;
  run_resolved_config : option ResolvedRunConfig;
  run_lifecycle_revision : Z;
  run_terminal_reason : option string;
}.

(** * Operations *)

(** [Run::new], with the fresh run id and the clock reading it draws. *)
Definition run_new (id : RunId) (now : Z) (session_id : SessionId) (agent_id : AgentId)
    (input : string) : Run := {|
  run_id := id;
  run_session_id := session_id;
  run_agent_id := agent_id;
  run_status := Queued;
  run_input := input;
  run_output := None;
  run_error := None;
  run_usage := None;
  run_created_at := now;
  run_started_at := None;
  run_ended_at := None;
  run_job_id := None;
  run_parent_run_id := None;
  run_resolved_config := None;
  run_lifecycle_revision := 0;
  run_terminal_reason := None;
|}.

(** The three ways a record is updated by struct syntax or in place. *)
Definition set_job (r : Run) (j : option JobId) (p : option RunId) : Run :=
  mkRun (run_id r) (run_session_id r) (run_agent_id r) (run_status r) (run_input r)
    (run_output r) (run_error r) (run_usage r) (run_created_at r) (run_started_at r)
    (run_ended_at r) j p (run_resolved_config r) (run_lifecycle_revision r)
    (run_terminal_reason r).

Definition for_job (id : RunId) (now : Z) (session_id : SessionId) (agent_id : AgentId)
    (input : string) (job_id : JobId) : Run :=
  set_job (run_new id now session_id agent_id input) (Some job_id) None.

Definition for_subagent (id : RunId) (now : Z) (session_id : SessionId) (agent_id : AgentId)
    (input : string) (parent_run_id : RunId) : Run :=
  set_job (run_new id now session_id agent_id input) None (Some parent_run_id).

(** The [matches!] of [Run::transition]. *)
Definition run_legal (t : RunTransition) (from : RunStatus) : bool :=
  match t, from with
  | Start _, Queued => true
  | Complete _ _, Running => true
  | (Fail _ _ | Cancel _), (Queued | Running) => true
  | _, _ => false
  end.

(** The field updates of an accepted transition, with the status and the
    revision it reaches. *)
Definition run_effect (now : Z) (r : Run) (t : RunTransition) : Run :=
  let rev := (run_lifecycle_revision r + 1)%Z in
  match t with
  | Start cfg =>
      mkRun (run_id r) (run_session_id r) (run_agent_id r) Running (run_input r)
        (run_output r) (run_error r) (run_usage r) (run_created_at r) (Some now)
        (run_ended_at r) (run_job_id r) (run_parent_run_id r) cfg rev None
  | Complete output usage =>
      mkRun (run_id r) (run_session_id r) (run_agent_id r) Completed (run_input r)
        (Some output) (run_error r) (Some usage) (run_created_at r) (run_started_at r)
        (Some now) (run_job_id r) (run_parent_run_id r) (run_resolved_config r) rev None
  | Fail error reason =>
      mkRun (run_id r) (run_session_id r) (run_agent_id r) Failed (run_input r)
        (run_output r) (Some error) (run_usage r) (run_created_at r) (run_started_at r)
        (Some now) (run_job_id r) (run_parent_run_id r) (run_resolved_config r) rev
        (Some reason)
  | Cancel reason =>
      mkRun (run_id r) (run_session_id r) (run_agent_id r) Cancelled (run_input r)
        (run_output r) (run_error r) (run_usage r) (run_created_at r) (run_started_at r)
        (Some now) (run_job_id r) (run_parent_run_id r) (run_resolved_config r) rev
        (Some reason)
  end.

Definition run_transition (now : Z) (r : Run) (t : RunTransition)
    : Run * TransitionOutcome RunStatus :=
  let from := run_status r in
  let to := target_status t in
  let rev := run_lifecycle_revision r in
  if decide (from = to) then (r, NoOp from rev)
  else if negb (run_legal t from) then (r, Rejected from to rev)
  else if (MAX_LIFECYCLE_REVISION <=? rev)%Z then (r, Rejected from to rev)
  else (run_effect now r t, Applied from to (rev + 1)%Z).

Definition mark_running (now : Z) (r : Run) : Run * bool :=
  let '(r', o) := run_transition now r (Start None) in (r', is_applied o).

Definition mark_completed (now : Z) (r : Run) (output : string) (usage : TokenUsage)
    : Run * bool :=
  let '(r', o) := run_transition now r (Complete output usage) in (r', is_applied o).

Definition mark_failed (now : Z) (r : Run) (error : string) : Run * bool :=
  let '(r', o) := run_transition now r (Fail error "failed") in (r', is_applied o).

Definition mark_cancelled (now : Z) (r : Run) : Run * bool :=
  let '(r', o) := run_transition now r (Cancel "cancelled") in (r', is_applied o).

(** * The status response *)

Record RunStatusResponse := {
  rs_run_id : RunId;
  rs_session_id : SessionId;
  rs_agent_id : AgentId;
  rs_status : RunStatus;
  rs_lifecycle_revision : Z;
  rs_terminal_reason : option string;
  rs_response : option string;
  rs_error : option string;
  rs_started_at : option Z;
  rs_ended_at : option Z;
  rs_usage : option TokenUsage;
  rs_ts : Z;
  rs_job_id : option JobId;
  rs_parent_run_id : option RunId;
  rs_tool_call_count : option Z;
  rs_queue_position : option nat;
  rs_resolved_config : option ResolvedRunConfig;
}.

Definition response_of_run (r : Run) : RunStatusResponse := {|
  rs_run_id := run_id r;
  rs_session_id := run_session_id r;
  rs_agent_id := run_agent_id r;
  rs_status := run_status r;
  rs_lifecycle_revision := run_lifecycle_revision r;
  rs_terminal_reason := run_terminal_reason r;
  rs_response := run_output r;
  rs_error := run_error r;
  rs_started_at := run_started_at r;
  rs_ended_at := run_ended_at r;
  rs_usage := run_usage r;
  rs_ts := default (default (run_created_at r) (run_started_at r)) (run_ended_at r);
  rs_job_id := run_job_id r;
  rs_parent_run_id := run_parent_run_id r;
  rs_tool_call_count := None;
  rs_queue_position := None;
  rs_resolved_config := run_resolved_config r;
|}.

(** * DM reply classification *)

Definition is_error_result (res : option string) : bool :=
  match res with Some s => starts_with s "Error:" | None => false end.

Definition ran_ignore_message_successfully (records : list ToolCallRecord) : bool :=
  existsb (λ r,
    bool_decide (tc_role r = RoleAssistant)
    && bool_decide (tc_tool_name r = Some "ignore_message")
    && match tc_tool_id r with
       | Some call_id =>
           existsb (λ result,
             bool_decide (tc_role result = RoleTool)
             && bool_decide (tc_tool_id result = Some call_id)
             && negb (is_error_result (tc_result result))) records
       | None => false
       end) records.

Definition deliverable_dm_reply (response : string) (reasoning : option string)
    : option string :=
  let trimmed := trim response in
  if String.eqb trimmed "" then None
  else if bool_decide (reasoning = Some response) then None
  else Some trimmed.

(** * The lifecycle, abstractly *)

(** The legal moves between statuses. *)
Inductive run_step : RunStatus → RunStatus → Prop :=
| step_start : run_step Queued Running
| step_complete : run_step Running Completed
| step_fail s : s = Queued ∨ s = Running → run_step s Failed
| step_cancel s : s = Queued ∨ s = Running → run_step s Cancelled.
#[export] Hint Constructors run_step : core.

(** What a run looks like in each status. *)
Definition run_wf (r : Run) : Prop :=
  match run_status r with
  | Queued =>
      run_output r = None ∧ run_error r = None ∧ run_usage r = None ∧
      run_started_at r = None ∧ run_ended_at r = None ∧ run_resolved_config r = None ∧
      run_terminal_reason r = None ∧ run_lifecycle_revision r = 0%Z
  | Running =>
      run_output r = None ∧ run_error r = None ∧ run_usage r = None ∧
      is_Some (run_started_at r) ∧ run_ended_at r = None ∧
      run_terminal_reason r = None ∧ run_lifecycle_revision r = 1%Z
  | Completed =>
      is_Some (run_output r) ∧ run_error r = None ∧ is_Some (run_usage r) ∧
      is_Some (run_started_at r) ∧ is_Some (run_ended_at r) ∧
      run_terminal_reason r = None ∧ run_lifecycle_revision r = 2%Z
  | Failed =>
      run_output r = None ∧ is_Some (run_error r) ∧ run_usage r = None ∧
      is_Some (run_ended_at r) ∧ is_Some (run_terminal_reason r) ∧
      run_lifecycle_revision r = (match run_started_at r with Some _ => 2 | None => 1 end)%Z
  | Cancelled =>
      run_output r = None ∧ run_error r = None ∧ run_usage r = None ∧
      is_Some (run_ended_at r) ∧ is_Some (run_terminal_reason r) ∧
      run_lifecycle_revision r = (match run_started_at r with Some _ => 2 | None => 1 end)%Z
  end.

(** The fields no transition writes. *)
Definition run_identity (r : Run) :=
  (run_id r, run_session_id r, run_agent_id r, run_input r, run_created_at r,
   run_job_id r, run_parent_run_id r).

(** The stamps a run carries are ordered, and none is later than [now]. *)
Definition run_stamps (now : Z) (r : Run) : Prop :=
  (run_created_at r ≤ now)%Z ∧
  (∀ s, run_started_at r = Some s → run_created_at r ≤ s ≤ now)%Z ∧
  (∀ e, run_ended_at r = Some e → run_created_at r ≤ e ≤ now)%Z ∧
  (∀ s e, run_started_at r = Some s → run_ended_at r = Some e → s ≤ e)%Z.

(** Clock readings that never go back, starting at [now]. *)
Fixpoint clock_monotone {A} (now : Z) (reqs : list (Z * A)) : Prop :=
  match reqs with
  | [] => True
  | (t, _) :: reqs' => (now ≤ t)%Z ∧ clock_monotone t reqs'
  end.

#[export] Instance run_lifecycle : Lifecycle Run RunTransition RunStatus := {
  lc_status := run_status;
  lc_revision := run_lifecycle_revision;
  lc_terminal := run_is_terminal;
  lc_apply := run_transition;
}.

Lemma run_effect_status now r t : run_status (run_effect now r t) = target_status t.
Proof. by destruct t. Qed.

Lemma run_effect_revision now r t :
  run_lifecycle_revision (run_effect now r t) = (run_lifecycle_revision r + 1)%Z.
Proof. by destruct t. Qed.

Lemma run_legal_step t from : run_legal t from = true ↔ run_step from (target_status t).
Proof.
  split; [by destruct t, from; simpl; auto|].
  intros H. destruct t; simpl in H; inversion H; subst; simpl; try done;
    by destruct H0 as [-> | ->].
Qed.

#[export] Instance run_lifecycle_laws : LifecycleLaws run_lifecycle.
Proof.
  split; simpl; unfold run_transition.
  - intros now r t r' from to rev H.
    case_decide; [naive_solver|].
    destruct (run_legal t (run_status r)) eqn:El; [|naive_solver]. simpl in H.
    destruct (Z.leb_spec MAX_LIFECYCLE_REVISION (run_lifecycle_revision r)); [naive_solver|].
    simplify_eq. rewrite run_effect_status, run_effect_revision.
    repeat split; auto. by destruct t, (run_status r).
  - intros now r t r' o H Ho. repeat case_match; naive_solver.
Qed.

Lemma run_wf_new id now sid aid input : run_wf (run_new id now sid aid input).
Proof. by repeat split. Qed.

Lemma run_wf_set_job r j p : run_wf r → run_wf (set_job r j p).
Proof. done. Qed.

Lemma run_wf_effect now r t :
  run_wf r → run_legal t (run_status r) = true → run_wf (run_effect now r t).
Proof.
  intros Hwf Hl. unfold run_wf in *. destruct r as [??? st ????? started].
  destruct t, st; simpl in *; try done; destruct_and!;
    repeat match goal with H : is_Some started |- _ => destruct H as [??] end;
    subst; simpl; split_and!; eauto.
Qed.

Lemma run_transition_cases now r t r' o :
  run_transition now r t = (r', o) →
  (r' = r ∧ is_applied o = false) ∨
  (r' = run_effect now r t ∧ run_legal t (run_status r) = true).
Proof.
  unfold run_transition. intros H. repeat case_match; simplify_eq; eauto.
  right. split; [done|]. by apply negb_false_iff.
Qed.

Lemma run_lc_run_wf r reqs r' os : lc_run r reqs = (r', os) → run_wf r → run_wf r'.
Proof.
  revert r r' os; induction reqs as [|[now t] reqs IH]; intros r r' os; simpl.
  - by intros [= <- _].
  - destruct (run_transition now r t) as [r1 o] eqn:E.
    destruct (lc_run r1 reqs) as [r2 os'] eqn:E'. intros [= <- _] Hwf.
    eapply IH; [done|].
    destruct (run_transition_cases _ _ _ _ _ E) as [[-> _]|[-> Hl]]; auto using run_wf_effect.
Qed.

Lemma run_wf_revision r : run_wf r → (0 ≤ run_lifecycle_revision r ≤ 2)%Z.
Proof.
  unfold run_wf. destruct (run_status r), (run_started_at r); naive_solver lia.
Qed.


Lemma run_stamps_effect now now' r t :
  run_wf r → run_legal t (run_status r) = true →
  run_stamps now r → (now ≤ now')%Z → run_stamps now' (run_effect now' r t).
Proof.
  unfold run_wf, run_stamps. intros Hwf Hl (H1 & H2 & H3 & H4) Hle.
  destruct r as [??? st ????? started ended]; simpl in *.
  destruct t, st; simpl in *; try done; destruct_and!; subst;
    split_and!; intros; simplify_eq; try lia;
    repeat match goal with
    | H : ∀ s, Some ?x = Some s → _ |- _ => specialize (H _ eq_refl)
    end; lia.
Qed.

Lemma run_stamps_le now now' r : run_stamps now r → (now ≤ now')%Z → run_stamps now' r.
Proof.
  unfold run_stamps. intros (H1 & H2 & H3 & H4) Hle. split_and!; [lia|..|done].
  - intros s Hs. specialize (H2 s Hs). lia.
  - intros e He. specialize (H3 e He). lia.
Qed.

Lemma run_lc_run_stamps now r reqs r' os :
  lc_run r reqs = (r', os) → run_wf r → run_stamps now r → clock_monotone now reqs →
  ∃ now', run_stamps now' r'.
Proof.
  revert now r r' os; induction reqs as [|[t0 t] reqs IH]; intros now r r' os; simpl.
  - intros [= <- _]. eauto.
  - destruct (run_transition t0 r t) as [r1 o] eqn:E.
    destruct (lc_run r1 reqs) as [r2 os'] eqn:E'. intros [= <- _] Hwf Hs [Hle Hmono].
    destruct (run_transition_cases _ _ _ _ _ E) as [[-> _]|[-> Hl]];
      (eapply (IH t0); [done| |..]; eauto using run_wf_effect, run_stamps_effect, run_stamps_le).
Qed.

Lemma run_lc_run_identity r reqs r' os :
  lc_run r reqs = (r', os) → run_identity r' = run_identity r.
Proof.
  revert r r' os; induction reqs as [|[now t] reqs IH]; intros r r' os; simpl.
  - by intros [= <- _].
  - destruct (run_transition now r t) as [r1 o] eqn:E.
    destruct (lc_run r1 reqs) as [r2 os'] eqn:E'. intros [= <- _].
    rewrite (IH _ _ _ E').
    by destruct (run_transition_cases _ _ _ _ _ E) as [[-> _]|[-> Hl]]; [|destruct t].
Qed.

(** * Properties *)

(** The status a request asks for, and what an accepted one makes of a run. *)
Definition requested_status (t : RunTransition) : RunStatus :=
  match t with Start _ => Running | Complete _ _ => Completed | Fail _ _ => Failed | Cancel _ => Cancelled end.

Record run_moved (now : Z) (r : Run) (t : RunTransition) (r' : Run) : Prop := {
  moved_identity : run_identity r' = run_identity r;
  moved_status : run_status r' = requested_status t;
  moved_revision : run_lifecycle_revision r' = (run_lifecycle_revision r + 1)%Z;
  moved_started_at : run_started_at r' = match t with Start _ => Some now | _ => run_started_at r end;
  moved_ended_at : run_ended_at r' = match t with Start _ => run_ended_at r | _ => Some now end;
  moved_output : run_output r' = match t with Complete output _ => Some output | _ => run_output r end;
  moved_usage : run_usage r' = match t with Complete _ usage => Some usage | _ => run_usage r end;
  moved_error : run_error r' = match t with Fail error _ => Some error | _ => run_error r end;
  moved_config : run_resolved_config r' = match t with Start cfg => cfg | _ => run_resolved_config r end;
  moved_reason : run_terminal_reason r' = match t with Fail _ reason | Cancel reason => Some reason | _ => None end;
}.

(** C1: [Run::transition] implements the lifecycle [run_step], stamps included.
    A request for the status the run already has is a no-op.  A legal step below
    the SQLite bound of the revision is applied, and [run_moved] says field by
    field what the run is then: a start stamps [started_at] and keeps the
    configuration, every other step stamps [ended_at]; output and usage, error,
    and the reason of the end are those of the request.  Every other request is
    rejected.  A request that is not applied leaves the run as it was. *)
Theorem run_transition_refines now r t :
  let from := run_status r in
  let to := requested_status t in
  let rev := run_lifecycle_revision r in
  (from = to → run_transition now r t = (r, NoOp from rev)) ∧
  (run_step from to → (rev < MAX_LIFECYCLE_REVISION)%Z →
   ∃ r', run_transition now r t = (r', Applied from to (rev + 1)%Z) ∧ run_moved now r t r') ∧
  (from ≠ to → ¬ run_step from to ∨ (MAX_LIFECYCLE_REVISION ≤ rev)%Z →
   run_transition now r t = (r, Rejected from to rev)).
Proof.
  intros from to rev. assert (target_status t = to) as Hto by (by destruct t). unfold run_transition. rewrite Hto. fold from rev.
  split_and!.
  - intros E. by rewrite decide_True.
  - intros Hs Hr. rewrite decide_False by (intros E; rewrite E in Hs; inversion Hs; naive_solver).
    rewrite <- Hto in Hs. apply run_legal_step in Hs as Hl. fold from in Hl. rewrite Hl. simpl negb. cbv iota.
    rewrite (proj2 (Z.leb_gt _ _)) by done. exists (run_effect now r t). split; [done|]. by destruct t.
  - intros Hne Hor. rewrite decide_False by done. destruct (run_legal t from) eqn:El; [|done]. simpl.
    apply run_legal_step in El. rewrite Hto in El. destruct Hor as [Hn|Hle]; [done|]. by rewrite (proj2 (Z.leb_le _ _)).
Qed.

(** Every run the program can hold is well formed.  Starting from
    [Run::new], [Run::for_job] or [Run::for_subagent], after any sequence of
    transition requests the populated fields are exactly those of its status
    (a completed run has output and usage and no error, a failed one an error
    and a reason, ...), the revision counts the one or two accepted
    transitions, so the SQLite bound is never met, and identity, input and
    provenance are untouched. *)
Theorem run_reachable_wf id now sid aid input job parent reqs r' os :
  lc_run (set_job (run_new id now sid aid input) job parent) reqs = (r', os) →
  run_wf r' ∧ (0 ≤ run_lifecycle_revision r' ≤ 2)%Z ∧
  run_lifecycle_revision r' = Z.of_nat (applied_count os) ∧
  run_identity r' = (id, sid, aid, input, now, job, parent).
Proof.
  intros H. assert (run_wf r') as Hwf by (by eapply run_lc_run_wf, run_wf_set_job, run_wf_new).
  split; [done|]. split; [by apply run_wf_revision|].
  split; [by apply lc_run_revision in H|]. by rewrite (run_lc_run_identity _ _ _ _ H).
Qed.

(** The first terminal writer wins.  Whatever sequence of transitions
    races on a run, at most one of them is applied with a terminal status,
    and a run that is terminal is frozen: no later request is applied and no
    field (in particular [ended_at]) moves. *)
Theorem run_single_terminal_winner r reqs r' os :
  lc_run r reqs = (r', os) →
  terminal_wins (L := run_lifecycle) os ≤ 1 ∧
  (run_is_terminal (run_status r) = true →
   r' = r ∧ Forall (λ o, is_applied o = false) os).
Proof.
  intros H. split; [by eapply lc_run_one_terminal|].
  intros Ht. destruct (lc_run_terminal (L := run_lifecycle) r reqs Ht) as (os2 & E & Hos).
  by rewrite E in H; simplify_eq.
Qed.

(** With clock readings that do not go back, a run's stamps are ordered,
    [created_at <= started_at <= ended_at], and the [ts] of its status
    response is the latest of them. *)
Theorem run_stamps_ordered id now sid aid input reqs r' os :
  lc_run (run_new id now sid aid input) reqs = (r', os) →
  clock_monotone now reqs →
  (∀ s, run_started_at r' = Some s → (now ≤ s)%Z) ∧
  (∀ e, run_ended_at r' = Some e → (now ≤ e)%Z) ∧
  (∀ s e, run_started_at r' = Some s → run_ended_at r' = Some e → (s ≤ e)%Z) ∧
  (now ≤ rs_ts (response_of_run r'))%Z ∧
  (∀ s, run_started_at r' = Some s → (s ≤ rs_ts (response_of_run r'))%Z).
Proof.
  intros H Hm.
  destruct (run_lc_run_stamps now _ _ _ _ H (run_wf_new _ _ _ _ _)) as (now' & H1 & H2 & H3 & H4);
    [|done|].
  { repeat split; simpl; intros; try done; lia. }
  assert (run_created_at r' = now) as Hc.
  { pose proof (run_lc_run_identity _ _ _ _ H) as Hi. unfold run_identity in Hi. by simplify_eq/=. }
  rewrite Hc in *. simpl. split_and!.
  - intros s Hs. specialize (H2 s Hs). lia.
  - intros e He. specialize (H3 e He). lia.
  - eauto.
  - destruct (run_ended_at r') as [e|] eqn:E; simpl.
    + specialize (H3 e eq_refl). lia.
    + destruct (run_started_at r') as [s|] eqn:E'; simpl; [|lia]. specialize (H2 s eq_refl). lia.
  - intros s Hs. rewrite Hs. destruct (run_ended_at r') as [e|] eqn:E; simpl; [|lia]. eauto.
Qed.

(** A DM reply is delivered exactly when the final text has visible
    content and is not the promoted reasoning trace; what is delivered is the
    trimmed text, which is never empty and has no white space left at either
    end. *)
Theorem deliverable_dm_reply_spec response reasoning reply :
  deliverable_dm_reply response reasoning = Some reply ↔
  reply = trim response ∧ trim response ≠ "" ∧ reasoning ≠ Some response ∧
  trim reply = reply.
Proof.
  unfold deliverable_dm_reply. destruct (String.eqb_spec (trim response) "") as [E|E].
  { naive_solver. }
  case_bool_decide; [naive_solver|]. split.
  - intros [= <-]. by rewrite trim_idem.
  - naive_solver.
Qed.

(** * Witnesses *)

Section witnesses.
Local Definition rid := MkRunId (MkUuid 1).
Local Definition sid := MkSessionId (MkUuid 2).
Local Definition aid := MkAgentId (MkUuid 3).
Local Definition usage := {| prompt_tokens := 10; completion_tokens := 5; reasoning_tokens := None;
  cache_creation_input_tokens := None; cache_read_input_tokens := None |}.
Local Definition reqs : list (Z * RunTransition) :=
  [(5%Z, Start None); (8%Z, Cancel "cancelled"); (9%Z, Complete "done" usage)].
Local Definition final : Run := fst (lc_run (H := run_lifecycle) (run_new rid 1 sid aid "hi") reqs).
Local Definition outs := snd (lc_run (H := run_lifecycle) (run_new rid 1 sid aid "hi") reqs).

Lemma run_reachable_wf_witness :
  run_wf final ∧ run_lifecycle_revision final = 2%Z.
Proof.
  destruct (run_reachable_wf rid 1 sid aid "hi" None None reqs final
    outs
    ltac:(vm_compute; reflexivity)) as (H & _ & H' & _).
  exact (conj H H').
Defined.

Lemma run_single_terminal_winner_witness :
  terminal_wins (L := run_lifecycle) outs ≤ 1.
Proof. 
  exact (proj1 (run_single_terminal_winner (run_new rid 1 sid aid "hi") reqs final outs
    ltac:(vm_compute; reflexivity))). Defined.

Lemma run_stamps_ordered_witness : (5 ≤ rs_ts (response_of_run final))%Z.
Proof.
  destruct (run_stamps_ordered rid 1 sid aid "hi" reqs final
    outs
    ltac:(vm_compute; reflexivity)) as (_ & _ & _ & _ & H);
    [simpl; lia|]. exact (H 5%Z eq_refl).
Defined.
End witnesses.
