(* ===== verification/Job.v ===== *)
(** Scheduled jobs: [alms-core/src/job.rs].

    A job is a prompt fired once or on a cron schedule.  [job_transition] is
    its only mutator; terminal statuses are absorbing and recoverable
    dispatch failures are bounded by a retry budget. *)
From S2P Require Import Prelude Ident Lifecycle.

(** * Data *)

Inductive JobSchedule :=
| Once (run_at : Z)
| Recurring (cron : string).

Inductive JobStatus := JobPending | JobActive | JobCompleted | JobFailed | JobCancelled.

#[export] Instance job_status_eq_dec : EqDecision JobStatus.
Proof. solve_decision. Defined.

Definition job_is_terminal (s : JobStatus) : bool :=
  match s with JobCompleted | JobFailed | JobCancelled => true | _ => false end.

Inductive JobTerminalReason :=
| ReasonCompleted
| DeadlineReached
| RetryExhausted
| OperatorCancelled.

Inductive JobTransition :=
| SetNextRunAt (next : option Z)
| RecordRecurringRun (ran_at : Z) (next_run_at : option Z)
| CompleteOneShot (ran_at : Z) (terminal_reason : JobTerminalReason)
| RecordDispatchFailure (error : string) (retry_at : Z) (max_attempts : Z)
| CancelJob.

Record Job := mkJob {
  job_id : JobId;
  job_agent_id : AgentId;
  job_prompt : string;
  job_schedule : JobSchedule;
  job_status : JobStatus;
  job_created_at : Z;
  job_next_run_at : option Z;
  job_last_run_at : option Z;
  job_lifecycle_revision : Z;
  job_terminal_reason : option JobTerminalReason;
  job_retry_count : Z;
  job_last_error : option string;
}.

(** * Operations *)

Definition job_new (id : JobId) (now : Z) (agent_id : AgentId) (prompt : string)
    (schedule : JobSchedule) (next_run_at : option Z) : Job := {|
  job_id := id;
  job_agent_id := agent_id;
  job_prompt := prompt;
  job_schedule := schedule;
  job_status := JobPending;
  job_created_at := now;
  job_next_run_at := next_run_at;
  job_last_run_at := None;
  job_lifecycle_revision := 0;
  job_terminal_reason := None;
  job_retry_count := 0;
  job_last_error := None;
|}.

(** [to] of the answer to a job that is already terminal. *)
Definition job_rejected_to (from : JobStatus) (t : JobTransition) : JobStatus :=
  match t with
  | RecordRecurringRun _ _ => JobActive
  | CompleteOneShot _ _ => JobCompleted
  | RecordDispatchFailure _ _ _ => JobFailed
  | SetNextRunAt _ => from
  | CancelJob => JobCancelled
  end.

(** [to] computed before the legality check. *)
Definition job_target (j : Job) (t : JobTransition) : JobStatus :=
  match t with
  | SetNextRunAt _ => job_status j
  | RecordRecurringRun _ _ => JobActive
  | CompleteOneShot _ _ => JobCompleted
  | RecordDispatchFailure _ _ max_attempts =>
      if (max_attempts <=? sat_add_u32 (job_retry_count j) 1)%Z then JobFailed
      else job_status j
  | CancelJob => JobCancelled
  end.

Definition job_legal (j : Job) (t : JobTransition) : bool :=
  match t, job_schedule j with
  | SetNextRunAt _, _ | CancelJob, _ => true
  | RecordRecurringRun _ _, Recurring _ => true
  | RecordDispatchFailure _ _ max_attempts, _ => (0 <? max_attempts)%Z
  | CompleteOneShot _ reason, Once _ =>
      match reason with ReasonCompleted | DeadlineReached => true | _ => false end
  | _, _ => false
  end.

Definition job_update (j : Job) (status : JobStatus) (next last : option Z)
    (reason : option JobTerminalReason) (retries : Z) (error : option string) : Job :=
  mkJob (job_id j) (job_agent_id j) (job_prompt j) (job_schedule j) status
    (job_created_at j) next last (job_lifecycle_revision j + 1)%Z reason retries error.

(** The field updates of an accepted transition, and the [to] it reports. *)
Definition job_effect (j : Job) (t : JobTransition) : Job * JobStatus :=
  let from := job_status j in
  match t with
  | SetNextRunAt next =>
      (job_update j from next (job_last_run_at j) (job_terminal_reason j)
         (job_retry_count j) (job_last_error j), from)
  | RecordRecurringRun ran_at next =>
      (job_update j JobActive next (Some ran_at) None 0 None, JobActive)
  | CompleteOneShot ran_at reason =>
      (job_update j JobCompleted None (Some ran_at) (Some reason) 0 None, JobCompleted)
  | RecordDispatchFailure error retry_at max_attempts =>
      let retries := sat_add_u32 (job_retry_count j) 1 in
      if (max_attempts <=? retries)%Z then
        (job_update j JobFailed None (job_last_run_at j) (Some RetryExhausted) retries
           (Some error), JobFailed)
      else
        (job_update j from (Some retry_at) (job_last_run_at j) None retries (Some error), from)
  | CancelJob =>
      (job_update j JobCancelled None (job_last_run_at j) (Some OperatorCancelled)
         (job_retry_count j) (job_last_error j), JobCancelled)
  end.

Definition job_transition (j : Job) (t : JobTransition) : Job * TransitionOutcome JobStatus :=
  let from := job_status j in
  let rev := job_lifecycle_revision j in
  if job_is_terminal from then
    match t with
    | CancelJob =>
        if decide (from = JobCancelled) then (j, NoOp from rev)
        else (j, Rejected from (job_rejected_to from t) rev)
    | _ => (j, Rejected from (job_rejected_to from t) rev)
    end
  else if match t with
          | SetNextRunAt next => bool_decide (job_next_run_at j = next)
          | _ => false
          end then (j, NoOp from rev)
  else if negb (job_legal j t) || (MAX_LIFECYCLE_REVISION <=? rev)%Z then
    (j, Rejected from (job_target j t) rev)
  else
    let '(j', to) := job_effect j t in
    (j', Applied from to (rev + 1)%Z).

#[export] Instance job_lifecycle : Lifecycle Job JobTransition JobStatus := {
  lc_status := job_status;
  lc_revision := job_lifecycle_revision;
  lc_terminal := job_is_terminal;
  lc_apply _ := job_transition;
}.

(** * Well-formed jobs *)

(** The reason a status carries, and what it may be for each schedule. *)
Definition job_reason_ok (j : Job) : bool :=
  match job_status j, job_schedule j, job_terminal_reason j with
  | JobPending, _, None => true
  | JobActive, Recurring _, None => true
  | JobCompleted, Once _, Some (ReasonCompleted | DeadlineReached) => true
  | JobFailed, _, Some RetryExhausted => true
  | JobCancelled, _, Some OperatorCancelled => true
  | _, _, _ => false
  end.

Definition job_wf (j : Job) : Prop :=
  job_reason_ok j = true ∧
  (job_is_terminal (job_status j) = true → job_next_run_at j = None) ∧
  (0 ≤ job_retry_count j ≤ u32_max)%Z ∧
  (job_last_error j = None ↔ job_retry_count j = 0%Z).

Lemma job_effect_status j t : job_status (fst (job_effect j t)) = snd (job_effect j t).
Proof. destruct t; simpl; try case_match; done. Qed.

Lemma job_effect_target j t : snd (job_effect j t) = job_target j t.
Proof. destruct t; simpl; try case_match; done. Qed.

Lemma job_effect_revision j t :
  job_lifecycle_revision (fst (job_effect j t)) = (job_lifecycle_revision j + 1)%Z.
Proof. destruct t; simpl; try case_match; done. Qed.

(** The three answers of [job_transition]. *)
Lemma job_transition_cases j t j' o :
  job_transition j t = (j', o) →
  (j' = j ∧ is_applied o = false ∧ outcome_revision o = job_lifecycle_revision j) ∨
  (job_is_terminal (job_status j) = false ∧ job_legal j t = true ∧
   (job_lifecycle_revision j < MAX_LIFECYCLE_REVISION)%Z ∧
   j' = fst (job_effect j t) ∧
   o = Applied (job_status j) (snd (job_effect j t)) (job_lifecycle_revision j + 1)).
Proof.
  unfold job_transition. destruct (job_is_terminal (job_status j)).
  { intros H. left. repeat case_match; simplify_eq; auto. }
  case_match; [intros; simplify_eq; auto|].
  destruct (job_legal j t); simpl; [|intros; simplify_eq; auto].
  destruct (Z.leb_spec MAX_LIFECYCLE_REVISION (job_lifecycle_revision j));
    [intros; simplify_eq; auto|].
  destruct (job_effect j t) as [j1 to]. intros [= <- <-]. right. auto.
Qed.

#[export] Instance job_lifecycle_laws : LifecycleLaws job_lifecycle.
Proof.
  split; simpl.
  - intros _ j t j' from to rev H.
    destruct (job_transition_cases _ _ _ _ H) as [(_ & Ho & _)|(Ht & _ & Hr & -> & E)]; [done|].
    injection E as -> -> ->. rewrite job_effect_status, job_effect_revision. by split_and!.
  - intros _ j t j' o H Ho.
    destruct (job_transition_cases _ _ _ _ H) as [(-> & _ & ?)|(_ & _ & _ & _ & ->)]; done.
Qed.

Lemma sat_add_u32_range a b :
  (0 ≤ a)%Z → (0 ≤ b)%Z → (0 ≤ sat_add_u32 a b ≤ u32_max)%Z.
Proof. unfold sat_add_u32, u32_max. lia. Qed.

Lemma sat_add_u32_succ a : (0 ≤ a < u32_max)%Z → sat_add_u32 a 1 = (a + 1)%Z.
Proof. unfold sat_add_u32. lia. Qed.

Lemma job_wf_effect j t :
  job_wf j → job_is_terminal (job_status j) = false → job_legal j t = true →
  job_wf (fst (job_effect j t)).
Proof.
  intros (Hr & Hn & Hc & He) Ht Hl. unfold job_wf, job_reason_ok in *.
  pose proof (sat_add_u32_range (job_retry_count j) 1 ltac:(lia) ltac:(lia)) as Hs.
  assert (sat_add_u32 (job_retry_count j) 1 ≠ 0)%Z by (unfold sat_add_u32, u32_max; lia).
  destruct j as [??? sched st ??? ? reason retries err]; simpl in *.
  destruct t; simpl in *; try case_match; simpl in *; split_and!;
    try (by destruct st, sched); try done; try lia; try (split; [done|lia]);
    repeat case_match; simplify_eq; try done; naive_solver.
Qed.

Lemma job_lc_run_wf j reqs j' os : lc_run j reqs = (j', os) → job_wf j → job_wf j'.
Proof.
  revert j j' os; induction reqs as [|[now t] reqs IH]; intros j j' os; simpl.
  - by intros [= <- _].
  - destruct (job_transition j t) as [j1 o] eqn:E.
    destruct (lc_run j1 reqs) as [j2 os'] eqn:E'. intros [= <- _] Hwf. eapply IH; [done|].
    destruct (job_transition_cases _ _ _ _ E) as [(-> & _)|(Ht & Hl & _ & -> & _)];
      auto using job_wf_effect.
Qed.

(** One failure below the budget: the job waits for [at] with the counter
    advanced. *)
Lemma job_failure_retry j e at' m :
  job_is_terminal (job_status j) = false → (0 ≤ job_retry_count j)%Z →
  (job_retry_count j + 1 < m ≤ u32_max)%Z →
  (job_lifecycle_revision j < MAX_LIFECYCLE_REVISION)%Z →
  job_transition j (RecordDispatchFailure e at' m) =
    (job_update j (job_status j) (Some at') (job_last_run_at j) None
       (job_retry_count j + 1) (Some e),
     Applied (job_status j) (job_status j) (job_lifecycle_revision j + 1)).
Proof.
  intros Ht Hc Hm Hr. unfold job_transition. rewrite Ht. simpl.
  rewrite (proj2 (Z.ltb_lt 0 m)) by lia. rewrite (proj2 (Z.leb_gt _ _) Hr). simpl.
  rewrite sat_add_u32_succ by lia. by rewrite (proj2 (Z.leb_gt _ _)) by lia.
Qed.

(** The failure that exhausts the budget. *)
Lemma job_failure_exhaust j e at' m :
  job_is_terminal (job_status j) = false → (0 ≤ job_retry_count j)%Z →
  (job_retry_count j + 1 = m)%Z → (m ≤ u32_max)%Z →
  (job_lifecycle_revision j < MAX_LIFECYCLE_REVISION)%Z →
  job_transition j (RecordDispatchFailure e at' m) =
    (job_update j JobFailed None (job_last_run_at j) (Some RetryExhausted) m (Some e),
     Applied (job_status j) JobFailed (job_lifecycle_revision j + 1)).
Proof.
  intros Ht Hc Hm Hu Hr. unfold job_transition. rewrite Ht. simpl.
  rewrite (proj2 (Z.ltb_lt 0 m)) by lia. rewrite (proj2 (Z.leb_gt _ _) Hr). simpl.
  rewrite sat_add_u32_succ by lia. rewrite (proj2 (Z.leb_le _ _)) by lia. by rewrite Hm.
Qed.

Definition failures (n : nat) (e : string) (at' m : Z) : list (Z * JobTransition) :=
  replicate n (0%Z, RecordDispatchFailure e at' m).

Lemma job_failures_run n j e at' m j' os :
  lc_run j (failures n e at' m) = (j', os) →
  job_is_terminal (job_status j) = false → (0 ≤ job_retry_count j < m)%Z → (m ≤ u32_max)%Z →
  (job_lifecycle_revision j + (m - job_retry_count j) ≤ MAX_LIFECYCLE_REVISION)%Z →
  ((job_retry_count j + Z.of_nat n < m)%Z →
   job_status j' = job_status j ∧ job_retry_count j' = (job_retry_count j + Z.of_nat n)%Z) ∧
  ((m ≤ job_retry_count j + Z.of_nat n)%Z →
   job_status j' = JobFailed ∧ job_retry_count j' = m ∧ job_next_run_at j' = None ∧
   job_terminal_reason j' = Some RetryExhausted).
Proof.
  revert j j' os; induction n as [|n IH]; intros j j' os; simpl.
  - intros [= <- _] _ Hc _ _. split; [|lia]. intros _. split; [done|lia].
  - intros H Ht Hc Hm Hr.
    destruct (decide (job_retry_count j + 1 = m)%Z) as [E|E].
    + rewrite (job_failure_exhaust j e at' m) in H by lia || done.
      match type of H with context [lc_run ?j1 _] =>
        destruct (lc_run_terminal (L := job_lifecycle) j1 (failures n e at' m) eq_refl)
          as (os' & E' & _) end.
      unfold failures in E'. rewrite E' in H. injection H as <- <-. simpl.
      split; [lia|]. by intros _.
    + rewrite (job_failure_retry j e at' m) in H by lia || done.
      match type of H with context [lc_run ?j1 ?l] =>
        destruct (lc_run j1 l) as [j2 os2] eqn:E2 end.
      injection H as <- <-. apply IH in E2 as [H1 H2]; simpl in *; try lia; [|done].
      split; intros Hn.
      * destruct H1 as [-> ->]; [lia|]. split; [done|lia].
      * apply H2. lia.
Qed.

(** * Properties *)

(** Every job the scheduler can hold is well formed.  From [Job::new],
    after any sequence of transition requests, a terminal job has no next
    fire time and carries the reason its status allows (completed one-shots:
    completed or deadline; failed: retry budget; cancelled: operator), a live
    job carries no reason, only recurring jobs are active and only one-shot
    jobs complete, the retry counter stays within [u32], and an error is
    recorded exactly while the counter is non-zero; the revision counts the
    accepted requests. *)
Theorem job_reachable_wf id now aid prompt sched next reqs j' os :
  lc_run (job_new id now aid prompt sched next) reqs = (j', os) →
  job_wf j' ∧ job_lifecycle_revision j' = Z.of_nat (applied_count os).
Proof.
  intros H. split; [|by apply lc_run_revision in H].
  eapply job_lc_run_wf; [done|]. unfold job_wf, job_reason_ok, u32_max. simpl.
  split_and!; done || lia.
Qed.

(** Competing scheduler and operator writers have one winner.  At most
    one request of any sequence is applied with a terminal status; a terminal
    job is frozen; an applied request reports the status the job really has
    afterwards; and cancelling a cancelled job is a no-op while any other
    request on a terminal job is rejected. *)
Theorem job_terminal_absorbing j reqs j' os :
  lc_run j reqs = (j', os) →
  terminal_wins (L := job_lifecycle) os ≤ 1 ∧
  (job_is_terminal (job_status j) = true → j' = j ∧ Forall (λ o, is_applied o = false) os) ∧
  (∀ t j1 from to rev, job_transition j t = (j1, Applied from to rev) →
     to = job_status j1 ∧ to = job_target j t ∧ from = job_status j) ∧
  (∀ t, job_is_terminal (job_status j) = true →
     snd (job_transition j t) =
       match t with
       | CancelJob => if decide (job_status j = JobCancelled)
                      then NoOp JobCancelled (job_lifecycle_revision j)
                      else Rejected (job_status j) JobCancelled (job_lifecycle_revision j)
       | _ => Rejected (job_status j) (job_rejected_to (job_status j) t)
                (job_lifecycle_revision j)
       end).
Proof.
  intros H. split; [by eapply lc_run_one_terminal|]. split_and!.
  - intros Ht. destruct (lc_run_terminal (L := job_lifecycle) j reqs Ht) as (os2 & E & Hos).
    rewrite E in H. by simplify_eq.
  - intros t j1 from to rev E.
    destruct (job_transition_cases _ _ _ _ E) as [(_ & Ho & _)|(_ & _ & _ & -> & E')]; [done|].
    injection E' as -> -> ->. by rewrite job_effect_status, job_effect_target.
  - intros t Ht. unfold job_transition. rewrite Ht. destruct t; try done.
    case_decide as E; [by rewrite E|done].
Qed.

(** The retry budget is exact.  A live job with a clean counter that
    keeps failing to dispatch with a budget of [m] attempts stays in its
    status, with the counter at the number of failures, for every number of
    failures below [m], and is [Failed] with reason [RetryExhausted] and no
    next fire time from the [m]-th on. *)
Theorem job_retry_budget_exact n j e at' m j' os :
  lc_run j (failures n e at' m) = (j', os) →
  job_is_terminal (job_status j) = false → job_retry_count j = 0%Z →
  (0 < m ≤ u32_max)%Z → (job_lifecycle_revision j + m ≤ MAX_LIFECYCLE_REVISION)%Z →
  ((Z.of_nat n < m)%Z →
   job_status j' = job_status j ∧ job_retry_count j' = Z.of_nat n) ∧
  ((m ≤ Z.of_nat n)%Z →
   job_status j' = JobFailed ∧ job_retry_count j' = m ∧ job_next_run_at j' = None ∧
   job_terminal_reason j' = Some RetryExhausted).
Proof.
  intros H Ht Hc Hm Hr.
  destruct (job_failures_run n j e at' m j' os H Ht ltac:(lia) ltac:(lia) ltac:(lia)) as [H1 H2].
  rewrite Hc in H1, H2. split; intros Hn; [apply H1 | apply H2]; lia.
Qed.

(** * Witnesses *)

Section witnesses.
Local Definition j0 := job_new (MkJobId (MkUuid 1)) 0 (MkAgentId (MkUuid 2)) "report" (Once 100) (Some 100%Z).
Local Definition run3 := lc_run (H := job_lifecycle) j0 (failures 3 "boom" 200 3).

Lemma job_reachable_wf_witness : job_wf (fst run3) ∧ job_lifecycle_revision (fst run3) = 3%Z.
Proof.
  exact (job_reachable_wf (MkJobId (MkUuid 1)) 0 (MkAgentId (MkUuid 2)) "report" (Once 100)
    (Some 100%Z) (failures 3 "boom" 200 3) (fst run3) (snd run3) ltac:(vm_compute; reflexivity)).
Defined.

Lemma job_terminal_absorbing_witness :
  terminal_wins (L := job_lifecycle) (snd run3) ≤ 1.
Proof.
  exact (proj1 (job_terminal_absorbing j0 (failures 3 "boom" 200 3) (fst run3) (snd run3)
    ltac:(vm_compute; reflexivity))).
Defined.

Lemma job_retry_budget_exact_witness :
  job_status (fst run3) = JobFailed ∧ job_retry_count (fst run3) = 3%Z.
Proof.
  destruct (job_retry_budget_exact 3 j0 "boom" 200 3 (fst run3) (snd run3)
    ltac:(vm_compute; reflexivity) eq_refl eq_refl) as [_ H];
    [unfold u32_max; lia | vm_compute; discriminate |].
  destruct H as (H1 & H2 & _); [lia|]. exact (conj H1 H2).
Defined.
End witnesses.
