(* ===== verification/Budget.v ===== *)
(** Token budgets: [alms-core/src/config/budget.rs].

    [max_input_tokens + max_tokens] is checked against a table of provider
    context windows before a run is admitted.  [usize] and [u64] are the
    64-bit range, [max_tokens] the [u32] range; the sum saturates at
    [u64::MAX]. *)
From stdpp Require Import pretty.
From S2P Require Import Prelude.

(** * Validation mode *)

Inductive ValidationMode := Strict | Warn.

(** [ValidationMode::from_env], on the value of the environment variable. *)
Definition mode_from_env (var : option string) : ValidationMode :=
  match var with
  | Some v =>
      let v := to_ascii_lowercase (trim v) in
      if String.eqb v "" || String.eqb v "strict" then Strict
      else if String.eqb v "warn" then Warn
      else Strict
  | None => Strict
  end.

(** * The context-window table *)

Definition gemini_id (model : string) : string :=
  default model (strip_prefix "models/" model).

(** The rows of [lookup], in the order the match tries them. *)
Definition lookup_window (provider model : string) : option Z :=
  let prov p := String.eqb provider p in
  let m p := starts_with model p in
  let exact p := String.eqb model p in
  if prov "anthropic" && m "claude-opus-4-7" then Some 1000000%Z
  else if prov "anthropic" && m "claude-sonnet-4-6" then Some 1000000%Z
  else if prov "anthropic" && m "claude-haiku-4-5" then Some 200000%Z
  else if prov "openai" && m "gpt-5.5" then Some 1050000%Z
  else if prov "openai" && exact "gpt-5.4" then Some 1050000%Z
  else if prov "openai" && exact "gpt-5.4-mini" then Some 400000%Z
  else if prov "xai" && exact "grok-4.3" then Some 1000000%Z
  else if prov "xai" && m "grok-4.20" then Some 2000000%Z
  else if prov "xai" && exact "grok-4-1-fast-reasoning" then Some 2000000%Z
  else if prov "xai" && exact "grok-4-1-fast-non-reasoning" then Some 2000000%Z
  else if prov "deepseek" && exact "deepseek-v4-flash" then Some 1000000%Z
  else if prov "deepseek" && exact "deepseek-chat" then Some 1000000%Z
  else if prov "deepseek" && exact "deepseek-reasoner" then Some 1000000%Z
  else if prov "gemini" && starts_with (gemini_id model) "gemini-2.5-pro" then Some 1048576%Z
  else if prov "gemini" && starts_with (gemini_id model) "gemini-2.5-flash" then Some 1048576%Z
  else None.

(** The provider an OpenRouter vendor prefix stands for. *)
Definition underlying_provider (vendor : string) : option string :=
  let v := to_ascii_lowercase vendor in
  if String.eqb v "anthropic" then Some "anthropic"
  else if String.eqb v "openai" then Some "openai"
  else if String.eqb v "google" then Some "gemini"
  else if String.eqb v "x-ai" || String.eqb v "xai" then Some "xai"
  else if String.eqb v "deepseek" then Some "deepseek"
  else None.

Definition provider_context_window (provider model : string) : option Z :=
  let provider := to_ascii_lowercase provider in
  let model := trim model in
  match (if String.eqb provider "openrouter" then split_once "/"%char model else None) with
  | Some (vendor, rest) =>
      match underlying_provider vendor with
      | Some under => lookup_window under rest
      | None => None
      end
  | None => lookup_window provider model
  end.

(** * The validator *)

Record TokenBudgetError := {
  tb_provider : string;
  tb_model : string;
  tb_max_input_tokens : Z;
  tb_max_tokens : Z;
  tb_effective_total : Z;
  tb_provider_cap : Z;
}.

Definition budget_message (e : TokenBudgetError) : string :=
  "configured token budget exceeds provider cap: "
  +:+ "context.max_input_tokens (" +:+ pretty (tb_max_input_tokens e)
  +:+ ") + agent.max_tokens (" +:+ pretty (tb_max_tokens e)
  +:+ ") = " +:+ pretty (tb_effective_total e)
  +:+ " > " +:+ tb_provider e +:+ " " +:+ tb_model e
  +:+ " context window (" +:+ pretty (tb_provider_cap e) +:+ "). "
  +:+ "Lower one or both knobs, or set ALMS_LLM_BUDGET_VALIDATION=warn to bypass.".

Definition validate_token_budget (provider model : string) (max_input_tokens max_tokens : Z)
    : Result unit TokenBudgetError :=
  match provider_context_window provider model with
  | None => Ok tt
  | Some cap =>
      let effective_total := sat_add_u64 max_input_tokens max_tokens in
      if (cap <? effective_total)%Z then
        Err {| tb_provider := provider; tb_model := model;
               tb_max_input_tokens := max_input_tokens; tb_max_tokens := max_tokens;
               tb_effective_total := effective_total; tb_provider_cap := cap |}
      else Ok tt
  end.

(** * Facts *)

Lemma lookup_window_bound provider model cap :
  lookup_window provider model = Some cap → (0 < cap ≤ 2000000)%Z.
Proof.
  unfold lookup_window. intros H.
  repeat match type of H with
  | (if ?b then _ else _) = _ => destruct b; [injection H as <-; lia|]
  end. done.
Qed.

Lemma provider_context_window_bound provider model cap :
  provider_context_window provider model = Some cap → (0 < cap ≤ 2000000)%Z.
Proof.
  unfold provider_context_window. intros H.
  repeat case_match; simplify_eq; eauto using lookup_window_bound.
Qed.

Lemma lookup_window_openrouter model : lookup_window "openrouter" model = None.
Proof. reflexivity. Qed.

Lemma underlying_provider_lower v p :
  underlying_provider v = Some p → to_ascii_lowercase p = p ∧ p ≠ "openrouter".
Proof. unfold underlying_provider. intros H. repeat case_match; naive_solver. Qed.

(** * Properties *)

(** The validator refuses exactly the known overshoots.  For budgets in
    their machine ranges it accepts when the pair is unknown or the true sum
    of input and output tokens is within the published window, and otherwise
    returns the offending values; the saturating sum never wraps, so a sum
    beyond [u64::MAX] is refused too. *)
Theorem validate_token_budget_exact provider model input output :
  (0 ≤ input ≤ u64_max)%Z → (0 ≤ output ≤ u32_max)%Z →
  validate_token_budget provider model input output =
    match provider_context_window provider model with
    | None => Ok tt
    | Some cap =>
        if (input + output <=? cap)%Z then Ok tt
        else Err {| tb_provider := provider; tb_model := model;
                    tb_max_input_tokens := input; tb_max_tokens := output;
                    tb_effective_total := Z.min (input + output) u64_max;
                    tb_provider_cap := cap |}
    end.
Proof.
  intros Hi Ho. unfold validate_token_budget.
  destruct (provider_context_window provider model) as [cap|] eqn:E; [|done].
  apply provider_context_window_bound in E. unfold sat_add_u64.
  destruct (Z.leb_spec (input + output) cap), (Z.ltb_spec cap (Z.min (input + output) u64_max));
    try done; unfold u64_max, u32_max in *; lia.
Qed.

(** Routing through OpenRouter does not change a model's window: a
    recognised vendor prefix gives the window of the underlying provider, an
    unrecognised one gives none, and the provider tag is matched without
    regard to case. *)
Theorem openrouter_transparent tag vendor model :
  to_ascii_lowercase tag = "openrouter" →
  char_in "/"%char vendor = false →
  trim (vendor +:+ "/" +:+ model) = vendor +:+ "/" +:+ model →
  trim model = model →
  provider_context_window tag (vendor +:+ "/" +:+ model) =
    (p ← underlying_provider vendor; provider_context_window p model).
Proof.
  intros Ht Hv Hvm Hm. unfold provider_context_window at 1. rewrite Ht, Hvm. simpl.
  rewrite (split_once_app "/"%char vendor model Hv).
  destruct (underlying_provider vendor) as [p|] eqn:E; [|done]. simpl.
  apply underlying_provider_lower in E as [Hl Hne].
  unfold provider_context_window. rewrite Hl, Hm.
  by rewrite (proj2 (String.eqb_neq _ _) Hne).
Qed.

(** * Witnesses *)

Lemma validate_token_budget_exact_witness :
  validate_token_budget "Anthropic" "claude-haiku-4-5" u64_max 1 =
  Err {| tb_provider := "Anthropic"; tb_model := "claude-haiku-4-5";
         tb_max_input_tokens := u64_max; tb_max_tokens := 1;
         tb_effective_total := u64_max; tb_provider_cap := 200000 |}.
Proof.
  rewrite (validate_token_budget_exact "Anthropic" "claude-haiku-4-5" u64_max 1);
    [vm_compute; reflexivity | unfold u64_max; lia | unfold u32_max; lia].
Defined.

Lemma openrouter_transparent_witness :
  provider_context_window "OpenRouter" "google/gemini-2.5-pro" = Some 1048576%Z.
Proof.
  change "google/gemini-2.5-pro" with ("google" +:+ "/" +:+ "gemini-2.5-pro").
  rewrite (openrouter_transparent "OpenRouter" "google" "gemini-2.5-pro");
    vm_compute; reflexivity.
Defined.
