(* ===== verification/Json.v ===== *)
(** JSON values, as far as the code looks into them.

    [serde_json::Value] with its accessors ([get], [as_bool], [as_str]) and
    [Map::insert].  An object is the list of its members; the code never
    observes their order, and only whole numbers occur in what it reads. *)
From S2P Require Import Prelude.

Inductive json :=
| JNull
| JBool (b : bool)
| JNum (n : Z)
| JStr (s : string)
| JArr (l : list json)
| JObj (members : list (string * json)).

Fixpoint member (k : string) (ms : list (string * json)) : option json :=
  match ms with
  | [] => None
  | (k', v) :: ms' => if String.eqb k' k then Some v else member k ms'
  end.

Definition json_get (k : string) (j : json) : option json :=
  match j with JObj ms => member k ms | _ => None end.

Definition as_bool (j : json) : option bool :=
  match j with JBool b => Some b | _ => None end.

Definition as_str (j : json) : option string :=
  match j with JStr s => Some s | _ => None end.

(** [Map::insert]: replaces the member or adds it. *)
Fixpoint member_insert (k : string) (v : json) (ms : list (string * json))
    : list (string * json) :=
  match ms with
  | [] => [(k, v)]
  | (k', v') :: ms' =>
      if String.eqb k' k then (k', v) :: ms' else (k', v') :: member_insert k v ms'
  end.

Lemma member_insert_eq k v ms : member k (member_insert k v ms) = Some v.
Proof.
  induction ms as [|[k' v'] ms IH]; simpl; [by rewrite String.eqb_refl|].
  destruct (String.eqb_spec k' k) as [->|Hk]; simpl; [by rewrite String.eqb_refl|].
  by rewrite (proj2 (String.eqb_neq _ _) Hk).
Qed.

Lemma member_insert_ne k k' v ms : k ≠ k' → member k' (member_insert k v ms) = member k' ms.
Proof.
  intros Hne. induction ms as [|[k1 v1] ms IH]; simpl.
  - by rewrite (proj2 (String.eqb_neq _ _) Hne).
  - destruct (String.eqb_spec k1 k) as [->|Hk]; simpl.
    + by rewrite (proj2 (String.eqb_neq _ _) Hne).
    + by rewrite IH.
Qed.

#[export] Hint Rewrite member_insert_eq : json.
