(* ===== verification/EventLog.v ===== *)
(** Event logs: [alms-gateway/src/event_log.rs].

    The in-memory log behind SSE replay.  A log mints increasing event ids
    and appends under one lock; per-session and per-agent logs keep only
    their newest events, and [replay_window] tells a reconnecting client
    whether its cursor can still be satisfied.  Ids are [u64]. *)
From S2P Require Import Prelude Ident Json.

(** * One log *)

Record LoggedEvent := {
  event_id : Z;
  ev_run_id : RunId;
  ev_session_id : SessionId;
  event_type : string;
  ev_data : json;
  ev_ts : Z;
}.

Record ReplayWindow := {
  rw_events : list LoggedEvent;
  retained_from : option Z;
  newest : option Z;
  replay_gap : bool;
}.

Record EventLog := { log_events : list LoggedEvent; next_id : Z }.

Definition log_new : EventLog := {| log_events := []; next_id := 1 |}.

(** [mint_and_push]: one critical section, which returns the minted id. *)
Definition mint_and_push (log : EventLog) (build : Z → LoggedEvent) (max_len : option nat)
    : EventLog * Z :=
  let id := next_id log in
  let events := log_events log ++ [build id] in
  let events :=
    match max_len with
    | Some max => if Nat.ltb max (length events) then drop (length events - max) events
                  else events
    | None => events
    end in
  ({| log_events := events; next_id := (id + 1) mod 2 ^ 64 |}, id).

Definition events_from (log : EventLog) (from_id : Z) : list LoggedEvent :=
  filter (λ e, from_id ≤ event_id e)%Z (log_events log).

Definition replay_window (log : EventLog) (last_event_id : option Z) : ReplayWindow :=
  let events := log_events log in
  let retained_from := event_id <$> head events in
  let newest := event_id <$> last events in
  let gap := match last_event_id with
             | None => false
             | Some cursor =>
                 match retained_from, newest with
                 | Some floor, Some high =>
                     (sat_add_u64 cursor 1 <? floor)%Z || (high <? cursor)%Z
                 | _, _ => (0 <? cursor)%Z
                 end
             end in
  let from_id := match last_event_id with Some id => sat_add_u64 id 1 | None => 0%Z end in
  {| rw_events := filter (λ e, from_id ≤ event_id e)%Z events;
     retained_from := retained_from; newest := newest; replay_gap := gap |}.

(** The window of a key no log was created for. *)
Definition no_log_window (last_event_id : option Z) : ReplayWindow :=
  {| rw_events := []; retained_from := None; newest := None;
     replay_gap := match last_event_id with Some id => (0 <? id)%Z | None => false end |}.

(** * The three managers

    A manager maps a key to its log; the handles the code clones share the
    log, so an append is seen through the map. *)

Section manager.
Context {K : Type} `{Countable K}.

Definition get_or_create (logs : gmap K EventLog) (key : K) : gmap K EventLog * EventLog :=
  match logs !! key with
  | Some log => (logs, log)
  | None => (<[key := log_new]> logs, log_new)
  end.

Definition manager_log (logs : gmap K EventLog) (key : K) (build : Z → LoggedEvent)
    (max_len : option nat) : gmap K EventLog * Z :=
  let '(logs1, log) := get_or_create logs key in
  let '(log', id) := mint_and_push log build max_len in
  (<[key := log']> logs1, id).

Definition manager_events_from (logs : gmap K EventLog) (key : K) (from_id : Z)
    : list LoggedEvent :=
  match logs !! key with Some log => events_from log from_id | None => [] end.

Definition manager_replay_window (logs : gmap K EventLog) (key : K)
    (last_event_id : option Z) : ReplayWindow :=
  match logs !! key with
  | Some log => replay_window log last_event_id
  | None => no_log_window last_event_id
  end.
End manager.

Definition mk_event (run_id : RunId) (session_id : SessionId) (ty : string) (data : json)
    (now : Z) (id : Z) : LoggedEvent := {|
  event_id := id; ev_run_id := run_id; ev_session_id := session_id; event_type := ty;
  ev_data := data; ev_ts := now;
|}.

(** [EventLogManager::log_event]: per-run logs are unbounded. *)
Definition run_log_event (logs : gmap RunId EventLog) (run_id : RunId)
    (session_id : SessionId) (ty : string) (data : json) (now : Z)
    : gmap RunId EventLog * Z :=
  manager_log logs run_id (mk_event run_id session_id ty data now) None.

Definition SESSION_EVENT_LOG_MAX : nat := Z.to_nat 5000.

Definition session_log_event (logs : gmap SessionId EventLog) (session_id : SessionId)
    (run_id : RunId) (ty : string) (data : json) (now : Z) : gmap SessionId EventLog * Z :=
  manager_log logs session_id (mk_event run_id session_id ty data now)
    (Some SESSION_EVENT_LOG_MAX).

Definition latest_event_id (logs : gmap SessionId EventLog) (session_id : SessionId)
    : option Z :=
  log ← logs !! session_id;
  event_id <$> last (log_events log).

Definition AGENT_EVENT_LOG_MAX : nat := Z.to_nat 1000.

Definition agent_log_event (logs : gmap AgentId EventLog) (agent_id : AgentId)
    (run_id : RunId) (session_id : SessionId) (ty : string) (data : json) (now : Z)
    : gmap AgentId EventLog * Z :=
  manager_log logs agent_id (mk_event run_id session_id ty data now)
    (Some AGENT_EVENT_LOG_MAX).

(** * The history of a log *)

(** The log after a sequence of appends, with everything ever minted. *)
Fixpoint push_all (max_len : option nat) (log : EventLog) (builds : list (Z → LoggedEvent))
    : EventLog * list LoggedEvent :=
  match builds with
  | [] => (log, [])
  | b :: bs =>
      let '(log1, id) := mint_and_push log b max_len in
      let '(log2, minted) := push_all max_len log1 bs in
      (log2, b id :: minted)
  end.

(** The closures the managers pass stamp the id they are given. *)
Definition stamps_id (b : Z → LoggedEvent) : Prop := ∀ id, event_id (b id) = id.

(** [log] is the bounded view of the history [minted]. *)
Definition log_inv (max_len : option nat) (minted : list LoggedEvent) (log : EventLog) : Prop :=
  next_id log = (1 + Z.of_nat (length minted))%Z ∧
  (∀ i e, minted !! i = Some e → event_id e = (1 + Z.of_nat i)%Z) ∧
  log_events log =
    match max_len with
    | Some max => drop (length minted - max) minted
    | None => minted
    end.

Lemma log_inv_new max_len : log_inv max_len [] log_new.
Proof. split_and!; [done|done|]. by destruct max_len; rewrite ?drop_nil. Qed.

Lemma drop_bound {A} (l : list A) x (max : nat) :
  (if Nat.ltb max (length (drop (length l - max) l ++ [x]))
   then drop (length (drop (length l - max) l ++ [x]) - max) (drop (length l - max) l ++ [x])
   else drop (length l - max) l ++ [x]) = drop (length (l ++ [x]) - max) (l ++ [x]).
Proof.
  rewrite !length_app, length_drop. simpl.
  destruct (Nat.ltb_spec max (length l - (length l - max) + 1)).
  - rewrite <-(drop_app_le l [x] (length l - max)) by lia. rewrite drop_drop. f_equal. lia.
  - replace (length l - max) with 0 by lia. replace (length l + 1 - max) with 0 by lia. done.
Qed.

Lemma mint_and_push_inv max_len minted log b :
  log_inv max_len minted log → stamps_id b → (Z.of_nat (length minted) + 2 < 2 ^ 64)%Z →
  ∃ log', mint_and_push log b max_len = (log', next_id log) ∧
          log_inv max_len (minted ++ [b (next_id log)]) log'.
Proof.
  intros (Hn & Hids & He) Hb Hlt. eexists. split; [done|]. split_and!; simpl.
  - rewrite length_app, Hn, Z.mod_small by (simpl; lia). simpl. lia.
  - intros i e. destruct (decide (i < length minted)) as [Hi|Hi].
    + rewrite lookup_app_l by done. apply Hids.
    + rewrite lookup_app_r by lia. destruct (i - length minted) eqn:E; simpl; [|by destruct n].
      intros [= <-]. rewrite Hb, Hn. lia.
  - rewrite He. destruct max_len as [max|]; [|done]. apply drop_bound.
Qed.

Lemma push_all_inv max_len minted0 log builds log' minted :
  push_all max_len log builds = (log', minted) →
  log_inv max_len minted0 log → Forall stamps_id builds →
  (Z.of_nat (length minted0 + length builds) + 1 < 2 ^ 64)%Z →
  log_inv max_len (minted0 ++ minted) log' ∧ length minted = length builds.
Proof.
  revert minted0 log log' minted; induction builds as [|b bs IH];
    intros minted0 log log' minted E Hinv Hb Hlt; cbn [push_all] in E.
  - injection E as <- <-. by rewrite app_nil_r.
  - apply Forall_cons in Hb as [Hb Hbs].
    destruct (mint_and_push_inv _ _ _ b Hinv Hb) as (log1 & E1 & Hinv1); [simpl in Hlt; lia|].
    rewrite E1 in E. destruct (push_all max_len log1 bs) as [log2 m2] eqn:E2.
    injection E as <- <-.
    apply IH with (minted0 := minted0 ++ [b (next_id log)]) in E2 as [H1 H2]; try done.
    + rewrite <-app_assoc in H1. simpl in *. auto.
    + rewrite length_app. simpl in *. lia.
Qed.

Lemma log_inv_events_lookup max_len minted log i e :
  log_inv max_len minted log → log_events log !! i = Some e →
  ∃ k, k ≤ length minted ∧ log_events log = drop k minted ∧
       event_id e = (1 + Z.of_nat (k + i))%Z.
Proof.
  intros (Hn & Hids & He) Hi. destruct max_len as [max|].
  - exists (length minted - max). rewrite He in Hi. rewrite lookup_drop in Hi.
    split; [lia|]. auto.
  - exists 0. rewrite He in Hi. split; [lia|]. rewrite drop_0. auto.
Qed.

(** The retained part of a history: some prefix was dropped, and nothing is
    retained only when nothing was minted. *)
Lemma log_inv_retained max_len minted log :
  log_inv max_len minted log → max_len ≠ Some 0 →
  ∃ k, k ≤ length minted ∧ log_events log = drop k minted ∧ (minted ≠ [] → k < length minted).
Proof.
  intros (_ & _ & He) Hmax. destruct max_len as [max|].
  - exists (length minted - max). split; [lia|]. split; [done|].
    intros Hm. destruct max; [done|]. destruct minted; [done|]. simpl. lia.
  - exists 0. split; [lia|]. split; [by rewrite He|].
    intros Hm. destruct minted; [done|]. simpl. lia.
Qed.

Lemma last_drop_lookup {A} (l : list A) k :
  k < length l → last (drop k l) = l !! (length l - 1).
Proof.
  intros Hk. rewrite last_lookup, length_drop, lookup_drop. f_equal. lia.
Qed.

Lemma replay_floor_high max_len minted log :
  log_inv max_len minted log → max_len ≠ Some 0 → minted ≠ [] →
  ∃ k, k < length minted ∧ log_events log = drop k minted ∧
       (event_id <$> head (log_events log)) = Some (1 + Z.of_nat k)%Z ∧
       (event_id <$> last (log_events log)) = Some (Z.of_nat (length minted)).
Proof.
  intros Hinv Hmax Hm. destruct (log_inv_retained _ _ _ Hinv Hmax) as (k & _ & He & Hk).
  destruct Hinv as (_ & Hids & _). specialize (Hk Hm). exists k. rewrite He.
  split; [done|]. split; [done|]. split.
  - destruct (lookup_lt_is_Some_2 minted k Hk) as [e Hl].
    rewrite (drop_S _ _ _ Hl). simpl. by rewrite (Hids _ _ Hl).
  - rewrite last_drop_lookup by done.
    destruct (lookup_lt_is_Some_2 minted (length minted - 1) ltac:(lia)) as [e Hl].
    rewrite Hl. simpl. rewrite (Hids _ _ Hl). f_equal. lia.
Qed.

Lemma filter_drop_cursor (minted : list LoggedEvent) k c :
  (∀ i e, minted !! i = Some e → event_id e = (1 + Z.of_nat i)%Z) →
  (Z.of_nat k ≤ c)%Z →
  filter (λ e, c + 1 ≤ event_id e)%Z (drop k minted) = filter (λ e, c < event_id e)%Z minted.
Proof.
  intros Hids Hk. rewrite <-(take_drop k minted) at 2. rewrite filter_app.
  rewrite (filter_none _ (take k minted)); simpl.
  - apply filter_ext_in, Forall_forall. intros x _. lia.
  - apply Forall_lookup_2. intros i e Hi. apply lookup_take_Some in Hi as [Hi Hlt].
    rewrite (Hids _ _ Hi). lia.
Qed.

(** Without a reported gap the window is every event minted after the cursor,
    and the cursor is not ahead of the log. *)
Lemma replay_window_no_gap max_len minted log c :
  log_inv max_len minted log → max_len ≠ Some 0 → (0 ≤ c ≤ u64_max)%Z →
  (Z.of_nat (length minted) + 1 < 2 ^ 64)%Z →
  replay_gap (replay_window log (Some c)) = false →
  rw_events (replay_window log (Some c)) = filter (λ e, c < event_id e)%Z minted ∧
  (c ≤ Z.of_nat (length minted))%Z.
Proof.
  intros Hinv Hmax Hc Hlt. destruct (decide (minted = [])) as [->|Hm].
  { destruct (log_inv_retained _ _ _ Hinv Hmax) as (k & _ & He & _).
    unfold replay_window. rewrite He, drop_nil. simpl.
    destruct (Z.ltb_spec 0 c); [done|]. intros _. split; [done|lia]. }
  destruct (replay_floor_high _ _ _ Hinv Hmax Hm) as (k & Hk & He & Hfl & Hhi).
  pose proof Hinv as (_ & Hids & _).
  unfold replay_window. rewrite Hfl, Hhi. simpl. unfold sat_add_u64, u64_max in *.
  intros [H1 H2]%orb_false_iff. apply Z.ltb_ge in H1, H2. split; [|lia].
  rewrite Z.min_l by lia. rewrite He. apply filter_drop_cursor; [done|lia].
Qed.

(** Without a cursor the window is the retained log, and no gap is reported. *)
Lemma replay_window_all max_len minted log :
  log_inv max_len minted log →
  replay_gap (replay_window log None) = false ∧ rw_events (replay_window log None) = log_events log.
Proof.
  intros Hinv. unfold replay_window. split; [by destruct (head _), (last _)|]. simpl.
  apply filter_all, Forall_lookup_2. intros i e Hi.
  destruct (log_inv_events_lookup _ _ _ _ _ Hinv Hi) as (k & _ & _ & ->). lia.
Qed.

(** * Properties *)

(** Ids are minted in append order without holes, and a bounded log keeps
    exactly its newest events.  After any [n] appends to a fresh log the
    minted ids are [1..n] in order, and the retained events are the last
    [max] of them (all of them when unbounded). *)
Theorem event_log_contiguous max_len builds log minted :
  push_all max_len log_new builds = (log, minted) → Forall stamps_id builds →
  (Z.of_nat (length builds) + 1 < 2 ^ 64)%Z →
  map event_id minted = map (λ i, 1 + Z.of_nat i)%Z (seq 0 (length builds)) ∧
  log_events log = match max_len with
                   | Some max => drop (length minted - max) minted
                   | None => minted
                   end ∧
  (∀ max, max_len = Some max → length (log_events log) ≤ max).
Proof.
  intros E Hb Hlt.
  destruct (push_all_inv _ [] _ _ _ _ E (log_inv_new _) Hb Hlt) as [(_ & Hids & He) Hl].
  simpl in Hids, He. split; [|split; [done|]].
  - apply list_eq. intros i. rewrite !list_lookup_fmap.
    destruct (minted !! i) as [e|] eqn:Ei; simpl.
    + apply lookup_lt_Some in Ei as Hi. rewrite lookup_seq_lt by lia. simpl.
      by rewrite (Hids _ _ Ei).
    + apply lookup_ge_None in Ei. by rewrite lookup_seq_ge by lia.
  - intros max ->. rewrite He, length_drop. lia.
Qed.

(** Replay is exact and gaps are reported exactly.  For any history of a
    log with a positive bound and any [u64] cursor: without a gap the client
    receives every event ever minted after its cursor, in order; with a gap,
    either the cursor is beyond everything minted (a restarted gateway) or
    some event after it is no longer retained.  A client without a cursor
    receives the retained window and no gap. *)
Theorem replay_window_exact max_len builds log minted c :
  push_all max_len log_new builds = (log, minted) → Forall stamps_id builds →
  (Z.of_nat (length builds) + 1 < 2 ^ 64)%Z → max_len ≠ Some 0 →
  (0 ≤ c ≤ u64_max)%Z →
  (replay_gap (replay_window log (Some c)) = false →
   rw_events (replay_window log (Some c)) = filter (λ e, c < event_id e)%Z minted ∧
   (c ≤ Z.of_nat (length minted))%Z) ∧
  (replay_gap (replay_window log (Some c)) = true →
   (Z.of_nat (length minted) < c)%Z ∨
   ∃ e, e ∈ minted ∧ (c < event_id e)%Z ∧
        ∀ e', e' ∈ log_events log → event_id e' ≠ event_id e) ∧
  replay_gap (replay_window log None) = false ∧
  rw_events (replay_window log None) = log_events log.
Proof.
  intros E Hb Hlt Hmax Hc.
  destruct (push_all_inv _ [] _ _ _ _ E (log_inv_new _) Hb Hlt) as [Hinv Hl].
  simpl in Hinv. split; [apply (replay_window_no_gap max_len); try done; lia|].
  split; [|by apply (replay_window_all max_len minted)].
  destruct (decide (minted = [])) as [->|Hm].
  { destruct (log_inv_retained _ _ _ Hinv Hmax) as (k & _ & He & _).
    unfold replay_window. rewrite He, drop_nil. simpl. rewrite Z.ltb_lt. auto. }
  destruct (replay_floor_high _ _ _ Hinv Hmax Hm) as (k & Hk & He & Hfl & Hhi).
  pose proof Hinv as (_ & Hids & _).
  unfold replay_window. rewrite Hfl, Hhi. simpl. unfold sat_add_u64, u64_max in *.
  intros [H1|H2]%orb_true_iff; [|left; by apply Z.ltb_lt].
  apply Z.ltb_lt in H1. right.
  destruct (lookup_lt_is_Some_2 minted (k - 1) ltac:(lia)) as [e Hl'].
  exists e. split; [by eapply list_elem_of_lookup_2|]. rewrite (Hids _ _ Hl').
  split; [lia|]. intros e' [i Hi]%list_elem_of_lookup_1. rewrite He, lookup_drop in Hi.
  rewrite (Hids _ _ Hi). lia.
Qed.

(** Keys do not share a log.  Logging under one key returns the next id
    of that key's log and leaves the events, the replay window and the latest
    id of every other key as they were. *)
Theorem manager_log_isolated (logs : gmap SessionId EventLog) key key' run_id ty data now cursor :
  let '(logs', id) := session_log_event logs key run_id ty data now in
  id = next_id (default log_new (logs !! key)) ∧
  latest_event_id logs' key = Some id ∧
  (key ≠ key' →
   manager_replay_window logs' key' cursor = manager_replay_window logs key' cursor ∧
   manager_events_from logs' key' 0 = manager_events_from logs key' 0 ∧
   latest_event_id logs' key' = latest_event_id logs key').
Proof.
  unfold session_log_event, manager_log, get_or_create.
  assert (∀ log, last (log_events (fst (mint_and_push log (mk_event run_id key ty data now)
            (Some SESSION_EVENT_LOG_MAX))))
          = Some (mk_event run_id key ty data now (next_id log))) as Hlast.
  { intros log. unfold mint_and_push. cbn [fst log_events].
    set (ev := log_events log ++ [_]).
    assert (last ev = Some (mk_event run_id key ty data now (next_id log))) as Hl
      by apply last_snoc.
    destruct (Nat.ltb_spec SESSION_EVENT_LOG_MAX (length ev)); [|done].
    rewrite last_drop_lookup by (unfold SESSION_EVENT_LOG_MAX in *; lia).
    rewrite last_lookup in Hl. rewrite <-Hl. f_equal. lia. }
  destruct (logs !! key) as [log|] eqn:E; cbn [mint_and_push default];
    (split; [done|]); split.
  - unfold latest_event_id. rewrite lookup_insert_eq. cbn [mbind option_bind].
    specialize (Hlast log). cbn [fst mint_and_push] in Hlast. by rewrite Hlast.
  - intros Hne. unfold manager_replay_window, manager_events_from, latest_event_id.
    by rewrite !lookup_insert_ne.
  - unfold latest_event_id. rewrite lookup_insert_eq. cbn [mbind option_bind].
    specialize (Hlast log_new). cbn [fst mint_and_push] in Hlast. by rewrite Hlast.
  - intros Hne. unfold manager_replay_window, manager_events_from, latest_event_id.
    by rewrite !lookup_insert_ne.
Qed.

(** * Witnesses *)

Section witnesses.
Local Definition ev (n : Z) := mk_event (MkRunId (MkUuid 1)) (MkSessionId (MkUuid 2)) "delta" (JNum n) n.
Local Definition three := push_all (Some 2) log_new [ev 10; ev 20; ev 30].

Lemma event_log_contiguous_witness :
  map event_id (snd three) = [1; 2; 3]%Z ∧ length (log_events (fst three)) ≤ 2.
Proof.
  destruct (event_log_contiguous (Some 2) [ev 10; ev 20; ev 30] (fst three) (snd three) eq_refl)
    as (H & _ & H'); [by repeat constructor | vm_compute; reflexivity |].
  split; [exact H | exact (H' 2 eq_refl)].
Defined.

Lemma replay_window_exact_witness :
  rw_events (replay_window (fst three) (Some 1%Z)) = [ev 20 2; ev 30 3] ∧
  replay_gap (replay_window (fst three) (Some 0%Z)) = true.
Proof.
  destruct (replay_window_exact (Some 2) [ev 10; ev 20; ev 30] (fst three) (snd three) 1 eq_refl)
    as (H & _); [by repeat constructor | vm_compute; reflexivity | done
                | unfold u64_max; lia |].
  split; [exact (proj1 (H eq_refl)) | reflexivity].
Defined.
End witnesses.
