(* ===== verification/EventFeed.v ===== *)
(** Event feeds: the subscriptions of [alms-gateway/src/server/run_manager.rs]
    with the streams [alms-gateway/src/sse.rs] and [runs/streaming.rs] build on
    them.

    A feed is a set of keys (runs, sessions, agents, or the one activity key).
    Under a key there is an event log and a set of live subscribers.  A channel
    is shared between the sender the feed keeps and the receiver the stream
    holds: channels are a store of their own, addressed by subscription id.
    Publishing is two steps, the append to the log and the fan-out, and other
    tasks run in between; [feed_run] executes any interleaving. *)
From stdpp Require Import pretty.
From S2P Require Import Prelude Ident Json EventLog.

(** * Events and frames *)

Record SseEventData := {
  sse_event_type : string; sse_data : json; sse_ts : Z; sse_event_id : option Z;
}.

Definition with_event_id (id : Z) (e : SseEventData) : SseEventData :=
  {| sse_event_type := sse_event_type e; sse_data := sse_data e; sse_ts := sse_ts e; sse_event_id := Some id |}.

(** What reaches the client: the event name, the [id:] line and the data. *)
Record Frame := { fr_event : string; fr_id : option string; fr_data : json }.

(** [next_ephemeral_id]: the counter wraps at [u64]. *)
Definition next_ephemeral_id (counter : Z) : string * Z :=
  ("ephemeral-" +:+ pretty counter, ((counter + 1) mod 2 ^ 64)%Z).

Definition wire_event (counter : Z) (e : SseEventData) : Frame * Z :=
  match sse_event_id e with
  | Some id => ({| fr_event := sse_event_type e; fr_id := Some (pretty id); fr_data := sse_data e |}, counter)
  | None =>
      if String.eqb (sse_event_type e) "stream_state"
      then ({| fr_event := sse_event_type e; fr_id := None; fr_data := sse_data e |}, counter)
      else let '(id, counter') := next_ephemeral_id counter in
           ({| fr_event := sse_event_type e; fr_id := Some id; fr_data := sse_data e |}, counter')
  end.

(** [str::parse::<u64>]: an optional plus sign, then digits, within range. *)
Fixpoint parse_digits (acc : Z) (s : string) : option Z :=
  match s with
  | EmptyString => Some acc
  | String a s' =>
      if is_ascii_digit a then parse_digits (10 * acc + Z.of_N (N_of_ascii a - 48)) s' else None
  end.

Definition parse_u64 (s : string) : option Z :=
  let digits := match s with String "+" s' => s' | _ => s end in
  match digits with
  | EmptyString => None
  | _ => n ← parse_digits 0 digits; if (n <=? u64_max)%Z then Some n else None
  end.

(** [parse_last_event_id]: the query parameter before the header. *)
Definition parse_last_event_id (query header : option string) : option Z :=
  match query ≫= parse_u64 with
  | Some id => Some id
  | None => header ≫= parse_u64
  end.

(** * Channels and subscriptions *)

Inductive SubscriptionDelivery := Bounded | Lossless.

#[export] Instance subscription_delivery_eq_dec : EqDecision SubscriptionDelivery.
Proof. solve_decision. Defined.

(** The queue between sender and receiver, and whether the receiver exists. *)
Record Channel := { ch_queue : list SseEventData; ch_open : bool }.

Definition SSE_SUBSCRIBER_BUFFER : nat := 256.

(** [try_send] on a bounded channel, [send] on an unbounded one. *)
Definition accepts (delivery : SubscriptionDelivery) (c : Channel) : bool :=
  match delivery with
  | Bounded => ch_open c && Nat.ltb (length (ch_queue c)) SSE_SUBSCRIBER_BUFFER
  | Lossless => ch_open c
  end.

Definition enqueue (e : SseEventData) (c : Channel) : Channel :=
  {| ch_queue := ch_queue c ++ [e]; ch_open := ch_open c |}.

(** The senders registered for a key, by subscription id. *)
Notation Senders := (gmap Z SubscriptionDelivery).
Notation SubscriberMap K := (gmap K Senders).

Definition accepted_by (chans : gmap Z Channel) (id : Z) (delivery : SubscriptionDelivery) : bool :=
  match chans !! id with Some c => accepts delivery c | None => false end.

(** [retain]: every sender sends; the ones that cannot are removed. *)
Definition deliver_all (senders : Senders) (e : SseEventData) (chans : gmap Z Channel) : gmap Z Channel :=
  map_imap (λ id c,
    Some match senders !! id with
         | Some delivery => if accepts delivery c then enqueue e c else c
         | None => c
         end) chans.

Definition retained (senders : Senders) (chans : gmap Z Channel) : Senders :=
  filter (λ kv, accepted_by chans kv.1 kv.2 = true) senders.

Definition put_senders `{Countable K} (k : K) (s : Senders) (m : SubscriberMap K) : SubscriberMap K :=
  if bool_decide (s = ∅) then base.delete k m else <[k := s]> m.

Definition fan_out_to `{Countable K} (m : SubscriberMap K) (chans : gmap Z Channel) (k : K) (e : SseEventData)
    : SubscriberMap K * gmap Z Channel :=
  match m !! k with
  | None => (m, chans)
  | Some senders => (put_senders k (retained senders chans) m, deliver_all senders e chans)
  end.

Definition subscribe_to `{Countable K} (m : SubscriberMap K) (chans : gmap Z Channel) (next_id : Z) (k : K)
    (delivery : SubscriptionDelivery) : Z * SubscriberMap K * gmap Z Channel * Z :=
  (next_id, <[k := <[next_id := delivery]> (default ∅ (m !! k))]> m,
   <[next_id := {| ch_queue := []; ch_open := true |}]> chans, ((next_id + 1) mod 2 ^ 64)%Z).

(** The sender a subscription has under a key. *)
Definition reg_in `{Countable K} (m : SubscriberMap K) (k : K) (id : Z) : option SubscriptionDelivery :=
  senders ← m !! k; senders !! id.

(** [ManagedSubscription::try_send]: through the registered sender only. *)
Definition try_send `{Countable K} (m : SubscriberMap K) (chans : gmap Z Channel) (k : K) (id : Z)
    (e : SseEventData) : bool * gmap Z Channel :=
  match reg_in m k id, chans !! id with
  | Some delivery, Some c => if accepts delivery c then (true, <[id := enqueue e c]> chans) else (false, chans)
  | _, _ => (false, chans)
  end.

(** [Drop for ManagedSubscription], with the channel it closes. *)
Definition drop_subscription `{Countable K} (m : SubscriberMap K) (chans : gmap Z Channel) (k : K) (id : Z)
    : SubscriberMap K * gmap Z Channel :=
  (match m !! k with
   | Some senders => put_senders k (base.delete id senders) m
   | None => m
   end,
   match chans !! id with
   | Some c => <[id := {| ch_queue := []; ch_open := false |}]> chans
   | None => chans
   end).

(** [recv], when an event is queued. *)
Definition recv (chans : gmap Z Channel) (id : Z) : option SseEventData * gmap Z Channel :=
  match chans !! id with
  | Some c => match ch_queue c with
              | e :: q => (Some e, <[id := {| ch_queue := q; ch_open := ch_open c |}]> chans)
              | [] => (None, chans)
              end
  | None => (None, chans)
  end.

(** * Streams *)

Definition of_logged (e : LoggedEvent) : SseEventData :=
  {| sse_event_type := event_type e; sse_data := ev_data e; sse_ts := ev_ts e; sse_event_id := Some (event_id e) |}.

Definition opt_num (o : option Z) : json := match o with Some n => JNum n | None => JNull end.

(** [SseEventData::stream_state]: the members of [StreamStateData]. *)
Definition stream_state (now : Z) (stream_epoch : string) (retained_from newest : option Z)
    (replay_gap epoch_mismatch : bool) : SseEventData := {|
  sse_event_type := "stream_state";
  sse_data := JObj [("stream_epoch", JStr stream_epoch); ("retained_from", opt_num retained_from);
                    ("newest", opt_num newest); ("replay_gap", JBool replay_gap);
                    ("epoch_mismatch", JBool epoch_mismatch);
                    ("requires_reconciliation", JBool (replay_gap || epoch_mismatch))];
  sse_ts := now; sse_event_id := None;
|}.

(** [epoch_mismatch] of [replay_with_stream_state]. *)
Definition epoch_mismatch `{UuidCrate} (epoch : Uuid) (supplied : option string) : bool :=
  match supplied with
  | Some raw => match parse_str raw with
                | Some candidate => negb (bool_decide (candidate = epoch))
                | None => true
                end
  | None => false
  end.

Definition replay_with_stream_state `{UuidCrate} (now : Z) (epoch : Uuid) (supplied_epoch : option string)
    (window : ReplayWindow) : list SseEventData :=
  stream_state now (uuid_to_string epoch) (retained_from window) (newest window) (replay_gap window)
    (epoch_mismatch epoch supplied_epoch)
  :: map of_logged (rw_events window).

Definition max_replay_id (replay : list SseEventData) : Z :=
  default 0%Z (max_opt (omap sse_event_id replay)).

(** The live filter: not [Some(id) if id <= max_replay_id]. *)
Definition passes_dedup (max : Z) (e : SseEventData) : bool :=
  match sse_event_id e with Some id => negb (id <=? max)%Z | None => true end.

Definition stream_with_replay_source (live replay : list SseEventData) : list SseEventData :=
  replay ++ filter (λ e, passes_dedup (max_replay_id replay) e = true) live.

(** * Interleavings *)

Section feed.
Context {K : Type} `{Countable K}.

(** A feed while tasks publish to it: the events logged but not yet fanned out,
    with their keys, and what each client has taken from its channel. *)
Record Feed := mkFeed {
  fd_logs : gmap K EventLog;
  fd_senders : SubscriberMap K;
  fd_channels : gmap Z Channel;
  fd_next : Z;
  fd_in_flight : list (K * SseEventData);
  fd_taken : gmap Z (list SseEventData);
}.

Definition feed_new : Feed := mkFeed ∅ ∅ ∅ 1 [] ∅.

Inductive FeedOp :=
| OpLog (k : K) (run_id : RunId) (session_id : SessionId) (now : Z) (e : SseEventData)
| OpFanOut (i : nat)
| OpTransient (k : K) (e : SseEventData)
| OpSubscribe (k : K) (delivery : SubscriptionDelivery)
| OpRecv (id : Z)
| OpDrop (k : K) (id : Z).

(** What a step publishes: an append to the log, or a fan-out. *)
Inductive FeedMark := Logged (k : K) (e : SseEventData) | Fanned (k : K) (e : SseEventData).

Definition fan_step (f : Feed) (k : K) (e : SseEventData) (in_flight : list (K * SseEventData)) : Feed :=
  let '(m, chans) := fan_out_to (fd_senders f) (fd_channels f) k e in
  mkFeed (fd_logs f) m chans (fd_next f) in_flight (fd_taken f).

(** One step of one task.  [OpFanOut i] is the fan-out of the [i]th pending
    event; [OpTransient] is an event that is never logged. *)
Definition feed_apply (max_len : option nat) (f : Feed) (op : FeedOp) : Feed * list FeedMark :=
  match op with
  | OpLog k run_id session_id now e =>
      let '(logs, id) := manager_log (fd_logs f) k (mk_event run_id session_id (sse_event_type e) (sse_data e) now)
                           max_len in
      (mkFeed logs (fd_senders f) (fd_channels f) (fd_next f) (fd_in_flight f ++ [(k, with_event_id id e)])
         (fd_taken f), [Logged k (with_event_id id e)])
  | OpFanOut i =>
      match fd_in_flight f !! i with
      | Some (k, e) => (fan_step f k e (base.delete i (fd_in_flight f)), [Fanned k e])
      | None => (f, [])
      end
  | OpTransient k e =>
      match sse_event_id e with
      | Some _ => (f, [])
      | None => (fan_step f k e (fd_in_flight f), [Fanned k e])
      end
  | OpSubscribe k delivery =>
      let '(_, m, chans, next) := subscribe_to (fd_senders f) (fd_channels f) (fd_next f) k delivery in
      (mkFeed (fd_logs f) m chans next (fd_in_flight f) (fd_taken f), [])
  | OpRecv id =>
      let '(o, chans) := recv (fd_channels f) id in
      (mkFeed (fd_logs f) (fd_senders f) chans (fd_next f) (fd_in_flight f)
         match o with
         | Some e => <[id := default [] (fd_taken f !! id) ++ [e]]> (fd_taken f)
         | None => fd_taken f
         end, [])
  | OpDrop k id =>
      let '(m, chans) := drop_subscription (fd_senders f) (fd_channels f) k id in
      (mkFeed (fd_logs f) m chans (fd_next f) (fd_in_flight f) (fd_taken f), [])
  end.

Fixpoint feed_run (max_len : option nat) (f : Feed) (ops : list FeedOp) : Feed * list FeedMark :=
  match ops with
  | [] => (f, [])
  | op :: ops' =>
      let '(f1, t1) := feed_apply max_len f op in
      let '(f2, t2) := feed_run max_len f1 ops' in
      (f2, t1 ++ t2)
  end.

(** The events of a trace that were logged under a key, and fanned out to it. *)
Definition logged_on (k : K) (t : list FeedMark) : list SseEventData :=
  omap (λ m, match m with Logged k' e => if decide (k' = k) then Some e else None | _ => None end) t.
Definition fanned_on (k : K) (t : list FeedMark) : list SseEventData :=
  omap (λ m, match m with Fanned k' e => if decide (k' = k) then Some e else None | _ => None end) t.

Definition pending_on (k : K) (l : list (K * SseEventData)) : list SseEventData :=
  omap (λ ke, if decide (ke.1 = k) then Some ke.2 else None) l.

(** Everything the client has been sent: what it took, then what is queued. *)
Definition sent_to (f : Feed) (id : Z) : list SseEventData :=
  default [] (fd_taken f !! id) ++ match fd_channels f !! id with Some c => ch_queue c | None => [] end.

Definition registered (f : Feed) (k : K) (id : Z) : option SubscriptionDelivery := reg_in (fd_senders f) k id.
End feed.
Arguments Feed K {_ _}.
Arguments FeedOp : clear implicits.
Arguments FeedMark : clear implicits.

(** What a client can tell events apart by. *)
Definition content (e : SseEventData) : string * json * option Z :=
  (sse_event_type e, sse_data e, sse_event_id e).

(** The logged events above a cursor. *)
Definition above (c : Z) (x : string * json * option Z) : Prop :=
  match x.2 with Some id => (c < id)%Z | None => False end.

#[export] Instance above_dec c x : Decision (above c x).
Proof. unfold above. destruct (x.2); apply _. Defined.

(** * Facts *)

Section facts.
Context {K : Type} `{Countable K}.
Implicit Types (m : SubscriberMap K) (chans : gmap Z Channel) (k : K) (f : Feed K).

Lemma reg_put m k k' (s : Senders) id :
  reg_in (put_senders k s m) k' id = if decide (k' = k) then s !! id else reg_in m k' id.
Proof.
  unfold reg_in, put_senders. case_bool_decide as Hs; case_decide as Hk; subst.
  - by rewrite lookup_delete_eq, lookup_empty.
  - by rewrite lookup_delete_ne.
  - by rewrite lookup_insert_eq.
  - by rewrite lookup_insert_ne.
Qed.

Lemma fan_out_reg m chans k e k' id :
  reg_in (fan_out_to m chans k e).1 k' id =
    if decide (k' = k) then d ← reg_in m k id; if accepted_by chans id d then Some d else None
    else reg_in m k' id.
Proof.
  unfold fan_out_to. destruct (m !! k) as [s|] eqn:E; simpl.
  - rewrite reg_put. case_decide; [|done]. unfold reg_in. rewrite E. simpl. unfold retained.
    rewrite map_lookup_filter. destruct (s !! id) as [d|]; simpl; [|done].
    by destruct (accepted_by chans id d).
  - case_decide; [|done]. subst. unfold reg_in. by rewrite E.
Qed.

Lemma fan_out_chan m chans k e id :
  (fan_out_to m chans k e).2 !! id =
    (λ c, match reg_in m k id with
          | Some d => if accepts d c then enqueue e c else c
          | None => c
          end) <$> chans !! id.
Proof.
  unfold fan_out_to, reg_in. destruct (m !! k) as [s|]; simpl.
  - unfold deliver_all. rewrite map_lookup_imap. by destruct (chans !! id).
  - by destruct (chans !! id).
Qed.

Lemma subscribe_reg m chans next k d k' id :
  reg_in (subscribe_to m chans next k d).1.1.2 k' id =
    if decide (k' = k ∧ id = next) then Some d else reg_in m k' id.
Proof.
  unfold subscribe_to, reg_in. simpl. destruct (decide (k' = k)) as [->|Hk].
  - rewrite lookup_insert_eq. simpl. destruct (decide (id = next)) as [->|Hid].
    + rewrite lookup_insert_eq. by rewrite decide_True by done.
    + rewrite lookup_insert_ne, decide_False by naive_solver. by destruct (m !! k).
  - rewrite lookup_insert_ne, decide_False by naive_solver. done.
Qed.

Lemma drop_reg m chans k id k' id' :
  reg_in (drop_subscription m chans k id).1 k' id' =
    if decide (k' = k ∧ id' = id) then None else reg_in m k' id'.
Proof.
  unfold drop_subscription. simpl. destruct (m !! k) as [s|] eqn:E.
  - rewrite reg_put. destruct (decide (k' = k)) as [->|Hk].
    + unfold reg_in. rewrite E. simpl. destruct (decide (id' = id)) as [->|Hid].
      * rewrite lookup_delete_eq. by rewrite decide_True.
      * rewrite lookup_delete_ne, decide_False by naive_solver. done.
    + rewrite decide_False by naive_solver. done.
  - case_decide as Hd; [|done]. destruct Hd as [-> ->]. unfold reg_in. by rewrite E.
Qed.

Lemma feed_run_app max_len f ops1 ops2 :
  feed_run max_len f (ops1 ++ ops2) =
    let '(f1, t1) := feed_run max_len f ops1 in
    let '(f2, t2) := feed_run max_len f1 ops2 in (f2, t1 ++ t2).
Proof.
  revert f; induction ops1 as [|op ops IH]; intros f; simpl.
  - by destruct (feed_run max_len f ops2).
  - destruct (feed_apply max_len f op) as [f1 t1]. rewrite IH.
    destruct (feed_run max_len f1 ops) as [f2 t2]. destruct (feed_run max_len f2 ops2).
    by rewrite (assoc_L (++)).
Qed.

(** ** Subscription ids are not reused *)

Definition ids_below f : Prop :=
  (∀ k id, is_Some (registered f k id) → (id < fd_next f)%Z) ∧
  (∀ id, is_Some (fd_taken f !! id) → (id < fd_next f)%Z) ∧ (0 ≤ fd_next f)%Z ∧
  (∀ id, is_Some (fd_channels f !! id) → (id < fd_next f)%Z).

Lemma ids_below_new : ids_below feed_new.
Proof. unfold ids_below, registered, reg_in. simpl. split_and!; intros *; rewrite ?lookup_empty; try by intros [? [=]]. lia. Qed.

Lemma ids_below_fan f k e l : ids_below f → ids_below (fan_step f k e l).
Proof.
  intros (H1 & H2 & H3 & H4). unfold fan_step.
  destruct (fan_out_to (fd_senders f) (fd_channels f) k e) as [m' chans'] eqn:E.
  unfold ids_below, registered in *. simpl. split_and!; try done.
  - intros k' id Hs. apply (f_equal fst) in E. simpl in E. subst m'. rewrite fan_out_reg in Hs.
    case_decide; subst; [|by eapply H1]. apply (H1 k). destruct (reg_in _ _ _); [done|]. by destruct Hs.
  - intros id Hs. apply (f_equal snd) in E. simpl in E. subst chans'. rewrite fan_out_chan, fmap_is_Some in Hs.
    by apply H4.
Qed.

Lemma ids_below_step max_len f op :
  ids_below f → (fd_next f + 1 < 2 ^ 64)%Z →
  ids_below (feed_apply max_len f op).1 ∧
  (fd_next f ≤ fd_next (feed_apply max_len f op).1 ≤ fd_next f + 1)%Z.
Proof.
  intros Hb Hn. pose proof Hb as (H1 & H2 & H3 & H4). destruct op as [k r s now e|i|k e|k d|id|k id]; simpl.
  - by destruct (manager_log _ _ _ _); simpl; split; [|lia].
  - destruct (fd_in_flight f !! i) as [[k e]|]; simpl; [|split; [done|lia]].
    split; [by apply ids_below_fan|]. unfold fan_step. destruct (fan_out_to _ _ _ _). simpl. lia.
  - destruct (sse_event_id e); simpl; [split; [done|lia]|].
    split; [by apply ids_below_fan|]. unfold fan_step. destruct (fan_out_to _ _ _ _). simpl. lia.
  - rewrite Z.mod_small by lia. split; [|lia]. unfold ids_below, registered. simpl. split_and!; try lia.
    + intros k' id Hs. pose proof (subscribe_reg (fd_senders f) (fd_channels f) (fd_next f) k d k' id) as E.
      simpl in E. rewrite E in Hs. case_decide; [lia|]. specialize (H1 _ _ Hs). lia.
    + intros id Hs. specialize (H2 _ Hs). lia.
    + intros id [c Hc]. apply lookup_insert_Some in Hc as [[<- _]|[_ Hc]]; [lia|].
      specialize (H4 id ltac:(by rewrite Hc)). lia.
  - unfold recv. destruct (fd_channels f !! id) as [[[|e q] o]|] eqn:E; simpl; split; try lia; try done.
    assert (id < fd_next f)%Z by (apply H4; by rewrite E).
    unfold ids_below, registered. simpl. split_and!; try done; intros id' [x Hx];
      apply lookup_insert_Some in Hx as [[<- _]|[_ Hx]]; eauto.
  - split; [|simpl; lia]. unfold ids_below, registered. simpl. split_and!; try done.
    + intros k' id' Hs. pose proof (drop_reg (fd_senders f) (fd_channels f) k id k' id') as E.
      simpl in E. rewrite E in Hs. case_decide; [by destruct Hs|]. by eapply H1.
    + intros id' Hs. destruct (fd_channels f !! id) eqn:E; [|by apply H4].
      destruct (decide (id' = id)) as [->|]; [apply H4; by rewrite E|]. rewrite lookup_insert_ne in Hs by done.
      by apply H4.
Qed.

Lemma ids_below_run max_len f ops :
  ids_below f → (fd_next f + Z.of_nat (length ops) < 2 ^ 64)%Z →
  ids_below (feed_run max_len f ops).1 ∧
  (fd_next f ≤ fd_next (feed_run max_len f ops).1 ≤ fd_next f + Z.of_nat (length ops))%Z.
Proof.
  revert f; induction ops as [|op ops IH]; intros f Hb Hn; simpl in *; [split; [done|lia]|].
  destruct (ids_below_step max_len f op Hb ltac:(lia)) as [Hb1 Hn1].
  destruct (feed_apply max_len f op) as [f1 t1]. simpl in *.
  destruct (IH f1 Hb1 ltac:(lia)) as [Hb2 Hn2]. destruct (feed_run max_len f1 ops) as [f2 t2]. simpl in *.
  split; [done|lia].
Qed.

(** ** Traces *)

Lemma logged_on_Logged k k' e : logged_on k [Logged k' e] = if decide (k' = k) then [e] else [].
Proof. unfold logged_on. simpl. by case_decide. Qed.
Lemma logged_on_Fanned k k' e : logged_on k [Fanned k' e] = [].
Proof. done. Qed.
Lemma fanned_on_Fanned k k' e : fanned_on k [Fanned k' e] = if decide (k' = k) then [e] else [].
Proof. unfold fanned_on. simpl. by case_decide. Qed.
Lemma fanned_on_Logged k k' e : fanned_on k [Logged k' e] = [].
Proof. done. Qed.
Lemma pending_on_one k k' e : pending_on k [(k', e)] = if decide (k' = k) then [e] else [].
Proof. unfold pending_on. simpl. by case_decide. Qed.

(** ** One subscriber *)

(** A subscription [id] on [k] whose client is connected. *)
Definition connected (k : K) (id : Z) (d : SubscriptionDelivery) f : Prop :=
  ids_below f ∧ (id < fd_next f)%Z ∧ (∀ k', k' ≠ k → registered f k' id = None) ∧
  (registered f k id = Some d ∨ registered f k id = None ∧ d = Bounded) ∧
  ∃ c, fd_channels f !! id = Some c ∧ ch_open c = true.

Definition drops (id : Z) (op : FeedOp K) : bool :=
  match op with OpDrop _ id' => bool_decide (id' = id) | _ => false end.

(** What a step sends to the subscription. *)
Definition step_sends (k : K) (id : Z) f f' (t : list (FeedMark K)) : Prop :=
  match registered f' k id with
  | Some _ => sent_to f' id = sent_to f id ++ fanned_on k t
  | None => sent_to f' id = sent_to f id
  end ∧
  (registered f k id = None → registered f' k id = None).

Lemma connected_fan k id d f k' e l :
  connected k id d f →
  connected k id d (fan_step f k' e l) ∧ step_sends k id f (fan_step f k' e l) [Fanned k' e].
Proof.
  intros (Hb & Hid & Hother & Hreg & c & Hc & Ho).
  pose proof (ids_below_fan f k' e l Hb) as Hb'. unfold connected, step_sends, registered, sent_to in *.
  unfold fan_step in *. destruct (fan_out_to (fd_senders f) (fd_channels f) k' e) as [m' chans'] eqn:E.
  cbn [fd_logs fd_senders fd_channels fd_next fd_in_flight fd_taken] in *.
  pose proof (λ k id, f_equal (λ p, reg_in p.1 k id) E) as Er. simpl in Er.
  pose proof (f_equal (λ p, p.2 !! id) E) as Ec. simpl in Ec.
  rewrite fan_out_chan, Hc in Ec. simpl in Ec.
  assert (∀ k2, k2 ≠ k → reg_in m' k2 id = None) as Hother'.
  { intros k2 Hk2. rewrite <-Er, fan_out_reg. case_decide; [subst; rewrite (Hother k') by done; done|auto]. }
  rewrite <-Er, fan_out_reg, <-Ec, Hc, fanned_on_Fanned. destruct (decide (k' = k)) as [->|Hk].
  - rewrite decide_True by done. destruct Hreg as [Hreg|[Hreg ->]]; rewrite Hreg; simpl.
    + unfold accepted_by. rewrite Hc. destruct (accepts d c) eqn:Ha; simpl.
      * split; [|by rewrite (assoc_L (++))]. split_and!; try done; [by left|by eauto].
      * split; [|done]. split_and!; try done; [|by eauto].
        right. split; [done|]. destruct d; [done|]. simpl in Ha. congruence.
    + split; [|done]. split_and!; try done; [by right|by eauto].
  - rewrite decide_False by done. rewrite (Hother k') by done. simpl. rewrite app_nil_r.
    split; [|split; [by destruct (reg_in _ _ _)|done]]. split_and!; try done. by eauto.
Qed.

Lemma step_sends_quiet k id f f' t :
  registered f' k id = registered f k id → sent_to f' id = sent_to f id → fanned_on k t = [] →
  step_sends k id f f' t.
Proof. intros Hr Hs Ht. unfold step_sends. rewrite Hr, Hs, Ht, app_nil_r. by destruct (registered f k id). Qed.

Lemma connected_step max_len k id d f op :
  connected k id d f → drops id op = false → (fd_next f + 1 < 2 ^ 64)%Z →
  let '(f', t) := feed_apply max_len f op in connected k id d f' ∧ step_sends k id f f' t.
Proof.
  intros Hcon Hd Hn. pose proof (ids_below_step max_len f op (proj1 Hcon) Hn) as [Hb' _].
  destruct op as [k' r s now e|i|k' e|k' d'|id'|k' id']; simpl in *.
  - destruct (manager_log _ _ _ _). split; [done|]. by apply step_sends_quiet.
  - destruct (fd_in_flight f !! i) as [[k' e]|]; [by apply connected_fan|]. split; [done|].
    by apply step_sends_quiet.
  - destruct (sse_event_id e); [|by apply connected_fan]. split; [done|]. by apply step_sends_quiet.
  - destruct Hcon as (Hb & Hid & Hother & Hreg & c & Hc & Ho).
    assert (∀ k2, registered (mkFeed (fd_logs f) (subscribe_to (fd_senders f) (fd_channels f) (fd_next f) k' d').1.1.2
      (<[fd_next f := {| ch_queue := []; ch_open := true |}]> (fd_channels f)) ((fd_next f + 1) mod 2 ^ 64)%Z
      (fd_in_flight f) (fd_taken f)) k2 id = registered f k2 id) as E.
    { intros k2. unfold registered. cbn [fd_senders]. rewrite subscribe_reg, decide_False by (intros [_ ->]; lia). done. }
    simpl in E. split; [|apply step_sends_quiet; [apply E| |done]].
    + unfold connected. setoid_rewrite E. split_and!; try done; [|].
      { cbn [fd_next]. destruct Hb as (_ & _ & Hb0 & _). rewrite Z.mod_small by lia. lia. }
      exists c. simpl. by rewrite lookup_insert_ne by lia.
    + unfold sent_to. simpl. by rewrite lookup_insert_ne by lia.
  - unfold recv in *. destruct (fd_channels f !! id') as [[[|e q] o]|] eqn:E; simpl in *.
    1,3: split; [done|by apply step_sends_quiet].
    destruct Hcon as (Hb & Hid & Hother & Hreg & c & Hc & Ho).
    split; [|apply step_sends_quiet; [done| |done]].
    + split_and!; try done. simpl. destruct (decide (id' = id)) as [->|].
      * rewrite lookup_insert_eq. eexists. split; [done|]. simpl. rewrite E in Hc. by injection Hc as <-.
      * rewrite lookup_insert_ne by done. eauto.
    + unfold sent_to. simpl. destruct (decide (id' = id)) as [->|].
      * rewrite !lookup_insert_eq, E. simpl. by rewrite <-(assoc_L (++)).
      * by rewrite !lookup_insert_ne by done.
  - apply bool_decide_eq_false in Hd. destruct Hcon as (Hb & Hid & Hother & Hreg & c & Hc & Ho).
    assert (∀ k2, registered (mkFeed (fd_logs f) (drop_subscription (fd_senders f) (fd_channels f) k' id').1
      (drop_subscription (fd_senders f) (fd_channels f) k' id').2 (fd_next f)
      (fd_in_flight f) (fd_taken f)) k2 id = registered f k2 id) as E.
    { intros k2. unfold registered. cbn [fd_senders]. rewrite drop_reg, decide_False by naive_solver. done. }
    simpl in E. assert (∀ x : Channel, (match fd_channels f !! id' with
       | Some _ => <[id' := x]> (fd_channels f) | None => fd_channels f end) !! id = fd_channels f !! id) as Ec.
    { intros x. destruct (fd_channels f !! id'); [|done]. by rewrite lookup_insert_ne. }
    split; [|apply step_sends_quiet; [apply E| |done]].
    + unfold connected. setoid_rewrite E. split_and!; try done. exists c. simpl. by rewrite Ec.
    + unfold sent_to. simpl. by rewrite Ec.
Qed.

Lemma fanned_on_app k (t1 t2 : list (FeedMark K)) : fanned_on k (t1 ++ t2) = fanned_on k t1 ++ fanned_on k t2.
Proof. apply omap_app. Qed.

Lemma logged_on_app k (t1 t2 : list (FeedMark K)) : logged_on k (t1 ++ t2) = logged_on k t1 ++ logged_on k t2.
Proof. apply omap_app. Qed.

(** While the client is connected it is sent a prefix of what is fanned out to
    its key, and all of it as long as its sender is registered. *)
Lemma connected_run max_len k id d f ops f' t :
  connected k id d f → forallb (λ op, negb (drops id op)) ops = true →
  (fd_next f + Z.of_nat (length ops) < 2 ^ 64)%Z →
  feed_run max_len f ops = (f', t) →
  connected k id d f' ∧
  (registered f k id = None → registered f' k id = None ∧ sent_to f' id = sent_to f id) ∧
  sent_to f' id `prefix_of` sent_to f id ++ fanned_on k t ∧
  (registered f' k id = Some d → sent_to f' id = sent_to f id ++ fanned_on k t).
Proof.
  revert f f' t; induction ops as [|op ops IH]; intros f f' t Hcon Hd Hn E; simpl in *.
  { injection E as <- <-. unfold fanned_on. simpl. rewrite app_nil_r. by split_and!. }
  apply andb_true_iff in Hd as [Hd Hds]. apply negb_true_iff in Hd.
  pose proof (connected_step max_len k id d f op Hcon Hd ltac:(lia)) as Hstep.
  pose proof (ids_below_step max_len f op (proj1 Hcon) ltac:(lia)) as [_ Hn1].
  destruct (feed_apply max_len f op) as [f1 t1]. destruct Hstep as [Hcon1 [Hs Hmono]]. simpl in Hn1.
  destruct (feed_run max_len f1 ops) as [f2 t2] eqn:E2. injection E as <- <-.
  destruct (IH f1 f2 t2 Hcon1 Hds ltac:(lia) E2) as (Hcon2 & Hnone & Hpre & Heq).
  rewrite fanned_on_app, (assoc_L (++)).
  destruct (registered f1 k id) as [d1|] eqn:Er.
  - rewrite Hs in Hpre, Heq. split_and!; try done. intros Hr. by specialize (Hmono Hr).
  - destruct (Hnone eq_refl) as [Hr2 Hs2]. rewrite Hr2, Hs2, Hs. split_and!; try done.
    rewrite <-(assoc_L (++)). by apply prefix_app_r.
Qed.

(** ** The history of a key *)

Definition has_id (e : SseEventData) : Prop := is_Some (sse_event_id e).
#[local] Instance has_id_dec e : Decision (has_id e).
Proof. unfold has_id. apply _. Defined.

(** [f] was reached by a run with trace [t]: the log of [k] holds what was
    logged under [k], numbered from 1, and every logged event has been fanned
    out or is pending. *)
Definition history (max_len : option nat) (k : K) f (t : list (FeedMark K)) : Prop :=
  (∃ minted, log_inv max_len minted (default log_new (fd_logs f !! k)) ∧
             map content (logged_on k t) = map (λ e, content (of_logged e)) minted) ∧
  filter has_id (fanned_on k t) ++ pending_on k (fd_in_flight f) ≡ₚ logged_on k t ∧
  Forall has_id (pending_on k (fd_in_flight f)) ∧
  Forall (λ ke, has_id ke.2) (fd_in_flight f).

Lemma history_new max_len k : history max_len k feed_new [].
Proof.
  split_and!; try done; [|by constructor..]. exists []. split; [|done]. simpl. rewrite lookup_empty. simpl.
  apply log_inv_new.
Qed.

Lemma pending_on_app k (l1 l2 : list (K * SseEventData)) :
  pending_on k (l1 ++ l2) = pending_on k l1 ++ pending_on k l2.
Proof. apply omap_app. Qed.

Lemma pending_delete k i (l : list (K * SseEventData)) k' e :
  l !! i = Some (k', e) →
  pending_on k l ≡ₚ (if decide (k' = k) then [e] else []) ++ pending_on k (base.delete i l).
Proof.
  intros Hi. rewrite <-(take_drop_middle l i (k', e) Hi) at 1. rewrite delete_take_drop, !pending_on_app.
  change ((k', e) :: drop (S i) l) with ([(k', e)] ++ drop (S i) l). rewrite pending_on_app, pending_on_one, !(assoc_L (++)). apply Permutation_app_tail, Permutation_app_comm.
Qed.

Lemma history_fan max_len k f t k' e l :
  history max_len k f t →
  filter has_id (fanned_on k t) ++ filter has_id (if decide (k' = k) then [e] else []) ++ pending_on k l ≡ₚ logged_on k t →
  Forall (λ ke, has_id ke.2) l →
  history max_len k (fan_step f k' e l) (t ++ [Fanned k' e]).
Proof.
  intros ((minted & Hinv & Hm) & _ & _ & _) Hp Hl. unfold history, fan_step.
  destruct (fan_out_to _ _ _ _) as [m' chans']. simpl.
  rewrite logged_on_app, fanned_on_app, logged_on_Fanned, fanned_on_Fanned, !app_nil_r.
  split_and!; [by eauto| | |done].
  - by rewrite filter_app, <-(assoc_L (++)).
  - clear -Hl. induction Hl as [|[k2 e2] l He Hl IH]; simpl; [by constructor|].
    unfold pending_on in *. simpl. case_decide; [by constructor|done].
Qed.

Lemma history_step max_len k f t op :
  history max_len k f t → (Z.of_nat (length (logged_on k t)) + 2 < 2 ^ 64)%Z →
  let '(f', t1) := feed_apply max_len f op in history max_len k f' (t ++ t1).
Proof.
  intros Hh Hlt. pose proof Hh as ((minted & Hinv & Hm) & Hp & Hpid & Hfid).
  assert (length minted = length (logged_on k t)) as Hlen
    by (apply (f_equal length) in Hm; by rewrite !length_map in Hm).
  destruct op as [k' r s now e|i|k' e|k' d|id|k' id]; cbn [feed_apply].
  - destruct (manager_log _ _ _ _) as [logs id] eqn:E. unfold history. simpl.
    rewrite logged_on_app, fanned_on_app, pending_on_app, !Forall_app.
    rewrite logged_on_Logged, fanned_on_Logged, pending_on_one, app_nil_r. split_and!; try done; [| | |by apply Forall_singleton; eexists].
    + destruct (decide (k' = k)) as [->|Hk].
      * destruct (mint_and_push_inv max_len minted _ (mk_event r s (sse_event_type e) (sse_data e) now) Hinv) as (log' & El & Hinv');
          [done|lia|].
        unfold manager_log, get_or_create in E. destruct (fd_logs f !! k) as [log|] eqn:Ek; simpl in El, E, Hinv, Hinv';
          injection El as <-; injection E as <- <-; rewrite lookup_insert_eq; simpl; eexists;
          (split; [exact Hinv'|]); rewrite !map_app, Hm; simpl; done.
      * rewrite app_nil_r. exists minted. split; [|done].
        unfold manager_log, get_or_create in E.
        destruct (fd_logs f !! k') as [log|] eqn:Ek; simpl in E; injection E as <- <-; by rewrite !lookup_insert_ne.
    + case_decide; rewrite ?app_nil_r; [|done]. rewrite (assoc_L (++)). by rewrite Hp.
    + case_decide; [by apply Forall_singleton; eexists|by constructor].
  - destruct (fd_in_flight f !! i) as [[k' e]|] eqn:Ei; [|by rewrite app_nil_r].
    apply history_fan; [done|..].
    + rewrite <-Hp. rewrite (pending_delete k i _ _ _ Ei). apply Permutation_app_head.
      assert (has_id e) by (by eapply (Forall_lookup_1 _ _ _ _ Hfid Ei)).
      case_decide; [|done]. by rewrite filter_cons_True by done.
    + by apply Forall_delete.
  - destruct (sse_event_id e) eqn:Ee; [by rewrite app_nil_r|]. apply history_fan; [done| |done].
    case_decide; [|done]. rewrite filter_cons_False; [done|]. unfold has_id. rewrite Ee. by intros [? [=]].
  - destruct (subscribe_to _ _ _ _ _) as [[[? ?] ?] ?]. rewrite app_nil_r. done.
  - destruct (recv _ _). rewrite app_nil_r. done.
  - destruct (drop_subscription _ _ _ _). rewrite app_nil_r. done.
Qed.

Lemma feed_apply_marks max_len f op : length (feed_apply max_len f op).2 ≤ 1.
Proof.
  destruct op as [k r s now e|i|k e|k d|id|k id]; cbn [feed_apply].
  - destruct (manager_log _ _ _ _). simpl. lia.
  - destruct (fd_in_flight f !! i) as [[k e]|]; simpl; lia.
  - destruct (sse_event_id e); simpl; lia.
  - destruct (subscribe_to _ _ _ _ _) as [[[? ?] ?] ?]. simpl. lia.
  - destruct (recv _ _). simpl. lia.
  - destruct (drop_subscription _ _ _ _). simpl. lia.
Qed.

Lemma logged_on_length k (t : list (FeedMark K)) : length (logged_on k t) ≤ length t.
Proof.
  induction t as [|m t IH]; [done|]. change (m :: t) with ([m] ++ t). rewrite logged_on_app, !length_app.
  destruct m as [k' e|k' e]; [rewrite logged_on_Logged; case_decide|rewrite logged_on_Fanned]; simpl; lia.
Qed.

Lemma history_run max_len k f t ops f' t' :
  history max_len k f t → (Z.of_nat (length t + length ops) + 2 < 2 ^ 64)%Z →
  feed_run max_len f ops = (f', t') → history max_len k f' (t ++ t') ∧ length t' ≤ length ops.
Proof.
  revert f t f' t'; induction ops as [|op ops IH]; intros f t f' t' Hh Hlt E; simpl in *.
  { injection E as <- <-. rewrite app_nil_r. done. }
  pose proof (logged_on_length k t).
  pose proof (history_step max_len k f t op Hh ltac:(lia)) as H1.
  pose proof (feed_apply_marks max_len f op) as Hm.
  destruct (feed_apply max_len f op) as [f1 t1]. destruct (feed_run max_len f1 ops) as [f2 t2] eqn:E2.
  injection E as <- <-. simpl in Hm.
  destruct (IH f1 (t ++ t1) f2 t2 H1) as [H2 Hl]; [rewrite length_app; lia|done|].
  rewrite <-(assoc_L (++)) in H2. rewrite length_app. split; [done|lia].
Qed.

(** ** One client *)

(** The numbering a history gives. *)
Lemma history_ids max_len k f t i x :
  history max_len k f t → map content (logged_on k t) !! i = Some x → x.2 = Some (1 + Z.of_nat i)%Z.
Proof.
  intros ((minted & (_ & Hids & _) & ->) & _). rewrite list_lookup_fmap. intros Hx.
  destruct (minted !! i) as [e|] eqn:E; simplify_eq/=. by rewrite (Hids _ _ E).
Qed.

Lemma above_ids max_len k f t c :
  history max_len k f t →
  Forall (λ x, ¬ above c x) (map content (logged_on k t)) ↔ (Z.of_nat (length (logged_on k t)) ≤ c ∨ logged_on k t = [])%Z.
Proof.
  intros Hh. split.
  - intros Hall. destruct (decide (logged_on k t = [])) as [->|Hne]; [by right|left].
    assert (length (logged_on k t) ≠ 0) by (by destruct (logged_on k t)).
    destruct (lookup_lt_is_Some_2 (map content (logged_on k t)) (length (logged_on k t) - 1)) as [x Hx];
      [rewrite length_map; lia|].
    pose proof (Forall_lookup_1 _ _ _ _ Hall Hx) as Hn. unfold above in Hn. rewrite (history_ids _ _ _ _ _ _ Hh Hx) in Hn. lia.
  - intros Hc. apply Forall_lookup_2. intros i x Hx. unfold above. rewrite (history_ids _ _ _ _ _ _ Hh Hx).
    apply lookup_lt_Some in Hx. rewrite length_map in Hx. destruct Hc as [Hc|Hc]; [lia|]. rewrite Hc in Hx. simpl in Hx. lia.
Qed.

Lemma filter_above_none c l : Forall (λ x, ¬ above c x) l → filter (above c) l = [].
Proof. apply filter_none. Qed.

(** Replay and the live filter, on contents. *)
Lemma above_passes c max (l : list SseEventData) :
  filter (above c) (map content (filter (λ e, passes_dedup max e = true) l)) =
  filter (above (Z.max c max)) (map content (filter has_id l)).
Proof.
  induction l as [|e l IH]; [done|]. rewrite !filter_cons.
  destruct (sse_event_id e) as [id|] eqn:E.
  - assert (∀ z, above z (content e) ↔ (z < id)%Z) as Hz by (intros z; unfold above, content; cbn [snd]; rewrite E; reflexivity).
    rewrite (decide_True (P := has_id e)) by (unfold has_id; by rewrite E). cbn [map]. rewrite filter_cons.
    case_decide as Hp; unfold passes_dedup in Hp; rewrite E, negb_true_iff, Z.leb_gt in Hp.
    + cbn [map]. rewrite filter_cons, IH. destruct (decide (above c (content e))) as [Hc|Hc]; rewrite Hz in Hc.
      * rewrite decide_True by (apply Hz; lia). done.
      * rewrite decide_False by (rewrite Hz; lia). done.
    + rewrite IH, decide_False by (rewrite Hz; lia). done.
  - rewrite (decide_False (P := has_id e)) by (unfold has_id; rewrite E; by intros [? [=]]).
    rewrite decide_True by (unfold passes_dedup; by rewrite E). cbn [map]. rewrite filter_cons, IH.
    rewrite decide_False; [done|]. unfold above, content. cbn [snd]. rewrite E. tauto.
Qed.

Lemma manager_window_default (logs : gmap K EventLog) k c :
  manager_replay_window logs k (Some c) = replay_window (default log_new (logs !! k)) (Some c).
Proof.
  unfold manager_replay_window. destruct (logs !! k); [done|]. simpl. unfold no_log_window, replay_window. simpl.
  by destruct (0 <? c)%Z.
Qed.

(** The replay of a gapless window, on contents, and where it ends. *)
Lemma replay_contents max_len k f t c :
  history max_len k f t → max_len ≠ Some 0 → (0 ≤ c ≤ u64_max)%Z →
  (Z.of_nat (length (logged_on k t)) + 1 < 2 ^ 64)%Z →
  replay_gap (manager_replay_window (fd_logs f) k (Some c)) = false →
  map content (map of_logged (rw_events (manager_replay_window (fd_logs f) k (Some c))))
    = filter (above c) (map content (logged_on k t)) ∧
  Z.max c (max_replay_id (map of_logged (rw_events (manager_replay_window (fd_logs f) k (Some c)))))
    = Z.of_nat (length (logged_on k t)).
Proof.
  rewrite !manager_window_default. intros Hh Hmax Hc Hlt Hgap.
  pose proof Hh as ((minted & Hinv & Hm) & _).
  assert (length minted = length (logged_on k t)) as Hlen by (apply (f_equal length) in Hm; by rewrite !length_map in Hm).
  destruct (replay_window_no_gap _ _ _ c Hinv Hmax Hc ltac:(lia) Hgap) as [-> Hcn]. clear Hgap.
  destruct Hinv as (_ & Hids & _). rewrite Hm, map_map. split.
  - clear. induction minted as [|e minted IH]; [done|]. simpl. rewrite !filter_cons.
    destruct (decide (c < event_id e)%Z) as [He|He].
    + rewrite decide_True by exact He. simpl. by rewrite IH.
    + rewrite decide_False by exact He. done.
  - unfold max_replay_id. rewrite <-Hlen.
    assert (omap sse_event_id (map of_logged (filter (λ e, (c < event_id e)%Z) minted))
            = map event_id (filter (λ e, (c < event_id e)%Z) minted)) as ->.
    { generalize (filter (λ e, (c < event_id e)%Z) minted). intros l. induction l as [|e l IH]; [done|]; simpl; f_equal; exact IH. }
    destruct (max_opt _) as [x|] eqn:Ex; simpl.
    + pose proof (max_opt_upper _ _ Ex) as Hup. pose proof (max_opt_elem _ _ Ex) as Hin.
      apply list_elem_of_fmap in Hin as (e & -> & [Hce Hin]%list_elem_of_filter).
      apply list_elem_of_lookup_1 in Hin as [i Hi]. rewrite (Hids _ _ Hi) in *. pose proof (lookup_lt_Some _ _ _ Hi).
      destruct (lookup_lt_is_Some_2 minted (length minted - 1) ltac:(lia)) as [e' He'].
      assert (event_id e' ∈ map event_id (filter (λ e, (c < event_id e)%Z) minted)) as Hin'.
      { apply list_elem_of_fmap. exists e'. split; [done|]. apply list_elem_of_filter.
        split; [rewrite (Hids _ _ He'); lia|by eapply list_elem_of_lookup_2]. }
      pose proof (proj1 (Forall_forall _ _) Hup _ Hin') as Hle. simpl in Hle. rewrite (Hids _ _ He') in Hle. lia.
    + apply max_opt_None, map_eq_nil in Ex. destruct (decide (minted = [])) as [->|Hne]; [simpl in *; lia|].
      destruct (lookup_lt_is_Some_2 minted (length minted - 1)) as [e' He']; [by destruct minted; simpl; [|lia]|].
      assert (¬ c < event_id e')%Z as Hn.
      { intros Hce. apply (list_elem_of_lookup_2 _ _) in He'. eapply not_elem_of_nil. rewrite <-Ex.
        by apply list_elem_of_filter. }
      rewrite (Hids _ _ He') in Hn. destruct minted; [done|]. simpl in *. lia.
Qed.

(** The subscription a [subscribe_*] call returns. *)
Lemma connected_subscribe max_len f k d :
  ids_below f → (fd_next f + 1 < 2 ^ 64)%Z →
  let f' := (feed_apply max_len f (OpSubscribe k d)).1 in
  connected k (fd_next f) d f' ∧ registered f' k (fd_next f) = Some d ∧ sent_to f' (fd_next f) = [] ∧
  fd_next f' = (fd_next f + 1)%Z ∧ fd_logs f' = fd_logs f ∧ fd_in_flight f' = fd_in_flight f.
Proof.
  intros Hb Hn f'. pose proof (ids_below_step max_len f (OpSubscribe k d) Hb Hn) as [Hb' _].
  pose proof Hb as (H1 & H2 & H3 & H4).
  assert (∀ k', registered f' k' (fd_next f) = if decide (k' = k) then Some d else registered f k' (fd_next f)) as Hr.
  { intros k'. unfold registered. pose proof (subscribe_reg (fd_senders f) (fd_channels f) (fd_next f) k d k' (fd_next f)) as E.
    simpl in E |- *. rewrite E. repeat case_decide; naive_solver. }
  assert (fd_taken f !! fd_next f = None) as Ht
    by (apply eq_None_not_Some; intros Hs; apply H2 in Hs; lia).
  assert (fd_next f' = (fd_next f + 1)%Z) as Hnext by (simpl; apply Z.mod_small; lia).
  split_and!; try done.
  - split_and!; try done; [rewrite Hnext; lia| | |].
    + intros k' Hk. rewrite Hr, decide_False by done. apply eq_None_not_Some. intros Hs. apply H1 in Hs. lia.
    + left. by rewrite Hr, decide_True.
    + simpl. rewrite lookup_insert_eq. by eauto.
  - by rewrite Hr, decide_True.
  - unfold sent_to. simpl. by rewrite Ht, lookup_insert_eq.
Qed.

(** Once nothing is pending, what a lossless subscriber was sent since it
    subscribed is what was pending then and everything logged since. *)
Lemma sent_logged max_len k f t f' t' :
  history max_len k f t → history max_len k f' (t ++ t') → pending_on k (fd_in_flight f') = [] →
  filter has_id (fanned_on k t') ≡ₚ pending_on k (fd_in_flight f) ++ logged_on k t'.
Proof.
  intros (_ & Hp & _) (_ & Hp' & _) He. rewrite He, app_nil_r, fanned_on_app, logged_on_app, filter_app in Hp'.
  rewrite <-Hp in Hp'. rewrite <-(assoc_L (++)) in Hp'. by eapply Permutation_app_inv_l.
Qed.

Lemma history_unique max_len k f t c :
  history max_len k f t → NoDup (filter (above c) (map content (logged_on k t))).
Proof.
  intros Hh. apply NoDup_filter, NoDup_alt. intros i j x Hi Hj.
  pose proof (history_ids _ _ _ _ _ _ Hh Hi). pose proof (history_ids _ _ _ _ _ _ Hh Hj). simplify_eq. lia.
Qed.

(** A pending event was logged before: it is not above the end of the log. *)
Lemma pending_not_above max_len k f t c :
  history max_len k f t → (Z.of_nat (length (logged_on k t)) ≤ c)%Z →
  Forall (λ x, ¬ above c x) (map content (pending_on k (fd_in_flight f))).
Proof.
  intros Hh Hc. pose proof (proj2 (above_ids _ _ _ _ c Hh) (or_introl Hc)) as Hall.
  destruct Hh as (_ & Hp & _). rewrite <-Hp, map_app, Forall_app in Hall. by destruct Hall.
Qed.

(** What was logged after a history is above its end. *)
Lemma later_above max_len k f t t' c :
  history max_len k f (t ++ t') → (c ≤ Z.of_nat (length (logged_on k t)))%Z →
  Forall (above c) (map content (logged_on k t')).
Proof.
  intros Hh Hc. apply Forall_lookup_2. intros i x Hx. unfold above.
  rewrite (history_ids _ _ _ _ (length (logged_on k t) + i) x Hh); [lia|].
  rewrite logged_on_app, map_app, lookup_app_r; rewrite length_map; [|lia].
  rewrite <-Hx. f_equal. lia.
Qed.

(** The stream above the cursor: the gapless replay, then what is live above
    the end of the log at the time of the replay. *)
Lemma stream_split `{UuidCrate} max_len k f t c live now epoch supplied :
  history max_len k f t → max_len ≠ Some 0 → (0 ≤ c ≤ u64_max)%Z →
  (Z.of_nat (length (logged_on k t)) + 1 < 2 ^ 64)%Z →
  let window := manager_replay_window (fd_logs f) k (Some c) in
  replay_gap window = false →
  filter (above c) (map content (stream_with_replay_source live (replay_with_stream_state now epoch supplied window))) =
    filter (above c) (map content (logged_on k t)) ++
    filter (above (Z.of_nat (length (logged_on k t)))) (map content (filter has_id live)).
Proof.
  intros Hh Hmax Hc Hlt window Hgap.
  destruct (replay_contents max_len k f t c Hh Hmax Hc Hlt Hgap) as [Hrep Hmx]. fold window in Hrep, Hmx.
  unfold stream_with_replay_source. rewrite map_app, filter_app, above_passes.
  change (max_replay_id (replay_with_stream_state now epoch supplied window))
    with (max_replay_id (map of_logged (rw_events window))). rewrite Hmx. f_equal.
  unfold replay_with_stream_state. cbn [map]. rewrite filter_cons, decide_False by (unfold above; simpl; tauto).
  rewrite Hrep. apply list_filter_filter_l. done.
Qed.

(** The live part is what was logged after the replay. *)
Lemma live_rest max_len k fs t0 f1 t1 f2 t2 :
  history max_len k fs t0 → history max_len k f1 (t0 ++ t1) → history max_len k f2 (t0 ++ t1 ++ t2) →
  pending_on k (fd_in_flight f2) = [] →
  filter (above (Z.of_nat (length (logged_on k (t0 ++ t1))))) (map content (filter has_id (fanned_on k (t1 ++ t2)))) ≡ₚ
  map content (logged_on k t2).
Proof.
  intros Hs H1 H2 Hend. pose proof (sent_logged _ _ _ _ _ _ Hs H2 Hend) as Hp.
  rewrite (assoc_L (++) t0) in H2. rewrite Hp, (logged_on_app k t1 t2), !map_app, !filter_app.
  rewrite (filter_above_none _ (map content (pending_on k (fd_in_flight fs)))).
  2: { apply (pending_not_above max_len k fs t0); [done|]. rewrite logged_on_app, length_app. lia. }
  rewrite (filter_above_none _ (map content (logged_on k t1))).
  2: { pose proof (proj2 (above_ids _ _ _ _ _ H1) (or_introl (Z.le_refl _))) as Ha.
       rewrite logged_on_app, map_app, Forall_app in Ha. rewrite logged_on_app. apply Ha. }
  cbn [app]. rewrite filter_all; [done|]. by apply (later_above max_len k f2 (t0 ++ t1)).
Qed.
End facts.

(** * Properties *)

(** C2: reconnecting is exactly once.  Take any interleaving of publishers and
    clients, a client that then subscribes without loss to a key, any steps
    until it reads its replay window with cursor [c], and any steps after that
    until nothing logged under the key still waits for its fan-out.  If the
    window reports no gap, the events above the cursor among the replayed and
    the live ones are, up to order, the events ever logged under that key above
    the cursor, each of them once. *)
Theorem stream_exactly_once {K} `{Countable K} `{UuidCrate} max_len (k : K) ops0 ops1 ops2 c f0 t0 f1 t1 f2 t2 now epoch supplied :
  feed_run max_len feed_new ops0 = (f0, t0) →
  feed_run max_len (feed_apply max_len f0 (OpSubscribe k Lossless)).1 ops1 = (f1, t1) →
  feed_run max_len f1 ops2 = (f2, t2) →
  forallb (λ op, negb (drops (fd_next f0) op)) (ops1 ++ ops2) = true →
  max_len ≠ Some 0 → (0 ≤ c ≤ u64_max)%Z →
  (Z.of_nat (length ops0 + length ops1 + length ops2) + 3 < 2 ^ 64)%Z →
  pending_on k (fd_in_flight f2) = [] →
  let window := manager_replay_window (fd_logs f1) k (Some c) in
  replay_gap window = false →
  let stream := stream_with_replay_source (sent_to f2 (fd_next f0)) (replay_with_stream_state now epoch supplied window) in
  filter (above c) (map content stream) ≡ₚ filter (above c) (map content (logged_on k (t0 ++ t1 ++ t2))) ∧
  NoDup (filter (above c) (map content stream)).
Proof.
  intros E0 E1 E2 Hd Hmax Hc Hlt Hend window Hgap stream.
  pose proof (ids_below_run max_len feed_new ops0 ids_below_new) as Hb0. rewrite E0 in Hb0. cbn [fst] in Hb0.
  change (fd_next feed_new) with 1%Z in Hb0. destruct Hb0 as [Hb0 Hn0]; [lia|].
  destruct (history_run max_len k feed_new [] ops0 f0 t0 (history_new _ _) ltac:(simpl; lia) E0) as [Hh0 L0].
  destruct (connected_subscribe max_len f0 k Lossless Hb0 ltac:(lia)) as (Hcon & Hreg & Hsent & Hnext & Hlogs & Hfl).
  set (fs := (feed_apply max_len f0 (OpSubscribe k Lossless)).1) in *. simpl in Hh0.
  assert (history max_len k fs t0) as Hs by (unfold history in *; by rewrite Hlogs, Hfl).
  destruct (history_run _ k fs t0 ops1 f1 t1 Hs ltac:(lia) E1) as [Hh1 L1].
  destruct (history_run _ k f1 (t0 ++ t1) ops2 f2 t2 Hh1 ltac:(rewrite length_app; lia) E2) as [Hh2 L2].
  rewrite <-(assoc_L (++)) in Hh2.
  assert (feed_run max_len fs (ops1 ++ ops2) = (f2, t1 ++ t2)) as E12 by (by rewrite feed_run_app, E1, E2).
  destruct (connected_run _ _ _ _ _ _ _ _ Hcon Hd ltac:(rewrite length_app; lia) E12) as (Hcon2 & _ & _ & Hall).
  assert (sent_to f2 (fd_next f0) = fanned_on k (t1 ++ t2)) as Hlive.
  { rewrite Hall, Hsent; [done|]. destruct Hcon2 as (_ & _ & _ & [Hr|[_ [=]]] & _). done. }
  pose proof (logged_on_length k (t0 ++ t1)) as Ll. rewrite length_app in Ll.
  pose proof (proj2 (replay_contents max_len k f1 (t0 ++ t1) c Hh1 Hmax Hc ltac:(lia) Hgap)) as Hmx.
  unfold stream. rewrite (stream_split max_len k f1 (t0 ++ t1)), Hlive by (done || lia).
  assert (filter (above c) (map content (logged_on k (t0 ++ t1 ++ t2))) =
          filter (above c) (map content (logged_on k (t0 ++ t1))) ++ map content (logged_on k t2)) as Hall2.
  { rewrite (assoc_L (++)), logged_on_app, map_app, filter_app. f_equal. apply filter_all.
    rewrite (assoc_L (++)) in Hh2. apply (later_above max_len k f2 (t0 ++ t1)); [done|lia]. }
  pose proof (history_unique _ _ _ _ c Hh2) as Hu. rewrite Hall2 in *.
  rewrite (live_rest max_len k fs t0 f1 t1 f2 t2) by done. done.
Qed.

(** A slow client is cut off, not skipped.  Whatever the delivery mode, as
    long as the client stays connected it has been sent a prefix, in order, of
    the events fanned out to its key since it subscribed; a lossless subscriber,
    and a bounded one that is still registered, has been sent all of them. *)
Theorem subscriber_gets_prefix {K} `{Countable K} max_len (k : K) d ops0 ops f0 t0 f t :
  feed_run max_len feed_new ops0 = (f0, t0) →
  feed_run max_len (feed_apply max_len f0 (OpSubscribe k d)).1 ops = (f, t) →
  forallb (λ op, negb (drops (fd_next f0) op)) ops = true →
  (Z.of_nat (length ops0 + length ops) + 3 < 2 ^ 64)%Z →
  sent_to f (fd_next f0) `prefix_of` fanned_on k t ∧
  (d = Lossless ∨ is_Some (registered f k (fd_next f0)) → sent_to f (fd_next f0) = fanned_on k t).
Proof.
  intros E0 E Hd Hlt. pose proof (ids_below_run max_len feed_new ops0 ids_below_new) as Hb0. rewrite E0 in Hb0.
  cbn [fst] in Hb0. change (fd_next feed_new) with 1%Z in Hb0. destruct Hb0 as [Hb0 Hn0]; [lia|].
  destruct (connected_subscribe max_len f0 k d Hb0 ltac:(lia)) as (Hcon & _ & Hsent & Hnext & _).
  destruct (connected_run _ _ _ _ _ _ _ _ Hcon Hd ltac:(lia) E) as (Hcon2 & _ & Hpre & Heq).
  rewrite Hsent in Hpre, Heq. split; [done|]. destruct Hcon2 as (_ & _ & _ & [Hr|[Hr ->]] & _).
  - intros _. by apply Heq.
  - intros [[=]|Hs]. rewrite Hr in Hs. by destruct Hs.
Qed.

Lemma pretty_char_digit m :
  (m < 10)%N → is_ascii_digit (pretty_N_char m) = true ∧ (N_of_ascii (pretty_N_char m) - 48)%N = m.
Proof.
  intros Hm. assert (m = 0 ∨ m = 1 ∨ m = 2 ∨ m = 3 ∨ m = 4 ∨ m = 5 ∨ m = 6 ∨ m = 7 ∨ m = 8 ∨ m = 9)%N as Hc by lia.
  repeat destruct Hc as [->|Hc]; try done. by subst.
Qed.

Lemma parse_digits_pretty (n : N) s : parse_digits 0 (pretty_N_go n s) = parse_digits (Z.of_N n) s.
Proof.
  revert s. induction (N.lt_wf_0 n) as [n _ IH]; intros s. destruct (decide (n = 0%N)) as [->|Hn].
  { by rewrite pretty_N_go_0. }
  rewrite pretty_N_go_step by lia. rewrite IH by (apply N.div_lt; lia). cbn [parse_digits].
  destruct (pretty_char_digit (n `mod` 10)%N) as [-> ->]; [apply N.mod_lt; lia|].
  f_equal. pose proof (N.div_mod n 10 ltac:(lia)). lia.
Qed.

(** The text of a number is digits, so it has no sign to skip. *)
Lemma parse_u64_digits s : s ≠ "" → forall_chars is_ascii_digit s = true →
  parse_u64 s = n ← parse_digits 0 s; if (n <=? u64_max)%Z then Some n else None.
Proof.
  intros Hs Hf. unfold parse_u64. destruct s as [|a s]; [done|]. simpl in Hf. apply andb_true_iff in Hf as [Ha _].
  destruct a as [[] [] [] [] [] [] [] []]; try done.
Qed.

Lemma pretty_go_digits (n : N) s : forall_chars is_ascii_digit s = true → forall_chars is_ascii_digit (pretty_N_go n s) = true.
Proof.
  revert s. induction (N.lt_wf_0 n) as [n _ IH]; intros s Hs. destruct (decide (n = 0%N)) as [->|Hn].
  { by rewrite pretty_N_go_0. }
  rewrite pretty_N_go_step by lia. apply IH; [apply N.div_lt; lia|]. simpl.
  destruct (pretty_char_digit (n `mod` 10)%N) as [-> _]; [apply N.mod_lt; lia|]. done.
Qed.

Lemma parse_u64_pretty (z : Z) : (0 ≤ z ≤ u64_max)%Z → parse_u64 (pretty z) = Some z.
Proof.
  intros Hz. assert (pretty z = pretty (Z.to_N z)) as -> by (destruct z; [done|done|lia]).
  unfold pretty, pretty_N. case_decide as Hn; [by replace z with 0%Z by lia|].
  rewrite parse_u64_digits; [|intros E|by apply pretty_go_digits].
  - rewrite parse_digits_pretty. simpl. rewrite Z2N.id by lia. destruct (Z.leb_spec z u64_max); [done|lia].
  - pose proof (parse_digits_pretty (Z.to_N z) "") as Hp. rewrite E in Hp. simpl in Hp. injection Hp. lia.
Qed.

(** Cursors survive the wire.  The [id:] line of a logged event parses back
    to the event's id, from the query parameter or, when that has no number,
    from the [Last-Event-Id] header; the [id:] line of an event that was never
    logged is never taken for a cursor. *)
Theorem cursor_roundtrip counter e query header :
  (∀ id, sse_event_id e = Some id → (0 ≤ id ≤ u64_max)%Z →
     parse_last_event_id (fr_id (wire_event counter e).1) header = Some id ∧
     (query ≫= parse_u64 = None → parse_last_event_id query (fr_id (wire_event counter e).1) = Some id)) ∧
  (sse_event_id e = None →
     parse_last_event_id (fr_id (wire_event counter e).1) header = header ≫= parse_u64 ∧
     parse_last_event_id query (fr_id (wire_event counter e).1) = query ≫= parse_u64).
Proof.
  unfold wire_event, parse_last_event_id. split.
  - intros id -> Hid. simpl. rewrite parse_u64_pretty by done. split; [done|]. by intros ->.
  - intros ->. assert (parse_u64 ("ephemeral-" +:+ pretty counter) = None) as Hp by reflexivity.
    destruct (String.eqb (sse_event_type e) "stream_state"); cbn [fst fr_id next_ephemeral_id mbind option_bind];
      rewrite ?Hp; split; try done; by destruct (query ≫= parse_u64).
Qed.

(** * Interleavings that break the cursor *)

Section races.
Local Definition key : SessionId := MkSessionId (MkUuid 7).
Local Definition by_run : RunId := MkRunId (MkUuid 3).
Local Definition bound : option nat := Some SESSION_EVENT_LOG_MAX.

(** An overtaken event can be lost without a gap.  Two tasks publish to one
    session: the first event is logged before the second, but its fan-out comes
    after the second's.  A client that is sent the second event, disconnects
    before the fan-out of the first and reconnects with the cursor it has
    reached is never sent the first event: it was not live, the new window does
    not contain it and reports no gap. *)
Theorem overtaken_event_lost first second now :
  let '(f, t) := feed_run bound feed_new
    [OpSubscribe key Lossless; OpLog key by_run key now first; OpLog key by_run key now second;
     OpFanOut 1; OpRecv 1; OpDrop key 1; OpFanOut 0; OpSubscribe key Lossless] in
  let window := manager_replay_window (fd_logs f) key (Some 2%Z) in
  logged_on key t = [with_event_id 1 first; with_event_id 2 second] ∧ fd_in_flight f = [] ∧
  sent_to f 1 = [with_event_id 2 second] ∧
  rw_events window = [] ∧ replay_gap window = false ∧ sent_to f 2 = [].
Proof. vm_compute. split_and!; reflexivity. Qed.

(** An event is sent again below the cursor: the client has event 1 from a
    replay, reconnects with cursor 1 before the fan-out of event 1, and the
    empty replay leaves nothing to compare the live event with. *)
Lemma duplicate_below_cursor `{UuidCrate} first now epoch :
  let '(f, t) := feed_run bound feed_new
    [OpLog key by_run key now first; OpSubscribe key Lossless; OpFanOut 0] in
  let window := manager_replay_window (fd_logs f) key (Some 1%Z) in
  rw_events window = [] ∧ replay_gap window = false ∧
  map content (stream_with_replay_source (sent_to f 1) (replay_with_stream_state now epoch None window))
    = map content [stream_state now (uuid_to_string epoch) (Some 1%Z) (Some 1%Z) false false; with_event_id 1 first].
Proof. vm_compute. split_and!; reflexivity. Qed.

(** ** Witnesses *)

Local Definition note (n : Z) : SseEventData :=
  {| sse_event_type := "tool_end"; sse_data := JNum n; sse_ts := n; sse_event_id := None |}.
Local Definition log_note (n : Z) : FeedOp SessionId := OpLog key by_run key n (note n).
Local Definition ops0 : list (FeedOp SessionId) := [log_note 1; OpFanOut 0; log_note 2; log_note 3].
Local Definition ops1 : list (FeedOp SessionId) := [log_note 4; OpFanOut 1; OpTransient key (note 0)].
Local Definition ops2 : list (FeedOp SessionId) := [log_note 5; OpFanOut 2; OpRecv 1; OpFanOut 0; OpFanOut 0].
Local Instance toy_uuid : UuidCrate :=
  {| parse_str _ := None; uuid_to_string u := pretty (uuid_bits u); new_v5 u _ := u |}.
Local Definition r0 := feed_run bound feed_new ops0.
Local Definition r1 := feed_run bound (feed_apply bound r0.1 (OpSubscribe key Lossless)).1 ops1.
Local Definition r2 := feed_run bound r1.1 ops2.

Lemma stream_exactly_once_witness :
  filter (above 2) (map content (stream_with_replay_source (sent_to r2.1 1)
    (replay_with_stream_state 0 (MkUuid 9) None (manager_replay_window (fd_logs r1.1) key (Some 2%Z)))))
  ≡ₚ map content [with_event_id 3 (note 3); with_event_id 4 (note 4); with_event_id 5 (note 5)].
Proof.
  pose proof (stream_exactly_once bound key ops0 ops1 ops2 2 r0.1 r0.2 r1.1 r1.2 r2.1 r2.2 0 (MkUuid 9) None) as Hx.
  apply Hx; vm_compute; try reflexivity; try done; intuition congruence.
Defined.

Lemma subscriber_gets_prefix_witness :
  sent_to r1.1 1 = [with_event_id 3 (note 3); note 0].
Proof.
  pose proof (subscriber_gets_prefix bound key Lossless ops0 ops1 r0.1 r0.2 r1.1 r1.2) as Hx.
  apply Hx; [vm_compute; reflexivity..|by left].
Defined.
End races.
