(* ===== verification/FileState.v ===== *)
(** The read-before-write guard: [alms-sandbox/src/file_state_cache.rs].

    Per run, a bounded cache remembers which files were read, with their
    modification time and a content hash; [fs_write] and [fs_edit] are
    refused on files never read or changed since.  Paths are strings, times
    and [Instant]s integers.  The file system and the hash of the standard
    library ([DefaultHasher], unspecified) are parameters. *)
From S2P Require Import Prelude.

(** * The cache *)

Record FileStateEntry := {
  fs_content_hash : Z;
  fs_mtime : Z;
  fs_is_partial : bool;
  fs_read_at : Z;
}.

Record FileStateCache := {
  fs_entries : gmap string FileStateEntry;
  fs_max_entries : nat;
}.

Definition cache_new (max_entries : nat) : FileStateCache :=
  {| fs_entries := ∅; fs_max_entries := max_entries |}.

Definition cache_default : FileStateCache := cache_new 100.

(** [min_by_key] over the entries: the first one with the least [read_at]. *)
Fixpoint oldest_of (l : list (string * FileStateEntry)) : option (string * FileStateEntry) :=
  match l with
  | [] => None
  | x :: l' =>
      match oldest_of l' with
      | Some y => if (fs_read_at (snd y) <? fs_read_at (snd x))%Z then Some y else Some x
      | None => Some x
      end
  end.

Definition oldest_key (m : gmap string FileStateEntry) : option string :=
  fst <$> oldest_of (map_to_list m).

(** [record_read], with the reading [now] of [Instant::now()]. *)
Definition record_read (now : Z) (cache : FileStateCache) (path : string)
    (content_hash mtime : Z) (is_partial : bool) : FileStateCache :=
  let m := fs_entries cache in
  let m1 :=
    if Nat.leb (fs_max_entries cache) (size m) && negb (bool_decide (is_Some (m !! path)))
    then match oldest_key m with Some k => delete k m | None => m end
    else m in
  {| fs_entries :=
       <[path := {| fs_content_hash := content_hash; fs_mtime := mtime;
                    fs_is_partial := is_partial; fs_read_at := now |}]> m1;
     fs_max_entries := fs_max_entries cache |}.

Definition cache_get (cache : FileStateCache) (path : string) : option FileStateEntry :=
  fs_entries cache !! path.

(** * The guard *)

Inductive GuardOutcome :=
| Allowed
| NotRead
| StaleRead (reason : string).

(** What the guard asks of the file system at the moment it runs:
    [fs_stat p] is [None] when [metadata] fails, [Some None] when it has no
    modification time; [fs_read p] is [None] when the file cannot be read. *)
Record FsView := {
  fs_stat : string → option (option Z);
  fs_read : string → option (list N);
}.

Definition stale_modified : string :=
  "File has been modified since it was last read (possibly by another process or tool). Read it again before writing or editing.".
Definition stale_unverified : string :=
  "File mtime changed since last read and content could not be verified. Read it again before writing or editing.".

Section guard.
Context (content_hash : list N → Z).

Definition check_guard_mtime (fs : FsView) (resolved_path : string) (entry : FileStateEntry)
    (current_mtime : Z) : GuardOutcome :=
  if decide (current_mtime = fs_mtime entry) then Allowed
  else match fs_read fs resolved_path with
       | Some data =>
           if decide (content_hash data = fs_content_hash entry) then Allowed
           else StaleRead stale_modified
       | None => StaleRead stale_unverified
       end.

Definition check_guard (fs : FsView) (cache : FileStateCache) (resolved_path : string)
    : GuardOutcome :=
  match cache_get cache resolved_path with
  | None => NotRead
  | Some entry =>
      match fs_stat fs resolved_path with
      | Some (Some current_mtime) => check_guard_mtime fs resolved_path entry current_mtime
      | Some None => Allowed
      | None => Allowed
      end
  end.

Definition check_guard_with_mtime (fs : FsView) (cache : FileStateCache)
    (resolved_path : string) (current_mtime : Z) : GuardOutcome :=
  match cache_get cache resolved_path with
  | None => NotRead
  | Some entry => check_guard_mtime fs resolved_path entry current_mtime
  end.

(** [update_cache_after_write]; an unreadable modification time counts as
    the epoch. *)
Definition update_cache_after_write (now : Z) (fs : FsView) (cache : FileStateCache)
    (resolved_path : string) : FileStateCache :=
  match fs_read fs resolved_path with
  | None => cache
  | Some raw_bytes =>
      let mtime := match fs_stat fs resolved_path with Some (Some t) => t | _ => 0%Z end in
      record_read now cache resolved_path (content_hash raw_bytes) mtime false
  end.

(** * Facts *)

Lemma oldest_of_spec l :
  match oldest_of l with
  | Some x => x ∈ l ∧ ∀ y, y ∈ l → (fs_read_at (snd x) ≤ fs_read_at (snd y))%Z
  | None => l = []
  end.
Proof using.
  induction l as [|x l IH]; simpl; [done|].
  destruct (oldest_of l) as [y|].
  - destruct IH as [Hin Hle].
    destruct (Z.ltb_spec (fs_read_at (snd y)) (fs_read_at (snd x))); (split; [set_solver|]);
      intros z [->|Hz]%elem_of_cons; try lia; specialize (Hle z Hz); lia.
  - subst l. split; [set_solver|]. intros z Hz. assert (z = x) as -> by set_solver. lia.
Qed.

Lemma oldest_key_spec m :
  match oldest_key m with
  | Some k => ∃ e, m !! k = Some e ∧ ∀ k' e', m !! k' = Some e' → (fs_read_at e ≤ fs_read_at e')%Z
  | None => m = ∅
  end.
Proof using.
  unfold oldest_key. pose proof (oldest_of_spec (map_to_list m)) as H.
  destruct (oldest_of (map_to_list m)) as [[k e]|]; simpl.
  - destruct H as [Hin Hle]. exists e. split; [by apply elem_of_map_to_list|].
    intros k' e' He'. apply elem_of_map_to_list in He'. exact (Hle _ He').
  - by apply map_to_list_empty_iff.
Qed.

Lemma record_read_max now cache p h t b :
  fs_max_entries (record_read now cache p h t b) = fs_max_entries cache.
Proof using. done. Qed.

Lemma record_read_lookup now cache p h t b :
  cache_get (record_read now cache p h t b) p =
    Some {| fs_content_hash := h; fs_mtime := t; fs_is_partial := b; fs_read_at := now |}.
Proof using. apply lookup_insert_eq. Qed.

Lemma record_read_size now cache p h t b :
  0 < fs_max_entries cache → size (fs_entries cache) ≤ fs_max_entries cache →
  size (fs_entries (record_read now cache p h t b)) ≤ fs_max_entries cache.
Proof using.
  intros Hm Hs. unfold record_read. simpl. set (m := fs_entries cache) in *.
  destruct (m !! p) as [e|] eqn:Ep.
  { rewrite bool_decide_eq_true_2 by eauto. rewrite andb_false_r.
    rewrite map_size_insert_Some by eauto. lia. }
  rewrite bool_decide_eq_false_2 by (intros [? ?]; congruence).
  destruct (Nat.leb_spec (fs_max_entries cache) (size m)) as [Hfull|]; simpl.
  - pose proof (oldest_key_spec m) as Hk. destruct (oldest_key m) as [k|].
    + destruct Hk as (e & Hk & _). rewrite map_size_insert_None.
      * rewrite map_size_delete_Some by eauto. lia.
      * destruct (decide (k = p)) as [->|]; [congruence|]. by rewrite lookup_delete_ne.
    + subst m. rewrite Hk, map_size_empty in Hfull. lia.
  - rewrite map_size_insert_None by done. lia.
Qed.

(** The entries a read leaves alone: all but the path itself and, when the
    cache is full and the path new, the least recently read one. *)
Lemma record_read_other now cache p h t b q :
  q ≠ p →
  cache_get (record_read now cache p h t b) q = cache_get cache q ∨
  (cache_get (record_read now cache p h t b) q = None ∧
   fs_max_entries cache ≤ size (fs_entries cache) ∧ cache_get cache p = None ∧
   ∃ e, cache_get cache q = Some e ∧
        ∀ q' e', cache_get cache q' = Some e' → (fs_read_at e ≤ fs_read_at e')%Z).
Proof using.
  intros Hne. unfold cache_get, record_read. simpl. set (m := fs_entries cache).
  rewrite lookup_insert_ne by done.
  destruct (Nat.leb_spec (fs_max_entries cache) (size m)) as [Hfull|]; simpl; [|by left].
  case_bool_decide as Hp; simpl; [by left|].
  pose proof (oldest_key_spec m) as Hk. destruct (oldest_key m) as [k|]; [|by left].
  destruct (decide (k = q)) as [->|]; [|by left; rewrite lookup_delete_ne].
  right. rewrite lookup_delete_eq. split_and!; try done.
  by apply eq_None_not_Some.
Qed.

(** A sequence of recorded reads, with their clock readings. *)
Definition record_all (cache : FileStateCache) (reads : list (Z * (string * (Z * Z * bool))))
    : FileStateCache :=
  fold_left (λ c '(now, (p, (h, t, b))), record_read now c p h t b) reads cache.

Lemma record_all_max cache reads :
  fs_max_entries (record_all cache reads) = fs_max_entries cache.
Proof using.
  revert cache; induction reads as [|[now [p [[h t] b]]] reads IH]; intros cache; simpl; [done|].
  by rewrite IH.
Qed.

Lemma record_all_size cache reads :
  0 < fs_max_entries cache → size (fs_entries cache) ≤ fs_max_entries cache →
  size (fs_entries (record_all cache reads)) ≤ fs_max_entries cache.
Proof using.
  revert cache; induction reads as [|[now [p [[h t] b]]] reads IH]; intros cache Hm Hs; simpl;
    [done|].
  rewrite <-(record_read_max now cache p h t b). apply IH; rewrite record_read_max; [done|].
  by apply record_read_size.
Qed.

End guard.

(** * Properties *)

(** The cache stays within its bound over any sequence of reads, and a
    read only ever costs the least recently read file its entry: after
    [record_read] the file just read is present, and any other file keeps its
    entry unless the cache was full, the path was new, and that entry was the
    oldest. *)
Theorem cache_bounded_lru max reads now p h t b :
  0 < max →
  let cache := record_all (cache_new max) reads in
  let cache' := record_read now cache p h t b in
  size (fs_entries cache') ≤ max ∧
  cache_get cache' p =
    Some {| fs_content_hash := h; fs_mtime := t; fs_is_partial := b; fs_read_at := now |} ∧
  ∀ q, q ≠ p →
    cache_get cache' q = cache_get cache q ∨
    (cache_get cache' q = None ∧ max ≤ size (fs_entries cache) ∧ cache_get cache p = None ∧
     ∃ e, cache_get cache q = Some e ∧
          ∀ q' e', cache_get cache q' = Some e' → (fs_read_at e ≤ fs_read_at e')%Z).
Proof.
  intros Hm cache cache'.
  pose proof (record_all_max (cache_new max) reads) as Hmax. fold cache in Hmax. simpl in Hmax.
  split.
  - pose proof (record_all_size (cache_new max) reads Hm) as Hs. fold cache in Hs.
    simpl in Hs. rewrite map_size_empty in Hs. unfold cache'.
    rewrite <-Hmax. apply record_read_size; rewrite Hmax; [done|]. apply Hs. lia.
  - split; [apply record_read_lookup|]. intros q Hq. rewrite <-Hmax.
    by apply record_read_other.
Qed.

(** A write to an existing file is allowed only on a version the agent
    has seen.  If the guard allows a path, the path was read in this run and,
    when its time can be read at all, either the time is the one recorded or
    the content hashes to the recorded hash; a path never read is always
    [NotRead]; a changed time with changed or unreadable content is always
    refused as stale; and both entry points of the guard agree on a readable
    time. *)
Theorem guard_allows_only_seen (content_hash : list N → Z) fs cache path :
  (check_guard content_hash fs cache path = Allowed →
   ∃ e, cache_get cache path = Some e ∧
     ∀ t, fs_stat fs path = Some (Some t) →
       t = fs_mtime e ∨ ∃ data, fs_read fs path = Some data ∧
                                 content_hash data = fs_content_hash e) ∧
  (cache_get cache path = None → check_guard content_hash fs cache path = NotRead) ∧
  (∀ e t, cache_get cache path = Some e → fs_stat fs path = Some (Some t) →
     t ≠ fs_mtime e →
     (∀ data, fs_read fs path = Some data → content_hash data ≠ fs_content_hash e) →
     ∃ reason, check_guard content_hash fs cache path = StaleRead reason) ∧
  (∀ t, fs_stat fs path = Some (Some t) →
     check_guard content_hash fs cache path =
     check_guard_with_mtime content_hash fs cache path t).
Proof.
  unfold check_guard, check_guard_with_mtime, check_guard_mtime.
  destruct (cache_get cache path) as [e|]; [|split_and!; naive_solver].
  split_and!; [|done|..].
  - intros H. exists e. split; [done|]. intros t Ht. rewrite Ht in H.
    repeat case_match; simplify_eq; eauto.
  - intros e' t [= <-] Ht Hne Hd. rewrite Ht, decide_False by done.
    destruct (fs_read fs path) as [data|]; [|eauto].
    rewrite decide_False by eauto. eauto.
  - intros t ->. done.
Qed.

(** A write does not lock the agent out of its own file: once
    [update_cache_after_write] has seen the file, the guard allows the next
    write as long as the content is unchanged, whatever happened to the
    modification time in between. *)
Theorem guard_after_own_write (content_hash : list N → Z) now fs fs' cache path data :
  fs_read fs path = Some data → fs_read fs' path = Some data →
  check_guard content_hash fs' (update_cache_after_write content_hash now fs cache path) path
    = Allowed.
Proof.
  intros H1 H2. unfold update_cache_after_write. rewrite H1.
  unfold check_guard. rewrite record_read_lookup.
  destruct (fs_stat fs' path) as [[t|]|]; [|done..].
  unfold check_guard_mtime. simpl. case_decide; [done|]. rewrite H2.
  by rewrite decide_True.
Qed.

(** * Witnesses *)

Section witnesses.
Local Definition sum_hash (l : list N) : Z := foldr (λ b acc, Z.of_N b + 31 * acc)%Z 7%Z l.
Local Definition view (t : Z) (data : list N) : FsView :=
  {| fs_stat := λ _, Some (Some t); fs_read := λ _, Some data |}.

Lemma cache_bounded_lru_witness :
  size (fs_entries (record_read 3
    (record_all (cache_new 2) [(1, ("a", (0, 0, false))); (2, ("b", (0, 0, false)))]%Z)
    "c" 0 0 false)) ≤ 2.
Proof.
  exact (proj1 (cache_bounded_lru 2
    [(1, ("a", (0, 0, false))); (2, ("b", (0, 0, false)))]%Z 3 "c" 0 0 false ltac:(lia))).
Defined.

Lemma guard_after_own_write_witness :
  check_guard sum_hash (view 9 [1; 2]%N)
    (update_cache_after_write sum_hash 5 (view 4 [1; 2]%N) (cache_new 2) "a.rs") "a.rs" = Allowed.
Proof. exact (guard_after_own_write sum_hash 5 (view 4 [1; 2]%N) (view 9 [1; 2]%N) _ "a.rs" [1; 2]%N eq_refl eq_refl). Defined.

Lemma guard_allows_only_seen_witness :
  check_guard sum_hash (view 9 [3]%N) (cache_new 2) "a.rs" = NotRead.
Proof. exact (proj1 (proj2 (guard_allows_only_seen sum_hash (view 9 [3]%N) (cache_new 2) "a.rs")) eq_refl). Defined.
End witnesses.
