(* ===== verification/Session.v ===== *)
(** Sessions and their histories: [alms-session/src/lib.rs] and [types.rs].

    The [SessionManager] keeps five maps that must agree: the sessions by
    (agent, context), the reverse index from a session id to that key, and the
    history, audit trail and rolling summary of every session id.  The SQLite
    store behind it is the class [SqliteStore], whose calls may fail; the wall
    clock and fresh random ids are arguments; [chrono]'s RFC 3339 functions are
    the class [ChronoCrate].  A [DateTime<Utc>] is its nanoseconds since the
    epoch. *)
From stdpp Require Import pretty.
From S2P Require Import Prelude Ident Run Json.

(** * Data *)

(** An [io] or [serde_json] error is its text. *)
Inductive AlmsError :=
| SessionNotFound (id : string)
| AgentNotFound (id : string)
| DuplicateName (name : string)
| InvalidConfig (msg : string)
| ToolExecution (msg : string)
| ToolBlocked (reason : string) (target : option string)
| ChannelError (msg : string)
| Runtime (msg : string)
| SandboxFailure (msg : string)
| LlmApiError (provider : string) (status : Z) (body : string)
| IoError (msg : string)
| Serialization (msg : string)
| CancelledError
| CancelledWithToolCalls (tool_calls : list ToolCallRecord)
| FailedWithToolCalls (source : AlmsError) (tool_calls : list ToolCallRecord).

(** [Display], from the [thiserror] attributes. *)
Fixpoint alms_error_to_string (e : AlmsError) : string :=
  match e with
  | SessionNotFound id => "Session not found: " +:+ id
  | AgentNotFound id => "Agent not found: " +:+ id
  | DuplicateName name => "Duplicate agent name: " +:+ name
  | InvalidConfig msg => "Invalid configuration: " +:+ msg
  | ToolExecution msg => "Tool execution failed: " +:+ msg
  | ToolBlocked reason _ => reason
  | ChannelError msg => "Channel error: " +:+ msg
  | Runtime msg => "Runtime error: " +:+ msg
  | SandboxFailure msg => "Sandbox error: " +:+ msg
  | LlmApiError provider status body => "LLM error (" +:+ provider +:+ " " +:+ pretty status +:+ "): " +:+ body
  | IoError msg => "IO error: " +:+ msg
  | Serialization msg => "Serialization error: " +:+ msg
  | CancelledError => "Run cancelled"
  | CancelledWithToolCalls tool_calls => "Run cancelled (with " +:+ pretty (length tool_calls) +:+ " tool call records)"
  | FailedWithToolCalls source _ => alms_error_to_string source
  end.

Inductive SessionStatus := Active | Idle | Archived.

Definition status_to_string (s : SessionStatus) : string :=
  match s with Active => "active" | Idle => "idle" | Archived => "archived" end.

Record Session := {
  sess_id : SessionId;
  sess_agent_id : AgentId;
  sess_context_id : string;
  sess_created_at : Z;
  sess_last_activity : Z;
  sess_status : SessionStatus;
}.

Inductive Role := System | User | Assistant | Tool.

Inductive Content :=
| Text (s : string)
| ToolCall (name : string) (params : json)
| ToolResult (tool_id : string) (result : json)
| Image (url : string) (alt : option string).

Record Message := {
  msg_id : string;
  msg_role : Role;
  msg_content : Content;
  msg_timestamp : Z;
  msg_metadata : option json;
}.

(** [Content::to_display_string]; [json_to_string] is [serde_json]'s compact
    rendering of a value. *)
Definition to_display_string (json_to_string : json → string) (c : Content) : string :=
  match c with
  | Text text => text
  | ToolCall name params => "Tool call: " +:+ name +:+ "(" +:+ json_to_string params +:+ ")"
  | ToolResult tool_id result =>
      let result_str := json_to_string result in
      if Nat.ltb 2000 (String.length result_str) then
        "Tool result " +:+ tool_id +:+ ": " +:+ truncate_to_char_boundary result_str 2000 +:+
        "... [truncated, " +:+ pretty (String.length result_str) +:+ " bytes total]"
      else "Tool result " +:+ tool_id +:+ ": " +:+ result_str
  | Image url _ => "[Image: " +:+ url +:+ "]"
  end.

Inductive AuditDecision := Allow | Deny | AuditError.

Record AuditEvent := {
  audit_session_id : SessionId;
  audit_run_id : option RunId;
  audit_tool : string;
  audit_decision : AuditDecision;
  audit_params : json;
  audit_result : option json;
  audit_error : option string;
  audit_timestamp : Z;
}.

Record ContextSummary := {
  summary_text : string;
  messages_covered : nat;
  summary_updated_at : option Z;
}.

Definition summary_default : ContextSummary :=
  {| summary_text := ""; messages_covered := 0; summary_updated_at := None |}.

Record SessionConfig := {
  idle_timeout_secs : Z;
  auto_archive : bool;
  archive_ttl_secs : Z;
  max_messages : Z;
  max_context_tokens : Z;
}.

Definition session_config_default : SessionConfig :=
  {| idle_timeout_secs := 24 * 60 * 60; auto_archive := true;
     archive_ttl_secs := 30 * 24 * 60 * 60; max_messages := 10000;
     max_context_tokens := 256000 |}.

Notation SessionKey := (AgentId * string)%type.

(** * The code outside the manager *)

(** [chrono]: RFC 3339 rendering and parsing of an instant. *)
Class ChronoCrate := {
  to_rfc3339 : Z → string;
  parse_from_rfc3339 : string → option Z;
}.

(** The instants of the years 0000 to 9999, which RFC 3339 can express. *)
Definition rfc3339_range (t : Z) : bool :=
  ((-62167219200000000000 <=? t) && (t <? 253402300800000000000))%Z.

Class ChronoLaws (C : ChronoCrate) :=
  rfc3339_roundtrip t : rfc3339_range t = true → parse_from_rfc3339 (to_rfc3339 t) = Some t.

(** The SQLite store, as the manager calls it: writes change the store's state
    and may fail, reads may fail.  A registry row is its agent id and name. *)
Class SqliteStore (St : Type) := {
  save_session : Session → St → Result unit AlmsError * St;
  save_message : SessionId → Message → St → Result unit AlmsError * St;
  save_audit : AuditEvent → St → Result unit AlmsError * St;
  save_summary : SessionId → ContextSummary → St → Result unit AlmsError * St;
  delete_session : SessionId → St → Result unit AlmsError * St;
  load_all_sessions : St → Result (list Session) AlmsError;
  load_messages : SessionId → St → Result (list Message) AlmsError;
  load_audit : SessionId → St → Result (list AuditEvent) AlmsError;
  load_summary : SessionId → St → Result (option ContextSummary) AlmsError;
  load_agent_by_name : string → St → Result (option (AgentId * string)) AlmsError;
}.

(** [load_agent_by_name] selects [WHERE name = ?1 COLLATE NOCASE], over a
    unique index of the same collation. *)
Class RegistryLaws {St} (DB : SqliteStore St) := {
  lookup_nocase a b st :
    to_ascii_lowercase a = to_ascii_lowercase b →
    load_agent_by_name a st = load_agent_by_name b st;
  lookup_name a st id name :
    load_agent_by_name a st = Ok (Some (id, name)) →
    to_ascii_lowercase name = to_ascii_lowercase a;
}.

(** * The manager *)

Record SessionManager (St : Type) := mkManager {
  sessions : gmap SessionKey Session;
  session_by_id : gmap SessionId SessionKey;
  history : gmap SessionId (list Message);
  audit : gmap SessionId (list AuditEvent);
  summaries : gmap SessionId ContextSummary;
  sm_config : SessionConfig;
  sm_store : option St;
}.
Arguments mkManager {St}.
Arguments sessions {St}.
Arguments session_by_id {St}.
Arguments history {St}.
Arguments audit {St}.
Arguments summaries {St}.
Arguments sm_config {St}.
Arguments sm_store {St}.

Definition metadata_get (k : string) (m : Message) : option json :=
  md ← msg_metadata m; json_get k md.

Definition is_pending_input (m : Message) : bool :=
  match metadata_get "pending_input" m ≫= as_bool with Some b => b | None => false end.

Section manager.
Context `{U : UuidCrate} `{CH : ChronoCrate} {St : Type} `{DB : SqliteStore St}.

Notation SM := (SessionManager St).

Definition claimed_input_timestamp (m : Message) : option Z :=
  v ← metadata_get "input_claimed_at" m; s ← as_str v; parse_from_rfc3339 s.

Definition logical_message_timestamp (m : Message) : Z :=
  default (msg_timestamp m) (claimed_input_timestamp m).

Definition session_manager_new (config : SessionConfig) : SM :=
  mkManager ∅ ∅ ∅ ∅ ∅ config None.

Definition set_sessions (f : gmap SessionKey Session → gmap SessionKey Session) (m : SM) : SM :=
  mkManager (f (sessions m)) (session_by_id m) (history m) (audit m) (summaries m)
    (sm_config m) (sm_store m).
Definition set_session_by_id (f : gmap SessionId SessionKey → gmap SessionId SessionKey)
    (m : SM) : SM :=
  mkManager (sessions m) (f (session_by_id m)) (history m) (audit m) (summaries m)
    (sm_config m) (sm_store m).
Definition set_history (f : gmap SessionId (list Message) → gmap SessionId (list Message))
    (m : SM) : SM :=
  mkManager (sessions m) (session_by_id m) (f (history m)) (audit m) (summaries m)
    (sm_config m) (sm_store m).
Definition set_audit (f : gmap SessionId (list AuditEvent) → gmap SessionId (list AuditEvent))
    (m : SM) : SM :=
  mkManager (sessions m) (session_by_id m) (history m) (f (audit m)) (summaries m)
    (sm_config m) (sm_store m).
Definition set_summaries (f : gmap SessionId ContextSummary → gmap SessionId ContextSummary)
    (m : SM) : SM :=
  mkManager (sessions m) (session_by_id m) (history m) (audit m) (f (summaries m))
    (sm_config m) (sm_store m).
Definition set_store (st : St) (m : SM) : SM :=
  mkManager (sessions m) (session_by_id m) (history m) (audit m) (summaries m)
    (sm_config m) (Some st).

(** A write-through whose failure is only logged. *)
Definition persist (write : St → Result unit AlmsError * St) (m : SM) : SM :=
  match sm_store m with Some st => set_store (snd (write st)) m | None => m end.

(** A write-through whose failure is returned. *)
Definition try_persist (write : St → Result unit AlmsError * St) (m : SM)
    : Result unit AlmsError * SM :=
  match sm_store m with
  | Some st => let '(r, st') := write st in (r, set_store st' m)
  | None => (Ok tt, m)
  end.

(** ** Start-up *)

Fixpoint load_sessions (st : St) (l : list Session) (m : SM) : Result SM AlmsError :=
  match l with
  | [] => Ok m
  | s :: l' =>
      let key := (sess_agent_id s, sess_context_id s) in
      let id := sess_id s in
      let by_id := <[id := key]> (session_by_id m) in
      let ss := <[key := s]> (sessions m) in
      let? msgs := load_messages id st in
      let? events := load_audit id st in
      let? summary := load_summary id st in
      load_sessions st l'
        (mkManager ss by_id (<[id := msgs]> (history m)) (<[id := events]> (audit m))
           (<[id := default summary_default summary]> (summaries m)) (sm_config m) (sm_store m))
  end.

Definition load_from_store (m : SM) : Result SM AlmsError :=
  match sm_store m with
  | None => Ok m
  | Some st => let? l := load_all_sessions st in load_sessions st l m
  end.

Definition with_store (config : SessionConfig) (st : St) : Result SM AlmsError :=
  load_from_store (set_store st (session_manager_new config)).

(** ** Lookup and creation *)

Definition has_session (key : SessionKey) (m : SM) : bool :=
  bool_decide (is_Some (sessions m !! key)).

Definition session_id_for_context (a : AgentId) (ctx : string) (m : SM) : option SessionId :=
  sess_id <$> sessions m !! (a, ctx).

(** [Session::new], with its clock reading and its random id. *)
Definition session_new (now : Z) (id : SessionId) (a : AgentId) (ctx : string) : Session :=
  {| sess_id := id; sess_agent_id := a; sess_context_id := ctx; sess_created_at := now;
     sess_last_activity := now; sess_status := Active |}.

Definition touch (now : Z) (s : Session) : Session :=
  {| sess_id := sess_id s; sess_agent_id := sess_agent_id s;
     sess_context_id := sess_context_id s; sess_created_at := sess_created_at s;
     sess_last_activity := now; sess_status := sess_status s |}.

(** The projections every creation publishes: the reverse index, an empty
    history and audit trail, and a default summary where there is none. *)
Definition register_session (id : SessionId) (key : SessionKey) (m : SM) : SM :=
  mkManager (sessions m) (<[id := key]> (session_by_id m)) (<[id := []]> (history m))
    (<[id := []]> (audit m))
    (match summaries m !! id with
     | Some _ => summaries m
     | None => <[id := summary_default]> (summaries m)
     end)
    (sm_config m) (sm_store m).

Definition get_or_create (now : Z) (fresh : SessionId) (a : AgentId) (ctx : string) (m : SM)
    : Session * SM :=
  let key := (a, ctx) in
  match sessions m !! key with
  | Some s => (s, m)
  | None =>
      let s := session_new now fresh a ctx in
      let m1 := persist (save_session s) (register_session fresh key m) in
      (s, set_sessions <[key := s]> m1)
  end.

Definition get_or_create_with_id (now : Z) (id : SessionId) (a : AgentId) (ctx : string) (m : SM)
    : Result Session AlmsError * SM :=
  let key := (a, ctx) in
  match sessions m !! key with
  | Some s =>
      if decide (sess_id s ≠ id) then
        (Err (Runtime ("Context " +:+ ctx +:+ " already resolves to session " +:+
                       uuid_to_string (session_uuid (sess_id s)) +:+ ", not " +:+
                       uuid_to_string (session_uuid id))), m)
      else (Ok s, m)
  | None =>
      if match session_by_id m !! id with
         | Some existing_key => bool_decide (existing_key ≠ key)
         | None => false
         end
      then
        (Err (Runtime ("Session " +:+ uuid_to_string (session_uuid id) +:+
                       " is already registered for another context")), m)
      else
        let s := session_new now id a ctx in
        match try_persist (save_session s) m with
        | (Err e, m1) => (Err e, m1)
        | (Ok _, m1) => (Ok s, set_sessions <[key := s]> (register_session id key m1))
        end
  end.

Definition sentinel : AgentId := MkAgentId uuid_nil.

Definition get_or_create_shared (now : Z) (id : SessionId) (ctx : string) (m : SM)
    : Session * SM :=
  let key := (sentinel, ctx) in
  match sessions m !! key with
  | Some s => (s, m)
  | None =>
      let s := session_new now id sentinel ctx in
      let m1 := persist (save_session s) (register_session id key m) in
      (s, set_sessions <[key := s]> m1)
  end.

Definition has_session_by_id (id : SessionId) (m : SM) : bool :=
  bool_decide (is_Some (session_by_id m !! id)).

Definition not_found {A} (id : SessionId) : Result A AlmsError :=
  Err (SessionNotFound (uuid_to_string (session_uuid id))).

Definition session_get (id : SessionId) (m : SM) : Result Session AlmsError :=
  match session_by_id m !! id ≫= λ key, sessions m !! key with
  | Some s => Ok s
  | None => not_found id
  end.

(** ** Messages *)

Definition append_message (now : Z) (id : SessionId) (msg : Message) (m : SM)
    : Result unit AlmsError * SM :=
  match history m !! id with
  | None => (not_found id, m)
  | Some h =>
      let m1 := set_history <[id := h ++ [msg]]> (persist (save_message id msg) m) in
      match session_by_id m1 !! id with
      | Some key =>
          match sessions m1 !! key with
          | Some s =>
              let s' := touch now s in
              (Ok tt, persist (save_session s') (set_sessions <[key := s']> m1))
          | None => (Ok tt, m1)
          end
      | None => (Ok tt, m1)
      end
  end.

Definition append_persisted_message (id : SessionId) (msg : Message) (touched_at : Z) (m : SM)
    : Result unit AlmsError * SM :=
  match session_by_id m !! id with
  | None => (not_found id, m)
  | Some key =>
      match history m !! id with
      | None => (not_found id, m)
      | Some h =>
          let m1 := set_history <[id := h ++ [msg]]> m in
          match sessions m1 !! key with
          | None => (not_found id, m1)
          | Some s =>
              if (sess_last_activity s <? touched_at)%Z
              then (Ok tt, set_sessions <[key := touch touched_at s]> m1)
              else (Ok tt, m1)
          end
      end
  end.

Definition get_history (id : SessionId) (m : SM) : Result (list Message) AlmsError :=
  match history m !! id with Some h => Ok h | None => not_found id end.

(** The message a run's admission persisted: its metadata names the run. *)
Definition is_input_of (run_id : string) (msg : Message) : bool :=
  match metadata_get "run_id" msg ≫= as_str with
  | Some r => String.eqb r run_id
  | None => false
  end.

(** [Iterator::position], with the element found there. *)
Fixpoint position {A} (f : A → bool) (l : list A) : option (nat * A) :=
  match l with
  | [] => None
  | x :: l' => if f x then Some (0, x) else '(i, y) ← position f l'; Some (S i, y)
  end.

Definition visible (h : list Message) : list Message :=
  filter (λ m, is_pending_input m = false) h.

(** The claim's instant: now, moved past everything already visible. *)
Definition claim_instant (now : Z) (h : list Message) : Z :=
  match max_opt (logical_message_timestamp <$> visible h) with
  | Some latest => if (now <=? latest)%Z then (latest + 1)%Z else now
  | None => now
  end.

Definition claim_message (at_ : Z) (msg : Message) : option Message :=
  match msg_metadata msg with
  | Some (JObj ms) =>
      Some {| msg_id := msg_id msg; msg_role := msg_role msg; msg_content := msg_content msg;
              msg_timestamp := msg_timestamp msg;
              msg_metadata := Some (JObj
                (member_insert "input_claimed_at" (JStr (to_rfc3339 at_))
                   (member_insert "pending_input" (JBool false) ms))) |}
  | _ => None
  end.

Definition claim_error {A} (run_id what : string) : Result A AlmsError :=
  Err (Runtime ("Pre-persisted input for run " +:+ run_id +:+ what)).

Definition claim_pending_input (now : Z) (id : SessionId) (run : RunId) (m : SM)
    : Result unit AlmsError * SM :=
  match history m !! id with
  | None => (not_found id, m)
  | Some h =>
      let run_id := uuid_to_string (run_uuid run) in
      match position (is_input_of run_id) h with
      | None => (claim_error run_id " was not found", m)
      | Some (pos, msg) =>
          if negb (is_pending_input msg)
          then (claim_error run_id " was already claimed", m)
          else
            match claim_message (claim_instant now h) msg with
            | None => (claim_error run_id " has invalid metadata", m)
            | Some claimed =>
                match try_persist (save_message id claimed) m with
                | (Err e, m1) => (Err e, m1)
                | (Ok _, m1) => (Ok tt, set_history <[id := <[pos := claimed]> h]> m1)
                end
            end
      end
  end.

Definition context_order (h : list Message) : list Message :=
  let v := visible h in
  if existsb (λ m, bool_decide (is_Some (claimed_input_timestamp m))) v
  then sort_by_key logical_message_timestamp v else v.

Definition get_context_history (id : SessionId) (m : SM) : Result (list Message) AlmsError :=
  match get_history id m with Ok h => Ok (context_order h) | Err e => Err e end.

Definition find_last_message (id : SessionId) (predicate : Message → bool) (m : SM)
    : option Message :=
  h ← history m !! id; List.find predicate (rev h).

(** ** Audit trail, listings, deletion, summaries *)

Definition append_audit (id : SessionId) (event : AuditEvent) (m : SM)
    : Result unit AlmsError * SM :=
  match audit m !! id with
  | Some a => (Ok tt, set_audit <[id := a ++ [event]]> (persist (save_audit event) m))
  | None => (not_found id, m)
  end.

Definition get_audit (id : SessionId) (m : SM) : Result (list AuditEvent) AlmsError :=
  match audit m !! id with Some a => Ok a | None => not_found id end.

Definition list_active (a : AgentId) (m : SM) : list Session :=
  snd <$> filter (λ e, e.1.1 = a) (map_to_list (sessions m)).

Definition list_active_with_dms (a : AgentId) (agent_name : string) (m : SM) : list Session :=
  list_active a m ++
  (snd <$> filter (λ e, e.1.1 = sentinel ∧ is_Some (dm_peer (sess_context_id e.2) agent_name))
             (map_to_list (sessions m))).

Definition list_all (m : SM) : list Session :=
  sort_by_key (λ s, - sess_last_activity s)%Z (snd <$> map_to_list (sessions m)).

(** What [delete] does once it has taken the session out of [sessions]: one
    map after the other, each under its own lock only, and then the store. *)
Definition delete_steps (id : SessionId) : list (SM → SM) :=
  [ set_session_by_id (base.delete id);
    set_history (base.delete id);
    set_audit (base.delete id);
    set_summaries (base.delete id);
    persist (delete_session id) ].

Definition run_steps (steps : list (SM → SM)) (m : SM) : SM :=
  foldl (λ m step, step m) m steps.

(** The whole call when nothing comes between its steps; [SessionSteps.v]
    interleaves them with the other operations. *)
Definition session_delete (a : AgentId) (ctx : string) (m : SM) : Result unit AlmsError * SM :=
  let key := (a, ctx) in
  match sessions m !! key with
  | Some s => (Ok tt, run_steps (delete_steps (sess_id s)) (set_sessions (base.delete key) m))
  | None => (Err (SessionNotFound ctx), m)
  end.

Definition get_summary (id : SessionId) (m : SM) : Result ContextSummary AlmsError :=
  match summaries m !! id with Some s => Ok s | None => not_found id end.

Definition update_summary (id : SessionId) (summary : ContextSummary) (m : SM)
    : Result unit AlmsError * SM :=
  match summaries m !! id with
  | None => (not_found id, m)
  | Some _ => (Ok tt, set_summaries <[id := summary]> (persist (save_summary id summary) m))
  end.

(** ** Named subagents *)

Definition lookup_subagent_record (name : string) (m : SM) : option (AgentId * string) :=
  st ← sm_store m;
  match load_agent_by_name name st with Ok record => record | Err _ => None end.

Definition fold_name (record : option (AgentId * string)) (name : string) : string :=
  match record with Some (_, n) => n | None => to_ascii_lowercase name end.

Definition canonical_subagent_name (name : string) (m : SM) : string :=
  fold_name (lookup_subagent_record name m) name.

Definition named_subagent_key (parent : AgentId) (name : string) (m : SM) : SessionKey :=
  let record := lookup_subagent_record name m in
  let canonical := fold_name record name in
  let context_id := named_subagent_context_id parent canonical in
  match record with
  | Some (id, _) => (id, context_id)
  | None => (deterministic_agent parent canonical, context_id)
  end.

(** * Sequences of operations *)

Inductive SessionOp :=
| OpGetOrCreate (now : Z) (fresh : SessionId) (a : AgentId) (ctx : string)
| OpWithId (now : Z) (id : SessionId) (a : AgentId) (ctx : string)
| OpShared (now : Z) (id : SessionId) (ctx : string)
| OpAppend (now : Z) (id : SessionId) (msg : Message)
| OpAppendPersisted (id : SessionId) (msg : Message) (touched_at : Z)
| OpClaim (now : Z) (id : SessionId) (run : RunId)
| OpAudit (id : SessionId) (event : AuditEvent)
| OpDelete (a : AgentId) (ctx : string)
| OpSummary (id : SessionId) (summary : ContextSummary).

Definition exec (op : SessionOp) (m : SM) : SM :=
  match op with
  | OpGetOrCreate now fresh a ctx => snd (get_or_create now fresh a ctx m)
  | OpWithId now id a ctx => snd (get_or_create_with_id now id a ctx m)
  | OpShared now id ctx => snd (get_or_create_shared now id ctx m)
  | OpAppend now id msg => snd (append_message now id msg m)
  | OpAppendPersisted id msg t => snd (append_persisted_message id msg t m)
  | OpClaim now id run => snd (claim_pending_input now id run m)
  | OpAudit id event => snd (append_audit id event m)
  | OpDelete a ctx => snd (session_delete a ctx m)
  | OpSummary id summary => snd (update_summary id summary m)
  end.

(** What the callers supply: a random id is new, and the id of a shared
    session belongs to its own context. *)
Definition op_fresh (op : SessionOp) (m : SM) : bool :=
  match op with
  | OpGetOrCreate _ fresh _ _ => bool_decide (session_by_id m !! fresh = None)
  | OpShared _ id ctx =>
      bool_decide (session_by_id m !! id = None ∨ session_by_id m !! id = Some (sentinel, ctx))
  | _ => true
  end.

Inductive session_reachable (m0 : SM) : SM → Prop :=
| sr_refl : session_reachable m0 m0
| sr_step m op : session_reachable m0 m → op_fresh op m = true → session_reachable m0 (exec op m).

(** * The index invariant *)

Record index_ok (m : SM) : Prop := {
  ix_session k s : sessions m !! k = Some s →
    k = (sess_agent_id s, sess_context_id s) ∧ session_by_id m !! sess_id s = Some k;
  ix_by_id i k : session_by_id m !! i = Some k → ∃ s, sessions m !! k = Some s ∧ sess_id s = i;
  ix_history i : is_Some (history m !! i) ↔ is_Some (session_by_id m !! i);
  ix_audit i : is_Some (audit m !! i) ↔ is_Some (session_by_id m !! i);
  ix_summaries i : is_Some (summaries m !! i) ↔ is_Some (session_by_id m !! i);
}.

(** ** Preservation *)

Lemma persist_fields w (m : SM) :
  sessions (persist w m) = sessions m ∧ session_by_id (persist w m) = session_by_id m ∧
  history (persist w m) = history m ∧ audit (persist w m) = audit m ∧
  summaries (persist w m) = summaries m.
Proof using. unfold persist. by destruct (sm_store m). Qed.

Lemma try_persist_fields w (m : SM) :
  let m' := snd (try_persist w m) in
  sessions m' = sessions m ∧ session_by_id m' = session_by_id m ∧
  history m' = history m ∧ audit m' = audit m ∧ summaries m' = summaries m.
Proof using. unfold try_persist. destruct (sm_store m) as [st|]; [|done]. by destruct (w st). Qed.

Lemma index_ok_ext (m m' : SM) :
  sessions m' = sessions m ∧ session_by_id m' = session_by_id m ∧
  history m' = history m ∧ audit m' = audit m ∧ summaries m' = summaries m →
  index_ok m → index_ok m'.
Proof using.
  intros (E1 & E2 & E3 & E4 & E5) [H1 H2 H3 H4 H5]. by split; rewrite ?E1, ?E2, ?E3, ?E4, ?E5.
Qed.

Lemma index_ok_persist w (m : SM) : index_ok m → index_ok (persist w m).
Proof using. apply index_ok_ext, persist_fields. Qed.

Lemma insert_dom_iff {A B} (f : gmap SessionId A) (g : gmap SessionId B) i x y j :
  (is_Some (f !! j) ↔ is_Some (g !! j)) →
  is_Some (<[i:=x]> f !! j) ↔ is_Some (<[i:=y]> g !! j).
Proof using. rewrite !lookup_insert_is_Some'. naive_solver. Qed.

Lemma index_ok_create id key s (m : SM) :
  index_ok m → sessions m !! key = None →
  session_by_id m !! id = None ∨ session_by_id m !! id = Some key →
  sess_id s = id → key = (sess_agent_id s, sess_context_id s) →
  index_ok (set_sessions <[key := s]> (register_session id key m)).
Proof using.
  intros [H1 H2 H3 H4 H5] Hk [Hi|Hi] Hs Hks; [|by apply H2 in Hi as (?&?&?); congruence].
  split; unfold register_session; simpl.
  - intros k s' [[-> ->]|[Hne Hl]]%lookup_insert_Some.
    + by rewrite Hs, lookup_insert_eq.
    + destruct (H1 _ _ Hl) as [? Hb]. split; [done|].
      rewrite lookup_insert_ne; [done|]. intros ->. congruence.
  - intros i k [[-> ->]|[Hne Hl]]%lookup_insert_Some.
    + exists s. by rewrite lookup_insert_eq.
    + destruct (H2 _ _ Hl) as (s' & Hs' & ?). exists s'. split; [|done].
      rewrite lookup_insert_ne; [done|]. intros ->. congruence.
  - intros j. by apply insert_dom_iff.
  - intros j. by apply insert_dom_iff.
  - intros j. destruct (summaries m !! id) eqn:E.
    + exfalso. assert (is_Some (session_by_id m !! id)) as [? ?] by (apply H5; eauto). congruence.
    + by apply insert_dom_iff.
Qed.

Lemma index_ok_touch key s s' (m : SM) :
  index_ok m → sessions m !! key = Some s →
  sess_id s' = sess_id s → sess_agent_id s' = sess_agent_id s →
  sess_context_id s' = sess_context_id s →
  index_ok (set_sessions <[key := s']> m).
Proof using.
  intros [H1 H2 H3 H4 H5] Hk E1 E2 E3. split; simpl; try done.
  - intros k x [[<- <-]|[Hne Hl]]%lookup_insert_Some; [|auto].
    rewrite E1, E2, E3. by apply H1.
  - intros i k Hi. destruct (H2 _ _ Hi) as (x & Hx & Hid).
    destruct (decide (k = key)) as [->|]; [exists s'|exists x].
    + rewrite lookup_insert_eq. split; [done|]. congruence.
    + by rewrite lookup_insert_ne.
Qed.

Lemma insert_dom_keep {A B} (f : gmap SessionId A) (g : gmap SessionId B) i x y :
  f !! i = Some x →
  (∀ j, is_Some (f !! j) ↔ is_Some (g !! j)) →
  ∀ j, is_Some (<[i:=y]> f !! j) ↔ is_Some (g !! j).
Proof using.
  intros Hi H j. rewrite lookup_insert_is_Some', <-H.
  split; [|by right]. intros [<-|?]; eauto.
Qed.

Lemma index_ok_history id h h' (m : SM) :
  index_ok m → history m !! id = Some h → index_ok (set_history <[id := h']> m).
Proof using. intros [] Hh. split; simpl; try done. by eapply insert_dom_keep. Qed.

Lemma index_ok_audit id a a' (m : SM) :
  index_ok m → audit m !! id = Some a → index_ok (set_audit <[id := a']> m).
Proof using. intros [] Hh. split; simpl; try done. by eapply insert_dom_keep. Qed.

Lemma index_ok_summaries id s s' (m : SM) :
  index_ok m → summaries m !! id = Some s → index_ok (set_summaries <[id := s']> m).
Proof using. intros [] Hh. split; simpl; try done. by eapply insert_dom_keep. Qed.

Lemma delete_dom_iff {A B} (f : gmap SessionId A) (g : gmap SessionId B) i j :
  (is_Some (f !! j) ↔ is_Some (g !! j)) →
  is_Some (base.delete i f !! j) ↔ is_Some (base.delete i g !! j).
Proof using. rewrite !lookup_delete_is_Some. naive_solver. Qed.

Lemma index_ok_delete a ctx (m : SM) : index_ok m → index_ok (snd (session_delete a ctx m)).
Proof using.
  intros Hok. unfold session_delete. destruct (sessions m !! (a, ctx)) as [s|] eqn:E; [|done].
  cbn [snd delete_steps run_steps foldl]. apply index_ok_persist. destruct Hok as [H1 H2 H3 H4 H5].
  split; simpl; try (intros j; by apply delete_dom_iff).
  - intros k x [Hne Hl]%lookup_delete_Some. destruct (H1 _ _ Hl) as [? Hb]. split; [done|].
    rewrite lookup_delete_ne; [done|]. intros Heq.
    destruct (H1 _ _ E) as [_ Hb']. congruence.
  - intros i k [Hne Hl]%lookup_delete_Some. destruct (H2 _ _ Hl) as (x & Hx & Hid).
    exists x. split; [|done]. rewrite lookup_delete_ne; [done|]. intros <-. congruence.
Qed.

Lemma index_ok_create_persist id key s (m : SM) :
  index_ok m → sessions m !! key = None →
  session_by_id m !! id = None ∨ session_by_id m !! id = Some key →
  sess_id s = id → key = (sess_agent_id s, sess_context_id s) →
  index_ok (set_sessions <[key := s]> (persist (save_session s) (register_session id key m))).
Proof using.
  intros. eapply index_ok_ext; [|by apply (index_ok_create id key s m)].
  destruct (persist_fields (save_session s) (register_session id key m))
    as (E1 & E2 & E3 & E4 & E5).
  unfold set_sessions; simpl. by rewrite E1, E2, E3, E4, E5.
Qed.

Lemma index_ok_with_id now id a ctx (m : SM) :
  index_ok m → index_ok (snd (get_or_create_with_id now id a ctx m)).
Proof using.
  intros Hok. unfold get_or_create_with_id.
  destruct (sessions m !! (a, ctx)) eqn:E; [by case_decide|].
  destruct (match session_by_id m !! id with Some _ => _ | None => _ end) eqn:Hc; [done|].
  pose proof (try_persist_fields (save_session (session_new now id a ctx)) m) as Hp.
  destruct (try_persist _ m) as [[[]|e] m1]; cbn [snd] in *; [|by eapply index_ok_ext].
  assert (index_ok m1) as Hok1 by by eapply index_ok_ext.
  destruct Hp as (E1 & E2 & _). apply index_ok_create; rewrite ?E1, ?E2; try done.
  destruct (session_by_id m !! id); [right|by left].
  apply bool_decide_eq_false, dec_stable in Hc. by subst.
Qed.

Lemma index_ok_append now id msg (m : SM) :
  index_ok m → index_ok (snd (append_message now id msg m)).
Proof using.
  intros Hok. unfold append_message. destruct (history m !! id) as [h|] eqn:E; [|done].
  assert (index_ok (set_history <[id:=h ++ [msg]]> (persist (save_message id msg) m))) as Hok1.
  { eapply index_ok_history; [by apply index_ok_persist|].
    by destruct (persist_fields (save_message id msg) m) as (_ & _ & -> & _). }
  repeat case_match; try done. cbn [snd]. apply index_ok_persist.
  by eapply index_ok_touch.
Qed.

Lemma index_ok_append_persisted id msg t (m : SM) :
  index_ok m → index_ok (snd (append_persisted_message id msg t m)).
Proof using.
  intros Hok. unfold append_persisted_message.
  destruct (session_by_id m !! id) as [key|]; [|done].
  destruct (history m !! id) as [h|] eqn:E; [|done].
  pose proof (index_ok_history id h (h ++ [msg]) m Hok E) as Hok1.
  repeat case_match; try done. cbn [snd]. by eapply index_ok_touch.
Qed.

Lemma index_ok_claim now id run (m : SM) :
  index_ok m → index_ok (snd (claim_pending_input now id run m)).
Proof using.
  intros Hok. unfold claim_pending_input. destruct (history m !! id) as [h|] eqn:E; [|done].
  destruct (position _ h) as [[pos msg]|]; [|done]. destruct (negb _); [done|].
  destruct (claim_message _ msg) as [claimed|]; [|done].
  pose proof (try_persist_fields (save_message id claimed) m) as Hp.
  destruct (try_persist _ m) as [[[]|e] m1]; cbn [snd] in *; [|by eapply index_ok_ext].
  eapply index_ok_history; [by eapply index_ok_ext|]. by destruct Hp as (_ & _ & -> & _).
Qed.

Lemma index_ok_exec op (m : SM) : index_ok m → op_fresh op m = true → index_ok (exec op m).
Proof using.
  intros Hok Hf. destruct op; simpl in *; try apply bool_decide_eq_true in Hf.
  - unfold get_or_create. destruct (sessions m !! (a, ctx)) eqn:E; [done|].
    apply index_ok_create_persist; auto.
  - by apply index_ok_with_id.
  - unfold get_or_create_shared. destruct (sessions m !! (sentinel, ctx)) eqn:E; [done|].
    by apply index_ok_create_persist.
  - by apply index_ok_append.
  - by apply index_ok_append_persisted.
  - by apply index_ok_claim.
  - unfold append_audit. destruct (audit m !! id) as [l|] eqn:E; [|done]. cbn [snd].
    eapply index_ok_audit; [by apply index_ok_persist|].
    by destruct (persist_fields (save_audit event) m) as (_ & _ & _ & -> & _).
  - by apply index_ok_delete.
  - unfold update_summary. destruct (summaries m !! id) as [l|] eqn:E; [|done]. cbn [snd].
    eapply index_ok_summaries; [by apply index_ok_persist|].
    by destruct (persist_fields (save_summary id summary) m) as (_ & _ & _ & _ & ->).
Qed.

Lemma index_ok_new config : index_ok (session_manager_new config).
Proof using. by split; simpl; intros; rewrite ?lookup_empty in *. Qed.

Lemma index_ok_load st l (m m' : SM) :
  index_ok m → load_sessions st l m = Ok m' →
  NoDup (sess_id <$> l) → NoDup ((λ s, (sess_agent_id s, sess_context_id s)) <$> l) →
  Forall (λ s, session_by_id m !! sess_id s = None ∧
               sessions m !! (sess_agent_id s, sess_context_id s) = None) l →
  index_ok m'.
Proof using.
  revert m; induction l as [|s l IH]; intros m Hok Hl Hid Hk Hnew; simpl in *; [by simplify_eq|].
  apply NoDup_cons in Hid as [Hid1 Hid], Hk as [Hk1 Hk].
  apply Forall_cons in Hnew as [[Hn1 Hn2] Hnew].
  apply result_bind_Ok in Hl as (msgs & _ & Hl). apply result_bind_Ok in Hl as (events & _ & Hl).
  apply result_bind_Ok in Hl as (summary & _ & Hl).
  eapply IH; [|exact Hl|done|done|].
  - pose proof (index_ok_create _ _ s m Hok Hn2 (or_introl Hn1) eq_refl eq_refl)
      as [H1' H2' H3' H4' H5'].
    split; simpl; try done; intros j; by apply insert_dom_iff, Hok.
  - rewrite Forall_forall in *. intros x Hx. destruct (Hnew x Hx). simpl.
    rewrite !lookup_insert_ne; [done|..].
    + intros Heq. apply Hk1, list_elem_of_fmap. eauto.
    + intros Heq. apply Hid1, list_elem_of_fmap. eauto.
Qed.

End manager.

(** * Claimed inputs *)

Section claim.
Context `{U : UuidCrate} `{CH : ChronoCrate} `{CL : !ChronoLaws CH}.

Lemma position_Some {A} (f : A → bool) l i x :
  position f l = Some (i, x) ↔
  ∃ l1 l2, l = l1 ++ x :: l2 ∧ i = length l1 ∧ f x = true ∧ Forall (λ y, f y = false) l1.
Proof using.
  revert i; induction l as [|y l IH]; intros i; simpl.
  { split; [done|]. intros ([|??] & ? & ? & _); done. }
  destruct (f y) eqn:Hy.
  - split; [intros [= <- <-]; by exists [], l|].
    intros ([|z l1] & l2 & [= -> ->] & -> & Hx & Hf); [done|].
    apply Forall_cons in Hf as [? _]. congruence.
  - destruct (position f l) as [[j z]|] eqn:E; simpl.
    + split.
      * intros [= <- <-]. destruct (proj1 (IH j) eq_refl) as (l1 & l2 & -> & -> & Hx & Hf).
        exists (y :: l1), l2. repeat split; auto.
      * intros ([|z' l1] & l2 & [= -> ->] & -> & Hx & Hf); [congruence|].
        apply Forall_cons in Hf as [_ Hf].
        assert (Some (j, z) = Some (length l1, x)) as [= -> ->]; [|done].
        apply IH. by exists l1, l2.
    + split; [done|]. intros ([|z' l1] & l2 & [= -> ->] & -> & Hx & Hf); [congruence|].
      apply Forall_cons in Hf as [_ Hf].
      enough (@None (nat * A) = Some (length l1, x)) by done.
      apply IH. by exists l1, l2.
Qed.

(** A message of a run has an object as metadata, so claiming it cannot fail
    on the metadata. *)
Lemma claim_message_Some run at_ msg :
  is_input_of run msg = true → is_Some (claim_message at_ msg).
Proof using.
  unfold is_input_of, metadata_get, claim_message. intros H.
  destruct (msg_metadata msg) as [[]|]; simpl in *; try done.
Qed.

Lemma claim_message_spec run at_ msg claimed :
  rfc3339_range at_ = true →
  claim_message at_ msg = Some claimed →
  is_input_of run claimed = is_input_of run msg ∧ is_pending_input claimed = false ∧
  claimed_input_timestamp claimed = Some at_ ∧
  msg_id claimed = msg_id msg ∧ msg_role claimed = msg_role msg ∧
  msg_content claimed = msg_content msg ∧ msg_timestamp claimed = msg_timestamp msg.
Proof using CL.
  unfold claim_message, is_input_of, is_pending_input, claimed_input_timestamp, metadata_get.
  intros Hr. destruct (msg_metadata msg) as [[| | | | |ms]|]; try done. intros [= <-]. simpl.
  rewrite !member_insert_eq, !(member_insert_ne "input_claimed_at") by done.
  rewrite (member_insert_ne "pending_input" "run_id"), member_insert_eq by done. simpl.
  by rewrite rfc3339_roundtrip.
Qed.

Lemma visible_app l1 l2 : visible (l1 ++ l2) = visible l1 ++ visible l2.
Proof using. apply filter_app. Qed.

Lemma claim_instant_above now h :
  Forall (λ m, (logical_message_timestamp m < claim_instant now h)%Z) (visible h).
Proof using.
  unfold claim_instant. destruct (max_opt _) as [latest|] eqn:E.
  - apply max_opt_upper in E. rewrite Forall_fmap in E.
    eapply Forall_impl; [exact E|]. intros m. simpl.
    destruct (Z.leb_spec now latest); lia.
  - apply max_opt_None, fmap_nil_inv in E. rewrite E. constructor.
Qed.

(** Claiming turns a hidden message into the newest visible one. *)
Lemma context_order_claim now l1 msg l2 claimed :
  is_pending_input msg = true →
  claim_message (claim_instant now (l1 ++ msg :: l2)) msg = Some claimed →
  rfc3339_range (claim_instant now (l1 ++ msg :: l2)) = true →
  visible (l1 ++ msg :: l2) = visible l1 ++ visible l2 ∧
  context_order (l1 ++ claimed :: l2) =
    sort_by_key logical_message_timestamp (visible (l1 ++ msg :: l2)) ++ [claimed].
Proof using CL.
  intros Hp Hc Hr. set (h := l1 ++ msg :: l2) in *.
  assert (visible h = visible l1 ++ visible l2) as Hv.
  { unfold h. rewrite visible_app. unfold visible at 2. by rewrite filter_cons_False by congruence. }
  split; [done|].
  destruct (claim_message_spec "" _ _ _ Hr Hc) as (_ & Hnp & Hts & _).
  unfold context_order. rewrite visible_app. unfold visible at 2 4.
  rewrite filter_cons_True by done. fold (visible l2).
  rewrite existsb_app. simpl. rewrite (bool_decide_eq_true_2 (is_Some _)) by (rewrite Hts; eauto).
  rewrite orb_true_r, Hv. apply sort_by_key_max. rewrite <-Hv.
  replace (logical_message_timestamp claimed) with (claim_instant now h)
    by (unfold logical_message_timestamp; by rewrite Hts).
  apply claim_instant_above.
Qed.

End claim.

(** * A concrete rendering of instants

    Hexadecimal digits of the offset from the first expressible instant: an
    instance of [ChronoCrate] on which the theorems are evaluated. *)
Module SimpleChrono.
Import SimpleUuid.

Definition epoch_offset : Z := 62167219200000000000.

#[export] Instance simple_chrono : ChronoCrate := {
  to_rfc3339 t := hex_print 20 (Z.to_N (t + epoch_offset));
  parse_from_rfc3339 s := (λ n, Z.of_N n - epoch_offset)%Z <$> hex_read s 0;
}.

#[export] Instance simple_chrono_laws : ChronoLaws simple_chrono.
Proof.
  intros t Ht. unfold rfc3339_range in Ht. apply andb_true_iff in Ht as [H1 H2].
  apply Z.leb_le in H1. apply Z.ltb_lt in H2.
  cbn -[hex_print hex_read]. rewrite hex_read_print. simpl fmap. f_equal.
  unfold epoch_offset. rewrite N.mod_small; [lia|].
  replace (16 ^ N.of_nat 20)%N with 1208925819614629174706176%N by (vm_compute; reflexivity). lia.
Qed.
End SimpleChrono.

(** A store that keeps nothing and knows one registered agent. *)
Module NullStore.
#[export] Instance null_store : SqliteStore unit := {
  save_session _ st := (Ok tt, st);
  save_message _ _ st := (Ok tt, st);
  save_audit _ st := (Ok tt, st);
  save_summary _ _ st := (Ok tt, st);
  delete_session _ st := (Ok tt, st);
  load_all_sessions _ := Ok [];
  load_messages _ _ := Ok [];
  load_audit _ _ := Ok [];
  load_summary _ _ := Ok None;
  load_agent_by_name name _ :=
    Ok (if eq_ignore_ascii_case "Atlas" name then Some (MkAgentId (MkUuid 7), "Atlas") else None);
}.

#[export] Instance null_registry_laws : RegistryLaws null_store.
Proof.
  split; cbn [load_agent_by_name null_store].
  - intros a b _ H. unfold eq_ignore_ascii_case. by rewrite H.
  - intros a _ id name. destruct (eq_ignore_ascii_case "Atlas" a) eqn:E; [|done].
    intros [= <- <-]. by apply eq_ignore_ascii_case_spec in E.
Qed.
End NullStore.

(** * Properties *)

Section properties.
Context `{U : UuidCrate} `{CH : ChronoCrate} {St : Type} `{DB : SqliteStore St}.

(** The states a manager starts in: empty, or loaded from a store whose rows
    have distinct ids and distinct (agent, context) keys. *)
Inductive session_start : SessionManager St → Prop :=
| start_new config : session_start (session_manager_new config)
| start_store config st l m :
    with_store config st = Ok m → load_all_sessions st = Ok l →
    NoDup (sess_id <$> l) → NoDup ((λ s, (sess_agent_id s, sess_context_id s)) <$> l) →
    session_start m.

Lemma session_start_ok m : session_start m → index_ok m.
Proof using.
  destruct 1 as [config|config st l m Hw Hl Hid Hk]; [apply index_ok_new|].
  unfold with_store, load_from_store in Hw. simpl in Hw. rewrite Hl in Hw.
  eapply index_ok_load; [|exact Hw|done|done|].
  - by eapply index_ok_ext; [|apply (index_ok_new config)].
  - apply Forall_true. intros s. split; apply lookup_empty.
Qed.

Lemma session_reachable_ok m0 m : session_start m0 → session_reachable m0 m → index_ok m.
Proof using.
  intros H0. induction 1; [by apply session_start_ok|by apply index_ok_exec].
Qed.

(** Creation is stable.  Once [get_or_create] has answered for an agent
    and context, asking again gives the same session and changes nothing, the
    session is found by its id, and an existing session is never replaced.
    [get_or_create_with_id] answers only with the requested id, and when it
    refuses (an id or context that is taken, or a store that did not accept
    the row) no map changes. *)
Theorem session_creation_stable (m0 m : SessionManager St) now fresh a ctx :
  session_start m0 → session_reachable m0 m → session_by_id m !! fresh = None →
  (∀ s m1, get_or_create now fresh a ctx m = (s, m1) →
     sessions m1 !! (a, ctx) = Some s ∧ session_get (sess_id s) m1 = Ok s ∧
     (∀ now' fresh', get_or_create now' fresh' a ctx m1 = (s, m1)) ∧
     (∀ s0, sessions m !! (a, ctx) = Some s0 → s = s0 ∧ m1 = m)) ∧
  (∀ id r m1, get_or_create_with_id now id a ctx m = (r, m1) →
     match r with
     | Ok s => sess_id s = id ∧ sessions m1 !! (a, ctx) = Some s ∧ session_get id m1 = Ok s
     | Err _ => sessions m1 = sessions m ∧ session_by_id m1 = session_by_id m ∧
                history m1 = history m ∧ audit m1 = audit m ∧ summaries m1 = summaries m
     end).
Proof using.
  intros H0 Hr Hf. pose proof (session_reachable_ok _ _ H0 Hr) as Hok. split.
  - intros s m1 Hg.
    assert (index_ok m1) as Hok1.
    { pose proof (index_ok_exec (OpGetOrCreate now fresh a ctx) m Hok) as H. simpl in H.
      rewrite Hg in H. apply H. by apply bool_decide_eq_true. }
    assert (sessions m1 !! (a, ctx) = Some s) as Hs.
    { unfold get_or_create in Hg. destruct (sessions m !! (a, ctx)) eqn:E; simplify_eq; [done|].
      simpl. by rewrite lookup_insert_eq. }
    split_and!; [done|..].
    + unfold session_get. destruct (ix_session _ Hok1 _ _ Hs) as [_ ->]. simpl. by rewrite Hs.
    + intros. unfold get_or_create. by rewrite Hs.
    + intros s0 E. unfold get_or_create in Hg. rewrite E in Hg. by simplify_eq.
  - intros id r m1 Hg. pose proof (index_ok_with_id now id a ctx m Hok) as Hok1.
    rewrite Hg in Hok1. simpl in Hok1.
    assert (match r with
     | Ok s => sess_id s = id ∧ sessions m1 !! (a, ctx) = Some s
     | Err _ => sessions m1 = sessions m ∧ session_by_id m1 = session_by_id m ∧
                history m1 = history m ∧ audit m1 = audit m ∧ summaries m1 = summaries m
     end) as Hres.
    { clear Hok1. unfold get_or_create_with_id in Hg.
      destruct (sessions m !! (a, ctx)) as [s0|] eqn:E.
      - case_decide as Hd; by simplify_eq.
      - destruct (match session_by_id m !! id with Some _ => _ | None => _ end); [by simplify_eq|].
        pose proof (try_persist_fields (save_session (session_new now id a ctx)) m) as Hp.
        destruct (try_persist _ m) as [[[]|e] m']; simplify_eq; [|done].
        simpl. by rewrite lookup_insert_eq. }
    destruct r as [s|]; [|done]. destruct Hres as [<- Hs]. split_and!; [done..|].
    unfold session_get. destruct (ix_session _ Hok1 _ _ Hs) as [_ ->]. simpl. by rewrite Hs.
Qed.

(** The context an agent is shown.  [get_context_history] returns exactly
    the messages that are not pending inputs, each as often as it occurs; when
    some input was claimed they come in order of their logical time, messages
    of equal time in the order they were appended, and otherwise in the order
    they were appended. *)
Theorem context_history_exact (id : SessionId) (m : SessionManager St) h :
  history m !! id = Some h →
  ∃ ctx, get_context_history id m = Ok ctx ∧
    ctx ≡ₚ filter (λ x, is_pending_input x = false) h ∧
    ((∃ x, x ∈ h ∧ is_pending_input x = false ∧ is_Some (claimed_input_timestamp x)) →
       StronglySorted (λ x y, (logical_message_timestamp x ≤ logical_message_timestamp y)%Z) ctx ∧
       ∀ t, filter (λ x, logical_message_timestamp x = t) ctx =
            filter (λ x, logical_message_timestamp x = t)
              (filter (λ x, is_pending_input x = false) h)) ∧
    ((∀ x, x ∈ h → is_pending_input x = false → claimed_input_timestamp x = None) →
       ctx = filter (λ x, is_pending_input x = false) h).
Proof using.
  intros Hh. exists (context_order h). unfold get_context_history, get_history. rewrite Hh.
  split; [done|]. unfold context_order. fold (visible h).
  destruct (existsb _ (visible h)) eqn:E.
  - split; [apply sort_by_key_perm|]. split.
    + intros _. split; [apply sort_by_key_sorted|]. intros t. apply sort_by_key_stable.
    + intros Hn. exfalso. apply existsb_exists in E as (x & Hx & Hc).
      apply list_elem_of_In, list_elem_of_filter in Hx as [Hp Hx].
      apply bool_decide_eq_true in Hc. rewrite Hn in Hc by done. by destruct Hc.
  - split; [done|]. split; [|done]. intros (x & Hx & Hp & Hc). exfalso.
    apply eq_true_false_abs with (2 := E). apply existsb_exists. exists x.
    split; [apply list_elem_of_In, list_elem_of_filter; done|by apply bool_decide_eq_true].
Qed.

(** Claiming a queued input.  When [claim_pending_input] succeeds, the
    first message of that run was pending; it is replaced in place by itself
    marked as claimed, and becomes the last message of the context, after
    everything visible before the claim, in order.  A second claim of the same
    run is refused. *)
Theorem claim_makes_newest `{!ChronoLaws CH} now id run (m m' : SessionManager St) h :
  claim_pending_input now id run m = (Ok tt, m') → history m !! id = Some h →
  rfc3339_range (claim_instant now h) = true →
  ∃ l1 msg claimed l2, h = l1 ++ msg :: l2 ∧
    Forall (λ x, is_input_of (uuid_to_string (run_uuid run)) x = false) l1 ∧
    is_pending_input msg = true ∧ is_pending_input claimed = false ∧
    msg_id claimed = msg_id msg ∧ msg_role claimed = msg_role msg ∧
    msg_content claimed = msg_content msg ∧ msg_timestamp claimed = msg_timestamp msg ∧
    history m' = <[id := l1 ++ claimed :: l2]> (history m) ∧
    get_context_history id m' =
      Ok (sort_by_key logical_message_timestamp (visible h) ++ [claimed]) ∧
    ∀ now', claim_pending_input now' id run m' =
      (claim_error (uuid_to_string (run_uuid run)) " was already claimed", m').
Proof using.
  intros Hc Hh Hr. unfold claim_pending_input in Hc. rewrite Hh in Hc.
  destruct (position _ h) as [[pos msg]|] eqn:Hpos; [|done].
  apply position_Some in Hpos as (l1 & l2 & -> & -> & Hin & Hf).
  destruct (is_pending_input msg) eqn:Hp; [|done]. simpl in Hc.
  destruct (claim_message _ msg) as [claimed|] eqn:Hcl; [|done].
  pose proof (try_persist_fields (save_message id claimed) m) as Hm.
  destruct (try_persist _ m) as [[[]|e] m1]; [|done]. simpl in Hc, Hm. injection Hc as <-.
  destruct Hm as (_ & _ & Hm & _).
  destruct (claim_message_spec (uuid_to_string (run_uuid run)) _ _ _ Hr Hcl)
    as (Hin' & Hp' & _ & ? & ? & ? & ?).
  replace (<[length l1:=claimed]> (l1 ++ msg :: l2)) with (l1 ++ claimed :: l2)
    by (by rewrite insert_app_r_alt, Nat.sub_diag).
  exists l1, msg, claimed, l2. split_and!; try done; simpl.
  - by rewrite Hm.
  - unfold get_context_history, get_history. simpl. rewrite lookup_insert_eq.
    by rewrite (proj2 (context_order_claim now l1 msg l2 claimed Hp Hcl Hr)).
  - intros now'. unfold claim_pending_input. simpl. rewrite lookup_insert_eq.
    rewrite (proj2 (position_Some _ _ (length l1) claimed)); [by rewrite Hp'|].
    exists l1, l2. by rewrite Hin'.
Qed.

(** Every outcome of [claim_pending_input].  The session is missing, the
    run has no message, its first message is no longer pending, or the result
    is the store's answer to the write; metadata of the wrong shape, which the
    code guards against, cannot occur.  Whenever the claim is not accepted the
    histories are unchanged. *)
Theorem claim_outcome now id run (m : SessionManager St) :
  let run_id := uuid_to_string (run_uuid run) in
  let '(r, m') := claim_pending_input now id run m in
  match history m !! id with
  | None => r = not_found id
  | Some h =>
      match position (is_input_of run_id) h with
      | None => r = claim_error run_id " was not found"
      | Some (_, msg) =>
          if is_pending_input msg then
            ∃ claimed, claim_message (claim_instant now h) msg = Some claimed ∧
              r = match sm_store m with
                  | Some st => fst (save_message id claimed st)
                  | None => Ok tt
                  end
          else r = claim_error run_id " was already claimed"
      end
  end ∧
  (r = Ok tt ∨ history m' = history m).
Proof using.
  intros run_id. unfold claim_pending_input. fold run_id.
  destruct (history m !! id) as [h|]; [|split; auto].
  destruct (position (is_input_of run_id) h) as [[pos msg]|] eqn:E; [|split; auto].
  apply position_Some in E as (l1 & l2 & -> & -> & Hin & _).
  destruct (is_pending_input msg); simpl; [|split; auto].
  destruct (claim_message_Some run_id (claim_instant now (l1 ++ msg :: l2)) msg Hin)
    as [claimed Hcl]. rewrite Hcl. unfold try_persist.
  destruct (sm_store m) as [st|]; [|split; [by exists claimed|by left]].
  destruct (save_message id claimed st) as [[[]|e] st'] eqn:Es;
    (split; [exists claimed; by rewrite Es|auto]).
Qed.

(** One subagent per name, however it is spelled.  With the registry
    matching names without regard to ASCII case, every spelling of a name has
    the same canonical spelling and the same session key, registered or not;
    the canonical spelling is a fixed point, so folding twice is folding once,
    and the key of the canonical spelling is the key of the name. *)
Theorem named_subagent_one_key `{!RegistryLaws DB} (m : SessionManager St) parent a b :
  eq_ignore_ascii_case a b = true →
  canonical_subagent_name a m = canonical_subagent_name b m ∧
  named_subagent_key parent a m = named_subagent_key parent b m ∧
  eq_ignore_ascii_case (canonical_subagent_name a m) a = true ∧
  canonical_subagent_name (canonical_subagent_name a m) m = canonical_subagent_name a m ∧
  named_subagent_key parent (canonical_subagent_name a m) m = named_subagent_key parent a m.
Proof using.
  assert (∀ x y, to_ascii_lowercase x = to_ascii_lowercase y →
    lookup_subagent_record x m = lookup_subagent_record y m) as Hlk.
  { intros x y Hxy. unfold lookup_subagent_record. destruct (sm_store m) as [st|]; [|done]. simpl.
    by rewrite (lookup_nocase x y). }
  assert (∀ x y, to_ascii_lowercase x = to_ascii_lowercase y →
    canonical_subagent_name x m = canonical_subagent_name y m ∧
    named_subagent_key parent x m = named_subagent_key parent y m) as Hkey.
  { intros x y Hxy. unfold canonical_subagent_name, named_subagent_key.
    rewrite (Hlk x y Hxy). unfold fold_name. destruct (lookup_subagent_record y m) as [[id n]|];
      [done|]. by rewrite Hxy. }
  assert (to_ascii_lowercase (canonical_subagent_name a m) = to_ascii_lowercase a) as Hc.
  { unfold canonical_subagent_name, fold_name, lookup_subagent_record.
    destruct (sm_store m) as [st|]; simpl; [|by apply to_ascii_lowercase_idem].
    destruct (load_agent_by_name a st) as [[[id n]|]|] eqn:E;
      [|by apply to_ascii_lowercase_idem..].
    by apply lookup_name in E. }
  intros Hab%eq_ignore_ascii_case_spec. destruct (Hkey a b Hab). destruct (Hkey _ _ Hc).
  split_and!; try done. by apply eq_ignore_ascii_case_spec.
Qed.

End properties.

(** * Witnesses *)

Section witnesses.
Import SimpleUuid SimpleChrono NullStore.

Local Definition sid : SessionId := MkSessionId (MkUuid 5).
Local Definition agent : AgentId := MkAgentId (MkUuid 1).
Local Definition run : RunId := MkRunId (MkUuid 9).

Local Definition reply : Message :=
  {| msg_id := "m1"; msg_role := Assistant; msg_content := Text "hi";
     msg_timestamp := 40; msg_metadata := None |}.

Local Definition queued : Message :=
  {| msg_id := "m0"; msg_role := User; msg_content := Text "next";
     msg_timestamp := 10;
     msg_metadata := Some (JObj [("run_id", JStr (uuid_to_string (run_uuid run)));
                                 ("pending_input", JBool true)]) |}.

Local Definition m0 : SessionManager unit := session_manager_new session_config_default.
Local Definition m1 : SessionManager unit := exec (OpGetOrCreate 1 sid agent "web") m0.
Local Definition m2 : SessionManager unit := exec (OpAppend 2 sid queued) m1.
Local Definition m3 : SessionManager unit := exec (OpAppend 3 sid reply) m2.
Local Definition m4 : SessionManager unit := exec (OpClaim 30 sid run) m3.

Local Lemma m3_reachable : session_reachable m0 m3.
Proof.
  unfold m3, m2, m1. do 3 (apply sr_step; [|vm_compute; reflexivity]). apply sr_refl.
Defined.

Lemma session_creation_stable_witness :
  get_or_create 8 (MkSessionId (MkUuid 6)) agent "web" m3
    = (touch 3 (session_new 1 sid agent "web"), m3) ∧
  is_ok (fst (get_or_create_with_id 8 (MkSessionId (MkUuid 6)) agent "web" m3)) = false.
Proof.
  destruct (session_creation_stable m0 m3 8 (MkSessionId (MkUuid 6)) agent "web" (start_new _)
    m3_reachable ltac:(vm_compute; reflexivity)) as [H _].
  destruct (get_or_create 8 (MkSessionId (MkUuid 6)) agent "web" m3) as [s m] eqn:E.
  destruct (H s m eq_refl) as (_ & _ & _ & H').
  destruct (H' (touch 3 (session_new 1 sid agent "web")) ltac:(vm_compute; reflexivity))
    as [-> ->]. split; [reflexivity|]. vm_compute. reflexivity.
Defined.

Lemma context_history_exact_witness :
  get_context_history sid m3 = Ok [reply].
Proof.
  destruct (context_history_exact sid m3 [queued; reply] ltac:(vm_compute; reflexivity))
    as (ctx & -> & _ & _ & H). f_equal. rewrite H; [vm_compute; reflexivity|].
  intros x Hx. apply list_elem_of_In in Hx. destruct Hx as [<-|[<-|[]]]; vm_compute; done.
Defined.

Lemma claim_makes_newest_witness :
  ∃ claimed, msg_content claimed = Text "next" ∧
    get_context_history sid m4 = Ok [reply; claimed].
Proof.
  destruct (claim_makes_newest (U:=simple_uuid) (CH:=simple_chrono) (DB:=null_store) 30 sid run m3 m4 [queued; reply]
    ltac:(vm_compute; reflexivity) ltac:(vm_compute; reflexivity) ltac:(vm_compute; reflexivity))
    as (l1 & msg & claimed & l2 & Hh & _ & Hp & _ & _ & _ & Hc & _ & _ & Hctx & _).
  exists claimed. split; [|exact Hctx]. rewrite Hc.
  destruct l1 as [|x [|y l1]].
  - clear Hctx. injection Hh as <- _. reflexivity.
  - clear Hctx. injection Hh as <- <- _. vm_compute in Hp. discriminate Hp.
  - clear Hctx. injection Hh as _ _ Hl. destruct l1; discriminate Hl.
Defined.

Lemma named_subagent_one_key_witness :
  canonical_subagent_name "ATLAS" (set_store tt m0) = "Atlas" ∧
  named_subagent_key agent "ATLAS" (set_store tt m0)
    = named_subagent_key agent "atlas" (set_store tt m0).
Proof.
  destruct (named_subagent_one_key (set_store tt m0) agent "ATLAS" "atlas"
    ltac:(vm_compute; reflexivity)) as (_ & H & _).
  split; [vm_compute; reflexivity | exact H].
Defined.

End witnesses.
