(* ===== verification/SessionSteps.v ===== *)
(** The session manager under concurrent callers: [alms-session/src/lib.rs].

    [SessionManager] has no lock of its own.  Each of its five maps locks one
    entry at a time, so an operation that touches several maps is several
    steps, and other operations run between them.  A creation holds the entry
    of its (agent, context) in [sessions] from its check to its insertion;
    [delete] holds nothing between its removals; [append_message],
    [append_persisted_message] and [update_summary] let go of one entry before
    they take the next.  Here every operation of [Session.v] is a task cut at
    those points; [begin_alone] proves that a task nothing interleaves with is
    the operation of [Session.v]. *)
From stdpp Require Import base gmap list.
From S2P Require Import Prelude Ident Run Json Session.

(** * Tasks *)

(** An operation between two of its steps.  [Creating] counts the steps of
    [create_steps] it has done, [Deleting] those of [delete_steps]. *)
Inductive ManagerTask :=
| Creating (persisted : bool) (s : Session) (pc : nat)
| Deleting (id : SessionId) (pc : nat)
| Summarising (id : SessionId) (summary : ContextSummary) (saved : bool)
| Pushed (id : SessionId) (now : Z)
| Touching (key : SessionKey) (now : Z)
| Pushing (id : SessionId) (key : SessionKey) (msg : Message) (touched_at : Z)
| Raising (key : SessionKey) (touched_at : Z)
| Finished.

Definition session_key (s : Session) : SessionKey := (sess_agent_id s, sess_context_id s).

Section tasks.
Context `{U : UuidCrate} `{CH : ChronoCrate} {St : Type} `{DB : SqliteStore St}.
Local Notation SM := (SessionManager St).

(** The body of the [or_insert_with] of a creation.  [get_or_create_with_id]
    has written the row before it starts ([persisted]). *)
Definition create_steps (persisted : bool) (s : Session) : list (SM → SM) :=
  let id := sess_id s in
  let key := session_key s in
  [ set_session_by_id <[id := key]>;
    set_history <[id := []]>;
    set_audit <[id := []]>;
    set_summaries (λ summaries,
      match summaries !! id with
      | Some _ => summaries
      | None => <[id := summary_default]> summaries
      end);
    (if persisted then λ m, m else persist (save_session s));
    set_sessions <[key := s]> ].

(** The first step of an operation. *)
Definition begin (op : SessionOp) (m : SM) : ManagerTask * SM :=
  match op with
  | OpGetOrCreate now fresh a ctx =>
      match sessions m !! (a, ctx) with
      | Some _ => (Finished, m)
      | None => (Creating false (session_new now fresh a ctx) 0, m)
      end
  | OpWithId now id a ctx =>
      match sessions m !! (a, ctx) with
      | Some _ => (Finished, m)
      | None =>
          if match session_by_id m !! id with
             | Some existing_key => bool_decide (existing_key ≠ (a, ctx))
             | None => false
             end
          then (Finished, m)
          else
            let s := session_new now id a ctx in
            match try_persist (save_session s) m with
            | (Err _, m1) => (Finished, m1)
            | (Ok _, m1) => (Creating true s 0, m1)
            end
      end
  | OpShared now id ctx =>
      match sessions m !! (sentinel, ctx) with
      | Some _ => (Finished, m)
      | None => (Creating false (session_new now id sentinel ctx) 0, m)
      end
  | OpAppend now id msg =>
      match history m !! id with
      | Some h => (Pushed id now, set_history <[id := h ++ [msg]]> (persist (save_message id msg) m))
      | None => (Finished, m)
      end
  | OpAppendPersisted id msg touched_at =>
      match session_by_id m !! id with
      | Some key => (Pushing id key msg touched_at, m)
      | None => (Finished, m)
      end
  | OpClaim now id run => (Finished, snd (claim_pending_input now id run m))
  | OpAudit id event => (Finished, snd (append_audit id event m))
  | OpDelete a ctx =>
      match sessions m !! (a, ctx) with
      | Some s => (Deleting (sess_id s) 0, set_sessions (base.delete (a, ctx)) m)
      | None => (Finished, m)
      end
  | OpSummary id summary =>
      match summaries m !! id with
      | Some _ => (Summarising id summary false, m)
      | None => (Finished, m)
      end
  end.

(** A task's next step. *)
Definition advance (t : ManagerTask) (m : SM) : ManagerTask * SM :=
  match t with
  | Creating persisted s pc =>
      match create_steps persisted s !! pc with
      | Some step =>
          (if bool_decide (S pc < length (create_steps persisted s))
           then Creating persisted s (S pc) else Finished, step m)
      | None => (Finished, m)
      end
  | Deleting id pc =>
      match delete_steps id !! pc with
      | Some step =>
          (if bool_decide (S pc < length (delete_steps id)) then Deleting id (S pc) else Finished,
           step m)
      | None => (Finished, m)
      end
  | Summarising id summary false => (Summarising id summary true, persist (save_summary id summary) m)
  | Summarising id summary true => (Finished, set_summaries <[id := summary]> m)
  | Pushed id now =>
      match session_by_id m !! id with
      | Some key => (Touching key now, m)
      | None => (Finished, m)
      end
  | Touching key now =>
      match sessions m !! key with
      | Some s =>
          (Finished, persist (save_session (touch now s)) (set_sessions <[key := touch now s]> m))
      | None => (Finished, m)
      end
  | Pushing id key msg touched_at =>
      match history m !! id with
      | Some h => (Raising key touched_at, set_history <[id := h ++ [msg]]> m)
      | None => (Finished, m)
      end
  | Raising key touched_at =>
      match sessions m !! key with
      | Some s =>
          (Finished, if (sess_last_activity s <? touched_at)%Z
                     then set_sessions <[key := touch touched_at s]> m else m)
      | None => (Finished, m)
      end
  | Finished => (Finished, m)
  end.

Fixpoint run_alone (fuel : nat) (w : ManagerTask * SM) : ManagerTask * SM :=
  match fuel with
  | O => w
  | S fuel => run_alone fuel (advance w.1 w.2)
  end.

(** A task that runs without interruption is the operation of [Session.v]. *)
Lemma begin_alone op m : run_alone 6 (begin op m) = (Finished, exec op m).
Proof using.
  destruct op; cbn [begin exec].
  - unfold get_or_create. by destruct (sessions m !! (a, ctx)).
  - unfold get_or_create_with_id. destruct (sessions m !! (a, ctx)); [by case_decide|].
    destruct (match session_by_id m !! id with Some _ => _ | None => _ end); [done|].
    by destruct (try_persist _ m) as [[[]|e] m1].
  - unfold get_or_create_shared. by destruct (sessions m !! (sentinel, ctx)).
  - unfold append_message. destruct (history m !! id) as [h|]; [|done].
    cbn [run_alone advance fst snd]. destruct (session_by_id _ !! id) as [key|]; [|done].
    cbn [run_alone advance fst snd]. by destruct (sessions _ !! key).
  - unfold append_persisted_message. destruct (session_by_id m !! id) as [key|]; [|done].
    cbn [run_alone advance fst snd]. destruct (history m !! id) as [h|]; [|done].
    cbn [run_alone advance fst snd]. destruct (sessions _ !! key); [|done]. simpl. by destruct (_ <? _)%Z.
  - done.
  - done.
  - unfold session_delete. by destruct (sessions m !! (a, ctx)).
  - unfold update_summary. by destruct (summaries m !! id).
Qed.

(** * Interleavings *)











(** * The invariant *)

(** The maps as their agreement sees them: which id and key are filed where,
    and which ids have an entry. *)
Record same_shape (m m' : SM) : Prop := {
  sh_sessions k s' : sessions m' !! k = Some s' →
    ∃ s, sessions m !! k = Some s ∧ sess_id s' = sess_id s ∧ session_key s' = session_key s;
  sh_kept k s : sessions m !! k = Some s → ∃ s', sessions m' !! k = Some s' ∧ sess_id s' = sess_id s;
  sh_by_id : session_by_id m' = session_by_id m;
  sh_history i : is_Some (history m' !! i) ↔ is_Some (history m !! i);
  sh_audit i : is_Some (audit m' !! i) ↔ is_Some (audit m !! i);
  sh_summaries i : is_Some (summaries m' !! i) ↔ is_Some (summaries m !! i);
}.







(** ** Replacing one task *)









(** ** Steps that keep the shape *)

#[export] Instance same_shape_preorder : PreOrder same_shape.
Proof using.
  split; [by intros m; split; eauto|].
  intros m1 m2 m3 [A1 A2 A3 A4 A5 A6] [B1 B2 B3 B4 B5 B6]. split.
  - intros k s3 (s2 & (s1 & ? & ? & ?)%A1 & ? & ?)%B1. exists s1. split_and!; congruence.
  - intros k s1 (s2 & (s3 & ? & ?)%B2 & ?)%A2. exists s3. split; congruence.
  - congruence.
  - intros i. by rewrite B4.
  - intros i. by rewrite B5.
  - intros i. by rewrite B6.
Qed.







(** ** Creation *)



(** ** Deletion *)





(** ** Every step *)








(** * Properties *)


End tasks.

(** * Witnesses *)

Section races.
Import SimpleUuid SimpleChrono NullStore.

Local Definition dm : SessionId := MkSessionId (MkUuid 6).
Local Definition dm_context : string := "dm:alice:bob".

Local Definition empty : SessionManager unit := session_manager_new session_config_default.
Local Definition with_dm : SessionManager unit := exec (OpShared 1 dm dm_context) empty.

(** A direct message session is deleted; between the first removal and the
    second, a message re-creates it.  Afterwards its context is still filed,
    but its id resolves to nothing, it has no history, and asking for the
    session again does not repair it. *)
Lemma deletion_race :
  let '(t, m1) := begin (OpDelete sentinel dm_context) with_dm in
  let m2 := exec (OpShared 2 dm dm_context) m1 in
  let '(t', m3) := run_alone 5 (t, m2) in
  t' = Finished ∧
  sessions m3 !! (sentinel, dm_context) = Some (session_new 2 dm sentinel dm_context) ∧
  is_ok (session_get dm m3) = false ∧ is_ok (get_history dm m3) = false ∧
  get_or_create_shared 3 dm dm_context m3 = (session_new 2 dm sentinel dm_context, m3).
Proof. vm_compute. by split_and!. Qed.

(** A summary update that found the session before it was deleted puts the
    summary back afterwards. *)
Lemma summary_race :
  let '(t, m1) := begin (OpSummary dm summary_default) with_dm in
  let m2 := exec (OpDelete sentinel dm_context) m1 in
  let '(t', m3) := run_alone 2 (t, m2) in
  t' = Finished ∧ is_ok (session_get dm m3) = false ∧ is_ok (get_summary dm m3) = true.
Proof. vm_compute. by split_and!. Qed.


End races.
