(* ===== verification/MessageBus.v ===== *)
(** The agent-to-agent message bus: [alms-coordinator/src/message_bus] and the
    types of [alms-tools/src/message_sender.rs].

    A DM pair is its context id.  Every operation on a pair runs under that
    pair's lock, so the unit of interleaving is one locked section: delivering
    a message ([send_locked]), ending a conversation
    ([end_conversation_locked]), and one iteration of either sweep loop
    ([sweep_pair], [sweep_tombstone]); the lock table itself is not part of the
    state.  The session store is the interface [DmStore], which [Session.v]
    implements; the trigger and event channels are bounded queues. *)
From stdpp Require Import relations.
From S2P Require Import Prelude Ident Json Session.

(** * Data *)

Definition MAX_DM_DEPTH : Z := 20.
Definition DEPTH_EXPIRY_SECS : Z := 1800.
Definition RUN_TRIGGER_CHANNEL_CAPACITY : nat := 1024.
Definition DM_EVENT_CHANNEL_CAPACITY : nat := 1024.

(** An [Instant] in nanoseconds; a stamp is the deadline it expires at. *)
Definition ActivityStamp : Type := Z.
Definition stamp_now (now : Z) : ActivityStamp := (now + DEPTH_EXPIRY_SECS * 1000000000)%Z.
Definition is_expired (now : Z) (s : ActivityStamp) : bool := (s <=? now)%Z.

Inductive ConversationEndReason :=
| Ignored
| DepthExceeded
| UserCancelled
| Errored (message : string) (interrupted : bool).

Definition is_interrupted (r : ConversationEndReason) : bool :=
  match r with
  | Ignored | DepthExceeded => false
  | UserCancelled => true
  | Errored _ interrupted => interrupted
  end.

Definition detail (r : ConversationEndReason) : option string :=
  match r with
  | Errored message _ => Some message
  | Ignored | DepthExceeded | UserCancelled => None
  end.

Definition reason_to_string (r : ConversationEndReason) : string :=
  match r with
  | Ignored => "ignored"
  | DepthExceeded => "depth_exceeded"
  | UserCancelled => "user_cancelled"
  | Errored _ _ => "errored"
  end.

Inductive SendError :=
| RecipientNotFound (name : string)
| SendDepthExceeded
| SelfMessage
| Internal (msg : string).

Record DeliveryReceipt := { receipt_session_id : SessionId }.

Inductive MessageSource :=
| FromAgent (from_agent : AgentId) (from_name : string)
| SubagentCompletion
| ConversationEnded (from_agent : AgentId) (from_name : string)
    (reason : ConversationEndReason) (self_notification : bool)
    (source_session_id : option SessionId).

Record RunTrigger := {
  tr_agent_id : AgentId;
  tr_session_id : SessionId;
  tr_input : string;
  tr_source : MessageSource;
  tr_context_id : string;
}.

Record DmEvent := {
  de_session_id : SessionId;
  de_from_agent : string;
  de_from_agent_id : AgentId;
  de_message : string;
  de_ts : Z;
}.

(** * The session store, as the bus uses it *)

Class DmStore (S : Type) := {
  ds_get : SessionId → S → Result Session AlmsError;
  ds_get_or_create_shared : Z → SessionId → string → S → Session * S;
  ds_append_message : Z → SessionId → Message → S → Result unit AlmsError * S;
  ds_history : SessionId → S → option (list Message);
}.

(** What the store promises about a shared session whose id belongs to its
    context. *)
Class DmStoreLaws {S} (D : DmStore S) := {
  ds_ready : SessionId → string → S → Prop;
  ds_shared_spec now id ctx st s st' :
    ds_ready id ctx st → ds_get_or_create_shared now id ctx st = (s, st') →
    sess_id s = id ∧ ds_history id st' = Some (default [] (ds_history id st)) ∧
    (∀ j, j ≠ id → ds_history j st' = ds_history j st) ∧ is_ok (ds_get id st') = true;
  ds_append_spec now id msg st :
    let '(r, st') := ds_append_message now id msg st in
    match ds_history id st with
    | Some h => r = Ok tt ∧ ds_history id st' = Some (h ++ [msg]) ∧
                (∀ j, j ≠ id → ds_history j st' = ds_history j st)
    | None => is_ok r = false ∧ st' = st
    end;
}.

(** * The bus *)

Record MessageBus (S : Type) := mkBus {
  session_manager : S;
  run_trigger_queue : list RunTrigger;
  run_trigger_closed : bool;
  dm_event_queue : option (list DmEvent);
  depths : gmap string (string * Z);
  last_activity : gmap string ActivityStamp;
  source_sessions : gmap (string * string) SessionId;
  expired_pairs : gmap string ActivityStamp;
}.
Arguments mkBus {S}.
Arguments session_manager {S}.
Arguments run_trigger_queue {S}.
Arguments run_trigger_closed {S}.
Arguments dm_event_queue {S}.
Arguments depths {S}.
Arguments last_activity {S}.
Arguments source_sessions {S}.
Arguments expired_pairs {S}.

(** The readings an operation takes from outside: the monotonic clock when the
    pair is first stamped and after the message is stored, the wall clock, and
    a random id. *)
Record Env := {
  env_instant : Z;
  env_instant_done : Z;
  env_utc : Z;
  env_uuid : Uuid;
}.

Section bus.
Context `{U : UuidCrate} {S : Type} `{D : DmStore S}.

Notation Bus := (MessageBus S).

Definition bus_new (st : S) : Bus := mkBus st [] false None ∅ ∅ ∅ ∅.

Definition with_dm_event_channel (b : Bus) : Bus :=
  mkBus (session_manager b) (run_trigger_queue b) (run_trigger_closed b) (Some [])
    (depths b) (last_activity b) (source_sessions b) (expired_pairs b).

Definition set_session_manager (st : S) (b : Bus) : Bus :=
  mkBus st (run_trigger_queue b) (run_trigger_closed b) (dm_event_queue b)
    (depths b) (last_activity b) (source_sessions b) (expired_pairs b).
Definition set_queue (q : list RunTrigger) (b : Bus) : Bus :=
  mkBus (session_manager b) q (run_trigger_closed b) (dm_event_queue b)
    (depths b) (last_activity b) (source_sessions b) (expired_pairs b).
Definition set_events (q : option (list DmEvent)) (b : Bus) : Bus :=
  mkBus (session_manager b) (run_trigger_queue b) (run_trigger_closed b) q
    (depths b) (last_activity b) (source_sessions b) (expired_pairs b).
Definition set_pairs (d : gmap string (string * Z)) (a : gmap string ActivityStamp)
    (src : gmap (string * string) SessionId) (e : gmap string ActivityStamp) (b : Bus) : Bus :=
  mkBus (session_manager b) (run_trigger_queue b) (run_trigger_closed b) (dm_event_queue b)
    d a src e.

(** [remove_source_sessions_for_dm], on the map. *)
Definition remove_source_sessions_for_dm (ctx : string)
    (m : gmap (string * string) SessionId) : gmap (string * string) SessionId :=
  filter (λ e, e.1.1 ≠ ctx) m.

(** ** Sweeps *)

Definition sweep_pair (now : Z) (ctx : string) (b : Bus) : Bus :=
  match last_activity b !! ctx with
  | Some last =>
      if is_expired now last then
        set_pairs (delete ctx (depths b)) (delete ctx (last_activity b))
          (remove_source_sessions_for_dm ctx (source_sessions b))
          (match depths b !! ctx with
           | Some _ => <[ctx := stamp_now now]> (expired_pairs b)
           | None => expired_pairs b
           end) b
      else b
  | None => b
  end.

Definition sweep_tombstone (now : Z) (ctx : string) (b : Bus) : Bus :=
  match expired_pairs b !! ctx with
  | Some swept =>
      if is_expired now swept then
        set_pairs (depths b) (last_activity b) (source_sessions b)
          (delete ctx (expired_pairs b)) b
      else b
  | None => b
  end.

Definition expired_keys (now : Z) (m : gmap string ActivityStamp) : list string :=
  fst <$> filter (λ e, is_expired now e.2 = true) (map_to_list m).

Definition sweep_expired_pairs (now : Z) (b : Bus) : Bus :=
  let b1 := fold_left (λ b ctx, sweep_pair now ctx b) (expired_keys now (last_activity b)) b in
  fold_left (λ b ctx, sweep_tombstone now ctx b) (expired_keys now (expired_pairs b1)) b1.

(** ** Channels *)

(** [try_reserve_owned], with [held] permits already taken by the caller. *)
Definition try_reserve (held : nat) (b : Bus) : Result unit SendError :=
  if run_trigger_closed b then
    Err (Internal "run trigger queue unavailable: channel closed")
  else if Nat.ltb (length (run_trigger_queue b) + held) RUN_TRIGGER_CHANNEL_CAPACITY
  then Ok tt
  else Err (Internal "run trigger queue unavailable: no available capacity").

Definition permit_send (t : RunTrigger) (b : Bus) : Bus :=
  set_queue (run_trigger_queue b ++ [t]) b.

(** [try_send] of an event: dropped when the queue is full. *)
Definition try_send_event (e : DmEvent) (b : Bus) : Bus :=
  match dm_event_queue b with
  | Some q => if Nat.ltb (length q) DM_EVENT_CHANNEL_CAPACITY
              then set_events (Some (q ++ [e])) b else b
  | None => b
  end.

(** ** Depth *)

(** The depth entry after a message of [sender], the depth and whether the
    message is one bounce too many. *)
Definition bump_depth (entry : string * Z) (sender : string) : (string * Z) * (Z * bool) :=
  let '(last_sender, depth) := entry in
  if negb (String.eqb last_sender sender) then
    let next := (depth + 1)%Z in
    if (MAX_DM_DEPTH <? next)%Z then ((last_sender, depth), (depth, true))
    else ((sender, next), (next, false))
  else if (depth =? 0)%Z then ((sender, 1%Z), (1%Z, false))
  else ((last_sender, depth), (depth, false)).

(** ** Ending a conversation *)

Definition notifications_ctx (name : string) : string := "notifications:" +:+ name.

(** Where a notification goes: the recorded source session, or the agent's
    notification session. *)
Definition notification_target (b : Bus) (name : string) (source : option SessionId)
    : SessionId * string :=
  match source with
  | Some sid =>
      (sid, match ds_get sid (session_manager b) with
            | Ok s => sess_context_id s
            | Err _ => notifications_ctx name
            end)
  | None => (deterministic (notifications_ctx name), notifications_ctx name)
  end.

Definition end_input (sender_name : string) : string :=
  "[DM conversation ended] Agent " +:+ sender_name +:+ " ended the conversation.".

Definition end_marker (env : Env) (sender_name : string) (reason : ConversationEndReason)
    : Message :=
  {| msg_id := uuid_to_string (env_uuid env); msg_role := User; msg_content := Text "";
     msg_timestamp := env_utc env;
     msg_metadata := Some (JObj [("message_type", JStr "dm_ended");
                                 ("ended_by", JStr sender_name);
                                 ("reason", JStr (reason_to_string reason))]) |}.

Definition peer_end_trigger (b : Bus) (sender_name : string) (sender_id : AgentId)
    (peer_name : string) (peer_id : AgentId) (reason : ConversationEndReason) : RunTrigger :=
  let source := source_sessions b !! (dm_context_id sender_name peer_name, peer_name) in
  let target := notification_target b peer_name source in
  {| tr_agent_id := peer_id; tr_session_id := fst target; tr_input := end_input sender_name;
     tr_source := ConversationEnded sender_id sender_name reason false source;
     tr_context_id := snd target |}.

Definition self_end_trigger (b : Bus) (sender_name : string) (sender_id : AgentId)
    (peer_name : string) (peer_id : AgentId) (reason : ConversationEndReason) : RunTrigger :=
  let source := source_sessions b !! (dm_context_id sender_name peer_name, sender_name) in
  let target := notification_target b sender_name source in
  {| tr_agent_id := sender_id; tr_session_id := fst target; tr_input := end_input sender_name;
     tr_source := ConversationEnded peer_id peer_name reason true source;
     tr_context_id := snd target |}.

Definition needs_self_notification (b : Bus) (sender_name peer_name : string) : bool :=
  let ctx := dm_context_id sender_name peer_name in
  bool_decide (is_Some (source_sessions b !! (ctx, sender_name))) ||
  bool_decide (is_Some (source_sessions b !! (ctx, peer_name))).

(** The permits an end reserves before it changes anything. *)
Definition reserve_end (b : Bus) (needs_self : bool) : Result unit SendError :=
  match try_reserve 0 b with
  | Err e => Err e
  | Ok _ => if needs_self then try_reserve 1 b else Ok tt
  end.

Definition end_conversation_locked (env : Env) (sender_name : string) (sender_id : AgentId)
    (peer_name : string) (peer_id : AgentId) (reason : ConversationEndReason) (b : Bus)
    : Result unit SendError * Bus :=
  if decide (sender_id = peer_id) then (Err SelfMessage, b) else
  let ctx := dm_context_id sender_name peer_name in
  let session_id := deterministic_dm sender_name peer_name in
  if negb (bool_decide (is_Some (depths b !! ctx)))
     && negb (bool_decide (is_Some (expired_pairs b !! ctx)))
  then (Ok tt, b) else
  let needs_self := needs_self_notification b sender_name peer_name in
  match reserve_end b needs_self with
  | Err e => (Err e, b)
  | Ok _ =>
      match ds_get session_id (session_manager b) with
      | Err _ =>
          (Ok tt, set_pairs (delete ctx (depths b)) (delete ctx (last_activity b))
                    (source_sessions b) (delete ctx (expired_pairs b)) b)
      | Ok _ =>
          match ds_append_message (env_utc env) session_id (end_marker env sender_name reason)
                  (session_manager b) with
          | (Err e, st) => (Err (Internal (alms_error_to_string e)), set_session_manager st b)
          | (Ok _, st) =>
              let b1 := set_session_manager st b in
              let peer_trigger :=
                peer_end_trigger b1 sender_name sender_id peer_name peer_id reason in
              let self_trigger :=
                self_end_trigger b1 sender_name sender_id peer_name peer_id reason in
              let b2 :=
                set_pairs (delete ctx (depths b1)) (delete ctx (last_activity b1))
                  (remove_source_sessions_for_dm ctx (source_sessions b1))
                  (delete ctx (expired_pairs b1)) b1 in
              let b3 := permit_send peer_trigger b2 in
              (Ok tt, if needs_self then permit_send self_trigger b3 else b3)
          end
      end
  end.

Definition end_conversation (env : Env) (sender_name : string) (sender_id : AgentId)
    (peer_name : string) (peer_id : AgentId) (reason : ConversationEndReason) (b : Bus)
    : Result unit SendError * Bus :=
  if decide (sender_id = peer_id) then (Err SelfMessage, b)
  else end_conversation_locked env sender_name sender_id peer_name peer_id reason b.

(** ** Sending *)

(** Whether a session can be the place a DM was started from. *)
Definition is_valid_source (b : Bus) (ctx : string) (sid : SessionId) : bool :=
  match ds_get sid (session_manager b) with
  | Ok s =>
      let session_type := classify_session_type (sess_context_id s) in
      negb (existsb (String.eqb session_type) ["notification"; "subagent"; "episodic"])
      && negb (String.eqb (sess_context_id s) ctx)
  | Err _ => false
  end.

(** The first recorded source of an agent for a pair is kept. *)
Definition track_source (ctx sender_name : string) (source : option SessionId) (b : Bus)
    : gmap (string * string) SessionId :=
  match source with
  | Some sid =>
      if is_valid_source b ctx sid then
        match source_sessions b !! (ctx, sender_name) with
        | Some _ => source_sessions b
        | None => <[(ctx, sender_name) := sid]> (source_sessions b)
        end
      else source_sessions b
  | None => source_sessions b
  end.

Definition dm_message (env : Env) (sender_name : string) (sender_id : AgentId) (message : string)
    : Message :=
  {| msg_id := uuid_to_string (env_uuid env); msg_role := User; msg_content := Text message;
     msg_timestamp := env_utc env;
     msg_metadata := Some (JObj [("from_agent", JStr sender_name);
                                 ("from_agent_id", JStr (uuid_to_string (agent_uuid sender_id)));
                                 ("message_type", JStr "dm")]) |}.

Definition dm_trigger (sender_name : string) (sender_id : AgentId) (recipient_name : string)
    (recipient_id : AgentId) (message : string) : RunTrigger :=
  {| tr_agent_id := recipient_id; tr_session_id := deterministic_dm sender_name recipient_name;
     tr_input := message; tr_source := FromAgent sender_id sender_name;
     tr_context_id := dm_context_id sender_name recipient_name |}.

(** The part of [send] after the depth check: bookkeeping, then delivery. *)
Definition deliver (env : Env) (sender_name : string) (sender_id : AgentId)
    (recipient_name : string) (recipient_id : AgentId) (message : string)
    (source : option SessionId) (entry : string * Z) (b : Bus)
    : Result DeliveryReceipt SendError * Bus :=
  let ctx := dm_context_id sender_name recipient_name in
  let session_id := deterministic_dm sender_name recipient_name in
  let b1 := set_pairs (<[ctx := entry]> (depths b))
              (<[ctx := stamp_now (env_instant env)]> (last_activity b))
              (track_source ctx sender_name source b) (delete ctx (expired_pairs b)) b in
  let '(session, st1) :=
    ds_get_or_create_shared (env_utc env) session_id ctx (session_manager b1) in
  match ds_append_message (env_utc env) (sess_id session)
          (dm_message env sender_name sender_id message) st1 with
  | (Err e, st2) => (Err (Internal (alms_error_to_string e)), set_session_manager st2 b1)
  | (Ok _, st2) =>
      let b2 := try_send_event
                  {| de_session_id := session_id; de_from_agent := sender_name;
                     de_from_agent_id := sender_id; de_message := message;
                     de_ts := env_utc env |} (set_session_manager st2 b1) in
      let b3 := set_pairs (depths b2)
                  (<[ctx := stamp_now (env_instant_done env)]> (last_activity b2))
                  (source_sessions b2) (expired_pairs b2) b2 in
      (Ok {| receipt_session_id := session_id |},
       permit_send (dm_trigger sender_name sender_id recipient_name recipient_id message) b3)
  end.

Definition send_locked (env : Env) (sender_name : string) (sender_id : AgentId)
    (recipient_name : string) (recipient_id : AgentId) (message : string)
    (source : option SessionId) (b : Bus) : Result DeliveryReceipt SendError * Bus :=
  let ctx := dm_context_id sender_name recipient_name in
  match try_reserve 0 b with
  | Err e => (Err e, b)
  | Ok _ =>
      let '(entry, (_, exceeded)) := bump_depth (default ("", 0%Z) (depths b !! ctx)) sender_name in
      if exceeded : bool then
        match end_conversation_locked env sender_name sender_id recipient_name recipient_id
                DepthExceeded b with
        | (Err e, b') => (Err e, b')
        | (Ok _, b') => (Err SendDepthExceeded, b')
        end
      else deliver env sender_name sender_id recipient_name recipient_id message source entry b
  end.

Definition send (env : Env) (sender_name : string) (sender_id : AgentId)
    (recipient_name : string) (recipient_id : AgentId) (message : string)
    (source : option SessionId) (b : Bus) : Result DeliveryReceipt SendError * Bus :=
  if decide (sender_id = recipient_id) then (Err SelfMessage, b)
  else send_locked env sender_name sender_id recipient_name recipient_id message source
         (sweep_expired_pairs (env_instant env) b).

(** * Interleavings *)

(** The receiving end of the trigger queue was dropped. *)
Definition close_triggers (b : Bus) : Bus :=
  mkBus (session_manager b) (run_trigger_queue b) true (dm_event_queue b)
    (depths b) (last_activity b) (source_sessions b) (expired_pairs b).

(** One locked section, the gateway installing the event channel, taking from
    a channel or dropping its end of one (an event for a dropped receiver goes
    where one without a channel goes), or another component changing the
    session store. *)
Inductive bus_step : Bus → Bus → Prop :=
| step_send env sn si rn ri msg src b :
    si ≠ ri → bus_step b (snd (send_locked env sn si rn ri msg src b))
| step_end env sn si pn pi reason b :
    bus_step b (snd (end_conversation env sn si pn pi reason b))
| step_sweep_pair now ctx b : bus_step b (sweep_pair now ctx b)
| step_sweep_tombstone now ctx b : bus_step b (sweep_tombstone now ctx b)
| step_consume t q b : run_trigger_queue b = t :: q → bus_step b (set_queue q b)
| step_consume_event e q b :
    dm_event_queue b = Some (e :: q) → bus_step b (set_events (Some q) b)
| step_store st b : bus_step b (set_session_manager st b)
| step_event_channel b : bus_step b (with_dm_event_channel b)
| step_event_closed b : bus_step b (set_events None b)
| step_trigger_closed b : bus_step b (close_triggers b).

Definition bus_reachable (b0 b : Bus) : Prop := rtc bus_step b0 b.

(** * Invariant *)

Record bus_ok (b : Bus) : Prop := {
  bo_depth ctx s d : depths b !! ctx = Some (s, d) → (1 ≤ d ≤ MAX_DM_DEPTH)%Z;
  bo_activity ctx : is_Some (depths b !! ctx) ↔ is_Some (last_activity b !! ctx);
  bo_tombstone ctx : is_Some (expired_pairs b !! ctx) → depths b !! ctx = None;
  bo_queue : length (run_trigger_queue b) ≤ RUN_TRIGGER_CHANNEL_CAPACITY;
  bo_events q : dm_event_queue b = Some q → length q ≤ DM_EVENT_CHANNEL_CAPACITY;
}.

(** ** Preservation *)

Lemma bump_depth_spec entry sender entry' d (exceeded : bool) :
  bump_depth entry sender = (entry', (d, exceeded)) → (0 ≤ entry.2 ≤ MAX_DM_DEPTH)%Z →
  if exceeded then entry' = entry ∧ entry.2 = MAX_DM_DEPTH ∧ entry.1 ≠ sender
  else (1 ≤ entry'.2 ≤ MAX_DM_DEPTH)%Z ∧ entry'.1 = sender ∧
       (entry.1 ≠ sender → entry'.2 = entry.2 + 1)%Z.
Proof using.
  destruct entry as [ls n]. unfold bump_depth, MAX_DM_DEPTH. simpl. intros H Hn.
  destruct (String.eqb_spec ls sender) as [->|Hne]; simpl in H.
  - destruct (Z.eqb_spec n 0); simplify_eq; simpl; split_and!; try done; lia.
  - destruct (Z.ltb_spec 20 (n + 1)); simplify_eq; simpl; split_and!; try done; lia.
Qed.

Lemma bus_ok_pairs d a src e (b : Bus) :
  bus_ok b →
  (∀ ctx s n, d !! ctx = Some (s, n) → (1 ≤ n ≤ MAX_DM_DEPTH)%Z) →
  (∀ ctx, is_Some (d !! ctx) ↔ is_Some (a !! ctx)) →
  (∀ ctx, is_Some (e !! ctx) → d !! ctx = None) →
  bus_ok (set_pairs d a src e b).
Proof using. intros [] H1 H2 H3. by split. Qed.

Lemma delete_iff {A B} (f : gmap string A) (g : gmap string B) i :
  (∀ j, is_Some (f !! j) ↔ is_Some (g !! j)) →
  ∀ j, is_Some (delete i f !! j) ↔ is_Some (delete i g !! j).
Proof using. intros H j. rewrite !lookup_delete_is_Some, H. done. Qed.

Lemma bus_ok_drop_pair ctx src e (b : Bus) :
  bus_ok b → (∀ c, c ≠ ctx → is_Some (e !! c) → is_Some (expired_pairs b !! c)) →
  bus_ok (set_pairs (delete ctx (depths b)) (delete ctx (last_activity b)) src e b).
Proof using.
  intros Hok He. apply bus_ok_pairs; [done|..].
  - intros c s n [_ H]%lookup_delete_Some. by eapply bo_depth.
  - apply delete_iff, Hok.
  - intros c Hc. destruct (decide (c = ctx)) as [->|Hne]; [by rewrite lookup_delete_eq|].
    rewrite lookup_delete_ne by done. apply bo_tombstone; auto.
Qed.

Lemma bus_ok_sweep_pair now ctx (b : Bus) : bus_ok b → bus_ok (sweep_pair now ctx b).
Proof using.
  intros Hok. unfold sweep_pair. destruct (last_activity b !! ctx) as [last|]; [|done].
  destruct (is_expired now last); [|done]. apply bus_ok_drop_pair; [done|].
  intros c Hc. destruct (depths b !! ctx); [|done]. by rewrite lookup_insert_ne.
Qed.

Lemma bus_ok_sweep_tombstone now ctx (b : Bus) : bus_ok b → bus_ok (sweep_tombstone now ctx b).
Proof using.
  intros Hok. unfold sweep_tombstone. destruct (expired_pairs b !! ctx) as [swept|]; [|done].
  destruct (is_expired now swept); [|done]. apply bus_ok_pairs; try apply Hok.
  intros c [_ Hc]%lookup_delete_is_Some. by apply bo_tombstone.
Qed.

Lemma bus_ok_fold (f : string → Bus → Bus) l (b : Bus) :
  (∀ c b, bus_ok b → bus_ok (f c b)) → bus_ok b →
  bus_ok (fold_left (λ b c, f c b) l b).
Proof using. intros Hf. revert b; induction l; simpl; auto. Qed.

Lemma bus_ok_sweep now (b : Bus) : bus_ok b → bus_ok (sweep_expired_pairs now b).
Proof using.
  intros Hok. unfold sweep_expired_pairs.
  apply (bus_ok_fold (sweep_tombstone now)); [apply bus_ok_sweep_tombstone|].
  apply (bus_ok_fold (sweep_pair now)); [apply bus_ok_sweep_pair|done].
Qed.

Lemma try_reserve_Ok k (b : Bus) :
  try_reserve k b = Ok tt → length (run_trigger_queue b) + k < RUN_TRIGGER_CHANNEL_CAPACITY.
Proof using.
  unfold try_reserve. destruct (run_trigger_closed b); [done|].
  destruct (Nat.ltb_spec (length (run_trigger_queue b) + k) RUN_TRIGGER_CHANNEL_CAPACITY);
    done.
Qed.

Lemma reserve_end_Ok n (b : Bus) :
  reserve_end b n = Ok tt →
  length (run_trigger_queue b) + (if n then 2 else 1) ≤ RUN_TRIGGER_CHANNEL_CAPACITY.
Proof using.
  unfold reserve_end. destruct (try_reserve 0 b) as [[]|] eqn:E0; [|done].
  apply try_reserve_Ok in E0. destruct n; [intros E1%try_reserve_Ok|intros _]; lia.
Qed.

Lemma bus_ok_queue q (b : Bus) :
  bus_ok b → length q ≤ RUN_TRIGGER_CHANNEL_CAPACITY → bus_ok (set_queue q b).
Proof using. intros [] ?. by split. Qed.

Lemma bus_ok_store st (b : Bus) : bus_ok b → bus_ok (set_session_manager st b).
Proof using. intros []. by split. Qed.

Lemma bus_ok_end_locked env sn si pn pi reason (b : Bus) :
  bus_ok b → bus_ok (snd (end_conversation_locked env sn si pn pi reason b)).
Proof using.
  intros Hok. unfold end_conversation_locked. case_decide; [done|].
  destruct (negb _ && negb _); [done|].
  destruct (reserve_end b _) as [[]|] eqn:Er; [|done]. apply reserve_end_Ok in Er.
  set (ctx := dm_context_id sn pn) in *.
  destruct (ds_get _ _) as [s|].
  - destruct (ds_append_message _ _ _ _) as [[[]|e] st]; [|by apply bus_ok_store].
    cbn [snd]. unfold permit_send.
    destruct (needs_self_notification b sn pn);
      repeat (apply bus_ok_queue; [|simpl in *; rewrite ?length_app; simpl; lia]);
      (apply bus_ok_drop_pair; [by apply bus_ok_store|]);
      by intros c Hc; rewrite lookup_delete_ne.
  - apply bus_ok_drop_pair; [done|]. by intros c Hc; rewrite lookup_delete_ne.
Qed.

Lemma bus_ok_event e (b : Bus) : bus_ok b → bus_ok (try_send_event e b).
Proof using.
  intros Hok. unfold try_send_event. destruct (dm_event_queue b) as [q|] eqn:E; [|done].
  destruct (Nat.ltb_spec (length q) DM_EVENT_CHANNEL_CAPACITY); [|done].
  destruct Hok. split; try done. simpl. intros q' [= <-]. rewrite length_app. simpl. lia.
Qed.

Lemma try_send_event_fields e (b : Bus) :
  session_manager (try_send_event e b) = session_manager b ∧
  run_trigger_queue (try_send_event e b) = run_trigger_queue b ∧
  depths (try_send_event e b) = depths b ∧
  last_activity (try_send_event e b) = last_activity b ∧
  source_sessions (try_send_event e b) = source_sessions b ∧
  expired_pairs (try_send_event e b) = expired_pairs b.
Proof using. unfold try_send_event. by repeat case_match. Qed.

Lemma bus_ok_restamp ctx s (b : Bus) :
  bus_ok b → is_Some (depths b !! ctx) →
  bus_ok (set_pairs (depths b) (<[ctx := s]> (last_activity b)) (source_sessions b)
            (expired_pairs b) b).
Proof using.
  intros Hok Hd. apply bus_ok_pairs; try apply Hok. intros c.
  rewrite lookup_insert_is_Some', <-(bo_activity _ Hok).
  split; [by right|]. by intros [<-|].
Qed.

Lemma bus_ok_open ctx entry s src (b : Bus) :
  bus_ok b → (1 ≤ entry.2 ≤ MAX_DM_DEPTH)%Z →
  bus_ok (set_pairs (<[ctx := entry]> (depths b)) (<[ctx := s]> (last_activity b)) src
            (delete ctx (expired_pairs b)) b).
Proof using.
  intros Hok He. apply bus_ok_pairs; [done|..].
  - intros c x n [[_ Hx]|[_ Hx]]%lookup_insert_Some; [by subst|by eapply bo_depth].
  - intros c. rewrite !lookup_insert_is_Some', (bo_activity _ Hok). done.
  - intros c [Hne Hc]%lookup_delete_is_Some. rewrite lookup_insert_ne by done.
    by apply bo_tombstone.
Qed.

Lemma bus_ok_deliver env sn si rn ri msg src entry (b : Bus) :
  bus_ok b → (1 ≤ entry.2 ≤ MAX_DM_DEPTH)%Z → try_reserve 0 b = Ok tt →
  bus_ok (snd (deliver env sn si rn ri msg src entry b)).
Proof using.
  intros Hok He Hr%try_reserve_Ok. unfold deliver. set (ctx := dm_context_id sn rn).
  destruct (ds_get_or_create_shared _ _ _ _) as [s st1].
  destruct (ds_append_message _ _ _ _) as [[[]|e] st2]; cbn [snd].
  - unfold permit_send. set (b2 := try_send_event _ _).
    destruct (try_send_event_fields
      {| de_session_id := deterministic_dm sn rn; de_from_agent := sn; de_from_agent_id := si;
         de_message := msg; de_ts := env_utc env |}
      (set_session_manager st2 (set_pairs (<[ctx:=entry]> (depths b))
        (<[ctx:=stamp_now (env_instant env)]> (last_activity b)) (track_source ctx sn src b)
        (delete ctx (expired_pairs b)) b))) as (_ & Eq & Ed & _).
    fold b2 in Eq, Ed. simpl in Eq, Ed. apply bus_ok_queue.
    + apply bus_ok_restamp; [by apply bus_ok_event, bus_ok_store, bus_ok_open|].
      rewrite Ed, lookup_insert_eq. eauto.
    + simpl. rewrite Eq, length_app. simpl. lia.
  - by apply bus_ok_store, bus_ok_open.
Qed.

Lemma default_entry_range ctx (b : Bus) :
  bus_ok b → (0 ≤ (default ("", 0%Z) (depths b !! ctx)).2 ≤ MAX_DM_DEPTH)%Z.
Proof using.
  intros Hok. destruct (depths b !! ctx) as [[s d]|] eqn:E; simpl; [|unfold MAX_DM_DEPTH; lia].
  apply (bo_depth _ Hok) in E. lia.
Qed.

Lemma bus_ok_send_locked env sn si rn ri msg src (b : Bus) :
  bus_ok b → bus_ok (snd (send_locked env sn si rn ri msg src b)).
Proof using.
  intros Hok. unfold send_locked. destruct (try_reserve 0 b) as [[]|] eqn:Er; [|done].
  pose proof (default_entry_range (dm_context_id sn rn) b Hok) as Hd.
  destruct (bump_depth _ sn) as [entry [d ex]] eqn:Eb.
  apply bump_depth_spec in Eb; [|done]. destruct ex.
  - pose proof (bus_ok_end_locked env sn si rn ri DepthExceeded b Hok).
    by destruct (end_conversation_locked _ _ _ _ _ _ _) as [[]].
  - apply bus_ok_deliver; tauto.
Qed.

Lemma bus_ok_new st : bus_ok (bus_new st).
Proof using. split; simpl; intros; rewrite ?lookup_empty in *; try done; lia. Qed.

Lemma bus_ok_step b b' : bus_step b b' → bus_ok b → bus_ok b'.
Proof using.
  destruct 1 as [| env sn si pn pi reason b | | |t q b Hq|e q b Hq| | | |]; intros Hok.
  - by apply bus_ok_send_locked.
  - unfold end_conversation. case_decide; [done|]. by apply bus_ok_end_locked.
  - by apply bus_ok_sweep_pair.
  - by apply bus_ok_sweep_tombstone.
  - apply bus_ok_queue; [done|]. pose proof (bo_queue _ Hok) as H. rewrite Hq in H.
    simpl in H. lia.
  - destruct Hok as [H1 H2 H3 H4 H5]. split; try done. simpl. intros q' [= <-].
    specialize (H5 _ Hq). simpl in H5. lia.
  - by apply bus_ok_store.
  - destruct Hok. split; try done. simpl. intros q [= <-]. simpl. lia.
  - by destruct Hok.
  - by destruct Hok.
Qed.

Lemma bus_ok_reachable b0 b : bus_reachable b0 b → bus_ok b0 → bus_ok b.
Proof using. induction 1; eauto using bus_ok_step. Qed.

End bus.

(** * The session manager as the bus's store *)

Section store_instance.
Context `{U : UuidCrate} `{CH : ChronoCrate} {St : Type} `{DB : SqliteStore St}.

#[export] Instance manager_dm_store : DmStore (SessionManager St) := {
  ds_get := session_get;
  ds_get_or_create_shared := get_or_create_shared;
  ds_append_message := append_message;
  ds_history id m := history m !! id;
}.

(** The id is registered for the context, or neither is taken. *)
Definition shared_ready (id : SessionId) (ctx : string) (m : SessionManager St) : Prop :=
  index_ok m ∧
  ((sessions m !! (sentinel, ctx) = None ∧ session_by_id m !! id = None) ∨
   session_by_id m !! id = Some (sentinel, ctx)).

Lemma shared_ready_spec now id ctx (m : SessionManager St) s m' :
  shared_ready id ctx m → get_or_create_shared now id ctx m = (s, m') →
  sess_id s = id ∧ history m' !! id = Some (default [] (history m !! id)) ∧
  (∀ j, j ≠ id → history m' !! j = history m !! j) ∧ is_ok (session_get id m') = true.
Proof using.
  intros [Hok [[Hk Hi]|Hi]] Hg; unfold get_or_create_shared in Hg.
  - rewrite Hk in Hg. injection Hg as <- <-. unfold session_get. simpl.
    destruct (persist_fields (save_session (session_new now id sentinel ctx))
      (register_session id (sentinel, ctx) m)) as (E1 & E2 & E3 & _).
    rewrite E2, E3. simpl. rewrite !lookup_insert_eq. simpl. rewrite lookup_insert_eq.
    assert (history m !! id = None) as ->.
    { apply eq_None_not_Some. rewrite (ix_history _ Hok), Hi. apply is_Some_None. }
    split_and!; try done. intros j Hj. by rewrite lookup_insert_ne.
  - destruct (ix_by_id _ Hok _ _ Hi) as (s0 & Hs0 & Hid). rewrite Hs0 in Hg. simplify_eq.
    assert (is_Some (history m' !! sess_id s)) as [h Hh] by (rewrite (ix_history _ Hok), Hi; eauto).
    rewrite Hh. unfold session_get. rewrite Hi. simpl. by rewrite Hs0.
Qed.

Lemma append_message_history now id msg (m : SessionManager St) :
  let '(r, m') := append_message now id msg m in
  match history m !! id with
  | Some h => r = Ok tt ∧ history m' !! id = Some (h ++ [msg]) ∧
              (∀ j, j ≠ id → history m' !! j = history m !! j)
  | None => is_ok r = false ∧ m' = m
  end.
Proof using.
  unfold append_message. destruct (history m !! id) as [h|] eqn:E; [|done].
  destruct (persist_fields (save_message id msg) m) as (_ & _ & E3 & _).
  assert (∀ m' : SessionManager St, history m' = <[id := h ++ [msg]]> (history m) →
    Ok tt = @Ok _ AlmsError tt ∧ history m' !! id = Some (h ++ [msg]) ∧
    (∀ j, j ≠ id → history m' !! j = history m !! j)) as Hm.
  { intros m' ->. rewrite lookup_insert_eq. split_and!; try done.
    intros j Hj. by rewrite lookup_insert_ne. }
  destruct (session_by_id _ !! id) as [key|]; [|apply Hm; simpl; by rewrite E3].
  destruct (sessions _ !! key) as [s|]; [|apply Hm; simpl; by rewrite E3].
  apply Hm. unfold persist at 1. simpl. destruct (sm_store _); simpl; by rewrite E3.
Qed.

#[export] Instance manager_dm_store_laws : DmStoreLaws manager_dm_store := {
  ds_ready := shared_ready;
  ds_shared_spec := shared_ready_spec;
  ds_append_spec := append_message_history;
}.

End store_instance.

(** * Ends, in full *)

Section ends.
Context `{U : UuidCrate} {S : Type} `{D : DmStore S}.

Notation Bus := (MessageBus S).

(** An end that goes through: the marker is stored, the pair's state is gone
    and the notifications are queued. *)
Lemma end_locked_full env sn si pn pi reason (b : Bus) st :
  let ctx := dm_context_id sn pn in
  let sid := deterministic_dm sn pn in
  si ≠ pi → is_Some (depths b !! ctx) ∨ is_Some (expired_pairs b !! ctx) →
  reserve_end b (needs_self_notification b sn pn) = Ok tt →
  is_ok (ds_get sid (session_manager b)) = true →
  ds_append_message (env_utc env) sid (end_marker env sn reason) (session_manager b) = (Ok tt, st) →
  ∃ b', end_conversation_locked env sn si pn pi reason b = (Ok tt, b') ∧
    session_manager b' = st ∧
    run_trigger_queue b' = run_trigger_queue b ++
      peer_end_trigger (set_session_manager st b) sn si pn pi reason ::
      (if needs_self_notification b sn pn
       then [self_end_trigger (set_session_manager st b) sn si pn pi reason] else []) ∧
    depths b' = delete ctx (depths b) ∧ last_activity b' = delete ctx (last_activity b) ∧
    source_sessions b' = remove_source_sessions_for_dm ctx (source_sessions b) ∧
    expired_pairs b' = delete ctx (expired_pairs b).
Proof using.
  intros ctx sid Hne Hlive Hr Hg Ha. unfold end_conversation_locked. fold ctx sid.
  rewrite decide_False by done.
  assert (negb (bool_decide (is_Some (depths b !! ctx)))
    && negb (bool_decide (is_Some (expired_pairs b !! ctx))) = false) as ->.
  { destruct Hlive as [H|H]; rewrite (bool_decide_eq_true_2 _ H); [done|]. by rewrite andb_false_r. }
  rewrite Hr. destruct (ds_get sid (session_manager b)) as [s|]; [|done]. rewrite Ha.
  eexists. split; [done|]. destruct (needs_self_notification b sn pn); simpl;
    rewrite <-?app_assoc; done.
Qed.

Lemma end_locked_dead env sn si pn pi reason (b : Bus) :
  si ≠ pi → depths b !! dm_context_id sn pn = None →
  expired_pairs b !! dm_context_id sn pn = None →
  end_conversation_locked env sn si pn pi reason b = (Ok tt, b).
Proof using.
  intros Hne Hd He. unfold end_conversation_locked. rewrite decide_False by done.
  rewrite Hd, He. by rewrite !bool_decide_eq_false_2 by (by intros []).
Qed.

(** Whatever way an end succeeds, the pair is neither live nor a tombstone
    afterwards. *)
Lemma end_locked_Ok env sn si pn pi reason (b b' : Bus) :
  end_conversation_locked env sn si pn pi reason b = (Ok tt, b') →
  si ≠ pi ∧ depths b' !! dm_context_id sn pn = None ∧ expired_pairs b' !! dm_context_id sn pn = None.
Proof using.
  unfold end_conversation_locked. case_decide as Hid; [done|].
  destruct (negb _ && negb _) eqn:E.
  { intros [= <-]. apply andb_true_iff in E as [E1 E2].
    apply negb_true_iff, bool_decide_eq_false, eq_None_not_Some in E1, E2. done. }
  destruct (reserve_end b _); [|done]. destruct (ds_get _ _).
  - destruct (ds_append_message _ _ _ _) as [[[]|] st]; [|done].
    intros [= <-]. destruct (needs_self_notification b sn pn); simpl; by rewrite !lookup_delete_eq.
  - intros [= <-]. simpl. by rewrite !lookup_delete_eq.
Qed.

Lemma remove_source_none (ctx n : string) (m : gmap (string * string) SessionId) :
  remove_source_sessions_for_dm ctx m !! (ctx, n) = None.
Proof using.
  apply eq_None_not_Some. intros [sid H]. unfold remove_source_sessions_for_dm in H.
  apply map_lookup_filter_Some in H as [_ H]. by apply H.
Qed.

Lemma deterministic_dm_comm a b : deterministic_dm a b = deterministic_dm b a.
Proof using. unfold deterministic_dm. by rewrite dm_context_id_comm. Qed.

(** The number of maximal blocks of equal senders. *)
Fixpoint bounces (last : string) (senders : list string) : Z :=
  match senders with
  | [] => 0
  | s :: l => (if String.eqb last s then 0 else 1) + bounces s l
  end%Z.

(** Messages of a pair, one after the other; [None] once one is refused. *)
Fixpoint bump_all (entry : string * Z) (senders : list string) : option (string * Z) :=
  match senders with
  | [] => Some entry
  | s :: l => let '(entry', (_, exceeded)) := bump_depth entry s in
              if exceeded : bool then None else bump_all entry' l
  end.

Lemma bounces_nonneg last l : (0 ≤ bounces last l)%Z.
Proof using.
  revert last; induction l as [|s l IH]; intros last; simpl; [lia|].
  specialize (IH s). destruct (String.eqb last s); lia.
Qed.

Lemma bump_all_spec last d l :
  (1 ≤ d ≤ MAX_DM_DEPTH)%Z →
  bump_all (last, d) l =
    if (d + bounces last l <=? MAX_DM_DEPTH)%Z
    then Some (List.last l last, (d + bounces last l)%Z) else None.
Proof using.
  revert last d; induction l as [|s l IH]; intros last d Hd; cbn [bump_all bounces].
  - rewrite Z.add_0_r. destruct (Z.leb_spec d MAX_DM_DEPTH); [done|lia].
  - unfold bump_depth. pose proof (bounces_nonneg s l) as Hb.
    assert (List.last (s :: l) last = List.last l s) as ->.
    { destruct l as [|x l]; [done|]. clear. simpl.
      revert x. induction l as [|y l IH]; intros x; [done|]. simpl. apply IH. }
    destruct (String.eqb_spec last s) as [->|Hne]; simpl.
    + destruct (Z.eqb_spec d 0); [lia|]. by rewrite IH.
    + destruct (Z.ltb_spec MAX_DM_DEPTH (d + 1)) as [Hlt|Hle].
      * destruct (Z.leb_spec (d + (1 + bounces s l)) MAX_DM_DEPTH); [lia|done].
      * rewrite IH by lia. by rewrite Z.add_assoc.
Qed.

End ends.

(** * Properties *)

Section properties.
Context `{U : UuidCrate} {S : Type} `{D : DmStore S}.

(** C28: the bus invariant.  From a new bus, over every interleaving of
    installing the event channel, sends, ends, both sweeps, the gateway draining
    its channels or closing them, and anything else changing the session store
    (store errors included): every live pair has a depth from 1
    to 20 and an activity stamp, every stamp belongs to a live pair (so the
    sweep can always reclaim one), no pair is live and a tombstone at once,
    and neither channel exceeds its capacity. *)
Theorem bus_reachable_wf (st : S) (b : MessageBus S) :
  bus_reachable (bus_new st) b →
  (∀ ctx sender d, depths b !! ctx = Some (sender, d) → (1 ≤ d ≤ 20)%Z) ∧
  (∀ ctx, is_Some (depths b !! ctx) ↔ is_Some (last_activity b !! ctx)) ∧
  (∀ ctx, is_Some (expired_pairs b !! ctx) → depths b !! ctx = None) ∧
  length (run_trigger_queue b) ≤ 1024 ∧
  (∀ q, dm_event_queue b = Some q → length q ≤ 1024).
Proof using.
  intros Hr. destruct (bus_ok_reachable _ _ Hr (bus_ok_new st)) as [H1 H2 H3 H4 H5].
  split_and!; eauto.
Qed.

(** A full or closed trigger queue refuses without a trace.  When no
    permit can be had, a send and an end of a live conversation return the
    error and leave the whole bus, the session store included, as it was; the
    same holds when the end needs a second permit and only one is left. *)
Theorem saturation_side_effect_free env sn si rn ri msg src reason (b : MessageBus S) e :
  si ≠ ri →
  (try_reserve 0 b = Err e →
     send_locked env sn si rn ri msg src b = (Err e, b)) ∧
  (reserve_end b (needs_self_notification b sn rn) = Err e →
     is_Some (depths b !! dm_context_id sn rn) ∨ is_Some (expired_pairs b !! dm_context_id sn rn) →
     end_conversation env sn si rn ri reason b = (Err e, b)).
Proof using.
  intros Hne. split; [by intros Hr; unfold send_locked; rewrite Hr|].
  intros Hr Hl. unfold end_conversation. rewrite decide_False by done.
  unfold end_conversation_locked. rewrite decide_False, Hr by done.
  destruct (negb _ && negb _) eqn:E; [|done]. exfalso.
  apply andb_true_iff in E as [E1 E2].
  apply negb_true_iff, bool_decide_eq_false in E1, E2. tauto.
Qed.

(** A delivered message.  With a permit to be had, the depth limit not
    reached and the DM session's id belonging to its context, a send succeeds:
    it appends exactly one message, the sender's, to the one session both
    participants share, queues exactly one run for the recipient on that
    session, leaves the pair live under the sender's name with no tombstone,
    and touches no other session's history and no other pair. *)
Theorem send_delivers `{!DmStoreLaws D} env sn si rn ri msg src (b : MessageBus S) :
  let ctx := dm_context_id sn rn in
  let sid := deterministic_dm sn rn in
  bus_ok b → try_reserve 0 b = Ok tt →
  (∀ last, depths b !! ctx = Some (last, MAX_DM_DEPTH) → last = sn) →
  ds_ready sid ctx (session_manager b) →
  ∃ b' d, send_locked env sn si rn ri msg src b = (Ok {| receipt_session_id := sid |}, b') ∧
    ds_history sid (session_manager b') =
      Some (default [] (ds_history sid (session_manager b)) ++ [dm_message env sn si msg]) ∧
    (∀ j, j ≠ sid →
       ds_history j (session_manager b') = ds_history j (session_manager b)) ∧
    run_trigger_queue b' = run_trigger_queue b ++ [dm_trigger sn si rn ri msg] ∧
    deterministic_dm rn sn = sid ∧
    depths b' = <[ctx := (sn, d)]> (depths b) ∧
    last_activity b' !! ctx = Some (stamp_now (env_instant_done env)) ∧
    expired_pairs b' = delete ctx (expired_pairs b) ∧
    ∀ c n, c ≠ ctx → last_activity b' !! c = last_activity b !! c ∧
                     source_sessions b' !! (c, n) = source_sessions b !! (c, n).
Proof using.
  intros ctx sid Hok Hr Hd Hready. unfold send_locked. rewrite Hr. fold ctx.
  pose proof (default_entry_range ctx b Hok) as Hrange.
  destruct (bump_depth _ sn) as [entry [d ex]] eqn:Eb.
  apply bump_depth_spec in Eb; [|done]. destruct ex.
  { exfalso. destruct Eb as (_ & Hmax & Hls). destruct (depths b !! ctx) as [[ls n]|]; [|done].
    simpl in *. apply Hls, Hd. by rewrite Hmax. }
  destruct Eb as (_ & He & _). destruct entry as [ls n]. simpl in He. subst ls.
  unfold deliver. fold ctx sid.
  destruct (ds_get_or_create_shared _ sid ctx _) as [s st1] eqn:Es.
  destruct (ds_shared_spec _ _ _ _ _ _ Hready Es) as (Hid & Hh & Hother & _).
  rewrite Hid. pose proof (ds_append_spec (env_utc env) sid (dm_message env sn si msg) st1) as Ha.
  destruct (ds_append_message _ sid _ st1) as [r st2]. rewrite Hh in Ha.
  destruct Ha as (-> & Hh2 & Hother2). set (ev := Build_DmEvent _ _ _ _ _).
  set (b1 := set_session_manager st2 _).
  destruct (try_send_event_fields ev b1) as (E1 & E2 & E3 & E4 & E5 & E6).
  eexists _, n. split; [done|]. simpl. rewrite E1, E2, E3, E4, E5, E6. simpl. split_and!; try done.
  - intros j Hj. by rewrite Hother2, Hother.
  - by rewrite deterministic_dm_comm.
  - by rewrite lookup_insert_eq.
  - intros c x Hc. rewrite !lookup_insert_ne by done. split; [done|].
    unfold track_source. repeat case_match; try done. rewrite lookup_insert_ne; [done|]. congruence.
Qed.

(** The loop limit counts bounces.  Over any sequence of messages of a
    pair the depth is the number of times the speaker changed, whoever spoke
    and however often in a row; the sequence is accepted exactly while that
    number is at most 20, and the first message beyond it is refused. *)
Theorem depth_counts_bounces first rest :
  first ≠ "" →
  bump_all ("", 0%Z) (first :: rest) =
    (if (1 + bounces first rest <=? MAX_DM_DEPTH)%Z
     then Some (List.last rest first, (1 + bounces first rest)%Z)
     else None).
Proof using.
  intros Hf. cbn [bump_all]. unfold bump_depth.
  destruct (String.eqb_spec "" first) as [<-|_]; [done|]. simpl.
  by rewrite bump_all_spec by (unfold MAX_DM_DEPTH; lia).
Qed.

(** The message beyond the limit ends the conversation.  A send whose
    bounce would exceed the limit delivers nothing: it performs the end with
    reason [DepthExceeded], and either reports that and the pair has no state
    left, so the next message starts again at depth 1, or the end failed and
    its error is returned. *)
Theorem depth_exceeded_ends env sn si rn ri msg src (b : MessageBus S) :
  let ctx := dm_context_id sn rn in
  bus_ok b → try_reserve 0 b = Ok tt →
  (∃ last, depths b !! ctx = Some (last, MAX_DM_DEPTH) ∧ last ≠ sn) →
  let '(r, b') := send_locked env sn si rn ri msg src b in
  let '(re, be) := end_conversation_locked env sn si rn ri DepthExceeded b in
  b' = be ∧
  match re with
  | Ok _ => r = Err SendDepthExceeded ∧ depths b' !! ctx = None ∧
            fst (bump_depth (default ("", 0%Z) (depths b' !! ctx)) rn) = (rn, 1%Z)
  | Err e => r = Err e
  end.
Proof using.
  intros ctx Hok Hr (last & Hl & Hne). unfold send_locked. rewrite Hr. fold ctx. rewrite Hl.
  simpl. unfold bump_depth at 1. destruct (String.eqb_spec last sn) as [|_]; [done|]. simpl.
  destruct (end_conversation_locked _ _ _ _ _ _ _) as [[[]|e] be] eqn:Ee; [|done].
  apply end_locked_Ok in Ee as (_ & Hd & _). fold ctx in Hd. rewrite Hd.
  split_and!; try done. unfold bump_depth. simpl. by destruct rn.
Qed.

(** The notifications of an end.  When an end of a live or swept pair goes
    through, the marker is stored, the peer is notified first, and the ender
    is notified exactly when either participant started the conversation from
    a session of its own; each is notified on its own source session when it
    has one and otherwise on its notification session; the pair keeps no
    state and other pairs are untouched. *)
Theorem end_notifies env sn si pn pi reason (b : MessageBus S) st :
  let ctx := dm_context_id sn pn in
  let sid := deterministic_dm sn pn in
  si ≠ pi → is_Some (depths b !! ctx) ∨ is_Some (expired_pairs b !! ctx) →
  reserve_end b (needs_self_notification b sn pn) = Ok tt →
  is_ok (ds_get sid (session_manager b)) = true →
  ds_append_message (env_utc env) sid (end_marker env sn reason) (session_manager b) = (Ok tt, st) →
  ∃ b' peer rest, end_conversation env sn si pn pi reason b = (Ok tt, b') ∧
    session_manager b' = st ∧
    run_trigger_queue b' = run_trigger_queue b ++ peer :: rest ∧
    tr_agent_id peer = pi ∧
    tr_session_id peer = default (deterministic (notifications_ctx pn)) (source_sessions b !! (ctx, pn)) ∧
    (source_sessions b !! (ctx, sn) = None ∧ source_sessions b !! (ctx, pn) = None → rest = []) ∧
    (is_Some (source_sessions b !! (ctx, sn)) ∨ is_Some (source_sessions b !! (ctx, pn)) →
     ∃ self, rest = [self] ∧ tr_agent_id self = si ∧
       tr_session_id self =
         default (deterministic (notifications_ctx sn)) (source_sessions b !! (ctx, sn))) ∧
    depths b' !! ctx = None ∧ expired_pairs b' !! ctx = None ∧ last_activity b' !! ctx = None ∧
    (∀ n, source_sessions b' !! (ctx, n) = None) ∧
    ∀ c n, c ≠ ctx → depths b' !! c = depths b !! c ∧ last_activity b' !! c = last_activity b !! c ∧
      expired_pairs b' !! c = expired_pairs b !! c ∧
      source_sessions b' !! (c, n) = source_sessions b !! (c, n).
Proof using.
  intros ctx sid Hne Hl Hr Hg Ha.
  destruct (end_locked_full env sn si pn pi reason b st Hne Hl Hr Hg Ha)
    as (b' & He & Hst & Hq & Hd & Hact & Hsrc & Hexp).
  eexists b', _, _. unfold end_conversation. rewrite decide_False by done.
  split_and!; [exact He|done|exact Hq|done| |..]; fold ctx in Hd, Hact, Hsrc, Hexp |- *.
  - simpl. fold ctx. by destruct (source_sessions b !! (ctx, pn)).
  - intros [H1 H2]. unfold needs_self_notification. fold ctx. rewrite H1, H2.
    by rewrite !bool_decide_eq_false_2 by (by intros []).
  - intros H. unfold needs_self_notification. fold ctx.
    assert (bool_decide (is_Some (source_sessions b !! (ctx, sn)))
      || bool_decide (is_Some (source_sessions b !! (ctx, pn))) = true) as ->.
    { apply orb_true_iff. rewrite !bool_decide_eq_true. done. }
    eexists. split_and!; [done..|]. simpl. fold ctx.
    by destruct (source_sessions b !! (ctx, sn)).
  - rewrite Hd. simpl_lookup.
  - rewrite Hexp. simpl_lookup.
  - rewrite Hact. simpl_lookup.
  - intros n. rewrite Hsrc. apply remove_source_none.
  - intros c n Hc. rewrite Hd, Hact, Hexp, Hsrc, !lookup_delete_ne by done.
    split_and!; try done. unfold remove_source_sessions_for_dm. apply option_eq. intros x.
    rewrite map_lookup_filter_Some. naive_solver.
Qed.

(** An end happens once.  After an end has succeeded, ending the same
    conversation again, by either participant and for any reason, succeeds
    and changes nothing: no second marker and no second notification. *)
Theorem end_idempotent env env' sn si pn pi reason reason' (b b' : MessageBus S) :
  end_conversation env sn si pn pi reason b = (Ok tt, b') →
  end_conversation env' sn si pn pi reason' b' = (Ok tt, b') ∧
  end_conversation env' pn pi sn si reason' b' = (Ok tt, b').
Proof using.
  unfold end_conversation. case_decide; [done|]. intros He.
  apply end_locked_Ok in He as (Hne & Hd & Hexp).
  rewrite (decide_False (P := pi = si)) by congruence. split.
  - by apply end_locked_dead.
  - apply end_locked_dead; [congruence|..]; by rewrite dm_context_id_comm.
Qed.

(** An expired pair can still be ended.  A pair the inactivity sweep took
    leaves a tombstone; ending it afterwards stores the marker and notifies
    the peer, on its notification session, as if the pair were live, and only
    once the tombstone itself has expired is the end a no-op. *)
Theorem swept_pair_still_ends env sn si pn pi reason (b : MessageBus S) now last :
  let ctx := dm_context_id sn pn in
  let sid := deterministic_dm sn pn in
  let b1 := sweep_pair now ctx b in
  bus_ok b → si ≠ pi → is_Some (depths b !! ctx) →
  last_activity b !! ctx = Some last → is_expired now last = true →
  depths b1 !! ctx = None ∧
  (∀ st, try_reserve 0 b = Ok tt → is_ok (ds_get sid (session_manager b)) = true →
     ds_append_message (env_utc env) sid (end_marker env sn reason) (session_manager b)
       = (Ok tt, st) →
     ∃ b2, end_conversation env sn si pn pi reason b1 = (Ok tt, b2) ∧ session_manager b2 = st ∧
       run_trigger_queue b2 = run_trigger_queue b ++
         [{| tr_agent_id := pi; tr_session_id := deterministic (notifications_ctx pn);
             tr_input := end_input sn;
             tr_source := ConversationEnded si sn reason false None;
             tr_context_id := notifications_ctx pn |}]) ∧
  (∀ later, is_expired later (stamp_now now) = true →
     let b2 := sweep_tombstone later ctx b1 in
     end_conversation env sn si pn pi reason b2 = (Ok tt, b2)).
Proof using.
  intros ctx sid b1 Hok Hne [entry Hd] Hl He.
  assert (b1 = set_pairs (delete ctx (depths b)) (delete ctx (last_activity b))
    (remove_source_sessions_for_dm ctx (source_sessions b))
    (<[ctx := stamp_now now]> (expired_pairs b)) b) as Hb1.
  { unfold b1, sweep_pair. by rewrite Hl, He, Hd. }
  rewrite Hb1. clearbody b1. clear Hb1 b1. split_and!.
  - simpl. by rewrite lookup_delete_eq.
  - intros st Hr Hg Ha. unfold end_conversation. rewrite decide_False by done.
    set (b1 := set_pairs _ _ _ _ b).
    assert (∀ n, source_sessions b1 !! (ctx, n) = None) as Hsrc
      by (intros n; apply remove_source_none).
    assert (needs_self_notification b1 sn pn = false) as Hself.
    { unfold needs_self_notification. fold ctx. rewrite !Hsrc.
      by rewrite !bool_decide_eq_false_2 by (by intros []). }
    destruct (end_locked_full env sn si pn pi reason b1 st) as (b2 & He2 & Hst & Hq & _).
    + done.
    + right. fold ctx. simpl. rewrite lookup_insert_eq. eauto.
    + rewrite Hself. unfold reserve_end. change (try_reserve 0 b1) with (try_reserve 0 b).
      by rewrite Hr.
    + done.
    + done.
    + exists b2. split_and!; [done..|]. rewrite Hq, Hself.
      unfold peer_end_trigger. simpl. fold ctx. by rewrite remove_source_none.
  - intros later Hlater. cbn zeta. unfold sweep_tombstone. simpl. rewrite lookup_insert_eq, Hlater.
    unfold end_conversation. rewrite decide_False by done.
    apply end_locked_dead; [done|..]; simpl; by rewrite lookup_delete_eq.
Qed.

(** An end without its session forgets only half of the pair.  When the
    DM session has disappeared, an end clears the pair but keeps the
    sources recorded for it: no sweep reaches them any more, and the next
    conversation of the pair routes its end to the old source. *)
Theorem missing_session_keeps_source env sn si pn pi reason (b : MessageBus S) source old :
  let ctx := dm_context_id sn pn in
  si ≠ pi → is_Some (depths b !! ctx) →
  reserve_end b (needs_self_notification b sn pn) = Ok tt →
  is_ok (ds_get (deterministic_dm sn pn) (session_manager b)) = false →
  source_sessions b !! (ctx, sn) = Some old →
  ∃ b', end_conversation env sn si pn pi reason b = (Ok tt, b') ∧
    depths b' !! ctx = None ∧ last_activity b' !! ctx = None ∧
    source_sessions b' !! (ctx, sn) = Some old ∧
    track_source ctx sn source b' !! (ctx, sn) = Some old.
Proof using.
  intros ctx Hne Hd Hr Hg Hs. unfold end_conversation. rewrite decide_False by done.
  unfold end_conversation_locked. fold ctx. rewrite decide_False by done.
  rewrite (bool_decide_eq_true_2 _ Hd). simpl. rewrite Hr.
  destruct (ds_get _ _); [done|]. eexists. split; [done|]. simpl.
  rewrite !lookup_delete_eq. split_and!; try done.
  unfold track_source. simpl. rewrite Hs. by repeat case_match.
Qed.

End properties.

(** * Witnesses *)

Section witnesses.
Import SimpleUuid SimpleChrono NullStore.

Local Definition alice : AgentId := MkAgentId (MkUuid 1).
Local Definition bob : AgentId := MkAgentId (MkUuid 2).
Local Definition chat : SessionId := MkSessionId (MkUuid 77).
Local Definition env0 : Env :=
  {| env_instant := 10; env_instant_done := 11; env_utc := 100; env_uuid := MkUuid 500 |}.

Notation W := (SessionManager unit).

(** A manager in which Alice has a chat session. *)
Local Definition store0 : W :=
  snd (get_or_create 1 chat alice "web" (session_manager_new session_config_default)).
Local Definition bus0 : MessageBus W := bus_new store0.
Local Definition bus1 : MessageBus W :=
  snd (send_locked env0 "alice" alice "bob" bob "hello" (Some chat) bus0).
Local Definition bus1e : MessageBus W :=
  snd (send_locked env0 "alice" alice "bob" bob "hello" (Some chat) (with_dm_event_channel bus0)).
Local Definition bus2 : MessageBus W :=
  snd (end_conversation env0 "alice" alice "bob" bob Ignored bus1).
Local Definition dm : SessionId := deterministic_dm "alice" "bob".

(** The pair at the limit, Bob having sent the twentieth bounce. *)
Local Definition bus20 : MessageBus W :=
  set_pairs (<["dm:alice:bob" := ("bob", 20%Z)]> (depths bus0))
    (<["dm:alice:bob" := 0%Z]> (last_activity bus0)) (source_sessions bus0)
    (base.delete "dm:alice:bob" (expired_pairs bus0)) bus0.

Lemma bus_reachable_wf_witness :
  bus_reachable bus0 bus1e ∧ (length <$> dm_event_queue bus1e) = Some 1 ∧
  length (run_trigger_queue bus1e) ≤ 1024.
Proof.
  assert (bus_reachable bus0 bus1e) as Hr.
  { eapply rtc_l; [apply step_event_channel|]. apply rtc_once. apply step_send. discriminate. }
  split; [exact Hr|]. split; [vm_compute; reflexivity|].
  destruct (bus_reachable_wf store0 bus1e Hr) as (_ & _ & _ & H & _). exact H.
Defined.

Local Definition full : MessageBus W :=
  set_queue (replicate 1024 (dm_trigger "alice" alice "bob" bob "x")) bus1.

Lemma saturation_side_effect_free_witness :
  snd (send_locked env0 "bob" bob "alice" alice "hi" None full) = full ∧
  snd (end_conversation env0 "bob" bob "alice" alice Ignored full) = full.
Proof.
  destruct (saturation_side_effect_free env0 "bob" bob "alice" alice "hi" None Ignored full
    (Internal "run trigger queue unavailable: no available capacity") ltac:(discriminate))
    as [H1 H2].
  rewrite H1 by (vm_compute; reflexivity). split; [reflexivity|].
  rewrite H2; [reflexivity|vm_compute; reflexivity|left; vm_compute; eauto].
Defined.

Lemma send_delivers_witness :
  ∃ b' h, send_locked env0 "alice" alice "bob" bob "hello" (Some chat) bus0
            = (Ok {| receipt_session_id := dm |}, b') ∧
    history (session_manager b') !! dm = Some (h ++ [dm_message env0 "alice" alice "hello"]).
Proof.
  destruct (send_delivers (U:=simple_uuid) (D:=manager_dm_store) env0 "alice" alice "bob" bob
    "hello" (Some chat) bus0 (bus_ok_new store0) ltac:(vm_compute; reflexivity)) as (b' & d & H1 & H2 & _).
  - intros last Hl. exfalso. vm_compute in Hl. discriminate Hl.
  - split; [|left; split; vm_compute; reflexivity].
    apply (index_ok_exec (OpGetOrCreate 1 chat alice "web")); [apply index_ok_new|].
    vm_compute. reflexivity.
  - exists b'. eexists. split; [exact H1|exact H2].
Defined.

Lemma depth_counts_bounces_witness :
  bump_all ("", 0%Z) ["alice"; "bob"; "bob"; "alice"] = Some ("alice", 3%Z).
Proof.
  rewrite (depth_counts_bounces "alice" ["bob"; "bob"; "alice"]); [reflexivity|discriminate].
Defined.

Lemma depth_exceeded_ends_witness :
  fst (send_locked env0 "alice" alice "bob" bob "again" None bus20) = Err SendDepthExceeded.
Proof.
  assert (bus_ok bus20) as Hok.
  { apply bus_ok_open; [apply bus_ok_new|]. unfold MAX_DM_DEPTH. simpl. lia. }
  pose proof (depth_exceeded_ends env0 "alice" alice "bob" bob "again" None bus20 Hok
    ltac:(vm_compute; reflexivity) ltac:(exists "bob"; split; [vm_compute; reflexivity|done])) as H.
  destruct (send_locked env0 "alice" alice "bob" bob "again" None bus20) as [r b'].
  destruct (end_conversation_locked env0 "alice" alice "bob" bob DepthExceeded bus20)
    as [re be] eqn:Ee.
  vm_compute in Ee. injection Ee as <- _. destruct H as [_ [H _]]. exact H.
Defined.

Lemma end_notifies_witness :
  ∃ peer self, run_trigger_queue bus2 =
    [dm_trigger "alice" alice "bob" bob "hello"; peer; self] ∧
    tr_agent_id peer = bob ∧ tr_session_id self = chat.
Proof.
  destruct (end_notifies env0 "alice" alice "bob" bob Ignored bus1
    (snd (append_message (env_utc env0) dm (end_marker env0 "alice" Ignored) (session_manager bus1)))
    ltac:(discriminate) ltac:(left; vm_compute; eauto) ltac:(vm_compute; reflexivity)
    ltac:(vm_compute; reflexivity) ltac:(vm_compute; reflexivity))
    as (b' & peer & rest & He & _ & Hq & Hp & _ & _ & Hself & _).
  destruct Hself as (self & -> & _ & Hs); [left; vm_compute; eauto|].
  exists peer, self. split; [|split; [exact Hp|]].
  - unfold bus2. rewrite He. simpl. rewrite Hq. reflexivity.
  - rewrite Hs. vm_compute. reflexivity.
Defined.

Lemma end_idempotent_witness :
  end_conversation env0 "bob" bob "alice" alice UserCancelled bus2 = (Ok tt, bus2).
Proof.
  apply (end_idempotent env0 env0 "alice" alice "bob" bob Ignored UserCancelled bus1 bus2).
  vm_compute. reflexivity.
Defined.

Lemma swept_pair_still_ends_witness :
  depths (sweep_pair 1800000000011 "dm:alice:bob" bus1) !! "dm:alice:bob" = None.
Proof.
  assert (bus_ok bus1) as Hok by (apply bus_ok_send_locked, bus_ok_new).
  exact (proj1 (swept_pair_still_ends env0 "alice" alice "bob" bob Ignored bus1 1800000000011%Z
    1800000000011%Z Hok ltac:(discriminate) ltac:(vm_compute; eauto) ltac:(vm_compute; reflexivity)
    ltac:(vm_compute; reflexivity))).
Defined.

Lemma missing_session_keeps_source_witness :
  ∃ b', end_conversation env0 "alice" alice "bob" bob Ignored
          (set_session_manager store0 bus1) = (Ok tt, b') ∧
    depths b' !! "dm:alice:bob" = None ∧
    source_sessions b' !! ("dm:alice:bob", "alice") = Some chat.
Proof.
  destruct (missing_session_keeps_source env0 "alice" alice "bob" bob Ignored
    (set_session_manager store0 bus1) None chat ltac:(discriminate) ltac:(vm_compute; eauto)
    ltac:(vm_compute; reflexivity) ltac:(vm_compute; reflexivity) ltac:(vm_compute; reflexivity))
    as (b' & H1 & H2 & _ & H3 & _).
  exists b'. split; [exact H1|]. split; [exact H2|exact H3].
Defined.

End witnesses.
