(* ===== verification/SessionQueue.v ===== *)
(** Bounded per-key work scheduling: [alms-gateway/src/session_queue.rs].

    The queue is a concurrent program, and its states are those an observer
    can see between two atomic actions: an admission acquires its slot, its
    per-key permit and its global permit one after the other; a reservation is
    dispatched in one locked section; a worker drains its channel item by item,
    starts an item, waits, and retires.  [qstep] performs one action of one
    participant, so every interleaving is a list of labels.  A slot is named by
    its [Arc] identity, the reference count is derived from who holds it, and
    a work item is an identifier.  The lists [q_accepted], [q_started] and
    [q_lost] record what was accepted, run and dropped; the code has no such
    lists and no action reads them. *)
From S2P Require Import Prelude.

Definition MAX_PENDING_PER_KEY : nat := 64.
Definition MAX_PENDING_TOTAL : nat := 1024.

Inductive AdmissionError := PerKeyFull | GlobalFull | ShuttingDown | DispatchClosed.

Record QueueLimits := { per_key : nat; total : nat }.

Definition limits_default : QueueLimits :=
  {| per_key := MAX_PENDING_PER_KEY; total := MAX_PENDING_TOTAL |}.

(** An admitted item: its priority ([true] for low) and its work. *)
Definition PriorityItem : Type := bool * nat.

(** Where a worker is in its loop. *)
Inductive WorkerPhase :=
| Draining                        (* receiving with [try_recv] *)
| Picking                         (* the channel was empty; about to pop *)
| Executing (w : nat)
| Waiting                         (* nothing queued: in one of the selects *)
| SawNoPending (shutdown : bool)  (* read [pending.total() == 0], not yet the count *)
| Closing                         (* receiver closed, slot still in the map *)
| Stopped.

Record QueueSlot (K : Type) := mkSlot {
  q_key : K;
  q_capacity : nat;
  q_pending_normal : nat;
  q_pending_low : nat;
  q_chan : list PriorityItem;
  q_closed : bool;
  q_normal : list nat;
  q_low : list nat;
  q_phase : WorkerPhase;
  q_shutting_down : bool;
  q_accepted : list PriorityItem;
  q_started : list PriorityItem;
  q_lost : list PriorityItem;
  q_snapshot : nat;
  q_raced : bool;
}.
Arguments mkSlot {K}.
Arguments q_key {K}.
Arguments q_capacity {K}.
Arguments q_pending_normal {K}.
Arguments q_pending_low {K}.
Arguments q_chan {K}.
Arguments q_closed {K}.
Arguments q_normal {K}.
Arguments q_low {K}.
Arguments q_phase {K}.
Arguments q_shutting_down {K}.
Arguments q_accepted {K}.
Arguments q_started {K}.
Arguments q_lost {K}.
Arguments q_snapshot {K}.
Arguments q_raced {K}.

(** An admission call in flight. *)
Inductive Admission (K : Type) :=
| Checked (k : K)      (* passed the first shutdown check *)
| HasSlot (s : nat)
| HasKey (s : nat)
| HasBoth (s : nat).
Arguments Checked {K}.
Arguments HasSlot {K}.
Arguments HasKey {K}.
Arguments HasBoth {K}.

Record SessionQueue (K : Type) `{Countable K} := mkQueue {
  qs_arena : gmap nat (QueueSlot K);   (* every slot, by identity *)
  qs_slots : gmap K nat;               (* the map of current slots *)
  qs_global : nat;
  qs_shutdown : bool;
  qs_rejections : Z;
  qs_admissions : gmap nat (Admission K);
  qs_reservations : gmap nat nat;      (* a reservation's slot *)
}.
Arguments mkQueue {K _ _}.
Arguments qs_arena {K _ _}.
Arguments qs_slots {K _ _}.
Arguments qs_global {K _ _}.
Arguments qs_shutdown {K _ _}.
Arguments qs_rejections {K _ _}.
Arguments qs_admissions {K _ _}.
Arguments qs_reservations {K _ _}.

Section queue.
Context {K : Type} `{Countable K} (limits : QueueLimits).

Notation Slot := (QueueSlot K).
Notation Queue := (SessionQueue K).

Definition queue_new : Queue := mkQueue ∅ ∅ (total limits) false 0 ∅ ∅.

Definition slot_new (k : K) : Slot :=
  mkSlot k (per_key limits) 0 0 [] false [] [] Draining false [] [] [] 0 false.

Definition pending_total (sl : Slot) : nat := q_pending_normal sl + q_pending_low sl.

(** ** Updates of one part of the state *)

Definition set_slot (s : nat) (sl : Slot) (q : Queue) : Queue :=
  mkQueue (<[s := sl]> (qs_arena q)) (qs_slots q) (qs_global q) (qs_shutdown q)
    (qs_rejections q) (qs_admissions q) (qs_reservations q).
Definition set_map (m : gmap K nat) (q : Queue) : Queue :=
  mkQueue (qs_arena q) m (qs_global q) (qs_shutdown q) (qs_rejections q)
    (qs_admissions q) (qs_reservations q).
Definition set_global (n : nat) (q : Queue) : Queue :=
  mkQueue (qs_arena q) (qs_slots q) n (qs_shutdown q) (qs_rejections q)
    (qs_admissions q) (qs_reservations q).
Definition set_admissions (m : gmap nat (Admission K)) (q : Queue) : Queue :=
  mkQueue (qs_arena q) (qs_slots q) (qs_global q) (qs_shutdown q) (qs_rejections q)
    m (qs_reservations q).
Definition set_reservations (m : gmap nat nat) (q : Queue) : Queue :=
  mkQueue (qs_arena q) (qs_slots q) (qs_global q) (qs_shutdown q) (qs_rejections q)
    (qs_admissions q) m.
Definition reject (q : Queue) : Queue :=
  mkQueue (qs_arena q) (qs_slots q) (qs_global q) (qs_shutdown q)
    ((qs_rejections q + 1) mod 2 ^ 64)%Z (qs_admissions q) (qs_reservations q).

Definition set_capacity (n : nat) (sl : Slot) : Slot :=
  mkSlot (q_key sl) n (q_pending_normal sl) (q_pending_low sl) (q_chan sl) (q_closed sl)
    (q_normal sl) (q_low sl) (q_phase sl) (q_shutting_down sl) (q_accepted sl) (q_started sl)
    (q_lost sl) (q_snapshot sl) (q_raced sl).
Definition set_phase (p : WorkerPhase) (sl : Slot) : Slot :=
  mkSlot (q_key sl) (q_capacity sl) (q_pending_normal sl) (q_pending_low sl) (q_chan sl)
    (q_closed sl) (q_normal sl) (q_low sl) p (q_shutting_down sl) (q_accepted sl)
    (q_started sl) (q_lost sl) (q_snapshot sl) (q_raced sl).

(** ** References *)

Definition adm_slot (a : Admission K) : option nat :=
  match a with Checked _ => None | HasSlot s | HasKey s | HasBoth s => Some s end.

Definition adm_key_slot (a : Admission K) : option nat :=
  match a with HasKey s | HasBoth s => Some s | _ => None end.

Definition adm_global (a : Admission K) : bool :=
  match a with HasBoth _ => true | _ => false end.

Definition count_if (b : bool) : nat := if b then 1 else 0.

(** Admission calls holding the slot, those holding a key permit of it, those
    holding a global permit, and the reservations on a slot. *)
Definition adm_uses (s : nat) (m : gmap nat (Admission K)) : nat :=
  map_sum (λ a, count_if (bool_decide (adm_slot a = Some s))) m.
Definition adm_key_permits (s : nat) (m : gmap nat (Admission K)) : nat :=
  map_sum (λ a, count_if (bool_decide (adm_key_slot a = Some s))) m.
Definition adm_global_permits (m : gmap nat (Admission K)) : nat :=
  map_sum (λ a, count_if (adm_global a)) m.
Definition reservations_on (s : nat) (m : gmap nat nat) : nat :=
  map_sum (λ s', count_if (bool_decide (s' = s))) m.
Definition reservations_held (m : gmap nat nat) : nat := map_sum (λ _, 1) m.

(** [Arc::strong_count] of a slot with a live worker. *)
Definition strong_count (s : nat) (sl : Slot) (q : Queue) : nat :=
  count_if (bool_decide (qs_slots q !! q_key sl = Some s)) + 1
  + adm_uses s (qs_admissions q) + reservations_on s (qs_reservations q).

(** ** Admission *)

(** [slot_for]: the current slot of the key, or a new one with its worker.
    The entry is locked while a retirement evaluates its condition. *)
Definition slot_for (k : K) (fresh : nat) (q : Queue) : option (nat * Queue) :=
  match qs_slots q !! k with
  | Some s =>
      sl ← qs_arena q !! s;
      match q_phase sl with
      | SawNoPending false => None
      | _ => Some (s, q)
      end
  | None =>
      match qs_arena q !! fresh with
      | Some _ => None
      | None => Some (fresh, set_map (<[k := fresh]> (qs_slots q)) (set_slot fresh (slot_new k) q))
      end
  end.

(** Returning the permits an admission holds. *)
Definition release_key (s : nat) (q : Queue) : Queue :=
  match qs_arena q !! s with
  | Some sl => set_slot s (set_capacity (q_capacity sl + 1) sl) q
  | None => q
  end.
Definition release_global (q : Queue) : Queue := set_global (qs_global q + 1) q.

Definition drop_admission (a : nat) (adm : Admission K) (q : Queue) : Queue :=
  let q' := set_admissions (delete a (qs_admissions q)) q in
  match adm with
  | Checked _ | HasSlot _ => q'
  | HasKey s => release_key s q'
  | HasBoth s => release_global (release_key s q')
  end.

(** ** Dispatch *)

Definition queued_ahead (low : bool) (sl : Slot) : nat :=
  if low then pending_total sl else q_pending_normal sl.

Definition is_saw_no_pending (p : WorkerPhase) : bool :=
  match p with SawNoPending _ => true | _ => false end.

(** [Reservation::dispatch]: the receipt, and the slot with the item sent. *)
Definition dispatch (low : bool) (w : nat) (sl : Slot) : Result (nat * Slot) AdmissionError :=
  if q_closed sl || negb (Nat.ltb (length (q_chan sl)) (per_key limits)) then Err DispatchClosed
  else Ok (queued_ahead low sl,
    mkSlot (q_key sl) (q_capacity sl)
      (if low then q_pending_normal sl else q_pending_normal sl + 1)
      (if low then q_pending_low sl + 1 else q_pending_low sl)
      (q_chan sl ++ [(low, w)]) (q_closed sl) (q_normal sl) (q_low sl) (q_phase sl)
      (q_shutting_down sl) (q_accepted sl ++ [(low, w)]) (q_started sl) (q_lost sl)
      (q_snapshot sl) (q_raced sl || is_saw_no_pending (q_phase sl))).

(** ** The worker *)

(** [push_item], with the rest of the channel. *)
Definition push_item (it : PriorityItem) (rest : list PriorityItem) (p : WorkerPhase) (sl : Slot)
    : Slot :=
  mkSlot (q_key sl) (q_capacity sl) (q_pending_normal sl) (q_pending_low sl) rest (q_closed sl)
    (if it.1 then q_normal sl else q_normal sl ++ [it.2])
    (if it.1 then q_low sl ++ [it.2] else q_low sl)
    p (q_shutting_down sl) (q_accepted sl) (q_started sl) (q_lost sl) (q_snapshot sl) (q_raced sl).

(** The channel was found empty: everything accepted so far is in the deques. *)
Definition end_drain (sl : Slot) : Slot :=
  mkSlot (q_key sl) (q_capacity sl) (q_pending_normal sl) (q_pending_low sl) (q_chan sl)
    (q_closed sl) (q_normal sl) (q_low sl) Picking (q_shutting_down sl) (q_accepted sl)
    (q_started sl) (q_lost sl) (length (q_accepted sl)) (q_raced sl).

(** [execute_item] up to the await: the counter is decremented and both
    permits are released before the work runs. *)
Definition execute_item (low : bool) (w : nat) (n l : list nat) (sl : Slot) : Slot :=
  mkSlot (q_key sl) (q_capacity sl + 1)
    (if low then q_pending_normal sl else q_pending_normal sl - 1)
    (if low then q_pending_low sl - 1 else q_pending_low sl)
    (q_chan sl) (q_closed sl) n l (Executing w) (q_shutting_down sl) (q_accepted sl)
    (q_started sl ++ [(low, w)]) (q_lost sl) (q_snapshot sl) (q_raced sl).

Definition start_shutdown (sl : Slot) : Slot :=
  mkSlot (q_key sl) (q_capacity sl) (q_pending_normal sl) (q_pending_low sl) (q_chan sl)
    (q_closed sl) (q_normal sl) (q_low sl) Draining true (q_accepted sl) (q_started sl)
    (q_lost sl) (q_snapshot sl) (q_raced sl).

(** The condition's first half was read; the race flag starts over. *)
Definition saw_no_pending (shutdown : bool) (sl : Slot) : Slot :=
  mkSlot (q_key sl) (q_capacity sl) (q_pending_normal sl) (q_pending_low sl) (q_chan sl)
    (q_closed sl) (q_normal sl) (q_low sl) (SawNoPending shutdown) (q_shutting_down sl)
    (q_accepted sl) (q_started sl) (q_lost sl) (q_snapshot sl) false.

Definition close_receiver (sl : Slot) : Slot :=
  mkSlot (q_key sl) (q_capacity sl) (q_pending_normal sl) (q_pending_low sl) (q_chan sl)
    true (q_normal sl) (q_low sl) Closing (q_shutting_down sl) (q_accepted sl) (q_started sl)
    (q_lost sl) (q_snapshot sl) (q_raced sl).

(** The worker returns: its receiver is dropped with whatever it still holds,
    which releases those items' permits. *)
Definition stop_worker (sl : Slot) : Slot :=
  mkSlot (q_key sl) (q_capacity sl + length (q_chan sl)) (q_pending_normal sl)
    (q_pending_low sl) [] true (q_normal sl) (q_low sl) Stopped (q_shutting_down sl)
    (q_accepted sl) (q_started sl) (q_lost sl ++ q_chan sl) (q_snapshot sl) (q_raced sl).

Definition stop_slot (s : nat) (sl : Slot) (q : Queue) : Queue :=
  set_global (qs_global q + length (q_chan sl))
    (set_map (delete (q_key sl) (qs_slots q)) (set_slot s (stop_worker sl) q)).

(** What the worker of a slot does next: receive, pick, finish an item, or,
    when waiting, be woken ([WRecv], [WNotified]), see the shutdown, or
    evaluate the condition to retire. *)
Inductive WorkerAction :=
| WDrain | WPick | WDone | WRecv | WNotified | WShutdown | WCheckPending | WCheckCount | WRemove.

Definition worker_step (act : WorkerAction) (s : nat) (sl : Slot) (q : Queue) : option Queue :=
  match act, q_phase sl with
  | WDrain, Draining =>
      Some (match q_chan sl with
            | it :: rest => set_slot s (push_item it rest Draining sl) q
            | [] => set_slot s (end_drain sl) q
            end)
  | WPick, Picking =>
      Some (match q_normal sl, q_low sl with
            | w :: n, l => release_global (set_slot s (execute_item false w n l sl) q)
            | [], w :: l => release_global (set_slot s (execute_item true w [] l sl) q)
            | [], [] => set_slot s (set_phase Waiting sl) q
            end)
  | WDone, Executing _ => Some (set_slot s (set_phase Draining sl) q)
  | WRecv, Waiting =>
      match q_chan sl with
      | it :: rest => Some (set_slot s (push_item it rest Draining sl) q)
      | [] => None
      end
  | WNotified, Waiting =>
      if q_shutting_down sl then Some (set_slot s (set_phase Draining sl) q) else None
  | WShutdown, Waiting =>
      if negb (q_shutting_down sl) && qs_shutdown q
      then Some (set_slot s (start_shutdown sl) q) else None
  | WCheckPending, Waiting =>
      Some (if Nat.eqb (pending_total sl) 0
            then set_slot s (saw_no_pending (q_shutting_down sl) sl) q
            else set_slot s (set_phase (if q_shutting_down sl then Waiting else Draining) sl) q)
  | WCheckCount, SawNoPending shutdown =>
      Some (if Nat.eqb (strong_count s sl q) 2
            then if shutdown then set_slot s (close_receiver sl) q else stop_slot s sl q
            else set_slot s (set_phase (if shutdown then Waiting else Draining) sl) q)
  | WRemove, Closing => Some (stop_slot s sl q)
  | _, _ => None
  end.

(** * The system *)

Inductive Label :=
| LCheck (a : nat) (k : K)                 (* an admission call passes its first check *)
| LSlot (a : nat) (fresh : nat)            (* it gets its slot *)
| LAcquireKey (a : nat)
| LAcquireGlobal (a : nat)
| LAdmit (a r : nat)                       (* it returns a reservation *)
| LRejectKey (a : nat)                     (* [PerKeyFull] *)
| LRejectGlobal (a : nat)                  (* [GlobalFull] *)
| LAbort (a : nat)                         (* [ShuttingDown], or the call is dropped *)
| LSubmit (r : nat) (low : bool) (w : nat)
| LDropReservation (r : nat)
| LWorker (s : nat) (act : WorkerAction)
| LShutdown.

Definition qstep (l : Label) (q : Queue) : option Queue :=
  match l with
  | LCheck a k =>
      match qs_admissions q !! a with
      | Some _ => None
      | None => if qs_shutdown q then None
                else Some (set_admissions (<[a := Checked k]> (qs_admissions q)) q)
      end
  | LSlot a fresh =>
      match qs_admissions q !! a with
      | Some (Checked k) =>
          '(s, q') ← slot_for k fresh q;
          Some (set_admissions (<[a := HasSlot s]> (qs_admissions q')) q')
      | _ => None
      end
  | LAcquireKey a =>
      match qs_admissions q !! a with
      | Some (HasSlot s) =>
          sl ← qs_arena q !! s;
          match q_capacity sl with
          | S n => Some (set_slot s (set_capacity n sl)
                     (set_admissions (<[a := HasKey s]> (qs_admissions q)) q))
          | O => None
          end
      | _ => None
      end
  | LAcquireGlobal a =>
      match qs_admissions q !! a, qs_global q with
      | Some (HasKey s), S n =>
          Some (set_global n (set_admissions (<[a := HasBoth s]> (qs_admissions q)) q))
      | _, _ => None
      end
  | LAdmit a r =>
      match qs_admissions q !! a, qs_reservations q !! r with
      | Some (HasBoth s), None =>
          if qs_shutdown q then None
          else Some (set_reservations (<[r := s]> (qs_reservations q))
                 (set_admissions (delete a (qs_admissions q)) q))
      | _, _ => None
      end
  | LRejectKey a =>
      match qs_admissions q !! a with
      | Some (HasSlot s) =>
          sl ← qs_arena q !! s;
          if Nat.eqb (q_capacity sl) 0
          then Some (reject (drop_admission a (HasSlot s) q)) else None
      | _ => None
      end
  | LRejectGlobal a =>
      match qs_admissions q !! a with
      | Some (HasKey s) =>
          if Nat.eqb (qs_global q) 0
          then Some (reject (drop_admission a (HasKey s) q)) else None
      | _ => None
      end
  | LAbort a =>
      adm ← qs_admissions q !! a; Some (drop_admission a adm q)
  | LSubmit r low w =>
      s ← qs_reservations q !! r;
      sl ← qs_arena q !! s;
      let q' := set_reservations (delete r (qs_reservations q)) q in
      match dispatch low w sl with
      | Ok (_, sl') => Some (set_slot s sl' q')
      | Err _ => Some (release_global (release_key s q'))
      end
  | LDropReservation r =>
      s ← qs_reservations q !! r;
      Some (release_global (release_key s (set_reservations (delete r (qs_reservations q)) q)))
  | LWorker s act => sl ← qs_arena q !! s; worker_step act s sl q
  | LShutdown =>
      Some (mkQueue (qs_arena q) (qs_slots q) (qs_global q) true (qs_rejections q)
              (qs_admissions q) (qs_reservations q))
  end.

Fixpoint qrun (ls : list Label) (q : Queue) : option Queue :=
  match ls with
  | [] => Some q
  | l :: ls' => q' ← qstep l q; qrun ls' q'
  end.

Definition queue_reachable (q : Queue) : Prop := ∃ ls, qrun ls queue_new = Some q.

(** * Invariant *)

(** The work of one priority in a list of items. *)
Definition of_prio (low : bool) (l : list PriorityItem) : list nat :=
  snd <$> filter (λ it, it.1 = low) l.

Definition deque (low : bool) (sl : Slot) : list nat := if low then q_low sl else q_normal sl.
Definition pending (low : bool) (sl : Slot) : nat :=
  if low then q_pending_low sl else q_pending_normal sl.

(** Accepted items that hold their permits. *)
Definition queued (sl : Slot) : nat :=
  length (q_chan sl) + length (q_normal sl) + length (q_low sl).

Definition idle_phase (p : WorkerPhase) : bool :=
  match p with Waiting | SawNoPending _ | Closing | Stopped => true | _ => false end.
Definition closed_phase (p : WorkerPhase) : bool :=
  match p with Closing | Stopped => true | _ => false end.
Definition checked_phase (p : WorkerPhase) : bool :=
  match p with SawNoPending _ | Closing => true | _ => false end.

Record slot_ok (sl : Slot) : Prop := {
  so_fifo low : of_prio low (q_accepted sl) =
    of_prio low (q_started sl) ++ deque low sl ++ of_prio low (q_chan sl) ++ of_prio low (q_lost sl);
  so_pending low : q_phase sl ≠ Stopped →
    pending low sl = length (deque low sl) + length (of_prio low (q_chan sl));
  so_idle : idle_phase (q_phase sl) = true → q_normal sl = [] ∧ q_low sl = [];
  so_lost : q_phase sl ≠ Stopped → q_lost sl = [];
  so_raced : checked_phase (q_phase sl) = true → q_raced sl = false → q_chan sl = [];
  so_lost_raced : q_lost sl ≠ [] → q_raced sl = true;
  so_picking low : q_phase sl = Picking →
    of_prio low (take (q_snapshot sl) (q_accepted sl)) = of_prio low (q_started sl) ++ deque low sl;
  so_snapshot : q_phase sl = Picking → q_snapshot sl ≤ length (q_accepted sl);
  so_closed : q_closed sl = closed_phase (q_phase sl);
  so_closing : q_phase sl = Closing ∨ q_phase sl = SawNoPending true → q_shutting_down sl = true;
  so_stopped : q_phase sl = Stopped → q_chan sl = [];
}.

Record queue_ok (q : Queue) : Prop := {
  qo_slot s sl : qs_arena q !! s = Some sl → slot_ok sl;
  qo_key s sl : qs_arena q !! s = Some sl →
    q_capacity sl + adm_key_permits s (qs_admissions q)
    + reservations_on s (qs_reservations q) + queued sl = per_key limits;
  qo_global : qs_global q + adm_global_permits (qs_admissions q)
    + reservations_held (qs_reservations q) + map_sum queued (qs_arena q) = total limits;
  qo_live s sl : qs_arena q !! s = Some sl → q_phase sl ≠ Stopped →
    qs_slots q !! q_key sl = Some s;
  qo_map k s : qs_slots q !! k = Some s →
    ∃ sl, qs_arena q !! s = Some sl ∧ q_key sl = k ∧ q_phase sl ≠ Stopped;
  qo_adm a adm s : qs_admissions q !! a = Some adm → adm_slot adm = Some s →
    is_Some (qs_arena q !! s);
  qo_res r s : qs_reservations q !! r = Some s → is_Some (qs_arena q !! s);
  qo_closed s sl : qs_arena q !! s = Some sl → q_closed sl = true →
    reservations_on s (qs_reservations q) = 0 ∧
    (qs_shutdown q = true ∨ adm_uses s (qs_admissions q) = 0);
  qo_shutting s sl : qs_arena q !! s = Some sl → q_shutting_down sl = true → qs_shutdown q = true;
}.

(** ** Counting *)

Lemma of_prio_app low l k : of_prio low (l ++ k) = of_prio low l ++ of_prio low k.
Proof using. unfold of_prio. by rewrite filter_app, fmap_app. Qed.

Lemma of_prio_cons low it l :
  of_prio low (it :: l) = if Bool.eqb it.1 low then it.2 :: of_prio low l else of_prio low l.
Proof using.
  unfold of_prio. rewrite filter_cons. destruct (Bool.eqb_spec it.1 low).
  - by rewrite decide_True.
  - by rewrite decide_False.
Qed.

Lemma of_prio_length l : length (of_prio false l) + length (of_prio true l) = length l.
Proof using.
  induction l as [|[[] w] l IH]; [done|..]; rewrite !of_prio_cons; simpl; lia.
Qed.

Lemma keys_le_uses s m : adm_key_permits s m ≤ adm_uses s m.
Proof using.
  unfold adm_key_permits, adm_uses. induction m as [|i x m Hi IH] using map_ind;
    [by rewrite !map_sum_empty|].
  rewrite !map_sum_insert by done.
  destruct x as [k|s'|s'|s']; simpl; repeat case_bool_decide; simpl; try lia; done.
Qed.

(** ** The general update of one slot *)

Lemma queue_ok_update (q : Queue) s sl sl' g rej adms ress :
  queue_ok q → qs_arena q !! s = Some sl →
  slot_ok sl' → q_key sl' = q_key sl → (q_phase sl' = Stopped ↔ q_phase sl = Stopped) →
  q_capacity sl' + adm_key_permits s adms + reservations_on s ress + queued sl' =
    q_capacity sl + adm_key_permits s (qs_admissions q)
    + reservations_on s (qs_reservations q) + queued sl →
  (∀ s', s' ≠ s → adm_key_permits s' adms = adm_key_permits s' (qs_admissions q) ∧
     reservations_on s' ress = reservations_on s' (qs_reservations q) ∧
     adm_uses s' adms = adm_uses s' (qs_admissions q)) →
  g + adm_global_permits adms + reservations_held ress + queued sl' =
    qs_global q + adm_global_permits (qs_admissions q)
    + reservations_held (qs_reservations q) + queued sl →
  (∀ a adm s', adms !! a = Some adm → adm_slot adm = Some s' → is_Some (qs_arena q !! s')) →
  (∀ r s', ress !! r = Some s' → is_Some (qs_arena q !! s')) →
  (q_closed sl' = true →
     reservations_on s ress = 0 ∧ (qs_shutdown q = true ∨ adm_uses s adms = 0)) →
  (q_shutting_down sl' = true → qs_shutdown q = true) →
  queue_ok (mkQueue (<[s := sl']> (qs_arena q)) (qs_slots q) g (qs_shutdown q) rej adms ress).
Proof using.
  intros Hok Hs Hok' Hkey Hst Hcap Hother Hg Hadm Hres Hcl Hsh.
  split; simpl.
  - intros s0 sl0 [[<- <-]|[_ H0]]%lookup_insert_Some; [done|by eapply qo_slot].
  - intros s0 sl0 [[<- <-]|[Hne H0]]%lookup_insert_Some.
    + rewrite Hcap. by apply qo_key.
    + destruct (Hother s0) as (-> & -> & _); [done|]. by apply qo_key.
  - pose proof (map_sum_update queued _ _ _ sl' Hs). pose proof (qo_global _ Hok). lia.
  - intros s0 sl0 [[<- <-]|[_ H0]]%lookup_insert_Some Hp; [|by apply qo_live].
    rewrite Hkey. eapply qo_live; [done|done|]. naive_solver.
  - intros k s0 H0. destruct (qo_map _ Hok _ _ H0) as (sl0 & Hsl & Hk & Hp).
    destruct (decide (s0 = s)) as [->|]; [|exists sl0; by rewrite lookup_insert_ne].
    exists sl'. rewrite lookup_insert_eq. simplify_eq. naive_solver.
  - intros a adm s0 Ha Hs0. rewrite lookup_insert_is_Some'. right. by eapply Hadm.
  - intros r s0 Hr. rewrite lookup_insert_is_Some'. right. by eapply Hres.
  - intros s0 sl0 [[<- <-]|[Hne H0]]%lookup_insert_Some Hc; [by apply Hcl|].
    destruct (Hother s0) as (_ & -> & ->); [done|]. by eapply qo_closed.
  - intros s0 sl0 [[<- <-]|[Hne H0]]%lookup_insert_Some Hc; [auto|by eapply qo_shutting].
Qed.

(** A move of the worker that changes no permit. *)
Lemma queue_ok_local (q : Queue) s sl sl' :
  queue_ok q → qs_arena q !! s = Some sl →
  slot_ok sl' → q_key sl' = q_key sl → q_capacity sl' = q_capacity sl →
  queued sl' = queued sl → q_phase sl' ≠ Stopped → q_phase sl ≠ Stopped →
  q_closed sl' = q_closed sl →
  (q_shutting_down sl' = true → qs_shutdown q = true) →
  queue_ok (set_slot s sl' q).
Proof using.
  intros Hok Hs Hok' Hk Hc Hq Hp' Hp Hcl Hsh.
  apply (queue_ok_update q s sl sl'); try done; try lia.
  - apply Hok.
  - apply Hok.
  - rewrite Hcl. by apply qo_closed.
Qed.

(** ** Each change of a slot keeps it well-formed *)

Ltac slot_split := split; unfold deque, pending in *; simpl in *; try done; auto;
  try (by intros [|]).

Lemma slot_ok_new k : slot_ok (slot_new k).
Proof using. slot_split; intros []; done. Qed.

Lemma slot_ok_capacity n (sl : Slot) : slot_ok sl → slot_ok (set_capacity n sl).
Proof using. intros []. slot_split. Qed.

Lemma slot_ok_push it rest (sl : Slot) :
  slot_ok sl → q_phase sl = Draining ∨ q_phase sl = Waiting → q_chan sl = it :: rest →
  slot_ok (push_item it rest Draining sl).
Proof using.
  intros [H1 H2 H3 H4 H5 H6 H7 H8 H9 H10 H11] Hp Hc.
  assert (q_phase sl ≠ Stopped) as Hns by (intros E; rewrite E in Hp; naive_solver).
  slot_split.
  - intros low. rewrite H1, Hc, of_prio_cons.
    destruct it as [[] w], low; simpl; rewrite <-?app_assoc; done.
  - intros low _. rewrite H2, Hc, of_prio_cons by done.
    destruct it as [[] w], low; simpl; rewrite ?length_app; simpl; lia.
  - rewrite H9. destruct Hp as [-> | ->]; done.
Qed.

Lemma slot_ok_end_drain (sl : Slot) :
  slot_ok sl → q_phase sl = Draining → q_chan sl = [] → slot_ok (end_drain sl).
Proof using.
  intros [H1 H2 H3 H4 H5 H6 H7 H8 H9 H10 H11] Hp Hc. rewrite Hp in *. slot_split.
  intros low _. rewrite firstn_all, H1, Hc, H4 by done.
  change (of_prio low []) with (@nil nat). by rewrite !app_nil_r.
Qed.

Lemma slot_ok_execute (low : bool) w n l (sl : Slot) :
  slot_ok sl → q_phase sl = Picking →
  (if low then q_normal sl = [] ∧ n = [] ∧ q_low sl = w :: l
   else q_normal sl = w :: n ∧ l = q_low sl) →
  slot_ok (execute_item low w n l sl).
Proof using.
  intros [H1 H2 H3 H4 H5 H6 H7 H8 H9 H10 H11] Hp Hd. rewrite Hp in *.
  split; simpl; try done; auto; try (by intros [|]).
  - intros p. specialize (H1 p). rewrite H1, of_prio_app. unfold deque in *. simpl.
    destruct low; [destruct Hd as (Hn & -> & Hl)|destruct Hd as [Hn ->]];
      destruct p; simpl; rewrite ?Hn, ?Hl, <-?app_assoc; done.
  - intros p _. specialize (H2 p). unfold deque, pending in *. simpl.
    destruct low; [destruct Hd as (Hn & -> & Hl)|destruct Hd as [Hn ->]];
      destruct p; simpl; rewrite ?Hn, ?Hl in *; simpl in *; rewrite H2 by done; lia.
Qed.

(** Moving between phases of the loop in which nothing is decided. *)
Lemma slot_ok_to_draining (sl : Slot) :
  slot_ok sl → closed_phase (q_phase sl) = false → slot_ok (set_phase Draining sl).
Proof using.
  intros [H1 H2 H3 H4 H5 H6 H7 H8 H9 H10 H11] Hc.
  assert (q_phase sl ≠ Stopped) as Hns by (intros E; by rewrite E in Hc).
  slot_split. by rewrite H9.
Qed.

Lemma slot_ok_to_waiting (sl : Slot) :
  slot_ok sl → closed_phase (q_phase sl) = false → q_normal sl = [] → q_low sl = [] →
  slot_ok (set_phase Waiting sl).
Proof using.
  intros [H1 H2 H3 H4 H5 H6 H7 H8 H9 H10 H11] Hc Hn Hl.
  assert (q_phase sl ≠ Stopped) as Hns by (intros E; by rewrite E in Hc).
  slot_split. by rewrite H9.
Qed.

Lemma slot_ok_start_shutdown (sl : Slot) :
  slot_ok sl → q_phase sl = Waiting → slot_ok (start_shutdown sl).
Proof using.
  intros [H1 H2 H3 H4 H5 H6 H7 H8 H9 H10 H11] Hp. rewrite Hp in *. slot_split.
Qed.

Lemma slot_ok_saw (sl : Slot) :
  slot_ok sl → q_phase sl = Waiting → pending_total sl = 0 →
  slot_ok (saw_no_pending (q_shutting_down sl) sl).
Proof using.
  intros [H1 H2 H3 H4 H5 H6 H7 H8 H9 H10 H11] Hp Ht. rewrite Hp in *.
  assert (q_chan sl = []) as Hc.
  { apply nil_length_inv. rewrite <-of_prio_length. unfold pending_total in Ht.
    pose proof (H2 false ltac:(done)). pose proof (H2 true ltac:(done)).
    unfold pending in *. simpl in *. lia. }
  slot_split. by intros [|[= E]].
Qed.

Lemma slot_ok_close (sl : Slot) :
  slot_ok sl → q_phase sl = SawNoPending true → slot_ok (close_receiver sl).
Proof using.
  intros [H1 H2 H3 H4 H5 H6 H7 H8 H9 H10 H11] Hp. rewrite Hp in *. slot_split.
Qed.

Lemma slot_ok_stop (sl : Slot) :
  slot_ok sl → checked_phase (q_phase sl) = true → slot_ok (stop_worker sl).
Proof using.
  intros [H1 H2 H3 H4 H5 H6 H7 H8 H9 H10 H11] Hp.
  assert (idle_phase (q_phase sl) = true) as Hi by by destruct (q_phase sl).
  assert (q_phase sl ≠ Stopped) as Hns by (intros E; by rewrite E in Hp).
  destruct (H3 Hi) as [Hn Hl]. slot_split.
  - intros low. rewrite H1, of_prio_app, H4 by done. simpl.
    change (of_prio low []) with (@nil nat). by rewrite app_nil_r.
  - rewrite H4 by done. simpl. intros Hc. destruct (q_raced sl) eqn:Er; [done|].
    by rewrite H5 in Hc.
Qed.

Lemma slot_ok_dispatch low w n (sl sl' : Slot) :
  slot_ok sl → dispatch low w sl = Ok (n, sl') → slot_ok sl'.
Proof using.
  intros [H1 H2 H3 H4 H5 H6 H7 H8 H9 H10 H11] Hd. unfold dispatch in Hd.
  destruct (q_closed sl) eqn:Ecl; [done|]. simpl in Hd.
  destruct (Nat.ltb (length (q_chan sl)) (per_key limits)); [|done]. simpl in Hd.
  injection Hd as <- <-.
  assert (q_phase sl ≠ Stopped) as Hns by (intros E; by rewrite E in H9).
  split; unfold deque, pending in *; simpl; try done.
  - intros p. rewrite !of_prio_app, H1, H4 by done. change (of_prio p []) with (@nil nat).
    rewrite !app_nil_r, <-!app_assoc. done.
  - intros p _. specialize (H2 p Hns). rewrite of_prio_app, length_app, of_prio_cons.
    destruct low, p; simpl in *; lia.
  - intros Hc Hr. apply orb_false_iff in Hr as [_ Hr].
    destruct (q_phase sl); simpl in *; try done; congruence.
  - intros Hl. by rewrite H6.
  - intros p Hp. rewrite take_app_le by auto. auto.
  - intros Hp. rewrite length_app. specialize (H8 Hp). lia.
Qed.

(** ** Counting through the maps *)

Lemma adm_insert_counts a adm (m : gmap nat (Admission K)) s :
  m !! a = None →
  adm_uses s (<[a := adm]> m) = count_if (bool_decide (adm_slot adm = Some s)) + adm_uses s m ∧
  adm_key_permits s (<[a := adm]> m) =
    count_if (bool_decide (adm_key_slot adm = Some s)) + adm_key_permits s m ∧
  adm_global_permits (<[a := adm]> m) = count_if (adm_global adm) + adm_global_permits m.
Proof using.
  intros Ha. unfold adm_uses, adm_key_permits, adm_global_permits.
  by rewrite !map_sum_insert by done.
Qed.

Lemma adm_delete_counts a adm (m : gmap nat (Admission K)) s :
  m !! a = Some adm →
  adm_uses s m = count_if (bool_decide (adm_slot adm = Some s)) + adm_uses s (delete a m) ∧
  adm_key_permits s m =
    count_if (bool_decide (adm_key_slot adm = Some s)) + adm_key_permits s (delete a m) ∧
  adm_global_permits m = count_if (adm_global adm) + adm_global_permits (delete a m).
Proof using.
  intros Ha. unfold adm_uses, adm_key_permits, adm_global_permits.
  rewrite <-!(map_sum_delete _ m a adm Ha). done.
Qed.

(** Replacing an admission call's state. *)
Lemma adm_update_counts a adm adm' (m : gmap nat (Admission K)) s :
  m !! a = Some adm →
  count_if (bool_decide (adm_slot adm = Some s)) + adm_uses s (<[a := adm']> m) =
    count_if (bool_decide (adm_slot adm' = Some s)) + adm_uses s m ∧
  count_if (bool_decide (adm_key_slot adm = Some s)) + adm_key_permits s (<[a := adm']> m) =
    count_if (bool_decide (adm_key_slot adm' = Some s)) + adm_key_permits s m ∧
  count_if (adm_global adm) + adm_global_permits (<[a := adm']> m) =
    count_if (adm_global adm') + adm_global_permits m.
Proof using.
  intros Ha. unfold adm_uses, adm_key_permits, adm_global_permits.
  split_and!.
  - exact (map_sum_update (λ a, count_if (bool_decide (adm_slot a = Some s))) m a adm adm' Ha).
  - exact (map_sum_update (λ a, count_if (bool_decide (adm_key_slot a = Some s))) m a adm adm' Ha).
  - exact (map_sum_update (λ a, count_if (adm_global a)) m a adm adm' Ha).
Qed.

Lemma res_insert_counts r s0 (m : gmap nat nat) s :
  m !! r = None →
  reservations_on s (<[r := s0]> m) = count_if (bool_decide (s0 = s)) + reservations_on s m ∧
  reservations_held (<[r := s0]> m) = 1 + reservations_held m.
Proof using.
  intros Hr. unfold reservations_on, reservations_held. by rewrite !map_sum_insert by done.
Qed.

Lemma res_delete_counts r s0 (m : gmap nat nat) s :
  m !! r = Some s0 →
  reservations_on s m = count_if (bool_decide (s0 = s)) + reservations_on s (delete r m) ∧
  reservations_held m = 1 + reservations_held (delete r m).
Proof using.
  intros Hr. unfold reservations_on, reservations_held.
  rewrite <-!(map_sum_delete _ m r s0 Hr). done.
Qed.

Lemma count_if_eq (s : nat) : count_if (bool_decide (Some s = Some s)) = 1.
Proof using. by rewrite bool_decide_eq_true_2. Qed.
Lemma count_if_ne (s s' : nat) : s' ≠ s → count_if (bool_decide (Some s = Some s')) = 0.
Proof using. intros Hs. by rewrite bool_decide_eq_false_2 by congruence. Qed.
Lemma count_if_eq' (s : nat) : count_if (bool_decide (s = s)) = 1.
Proof using. by rewrite bool_decide_eq_true_2. Qed.
Lemma count_if_ne' (s s' : nat) : s' ≠ s → count_if (bool_decide (s = s')) = 0.
Proof using. intros Hs. by rewrite bool_decide_eq_false_2 by congruence. Qed.

(** A slot with a reservation or a reserving call is not closed. *)
Lemma reserved_open (q : Queue) r s sl :
  queue_ok q → qs_reservations q !! r = Some s → qs_arena q !! s = Some sl → q_closed sl = false.
Proof using.
  intros Hok Hr Hs. destruct (q_closed sl) eqn:E; [|done]. exfalso.
  destruct (qo_closed _ Hok _ _ Hs E) as [H0 _].
  destruct (res_delete_counts r s _ s Hr) as [H1 _]. rewrite count_if_eq' in H1. lia.
Qed.

(** The last two references to a slot are the map's and the worker's. *)
Lemma strong_count_two s sl (q : Queue) :
  queue_ok q → qs_arena q !! s = Some sl → q_phase sl ≠ Stopped →
  strong_count s sl q = 2 →
  adm_uses s (qs_admissions q) = 0 ∧ reservations_on s (qs_reservations q) = 0.
Proof using.
  intros Hok Hs Hp. unfold strong_count. rewrite (qo_live _ Hok _ _ Hs Hp), count_if_eq. lia.
Qed.

(** ** Each action preserves the invariant *)

Lemma queue_ok_new : queue_ok queue_new.
Proof using.
  split; simpl; intros; rewrite ?lookup_empty in *; try done.
  unfold adm_global_permits, reservations_held. rewrite !map_sum_empty. lia.
Qed.

Lemma queue_ok_release_key_adm (q : Queue) s sl g rej adms :
  queue_ok q → qs_arena q !! s = Some sl →
  (∀ s', adm_key_permits s' (qs_admissions q) =
     (if decide (s' = s) then 1 else 0) + adm_key_permits s' adms) →
  (∀ s', adm_uses s' adms ≤ adm_uses s' (qs_admissions q)) →
  (∀ s', s' ≠ s → adm_uses s' adms = adm_uses s' (qs_admissions q)) →
  g + adm_global_permits adms = qs_global q + adm_global_permits (qs_admissions q) →
  (∀ a adm s', adms !! a = Some adm → adm_slot adm = Some s' → is_Some (qs_arena q !! s')) →
  queue_ok (mkQueue (<[s := set_capacity (q_capacity sl + 1) sl]> (qs_arena q)) (qs_slots q) g
              (qs_shutdown q) rej adms (qs_reservations q)).
Proof using.
  intros Hok Hs Hk Hu Hu' Hg Hadm.
  apply (queue_ok_update q s sl); try done.
  - apply slot_ok_capacity. by eapply qo_slot.
  - specialize (Hk s). rewrite decide_True in Hk by done. unfold queued. simpl. lia.
  - intros s' Hne. specialize (Hk s'). rewrite decide_False in Hk by done.
    rewrite Hu' by done. by split_and!; [lia|..].
  - unfold queued. simpl. lia.
  - apply Hok.
  - simpl. intros Hc. destruct (qo_closed _ Hok _ _ Hs Hc) as [? [?|H0]]; [auto|].
    specialize (Hu s). split; [done|]. right. lia.
  - simpl. by eapply qo_shutting.
Qed.

(** Admissions and reservations change, no slot does. *)
Lemma queue_ok_frame (q : Queue) g rej adms ress :
  queue_ok q →
  (∀ s, adm_key_permits s adms + reservations_on s ress =
        adm_key_permits s (qs_admissions q) + reservations_on s (qs_reservations q)) →
  g + adm_global_permits adms + reservations_held ress =
    qs_global q + adm_global_permits (qs_admissions q) + reservations_held (qs_reservations q) →
  (∀ a adm s', adms !! a = Some adm → adm_slot adm = Some s' → is_Some (qs_arena q !! s')) →
  (∀ r s', ress !! r = Some s' → is_Some (qs_arena q !! s')) →
  (∀ s sl, qs_arena q !! s = Some sl → q_closed sl = true →
     reservations_on s ress = 0 ∧ (qs_shutdown q = true ∨ adm_uses s adms = 0)) →
  queue_ok (mkQueue (qs_arena q) (qs_slots q) g (qs_shutdown q) rej adms ress).
Proof using.
  intros Hok Hk Hg Hadm Hres Hcl. destruct Hok as [H1 H2 H3 H4 H5 H6 H7 H8 H9].
  split; simpl; try done.
  - intros s sl Hs. rewrite <-(H2 s sl Hs). specialize (Hk s). lia.
  - rewrite <-H3. lia.
Qed.

Lemma queue_ok_check a k (q q' : Queue) : qstep (LCheck a k) q = Some q' → queue_ok q → queue_ok q'.
Proof using.
  simpl. destruct (qs_admissions q !! a) eqn:Ea; [done|]. destruct (qs_shutdown q) eqn:Es; [done|].
  intros [= <-] Hok.
  assert (∀ s, adm_uses s (<[a:=Checked k]> (qs_admissions q)) = adm_uses s (qs_admissions q) ∧
    adm_key_permits s (<[a:=Checked k]> (qs_admissions q)) = adm_key_permits s (qs_admissions q) ∧
    adm_global_permits (<[a:=Checked k]> (qs_admissions q)) = adm_global_permits (qs_admissions q))
    as Hc.
  { intros s. by destruct (adm_insert_counts a (Checked k) _ s Ea) as (-> & -> & ->). }
  apply queue_ok_frame; try done.
  - intros s. by destruct (Hc s) as (_ & -> & _).
  - by destruct (Hc 0) as (_ & _ & ->).
  - intros a' adm s' [[_ <-]|[_ Ha]]%lookup_insert_Some Hs; [done|by eapply qo_adm].
  - apply Hok.
  - intros s sl Hs Hcl. destruct (Hc s) as (-> & _). by eapply qo_closed.
Qed.

(** The slot an admission call gets: the current one, or a new one. *)
Lemma slot_for_ok k fresh s (q q' : Queue) :
  slot_for k fresh q = Some (s, q') → queue_ok q →
  queue_ok q' ∧ qs_admissions q' = qs_admissions q ∧
  ∃ sl, qs_arena q' !! s = Some sl ∧ q_phase sl ≠ Stopped.
Proof using.
  unfold slot_for. intros Hsf Hok. destruct (qs_slots q !! k) as [s0|] eqn:Ek.
  { destruct (qo_map _ Hok _ _ Ek) as (sl & Hs & _ & Hp). rewrite Hs in Hsf. simpl in Hsf.
    destruct (q_phase sl) as [| | | |[]| |] eqn:Ep; simplify_eq; eauto 10 with congruence. }
  destruct (qs_arena q !! fresh) eqn:Ef; [done|]. injection Hsf as <- <-.
  assert (adm_key_permits fresh (qs_admissions q) = 0 ∧ adm_uses fresh (qs_admissions q) = 0)
    as [Hk0 Hu0].
  { assert (adm_uses fresh (qs_admissions q) = 0) as Hu.
    { apply map_sum_zero. intros a adm Ha. rewrite bool_decide_eq_false_2; [done|].
      intros Hs. destruct (qo_adm _ Hok _ _ _ Ha Hs). congruence. }
    pose proof (keys_le_uses fresh (qs_admissions q)). lia. }
  assert (reservations_on fresh (qs_reservations q) = 0) as Hr0.
  { apply map_sum_zero. intros r s' Hr. rewrite bool_decide_eq_false_2; [done|].
    intros ->. destruct (qo_res _ Hok _ _ Hr). congruence. }
  split_and!; [|done|exists (slot_new k); simpl; by rewrite lookup_insert_eq].
  destruct Hok as [H1 H2 H3 H4 H5 H6 H7 H8 H9]. split; simpl.
  - intros s sl [[<- <-]|[_ Hs]]%lookup_insert_Some; [apply slot_ok_new|eauto].
  - intros s sl [[<- <-]|[_ Hs]]%lookup_insert_Some; [|eauto].
    rewrite Hk0, Hr0. unfold queued. simpl. lia.
  - by rewrite map_sum_insert.
  - intros s sl [[<- <-]|[Hne Hs]]%lookup_insert_Some Hp; simpl; [by rewrite lookup_insert_eq|].
    specialize (H4 _ _ Hs Hp). rewrite lookup_insert_ne; [done|]. intros ->. congruence.
  - intros k0 s [[<- <-]|[Hne Hs]]%lookup_insert_Some.
    + exists (slot_new k). by rewrite lookup_insert_eq.
    + destruct (H5 _ _ Hs) as (sl & Hsl & ? & ?). exists sl.
      rewrite lookup_insert_ne; [done|]. intros ->. congruence.
  - intros a adm s Ha Hs. rewrite lookup_insert_is_Some'. right. eauto.
  - intros r s Hr. rewrite lookup_insert_is_Some'. right. eauto.
  - intros s sl [[<- <-]|[_ Hs]]%lookup_insert_Some Hc; [done|eauto].
  - intros s sl [[<- <-]|[_ Hs]]%lookup_insert_Some Hc; [done|eauto].
Qed.

Lemma queue_ok_slot a fresh (q q' : Queue) :
  qstep (LSlot a fresh) q = Some q' → queue_ok q → queue_ok q'.
Proof using.
  simpl. destruct (qs_admissions q !! a) as [[k| | |]|] eqn:Ea; try done.
  destruct (slot_for k fresh q) as [[s q1]|] eqn:Es; [|done]. simpl. intros [= <-] Hok.
  destruct (slot_for_ok _ _ _ _ _ Es Hok) as (Hok1 & Eadm & sl & Hs & Hp).
  rewrite <-Eadm in Ea.
  pose proof (λ s', adm_update_counts a (Checked k) (HasSlot s) _ s' Ea) as Hc. simpl in Hc.
  apply queue_ok_frame; try done.
  - intros s'. destruct (Hc s') as (_ & H1 & _). simpl in H1. lia.
  - destruct (Hc 0) as (_ & _ & H1). simpl in H1. lia.
  - intros a' adm s' [[_ <-]|[_ Ha]]%lookup_insert_Some Hs'; [|by eapply qo_adm].
    injection Hs' as <-. eauto.
  - apply Hok1.
  - intros s' sl' Hs' Hcl. destruct (qo_closed _ Hok1 _ _ Hs' Hcl) as [? [?|H0]]; [auto|].
    split; [done|]. destruct (decide (s' = s)) as [->|Hne].
    + left. simplify_eq. pose proof (qo_slot _ Hok1 _ _ Hs) as Hso.
      rewrite (so_closed _ Hso) in Hcl. eapply qo_shutting; [done|exact Hs|].
      apply (so_closing _ Hso). destruct (q_phase sl); try done. by left.
    + right. destruct (Hc s') as (Hx & _). rewrite count_if_ne in Hx by done. lia.
Qed.

Lemma queue_ok_acquire_key a (q q' : Queue) :
  qstep (LAcquireKey a) q = Some q' → queue_ok q → queue_ok q'.
Proof using.
  simpl. destruct (qs_admissions q !! a) as [[|s| |]|] eqn:Ea; try done.
  destruct (qs_arena q !! s) as [sl|] eqn:Es; [|done]. simpl.
  destruct (q_capacity sl) as [|n] eqn:Ec; [done|]. intros [= <-] Hok.
  unfold set_slot, set_admissions; simpl.
  pose proof (λ s', adm_update_counts a (HasSlot s) (HasKey s) _ s' Ea) as Hc. simpl in Hc.
  apply (queue_ok_update q s sl); try done.
  - apply slot_ok_capacity. by eapply qo_slot.
  - destruct (Hc s) as (_ & Hx & _). rewrite count_if_eq in Hx. simpl in *. unfold queued. simpl.
    lia.
  - intros s' Hne. destruct (Hc s') as (Hx & Hy & _). rewrite !count_if_ne in Hx, Hy by done.
    simpl in *. by split_and!.
  - destruct (Hc 0) as (_ & _ & Hx). unfold queued. simpl in *. lia.
  - intros a' adm s' [[_ <-]|[_ Ha]]%lookup_insert_Some Hs'; [|by eapply qo_adm].
    injection Hs' as <-. eauto.
  - apply Hok.
  - simpl. intros Hcl. destruct (qo_closed _ Hok _ _ Es Hcl) as [Hr [Hsd|Hu]]; [by auto|].
    split; [done|right]. destruct (Hc s) as (Hx & _). rewrite count_if_eq in Hx. lia.
  - simpl. by eapply qo_shutting.
Qed.

Lemma queue_ok_acquire_global a (q q' : Queue) :
  qstep (LAcquireGlobal a) q = Some q' → queue_ok q → queue_ok q'.
Proof using.
  simpl. destruct (qs_admissions q !! a) as [[| |s|]|] eqn:Ea; try done.
  destruct (qs_global q) as [|n] eqn:Eg; [done|]. intros [= <-] Hok.
  unfold set_global, set_admissions; simpl.
  pose proof (λ s', adm_update_counts a (HasKey s) (HasBoth s) _ s' Ea) as Hc. simpl in Hc.
  apply queue_ok_frame; try done.
  - intros s'. destruct (Hc s') as (_ & Hx & _). lia.
  - destruct (Hc 0) as (_ & _ & Hx). simpl in Hx. lia.
  - intros a' adm s' [[_ <-]|[_ Ha]]%lookup_insert_Some Hs'; [|by eapply qo_adm].
    injection Hs' as <-. by eapply (qo_adm _ Hok).
  - apply Hok.
  - intros s' sl' Hs' Hcl. destruct (qo_closed _ Hok _ _ Hs' Hcl) as [Hr [Hsd|Hu]]; [by auto|].
    split; [done|right]. destruct (Hc s') as (Hx & _). lia.
Qed.

Lemma queue_ok_admit a r (q q' : Queue) :
  qstep (LAdmit a r) q = Some q' → queue_ok q → queue_ok q'.
Proof using.
  simpl. destruct (qs_admissions q !! a) as [[| | |s]|] eqn:Ea; try done.
  destruct (qs_reservations q !! r) eqn:Er; [done|]. destruct (qs_shutdown q) eqn:Esd; [done|].
  intros [= <-] Hok. unfold set_reservations, set_admissions. simpl.
  pose proof (λ s', adm_delete_counts a (HasBoth s) _ s' Ea) as Hc. simpl in Hc.
  pose proof (λ s', res_insert_counts r s _ s' Er) as Hd.
  apply queue_ok_frame; try done.
  - intros s'. destruct (Hc s') as (_ & Hx & _), (Hd s') as (Hy & _).
    rewrite Hx, Hy. repeat case_bool_decide; simpl; try lia; simplify_eq.
  - destruct (Hc 0) as (_ & _ & Hx), (Hd 0) as (_ & Hy). simpl in Hx. lia.
  - intros a' adm s' [_ Ha]%lookup_delete_Some. by eapply qo_adm.
  - intros r' s' [[_ <-]|[_ Hr]]%lookup_insert_Some; [by eapply (qo_adm _ Hok)|by eapply qo_res].
  - intros s' sl' Hs' Hcl. destruct (qo_closed _ Hok _ _ Hs' Hcl) as [Hr [Hsd|Hu]]; [congruence|].
    destruct (Hc s') as (Hx & _), (Hd s') as (Hy & _).
    destruct (decide (s' = s)) as [->|Hne]; [rewrite count_if_eq in Hx; lia|].
    rewrite count_if_ne in Hx by done. rewrite count_if_ne' in Hy by done.
    split; [lia|right; lia].
Qed.

(** An admission call ends without a reservation; its permits return. *)
Lemma queue_ok_drop_admission a adm (q : Queue) :
  qs_admissions q !! a = Some adm → queue_ok q → queue_ok (drop_admission a adm q).
Proof using.
  intros Ea Hok. pose proof (λ s', adm_delete_counts a adm _ s' Ea) as Hc.
  assert (∀ a' adm' s', delete a (qs_admissions q) !! a' = Some adm' →
    adm_slot adm' = Some s' → is_Some (qs_arena q !! s')) as Hadm.
  { intros a' adm' s' [_ Ha]%lookup_delete_Some. by eapply qo_adm. }
  assert (∀ s', adm_uses s' (delete a (qs_admissions q)) ≤ adm_uses s' (qs_admissions q)) as Hu.
  { intros s'. destruct (Hc s') as (Hx & _). lia. }
  assert (adm_key_slot adm = None →
    queue_ok (set_admissions (delete a (qs_admissions q)) q)) as Hno.
  { intros Hk. apply queue_ok_frame; try done.
    - intros s'. destruct (Hc s') as (_ & Hx & _). rewrite Hk in Hx. simpl in Hx. lia.
    - destruct (Hc 0) as (_ & _ & Hx). destruct adm; simpl in *; try done; lia.
    - apply Hok.
    - intros s' sl' Hs' Hcl. destruct (qo_closed _ Hok _ _ Hs' Hcl) as [Hr [Hsd|H0]]; [by auto|].
      specialize (Hu s'). split; [done|right; lia]. }
  assert (∀ s sl, adm_key_slot adm = Some s → adm_slot adm = Some s →
    qs_arena q !! s = Some sl →
    queue_ok (mkQueue (<[s := set_capacity (q_capacity sl + 1) sl]> (qs_arena q)) (qs_slots q)
      (qs_global q + count_if (adm_global adm)) (qs_shutdown q) (qs_rejections q)
      (delete a (qs_admissions q)) (qs_reservations q))) as Hyes.
  { intros s sl Hk Hs Es. apply queue_ok_release_key_adm; try done.
    - intros s'. destruct (Hc s') as (_ & -> & _). rewrite Hk.
      by case_bool_decide; case_decide; simplify_eq.
    - intros s' Hne. destruct (Hc s') as (Hx & _). rewrite Hs, count_if_ne in Hx by done. lia.
    - destruct (Hc 0) as (_ & _ & Hx). lia. }
  destruct adm as [k|s|s|s]; simpl in *; [by apply Hno..| |];
    destruct (qo_adm _ Hok _ _ _ Ea eq_refl) as [sl Es];
    unfold release_global, release_key; simpl; rewrite Es.
  - specialize (Hyes s sl eq_refl eq_refl Es). by rewrite Nat.add_0_r in Hyes.
  - by apply (Hyes s sl).
Qed.

Lemma queue_ok_reject (q : Queue) : queue_ok q → queue_ok (reject q).
Proof using. by intros []. Qed.

(** A reservation is given back, or its item takes over its permits. *)
Lemma queue_ok_use_reservation r s sl sl' g (q : Queue) :
  queue_ok q → qs_reservations q !! r = Some s → qs_arena q !! s = Some sl →
  slot_ok sl' → q_key sl' = q_key sl → q_phase sl' = q_phase sl →
  q_capacity sl' + queued sl' = q_capacity sl + queued sl + 1 →
  g + queued sl' = qs_global q + queued sl + 1 →
  q_closed sl' = q_closed sl → q_shutting_down sl' = q_shutting_down sl →
  queue_ok (mkQueue (<[s := sl']> (qs_arena q)) (qs_slots q) g (qs_shutdown q) (qs_rejections q)
              (qs_admissions q) (delete r (qs_reservations q))).
Proof using.
  intros Hok Hr Hs Hok' Hk Hp Hcap Hg Hcl Hsd.
  pose proof (λ s', res_delete_counts r s _ s' Hr) as Hc.
  apply (queue_ok_update q s sl); try done.
  - by rewrite Hp.
  - destruct (Hc s) as [Hx _]. rewrite count_if_eq' in Hx. lia.
  - intros s' Hne. destruct (Hc s') as [Hx _]. rewrite count_if_ne' in Hx by done.
    split_and!; try done.
  - destruct (Hc s) as [_ Hx]. lia.
  - apply Hok.
  - intros r' s' [_ Hr']%lookup_delete_Some. by eapply qo_res.
  - rewrite Hcl, (reserved_open _ _ _ _ Hok Hr Hs). done.
  - rewrite Hsd. by eapply qo_shutting.
Qed.

Lemma queue_ok_drop_reservation r (q q' : Queue) :
  qstep (LDropReservation r) q = Some q' → queue_ok q → queue_ok q'.
Proof using.
  simpl. destruct (qs_reservations q !! r) as [s|] eqn:Er; [|done]. simpl. intros [= <-] Hok.
  destruct (qo_res _ Hok _ _ Er) as [sl Es]. unfold release_global, release_key. simpl. rewrite Es.
  apply (queue_ok_use_reservation r s sl _ _ q); try done; unfold queued; simpl; try lia.
  apply slot_ok_capacity. by eapply qo_slot.
Qed.

(** A reservation's item is always accepted: its slot is open and the channel
    has room for every permit. *)
Lemma dispatch_accepts r s sl low w (q : Queue) :
  queue_ok q → qs_reservations q !! r = Some s → qs_arena q !! s = Some sl →
  ∃ sl', dispatch low w sl = Ok (queued_ahead low sl, sl').
Proof using.
  intros Hok Hr Hs. unfold dispatch. rewrite (reserved_open _ _ _ _ Hok Hr Hs). simpl.
  pose proof (qo_key _ Hok _ _ Hs) as Hk. destruct (res_delete_counts r s _ s Hr) as [Hx _].
  rewrite count_if_eq' in Hx. unfold queued in Hk.
  destruct (Nat.ltb_spec (length (q_chan sl)) (per_key limits)); [eauto|lia].
Qed.

Lemma queue_ok_submit r low w (q q' : Queue) :
  qstep (LSubmit r low w) q = Some q' → queue_ok q → queue_ok q'.
Proof using.
  simpl. destruct (qs_reservations q !! r) as [s|] eqn:Er; [|done]. simpl.
  destruct (qs_arena q !! s) as [sl|] eqn:Es; [|done]. simpl. intros Hq Hok.
  destruct (dispatch_accepts r s sl low w q Hok Er Es) as [sl' Hd]. rewrite Hd in Hq.
  pose proof (slot_ok_dispatch _ _ _ _ _ (qo_slot _ Hok _ _ Es) Hd) as Hok'.
  unfold dispatch in Hd. destruct (_ || _); [done|]. injection Hd as Hsl. injection Hq as <-.
  apply (queue_ok_use_reservation r s sl sl' _ q); try done; subst sl'; unfold queued; simpl;
    rewrite ?length_app; simpl; try lia; done.
Qed.

Lemma queue_ok_stop s sl (q : Queue) :
  queue_ok q → qs_arena q !! s = Some sl → checked_phase (q_phase sl) = true →
  reservations_on s (qs_reservations q) = 0 →
  (qs_shutdown q = true ∨ adm_uses s (qs_admissions q) = 0) →
  queue_ok (stop_slot s sl q).
Proof using.
  intros Hok Hs Hp Hr Hsd.
  assert (q_phase sl ≠ Stopped) as Hns by (intros E; by rewrite E in Hp).
  assert (qs_slots q !! q_key sl = Some s) as Hmap by by eapply qo_live.
  assert (queued sl = length (q_chan sl)) as Hqd.
  { destruct (so_idle _ (qo_slot _ Hok _ _ Hs)) as [Hn Hl]; [by destruct (q_phase sl)|].
    unfold queued. rewrite Hn, Hl. simpl. lia. }
  assert (queued (stop_worker sl) = 0) as Hq0.
  { destruct (so_idle _ (qo_slot _ Hok _ _ Hs)) as [Hn Hl]; [by destruct (q_phase sl)|].
    unfold queued. simpl. by rewrite Hn, Hl. }
  pose proof (slot_ok_stop _ (qo_slot _ Hok _ _ Hs) Hp) as Hst.
  destruct Hok as [H1 H2 H3 H4 H5 H6 H7 H8 H9]. split; simpl.
  - intros s0 sl0 [[<- <-]|[_ H0]]%lookup_insert_Some; eauto.
  - intros s0 sl0 [[<- <-]|[_ H0]]%lookup_insert_Some; [|eauto].
    rewrite Hq0. specialize (H2 _ _ Hs). rewrite Hqd in H2. simpl. lia.
  - pose proof (map_sum_update queued _ _ _ (stop_worker sl) Hs). lia.
  - intros s0 sl0 [[<- <-]|[Hne H0]]%lookup_insert_Some Hp0; [done|].
    specialize (H4 _ _ H0 Hp0). rewrite lookup_delete_ne; [done|]. intros E. congruence.
  - intros k s0 [Hne Hk]%lookup_delete_Some. destruct (H5 _ _ Hk) as (sl0 & Hsl0 & Hk0 & Hp0).
    exists sl0. rewrite lookup_insert_ne; [done|]. intros ->. congruence.
  - intros a adm s0 Ha Hs0. rewrite lookup_insert_is_Some'. right. eauto.
  - intros r s0 Hr0. rewrite lookup_insert_is_Some'. right. eauto.
  - intros s0 sl0 [[<- <-]|[_ H0]]%lookup_insert_Some Hc; [done|eauto].
  - intros s0 sl0 [[<- <-]|[_ H0]]%lookup_insert_Some Hc; eauto.
Qed.

Lemma queue_ok_execute s sl low w n l (q : Queue) :
  queue_ok q → qs_arena q !! s = Some sl → q_phase sl = Picking →
  (if low : bool then q_normal sl = [] ∧ n = [] ∧ q_low sl = w :: l
   else q_normal sl = w :: n ∧ l = q_low sl) →
  queue_ok (release_global (set_slot s (execute_item low w n l sl) q)).
Proof using.
  intros Hok Hs Hp Hd. unfold release_global, set_global, set_slot. simpl.
  assert (queued sl = queued (execute_item low w n l sl) + 1) as Hq.
  { unfold queued. simpl. destruct low; [destruct Hd as (-> & -> & ->)|destruct Hd as [-> ->]];
      simpl; lia. }
  apply (queue_ok_update q s sl); try done.
  - apply slot_ok_execute; [by eapply qo_slot|done..].
  - by rewrite Hp.
  - simpl. lia.
  - lia.
  - apply Hok.
  - apply Hok.
  - simpl. by apply qo_closed.
  - simpl. by eapply qo_shutting.
Qed.

Lemma queue_ok_pick s sl (q q' : Queue) :
  qs_arena q !! s = Some sl → worker_step WPick s sl q = Some q' → queue_ok q → queue_ok q'.
Proof using.
  intros Hs Hw Hok. unfold worker_step in Hw. destruct (q_phase sl) eqn:Hp; try done.
  destruct (q_normal sl) as [|w n] eqn:En; [destruct (q_low sl) as [|w l] eqn:El|];
    injection Hw as <-.
  - eapply queue_ok_local; try done; [|by rewrite Hp|simpl; by eapply qo_shutting].
    apply slot_ok_to_waiting; [by eapply qo_slot|by rewrite Hp|done..].
  - by apply (queue_ok_execute s sl true).
  - by apply (queue_ok_execute s sl false).
Qed.

(** A worker's move to another phase. *)
Lemma queue_ok_move s sl p (q : Queue) :
  queue_ok q → qs_arena q !! s = Some sl → q_phase sl ≠ Stopped →
  closed_phase (q_phase sl) = false → slot_ok (set_phase p sl) → p ≠ Stopped →
  queue_ok (set_slot s (set_phase p sl) q).
Proof using.
  intros Hok Hs Hns Hc Hok' Hp. eapply queue_ok_local; try done. simpl. by eapply qo_shutting.
Qed.

Lemma queue_ok_push s sl it rest (q : Queue) :
  queue_ok q → qs_arena q !! s = Some sl → q_phase sl = Draining ∨ q_phase sl = Waiting →
  q_chan sl = it :: rest → queue_ok (set_slot s (push_item it rest Draining sl) q).
Proof using.
  intros Hok Hs Hp Hc. eapply queue_ok_local; try done.
  - apply slot_ok_push; [by eapply qo_slot|done..].
  - unfold queued. simpl. rewrite Hc. destruct it as [[] w]; simpl; rewrite ?length_app; simpl; lia.
  - by destruct Hp as [-> | ->].
  - simpl. by eapply qo_shutting.
Qed.

Lemma queue_ok_waiting act s sl (q q' : Queue) :
  act = WRecv ∨ act = WNotified ∨ act = WShutdown ∨ act = WCheckPending →
  qs_arena q !! s = Some sl → worker_step act s sl q = Some q' → queue_ok q → queue_ok q'.
Proof using.
  intros Hact Hs Hw Hok. pose proof (qo_slot _ Hok _ _ Hs) as Hso.
  destruct Hact as [-> | [-> | [-> | ->]]]; unfold worker_step in Hw;
    destruct (q_phase sl) eqn:Hp; try done.
  - destruct (q_chan sl) as [|it rest] eqn:Ec; [done|]. injection Hw as <-.
    by apply queue_ok_push; [..|right|].
  - destruct (q_shutting_down sl); [|done]. injection Hw as <-.
    apply queue_ok_move; rewrite ?Hp; try done. apply slot_ok_to_draining; by rewrite ?Hp.
  - destruct (negb (q_shutting_down sl) && qs_shutdown q) eqn:Esd; [|done]. injection Hw as <-.
    apply andb_true_iff in Esd as [_ Esd].
    eapply queue_ok_local; try done; [by apply slot_ok_start_shutdown|by rewrite Hp].
  - destruct (Nat.eqb_spec (pending_total sl) 0) as [E0|E0]; injection Hw as <-.
    + eapply queue_ok_local; try done; [by apply slot_ok_saw|by rewrite Hp|].
      simpl. by eapply qo_shutting.
    + destruct (so_idle _ Hso) as [Hn Hl]; [by rewrite Hp|].
      apply queue_ok_move; rewrite ?Hp; try done; destruct (q_shutting_down sl); try done.
      * apply slot_ok_to_waiting; by rewrite ?Hp.
      * apply slot_ok_to_draining; by rewrite ?Hp.
Qed.

Lemma queue_ok_check_count s sl (q q' : Queue) :
  qs_arena q !! s = Some sl → worker_step WCheckCount s sl q = Some q' → queue_ok q → queue_ok q'.
Proof using.
  intros Hs Hw Hok. pose proof (qo_slot _ Hok _ _ Hs) as Hso. unfold worker_step in Hw.
  destruct (q_phase sl) as [| | | |sd| |] eqn:Hp; try done.
  assert (q_phase sl ≠ Stopped) as Hns by by rewrite Hp.
  destruct (Nat.eqb_spec (strong_count s sl q) 2) as [Hc|Hc].
  - apply strong_count_two in Hc as [Hu Hr]; [|done..]. destruct sd; injection Hw as <-.
    + assert (qs_shutdown q = true) as Hsd.
      { eapply qo_shutting; [done|exact Hs|]. apply so_closing; auto. }
      apply (queue_ok_update q s sl); try done.
      * by apply slot_ok_close.
      * apply Hok.
      * apply Hok.
      * auto.
    + apply queue_ok_stop; auto. by rewrite Hp.
  - destruct (so_idle _ Hso) as [Hn Hl]; [by rewrite Hp|]. injection Hw as <-.
    apply queue_ok_move; rewrite ?Hp; try done; destruct sd; try done.
    + apply slot_ok_to_waiting; by rewrite ?Hp.
    + apply slot_ok_to_draining; by rewrite ?Hp.
Qed.

Lemma queue_ok_worker act s sl (q q' : Queue) :
  qs_arena q !! s = Some sl → worker_step act s sl q = Some q' → queue_ok q → queue_ok q'.
Proof using.
  intros Hs Hw Hok. pose proof (qo_slot _ Hok _ _ Hs) as Hso.
  destruct act; [|by eapply queue_ok_pick| |by (eapply queue_ok_waiting; [|exact Hs|exact Hw|exact Hok]; auto)..
                |by eapply queue_ok_check_count|];
    unfold worker_step in Hw; destruct (q_phase sl) eqn:Hp; try done; injection Hw as <-.
  - destruct (q_chan sl) as [|it rest] eqn:Ec; [|by apply queue_ok_push; [..|left|]].
    eapply queue_ok_local; try done; [by apply slot_ok_end_drain|by rewrite Hp|].
    simpl. by eapply qo_shutting.
  - apply queue_ok_move; rewrite ?Hp; try done. apply slot_ok_to_draining; by rewrite ?Hp.
  - destruct (qo_closed _ Hok _ _ Hs); [by rewrite (so_closed _ Hso), Hp|].
    apply queue_ok_stop; auto. by rewrite Hp.
Qed.

Lemma queue_ok_step l (q q' : Queue) : qstep l q = Some q' → queue_ok q → queue_ok q'.
Proof using.
  destruct l as [a k|a f|a|a|a r|a|a|a|r low w|r|s act|].
  - apply queue_ok_check.
  - apply queue_ok_slot.
  - apply queue_ok_acquire_key.
  - apply queue_ok_acquire_global.
  - apply queue_ok_admit.
  - simpl. destruct (qs_admissions q !! a) as [[|s| |]|] eqn:Ea; try done.
    destruct (qs_arena q !! s); [|done]. simpl. destruct (Nat.eqb _ _); [|done].
    intros [= <-] Hok. apply queue_ok_reject. by apply (queue_ok_drop_admission a (HasSlot s)).
  - simpl. destruct (qs_admissions q !! a) as [[| |s|]|] eqn:Ea; try done.
    destruct (Nat.eqb _ _); [|done].
    intros [= <-] Hok. apply queue_ok_reject. by apply (queue_ok_drop_admission a (HasKey s)).
  - simpl. destruct (qs_admissions q !! a) as [adm|] eqn:Ea; [|done]. intros [= <-] Hok.
    by apply queue_ok_drop_admission.
  - apply queue_ok_submit.
  - apply queue_ok_drop_reservation.
  - simpl. destruct (qs_arena q !! s) as [sl|] eqn:Es; [|done]. intros Hw Hok.
    by eapply queue_ok_worker.
  - intros [= <-] [H1 H2 H3 H4 H5 H6 H7 H8 H9]. split; simpl; try done.
    intros s sl Hs Hc. destruct (H8 _ _ Hs Hc) as [? _]. auto.
Qed.

Lemma queue_ok_run ls (q q' : Queue) : qrun ls q = Some q' → queue_ok q → queue_ok q'.
Proof using.
  revert q; induction ls as [|l ls IH]; intros q; simpl; [by intros [= <-]|].
  destruct (qstep l q) as [q1|] eqn:E; [|done]. simpl. intros Hr Hok.
  eapply IH; [exact Hr|]. by eapply queue_ok_step.
Qed.

Lemma queue_ok_reachable (q : Queue) : queue_reachable q → queue_ok q.
Proof using. intros [ls Hr]. eapply queue_ok_run; [exact Hr|apply queue_ok_new]. Qed.

End queue.

(** * Properties *)

Section properties.
Context {K : Type} `{Countable K} (limits : QueueLimits).

(** C29: no permit is ever lost or duplicated.  In every reachable state the
    free permits of a key, those held by admission calls and reservations on
    it and those of its accepted items that have not started add up to the
    per-key limit, and likewise globally; so a key never has more than its
    limit of items waiting and all keys together never more than the total. *)
Theorem queue_permits_conserved (q : SessionQueue K) :
  queue_reachable limits q →
  (∀ s sl, qs_arena q !! s = Some sl →
     q_capacity sl + adm_key_permits s (qs_admissions q)
     + reservations_on s (qs_reservations q) + queued sl = per_key limits ∧
     queued sl ≤ per_key limits) ∧
  qs_global q + adm_global_permits (qs_admissions q) + reservations_held (qs_reservations q)
    + map_sum queued (qs_arena q) = total limits ∧
  map_sum queued (qs_arena q) ≤ total limits.
Proof using.
  intros Hok%queue_ok_reachable. split; [|split; [apply (qo_global _ _ Hok)|]].
  - intros s sl Hs. pose proof (qo_key _ _ Hok _ _ Hs). split; [done|lia].
  - pose proof (qo_global _ _ Hok). lia.
Qed.

(** Admission is a promise.  Dispatching the item of a reservation never
    fails, whatever workers, retirements and the shutdown do meanwhile, and the
    receipt tells the truth: the items reported ahead are exactly those
    accepted for the key and not yet started that will run first, all normal
    ones for a normal item and every one for a low item. *)
Theorem dispatch_never_refused (q : SessionQueue K) r s low w :
  queue_reachable limits q → qs_reservations q !! r = Some s →
  ∃ sl sl' ahead, qs_arena q !! s = Some sl ∧ dispatch limits low w sl = Ok (ahead, sl') ∧
    ahead = (if low : bool then length (q_accepted sl) - length (q_started sl)
             else length (of_prio false (q_accepted sl)) - length (of_prio false (q_started sl))).
Proof using.
  intros Hok%queue_ok_reachable Hr. destruct (qo_res _ _ Hok _ _ Hr) as [sl Hs].
  destruct (dispatch_accepts limits r s sl low w q Hok Hr Hs) as [sl' Hd].
  exists sl, sl', (queued_ahead low sl). split_and!; [done..|].
  pose proof (qo_slot _ _ Hok _ _ Hs) as Hso.
  assert (q_phase sl ≠ Stopped) as Hns.
  { intros E. pose proof (reserved_open _ _ _ _ _ Hok Hr Hs) as Hc.
    by rewrite (so_closed _ Hso), E in Hc. }
  assert (∀ p, pending p sl + length (of_prio p (q_started sl)) =
    length (of_prio p (q_accepted sl))) as Hp.
  { intros p. rewrite (so_pending _ Hso p Hns), (so_fifo _ Hso p), (so_lost _ Hso Hns).
    rewrite !length_app. change (of_prio p []) with (@nil nat). simpl. lia. }
  pose proof (Hp false) as Hf. pose proof (Hp true) as Ht. unfold pending in Hf, Ht.
  unfold queued_ahead, pending_total. destruct low; [|lia].
  rewrite <-(of_prio_length (q_accepted sl)), <-(of_prio_length (q_started sl)). lia.
Qed.

(** Order.  The work of each priority runs in the order it was accepted,
    and while a worker lives every accepted item has run, is in its deque or is
    in its channel, once; a low item is started only when every normal item
    accepted before the worker last found its channel empty has been started. *)
Theorem queue_order (q : SessionQueue K) s sl :
  queue_reachable limits q → qs_arena q !! s = Some sl →
  (∀ low, of_prio low (q_started sl) `prefix_of` of_prio low (q_accepted sl)) ∧
  (q_phase sl ≠ Stopped → ∀ low,
     of_prio low (q_accepted sl) =
       of_prio low (q_started sl) ++ deque low sl ++ of_prio low (q_chan sl)) ∧
  (∀ q' sl' w, worker_step WPick s sl q = Some q' → qs_arena q' !! s = Some sl' →
     q_started sl' = q_started sl ++ [(true, w)] →
     of_prio false (take (q_snapshot sl) (q_accepted sl)) = of_prio false (q_started sl)).
Proof using.
  intros Hok%queue_ok_reachable Hs. pose proof (qo_slot _ _ Hok _ _ Hs) as Hso. split_and!.
  - intros low. rewrite (so_fifo _ Hso low). by apply prefix_app_r.
  - intros Hns low. rewrite (so_fifo _ Hso low), (so_lost _ Hso Hns).
    change (of_prio low []) with (@nil nat). by rewrite app_nil_r.
  - intros q' sl' w Hw Hs' Hst. unfold worker_step in Hw.
    destruct (q_phase sl) eqn:Hp; try done. rewrite (so_picking _ Hso false Hp).
    destruct (q_normal sl) as [|x n] eqn:En; [by unfold deque; rewrite En, app_nil_r|].
    exfalso. injection Hw as <-. simpl in Hs'. rewrite lookup_insert_eq in Hs'.
    injection Hs' as <-. simpl in Hst. by simplify_list_eq.
Qed.

(** One worker per key.  At most one slot of a key has a live worker, the
    map names exactly that slot, and only slots with a live worker are in the
    map; so two items of a key never run at the same time. *)
Theorem one_worker_per_key (q : SessionQueue K) :
  queue_reachable limits q →
  (∀ s1 s2 sl1 sl2, qs_arena q !! s1 = Some sl1 → qs_arena q !! s2 = Some sl2 →
     q_phase sl1 ≠ Stopped → q_phase sl2 ≠ Stopped → q_key sl1 = q_key sl2 → s1 = s2) ∧
  (∀ k s, qs_slots q !! k = Some s ↔
     ∃ sl, qs_arena q !! s = Some sl ∧ q_key sl = k ∧ q_phase sl ≠ Stopped).
Proof using.
  intros Hok%queue_ok_reachable. split.
  - intros s1 s2 sl1 sl2 H1 H2 Hp1 Hp2 Hk.
    pose proof (qo_live _ _ Hok _ _ H1 Hp1). pose proof (qo_live _ _ Hok _ _ H2 Hp2). congruence.
  - intros k s. split; [apply (qo_map _ _ Hok)|]. intros (sl & Hs & <- & Hp).
    by apply (qo_live _ _ Hok).
Qed.

(** What a stopping worker leaves behind.  An item accepted by a slot is
    dropped without running only if it was dispatched between the two reads of
    the condition under which the worker stops; in every other run a worker
    that has stopped has run everything it accepted, and a live worker has
    dropped nothing. *)
Theorem stopped_worker_ran_all (q : SessionQueue K) s sl :
  queue_reachable limits q → qs_arena q !! s = Some sl →
  (q_phase sl ≠ Stopped → q_lost sl = []) ∧
  (q_phase sl = Stopped → q_raced sl = false → ∀ low,
     of_prio low (q_accepted sl) = of_prio low (q_started sl)).
Proof using.
  intros Hok%queue_ok_reachable Hs. pose proof (qo_slot _ _ Hok _ _ Hs) as Hso.
  split; [apply (so_lost _ Hso)|]. intros Hp Hr low.
  rewrite (so_fifo _ Hso low), (so_stopped _ Hso Hp).
  destruct (so_idle _ Hso) as [Hn Hl]; [by rewrite Hp|].
  destruct (q_lost sl) eqn:El.
  - unfold deque. rewrite Hn, Hl. change (of_prio low []) with (@nil nat).
    destruct low; by rewrite !app_nil_r.
  - rewrite (so_lost_raced _ Hso) in Hr; [done|]. by rewrite El.
Qed.

End properties.

(** * Witnesses, and the race *)

Section witnesses.

(** An admission call 0 for key 5 becomes reservation 1 while the new slot's
    worker reaches its wait. *)
Local Definition admission_trace : list Label :=
  [LCheck 0 5; LSlot 0 0; LWorker 0 WDrain; LWorker 0 WPick;
   LAcquireKey 0; LAcquireGlobal 0; LAdmit 0 1].

Local Definition after (ls : list Label) : SessionQueue nat :=
  default (queue_new limits_default) (qrun limits_default ls (queue_new limits_default)).
Local Definition slot0 (q : SessionQueue nat) : QueueSlot nat :=
  default (slot_new limits_default 0) (qs_arena q !! 0).

(** Two items, the low one accepted first; the worker has drained both. *)
Local Definition served : list Label :=
  admission_trace ++ [LSubmit 1 true 8; LCheck 0 5; LSlot 0 9; LAcquireKey 0; LAcquireGlobal 0; LAdmit 0 2;
            LSubmit 2 false 9; LWorker 0 WRecv; LWorker 0 WDrain; LWorker 0 WDrain;
            LWorker 0 WPick; LWorker 0 WDone; LWorker 0 WDrain].

Local Definition race : list Label :=
  admission_trace ++ [LWorker 0 WCheckPending; LSubmit 1 false 7; LWorker 0 WCheckCount].

(** The race behind that exception is real.  The idle timeout fires while
    a reservation is out: the worker reads that nothing is pending, the item
    is dispatched and the reservation released, and the worker then finds only
    two references left.  The item, whose receipt said it was accepted, is
    dropped with the receiver. *)
Theorem retirement_race_loses_item :
  let q := after race in
  queue_reachable limits_default q ∧
  q_accepted (slot0 q) = [(false, 7)] ∧ q_started (slot0 q) = [] ∧
  q_phase (slot0 q) = Stopped ∧ q_lost (slot0 q) = [(false, 7)].
Proof.
  cbv zeta. split; [|vm_compute; auto].
  exists race. vm_compute. reflexivity.
Qed.

Lemma queue_permits_conserved_witness :
  queued (slot0 (after (admission_trace ++ [LSubmit 1 false 7]))) ≤ 64.
Proof.
  refine (proj2 (proj1 (queue_permits_conserved limits_default
    (after (admission_trace ++ [LSubmit 1 false 7])) _) 0 _ _)).
  - exists (admission_trace ++ [LSubmit 1 false 7]). vm_compute. reflexivity.
  - vm_compute. reflexivity.
Defined.

Lemma dispatch_never_refused_witness :
  ∃ sl', dispatch limits_default false 7 (slot0 (after admission_trace)) = Ok (0, sl').
Proof.
  destruct (dispatch_never_refused limits_default (after admission_trace) 1 0 false 7) as (sl & sl' & n & H1 & H2 & H3).
  - exists admission_trace. vm_compute. reflexivity.
  - vm_compute. reflexivity.
  - exists sl'. replace (slot0 (after admission_trace)) with sl.
    + rewrite H2. f_equal. f_equal. rewrite H3.
      vm_compute in H1. injection H1 as <-. vm_compute. reflexivity.
    + unfold slot0. rewrite H1. reflexivity.
Defined.

Lemma queue_order_witness :
  q_started (slot0 (after served)) = [(false, 9)] ∧
  ∀ low, of_prio low (q_started (slot0 (after served)))
    `prefix_of` of_prio low (q_accepted (slot0 (after served))).
Proof.
  split; [vm_compute; reflexivity|].
  refine (proj1 (queue_order limits_default (after served) 0 _ _ _)).
  - exists served. vm_compute. reflexivity.
  - vm_compute. reflexivity.
Defined.

Lemma one_worker_per_key_witness :
  qs_slots (after admission_trace) !! 5 = Some 0.
Proof.
  refine (proj2 (proj2 (one_worker_per_key limits_default (after admission_trace) _) 5 0) _).
  - exists admission_trace. vm_compute. reflexivity.
  - exists (slot0 (after admission_trace)). split_and!; vm_compute; [reflexivity..|discriminate].
Defined.

Local Definition retired : list Label :=
  served ++ [LWorker 0 WPick; LWorker 0 WDone; LWorker 0 WDrain; LWorker 0 WPick;
             LWorker 0 WCheckPending; LWorker 0 WCheckCount].

Lemma stopped_worker_ran_all_witness :
  of_prio true (q_accepted (slot0 (after retired))) = of_prio true (q_started (slot0 (after retired))).
Proof.
  refine (proj2 (stopped_worker_ran_all limits_default (after retired) 0 (slot0 (after retired)) _ _) _ _ true).
  - exists retired. vm_compute. reflexivity.
  - vm_compute. reflexivity.
  - vm_compute. reflexivity.
  - vm_compute. reflexivity.
Defined.

End witnesses.
