(* ===== verification/JobEpisode.v ===== *)
(** Job episodes: [alms-gateway/src/runs/job_episode.rs].

    An episode is everything a firing of a scheduled job sets in motion: its
    first turn, the DMs and background subagents it opens and the turns those
    trigger.  The whole tracker lives behind one mutex, so each operation is
    one atomic step.  The map is a [HashMap]: where the code iterates over it,
    the order is that of [map_to_list] and no property depends on it. *)
From S2P Require Import Prelude Ident Json Run Session.

Definition EPISODE_DEADLINE_SECS : Z := 14400.

Record JobEpisode := mkEpisode {
  ep_job_id : JobId;
  ep_session_id : SessionId;
  ep_agent_id : AgentId;
  ep_started_at : Z;
  ep_deadline : option Z;
  ep_pending_dms : gset SessionId;
  ep_pending_subagents : gmap Uuid SessionId;
  ep_in_flight_runs : nat;
  ep_runs : list RunId;
  ep_finished_runs : gset RunId;
  ep_dm_total : nat;
  ep_subagent_total : nat;
  ep_catch_up_queued : bool;
}.

Definition is_quiescent (ep : JobEpisode) : bool :=
  bool_decide (ep_pending_dms ep = ∅) && bool_decide (ep_pending_subagents ep = ∅)
  && Nat.eqb (ep_in_flight_runs ep) 0.

Definition pending_count (ep : JobEpisode) : nat :=
  size (ep_pending_dms ep) + size (ep_pending_subagents ep).

Inductive RunCompletion :=
| Closed (ep : JobEpisode)
| Open
| Untracked.

Record ContinuationRoute := {
  route_job_id : JobId;
  route_job_session_id : SessionId;
  route_context_id : string;
}.

(** The tracker: its deadline (a [Duration] in nanoseconds) and the open
    episodes. *)
Record JobEpisodeTracker := mkTracker {
  tk_deadline : Z;
  tk_episodes : gmap JobId JobEpisode;
}.

Definition tracker_new (deadline : Z) : JobEpisodeTracker := mkTracker deadline ∅.

Definition set_episodes (m : gmap JobId JobEpisode) (t : JobEpisodeTracker) : JobEpisodeTracker :=
  mkTracker (tk_deadline t) m.

(** ** Firing *)

Definition absorb_fire_if_open (job : JobId) (t : JobEpisodeTracker)
    : bool * JobEpisodeTracker :=
  match tk_episodes t !! job with
  | Some ep =>
      (true, set_episodes (<[job := mkEpisode (ep_job_id ep) (ep_session_id ep) (ep_agent_id ep)
         (ep_started_at ep) (ep_deadline ep) (ep_pending_dms ep) (ep_pending_subagents ep)
         (ep_in_flight_runs ep) (ep_runs ep) (ep_finished_runs ep) (ep_dm_total ep)
         (ep_subagent_total ep) true]> (tk_episodes t)) t)
  | None => (false, t)
  end.

Definition open (now : Z) (job : JobId) (session : SessionId) (agent : AgentId) (turn1 : RunId)
    (t : JobEpisodeTracker) : JobEpisodeTracker :=
  set_episodes (<[job := mkEpisode job session agent now None ∅ ∅ 1 [turn1] ∅ 0 0 false]>
                  (tk_episodes t)) t.

(** [utc] and [now] are the wall clock and the monotonic clock. *)
Definition start_turn_one (utc now : Z) (job : JobId) (turn1 : RunId) (t : JobEpisodeTracker)
    : JobEpisodeTracker :=
  match tk_episodes t !! job with
  | Some ep =>
      if bool_decide (head (ep_runs ep) = Some turn1) then
        set_episodes (<[job := mkEpisode (ep_job_id ep) (ep_session_id ep) (ep_agent_id ep)
          utc (Some (now + tk_deadline t)%Z) (ep_pending_dms ep) (ep_pending_subagents ep)
          (ep_in_flight_runs ep) (ep_runs ep) (ep_finished_runs ep) (ep_dm_total ep)
          (ep_subagent_total ep) (ep_catch_up_queued ep)]> (tk_episodes t)) t
      else t
  | None => t
  end.

(** ** Completion *)

Definition add_dm (ep : JobEpisode) (dm : SessionId) : JobEpisode :=
  mkEpisode (ep_job_id ep) (ep_session_id ep) (ep_agent_id ep) (ep_started_at ep)
    (ep_deadline ep) ({[dm]} ∪ ep_pending_dms ep) (ep_pending_subagents ep)
    (ep_in_flight_runs ep) (ep_runs ep) (ep_finished_runs ep)
    (if bool_decide (dm ∈ ep_pending_dms ep) then ep_dm_total ep else ep_dm_total ep + 1)
    (ep_subagent_total ep) (ep_catch_up_queued ep).

Definition add_subagent (ep : JobEpisode) (sub : Uuid * SessionId) : JobEpisode :=
  mkEpisode (ep_job_id ep) (ep_session_id ep) (ep_agent_id ep) (ep_started_at ep)
    (ep_deadline ep) (ep_pending_dms ep) (<[sub.1 := sub.2]> (ep_pending_subagents ep))
    (ep_in_flight_runs ep) (ep_runs ep) (ep_finished_runs ep) (ep_dm_total ep)
    (match ep_pending_subagents ep !! sub.1 with
     | Some _ => ep_subagent_total ep
     | None => ep_subagent_total ep + 1
     end) (ep_catch_up_queued ep).

(** Changing the in-flight count. *)
Definition set_in_flight (n : nat) (ep : JobEpisode) : JobEpisode :=
  mkEpisode (ep_job_id ep) (ep_session_id ep) (ep_agent_id ep) (ep_started_at ep)
    (ep_deadline ep) (ep_pending_dms ep) (ep_pending_subagents ep) n (ep_runs ep)
    (ep_finished_runs ep) (ep_dm_total ep) (ep_subagent_total ep) (ep_catch_up_queued ep).

(** Recording a finished run. *)
Definition finish_run (run : RunId) (ep : JobEpisode) : JobEpisode :=
  mkEpisode (ep_job_id ep) (ep_session_id ep) (ep_agent_id ep) (ep_started_at ep)
    (ep_deadline ep) (ep_pending_dms ep) (ep_pending_subagents ep) (ep_in_flight_runs ep)
    (ep_runs ep) ({[run]} ∪ ep_finished_runs ep) (ep_dm_total ep) (ep_subagent_total ep)
    (ep_catch_up_queued ep).

(** The quiescence decision: remove the episode or keep it. *)
Definition settle (job : JobId) (ep : JobEpisode) (t : JobEpisodeTracker)
    : RunCompletion * JobEpisodeTracker :=
  if is_quiescent ep then (Closed ep, set_episodes (delete job (tk_episodes t)) t)
  else (Open, set_episodes (<[job := ep]> (tk_episodes t)) t).

(** The episode after a first completion of [run], before the decision. *)
Definition complete_run (run : RunId) (dms : list SessionId) (subs : list (Uuid * SessionId))
    (ep : JobEpisode) : JobEpisode :=
  let ep1 := finish_run run ep in
  let ep2 := set_in_flight (ep_in_flight_runs ep1 - 1) ep1 in
  fold_left add_subagent subs (fold_left add_dm dms ep2).

Definition on_run_complete (job : JobId) (run : RunId) (opened_dms : list SessionId)
    (opened_subagents : list (Uuid * SessionId)) (t : JobEpisodeTracker)
    : RunCompletion * JobEpisodeTracker :=
  match tk_episodes t !! job with
  | None => (Untracked, t)
  | Some ep =>
      if bool_decide (run ∈ ep_finished_runs ep) then (Open, t)
      else settle job (complete_run run opened_dms opened_subagents ep) t
  end.

(** ** Resolution *)

Section uuid.
Context `{U : UuidCrate}.

Definition route_of (ep : JobEpisode) : ContinuationRoute :=
  {| route_job_id := ep_job_id ep; route_job_session_id := ep_session_id ep;
     route_context_id := "job_" +:+ uuid_to_string (job_uuid (ep_job_id ep)) |}.

Definition dm_matches (dm : SessionId) (agent : AgentId) (ep : JobEpisode) : bool :=
  bool_decide (ep_agent_id ep = agent) && bool_decide (dm ∈ ep_pending_dms ep).

(** The pending DM becomes a reserved run. *)
Definition take_dm (dm : SessionId) (ep : JobEpisode) : JobEpisode :=
  mkEpisode (ep_job_id ep) (ep_session_id ep) (ep_agent_id ep) (ep_started_at ep)
    (ep_deadline ep) (ep_pending_dms ep ∖ {[dm]}) (ep_pending_subagents ep)
    (ep_in_flight_runs ep + 1) (ep_runs ep) (ep_finished_runs ep) (ep_dm_total ep)
    (ep_subagent_total ep) (ep_catch_up_queued ep).

Definition resolve_dm (dm : SessionId) (agent : AgentId) (t : JobEpisodeTracker)
    : list ContinuationRoute * JobEpisodeTracker :=
  (route_of ∘ snd <$> filter (λ e, dm_matches dm agent e.2 = true) (map_to_list (tk_episodes t)),
   set_episodes ((λ ep, if dm_matches dm agent ep then take_dm dm ep else ep) <$> tk_episodes t) t).

Definition take_subagent (task : Uuid) (ep : JobEpisode) : JobEpisode :=
  mkEpisode (ep_job_id ep) (ep_session_id ep) (ep_agent_id ep) (ep_started_at ep)
    (ep_deadline ep) (ep_pending_dms ep) (delete task (ep_pending_subagents ep))
    (ep_in_flight_runs ep + 1) (ep_runs ep) (ep_finished_runs ep) (ep_dm_total ep)
    (ep_subagent_total ep) (ep_catch_up_queued ep).

Definition resolve_subagent (task : Uuid) (t : JobEpisodeTracker)
    : option ContinuationRoute * JobEpisodeTracker :=
  match List.find (λ e, bool_decide (is_Some (ep_pending_subagents (e.2) !! task)))
          (map_to_list (tk_episodes t)) with
  | Some (job, ep) =>
      (Some (route_of ep), set_episodes (<[job := take_subagent task ep]> (tk_episodes t)) t)
  | None => (None, t)
  end.

Definition abandon_reserved_continuation (job : JobId) (t : JobEpisodeTracker)
    : RunCompletion * JobEpisodeTracker :=
  match tk_episodes t !! job with
  | None => (Untracked, t)
  | Some ep => settle job (set_in_flight (ep_in_flight_runs ep - 1) ep) t
  end.

Definition note_run (job : JobId) (run : RunId) (t : JobEpisodeTracker) : JobEpisodeTracker :=
  match tk_episodes t !! job with
  | Some ep =>
      set_episodes (<[job := mkEpisode (ep_job_id ep) (ep_session_id ep) (ep_agent_id ep)
        (ep_started_at ep) (ep_deadline ep) (ep_pending_dms ep) (ep_pending_subagents ep)
        (ep_in_flight_runs ep) (ep_runs ep ++ [run]) (ep_finished_runs ep) (ep_dm_total ep)
        (ep_subagent_total ep) (ep_catch_up_queued ep)]> (tk_episodes t)) t
  | None => t
  end.

(** ** Removal, expiry, observation *)

Definition remove (job : JobId) (t : JobEpisodeTracker) : option JobEpisode * JobEpisodeTracker :=
  (tk_episodes t !! job, set_episodes (delete job (tk_episodes t)) t).

Definition expired (now : Z) (ep : JobEpisode) : bool :=
  match ep_deadline ep with Some d => (d <=? now)%Z | None => false end.

Definition take_expired (now : Z) (t : JobEpisodeTracker)
    : list JobEpisode * JobEpisodeTracker :=
  let ids := fst <$> filter (λ e, expired now e.2 = true) (map_to_list (tk_episodes t)) in
  (omap (λ id, tk_episodes t !! id) ids,
   set_episodes (foldr delete (tk_episodes t) ids) t).

Definition snapshot `{CH : ChronoCrate} (now : Z) (job : JobId) (t : JobEpisodeTracker)
    : option json :=
  ep ← tk_episodes t !! job;
  let remaining := match ep_deadline ep with
                   | Some d => Z.max 0 (d - now)
                   | None => tk_deadline t
                   end in
  Some (JObj [("started_at", JStr (to_rfc3339 (ep_started_at ep)));
              ("pending_dms", JNum (Z.of_nat (size (ep_pending_dms ep))));
              ("pending_subagents", JNum (Z.of_nat (size (ep_pending_subagents ep))));
              ("in_flight_runs", JNum (Z.of_nat (ep_in_flight_runs ep)));
              ("runs", JNum (Z.of_nat (length (ep_runs ep))));
              ("catch_up_queued", JBool (ep_catch_up_queued ep));
              ("deadline_remaining_secs", JNum (remaining / 1000000000)%Z)]).

(** ** Pending-work detection *)

(** [serde_json::from_str]. *)
Context (json_from_str : string → option json).

Definition result_json (r : ToolCallRecord) : option json :=
  raw ← tc_result r; json_from_str raw.

Definition is_tool_record (name : string) (r : ToolCallRecord) : bool :=
  match tc_role r, tc_tool_name r with
  | RoleTool, Some n => String.eqb n name
  | _, _ => false
  end.

Definition dm_opened_by (r : ToolCallRecord) : option SessionId :=
  j ← result_json r;
  match json_get "delivered" j ≫= as_bool with
  | Some true =>
      v ← json_get "dm_session_id" j; sid ← as_str v; MkSessionId <$> parse_str sid
  | _ => None
  end.

Definition dms_opened (records : list ToolCallRecord) : list SessionId :=
  omap dm_opened_by (filter (λ r, is_tool_record "send_message" r = true) records).

Definition subagent_spawned_by (r : ToolCallRecord) : option (Uuid * SessionId) :=
  j ← result_json r;
  match json_get "error" j with
  | Some _ => None
  | None =>
      tv ← json_get "task_id" j; ts ← as_str tv; task ← parse_str ts;
      sv ← json_get "session_id" j; ss ← as_str sv; session ← parse_str ss;
      Some (task, MkSessionId session)
  end.

Definition subagents_spawned (records : list ToolCallRecord) : list (Uuid * SessionId) :=
  omap subagent_spawned_by (filter (λ r, is_tool_record "invoke_agent" r = true) records).

End uuid.

(** * Sequences of operations *)

Inductive EpisodeOp :=
| OpAbsorb (job : JobId)
| OpOpen (now : Z) (job : JobId) (session : SessionId) (agent : AgentId) (turn1 : RunId)
| OpStart (utc now : Z) (job : JobId) (turn1 : RunId)
| OpComplete (job : JobId) (run : RunId) (dms : list SessionId) (subs : list (Uuid * SessionId))
| OpResolveDm (dm : SessionId) (agent : AgentId)
| OpResolveSubagent (task : Uuid)
| OpAbandon (job : JobId)
| OpNote (job : JobId) (run : RunId)
| OpRemove (job : JobId)
| OpTakeExpired (now : Z).

Definition exec_episode `{U : UuidCrate} (op : EpisodeOp) (t : JobEpisodeTracker)
    : JobEpisodeTracker :=
  match op with
  | OpAbsorb job => snd (absorb_fire_if_open job t)
  | OpOpen now job session agent turn1 => open now job session agent turn1 t
  | OpStart utc now job turn1 => start_turn_one utc now job turn1 t
  | OpComplete job run dms subs => snd (on_run_complete job run dms subs t)
  | OpResolveDm dm agent => snd (resolve_dm dm agent t)
  | OpResolveSubagent task => snd (resolve_subagent task t)
  | OpAbandon job => snd (abandon_reserved_continuation job t)
  | OpNote job run => note_run job run t
  | OpRemove job => snd (remove job t)
  | OpTakeExpired now => snd (take_expired now t)
  end.

(** * Invariant *)

Record episode_ok (job : JobId) (ep : JobEpisode) : Prop := {
  eo_job : ep_job_id ep = job;
  eo_open : is_quiescent ep = false;
  eo_runs : ep_runs ep ≠ [];
  eo_dms : size (ep_pending_dms ep) ≤ ep_dm_total ep;
  eo_subs : size (ep_pending_subagents ep) ≤ ep_subagent_total ep;
}.

Definition tracker_ok (t : JobEpisodeTracker) : Prop :=
  ∀ job ep, tk_episodes t !! job = Some ep → episode_ok job ep.

Section invariant.
Context `{U : UuidCrate}.

Lemma is_quiescent_true ep :
  is_quiescent ep = true ↔
  ep_pending_dms ep = ∅ ∧ ep_pending_subagents ep = ∅ ∧ ep_in_flight_runs ep = 0.
Proof using.
  unfold is_quiescent. rewrite !andb_true_iff, !bool_decide_eq_true, Nat.eqb_eq. tauto.
Qed.

Lemma in_flight_not_quiescent ep : 0 < ep_in_flight_runs ep → is_quiescent ep = false.
Proof using.
  intros Hp. apply not_true_iff_false. rewrite is_quiescent_true. lia.
Qed.

Lemma tracker_ok_insert job ep t :
  tracker_ok t → episode_ok job ep → tracker_ok (set_episodes (<[job := ep]> (tk_episodes t)) t).
Proof using.
  intros Hok Hep j e. simpl. intros [[<- <-]|[_ Hj]]%lookup_insert_Some; [done|by apply Hok].
Qed.

Lemma tracker_ok_subset m t :
  tracker_ok t → m ⊆ tk_episodes t → tracker_ok (set_episodes m t).
Proof using. intros Hok Hm j e Hj. apply Hok. by eapply lookup_weaken. Qed.

(** What adding the opened work does to an episode. *)
Lemma add_dms_spec dms ep :
  let ep' := fold_left add_dm dms ep in
  ep_pending_dms ep' = list_to_set dms ∪ ep_pending_dms ep ∧
  (size (ep_pending_dms ep) ≤ ep_dm_total ep → size (ep_pending_dms ep') ≤ ep_dm_total ep') ∧
  ep_job_id ep' = ep_job_id ep ∧ ep_runs ep' = ep_runs ep ∧
  ep_finished_runs ep' = ep_finished_runs ep ∧ ep_in_flight_runs ep' = ep_in_flight_runs ep ∧
  ep_pending_subagents ep' = ep_pending_subagents ep ∧ ep_subagent_total ep' = ep_subagent_total ep.
Proof using.
  revert ep; induction dms as [|dm dms IH]; intros ep; cbn [fold_left].
  - split_and!; try done. simpl. set_solver.
  - destruct (IH (add_dm ep dm)) as (-> & Hs & -> & -> & -> & -> & -> & ->). simpl.
    split_and!; try done; [set_solver|]. intros H. apply Hs. simpl.
    case_bool_decide as Hin; [by replace ({[dm]} ∪ ep_pending_dms ep) with (ep_pending_dms ep) by set_solver|].
    rewrite size_union by set_solver. rewrite size_singleton. lia.
Qed.

Lemma add_subagents_spec subs ep :
  let ep' := fold_left add_subagent subs ep in
  (subs = [] → ep' = ep) ∧ (subs ≠ [] → ep_pending_subagents ep' ≠ ∅) ∧
  (∀ k, is_Some (ep_pending_subagents ep !! k) → is_Some (ep_pending_subagents ep' !! k)) ∧
  (∀ k s, (k, s) ∈ subs → is_Some (ep_pending_subagents ep' !! k)) ∧
  (size (ep_pending_subagents ep) ≤ ep_subagent_total ep →
   size (ep_pending_subagents ep') ≤ ep_subagent_total ep') ∧
  ep_job_id ep' = ep_job_id ep ∧ ep_runs ep' = ep_runs ep ∧
  ep_finished_runs ep' = ep_finished_runs ep ∧ ep_in_flight_runs ep' = ep_in_flight_runs ep ∧
  ep_pending_dms ep' = ep_pending_dms ep ∧ ep_dm_total ep' = ep_dm_total ep.
Proof using.
  revert ep; induction subs as [|[k s] subs IH]; intros ep; cbn [fold_left].
  - split_and!; try done. intros k s Hk. by apply elem_of_nil in Hk.
  - destruct (IH (add_subagent ep (k, s))) as (_ & _ & Hkeep & Hin & Hs & -> & -> & -> & -> & -> & ->).
    assert (is_Some (ep_pending_subagents (fold_left add_subagent subs (add_subagent ep (k, s))) !! k))
      as Hk by (apply Hkeep; simpl; rewrite lookup_insert_eq; eauto).
    split_and!; try done.
    + intros _ E. rewrite E, lookup_empty in Hk. by destruct Hk.
    + intros k' Hk'. apply Hkeep. simpl. apply lookup_insert_is_Some'. by right.
    + intros k' s' [[= -> ->]|Hk']%elem_of_cons; [done|by eapply Hin].
    + intros H. apply Hs. simpl.
      destruct (ep_pending_subagents ep !! k) eqn:E; [rewrite map_size_insert_Some|
        rewrite map_size_insert_None]; eauto; lia.
Qed.

Lemma complete_run_fields run dms subs ep :
  let ep' := complete_run run dms subs ep in
  ep_pending_dms ep' = list_to_set dms ∪ ep_pending_dms ep ∧
  ep_in_flight_runs ep' = ep_in_flight_runs ep - 1 ∧
  ep_finished_runs ep' = {[run]} ∪ ep_finished_runs ep ∧ ep_job_id ep' = ep_job_id ep ∧
  ep_runs ep' = ep_runs ep ∧
  (ep_pending_subagents ep' = ∅ ↔ subs = [] ∧ ep_pending_subagents ep = ∅) ∧
  (∀ k s, (k, s) ∈ subs → is_Some (ep_pending_subagents ep' !! k)).
Proof using.
  unfold complete_run. set (ep2 := set_in_flight _ _).
  destruct (add_dms_spec dms ep2) as (Hd & _ & Hj & Hr & Hf & Hi & Hs & _).
  destruct (add_subagents_spec subs (fold_left add_dm dms ep2))
    as (Hnil & Hne & Hkeep & Hin & _ & -> & -> & -> & -> & -> & _).
  rewrite Hd, Hj, Hr, Hf, Hi. split_and!; try done.
  split.
  - intros E. destruct subs as [|p subs]; [|by destruct Hne]. split; [done|].
    rewrite (Hnil eq_refl), Hs in E. done.
  - intros [-> E]. rewrite (Hnil eq_refl), Hs. done.
Qed.

Lemma complete_run_ok job run dms subs ep :
  episode_ok job ep → is_quiescent (complete_run run dms subs ep) = false →
  episode_ok job (complete_run run dms subs ep).
Proof using.
  intros [H1 H2 H3 H4 H5] Hq. destruct (complete_run_fields run dms subs ep)
    as (_ & _ & _ & Hj & Hr & _).
  split; [congruence|done|congruence|..]; unfold complete_run; set (ep2 := set_in_flight _ _);
    destruct (add_dms_spec dms ep2) as (Hd & Hds & _ & _ & _ & _ & Hs & Ht);
    destruct (add_subagents_spec subs (fold_left add_dm dms ep2))
      as (_ & _ & _ & _ & Hss & _ & _ & _ & _ & Ep & Et).
  - rewrite Ep, Et. by apply Hds.
  - apply Hss. by rewrite Hs, Ht.
Qed.

Lemma settle_ok job ep t :
  tracker_ok t → (is_quiescent ep = false → episode_ok job ep) →
  tracker_ok (snd (settle job ep t)).
Proof using.
  intros Hok Hep. unfold settle. destruct (is_quiescent ep) eqn:E; simpl.
  - apply tracker_ok_subset; [done|]. apply delete_subseteq.
  - apply tracker_ok_insert; auto.
Qed.

Lemma foldr_delete_subseteq (ids : list JobId) (m : gmap JobId JobEpisode) :
  foldr delete m ids ⊆ m.
Proof using. induction ids; simpl; [done|]. etrans; [apply delete_subseteq|done]. Qed.

Lemma tracker_ok_exec op t : tracker_ok t → tracker_ok (exec_episode op t).
Proof using.
  intros Hok. destruct op; simpl.
  - unfold absorb_fire_if_open. destruct (tk_episodes t !! job) as [ep|] eqn:E; [|done].
    apply tracker_ok_insert; [done|]. by destruct (Hok _ _ E).
  - apply tracker_ok_insert; [done|]. by split.
  - unfold start_turn_one. destruct (tk_episodes t !! job) as [ep|] eqn:E; [|done].
    case_bool_decide; [|done]. apply tracker_ok_insert; [done|]. by destruct (Hok _ _ E).
  - unfold on_run_complete. destruct (tk_episodes t !! job) as [ep|] eqn:E; [|done].
    case_bool_decide; [done|]. apply settle_ok; [done|]. apply complete_run_ok; auto.
  - intros j e. simpl. rewrite lookup_fmap. destruct (tk_episodes t !! j) as [ep|] eqn:E; [|done].
    simpl. intros [= <-]. destruct (Hok _ _ E) as [H1 H2 H3 H4 H5].
    destruct (dm_matches dm agent ep); [|done]. split; simpl; try done.
    + apply in_flight_not_quiescent. simpl. lia.
    + etrans; [apply subseteq_size|exact H4]. set_solver.
  - unfold resolve_subagent. destruct (List.find _ _) as [[job ep]|] eqn:E; [|done].
    apply List.find_some in E as [Hin _]. apply list_elem_of_In, elem_of_map_to_list in Hin.
    destruct (Hok _ _ Hin) as [H1 H2 H3 H4 H5]. apply tracker_ok_insert; [done|].
    split; simpl; try done.
    + apply in_flight_not_quiescent. simpl. lia.
    + etrans; [|exact H5]. apply map_subseteq_size, delete_subseteq.
  - unfold abandon_reserved_continuation. destruct (tk_episodes t !! job) as [ep|] eqn:E; [|done].
    apply settle_ok; [done|]. intros Hq. destruct (Hok _ _ E). by split.
  - unfold note_run. destruct (tk_episodes t !! job) as [ep|] eqn:E; [|done].
    apply tracker_ok_insert; [done|]. destruct (Hok _ _ E). split; try done. simpl.
    by destruct (ep_runs ep).
  - apply tracker_ok_subset; [done|]. apply delete_subseteq.
  - apply tracker_ok_subset; [done|]. apply foldr_delete_subseteq.
Qed.

(** The trackers any sequence of operations reaches. *)
Inductive episodes_reachable (deadline : Z) : JobEpisodeTracker → Prop :=
| er_new : episodes_reachable deadline (tracker_new deadline)
| er_step op t : episodes_reachable deadline t → episodes_reachable deadline (exec_episode op t).

Lemma episodes_reachable_ok deadline t : episodes_reachable deadline t → tracker_ok t.
Proof using.
  induction 1; [|by apply tracker_ok_exec]. intros job ep. simpl. by rewrite lookup_empty.
Qed.

Lemma foldr_delete_lookup (ids : list JobId) (m : gmap JobId JobEpisode) job :
  foldr delete m ids !! job = if bool_decide (job ∈ ids) then None else m !! job.
Proof using.
  induction ids as [|id ids IH]; cbn [foldr].
  - by rewrite bool_decide_eq_false_2 by apply not_elem_of_nil.
  - destruct (decide (id = job)) as [->|Hne].
    + rewrite lookup_delete_eq, bool_decide_eq_true_2; [done|left].
    + rewrite lookup_delete_ne, IH by done. repeat case_bool_decide; set_solver.
Qed.

End invariant.

(** * Properties *)

Section properties.
Context `{U : UuidCrate}.

(** No episode is left open with nothing to wait for.  After any sequence
    of tracker operations every open episode still has a pending DM, a pending
    subagent or a run in flight, is filed under its own job, has its first run
    recorded, and its lifetime totals cover what is pending. *)
Theorem episodes_reachable_wf deadline t job ep :
  episodes_reachable deadline t → tk_episodes t !! job = Some ep →
  ep_job_id ep = job ∧ is_quiescent ep = false ∧ ep_runs ep ≠ [] ∧
  (ep_pending_dms ep ≠ ∅ ∨ ep_pending_subagents ep ≠ ∅ ∨ 0 < ep_in_flight_runs ep) ∧
  pending_count ep ≤ ep_dm_total ep + ep_subagent_total ep.
Proof using.
  intros Hr Hj. destruct (episodes_reachable_ok _ _ Hr _ _ Hj) as [H1 H2 H3 H4 H5].
  split_and!; try done; [|unfold pending_count; lia].
  apply not_true_iff_false in H2. rewrite is_quiescent_true in H2.
  destruct (decide (ep_pending_dms ep = ∅)), (decide (ep_pending_subagents ep = ∅)); auto.
  right; right. destruct (ep_in_flight_runs ep) eqn:E; [tauto|lia].
Qed.

(** When a run's completion closes its episode.  The first completion of a
    run closes the episode exactly when no DM and no subagent is pending, the
    run opened none, and no other run is in flight; otherwise the episode stays
    open with one run fewer in flight and the newly opened work pending.  No
    other job's episode changes, and repeating the completion changes
    nothing. *)
Theorem run_completion_exact t job ep run dms subs :
  tk_episodes t !! job = Some ep → run ∉ ep_finished_runs ep →
  let '(r, t') := on_run_complete job run dms subs t in
  let closes := ep_pending_dms ep = ∅ ∧ ep_pending_subagents ep = ∅ ∧
                ep_in_flight_runs ep ≤ 1 ∧ dms = [] ∧ subs = [] in
  match r with
  | Closed _ => closes ∧ tk_episodes t' !! job = None
  | Open => ¬ closes ∧ ∃ ep', tk_episodes t' !! job = Some ep' ∧
      ep_in_flight_runs ep' = ep_in_flight_runs ep - 1 ∧
      ep_pending_dms ep' = list_to_set dms ∪ ep_pending_dms ep ∧
      (∀ k s, (k, s) ∈ subs → is_Some (ep_pending_subagents ep' !! k))
  | Untracked => False
  end ∧
  (∀ j, j ≠ job → tk_episodes t' !! j = tk_episodes t !! j) ∧
  (∀ dms' subs', on_run_complete job run dms' subs' t' =
     (match r with Closed _ => Untracked | _ => Open end, t')).
Proof using.
  intros Hj Hrun. unfold on_run_complete at 1. rewrite Hj, bool_decide_eq_false_2 by done.
  destruct (complete_run_fields run dms subs ep) as (Hd & Hi & Hf & _ & _ & Hs & Hin).
  set (ep' := complete_run run dms subs ep) in *. unfold settle.
  assert (is_quiescent ep' = true ↔ ep_pending_dms ep = ∅ ∧ ep_pending_subagents ep = ∅ ∧
    ep_in_flight_runs ep ≤ 1 ∧ dms = [] ∧ subs = []) as Hq.
  { rewrite is_quiescent_true, Hd, Hi, Hs. split.
    - intros (H1 & [H2 H3] & H4). assert (dms = []) as ->.
      { destruct dms as [|d dms]; [done|]. set_solver. }
      split_and!; first [done | lia | set_solver].
    - intros (-> & -> & H3 & -> & ->). split_and!; first [done | lia | set_solver]. }
  destruct (is_quiescent ep') eqn:E; cbn zeta; cbn [tk_episodes set_episodes];
    (split; [split|split]).
  - by apply Hq.
  - simpl_lookup.
  - intros j Hne. simpl_lookup.
  - intros dms' subs'. unfold on_run_complete. simpl. by rewrite lookup_delete_eq.
  - intros Hc. by apply Hq in Hc.
  - exists ep'. simpl_lookup.
  - intros j Hne. simpl_lookup.
  - intros dms' subs'. unfold on_run_complete. simpl. rewrite lookup_insert_eq, Hf.
    by rewrite bool_decide_eq_true_2 by set_solver.
Qed.

(** The end of a DM reaches every job that waits for it.  [resolve_dm]
    returns one route for each open episode of that agent with that DM pending
    and no other; in those episodes the DM is no longer pending and one more
    run is in flight, so none of them can close before its continuation is
    accounted for; every other episode is untouched; and a second resolution
    of the same end finds nothing.  The routes lead to the jobs' own
    sessions. *)
Theorem resolve_dm_exact deadline t dm agent :
  episodes_reachable deadline t →
  let '(routes, t') := resolve_dm dm agent t in
  NoDup (route_job_id <$> routes) ∧
  (∀ r, r ∈ routes ↔ ∃ job ep, tk_episodes t !! job = Some ep ∧ r = route_of ep ∧
     route_job_id r = job ∧ ep_agent_id ep = agent ∧ dm ∈ ep_pending_dms ep) ∧
  (∀ job ep, tk_episodes t !! job = Some ep →
     if decide (ep_agent_id ep = agent ∧ dm ∈ ep_pending_dms ep)
     then ∃ ep', tk_episodes t' !! job = Some ep' ∧
            ep_pending_dms ep' = ep_pending_dms ep ∖ {[dm]} ∧
            ep_in_flight_runs ep' = ep_in_flight_runs ep + 1 ∧ is_quiescent ep' = false
     else tk_episodes t' !! job = Some ep) ∧
  Forall (λ r, classify_session_type (route_context_id r) = "job") routes ∧
  resolve_dm dm agent t' = ([], t').
Proof using.
  intros Hr. unfold resolve_dm. cbn [fst snd].
  assert (∀ ep, dm_matches dm agent ep = true ↔ ep_agent_id ep = agent ∧ dm ∈ ep_pending_dms ep)
    as Hm.
  { intros ep. unfold dm_matches. by rewrite andb_true_iff, !bool_decide_eq_true. }
  assert (∀ ep, dm_matches dm agent (take_dm dm ep) = false) as Hn.
  { intros ep. apply not_true_iff_false. rewrite Hm. simpl. set_solver. }
  split_and!.
  - rewrite <-list_fmap_compose.
    assert ((route_job_id ∘ (route_of ∘ snd)) <$>
        filter (λ e, dm_matches dm agent e.2 = true) (map_to_list (tk_episodes t)) =
      fst <$> filter (λ e, dm_matches dm agent e.2 = true) (map_to_list (tk_episodes t))) as ->.
    { apply list_fmap_ext. intros i [job ep] Hi. simpl.
      apply list_elem_of_lookup_2, list_elem_of_filter in Hi as [_ Hi].
      apply elem_of_map_to_list in Hi. by apply (episodes_reachable_ok _ _ Hr). }
    apply NoDup_fmap_2_strong; [|apply NoDup_filter, NoDup_map_to_list].
    intros [j1 e1] [j2 e2] [_ H1]%list_elem_of_filter [_ H2]%list_elem_of_filter. simpl.
    apply elem_of_map_to_list in H1, H2. congruence.
  - intros r. rewrite list_elem_of_fmap. split.
    + intros ([job ep] & -> & [Hd Hin]%list_elem_of_filter).
      apply elem_of_map_to_list in Hin. exists job, ep. simpl in *.
      rewrite Hm in Hd. destruct Hd. split_and!; try done.
      by apply (episodes_reachable_ok _ _ Hr).
    + intros (job & ep & Hj & -> & _ & Ha & Hin). exists (job, ep). split; [done|].
      apply list_elem_of_filter. rewrite elem_of_map_to_list. split; [by apply Hm|done].
  - intros job ep Hj. simpl. rewrite lookup_fmap, Hj. simpl.
    case_decide as Hd; [apply Hm in Hd as ->|].
    + eexists. split_and!; [done..|]. apply in_flight_not_quiescent. simpl. lia.
    + destruct (dm_matches dm agent ep) eqn:E; [by apply Hm in E|done].
  - apply Forall_fmap, Forall_true. intros [job ep]. reflexivity.
  - f_equal.
    + simpl. rewrite filter_none; [done|]. apply Forall_forall. intros [job ep] Hin. simpl.
      apply elem_of_map_to_list in Hin. rewrite lookup_fmap in Hin.
      destruct (tk_episodes t !! job) as [e|]; [|done]. injection Hin as <-.
      destruct (dm_matches dm agent e) eqn:E; [by rewrite Hn|by rewrite E].
    + unfold set_episodes. simpl. f_equal. rewrite <-map_fmap_compose. apply map_fmap_ext.
      intros job ep _. simpl. destruct (dm_matches dm agent ep) eqn:E; [by rewrite Hn|by rewrite E].
Qed.

(** The deadline sweep takes exactly the expired.  [take_expired] removes
    and returns the episodes whose armed deadline has passed and no others; an
    episode whose first turn is still queued has no deadline and is never
    taken, and once started it is taken no earlier than the configured time
    after its start. *)
Theorem take_expired_exact now t :
  let '(taken, t') := take_expired now t in
  (∀ job, tk_episodes t' !! job =
     match tk_episodes t !! job with
     | Some ep => if expired now ep then None else Some ep
     | None => None
     end) ∧
  (∀ ep, ep ∈ taken ↔ ∃ job, tk_episodes t !! job = Some ep ∧ expired now ep = true) ∧
  (∀ job ep, tk_episodes t !! job = Some ep → ep_deadline ep = None →
     tk_episodes t' !! job = Some ep) ∧
  (∀ utc at_ job run ep0 ep, tk_episodes t !! job = Some ep0 → head (ep_runs ep0) = Some run →
     tk_episodes (start_turn_one utc at_ job run t) !! job = Some ep →
     ∀ later, expired later ep = true ↔ (at_ + tk_deadline t ≤ later)%Z).
Proof using.
  unfold take_expired. cbn [fst snd tk_episodes set_episodes].
  assert (∀ job, job ∈ (fst <$> filter (λ e, expired now e.2 = true) (map_to_list (tk_episodes t))) ↔
    ∃ ep, tk_episodes t !! job = Some ep ∧ expired now ep = true) as Hids.
  { intros job. rewrite list_elem_of_fmap. split.
    - intros ([j ep] & -> & [He Hin]%list_elem_of_filter). apply elem_of_map_to_list in Hin. eauto.
    - intros (ep & Hj & He). exists (job, ep). split; [done|]. apply list_elem_of_filter.
      by rewrite elem_of_map_to_list. }
  assert (∀ job, foldr delete (tk_episodes t)
      (fst <$> filter (λ e, expired now e.2 = true) (map_to_list (tk_episodes t))) !! job =
     match tk_episodes t !! job with
     | Some ep => if expired now ep then None else Some ep
     | None => None
     end) as Hl.
  { intros job. rewrite foldr_delete_lookup. case_bool_decide as Hin.
    - apply Hids in Hin as (ep & -> & ->). done.
    - destruct (tk_episodes t !! job) as [ep|] eqn:E; [|done].
      destruct (expired now ep) eqn:Ee; [|done]. exfalso. apply Hin, Hids. eauto. }
  split_and!; [exact Hl|..].
  - intros ep. rewrite list_elem_of_omap. split.
    + intros (job & Hin & Hj). apply Hids in Hin as (ep' & Hj' & He). simplify_eq. eauto.
    + intros (job & Hj & He). exists job. split; [|done]. apply Hids. eauto.
  - intros job ep Hj Hd. rewrite Hl, Hj. unfold expired. by rewrite Hd.
  - intros utc at_ job run ep0 ep Hj Hh Hs later. unfold start_turn_one in Hs.
    rewrite Hj, bool_decide_eq_true_2 in Hs by done. simpl in Hs. rewrite lookup_insert_eq in Hs.
    injection Hs as <-. unfold expired. simpl. by rewrite Z.leb_le.
Qed.

(** An end that comes too early is lost.  When a DM ends before the run
    that opened it reports the opening, the resolution finds nothing, and when
    the run completes the DM is pending although its end is past, so the
    episode does not close. *)
Theorem early_end_stays_pending t job ep run dm agent :
  tk_episodes t !! job = Some ep → run ∉ ep_finished_runs ep → dm ∉ ep_pending_dms ep →
  ∃ ep', on_run_complete job run [dm] [] (snd (resolve_dm dm agent t)) =
    (Open, set_episodes (<[job := ep']> (tk_episodes (snd (resolve_dm dm agent t)))) t) ∧
    dm ∈ ep_pending_dms ep'.
Proof using.
  intros Hj Hrun Hdm.
  assert (tk_episodes (snd (resolve_dm dm agent t)) !! job = Some ep) as Hj'.
  { simpl. rewrite lookup_fmap, Hj. simpl. unfold dm_matches.
    by rewrite (bool_decide_eq_false_2 (dm ∈ _)), andb_false_r by done. }
  unfold on_run_complete. rewrite Hj', bool_decide_eq_false_2 by done.
  destruct (complete_run_fields run [dm] [] ep) as (Hd & _).
  set (ep' := complete_run run [dm] [] ep) in *. exists ep'.
  assert (dm ∈ ep_pending_dms ep') as Hin by (rewrite Hd; set_solver).
  split; [|done]. unfold settle. replace (is_quiescent ep') with false; [done|].
  symmetry. apply not_true_iff_false. rewrite is_quiescent_true. set_solver.
Qed.

End properties.

(** * Witnesses *)

Section witnesses.
Import SimpleUuid.

Local Definition job1 : JobId := MkJobId (MkUuid 1).
Local Definition job2 : JobId := MkJobId (MkUuid 2).
Local Definition agent1 : AgentId := MkAgentId (MkUuid 10).
Local Definition sess1 : SessionId := MkSessionId (MkUuid 21).
Local Definition sess2 : SessionId := MkSessionId (MkUuid 22).
Local Definition dm1 : SessionId := MkSessionId (MkUuid 30).
Local Definition run1 : RunId := MkRunId (MkUuid 41).
Local Definition run2 : RunId := MkRunId (MkUuid 42).

(** Two jobs of one agent, both waiting for the same DM. *)
Local Definition ops : list EpisodeOp :=
  [OpOpen 5 job1 sess1 agent1 run1; OpOpen 6 job2 sess2 agent1 run2;
   OpStart 7 100 job1 run1;
   OpComplete job1 run1 [dm1] []; OpComplete job2 run2 [dm1] []].
Local Definition t1 : JobEpisodeTracker :=
  fold_left (λ t op, exec_episode op t) ops (tracker_new 1000).
Local Definition t2 : JobEpisodeTracker := snd (resolve_dm dm1 agent1 t1).

Local Lemma t1_reachable : episodes_reachable 1000 t1.
Proof. unfold t1, ops. cbn [fold_left]. do 5 apply er_step. apply er_new. Qed.

Lemma episodes_reachable_wf_witness :
  ∃ ep, tk_episodes t1 !! job1 = Some ep ∧ is_quiescent ep = false.
Proof.
  destruct (tk_episodes t1 !! job1) as [ep|] eqn:E; [|vm_compute in E; discriminate E].
  exists ep. split; [reflexivity|].
  exact (proj1 (proj2 (episodes_reachable_wf 1000 t1 job1 ep t1_reachable E))).
Defined.

Lemma run_completion_exact_witness :
  on_run_complete job1 run1 [] [] t1 = (Open, t1) ∧
  tk_episodes (snd (on_run_complete job1 run2 [] [] t2)) !! job1 = None.
Proof.
  split; [vm_compute; reflexivity|].
  destruct (tk_episodes t2 !! job1) as [ep|] eqn:E; [|vm_compute in E; discriminate E].
  assert (run2 ∉ ep_finished_runs ep) as Hn.
  { vm_compute in E. injection E as <-. by apply (bool_decide_unpack _). }
  pose proof (run_completion_exact t2 job1 ep run2 [] [] E Hn) as H.
  destruct (on_run_complete job1 run2 [] [] t2) as [r t'] eqn:Er.
  destruct r as [e| |]; [exact (proj2 (proj1 H))| |];
    vm_compute in Er; discriminate Er.
Defined.

Lemma resolve_dm_exact_witness :
  length (fst (resolve_dm dm1 agent1 t1)) = 2 ∧ resolve_dm dm1 agent1 t2 = ([], t2).
Proof.
  split; [vm_compute; reflexivity|].
  pose proof (resolve_dm_exact 1000 t1 dm1 agent1 t1_reachable) as H.
  destruct (resolve_dm dm1 agent1 t1) as [routes t'] eqn:E.
  assert (t2 = t') as -> by (unfold t2; rewrite E; reflexivity).
  exact (proj2 (proj2 (proj2 (proj2 H)))).
Defined.

Lemma early_end_stays_pending_witness :
  ∃ ep', fst (on_run_complete job1 run1 [dm1] []
                (snd (resolve_dm dm1 agent1 (open 5 job1 sess1 agent1 run1 (tracker_new 1000)))))
           = Open ∧ dm1 ∈ ep_pending_dms ep'.
Proof.
  destruct (early_end_stays_pending (open 5 job1 sess1 agent1 run1 (tracker_new 1000)) job1
    (mkEpisode job1 sess1 agent1 5 None ∅ ∅ 1 [run1] ∅ 0 0 false) run1 dm1 agent1) as (ep' & H1 & H2).
  - vm_compute. reflexivity.
  - apply not_elem_of_empty.
  - apply not_elem_of_empty.
  - exists ep'. rewrite H1. split; [reflexivity|exact H2].
Defined.

End witnesses.
