(* ===== verification/Truncate.v ===== *)
(** In-loop truncation of tool output: [alms-runtime/src/tool_output_truncate.rs].

    Every tool result passes through [truncate]: within the byte and line caps
    it is returned unchanged, otherwise as a head and a tail of the text with a
    hint, and the whole text goes to a spill file.  The file system is a map from
    paths to contents; whether its two calls succeed is an argument. *)
From Stdlib Require Import DecimalString.
From S2P Require Import Prelude Ident.

Definition DEFAULT_MAX_BYTES : nat := 32 * 1024.
Definition DEFAULT_MAX_LINES : nat := 2000.

Definition newline : ascii := ascii_of_N 10.

(** The bytes of a text. *)
Definition chars (s : string) : list ascii := list_ascii_of_string s.

Definition is_nl (c : ascii) : bool := Ascii.eqb c newline.

Definition count_nl (l : list ascii) : nat := length (filter (λ c, is_nl c = true) l).

Definition show_nat (n : nat) : string := NilZero.string_of_uint (Nat.to_uint n).

(** An absolute path is the list of its components. *)
Definition Path := list string.

Record ToolOutputTruncatePolicy := {
  tp_enabled : bool;
  tp_run_dir : option Path;
  tp_max_bytes : nat;
  tp_max_lines : nat;
}.

Definition policy_disabled : ToolOutputTruncatePolicy :=
  {| tp_enabled := false; tp_run_dir := None; tp_max_bytes := DEFAULT_MAX_BYTES;
     tp_max_lines := DEFAULT_MAX_LINES |}.

Definition with_run_dir (run_dir : Path) : ToolOutputTruncatePolicy :=
  {| tp_enabled := true; tp_run_dir := Some run_dir; tp_max_bytes := DEFAULT_MAX_BYTES;
     tp_max_lines := DEFAULT_MAX_LINES |}.

Definition is_active (p : ToolOutputTruncatePolicy) : bool :=
  tp_enabled p && match tp_run_dir p with Some _ => true | None => false end.

Record TruncateOutcome := {
  to_content : string;
  to_truncated : bool;
  to_output_path : option string;
  to_original_bytes : nat;
  to_original_lines : nat;
}.

Definition count_lines (s : string) : nat :=
  match s with
  | EmptyString => 0
  | _ => count_nl (chars s) +
         (if match last_char s with Some c => is_nl c | None => false end then 0 else 1)
  end.

(** ** Head and tail *)

(** The loop of [take_head] from byte [i] on, with the newlines counted. *)
Fixpoint head_scan (byte_budget line_budget : nat) (l : list ascii) (i lines : nat) : nat :=
  match l with
  | [] => i
  | c :: l' =>
      if is_nl c then
        if Nat.leb line_budget (lines + 1) then i + 1
        else if Nat.leb byte_budget (i + 1) then i + 1
        else head_scan byte_budget line_budget l' (i + 1) (lines + 1)
      else if Nat.leb byte_budget (i + 1) then i + 1
      else head_scan byte_budget line_budget l' (i + 1) lines
  end.

Definition head_end (s : string) (byte_budget line_budget : nat) : nat :=
  boundary_below s (head_scan byte_budget line_budget (chars s) 0 0).

Definition take_head (s : string) (byte_budget line_budget : nat) : string :=
  if String.eqb s "" || Nat.eqb byte_budget 0 || Nat.eqb line_budget 0 then ""
  else str_take (head_end s byte_budget line_budget) s.

(** The loop of [take_tail] over the bytes before position [length l], in
    reverse. *)
Fixpoint tail_scan (byte_budget line_budget len : nat) (l : list ascii) (lines : nat) : nat :=
  match l with
  | [] => 0
  | c :: l' =>
      let i := length l' in
      if is_nl c then
        let lines' := if Nat.ltb (i + 1) len then lines + 1 else lines in
        if Nat.leb line_budget lines' then i + 1
        else if Nat.leb byte_budget (len - i) then i
        else tail_scan byte_budget line_budget len l' lines'
      else if Nat.leb byte_budget (len - i) then i
      else tail_scan byte_budget line_budget len l' lines
  end.

Definition tail_start (s : string) (byte_budget line_budget : nat) : nat :=
  let start := tail_scan byte_budget line_budget (String.length s) (rev (chars s)) 0 in
  boundary_above s (String.length s - start) start.

Definition take_tail (s : string) (byte_budget line_budget : nat) : string :=
  if String.eqb s "" || Nat.eqb byte_budget 0 || Nat.eqb line_budget 0 then ""
  else str_drop (tail_start s byte_budget line_budget) s.

(** ** The preview *)

Definition preview_budget (max_bytes : nat) : nat := Nat.max (max_bytes - 1024) (2 * 1024).
Definition head_byte_budget (max_bytes : nat) : nat := preview_budget max_bytes * 7 / 10.
Definition tail_byte_budget (max_bytes : nat) : nat :=
  preview_budget max_bytes - head_byte_budget max_bytes.
Definition head_line_budget (max_lines : nat) : nat := max_lines * 7 / 10.
Definition tail_line_budget (max_lines : nat) : nat := max_lines - head_line_budget max_lines.

Definition nl2 : string := String newline (String newline EmptyString).

Definition truncate_hint (max_bytes original_bytes original_lines : nat)
    (rel_spill_path : option string) : string :=
  match rel_spill_path with
  | Some rel =>
      nl2 +:+ "[The tool output was truncated to " +:+ show_nat (max_bytes / 1024) +:+ " KB. " +:+
      "Full output saved to: `" +:+ rel +:+ "` (" +:+ show_nat original_bytes +:+ " bytes, " +:+
      show_nat original_lines +:+ " lines). " +:+
      "Use `fs_grep` to search the full content or `fs_read` with `offset`/`limit` " +:+
      "to view specific sections.]" +:+ String newline EmptyString
  | None =>
      nl2 +:+ "[The tool output was truncated to " +:+ show_nat (max_bytes / 1024) +:+ " KB. " +:+
      "The full-output spill file could not be written; only this preview is available. " +:+
      "Original size: " +:+ show_nat original_bytes +:+ " bytes, " +:+
      show_nat original_lines +:+ " lines.]" +:+ String newline EmptyString
  end.

Definition truncate_middle (omitted_bytes omitted_lines : nat) : string :=
  nl2 +:+ "... [" +:+ show_nat omitted_bytes +:+ " bytes / " +:+ show_nat omitted_lines +:+
  " lines omitted] ..." +:+ nl2.

Definition build_preview (raw : string) (max_bytes max_lines original_bytes original_lines : nat)
    (rel_spill_path : option string) : string :=
  let head := take_head raw (head_byte_budget max_bytes) (head_line_budget max_lines) in
  let tail := take_tail raw (tail_byte_budget max_bytes) (tail_line_budget max_lines) in
  let omitted_bytes := original_bytes - (String.length head + String.length tail) in
  let omitted_lines := original_lines - (count_lines head + count_lines tail) in
  head +:+ truncate_middle omitted_bytes omitted_lines +:+ tail +:+
  truncate_hint max_bytes original_bytes original_lines rel_spill_path.

(** ** The spill file *)

(** [sanitize_tool_call_id] over the UTF-8 bytes: a character that is not
    plain becomes one underscore, so its continuation bytes are skipped.
    [nanos] is the clock reading of the fallback. *)
Definition id_char_ok (c : ascii) : bool :=
  is_ascii_alphanumeric c || Ascii.eqb c "-"%char || Ascii.eqb c "_"%char.

Definition is_continuation (c : ascii) : bool :=
  (128 <=? N_of_ascii c)%N && (N_of_ascii c <=? 191)%N.

Fixpoint clean_id (s : string) : string :=
  match s with
  | EmptyString => EmptyString
  | String c s' =>
      if id_char_ok c then String c (clean_id s')
      else if is_continuation c then clean_id s'
      else String "_"%char (clean_id s')
  end.

Definition sanitize_tool_call_id (nanos : nat) (id : string) : string :=
  let cleaned := clean_id id in
  if String.eqb cleaned "" then "unknown_" +:+ show_nat nanos else cleaned.

(** [Path::join] with a plain file name. *)
Definition path_join (p : Path) (name : string) : Path := p ++ [name].

Fixpoint path_strip_prefix (root p : Path) : option Path :=
  match root, p with
  | [], _ => Some p
  | r :: root', c :: p' => if String.eqb r c then path_strip_prefix root' p' else None
  | _ :: _, [] => None
  end.

Fixpoint slash_join (p : Path) : string :=
  match p with
  | [] => ""
  | [c] => c
  | c :: p' => c +:+ "/" +:+ slash_join p'
  end.

Fixpoint backslash_to_slash (s : string) : string :=
  match s with
  | EmptyString => EmptyString
  | String c s' => String (if Ascii.eqb c "\"%char then "/"%char else c) (backslash_to_slash s')
  end.

Definition relative_path (spill_path : Path) (workspace_root : option Path) : string :=
  let absolute := backslash_to_slash ("/" +:+ slash_join spill_path) in
  match workspace_root with
  | Some root =>
      match path_strip_prefix root spill_path with
      | Some rel => backslash_to_slash (slash_join rel)
      | None => absolute
      end
  | None => absolute
  end.

(** What the operating system does with the two calls of [write_spill]: whether
    the directory can be made, and whether the write succeeds.  A failed write
    may leave some content behind. *)
Inductive WriteResult := WriteOk | WriteFailed (left_behind : option string).

#[export] Instance WriteResult_eq_dec : EqDecision WriteResult.
Proof. solve_decision. Defined.

Record SpillEnv := {
  se_create_dir_ok : bool;
  se_write : WriteResult;
  se_nanos : nat;
}.

Definition Files := gmap Path string.

Definition write_spill (env : SpillEnv) (fs : Files) (run_dir : Path) (tool_call_id raw : string)
    : Files * option Path :=
  if se_create_dir_ok env then
    let path := path_join run_dir
      ("tool_" +:+ sanitize_tool_call_id (se_nanos env) tool_call_id +:+ ".txt") in
    match se_write env with
    | WriteOk => (<[path := raw]> fs, Some path)
    | WriteFailed None => (fs, None)
    | WriteFailed (Some partial) => (<[path := partial]> fs, None)
    end
  else (fs, None).

Definition truncate (env : SpillEnv) (fs : Files) (raw : string)
    (policy : ToolOutputTruncatePolicy) (tool_call_id : string) (workspace_root : option Path)
    : Files * TruncateOutcome :=
  let original_bytes := String.length raw in
  let original_lines := count_lines raw in
  let bytes_exceeded := Nat.ltb (tp_max_bytes policy) original_bytes in
  let lines_exceeded := Nat.ltb (tp_max_lines policy) original_lines in
  let unchanged :=
    {| to_content := raw; to_truncated := false; to_output_path := None;
       to_original_bytes := original_bytes; to_original_lines := original_lines |} in
  if negb (is_active policy) || (negb bytes_exceeded && negb lines_exceeded) then (fs, unchanged)
  else
    match tp_run_dir policy with
    | None => (fs, unchanged) (* excluded by [is_active] *)
    | Some run_dir =>
        let '(fs', spill_path) := write_spill env fs run_dir tool_call_id raw in
        let rel_path := option_map (λ p, relative_path p workspace_root) spill_path in
        (fs',
         {| to_content := build_preview raw (tp_max_bytes policy) (tp_max_lines policy)
                            original_bytes original_lines rel_path;
            to_truncated := true; to_output_path := rel_path;
            to_original_bytes := original_bytes; to_original_lines := original_lines |})
    end.

(** * Facts *)

Lemma chars_length s : length (chars s) = String.length s.
Proof. induction s; simpl; [done|]. by rewrite <-IHs. Qed.

Lemma chars_take n s : chars (str_take n s) = take n (chars s).
Proof. revert s; induction n; intros [|a s]; simpl; [done..|]. by rewrite <-IHn. Qed.

Lemma chars_drop n s : chars (str_drop n s) = drop n (chars s).
Proof. revert s; induction n; intros [|a s]; simpl; [done..|]. by rewrite <-IHn. Qed.

Lemma count_nl_app l k : count_nl (l ++ k) = count_nl l + count_nl k.
Proof. unfold count_nl. by rewrite filter_app, length_app. Qed.

Lemma count_nl_cons c l : count_nl (c :: l) = (if is_nl c then 1 else 0) + count_nl l.
Proof.
  unfold count_nl. rewrite filter_cons. destruct (is_nl c); [by rewrite decide_True|].
  by rewrite decide_False.
Qed.

(** Newlines with something after them. *)
Definition inner_nl (l : list ascii) : nat := count_nl (take (length l - 1) l).

Lemma inner_nl_cons c l :
  inner_nl (c :: l) = (if is_nl c && Nat.ltb 0 (length l) then 1 else 0) + inner_nl l.
Proof.
  unfold inner_nl. simpl. destruct l as [|d l]; simpl; [by rewrite andb_false_r|].
  rewrite Nat.sub_0_r, count_nl_cons, andb_true_r. done.
Qed.

Lemma inner_nl_le l : inner_nl l ≤ count_nl l.
Proof.
  unfold inner_nl. rewrite <-(take_drop (length l - 1) l) at 3. rewrite count_nl_app. lia.
Qed.

Lemma inner_nl_drop n l : inner_nl (drop n l) ≤ inner_nl l.
Proof.
  revert l; induction n as [|n IH]; intros [|c l]; cbn [drop]; [done..|].
  rewrite inner_nl_cons. specialize (IH l). lia.
Qed.

Lemma inner_nl_app l k : k ≠ [] → inner_nl (l ++ k) = count_nl l + inner_nl k.
Proof.
  intros Hk. induction l as [|c l IH]; [done|]. cbn [app].
  rewrite inner_nl_cons, IH, count_nl_cons. destruct k as [|d k]; [done|].
  rewrite length_app. simpl length. destruct (Nat.ltb_spec 0 (length l + S (length k))); [|lia].
  rewrite andb_true_r. lia.
Qed.

(** A line count is the newlines inside the text plus one. *)
Lemma count_lines_inner s : s ≠ "" → count_lines s = inner_nl (chars s) + 1.
Proof.
  intros Hs. destruct s as [|c s]; [done|]. unfold count_lines.
  revert c Hs; induction s as [|d s IH]; intros c _.
  - simpl. unfold inner_nl. simpl. rewrite count_nl_cons. destruct (is_nl c); done.
  - specialize (IH d ltac:(done)).
    change (last_char (String c (String d s))) with (last_char (String d s)).
    change (chars (String c (String d s))) with (c :: chars (String d s)).
    rewrite count_nl_cons, inner_nl_cons. simpl (length _).
    rewrite andb_true_r. lia.
Qed.

Lemma head_scan_spec bb lb l i lines :
  i < bb → lines < lb →
  let e := head_scan bb lb l i lines in
  i ≤ e ≤ i + length l ∧ e ≤ bb ∧ lines + count_nl (take (e - i) l) ≤ lb.
Proof.
  revert i lines; induction l as [|c l IH]; intros i lines Hi Hl; cbn [head_scan].
  - rewrite Nat.sub_diag. simpl. unfold count_nl. simpl. lia.
  - assert (∀ e lines', i + 1 ≤ e → lines' = lines + (if is_nl c then 1 else 0) →
      lines' + count_nl (take (e - (i + 1)) l) ≤ lb → lines + count_nl (take (e - i) (c :: l)) ≤ lb)
      as Hstep.
    { intros e lines' He -> H. replace (e - i) with (S (e - (i + 1))) by lia.
      simpl take. rewrite count_nl_cons. lia. }
    assert (∀ lines', lines' = lines + (if is_nl c then 1 else 0) → lines' ≤ lb →
      lines + count_nl (take (i + 1 - i) (c :: l)) ≤ lb) as Hone.
    { intros lines' -> H. apply (Hstep (i + 1) (lines + (if is_nl c then 1 else 0))); [lia|done|].
      rewrite Nat.sub_diag. simpl. unfold count_nl. simpl. lia. }
    simpl length. destruct (is_nl c) eqn:Ec.
    + destruct (Nat.leb_spec lb (lines + 1)); [split_and!; try lia; apply (Hone (lines + 1)); lia|].
      destruct (Nat.leb_spec bb (i + 1)); [split_and!; try lia; apply (Hone (lines + 1)); lia|].
      destruct (IH (i + 1) (lines + 1)) as (H1 & H2 & H3); [lia..|].
      split_and!; try lia. apply (Hstep _ (lines + 1)); lia.
    + destruct (Nat.leb_spec bb (i + 1)); [split_and!; try lia; apply (Hone lines); lia|].
      destruct (IH (i + 1) lines) as (H1 & H2 & H3); [lia..|].
      split_and!; try lia. apply (Hstep _ lines); lia.
Qed.

Lemma tail_scan_spec bb lb len l k lines :
  len = length l + length k → lines = inner_nl k → lines < lb → length k < bb →
  let b := tail_scan bb lb len l lines in
  b ≤ length l ∧ inner_nl (drop b (rev l ++ k)) < lb ∧ len - b ≤ bb.
Proof.
  revert k lines; induction l as [|c l IH]; intros k lines Hlen Hlines Hlb Hbb; cbn [tail_scan].
  - simpl in *. subst. split_and!; try done; lia.
  - simpl rev. rewrite <-app_assoc. cbn [app]. simpl length in *.
    assert (drop (length l) (rev l ++ c :: k) = c :: k) as Hd.
    { rewrite drop_app_ge by (rewrite length_rev; lia). by rewrite length_rev, Nat.sub_diag. }
    assert (drop (length l + 1) (rev l ++ c :: k) = k) as Hd1.
    { rewrite drop_app_ge by (rewrite length_rev; lia). rewrite length_rev.
      by replace (length l + 1 - length l) with 1 by lia. }
    assert (Nat.ltb (length l + 1) len = Nat.ltb 0 (length k)) as Hlt.
    { destruct (Nat.ltb_spec (length l + 1) len), (Nat.ltb_spec 0 (length k)); lia. }
    pose proof (inner_nl_cons c k) as Hin.
    set (lines' := if Nat.ltb (length l + 1) len then lines + 1 else lines).
    assert (is_nl c = true → inner_nl (c :: k) = lines') as Hnl.
    { intros E. rewrite Hin, E. unfold lines'. rewrite Hlt. destruct (Nat.ltb 0 (length k)); simpl; lia. }
    destruct (is_nl c) eqn:Ec; simpl in Hin.
    + specialize (Hnl eq_refl). destruct (Nat.leb_spec lb lines').
      { rewrite Hd1. split_and!; lia. }
      destruct (Nat.leb_spec bb (len - length l)); [rewrite Hd; split_and!; lia|].
      destruct (IH (c :: k) lines') as (H1 & H2 & H3); [simpl; lia..|]. split_and!; [lia|done..].
    + destruct (Nat.leb_spec bb (len - length l)); [rewrite Hd; split_and!; lia|].
      destruct (IH (c :: k) lines) as (H1 & H2 & H3); [simpl; lia..|]. split_and!; [lia|done..].
Qed.

Lemma take_head_end s bb lb :
  ∃ e, take_head s bb lb = str_take e s ∧ e ≤ String.length s ∧ e ≤ bb ∧
       count_nl (take e (chars s)) ≤ lb ∧ is_char_boundary s e = true ∧
       (e = 0 ∨ 0 < lb).
Proof.
  unfold take_head. destruct (_ || _) eqn:E.
  { exists 0. split_and!; try done; try lia; apply Nat.le_0_l. }
  apply orb_false_iff in E as [E E3]. apply orb_false_iff in E as [E1 E2].
  apply Nat.eqb_neq in E2, E3. unfold head_end.
  destruct (head_scan_spec bb lb (chars s) 0 0) as ([_ H1] & H2 & H3); [lia..|].
  set (e0 := head_scan bb lb (chars s) 0 0) in *.
  destruct (boundary_below_spec s e0) as (B1 & B2 & _).
  rewrite chars_length in H1. rewrite Nat.sub_0_r in H3.
  exists (boundary_below s e0). split_and!; try done; try lia.
  etrans; [|exact H3]. simpl.
  rewrite <-(take_drop (boundary_below s e0) (take e0 (chars s))), count_nl_app, take_take.
  rewrite Nat.min_l by lia. lia.
Qed.

Lemma take_tail_start s bb lb :
  ∃ b, take_tail s bb lb = str_drop b s ∧ b ≤ String.length s ∧ String.length s - b ≤ bb ∧
       is_char_boundary s b = true ∧ (b = String.length s ∨ inner_nl (drop b (chars s)) < lb).
Proof.
  unfold take_tail. destruct (_ || _) eqn:E.
  { exists (String.length s). rewrite is_char_boundary_len. split_and!; [|lia|lia|done|by left].
    clear E. induction s; simpl; [done|]. exact IHs. }
  apply orb_false_iff in E as [E E3]. apply orb_false_iff in E as [E1 E2].
  apply Nat.eqb_neq in E2, E3. unfold tail_start.
  destruct (tail_scan_spec bb lb (String.length s) (rev (chars s)) [] 0) as (H1 & H2 & H3).
  - rewrite length_rev, chars_length. simpl. lia.
  - done.
  - lia.
  - simpl. lia.
  - set (b0 := tail_scan bb lb (String.length s) (rev (chars s)) 0) in *.
    rewrite length_rev, chars_length in H1. rewrite rev_involutive, app_nil_r in H2.
    destruct (boundary_above_spec s (String.length s - b0) b0) as (B1 & B2 & _); [lia|].
    set (b := boundary_above s (String.length s - b0) b0) in *.
    exists b. split_and!; try done; try lia. right.
    replace (drop b (chars s)) with (drop (b - b0) (drop b0 (chars s))).
    + pose proof (inner_nl_drop (b - b0) (drop b0 (chars s))). lia.
    + rewrite drop_drop. f_equal. lia.
Qed.

Lemma str_cut3 e b raw :
  e ≤ b → raw = str_take e raw +:+ str_take (b - e) (str_drop e raw) +:+ str_drop b raw.
Proof.
  intros Hle. rewrite <-(str_take_drop e raw) at 1. f_equal.
  rewrite <-(str_take_drop (b - e) (str_drop e raw)) at 1. f_equal.
  rewrite <-(string_of_list_ascii_of_string (str_drop b raw)),
    <-(string_of_list_ascii_of_string (str_drop (b - e) _)). f_equal.
  change (chars (str_drop (b - e) (str_drop e raw)) = chars (str_drop b raw)).
  rewrite !chars_drop, drop_drop. f_equal. lia.
Qed.

Lemma budgets max_bytes max_lines :
  3072 ≤ max_bytes →
  head_byte_budget max_bytes + tail_byte_budget max_bytes = max_bytes - 1024 ∧
  head_line_budget max_lines + tail_line_budget max_lines = max_lines.
Proof.
  intros H. unfold tail_byte_budget, tail_line_budget, head_byte_budget, head_line_budget.
  assert (preview_budget max_bytes = max_bytes - 1024) as -> by (unfold preview_budget; lia).
  pose proof (Nat.Div0.div_le_mono (max_lines * 7) (max_lines * 10) 10 ltac:(lia)) as H1.
  rewrite Nat.div_mul in H1 by lia.
  pose proof (Nat.Div0.div_le_mono ((max_bytes - 1024) * 7) ((max_bytes - 1024) * 10) 10 ltac:(lia)) as H2.
  rewrite Nat.div_mul in H2 by lia. lia.
Qed.

(** The two parts do not overlap when a cap fired. *)
Lemma parts_disjoint raw max_bytes max_lines e b :
  3072 ≤ max_bytes →
  max_bytes < String.length raw ∨ max_lines < count_lines raw →
  e ≤ String.length raw → b ≤ String.length raw →
  e ≤ head_byte_budget max_bytes → String.length raw - b ≤ tail_byte_budget max_bytes →
  count_nl (take e (chars raw)) ≤ head_line_budget max_lines →
  (b = String.length raw ∨ inner_nl (drop b (chars raw)) < tail_line_budget max_lines) →
  e ≤ b.
Proof.
  intros Hmb Hexc He Hb He1 Hb1 Hel Hbl. destruct (budgets max_bytes max_lines Hmb) as [Bb Bl].
  destruct Hexc as [Hbytes|Hlines]; [lia|].
  destruct (le_lt_dec e b) as [|Hover]; [done|]. exfalso.
  destruct Hbl as [->|Hbl]; [lia|].
  assert (raw ≠ "") as Hne by (intros ->; simpl in *; lia).
  rewrite (count_lines_inner raw Hne) in Hlines.
  destruct (decide (drop e (chars raw) = [])) as [Hd|Hd].
  - pose proof (inner_nl_le (chars raw)). rewrite <-(take_drop e (chars raw)) in H at 2.
    rewrite Hd, app_nil_r in H. lia.
  - rewrite <-(take_drop e (chars raw)), inner_nl_app in Hlines by done.
    pose proof (inner_nl_drop (e - b) (drop b (chars raw))) as H. rewrite drop_drop in H.
    replace (b + (e - b)) with e in H by lia. lia.
Qed.

Lemma show_uint_digits d :
  forall_chars is_ascii_digit (NilEmpty.string_of_uint d) = true.
Proof. induction d; simpl; done. Qed.

Lemma show_nat_ok n : forall_chars id_char_ok (show_nat n) = true ∧ show_nat n ≠ "".
Proof.
  unfold show_nat, NilZero.string_of_uint.
  assert (∀ s, forall_chars is_ascii_digit s = true → forall_chars id_char_ok s = true) as Hs.
  { induction s as [|c s IH]; simpl; [done|]. intros [Hc Hs]%andb_true_iff.
    unfold id_char_ok, is_ascii_alphanumeric. rewrite Hc, orb_true_r. simpl. auto. }
  destruct (Nat.to_uint n) eqn:E; split; try done; apply Hs, show_uint_digits.
Qed.

(** The preview of a text over a cap, for a byte cap of at least 3 KB. *)
Lemma build_preview_exact raw max_bytes max_lines rel :
  3072 ≤ max_bytes →
  max_bytes < String.length raw ∨ max_lines < count_lines raw →
  ∃ head omitted tail omitted_lines,
    raw = head +:+ omitted +:+ tail ∧
    is_char_boundary raw (String.length head) = true ∧
    is_char_boundary raw (String.length head + String.length omitted) = true ∧
    String.length head + String.length tail ≤ max_bytes - 1024 ∧
    build_preview raw max_bytes max_lines (String.length raw) (count_lines raw) rel =
      head +:+ truncate_middle (String.length omitted) omitted_lines +:+ tail +:+
      truncate_hint max_bytes (String.length raw) (count_lines raw) rel.
Proof.
  intros Hmb Hexc. unfold build_preview.
  destruct (take_head_end raw (head_byte_budget max_bytes) (head_line_budget max_lines))
    as (e & -> & E1 & E2 & E3 & E4 & _).
  destruct (take_tail_start raw (tail_byte_budget max_bytes) (tail_line_budget max_lines))
    as (b & -> & B1 & B2 & B3 & B4).
  pose proof (parts_disjoint raw _ _ e b Hmb Hexc E1 B1 E2 B2 E3 B4) as Hle.
  destruct (budgets max_bytes max_lines Hmb) as [Hbud _].
  exists (str_take e raw), (str_take (b - e) (str_drop e raw)), (str_drop b raw). eexists.
  rewrite !str_take_length, !str_drop_length, (Nat.min_l e), Nat.min_l by lia.
  split_and!; [by apply str_cut3| done | by replace (e + (b - e)) with b by lia | lia |].
  by replace (String.length raw - (e + (String.length raw - b))) with (b - e) by lia.
Qed.

Lemma truncate_within env fs raw policy id ws :
  is_active policy = false ∨
  String.length raw ≤ tp_max_bytes policy ∧ count_lines raw ≤ tp_max_lines policy →
  truncate env fs raw policy id ws =
    (fs, {| to_content := raw; to_truncated := false; to_output_path := None;
            to_original_bytes := String.length raw; to_original_lines := count_lines raw |}).
Proof.
  unfold truncate. intros [->|[H1 H2]]; [done|].
  by rewrite (proj2 (Nat.ltb_ge _ _) H1), (proj2 (Nat.ltb_ge _ _) H2), orb_true_r.
Qed.

Lemma truncate_over env fs raw policy id ws :
  is_active policy = true →
  tp_max_bytes policy < String.length raw ∨ tp_max_lines policy < count_lines raw →
  ∃ dir, tp_run_dir policy = Some dir ∧
    truncate env fs raw policy id ws =
      let spill := write_spill env fs dir id raw in
      let rel := option_map (λ p, relative_path p ws) spill.2 in
      (spill.1,
       {| to_content := build_preview raw (tp_max_bytes policy) (tp_max_lines policy)
                          (String.length raw) (count_lines raw) rel;
          to_truncated := true; to_output_path := rel;
          to_original_bytes := String.length raw; to_original_lines := count_lines raw |}).
Proof.
  intros Hact Hexc. unfold truncate. rewrite Hact. unfold is_active in Hact.
  destruct (tp_run_dir policy) as [dir|]; [|by rewrite andb_false_r in Hact].
  exists dir. split; [done|]. destruct (write_spill _ _ _ _ _) as [fs' sp]. simpl.
  destruct Hexc as [H|H]; rewrite (proj2 (Nat.ltb_lt _ _) H); [done|by rewrite andb_false_r].
Qed.

(** * Properties *)

(** What the agent sees of a tool's output, and where the rest goes.
    Output within both caps, or with the service off, is passed on unchanged
    and writes no file.  Otherwise, for a byte cap of at least 3 KB, the preview
    is a prefix and a suffix of the output, cut at character boundaries, that do
    not overlap: with the omitted part they make up the whole output, the number
    of omitted bytes it reports is exact, and the two parts stay at least 1 KB
    below the cap.  A path is reported exactly when the write succeeded, and
    then the file holds the whole output. *)
Theorem truncate_exact env fs raw policy id ws :
  let fs' := (truncate env fs raw policy id ws).1 in
  let out := (truncate env fs raw policy id ws).2 in
  to_original_bytes out = String.length raw ∧ to_original_lines out = count_lines raw ∧
  (is_active policy = false ∨
   String.length raw ≤ tp_max_bytes policy ∧ count_lines raw ≤ tp_max_lines policy →
   fs' = fs ∧ to_content out = raw ∧ to_truncated out = false ∧ to_output_path out = None) ∧
  (is_active policy = true → 3072 ≤ tp_max_bytes policy →
   tp_max_bytes policy < String.length raw ∨ tp_max_lines policy < count_lines raw →
   to_truncated out = true ∧
   (if se_create_dir_ok env && bool_decide (se_write env = WriteOk) then
      ∃ run_dir path, tp_run_dir policy = Some run_dir ∧
        path = path_join run_dir
          ("tool_" +:+ sanitize_tool_call_id (se_nanos env) id +:+ ".txt") ∧
        fs' !! path = Some raw ∧ to_output_path out = Some (relative_path path ws)
    else to_output_path out = None) ∧
   ∃ head omitted tail omitted_lines,
     raw = head +:+ omitted +:+ tail ∧
     is_char_boundary raw (String.length head) = true ∧
     is_char_boundary raw (String.length head + String.length omitted) = true ∧
     String.length head + String.length tail ≤ tp_max_bytes policy - 1024 ∧
     to_content out = head +:+ truncate_middle (String.length omitted) omitted_lines +:+ tail +:+
       truncate_hint (tp_max_bytes policy) (String.length raw) (count_lines raw)
         (to_output_path out)).
Proof.
  cbv zeta. split_and!; [unfold truncate; by repeat case_match..| |].
  - intros Hno. by rewrite (truncate_within env fs raw policy id ws Hno).
  - intros Hact Hmb Hexc.
    destruct (truncate_over env fs raw policy id ws Hact Hexc) as (dir & Hdir & ->). simpl.
    split_and!; [done| |].
    + unfold write_spill. destruct (se_create_dir_ok env); [|done].
      destruct (se_write env) as [|[|]]; simpl; [|done..].
      eexists _, _. split_and!; [done..| |done]. apply lookup_insert_eq.
    + apply build_preview_exact; done.
Qed.

(** A spill file's name stays a plain file name: whatever id the model
    provider sent, the sanitised one is not empty and has only letters, digits,
    hyphens and underscores. *)
Theorem sanitized_id_safe nanos id :
  forall_chars id_char_ok (sanitize_tool_call_id nanos id) = true ∧
  sanitize_tool_call_id nanos id ≠ "".
Proof.
  unfold sanitize_tool_call_id. destruct (String.eqb_spec (clean_id id) "") as [_|Hne].
  - destruct (show_nat_ok nanos) as [H1 H2]. split; [exact H1|done].
  - split; [|done]. clear Hne. induction id as [|c id IH]; [done|]. cbn [clean_id].
    destruct (id_char_ok c) eqn:E; [simpl; by rewrite E|].
    destruct (is_continuation c); done.
Qed.

(** The line cap bounds the two parts but not the marker and hint lines: a
    text of 3000 lines gives a preview of more than the default cap. *)
Lemma preview_over_line_cap :
  let raw := Nat.iter 3000 (String.append ("x" +:+ String newline EmptyString)) "" in
  DEFAULT_MAX_LINES <
  count_lines (build_preview raw DEFAULT_MAX_BYTES DEFAULT_MAX_LINES (String.length raw)
                 (count_lines raw) None).
Proof. apply Nat.ltb_lt. vm_compute. reflexivity. Qed.
