(* ===== verification/ShellParse.v ===== *)
(** Parsing of shell commands: the splitter and tokenizer of
    [alms-sandbox/src/shell/classification.rs].

    A command is cut at the shell's operators, the insides of substitutions
    included, and each fragment is cut into words.  The code reads bytes and
    pushes each as a [char], so a byte of 128 or more comes out as the two-byte
    encoding of that code point.  [walk] has a step budget; more than the length
    of the text is always enough ([walk_fuel_eq]).  [Script] is a grammar of shell
    commands on which the splitter is shown to find every command. *)
From S2P Require Import Prelude.

(** * Characters *)

Definition dquote : ascii := ascii_of_N 34.

(** [buf.push(b as char)]. *)
Definition latin1 (c : ascii) : string :=
  let n := N_of_ascii c in
  if (n <? 128)%N then String c EmptyString
  else String (ascii_of_N (N.lor 192 (N.shiftr n 6)))
         (String (ascii_of_N (N.lor 128 (N.land n 63))) EmptyString).

Definition push_char (buf : string) (c : ascii) : string := buf +:+ latin1 c.

(** [(b as char).is_whitespace()]. *)
Definition byte_is_whitespace (c : ascii) : bool :=
  let n := N_of_ascii c in (ws1 n || (n =? 133) || (n =? 160))%N.

Definition first_is (s : string) (c : ascii) : bool :=
  match s with String d _ => Ascii.eqb d c | EmptyString => false end.

Fixpoint contains (s p : string) : bool :=
  starts_with s p || match s with String _ s' => contains s' p | EmptyString => false end.

Definition ends_with (s p : string) : bool :=
  String.eqb (str_drop (String.length s - String.length p) s) p.

(** * Zero-width characters *)

(** U+200B..U+200F, U+202A..U+202E and U+2060..U+2064 are [E2 80 8B..8F],
    [E2 80 AA..AE] and [E2 81 A0..A4]; U+FEFF is [EF BB BF]. *)
Definition zero_width (a b c : ascii) : bool :=
  let a := N_of_ascii a in let b := N_of_ascii b in let c := N_of_ascii c in
  ((a =? 226) && (b =? 128) && ((139 <=? c) && (c <=? 143) || (170 <=? c) && (c <=? 174))
   || (a =? 226) && (b =? 129) && ((160 <=? c) && (c <=? 164))
   || (a =? 239) && (b =? 187) && (c =? 191))%N.

Fixpoint strip_zero_width (s : string) : string :=
  match s with
  | String a s1 =>
      match s1 with
      | String b (String c s3) =>
          if zero_width a b c then strip_zero_width s3 else String a (strip_zero_width s1)
      | _ => String a (strip_zero_width s1)
      end
  | EmptyString => EmptyString
  end.

(** * Splitting *)

Fixpoint find_unescaped (s : string) (needle : ascii) : option nat :=
  match s with
  | EmptyString => None
  | String c s1 =>
      match s1 with
      | String _ s2 =>
          if Ascii.eqb c "\"%char then option_map (λ i, 2 + i) (find_unescaped s2 needle)
          else if Ascii.eqb c needle then Some 0
          else option_map S (find_unescaped s1 needle)
      | EmptyString => if Ascii.eqb c needle then Some 0 else None
      end
  end.

(** The loop of [find_matching_close_paren], with its depth and its two quoting
    flags; [depth] counts from one. *)
Fixpoint close_paren (s : string) (depth : nat) (in_single in_double : bool) : option nat :=
  match s with
  | EmptyString => None
  | String c s1 =>
      if Ascii.eqb c "\"%char && negb (String.eqb s1 "") then
        match s1 with
        | String _ s2 => option_map (λ i, 2 + i) (close_paren s2 depth in_single in_double)
        | EmptyString => None (* excluded by the test above *)
        end
      else if Ascii.eqb c "'"%char && negb in_double then
        option_map S (close_paren s1 depth (negb in_single) in_double)
      else if Ascii.eqb c dquote && negb in_single then
        option_map S (close_paren s1 depth in_single (negb in_double))
      else if negb in_single && negb in_double then
        if Ascii.eqb c "("%char then option_map S (close_paren s1 (depth + 1) in_single in_double)
        else if Ascii.eqb c ")"%char then
          if Nat.eqb (depth - 1) 0 then Some 0
          else option_map S (close_paren s1 (depth - 1) in_single in_double)
        else option_map S (close_paren s1 depth in_single in_double)
      else option_map S (close_paren s1 depth in_single in_double)
  end.

Definition find_matching_close_paren (s : string) : option nat := close_paren s 1 false false.

Definition flush (buf : string) : list string :=
  let trimmed := trim buf in
  if String.eqb trimmed "" then [] else [trimmed].

Definition split_char (c : ascii) : bool :=
  Ascii.eqb c ";"%char || Ascii.eqb c "|"%char || Ascii.eqb c "&"%char || Ascii.eqb c lf.

(** The loop of [walk_and_split] at the rest [s] of the text, with the pending
    fragment and the quoting state; the fragments it adds, in order. *)
Fixpoint walk (fuel : nat) (s buf : string) (in_single in_double : bool) (paren_depth : nat)
    (in_backtick : bool) : list string :=
  match fuel with
  | O => []
  | S fuel =>
  match s with
  | EmptyString => flush buf
  | String c s1 =>
      let push := walk fuel s1 (push_char buf c) in
      let descend open end_rel :=
        walk fuel (str_take end_rel (str_drop open s)) "" false false 0 false ++
        walk fuel (str_drop (open + end_rel + 1) s) (buf +:+ str_take (open + end_rel + 1) s)
          in_single in_double paren_depth in_backtick in
      if Ascii.eqb c "'"%char && negb in_double && negb in_backtick then
        push (negb in_single) in_double paren_depth in_backtick
      else if Ascii.eqb c dquote && negb in_single && negb in_backtick then
        push in_single (negb in_double) paren_depth in_backtick
      else if in_single then push in_single in_double paren_depth in_backtick
      else if Ascii.eqb c "`"%char then
        if in_backtick then push in_single in_double paren_depth false
        else match find_unescaped s1 "`"%char with
             | Some end_rel => descend 1 end_rel
             | None => push in_single in_double paren_depth true
             end
      else if Ascii.eqb c "$"%char && first_is s1 "("%char && negb in_backtick then
        match find_matching_close_paren (str_drop 2 s) with
        | Some end_rel => descend 2 end_rel
        | None => push in_single in_double paren_depth in_backtick
        end
      else match (if (Ascii.eqb c "<"%char || Ascii.eqb c ">"%char) && first_is s1 "("%char
                     && negb in_backtick
                  then find_matching_close_paren (str_drop 2 s) else None) with
      | Some end_rel => descend 2 end_rel
      | None =>
      if Ascii.eqb c "("%char && negb in_backtick then
        push in_single in_double (paren_depth + 1) in_backtick
      else if Ascii.eqb c ")"%char && negb in_backtick && Nat.ltb 0 paren_depth then
        push in_single in_double (paren_depth - 1) in_backtick
      else match (if Ascii.eqb c "\"%char then s1 else "") with
      | String d s2 =>
          walk fuel s2 (push_char (push_char buf c) d) in_single in_double paren_depth in_backtick
      | EmptyString =>
      if negb in_double && negb in_backtick && Nat.eqb paren_depth 0 && split_char c then
        flush buf ++
        walk fuel (if (Ascii.eqb c "&"%char || Ascii.eqb c "|"%char) && first_is s1 c
                   then str_drop 1 s1 else s1)
          "" in_single in_double paren_depth in_backtick
      else push in_single in_double paren_depth in_backtick
      end
      end
  end
  end.

Definition walk_and_split (s : string) : list string :=
  walk (String.length s + 1) s "" false false 0 false.

Definition split_into_subcommands (command : string) : list string :=
  let cleaned := strip_zero_width command in
  walk_and_split cleaned ++ [cleaned].

(** * Words *)

Definition push_token (cur : string) (tokens : list string) : list string :=
  if String.eqb cur "" then tokens else cur :: tokens.

(** The loop of [tokenize]; redirections are words of their own. *)
Fixpoint tokenize_from (s cur : string) (in_single in_double : bool) : list string :=
  match s with
  | EmptyString => push_token cur []
  | String c s1 =>
      if Ascii.eqb c "\"%char && negb (String.eqb s1 "") && negb in_single then
        match s1 with
        | String d s2 => tokenize_from s2 (push_char cur d) in_single in_double
        | EmptyString => [] (* excluded by the test above *)
        end
      else if Ascii.eqb c "'"%char && negb in_double then
        tokenize_from s1 cur (negb in_single) in_double
      else if Ascii.eqb c dquote && negb in_single then
        tokenize_from s1 cur in_single (negb in_double)
      else if in_single || in_double then
        tokenize_from s1 (push_char cur c) in_single in_double
      else if byte_is_whitespace c then push_token cur (tokenize_from s1 "" in_single in_double)
      else if Ascii.eqb c ">"%char || Ascii.eqb c "<"%char then
        push_token cur
          (if first_is s1 c then
             match s1 with
             | String _ s2 =>
                 String c (String c EmptyString) :: tokenize_from s2 "" in_single in_double
             | EmptyString => [] (* excluded by the test above *)
             end
           else String c EmptyString :: tokenize_from s1 "" in_single in_double)
      else if (is_ascii_digit c || Ascii.eqb c "&"%char) && first_is s1 ">"%char then
        match s1 with
        | String _ (String d s3 as s2) =>
            push_token cur
              (if Ascii.eqb d ">"%char
               then String c ">>" :: tokenize_from s3 "" in_single in_double
               else String c ">" :: tokenize_from s2 "" in_single in_double)
        | _ => push_token cur [String c ">"]
        end
      else tokenize_from s1 (push_char cur c) in_single in_double
  end.

Definition tokenize (frag : string) : list string := tokenize_from frag "" false false.

Definition ident_char (c : ascii) : bool := is_ascii_alphanumeric c || Ascii.eqb c "_"%char.

Definition is_ascii_alphabetic (c : ascii) : bool := is_ascii_upper c || is_ascii_lower c.

(** [NAME=VALUE] with a shell identifier for a name. *)
Definition is_assignment (t : string) : bool :=
  match split_once "="%char t with
  | Some (name, _) =>
      match name with
      | String c _ => (is_ascii_alphabetic c || Ascii.eqb c "_"%char) && forall_chars ident_char name
      | EmptyString => false
      end
  | None => false
  end.

Fixpoint strip_leading_assignments (tokens : list string) : list string :=
  match tokens with
  | t :: tokens' => if is_assignment t then strip_leading_assignments tokens' else tokens
  | [] => []
  end.

Fixpoint trim_start_char (c : ascii) (s : string) : string :=
  match s with
  | String a s' => if Ascii.eqb a c then trim_start_char c s' else s
  | EmptyString => EmptyString
  end.

(** The text after the last ['/'], the whole text when there is none. *)
Fixpoint after_last_slash (s : string) : string :=
  match s with
  | EmptyString => EmptyString
  | String a s' =>
      if char_in "/"%char s' then after_last_slash s'
      else if Ascii.eqb a "/"%char then s' else s
  end.

(** The name of the program a word runs. *)
Definition program_name (head : string) : string :=
  to_ascii_lowercase (after_last_slash (trim_start_char "\"%char head)).

Definition head_of (tokens : list string) : option string :=
  match strip_leading_assignments tokens with
  | head :: _ => Some (program_name head)
  | [] => None
  end.

(** * The splitter terminates *)

Lemma walk_fuel_eq n m s buf sq dq d bt :
  String.length s < n → String.length s < m →
  walk n s buf sq dq d bt = walk m s buf sq dq d bt.
Proof.
  revert m s buf sq dq d bt; induction n as [|n IH]; intros [|m] s buf sq dq d bt Hn Hm; try lia.
  destruct s as [|c s1]; [done|]. cbn [walk]. simpl String.length in *.
  assert (∀ buf sq dq d bt, walk n s1 buf sq dq d bt = walk m s1 buf sq dq d bt) as Hpush.
  { intros. apply IH; lia. }
  assert (∀ k s', k + String.length s' ≤ S (String.length s1) → 0 < k →
    ∀ buf sq dq d bt, walk n s' buf sq dq d bt = walk m s' buf sq dq d bt) as Hless.
  { intros k s' Hk Hpos ?????. apply IH; lia. }
  assert (∀ open e buf sq dq d bt, 0 < open →
    walk n (str_take e (str_drop open (String c s1))) "" false false 0 false ++
    walk n (str_drop (open + e + 1) (String c s1)) buf sq dq d bt =
    walk m (str_take e (str_drop open (String c s1))) "" false false 0 false ++
    walk m (str_drop (open + e + 1) (String c s1)) buf sq dq d bt) as Hdesc.
  { intros open e ????? Hopen.
    f_equal; apply (Hless 1); rewrite ?str_take_length, ?str_drop_length; simpl; lia. }
  destruct (_ && _ && _); [apply Hpush|]. destruct (_ && _ && _); [apply Hpush|].
  destruct sq; [apply Hpush|].
  destruct (Ascii.eqb c "`"%char).
  { destruct bt; [apply Hpush|]. destruct (find_unescaped _ _); [apply Hdesc; lia|apply Hpush]. }
  destruct (_ && _ && _).
  { destruct (find_matching_close_paren _); [apply Hdesc; lia|apply Hpush]. }
  destruct (if _ : bool then _ else _); [apply Hdesc; lia|].
  destruct (_ && _); [apply Hpush|]. destruct (_ && _ && _); [apply Hpush|].
  destruct (if Ascii.eqb c "\"%char then s1 else "") as [|e s2] eqn:Eesc.
  - destruct (_ && _); [|apply Hpush]. f_equal.
    destruct (_ && _); [|apply Hpush].
    apply (Hless 1); rewrite ?str_drop_length; lia.
  - destruct (Ascii.eqb c "\"%char); [|done]. subst s1. simpl in *. apply IH; lia.
Qed.

(** * A grammar of shell commands

    A script is a chain of commands; a command is a sequence of literal text,
    quoted text and substitutions, whose bodies are scripts again. *)

Inductive SubstKind := DollarParen | InParen | OutParen.
Inductive Sep := Semi | Pipe | Amp | Newline | AndAnd | OrOr.

Inductive Script :=
| Last (c : Cmd)
| Chain (c : Cmd) (o : Sep) (rest : Script)
with Cmd :=
| Done
| Lit (s : string) (c : Cmd)
| Single (s : string) (c : Cmd)
| Double (s : string) (c : Cmd)
| Subst (k : SubstKind) (body : Script) (c : Cmd)
| Tick (body : Script) (c : Cmd).

Scheme Script_mut := Induction for Script Sort Prop
with Cmd_mut := Induction for Cmd Sort Prop.
Combined Scheme Script_Cmd_ind from Script_mut, Cmd_mut.

Definition print_kind (k : SubstKind) : string :=
  match k with DollarParen => "$(" | InParen => "<(" | OutParen => ">(" end.

Definition print_sep (o : Sep) : string :=
  match o with
  | Semi => ";" | Pipe => "|" | Amp => "&" | Newline => ch lf | AndAnd => "&&" | OrOr => "||"
  end.

(** The text of a script. *)
Fixpoint print_script (s : Script) : string :=
  match s with
  | Last c => print_cmd c
  | Chain c o rest => print_cmd c +:+ print_sep o +:+ print_script rest
  end
with print_cmd (c : Cmd) : string :=
  match c with
  | Done => ""
  | Lit s c => s +:+ print_cmd c
  | Single s c => "'" +:+ s +:+ "'" +:+ print_cmd c
  | Double s c => ch dquote +:+ s +:+ ch dquote +:+ print_cmd c
  | Subst k body c => print_kind k +:+ print_script body +:+ ")" +:+ print_cmd c
  | Tick body c => "`" +:+ print_script body +:+ "`" +:+ print_cmd c
  end.

(** Every command of a script, at any depth, in the order they are met: the
    commands of a substitution before the one that contains it. *)
Fixpoint commands (s : Script) : list string :=
  match s with
  | Last c => inner_commands c ++ flush (print_cmd c)
  | Chain c o rest => inner_commands c ++ flush (print_cmd c) ++ commands rest
  end
with inner_commands (c : Cmd) : list string :=
  match c with
  | Done => []
  | Lit _ c | Single _ c | Double _ c => inner_commands c
  | Subst _ body c | Tick body c => commands body ++ inner_commands c
  end.

Definition none_of (l : list ascii) (c : ascii) : bool :=
  (N_of_ascii c <? 128)%N && negb (existsb (Ascii.eqb c) l).

Definition lit_char : ascii → bool :=
  none_of ["'"%char; dquote; "`"%char; "\"%char; "("%char; ")"%char; ";"%char; "|"%char; "&"%char; lf].
Definition single_char : ascii → bool := none_of ["'"%char; "\"%char].
Definition double_char : ascii → bool :=
  none_of [dquote; "`"%char; "\"%char; "("%char; ")"%char].

(** Literal and quoted text is ASCII and leaves its delimiters alone, backticks
    do not nest, and no command that ends in an operator is empty. *)
Fixpoint script_ok (s : Script) : bool :=
  match s with
  | Last c => cmd_ok c
  | Chain c _ rest => cmd_ok c && negb (String.eqb (print_cmd c) "") && script_ok rest
  end
with cmd_ok (c : Cmd) : bool :=
  match c with
  | Done => true
  | Lit s c => forall_chars lit_char s && cmd_ok c
  | Single s c => forall_chars single_char s && cmd_ok c
  | Double s c => forall_chars double_char s && cmd_ok c
  | Subst _ body c => script_ok body && cmd_ok c
  | Tick body c =>
      script_ok body && negb (char_in "`"%char (print_script body)) && cmd_ok c
  end.

(** ** Text that passes through *)

Lemma none_of_neq l c x : none_of l c = true → existsb (Ascii.eqb x) l = true → Ascii.eqb c x = false.
Proof.
  unfold none_of. intros [_ H]%andb_true_iff Hx. apply negb_true_iff in H.
  destruct (Ascii.eqb_spec c x) as [->|]; congruence.
Qed.

Lemma none_of_latin1 l c : none_of l c = true → latin1 c = ch c.
Proof. unfold none_of, latin1. intros [-> _]%andb_true_iff. done. Qed.

(** Rewrites with every character test that [H : none_of _ c = true] decides. *)
Ltac char_tests H :=
  repeat match type of H with
  | _ ?c = true =>
      match goal with
      | |- context [Ascii.eqb c ?x] => rewrite (none_of_neq _ c x H) by reflexivity
      end
  end.

(** Text of the given characters takes [f] from [s +:+ rest] to [rest]. *)
Lemma forall_chars_ind (ok : ascii → bool) (P : string → Prop) :
  P "" → (∀ c s, ok c = true → P s → P (String c s)) → ∀ s, forall_chars ok s = true → P s.
Proof. intros H0 HS s. induction s as [|c s IH]; simpl; [done|]. intros [??]%andb_true_iff. auto. Qed.

Lemma close_paren_single s rest d e :
  forall_chars single_char s = true → close_paren rest d true false = Some e →
  close_paren (s +:+ rest) d true false = Some (String.length s + e).
Proof.
  intros Hs Hr. revert s Hs. apply forall_chars_ind; [done|].
  intros c s Hc IH. simpl. unfold single_char in Hc. char_tests Hc. simpl.
  rewrite andb_false_r. by rewrite IH.
Qed.

Lemma close_paren_double s rest d e :
  forall_chars double_char s = true → close_paren rest d false true = Some e →
  close_paren (s +:+ rest) d false true = Some (String.length s + e).
Proof.
  intros Hs Hr. revert s Hs. apply forall_chars_ind; [done|].
  intros c s Hc IH. simpl. unfold double_char in Hc. char_tests Hc. simpl.
  rewrite andb_false_r. by rewrite IH.
Qed.

Lemma close_paren_lit s rest d e :
  forall_chars lit_char s = true → close_paren rest d false false = Some e →
  close_paren (s +:+ rest) d false false = Some (String.length s + e).
Proof.
  intros Hs Hr. revert s Hs. apply forall_chars_ind; [done|].
  intros c s Hc IH. simpl. unfold lit_char in Hc. char_tests Hc. simpl. by rewrite IH.
Qed.

Lemma close_paren_char c rest d e :
  existsb (Ascii.eqb c) ["$"%char; "<"%char; ">"%char; "`"%char; ";"%char; "|"%char; "&"%char; lf] = true →
  close_paren rest d false false = Some e →
  close_paren (String c rest) d false false = Some (S e).
Proof.
  intros Hc Hr. simpl in Hc. rewrite orb_false_r in Hc.
  repeat (apply orb_true_iff in Hc as [Hc|Hc]); apply Ascii.eqb_eq in Hc; subst c; simpl;
    by rewrite Hr.
Qed.

Lemma close_paren_sep o rest d e :
  close_paren rest d false false = Some e →
  close_paren (print_sep o +:+ rest) d false false = Some (String.length (print_sep o) + e).
Proof. intros H. destruct o; simpl; rewrite ?H; done. Qed.

(** A well-formed script is balanced: the search for the closing parenthesis
    passes over it. *)
Lemma close_paren_script :
  (∀ s, script_ok s = true → ∀ rest d e,
     close_paren rest (S d) false false = Some e →
     close_paren (print_script s +:+ rest) (S d) false false
     = Some (String.length (print_script s) + e)) ∧
  (∀ c, cmd_ok c = true → ∀ rest d e,
     close_paren rest (S d) false false = Some e →
     close_paren (print_cmd c +:+ rest) (S d) false false
     = Some (String.length (print_cmd c) + e)).
Proof.
  apply Script_Cmd_ind; cbn [script_ok cmd_ok print_script print_cmd].
  - auto.
  - intros c IHc o s IHs [[Hc _]%andb_true_iff Hs]%andb_true_iff rest d e He.
    rewrite !string_app_assoc.
    rewrite (IHc Hc _ _ _ (close_paren_sep o _ _ _ (IHs Hs _ _ _ He))).
    rewrite !str_length_app. f_equal. lia.
  - done.
  - intros s c IH [Hs Hc]%andb_true_iff rest d e He. rewrite string_app_assoc.
    rewrite (close_paren_lit _ _ _ _ Hs (IH Hc _ _ _ He)), str_length_app. f_equal. lia.
  - intros s c IH [Hs Hc]%andb_true_iff rest d e He. simpl. rewrite string_app_assoc. simpl.
    rewrite (close_paren_single s _ (S d) (S (String.length (print_cmd c) + e)) Hs).
    + rewrite str_length_app. simpl. f_equal. lia.
    + simpl. by rewrite (IH Hc _ _ _ He).
  - intros s c IH [Hs Hc]%andb_true_iff rest d e He. simpl. rewrite string_app_assoc. simpl.
    rewrite (close_paren_double s _ (S d) (S (String.length (print_cmd c) + e)) Hs).
    + rewrite str_length_app. simpl. f_equal. lia.
    + simpl. by rewrite (IH Hc _ _ _ He).
  - intros k s IHs c IHc [Hs Hc]%andb_true_iff rest d e He.
    assert (close_paren (print_script s +:+ ")" +:+ print_cmd c +:+ rest) (S (S d)) false false
      = Some (String.length (print_script s) + S (String.length (print_cmd c) + e))) as Hb.
    { apply (IHs Hs). simpl. by rewrite (IHc Hc _ _ _ He). }
    rewrite !string_app_assoc, !str_length_app. simpl in Hb.
    destruct k; simpl; rewrite Nat.add_1_r, Hb; simpl; f_equal; lia.
  - intros s IHs c IHc [[Hs _]%andb_true_iff Hc]%andb_true_iff rest d e He.
    simpl. rewrite string_app_assoc. simpl.
    rewrite (IHs Hs _ _ (S (String.length (print_cmd c) + e))).
    + rewrite str_length_app. simpl. f_equal. lia.
    + apply (close_paren_char "`"); [done|]. by apply IHc.
Qed.

Lemma find_close_script s rest :
  script_ok s = true →
  find_matching_close_paren (print_script s +:+ String ")" rest)
  = Some (String.length (print_script s)).
Proof.
  intros Hs. unfold find_matching_close_paren.
  rewrite (proj1 close_paren_script s Hs _ 0 0); [|done]. f_equal. lia.
Qed.

Lemma no_backslash_chars ok s :
  (∀ c, ok c = true → Ascii.eqb c "\"%char = false) →
  forall_chars ok s = true → char_in "\"%char s = false.
Proof.
  intros Hok. revert s. apply forall_chars_ind; [done|].
  intros c s Hc IH. simpl. by rewrite (Hok _ Hc), IH.
Qed.

Lemma script_no_backslash :
  (∀ s, script_ok s = true → char_in "\"%char (print_script s) = false) ∧
  (∀ c, cmd_ok c = true → char_in "\"%char (print_cmd c) = false).
Proof.
  apply Script_Cmd_ind; cbn [script_ok cmd_ok print_script print_cmd]; auto.
  all: intros; repeat match goal with H : _ && _ = true |- _ => apply andb_true_iff in H as [??] end.
  all: repeat match goal with
       | H : forall_chars _ _ = true |- _ =>
           apply no_backslash_chars in H; [|intros ? H'; by apply (none_of_neq _ _ _ H')]
       end.
  all: repeat match goal with o : Sep |- _ => destruct o | k : SubstKind |- _ => destruct k end.
  all: simpl; rewrite ?char_in_app; simpl;
    repeat match goal with H : _ → char_in _ _ = false |- _ => rewrite H by done
                      | H : char_in _ _ = false |- _ => rewrite H end; done.
Qed.

Lemma find_unescaped_pass s needle rest :
  char_in "\"%char s = false → char_in needle s = false → Ascii.eqb needle "\"%char = false →
  find_unescaped (s +:+ String needle rest) needle = Some (String.length s).
Proof.
  intros Hb Hn Hnb. induction s as [|c s IH]; simpl in *.
  - rewrite Hnb, Ascii.eqb_refl. by destruct rest.
  - apply orb_false_iff in Hb as [Hb Hb'], Hn as [Hn Hn']. rewrite Hb, Hn, (IH Hb' Hn').
    by destruct s.
Qed.

(** ** Steps of the splitter outside substitutions *)

Definition walks (s buf : string) (sq dq : bool) : list string :=
  walk (String.length s + 1) s buf sq dq 0 false.

(** One step of [walks], with the budget of each call set to what it needs. *)
Ltac walk_step :=
  match goal with
  | |- walks (String ?c ?s) ?buf ?sq ?dq = _ =>
      let m := fresh "m" in let H := fresh "Hm" in
      change (walks (String c s) buf sq dq)
        with (walk (S (String.length s + 1)) (String c s) buf sq dq 0 false);
      remember (String.length s + 1) as m eqn:H; cbn [walk]
  end.

Lemma walk_walks n s buf sq dq :
  String.length s < n → walk n s buf sq dq 0 false = walks s buf sq dq.
Proof. intros H. apply walk_fuel_eq; lia. Qed.

Lemma walks_single s rest buf :
  forall_chars single_char s = true → walks (s +:+ rest) buf true false = walks rest (buf +:+ s) true false.
Proof.
  intros Hs. revert s Hs buf. apply (forall_chars_ind _
    (λ s, ∀ buf, walks (s +:+ rest) buf true false = walks rest (buf +:+ s) true false)).
  - intros buf. by rewrite string_app_nil_r.
  - intros c s Hc IH buf. simpl String.append.
    trans (walks (s +:+ rest) (buf +:+ ch c) true false); [|rewrite IH; by rewrite string_app_assoc].
    walk_step. unfold push_char. unfold single_char in Hc. char_tests Hc. simpl.
    rewrite andb_false_r, (none_of_latin1 _ _ Hc). apply walk_walks. lia.
Qed.

Lemma walks_double s rest buf :
  forall_chars double_char s = true → first_is rest "("%char = false →
  walks (s +:+ rest) buf false true = walks rest (buf +:+ s) false true.
Proof.
  intros Hs Hrest. apply (forall_chars_ind double_char
    (λ s, first_is (s +:+ rest) "("%char = false ∧
          ∀ buf, walks (s +:+ rest) buf false true = walks rest (buf +:+ s) false true)); [| |done].
  - split; [done|]. intros ?. by rewrite string_app_nil_r.
  - intros c s' Hc [Hnext IH]. unfold double_char in Hc. simpl String.append.
    split; [simpl; by char_tests Hc|]. intros buf'.
    trans (walks (s' +:+ rest) (buf' +:+ ch c) false true); [|rewrite IH; by rewrite string_app_assoc].
    walk_step. rewrite Hnext, ?andb_false_r. unfold push_char. char_tests Hc. simpl.
    rewrite ?andb_false_r, (none_of_latin1 _ _ Hc). apply walk_walks. lia.
Qed.

Lemma walks_lit s rest buf :
  forall_chars lit_char s = true → first_is rest "("%char = false →
  first_is (s +:+ rest) "("%char = false ∧
  walks (s +:+ rest) buf false false = walks rest (buf +:+ s) false false.
Proof.
  intros Hs Hrest. revert buf.
  cut (first_is (s +:+ rest) "("%char = false ∧
    ∀ buf, walks (s +:+ rest) buf false false = walks rest (buf +:+ s) false false);
    [intros [H1 H2] buf; by split|].
  revert s Hs. apply forall_chars_ind.
  - split; [done|]. intros ?. by rewrite string_app_nil_r.
  - intros c s Hc [Hnext IH]. unfold lit_char in Hc. simpl String.append.
    split; [simpl; by char_tests Hc|]. intros buf.
    trans (walks (s +:+ rest) (buf +:+ ch c) false false); [|rewrite IH; by rewrite string_app_assoc].
    walk_step. rewrite Hnext, ?andb_false_r. unfold push_char, split_char. char_tests Hc. simpl.
    rewrite (none_of_latin1 _ _ Hc). apply walk_walks. lia.
Qed.

Lemma str_take_app a b : str_take (String.length a) (a +:+ b) = a.
Proof. induction a; simpl; [done|]. by rewrite IHa. Qed.

Lemma str_drop_app a b : str_drop (String.length a) (a +:+ b) = b.
Proof. induction a; simpl; [by destruct b|done]. Qed.

Lemma walks_quote s buf sq :
  walks (String "'" s) buf sq false = walks s (buf +:+ "'") (negb sq) false.
Proof. walk_step. apply walk_walks. lia. Qed.

Lemma walks_dquote s buf dq :
  walks (String dquote s) buf false dq = walks s (buf +:+ ch dquote) false (negb dq).
Proof. walk_step. apply walk_walks. lia. Qed.

Lemma walks_subst k s rest buf :
  script_ok s = true →
  walks (print_kind k +:+ print_script s +:+ ")" +:+ rest) buf false false =
  walks (print_script s) "" false false ++
  walks rest (buf +:+ print_kind k +:+ print_script s +:+ ")") false false.
Proof.
  intros Hs. pose proof (find_close_script s rest Hs) as Hf.
  assert (∀ o : ascii, let t := String o (String "(" (print_script s +:+ String ")" rest)) in
    str_drop (2 + String.length (print_script s) + 1) t = rest ∧
    str_take (2 + String.length (print_script s) + 1) t = String o (String "(" (print_script s +:+ ")")))
    as Ht.
  { intros o. replace (print_script s +:+ String ")" rest) with ((print_script s +:+ ")") +:+ rest)
      by (by rewrite string_app_assoc).
    replace (2 + String.length (print_script s) + 1) with (S (S (String.length (print_script s +:+ ")"))))
      by (rewrite str_length_app; simpl; lia).
    simpl. by rewrite str_take_app, str_drop_app. }
  destruct k; simpl;
    (match goal with |- walks (String ?o _) _ _ _ = _ => destruct (Ht o) as [Hd Hk] end);
    walk_step; simpl first_is; simpl (str_drop 2 _); rewrite Hf;
    cbn [Ascii.eqb andb orb negb eqb dquote]; simpl (str_drop 2 _);
    rewrite str_take_app, Hd, Hk;
    f_equal; apply walk_walks; subst; simpl; rewrite str_length_app; simpl; lia.
Qed.

Lemma walks_tick s rest buf :
  script_ok s = true → char_in "`"%char (print_script s) = false →
  walks ("`" +:+ print_script s +:+ "`" +:+ rest) buf false false =
  walks (print_script s) "" false false ++
  walks rest (buf +:+ "`" +:+ print_script s +:+ "`") false false.
Proof.
  intros Hs Hn. simpl.
  pose proof (find_unescaped_pass (print_script s) "`" rest
    (proj1 script_no_backslash s Hs) Hn eq_refl) as Hf.
  assert (let t := String "`" (print_script s +:+ String "`" rest) in
    str_drop (1 + String.length (print_script s) + 1) t = rest ∧
    str_take (1 + String.length (print_script s) + 1) t = String "`" (print_script s +:+ "`"))
    as [Hd Hk].
  { cbv zeta. replace (print_script s +:+ String "`" rest) with ((print_script s +:+ "`") +:+ rest)
      by (by rewrite string_app_assoc).
    replace (1 + String.length (print_script s) + 1) with (S (String.length (print_script s +:+ "`")))
      by (rewrite str_length_app; simpl; lia).
    simpl. by rewrite str_take_app, str_drop_app. }
  walk_step. rewrite Hf. cbn [Ascii.eqb andb orb negb eqb dquote]. simpl (str_drop 1 _).
  rewrite str_take_app, Hd, Hk.
  f_equal; apply walk_walks; subst; simpl; rewrite str_length_app; simpl; lia.
Qed.

Lemma walks_sep o rest buf :
  first_is rest "&"%char = false → first_is rest "|"%char = false →
  walks (print_sep o +:+ rest) buf false false = flush buf ++ walks rest "" false false.
Proof.
  intros Ha Hp. destruct o; simpl; walk_step; simpl; rewrite ?Ha, ?Hp;
    (f_equal; apply walk_walks; subst; simpl; lia).
Qed.

(** The text of a command starts neither with a parenthesis nor with an
    operator. *)
Lemma cmd_first x c rest :
  existsb (Ascii.eqb x) ["("%char; "&"%char; "|"%char] = true → cmd_ok c = true →
  print_cmd c = "" ∨ first_is (print_cmd c +:+ rest) x = false.
Proof.
  intros Hx. induction c; cbn [cmd_ok print_cmd]; intros Hc; [by left| |right..].
  { apply andb_true_iff in Hc as [Hs Hc]. destruct s as [|a s]; [by apply IHc|].
    right. simpl in *. apply andb_true_iff in Hs as [Ha _].
    apply (none_of_neq _ _ _ Ha). simpl in *. rewrite orb_false_r in Hx.
    repeat (apply orb_true_iff in Hx as [Hx|Hx]); apply Ascii.eqb_eq in Hx; by subst. }
  all: simpl in Hx; rewrite orb_false_r in Hx;
    repeat (apply orb_true_iff in Hx as [Hx|Hx]); apply Ascii.eqb_eq in Hx; subst;
    try destruct k; done.
Qed.

Lemma script_first x s :
  existsb (Ascii.eqb x) ["("%char; "&"%char; "|"%char] = true → script_ok s = true →
  first_is (print_script s) x = false.
Proof.
  intros Hx. destruct s as [c|c o s]; cbn [script_ok print_script]; intros Hs.
  - destruct (cmd_first x c "" Hx Hs) as [->|H]; [done|]. by rewrite string_app_nil_r in H.
  - apply andb_true_iff in Hs as [[Hc Hne]%andb_true_iff _].
    destruct (cmd_first x c (print_sep o +:+ print_script s) Hx Hc) as [E|H]; [|done].
    by rewrite E in Hne.
Qed.

Lemma cmd_not_paren c rest :
  cmd_ok c = true → first_is rest "("%char = false → first_is (print_cmd c +:+ rest) "("%char = false.
Proof. intros Hc Hr. by destruct (cmd_first "(" c rest eq_refl Hc) as [->|]. Qed.

Lemma walks_script :
  (∀ s, script_ok s = true → walks (print_script s) "" false false = commands s) ∧
  (∀ c, cmd_ok c = true → ∀ rest buf, first_is rest "("%char = false →
     walks (print_cmd c +:+ rest) buf false false =
     inner_commands c ++ walks rest (buf +:+ print_cmd c) false false).
Proof.
  apply Script_Cmd_ind; cbn [script_ok cmd_ok print_script print_cmd commands inner_commands].
  - intros c IH Hc. specialize (IH Hc "" "" eq_refl). by rewrite string_app_nil_r in IH.
  - intros c IHc o s IHs [[Hc _]%andb_true_iff Hs]%andb_true_iff.
    rewrite (IHc Hc) by (by destruct o). simpl.
    rewrite walks_sep, IHs by (done || by apply script_first). done.
  - intros _ rest buf _. simpl. by rewrite string_app_nil_r.
  - intros s c IH [Hs Hc]%andb_true_iff rest buf Hr. rewrite string_app_assoc.
    destruct (walks_lit s (print_cmd c +:+ rest) buf Hs (cmd_not_paren c rest Hc Hr)) as [_ ->].
    by rewrite (IH Hc _ _ Hr), string_app_assoc.
  - intros s c IH [Hs Hc]%andb_true_iff rest buf Hr. simpl.
    rewrite walks_quote, string_app_assoc, (walks_single _ _ _ Hs). simpl.
    rewrite walks_quote, (IH Hc _ _ Hr), !string_app_assoc. done.
  - intros s c IH [Hs Hc]%andb_true_iff rest buf Hr. simpl.
    rewrite walks_dquote, string_app_assoc, (walks_double _ _ _ Hs) by done. simpl.
    rewrite walks_dquote, (IH Hc _ _ Hr), !string_app_assoc. done.
  - intros k s IHs c IHc [Hs Hc]%andb_true_iff rest buf Hr. rewrite !string_app_assoc.
    rewrite (walks_subst k s _ _ Hs), (IHs Hs), (IHc Hc _ _ Hr), !string_app_assoc.
    by rewrite <-app_assoc.
  - intros s IHs c IHc [[Hs Hn]%andb_true_iff Hc]%andb_true_iff rest buf Hr.
    apply negb_true_iff in Hn. rewrite !string_app_assoc.
    rewrite (walks_tick s _ _ Hs Hn), (IHs Hs), (IHc Hc _ _ Hr), !string_app_assoc.
    by rewrite <-app_assoc.
Qed.

(** ASCII text has no zero-width character. *)
Lemma strip_zero_width_ascii s :
  forall_chars (λ c, (N_of_ascii c <? 128)%N) s = true → strip_zero_width s = s.
Proof.
  revert s. apply forall_chars_ind; [done|]. intros a s Ha IH. cbn [strip_zero_width].
  destruct s as [|b s]; [done|]. destruct s as [|c s]; [done|].
  assert (zero_width a b c = false) as ->; [|by rewrite IH].
  unfold zero_width. apply N.ltb_lt in Ha.
  rewrite (proj2 (N.eqb_neq (N_of_ascii a) 226)), (proj2 (N.eqb_neq (N_of_ascii a) 239)) by lia.
  done.
Qed.

Definition ascii_text : string → bool := forall_chars (λ c, (N_of_ascii c <? 128)%N).

Lemma none_of_ascii l s : forall_chars (none_of l) s = true → ascii_text s = true.
Proof.
  revert s. apply forall_chars_ind; [done|]. intros c s Hc IH.
  unfold ascii_text in *. simpl. rewrite IH, andb_true_r. by apply andb_true_iff in Hc as [? _].
Qed.

Lemma script_ascii :
  (∀ s, script_ok s = true → ascii_text (print_script s) = true) ∧
  (∀ c, cmd_ok c = true → ascii_text (print_cmd c) = true).
Proof.
  apply Script_Cmd_ind; cbn [script_ok cmd_ok print_script print_cmd]; auto.
  all: intros; repeat match goal with H : _ && _ = true |- _ => apply andb_true_iff in H as [??] end.
  all: repeat match goal with H : forall_chars _ _ = true |- _ => apply none_of_ascii in H end.
  all: repeat match goal with o : Sep |- _ => destruct o | k : SubstKind |- _ => destruct k end.
  all: unfold ascii_text in *; simpl; rewrite ?forall_chars_app; simpl;
    repeat match goal with H : _ → forall_chars _ _ = true |- _ => rewrite H by done
                      | H : forall_chars _ _ = true |- _ => rewrite H end; done.
Qed.

(** The fragments of a script; the property [split_script] restates it. *)
Lemma split_script_eq s :
  script_ok s = true →
  split_into_subcommands (print_script s) = commands s ++ [print_script s].
Proof.
  intros Hs. unfold split_into_subcommands, walk_and_split.
  rewrite (strip_zero_width_ascii _ (proj1 script_ascii s Hs)).
  pose proof (proj1 walks_script s Hs) as H. unfold walks in H. by rewrite H.
Qed.

(** * Properties *)

(** The splitter finds every command of a script.  For any script of the
    grammar (commands of literal text, quotes and substitutions of every kind,
    nested to any depth, chained with any operator) the fragments are exactly
    its commands, inner ones first, and then the whole text; operators inside
    quotes do not split. *)
Theorem split_script s :
  script_ok s = true →
  split_into_subcommands (print_script s) = commands s ++ [print_script s].
Proof. apply split_script_eq. Qed.

(** * Witnesses *)

Definition example_script : Script :=
  Chain (Lit "echo " (Single "a;b" Done)) AndAnd
    (Chain (Lit "x=" (Subst DollarParen
                        (Chain (Lit "cat f " Done) Pipe
                           (Last (Lit " grep " (Subst InParen (Last (Lit "sudo y" Done)) Done))))
                        (Lit " z" Done))) Newline
       (Last (Tick (Last (Lit "rm q" Done)) Done))).

Lemma split_script_witness :
  script_ok example_script = true ∧
  split_into_subcommands (print_script example_script) =
    ["echo 'a;b'"; "cat f"; "sudo y"; "grep <(sudo y)"; "x=$(cat f | grep <(sudo y)) z"; "rm q";
     "`rm q`"; print_script example_script].
Proof. split; [reflexivity|]. rewrite split_script; reflexivity. Defined.
