(* ===== verification/ShellRules.v ===== *)
(** The risk classifier for shell commands: the rules and [enforce] of
    [alms-sandbox/src/shell/classification.rs], over the fragments and words of
    [ShellParse].

    A rule looks at one fragment and adds findings; each is the list of the
    findings it adds, in order. *)
From S2P Require Import Prelude ShellParse.

(** * Results *)

Inductive RiskLevel := Safe | Moderate | Destructive.

#[export] Instance RiskLevel_eq_dec : EqDecision RiskLevel.
Proof. solve_decision. Defined.

Definition level_rank (l : RiskLevel) : nat :=
  match l with Safe => 0 | Moderate => 1 | Destructive => 2 end.

Definition level_le (a b : RiskLevel) : bool := Nat.leb (level_rank a) (level_rank b).
Definition level_max (a b : RiskLevel) : RiskLevel := if level_le a b then b else a.

Definition level_display (l : RiskLevel) : string :=
  match l with Safe => "safe" | Moderate => "moderate" | Destructive => "destructive" end.

Inductive RiskCategory :=
| FilesystemDestructive | PrivilegeEscalation | NetworkExfiltration | ProcessControl
| SystemControl | GitDestructive | DangerousRedirect | PackageManagement | PermissionChange
| Obfuscation | ForkBomb.

#[export] Instance RiskCategory_eq_dec : EqDecision RiskCategory.
Proof. solve_decision. Defined.

Record Finding := {
  f_category : RiskCategory;
  f_level : RiskLevel;
  f_reason : string;
  f_fragment : string;
  f_target : option string;
}.

Record Classification := {
  cl_level : RiskLevel;
  cl_findings : list Finding;
}.

Definition is_destructive (c : Classification) : bool := bool_decide (cl_level c = Destructive).
Definition is_moderate_or_worse (c : Classification) : bool := level_le Moderate (cl_level c).

Fixpoint find_map {A B} (f : A → option B) (l : list A) : option B :=
  match l with
  | [] => None
  | x :: l' => match f x with Some y => Some y | None => find_map f l' end
  end.

Definition primary_target (c : Classification) : option string :=
  match find_map (λ f, if bool_decide (f_level f = cl_level c) then f_target f else None)
          (cl_findings c) with
  | Some t => Some t
  | None => find_map f_target (cl_findings c)
  end.

(** * Words the rules look for *)

Definition mem (s : string) (l : list string) : bool := existsb (String.eqb s) l.

Fixpoint trim_start_quotes (s : string) : string :=
  match s with
  | String a s' =>
      if Ascii.eqb a dquote || Ascii.eqb a "'"%char then trim_start_quotes s' else s
  | EmptyString => EmptyString
  end.

Definition is_quote (c : ascii) : bool := Ascii.eqb c dquote || Ascii.eqb c "'"%char.
Definition trim_quotes (s : string) : string := trim_end_if is_quote (trim_start_quotes s).

Definition is_dashed (a : string) : bool := first_is a "-"%char.

Definition is_short_flag (arg : string) (flag : ascii) : bool :=
  is_dashed arg && negb (starts_with arg "--") && char_in flag (str_drop 1 arg).

Definition DESTRUCTIVE_PATH_PREFIXES : list string :=
  ["/"; "/*"; "/bin"; "/boot"; "/dev"; "/etc"; "/home"; "/lib"; "/lib32"; "/lib64"; "/opt";
   "/proc"; "/root"; "/sbin"; "/srv"; "/sys"; "/usr"; "/var"].

Definition SUSPICIOUS_HOME_PATTERNS : list string := ["~"; "$HOME"; "${HOME}"].

Definition is_root_like_path (p : string) : bool :=
  let trimmed := trim_end_if (λ c, Ascii.eqb c "/"%char) p in
  String.eqb trimmed "/" || String.eqb p "/" || String.eqb p "/*" || String.eqb p "*"
  || existsb (λ prefix, String.eqb trimmed prefix || String.eqb p (prefix +:+ "/*")
                        || String.eqb p (prefix +:+ "/")) DESTRUCTIVE_PATH_PREFIXES.

Definition is_home_like_path (p : string) : bool :=
  existsb (λ pat, String.eqb p pat || starts_with p (pat +:+ "/")) SUSPICIOUS_HOME_PATTERNS.

Definition target_is_unresolved_expansion (p : string) : bool :=
  let t := trim_quotes p in
  first_is t "$"%char && Nat.ltb 1 (String.length t).

Definition is_block_device_target (target : string) : bool :=
  let t := trim_quotes target in
  starts_with t "/dev/sd" || starts_with t "/dev/hd" || starts_with t "/dev/nvme"
  || starts_with t "/dev/vd" || starts_with t "/dev/xvd" || starts_with t "/dev/mmcblk"
  || starts_with t "/dev/loop" || String.eqb t "/dev/disk".

Definition first_positional (args : list string) : option string :=
  List.find (λ a, negb (is_dashed a) && negb (String.eqb a "")) args.

Fixpoint truncate_target (args : list string) : option string :=
  match args with
  | [] => None
  | a :: args' =>
      if String.eqb a "-s" then
        match args' with _ :: args'' => truncate_target args'' | [] => None end
      else if starts_with a "--size" then
        if String.eqb a "--size" then
          match args' with _ :: args'' => truncate_target args'' | [] => None end
        else truncate_target args'
      else if negb (is_dashed a) && negb (String.eqb a "") then Some a
      else truncate_target args'
  end.

(** The recursive and force flags of [rm]. *)
Definition recursive_flag (a : string) : bool :=
  is_short_flag a "r"%char || is_short_flag a "R"%char || String.eqb a "--recursive".
Definition force_flag (a : string) : bool :=
  String.eqb a "--force" || is_short_flag a "f"%char.
Definition has_rf (args : list string) : bool :=
  existsb recursive_flag args && existsb force_flag args.

(** * Hidden heads *)

Definition DANGEROUS_BINARY_RHS : list string :=
  ["rm"; "shred"; "dd"; "mkfs"; "fdisk"; "parted"; "wipefs"; "blkdiscard"; "sudo"; "su"; "doas";
   "pkexec"; "shutdown"; "reboot"; "halt"; "poweroff"; "init"; "killall"; "pkill"].

Definition special_parameter (c : ascii) : bool :=
  mem (String c EmptyString) ["*"; "@"; "#"; "?"; "$"; "!"; "-"].

Definition is_pure_expansion_token (tok : string) : bool :=
  match tok with
  | String c rest =>
      if negb (Ascii.eqb c "$"%char) || Nat.ltb (String.length tok) 2 then false
      else match rest with
      | String d stripped =>
          if Ascii.eqb d "{"%char then
            match split_once "}"%char stripped with
            | Some (inner, _) => Nat.eqb (String.length inner + 3) (String.length tok)
            | None => false
            end
          else if Ascii.eqb d "'"%char && ends_with stripped "'" then true
          else if special_parameter d then Nat.eqb (String.length rest) 1
          else forall_chars ident_char rest
      | EmptyString => false
      end
  | EmptyString => false
  end.

Definition dangerous_assignment (t : string) : bool :=
  match split_once "="%char t with
  | Some (name, value) =>
      negb (String.eqb name "") && forall_chars ident_char name
      && mem (trim_quotes value) DANGEROUS_BINARY_RHS
  | None => false
  end.

Definition finding (c : RiskCategory) (l : RiskLevel) (reason frag : string)
    (target : option string) : Finding :=
  {| f_category := c; f_level := l; f_reason := reason; f_fragment := frag; f_target := target |}.

Definition check_expansion_head (tokens args : list string) (frag : string) : list Finding :=
  let rest := strip_leading_assignments tokens in
  let raw_head := match rest with h :: _ => h | [] => "" end in
  let is_expansion_head := first_is raw_head "$"%char && is_pure_expansion_token raw_head in
  let only_assignments :=
    match rest with [] => existsb dangerous_assignment tokens | _ => false end in
  if negb is_expansion_head && negb only_assignments then []
  else
    let has_root_target := existsb (λ a, is_root_like_path a || is_home_like_path a) args in
    let level :=
      if is_expansion_head && has_rf args
         && (has_root_target || existsb (λ a, first_is a "$"%char) args)
      then Destructive else Moderate in
    [finding Obfuscation level
       (if is_expansion_head
        then "command head is a shell expansion (variable, ANSI-C, or substitution)"
        else "assignment with RHS that names a dangerous binary") frag None].

(** The scan of [check_ansi_c_quoting] for an [$'] outside double quotes; it
    stops one byte before the end. *)
Fixpoint ansi_c_scan (s : string) (in_double : bool) : bool :=
  match s with
  | String c (String d s2 as s1) =>
      if Ascii.eqb c "\"%char then ansi_c_scan s2 in_double
      else if Ascii.eqb c dquote then ansi_c_scan s1 (negb in_double)
      else if negb in_double && Ascii.eqb c "$"%char && Ascii.eqb d "'"%char then true
      else ansi_c_scan s1 in_double
  | _ => false
  end.

Definition check_ansi_c_quoting (frag : string) : list Finding :=
  if ansi_c_scan frag false then
    [finding Obfuscation Moderate "ANSI-C quoted string `$'...'` hides bytes from static analysis"
       frag None]
  else [].

Definition ansi_c_escalation (args : list string) (frag : string) : list Finding :=
  let has_danger_target :=
    existsb (λ a, is_root_like_path a || is_home_like_path a || target_is_unresolved_expansion a)
      args in
  if has_rf args && has_danger_target then
    [finding Obfuscation Destructive
       "ANSI-C quoted head combined with recursive-force flags on a sensitive target" frag None]
  else [].

(** * Rules by program *)

Definition PRIV_BINS : list string := ["sudo"; "su"; "doas"; "pkexec"; "runuser"; "gosu"].

Definition check_privilege (head frag : string) : list Finding :=
  if mem head PRIV_BINS then
    [finding PrivilegeEscalation Destructive ("privilege-escalation binary `" +:+ head +:+ "`")
       frag None]
  else [].

Definition SYSTEM_BINS : list string :=
  ["shutdown"; "reboot"; "halt"; "poweroff"; "init"; "telinit"].

Definition check_system_control (head frag : string) : list Finding :=
  let lower := to_ascii_lowercase frag in
  (if mem head SYSTEM_BINS then
     [finding SystemControl Destructive ("system control binary `" +:+ head +:+ "`") frag None]
   else []) ++
  (if String.eqb head "systemctl"
      && (contains lower " stop " || contains lower " disable " || contains lower " mask "
          || contains lower " kill " || contains lower " poweroff" || contains lower " reboot"
          || contains lower " halt")
   then [finding SystemControl Moderate "systemctl altering service or power state" frag None]
   else []).

Definition check_process_control (head : string) (args : list string) (frag : string)
    : list Finding :=
  if mem head ["kill"; "killall"; "pkill"] then
    let has_minus_one := mem "-1" args in
    let has_sigkill := existsb (λ a, mem a ["-9"; "-KILL"; "-SIGKILL"]) args in
    if String.eqb head "kill" && has_minus_one && has_sigkill then
      [finding ProcessControl Destructive "`kill -9 -1` targets every process" frag None]
    else if mem head ["killall"; "pkill"] && has_sigkill then
      [finding ProcessControl Moderate ("`" +:+ head +:+ "` with SIGKILL may disrupt services")
         frag None]
    else []
  else [].

(** The arm of [rm] in [check_filesystem]. *)
Definition check_rm (args : list string) (frag : string) : list Finding :=
  let targets := List.filter (λ a, negb (is_dashed a)) args in
  let primary := head targets in
  let fs := finding FilesystemDestructive in
  if has_rf args then
    if existsb is_root_like_path targets then
      [fs Destructive "`rm -rf` targeting root or system directory" frag primary]
    else if existsb is_home_like_path targets then
      [fs Destructive "`rm -rf` targeting user home directory" frag primary]
    else if existsb target_is_unresolved_expansion targets then
      [fs Destructive "`rm -rf` with unresolved shell expansion as target" frag primary]
    else match targets with
         | [] => [fs Moderate "`rm -rf` with no literal target (possible expansion)" frag None]
         | _ => [fs Moderate "recursive force-remove" frag primary]
         end
  else [].

(** The arm of [dd]: the [of=] operand without its quotes, when not empty. *)
Definition dd_target (args : list string) : option string :=
  match List.find (λ a, starts_with a "of=") args with
  | Some a => let t := trim_quotes (str_drop 3 a) in if String.eqb t "" then None else Some t
  | None => None
  end.

Definition check_dd (args : list string) (frag : string) : list Finding :=
  match dd_target args with
  | Some t =>
      if is_block_device_target t then
        [finding FilesystemDestructive Destructive "`dd` writing to a block device" frag (Some t)]
      else
        [finding FilesystemDestructive Moderate "`dd` writes raw bytes to `of=` target" frag
           (Some t)]
  | None => []
  end.

Definition check_filesystem (head : string) (args : list string) (frag : string) : list Finding :=
  let fs := finding FilesystemDestructive in
  if String.eqb head "rm" then check_rm args frag
  else if String.eqb head "shred" then
    [fs Destructive "`shred` overwrites file contents irrecoverably" frag
       (List.find (λ a, negb (is_dashed a)) args)]
  else if String.eqb head "dd" then check_dd args frag
  else if String.eqb head "mkfs" then
    [fs Destructive "`mkfs` formats a filesystem" frag (first_positional args)]
  else if starts_with head "mkfs." then
    [fs Destructive ("`" +:+ head +:+ "` formats a filesystem") frag (first_positional args)]
  else if mem head ["fdisk"; "parted"; "sfdisk"; "wipefs"; "blkdiscard"] then
    [fs Destructive ("`" +:+ head +:+ "` alters partition tables / wipes devices") frag
       (first_positional args)]
  else if String.eqb head "truncate"
          && existsb (λ a, String.eqb a "-s" || starts_with a "--size") args then
    [fs Moderate "`truncate -s` can zero existing files" frag (truncate_target args)]
  else [].

Definition check_permission_change (head : string) (args : list string) (frag : string)
    : list Finding :=
  if mem head ["chmod"; "chown"; "chgrp"; "setfacl"] then
    let has_recursive := existsb (λ a, String.eqb a "-R" || String.eqb a "--recursive") args in
    let targets_root := existsb is_root_like_path args in
    let has_777 := existsb (λ a, contains a "777") args in
    if String.eqb head "chmod" && has_777 && targets_root then
      [finding PermissionChange Destructive "`chmod 777` on a system directory" frag None]
    else if has_recursive && targets_root then
      [finding PermissionChange Destructive
         ("recursive `" +:+ head +:+ "` on a system directory") frag None]
    else if has_recursive then
      [finding PermissionChange Moderate ("recursive `" +:+ head +:+ "`") frag None]
    else []
  else [].

(** The first argument that is not a flag, [""] when there is none. *)
Definition subcommand_of (args : list string) : string :=
  match List.find (λ a, negb (is_dashed a)) args with Some a => a | None => "" end.

Definition check_git (head : string) (args : list string) (frag : string) : list Finding :=
  if negb (String.eqb head "git") then []
  else
    let sub := subcommand_of args in
    let joined_lower := to_ascii_lowercase (String.concat " " args) in
    let git reason := [finding GitDestructive Moderate reason frag None] in
    if String.eqb sub "push"
       && (contains joined_lower "--force" || contains joined_lower " -f "
           || ends_with joined_lower " -f" || contains joined_lower "+")
    then git "`git push --force` rewrites remote history"
    else if String.eqb sub "reset" && contains joined_lower "--hard"
    then git "`git reset --hard` discards local changes"
    else if String.eqb sub "clean"
            && (contains joined_lower "-f" || contains joined_lower "--force"
                || contains joined_lower "-x" || contains joined_lower "-d")
    then git "`git clean -f/-fd/-fdx` deletes untracked files"
    else if String.eqb sub "checkout"
            && existsb (λ a, String.eqb a "." || String.eqb a "--") args
    then git "`git checkout .` discards local changes"
    else if String.eqb sub "branch" && contains joined_lower "-d"
    then git "`git branch -D` force-deletes a branch"
    else [].

Definition check_network (head : string) (args : list string) (frag : string) : list Finding :=
  let lower := to_ascii_lowercase frag in
  let has_post :=
    existsb (λ a, mem a ["-X"; "--request"] || eq_ignore_ascii_case a "--post-data") args
    && (contains lower " post" || contains lower "--post-data") in
  let has_upload :=
    existsb (λ a, mem a ["-T"; "--upload-file"; "-F"; "--form"; "-d"; "--data"]) args in
  (if mem head ["curl"; "wget"] && (has_post || String.eqb head "curl" && has_upload) then
     [finding NetworkExfiltration Moderate "HTTP request sends local data outbound" frag None]
   else []) ++
  (if mem head ["nc"; "ncat"; "netcat"] && mem "-e" args then
     [finding NetworkExfiltration Destructive "`nc -e` gives a remote host a shell" frag None]
   else []) ++
  (if (String.eqb head "bash" || String.eqb head "sh")
      && (contains lower "/dev/tcp/" || contains lower "/dev/udp/") then
     [finding NetworkExfiltration Destructive "reverse-shell via /dev/tcp or /dev/udp" frag None]
   else []).

Definition mutating (sub : string) : bool :=
  mem sub ["install"; "remove"; "uninstall"; "purge"; "autoremove"; "upgrade"; "dist-upgrade"].

Definition check_package_manager (head : string) (args : list string) (frag : string)
    : list Finding :=
  let sub := subcommand_of args in
  let pm reason := [finding PackageManagement Moderate reason frag None] in
  if mem head ["apt"; "apt-get"; "dpkg"; "yum"; "dnf"; "pacman"; "zypper"; "apk"; "brew"; "snap";
               "flatpak"] && mutating sub
  then pm ("`" +:+ head +:+ " " +:+ sub +:+ "` changes installed packages")
  else if mem head ["npm"; "yarn"; "pnpm"] then
    if mem sub ["install"; "i"; "add"; "uninstall"; "remove"; "rm"]
       && existsb (λ a, String.eqb a "-g" || String.eqb a "--global") args
    then pm ("`" +:+ head +:+ " " +:+ sub +:+ " -g` mutates global packages") else []
  else if mem head ["pip"; "pip3"] then
    if mem sub ["install"; "uninstall"]
    then pm ("`" +:+ head +:+ " " +:+ sub +:+ "` mutates Python packages") else []
  else if String.eqb head "cargo" then
    if mem sub ["install"; "uninstall"]
    then pm ("`cargo " +:+ sub +:+ "` mutates installed binaries") else []
  else [].

Definition check_obfuscation (head : string) (args : list string) (frag : string)
    : list Finding :=
  (if mem head ["eval"; "source"; "."] && char_in "$"%char frag then
     [finding Obfuscation Moderate ("`" +:+ head +:+ "` of an expanded expression") frag None]
   else []) ++
  (if String.eqb head "base64" && existsb (λ a, mem a ["-d"; "-D"; "--decode"]) args then
     [finding Obfuscation Moderate "`base64 -d` decoding (often feeds an interpreter)" frag None]
   else []) ++
  (if String.eqb head "xxd" && mem "-r" args
      || String.eqb head "perl" && mem "-e" args && contains (to_ascii_lowercase frag) "pack("
   then [finding Obfuscation Moderate "hex-to-binary decoding" frag None]
   else []).

(** The text without its white space. *)
Fixpoint remove_ws (fuel : nat) (l : list N) : list N :=
  match fuel, l with
  | S fuel, b :: l' =>
      match drop_ws l with
      | Some l'' => remove_ws fuel l''
      | None => b :: remove_ws fuel l'
      end
  | _, _ => []
  end.

Definition without_whitespace (s : string) : string :=
  of_bytes (remove_ws (String.length s) (bytes_of s)).

Definition check_fork_bomb (frag : string) : list Finding :=
  let no_ws := without_whitespace frag in
  if contains no_ws ":(){:|:&};:" || contains no_ws ":(){:|:&;};:" then
    [finding ForkBomb Destructive "fork bomb pattern" frag None]
  else [].

Definition is_critical_system_file (target : string) : bool :=
  mem target ["/etc/passwd"; "/etc/shadow"; "/etc/sudoers"; "/etc/hosts"; "/etc/fstab";
              "/etc/crontab"; "/boot/grub/grub.cfg"]
  || starts_with target "/etc/sudoers.d/" || starts_with target "/etc/ssh/"
  || starts_with target "/boot/".

Definition is_redirect (t : string) : bool :=
  mem t [">"; ">>"; "&>"; "&>>"]
  || ends_with t ">" && match t with String c _ => is_ascii_digit c | EmptyString => false end.

Fixpoint check_redirect_targets (tokens : list string) (frag : string) : list Finding :=
  match tokens with
  | [] => []
  | t :: tokens' =>
      match tokens' with
      | target :: _ =>
          if is_redirect t then
            if is_block_device_target target then
              [finding DangerousRedirect Destructive "redirection to a block device" frag
                 (Some target)]
            else if is_critical_system_file target then
              [finding DangerousRedirect Destructive
                 "redirection overwrites a critical system file" frag (Some target)]
            else []
          else []
      | [] => []
      end ++ check_redirect_targets tokens' frag
  end.

Definition classify_fragment (frag : string) : list Finding :=
  let tokens := tokenize frag in
  match tokens with
  | [] => []
  | _ =>
      let args := tail (strip_leading_assignments tokens) in
      check_expansion_head tokens args frag ++
      check_ansi_c_quoting frag ++
      (if ansi_c_scan frag false then ansi_c_escalation args frag else []) ++
      match head_of tokens with
      | None => []
      | Some head =>
          check_privilege head frag ++ check_system_control head frag ++
          check_process_control head args frag ++ check_filesystem head args frag ++
          check_permission_change head args frag ++ check_git head args frag ++
          check_network head args frag ++ check_package_manager head args frag ++
          check_obfuscation head args frag ++ check_fork_bomb frag ++
          check_redirect_targets tokens frag
      end
  end.

(** * The whole command *)

(** Runs of white space become one space. *)
Fixpoint squeeze (fuel : nat) (l : list N) (prev_ws : bool) : list N :=
  match fuel, l with
  | S fuel, b :: l' =>
      match drop_ws l with
      | Some l'' => if prev_ws then squeeze fuel l'' true else 32%N :: squeeze fuel l'' true
      | None => b :: squeeze fuel l' false
      end
  | _, _ => []
  end.

Definition squeeze_whitespace (s : string) : string :=
  of_bytes (squeeze (String.length s) (bytes_of s) false).

Definition PIPE_NEEDLES : list string :=
  ["| sh"; "|sh"; "| bash"; "|bash"; "| zsh"; "|zsh"; "| ksh"; "|ksh"; "| dash"; "|dash";
   "| sudo sh"; "| sudo bash"; "| su -c"; "|xargs sh"; "|xargs bash"].

Definition pipes_into_shell (lower : string) : bool :=
  let squeezed := squeeze_whitespace lower in
  existsb (λ n, contains squeezed n) PIPE_NEEDLES.

Definition check_full_string (command : string) : list Finding :=
  let lower := to_ascii_lowercase command in
  (if (contains lower "curl " || contains lower "wget " || contains lower "fetch ")
      && pipes_into_shell lower then
     [finding NetworkExfiltration Destructive "downloaded payload is piped directly to a shell"
        command None]
   else []) ++
  (if contains lower "base64" && (contains lower "-d" || contains lower "--decode")
      && pipes_into_shell lower then
     [finding Obfuscation Destructive "base64-decoded payload is piped to a shell" command None]
   else []).

Definition max_level (l : list Finding) : RiskLevel :=
  foldr (λ f m, level_max (f_level f) m) Safe l.

Definition classify (command : string) : Classification :=
  let findings := flat_map classify_fragment (split_into_subcommands command)
                  ++ check_full_string command in
  {| cl_level := max_level findings; cl_findings := findings |}.

Inductive ClassificationMode := Off | Warn | BlockDestructive | Strict.

(** [SandboxError]: the variants the tools modelled here return. *)
Inductive SandboxError :=
| InvalidParameters (message : string)
| Io (message : string)
| SandboxViolation (message : string)
| ShellBlocked (reason : string) (target : option string).

Definition blocks (mode : ClassificationMode) (c : Classification) : bool :=
  match mode with
  | Off => false
  | Warn => is_destructive c
  | BlockDestructive => is_destructive c
  | Strict => is_moderate_or_worse c
  end.

Definition blocked_reason (c : Classification) : string :=
  match primary_target c with
  | Some t => "Command blocked by built-in risk classifier (level: " +:+
      level_display (cl_level c) +:+ ", target: " +:+ t +:+ ")"
  | None => "Command blocked by built-in risk classifier (level: " +:+
      level_display (cl_level c) +:+ ")"
  end.

Definition enforce (command : string) (mode : ClassificationMode)
    : Result Classification SandboxError :=
  let c := classify command in
  if blocks mode c then Err (ShellBlocked (blocked_reason c) (primary_target c)) else Ok c.

(** * Levels and findings *)

Lemma level_le_spec a b : level_le a b = true ↔ level_rank a ≤ level_rank b.
Proof. apply Nat.leb_le. Qed.

Lemma level_max_rank a b : level_rank (level_max a b) = Nat.max (level_rank a) (level_rank b).
Proof. by destruct a, b. Qed.

Lemma max_level_ge f l : f ∈ l → level_rank (f_level f) ≤ level_rank (max_level l).
Proof.
  induction l as [|g l IH]; [by rewrite elem_of_nil|]. rewrite elem_of_cons. cbn [max_level foldr].
  rewrite level_max_rank. intros [->|H]; [lia|]. specialize (IH H). unfold max_level in IH. lia.
Qed.

Lemma max_level_attained l : max_level l = Safe ∨ ∃ f, f ∈ l ∧ f_level f = max_level l.
Proof.
  induction l as [|g l IH]; [by left|]. cbn [max_level foldr].
  change (foldr _ Safe l) with (max_level l). unfold level_max.
  destruct (level_le (f_level g) (max_level l)).
  - destruct IH as [->|(f & Hf & E)]; [by left|]. right. exists f. split; [|done]. by constructor.
  - right. exists g. split; [constructor|done].
Qed.

Lemma destructive_iff l : max_level l = Destructive ↔ ∃ f, f ∈ l ∧ f_level f = Destructive.
Proof.
  split.
  - intros H. destruct (max_level_attained l) as [H'|(f & Hf & E)]; [congruence|].
    exists f. split; [done|congruence].
  - intros (f & Hf & E). pose proof (max_level_ge f l Hf) as H. rewrite E in H.
    destruct (max_level l); simpl in H; (done || lia).
Qed.

Definition risky (f : Finding) : Prop := f_level f ≠ Safe.

(** Findings guarded by tests. *)
Ltac all_risky :=
  repeat first
    [ apply Forall_app; split
    | apply Forall_nil_2
    | apply Forall_cons; split; [by unfold risky|]
    | case_match ].

Lemma check_redirect_risky tokens frag : Forall risky (check_redirect_targets tokens frag).
Proof.
  induction tokens as [|t tokens IH]; simpl; [constructor|].
  apply Forall_app; split; [|exact IH]. all_risky.
Qed.

Lemma check_filesystem_risky head args frag : Forall risky (check_filesystem head args frag).
Proof. unfold check_filesystem, check_rm, check_dd. all_risky. Qed.

Lemma check_rules_risky head args frag :
  Forall risky (check_privilege head frag) ∧ Forall risky (check_system_control head frag) ∧
  Forall risky (check_process_control head args frag) ∧
  Forall risky (check_permission_change head args frag) ∧
  Forall risky (check_git head args frag) ∧ Forall risky (check_network head args frag) ∧
  Forall risky (check_package_manager head args frag) ∧
  Forall risky (check_obfuscation head args frag) ∧ Forall risky (check_fork_bomb frag).
Proof.
  unfold check_privilege, check_system_control, check_process_control, check_permission_change,
    check_git, check_network, check_package_manager, check_obfuscation, check_fork_bomb.
  split_and!; all_risky.
Qed.

Lemma check_expansion_risky tokens args frag : Forall risky (check_expansion_head tokens args frag).
Proof. unfold check_expansion_head. all_risky; unfold risky; simpl; by case_match. Qed.

Lemma classify_fragment_risky frag : Forall risky (classify_fragment frag).
Proof.
  unfold classify_fragment. destruct (tokenize frag) as [|t ts]; [constructor|].
  rewrite !Forall_app. split_and!; [apply check_expansion_risky| | |].
  - unfold check_ansi_c_quoting. all_risky.
  - unfold ansi_c_escalation. all_risky.
  - destruct (head_of _) as [h|]; [|constructor].
    destruct (check_rules_risky h (tail (strip_leading_assignments (t :: ts))) frag) as (?&?&?&?&?&?&?&?&?).
    rewrite !Forall_app. split_and!; try done;
      [apply check_filesystem_risky|apply check_redirect_risky].
Qed.

Lemma classify_risky command : Forall risky (cl_findings (classify command)).
Proof.
  unfold classify. cbn [cl_findings]. apply Forall_app; split.
  - apply Forall_forall. intros f Hf. apply list_elem_of_In, in_flat_map in Hf as (frag & _ & Hf).
    apply list_elem_of_In in Hf. exact (proj1 (Forall_forall _ _) (classify_fragment_risky frag) f Hf).
  - unfold check_full_string. all_risky.
Qed.

(** * Blocking *)

Lemma is_destructive_iff c :
  is_destructive (classify c) = true ↔ ∃ f, f ∈ cl_findings (classify c) ∧ f_level f = Destructive.
Proof. unfold is_destructive. rewrite bool_decide_eq_true. apply destructive_iff. Qed.

Lemma is_moderate_iff c :
  is_moderate_or_worse (classify c) = true ↔ cl_findings (classify c) ≠ [].
Proof.
  pose proof (classify_risky c) as Hr. unfold is_moderate_or_worse, classify in *.
  cbn [cl_level cl_findings] in *. set (l := flat_map _ _ ++ _) in *.
  destruct (max_level_attained l) as [E|(f & Hf & E)].
  - rewrite E. simpl. split; [done|]. intros Hne. destruct l as [|f l]; [done|].
    apply Forall_cons in Hr as [Hr _]. pose proof (max_level_ge f (f :: l) ltac:(constructor)) as H.
    rewrite E in H. unfold risky in Hr. by destruct (f_level f); simpl in H; (done || lia).
  - split; [intros _ ->; by apply elem_of_nil in Hf|]. intros _.
    pose proof (proj1 (Forall_forall _ _) Hr f Hf) as H. unfold risky in H. rewrite E in H.
    by destruct (max_level l).
Qed.

Lemma enforce_destructive command mode f :
  mode ≠ Off → f ∈ cl_findings (classify command) → f_level f = Destructive →
  enforce command mode =
    Err (ShellBlocked (blocked_reason (classify command)) (primary_target (classify command))).
Proof.
  intros Hm Hf E. unfold enforce.
  assert (is_destructive (classify command) = true) as Hd by (apply is_destructive_iff; eauto).
  assert (is_moderate_or_worse (classify command) = true) as Hw.
  { apply is_moderate_iff. intros H. rewrite H in Hf. by apply elem_of_nil in Hf. }
  destruct mode; simpl; rewrite ?Hd, ?Hw; done.
Qed.

(** The findings of a fragment are findings of the command. *)
Lemma fragment_findings command frag f :
  frag ∈ split_into_subcommands command → f ∈ classify_fragment frag →
  f ∈ cl_findings (classify command).
Proof.
  intros Hfrag Hf. unfold classify. cbn [cl_findings]. apply elem_of_app. left.
  apply list_elem_of_In, in_flat_map. exists frag. by rewrite <-!list_elem_of_In.
Qed.

Lemma script_fragment s frag :
  script_ok s = true → frag ∈ commands s → frag ∈ split_into_subcommands (print_script s).
Proof. intros Hs Hf. rewrite split_script_eq by done. apply elem_of_app. by left. Qed.

Lemma find_map_Some {A B} (f : A → option B) l b :
  find_map f l = Some b → ∃ a, a ∈ l ∧ f a = Some b.
Proof.
  induction l as [|a l IH]; simpl; [done|]. destruct (f a) eqn:E.
  - intros [= <-]. exists a. split; [constructor|done].
  - intros H. destruct (IH H) as (a' & Ha & E'). exists a'. split; [by constructor|done].
Qed.

Lemma find_map_None {A B} (f : A → option B) l a :
  find_map f l = None → a ∈ l → f a = None.
Proof.
  induction l as [|x l IH]; simpl; [by rewrite elem_of_nil|]. destruct (f x) eqn:E; [done|].
  rewrite elem_of_cons. intros H [->|Ha]; auto.
Qed.

Lemma primary_target_spec c :
  match primary_target c with
  | Some t => ∃ f, f ∈ cl_findings c ∧ f_target f = Some t ∧
      (f_level f = cl_level c ∨
       ∀ g, g ∈ cl_findings c → f_level g = cl_level c → f_target g = None)
  | None => ∀ g, g ∈ cl_findings c → f_target g = None
  end.
Proof.
  unfold primary_target. destruct (find_map _ (cl_findings c)) as [t|] eqn:E.
  { apply find_map_Some in E as (f & Hf & E). destruct (bool_decide_reflect (f_level f = cl_level c));
      [|done]. exists f. auto. }
  destruct (find_map f_target (cl_findings c)) as [t|] eqn:E'.
  - apply find_map_Some in E' as (f & Hf & E'). exists f. split_and!; [done..|right].
    intros g Hg Hl. pose proof (find_map_None _ _ _ E Hg) as H. cbn in H.
    by rewrite (bool_decide_true _ Hl) in H.
  - intros g Hg. exact (find_map_None _ _ _ E' Hg).
Qed.

(** ** Heads *)

Lemma strip_assignments_app assigns prog args :
  forallb is_assignment assigns = true → is_assignment prog = false →
  strip_leading_assignments (assigns ++ prog :: args) = prog :: args.
Proof.
  induction assigns as [|a l IH]; simpl; [by intros _ ->|].
  intros [-> Hl]%andb_true_iff Hp. auto.
Qed.

Lemma app_regroup {A} (a b c p s q f r : list A) :
  a ++ b ++ c ++ p ++ s ++ q ++ f ++ r = (a ++ b ++ c) ++ (p ++ s ++ q ++ f) ++ r.
Proof. by rewrite <-!app_assoc. Qed.

Lemma classify_fragment_head frag assigns prog args :
  tokenize frag = assigns ++ prog :: args →
  forallb is_assignment assigns = true → is_assignment prog = false →
  ∃ before after, classify_fragment frag =
    before ++
    (check_privilege (program_name prog) frag ++ check_system_control (program_name prog) frag ++
     check_process_control (program_name prog) args frag ++
     check_filesystem (program_name prog) args frag) ++ after.
Proof.
  intros Ht Ha Hp. unfold classify_fragment, head_of. rewrite Ht, (strip_assignments_app _ _ _ Ha Hp).
  assert (∃ t ts, assigns ++ prog :: args = t :: ts) as (t & ts & E).
  { destruct assigns; simpl; eauto. }
  rewrite E. cbn [tail]. eexists _, _. apply app_regroup.
Qed.

(** Programs that are destructive whatever their arguments. *)
Definition always_destructive (head : string) : bool :=
  mem head (PRIV_BINS ++ SYSTEM_BINS ++
            ["shred"; "mkfs"; "fdisk"; "parted"; "sfdisk"; "wipefs"; "blkdiscard"])
  || starts_with head "mkfs.".

(** A target whose recursive removal is destructive. *)
Definition destructive_target (t : string) : bool :=
  negb (is_dashed t)
  && (is_root_like_path t || is_home_like_path t || target_is_unresolved_expansion t).

Lemma check_rm_destructive args frag target :
  has_rf args = true → target ∈ args → destructive_target target = true →
  ∃ f, f ∈ check_rm args frag ∧ f_level f = Destructive.
Proof.
  intros Hrf Hin [Hd Ht]%andb_true_iff. unfold check_rm. rewrite Hrf.
  set (targets := List.filter _ args).
  assert (In target targets) as Hi.
  { apply filter_In. split; [by apply list_elem_of_In|done]. }
  assert (∀ p : string → bool, p target = true → existsb p targets = true) as Hex.
  { intros p Hp. apply existsb_exists. eauto. }
  destruct (existsb is_root_like_path targets) eqn:E1; [eexists; split; [constructor|done]|].
  destruct (existsb is_home_like_path targets) eqn:E2; [eexists; split; [constructor|done]|].
  destruct (existsb target_is_unresolved_expansion targets) eqn:E3;
    [eexists; split; [constructor|done]|].
  apply orb_true_iff in Ht as [[Ht|Ht]%orb_true_iff|Ht]; apply Hex in Ht; congruence.
Qed.

Definition finding_destructive (f : Finding) : bool := bool_decide (f_level f = Destructive).

Lemma existsb_destructive l :
  existsb finding_destructive l = true → ∃ f, f ∈ l ∧ f_level f = Destructive.
Proof.
  rewrite existsb_exists. intros (f & Hf & E%bool_decide_eq_true). exists f.
  by rewrite list_elem_of_In.
Qed.

Lemma always_destructive_finding head args frag :
  always_destructive head = true →
  ∃ f, f ∈ check_privilege head frag ++ check_system_control head frag ++
           check_process_control head args frag ++ check_filesystem head args frag ∧
       f_level f = Destructive.
Proof.
  intros H. apply existsb_destructive. revert H.
  unfold always_destructive. destruct (mem head _) eqn:Hx; cbn [orb].
  - intros _. unfold mem in Hx. apply existsb_exists in Hx as (x & Hx & <-%String.eqb_eq).
    repeat (destruct Hx as [<-|Hx]; [reflexivity|]). destruct Hx.
  - intros Hm. rewrite !existsb_app. apply orb_true_iff. right. apply orb_true_iff. right.
    apply orb_true_iff. right. unfold check_filesystem.
    destruct (String.eqb_spec head "rm") as [->|_]; [done|].
    destruct (String.eqb_spec head "shred") as [->|_]; [done|].
    destruct (String.eqb_spec head "dd") as [->|_]; [done|].
    destruct (String.eqb_spec head "mkfs") as [->|_]; [done|].
    by rewrite Hm.
Qed.

(** ** The commands that must never run *)

Definition forbidden_programs : list string :=
  ["sudo"; "su"; "doas"; "pkexec"; "runuser"; "gosu"; "shutdown"; "reboot"; "halt"; "poweroff"; "init"; "telinit";
   "shred"; "mkfs"; "fdisk"; "parted"; "sfdisk"; "wipefs"; "blkdiscard"].

(** A word that runs a program of that name, in any letter case and by any path. *)
Definition runs (prog name : string) : Prop :=
  ∃ dir w, prog = dir +:+ w ∧ (dir = "" ∨ ∃ d, dir = d +:+ "/") ∧ char_in "/"%char w = false ∧
    char_in "\"%char prog = false ∧ to_ascii_lowercase w = name.

(** [NAME=VALUE]. *)
Definition assigns (a : string) : Prop :=
  ∃ c n v, a = String c n +:+ "=" +:+ v ∧ (is_ascii_alphabetic c || Ascii.eqb c "_"%char) = true ∧ forall_chars ident_char n = true.

(** The system directories and all below them, everything, a home, and what a
    variable will say. *)
Inductive sensitive : string → Prop :=
| sensitive_system d suffix :
    d ∈ ["/"; "/bin"; "/boot"; "/dev"; "/etc"; "/home"; "/lib"; "/lib32"; "/lib64"; "/opt"; "/proc"; "/root"; "/sbin";
         "/srv"; "/sys"; "/usr"; "/var"] →
    suffix ∈ [""; "/"; "/*"] → sensitive (d +:+ suffix)
| sensitive_all p : p ∈ ["*"; "/*"] → sensitive p
| sensitive_home h rest : h ∈ ["~"; "$HOME"; "${HOME}"] → rest = "" ∨ first_is rest "/"%char = true → sensitive (h +:+ rest)
| sensitive_variable c rest : is_quote c = false → sensitive (String "$" (String c rest)).

(** A long option, or a bundle of short ones with one of the letters. *)
Definition option_given (long : string) (letters : list ascii) (args : list string) : Prop :=
  ∃ a, a ∈ args ∧ (a = long ∨ ∃ b c, a = "-" +:+ b ∧ first_is b "-"%char = false ∧ c ∈ letters ∧ char_in c b = true).

Definition removes (args : list string) : Prop :=
  option_given "--recursive" ["r"%char; "R"%char] args ∧ option_given "--force" ["f"%char] args ∧
  ∃ target, target ∈ args ∧ sensitive target.

(** A command of a script: assignments, a program and its arguments. *)
Definition forbidden (frag : string) (vars : list string) (prog : string) (args : list string) : Prop :=
  tokenize frag = vars ++ prog :: args ∧ Forall assigns vars ∧ char_in "="%char prog = false ∧
  ((∃ name, runs prog name ∧ (name ∈ forbidden_programs ∨ starts_with name "mkfs." = true)) ∨ runs prog "rm" ∧ removes args).

Lemma assigns_assignment a : assigns a → is_assignment a = true.
Proof.
  intros (c & n & v & -> & Hc & Hn). unfold is_assignment.
  change (String c n +:+ "=" +:+ v) with (String c n +:+ String "="%char v). rewrite split_once_app.
  - rewrite Hc. cbn [forall_chars]. rewrite Hn, andb_true_r. unfold ident_char, is_ascii_alphanumeric.
    unfold is_ascii_alphabetic in Hc. apply orb_true_iff in Hc as [Hc|Hc]; [|by rewrite Hc, orb_true_r].
    by destruct (is_ascii_upper c), (is_ascii_lower c), (is_ascii_digit c), (Ascii.eqb c "_").
  - cbn [char_in]. apply orb_false_iff. split.
    + destruct (Ascii.eqb_spec c "="%char) as [->|]; [by vm_compute in Hc|done].
    + clear Hc. induction n as [|d n IH]; [done|]. cbn [forall_chars char_in] in *. apply andb_true_iff in Hn as [Hd Hn].
      rewrite IH by done. rewrite orb_false_r. destruct (Ascii.eqb_spec d "="%char) as [->|]; [by vm_compute in Hd|done].
Qed.

Lemma no_equals_no_assignment a : char_in "="%char a = false → is_assignment a = false.
Proof. unfold is_assignment. by intros ->%split_once_None. Qed.

Lemma after_last_slash_none w : char_in "/"%char w = false → after_last_slash w = w.
Proof. destruct w as [|c w]; [done|]. cbn. intros [Hc Hw]%orb_false_iff. by rewrite Hw, Hc. Qed.

Lemma after_last_slash_dir d w : char_in "/"%char w = false → after_last_slash (d +:+ String "/" w) = w.
Proof.
  intros Hw. induction d as [|c d IH]; cbn.
  - by rewrite Hw.
  - rewrite char_in_app. cbn. by rewrite orb_true_r.
Qed.

Lemma trim_start_none c s : char_in c s = false → trim_start_char c s = s.
Proof. destruct s as [|a s]; [done|]. cbn. rewrite Ascii.eqb_sym. by intros [-> _]%orb_false_iff. Qed.

Lemma runs_program prog name : runs prog name → program_name prog = name.
Proof.
  intros (dir & w & -> & Hdir & Hw & Hb & <-). unfold program_name. rewrite trim_start_none by done. f_equal.
  destruct Hdir as [->|[d ->]]; [by apply after_last_slash_none|].
  rewrite string_app_assoc. by apply after_last_slash_dir.
Qed.

Lemma sensitive_destructive t : sensitive t → destructive_target t = true.
Proof.
  intros [d suffix Hd Hs|p Hp|h rest Hh Hr|c rest Hc].
  - apply list_elem_of_In in Hd, Hs. repeat destruct Hd as [<-|Hd]; try done; repeat destruct Hs as [<-|Hs]; done.
  - apply list_elem_of_In in Hp. repeat destruct Hp as [<-|Hp]; done.
  - assert (Hhome : is_home_like_path (h +:+ rest) = true ∧ is_dashed (h +:+ rest) = false).
    { destruct Hr as [->|Hr].
      - apply list_elem_of_In in Hh. repeat destruct Hh as [<-|Hh]; done.
      - destruct rest as [|a rest]; [done|]. apply Ascii.eqb_eq in Hr as ->.
        apply list_elem_of_In in Hh. repeat destruct Hh as [<-|Hh]; try done; (split; [|done]); cbn; by rewrite ?orb_true_r; destruct rest. }
    destruct Hhome as [Hh' Hd]. unfold destructive_target. by rewrite Hd, Hh', orb_true_r.
  - unfold destructive_target. change (is_dashed _) with false.
    assert (Ht : target_is_unresolved_expansion (String "$" (String c rest)) = true).
    { unfold target_is_unresolved_expansion, trim_quotes. cbn. by rewrite Hc. }
    by rewrite Ht, orb_true_r.
Qed.

Lemma option_short b c (letters : list ascii) : first_is b "-"%char = false → c ∈ letters → char_in c b = true → is_short_flag ("-" +:+ b) c = true.
Proof.
  intros Hb _ Hc. unfold is_short_flag. destruct b as [|a b]; [done|]. cbn in *. rewrite Hc, andb_true_r.
  destruct (starts_with _ _) eqn:E; [|done]. apply starts_with_true in E as [r [= -> _]]. done.
Qed.

Lemma removes_has_rf args : removes args → has_rf args = true.
Proof.
  intros ((a & Ha & Hr) & (b & Hb & Hf) & _). unfold has_rf. apply andb_true_iff. rewrite !existsb_exists. split.
  - exists a. split; [by apply list_elem_of_In|]. unfold recursive_flag. destruct Hr as [->|(x & c & -> & Hx & Hc & Hin)]; [done|].
    pose proof (option_short x c _ Hx Hc Hin) as Hs. apply list_elem_of_In in Hc. cbn in Hc.
    destruct Hc as [<-|[<-|[]]]; by rewrite Hs, ?orb_true_r.
  - exists b. split; [by apply list_elem_of_In|]. unfold force_flag. destruct Hf as [->|(x & c & -> & Hx & Hc & Hin)]; [done|].
    pose proof (option_short x c _ Hx Hc Hin) as Hs. apply list_elem_of_In in Hc. cbn in Hc.
    destruct Hc as [<-|[]]; by rewrite Hs, ?orb_true_r.
Qed.

Lemma forbidden_destructive name : name ∈ forbidden_programs ∨ starts_with name "mkfs." = true → always_destructive name = true.
Proof.
  intros [H|H]; [|unfold always_destructive; by rewrite H, orb_true_r].
  apply list_elem_of_In in H. repeat destruct H as [<-|H]; done.
Qed.

Lemma forbidden_finding frag vars prog args :
  forbidden frag vars prog args →
  ∃ f, f ∈ classify_fragment frag ∧ f_level f = Destructive.
Proof.
  intros (Ht & Ha & Hp & Hd).
  assert (Ha' : forallb is_assignment vars = true).
  { apply forallb_forall. intros x Hx. apply assigns_assignment. rewrite Forall_forall in Ha. by apply Ha, list_elem_of_In. }
  destruct (classify_fragment_head frag vars prog args Ht Ha' (no_equals_no_assignment _ Hp)) as (b & a & ->).
  destruct Hd as [(name & Hn%runs_program & Hd)|(Hn%runs_program & Hr)]; rewrite Hn.
  - destruct (always_destructive_finding _ args frag (forbidden_destructive _ Hd)) as (f & Hf & E).
    exists f. rewrite !elem_of_app in *. tauto.
  - pose proof (removes_has_rf _ Hr) as Hrf. destruct Hr as (_ & _ & t & Hin & Ht'%sensitive_destructive).
    destruct (check_rm_destructive args frag t Hrf Hin Ht') as (f & Hf & E).
    exists f. split; [|done]. rewrite !elem_of_app. right. left. right. right. right. exact Hf.
Qed.

(** * Properties *)

(** What [enforce] decides.  With the classifier off nothing is blocked;
    with [Warn] and [BlockDestructive] exactly a command with a destructive
    finding is, with [Strict] exactly a command with any finding.  The error
    carries the target of a finding, and of one at the highest level whenever
    such a finding has a target. *)
Theorem enforce_exact command mode :
  let c := classify command in
  (is_ok (enforce command mode) = false ↔
   match mode with
   | Off => False
   | Warn | BlockDestructive => ∃ f, f ∈ cl_findings c ∧ f_level f = Destructive
   | Strict => cl_findings c ≠ []
   end) ∧
  match enforce command mode with
  | Ok c' => c' = c
  | Err e => ∃ t, e = ShellBlocked (blocked_reason c) t ∧
      match t with
      | Some t => ∃ f, f ∈ cl_findings c ∧ f_target f = Some t ∧
          (f_level f = cl_level c ∨
           ∀ g, g ∈ cl_findings c → f_level g = cl_level c → f_target g = None)
      | None => ∀ g, g ∈ cl_findings c → f_target g = None
      end
  end.
Proof.
  cbv zeta. unfold enforce. split.
  - assert (∀ b : bool, is_ok (if b then Err (ShellBlocked (blocked_reason (classify command))
        (primary_target (classify command))) else Ok (classify command)) = false ↔ b = true) as Hb
      by (by intros []).
    rewrite Hb. destruct mode; [done|apply is_destructive_iff..|apply is_moderate_iff].
  - destruct (blocks mode _); [|done]. eexists. split; [done|].
    apply primary_target_spec.
Qed.

(** No part of a script hides from the classifier.  When any command of a
    script, at any depth of substitutions and anywhere in its chains, is
    classified destructive by itself, the whole script is blocked in every mode
    but [Off]. *)
Theorem script_command_blocked s frag mode :
  script_ok s = true → frag ∈ commands s →
  max_level (classify_fragment frag) = Destructive → mode ≠ Off →
  is_ok (enforce (print_script s) mode) = false.
Proof.
  intros Hs Hfrag Hl Hm. apply destructive_iff in Hl as (f & Hf & E).
  rewrite (enforce_destructive _ _ f Hm); [done| |done].
  apply (fragment_findings _ frag); [by apply script_fragment|done].
Qed.

(** C36: the commands the classifier is a floor for.  Take a script of commands,
    pipelines, quoted text and substitutions to any depth.  When one of its
    commands, after any assignments, runs by any path and in any letter case one of
    the nineteen [forbidden_programs] or an [mkfs.] one, or runs [rm] with its
    recursive and force options in any spelling on a [sensitive] target, the script
    is blocked in every mode but [Off].  The scripts are those of [script_ok]: ASCII
    text in which literal and quoted parts leave the delimiters alone, without
    backslashes and without nested backticks; [quoted_backslash_hides] shows a
    command outside them that escapes. *)
Theorem dangerous_program_blocked s frag vars prog args mode :
  script_ok s = true → frag ∈ commands s → forbidden frag vars prog args → mode ≠ Off →
  is_ok (enforce (print_script s) mode) = false.
Proof.
  intros Hs Hfrag Hf Hm. destruct (forbidden_finding _ _ _ _ Hf) as (f & Hf' & E).
  rewrite (enforce_destructive _ _ f Hm); [done| |done].
  apply (fragment_findings _ frag); [by apply script_fragment|done].
Qed.

(** The head of a fragment is its first word, so the wrappers [command],
    [exec] and [builtin] are not skipped as the comment on [head_of] says: a
    wrapped [sudo] is classified safe, while [sudo] itself is destructive. *)
Theorem wrapper_hides_program :
  (∀ w args, In w ["command"; "exec"; "builtin"] → head_of (w :: args) = Some w) ∧
  (∀ w, In w ["command"; "exec"; "builtin"] →
     cl_level (classify (w +:+ " sudo reboot")) = Safe) ∧
  cl_level (classify "sudo reboot") = Destructive.
Proof.
  split_and!; [| |by vm_compute].
  - intros w args Hw. repeat (destruct Hw as [<-|Hw]; [done|]). destruct Hw.
  - intros w Hw. repeat (destruct Hw as [<-|Hw]; [by vm_compute|]). destruct Hw.
Qed.

(** The search for the closing parenthesis takes a backslash in single
    quotes for an escape, which the shell does not, so a quoted backslash inside
    a substitution hides all that follows it: the substitution is never split,
    the command it runs is classified safe, and without the quoted backslash the
    same command is destructive. *)
Theorem quoted_backslash_hides :
  find_matching_close_paren "echo '\'; rm -fr /etc)" = None ∧
  cl_level (classify "$(echo '\'; rm -fr /etc)") = Safe ∧
  cl_level (classify "$(echo 'x'; rm -fr /etc)") = Destructive.
Proof. split_and!; by vm_compute. Qed.

(** * Witnesses *)

Lemma script_command_blocked_witness :
  is_ok (enforce (print_script example_script) Warn) = false.
Proof.
  apply (script_command_blocked example_script "sudo y" Warn).
  - reflexivity.
  - apply list_elem_of_In. vm_compute. tauto.
  - vm_compute. reflexivity.
  - discriminate.
Defined.

Definition removal_script : Script :=
  Chain (Lit "cd x" Done) AndAnd
    (Last (Lit "echo " (Subst DollarParen
       (Last (Lit "A=1 /bin/rm -f --recursive build /etc" Done)) Done))).

Lemma dangerous_program_blocked_witness :
  is_ok (enforce (print_script removal_script) BlockDestructive) = false.
Proof.
  apply (dangerous_program_blocked removal_script "A=1 /bin/rm -f --recursive build /etc"
    ["A=1"] "/bin/rm" ["-f"; "--recursive"; "build"; "/etc"]).
  - reflexivity.
  - apply list_elem_of_In. vm_compute. tauto.
  - split; [vm_compute; reflexivity|]. split; [constructor; [exists "A"%char, "", "1"; by split_and!|constructor]|].
    split; [reflexivity|]. right. split; [exists "/bin/", "rm"; split_and!; try done; right; by exists "/bin"|]. split; [|split].
    + exists "--recursive". split; [right; left|by left].
    + exists "-f". split; [left|]. right. exists "f", "f"%char. split_and!; try done. left.
    + exists "/etc". split; [right; right; right; left|]. apply (sensitive_system "/etc" ""); apply list_elem_of_In; vm_compute; tauto.
  - discriminate.
Defined.
