(* ===== verification/FsPath.v ===== *)
(** Paths, symbolic links and the sandbox root of the file tools:
    [alms-sandbox/src/builtin/mod.rs].

    Of the standard library: [Path] as its Unix components, and a file system
    as a tree of nodes with symbolic links, which [exists], [canonicalize] and
    [open] resolve component by component.  A handler runs on one state of the
    tree.  [os_error] is the text of an operating-system error. *)
From S2P Require Import Prelude ShellParse ShellRules.

(** * Components *)

Inductive Component := RootDir | CurDir | ParentDir | Normal (name : string).

#[export] Instance Component_eq_dec : EqDecision Component.
Proof. solve_decision. Defined.

Fixpoint split_slash (s : string) : list string :=
  match s with
  | EmptyString => [""]
  | String c s' =>
      if Ascii.eqb c "/"%char then "" :: split_slash s'
      else match split_slash s' with
           | p :: ps => String c p :: ps
           | [] => [String c EmptyString]
           end
  end.

Definition component_of (part : string) : list Component :=
  if String.eqb part "" || String.eqb part "." then []
  else if String.eqb part ".." then [ParentDir] else [Normal part].

(** [Path::components] on Unix. *)
Definition components (p : string) : list Component :=
  (if first_is p "/"%char then [RootDir]
   else match split_slash p with part :: _ => if String.eqb part "." then [CurDir] else []
                            | [] => [] end)
  ++ flat_map component_of (split_slash p).

Definition is_absolute (p : list Component) : bool :=
  match p with RootDir :: _ => true | _ => false end.

(** [Path::join] of a relative path: a [.] inside a path is no component. *)
Definition path_join (base p : list Component) : list Component :=
  base ++ filter (λ c, c ≠ CurDir) p.

(** [PathBuf::pop]: the path without its last component, if it has a parent. *)
Definition path_pop (p : list Component) : option (list Component) :=
  match last p with
  | None | Some RootDir => None
  | Some _ => Some (removelast p)
  end.

(** The text of a path, [Path::to_str]. *)
Fixpoint join_components (p : list Component) : string :=
  match p with
  | [] => ""
  | [Normal s] => s
  | [ParentDir] => ".."
  | [CurDir] => "."
  | [RootDir] => "/"
  | RootDir :: p' => "/" +:+ join_components p'
  | Normal s :: p' => s +:+ "/" +:+ join_components p'
  | ParentDir :: p' => "../" +:+ join_components p'
  | CurDir :: p' => "./" +:+ join_components p'
  end.

(** * The file system *)

(** A place in the tree: the names from the root down. *)
Definition Location := list string.

Inductive Node :=
| File (content : string) (modified : option Z)
| Directory
| Symlink (target : list Component)
| Special.

Record Disk := { nodes : gmap Location Node; cwd : Location }.

Definition node_at (d : Disk) (l : Location) : option Node :=
  match l with [] => Some Directory | _ => nodes d !! l end.

Definition is_dir (d : Disk) (l : Location) : bool :=
  match node_at d l with Some Directory => true | _ => false end.

(** Path resolution from the directory [cur], following at most [links] links.
    With [create] the last name may be missing, as for [open] with [O_CREAT]:
    the result is where the file comes to be. *)
Fixpoint walk (create : bool) (links : nat) (d : Disk) : Location → list Component → option Location :=
  fix go (cur : Location) (todo : list Component) {struct todo} : option Location :=
    match todo with
    | [] => Some cur
    | RootDir :: rest => go [] rest
    | CurDir :: rest => go cur rest
    | ParentDir :: rest => if is_dir d cur then go (removelast cur) rest else None
    | Normal c :: rest =>
        if is_dir d cur then
          match node_at d (cur ++ [c]) with
          | Some (Symlink target) =>
              match links with
              | 0 => None
              | S links' => walk create links' d cur (target ++ rest)
              end
          | Some _ => go (cur ++ [c]) rest
          | None => if create && bool_decide (rest = []) then Some (cur ++ [c]) else None
          end
        else None
    end.

#[global] Arguments walk : simpl never.

(** The kernel follows 40 links. *)
Definition MAX_LINKS : nat := 40.
#[global] Arguments MAX_LINKS : simpl never.

(** The empty path names nothing.  A trailing slash is no component: the paths
    the tools pass on were rebuilt from components. *)
Definition resolve (d : Disk) (p : list Component) : option Location :=
  match p with [] => None | _ => walk false MAX_LINKS d (cwd d) p end.

(** Where writing to [p] puts the file. *)
Definition write_target (d : Disk) (p : list Component) : option Location :=
  match p with [] => None | _ => walk true MAX_LINKS d (cwd d) p end.

#[global] Arguments resolve : simpl never.
#[global] Arguments write_target : simpl never.

Definition path_exists (d : Disk) (p : list Component) : bool := bool_decide (is_Some (resolve d p)).

Definition path_of (l : Location) : list Component := RootDir :: (Normal <$> l).

Definition canonicalize (d : Disk) (p : list Component) : option (list Component) :=
  path_of <$> resolve d p.

(** * [builtin/mod.rs] *)

Definition BLOCKED_DEVICE_PATHS : list string :=
  ["/dev/zero"; "/dev/random"; "/dev/urandom"; "/dev/stdin"; "/dev/stdout"; "/dev/stderr";
   "/dev/tty"; "/dev/console"; "/proc/self/fd/0"; "/proc/self/fd/1"; "/proc/self/fd/2"].

Definition is_blocked_device_path (path : string) : bool :=
  bool_decide (path ∈ BLOCKED_DEVICE_PATHS).

Definition ascii_upper (a : ascii) : ascii :=
  if is_ascii_lower a then ascii_of_N (N_of_ascii a - 32) else a.

Fixpoint to_ascii_uppercase (s : string) : string :=
  match s with EmptyString => EmptyString | String a s' => String (ascii_upper a) (to_ascii_uppercase s') end.

Definition is_unc_path (path : string) : bool :=
  if starts_with path "\\" then
    match strip_prefix "\\?\" path with
    | Some rest =>
        let upper := to_ascii_uppercase rest in
        starts_with upper "UNC\" || starts_with upper "UNC/"
    | None => true
    end
  else starts_with path "//".

Definition reject_unc_path (path : string) : Result unit SandboxError :=
  if is_unc_path path
  then Err (SandboxViolation "UNC paths (\\server\share or //server/share) are not allowed — they can leak credentials via SMB authentication.")
  else Ok tt.

Section sandbox.
Context (os_error : string) (d : Disk).

(** One component of the walk of [canonicalize_best_effort]. *)
Definition best_effort_step (resolved : list Component) (component : Component)
    : Result (list Component) string :=
  match component with
  | RootDir => Ok [RootDir]
  | CurDir => Ok resolved
  | ParentDir => match path_pop resolved with
                 | Some parent => Ok parent
                 | None => Ok (resolved ++ [ParentDir])
                 end
  | Normal c =>
      let candidate := resolved ++ [Normal c] in
      if path_exists d candidate
      then match canonicalize d candidate with Some p => Ok p | None => Err os_error end
      else Ok candidate
  end.

Fixpoint best_effort_loop (resolved todo : list Component) : Result (list Component) string :=
  match todo with
  | [] => Ok resolved
  | component :: rest =>
      let? resolved' := best_effort_step resolved component in best_effort_loop resolved' rest
  end.

Definition canonicalize_best_effort (path : list Component) : Result (list Component) string :=
  if path_exists d path
  then match canonicalize d path with Some p => Ok p | None => Err os_error end
  else best_effort_loop [] path.

Definition path_starts_with (p root : list Component) : bool := bool_decide (prefix root p).

Definition violation {A} (message : string) : Result A SandboxError := Err (SandboxViolation message).

(** What the two checks share: the canonical root and the canonical path. *)
Definition resolve_in_root (path sandbox_root : string)
    : Result (list Component * list Component) SandboxError :=
  let p := components path in
  match canonicalize_best_effort (components sandbox_root) with
  | Err e => violation ("Cannot resolve sandbox root '" +:+ sandbox_root +:+ "': " +:+ e)
  | Ok canonical_root =>
      let resolved := if is_absolute p then p else path_join canonical_root p in
      match canonicalize_best_effort resolved with
      | Err e => violation ("Cannot resolve '" +:+ path +:+ "': " +:+ e)
      | Ok canonical => Ok (canonical_root, canonical)
      end
  end.

Definition outside {A} (path : string) : Result A SandboxError :=
  violation ("Path '" +:+ path +:+ "' is outside sandbox root").

Definition check_sandbox_path (path sandbox_root : string) : Result (list Component) SandboxError :=
  let? r := resolve_in_root path sandbox_root in
  if path_starts_with r.2 r.1 then Ok r.2 else outside path.

Definition in_extra_root (canonical : list Component) (extra : string) : bool :=
  match canonicalize_best_effort (components extra) with
  | Ok canon_extra => path_starts_with canonical canon_extra
  | Err _ => false
  end.

Definition check_sandbox_path_with_extras (path sandbox_root : string) (extra_read_roots : list string)
    : Result (list Component) SandboxError :=
  let? r := resolve_in_root path sandbox_root in
  if path_starts_with r.2 r.1 || existsb (in_extra_root r.2) extra_read_roots then Ok r.2
  else outside path.

Definition normalize_unsandboxed_path (path : string) : list Component :=
  match canonicalize_best_effort (components path) with
  | Ok p => p
  | Err _ => components path
  end.

End sandbox.

(** * Resolution

    A location is real when no link lies on the way to it. *)
Definition is_link (n : Node) : bool := match n with Symlink _ => true | _ => false end.

Definition real (d : Disk) (l : Location) : Prop :=
  ∀ l1 c l2, l = l1 ++ c :: l2 →
    is_dir d l1 = true ∧ ∃ n, node_at d (l1 ++ [c]) = Some n ∧ is_link n = false.

Section walk_facts.
Context (d : Disk).

Lemma walk_nil create k cur : walk create k d cur [] = Some cur.
Proof. by destruct k. Qed.
Lemma walk_root create k cur rest : walk create k d cur (RootDir :: rest) = walk create k d [] rest.
Proof. by destruct k. Qed.
Lemma walk_cur create k cur rest : walk create k d cur (CurDir :: rest) = walk create k d cur rest.
Proof. by destruct k. Qed.
Lemma walk_parent create k cur rest :
  walk create k d cur (ParentDir :: rest) =
  if is_dir d cur then walk create k d (removelast cur) rest else None.
Proof. by destruct k. Qed.
Lemma walk_normal create k cur c rest :
  walk create k d cur (Normal c :: rest) =
  if is_dir d cur then
    match node_at d (cur ++ [c]) with
    | Some (Symlink target) =>
        match k with 0 => None | S k' => walk create k' d cur (target ++ rest) end
    | Some _ => walk create k d (cur ++ [c]) rest
    | None => if create && bool_decide (rest = []) then Some (cur ++ [c]) else None
    end
  else None.
Proof. by destruct k. Qed.

Lemma real_nil : real d [].
Proof. by intros [] ? ?. Qed.

Lemma real_snoc l c n :
  real d l → is_dir d l = true → node_at d (l ++ [c]) = Some n → is_link n = false → real d (l ++ [c]).
Proof.
  intros Hl Hd Hn Hk l1 c1 l2 E. destruct l2 as [|x l2 _] using rev_ind.
  - apply app_inj_tail in E as [-> ->]. eauto.
  - rewrite app_comm_cons, app_assoc in E. apply app_inj_tail in E as [-> _]. by eapply Hl.
Qed.

Lemma real_prefix l1 l2 : real d (l1 ++ l2) → real d l1.
Proof. intros H a c b ->. apply (H a c (b ++ l2)). by rewrite <- app_assoc. Qed.

Lemma real_removelast l : real d l → real d (removelast l).
Proof.
  destruct l as [|x l _] using rev_ind; [done|]. rewrite removelast_last. apply real_prefix.
Qed.

Lemma real_last l c : real d (l ++ [c]) →
  is_dir d l = true ∧ ∃ n, node_at d (l ++ [c]) = Some n ∧ is_link n = false.
Proof. intros H. by apply (H l c []). Qed.

(** Resolving ends at a real location. *)
Lemma walk_real k : ∀ todo cur loc,
  real d cur → walk false k d cur todo = Some loc → real d loc.
Proof.
  induction k as [|k IHk]; (induction todo as [|[| | |c] todo IH]; intros cur loc Hr;
    [rewrite walk_nil; by intros [= <-]|rewrite walk_root; apply IH, real_nil|rewrite walk_cur; by apply IH
    |rewrite walk_parent; destruct (is_dir d cur); [|done]; by apply IH, real_removelast|]);
    rewrite walk_normal; destruct (is_dir d cur) eqn:Hd; try done;
    destruct (node_at d (cur ++ [c])) as [[]|] eqn:Hn; try done;
    (apply IH || apply IHk); by try eapply real_snoc.
Qed.

(** A real location resolves to itself. *)
Lemma walk_names_app create k l rest : ∀ cur, real d (cur ++ l) →
  walk create k d cur ((Normal <$> l) ++ rest) = walk create k d (cur ++ l) rest.
Proof.
  induction l as [|c l IH]; intros cur Hr; [by rewrite app_nil_r|].
  rewrite fmap_cons, <- app_comm_cons, walk_normal. destruct (Hr cur c l eq_refl) as (-> & n & -> & Hk).
  rewrite cons_middle, app_assoc in Hr. specialize (IH _ Hr). rewrite <- app_assoc in IH.
  by destruct n.
Qed.

Lemma walk_names create k l cur : real d (cur ++ l) → walk create k d cur (Normal <$> l) = Some (cur ++ l).
Proof.
  intros Hr. rewrite <- (app_nil_r (Normal <$> l)), walk_names_app by done. apply walk_nil.
Qed.

(** When more names follow, what comes before must exist. *)
Lemma walk_app k create q : q ≠ [] → Forall (λ c, ∃ s, c = Normal s) q → ∀ p cur loc,
  walk create k d cur (p ++ q) = Some loc → is_Some (walk false k d cur p).
Proof.
  intros Hq Hn. induction k as [|k IHk]; (induction p as [|[| | |c] p IH]; intros cur loc;
    [intros _; rewrite walk_nil; by eexists
    |rewrite <- app_comm_cons, !walk_root; apply IH|rewrite <- app_comm_cons, !walk_cur; apply IH
    |rewrite <- app_comm_cons, !walk_parent; destruct (is_dir d cur); [apply IH|done]|]);
    rewrite <- app_comm_cons, !walk_normal; destruct (is_dir d cur); try done;
    destruct (node_at d (cur ++ [c])) as [[]|]; try done; try apply IH;
    try (rewrite bool_decide_eq_false_2, andb_false_r by (by intros [_ ?]%app_eq_nil); done).
  rewrite app_assoc. apply IHk.
Qed.

Lemma resolve_real l : real d l → resolve d (path_of l) = Some l.
Proof. intros Hr. unfold resolve, path_of. rewrite walk_root. by apply (walk_names _ _ l []). Qed.

(** The first name of a path that leads nowhere: no node, a dangling link, or
    a name below something that is no directory. *)
Definition missing (E T : Location) : Prop :=
  match T with [] => True | t :: _ => resolve d (path_of (E ++ [t])) = None end.

(** What [canonicalize_best_effort] makes of an absolute path: a real location
    followed by names that do not exist, or a path above the root. *)
Definition best_form (r : list Component) : Prop :=
  (∃ E T, r = path_of (E ++ T) ∧ real d E ∧ missing E T) ∨
  ∃ T, r = RootDir :: ParentDir :: (Normal <$> T).

Lemma best_form_real l : real d l → best_form (path_of l).
Proof. intros Hr. left. exists l, []. by rewrite app_nil_r. Qed.

Lemma resolve_abs_real cs l : resolve d (RootDir :: cs) = Some l → real d l.
Proof. unfold resolve. rewrite walk_root. apply walk_real, real_nil. Qed.

Lemma path_of_snoc l c : path_of (l ++ [c]) = path_of l ++ [Normal c].
Proof. unfold path_of. by rewrite fmap_app. Qed.

Lemma path_pop_snoc p c : c ≠ RootDir → path_pop (p ++ [c]) = Some p.
Proof. intros Hc. unfold path_pop. rewrite last_snoc, removelast_last. by destruct c. Qed.

Lemma best_effort_step_form os_error r c r' :
  best_form r → best_effort_step os_error d r c = Ok r' → best_form r'.
Proof.
  intros Hr. destruct c as [| | |c]; simpl.
  - intros [= <-]. apply (best_form_real []), real_nil.
  - by intros [= <-].
  - destruct Hr as [(E & T & -> & HE & HT)|(T & ->)].
    + destruct T as [|t T _] using rev_ind.
      * rewrite app_nil_r. destruct E as [|e E _] using rev_ind.
        -- intros [= <-]. right. by exists [].
        -- rewrite path_of_snoc, path_pop_snoc by done. intros [= <-].
           by apply best_form_real, (real_prefix E [e]).
      * rewrite app_assoc, path_of_snoc, path_pop_snoc by done. intros [= <-].
        left. exists E, T. split_and!; [done..|]. by destruct T.
    + destruct T as [|t T _] using rev_ind.
      * intros [= <-]. apply (best_form_real []), real_nil.
      * rewrite fmap_app, !app_comm_cons. simpl (Normal <$> [t]). rewrite path_pop_snoc by done.
        intros [= <-]. right. by exists T.
  - unfold path_exists, canonicalize. case_bool_decide as Hex.
    + destruct (resolve d _) as [l|] eqn:Hl; [|done]. intros [= <-]. apply best_form_real.
      destruct Hr as [(E & T & -> & HE & HT)|(T & ->)]; eapply resolve_abs_real; unfold path_of in Hl; exact Hl.
    + intros [= <-]. apply eq_None_not_Some in Hex.
      destruct Hr as [(E & T & -> & HE & HT)|(T & ->)].
      * left. exists E, (T ++ [c]). rewrite app_assoc, path_of_snoc. split_and!; [done..|].
        destruct T as [|t T]; [|done]. unfold missing. by rewrite app_nil_r in Hex; rewrite <- path_of_snoc in Hex.
      * right. exists (T ++ [c]). by rewrite fmap_app.
Qed.

Lemma best_effort_loop_form os_error todo : ∀ r r',
  best_form r → best_effort_loop os_error d r todo = Ok r' → best_form r'.
Proof.
  induction todo as [|c todo IH]; intros r r' Hr; simpl; [by intros [= <-]|].
  rewrite result_bind_Ok. intros (r1 & Hs & Hl). eapply IH; [|done]. by eapply best_effort_step_form.
Qed.

Lemma canonicalize_best_effort_form os_error cs r :
  canonicalize_best_effort os_error d (RootDir :: cs) = Ok r → best_form r.
Proof.
  unfold canonicalize_best_effort, path_exists, canonicalize. case_bool_decide as Hex.
  - destruct (resolve d _) as [l|] eqn:Hl; [|done]. intros [= <-].
    by eapply best_form_real, resolve_abs_real.
  - simpl. apply best_effort_loop_form, (best_form_real []), real_nil.
Qed.

Lemma canonicalize_best_effort_exists os_error p l :
  resolve d p = Some l → canonicalize_best_effort os_error d p = Ok (path_of l).
Proof.
  intros Hl. unfold canonicalize_best_effort, path_exists, canonicalize. by rewrite Hl.
Qed.
End walk_facts.

(** * Containment *)

Lemma prefix_names R l : prefix (path_of R) (path_of l) → prefix R l.
Proof.
  intros [k Hk]. unfold path_of in Hk. simpl in Hk. injection Hk as Hk.
  revert l k Hk; induction R as [|r R IH]; intros l k Hk; [apply prefix_nil|].
  destruct l as [|x l]; [done|]. simpl in Hk. injection Hk as -> Hk. by apply prefix_cons, (IH l k).
Qed.

Section containment.
Context (os_error : string) (d : Disk) (root : string) (R : Location).
Hypothesis Hroot : resolve d (components root) = Some R.

Lemma resolve_in_root_form path r :
  resolve_in_root os_error d path root = Ok r → r.1 = path_of R ∧ best_form d r.2.
Proof using Hroot.
  unfold resolve_in_root. rewrite (canonicalize_best_effort_exists _ _ _ _ Hroot).
  destruct (canonicalize_best_effort _ _ _) as [canonical|] eqn:Hc; [|done]. intros [= <-]. simpl.
  split; [done|]. destruct (components path) as [|[] cs]; simpl in Hc;
    by eapply canonicalize_best_effort_form in Hc.
Qed.

(** The path a successful check returns, when the root is not [/] itself. *)
Lemma check_sandbox_path_form path canonical :
  check_sandbox_path os_error d path root = Ok canonical → R ≠ [] →
  ∃ E T, canonical = path_of (E ++ T) ∧ real d E ∧ missing d E T ∧ prefix R (E ++ T).
Proof using Hroot.
  unfold check_sandbox_path. rewrite result_bind_Ok. intros ([cr p] & Hr & Hc) HR.
  apply resolve_in_root_form in Hr as [E1 Hform]. simpl in *. subst cr.
  unfold path_starts_with in Hc. case_bool_decide as Hp; [|done]. injection Hc as ->.
  destruct Hform as [(E & T & -> & HE & HT)|(T & ->)].
  - exists E, T. split_and!; [done..|]. by apply prefix_names.
  - exfalso. destruct R as [|r R']; [done|]. destruct Hp as [k Hk]. done.
Qed.
End containment.

Lemma resolve_names d l : resolve d (path_of l) = walk false MAX_LINKS d [] (Normal <$> l).
Proof. apply walk_root. Qed.
Lemma write_target_names d l : write_target d (path_of l) = walk true MAX_LINKS d [] (Normal <$> l).
Proof. apply walk_root. Qed.

Lemma walk_beyond_missing d E t T create :
  missing d E (t :: T) → T ≠ [] → walk create MAX_LINKS d [] (Normal <$> (E ++ t :: T)) = None.
Proof.
  intros HT Hne. apply eq_None_not_Some. intros [l Hl]. unfold missing in HT. rewrite resolve_names in HT.
  rewrite cons_middle, app_assoc, fmap_app in Hl.
  apply walk_app in Hl as [l' Hl']; [congruence|by destruct T|by apply Forall_fmap, Forall_true; eauto].
Qed.

(** Below a real location, a missing name is reached by nothing but creating it,
    or through a link. *)
Lemma missing_resolve d E t T : missing d E (t :: T) → resolve d (path_of (E ++ t :: T)) = None.
Proof.
  intros HT. rewrite resolve_names. destruct T as [|t' T]; [|by apply walk_beyond_missing].
  unfold missing in HT. by rewrite resolve_names in HT.
Qed.

Lemma write_target_missing d E t T loc :
  real d E → missing d E (t :: T) → write_target d (path_of (E ++ t :: T)) = Some loc →
  T = [] ∧ is_dir d E = true ∧
  (node_at d (E ++ [t]) = None ∧ loc = E ++ [t] ∨ ∃ target, node_at d (E ++ [t]) = Some (Symlink target)).
Proof.
  intros HE HT Hw. rewrite write_target_names in Hw.
  destruct T as [|t' T]; [|by rewrite walk_beyond_missing in Hw]. split; [done|].
  unfold missing in HT. rewrite resolve_names, fmap_app, walk_names_app in HT by done.
  rewrite fmap_app, walk_names_app in Hw by done. simpl (_ <$> [t]) in HT, Hw.
  rewrite app_nil_l, walk_normal in Hw, HT.
  destruct (is_dir d E) eqn:Hd; [|done]. split; [done|].
  destruct (node_at d (E ++ [t])) as [[]|]; rewrite ?walk_nil in HT; try done; eauto.
  left. simpl in Hw. by simplify_eq.
Qed.

Lemma write_target_real d l : real d l → write_target d (path_of l) = Some l.
Proof. intros Hr. rewrite write_target_names. by apply (walk_names _ _ _ l []). Qed.

(** The sandbox holds for the file tools.  When the check accepts a path, whatever
    the spelling, the links on the way and the parts that do not exist yet, the
    file a read of the returned path opens lies under the root, and so does the
    file a write to it creates or replaces, unless the path names a link that
    leads nowhere. *)
Theorem sandbox_path_contained os_error d root R path canonical :
  resolve d (components root) = Some R →
  check_sandbox_path os_error d path root = Ok canonical →
  (∀ loc, resolve d canonical = Some loc → prefix R loc) ∧
  (∀ loc, write_target d canonical = Some loc →
     (∀ l target, canonical = path_of l → node_at d l ≠ Some (Symlink target)) → prefix R loc).
Proof.
  intros Hroot Hc. destruct (decide (R = [])) as [->|HR]; [split; intros; apply prefix_nil|].
  destruct (check_sandbox_path_form _ _ _ _ Hroot _ _ Hc HR) as (E & T & -> & HE & HT & Hp).
  destruct T as [|t T].
  - rewrite app_nil_r in *. rewrite resolve_real, write_target_real by done.
    split; intros loc [= <-]; done.
  - rewrite missing_resolve by done. split; [done|]. intros loc Hw Hl.
    apply write_target_missing in Hw as (-> & _ & [[_ ->]|[target Ht]]); [done| |done..].
    by destruct (Hl (E ++ [t]) target eq_refl).
Qed.

(** A dangling link defeats the check: the link itself lies under the root and
    its target does not exist, so the path is accepted as it is, and the write
    that follows creates the target outside. *)
Definition dangling_disk : Disk :=
  {| nodes := <[["ws"] := Directory]> (<[["ws"; "out"] := Symlink (components "/etc/cron.d/job")]>
                (<[["etc"] := Directory]> {[ ["etc"; "cron.d"] := Directory ]}));
     cwd := [] |}.

Lemma dangling_link_accepted os_error :
  check_sandbox_path os_error dangling_disk "out" "/ws" = Ok (components "/ws/out") ∧
  write_target dangling_disk (components "/ws/out") = Some ["etc"; "cron.d"; "job"].
Proof. vm_compute. done. Qed.

(** Without a root, a missing path that starts with two parent steps loses
    both: [PathBuf::pop] also removes the [..] pushed before.  The file asked for
    would be created two levels up; the path the tools go on with creates it in
    the working directory. *)
Theorem parent_steps_cancel os_error d l a b name :
  cwd d = l ++ [a; b] → real d (cwd d) → is_dir d (cwd d) = true →
  node_at d (l ++ [name]) = None → node_at d (l ++ [a; b; name]) = None →
  let asked := [ParentDir; ParentDir; Normal name] in
  write_target d asked = Some (l ++ [name]) ∧
  canonicalize_best_effort os_error d asked = Ok [Normal name] ∧
  write_target d [Normal name] = Some (l ++ [a; b; name]).
Proof.
  intros Hcwd Hr Hd Hn1 Hn2 asked.
  assert (Hw : ∀ create, walk create MAX_LINKS d (cwd d) asked = if create then Some (l ++ [name]) else None).
  { intros create. unfold asked. rewrite walk_parent, Hd, Hcwd.
    change [a; b] with ([a] ++ [b]). rewrite app_assoc, removelast_last.
    rewrite Hcwd in Hr. change [a; b] with ([a] ++ [b]) in Hr. rewrite app_assoc in Hr.
    destruct (real_last _ _ _ Hr) as [Hd1 _]. rewrite walk_parent, Hd1, removelast_last.
    apply real_prefix in Hr. destruct (real_last _ _ _ Hr) as [Hd2 _].
    rewrite walk_normal, Hd2, Hn1. by destruct create. }
  assert (Hw' : ∀ create, walk create MAX_LINKS d (cwd d) [Normal name] = if create then Some (l ++ [a; b; name]) else None).
  { intros create. rewrite walk_normal, Hd, Hcwd, <- app_assoc. simpl. rewrite Hn2. by destruct create. }
  unfold write_target. rewrite Hw'. split; [exact (Hw true)|]. split; [|done].
  unfold canonicalize_best_effort, path_exists, resolve. simpl. rewrite (Hw false). simpl.
  unfold path_exists, resolve. simpl. by rewrite (Hw' false).
Qed.

Lemma sandbox_path_contained_witness :
  check_sandbox_path "" dangling_disk "../ws/./new/../plan.md" "/ws" = Ok (path_of ["ws"; "plan.md"]) ∧
  (∀ loc, write_target dangling_disk (path_of ["ws"; "plan.md"]) = Some loc →
     (∀ l target, path_of ["ws"; "plan.md"] = path_of l → node_at dangling_disk l ≠ Some (Symlink target)) →
     prefix ["ws"] loc).
Proof.
  split; [vm_compute; reflexivity|].
  refine (proj2 (sandbox_path_contained "" dangling_disk "/ws" ["ws"] "../ws/./new/../plan.md" _ _ _));
    vm_compute; reflexivity.
Defined.

Lemma parent_steps_cancel_witness :
  let d := {| nodes := <[["home"] := Directory]> (<[["home"; "ada"] := Directory]> ∅); cwd := ["home"; "ada"] |} in
  write_target d [ParentDir; ParentDir; Normal "new.txt"] = Some ["new.txt"] ∧
  canonicalize_best_effort "" d [ParentDir; ParentDir; Normal "new.txt"] = Ok [Normal "new.txt"].
Proof.
  intros d. assert (Hr : real d (cwd d)).
  { apply (real_snoc d ["home"] "ada" Directory); [|reflexivity..].
    apply (real_snoc d [] "home" Directory); [apply real_nil|reflexivity..]. }
  destruct (parent_steps_cancel "" d [] "home" "ada" "new.txt" eq_refl Hr eq_refl eq_refl eq_refl)
    as (H1 & H2 & _).
  split; [exact H1|exact H2].
Defined.
