(* ===== verification/TextEdit.v ===== *)
(** The text half of [fs_edit]: [alms-sandbox/src/builtin/fs_edit.rs].

    How the text to replace is found when it does not occur literally: line
    endings, trailing white space, indentation and typographic quotes.  A Rust
    [str] is its bytes; where the code iterates over [char]s the model decodes
    them ([utf8_chars]). *)
From S2P Require Import Prelude.

(** * Searching and replacing in strings *)

(** The text before and after the first occurrence of [p]. *)
Fixpoint split_at_str (p s : string) : option (string * string) :=
  match strip_prefix p s with
  | Some r => Some ("", r)
  | None =>
      match s with
      | EmptyString => None
      | String c s' =>
          match split_at_str p s' with
          | Some (a, b) => Some (String c a, b)
          | None => None
          end
      end
  end.

Definition str_contains (p s : string) : bool := bool_decide (is_Some (split_at_str p s)).

Fixpoint matches_loop (fuel : nat) (p s : string) : nat :=
  match fuel with
  | 0 => 0
  | S fuel => match split_at_str p s with
              | Some (_, post) => S (matches_loop fuel p post)
              | None => 0
              end
  end.

(** [s.matches(p).count()] for a pattern that is not empty. *)
Definition matches_count (p s : string) : nat := matches_loop (String.length s) p s.

(** ** Characters *)

Definition byte_in (lo hi : N) (a : ascii) : bool := ((lo <=? N_of_ascii a) && (N_of_ascii a <=? hi))%N.
Definition cont : ascii → bool := byte_in 128 191.

Definition two_bytes (a b : ascii) : bool := byte_in 194 223 a && cont b.
Definition three_bytes (a b c : ascii) : bool :=
  (byte_in 224 224 a && byte_in 160 191 b || byte_in 225 236 a && cont b
   || byte_in 237 237 a && byte_in 128 159 b || byte_in 238 239 a && cont b) && cont c.
Definition four_bytes (a b c e : ascii) : bool :=
  (byte_in 240 240 a && byte_in 144 191 b || byte_in 241 243 a && cont b
   || byte_in 244 244 a && byte_in 128 143 b) && cont c && cont e.

(** [str::chars] on valid UTF-8; [None] is what [from_utf8] rejects. *)
Fixpoint utf8_chars (s : string) : option (list string) :=
  match s with
  | EmptyString => Some []
  | String a s1 =>
      if byte_in 0 127 a then cons (ch a) <$> utf8_chars s1
      else match s1 with
      | EmptyString => None
      | String b s2 =>
          if two_bytes a b then cons (String a (ch b)) <$> utf8_chars s2
          else match s2 with
          | EmptyString => None
          | String c s3 =>
              if three_bytes a b c then cons (String a (String b (ch c))) <$> utf8_chars s3
              else match s3 with
              | EmptyString => None
              | String e s4 =>
                  if four_bytes a b c e then cons (String a (String b (String c (ch e)))) <$> utf8_chars s4
                  else None
              end
          end
      end
  end.

Definition str_chars (s : string) : list string := default [] (utf8_chars s).
Definition valid_utf8 (s : string) : bool := bool_decide (is_Some (utf8_chars s)).

(** [str::replace]; an empty pattern matches at every character boundary. *)
Fixpoint replace_loop (fuel : nat) (p r s : string) : string :=
  match fuel with
  | 0 => s
  | S fuel => match split_at_str p s with
              | Some (pre, post) => pre +:+ r +:+ replace_loop fuel p r post
              | None => s
              end
  end.

Definition str_replace (p r s : string) : string :=
  if String.eqb p "" then r +:+ String.concat "" (map (λ c, c +:+ r) (str_chars s))
  else replace_loop (String.length s) p r s.

(** [s.replacen(p, r, 1)]. *)
Definition replace_first (p r s : string) : string :=
  match split_at_str p s with Some (pre, post) => pre +:+ r +:+ post | None => s end.

(** * Line endings *)

Definition LF : string := ch lf.
Definition CRLF : string := String cr (ch lf).

Definition detect_line_ending (content : string) : string :=
  let crlf_count := matches_count CRLF content in
  let lf_count := matches_count LF content - crlf_count in
  if Nat.ltb 0 crlf_count && Nat.leb lf_count crlf_count then CRLF else LF.

Definition line_ending_adapted_old (content old_string : string) : option string :=
  if negb (String.eqb (detect_line_ending content) CRLF) then None
  else if negb (str_contains LF old_string) then None
  else if str_contains CRLF old_string then None
  else Some (str_replace LF CRLF old_string).

Definition ends_with_lf (s : string) : bool :=
  match String.get (String.length s - 1) s with Some c => Ascii.eqb c lf | None => false end.

Definition normalize_line_endings (s line_ending : string) : string :=
  String.concat line_ending (lines s) +:+ (if ends_with_lf s then line_ending else "").

Definition space_or_tab (c : ascii) : bool := Ascii.eqb c " "%char || Ascii.eqb c (ascii_of_N 9).

Definition strip_trailing_whitespace (s : string) (is_markdown : bool) (line_ending : string) : string :=
  if is_markdown then normalize_line_endings s line_ending
  else String.concat line_ending (map (trim_end_if space_or_tab) (lines s))
       +:+ (if ends_with_lf s then line_ending else "").

Definition ends_with (suffix s : string) : bool :=
  starts_with (str_drop (String.length s - String.length suffix) s) suffix
  && Nat.leb (String.length suffix) (String.length s).

(** [to_lowercase], as far as the two suffixes can tell: besides the ASCII
    letters only the Kelvin sign has a lower case among their letters. *)
Definition is_markdown_file (path : string) : bool :=
  let lower := to_ascii_lowercase (str_replace "K" "k" path) in
  ends_with ".md" lower || ends_with ".markdown" lower.

(** * Typographic quotes *)

Definition single_curly (c : string) : bool := String.eqb c "‘" || String.eqb c "’".
Definition double_curly (c : string) : bool := String.eqb c "“" || String.eqb c "”".
Definition double_quote : string := ch (ascii_of_N 34).

(** One character of [normalize_quotes]: the four replacements act on single
    characters and never on each other's results. *)
Definition normalize_char (c : string) : string :=
  if single_curly c then "'" else if double_curly c then double_quote else c.

Definition normalize_quotes (s : string) : string :=
  String.concat "" (map normalize_char (str_chars s)).

Definition normalized_char_len (c : string) : nat :=
  if single_curly c || double_curly c then 1 else String.length c.

(** The loop over [chars] of both offset computations: original bytes passed
    until [target] normalised bytes are. *)
Fixpoint map_offset (target norm_byte orig_byte : nat) (cs : list string) : nat :=
  match cs with
  | [] => orig_byte
  | c :: cs' =>
      if Nat.leb target norm_byte then orig_byte
      else map_offset target (norm_byte + normalized_char_len c) (orig_byte + String.length c) cs'
  end.

Definition slice (a b : nat) (s : string) : string := str_take (b - a) (str_drop a s).

Definition try_normalized_match (content old_string : string) : option (string * nat) :=
  let norm_content := normalize_quotes content in
  let norm_old := normalize_quotes old_string in
  if String.eqb norm_content content && String.eqb norm_old old_string then None
  else
    let count := matches_count norm_old norm_content in
    if Nat.eqb count 0 then None
    else match split_at_str norm_old norm_content with
    | None => None
    | Some (before, _) =>
        let norm_offset := String.length before in
        let orig_byte := map_offset norm_offset 0 0 (str_chars content) in
        let orig_end :=
          map_offset (String.length norm_old) 0 orig_byte (str_chars (str_drop orig_byte content)) in
        Some (slice orig_byte orig_end content, count)
    end.

(** The loop of [adapt_quotes_to_original], with the toggle for double quotes. *)
Fixpoint adapt_chars (single double open : bool) (cs : list string) : string :=
  match cs with
  | [] => ""
  | c :: cs' =>
      if String.eqb c "'" && single then "’" +:+ adapt_chars single double open cs'
      else if String.eqb c double_quote && double
      then (if open then "“" else "”") +:+ adapt_chars single double (negb open) cs'
      else c +:+ adapt_chars single double open cs'
  end.

Definition adapt_quotes_to_original (new_string original_match : string) : string :=
  let has_curly_single := str_contains "‘" original_match || str_contains "’" original_match in
  let has_curly_double := str_contains "“" original_match || str_contains "”" original_match in
  if negb has_curly_single && negb has_curly_double then new_string
  else adapt_chars has_curly_single has_curly_double true (str_chars new_string).

(** * Lines *)

(** The index loop of [split_lines_with_offsets]: [i] is where [rest] starts in
    [s] and [prev] the byte before it. *)
Fixpoint split_lines_loop (s : string) (i line_start : nat) (prev : option ascii) (rest : string)
    : list (nat * string * nat) :=
  match rest with
  | EmptyString =>
      if Nat.ltb line_start (String.length s) then [(line_start, str_drop line_start s, 0)] else []
  | String b rest' =>
      if Ascii.eqb b lf then
        let '(content_end, term_len) := if bool_decide (prev = Some cr) then (i - 1, 2) else (i, 1) in
        (line_start, slice line_start content_end s, term_len)
        :: split_lines_loop s (S i) (S i) (Some b) rest'
      else split_lines_loop s (S i) line_start (Some b) rest'
  end.

Definition split_lines_with_offsets (s : string) : list (nat * string * nat) :=
  split_lines_loop s 0 0 None s.

Definition line_of (l : nat * string * nat) : string := l.1.2.

(** The windows of [n] lines, with the index of their first one. *)
Definition windows {A} (n : nat) (l : list A) : list (nat * list A) :=
  map (λ i, (i, take n (drop i l))) (seq 0 (S (length l - n))).

(** Byte range of a window: its first line up to the end of its last, without
    the terminator. *)
Definition window_range (w : list (nat * string * nat)) : nat * nat :=
  match w, last w with
  | (st, _, _) :: _, Some (lst, line, _) => (st, lst + String.length line)
  | _, _ => (0, 0)
  end.

(** What the two fuzzy stages share: every window whose normal form is the
    needle's, the bytes of the first and how many there are. *)
Definition match_windows (content : string) (content_lines : list (nat * string * nat))
    (norm : list string → list string) (needle : list string) : option (string * nat) :=
  let n := length needle in
  if Nat.ltb (length content_lines) n then None
  else
    match filter (λ w, norm (map line_of w.2) = needle) (windows n content_lines) with
    | [] => None
    | w :: ws =>
        let '(first_start, first_end) := window_range w.2 in
        Some (slice first_start first_end content, S (length ws))
    end.

Definition trim_lines : list string → list string := map (trim_end_if space_or_tab).

Definition try_line_trimmed_match (content old_string : string) : option (string * nat) :=
  let content_lines := split_lines_with_offsets content in
  let needle_lines := split_lines_with_offsets old_string in
  if Nat.eqb (length needle_lines) 0 then None
  else
    let content_unchanged := bool_decide (map line_of content_lines = trim_lines (map line_of content_lines)) in
    let needle_unchanged := bool_decide (map line_of needle_lines = trim_lines (map line_of needle_lines)) in
    if content_unchanged && needle_unchanged then None
    else match_windows content content_lines trim_lines (trim_lines (map line_of needle_lines)).

Definition is_blank (l : string) : bool :=
  forall_chars (λ c, space_or_tab c || Ascii.eqb c cr) l.

Fixpoint leading_indent (line : string) : string :=
  match line with
  | String c l => if space_or_tab c then String c (leading_indent l) else ""
  | EmptyString => ""
  end.

Fixpoint shared_prefix (a b : string) : string :=
  match a, b with
  | String x a', String y b' => if Ascii.eqb x y then String x (shared_prefix a' b') else ""
  | _, _ => ""
  end.

(** The [break] on an empty prefix changes nothing: it stays empty. *)
Definition common_leading_indent (l : list string) : string :=
  match filter (λ x, is_blank x = false) l with
  | [] => ""
  | first :: rest => foldl (λ prefix line, shared_prefix prefix (leading_indent line)) (leading_indent first) rest
  end.

Definition strip_prefix_if_present (line prefix : string) : string :=
  if String.eqb prefix "" then line
  else match strip_prefix prefix line with Some rest => rest | None => line end.

Definition dedent (l : list string) : list string :=
  map (λ line, strip_prefix_if_present line (common_leading_indent l)) l.

Definition try_indentation_flexible_match (content old_string : string) : option (string * nat) :=
  let content_lines := split_lines_with_offsets content in
  let needle_lines := split_lines_with_offsets old_string in
  if Nat.eqb (length needle_lines) 0 then None
  else match_windows content content_lines dedent (dedent (map line_of needle_lines)).

(** * The cascade of [execute] *)

Record EditMatch := { actual_old : string; match_count : nat; quote_adapted : bool; fuzzy_hit : bool }.

Definition crlf_hit (content old_string : string) : option (string * nat) :=
  match line_ending_adapted_old content old_string with
  | Some crlf_old => let c := matches_count crlf_old content in
                     if Nat.ltb 0 c then Some (crlf_old, c) else None
  | None => None
  end.

Definition find_match (fuzzy_match : bool) (content old_string : string) : option EditMatch :=
  let count := matches_count old_string content in
  if Nat.eqb count 0 then
    match crlf_hit content old_string with
    | Some (o, c) => Some {| actual_old := o; match_count := c; quote_adapted := false; fuzzy_hit := false |}
    | None =>
        match (if fuzzy_match then try_line_trimmed_match content old_string else None) with
        | Some (o, c) => Some {| actual_old := o; match_count := c; quote_adapted := false; fuzzy_hit := true |}
        | None =>
            match (if fuzzy_match then try_indentation_flexible_match content old_string else None) with
            | Some (o, c) => Some {| actual_old := o; match_count := c; quote_adapted := false; fuzzy_hit := true |}
            | None =>
                match try_normalized_match content old_string with
                | Some (o, c) => Some {| actual_old := o; match_count := c; quote_adapted := true; fuzzy_hit := false |}
                | None => None
                end
            end
        end
    end
  else Some {| actual_old := old_string; match_count := count; quote_adapted := false; fuzzy_hit := false |}.

Inductive EditError := OldNotFound | NotUnique (count : nat) | FuzzyReplaceAll (count : nat).

(** The edited text and the number of replacements reported. *)
Definition edit_text (fuzzy_match replace_all is_markdown : bool) (content old_string new_string : string)
    : Result (string * nat) EditError :=
  let new_string := strip_trailing_whitespace new_string is_markdown (detect_line_ending content) in
  match find_match fuzzy_match content old_string with
  | None => Err OldNotFound
  | Some m =>
      if negb replace_all && Nat.ltb 1 (match_count m) then Err (NotUnique (match_count m))
      else if fuzzy_hit m && replace_all && Nat.ltb 1 (match_count m) then Err (FuzzyReplaceAll (match_count m))
      else
        let effective_new :=
          if quote_adapted m then adapt_quotes_to_original new_string (actual_old m) else new_string in
        Ok (if replace_all then (str_replace (actual_old m) effective_new content, match_count m)
            else (replace_first (actual_old m) effective_new content, 1))
  end.

(** * First occurrences *)

Lemma split_at_str_Some p s a b : split_at_str p s = Some (a, b) → s = a +:+ p +:+ b.
Proof.
  revert a; induction s as [|c s IH]; intros a; simpl;
    destruct (strip_prefix p _) as [r|] eqn:Hp.
  1,3: intros [= <- <-]; by apply strip_prefix_Some in Hp.
  - done.
  - destruct (split_at_str p s) as [[a' b']|]; [|done]. intros [= <- <-]. simpl. by rewrite (IH a').
Qed.

Lemma split_at_str_first p a b : ∀ s, s = a +:+ p +:+ b →
  ∃ a' b', split_at_str p s = Some (a', b') ∧ String.length a' ≤ String.length a.
Proof.
  induction a as [|c a IH]; intros s ->.
  - exists "", b. split; [|done]. simpl. destruct (p +:+ b) as [|x t] eqn:E; simpl; rewrite <- E;
      by rewrite strip_prefix_app.
  - cbn [String.append split_at_str]. destruct (strip_prefix p _) as [r|].
    + exists "", r. split; [done|]. simpl. lia.
    + destruct (IH _ eq_refl) as (a' & b' & -> & Hl). exists (String c a'), b'. split; [done|]. simpl. lia.
Qed.

Lemma matches_pos p s : p ≠ "" → 0 < matches_count p s ↔ ∃ a b, s = a +:+ p +:+ b.
Proof.
  intros Hp. unfold matches_count. split.
  - destruct s as [|c s]; simpl String.length; [simpl; lia|]. cbn [matches_loop].
    destruct (split_at_str p _) as [[a b]|] eqn:E; [|simpl; lia]. intros _.
    exists a, b. by apply split_at_str_Some.
  - intros (a & b & Hs). destruct (split_at_str_first p a b s Hs) as (a' & b' & E & _).
    destruct s as [|c s]; [by destruct a, p|]. cbn [String.length matches_loop]. rewrite E. lia.
Qed.

Lemma matches_zero p s : p ≠ "" → matches_count p s = 0 ↔ split_at_str p s = None.
Proof.
  intros Hp. pose proof (matches_pos p s Hp) as Hm. split.
  - intros H0. destruct (split_at_str p s) as [[a b]|] eqn:E; [|done]. exfalso.
    assert (0 < matches_count p s); [|lia]. apply Hm. exists a, b. by apply split_at_str_Some.
  - intros E. destruct (matches_count p s); [done|]. exfalso.
    destruct (proj1 Hm ltac:(lia)) as (a & b & Hs).
    destruct (split_at_str_first p a b s Hs) as (? & ? & ? & _). congruence.
Qed.

(** * Characters and bytes *)

Definition scat : list string → string := String.concat "".

Lemma scat_cons c cs : scat (c :: cs) = c +:+ scat cs.
Proof. unfold scat. destruct cs; simpl; [by rewrite string_app_nil_r|done]. Qed.

Lemma scat_app a b : scat (a ++ b) = scat a +:+ scat b.
Proof.
  induction a as [|c a IH]; [done|]. rewrite <- app_comm_cons, !scat_cons, IH. by rewrite string_app_assoc.
Qed.

Lemma string_len_ind (P : string → Prop) :
  (∀ s, (∀ t, String.length t < String.length s → P t) → P s) → ∀ s, P s.
Proof.
  intros H s. remember (String.length s) as n eqn:E. revert s E.
  induction n as [n IH] using lt_wf_ind; intros s ->. apply H. intros t Ht. by apply (IH _ Ht).
Qed.

(** Splits the decoder's branches. *)
Ltac utf8_cases s :=
  destruct s as [|?b1 s]; [|simpl; destruct (byte_in 0 127 _) eqn:?;
    [|destruct s as [|?b2 s]; [|destruct (two_bytes _ _) eqn:?;
      [|destruct s as [|?b3 s]; [|destruct (three_bytes _ _ _) eqn:?;
        [|destruct s as [|?b4 s]; [|destruct (four_bytes _ _ _ _) eqn:?]]]]]]].

Definition real_char (c : string) : Prop := utf8_chars c = Some [c].

Ltac rewrite_bytes :=
  repeat match goal with H : _ = true |- _ => rewrite H | H : _ = false |- _ => rewrite H end.

Lemma utf8_chars_cons s cs : utf8_chars s = Some cs →
  s = "" ∧ cs = [] ∨
  ∃ c t ct, s = c +:+ t ∧ cs = c :: ct ∧ utf8_chars t = Some ct ∧ real_char c ∧ c ≠ "" ∧
    ∀ u, utf8_chars (c +:+ u) = cons c <$> utf8_chars u.
Proof.
  utf8_cases s; try done; [by intros [= <-]; left|..];
    intros (ct & Ht & ->)%fmap_Some; right.
  - exists (ch b1), s, ct. unfold real_char. simpl. by rewrite_bytes.
  - exists (String b1 (ch b2)), s, ct. unfold real_char. simpl. by rewrite_bytes.
  - exists (String b1 (String b2 (ch b3))), s, ct. unfold real_char. simpl. by rewrite_bytes.
  - exists (String b1 (String b2 (String b3 (ch b4)))), s, ct. unfold real_char. simpl. by rewrite_bytes.
Qed.

Lemma utf8_chars_spec s : ∀ cs, utf8_chars s = Some cs → scat cs = s ∧ Forall real_char cs.
Proof.
  induction s as [s IH] using string_len_ind; intros cs H.
  apply utf8_chars_cons in H as [[-> ->]|(c & t & ct & -> & -> & Ht & Hc & Hne & _)]; [done|].
  assert (String.length t < String.length (c +:+ t)) as Hl
    by (rewrite str_length_app; destruct c; [done|simpl; lia]).
  destruct (IH t Hl ct Ht) as [<- Hf]. rewrite scat_cons. split; [done|]. by constructor.
Qed.

Lemma utf8_chars_app s : ∀ cs u, utf8_chars s = Some cs → utf8_chars (s +:+ u) = app cs <$> utf8_chars u.
Proof.
  induction s as [s IH] using string_len_ind; intros cs u H.
  apply utf8_chars_cons in H as [[-> ->]|(c & t & ct & -> & -> & Ht & Hc & Hne & Hu)];
    [simpl; by destruct (utf8_chars u)|].
  assert (String.length t < String.length (c +:+ t)) as Hl
    by (rewrite str_length_app; destruct c; [done|simpl; lia]).
  rewrite string_app_assoc, Hu, (IH t Hl ct u Ht). by destruct (utf8_chars u).
Qed.

Lemma utf8_chars_scat cs : Forall real_char cs → utf8_chars (scat cs) = Some cs.
Proof.
  induction 1 as [|c cs Hc _ IH]; [done|]. rewrite scat_cons, (utf8_chars_app c [c]) by done. by rewrite IH.
Qed.

(** No character starts inside another one. *)
Ltac byte_bounds :=
  unfold two_bytes, three_bytes, four_bytes, cont, byte_in in *;
  repeat match goal with H : _ && _ = true |- _ => apply andb_true_iff in H as [? ?] end;
  repeat match goal with H : _ || _ = true |- _ => apply orb_true_iff in H as [?|?] end;
  repeat match goal with H : _ && _ = true |- _ => apply andb_true_iff in H as [? ?] end;
  rewrite ?andb_true_iff, ?andb_false_iff, ?N.leb_le, ?N.leb_gt in *; try lia.

Lemma real_char_shape c : real_char c →
  ∃ a t, c = String a t ∧ cont a = false ∧ forall_chars cont t = true.
Proof.
  unfold real_char. utf8_cases c; try done; intros (ct & _ & [= -> _])%fmap_Some;
    eexists _, _; (split; [done|]); simpl; rewrite ?andb_true_r; split;
    repeat (apply andb_true_iff; split); byte_bounds.
Qed.

Definition starts_char (s : string) : bool :=
  match s with EmptyString => true | String a _ => negb (cont a) end.

Lemma starts_char_scat cs : Forall real_char cs → starts_char (scat cs) = true.
Proof.
  destruct 1 as [|c cs Hc _]; [done|]. rewrite scat_cons.
  destruct (real_char_shape c Hc) as (a & t & -> & Ha & _). simpl. by rewrite Ha.
Qed.

Lemma string_app_split (p q t r : string) : p +:+ q = t +:+ r →
  (∃ p', p = t +:+ p' ∧ r = p' +:+ q) ∨ (∃ t', t' ≠ "" ∧ t = p +:+ t' ∧ q = t' +:+ r).
Proof.
  revert p; induction t as [|a t IH]; intros p H; [left; by exists p|].
  destruct p as [|b p]; [right; by exists (String a t)|].
  simpl in H. injection H as -> H. destruct (IH _ H) as [(p' & -> & ->)|(t' & Ht & -> & ->)].
  - left. by exists p'.
  - right. by exists t'.
Qed.

Lemma scat_split cs : ∀ p q, Forall real_char cs → scat cs = p +:+ q → starts_char q = true →
  ∃ c1 c2, cs = c1 ++ c2 ∧ scat c1 = p ∧ scat c2 = q.
Proof.
  induction cs as [|c cs IH]; intros p q Hf Hs Hq.
  - exists [], []. unfold scat in Hs. simpl in Hs. by destruct p, q.
  - apply Forall_cons in Hf as [Hc Hf]. rewrite scat_cons in Hs.
    destruct (string_app_split p q c (scat cs)) as [(p' & -> & E)|(t & Ht & E & ->)]; [done| |].
    + destruct (IH p' q Hf E Hq) as (c1 & c2 & -> & <- & <-). exists (c :: c1), c2. by rewrite scat_cons.
    + destruct p as [|a p]; [exists [], (c :: cs); rewrite scat_cons; by subst|exfalso].
      destruct (real_char_shape c Hc) as (a' & t' & -> & _ & Hcont). injection E as <- ->.
      destruct t as [|b t]; [done|]. simpl in Hq. clear -Hcont Hq.
      induction p as [|x p IHp]; simpl in Hcont; apply andb_true_iff in Hcont as [Hb Hcont]; [|by apply IHp].
      by rewrite Hb in Hq.
Qed.

(** * Typographic quotes *)

Lemma normalize_char_real c : real_char c → real_char (normalize_char c).
Proof. intros Hc. unfold normalize_char. by repeat case_match. Qed.

Lemma real_char_nonempty c : real_char c → 0 < String.length c.
Proof. intros (a & t & -> & _)%real_char_shape. simpl. lia. Qed.

Lemma normalized_char_len_eq c : normalized_char_len c = String.length (normalize_char c).
Proof.
  unfold normalized_char_len, normalize_char. destruct (single_curly c); [done|]. by destruct (double_curly c).
Qed.

Definition norm_all (cs : list string) : string := scat (map normalize_char cs).

Lemma norm_all_app a b : norm_all (a ++ b) = norm_all a +:+ norm_all b.
Proof. unfold norm_all. by rewrite map_app, scat_app. Qed.

Lemma norm_reals cs : Forall real_char cs → Forall real_char (map normalize_char cs).
Proof. intros H. apply Forall_fmap. by eapply Forall_impl; [done|]; apply normalize_char_real. Qed.

Lemma norm_all_strict a b : Forall real_char (a ++ b) → b ≠ [] →
  String.length (norm_all a) < String.length (norm_all (a ++ b)).
Proof.
  intros [_ Hb]%Forall_app Hne. destruct b as [|c b]; [done|]. apply Forall_cons in Hb as [Hc _].
  rewrite norm_all_app, str_length_app. unfold norm_all at 3. simpl map. rewrite scat_cons, str_length_app.
  pose proof (real_char_nonempty _ (normalize_char_real c Hc)). lia.
Qed.

Lemma map_offset_spec cs rest : Forall real_char cs → ∀ norm orig,
  map_offset (norm + String.length (norm_all cs)) norm orig (cs ++ rest) = orig + String.length (scat cs).
Proof.
  induction 1 as [|c cs Hc _ IH]; intros norm orig.
  - simpl. rewrite !Nat.add_0_r. destruct rest; simpl; [done|]. by rewrite Nat.leb_refl.
  - unfold norm_all in *. simpl map. rewrite <- app_comm_cons, !scat_cons, !str_length_app. simpl.
    pose proof (real_char_nonempty _ (normalize_char_real c Hc)) as Hp.
    rewrite (proj2 (Nat.leb_gt _ _)), normalized_char_len_eq by lia.
    rewrite Nat.add_assoc, IH. lia.
Qed.

Lemma map_offset_at cs rest orig : Forall real_char cs →
  map_offset (String.length (norm_all cs)) 0 orig (cs ++ rest) = orig + String.length (scat cs).
Proof. intros H. exact (map_offset_spec cs rest H 0 orig). Qed.

Lemma str_take_app_exact a b : str_take (String.length a) (a +:+ b) = a.
Proof. induction a; simpl; [by destruct b|]. by f_equal. Qed.
Lemma str_drop_app_exact a b : str_drop (String.length a) (a +:+ b) = b.
Proof. by induction a. Qed.

Lemma slice_app a m b : slice (String.length a) (String.length a + String.length m) (a +:+ m +:+ b) = m.
Proof.
  unfold slice. rewrite str_drop_app_exact. replace (_ + _ - _) with (String.length m) by lia.
  apply str_take_app_exact.
Qed.

Lemma scat_strict a b : Forall real_char b → b ≠ [] → String.length (scat a) < String.length (scat (a ++ b)).
Proof.
  intros Hb Hne. destruct b as [|c b]; [done|]. apply Forall_cons in Hb as [Hc _].
  rewrite scat_app, scat_cons, !str_length_app. pose proof (real_char_nonempty c Hc). lia.
Qed.

(** An occurrence of whole characters starts and ends between characters. *)
Lemma scat_occurs cs c2 p q : Forall real_char cs → Forall real_char c2 → c2 ≠ [] →
  scat cs = p +:+ scat c2 +:+ q → ∃ k1 k3, cs = k1 ++ c2 ++ k3 ∧ scat k1 = p ∧ scat k3 = q.
Proof.
  intros Hcs Hc2 Hne E.
  assert (Hst : starts_char (scat c2 +:+ q) = true).
  { destruct Hc2 as [|c c2 Hc _]; [done|]. rewrite scat_cons, string_app_assoc.
    destruct (real_char_shape _ Hc) as (x & t & -> & Hx & _). simpl. by rewrite Hx. }
  destruct (scat_split _ _ _ Hcs E Hst) as (k1 & k2 & -> & <- & E2).
  apply Forall_app in Hcs as [_ Hk2].
  pose proof (utf8_chars_scat _ Hk2) as Hd. rewrite E2, (utf8_chars_app _ c2) in Hd by (by apply utf8_chars_scat).
  apply fmap_Some in Hd as (k3 & Hq & ->). apply utf8_chars_spec in Hq as [Hq _]. by exists k1, k3.
Qed.

(** Aligns an occurrence in the normalised text with the characters of the
    original. *)
Lemma norm_split cs co a b : Forall real_char cs → Forall real_char co → co ≠ [] →
  norm_all cs = a +:+ norm_all co +:+ b →
  ∃ c1 c2 c3, cs = c1 ++ c2 ++ c3 ∧ norm_all c1 = a ∧ norm_all c2 = norm_all co ∧ norm_all c3 = b.
Proof.
  intros Hcs Hco Hne E. unfold norm_all in E.
  destruct (scat_occurs _ _ _ _ (norm_reals _ Hcs) (norm_reals _ Hco) ltac:(by destruct co) E)
    as (n1 & n3 & En & <- & <-).
  apply map_eq_app in En as (c1 & c23 & -> & <- & En). apply map_eq_app in En as (c2 & c3 & -> & Ec2 & <-).
  exists c1, c2, c3. split_and!; [done..| |done]. unfold norm_all. by rewrite Ec2.
Qed.

Lemma str_chars_valid s cs : utf8_chars s = Some cs → str_chars s = cs ∧ normalize_quotes s = norm_all cs.
Proof. unfold normalize_quotes, str_chars. by intros ->. Qed.

(** The quote-insensitive stage finds the first place where the text matches up
    to quotes, and returns the bytes the file has there: they occur nowhere
    earlier, so that replacing their first occurrence edits that place. *)
Lemma normalized_match_spec content old m count :
  valid_utf8 content = true → valid_utf8 old = true → old ≠ "" →
  try_normalized_match content old = Some (m, count) →
  normalize_quotes m = normalize_quotes old ∧ m ≠ "" ∧
  count = matches_count (normalize_quotes old) (normalize_quotes content) ∧
  ∃ pre post, split_at_str m content = Some (pre, post) ∧
    (∃ after, split_at_str (normalize_quotes old) (normalize_quotes content) =
       Some (normalize_quotes pre, after)).
Proof.
  intros (cs & Hcs)%bool_decide_eq_true (co & Hco)%bool_decide_eq_true Hne.
  destruct (utf8_chars_spec _ _ Hcs) as [Hcat Hreal]. destruct (utf8_chars_spec _ _ Hco) as [Hcato Hrealo].
  assert (Hco' : co ≠ []) by (intros ->; by subst old).
  unfold try_normalized_match. destruct (str_chars_valid _ _ Hcs) as [-> ->].
  destruct (str_chars_valid _ _ Hco) as [_ ->].
  destruct (_ && _); [done|]. destruct (Nat.eqb _ 0); [done|].
  destruct (split_at_str (norm_all co) (norm_all cs)) as [[before after]|] eqn:Hsp; [|done].
  pose proof (split_at_str_Some _ _ _ _ Hsp) as E.
  destruct (norm_split _ _ _ _ Hreal Hrealo Hco' E) as (c1 & c2 & c3 & Ecs & <- & H2 & <-).
  rewrite Ecs in Hreal. apply Forall_app in Hreal as [Hr1 Hr23].
  pose proof Hr23 as [Hr2 Hr3]%Forall_app.
  assert (Hcont : content = scat c1 +:+ scat c2 +:+ scat c3) by (by rewrite <- Hcat, Ecs, !scat_app).
  rewrite Ecs, map_offset_at, Nat.add_0_l by done. rewrite Hcont at 1 2. rewrite str_drop_app_exact.
  rewrite <- scat_app at 1. rewrite (proj1 (str_chars_valid _ _ (utf8_chars_scat _ Hr23))), <- H2.
  rewrite map_offset_at, slice_app by done. intros [= <- <-].
  destruct (str_chars_valid _ _ (utf8_chars_scat _ Hr2)) as [_ ->].
  assert (Hne2 : scat c2 ≠ "").
  { intros H0. pose proof (utf8_chars_scat _ Hr2) as Hd. rewrite H0 in Hd. injection Hd as <-.
    destruct co as [|c co]; [done|]. apply Forall_cons in Hrealo as [Hc _].
    pose proof (real_char_nonempty _ (normalize_char_real c Hc)). apply (f_equal String.length) in H2.
    unfold norm_all in H2. simpl map in H2. rewrite scat_cons, str_length_app in H2. simpl in H2. lia. }
  split_and!; [done..|].
  destruct (split_at_str_first _ _ _ _ Hcont) as (pre & post & Hs & Hl). exists pre, post. split; [done|].
  pose proof (split_at_str_Some _ _ _ _ Hs) as Hc2. rewrite <- Hcat in Hc2.
  assert (Hall : Forall real_char cs) by (rewrite Ecs; by apply Forall_app).
  destruct (scat_occurs cs c2 pre post Hall Hr2 ltac:(by intros ->) Hc2) as (k1 & k3 & Ek & <- & _).
  enough (k1 = c1) as -> by
    (destruct (str_chars_valid _ _ (utf8_chars_scat _ Hr1)) as [_ ->]; eauto).
  destruct (split_at_str_first (norm_all co) (norm_all k1) (norm_all k3) (norm_all cs))
    as (a' & b' & Hf & Hle); [by rewrite Ek, !norm_all_app, H2|].
  rewrite Hsp in Hf. injection Hf as <- <-. clear Hsp E Hcont Hc2 Hs Hcat Hcs.
  rewrite Ecs in Ek, Hall. apply app_eq_inv in Ek as [(x & -> & Ex)|(x & -> & Ex)].
  - destruct x as [|y x]; [by rewrite app_nil_r|]. exfalso.
    pose proof (norm_all_strict k1 (y :: x) Hr1 ltac:(done)). lia.
  - destruct x as [|y x]; [by rewrite app_nil_r|]. exfalso.
    rewrite Ex in Hall. apply Forall_app in Hall as [_ [Hx _]%Forall_app].
    pose proof (scat_strict c1 (y :: x) Hx ltac:(done)). lia.
Qed.

(** * Line windows *)

(** Lines in the order of their offsets, within the text. *)
Fixpoint lines_from (lo len : nat) (ls : list (nat * string * nat)) : Prop :=
  match ls with
  | [] => True
  | (st, line, _) :: ls' => lo ≤ st ∧ st + String.length line ≤ len ∧ lines_from (st + String.length line) len ls'
  end.

Lemma lines_from_weaken lo lo' len ls : lo ≤ lo' → lines_from lo' len ls → lines_from lo len ls.
Proof. destruct ls as [|[[st line] t] ls]; simpl; [done|]. intros ? (?&?&?). split_and!; [lia|done..]. Qed.

Lemma slice_length a b s : a ≤ b → b ≤ String.length s → String.length (slice a b s) = b - a.
Proof. intros. unfold slice. rewrite str_take_length, str_drop_length. lia. Qed.

Lemma split_lines_loop_spec s rest : ∀ i line_start prev,
  i + String.length rest = String.length s → line_start ≤ i → (prev = Some cr → line_start < i) →
  lines_from line_start (String.length s) (split_lines_loop s i line_start prev rest).
Proof.
  induction rest as [|b rest IH]; intros i ls prev Hi Hle Hcr; simpl in *.
  - destruct (Nat.ltb_spec ls (String.length s)); simpl; [|done].
    rewrite str_drop_length. split_and!; [lia|lia|done].
  - destruct (Ascii.eqb_spec b lf) as [->|Hb].
    + case_bool_decide as Hp; [specialize (Hcr Hp)|clear Hcr]; simpl; rewrite slice_length by lia;
        (split_and!; [lia..|]); (eapply lines_from_weaken; [|apply IH]); try done; lia.
    + apply IH; [lia..|]. intros _. lia.
Qed.

Lemma split_lines_spec s : lines_from 0 (String.length s) (split_lines_with_offsets s).
Proof. by apply split_lines_loop_spec. Qed.

Lemma lines_from_drop lo len k ls : lines_from lo len ls → lines_from lo len (drop k ls).
Proof.
  revert lo ls; induction k as [|k IH]; intros lo [|[[st line] t] ls]; simpl; try done.
  intros (H1 & H2 & H3). apply IH. eapply lines_from_weaken; [|done]. lia.
Qed.

Lemma lines_from_last lo len w st0 l0 t0 lst line t : 
  lines_from lo len w → head w = Some (st0, l0, t0) → last w = Some (lst, line, t) →
  st0 ≤ lst + String.length line ≤ len.
Proof.
  intros Hw Hh Hl. destruct w as [|x w]; [done|]. injection Hh as ->. simpl in Hw.
  destruct Hw as (_ & H2 & H3). revert st0 l0 t0 H2 H3 Hl.
  induction w as [|[[st l] t1] w IH]; intros st0 l0 t0 H2 H3 Hl; simpl in Hl.
  - injection Hl as -> -> ->. lia.
  - simpl in H3. destruct H3 as (? & ? & H3). specialize (IH st l t1). simpl in IH. 
    destruct IH; [done..|]. lia.
Qed.

Lemma lines_from_take lo len k ls : lines_from lo len ls → lines_from lo len (take k ls).
Proof.
  revert lo ls; induction k as [|k IH]; intros lo [|[[st line] t] ls]; simpl; try done.
  intros (H1 & H2 & H3). split_and!; [done..|]. by apply IH.
Qed.

Lemma slice_splits a b s : a ≤ b → s = str_take a s +:+ slice a b s +:+ str_drop b s.
Proof.
  intros Hab. unfold slice. rewrite <- (str_take_drop a s) at 1. f_equal.
  rewrite <- (str_take_drop (b - a) (str_drop a s)) at 1. f_equal.
  revert a b Hab. induction s as [|c s IH]; intros [|a] [|b] Hab; simpl; try done; try lia.
  - by destruct (b - a).
  - apply IH. lia.
Qed.

(** A fuzzy stage returns the bytes of the first window of lines that equals
    the needle in normal form. *)
Definition window_match (content : string) (norm : list string → list string) (needle : list string)
    (m : string) (count : nat) : Prop :=
  ∃ k w a b, w = take (length needle) (drop k (split_lines_with_offsets content)) ∧
    length w = length needle ∧ norm (map line_of w) = needle ∧
    (a, b) = window_range w ∧ a ≤ b ∧ m = slice a b content ∧
    content = str_take a content +:+ m +:+ str_drop b content ∧ 0 < count.

Lemma match_windows_spec content norm needle m count : needle ≠ [] →
  match_windows content (split_lines_with_offsets content) norm needle = Some (m, count) →
  window_match content norm needle m count.
Proof.
  intros Hne. unfold match_windows. set (ls := split_lines_with_offsets content).
  destruct (Nat.ltb_spec (length ls) (length needle)) as [|Hlen]; [done|].
  destruct (filter _ _) as [|[k w] ws] eqn:Hf; [done|].
  assert (Hin : (k, w) ∈ filter (λ w : nat * list (nat * string * nat), norm (map line_of w.2) = needle)
                  (windows (length needle) ls)) by (rewrite Hf; by left).
  apply list_elem_of_filter in Hin as [Hn Hin]. simpl in Hn.
  unfold windows in Hin. apply list_elem_of_fmap in Hin as (i & [= -> ->] & Hi). apply elem_of_seq in Hi.
  cbn [snd]. destruct (window_range _) as [a b] eqn:Hr. intros [= <- <-].
  set (w := take (length needle) (drop i ls)) in *.
  assert (Hw : length w = length needle) by (unfold w; rewrite length_take, length_drop; lia).
  exists i, w, a, b. assert (Hab : a ≤ b); [|split_and!; try done; [by apply slice_splits|lia]].
  assert (Hlw : lines_from 0 (String.length content) w) by apply lines_from_take, lines_from_drop, split_lines_spec.
  destruct w as [|[[st0 l0] t0] w']; [by destruct needle|].
  unfold window_range in Hr. destruct (last _) as [[[lst line] t]|] eqn:Hl; [|by apply last_None in Hl].
  injection Hr as <- <-. by eapply (lines_from_last _ _ _ st0 l0 t0 lst line t Hlw).
Qed.

(** * Edits *)

(** In which sense the text that is replaced is the text that was asked for. *)
Definition matches_old (content old : string) (m : EditMatch) : Prop :=
  match fuzzy_hit m, quote_adapted m with
  | false, false =>
      match_count m = matches_count (actual_old m) content ∧
      (actual_old m = old ∨
       detect_line_ending content = CRLF ∧ actual_old m = str_replace LF CRLF old ∧ matches_count old content = 0)
  | false, true =>
      matches_count old content = 0 ∧ normalize_quotes (actual_old m) = normalize_quotes old ∧
      match_count m = matches_count (normalize_quotes old) (normalize_quotes content)
  | true, _ =>
      matches_count old content = 0 ∧ quote_adapted m = false ∧
      (window_match content trim_lines (trim_lines (map line_of (split_lines_with_offsets old)))
         (actual_old m) (match_count m) ∨
       window_match content dedent (dedent (map line_of (split_lines_with_offsets old)))
         (actual_old m) (match_count m))
  end.

Lemma replace_loop_nil fuel p r s : s ≠ "" → r ≠ "" → replace_loop fuel p r s ≠ "".
Proof.
  intros Hs Hr. destruct fuel as [|f]; simpl; [done|]. destruct (split_at_str p s) as [[a b]|]; [|done].
  intros H. apply (f_equal String.length) in H. rewrite !str_length_app in H. destruct r; simpl in H; [done|lia].
Qed.

Lemma line_trimmed_spec content old m c : try_line_trimmed_match content old = Some (m, c) →
  window_match content trim_lines (trim_lines (map line_of (split_lines_with_offsets old))) m c.
Proof.
  unfold try_line_trimmed_match. destruct (Nat.eqb_spec (length (split_lines_with_offsets old)) 0) as [|Hn]; [done|].
  destruct (_ && _); [done|]. apply match_windows_spec. by destruct (split_lines_with_offsets old).
Qed.

Lemma indentation_spec content old m c : try_indentation_flexible_match content old = Some (m, c) →
  window_match content dedent (dedent (map line_of (split_lines_with_offsets old))) m c.
Proof.
  unfold try_indentation_flexible_match.
  destruct (Nat.eqb_spec (length (split_lines_with_offsets old)) 0) as [|Hn]; [done|].
  apply match_windows_spec. by destruct (split_lines_with_offsets old).
Qed.

Lemma occurs_first p s : p ≠ "" → 0 < matches_count p s → ∃ pre post, split_at_str p s = Some (pre, post).
Proof.
  intros Hp (a & b & Hs)%matches_pos; [|done]. destruct (split_at_str_first _ _ _ _ Hs) as (x & y & H & _). eauto.
Qed.

Lemma crlf_hit_spec content old o c : old ≠ "" → crlf_hit content old = Some (o, c) →
  detect_line_ending content = CRLF ∧ o = str_replace LF CRLF old ∧ c = matches_count o content ∧
  ∃ pre post, split_at_str o content = Some (pre, post).
Proof.
  intros Hne. unfold crlf_hit, line_ending_adapted_old.
  destruct (String.eqb_spec (detect_line_ending content) CRLF) as [Hd|]; simpl; [|done].
  destruct (str_contains LF old); simpl; [|done]. destruct (str_contains CRLF old); [done|].
  destruct (Nat.ltb_spec 0 (matches_count (str_replace LF CRLF old) content)) as [Hc|]; [|done].
  intros [= <- <-]. split_and!; [done..|]. apply occurs_first; [|done]. by apply replace_loop_nil.
Qed.

(** What the cascade finds occurs in the text, and is the text asked for in the
    sense of the stage that found it. *)
Lemma find_match_spec fuzzy content old m :
  valid_utf8 content = true → valid_utf8 old = true → old ≠ "" →
  find_match fuzzy content old = Some m →
  matches_old content old m ∧ ∃ pre post, split_at_str (actual_old m) content = Some (pre, post).
Proof.
  intros Hc Ho Hne. unfold find_match.
  destruct (Nat.eqb_spec (matches_count old content) 0) as [H0|Hpos].
  2: { intros [= <-]. split; [by split; [|left]|]. apply occurs_first; [done|]. simpl. lia. }
  destruct (crlf_hit content old) as [[o c]|] eqn:Hcr.
  { intros [= <-]. destruct (crlf_hit_spec _ _ _ _ Hne Hcr) as (Hd & E1 & E2 & Hs).
    split; [split; simpl; [done|by right]|done]. }
  assert (Hfz : ∀ norm needle o c, window_match content norm needle o c →
            ∃ pre post, split_at_str o content = Some (pre, post)).
  { intros norm needle o c (k & w & a & b & _ & _ & _ & _ & _ & _ & E & _).
    destruct (split_at_str_first _ _ _ _ E) as (x & y & H & _). eauto. }
  destruct (if fuzzy then try_line_trimmed_match content old else None) as [[o c]|] eqn:H1.
  { destruct fuzzy; [|done]. apply line_trimmed_spec in H1. intros [= <-]. split; [|by eapply Hfz].
    split_and!; [done..|]. by left. }
  destruct (if fuzzy then try_indentation_flexible_match content old else None) as [[o c]|] eqn:H2.
  { destruct fuzzy; [|done]. apply indentation_spec in H2. intros [= <-]. split; [|by eapply Hfz].
    split_and!; [done..|]. by right. }
  destruct (try_normalized_match content old) as [[o c]|] eqn:H3; [|done]. intros [= <-].
  destruct (normalized_match_spec _ _ _ _ Hc Ho Hne H3) as (Hn & _ & Hcount & pre & post & Hs & _).
  split; [by split_and!|]. by exists pre, post.
Qed.

(** What an edit does to a text.  It replaces bytes that occur in the text and
    equal [old_string] exactly, or up to line endings, quotes, trailing blanks or
    indentation as the stage allows; without [replace_all] it replaces one
    occurrence, the first, of a unique match and keeps everything before and
    after it; with [replace_all] every occurrence, and as many as it reports
    when the match is literal. *)
Theorem edit_replaces_match fuzzy all md content old new out n :
  valid_utf8 content = true → valid_utf8 old = true → old ≠ "" →
  edit_text fuzzy all md content old new = Ok (out, n) →
  ∃ m pre post, find_match fuzzy content old = Some m ∧ matches_old content old m ∧
    split_at_str (actual_old m) content = Some (pre, post) ∧
    let clean := strip_trailing_whitespace new md (detect_line_ending content) in
    let new' := if quote_adapted m then adapt_quotes_to_original clean (actual_old m) else clean in
    if all then out = str_replace (actual_old m) new' content ∧ n = match_count m ∧
                (fuzzy_hit m = true → n ≤ 1)
    else out = pre +:+ new' +:+ post ∧ n = 1 ∧ match_count m ≤ 1.
Proof.
  intros Hc Ho Hne. unfold edit_text. destruct (find_match fuzzy content old) as [m|] eqn:Hm; [|done].
  destruct (find_match_spec _ _ _ _ Hc Ho Hne Hm) as (Hold & pre & post & Hs).
  destruct (negb all && _) eqn:Hu; [done|]. destruct (fuzzy_hit m && all && _) eqn:Hf; [done|].
  intros [= E]. exists m, pre, post. split_and!; [done..|].
  destruct all; injection E as <- <-; simpl in *.
  - split_and!; [done..|]. intros Hh. rewrite Hh in Hf. simpl in Hf. by apply Nat.ltb_ge.
  - unfold replace_first. rewrite Hs. split_and!; [done..|]. by apply Nat.ltb_ge.
Qed.

(** Replacing all occurrences changes the length by what each of them does. *)
Lemma replace_all_length p r s :  p ≠ "" →
  String.length (str_replace p r s) + matches_count p s * String.length p =
  String.length s + matches_count p s * String.length r.
Proof.
  intros Hp. unfold str_replace, matches_count. rewrite (proj2 (String.eqb_neq _ _) Hp).
  generalize (String.length s) at 1 2 4 as fuel. intros fuel. revert s.
  induction fuel as [|f IH]; intros s; simpl; [lia|].
  destruct (split_at_str p s) as [[a b]|] eqn:E; [|simpl; lia].
  apply split_at_str_Some in E as ->. rewrite !str_length_app. specialize (IH b). simpl. lia.
Qed.

(** A fuzzy match can edit another place than the one it matched.  The stage
    finds whole lines, but the replacement goes to the first occurrence of their
    bytes, which may be inside an earlier line; and a blank needle that matches an
    empty line inserts the new text at the start of the file. *)
Theorem fuzzy_edits_elsewhere :
  let content := "xfoo " +:+ LF +:+ "foo " +:+ LF in
  window_match content trim_lines ["foo"] "foo " 1 ∧
  (∃ w, w = drop 1 (split_lines_with_offsets content) ∧ map line_of w = ["foo "]) ∧
  edit_text true false false content ("foo" +:+ LF) "bar" = Ok ("xbar" +:+ LF +:+ "foo " +:+ LF, 1) ∧
  edit_text true false false ("one" +:+ LF +:+ LF +:+ "two" +:+ LF) "   " "bar" =
    Ok ("barone" +:+ LF +:+ LF +:+ "two" +:+ LF, 1).
Proof.
  intros content. split; [|split; [eexists; split; [done|vm_compute; done]|split; vm_compute; done]].
  apply match_windows_spec; [done|]. vm_compute. done.
Qed.

(** In a file with CRLF line endings an [old_string] that starts with a newline
    matches the second half of a line ending, and its replacement starts with a
    whole one: the edit leaves a stray carriage return. *)
Theorem edit_doubles_cr :
  edit_text false false false ("a" +:+ CRLF +:+ "b" +:+ CRLF) (LF +:+ "b") (LF +:+ "c") =
  Ok ("a" +:+ ch cr +:+ CRLF +:+ "c" +:+ CRLF, 1).
Proof. vm_compute. done. Qed.

Lemma edit_replaces_match_witness :
  let content := "say “hi” to them" in
  let old := "say " +:+ double_quote +:+ "hi" +:+ double_quote in
  let new := "shout " +:+ double_quote +:+ "hey" +:+ double_quote in
  edit_text false false false content old new = Ok ("shout “hey” to them", 1) ∧
  ∃ m pre post, find_match false content old = Some m ∧ matches_old content old m ∧
    split_at_str (actual_old m) content = Some (pre, post).
Proof.
  intros content old new.
  assert (H : edit_text false false false content old new = Ok ("shout “hey” to them", 1))
    by (vm_compute; reflexivity).
  split; [exact H|].
  destruct (edit_replaces_match false false false content old new _ _ eq_refl eq_refl ltac:(discriminate) H)
    as (m & pre & post & H1 & H2 & H3 & _).
  by exists m, pre, post.
Defined.
