(* ===== verification/FsTools.v ===== *)
(** The file-writing tools: [alms-sandbox/src/builtin/fs_write.rs] and the
    handler of [fs_edit.rs].

    Each handler runs its checks in the source's order over the path checks of
    [FsPath], the read-before-write guard of [FileState] and the text edits of
    [TextEdit], and returns the disk and the cache it leaves.  [HostCalls] says
    which system calls succeed and what the clocks read; a call that fails
    leaves the disk as it was. *)
From stdpp Require Import pretty.
From S2P Require Import Prelude Json FileState ShellRules FsPath TextEdit.

(** * System calls *)

Record HostCalls := {
  os_error : string;
  can_read : bool;
  can_mkdir : bool;
  can_write : bool;
  wall_clock : Z;
  instant_now : Z;
}.

Definition set_node (l : Location) (n : Node) (d : Disk) : Disk :=
  {| nodes := <[l := n]> (nodes d); cwd := cwd d |}.

Record Metadata := { md_is_file : bool; md_len : nat; md_modified : option Z }.

Definition metadata (d : Disk) (p : list Component) : option Metadata :=
  match resolve d p with
  | Some l =>
      match node_at d l with
      | Some (File c t) => Some {| md_is_file := true; md_len := String.length c; md_modified := t |}
      | Some _ => Some {| md_is_file := false; md_len := 0; md_modified := None |}
      | None => None
      end
  | None => None
  end.

(** [tokio::fs::read]. *)
Definition read_bytes (h : HostCalls) (d : Disk) (p : list Component) : option string :=
  if can_read h then
    match resolve d p with
    | Some l => match node_at d l with Some (File c _) => Some c | _ => None end
    | None => None
    end
  else None.

Definition read_to_string (h : HostCalls) (d : Disk) (p : list Component) : option string :=
  match read_bytes h d p with
  | Some c => if valid_utf8 c then Some c else None
  | None => None
  end.

(** [mkdir]: the last name must be free; a link there is not followed. *)
Definition mkdir (h : HostCalls) (d : Disk) (p : list Component) : option Disk :=
  match last p with
  | Some (Normal c) =>
      match walk false MAX_LINKS d (cwd d) (removelast p) with
      | Some l =>
          if can_mkdir h && is_dir d l && bool_decide (node_at d (l ++ [c]) = None)
          then Some (set_node (l ++ [c]) Directory d) else None
      | None => None
      end
  | _ => None
  end.

Definition is_dir_path (d : Disk) (p : list Component) : bool :=
  match resolve d p with Some l => is_dir d l | None => false end.

(** [create_dir_all]: every prefix that is no directory yet is made, from the
    top; the directories made before a failure stay. *)
Fixpoint create_dirs (h : HostCalls) (d : Disk) (made todo : list Component) : bool * Disk :=
  match todo with
  | [] => (true, d)
  | c :: rest =>
      let p := made ++ [c] in
      if is_dir_path d p then create_dirs h d p rest
      else match mkdir h d p with
           | Some d' => create_dirs h d' p rest
           | None => (false, d)
           end
  end.

Definition create_dir_all (h : HostCalls) (d : Disk) (p : list Component) : bool * Disk :=
  create_dirs h d [] p.

(** [tokio::fs::write] and the opening for append: [content] gives the new text
    of the file from the old one. *)
Definition write_file (h : HostCalls) (d : Disk) (p : list Component) (content : string → string)
    : option Disk :=
  if can_write h then
    match write_target d p with
    | Some l =>
        match node_at d l with
        | None => Some (set_node l (File (content "") (Some (wall_clock h))) d)
        | Some (File old _) => Some (set_node l (File (content old) (Some (wall_clock h))) d)
        | Some _ => None
        end
    | None => None
    end
  else None.

(** * The tools *)

Record FsTool := {
  sandbox_root : option string;
  file_state_cache : option FileStateCache;
  fuzzy_match : bool;
}.

Section tools.
Context (content_hash : list N → Z).

(** What the guard sees of the path it is asked about. *)
Definition view_of (h : HostCalls) (d : Disk) (p : list Component) : FsView :=
  {| fs_stat := λ _, md_modified <$> metadata d p;
     fs_read := λ _, bytes_of <$> read_bytes h d p |}.

Definition cache_key (p : list Component) : string := join_components p.

Definition resolve_tool_path (h : HostCalls) (d : Disk) (t : FsTool) (path : string)
    : Result (list Component) SandboxError :=
  match sandbox_root t with
  | Some root => check_sandbox_path (os_error h) d path root
  | None => Ok (normalize_unsandboxed_path (os_error h) d path)
  end.

(** The checks on the path that both tools share: UNC, device, containment and
    device again. *)
Definition checked_path (h : HostCalls) (d : Disk) (t : FsTool) (verb path : string)
    : Result (list Component) SandboxError :=
  let device := SandboxViolation ("Cannot " +:+ verb +:+ " device path '" +:+ path +:+
    "' — this is a system device, not a regular file") in
  let? _ := reject_unc_path path in
  if is_blocked_device_path path then Err device
  else
    let? resolved := resolve_tool_path h d t path in
    if is_blocked_device_path (join_components resolved) then Err device else Ok resolved.

Definition not_regular (path : string) : SandboxError :=
  InvalidParameters ("Path '" +:+ path +:+ "' is not a regular file").

(** The read-before-write guard, when there is a cache and a modification time. *)
Definition guard (h : HostCalls) (d : Disk) (t : FsTool) (resolved : list Component)
    (mtime : option Z) (verb : string) : Result unit SandboxError :=
  match file_state_cache t, mtime with
  | Some cache, Some m =>
      match check_guard_with_mtime content_hash (view_of h d resolved) cache (cache_key resolved) m with
      | Allowed => Ok tt
      | NotRead => Err (InvalidParameters ("File has not been read yet. Use fs_read to read the file before " +:+ verb))
      | StaleRead reason => Err (InvalidParameters reason)
      end
  | _, _ => Ok tt
  end.

(** The cache of the tool after a write. *)
Definition after_write (h : HostCalls) (d : Disk) (t : FsTool) (resolved : list Component) : FsTool :=
  {| sandbox_root := sandbox_root t;
     file_state_cache :=
       (λ cache, update_cache_after_write content_hash (instant_now h) (view_of h d resolved) cache (cache_key resolved))
         <$> file_state_cache t;
     fuzzy_match := fuzzy_match t |}.

(** Creating the parent directories; [None] is success. *)
Definition make_parent (h : HostCalls) (d : Disk) (resolved : list Component) (path : string)
    : option SandboxError * Disk :=
  match path_pop resolved with
  | Some (c :: parent) =>
      let '(ok, d') := create_dir_all h d (c :: parent) in
      (if ok then None else Some (Io ("Failed to create dirs for '" +:+ path +:+ "': " +:+ os_error h)), d')
  | _ => (None, d)
  end.

Definition str_param (k : string) (params : json) : option string := v ← json_get k params; as_str v.

(** ** [FsWriteTool::execute] *)

Definition fs_write_execute (h : HostCalls) (d : Disk) (t : FsTool) (params : json)
    : Result json SandboxError * Disk * FsTool :=
  match str_param "path" params with
  | None => (Err (InvalidParameters "'path' is required"), d, t)
  | Some path =>
  match checked_path h d t "write to" path with
  | Err e => (Err e, d, t)
  | Ok resolved =>
  let meta := metadata d resolved in
  if bool_decide (md_is_file <$> meta = Some false) then (Err (not_regular path), d, t)
  else
  match guard h d t resolved (meta ≫= md_modified) "writing to it." with
  | Err e => (Err e, d, t)
  | Ok _ =>
  match str_param "content" params with
  | None => (Err (InvalidParameters "'content' is required"), d, t)
  | Some content =>
  let mode := default "write" (str_param "mode" params) in
  if negb (String.eqb mode "write") && negb (String.eqb mode "append")
  then (Err (InvalidParameters ("Invalid mode '" +:+ mode +:+ "': must be 'write' or 'append'")), d, t)
  else
  match make_parent h d resolved path with
  | (Some e, d1) => (Err e, d1, t)
  | (None, d1) =>
      let append := String.eqb mode "append" in
      match write_file h d1 resolved (λ old, if append then old +:+ content else content) with
      | None => (Err (Io ((if append then "Failed to open '" else "Failed to write '") +:+ path +:+ "': " +:+ os_error h)), d1, t)
      | Some d2 =>
          (Ok (JObj [("ok", JBool true); ("path", JStr path)]), d2, after_write h d2 t resolved)
      end
  end
  end
  end
  end
  end.

(** ** [FsEditTool::execute] *)

Definition edit_result (path : string) (replacements : nat) : json :=
  JObj [("ok", JBool true); ("path", JStr path); ("replacements", JNum (Z.of_nat replacements))].

Definition io_read (h : HostCalls) (path : string) : SandboxError :=
  Io ("Failed to read '" +:+ path +:+ "': " +:+ os_error h).
Definition io_write (h : HostCalls) (path : string) : SandboxError :=
  Io ("Failed to write '" +:+ path +:+ "': " +:+ os_error h).

(** The file an empty [old_string] may fill: missing, or an empty regular file. *)
Definition may_create (h : HostCalls) (d : Disk) (resolved : list Component) (path : string)
    : Result unit SandboxError :=
  match metadata d resolved with
  | None => Ok tt
  | Some meta =>
      if negb (md_is_file meta) then Err (not_regular path)
      else match read_to_string h d resolved with
      | None => Err (io_read h path)
      | Some content =>
          if String.eqb content "" then Ok tt
          else Err (InvalidParameters ("old_string is empty but '" +:+ path +:+
            "' has existing content; use a non-empty old_string to edit, or clear the file first"))
      end
  end.

Definition handle_empty_old_string (h : HostCalls) (d : Disk) (t : FsTool) (resolved : list Component)
    (path new_string : string) : Result json SandboxError * Disk * FsTool :=
  match may_create h d resolved path with
  | Err e => (Err e, d, t)
  | Ok _ =>
  match make_parent h d resolved path with
  | (Some e, d1) => (Err e, d1, t)
  | (None, d1) =>
      let cleaned := strip_trailing_whitespace new_string (is_markdown_file path) LF in
      match write_file h d1 resolved (λ _, cleaned) with
      | None => (Err (io_write h path), d1, t)
      | Some d2 => (Ok (edit_result path 1), d2, after_write h d2 t resolved)
      end
  end
  end.

Definition MAX_EDIT_BYTES : Z := 2 * 1024 * 1024.

Definition edit_error (path : string) (e : EditError) : SandboxError :=
  InvalidParameters
    match e with
    | OldNotFound => "old_string not found in '" +:+ path +:+ "'"
    | NotUnique count => "old_string appears " +:+ pretty count +:+ " times in '" +:+ path +:+
        "'; set replace_all to true or provide a more unique string"
    | FuzzyReplaceAll count => "fuzzy match found " +:+ pretty count +:+ " candidates in '" +:+ path +:+
        "'; replace_all is not supported for fuzzy stages — tighten the old_string for a unique match"
    end.

(** The guards of an edit of existing text, and the text. *)
Definition editable (h : HostCalls) (d : Disk) (t : FsTool) (resolved : list Component) (path : string)
    : Result string SandboxError :=
  match metadata d resolved with
  | None => Err (io_read h path)
  | Some meta =>
      if negb (md_is_file meta) then Err (not_regular path)
      else if (MAX_EDIT_BYTES <? Z.of_nat (md_len meta))%Z
      then Err (InvalidParameters ("File too large for fs_edit (" +:+ pretty (md_len meta) +:+ " bytes, max " +:+
             pretty MAX_EDIT_BYTES +:+ "). Use fs_write for full file replacement."))
      else
        let? _ := guard h d t resolved (md_modified meta) "editing it." in
        match read_to_string h d resolved with
        | None => Err (io_read h path)
        | Some content => Ok content
        end
  end.

Definition fs_edit_execute (h : HostCalls) (d : Disk) (t : FsTool) (params : json)
    : Result json SandboxError * Disk * FsTool :=
  let required k := Err (InvalidParameters ("'" +:+ k +:+ "' is required")) in
  match str_param "path" params, str_param "old_string" params, str_param "new_string" params with
  | None, _, _ => (required "path", d, t)
  | _, None, _ => (required "old_string", d, t)
  | _, _, None => (required "new_string", d, t)
  | Some path, Some old_string, Some new_string =>
  let replace_all := default false (v ← json_get "replace_all" params; as_bool v) in
  let device := SandboxViolation ("Cannot edit device path '" +:+ path +:+
    "' — this is a system device, not a regular file") in
  match reject_unc_path path with
  | Err e => (Err e, d, t)
  | Ok _ =>
  if is_blocked_device_path path then (Err device, d, t)
  else if String.eqb old_string new_string
  then (Err (InvalidParameters "old_string and new_string must differ"), d, t)
  else
  match resolve_tool_path h d t path with
  | Err e => (Err e, d, t)
  | Ok resolved =>
  if is_blocked_device_path (join_components resolved) then (Err device, d, t)
  else if String.eqb old_string "" then handle_empty_old_string h d t resolved path new_string
  else
  match editable h d t resolved path with
  | Err e => (Err e, d, t)
  | Ok content =>
  match edit_text (fuzzy_match t) replace_all (is_markdown_file path) content old_string new_string with
  | Err e => (Err (edit_error path e), d, t)
  | Ok (new_content, replacements) =>
      match write_file h d resolved (λ _, new_content) with
      | None => (Err (io_write h path), d, t)
      | Some d' => (Ok (edit_result path replacements), d', after_write h d' t resolved)
      end
  end
  end
  end
  end
  end.

End tools.

(** * Disks

    Every node lies in a directory, and the working directory is a real one. *)
Record disk_wf (d : Disk) : Prop := {
  wf_parent : ∀ l c n, node_at d (l ++ [c]) = Some n → is_dir d l = true;
  wf_cwd : real d (cwd d);
}.

(** No link leads nowhere. *)
Definition links_resolve (d : Disk) : Prop :=
  ∀ l target, node_at d l = Some (Symlink target) → is_Some (resolve d (path_of l)).

Lemma node_at_set l n d l' : l ≠ [] → node_at (set_node l n d) l' = if decide (l = l') then Some n else node_at d l'.
Proof.
  intros Hl. unfold node_at, set_node. simpl. case_decide as H.
  - subst. destruct l'; [done|]. apply lookup_insert_eq.
  - destruct l' as [|x l']; [done|]. by apply lookup_insert_ne.
Qed.

Lemma set_dir_is_dir l d l' : l ≠ [] → node_at d l = None →
  is_dir d l' = true → is_dir (set_node l Directory d) l' = true.
Proof.
  intros Hl Hn. unfold is_dir. rewrite node_at_set by done. case_decide; [by subst; rewrite Hn|done].
Qed.

Lemma real_set_dir l d l' : l ≠ [] → node_at d l = None → real d l' → real (set_node l Directory d) l'.
Proof.
  intros Hl Hn Hr l1 c l2 E. destruct (Hr l1 c l2 E) as (Hd & n & Hc & Hk).
  split; [by apply set_dir_is_dir|]. exists n. rewrite node_at_set by done.
  split; [|done]. case_decide; [congruence|done].
Qed.

Lemma snoc_ne_nil (l : Location) c : l ++ [c] ≠ [].
Proof. by destruct l. Qed.

Lemma wf_set_dir l c d : disk_wf d → is_dir d l = true → node_at d (l ++ [c]) = None →
  disk_wf (set_node (l ++ [c]) Directory d).
Proof.
  intros [Hp Hc] Hd Hn. pose proof (snoc_ne_nil l c) as Hne. split.
  - intros l' c' n. rewrite node_at_set by done. case_decide as E.
    + intros _. apply app_inj_tail in E as [<- <-]. by apply set_dir_is_dir.
    + intros H. by apply set_dir_is_dir, (Hp l' c' n).
  - apply real_set_dir; [done..|exact Hc].
Qed.

(** The two conditions on a given disk. *)
Lemma disk_wf_check d :
  forallb (λ x, is_dir d (removelast x.1)) (map_to_list (nodes d)) = true → cwd d = [] → disk_wf d.
Proof.
  intros Hf Hc. split; [|rewrite Hc; apply real_nil]. intros l c n Hn.
  assert (Hm : nodes d !! (l ++ [c]) = Some n) by (by destruct l).
  apply elem_of_map_to_list, list_elem_of_In in Hm. rewrite forallb_forall in Hf.
  specialize (Hf _ Hm). simpl in Hf. by rewrite removelast_last in Hf.
Qed.

Lemma links_resolve_check d :
  forallb (λ x, negb (is_link x.2) || bool_decide (is_Some (resolve d (path_of x.1)))) (map_to_list (nodes d)) = true →
  links_resolve d.
Proof.
  intros Hf l target Hn. assert (Hm : nodes d !! l = Some (Symlink target)) by (by destruct l).
  apply elem_of_map_to_list, list_elem_of_In in Hm. rewrite forallb_forall in Hf.
  specialize (Hf _ Hm). simpl in Hf. by apply bool_decide_eq_true in Hf.
Qed.

(** * Creating directories *)

Lemma is_dir_path_real d l : real d l → is_dir_path d (path_of l) = is_dir d l.
Proof. intros Hr. unfold is_dir_path. by rewrite resolve_real. Qed.

(** Nothing happens along a real path of directories. *)
Lemma create_dirs_real h d B rest : ∀ A, real d (A ++ B) → is_dir d (A ++ B) = true →
  create_dirs h d (path_of A) ((Normal <$> B) ++ rest) = create_dirs h d (path_of (A ++ B)) rest.
Proof.
  induction B as [|b B IH]; intros A Hr Hd; [by rewrite app_nil_r|].
  rewrite fmap_cons, <- app_comm_cons. cbn [create_dirs]. rewrite <- path_of_snoc.
  assert (real d (A ++ [b]) ∧ is_dir d (A ++ [b]) = true) as [Hr' Hd'].
  { rewrite cons_middle, app_assoc in Hr, Hd. split; [by eapply real_prefix|].
    destruct B as [|b' B]; [by rewrite app_nil_r in Hd|]. exact (proj1 (Hr _ b' B eq_refl)). }
  rewrite is_dir_path_real, Hd' by done. rewrite IH by (by rewrite <- app_assoc). by rewrite <- app_assoc.
Qed.

Lemma mkdir_below h d E t : real d E →
  mkdir h d (path_of (E ++ [t])) =
  if can_mkdir h && is_dir d E && bool_decide (node_at d (E ++ [t]) = None)
  then Some (set_node (E ++ [t]) Directory d) else None.
Proof.
  intros Hr. unfold mkdir. rewrite path_of_snoc, last_snoc, removelast_last.
  unfold path_of at 1. by rewrite walk_root, (walk_names _ _ _ _ []).
Qed.

(** What [create_dirs] did to a disk, working below the directory [E]. *)
Definition only_below (E : Location) (d d' : Disk) : Prop :=
  ∀ l, node_at d' l = node_at d l ∨
       (prefix E l ∧ l ≠ E ∧ node_at d l = None ∧ node_at d' l = Some Directory).

Lemma missing_below_new d E t t' : disk_wf d → node_at d (E ++ [t]) = None →
  node_at (set_node (E ++ [t]) Directory d) ((E ++ [t]) ++ [t']) = None.
Proof.
  intros Hwf Hn. rewrite node_at_set by apply snoc_ne_nil. case_decide as E1.
  - apply (f_equal length) in E1. rewrite !length_app in E1. simpl in E1. lia.
  - destruct (node_at d ((E ++ [t]) ++ [t'])) as [n|] eqn:H; [|done].
    apply wf_parent in H; [|done]. unfold is_dir in H. by rewrite Hn in H.
Qed.

Lemma create_dirs_missing h T : ∀ d E ok d',
  disk_wf d → real d E → is_dir d E = true → missing d E T →
  create_dirs h d (path_of E) (Normal <$> T) = (ok, d') →
  only_below E d d' ∧ cwd d' = cwd d ∧
  (ok = true → real d' (E ++ T) ∧ is_dir d' (E ++ T) = true ∧
     (T ≠ [] → ∀ t, node_at d' (E ++ T ++ [t]) = None)).
Proof.
  induction T as [|t T IH]; intros d E ok d' Hwf HE Hd HT; simpl (_ <$> _); cbn [create_dirs].
  - intros [= <- <-]. rewrite app_nil_r. split_and!; [by left|done|]. done.
  - rewrite <- path_of_snoc. unfold missing in HT. unfold is_dir_path. rewrite HT, mkdir_below, Hd by done.
    destruct (can_mkdir h); simpl; [|intros [= <- <-]; split_and!; [by left|done|done]].
    case_bool_decide as Hn; [|intros [= <- <-]; split_and!; [by left|done|done]].
    pose proof (snoc_ne_nil E t) as Hne. set (d1 := set_node (E ++ [t]) Directory d) in *.
    assert (Hd1 : is_dir d1 (E ++ [t]) = true)
      by (unfold is_dir, d1; rewrite node_at_set by done; by rewrite decide_True).
    assert (HE1 : real d1 (E ++ [t])).
    { eapply (real_snoc _ _ _ Directory); [by apply real_set_dir|by apply set_dir_is_dir| |done].
      unfold d1. rewrite node_at_set by done. by rewrite decide_True. }
    assert (Hnew : ∀ t', node_at d1 ((E ++ [t]) ++ [t']) = None) by (intros t'; by apply missing_below_new).
    intros Hc. destruct (IH d1 (E ++ [t]) ok d') as (Hb & Hcw & Hok); [by apply wf_set_dir|done|done| |done|].
    { destruct T as [|t' T]; [done|]. unfold missing. rewrite resolve_names, fmap_app, (walk_names_app _ _ _ _ _ []) by done.
      simpl (_ <$> [t']). rewrite app_nil_l, walk_normal, Hd1, Hnew. done. }
    split_and!; [|by rewrite Hcw|].
    + intros l. destruct (Hb l) as [Hl|(Hp & Hl & Hn1 & Hn2)].
      * unfold d1 in Hl. rewrite node_at_set in Hl by done. case_decide as El; [|by left].
        right. subst l. split_and!; [by apply prefix_app_r|by intros H%(f_equal length); rewrite length_app in H; simpl in H; lia|done|done].
      * unfold d1 in Hn1. rewrite node_at_set in Hn1 by done. case_decide; [done|]. right.
        split_and!; [etrans; [|done]; by apply prefix_app_r| |done..]. intros ->.
        apply prefix_length in Hp. rewrite length_app in Hp. simpl in Hp. lia.
    + intros Ho. destruct (Hok Ho) as (H1 & H2 & H3). rewrite cons_middle, app_assoc. split_and!; [done..|].
      intros _ t'. destruct T as [|t2 T]; [|specialize (H3 ltac:(done) t'); rewrite <- app_assoc in H3; exact H3].
      simpl in Hc. injection Hc as _ <-. specialize (Hnew t'). rewrite <- app_assoc in Hnew. exact Hnew.
Qed.

Lemma create_dir_all_names h d l : create_dir_all h d (path_of l) = create_dirs h d (path_of []) (Normal <$> l).
Proof.
  unfold create_dir_all, path_of at 1. cbn [create_dirs app].
  change [RootDir] with (path_of []). by rewrite is_dir_path_real by apply real_nil.
Qed.

Lemma is_dir_root d : is_dir d [] = true.
Proof. done. Qed.

(** Making the parent of the path [E ++ T] that the sandbox check returned. *)
Lemma make_parent_spec h d E T path e d1 :
  disk_wf d → real d E → missing d E T →
  make_parent h d (path_of (E ++ T)) path = (e, d1) →
  only_below E d d1 ∧
  (e = None → T = [] ∧ d1 = d ∨
     ∃ T0 t, T = T0 ++ [t] ∧ real d1 (E ++ T0) ∧ is_dir d1 (E ++ T0) = true ∧
       (T0 = [] ∧ d1 = d ∨ node_at d1 (E ++ T) = None ∧ node_at d (E ++ T) = None)).
Proof.
  intros Hwf HE HT. unfold make_parent. destruct T as [|t T0 _] using rev_ind.
  - rewrite app_nil_r. destruct E as [|x E0 _] using rev_ind.
    { intros [= <- <-]. split; [by left|]. by left. }
    rewrite path_of_snoc, path_pop_snoc by done. unfold path_of at 1. cbn [fmap].
    fold (path_of E0). destruct (real_last _ _ _ HE) as [Hd _].
    assert (Hc : create_dir_all h d (path_of E0) = (true, d)).
    { rewrite create_dir_all_names, <- (app_nil_r (Normal <$> E0)).
      by rewrite (create_dirs_real _ _ _ _ []) by (try done; by apply (real_prefix _ E0 [x])). }
    rewrite Hc. intros [= <- <-]. split; [by left|]. by left.
  - rewrite app_assoc, path_of_snoc, path_pop_snoc by done. unfold path_of at 1.
    fold (path_of (E ++ T0)). rewrite create_dir_all_names, fmap_app.
    destruct (is_dir d E) eqn:Hd.
    + rewrite (create_dirs_real _ _ _ _ []) by done. rewrite app_nil_l.
      destruct (create_dirs h d (path_of E) (Normal <$> T0)) as [ok d2] eqn:Hc. intros [= <- <-].
      destruct (create_dirs_missing h T0 d E ok d2) as (Hb & _ & Hok); try done; [by destruct T0|].
      split; [done|]. destruct ok; [|done]. intros _. destruct (Hok eq_refl) as (H1 & H2 & H3).
      right. exists T0, t. split_and!; [done..|].
      destruct T0 as [|t0 T0]; [left; simpl in Hc; by injection Hc as <-|]. right.
      rewrite <- app_assoc. specialize (H3 ltac:(done) t). split; [done|].
      destruct (Hb (E ++ (t0 :: T0) ++ [t])) as [Hs|(_&_&?&_)]; [by rewrite <- Hs|done].
    + destruct E as [|x E0 _] using rev_ind; [done|].
      destruct (real_last _ _ _ HE) as [Hd0 (n & Hn & _)].
      rewrite fmap_app, <- app_assoc, (create_dirs_real _ _ _ _ []) by (try done; by apply (real_prefix _ E0 [x])).
      rewrite app_nil_l. simpl (_ <$> [x]). rewrite <- app_comm_cons. cbn [create_dirs app].
      rewrite <- path_of_snoc, is_dir_path_real, Hd, mkdir_below by (try done; by apply (real_prefix _ E0 [x])).
      rewrite Hn, (bool_decide_eq_false_2 (Some n = None)), andb_false_r by done.
      intros [= <- <-]. split; [by left|done].
Qed.

(** The file then lands where the path says. *)
Lemma write_after_parent h d E T path d1 :
  disk_wf d → links_resolve d → real d E → missing d E T →
  make_parent h d (path_of (E ++ T)) path = (None, d1) →
  write_target d1 (path_of (E ++ T)) = Some (E ++ T) ∧ node_at d1 (E ++ T) = node_at d (E ++ T) ∧
  (T ≠ [] → node_at d (E ++ T) = None).
Proof.
  intros Hwf Hlk HE HT Hm. destruct (make_parent_spec _ _ _ _ _ _ _ Hwf HE HT Hm) as [_ Hok].
  destruct (Hok eq_refl) as [[-> ->]|(T0 & t & -> & Hr & Hd & Hn)].
  { rewrite app_nil_r. by rewrite write_target_real. }
  assert (Hn1 : node_at d1 (E ++ T0 ++ [t]) = None ∧ node_at d (E ++ T0 ++ [t]) = None).
  { destruct Hn as [[-> ->]|Hn]; [|done]. simpl in *. rewrite app_nil_r in Hr, Hd.
    split; destruct (node_at d (E ++ [t])) as [n|] eqn:En; try done; exfalso;
      (destruct (is_link n) eqn:Hk;
       [destruct n; try done; apply Hlk in En; unfold missing in HT; rewrite HT in En; by destruct En
       |unfold missing in HT; rewrite resolve_real in HT by (by eapply real_snoc); done]). }
  destruct Hn1 as [Hn1 Hn2]. split; [|by rewrite Hn1, Hn2].
  rewrite write_target_names, app_assoc, fmap_app, (walk_names_app _ _ _ _ _ []) by done.
  simpl (_ <$> [t]). rewrite app_nil_l, walk_normal, Hd. rewrite <- app_assoc, Hn1. done.
Qed.

Lemma write_file_spec h d p f d' loc : write_target d p = Some loc → write_file h d p f = Some d' →
  node_at d' loc = Some (File (f (match node_at d loc with Some (File c _) => c | _ => "" end)) (Some (wall_clock h))) ∧
  (∀ l, l ≠ loc → node_at d' l = node_at d l) ∧
  (node_at d loc = None ∨ ∃ c t, node_at d loc = Some (File c t)).
Proof.
  intros Hw. unfold write_file. rewrite Hw. destruct (can_write h); [|done].
  assert (loc = [] → node_at d loc = Some Directory) as Hr by (by intros ->).
  destruct (node_at d loc) as [[c t| | |]|] eqn:Hn; try done; intros [= <-];
    (assert (Hne : loc ≠ []) by (intros H0; by specialize (Hr H0)));
    (split; [by rewrite node_at_set, decide_True|split; [intros l Hl; by rewrite node_at_set, decide_False|eauto]]).
Qed.

Lemma root_below d E T R : real d R → missing d E T → prefix R (E ++ T) → prefix R E.
Proof.
  intros HR HT [k Hk]. apply app_eq_inv in Hk as [(x & -> & _)|(x & -> & Hx)]; [by exists x|].
  destruct x as [|t x]; [by rewrite app_nil_r|]. exfalso. destruct T as [|t' T]; [done|].
  simpl in Hx. injection Hx as -> ->. unfold missing in HT.
  rewrite resolve_real in HT; [done|]. apply (real_prefix _ (E ++ [t]) x). by rewrite <- app_assoc.
Qed.

Lemma resolve_ends_real d p l : disk_wf d → resolve d p = Some l → real d l.
Proof. intros Hwf. unfold resolve. destruct p; [done|]. apply walk_real, Hwf. Qed.

(** * The sandbox, end to end *)

(** Nothing outside [R] differs. *)
Definition unchanged_outside (R : Location) (d d' : Disk) : Prop :=
  ∀ l, ¬ prefix R l → node_at d' l = node_at d l.

Section sandboxed.
Context (content_hash : list N → Z) (h : HostCalls) (d : Disk) (t : FsTool) (root : string) (R : Location).
Hypotheses (Hwf : disk_wf d) (Hlk : links_resolve d) (Hroot : sandbox_root t = Some root)
  (HR : resolve d (components root) = Some R).

Lemma unchanged_refl : unchanged_outside R d d.
Proof using. by intros l _. Qed.

(** The form of a path the tools go on with. *)
Lemma tool_path_form path resolved :
  resolve_tool_path h d t path = Ok resolved → R ≠ [] →
  ∃ E T, resolved = path_of (E ++ T) ∧ real d E ∧ missing d E T ∧ prefix R E.
Proof using Hwf Hroot HR.
  unfold resolve_tool_path. rewrite Hroot. intros Hc Hne.
  destruct (check_sandbox_path_form _ _ _ _ HR _ _ Hc Hne) as (E & T & -> & HE & HT & Hp).
  exists E, T. split_and!; [done..|]. eapply root_below; [|done..]. by eapply resolve_ends_real.
Qed.

(** Creating the parent and writing the file stays under the root. *)
Lemma write_steps_contained path resolved f e d1 :
  resolve_tool_path h d t path = Ok resolved → make_parent h d resolved path = (e, d1) →
  unchanged_outside R d d1 ∧
  (e = None → ∀ d2, write_file h d1 resolved f = Some d2 → unchanged_outside R d d2).
Proof using Hwf Hlk Hroot HR.
  intros Hp Hm. destruct (decide (R = [])) as [->|Hne].
  { split; [|intros _ d2 _]; intros l Hl; destruct Hl; apply prefix_nil. }
  destruct (tool_path_form _ _ Hp Hne) as (E & T & -> & HE & HT & HRE).
  destruct (make_parent_spec _ _ _ _ _ _ _ Hwf HE HT Hm) as [Hb _].
  assert (H1 : unchanged_outside R d d1).
  { intros l Hl. destruct (Hb l) as [?|(Hpl & _)]; [done|]. destruct Hl. by etrans. }
  split; [done|]. intros -> d2 Hw.
  destruct (write_after_parent _ _ _ _ _ _ Hwf Hlk HE HT Hm) as (Ht & _ & _).
  destruct (write_file_spec _ _ _ _ _ _ Ht Hw) as (_ & Ho & _).
  intros l Hl. rewrite Ho by (intros ->; destruct Hl; by apply prefix_app_r). by apply H1.
Qed.

(** An edit writes without creating anything above the file, which exists. *)
Lemma edit_step_contained path resolved f d2 :
  resolve_tool_path h d t path = Ok resolved → is_Some (metadata d resolved) →
  write_file h d resolved f = Some d2 → unchanged_outside R d d2.
Proof using Hwf Hroot HR.
  intros Hp [m Hm] Hw. destruct (decide (R = [])) as [->|Hne].
  { intros l Hl; destruct Hl; apply prefix_nil. }
  destruct (tool_path_form _ _ Hp Hne) as (E & T & -> & HE & HT & HRE).
  destruct T as [|x T]; [|unfold metadata in Hm; by rewrite missing_resolve in Hm].
  rewrite app_nil_r in *. destruct (write_file_spec _ _ _ _ _ _ (write_target_real _ _ HE) Hw) as (_ & Ho & _).
  intros l Hl. apply Ho. by intros ->.
Qed.

Lemma checked_path_ok verb path resolved :
  checked_path h d t verb path = Ok resolved → resolve_tool_path h d t path = Ok resolved.
Proof using.
  unfold checked_path. destruct (reject_unc_path path); [|done]. simpl.
  destruct (is_blocked_device_path path); [done|].
  destruct (resolve_tool_path h d t path) as [r|]; [|done]. simpl.
  by destruct (is_blocked_device_path _).
Qed.

Lemma fs_write_contained params : unchanged_outside R d (fs_write_execute content_hash h d t params).1.2.
Proof using Hwf Hlk Hroot HR.
  unfold fs_write_execute. destruct (str_param "path" params) as [path|]; [|apply unchanged_refl].
  destruct (checked_path h d t "write to" path) as [resolved|] eqn:Hc; [|apply unchanged_refl].
  apply checked_path_ok in Hc. case_bool_decide; [apply unchanged_refl|].
  destruct (guard _ _ _ _ _ _ _); [|apply unchanged_refl].
  destruct (str_param "content" params) as [content|]; [|apply unchanged_refl].
  set (mode := default _ _). destruct (negb _ && negb _); [apply unchanged_refl|].
  destruct (make_parent h d resolved path) as [[e|] d1] eqn:Hm;
    [exact (proj1 (write_steps_contained path resolved id (Some e) d1 Hc Hm))|].
  destruct (write_steps_contained path resolved (λ old, if String.eqb mode "append" then old +:+ content else content)
    None d1 Hc Hm) as [H1 H2].
  destruct (write_file _ _ _ _) as [d2|] eqn:Hw; [by apply H2|done].
Qed.

Lemma fs_edit_contained params : unchanged_outside R d (fs_edit_execute content_hash h d t params).1.2.
Proof using Hwf Hlk Hroot HR.
  unfold fs_edit_execute. destruct (str_param "path" params) as [path|]; [|apply unchanged_refl].
  destruct (str_param "old_string" params) as [old|]; [|apply unchanged_refl].
  destruct (str_param "new_string" params) as [new|]; [|apply unchanged_refl].
  destruct (reject_unc_path path); [|apply unchanged_refl].
  destruct (is_blocked_device_path path); [apply unchanged_refl|].
  destruct (String.eqb old new); [apply unchanged_refl|].
  destruct (resolve_tool_path h d t path) as [resolved|] eqn:Hc; [|apply unchanged_refl].
  destruct (is_blocked_device_path _); [apply unchanged_refl|].
  destruct (String.eqb old "").
  - unfold handle_empty_old_string. destruct (may_create _ _ _ _); [|apply unchanged_refl].
    destruct (make_parent h d resolved path) as [[e|] d1] eqn:Hm;
      [exact (proj1 (write_steps_contained path resolved id (Some e) d1 Hc Hm))|].
    destruct (write_steps_contained path resolved (λ _, strip_trailing_whitespace new (is_markdown_file path) LF)
      None d1 Hc Hm) as [H1 H2].
    destruct (write_file _ _ _ _) as [d2|] eqn:Hw; [by apply H2|done].
  - destruct (editable _ _ _ _ _ _) as [content|] eqn:He; [|apply unchanged_refl].
    destruct (edit_text _ _ _ _ _ _) as [[out n]|]; [|apply unchanged_refl].
    destruct (write_file _ _ _ _) as [d2|] eqn:Hw; [|apply unchanged_refl].
    eapply edit_step_contained; [done| |done]. unfold editable in He.
    destruct (metadata d resolved); [by eexists|done].
Qed.
End sandboxed.

(** C30: The file tools of a sandboxed agent touch nothing outside its root.  For
    every request, accepted or refused, successful or cut short by a failing
    system call, every node outside the root is as it was, however the path was
    spelled and whatever links it crosses, as long as no link dangles. *)
Theorem sandboxed_tools_contained content_hash h d t root R params :
  disk_wf d → links_resolve d → sandbox_root t = Some root → resolve d (components root) = Some R →
  unchanged_outside R d (fs_write_execute content_hash h d t params).1.2 ∧
  unchanged_outside R d (fs_edit_execute content_hash h d t params).1.2.
Proof. intros. split; [by eapply fs_write_contained|by eapply fs_edit_contained]. Qed.

(** The text of the file at a location, empty when there is none. *)
Definition text_at (d : Disk) (l : Location) : string :=
  match node_at d l with Some (File c _) => c | _ => "" end.

(** What a successful [fs_write] of a sandboxed agent does.  It accepted the
    path, which names a place under the root; the file there has exactly the
    given content, or the old text followed by it; besides, only missing
    directories were made; and when the file existed and the agent has a cache,
    it had read the version it replaced. *)
Theorem fs_write_exact content_hash h d t root R params r d' t' :
  disk_wf d → links_resolve d → sandbox_root t = Some root → resolve d (components root) = Some R → R ≠ [] →
  fs_write_execute content_hash h d t params = (Ok r, d', t') →
  ∃ path content loc, str_param "path" params = Some path ∧ str_param "content" params = Some content ∧
    check_sandbox_path (os_error h) d path root = Ok (path_of loc) ∧ prefix R loc ∧
    node_at d' loc = Some (File (if String.eqb (default "write" (str_param "mode" params)) "append"
                                 then text_at d loc +:+ content else content) (Some (wall_clock h))) ∧
    (∀ l, l ≠ loc → node_at d' l = node_at d l ∨ node_at d l = None ∧ node_at d' l = Some Directory) ∧
    (∀ cache c m, file_state_cache t = Some cache → node_at d loc = Some (File c (Some m)) →
       check_guard_with_mtime content_hash (view_of h d (path_of loc)) cache (cache_key (path_of loc)) m = Allowed).
Proof.
  intros Hwf Hlk Hroot HR Hne. unfold fs_write_execute.
  destruct (str_param "path" params) as [path|]; [|done].
  destruct (checked_path h d t "write to" path) as [resolved|] eqn:Hc; [|done]. apply checked_path_ok in Hc.
  case_bool_decide; [done|]. destruct (guard _ _ _ _ _ _ _) as [[]|] eqn:Hg; [|done].
  destruct (str_param "content" params) as [content|]; [|done].
  set (mode := default "write" (str_param "mode" params)). destruct (negb _ && negb _); [done|].
  destruct (make_parent h d resolved path) as [[e|] d1] eqn:Hm; [done|].
  destruct (write_file _ _ _ _) as [d2|] eqn:Hw; [|done]. intros [= _ <- _].
  destruct (tool_path_form h d t root R Hwf Hroot HR path resolved Hc Hne) as (E & T & -> & HE & HT & HRE).
  destruct (write_after_parent _ _ _ _ _ _ Hwf Hlk HE HT Hm) as (Ht & Hsame & Hnone).
  destruct (make_parent_spec _ _ _ _ _ _ _ Hwf HE HT Hm) as [Hb _].
  destruct (write_file_spec _ _ _ _ _ _ Ht Hw) as (Hf & Ho & _).
  unfold resolve_tool_path in Hc. rewrite Hroot in Hc.
  exists path, content, (E ++ T). split_and!; [done..|by apply prefix_app_r| | |].
  - unfold text_at. by rewrite Hf, Hsame.
  - intros l Hl. rewrite Ho by done. destruct (Hb l) as [->|(_&_&?&?)]; auto.
  - intros cache c m Hcache Hn. destruct T as [|x T]; [|by rewrite Hnone in Hn].
    rewrite app_nil_r in *. unfold guard in Hg. rewrite Hcache in Hg.
    unfold metadata in Hg. rewrite resolve_real, Hn in Hg by done. simpl in Hg.
    by destruct (check_guard_with_mtime _ _ _ _ _).
Qed.

(** What a successful [fs_edit] of existing text does: the file is a regular
    one under the root, small enough, its current version was read when the
    agent has a cache, its text becomes what the edit makes of it, with the
    number of replacements reported, and no other node changes. *)
Theorem fs_edit_exact content_hash h d t root R params old r d' t' :
  disk_wf d → sandbox_root t = Some root → resolve d (components root) = Some R → R ≠ [] →
  str_param "old_string" params = Some old → old ≠ "" →
  fs_edit_execute content_hash h d t params = (Ok r, d', t') →
  ∃ path new loc content modified out n, str_param "path" params = Some path ∧
    str_param "new_string" params = Some new ∧ old ≠ new ∧
    check_sandbox_path (os_error h) d path root = Ok (path_of loc) ∧ prefix R loc ∧
    node_at d loc = Some (File content modified) ∧ (Z.of_nat (String.length content) ≤ MAX_EDIT_BYTES)%Z ∧
    edit_text (fuzzy_match t) (default false (v ← json_get "replace_all" params; as_bool v))
      (is_markdown_file path) content old new = Ok (out, n) ∧
    r = edit_result path n ∧ d' = set_node loc (File out (Some (wall_clock h))) d ∧
    (∀ cache m, file_state_cache t = Some cache → modified = Some m →
       check_guard_with_mtime content_hash (view_of h d (path_of loc)) cache (cache_key (path_of loc)) m = Allowed).
Proof.
  intros Hwf Hroot HR Hne Hold Holdne. unfold fs_edit_execute. rewrite Hold.
  destruct (str_param "path" params) as [path|]; [|done].
  destruct (str_param "new_string" params) as [new|]; [|done].
  destruct (reject_unc_path path); [|done]. destruct (is_blocked_device_path path); [done|].
  destruct (String.eqb_spec old new) as [|Hnew]; [done|].
  destruct (resolve_tool_path h d t path) as [resolved|] eqn:Hc; [|done].
  destruct (is_blocked_device_path _); [done|]. rewrite (proj2 (String.eqb_neq _ _) Holdne).
  destruct (editable _ _ _ _ _ _) as [content|] eqn:He; [|done].
  destruct (edit_text _ _ _ _ _ _) as [[out n]|] eqn:Ht; [|done].
  destruct (write_file _ _ _ _) as [d2|] eqn:Hw; [|done]. intros [= <- <- _].
  destruct (tool_path_form h d t root R Hwf Hroot HR path resolved Hc Hne) as (E & T & -> & HE & HT & HRE).
  unfold resolve_tool_path in Hc. rewrite Hroot in Hc. unfold editable, metadata in He.
  destruct T as [|x T]; [|by rewrite missing_resolve in He]. rewrite app_nil_r in *.
  rewrite resolve_real in He by done.
  destruct (node_at d E) as [[c m| | |]|] eqn:Hn; try done. simpl in He.
  destruct (Z.ltb_spec MAX_EDIT_BYTES (Z.of_nat (String.length c))) as [|Hlen]; [done|].
  apply result_bind_Ok in He as ([] & Hg & He).
  unfold read_to_string, read_bytes in He. rewrite resolve_real, Hn in He by done.
  destruct (can_read h); [|done]. destruct (valid_utf8 c); [|done]. injection He as ->.
  unfold write_file in Hw. rewrite write_target_real, Hn in Hw by done.
  destruct (can_write h); [|done]. injection Hw as <-.
  exists path, new, E, content, m, out, n. split_and!; try done.
  intros cache t0 Hcache ->. unfold guard in Hg. rewrite Hcache in Hg.
  by destruct (check_guard_with_mtime _ _ _ _ _).
Qed.

(** A write through a dangling link leaves the sandbox: the tool reports
    success and the file is created where the link points, outside the root. *)
Theorem dangling_link_write_escapes content_hash :
  let h := {| os_error := "No such file or directory"; can_read := true; can_mkdir := true;
              can_write := true; wall_clock := 7; instant_now := 1 |} in
  let t := {| sandbox_root := Some "/ws"; file_state_cache := None; fuzzy_match := false |} in
  let params := JObj [("path", JStr "out"); ("content", JStr "run me")] in
  let result := fs_write_execute content_hash h dangling_disk t params in
  result.1.1 = Ok (JObj [("ok", JBool true); ("path", JStr "out")]) ∧
  node_at result.1.2 ["etc"; "cron.d"; "job"] = Some (File "run me" (Some 7%Z)) ∧
  node_at dangling_disk ["etc"; "cron.d"; "job"] = None ∧ disk_wf dangling_disk.
Proof.
  intros h t params result. split_and!; [vm_compute; done..|].
  apply disk_wf_check; [vm_compute; done|done].
Qed.

Section tool_witnesses.
Local Definition host : HostCalls :=
  {| os_error := "No such file or directory"; can_read := true; can_mkdir := true; can_write := true;
     wall_clock := 7; instant_now := 1 |}.
Local Definition no_hash (_ : list N) : Z := 0.
Local Definition tree : Disk :=
  {| nodes := <[["ws"] := Directory]> (<[["ws"; "a.txt"] := File "one two" (Some 3%Z)]>
       (<[["ws"; "sub"] := Directory]> (<[["ws"; "link"] := Symlink (components "sub")]>
       {[ ["etc"] := Directory ]}))); cwd := [] |}.
Local Definition boxed : FsTool :=
  {| sandbox_root := Some "/ws"; file_state_cache := None; fuzzy_match := false |}.

Lemma sandboxed_tools_contained_witness :
  let params := JObj [("path", JStr "link/deep/new.txt"); ("content", JStr "x")] in
  (fs_write_execute no_hash host tree boxed params).1.1 =
    Ok (JObj [("ok", JBool true); ("path", JStr "link/deep/new.txt")]) ∧
  node_at (fs_write_execute no_hash host tree boxed params).1.2 ["ws"; "sub"; "deep"; "new.txt"] =
    Some (File "x" (Some 7%Z)) ∧
  unchanged_outside ["ws"] tree (fs_write_execute no_hash host tree boxed params).1.2.
Proof.
  intros params. split; [vm_compute; reflexivity|]. split; [vm_compute; reflexivity|].
  refine (proj1 (sandboxed_tools_contained no_hash host tree boxed "/ws" ["ws"] params _ _ eq_refl _)).
  - apply disk_wf_check; [vm_compute; reflexivity|reflexivity].
  - apply links_resolve_check. vm_compute; reflexivity.
  - vm_compute; reflexivity.
Defined.

Lemma fs_write_exact_witness :
  let params := JObj [("path", JStr "sub/../a.txt"); ("content", JStr "!"); ("mode", JStr "append")] in
  ∃ r d' t', fs_write_execute no_hash host tree boxed params = (Ok r, d', t') ∧
    ∃ path content loc, str_param "path" params = Some path ∧ str_param "content" params = Some content ∧
      check_sandbox_path (os_error host) tree path "/ws" = Ok (path_of loc).
Proof.
  intros params. destruct (fs_write_execute no_hash host tree boxed params) as [[[r|e] d'] t'] eqn:E;
    [|vm_compute in E; discriminate].
  exists r, d', t'. split; [reflexivity|].
  destruct (fs_write_exact no_hash host tree boxed "/ws" ["ws"] params r d' t') as (p & c & l & H1 & H2 & H3 & _);
    [apply disk_wf_check; [vm_compute; reflexivity|reflexivity]|apply links_resolve_check; vm_compute; reflexivity
    |reflexivity|vm_compute; reflexivity|discriminate|exact E|].
  by exists p, c, l.
Defined.

Lemma fs_edit_exact_witness :
  let params := JObj [("path", JStr "/ws/a.txt"); ("old_string", JStr "two"); ("new_string", JStr "three")] in
  ∃ r d' t', fs_edit_execute no_hash host tree boxed params = (Ok r, d', t') ∧
    ∃ loc out, prefix ["ws"] loc ∧ d' = set_node loc (File out (Some 7%Z)) tree.
Proof.
  intros params. destruct (fs_edit_execute no_hash host tree boxed params) as [[[r|e] d'] t'] eqn:E;
    [|vm_compute in E; discriminate].
  exists r, d', t'. split; [reflexivity|].
  destruct (fs_edit_exact no_hash host tree boxed "/ws" ["ws"] params "two" r d' t')
    as (p & new & loc & c & m & out & n & _ & _ & _ & _ & H & _ & _ & _ & _ & Hd & _);
    [apply disk_wf_check; [vm_compute; reflexivity|reflexivity]|reflexivity|vm_compute; reflexivity
    |discriminate|reflexivity|discriminate|exact E|].
  by exists loc, out.
Defined.
End tool_witnesses.
