(* ===== verification/FsRead.v ===== *)
(** Reading files: [alms-sandbox/src/builtin/line_cap.rs] and [fs_read.rs].

    A buffered reader hands out the file in chunks of any sizes; a line is read
    across chunks with a cap on what is kept of it, and [fs_read] returns a page
    of numbered lines within a byte budget.  The cap and the budget are
    arguments of the loops.  The suggestions for a mistyped name are an
    argument: they come from a third-party edit distance. *)
From stdpp Require Import pretty.
From S2P Require Import Prelude Json FileState ShellRules FsPath TextEdit FsTools.

(** * [String::from_utf8_lossy] *)

Definition replacement_character : string := of_bytes [239; 191; 189]%N.

Definition second_of_three (a b : ascii) : bool :=
  byte_in 224 224 a && byte_in 160 191 b || byte_in 225 236 a && cont b
  || byte_in 237 237 a && byte_in 128 159 b || byte_in 238 239 a && cont b.
Definition second_of_four (a b : ascii) : bool :=
  byte_in 240 240 a && byte_in 144 191 b || byte_in 241 243 a && cont b || byte_in 244 244 a && byte_in 128 143 b.

(** Every maximal part of an ill-formed sequence becomes one U+FFFD. *)
Fixpoint from_utf8_lossy (s : string) : string :=
  match s with
  | EmptyString => ""
  | String a s1 =>
      if byte_in 0 127 a then String a (from_utf8_lossy s1)
      else match s1 with
      | EmptyString => replacement_character
      | String b s2 =>
          if two_bytes a b then String a (String b (from_utf8_lossy s2))
          else if second_of_three a b || second_of_four a b then
            match s2 with
            | EmptyString => replacement_character
            | String c s3 =>
                if negb (cont c) then replacement_character +:+ from_utf8_lossy s2
                else if second_of_three a b then String a (String b (String c (from_utf8_lossy s3)))
                else match s3 with
                | EmptyString => replacement_character
                | String e s4 =>
                    if cont e then String a (String b (String c (String e (from_utf8_lossy s4))))
                    else replacement_character +:+ from_utf8_lossy s3
                end
            end
          else replacement_character +:+ from_utf8_lossy s1
      end
  end.

(** * Lines with a cap *)

Record LineRead := { line : string; truncated : bool; captured_byte_len : nat }.

(** The reader: the chunks [fill_buf] still hands out, none of them empty. *)
Definition Reader := list string.

Definition consume (n : nat) (r : Reader) : Reader :=
  match r with
  | [] => []
  | c :: rest => if Nat.ltb n (String.length c) then str_drop n c :: rest else rest
  end.

(** [iter().position(|&b| b == b'\n')]. *)
Fixpoint newline_index (s : string) : option nat :=
  match s with
  | EmptyString => None
  | String c s' => if Ascii.eqb c lf then Some 0 else S <$> newline_index s'
  end.

(** [if buf.last() == Some(&b'\r') { buf.pop(); }] is [strip_cr]. *)
Definition whole_line (buf : string) : LineRead :=
  let line := from_utf8_lossy (strip_cr buf) in
  {| line := line; truncated := false; captured_byte_len := String.length line |}.

Definition cut_line (buf : string) (drained : nat) : LineRead :=
  let buf := strip_cr buf in
  let line := from_utf8_lossy buf in
  {| line := line +:+ "[line truncated to " +:+ pretty (String.length buf) +:+ " bytes; " +:+
       pretty drained +:+ " bytes discarded]";
     truncated := true; captured_byte_len := String.length line |}.

Fixpoint drain_to_newline (drained : nat) (r : Reader) : nat * Reader :=
  match r with
  | [] => (drained, [])
  | available :: rest =>
      match newline_index available with
      | Some idx => (drained + idx, consume (idx + 1) r)
      | None => drain_to_newline (drained + String.length available) rest
      end
  end.

(** Phase B. *)
Definition finish_cut (buf : string) (r : Reader) : option LineRead * Reader :=
  let '(drained, r') := drain_to_newline 0 r in (Some (cut_line buf drained), r').

(** Phase A: a chunk is used up to the cap; when it reaches beyond, the cap is
    reached and the loop ends. *)
Fixpoint accumulate (cap : nat) (buf : string) (r : Reader) : option LineRead * Reader :=
  if Nat.leb cap (String.length buf) then finish_cut buf r
  else match r with
  | [] => (if String.eqb buf "" then None else Some (whole_line buf), [])
  | available :: rest =>
      let taken := Nat.min (String.length available) (cap - String.length buf) in
      match newline_index (str_take taken available) with
      | Some idx => (Some (whole_line (buf +:+ str_take idx available)), consume (idx + 1) r)
      | None =>
          if Nat.ltb taken (String.length available)
          then finish_cut (buf +:+ str_take taken available) (consume taken r)
          else accumulate cap (buf +:+ available) rest
      end
  end.

Definition read_line_capped (cap : nat) (r : Reader) : option LineRead * Reader := accumulate cap "" r.

Definition MAX_LINE_BYTES : nat := Z.to_nat (256 * 1024).

(** * The lines of a text *)

(** The first line without its newline, and what follows it. *)
Fixpoint split_line (s : string) : string * string :=
  match s with
  | EmptyString => ("", "")
  | String c s' => if Ascii.eqb c lf then ("", s') else let '(l, rest) := split_line s' in (String c l, rest)
  end.

Definition cap_line (cap : nat) (l : string) : LineRead :=
  if Nat.ltb (String.length l) cap then whole_line l
  else cut_line (str_take cap l) (String.length l - cap).

Definition file_lines (cap : nat) (s : string) : list LineRead := map (λ l, cap_line cap l.1) (raw_lines s).

Lemma raw_lines_split s : s ≠ "" →
  ∃ t, raw_lines s = ((split_line s).1, t) :: raw_lines (split_line s).2.
Proof.
  induction s as [|c s IH]; [done|]. intros _. cbn [raw_lines split_line].
  destruct (Ascii.eqb_spec c lf) as [->|Hc]; [by exists true|].
  destruct s as [|d s]; [by exists false|]. destruct IH as [t Ht]; [done|].
  destruct (split_line (String d s)) as [l rest] eqn:E. rewrite Ht. by exists t.
Qed.

Lemma split_line_app a b : newline_index a = None →
  split_line (a +:+ b) = (a +:+ (split_line b).1, (split_line b).2).
Proof.
  induction a as [|c a IH]; intros Ha; [simpl; by destruct (split_line b)|]. cbn [newline_index] in Ha.
  cbn [String.append split_line]. destruct (Ascii.eqb c lf); [done|].
  destruct (newline_index a); [done|]. by rewrite IH.
Qed.

Lemma split_line_at s i : newline_index s = Some i → split_line s = (str_take i s, str_drop (i + 1) s).
Proof.
  revert i; induction s as [|c s IH]; intros i; [done|]. cbn [newline_index split_line].
  destruct (Ascii.eqb c lf); [by intros [= <-]|].
  destruct (newline_index s) as [j|]; [|done]. intros [= <-]. by rewrite (IH j).
Qed.

Lemma newline_index_bound s i : newline_index s = Some i → i < String.length s.
Proof.
  revert i; induction s as [|c s IH]; intros i; [done|]. cbn [newline_index].
  destruct (Ascii.eqb c lf); [intros [= <-]; simpl; lia|].
  destruct (newline_index s) as [j|]; [|done]. intros [= <-]. specialize (IH j eq_refl). simpl. lia.
Qed.

Lemma newline_index_app a b : newline_index (a +:+ b) =
  match newline_index a with Some i => Some i | None => (λ i, String.length a + i) <$> newline_index b end.
Proof.
  induction a as [|c a IH]; [simpl; by destruct (newline_index b)|]. cbn [String.append newline_index].
  destruct (Ascii.eqb c lf); [done|]. rewrite IH. destruct (newline_index a); [done|].
  by destruct (newline_index b).
Qed.

(** ** Independence of the chunks *)

Definition whole (r : Reader) : string := scat r.

Definition chunks_ok (r : Reader) : Prop := Forall (λ c, c ≠ "") r.

Lemma whole_cons c r : whole (c :: r) = c +:+ whole r.
Proof. apply scat_cons. Qed.

Lemma str_drop_app_le n a b : n ≤ String.length a → str_drop n (a +:+ b) = str_drop n a +:+ b.
Proof. revert a; induction n as [|n IH]; intros [|c a]; simpl; intros; try done; try lia. apply IH. lia. Qed.

Lemma str_take_app_le n a b : n ≤ String.length a → str_take n (a +:+ b) = str_take n a.
Proof.
  revert a; induction n as [|n IH]; intros [|c a]; simpl; intros; try done; try lia; [by destruct b..|].
  f_equal. apply IH. lia.
Qed.

Lemma consume_spec n c r : chunks_ok (c :: r) → n ≤ String.length c →
  chunks_ok (consume n (c :: r)) ∧ whole (consume n (c :: r)) = str_drop n (whole (c :: r)).
Proof.
  intros [Hc Hr]%Forall_cons Hn. simpl. destruct (Nat.ltb_spec n (String.length c)) as [Hlt|Hge].
  - rewrite !whole_cons, str_drop_app_le by done. split; [|done]. constructor; [|done].
    intros H0. apply (f_equal String.length) in H0. rewrite str_drop_length in H0. simpl in H0. lia.
  - assert (n = String.length c) as -> by lia. by rewrite whole_cons, str_drop_app_exact.
Qed.

Lemma drain_spec r : ∀ drained, chunks_ok r →
  (drain_to_newline drained r).1 = drained + String.length (split_line (whole r)).1 ∧
  chunks_ok (drain_to_newline drained r).2 ∧
  whole (drain_to_newline drained r).2 = (split_line (whole r)).2.
Proof.
  induction r as [|c r IH]; intros drained Hr; [simpl; split_and!; [lia|done..]|].
  cbn [drain_to_newline]. destruct (newline_index c) as [idx|] eqn:Hi.
  - pose proof (newline_index_bound _ _ Hi) as Hb. cbn [fst snd].
    destruct (consume_spec (idx + 1) c r Hr ltac:(lia)) as [Hok ->]. rewrite whole_cons.
    rewrite (split_line_at _ idx) by (by rewrite newline_index_app, Hi). cbn [fst snd].
    split_and!; [|done..]. rewrite str_take_length, str_length_app. lia.
  - apply Forall_cons in Hr as [_ Hr]. destruct (IH (drained + String.length c) Hr) as (-> & H2 & ->).
    rewrite whole_cons, split_line_app by done. cbn [fst snd]. rewrite str_length_app.
    split_and!; [lia|done..].
Qed.

Lemma finish_cut_spec cap buf r l : chunks_ok r → String.length buf = cap →
  l = buf +:+ (split_line (whole r)).1 →
  (finish_cut buf r).1 = Some (cut_line (str_take cap l) (String.length l - cap)) ∧
  chunks_ok (finish_cut buf r).2 ∧ whole (finish_cut buf r).2 = (split_line (whole r)).2.
Proof.
  intros Hr Hb ->. unfold finish_cut. destruct (drain_spec r 0 Hr) as (H1 & H2 & H3).
  destruct (drain_to_newline 0 r) as [n r'] eqn:E. simpl in *. split_and!; [|done..].
  rewrite <- Hb, str_take_app_exact, H1, str_length_app. do 2 f_equal. lia.
Qed.

(** The cap is reached inside the chunk [c]. *)
Lemma cut_inside_chunk cap buf c r taken : chunks_ok (c :: r) → taken < String.length c →
  taken = Nat.min (String.length c) (cap - String.length buf) → String.length buf ≤ cap →
  newline_index (str_take taken c) = None →
  let res := finish_cut (buf +:+ str_take taken c) (consume taken (c :: r)) in
  let l := buf +:+ (split_line (c +:+ whole r)).1 in
  res.1 = Some (cap_line cap l) ∧ chunks_ok res.2 ∧ whole res.2 = (split_line (c +:+ whole r)).2.
Proof.
  intros Hr Ht Htk Hlen Hi. cbv zeta. destruct (consume_spec taken c r Hr ltac:(lia)) as [Hok Hw].
  assert (Hsp : split_line (c +:+ whole r) =
    (str_take taken c +:+ (split_line (str_drop taken c +:+ whole r)).1, (split_line (str_drop taken c +:+ whole r)).2)).
  { rewrite <- (str_take_drop taken c) at 1. rewrite string_app_assoc. by apply split_line_app. }
  rewrite whole_cons, str_drop_app_le in Hw by lia.
  destruct (finish_cut_spec cap (buf +:+ str_take taken c) (consume taken (c :: r))
    (buf +:+ (split_line (c +:+ whole r)).1) Hok) as (-> & H2 & ->).
  { rewrite str_length_app, str_take_length. lia. }
  { by rewrite Hw, Hsp, string_app_assoc. }
  rewrite Hw, Hsp. split_and!; [|done..]. cbn [fst]. unfold cap_line.
  rewrite (proj2 (Nat.ltb_ge _ _)); [done|]. rewrite !str_length_app, str_take_length. lia.
Qed.

(** Reading a line does not depend on how the text arrives: with [buf] read so
    far, the result is that of the whole text. *)
Lemma accumulate_spec cap r : ∀ buf, 0 < cap → chunks_ok r → newline_index buf = None →
  String.length buf ≤ cap →
  let s := buf +:+ whole r in
  (accumulate cap buf r).1 = (if String.eqb s "" then None else Some (cap_line cap (split_line s).1)) ∧
  chunks_ok (accumulate cap buf r).2 ∧ whole (accumulate cap buf r).2 = (split_line s).2.
Proof.
  induction r as [|c r IH]; intros buf Hcap Hr Hb Hlen; cbn [accumulate]; cbv zeta.
  - rewrite split_line_app by done. change (whole []) with "". cbn [split_line fst snd].
    rewrite !string_app_nil_r. destruct (Nat.leb_spec cap (String.length buf)) as [Hge|Hlt].
    + assert (Hl : String.length buf = cap) by lia.
      destruct (finish_cut_spec cap buf [] buf Hr Hl) as (-> & H2 & ->); [by rewrite string_app_nil_r|].
      split_and!; [|done..]. destruct buf; [simpl in Hl; lia|]. unfold cap_line.
      by rewrite (proj2 (Nat.ltb_ge _ _)) by lia.
    + split_and!; [|done..]. destruct (String.eqb_spec buf ""); [done|]. unfold cap_line.
      by rewrite (proj2 (Nat.ltb_lt _ _)).
  - pose proof (proj1 (Forall_cons _ _ _) Hr) as [Hc Hr']. rewrite whole_cons.
    assert (Hne : String.eqb (buf +:+ c +:+ whole r) "" = false).
    { apply String.eqb_neq. intros H0. apply (f_equal String.length) in H0.
      rewrite !str_length_app in H0. destruct c; [done|simpl in H0; lia]. }
    rewrite Hne. rewrite split_line_app by done. cbn [fst snd].
    destruct (Nat.leb_spec cap (String.length buf)) as [Hge|Hlt].
    + assert (Hl : String.length buf = cap) by lia.
      destruct (finish_cut_spec cap buf (c :: r) (buf +:+ (split_line (whole (c :: r))).1) Hr Hl eq_refl)
        as (-> & H2 & ->). rewrite whole_cons. split_and!; [|done..]. unfold cap_line.
      by rewrite (proj2 (Nat.ltb_ge _ _)) by (rewrite str_length_app; lia).
    + set (taken := Nat.min (String.length c) (cap - String.length buf)).
      destruct (newline_index (str_take taken c)) as [idx|] eqn:Hi.
      * pose proof (newline_index_bound _ _ Hi) as Hbd. rewrite str_take_length in Hbd. cbn [fst snd].
        destruct (consume_spec (idx + 1) c r Hr ltac:(lia)) as [Hok ->]. rewrite whole_cons.
        assert (Hci : newline_index (c +:+ whole r) = Some idx).
        { rewrite <- (str_take_drop taken c), string_app_assoc, newline_index_app, Hi. done. }
        rewrite (split_line_at _ _ Hci). cbn [fst snd]. split_and!; [|done..].
        rewrite str_take_app_le by lia. unfold cap_line.
        rewrite (proj2 (Nat.ltb_lt _ _)); [done|]. rewrite str_length_app, str_take_length. lia.
      * destruct (Nat.ltb_spec taken (String.length c)) as [Ht|Ht].
        -- by apply cut_inside_chunk.
        -- assert (Htc : str_take taken c = c).
           { assert (taken = String.length c) as -> by lia. rewrite <- (string_app_nil_r c) at 2. apply str_take_app_exact. }
           rewrite Htc in Hi. destruct (IH (buf +:+ c)) as (H1 & H2 & H3); try done.
           { by rewrite newline_index_app, Hb, Hi. }
           { rewrite str_length_app. lia. }
           rewrite string_app_assoc, Hne in H1. rewrite H1, H3, string_app_assoc.
           rewrite !(split_line_app buf) by done. done.
Qed.

(** * Pages *)

Record PageState := {
  lines_read : nat;
  selected_lines : list (nat * string);
  output_bytes : nat;
  byte_budget_exceeded : bool;
  read_past_end : bool;
  any_line_truncated : bool;
}.

Definition page_start : PageState :=
  {| lines_read := 0; selected_lines := []; output_bytes := 0; byte_budget_exceeded := false;
     read_past_end := false; any_line_truncated := false |}.

Definition line_cost (l : LineRead) : nat := 7 + String.length (line l) + 1.
#[global] Arguments line_cost : simpl never.

Section page.
Context (budget : nat) (offset end_ : Z).

(** The body of the loop for one line: the new state, and whether it breaks. *)
Definition page_step (st : PageState) (l : LineRead) : PageState * bool :=
  let line_idx := lines_read st in
  let in_range := (offset <=? Z.of_nat line_idx)%Z && (Z.of_nat line_idx <? end_)%Z in
  if in_range && Nat.ltb budget (output_bytes st + line_cost l) then
    ({| lines_read := S line_idx; selected_lines := selected_lines st; output_bytes := output_bytes st;
        byte_budget_exceeded := true; read_past_end := read_past_end st;
        any_line_truncated := any_line_truncated st |}, true)
  else
    let past := (end_ <=? Z.of_nat line_idx)%Z in
    ({| lines_read := S line_idx;
        selected_lines := if in_range then selected_lines st ++ [(S line_idx, line l)] else selected_lines st;
        output_bytes := if in_range then output_bytes st + line_cost l else output_bytes st;
        byte_budget_exceeded := byte_budget_exceeded st;
        read_past_end := if past then true else read_past_end st;
        any_line_truncated := any_line_truncated st || in_range && truncated l |}, past).

(** [while let Some(..) = read_line_capped(&mut reader)]; [None] when the fuel
    does not suffice. *)
Fixpoint page_loop (cap fuel : nat) (r : Reader) (st : PageState) : option (PageState * Reader) :=
  match read_line_capped cap r with
  | (None, r') => Some (st, r')
  | (Some l, r') =>
      match fuel with
      | 0 => None
      | S fuel =>
          match page_step st l with
          | (st', true) => Some (st', r')
          | (st', false) => page_loop cap fuel r' st'
          end
      end
  end.

(** The same loop over a list of lines. *)
Fixpoint page_lines (ls : list LineRead) (st : PageState) : PageState * list LineRead :=
  match ls with
  | [] => (st, [])
  | l :: ls' => match page_step st l with (st', true) => (st', ls') | (st', false) => page_lines ls' st' end
  end.

Lemma file_lines_cons cap s : s ≠ "" →
  file_lines cap s = cap_line cap (split_line s).1 :: file_lines cap (split_line s).2.
Proof using.
  intros Hs. unfold file_lines. destruct (raw_lines_split s Hs) as [t Ht]. by rewrite Ht.
Qed.

Lemma split_line_shorter s : s ≠ "" → String.length (split_line s).2 < String.length s.
Proof using.
  induction s as [|c s IH]; [done|]. intros _. cbn [split_line]. destruct (Ascii.eqb c lf); [simpl; lia|].
  destruct s as [|d s]; [simpl; lia|]. specialize (IH ltac:(done)).
  destruct (split_line (String d s)) as [l rest]. simpl in *. lia.
Qed.

(** As much fuel as there are bytes is enough, and the loop sees the lines of
    the file. *)
Lemma page_loop_spec cap fuel : ∀ r st, 0 < cap → chunks_ok r → String.length (whole r) ≤ fuel →
  ∃ r', page_loop cap fuel r st = Some ((page_lines (file_lines cap (whole r)) st).1, r') ∧ chunks_ok r' ∧
    file_lines cap (whole r') = (page_lines (file_lines cap (whole r)) st).2.
Proof using.
  induction fuel as [|fuel IH]; intros r st Hcap Hr Hf; cbn [page_loop]; unfold read_line_capped;
    destruct (accumulate_spec cap r "" Hcap Hr eq_refl ltac:(simpl; lia)) as (H1 & H2 & H3);
    change ("" +:+ ?x) with x in *; destruct (accumulate cap "" r) as [res r'] eqn:Hacc; cbn [fst snd] in *;
    destruct (String.eqb_spec (whole r) "") as [H0|H0]; subst res.
  1,3: exists r'; rewrite H0 in *; simpl in *; rewrite H3; done.
  - destruct (whole r); [done|simpl in Hf; lia].
  - rewrite (file_lines_cons _ _ H0). cbn [page_lines]. pose proof (split_line_shorter _ H0).
    destruct (page_step st _) as [st' []]; [exists r'; rewrite H3; done|].
    rewrite <- H3. apply IH; [done..|]. rewrite H3. lia.
Qed.
End page.

(** The page and whether the end of the file was reached: the peek after the
    loop counts as a line read when there is one. *)
Definition read_page (cap budget : nat) (offset limit : Z) (r : Reader) : option (PageState * bool) :=
  let end_ := sat_add_u64 offset limit in
  match page_loop budget offset end_ cap (String.length (whole r)) r page_start with
  | None => None
  | Some (st, r') =>
      if byte_budget_exceeded st || read_past_end st then Some (st, false)
      else match read_line_capped cap r' with
      | (Some _, _) =>
          Some ({| lines_read := S (lines_read st); selected_lines := selected_lines st;
                   output_bytes := output_bytes st; byte_budget_exceeded := byte_budget_exceeded st;
                   read_past_end := read_past_end st; any_line_truncated := any_line_truncated st |}, false)
      | (None, _) => Some (st, true)
      end
  end.

(** * [FsReadTool::execute] *)

Definition MAX_READ_BYTES : Z := 256 * 1024.
Definition MAX_OUTPUT_BYTES : nat := Z.to_nat (64 * 1024).
Definition BINARY_SNIFF_BYTES : nat := 4096.

Definition BINARY_EXTENSIONS : list string :=
  ["png"; "jpg"; "jpeg"; "gif"; "webp"; "pdf"; "zip"; "gz"; "xz"; "tar"; "exe"; "dll"; "so"; "dylib";
   "class"; "jar"; "o"; "a"; "wasm"].

(** [Path::extension]: what follows the last dot of the file name, unless the
    name only starts with it. *)
Definition extension (p : list Component) : option string :=
  match last p with
  | Some (Normal name) =>
      match rfind "." name with
      | None | Some 0 => None
      | Some i => Some (str_drop (S i) name)
      end
  | _ => None
  end.

Definition has_binary_extension (p : list Component) : bool :=
  match extension p with
  | Some e => bool_decide (to_ascii_lowercase e ∈ BINARY_EXTENSIONS)
  | None => false
  end.

Definition non_printable (b : ascii) : bool :=
  negb (byte_in 32 126 b || byte_in 9 10 b || byte_in 13 13 b || byte_in 12 12 b || byte_in 128 255 b).

Fixpoint count_bytes (f : ascii → bool) (s : string) : nat :=
  match s with EmptyString => 0 | String c s' => (if f c then 1 else 0) + count_bytes f s' end.

(** The ratio of two counts below 4096 exceeds the double nearest to 0.3 exactly
    when it exceeds 3/10. *)
Definition looks_binary (bytes : string) : bool :=
  if String.eqb bytes "" then false
  else if char_in (ascii_of_N 0) bytes then true
  else Nat.ltb (3 * String.length bytes) (10 * count_bytes non_printable bytes).

Definition as_u64 (j : json) : option Z :=
  match j with JNum n => if (0 <=? n)%Z && (n <=? u64_max)%Z then Some n else None | _ => None end.

Definition offset_param (params : json) : Result Z SandboxError :=
  match json_get "offset" params with
  | Some v => match as_u64 v with
              | Some n => Ok n
              | None => Err (InvalidParameters "'offset' must be a non-negative integer")
              end
  | None => Ok 0%Z
  end.

Definition limit_param (params : json) : Result Z SandboxError :=
  match json_get "limit" params with
  | Some v => match as_u64 v with
              | Some n => if (n =? 0)%Z then Err (InvalidParameters "'limit' must be greater than 0") else Ok n
              | None => Err (InvalidParameters "'limit' must be a positive integer")
              end
  | None => Ok 2000%Z
  end.

Fixpoint spaces (n : nat) : string := match n with 0 => "" | S n' => String " " (spaces n') end.

(** [format!("{num:>6}\t{line}")]. *)
Definition numbered (l : nat * string) : string :=
  let n := pretty l.1 in spaces (6 - String.length n) +:+ n +:+ ch (ascii_of_N 9) +:+ l.2.

Record ReadTool := {
  read_root : option string;
  extra_read_roots : list string;
  read_cache : option FileStateCache;
}.

Section fs_read.
Context (content_hash : list N → Z).
(** How the buffered reader cuts a file, and the names suggested for a missing one. *)
Context (chunks : string → Reader) (did_you_mean : list Component → string → list string).

Definition resolve_read_path (h : HostCalls) (d : Disk) (t : ReadTool) (path : string)
    : Result (list Component) SandboxError :=
  match read_root t with
  | Some root =>
      if Nat.eqb (length (extra_read_roots t)) 0 then check_sandbox_path (os_error h) d path root
      else check_sandbox_path_with_extras (os_error h) d path root (extra_read_roots t)
  | None => Ok (normalize_unsandboxed_path (os_error h) d path)
  end.

Definition not_found_suffix (resolved : list Component) : string :=
  match last resolved, path_pop resolved with
  | Some (Normal name), Some parent =>
      match did_you_mean parent name with
      | [] => ""
      | names => " — did you mean: " +:+ String.concat ", " names +:+ "?"
      end
  | _, _ => ""
  end.

(** The checks before the first line is read; the text of the file. *)
Definition readable (h : HostCalls) (d : Disk) (t : ReadTool) (path : string) (partial_read_requested : bool)
    : Result (list Component * Metadata * string) SandboxError :=
  let device := SandboxViolation ("Cannot read device path '" +:+ path +:+
    "' — this is a system device, not a regular file") in
  let? _ := reject_unc_path path in
  if is_blocked_device_path path then Err device
  else
    let? resolved := resolve_read_path h d t path in
    if is_blocked_device_path (join_components resolved) then Err device
    else match metadata d resolved with
    | None => Err (Io ("Failed to read '" +:+ path +:+ "': " +:+ os_error h +:+ not_found_suffix resolved))
    | Some meta =>
        if negb (md_is_file meta) then Err (not_regular path)
        else if has_binary_extension resolved
        then Err (InvalidParameters ("File '" +:+ path +:+
          "' appears to be binary (extension in denylist); fs_read only handles text files"))
        else if negb partial_read_requested && (MAX_READ_BYTES <? Z.of_nat (md_len meta))%Z
        then Err (InvalidParameters ("File '" +:+ path +:+ "' is " +:+ pretty (md_len meta) +:+
          " bytes, which exceeds the maximum read size of " +:+ pretty MAX_READ_BYTES +:+
          " bytes. Pass `offset` and/or `limit` to read a slice of the file — the " +:+ pretty MAX_OUTPUT_BYTES +:+
          " byte cap applies to the returned slice, not the underlying file."))
        else match read_bytes h d resolved with
        | None => Err (io_read h path)
        | Some content =>
            if looks_binary (str_take BINARY_SNIFF_BYTES content)
            then Err (InvalidParameters ("File '" +:+ path +:+ "' appears to be binary; fs_read only handles text files"))
            else Ok (resolved, meta, content)
        end
    end.

Definition record (h : HostCalls) (t : ReadTool) (resolved : list Component) (meta : Metadata)
    (bytes : string) (is_partial : bool) : ReadTool :=
  {| read_root := read_root t; extra_read_roots := extra_read_roots t;
     read_cache := (λ cache, record_read (instant_now h) cache (cache_key resolved)
       (content_hash (bytes_of bytes)) (default 0%Z (md_modified meta)) is_partial) <$> read_cache t |}.

Definition empty_result : json :=
  JObj [("content", JStr ""); ("lines_returned", JNum 0); ("has_more_before", JBool false);
        ("has_more_after", JBool false); ("note", JStr "File exists but is empty.")].

Definition flag (b : bool) (members : list (string * json)) : list (string * json) := if b then members else [].

Definition page_result (st : PageState) (hit_eof : bool) (offset limit : Z) : json :=
  let has_more_before := (0 <? offset)%Z in
  let has_more_after := negb hit_eof || byte_budget_exceeded st in
  JObj ([("content", JStr (String.concat LF (map numbered (selected_lines st))));
         ("lines_returned", JNum (Z.of_nat (length (selected_lines st))));
         ("has_more_before", JBool has_more_before); ("has_more_after", JBool has_more_after)]
    ++ flag (hit_eof && negb (byte_budget_exceeded st)) [("total_lines", JNum (Z.of_nat (lines_read st)))]
    ++ flag (has_more_before || has_more_after) [("offset", JNum offset); ("limit", JNum limit)]
    ++ flag (any_line_truncated st) [("line_truncated", JBool true)]
    ++ flag (byte_budget_exceeded st)
         [("byte_budget_exceeded", JBool true);
          ("note", JStr ("Output truncated at " +:+ pretty (output_bytes st) +:+ " bytes (max " +:+
             pretty MAX_OUTPUT_BYTES +:+ "). Use smaller limit or narrower offset."))]).

(** [None] only if the loop runs out of fuel. *)
Definition fs_read_execute (h : HostCalls) (d : Disk) (t : ReadTool) (params : json)
    : option (Result json SandboxError * ReadTool) :=
  match str_param "path" params with
  | None => Some (Err (InvalidParameters "'path' is required"), t)
  | Some path =>
  let partial_read_requested :=
    bool_decide (is_Some (json_get "offset" params)) || bool_decide (is_Some (json_get "limit" params)) in
  match offset_param params with
  | Err e => Some (Err e, t)
  | Ok offset =>
  match limit_param params with
  | Err e => Some (Err e, t)
  | Ok limit =>
  match readable h d t path partial_read_requested with
  | Err e => Some (Err e, t)
  | Ok (resolved, meta, content) =>
  match read_page MAX_LINE_BYTES MAX_OUTPUT_BYTES offset limit (chunks content) with
  | None => None
  | Some (st, hit_eof) =>
      if Nat.eqb (lines_read st) 0 && Nat.eqb (length (selected_lines st)) 0
      then Some (Ok empty_result, record h t resolved meta "" false)
      else
        let has_more_after := negb hit_eof || byte_budget_exceeded st in
        Some (Ok (page_result st hit_eof offset limit),
          if (Z.of_nat (md_len meta) <=? MAX_READ_BYTES)%Z
          then record h t resolved meta content ((0 <? offset)%Z || has_more_after) else t)
  end
  end
  end
  end
  end.
End fs_read.

(** * What a page holds *)

Definition cost (ls : list LineRead) : nat := foldr (λ l n, line_cost l + n) 0 ls.

Lemma cost_app a b : cost (a ++ b) = cost a + cost b.
Proof. induction a as [|l a IH]; simpl; [done|]. rewrite IH. lia. Qed.

(** Lines with their 1-based numbers, from index [i] on. *)
Definition number_from (i : nat) (ls : list LineRead) : list (nat * string) :=
  imap (λ k l, (S (i + k), line l)) ls.

Lemma number_from_snoc i ls l : number_from i (ls ++ [l]) = number_from i ls ++ [(S (i + length ls), line l)].
Proof. unfold number_from. rewrite imap_app. simpl. by rewrite Nat.add_0_r. Qed.

Section page_facts.
Context (budget o : nat) (end_ : Z).
Hypothesis Hend : (Z.of_nat o ≤ end_)%Z.

(** Before the loop reads the line after [seen]. *)
Record page_inv (seen : list LineRead) (st : PageState) : Prop := {
  inv_count : lines_read st = length seen;
  inv_end : (Z.of_nat (length seen) ≤ end_)%Z;
  inv_selected : selected_lines st = number_from o (drop o seen);
  inv_bytes : output_bytes st = cost (drop o seen);
  inv_budget : cost (drop o seen) ≤ budget;
  inv_flags : byte_budget_exceeded st = false ∧ read_past_end st = false;
  inv_trunc : any_line_truncated st = existsb truncated (drop o seen);
}.

(** Why the loop stopped after [seen], with [more] left. *)
Definition page_stop (seen more : list LineRead) (st : PageState) : Prop :=
  match byte_budget_exceeded st, read_past_end st with
  | true, _ => read_past_end st = false ∧ o ≤ length seen ∧
      ∃ l more', more = l :: more' ∧ budget < cost (drop o seen) + line_cost l
  | false, true => ∃ l more', more = l :: more' ∧ Z.of_nat (length seen) = end_
  | false, false => more = [] ∧ lines_read st = length seen
  end.

Lemma drop_snoc_ge (seen : list LineRead) l : o ≤ length seen → drop o (seen ++ [l]) = drop o seen ++ [l].
Proof using. intros. by rewrite drop_app_le. Qed.

Lemma drop_snoc_lt (seen : list LineRead) l : length seen < o → drop o (seen ++ [l]) = [].
Proof using. intros. apply drop_ge. rewrite length_app. simpl. lia. Qed.

Local Ltac next_line IH seen l :=
  match goal with |- context [page_lines _ _ _ _ ?s] =>
    destruct (IH (seen ++ [l]) s) as (seen' & more & E & Hrest);
    [|rewrite <- app_assoc in E; by exists seen', more] end.

Lemma page_lines_spec ls : ∀ seen st, page_inv seen st →
  let res := page_lines budget (Z.of_nat o) end_ ls st in
  ∃ seen' more, seen ++ ls = seen' ++ more ∧
    selected_lines res.1 = number_from o (drop o seen') ∧ output_bytes res.1 = cost (drop o seen') ∧
    cost (drop o seen') ≤ budget ∧ (Z.of_nat (length seen') ≤ end_)%Z ∧
    any_line_truncated res.1 = existsb truncated (drop o seen') ∧
    page_stop seen' more res.1 ∧
    (byte_budget_exceeded res.1 = false → read_past_end res.1 = false → res.2 = []).
Proof using Hend.
  induction ls as [|l ls IH]; intros seen st [Hc He Hs Hb Hbu [Hf1 Hf2] Ht]; cbv zeta; cbn [page_lines fst snd].
  - exists seen, []. rewrite app_nil_r. split_and!; try done. unfold page_stop. by rewrite Hf1, Hf2.
  - destruct (page_step budget (Z.of_nat o) end_ st l) as [st' brk] eqn:Hst. unfold page_step in Hst.
    rewrite Hc, Hb in Hst.
    destruct (Z.leb_spec (Z.of_nat o) (Z.of_nat (length seen))) as [Hoff|Hoff]; simpl in Hst.
    + destruct (Z.ltb_spec (Z.of_nat (length seen)) end_) as [Hlt|Hge]; simpl in Hst.
      * destruct (Nat.ltb_spec budget (cost (drop o seen) + line_cost l)) as [Hbig|Hfit].
        -- injection Hst as <- <-. exists seen, (l :: ls). split_and!; try done.
           unfold page_stop. cbn. split_and!; [done|lia|by eauto].
        -- rewrite (proj2 (Z.leb_gt _ _) Hlt) in Hst. injection Hst as <- <-.
           next_line IH seen l.
           assert (Hd : drop o (seen ++ [l]) = drop o seen ++ [l]) by (apply drop_snoc_ge; lia).
           split; cbn; rewrite ?Hd, ?length_app, ?cost_app, ?number_from_snoc; simpl; rewrite ?length_drop;
             try (unfold line_cost in *; lia); try done.
           ++ rewrite Hs. replace (o + (length seen - o)) with (length seen) by lia. done.
           ++ rewrite existsb_app, Ht. simpl. by rewrite orb_false_r.
      * rewrite (proj2 (Z.leb_le _ _) Hge) in Hst. injection Hst as <- <-.
        exists seen, (l :: ls). split_and!; try done; [cbn; by rewrite orb_false_r|].
        unfold page_stop. cbn. rewrite Hf1. exists l, ls. split; [done|lia].
    + rewrite (proj2 (Z.leb_gt end_ (Z.of_nat (length seen)))) in Hst by lia. injection Hst as <- <-.
      next_line IH seen l.
      rewrite drop_ge in Hs, Hb, Hbu, Ht by lia.
      assert (Hd : drop o (seen ++ [l]) = []) by (apply drop_snoc_lt; lia).
      split; cbn; rewrite ?Hd, ?length_app; simpl; rewrite ?orb_false_r; try lia; try done.
      by rewrite drop_ge by lia.
Qed.
End page_facts.

(** A page of a file.  However the reader cuts the file into chunks, a read of
    a page returns (the loop ends), and what it returns are consecutive lines of
    the file from [offset] on with their numbers, at most [limit] of them and
    within the byte budget; it stops early only before a line that does not fit
    the budget; it says that more follows exactly when a line after the page
    exists, so that reading on from [offset + lines_returned] misses nothing; and
    the total it reports at the end of the file is the number of lines. *)
Theorem read_page_exact cap budget o limit r :
  0 < cap → chunks_ok r → (0 < limit)%Z → (Z.of_nat (o + length (file_lines cap (whole r))) < u64_max)%Z →
  let all := file_lines cap (whole r) in
  ∃ st hit_eof, read_page cap budget (Z.of_nat o) limit r = Some (st, hit_eof) ∧
    let n := length (selected_lines st) in
    selected_lines st = number_from o (take n (drop o all)) ∧ (Z.of_nat n ≤ limit)%Z ∧
    output_bytes st = cost (take n (drop o all)) ∧ output_bytes st ≤ budget ∧
    any_line_truncated st = existsb truncated (take n (drop o all)) ∧
    (negb hit_eof || byte_budget_exceeded st = true ↔ o + n < length all) ∧
    (byte_budget_exceeded st = true → ∃ l, all !! (o + n) = Some l ∧ budget < output_bytes st + line_cost l) ∧
    (hit_eof = true → lines_read st = length all).
Proof.
  intros Hcap Hr Hlim Hsmall all. unfold read_page.
  assert (Hend : (Z.of_nat o ≤ sat_add_u64 (Z.of_nat o) limit)%Z) by (unfold sat_add_u64; lia).
  destruct (page_loop_spec budget (Z.of_nat o) (sat_add_u64 (Z.of_nat o) limit) cap
    (String.length (whole r)) r page_start Hcap Hr ltac:(lia)) as (r' & -> & Hr' & Hleft).
  destruct (page_lines_spec budget o _ Hend all [] page_start) as
    (seen & more & Eall & Hsel & Hby & Hbud & Hle & Htr & Hstop & Hnil);
    [split; rewrite ?drop_nil; simpl; try done; lia|].
  simpl in Eall. fold all in Hleft |- *.
  set (st := (page_lines budget (Z.of_nat o) (sat_add_u64 (Z.of_nat o) limit) all page_start).1) in *.
  assert (Hn : length (selected_lines st) = length seen - o)
    by (rewrite Hsel; unfold number_from; by rewrite length_imap, length_drop).
  assert (Htake : take (length seen - o) (drop o all) = drop o seen).
  { rewrite Eall. destruct (decide (o ≤ length seen)).
    - rewrite drop_app_le, take_app_le, take_ge by (rewrite ?length_drop; lia). done.
    - replace (length seen - o) with 0 by lia. by rewrite (drop_ge seen) by lia. }
  assert (Hlimit : (Z.of_nat (length seen - o) ≤ limit)%Z) by (unfold sat_add_u64 in Hle; lia).
  assert (Hlen : length all = length seen + length more) by (by rewrite Eall, length_app).
  unfold page_stop in Hstop.
  destruct (byte_budget_exceeded st) eqn:Hbb; [|destruct (read_past_end st) eqn:Hrp]; cbn [orb].
  - exists st, false. split; [done|]. cbv zeta. rewrite Hn, Htake, Hbb.
    destruct Hstop as (_ & Hos & l & more' & -> & Hbig). split_and!; try done; [lia|simpl in *; split; [intros _; lia|done]|].
    intros _. exists l. rewrite Eall, lookup_app_r by lia. split; [|lia].
    by replace (o + (length seen - o) - length seen) with 0 by lia.
  - exists st, false. split; [done|]. cbv zeta. rewrite Hn, Htake, Hbb.
    destruct Hstop as (l & more' & -> & Hee). split_and!; try done; [lia|]. simpl in *.
    split; [intros _|done]. unfold sat_add_u64 in Hee. lia.
  - destruct Hstop as [-> Hlr]. rewrite Hnil in Hleft by done.
    destruct (accumulate_spec cap r' "" Hcap Hr' eq_refl ltac:(simpl; lia)) as (H1 & _ & _).
    change ("" +:+ whole r') with (whole r') in H1.
    destruct (String.eqb_spec (whole r') "") as [H0|H0]; [|by rewrite (file_lines_cons _ _ H0) in Hleft].
    unfold read_line_capped. destruct (accumulate cap "" r') as [res r2]. cbn in H1. subst res.
    exists st, true. split; [done|]. cbv zeta. rewrite Hn, Htake, Hbb. simpl in Hlen.
    split_and!; try done; [lia|simpl; split; [done|lia]|]. intros _. rewrite Hlr. lia.
Qed.

(** Lines do not depend on the chunks.  Whatever pieces the reader hands out,
    reading a line gives the next line of the file, cut at the cap, and leaves
    the reader at the line after it. *)
Theorem line_read_reference cap r :
  0 < cap → chunks_ok r →
  let '(res, r') := read_line_capped cap r in
  res = head (file_lines cap (whole r)) ∧ file_lines cap (whole r') = tail (file_lines cap (whole r)) ∧ chunks_ok r'.
Proof.
  intros Hcap Hr. unfold read_line_capped.
  destruct (accumulate_spec cap r "" Hcap Hr eq_refl ltac:(simpl; lia)) as (H1 & H2 & H3).
  change ("" +:+ whole r) with (whole r) in *. destruct (accumulate cap "" r) as [res r']. cbn [fst snd] in *.
  destruct (String.eqb_spec (whole r) "") as [H0|H0]; subst res.
  - rewrite H0 in *. by rewrite H3.
  - rewrite (file_lines_cons _ _ H0), H3. done.
Qed.

(** A line that just fits the cap is reported as truncated: the marker is
    appended although no byte was discarded. *)
Theorem full_line_marked cap l :
  0 < cap → String.length l = cap → newline_index l = None →
  ∃ x, (read_line_capped cap [l]).1 = Some x ∧ truncated x = true ∧
    line x = from_utf8_lossy (strip_cr l) +:+ "[line truncated to " +:+ pretty (String.length (strip_cr l)) +:+
      " bytes; " +:+ pretty 0 +:+ " bytes discarded]".
Proof.
  intros Hcap Hl Hn. assert (Hne : l ≠ "") by (intros ->; simpl in Hl; lia).
  destruct (accumulate_spec cap [l] "" Hcap) as (H1 & _ & _); [by repeat constructor|done|simpl; lia|].
  unfold whole in H1. change ("" +:+ scat [l]) with l in H1.
  assert (Hsl : (split_line l).1 = l).
  { rewrite <- (string_app_nil_r l) at 1. rewrite split_line_app by done. apply string_app_nil_r. }
  assert (Htk : str_take cap l = l) by
    (rewrite <- Hl; pose proof (str_take_app_exact l "") as Ht; by rewrite string_app_nil_r in Ht).
  rewrite (proj2 (String.eqb_neq l "") Hne), Hsl in H1. unfold cap_line in H1.
  rewrite (proj2 (Nat.ltb_ge _ _)), Hl, Nat.sub_diag, Htk in H1 by lia.
  eexists. split; [exact H1|]. split; [done|]. by cbn.
Qed.

Lemma page_step_read budget o e st l : lines_read (page_step budget o e st l).1 = S (lines_read st).
Proof. unfold page_step. by case_match. Qed.

Lemma page_lines_read budget o e ls : ∀ st,
  lines_read st ≤ lines_read (page_lines budget o e ls st).1 ∧
  (ls ≠ [] → 0 < lines_read (page_lines budget o e ls st).1).
Proof.
  induction ls as [|l ls IH]; intros st; simpl; [done|].
  pose proof (page_step_read budget o e st l) as Hs.
  destruct (page_step budget o e st l) as [st' []]; simpl in *; [lia|].
  destruct (IH st') as [H1 _]. lia.
Qed.

Lemma read_page_empty cap budget o limit r st hit_eof : 0 < cap → chunks_ok r →
  read_page cap budget o limit r = Some (st, hit_eof) → lines_read st = 0 → whole r = "".
Proof.
  intros Hcap Hr. unfold read_page.
  destruct (page_loop_spec budget o (sat_add_u64 o limit) cap (String.length (whole r)) r page_start Hcap Hr
    ltac:(lia)) as (r' & -> & _ & _).
  destruct (page_lines_read budget o (sat_add_u64 o limit) (file_lines cap (whole r)) page_start) as [_ Hpos].
  intros Hst H0. destruct (String.eqb_spec (whole r) "") as [|Hne]; [done|]. exfalso.
  specialize (Hpos ltac:(by rewrite (file_lines_cons _ _ Hne))).
  destruct (_ || _); [injection Hst as <- <-; lia|].
  destruct (read_line_capped cap r') as [[l|] r2]; injection Hst as <- <-; simpl in H0; lia.
Qed.

Section fs_read_facts.
Context (content_hash : list N → Z) (chunks : string → Reader) (did_you_mean : list Component → string → list string).
Hypothesis chunks_whole : ∀ s, chunks_ok (chunks s) ∧ whole (chunks s) = s.

Lemma max_line_pos : 0 < MAX_LINE_BYTES.
Proof using. unfold MAX_LINE_BYTES. lia. Qed.

Lemma read_page_some offset limit content :
  ∃ st hit_eof, read_page MAX_LINE_BYTES MAX_OUTPUT_BYTES offset limit (chunks content) = Some (st, hit_eof).
Proof using chunks_whole.
  destruct (chunks_whole content) as [Hok _]. unfold read_page.
  destruct (page_loop_spec MAX_OUTPUT_BYTES offset (sat_add_u64 offset limit) MAX_LINE_BYTES
    (String.length (whole (chunks content))) (chunks content) page_start max_line_pos Hok ltac:(lia)) as (r' & -> & _ & _).
  destruct (_ || _); [eauto|]. destruct (read_line_capped MAX_LINE_BYTES r') as [[]]; eauto.
Qed.

(** [fs_read] always answers, and a read opens the way for a write.  Whatever the
    request, the tool returns; and once it returned a file of at most
    [MAX_READ_BYTES], the guard of [fs_write] and [fs_edit] lets an agent with
    the same cache change that file as long as its bytes are those that were
    read, whatever its modification time. *)
Theorem fs_read_then_write h d t params :
  ∃ res t', fs_read_execute content_hash chunks did_you_mean h d t params = Some (res, t') ∧
    ∀ out path partial resolved meta content cache, res = Ok out →
      str_param "path" params = Some path →
      partial = bool_decide (is_Some (json_get "offset" params)) || bool_decide (is_Some (json_get "limit" params)) →
      readable did_you_mean h d t path partial = Ok (resolved, meta, content) →
      (Z.of_nat (md_len meta) ≤ MAX_READ_BYTES)%Z → read_cache t' = Some cache →
      ∀ h' d' tool mtime verb, file_state_cache tool = Some cache → read_bytes h' d' resolved = Some content →
        guard content_hash h' d' tool resolved mtime verb = Ok tt.
Proof using chunks_whole.
  unfold fs_read_execute. destruct (str_param "path" params) as [path|]; [|by eexists _, _].
  destruct (offset_param params) as [offset|]; [|by eexists _, _].
  destruct (limit_param params) as [limit|]; [|by eexists _, _].
  set (partial := _ || _). destruct (readable _ _ _ _ _ _) as [[[resolved meta] content]|] eqn:Hrd; [|by eexists _, _].
  destruct (read_page_some offset limit content) as (st & hit_eof & Hpage). rewrite Hpage.
  assert (Hguard : ∀ bytes b cache h' d' tool mtime verb,
    content_hash (bytes_of bytes) = content_hash (bytes_of content) →
    read_cache (record content_hash h t resolved meta bytes b) = Some cache →
    file_state_cache tool = Some cache → read_bytes h' d' resolved = Some content →
    guard content_hash h' d' tool resolved mtime verb = Ok tt).
  { intros bytes b cache h' d' tool mtime verb Hh Hrec Hc Hrb. unfold guard. rewrite Hc.
    destruct mtime as [m|]; [|done]. unfold record in Hrec. simpl in Hrec.
    destruct (read_cache t) as [c0|]; [|done]. injection Hrec as <-.
    unfold check_guard_with_mtime. rewrite record_read_lookup. unfold check_guard_mtime. simpl.
    case_decide; [done|]. rewrite Hrb. simpl. by rewrite decide_True by done. }
  destruct (Nat.eqb_spec (lines_read st) 0) as [H0|H0]; cbn [andb];
    [destruct (Nat.eqb (length (selected_lines st)) 0)|];
    eexists _, _; (split; [reflexivity|]);
    intros out p pr rs me co cache _ [= <-] -> Hrd' Hlen Hcache h' d' tool mtime verb Htool Hrb;
    rewrite Hrd in Hrd'; injection Hrd' as <- <- <-.
  - eapply Hguard; [|done..]. destruct (chunks_whole content) as [Hok Hw].
    pose proof (read_page_empty _ _ _ _ _ _ _ max_line_pos Hok Hpage H0) as He. rewrite Hw in He. by subst.
  - rewrite (proj2 (Z.leb_le _ _) Hlen) in Hcache. by eapply Hguard.
  - rewrite (proj2 (Z.leb_le _ _) Hlen) in Hcache. by eapply Hguard.
Qed.
End fs_read_facts.

Section read_witnesses.
Local Definition two_chunks : Reader := ["one" +:+ LF +:+ "tw"; "o" +:+ LF +:+ "three"].
Local Definition one_chunk (s : string) : Reader := if String.eqb s "" then [] else [s].

Lemma two_chunks_ok : chunks_ok two_chunks.
Proof. repeat constructor; discriminate. Qed.

Lemma read_page_exact_witness :
  map line (file_lines 100 (whole two_chunks)) = ["one"; "two"; "three"] ∧
  ∃ st hit_eof, read_page 100 16 1 2 two_chunks = Some (st, hit_eof) ∧
    selected_lines st = [(2, "two")] ∧ (negb hit_eof || byte_budget_exceeded st = true).
Proof.
  split; [vm_compute; reflexivity|].
  destruct (read_page_exact 100 16 1 2 two_chunks ltac:(lia) two_chunks_ok ltac:(lia) ltac:(vm_compute; reflexivity))
    as (st & hit_eof & Hr & Hsel & _ & _ & _ & _ & Hmore & _).
  exists st, hit_eof. split; [exact Hr|].
  assert (Hn : length (selected_lines st) = 1) by (vm_compute in Hr; injection Hr as <- <-; reflexivity).
  rewrite Hn in *. split; [rewrite Hsel; vm_compute; reflexivity|]. apply Hmore. vm_compute. lia.
Defined.

Lemma line_read_reference_witness :
  head (file_lines 100 (whole two_chunks)) = Some (whole_line "one") ∧
  (read_line_capped 100 two_chunks).1 = head (file_lines 100 (whole two_chunks)).
Proof.
  split; [vm_compute; reflexivity|].
  pose proof (line_read_reference 100 two_chunks ltac:(lia) two_chunks_ok) as H.
  destruct (read_line_capped 100 two_chunks) as [res r']. exact (proj1 H).
Defined.

Lemma full_line_marked_witness :
  ∃ x, (read_line_capped 4 ["abcd"]).1 = Some x ∧ truncated x = true ∧
    line x = "abcd[line truncated to 4 bytes; 0 bytes discarded]".
Proof. apply (full_line_marked 4 "abcd" ltac:(lia) eq_refl eq_refl). Defined.

Lemma one_chunk_whole s : chunks_ok (one_chunk s) ∧ whole (one_chunk s) = s.
Proof.
  unfold one_chunk. destruct (String.eqb_spec s "") as [->|Hs]; [split; [constructor|done]|]. split; [|done].
  by constructor.
Qed.

Lemma fs_read_then_write_witness :
  let t := {| read_root := Some "/ws"; extra_read_roots := []; read_cache := Some (cache_new 4) |} in
  let h := {| os_error := ""; can_read := true; can_mkdir := true; can_write := true; wall_clock := 9; instant_now := 2 |} in
  let d := {| nodes := <[["ws"] := Directory]> {[ ["ws"; "a.txt"] := File "hello" (Some 3%Z) ]}; cwd := [] |} in
  let hash := λ l : list N, Z.of_nat (length l) in
  readable (λ _ _, []) h d t "a.txt" false =
    Ok (path_of ["ws"; "a.txt"], {| md_is_file := true; md_len := 5; md_modified := Some 3%Z |}, "hello") ∧
  ∃ res t', fs_read_execute hash one_chunk (λ _ _, []) h d t (JObj [("path", JStr "a.txt")]) = Some (res, t').
Proof.
  intros t h d hash. split; [vm_compute; reflexivity|].
  destruct (fs_read_then_write hash one_chunk (λ _ _, []) one_chunk_whole h d t (JObj [("path", JStr "a.txt")]))
    as (res & t' & H & _).
  by exists res, t'.
Defined.
End read_witnesses.
