(* ===== verification/ShellExec.v ===== *)
(** What stands between the model and a shell process:
    [alms-sandbox/src/shell/] ([permissions.rs], [security.rs], [pathnorm.rs],
    the checks of [mod.rs] and [exec.rs]) and [ShellPermissions] of
    [alms-core/src/config/types.rs].

    The [regex] crate is the class [RegexCrate]; [std::fs::canonicalize] is an
    argument, because the file system changes between calls.  Paths are text
    with the Unix components of [std::path]; the rewriting of Windows spellings
    is modelled as the text transform it is.  The build is the Linux one.  Whether
    the prepared process starts, Landlock's [pre_exec] included, is the operating
    system's answer, a field of [Host]; running it, its output limits and the
    table of background tasks are not modelled. *)
From S2P Require Import Prelude Json ShellParse ShellRules FsPath.

(** * Permissions *)

Class RegexCrate := {
  Regex : Type;
  regex_new : string → option Regex;
  is_match : Regex → string → bool;
}.

Record ShellPermissions := {
  allowed_commands : list string;
  denied_commands : list string;
  classifier_overrides : list string;
}.

Definition merge_with (self other : ShellPermissions) : ShellPermissions :=
  {| allowed_commands :=
       match allowed_commands other with
       | [] => allowed_commands self
       | _ => allowed_commands other
       end;
     denied_commands := denied_commands self ++ denied_commands other;
     classifier_overrides := classifier_overrides self ++ classifier_overrides other |}.

Section permissions.
Context `{RegexCrate}.

Record CompiledPattern := { cp_source : string; cp_regex : Regex }.

Record CompiledPermissions := {
  cp_allowed : list CompiledPattern;
  cp_denied : list CompiledPattern;
  cp_overrides : list CompiledPattern;
}.

Definition compile_pattern (source : string) : option CompiledPattern :=
  if String.eqb (trim source) "" then None
  else match regex_new source with
       | Some regex => Some {| cp_source := source; cp_regex := regex |}
       | None => None
       end.

Definition compile_patterns (patterns : list string) : list CompiledPattern :=
  omap compile_pattern patterns.

Definition compile (p : ShellPermissions) : CompiledPermissions :=
  {| cp_allowed := compile_patterns (allowed_commands p);
     cp_denied := compile_patterns (denied_commands p);
     cp_overrides := compile_patterns (classifier_overrides p) |}.

Definition pattern_matches (command : string) (p : CompiledPattern) : bool :=
  is_match (cp_regex p) command.

Definition is_nil {A} (l : list A) : bool := match l with [] => true | _ => false end.

Definition permissions_is_empty (c : CompiledPermissions) : bool :=
  is_nil (cp_allowed c) && is_nil (cp_denied c).

Definition check_command (c : CompiledPermissions) (command : string) : Result unit SandboxError :=
  if permissions_is_empty c then Ok tt
  else if existsb (pattern_matches command) (cp_denied c) then
    Err (SandboxViolation "Command blocked by security policy")
  else if negb (is_nil (cp_allowed c))
          && negb (existsb (pattern_matches command) (cp_allowed c)) then
    Err (SandboxViolation
           "Command not permitted: does not match any allowed command pattern")
  else Ok tt.

Definition classifier_override_matches (c : CompiledPermissions) (command : string) : bool :=
  existsb (pattern_matches command) (cp_overrides c).

Definition matching_classifier_override (c : CompiledPermissions) (command : string)
    : option string :=
  option_map cp_source (List.find (pattern_matches command) (cp_overrides c)).
End permissions.

(** * Denied commands and secret variables *)

Definition DENIED_COMMAND_PATTERNS : list string :=
  ["rm -rf /"; "rm -rf /*"; "mkfs."; "dd if="; "> /dev/sda"; "chmod -R 777 /"; ":(){ :|:& };:"].

Definition command_matches_denylist (command : string) : option string :=
  let lower := to_ascii_lowercase command in
  List.find (λ pattern, contains lower pattern) DENIED_COMMAND_PATTERNS.

Definition SECRET_ENV_VARS : list string :=
  ["OPENROUTER_API_KEY"; "OPENAI_API_KEY"; "ANTHROPIC_API_KEY"; "TELEGRAM_BOT_TOKEN";
   "ALMS_MASTER_KEY"; "ALMS_AUTH_TOKEN"].

Definition is_secret_env_var (name : string) : bool :=
  existsb (λ s, eq_ignore_ascii_case s name) SECRET_ENV_VARS.

(** On Unix. *)
Definition platform_critical_env_vars : list string := ["PATH"].

Abbreviation Env := (gmap string string).

(** The variables of a tool call over the defaults, in [ShellTool::execute]. *)
Definition merge_env_var (env : Env) (kv : string * json) : Env :=
  if is_secret_env_var kv.1 then env
  else match as_str kv.2 with Some v => <[kv.1 := v]> env | None => env end.

Definition merged_env (default_env : Env) (params : json) : Env :=
  match json_get "env" params with
  | Some (JObj members) => foldl merge_env_var default_env members
  | _ => default_env
  end.

(** [configure_env]: the variables the child gets, of the daemon's own
    [parent] environment and [default_env]. *)
Definition configure_env (parent default_env : Env) : Env :=
  filter (λ kv, is_secret_env_var kv.1 = false) default_env
  ∪ filter (λ kv, kv.1 ∈ platform_critical_env_vars) parent.

(** * Paths *)

Fixpoint slashes_to_backslashes (s : string) : string :=
  match s with
  | EmptyString => EmptyString
  | String c s' =>
      String (if Ascii.eqb c "/"%char then "\"%char else c) (slashes_to_backslashes s')
  end.

Definition msys_to_windows (raw : string) : option string :=
  if char_in "\"%char raw then None
  else match strip_prefix "/" raw with
  | None => None
  | Some rest =>
      if first_is rest "/"%char then None
      else
        let rest := match strip_prefix "cygdrive/" rest with Some r => r | None => rest end in
        let '(drive, tl) := match split_once "/"%char rest with
                            | Some (d, t) => (d, t) | None => (rest, "") end in
        match drive with
        | String letter EmptyString =>
            if is_ascii_alphabetic letter
            then Some (String (ascii_upper letter) (":\" +:+ slashes_to_backslashes tl))
            else None
        | _ => None
        end
  end.

Definition strip_verbatim_prefix (raw : string) : string :=
  match strip_prefix "\\?\" raw with
  | None => raw
  | Some rest =>
      match rest with
      | String a (String b _) =>
          if is_ascii_alphabetic a && Ascii.eqb b ":"%char then rest else raw
      | _ => raw
      end
  end.

Record Normalised := { n_path : string; n_resolved : bool }.

Definition normalise (canonicalize : string → option string) (path : string) : Normalised :=
  match canonicalize path with
  | Some canonical => {| n_path := strip_verbatim_prefix canonical; n_resolved := true |}
  | None => {| n_path := path; n_resolved := false |}
  end.

(** Off Windows nothing is rewritten. *)
Definition resolve_reported := normalise.

Definition component_text (c : Component) : string :=
  match c with RootDir => "/" | CurDir => "." | ParentDir => ".." | Normal s => s end.

Definition components_eq (fold_case : bool) (a b : Component) : bool :=
  if fold_case then eq_ignore_ascii_case (component_text a) (component_text b)
  else bool_decide (a = b).

Definition has_unresolved_parent_dir (candidate : string) : bool :=
  existsb (λ c, bool_decide (c = ParentDir)) (components candidate).

Fixpoint zip_all {A} (f : A → A → bool) (l k : list A) : bool :=
  match l, k with
  | a :: l', b :: k' => f a b && zip_all f l' k'
  | _, _ => true
  end.

Definition is_within_impl (root candidate : string) (fold_case : bool) : bool :=
  if has_unresolved_parent_dir candidate then false
  else
    let root_components := components root in
    let candidate_components := components candidate in
    if Nat.ltb (length candidate_components) (length root_components) then false
    else zip_all (components_eq fold_case) root_components candidate_components.

Definition is_within (root candidate : string) : bool := is_within_impl root candidate false.

(** * The working directory *)

Inductive CwdRejection := OutsideRoot | NotVerifiable.

Definition check_cwd (canonicalize : string → option string) (cwd sandbox_root : string)
    : Result string CwdRejection :=
  let root := normalise canonicalize sandbox_root in
  let candidate := resolve_reported canonicalize cwd in
  if is_within (n_path root) (n_path candidate) then Ok (n_path candidate)
  else Err (if n_resolved root && n_resolved candidate then OutsideRoot else NotVerifiable).

Definition validate_cwd (canonicalize : string → option string) (cwd sandbox_root : string)
    : Result string SandboxError :=
  match check_cwd canonicalize cwd sandbox_root with
  | Ok p => Ok p
  | Err reason =>
      let verdict := match reason with
                     | OutsideRoot => "is outside"
                     | NotVerifiable => "could not be confirmed inside"
                     end in
      Err (SandboxViolation ("Working directory '" +:+ cwd +:+ "' " +:+ verdict +:+
                             " sandbox root '" +:+ sandbox_root +:+ "'"))
  end.

Record CwdRevert := { cr_attempted : string; cr_kept : string; cr_reason : CwdRejection }.

(** ** The marker

    The wrapped command prints a line with the marker and then its directory. *)

(** [rposition]: the last element that satisfies the test. *)
Fixpoint rposition {A} (f : A → bool) (l : list A) : option nat :=
  match l with
  | [] => None
  | x :: l' =>
      match rposition f l' with
      | Some i => Some (S i)
      | None => if f x then Some 0 else None
      end
  end.

Definition wrap_command_with_pwd_marker (command pwd_marker : string) : string :=
  command +:+ "; __alms_ec=$?; echo; echo '" +:+ pwd_marker +:+ "'; pwd; exit $__alms_ec".

Definition extract_cwd_from_output (stdout pwd_marker : string) : option string :=
  let ls := lines stdout in
  match rposition (λ line, String.eqb (trim line) pwd_marker) ls with
  | None => None
  | Some marker_idx =>
      find_map (λ line, let trimmed := trim line in
                        if String.eqb trimmed "" then None else Some trimmed)
        (drop (marker_idx + 1) ls)
  end.

Definition is_blank (c : ascii) : bool := Ascii.eqb c " "%char || Ascii.eqb c (ascii_of_N 9).

Fixpoint trim_start_if (f : ascii → bool) (s : string) : string :=
  match s with
  | String c s' => if f c then trim_start_if f s' else s
  | EmptyString => EmptyString
  end.

Definition trim_ascii_whitespace (s : string) : string :=
  trim_end_if is_blank (trim_start_if is_blank s).

(** Where each line starts. *)
Definition raw_length (l : string * bool) : nat := String.length l.1 + (if l.2 then 1 else 0).

Fixpoint line_starts (ls : list (string * bool)) (start : nat) : list nat :=
  match ls with
  | [] => []
  | l :: ls' => start :: line_starts ls' (start + raw_length l)
  end.

Definition byte_is (s : string) (i : nat) (c : ascii) : bool :=
  match String.get i s with Some d => Ascii.eqb d c | None => false end.

Definition strip_pwd_marker_bytes (stdout pwd_marker : string) : string :=
  let ls := raw_lines stdout in
  match rposition (λ l, String.eqb (trim_ascii_whitespace (line_text l)) pwd_marker) ls with
  | None => stdout
  | Some marker_idx =>
      let end_byte := nth marker_idx (line_starts ls 0) 0 in
      let end_byte :=
        if Nat.ltb 0 end_byte && byte_is stdout (end_byte - 1) lf then
          let e := end_byte - 1 in
          if Nat.ltb 0 e && byte_is stdout (e - 1) cr then e - 1 else e
        else end_byte in
      str_take end_byte stdout
  end.

(** The directory after a command whose decoded output is [stdout]. *)
Definition update_cwd (canonicalize : string → option string) (unrestricted : bool)
    (sandbox_root : option string) (pwd_marker stdout cwd : string)
    : string * option CwdRevert :=
  match extract_cwd_from_output stdout pwd_marker with
  | None => (cwd, None)
  | Some new_cwd =>
      match (if unrestricted then None else sandbox_root) with
      | Some root =>
          match check_cwd canonicalize new_cwd root with
          | Ok resolved => (resolved, None)
          | Err reason =>
              (cwd, Some {| cr_attempted := new_cwd; cr_kept := cwd; cr_reason := reason |})
          end
      | None => (n_path (resolve_reported canonicalize new_cwd), None)
      end
  end.

(** * Before the process starts *)

Definition MAX_TIMEOUT_MS : Z := 600 * 1000.
Definition DEFAULT_TIMEOUT_MS : Z := 120 * 1000.

Definition as_u64 (j : json) : option Z :=
  match j with JNum n => if (0 <=? n)%Z && (n <=? u64_max)%Z then Some n else None | _ => None end.

Record ShellInput := {
  si_command : string;
  si_description : option string;
  si_timeout_ms : Z;
  si_run_in_background : bool;
}.

Definition param {A} (k : string) (f : json → option A) (params : json) : option A :=
  match json_get k params with Some v => f v | None => None end.

(** The product wraps, as it does in a release build. *)
Definition timeout_of (params : json) : Z :=
  match param "timeout_ms" as_u64 params with
  | Some ms => Z.min ms MAX_TIMEOUT_MS
  | None =>
      match param "timeout_secs" as_u64 params with
      | Some secs => Z.min ((secs * 1000) mod 2 ^ 64) MAX_TIMEOUT_MS
      | None => DEFAULT_TIMEOUT_MS
      end
  end.

Definition parse_input (params : json) : Result ShellInput SandboxError :=
  match param "command" as_str params with
  | None => Err (InvalidParameters "'command' parameter is required")
  | Some command =>
      if String.eqb (trim command) "" then Err (InvalidParameters "'command' must not be empty")
      else Ok {| si_command := command;
                 si_description := param "description" as_str params;
                 si_timeout_ms := timeout_of params;
                 si_run_in_background :=
                   match param "run_in_background" as_bool params with
                   | Some b => b | None => false end |}
  end.

Section tool.
Context `{RegexCrate}.

(** The settings of a tool; its directory is an argument of what uses it, and
    the spill policy only concerns output. *)
Record ShellTool := {
  sh_sandbox_root : option string;
  sh_unrestricted : bool;
  sh_default_env : Env;
  sh_permissions : CompiledPermissions;
  sh_classification_mode : ClassificationMode;
  sh_pwd_marker : string;
}.

(** Steps 1 to 3 of the defence chain in [ShellTool::execute]. *)
Definition defence_chain (t : ShellTool) (command : string) : Result unit SandboxError :=
  let? _ := check_command (sh_permissions t) command in
  match matching_classifier_override (sh_permissions t) command with
  | Some _ => Ok tt
  | None => let? _ := enforce command (sh_classification_mode t) in Ok tt
  end.

(** [ShellTool::execute] after its [check_task] branch, up to the start of the
    command: the parsed input and the variables for it. *)
Definition execute_prepare (t : ShellTool) (params : json)
    : Result (ShellInput * Env) SandboxError :=
  let? input := parse_input params in
  let? _ := defence_chain t (si_command input) in
  Ok (input, merged_env (sh_default_env t) params).

(** ** The process *)

Inductive ShellEngine := SystemBash | Builtin.

(** A process to start: its program and arguments, what is written to its input,
    its directory and variables, and the root and readable paths Landlock confines
    it to. *)
Record Spawn := {
  sp_program : string;
  sp_args : list string;
  sp_stdin : option string;
  sp_cwd : string;
  sp_env : Env;
  sp_landlock : option (string * list string);
}.

(** What the tool asks of the daemon's host: [std::fs::canonicalize], [is_file], the
    daemon's variables and executable, the operator's settings, and the answer of
    [Command::spawn], an error also when the child cannot be confined. *)
Record Host := {
  h_canonicalize : string → option string;
  h_is_file : string → bool;
  h_env : Env;
  h_current_exe : Result string string;
  h_shell_path : option string;
  h_engine : ShellEngine;
  h_spawn : Spawn → Result unit string;
}.

Definition is_under_windows_system32 (path : string) : bool :=
  let normalized := slashes_to_backslashes (to_ascii_lowercase path) in
  contains normalized "\system32\" || contains normalized "\sysnative\"
  || ends_with normalized "\system32" || ends_with normalized "\sysnative".

(** Off Windows there are no candidates but [bash] itself. *)
Definition resolve_shell_binary (h : Host) : Result string string :=
  match h_shell_path h with
  | Some p =>
      if is_under_windows_system32 p then
        Err ("[tools].shell_path points at '" +:+ p +:+ "', which is under System32/Sysnative — " +:+
             "that bash.exe is the WSL launcher, not a shell. Point shell_path at a " +:+
             "real shell executable (e.g. Git Bash's <GitRoot>\bin\bash.exe).")
      else if negb (h_is_file h p) then
        Err ("[tools].shell_path points at '" +:+ p +:+ "', which does not exist or is not a " +:+
             "file. Fix the path in alms.toml, or remove the knob to use built-in " +:+
             "discovery.")
      else Ok p
  | None => Ok "bash"
  end.

Definition system_read_paths : list string :=
  ["/usr"; "/bin"; "/lib"; "/lib64"; "/etc/ld.so.cache"; "/etc/ld.so.conf"; "/etc/ld.so.conf.d"; "/etc/alternatives";
   "/etc/nsswitch.conf"; "/etc/resolv.conf"; "/etc/localtime"; "/dev/null"; "/dev/urandom"; "/dev/zero"; "/proc/self"].

(** The root a tool is confined to. *)
Definition containment (t : ShellTool) : option string := if sh_unrestricted t then None else sh_sandbox_root t.

Definition apply_landlock_sandbox (h : Host) (root : string) (extra_exec_paths : list string) : string * list string :=
  (match h_canonicalize h root with Some canonical => canonical | None => root end, system_read_paths ++ extra_exec_paths).

(** [build_command], but for the variables. *)
Definition build_command (h : Host) (t : ShellTool) (command cwd : string) : Result (Env → Spawn) SandboxError :=
  let wrapped := wrap_command_with_pwd_marker command (sh_pwd_marker t) in
  let prepared program args stdin extra env :=
    {| sp_program := program; sp_args := args; sp_stdin := stdin; sp_cwd := cwd; sp_env := env;
       sp_landlock := option_map (λ root, apply_landlock_sandbox h root extra) (containment t) |} in
  match h_engine h with
  | SystemBash =>
      match resolve_shell_binary h with
      | Ok bash_bin => Ok (prepared bash_bin ["-c"; wrapped] None [])
      | Err e => Err (Io e)
      end
  | Builtin =>
      match h_current_exe h with
      | Ok exe => Ok (prepared exe ["shell-host"] (Some wrapped) [exe])
      | Err e => Err (Io ("shell_engine = " +:+ String (ascii_of_N 34) "builtin" +:+ String (ascii_of_N 34) ": cannot determine the current " +:+
                          "executable to re-exec as `alms shell-host`: " +:+ e))
      end
  end.

(** [execute_command] up to the start of the process. *)
Definition execute_command_start (h : Host) (t : ShellTool) (cwd command : string) (env : Env) : Result Spawn SandboxError :=
  if String.eqb (trim command) "" then Err (InvalidParameters "'command' must not be empty")
  else match command_matches_denylist command with
  | Some pattern =>
      Err (SandboxViolation ("Command matches denied pattern '" +:+ pattern +:+ "'"))
  | None =>
      let? _ := match containment t with
                | Some root => validate_cwd (h_canonicalize h) cwd root
                | None => Ok cwd
                end in
      let? cmd := build_command h t command cwd in
      let sp := cmd (configure_env (h_env h) env) in
      match h_spawn h sp with
      | Ok _ => Ok sp
      | Err e => Err (Io ("Failed to spawn command: " +:+ e))
      end
  end.

(** What a call of the tool comes to: a look at a background task, a command for a
    task of its own (which then goes through [execute_command_start]), or a process. *)
Inductive ShellCall :=
| TaskChecked (task_id : string)
| TaskSubmitted (input : ShellInput) (env : Env)
| Started (sp : Spawn).

(** [ShellTool::execute] up to there. *)
Definition execute_start (h : Host) (t : ShellTool) (cwd : string) (params : json) : Result ShellCall SandboxError :=
  match param "check_task" as_str params with
  | Some task_id => Ok (TaskChecked task_id)
  | None =>
      let? prepared := execute_prepare t params in
      if si_run_in_background prepared.1 then Ok (TaskSubmitted prepared.1 prepared.2)
      else
        let? sp := execute_command_start h t cwd (si_command prepared.1) prepared.2 in
        Ok (Started sp)
  end.
End tool.

(** * Facts *)

Lemma contains_app p a b : contains (a +:+ p +:+ b) p = true.
Proof.
  induction a as [|c a IH]; simpl.
  - destruct (p +:+ b) as [|c s] eqn:E; cbn [contains]; rewrite <-E, starts_with_app; done.
  - by rewrite IH, orb_true_r.
Qed.

Lemma contains_char s p c : contains s p = true → char_in c p = true → char_in c s = true.
Proof.
  intros H Hc. induction s as [|a s IH]; cbn [contains] in H.
  - rewrite orb_false_r in H. apply starts_with_true in H as [r E].
    destruct p; [done|discriminate].
  - apply orb_true_iff in H as [H|H].
    + apply starts_with_true in H as [r ->]. by rewrite char_in_app, Hc.
    + simpl. by rewrite (IH H), orb_true_r.
Qed.

Lemma lowercase_no_upper s c : is_ascii_upper c = true → char_in c (to_ascii_lowercase s) = false.
Proof.
  intros Hc. induction s as [|a s IH]; [done|]. simpl. rewrite IH, orb_false_r.
  destruct (Ascii.eqb_spec (ascii_lower a) c) as [<-|]; [|done].
  destruct a as [[] [] [] [] [] [] [] []]; vm_compute in Hc; discriminate.
Qed.

(** ** Containment *)

Lemma zip_all_eq l k :
  length l ≤ length k → (zip_all (components_eq false) l k = true ↔ (l `prefix_of` k)).
Proof.
  revert k; induction l as [|a l IH]; intros k Hl; simpl.
  - split; [intros _; apply prefix_nil|done].
  - destruct k as [|b k]; [simpl in Hl; lia|]. simpl in Hl. unfold components_eq at 1.
    rewrite andb_true_iff, bool_decide_eq_true, IH by lia. split.
    + intros [-> H]. by apply prefix_cons.
    + intros H. split; [by apply prefix_cons_inv_1 in H|by apply prefix_cons_inv_2 in H].
Qed.

Lemma is_within_iff root candidate :
  is_within root candidate = true ↔
  (ParentDir ∉ components candidate) ∧ prefix (components root) (components candidate).
Proof.
  unfold is_within, is_within_impl, has_unresolved_parent_dir.
  destruct (existsb _ (components candidate)) eqn:E.
  - split; [done|]. intros [Hn _]. exfalso. apply Hn.
    apply existsb_exists in E as (c & Hc & ->%bool_decide_eq_true). by apply list_elem_of_In.
  - assert (ParentDir ∉ components candidate) as Hn.
    { intros H. apply list_elem_of_In in H. apply not_true_iff_false in E. apply E.
      apply existsb_exists. by exists ParentDir. }
    destruct (Nat.ltb_spec (length (components candidate)) (length (components root))).
    + split; [done|]. intros [_ H']. apply prefix_length in H'. lia.
    + rewrite zip_all_eq by done. tauto.
Qed.

(** Where a path leads from [base], a stack with the deepest name first. *)
Definition visit (base : list string) (c : Component) : list string :=
  match c with
  | RootDir => []
  | CurDir => base
  | ParentDir => tail base
  | Normal s => s :: base
  end.

Definition location (p : string) : list string := foldl visit [] (components p).

Definition is_normal (c : Component) : Prop := ∃ s, c = Normal s.

Lemma component_of_tail part c : c ∈ component_of part → c = ParentDir ∨ is_normal c.
Proof.
  unfold component_of. repeat case_match; rewrite ?elem_of_nil, ?list_elem_of_singleton; try done.
  - by left.
  - intros ->. right. by eexists.
Qed.

Lemma components_rooted p :
  first_is p "/"%char = true →
  ∃ cs, components p = RootDir :: cs ∧ ∀ c, c ∈ cs → c = ParentDir ∨ is_normal c.
Proof.
  intros Hp. unfold components. rewrite Hp. eexists. split; [reflexivity|].
  intros c Hc. apply list_elem_of_In, in_flat_map in Hc as (part & _ & Hc).
  by apply (component_of_tail part), list_elem_of_In.
Qed.

Lemma visit_normals cs base :
  (∀ c, c ∈ cs → is_normal c) → ∃ names, foldl visit base cs = names ++ base.
Proof.
  revert base; induction cs as [|c cs IH]; intros base H; [by exists []|].
  destruct (H c ltac:(constructor)) as [s ->]. simpl.
  destruct (IH (s :: base)) as [names E].
  { intros c' Hc'. apply H. by constructor. }
  exists (names ++ [s]). by rewrite E, <-app_assoc.
Qed.

Lemma within_location root candidate :
  first_is root "/"%char = true → is_within root candidate = true →
  ∃ names, location candidate = names ++ location root.
Proof.
  intros Hr Hw. apply is_within_iff in Hw as [Hn [rest Hrest]]. unfold location.
  rewrite Hrest, foldl_app. apply visit_normals. intros c Hc.
  destruct (components_rooted root Hr) as (cs & Ecs & _).
  assert (∃ cs', components candidate = RootDir :: cs' ∧ c ∈ cs') as (cs' & E' & Hin).
  { rewrite Hrest, Ecs. simpl. eexists. split; [reflexivity|]. apply elem_of_app. by right. }
  assert (first_is candidate "/"%char = true) as Hcand.
  { unfold components in E'. destruct (first_is candidate "/"%char); [done|].
    assert (RootDir ∈ flat_map component_of (split_slash candidate)) as H.
    { destruct (split_slash candidate) as [|part ps] eqn:Eq; [done|].
      destruct (String.eqb part "."); simpl in E'; [done|]. simpl. rewrite E'. constructor. }
    apply list_elem_of_In, in_flat_map in H as (part & _ & H).
    apply list_elem_of_In, component_of_tail in H as [?|[? ?]]; done. }
  destruct (components_rooted candidate Hcand) as (cs2 & E2 & Htl).
  assert (cs2 = cs') as -> by congruence.
  destruct (Htl c Hin) as [->|]; [|done]. exfalso. apply Hn. rewrite E'. by constructor.
Qed.

(** ** Lines *)

Definition total_length (ls : list (string * bool)) : nat := foldr (λ l n, raw_length l + n) 0 ls.

Lemma raw_lines_length s : total_length (raw_lines s) = String.length s.
Proof.
  induction s as [|c s IH]; [done|]. cbn [raw_lines]. destruct (Ascii.eqb c lf).
  - simpl. by rewrite IH.
  - simpl String.length. rewrite <-IH. destruct (raw_lines s) as [|[l t] ls]; simpl; [done|].
    unfold raw_length. simpl. lia.
Qed.

Lemma line_starts_nth u x r start :
  nth (length u) (line_starts (u ++ x :: r) start) 0 = start + total_length u.
Proof.
  revert start; induction u as [|l u IH]; intros start; simpl; [lia|]. rewrite IH. lia.
Qed.

Lemma rposition_last {A} (f : A → bool) l1 x l2 :
  f x = true → forallb (λ y, negb (f y)) l2 = true → rposition f (l1 ++ x :: l2) = Some (length l1).
Proof.
  intros Hx H2.
  assert (rposition f l2 = None) as E.
  { induction l2 as [|y l2 IH]; [done|]. simpl in *.
    apply andb_true_iff in H2 as [Hy H2]. rewrite (IH H2). by apply negb_true_iff in Hy as ->. }
  induction l1 as [|y l1 IH]; simpl; [by rewrite E, Hx|by rewrite IH].
Qed.

Lemma get_app a c b : String.get (String.length a) (a +:+ String c b) = Some c.
Proof. induction a; simpl; done. Qed.

Lemma str_snoc s : s = "" ∨ ∃ u d, s = u +:+ ch d.
Proof.
  induction s as [|c s [->|(u & d & ->)]]; [by left| |]; right.
  - by exists "", c.
  - by exists (String c u), d.
Qed.

Lemma strip_cr_snoc u d : strip_cr (u +:+ ch d) = if Ascii.eqb d cr then u else u +:+ ch d.
Proof.
  induction u as [|c u IH]; simpl; [done|]. rewrite IH.
  destruct (u +:+ ch d) eqn:E; [by destruct u|]. by destruct (Ascii.eqb d cr).
Qed.

(** The nonce of a tool: letters, digits and underscores. *)
Definition marker_ok (m : string) : bool := forall_chars ident_char m && negb (String.eqb m "").

Lemma ident_char_plain c :
  ident_char c = true → (N_of_ascii c <? 128)%N = true ∧ ws1 (N_of_ascii c) = false ∧
  is_blank c = false ∧ Ascii.eqb c lf = false ∧ Ascii.eqb c cr = false ∧ Ascii.eqb c "/"%char = false.
Proof.
  destruct c as [[] [] [] [] [] [] [] []]; vm_compute; intros H; (discriminate || split_and!; done).
Qed.

Lemma marker_trim m : marker_ok m = true → trim m = m.
Proof.
  intros [Hm Hne]%andb_true_iff. destruct (str_snoc m) as [->|(u & d & ->)]; [done|].
  rewrite forall_chars_app in Hm. apply andb_true_iff in Hm as [Hu Hd]. simpl in Hd.
  rewrite andb_true_r in Hd. destruct (ident_char_plain d Hd) as (Hd1 & Hd2 & _).
  unfold trim. rewrite (trim_bytes_plain _ (N_of_ascii d) (bytes_of u));
    [apply of_bytes_of| |by rewrite bytes_of_app|done..].
  destruct u as [|a u]; simpl in *; eexists _, _; split_and!; try done.
  all: apply andb_true_iff in Hu as [Hu _]; by apply ident_char_plain.
Qed.

(** What the wrapped command prints after [user]. *)
Definition wrapped_output (user marker cwd : string) : string :=
  user +:+ String lf (marker +:+ String lf (cwd +:+ ch lf)).

Lemma ident_char_in m c : forall_chars ident_char m = true → ident_char c = false → char_in c m = false.
Proof. apply forall_chars_not_in. Qed.

Lemma wrapped_lines user marker cwd :
  char_in lf marker = false → char_in lf cwd = false →
  raw_lines (wrapped_output user marker cwd) =
  raw_lines (user +:+ ch lf) ++ [(marker, true); (cwd, true)].
Proof.
  intros Hm Hc. unfold wrapped_output.
  rewrite raw_lines_app, raw_lines_app, (raw_lines_line _ Hm), (raw_lines_line _ Hc). done.
Qed.

Lemma strip_cr_absent s : char_in cr s = false → strip_cr s = s.
Proof.
  destruct (str_snoc s) as [->|(u & d & ->)]; [done|]. rewrite char_in_app, strip_cr_snoc.
  intros [_ H]%orb_false_iff. simpl in H. rewrite orb_false_r in H. by rewrite H.
Qed.

Lemma trim_end_slash f s : f "/"%char = false → first_is (trim_end_if f (String "/" s)) "/"%char = true.
Proof. intros H. simpl. by rewrite H. Qed.

Lemma blank_trim_marker m : marker_ok m = true → trim_ascii_whitespace m = m.
Proof.
  intros [Hm Hne]%andb_true_iff. unfold trim_ascii_whitespace.
  assert (trim_start_if is_blank m = m) as ->.
  { destruct m as [|c m]; [done|]. simpl in *. apply andb_true_iff in Hm as [Hc _].
    destruct (ident_char_plain c Hc) as (_ & _ & Hb & _). by rewrite Hb. }
  clear Hne. assert (∀ s, forall_chars ident_char s = true → s ≠ "" → forall_chars is_blank s = false) as Hf.
  { intros [|c s] H ?; [done|]. simpl in *. apply andb_true_iff in H as [Hc _].
    destruct (ident_char_plain c Hc) as (_ & _ & Hb & _). by rewrite Hb. }
  induction m as [|c m IH]; [done|]. cbn [trim_end_if]. rewrite (Hf _ Hm) by done.
  simpl in Hm. apply andb_true_iff in Hm as [_ Hm]. by rewrite IH.
Qed.

(** A printed absolute directory is never taken for the marker. *)
Lemma blank_trim_cwd cwd marker :
  first_is cwd "/"%char = true → marker_ok marker = true →
  String.eqb (trim_ascii_whitespace cwd) marker = false.
Proof.
  intros Hc [Hm Hne]%andb_true_iff. apply String.eqb_neq. intros E.
  destruct cwd as [|c cwd]; [done|]. simpl in Hc. apply Ascii.eqb_eq in Hc as ->.
  pose proof (trim_end_slash is_blank cwd eq_refl) as H.
  change (trim_ascii_whitespace (String "/" cwd)) with (trim_end_if is_blank (String "/" cwd)) in E.
  rewrite E in H. destruct marker as [|d m]; [done|]. simpl in H, Hm.
  apply Ascii.eqb_eq in H as ->. done.
Qed.

Lemma strip_wrapped user marker cwd :
  marker_ok marker = true → first_is cwd "/"%char = true →
  char_in lf cwd = false → char_in cr cwd = false →
  strip_pwd_marker_bytes (wrapped_output user marker cwd) marker = strip_cr user.
Proof.
  intros Hm Hc Hlf Hcr. pose proof Hm as Hm'. apply andb_true_iff in Hm' as [Hid _].
  unfold strip_pwd_marker_bytes.
  rewrite (wrapped_lines user marker cwd) by (done || by apply ident_char_in).
  rewrite rposition_last.
  - rewrite line_starts_nth, raw_lines_length.
    replace (0 + String.length (user +:+ ch lf)) with (S (String.length user))
      by (rewrite str_length_app; simpl; lia).
    cbn [Nat.ltb Nat.leb]. rewrite Nat.sub_1_r. cbn [Nat.pred].
    assert (byte_is (wrapped_output user marker cwd) (String.length user) lf = true) as ->.
    { unfold byte_is, wrapped_output. by rewrite get_app. }
    cbn [andb]. unfold wrapped_output.
    destruct (str_snoc user) as [->|(u & d & ->)]; [done|].
    rewrite strip_cr_snoc. set (b := String lf _).
    assert (String.length (u +:+ ch d) = S (String.length u)) as ->.
    { rewrite str_length_app. simpl. lia. }
    cbn [Nat.ltb Nat.leb]. rewrite Nat.sub_1_r. cbn [Nat.pred].
    assert (byte_is ((u +:+ ch d) +:+ b) (String.length u) cr = Ascii.eqb d cr) as ->.
    { unfold byte_is. rewrite string_app_assoc. simpl. by rewrite get_app. }
    cbn [andb]. destruct (Ascii.eqb d cr).
    + rewrite string_app_assoc. apply str_take_app.
    + replace (S (String.length u)) with (String.length (u +:+ ch d))
        by (rewrite str_length_app; simpl; lia). apply str_take_app.
  - unfold line_text. simpl. rewrite strip_cr_absent, blank_trim_marker by (done || by apply ident_char_in).
    apply String.eqb_refl.
  - unfold line_text. simpl. rewrite (strip_cr_absent cwd Hcr), (blank_trim_cwd cwd marker Hc Hm). done.
Qed.

Lemma extract_wrapped user marker cwd :
  marker_ok marker = true → first_is cwd "/"%char = true → trim cwd = cwd →
  char_in lf cwd = false → char_in cr cwd = false →
  extract_cwd_from_output (wrapped_output user marker cwd) marker = Some cwd.
Proof.
  intros Hm Hc Htrim Hlf Hcr. pose proof Hm as Hm'. apply andb_true_iff in Hm' as [Hid Hne].
  assert (cwd ≠ marker) as Hdiff.
  { intros ->. destruct marker as [|d m]; [done|]. simpl in *. apply Ascii.eqb_eq in Hc as ->. done. }
  unfold extract_cwd_from_output, lines.
  rewrite (wrapped_lines user marker cwd) by (done || by apply ident_char_in).
  rewrite map_app. cbn [map line_text fst snd].
  rewrite (strip_cr_absent cwd Hcr), strip_cr_absent by (by apply ident_char_in).
  rewrite rposition_last.
  - rewrite drop_app_ge by lia. replace (_ + 1 - _) with 1 by lia. cbn [drop find_map].
    rewrite Htrim. destruct cwd; done.
  - rewrite marker_trim by done. apply String.eqb_refl.
  - simpl. rewrite Htrim. by rewrite (proj2 (String.eqb_neq _ _) Hdiff).
Qed.

(** ** The chain of checks *)

Lemma find_none_iff {A} (f : A → bool) l : List.find f l = None ↔ ∀ x, In x l → f x = false.
Proof.
  split; [intros H x Hx; by apply (List.find_none f l)|].
  induction l as [|a l IH]; simpl; [done|]. intros H. rewrite (H a) by auto. apply IH. auto.
Qed.

Lemma denylist_none command :
  command_matches_denylist command = None ↔
  ∀ p, In p DENIED_COMMAND_PATTERNS → contains (to_ascii_lowercase command) p = false.
Proof. apply find_none_iff. Qed.

Lemma result_bind_ok {A B E} (r : Result A E) (f : A → Result B E) :
  is_ok (result_bind r f) = true ↔ ∃ a, r = Ok a ∧ is_ok (f a) = true.
Proof. destruct r; simpl; naive_solver. Qed.

Section chain.
Context `{RegexCrate}.

Lemma check_command_ok c command :
  is_ok (check_command c command) = true ↔
  existsb (pattern_matches command) (cp_denied c) = false ∧
  (cp_allowed c = [] ∨ existsb (pattern_matches command) (cp_allowed c) = true).
Proof.
  unfold check_command, permissions_is_empty.
  destruct (cp_allowed c) as [|a al], (cp_denied c) as [|d dl]; simpl;
    repeat case_match; simpl; split; intros; repeat match goal with
      | H : _ ∧ _ |- _ => destruct H | H : _ ∨ _ |- _ => destruct H end;
    try done; auto;
    repeat match goal with
      | H : _ && _ = _ |- _ => first [apply andb_true_iff in H as [??]|apply andb_false_iff in H as [?|?]]
      | H : negb _ = true |- _ => apply negb_true_iff in H
      | H : negb _ = false |- _ => apply negb_false_iff in H end; simpl in *; try congruence; auto.
Qed.

Lemma override_matches c command :
  classifier_override_matches c command = true ↔
  is_Some (matching_classifier_override c command).
Proof.
  unfold classifier_override_matches, matching_classifier_override.
  destruct (List.find _ _) as [p|] eqn:E; simpl.
  - apply find_some in E as [Hin Hp]. split; [by eexists|]. intros _. apply existsb_exists. eauto.
  - split; [|by intros [??]]. intros (p & Hin & Hp)%existsb_exists.
    by rewrite (proj1 (find_none_iff _ _) E p Hin) in Hp.
Qed.

Lemma defence_chain_ok t command :
  defence_chain t command = Ok tt ↔
  is_ok (check_command (sh_permissions t) command) = true ∧
  (classifier_override_matches (sh_permissions t) command = true ∨
   is_ok (enforce command (sh_classification_mode t)) = true).
Proof.
  rewrite override_matches. unfold defence_chain.
  destruct (check_command (sh_permissions t) command) as [[]|e]; simpl; [|naive_solver].
  destruct (matching_classifier_override _ _); simpl.
  - split; [|done]. intros _. split; [done|]. left. by eexists.
  - destruct (enforce _ _); simpl; split; try done; [by auto|].
    by intros [_ [[??]|?]].
Qed.

(** The wrapped command on the way to its interpreter. *)
Definition interpreted (h : Host) (t : ShellTool) (command : string) (sp : Spawn) : Prop :=
  let wrapped := command +:+ "; __alms_ec=$?; echo; echo '" +:+ sh_pwd_marker t +:+ "'; pwd; exit $__alms_ec" in
  match h_engine h with
  | SystemBash => resolve_shell_binary h = Ok (sp_program sp) ∧ sp_args sp = ["-c"; wrapped] ∧ sp_stdin sp = None
  | Builtin => h_current_exe h = Ok (sp_program sp) ∧ sp_args sp = ["shell-host"] ∧ sp_stdin sp = Some wrapped
  end.

(** Where it is confined. *)
Definition confined (h : Host) (t : ShellTool) (sp : Spawn) : Prop :=
  match containment t with
  | None => sp_landlock sp = None
  | Some root =>
      let place p := components (n_path (normalise (h_canonicalize h) p)) in
      (ParentDir ∉ place (sp_cwd sp)) ∧ prefix (place root) (place (sp_cwd sp)) ∧
      sp_landlock sp = Some (default root (h_canonicalize h root),
        system_read_paths ++ match h_engine h with SystemBash => [] | Builtin => [sp_program sp] end)
  end.

(** The variables it gets: none with a secret's name in any letter case; of the others
    what the call's [env] says last, else the tool's default; and the daemon's [PATH]
    where neither has one. *)
Definition given (params : json) (k : string) : option string :=
  match json_get "env" params with
  | Some (JObj members) => last (omap (λ m, if String.eqb m.1 k then as_str m.2 else None) members)
  | _ => None
  end.

Definition variable (parent default_env : Env) (params : json) (k : string) : option string :=
  let named := if bool_decide (to_ascii_lowercase k ∈ ["openrouter_api_key"; "openai_api_key"; "anthropic_api_key"; "telegram_bot_token";
                                                       "alms_master_key"; "alms_auth_token"])
               then None
               else match given params k with Some v => Some v | None => default_env !! k end in
  match named with
  | Some v => Some v
  | None => if String.eqb k "PATH" then parent !! k else None
  end.

Lemma is_secret_iff k : is_secret_env_var k = bool_decide (to_ascii_lowercase k ∈ ["openrouter_api_key"; "openai_api_key"; "anthropic_api_key";
  "telegram_bot_token"; "alms_master_key"; "alms_auth_token"]).
Proof.
  apply eq_true_iff_eq. rewrite bool_decide_eq_true. unfold is_secret_env_var. rewrite existsb_exists.
  setoid_rewrite eq_ignore_ascii_case_spec. rewrite list_elem_of_In. split.
  - intros (x & Hx & <-). cbn in Hx. repeat destruct Hx as [<-|Hx]; try done; vm_compute; tauto.
  - intros Hk. cbn in Hk. repeat destruct Hk as [Hk|Hk]; try done; rewrite <- Hk; clear Hk.
    + by exists "OPENROUTER_API_KEY"; split; [cbn; tauto|].
    + by exists "OPENAI_API_KEY"; split; [cbn; tauto|].
    + by exists "ANTHROPIC_API_KEY"; split; [cbn; tauto|].
    + by exists "TELEGRAM_BOT_TOKEN"; split; [cbn; tauto|].
    + by exists "ALMS_MASTER_KEY"; split; [cbn; tauto|].
    + by exists "ALMS_AUTH_TOKEN"; split; [cbn; tauto|].
Qed.

Lemma merge_env_lookup members env k :
  foldl merge_env_var env members !! k =
  if is_secret_env_var k then env !! k
  else match last (omap (λ m, if String.eqb m.1 k then as_str m.2 else None) members) with Some v => Some v | None => env !! k end.
Proof.
  induction members as [|m members IH] using rev_ind; [by destruct (is_secret_env_var k)|].
  rewrite foldl_app, omap_app. cbn [foldl]. unfold merge_env_var. cbn [omap list_omap].
  destruct (String.eqb_spec m.1 k) as [E|E].
  - rewrite E. destruct (is_secret_env_var k) eqn:Es; [done|]. destruct (as_str m.2) as [v|].
    + by rewrite lookup_insert_eq, last_snoc.
    + by rewrite app_nil_r.
  - rewrite app_nil_r. destruct (is_secret_env_var m.1); [done|]. destruct (as_str m.2); [|done]. by rewrite lookup_insert_ne.
Qed.

Lemma configure_env_variable parent default_env params k :
  configure_env parent (merged_env default_env params) !! k = variable parent default_env params k.
Proof.
  unfold configure_env, variable. rewrite <- is_secret_iff.
  assert (Hm : merged_env default_env params !! k =
    if is_secret_env_var k then default_env !! k else match given params k with Some v => Some v | None => default_env !! k end).
  { unfold merged_env, given. destruct (json_get "env" params) as [[]|]; try apply merge_env_lookup; by destruct (is_secret_env_var k). }
  assert (Hp : filter (λ kv, kv.1 ∈ platform_critical_env_vars) parent !! k = if String.eqb k "PATH" then parent !! k else None).
  { destruct (String.eqb_spec k "PATH") as [->|Hne].
    - destruct (parent !! "PATH") as [v|] eqn:E; [apply map_lookup_filter_Some; split; [done|by left]|apply map_lookup_filter_None; by left].
    - apply map_lookup_filter_None. right. intros v _. cbn. by intros ?%list_elem_of_singleton. }
  rewrite lookup_union, Hp. destruct (is_secret_env_var k) eqn:Es.
  - rewrite map_lookup_filter_None_2 by (right; intros v _; change (is_secret_env_var k ≠ false); congruence).
    by destruct (String.eqb k "PATH"), (parent !! k).
  - assert (Hf : filter (λ kv, is_secret_env_var kv.1 = false) (merged_env default_env params) !! k = merged_env default_env params !! k).
    { destruct (merged_env _ _ !! k) as [v|] eqn:E; [by apply map_lookup_filter_Some|apply map_lookup_filter_None; by left]. }
    rewrite Hf, Hm. destruct (given params k) as [v|]; [|destruct (default_env !! k) as [v|]];
      by destruct (if String.eqb k "PATH" then parent !! k else None).
Qed.

Lemma build_command_ok h t command cwd env sp :
  (∃ cmd, build_command h t command cwd = Ok cmd ∧ sp = cmd env) ↔
  interpreted h t command sp ∧ sp_cwd sp = cwd ∧ sp_env sp = env ∧
  sp_landlock sp = option_map (λ root, (default root (h_canonicalize h root),
    system_read_paths ++ match h_engine h with SystemBash => [] | Builtin => [sp_program sp] end)) (containment t).
Proof.
  unfold build_command, interpreted, apply_landlock_sandbox. destruct (h_engine h).
  - destruct (resolve_shell_binary h) as [bin|e]; [|naive_solver]. split.
    + intros (cmd & [= <-] & ->). by destruct (containment t) as [root|]; [destruct (h_canonicalize h root)|].
    + destruct sp as [p args i c e l]. cbn. intros ((? & -> & ->) & -> & -> & ->). simplify_eq. eexists. split; [reflexivity|].
      by destruct (containment t) as [root|]; [destruct (h_canonicalize h root)|].
  - destruct (h_current_exe h) as [bin|e]; [|naive_solver]. split.
    + intros (cmd & [= <-] & ->). by destruct (containment t) as [root|]; [destruct (h_canonicalize h root)|].
    + destruct sp as [p args i c e l]. cbn. intros ((? & -> & ->) & -> & -> & ->). simplify_eq. eexists. split; [reflexivity|].
      by destruct (containment t) as [root|]; [destruct (h_canonicalize h root)|].
Qed.

Lemma check_cwd_ok canonicalize cwd root :
  is_ok (check_cwd canonicalize cwd root) = true ↔
  (ParentDir ∉ components (n_path (normalise canonicalize cwd))) ∧
  prefix (components (n_path (normalise canonicalize root))) (components (n_path (normalise canonicalize cwd))).
Proof. rewrite <- is_within_iff. unfold check_cwd, resolve_reported. by destruct (is_within _ _). Qed.

Lemma execute_command_start_ok h t cwd command env sp :
  trim command ≠ "" →
  execute_command_start h t cwd command env = Ok sp ↔
  (∀ p, In p DENIED_COMMAND_PATTERNS → contains (to_ascii_lowercase command) p = false) ∧
  interpreted h t command sp ∧ sp_cwd sp = cwd ∧ sp_env sp = configure_env (h_env h) env ∧ confined h t sp ∧ h_spawn h sp = Ok tt.
Proof.
  intros Hb. unfold execute_command_start. rewrite (proj2 (String.eqb_neq _ _) Hb), <-denylist_none.
  destruct (command_matches_denylist command) as [p|]; [naive_solver|].
  transitivity ((∀ root, containment t = Some root → is_ok (check_cwd (h_canonicalize h) cwd root) = true) ∧
    (∃ cmd, build_command h t command cwd = Ok cmd ∧ sp = cmd (configure_env (h_env h) env)) ∧ h_spawn h sp = Ok tt).
  - unfold validate_cwd. destruct (containment t) as [root|]; [destruct (check_cwd (h_canonicalize h) cwd root) eqn:Ec|];
      cbn [result_bind]; [| |]; (destruct (build_command h t command cwd) as [cmd|]; cbn [result_bind]).
    all: try (split; [done|]; intros (Hr & _); specialize (Hr root eq_refl); by rewrite Ec in Hr).
    all: try (split; [done|]; by intros (_ & (? & ? & _) & _)).
    all: destruct (h_spawn h (cmd _)) as [[]|] eqn:Es.
    all: try (split; [done|]; intros (_ & (cmd' & [= <-] & ->) & ?); congruence).
    all: split; [intros [= <-]; split_and!; [|by exists cmd|done]|by intros (_ & (cmd' & [= <-] & ->) & _)].
    + intros root' [= <-]. by rewrite Ec.
    + done.
  - rewrite build_command_ok. unfold confined. destruct (containment t) as [root|]; cbn [option_map].
    + setoid_rewrite check_cwd_ok. split.
      * intros (Hr & (H1 & <- & H3 & H4) & H5). destruct (Hr root eq_refl). by split_and!.
      * intros (_ & H1 & <- & H3 & (H4 & H5 & H6) & H7). split_and!; try done. intros root' [= <-]. done.
    + naive_solver.
Qed.
End chain.

(** * Properties *)

(** C35: when a shell command starts.  A call of the shell tool starts a process
    exactly when it asks for no background task, its command is there and not blank,
    no deny pattern matches it, the allow list is empty or matches, an operator
    override matches or the classifier lets it pass, it contains none of the seven
    built-in patterns after lower-casing, there is an interpreter, a sandboxed tool's
    directory lies under its root, and the operating system starts the process (which
    it refuses when it cannot confine it).  The process is then the configured
    interpreter with the command and the marker after it, in that directory,
    confined by Landlock to the root exactly when the tool is sandboxed; and its
    variables are those of [variable]: none with the name of a secret, whoever set
    it.  An override or an allow list never outweighs a deny pattern. *)
Theorem execute_start_exact `{RegexCrate} h t cwd params sp :
  execute_start h t cwd params = Ok (Started sp) ↔
  param "check_task" as_str params = None ∧ param "run_in_background" as_bool params ≠ Some true ∧
  ∃ command,
    param "command" as_str params = Some command ∧ trim command ≠ "" ∧
    existsb (pattern_matches command) (cp_denied (sh_permissions t)) = false ∧
    (cp_allowed (sh_permissions t) = [] ∨
     existsb (pattern_matches command) (cp_allowed (sh_permissions t)) = true) ∧
    (existsb (pattern_matches command) (cp_overrides (sh_permissions t)) = true ∨
     is_ok (enforce command (sh_classification_mode t)) = true) ∧
    (∀ p, In p ["rm -rf /"; "rm -rf /*"; "mkfs."; "dd if="; "> /dev/sda"; "chmod -R 777 /"; ":(){ :|:& };:"] →
       contains (to_ascii_lowercase command) p = false) ∧
    interpreted h t command sp ∧ sp_cwd sp = cwd ∧ confined h t sp ∧
    (∀ k, sp_env sp !! k = variable (h_env h) (sh_default_env t) params k) ∧
    h_spawn h sp = Ok tt.
Proof.
  unfold execute_start, execute_prepare, parse_input.
  destruct (param "check_task" as_str params) as [id|]; [naive_solver|].
  destruct (param "command" as_str params) as [command|] eqn:Ec; cbn [result_bind]; [|naive_solver].
  destruct (String.eqb_spec (trim command) "") as [Hb|Hb]; cbn [result_bind]; [naive_solver|].
  cbn [si_command]. pose proof (defence_chain_ok t command) as Hd. rewrite check_command_ok in Hd.
  transitivity (param "run_in_background" as_bool params ≠ Some true ∧ defence_chain t command = Ok tt ∧
    execute_command_start h t cwd command (merged_env (sh_default_env t) params) = Ok sp).
  { destruct (defence_chain t command) as [[]|e]; cbn [result_bind fst snd si_run_in_background si_command]; [|naive_solver].
    destruct (param "run_in_background" as_bool params) as [[]|]; [naive_solver|..];
      (destruct (execute_command_start _ _ _ _ _); simpl; naive_solver). }
  rewrite Hd, (execute_command_start_ok _ _ _ _ _ _ Hb).
  assert (Henv : sp_env sp = configure_env (h_env h) (merged_env (sh_default_env t) params) ↔
    ∀ k, sp_env sp !! k = variable (h_env h) (sh_default_env t) params k).
  { rewrite map_eq_iff. by setoid_rewrite configure_env_variable. }
  rewrite Henv. split.
  - intros (? & ([? ?] & ?) & ? & ? & ? & ? & ? & ?). split; [done|]. split; [done|]. exists command. by split_and!.
  - intros (_ & ? & c & [= <-] & _ & ? & ? & ? & ? & ? & ? & ? & ? & ?). by split_and!.
Qed.

(** No secret reaches a shell command.  Whatever the tool's default
    variables and whatever the model passes in [env], no variable of the child
    has a secret's name in any letter case, and of the daemon's own environment
    only [PATH] is passed on. *)
Theorem no_secret_reaches_child parent default_env params k v :
  configure_env parent (merged_env default_env params) !! k = Some v →
  is_secret_env_var k = false ∧
  (merged_env default_env params !! k = Some v ∨ k = "PATH" ∧ parent !! k = Some v).
Proof.
  unfold configure_env. intros H. apply lookup_union_Some_raw in H as [H|[_ H]].
  - apply map_lookup_filter_Some in H as [H Hs]. auto.
  - apply map_lookup_filter_Some in H as [H Hs]. simpl in Hs.
    apply list_elem_of_singleton in Hs as ->. auto.
Qed.

(** The containment check.  A directory is accepted exactly when its
    resolved path has no parent step left and starts with the components of the
    root, so an absolute root contains it as a place, not as a text prefix.  A
    rejection is called outside only when both paths were really resolved. *)
Theorem check_cwd_exact canonicalize cwd root :
  let r := normalise canonicalize root in
  let c := resolve_reported canonicalize cwd in
  let inside := (ParentDir ∉ components (n_path c))
                ∧ prefix (components (n_path r)) (components (n_path c)) in
  match check_cwd canonicalize cwd root with
  | Ok p => p = n_path c ∧ inside ∧
      (first_is (n_path r) "/"%char = true →
       ∃ names, location p = names ++ location (n_path r))
  | Err OutsideRoot => ¬ inside ∧ n_resolved r = true ∧ n_resolved c = true
  | Err NotVerifiable => ¬ inside ∧ (n_resolved r = false ∨ n_resolved c = false)
  end.
Proof.
  cbv zeta. unfold check_cwd.
  pose proof (is_within_iff (n_path (normalise canonicalize root))
    (n_path (resolve_reported canonicalize cwd))) as Hi.
  destruct (is_within _ _) eqn:E.
  - split_and!; [done|by apply Hi..|]. intros Hr. by apply within_location.
  - assert (¬ ((ParentDir ∉ components (n_path (resolve_reported canonicalize cwd))) ∧
      prefix (components (n_path (normalise canonicalize root)))
        (components (n_path (resolve_reported canonicalize cwd))))) as Hno by (intros H; by apply Hi in H).
    destruct (n_resolved (normalise _ _)), (n_resolved (resolve_reported _ _)); simpl; auto.
Qed.

(** The directory of a sandboxed tool after a sequence of commands, each with
    the file system and the output it ended with. *)
Definition cwd_after (root marker cwd : string) (l : list ((string → option string) * string))
    : string :=
  foldl (λ cwd '(canonicalize, stdout),
           (update_cwd canonicalize false (Some root) marker stdout cwd).1) cwd l.

(** A sandboxed shell never walks out of its root.  After any sequence of
    commands with any output, forged markers included, the directory is the
    initial one or one that passed containment when it was adopted: without a
    parent step, under the root's components, and located below an absolute
    root. *)
Theorem cwd_never_leaves_root root marker cwd l :
  let final := cwd_after root marker cwd l in
  final = cwd ∨
  ∃ canonicalize stdout, In (canonicalize, stdout) l ∧
    let r := n_path (normalise canonicalize root) in
    (ParentDir ∉ components final) ∧ prefix (components r) (components final) ∧
    (first_is r "/"%char = true → ∃ names, location final = names ++ location r).
Proof.
  cbv zeta. revert cwd. induction l as [|[canon out] l IH] using rev_ind; intros cwd; [by left|].
  unfold cwd_after. rewrite foldl_app. simpl. change (foldl _ cwd l) with (cwd_after root marker cwd l).
  unfold update_cwd. destruct (extract_cwd_from_output out marker) as [new|]; simpl.
  - destruct (check_cwd canon new root) as [p|reason] eqn:E; simpl.
    + right. exists canon, out. split; [apply in_app_iff; simpl; auto|].
      unfold check_cwd in E. destruct (is_within _ _) eqn:W; [|done]. injection E as <-.
      pose proof (proj1 (is_within_iff _ _) W) as [H1 H2]. split_and!; [done..|].
      intros Hr. by apply within_location.
    + destruct (IH cwd) as [->|(c & o & Hin & H)]; [by left|right].
      exists c, o. split; [apply in_app_iff; auto|exact H].
  - destruct (IH cwd) as [->|(c & o & Hin & H)]; [by left|right].
    exists c, o. split; [apply in_app_iff; auto|exact H].
Qed.

(** The marker separates what a command printed from its directory.
    Whatever the command printed, lines with the marker included, the last
    marker counts: the directory read back is the one printed, and the output
    is the command's own, byte for byte, but for one carriage return at its very
    end. *)
Theorem pwd_marker_roundtrip user marker cwd :
  marker_ok marker = true → first_is cwd "/"%char = true → trim cwd = cwd →
  char_in lf cwd = false → char_in cr cwd = false →
  extract_cwd_from_output (wrapped_output user marker cwd) marker = Some cwd ∧
  strip_pwd_marker_bytes (wrapped_output user marker cwd) marker = strip_cr user.
Proof. intros. split; [by apply extract_wrapped|by apply strip_wrapped]. Qed.

(** What the built-in patterns can stop.  A command is refused exactly when
    it contains a pattern after lower-casing; the pattern [chmod -R 777 /] has
    an upper-case letter, so no command at all matches it, the command it spells
    included. *)
Theorem denylist_exact command :
  (command_matches_denylist command = None ↔
   ∀ p, In p DENIED_COMMAND_PATTERNS → contains (to_ascii_lowercase command) p = false) ∧
  command_matches_denylist command ≠ Some "chmod -R 777 /" ∧
  command_matches_denylist "chmod -R 777 /" = None.
Proof.
  split_and!; [apply denylist_none| |reflexivity].
  intros H. unfold command_matches_denylist in H. apply find_some in H as [_ H].
  apply (contains_char _ _ "R"%char) in H; [|done].
  by rewrite (lowercase_no_upper command "R"%char) in H.
Qed.

(** Per-agent permissions cannot lift a global denial: a command the global
    deny list refuses is refused under every merge with an agent's permissions. *)
Theorem merge_keeps_denials `{RegexCrate} global agent command :
  existsb (pattern_matches command) (cp_denied (compile global)) = true →
  is_ok (check_command (compile (merge_with global agent)) command) = false.
Proof.
  intros Hd. apply not_true_iff_false. rewrite check_command_ok. intros [Hn _].
  revert Hn. cbn [compile cp_denied merge_with denied_commands]. unfold compile_patterns.
  rewrite omap_app, existsb_app. cbn [compile cp_denied] in Hd. unfold compile_patterns in Hd.
  by rewrite Hd.
Qed.

(** An allow list whose patterns are all invalid allows every command that
    is not denied, although the comment on [CompiledPermissions] says that the
    overall policy fails closed. *)
Theorem invalid_allowlist_allows `{RegexCrate} p command :
  (∀ source, In source (allowed_commands p) → regex_new source = None) →
  existsb (pattern_matches command) (cp_denied (compile p)) = false →
  is_ok (check_command (compile p) command) = true.
Proof.
  intros Hinv Hd. apply check_command_ok. split; [done|]. left.
  cbn [compile cp_allowed]. unfold compile_patterns.
  induction (allowed_commands p) as [|s l IH]; [done|]. cbn [omap list_omap].
  unfold compile_pattern at 1. rewrite (Hinv s) by (by left).
  destruct (String.eqb _ _); apply IH; intros; apply Hinv; by right.
Qed.

(** The timeout of a command never exceeds ten minutes, and a timeout in
    seconds is that many seconds up to the bound as long as the product fits 64
    bits; beyond that it wraps, and [2^61] seconds come out as no time at all. *)
Theorem timeout_bounded params :
  (0 <= timeout_of params <= MAX_TIMEOUT_MS)%Z ∧
  (∀ secs, param "timeout_ms" as_u64 params = None →
     param "timeout_secs" as_u64 params = Some secs → (secs * 1000 <= u64_max)%Z →
     timeout_of params = Z.min (secs * 1000) MAX_TIMEOUT_MS) ∧
  timeout_of (JObj [("timeout_secs", JNum (2 ^ 61))]) = 0%Z.
Proof.
  assert (∀ k n, param k as_u64 params = Some n → (0 <= n)%Z) as Hpos.
  { intros k n. unfold param. destruct (json_get k params) as [[]|]; simpl; try done.
    destruct (_ && _)%bool eqn:E; [|done]. intros [= <-].
    apply andb_true_iff in E as [E _]. by apply Z.leb_le. }
  split_and!; [| | |reflexivity].
  1,2: unfold timeout_of, MAX_TIMEOUT_MS, DEFAULT_TIMEOUT_MS;
    destruct (param "timeout_ms" as_u64 params) eqn:E; [apply Hpos in E; lia|];
    destruct (param "timeout_secs" as_u64 params); [|lia];
    pose proof (Z.mod_pos_bound (z * 1000) (2 ^ 64)); lia.
  intros secs E Hs Hfit. unfold timeout_of. rewrite E, Hs. apply Hpos in Hs.
  unfold u64_max in Hfit.
  rewrite Z.mod_small by lia. done.
Qed.

(** * Witnesses *)

(** A small pattern language: the text itself, an opening parenthesis first
    being invalid. *)
#[export] Instance TextPatterns : RegexCrate :=
  {| Regex := string;
     regex_new := λ s, if first_is s "("%char then None else Some s;
     is_match := λ p s, contains s p |}.

Definition example_tool : ShellTool :=
  {| sh_sandbox_root := Some "/srv/ws"; sh_unrestricted := false;
     sh_default_env := {["ALMS_DATA_DIR" := "/d"; "openai_api_key" := "k"]};
     sh_permissions := compile {| allowed_commands := ["git"; "ls"]; denied_commands := ["--force"];
                                  classifier_overrides := ["sudo ls"] |};
     sh_classification_mode := BlockDestructive; sh_pwd_marker := "M1" |}.

Definition call (command : string) : json :=
  JObj [("command", JStr command); ("env", JObj [("Alms_Auth_Token", JStr "x"); ("A", JStr "1")])].

Definition example_host : Host :=
  {| h_canonicalize := Some; h_is_file := λ _, true; h_env := {["PATH" := "/bin"; "HOME" := "/root"]}; h_current_exe := Ok "/bin/alms";
     h_shell_path := None; h_engine := SystemBash;
     h_spawn := λ sp, match sp_landlock sp with Some ("/gone", _) => Err "No such file or directory (os error 2)" | _ => Ok tt end |}.

Definition starts (cwd command : string) : bool :=
  match execute_start example_host example_tool cwd (call command) with Ok (Started _) => true | _ => false end.

Example execute_examples :
  map (starts "/srv/ws/a") ["git status"; "git push --force"; "rm x"; "sudo ls"; "sudo reboot git";
                            "git log; mkfs.ext4 x"; " "] =
    [true; false; false; true; false; false; false] ∧
  starts "/srv/ws-evil" "git status" = false ∧ starts "/srv/ws/../x" "git status" = false ∧
  execute_start example_host example_tool "/srv/ws" (JObj [("check_task", JStr "t1"); ("command", JStr "mkfs.ext4 x")]) = Ok (TaskChecked "t1").
Proof. vm_compute. done. Qed.

Lemma no_secret_reaches_child_witness :
  is_secret_env_var "A" = false ∧
  (merged_env (sh_default_env example_tool) (call "ls") !! "A" = Some "1" ∨
   "A" = "PATH" ∧ ({["PATH" := "/bin"]} : Env) !! "A" = Some "1").
Proof. apply no_secret_reaches_child. vm_compute. reflexivity. Defined.

Lemma pwd_marker_roundtrip_witness :
  let user := "x" +:+ ch lf +:+ "M1" +:+ ch lf +:+ "/etc" +:+ ch lf in
  extract_cwd_from_output (wrapped_output user "M1" "/srv/ws/a") "M1" = Some "/srv/ws/a" ∧
  strip_pwd_marker_bytes (wrapped_output user "M1" "/srv/ws/a") "M1" = strip_cr user.
Proof. apply pwd_marker_roundtrip; vm_compute; reflexivity. Defined.

Lemma merge_keeps_denials_witness :
  is_ok (check_command (compile (merge_with
    {| allowed_commands := []; denied_commands := ["rm"]; classifier_overrides := [] |}
    {| allowed_commands := ["rm"]; denied_commands := []; classifier_overrides := ["rm"] |})) "rm x")
  = false.
Proof. apply merge_keeps_denials. vm_compute. reflexivity. Defined.

Lemma invalid_allowlist_allows_witness :
  is_ok (check_command (compile
    {| allowed_commands := ["(ls"]; denied_commands := []; classifier_overrides := [] |}) "rm x")
  = true.
Proof.
  apply invalid_allowlist_allows; [|vm_compute; reflexivity].
  intros source [<-|[]]. vm_compute. reflexivity.
Defined.
