(* ===== verification/LlmTypes.v ===== *)
(** The messages sent to a language model: [alms-runtime/src/llm_types.rs],
    and the token estimates of [context/mod.rs].

    [role] is a string, as in the wire format; a text's cost is its length in
    bytes over three, rounded up.  Parsing and rendering of JSON is
    [serde_json]'s and stays a parameter. *)
From S2P Require Import Prelude Json Session.

Record FunctionCall := { fc_name : string; fc_arguments : string }.

Record LlmToolCall := { tc_id : string; tc_call_type : string; tc_function : FunctionCall }.

(** [ToolCall::new]. *)
Definition tool_call_new (id name arguments : string) : LlmToolCall :=
  {| tc_id := id; tc_call_type := "function";
     tc_function := {| fc_name := name; fc_arguments := arguments |} |}.

Record LlmMessage := {
  role : string;
  content : option string;
  reasoning_content : option string;
  tool_calls : option (list LlmToolCall);
  tool_call_id : option string;
}.

#[global] Instance FunctionCall_eq_dec : EqDecision FunctionCall.
Proof. solve_decision. Defined.
#[global] Instance LlmToolCall_eq_dec : EqDecision LlmToolCall.
Proof. solve_decision. Defined.
#[global] Instance LlmMessage_eq_dec : EqDecision LlmMessage.
Proof. solve_decision. Defined.

Definition llm_text (r c : string) : LlmMessage :=
  {| role := r; content := Some c; reasoning_content := None; tool_calls := None;
     tool_call_id := None |}.

Definition llm_system (c : string) : LlmMessage := llm_text "system" c.
Definition llm_user (c : string) : LlmMessage := llm_text "user" c.
Definition llm_assistant (c : string) : LlmMessage := llm_text "assistant" c.

Definition with_tool_calls (m : LlmMessage) (calls : list LlmToolCall) : LlmMessage :=
  {| role := role m; content := content m; reasoning_content := reasoning_content m;
     tool_calls := Some calls; tool_call_id := tool_call_id m |}.

(** Assignment to [msg.content]. *)
Definition with_content (m : LlmMessage) (c : option string) : LlmMessage :=
  {| role := role m; content := c; reasoning_content := reasoning_content m;
     tool_calls := tool_calls m; tool_call_id := tool_call_id m |}.

Definition llm_tool_result (id c : string) : LlmMessage :=
  {| role := "tool"; content := Some c; reasoning_content := None; tool_calls := None;
     tool_call_id := Some id |}.

Definition content_str (m : LlmMessage) : string := default "" (content m).

(** [Option::filter(|s| !s.is_empty())]. *)
Definition nonempty (s : option string) : option string :=
  match s with
  | Some t => if String.eqb t "" then None else Some t
  | None => None
  end.

Definition or_else {A} (a b : option A) : option A :=
  match a with Some x => Some x | None => b end.

Definition effective_content (m : LlmMessage) : option string :=
  or_else (nonempty (content m)) (reasoning_content m).

(** The [Raw] struct of the custom [Deserialize], and the priority it gives the
    three reasoning fields. *)
Record RawMessage := {
  raw_role : string;
  raw_content : option string;
  raw_reasoning_content : option string;
  raw_reasoning_summary : option string;
  raw_reasoning : option string;
  raw_tool_calls : option (list LlmToolCall);
  raw_tool_call_id : option string;
}.

Definition from_raw (raw : RawMessage) : LlmMessage :=
  {| role := raw_role raw; content := raw_content raw;
     reasoning_content :=
       or_else (nonempty (raw_reasoning_content raw))
         (or_else (nonempty (raw_reasoning_summary raw)) (nonempty (raw_reasoning raw)));
     tool_calls := raw_tool_calls raw; tool_call_id := raw_tool_call_id raw |}.

(** [normalize_tool_args]; [from_str] is [serde_json::from_str]. *)
Definition is_object (j : json) : bool := match j with JObj _ => true | _ => false end.

Definition normalize_tool_args (from_str : string → option json) (args : string) : json :=
  if String.eqb (trim args) "" then JObj []
  else match from_str args with
       | Some v => if is_object v then v else JObj [("_raw", JStr args)]
       | None => JObj [("_raw", JStr args)]
       end.

(** * Token estimates *)

Definition ESTIMATED_BYTES_PER_TOKEN : nat := 3.

Definition div_ceil (a b : nat) : nat := (a + b - 1) / b.

Definition estimate_tokens (text : string) : nat :=
  div_ceil (String.length text) ESTIMATED_BYTES_PER_TOKEN.

Definition sum_with {A} (f : A → nat) (l : list A) : nat := sum_list_with f l.

Definition estimate_tool_call_tokens (tc : LlmToolCall) : nat :=
  estimate_tokens (tc_id tc) + estimate_tokens (fc_name (tc_function tc)) +
  estimate_tokens (fc_arguments (tc_function tc)) + 10.

Definition estimate_llm_message_tokens (m : LlmMessage) : nat :=
  estimate_tokens (content_str m) +
  match tool_calls m with Some calls => sum_with estimate_tool_call_tokens calls | None => 0 end.

Definition estimate_total_tokens (messages : list LlmMessage) : nat :=
  sum_with (λ m, estimate_llm_message_tokens m + 4) messages.

Definition estimate_session_message_tokens (json_to_string : json → string) (m : Message) : nat :=
  match msg_content m with
  | Text s => estimate_tokens s
  | ToolCall name params => estimate_tokens name + estimate_tokens (json_to_string params) + 10
  | ToolResult tool_id result =>
      estimate_tokens tool_id + estimate_tokens (json_to_string result) + 10
  | Image url alt =>
      estimate_tokens url + match alt with Some a => estimate_tokens a | None => 0 end
  end.

(** * Lemmas *)

Lemma nonempty_Some s t : nonempty s = Some t ↔ s = Some t ∧ t ≠ "".
Proof.
  destruct s as [x|]; simpl; [|naive_solver].
  destruct (String.eqb_spec x ""); naive_solver.
Qed.

Lemma div_ceil_le a b n : 0 < b → a ≤ n * b → div_ceil a b ≤ n.
Proof.
  intros Hb Ha. unfold div_ceil.
  destruct n as [|n].
  - assert (a = 0) as -> by lia. rewrite Nat.div_small; lia.
  - apply Nat.lt_succ_r, Nat.Div0.div_lt_upper_bound. lia.
Qed.

Lemma div_ceil_upper a b : 0 < b → a ≤ div_ceil a b * b.
Proof.
  intros Hb. unfold div_ceil.
  pose proof (Nat.div_mod_eq (a + b - 1) b) as H1.
  pose proof (Nat.mod_upper_bound (a + b - 1) b ltac:(lia)). lia.
Qed.

(** Rounding up is subadditive, so the estimate of a concatenation never
    exceeds the sum of the estimates. *)
Lemma estimate_tokens_app s t : estimate_tokens (s +:+ t) ≤ estimate_tokens s + estimate_tokens t.
Proof.
  unfold estimate_tokens. rewrite str_length_app. apply div_ceil_le; [unfold ESTIMATED_BYTES_PER_TOKEN; lia|].
  pose proof (div_ceil_upper (String.length s) ESTIMATED_BYTES_PER_TOKEN).
  pose proof (div_ceil_upper (String.length t) ESTIMATED_BYTES_PER_TOKEN).
  unfold ESTIMATED_BYTES_PER_TOKEN in *. lia.
Qed.

(** Tool arguments are an object whatever the model sent. *)
Lemma normalize_tool_args_object from_str args :
  is_object (normalize_tool_args from_str args) = true.
Proof.
  unfold normalize_tool_args. destruct (String.eqb _ _); [done|].
  destruct (from_str args) as [v|]; [|done]. by destruct (is_object v) eqn:?.
Qed.

Lemma normalize_tool_args_verbatim from_str args v :
  trim args ≠ "" → from_str args = Some v → is_object v = true →
  normalize_tool_args from_str args = v.
Proof.
  intros Hne Hp Ho. unfold normalize_tool_args.
  by rewrite (proj2 (String.eqb_neq _ _) Hne), Hp, Ho.
Qed.
