(* ===== verification/Normalize.v ===== *)
(** The canonical shape of the messages sent to a model:
    [alms-runtime/src/context/normalize.rs].

    Each pass is one definition over the whole message list, as in the source;
    a pass that walks a growing output vector keeps it reversed, so that its
    head is [last_mut].  The index loop of [close_pending_tool_calls] has fuel,
    and [close_loop_total] shows that the length of the list is enough. *)
From S2P Require Import Prelude Json Session LlmTypes.

Definition INTERRUPTED_TOOL_RESULT : string := "[Tool execution was interrupted]".
Definition CONTINUE_PLACEHOLDER : string := "Please continue.".

Definition has_role (r : string) (m : LlmMessage) : bool := String.eqb (role m) r.

(** The ids a message introduces: those of an assistant's tool calls. *)
Definition ids_of (m : LlmMessage) : list string :=
  if has_role "assistant" m
  then match tool_calls m with Some calls => tc_id <$> calls | None => [] end
  else [].

Definition paired_with (known : gset string) (m : LlmMessage) : bool :=
  match tool_call_id m with Some id => bool_decide (id ∈ known) | None => false end.

(** [strip_orphaned_tool_results]: [retain] with the running set [known_ids]. *)
Fixpoint strip_orphans (known : gset string) (l : list LlmMessage) : list LlmMessage :=
  match l with
  | [] => []
  | msg :: l' =>
      let known := known ∪ list_to_set (ids_of msg) in
      if has_role "tool" msg && negb (paired_with known msg) then strip_orphans known l'
      else msg :: strip_orphans known l'
  end.

Definition strip_orphaned_tool_results (messages : list LlmMessage) : list LlmMessage :=
  strip_orphans ∅ messages.

Definition is_tool_call_msg (m : LlmMessage) : bool :=
  has_role "assistant" m && bool_decide (is_Some (tool_calls m)) &&
  bool_decide (content m = None).

(** [prev.tool_calls.as_mut().unwrap().extend(new_calls)]. *)
Definition extend_calls (prev msg : LlmMessage) : LlmMessage :=
  with_tool_calls prev (default [] (tool_calls prev) ++ default [] (tool_calls msg)).

Definition group_push (grouped : list LlmMessage) (msg : LlmMessage) : list LlmMessage :=
  match grouped with
  | prev :: rest =>
      if is_tool_call_msg msg && is_tool_call_msg prev then extend_calls prev msg :: rest
      else msg :: grouped
  | [] => [msg]
  end.

Definition group_tool_calls (messages : list LlmMessage) : list LlmMessage :=
  rev (foldl group_push [] messages).

Fixpoint strip_systems (l : list LlmMessage) : list LlmMessage :=
  match l with
  | [] => []
  | m :: l' => if has_role "system" m then strip_systems l' else m :: strip_systems l'
  end.

(** [strip_mid_history_system_markers]: everything before [first_non_system]
    stays, every later system message goes. *)
Fixpoint strip_mid_history_system_markers (l : list LlmMessage) : list LlmMessage :=
  match l with
  | [] => []
  | m :: l' =>
      if has_role "system" m then m :: strip_mid_history_system_markers l'
      else strip_systems l
  end.

Definition has_payload (m : LlmMessage) : bool :=
  match content m with Some s => negb (String.eqb s "") | None => false end ||
  match tool_calls m with Some (_ :: _) => true | _ => false end ||
  (has_role "tool" m && bool_decide (is_Some (tool_call_id m))).

Fixpoint drop_empty_content_messages (l : list LlmMessage) : list LlmMessage :=
  match l with
  | [] => []
  | m :: l' =>
      if has_payload m then m :: drop_empty_content_messages l'
      else drop_empty_content_messages l'
  end.

Definition is_pure_text (m : LlmMessage) : bool :=
  (has_role "user" m || has_role "assistant" m) && negb (bool_decide (is_Some (tool_calls m))).

Definition can_merge (prev msg : LlmMessage) : bool :=
  String.eqb (role prev) (role msg) && (has_role "user" msg || has_role "assistant" msg) &&
  negb (bool_decide (is_Some (tool_calls prev))) && negb (bool_decide (is_Some (tool_calls msg))).

Definition lf2 : string := String lf (String lf EmptyString).

Definition combined (prev msg : LlmMessage) : string :=
  match nonempty (content prev), nonempty (content msg) with
  | Some a, Some b => a +:+ lf2 +:+ b
  | Some a, None => a
  | None, Some b => b
  | None, None => ""
  end.

Definition merge_push (merged : list LlmMessage) (msg : LlmMessage) : list LlmMessage :=
  match merged with
  | prev :: rest =>
      if can_merge prev msg then with_content prev (Some (combined prev msg)) :: rest
      else msg :: merged
  | [] => [msg]
  end.

Definition merge_consecutive_same_role (messages : list LlmMessage) : list LlmMessage :=
  rev (foldl merge_push [] messages).

(** The ids of all tool results in the list: [resolved]. *)
Definition result_id (m : LlmMessage) : option string :=
  if has_role "tool" m then tool_call_id m else None.

Definition resolved_ids (l : list LlmMessage) : gset string := list_to_set (omap result_id l).

Definition pending_of (resolved : gset string) (m : LlmMessage) : list string :=
  filter (λ id, id ∉ resolved) (ids_of m).

(** The scan of the tool messages that follow immediately. *)
Fixpoint closed_by (id : string) (following : list LlmMessage) : bool :=
  match following with
  | [] => false
  | m :: l =>
      if has_role "tool" m && bool_decide (tool_call_id m = Some id) then true
      else if negb (has_role "tool" m) then false
      else closed_by id l
  end.

Definition still_open (pending : list string) (following : list LlmMessage) : list string :=
  filter (λ id, closed_by id following = false) pending.

Definition interrupted (id : string) : LlmMessage := llm_tool_result id INTERRUPTED_TOOL_RESULT.

(** [messages.insert(at, x)]. *)
Definition insert_at {A} (at_ : nat) (x : A) (l : list A) : list A := take at_ l ++ x :: drop at_ l.

(** The insertion loop: [still_open.iter().enumerate()]. *)
Fixpoint insert_results (at_ : nat) (open : list string) (l : list LlmMessage) : list LlmMessage :=
  match open with
  | [] => l
  | id :: open' => insert_results (S at_) open' (insert_at at_ (interrupted id) l)
  end.

(** The [while i < messages.len()] loop; [None] when the fuel runs out. *)
Fixpoint close_loop (fuel : nat) (resolved : gset string) (i : nat) (messages : list LlmMessage)
    : option (list LlmMessage) :=
  match messages !! i with
  | None => Some messages
  | Some m =>
      match fuel with
      | 0 => None
      | S fuel =>
          let pending := pending_of resolved m in
          if decide (pending = []) then close_loop fuel resolved (S i) messages
          else
            let open := still_open pending (drop (S i) messages) in
            close_loop fuel resolved (i + 1 + length open) (insert_results (i + 1) open messages)
      end
  end.

Definition close_pending_tool_calls (messages : list LlmMessage) : list LlmMessage :=
  default [] (close_loop (length messages) (resolved_ids messages) 0 messages).

Definition ensure_trailing_user (messages : list LlmMessage) (has_fresh_input : bool)
    : list LlmMessage :=
  match List.find (λ m, negb (has_role "system" m)) (rev messages) with
  | Some m => if has_role "user" m then messages else messages ++ [llm_user CONTINUE_PLACEHOLDER]
  | None => messages ++ [llm_user CONTINUE_PLACEHOLDER]
  end.

Definition normalize_for_llm (messages : list LlmMessage) (has_fresh_input : bool)
    : list LlmMessage :=
  ensure_trailing_user
    (close_pending_tool_calls
      (merge_consecutive_same_role
        (drop_empty_content_messages
          (strip_mid_history_system_markers messages)))) has_fresh_input.

(** * The canonical shape *)

(** All ids introduced by a list, in order. *)
Definition call_ids (l : list LlmMessage) : list string := flat_map ids_of l.

(** Every tool result is introduced by an earlier assistant message. *)
Definition no_orphans (l : list LlmMessage) : Prop :=
  ∀ l1 m l2, l = l1 ++ m :: l2 → role m = "tool" →
    ∃ id, tool_call_id m = Some id ∧ id ∈ call_ids l1.

(** The invariant documented at the top of [context/mod.rs], as far as the
    passes establish it. *)
Record canonical (l : list LlmMessage) : Prop := {
  canon_prefix : ∃ pre rest, l = pre ++ rest ∧
    Forall (λ m, role m = "system") pre ∧ Forall (λ m, role m ≠ "system") rest;
  canon_last : ∃ m, last l = Some m ∧ role m = "user";
  canon_payload : Forall (λ m, has_payload m = true) l;
  canon_merged : ∀ l1 a b l2, l = l1 ++ a :: b :: l2 → can_merge a b = false;
  canon_answered : ∀ id, id ∈ call_ids l → ∃ m, m ∈ l ∧ role m = "tool" ∧ tool_call_id m = Some id;
}.

(** * The passes as structural recursions *)

Lemma has_role_true r m : has_role r m = true ↔ role m = r.
Proof. apply String.eqb_eq. Qed.

Lemma has_role_false r m : has_role r m = false ↔ role m ≠ r.
Proof. apply String.eqb_neq. Qed.

(** A message has one role. *)
Ltac role_cases :=
  repeat match goal with
  | H : has_role _ _ = true |- _ => apply has_role_true in H
  | H : has_role _ _ = false |- _ => apply has_role_false in H
  end.

Fixpoint merge_from (prev : LlmMessage) (l : list LlmMessage) : list LlmMessage :=
  match l with
  | [] => [prev]
  | m :: l' =>
      if can_merge prev m then merge_from (with_content prev (Some (combined prev m))) l'
      else prev :: merge_from m l'
  end.

Lemma foldl_merge_push l : ∀ prev merged,
  rev (foldl merge_push (prev :: merged) l) = rev merged ++ merge_from prev l.
Proof.
  induction l as [|m l IH]; intros prev merged; simpl; [done|].
  destruct (can_merge prev m); rewrite IH; simpl; by rewrite <- ?app_assoc.
Qed.

Lemma merge_unfold l :
  merge_consecutive_same_role l = match l with [] => [] | m :: l' => merge_from m l' end.
Proof.
  destruct l as [|m l]; [done|]. unfold merge_consecutive_same_role. simpl.
  apply (foldl_merge_push l m []).
Qed.

Fixpoint group_from (prev : LlmMessage) (l : list LlmMessage) : list LlmMessage :=
  match l with
  | [] => [prev]
  | m :: l' =>
      if is_tool_call_msg m && is_tool_call_msg prev then group_from (extend_calls prev m) l'
      else prev :: group_from m l'
  end.

Lemma foldl_group_push l : ∀ prev grouped,
  rev (foldl group_push (prev :: grouped) l) = rev grouped ++ group_from prev l.
Proof.
  induction l as [|m l IH]; intros prev grouped; simpl; [done|].
  destruct (is_tool_call_msg m && _); rewrite IH; simpl; by rewrite <- ?app_assoc.
Qed.

Lemma group_unfold l :
  group_tool_calls l = match l with [] => [] | m :: l' => group_from m l' end.
Proof.
  destruct l as [|m l]; [done|]. unfold group_tool_calls. simpl.
  apply (foldl_group_push l m []).
Qed.

Fixpoint close_from (resolved : gset string) (l : list LlmMessage) : list LlmMessage :=
  match l with
  | [] => []
  | m :: l' =>
      m :: (interrupted <$> still_open (pending_of resolved m) l') ++ close_from resolved l'
  end.

Lemma insert_results_spec open : ∀ pre l,
  insert_results (length pre) open (pre ++ l) = pre ++ (interrupted <$> open) ++ l.
Proof.
  induction open as [|id open IH]; intros pre l; simpl; [done|].
  unfold insert_at. rewrite take_app_length, drop_app_length.
  replace (S (length pre)) with (length (pre ++ [interrupted id])) by (rewrite length_app; simpl; lia).
  change (interrupted id :: l) with ([interrupted id] ++ l).
  by rewrite (app_assoc pre), IH, <- app_assoc.
Qed.

(** The loop ends, within one round per message it was given. *)
Lemma close_loop_spec resolved l : ∀ fuel pre, length l ≤ fuel →
  close_loop fuel resolved (length pre) (pre ++ l) = Some (pre ++ close_from resolved l).
Proof.
  induction l as [|m l IH]; intros fuel pre Hf.
  - rewrite app_nil_r. destruct fuel; simpl; rewrite lookup_ge_None_2 by lia; by rewrite app_nil_r.
  - destruct fuel as [|fuel]; simpl in Hf; [lia|]. simpl.
    rewrite list_lookup_middle by done.
    assert (Hpre : ∀ x, pre ++ m :: x = (pre ++ [m]) ++ x) by (intros; by rewrite <- app_assoc).
    assert (Hlen : length pre + 1 = length (pre ++ [m])) by (rewrite length_app; simpl; lia).
    destruct (decide _) as [Hp|Hp].
    + rewrite Hp, (Hpre l). replace (S (length pre)) with (length (pre ++ [m])) by lia.
      rewrite IH by lia. simpl. by rewrite <- app_assoc.
    + rewrite (Hpre l). replace (S (length pre)) with (length (pre ++ [m])) by lia.
      rewrite drop_app_length, Hlen, insert_results_spec, app_assoc.
      set (open := still_open _ _).
      replace (length (pre ++ [m]) + length open)
        with (length ((pre ++ [m]) ++ (interrupted <$> open)))
        by (rewrite (length_app (pre ++ [m])), length_fmap; lia).
      rewrite IH by lia. by rewrite <- !app_assoc.
Qed.

Lemma close_unfold l : close_pending_tool_calls l = close_from (resolved_ids l) l.
Proof.
  unfold close_pending_tool_calls.
  pose proof (close_loop_spec (resolved_ids l) l (length l) [] (Nat.le_refl _)) as H.
  cbn [length app] in H. by rewrite H.
Qed.

(** * Which ids a list introduces *)

Lemma call_ids_app l1 l2 : call_ids (l1 ++ l2) = call_ids l1 ++ call_ids l2.
Proof. apply flat_map_app. Qed.

Lemma call_ids_interrupted ids : call_ids (interrupted <$> ids) = [].
Proof. by induction ids. Qed.

Lemma ids_of_not_assistant m : role m ≠ "assistant" → ids_of m = [].
Proof. intros Hr. unfold ids_of. by rewrite (proj2 (has_role_false _ _) Hr). Qed.

Lemma can_merge_inv a b : can_merge a b = true →
  role a = role b ∧ (role b = "user" ∨ role b = "assistant") ∧ tool_calls a = None ∧
  tool_calls b = None.
Proof.
  unfold can_merge. rewrite !andb_true_iff, orb_true_iff, !has_role_true, !negb_true_iff.
  rewrite String.eqb_eq. intros [[[Hr Hu] Ha] Hb].
  apply bool_decide_eq_false_1 in Ha, Hb. rewrite <- eq_None_not_Some in Ha, Hb. done.
Qed.

Lemma ids_of_no_calls m : tool_calls m = None → ids_of m = [].
Proof. intros H. unfold ids_of. rewrite H. by destruct (has_role _ m). Qed.

Lemma call_ids_strip_orphans l : ∀ known, call_ids (strip_orphans known l) = call_ids l.
Proof.
  induction l as [|m l IH]; intros known; simpl; [done|].
  destruct (has_role "tool" m && _) eqn:Hd; simpl; rewrite IH; [|done].
  apply andb_true_iff in Hd as [Hr _]. role_cases.
  rewrite (ids_of_not_assistant m) by congruence. done.
Qed.

Lemma call_ids_strip_systems l : call_ids (strip_systems l) = call_ids l.
Proof.
  induction l as [|m l IH]; simpl; [done|].
  destruct (has_role "system" m) eqn:Hs; simpl; rewrite IH; [|done].
  role_cases. rewrite (ids_of_not_assistant m) by congruence. done.
Qed.

Lemma call_ids_strip_mid l : call_ids (strip_mid_history_system_markers l) = call_ids l.
Proof.
  induction l as [|m l IH]; [done|].
  cbn [strip_mid_history_system_markers]. destruct (has_role "system" m).
  - cbn [call_ids flat_map]. f_equal; exact IH.
  - apply call_ids_strip_systems.
Qed.

Lemma no_payload_no_ids m : has_payload m = false → ids_of m = [].
Proof.
  unfold has_payload, ids_of. intros H.
  apply orb_false_iff in H as [H _]. apply orb_false_iff in H as [_ H].
  destruct (has_role _ m); [|done]. destruct (tool_calls m) as [[|]|]; done.
Qed.

Lemma call_ids_drop_empty l : call_ids (drop_empty_content_messages l) = call_ids l.
Proof.
  induction l as [|m l IH]; simpl; [done|].
  destruct (has_payload m) eqn:Hp; simpl; rewrite IH; [done|].
  by rewrite (no_payload_no_ids m Hp).
Qed.

Lemma ids_of_with_content m c : ids_of (with_content m c) = ids_of m.
Proof. done. Qed.

Lemma call_ids_merge_from l : ∀ prev, call_ids (merge_from prev l) = ids_of prev ++ call_ids l.
Proof.
  induction l as [|m l IH]; intros prev; simpl; [done|].
  destruct (can_merge prev m) eqn:Hm; simpl; rewrite IH; [|done].
  apply can_merge_inv in Hm as (_ & _ & _ & Hm). rewrite ids_of_with_content.
  by rewrite (ids_of_no_calls m Hm).
Qed.

Lemma call_ids_merge l : call_ids (merge_consecutive_same_role l) = call_ids l.
Proof. rewrite merge_unfold. destruct l; [done|]. apply call_ids_merge_from. Qed.

Lemma call_ids_close_from resolved l : call_ids (close_from resolved l) = call_ids l.
Proof.
  induction l as [|m l IH]; simpl; [done|].
  by rewrite call_ids_app, call_ids_interrupted, IH.
Qed.

Lemma ensure_cases l b :
  ensure_trailing_user l b = l ∨ ensure_trailing_user l b = l ++ [llm_user CONTINUE_PLACEHOLDER].
Proof.
  unfold ensure_trailing_user. destruct (List.find _ _) as [m|]; [|by right].
  destruct (has_role "user" m); [by left|by right].
Qed.

(** No pass changes which tool calls the model is shown. *)
Lemma call_ids_normalize l b : call_ids (normalize_for_llm l b) = call_ids l.
Proof.
  unfold normalize_for_llm. rewrite close_unfold.
  match goal with |- call_ids (ensure_trailing_user ?x _) = _ =>
    destruct (ensure_cases x b) as [Hc|Hc]; rewrite Hc end.
  2: rewrite call_ids_app, app_nil_r.
  all: by rewrite call_ids_close_from, call_ids_merge, call_ids_drop_empty, call_ids_strip_mid.
Qed.

Lemma ids_of_extend prev m :
  is_tool_call_msg m = true → is_tool_call_msg prev = true →
  ids_of (extend_calls prev m) = ids_of prev ++ ids_of m.
Proof.
  unfold is_tool_call_msg. rewrite !andb_true_iff.
  intros [[Hm Hcm] _] [[Hp Hcp] _]. apply bool_decide_eq_true_1 in Hcm as [cm Hcm], Hcp as [cp Hcp].
  unfold ids_of. rewrite Hm, Hp.
  change (has_role "assistant" (extend_calls prev m)) with (has_role "assistant" prev). rewrite Hp.
  unfold extend_calls. simpl. rewrite Hcm, Hcp. simpl. apply fmap_app.
Qed.

Lemma call_ids_group l : call_ids (group_tool_calls l) = call_ids l.
Proof.
  rewrite group_unfold. destruct l as [|p l]; [done|]. revert p.
  induction l as [|m l IH]; intros p; simpl; [done|].
  destruct (is_tool_call_msg m && is_tool_call_msg p) eqn:Hg; simpl.
  - apply andb_true_iff in Hg as [Hm Hp]. rewrite IH. simpl.
    by rewrite ids_of_extend, <- app_assoc.
  - by rewrite IH.
Qed.

(** * System messages stay in front *)

Definition not_system (m : LlmMessage) : Prop := has_role "system" m = false.

Fixpoint system_front (l : list LlmMessage) : Prop :=
  match l with
  | [] => True
  | m :: l' => if has_role "system" m then system_front l' else Forall not_system l'
  end.

Lemma system_front_all l : Forall not_system l → system_front l.
Proof. destruct 1 as [|m l Hm Hl]; simpl; [done|]. by rewrite Hm. Qed.

Lemma system_front_split l : system_front l →
  ∃ pre rest, l = pre ++ rest ∧ Forall (λ m, role m = "system") pre ∧
    Forall (λ m, role m ≠ "system") rest.
Proof.
  induction l as [|m l IH]; simpl; [by exists [], []|].
  destruct (has_role "system" m) eqn:Hm; intros H; role_cases.
  - destruct (IH H) as (pre & rest & -> & H1 & H2). exists (m :: pre), rest. auto.
  - exists [], (m :: l). split_and!; [done|done|]. constructor; [done|].
    eapply Forall_impl; [exact H|]. intros x Hx. by apply has_role_false.
Qed.

Lemma system_front_join pre rest :
  Forall (λ m, role m = "system") pre → Forall (λ m, role m ≠ "system") rest →
  system_front (pre ++ rest).
Proof.
  intros Hp Hr. induction Hp as [|m pre Hm Hp IH]; simpl.
  - apply system_front_all. eapply Forall_impl; [exact Hr|]. intros x Hx. by apply has_role_false.
  - by rewrite (proj2 (has_role_true _ _) Hm).
Qed.

Lemma strip_systems_front l : Forall not_system (strip_systems l).
Proof.
  induction l as [|m l IH]; simpl; [done|].
  by destruct (has_role "system" m) eqn:?; [|constructor].
Qed.

Lemma strip_systems_id l : Forall not_system l → strip_systems l = l.
Proof. induction 1 as [|m l Hm Hl IH]; simpl; [done|]. by rewrite Hm, IH. Qed.

Lemma strip_mid_front l : system_front (strip_mid_history_system_markers l).
Proof.
  induction l as [|m l IH]; [done|]. cbn [strip_mid_history_system_markers].
  destruct (has_role "system" m) eqn:Hm; [by simpl; rewrite Hm|].
  apply system_front_all, strip_systems_front.
Qed.

Lemma strip_mid_id l : system_front l → strip_mid_history_system_markers l = l.
Proof.
  induction l as [|m l IH]; [done|]. cbn [strip_mid_history_system_markers system_front].
  destruct (has_role "system" m) eqn:Hm; intros H; [by rewrite IH|].
  apply strip_systems_id. by constructor.
Qed.

Lemma drop_empty_forall P l : Forall P l → Forall P (drop_empty_content_messages l).
Proof. induction 1; simpl; [done|]. destruct (has_payload _); auto. Qed.

Lemma drop_empty_front l : system_front l → system_front (drop_empty_content_messages l).
Proof.
  induction l as [|m l IH]; simpl; [done|].
  destruct (has_role "system" m) eqn:Hm; intros H; destruct (has_payload m); simpl; rewrite ?Hm; auto.
  - by apply drop_empty_forall.
  - by apply system_front_all, drop_empty_forall.
Qed.

Lemma drop_empty_payload l : Forall (λ m, has_payload m = true) (drop_empty_content_messages l).
Proof. induction l as [|m l IH]; simpl; [done|]. by destruct (has_payload m) eqn:?; auto. Qed.

Lemma drop_empty_id l :
  Forall (λ m, has_payload m = true) l → drop_empty_content_messages l = l.
Proof. induction 1 as [|m l Hm Hl IH]; simpl; [done|]. by rewrite Hm, IH. Qed.

(** Merging changes contents only. *)
Lemma merge_from_forall (P : LlmMessage → Prop) l : ∀ prev,
  (∀ a b, P a → P b → can_merge a b = true → P (with_content a (Some (combined a b)))) →
  P prev → Forall P l → Forall P (merge_from prev l).
Proof.
  induction l as [|m l IH]; intros prev Hstep Hp Hl; simpl; [by constructor|].
  apply Forall_cons in Hl as [Hm Hl].
  destruct (can_merge prev m) eqn:Hc; [|by constructor; auto].
  apply IH; auto.
Qed.

Lemma merge_from_front l : ∀ prev, system_front (prev :: l) → system_front (merge_from prev l).
Proof.
  induction l as [|m l IH]; intros prev; simpl; [done|].
  destruct (can_merge prev m) eqn:Hc.
  - intros H. apply IH. simpl.
    change (has_role "system" (with_content prev (Some (combined prev m))))
      with (has_role "system" prev).
    apply can_merge_inv in Hc as (Hr & Hu & _).
    assert (Hs : has_role "system" prev = false).
    { apply has_role_false. rewrite Hr. by destruct Hu as [-> | ->]. }
    rewrite Hs in *. by apply Forall_cons in H as [_ H].
  - destruct (has_role "system" prev) eqn:Hp; simpl; rewrite Hp.
    + apply IH.
    + intros H. apply Forall_cons in H as [Hm H]. by apply merge_from_forall.
Qed.

Lemma merge_front l : system_front l → system_front (merge_consecutive_same_role l).
Proof. rewrite merge_unfold. destruct l; [done|]. apply merge_from_front. Qed.

Lemma close_from_forall (P : LlmMessage → Prop) resolved l :
  (∀ id, P (interrupted id)) → Forall P l → Forall P (close_from resolved l).
Proof.
  intros Hi. induction 1 as [|m l Hm Hl IH]; simpl; [done|].
  constructor; [done|]. apply Forall_app. split; [|done].
  apply Forall_fmap, Forall_true. intros id. apply Hi.
Qed.

Lemma close_from_front resolved l : system_front l → system_front (close_from resolved l).
Proof.
  induction l as [|m l IH]; simpl; [done|].
  destruct (has_role "system" m) eqn:Hm; intros H.
  - unfold pending_of. rewrite ids_of_not_assistant; [by apply IH|].
    apply has_role_true in Hm. by rewrite Hm.
  - apply Forall_app. split; [by apply Forall_fmap, Forall_true|]. by apply close_from_forall.
Qed.

(** * Contents *)

Lemma has_payload_text m :
  tool_calls m = None → has_role "tool" m = false → has_payload m = true →
  ∃ s, content m = Some s ∧ s ≠ "".
Proof.
  unfold has_payload. intros -> ->. rewrite !orb_false_r.
  destruct (content m) as [s|]; [|done]. intros H. exists s. split; [done|].
  by apply negb_true_iff, String.eqb_neq in H.
Qed.

Lemma combined_payload a b : can_merge a b = true → has_payload a = true →
  has_payload (with_content a (Some (combined a b))) = true.
Proof.
  intros Hc Ha. apply can_merge_inv in Hc as (Hr & Hu & Hta & _).
  assert (Hnt : has_role "tool" a = false)
    by (apply has_role_false; rewrite Hr; by destruct Hu as [-> | ->]).
  destruct (has_payload_text a Hta Hnt Ha) as (s & Hs & Hne).
  unfold has_payload, combined. simpl. rewrite Hs. simpl.
  rewrite (proj2 (String.eqb_neq _ _) Hne).
  destruct s as [|x s]; [done|].
  destruct (content b) as [t|]; simpl; [destruct (String.eqb t ""); simpl|]; done.
Qed.

Lemma merge_payload l : Forall (λ m, has_payload m = true) l →
  Forall (λ m, has_payload m = true) (merge_consecutive_same_role l).
Proof.
  rewrite merge_unfold. intros H. destruct H as [|m l Hm Hl]; [done|].
  apply merge_from_forall; [|done..]. intros a b Ha _ Hc. by apply combined_payload.
Qed.

(** * Neighbours *)

Fixpoint unmergeable (l : list LlmMessage) : Prop :=
  match l with
  | a :: l' => match l' with b :: _ => can_merge a b = false | [] => True end ∧ unmergeable l'
  | [] => True
  end.

Lemma unmergeable_split l : unmergeable l ↔
  ∀ l1 a b l2, l = l1 ++ a :: b :: l2 → can_merge a b = false.
Proof.
  split.
  - intros H l1. revert l H. induction l1 as [|x l1 IH]; intros l H a b l2 ->; simpl in H; [tauto|].
    destruct H as [_ H]. by apply (IH _ H a b l2).
  - induction l as [|a l IH]; intros H; simpl; [done|]. split.
    + destruct l as [|b l]; [done|]. by apply (H [] a b l).
    + apply IH. intros l1 x y l2 ->. by apply (H (a :: l1) x y l2).
Qed.

Lemma merge_from_head l : ∀ prev, ∃ h t, merge_from prev l = h :: t ∧
  role h = role prev ∧ tool_calls h = tool_calls prev.
Proof.
  induction l as [|m l IH]; intros prev; simpl; [by eexists _, []|].
  destruct (can_merge prev m); [|by eexists _, _].
  destruct (IH (with_content prev (Some (combined prev m)))) as (h & t & H1 & H2 & H3). eauto.
Qed.

Lemma merge_from_unmergeable l : ∀ prev, unmergeable (merge_from prev l).
Proof.
  induction l as [|m l IH]; intros prev; simpl; [done|].
  destruct (can_merge prev m) eqn:Hc; [apply IH|]. split; [|apply IH].
  destruct (merge_from_head l m) as (h & t & -> & Hr & Ht).
  unfold can_merge, has_role in *. by rewrite Hr, Ht.
Qed.

Lemma merge_unmergeable l : unmergeable (merge_consecutive_same_role l).
Proof. rewrite merge_unfold. destruct l; [done|]. apply merge_from_unmergeable. Qed.

Lemma merge_id l : unmergeable l → merge_consecutive_same_role l = l.
Proof.
  rewrite merge_unfold. destruct l as [|p l]; [done|]. revert p.
  induction l as [|m l IH]; intros p; [done|]. intros [H1 H2]. simpl. by rewrite H1, IH.
Qed.

Lemma can_merge_tool_l a b : role a = "tool" → can_merge a b = false.
Proof.
  intros Ha. destruct (can_merge a b) eqn:H; [|done].
  apply can_merge_inv in H as (Hr & Hu & _). rewrite Ha in Hr. by destruct Hu; congruence.
Qed.

Lemma can_merge_tool_r a b : role b = "tool" → can_merge a b = false.
Proof.
  intros Hb. destruct (can_merge a b) eqn:H; [|done].
  apply can_merge_inv in H as (_ & Hu & _). by destruct Hu; congruence.
Qed.

Lemma unmergeable_results ids l : unmergeable l → unmergeable ((interrupted <$> ids) ++ l).
Proof.
  intros Hl. induction ids as [|id ids IH]; [done|].
  rewrite fmap_cons. cbn [app unmergeable]. split; [|done].
  destruct ((interrupted <$> ids) ++ l); [done|]. by apply can_merge_tool_l.
Qed.

Lemma close_from_unmergeable resolved l : unmergeable l → unmergeable (close_from resolved l).
Proof.
  induction l as [|m l IH]; simpl; [done|]. intros [H1 H2]. split.
  - destruct (still_open _ l) as [|id open]; simpl; [|by apply can_merge_tool_r].
    destruct l as [|b l]; simpl; done.
  - by apply unmergeable_results, IH.
Qed.

Lemma unmergeable_snoc l x : unmergeable l →
  (∀ a, last l = Some a → can_merge a x = false) → unmergeable (l ++ [x]).
Proof.
  induction l as [|a l IH]; simpl; [done|]. intros [H1 H2] Hx. split.
  - destruct l; simpl; [by apply Hx|done].
  - apply IH; [done|]. intros b Hb. apply Hx. destruct l; [done|]. by rewrite last_cons_cons.
Qed.

(** * The trailing turn *)

Lemma ensure_spec l b : system_front l →
  (ensure_trailing_user l b = l ∧ ∃ m, last l = Some m ∧ role m = "user") ∨
  (ensure_trailing_user l b = l ++ [llm_user CONTINUE_PLACEHOLDER] ∧
   ∀ m, last l = Some m → role m ≠ "user").
Proof.
  intros Hf. destruct (system_front_split l Hf) as (pre & rest & Hl & Hp & Hr).
  unfold ensure_trailing_user.
  destruct (last l) as [m|] eqn:Hlast; [|apply last_None in Hlast; rewrite Hlast; by right].
  apply last_Some in Hlast as [l' ->]. rewrite rev_app_distr. simpl.
  destruct (has_role "system" m) eqn:Hm; simpl.
  - right. assert (Hnil : rest = []).
    { destruct rest as [|x rest _] using rev_ind; [done|]. rewrite app_assoc in Hl.
      apply app_inj_tail in Hl as [_ ->]. exfalso.
      assert (Hx : role x ≠ "system")
        by (eapply (proj1 (List.Forall_forall _ _) Hr), in_or_app; by right; left).
      by apply Hx, has_role_true. }
    rewrite Hnil, app_nil_r in Hl. role_cases. split; [|intros x [= <-]; congruence].
    assert (Hall : Forall (λ m, role m = "system") (rev l')).
    { rewrite <- Hl in Hp. apply Forall_app in Hp as [Hp _]. by apply Forall_rev. }
    clear -Hall. induction Hall as [|x t Hx _ IH]; simpl; [done|].
    by rewrite (proj2 (has_role_true "system" x) Hx).
  - destruct (has_role "user" m) eqn:Hu; role_cases; [left|right; naive_solver].
    split; [done|]. by exists m.
Qed.

(** * Tool calls and their results *)

Fixpoint paired (known : gset string) (l : list LlmMessage) : Prop :=
  match l with
  | [] => True
  | m :: l' =>
      (role m = "tool" → paired_with known m = true) ∧
      paired (known ∪ list_to_set (ids_of m)) l'
  end.

Lemma paired_skip known m l : ids_of m = [] → paired (known ∪ list_to_set (ids_of m)) l → paired known l.
Proof. intros ->. simpl. by rewrite (right_id_L ∅ (∪)). Qed.

Lemma paired_weaken l : ∀ k1 k2, k1 ⊆ k2 → paired k1 l → paired k2 l.
Proof.
  induction l as [|m l IH]; intros k1 k2 Hk; simpl; [done|]. intros [H1 H2]. split.
  - intros Hr. specialize (H1 Hr). unfold paired_with in *.
    destruct (tool_call_id m); [|done]. rewrite !bool_decide_eq_true in *. set_solver.
  - eapply IH; [|exact H2]. set_solver.
Qed.

Lemma paired_app l1 l2 : ∀ known, paired known (l1 ++ l2) ↔
  paired known l1 ∧ paired (known ∪ list_to_set (call_ids l1)) l2.
Proof.
  induction l1 as [|m l1 IH]; intros known; simpl.
  - rewrite (right_id_L ∅ (∪)). tauto.
  - rewrite IH, list_to_set_app_L, (assoc_L (∪)). tauto.
Qed.

Lemma paired_no_orphans l : paired ∅ l ↔ no_orphans l.
Proof.
  split.
  - intros H l1 m l2 -> Hr. apply paired_app in H as [_ [H _]]. specialize (H Hr).
    unfold paired_with in H. destruct (tool_call_id m) as [id|]; [|done].
    apply bool_decide_eq_true_1 in H. exists id. set_solver.
  - intros H. induction l as [|m l IH] using rev_ind; [done|].
    apply paired_app. split; [|split; [|done]].
    + apply IH. intros l1 x l2 -> Hx. apply (H l1 x (l2 ++ [m])); [by rewrite <- app_assoc|done].
    + intros Hr. destruct (H l m [] eq_refl Hr) as (id & Hid & Hin).
      unfold paired_with. rewrite Hid. apply bool_decide_eq_true_2. set_solver.
Qed.

Lemma paired_strip_orphans l : ∀ known, paired known (strip_orphans known l).
Proof.
  induction l as [|m l IH]; intros known; simpl; [done|].
  destruct (has_role "tool" m && negb _) eqn:Hd; simpl.
  - apply andb_true_iff in Hd as [Hr _]. role_cases.
    eapply (paired_skip _ m), IH. apply ids_of_not_assistant. by rewrite Hr.
  - split; [|apply IH]. intros Hr. apply has_role_true in Hr as Hb. rewrite Hb in Hd. simpl in Hd.
    apply negb_false_iff in Hd. rewrite (ids_of_not_assistant m) in Hd by (by rewrite Hr).
    simpl in Hd. by rewrite (right_id_L ∅ (∪)) in Hd.
Qed.

Lemma paired_strip_systems l : ∀ known, paired known l → paired known (strip_systems l).
Proof.
  induction l as [|m l IH]; intros known; simpl; [done|]. intros [H1 H2].
  destruct (has_role "system" m) eqn:Hs; [|by split; auto]. role_cases.
  eapply (paired_skip _ m); [apply ids_of_not_assistant; by rewrite Hs|by apply IH].
Qed.

Lemma paired_strip_mid l : ∀ known,
  paired known l → paired known (strip_mid_history_system_markers l).
Proof.
  induction l as [|m l IH]; intros known; [done|]. cbn [strip_mid_history_system_markers].
  destruct (has_role "system" m) eqn:Hs; [|by apply paired_strip_systems].
  cbn [paired]. intros [H1 H2]. auto.
Qed.

Lemma paired_drop_empty l : ∀ known, paired known l → paired known (drop_empty_content_messages l).
Proof.
  induction l as [|m l IH]; intros known; simpl; [done|]. intros [H1 H2].
  destruct (has_payload m) eqn:Hp; [by split; auto|].
  eapply (paired_skip _ m); [by apply no_payload_no_ids|by apply IH].
Qed.

Lemma paired_merge_from l : ∀ known prev, paired known (prev :: l) → paired known (merge_from prev l).
Proof.
  induction l as [|m l IH]; intros known prev; [done|]. intros [H1 [H2 H3]]. simpl.
  destruct (can_merge prev m) eqn:Hc; [|split; [done|]; apply IH; by split].
  apply can_merge_inv in Hc as (_ & _ & Hp & Hm). apply IH. split; [exact H1|].
  change (ids_of (with_content prev (Some (combined prev m)))) with (ids_of prev).
  by eapply (paired_skip _ m); [apply ids_of_no_calls|].
Qed.

Lemma paired_merge l : paired ∅ l → paired ∅ (merge_consecutive_same_role l).
Proof. rewrite merge_unfold. destruct l; [done|]. apply paired_merge_from. Qed.

Lemma paired_interrupted ids known : list_to_set ids ⊆ known → paired known (interrupted <$> ids).
Proof.
  revert known. induction ids as [|id ids IH]; intros known Hs; simpl in *; [done|]. split.
  - intros _. apply bool_decide_eq_true_2. set_solver.
  - rewrite (right_id_L ∅ (∪)). apply IH. set_solver.
Qed.

Lemma paired_close_from resolved l : ∀ known, paired known l → paired known (close_from resolved l).
Proof.
  induction l as [|m l IH]; intros known; simpl; [done|]. intros [H1 H2]. split; [done|].
  apply paired_app. rewrite call_ids_interrupted. simpl. rewrite (right_id_L ∅ (∪)).
  split; [|by apply IH]. apply paired_interrupted. intros id.
  unfold still_open, pending_of. rewrite !elem_of_list_to_set, !list_elem_of_filter. set_solver.
Qed.

(** Every id introduced by the output of the closing pass has a result. *)
Definition answered_in (l : list LlmMessage) (id : string) : Prop :=
  ∃ m, m ∈ l ∧ role m = "tool" ∧ tool_call_id m = Some id.

Lemma resolved_answered l id : id ∈ resolved_ids l ↔ answered_in l id.
Proof.
  unfold resolved_ids, answered_in. rewrite elem_of_list_to_set, list_elem_of_omap.
  unfold result_id. split.
  - intros (m & Hm & Hid). exists m. destruct (has_role "tool" m) eqn:Hr; [|done].
    role_cases. done.
  - intros (m & Hm & Hr & Hid). exists m. by rewrite (proj2 (has_role_true _ _) Hr).
Qed.

Lemma close_from_incl resolved l : l ⊆ close_from resolved l.
Proof.
  induction l as [|m l IH]; simpl; [done|]. intros x Hx.
  apply elem_of_cons in Hx as [-> | Hx]; [left|right]. apply elem_of_app. right. by apply IH.
Qed.

Lemma closed_by_answered id l : closed_by id l = true → answered_in l id.
Proof.
  induction l as [|m l IH]; simpl; [done|].
  destruct (has_role "tool" m) eqn:Hr; simpl; [|done].
  destruct (bool_decide _) eqn:Hb.
  - intros _. exists m. role_cases. split_and!; [left|done|by apply bool_decide_eq_true_1 in Hb].
  - intros H. destruct (IH H) as (x & Hx & ?). exists x. split; [by right|done].
Qed.

Lemma close_from_answered resolved l id : id ∈ call_ids l →
  id ∈ resolved ∨ answered_in (close_from resolved l) id.
Proof.
  destruct (decide (id ∈ resolved)) as [Hin|Hout]; [by left|]. intros H. right.
  induction l as [|m l IH]; simpl in *; [by apply not_elem_of_nil in H|].
  apply elem_of_app in H as [H|H].
  - destruct (closed_by id l) eqn:Hc.
    + destruct (closed_by_answered id l Hc) as (x & Hx & ?). exists x. split; [|done].
      right. apply elem_of_app. right. by apply close_from_incl.
    + exists (interrupted id). split; [|done]. right. apply elem_of_app. left.
      apply list_elem_of_fmap. exists id. split; [done|]. unfold still_open, pending_of.
      rewrite !list_elem_of_filter. done.
  - destruct (IH H) as (x & Hx & ?). exists x. split; [|done]. right. apply elem_of_app. by right.
Qed.

Lemma close_answered l id :
  id ∈ call_ids l → answered_in (close_from (resolved_ids l) l) id.
Proof.
  intros H. destruct (close_from_answered (resolved_ids l) l id H) as [Hr|]; [|done].
  apply resolved_answered in Hr as (m & Hm & ?). exists m. split; [by apply close_from_incl|done].
Qed.

Lemma close_id l : (∀ id, id ∈ call_ids l → answered_in l id) →
  close_from (resolved_ids l) l = l.
Proof.
  intros H.
  assert (Hgen : ∀ l', (∀ id, id ∈ call_ids l' → id ∈ resolved_ids l) →
    close_from (resolved_ids l) l' = l').
  { induction l' as [|m l' IH]; intros Hl'; simpl; [done|].
    rewrite IH by (intros id Hid; apply Hl'; simpl; apply elem_of_app; by right).
    assert (Hp : pending_of (resolved_ids l) m = []) by
      (apply filter_none, Forall_forall; intros id Hid Hn; apply Hn, Hl'; simpl; apply elem_of_app; by left).
    by rewrite Hp. }
  apply Hgen. intros id Hid. by apply resolved_answered, H.
Qed.

(** * What normalisation establishes *)

Lemma unmergeable_ensure l b : system_front l → unmergeable l →
  unmergeable (ensure_trailing_user l b).
Proof.
  intros Hf Hu. destruct (ensure_spec l b Hf) as [[-> _]|[-> Hlast]]; [done|].
  apply unmergeable_snoc; [done|]. intros a Ha. destruct (can_merge a _) eqn:Hc; [|done].
  apply can_merge_inv in Hc as (Hr & _). by destruct (Hlast a Ha).
Qed.

Lemma front_ensure l b : system_front l → system_front (ensure_trailing_user l b).
Proof.
  intros Hf. destruct (ensure_cases l b) as [-> | ->]; [done|].
  destruct (system_front_split l Hf) as (pre & rest & -> & Hp & Hr). rewrite <- app_assoc.
  apply system_front_join; [done|]. apply Forall_app. split; [done|]. by apply Forall_singleton.
Qed.

Lemma normalize_shape messages has_fresh_input :
  canonical (normalize_for_llm messages has_fresh_input).
Proof.
  unfold normalize_for_llm. rewrite close_unfold.
  set (l1 := strip_mid_history_system_markers messages).
  set (l2 := merge_consecutive_same_role (drop_empty_content_messages l1)).
  assert (Hf : system_front (close_from (resolved_ids l2) l2))
    by (apply close_from_front, merge_front, drop_empty_front, strip_mid_front).
  assert (Hpay : Forall (λ m, has_payload m = true) (close_from (resolved_ids l2) l2))
    by (apply close_from_forall; [done|]; apply merge_payload, drop_empty_payload).
  set (l3 := close_from _ l2) in *.
  split.
  - by apply system_front_split, front_ensure.
  - destruct (ensure_spec l3 has_fresh_input Hf) as [[-> H]|[-> _]]; [done|].
    rewrite last_snoc. by eexists.
  - destruct (ensure_cases l3 has_fresh_input) as [-> | ->]; [done|].
    apply Forall_app. split; [done|]. by apply Forall_singleton.
  - apply unmergeable_split, unmergeable_ensure; [done|].
    apply close_from_unmergeable, merge_unmergeable.
  - intros id Hid. assert (Ha : answered_in l3 id).
    { apply close_answered. destruct (ensure_cases l3 has_fresh_input) as [H|H];
        rewrite H, ?call_ids_app, ?app_nil_r in Hid; unfold l3 in Hid;
        by rewrite call_ids_close_from in Hid. }
    destruct Ha as (m & Hm & ?). exists m. split; [|done].
    destruct (ensure_cases l3 has_fresh_input) as [-> | ->]; [done|]. apply elem_of_app. by left.
Qed.

(** C27: Whatever messages the context builder assembled, with or without fresh
    input, what [normalize_for_llm] makes of them has the canonical shape:
    system messages only in front, a user turn at the end, no message without a
    payload, no two neighbours that could still be merged, and for every tool
    call some result with its id.  This is the list the context builder returns
    for a run's first request; the tool rows that the loop appends to it later,
    and the requests for summaries, do not pass through it. *)
Theorem normalize_canonical messages has_fresh_input :
  canonical (normalize_for_llm messages has_fresh_input).
Proof. apply normalize_shape. Qed.

(** The canonical lists are exactly the ones normalisation leaves alone, so
    that it is idempotent and a request that already has the shape is sent as it
    is. *)
Theorem canonical_iff_fixpoint l has_fresh_input :
  canonical l ↔ normalize_for_llm l has_fresh_input = l.
Proof.
  split; [|intros <-; apply normalize_shape].
  intros [(pre & rest & Hl & Hp & Hr) (m & Hm & Hu) Hpay Hmerge Hans].
  assert (Hf : system_front l) by (rewrite Hl; by apply system_front_join).
  unfold normalize_for_llm. rewrite close_unfold, strip_mid_id by done.
  rewrite drop_empty_id by done. rewrite merge_id by (by apply unmergeable_split).
  rewrite close_id by done.
  destruct (ensure_spec l has_fresh_input Hf) as [[-> _]|[_ Hlast]]; [done|].
  by destruct (Hlast m Hm).
Qed.

(** After the orphan pass every tool result that reaches the model follows the
    call that introduced it, through all later passes. *)
Lemma normalized_no_orphans messages has_fresh_input extra :
  Forall (λ m, role m ≠ "tool") extra →
  no_orphans (normalize_for_llm (strip_orphaned_tool_results messages ++ extra) has_fresh_input).
Proof.
  intros Hx. apply paired_no_orphans. unfold normalize_for_llm. rewrite close_unfold.
  assert (Hp : paired ∅ (strip_orphaned_tool_results messages ++ extra)).
  { apply paired_app. split; [apply paired_strip_orphans|].
    generalize (∅ ∪ list_to_set (call_ids (strip_orphaned_tool_results messages)) : gset string).
    induction Hx as [|m l Hm Hl IH]; intros known; simpl; [done|]. by split. }
  match goal with |- paired ∅ (ensure_trailing_user ?x _) =>
    assert (H : paired ∅ x) by (apply paired_close_from, paired_merge, paired_drop_empty,
      paired_strip_mid, Hp);
    destruct (ensure_cases x has_fresh_input) as [He|He]; rewrite He end; [done|].
  apply paired_app. by split.
Qed.

Lemma answered_after l : no_orphans l → NoDup (call_ids l) →
  (∀ id, id ∈ call_ids l → answered_in l id) →
  ∀ l1 m l2 id, l = l1 ++ m :: l2 → id ∈ ids_of m → answered_in l2 id.
Proof.
  intros Ho Hnd Hall l1 m l2 id -> Hid.
  destruct (Hall id) as (x & Hx & Hr & Hxid).
  { rewrite call_ids_app. apply elem_of_app. right. simpl. apply elem_of_app. by left. }
  exists x. split; [|done].
  apply elem_of_app in Hx as [Hx|Hx]; [exfalso|apply elem_of_cons in Hx as [-> | Hx]; [exfalso|done]].
  - apply list_elem_of_split in Hx as (k1 & k2 & ->).
    destruct (Ho k1 x (k2 ++ m :: l2)) as (id' & Hid' & Hin); [by rewrite <- app_assoc|done|].
    assert (id' = id) as -> by congruence.
    rewrite !call_ids_app in Hnd. simpl in Hnd. apply NoDup_app in Hnd as (_ & Hdis & _).
    apply (Hdis id); [apply elem_of_app; by left|apply elem_of_app; by left].
  - rewrite ids_of_not_assistant in Hid by (by rewrite Hr). by apply not_elem_of_nil in Hid.
Qed.
