(* ===== verification/ContextHistory.v ===== *)
(** From the persisted history to messages for the model:
    [alms-runtime/src/context/error_markers.rs], [perspective.rs], [rebuild.rs]
    and [strategies.rs].

    [json_to_string] is [serde_json]'s compact rendering, [path_exists] the file
    system's answer for an absolute path; both are arguments of the section. *)
From stdpp Require Import pretty.
From S2P Require Import Prelude Ident Json Session LlmTypes Normalize.

(** The chain [metadata.as_ref().and_then(get).and_then(as_str)]. *)
Definition meta_str (k : string) (m : Message) : option string :=
  j ← metadata_get k m; as_str j.

Definition meta_bool (k : string) (m : Message) : option bool :=
  j ← metadata_get k m; as_bool j.

Definition is_system (m : Message) : bool :=
  match msg_role m with System => true | _ => false end.

(** * Error markers *)

Definition is_error_marker (m : Message) : bool :=
  is_system m && bool_decide (meta_str "kind" m = Some "error").

Definition is_stripped_display_marker (m : Message) : bool :=
  is_system m && negb (is_error_marker m) &&
  bool_decide (meta_bool "synthetic" m = Some true).

Definition is_legacy_lifecycle_error_marker (m : Message) : bool :=
  is_error_marker m && bool_decide (meta_str "type" m = Some "run_boundary").

Definition RUN_CANCELLED_BY_USER : string := "[Run cancelled by user]".
Definition RUN_INTERRUPTED_BY_SHUTDOWN : string := "[Run interrupted by gateway shutdown]".
Definition RUN_STOPPED_APPROVAL_UNROUTABLE : string :=
  "[Run stopped: tool approval could not be requested]".

Definition is_runtime_layer_failure_bubble (m : Message) : bool :=
  negb (is_system m) &&
  match msg_content m with
  | Text t =>
      starts_with t "[Run failed:" || starts_with t RUN_CANCELLED_BY_USER ||
      starts_with t RUN_INTERRUPTED_BY_SHUTDOWN || starts_with t RUN_STOPPED_APPROVAL_UNROUTABLE
  | _ => false
  end.

(** [history.get(i).is_some_and(is_runtime_layer_failure_bubble)]. *)
Definition bubble_at (history : list Message) (i : nat) : bool :=
  match history !! i with Some m => is_runtime_layer_failure_bubble m | None => false end.

(** [idx.checked_sub(1).and_then(...)]. *)
Definition bubble_before (history : list Message) (idx : nat) : bool :=
  match idx with 0 => false | S i => bubble_at history i end.

(** [history.iter().enumerate()]. *)
Definition enumerate {A} (l : list A) : list (nat * A) := imap pair l.

Definition has_legacy_duplicate_run_boundary_markers (history : list Message) : bool :=
  existsb (λ '(idx, m),
    if negb (is_legacy_lifecycle_error_marker m) then false
    else
      let prev_is_bubble := bubble_before history idx in
      let next_is_bubble := bubble_at history (S idx) in
      prev_is_bubble || next_is_bubble) (enumerate history).

(** The closure of [filter_legacy_duplicate_run_boundary_markers]: what is kept. *)
Definition keeps_marker (history : list Message) (p : nat * Message) : bool :=
  let '(idx, m) := p in
  if negb (is_legacy_lifecycle_error_marker m) then true
  else
    let prev_is_bubble := bubble_before history idx in
    let next_is_bubble := bubble_at history (S idx) in
    negb (prev_is_bubble || next_is_bubble).

Definition filter_legacy_duplicate_run_boundary_markers (history : list Message) : list Message :=
  snd <$> filter (λ p, keeps_marker history p = true) (enumerate history).

(** * Perspective *)

Definition from_agent_of (m : Message) : option string := meta_str "from_agent" m.

Definition is_reasoning_message (m : Message) : bool :=
  bool_decide (meta_str "message_type" m = Some "reasoning").

Definition is_peer_reasoning_message (m : Message) (perspective_agent : string) : bool :=
  if negb (is_reasoning_message m) then false
  else match from_agent_of m with
       | Some sender => negb (String.eqb sender perspective_agent)
       | None => true
       end.

Definition with_role (m : Message) (r : Role) : Message :=
  {| msg_id := msg_id m; msg_role := r; msg_content := msg_content m;
     msg_timestamp := msg_timestamp m; msg_metadata := msg_metadata m |}.

Definition apply_perspective (m : Message) (perspective_agent : string) : Message :=
  match from_agent_of m with
  | Some sender =>
      if String.eqb sender perspective_agent
      then if is_reasoning_message m
           then with_role m (match msg_content m with ToolResult _ _ => Tool | _ => Assistant end)
           else with_role m Assistant
      else m
  | None => m
  end.

(** * Rebuilding messages *)

Section rebuild.
Context (json_to_string : json → string) (path_exists : string → bool).

Notation display := (to_display_string json_to_string).

(** [Path::join] on Unix: an absolute right side replaces the left, and a
    separator is added where there is none. *)
Definition join (root rel : string) : string :=
  if starts_with rel "/" || String.eqb root "" then rel
  else if String.eqb (str_drop (String.length root - 1) root) "/" then root +:+ rel
  else root +:+ "/" +:+ rel.

Definition spill_file_missing (workspace_root rel : string) : bool :=
  if path_exists (join workspace_root rel) then false
  else negb (starts_with rel "/" && path_exists rel).

Definition HINT_MARKER : string := "[The tool output was truncated to".

Definition nl (n : nat) : string := Nat.iter n (String lf) EmptyString.

Definition expired_notice (rel : string) : string :=
  nl 2 +:+ "[The tool output was truncated. The full-output spill file (`" +:+ rel +:+
  "`) is no longer available — retention period has expired. Only this preview survives.]" +:+ nl 1.

Definition trim_newlines (s : string) : string := trim_end_if (Ascii.eqb lf) s.

Definition rewrite_hint_as_expired (original rel : string) : string :=
  trim_newlines
    match rfind HINT_MARKER original with
    | Some idx => str_take idx original
    | None => original
    end +:+ expired_notice rel.

(** The [params: ""] left by the old persistence path. *)
Definition heal_params (params : json) : string :=
  match params with JStr "" => "{}" | _ => json_to_string params end.

Definition rebuilt_result (m : Message) (result : json) (workspace_root : option string) : string :=
  let result_str := json_to_string result in
  if default false (meta_bool "truncated_in_loop" m) then
    match meta_str "spill_path" m, workspace_root with
    | Some rel, Some root =>
        if spill_file_missing root rel then rewrite_hint_as_expired result_str rel else result_str
    | _, _ => result_str
    end
  else if Nat.ltb 2000 (String.length result_str) then
    truncate_to_char_boundary result_str 2000 +:+ "... [truncated, " +:+
    pretty (String.length result_str) +:+ " bytes total]"
  else result_str.

Definition session_msg_to_llm (m : Message) (workspace_root : option string) : LlmMessage :=
  if is_error_marker m then llm_user ("[Error] " +:+ display (msg_content m))
  else match msg_role m, msg_content m with
  | Assistant, ToolCall name params =>
      {| role := "assistant"; content := None; reasoning_content := None;
         tool_calls := Some [tool_call_new (default "" (meta_str "tool_call_id" m)) name
                               (heal_params params)];
         tool_call_id := None |}
  | Tool, ToolResult tool_id result =>
      llm_tool_result tool_id (rebuilt_result m result workspace_root)
  | System, c => llm_system (display c)
  | User, c => llm_user (display c)
  | Assistant, c => llm_assistant (display c)
  | Tool, c => llm_tool_result (msg_id m) (display c)
  end.

(** * Strategies *)

(** The walk of [build_full]: oldest first, up to the first that does not fit. *)
Fixpoint full_walk (budget used : nat) (root : option string) (history : list Message)
    : list LlmMessage :=
  match history with
  | [] => []
  | m :: history' =>
      if is_stripped_display_marker m then full_walk budget used root history'
      else
        let llm_msg := session_msg_to_llm m root in
        let tokens := estimate_llm_message_tokens llm_msg in
        if Nat.ltb budget (used + tokens) then []
        else llm_msg :: full_walk budget (used + tokens) root history'
  end.

Definition build_full (history : list Message) (budget : nat) (messages : list LlmMessage)
    (root : option string) : list LlmMessage :=
  messages ++ full_walk budget 0 root history.

(** The walk of [build_truncate] and [build_compact] over the reversed history;
    [overhead] is what the latter adds per message.  [selected] in the order of
    the walk, newest first. *)
Fixpoint newest_walk (overhead cap used : nat) (root : option string) (rev_history : list Message)
    : list LlmMessage :=
  match rev_history with
  | [] => []
  | m :: rest =>
      if is_stripped_display_marker m then newest_walk overhead cap used root rest
      else
        let llm_msg := session_msg_to_llm m root in
        let tokens := estimate_llm_message_tokens llm_msg + overhead in
        if Nat.ltb cap (used + tokens) then []
        else llm_msg :: newest_walk overhead cap (used + tokens) root rest
  end.

Definition build_truncate (history : list Message) (budget : nat) (messages : list LlmMessage)
    (root : option string) : list LlmMessage :=
  messages ++ rev (newest_walk 0 budget 0 root (rev history)).

Definition summary_block (text : string) : LlmMessage :=
  llm_system ("[Context summary of earlier conversation]" +:+ nl 1 +:+ text).

Definition build_compact (history : list Message) (budget : nat) (messages : list LlmMessage)
    (summary : option string) (retain_budget : nat) (root : option string) : list LlmMessage :=
  let '(messages, used) :=
    match nonempty summary with
    | Some text =>
        let tokens := estimate_tokens text + 4 in
        if Nat.ltb tokens budget then (messages ++ [summary_block text], tokens) else (messages, 0)
    | None => (messages, 0)
    end in
  let remaining := budget - used in
  let cap := remaining `min` retain_budget in
  messages ++ rev (newest_walk 4 cap 0 root (rev history)).

End rebuild.

(** * The window a walk selects *)

Section fit.
Context {A : Type} (cost : A → nat) (cap : nat).

(** The longest prefix whose running cost stays within [cap]. *)
Fixpoint fit (used : nat) (l : list A) : list A :=
  match l with
  | [] => []
  | x :: l' => if Nat.ltb cap (used + cost x) then [] else x :: fit (used + cost x) l'
  end.

Lemma fit_spec l : ∀ used, used ≤ cap → ∃ rest,
  l = fit used l ++ rest ∧ used + sum_with cost (fit used l) ≤ cap ∧
  ∀ x rest', rest = x :: rest' → cap < used + sum_with cost (fit used l) + cost x.
Proof.
  induction l as [|x l IH]; intros used Hu; simpl.
  - exists []. split_and!; [done|lia|done].
  - destruct (Nat.ltb_spec cap (used + cost x)) as [Hlt|Hge].
    + exists (x :: l). split_and!; [done|simpl; lia|]. intros y r [= <- <-]. simpl. lia.
    + destruct (IH (used + cost x) Hge) as (rest & H1 & H2 & H3). exists rest. simpl.
      split_and!; [by f_equal|lia|]. intros y r Hy. specialize (H3 y r Hy). lia.
Qed.
End fit.

(** What a walk may select: everything but the display-only markers. *)
Definition selectable (history : list Message) : list Message :=
  filter (λ m, is_stripped_display_marker m = false) history.

Lemma sum_with_rev {A} (f : A → nat) l : sum_with f (rev l) = sum_with f l.
Proof.
  induction l as [|x l IH]; simpl; [done|]. unfold sum_with in *.
  rewrite sum_list_with_app, IH. simpl. lia.
Qed.

Lemma filter_rev {A} (P : A → Prop) `{∀ x, Decision (P x)} l : filter P (rev l) = rev (filter P l).
Proof.
  induction l as [|x l IH]; simpl; [done|]. rewrite filter_app, IH.
  destruct (decide (P x)).
  - by rewrite (filter_cons_True P x []), (filter_cons_True P x l) by done.
  - by rewrite (filter_cons_False P x []), (filter_cons_False P x l), app_nil_r by done.
Qed.

Section windows.
Context (json_to_string : json → string) (path_exists : string → bool) (root : option string).

Notation to_llm := (λ m, session_msg_to_llm json_to_string path_exists m root).
Notation full := (build_full json_to_string path_exists).
Notation truncate := (build_truncate json_to_string path_exists).
Notation compact := (build_compact json_to_string path_exists).

Definition row_cost (overhead : nat) (m : Message) : nat :=
  estimate_llm_message_tokens (to_llm m) + overhead.

Lemma full_walk_fit budget history : ∀ used,
  full_walk json_to_string path_exists budget used root history =
  to_llm <$> fit (row_cost 0) budget used (selectable history).
Proof.
  induction history as [|m h IH]; intros used; [done|]. cbn [full_walk].
  unfold selectable in *. destruct (is_stripped_display_marker m) eqn:Hm.
  - rewrite filter_cons_False by congruence. apply IH.
  - rewrite filter_cons_True by done. cbn [fit]. unfold row_cost at 1. rewrite Nat.add_0_r.
    destruct (Nat.ltb _ _); [done|]. rewrite fmap_cons. f_equal. rewrite IH.
    unfold row_cost at 3. by rewrite Nat.add_0_r.
Qed.

Lemma newest_walk_fit overhead cap history : ∀ used,
  newest_walk json_to_string path_exists overhead cap used root history =
  to_llm <$> fit (row_cost overhead) cap used (selectable history).
Proof.
  induction history as [|m h IH]; intros used; [done|]. cbn [newest_walk].
  unfold selectable in *. destruct (is_stripped_display_marker m) eqn:Hm.
  - rewrite filter_cons_False by congruence. apply IH.
  - rewrite filter_cons_True by done. cbn [fit]. unfold row_cost at 1.
    destruct (Nat.ltb _ _); [done|]. rewrite fmap_cons. f_equal. apply IH.
Qed.

(** The newest rows that fit, whatever the walk adds per row. *)
Definition newest_window (overhead cap : nat) (history window : list Message) : Prop :=
  ∃ old, selectable history = old ++ window ∧
    sum_with (row_cost overhead) window ≤ cap ∧
    ∀ old' m, old = old' ++ [m] → cap < sum_with (row_cost overhead) window + row_cost overhead m.

Lemma newest_walk_window overhead cap history : ∃ window,
  rev (newest_walk json_to_string path_exists overhead cap 0 root (rev history)) = to_llm <$> window ∧
  newest_window overhead cap history window.
Proof.
  rewrite newest_walk_fit.
  destruct (fit_spec (row_cost overhead) cap (selectable (rev history)) 0 ltac:(lia))
    as (rest & H1 & H2 & H3).
  set (sel := fit _ _ _ _) in *. exists (rev sel). split; [symmetry; apply (List.map_rev to_llm)|].
  exists (rev rest). split_and!.
  - unfold selectable in *. rewrite filter_rev in H1. rewrite <- rev_app_distr, <- H1.
    by rewrite rev_involutive.
  - by rewrite sum_with_rev.
  - intros old' m Hm. rewrite sum_with_rev.
    apply (f_equal (@rev Message)) in Hm. rewrite rev_involutive, rev_app_distr in Hm. simpl in Hm.
    by apply (H3 m (rev old')).
Qed.

Lemma truncate_keeps_newest_rows history budget messages : ∃ window,
  truncate history budget messages root = messages ++ (to_llm <$> window) ∧
  newest_window 0 budget history window.
Proof.
  destruct (newest_walk_window 0 budget history) as (w & Hw & Hn).
  exists w. split; [|done]. unfold build_truncate. by rewrite Hw.
Qed.

(** The full strategy keeps the oldest rows instead. *)
Lemma full_keeps_oldest history budget messages : ∃ window rest,
  full history budget messages root = messages ++ (to_llm <$> window) ∧
  selectable history = window ++ rest ∧ sum_with (row_cost 0) window ≤ budget ∧
  ∀ m rest', rest = m :: rest' → budget < sum_with (row_cost 0) window + row_cost 0 m.
Proof.
  destruct (fit_spec (row_cost 0) budget (selectable history) 0 ltac:(lia)) as (rest & H1 & H2 & H3).
  eexists _, rest. split_and!; [|exact H1|exact H2|exact H3].
  unfold build_full. by rewrite full_walk_fit.
Qed.

(** The compact strategy shows the summary, when it fits, and then the newest
    rows within both caps. *)
Lemma compact_window history budget messages summary retain : ∃ shown window,
  compact history budget messages summary retain root =
    messages ++ (summary_block <$> option_list shown) ++ (to_llm <$> window) ∧
  (shown = None ∨ shown = nonempty summary) ∧
  newest_window 4 ((budget - sum_with (λ t, estimate_tokens t + 4) (option_list shown)) `min` retain)
    history window ∧
  sum_with (λ t, estimate_tokens t + 4) (option_list shown) +
    sum_with (row_cost 4) window ≤ budget ∧
  sum_with (row_cost 4) window ≤ retain.
Proof.
  unfold build_compact.
  assert (Hgo : ∀ shown msgs used,
    (shown = None ∨ shown = nonempty summary) →
    msgs = messages ++ (summary_block <$> option_list shown) →
    used = sum_with (λ t, estimate_tokens t + 4) (option_list shown) → used ≤ budget →
    ∃ shown window,
      msgs ++ rev (newest_walk json_to_string path_exists 4 ((budget - used) `min` retain) 0 root
                     (rev history)) =
        messages ++ (summary_block <$> option_list shown) ++ (to_llm <$> window) ∧
      (shown = None ∨ shown = nonempty summary) ∧
      newest_window 4
        ((budget - sum_with (λ t, estimate_tokens t + 4) (option_list shown)) `min` retain)
        history window ∧
      sum_with (λ t, estimate_tokens t + 4) (option_list shown) +
        sum_with (row_cost 4) window ≤ budget ∧
      sum_with (row_cost 4) window ≤ retain).
  { intros shown msgs used Hs -> Hu Hle.
    destruct (newest_walk_window 4 ((budget - used) `min` retain) history) as (w & Hw & Hn).
    exists shown, w. rewrite Hw, <- Hu, app_assoc. split_and!; [done|done|done| |];
      destruct Hn as (old & _ & Hsum & _); lia. }
  destruct (nonempty summary) as [text|] eqn:Hsum;
    [destruct (Nat.ltb_spec (estimate_tokens text + 4) budget) as [Hlt|Hge]|].
  - apply (Hgo (Some text)); [by right|done|simpl; lia|lia].
  - apply (Hgo None); [by left|by rewrite app_nil_r|done|lia].
  - apply (Hgo None); [by left|by rewrite app_nil_r|done|lia].
Qed.

Lemma rev_case {A} (l : list A) : l = [] ∨ ∃ l' x, l = l' ++ [x].
Proof. destruct l as [|x l _] using rev_ind; [by left|right; by eexists _, _]. Qed.

Lemma selectable_app a b : selectable (a ++ b) = selectable a ++ selectable b.
Proof. apply filter_app. Qed.

Lemma sum_with_app {A} (f : A → nat) a b : sum_with f (a ++ b) = sum_with f a + sum_with f b.
Proof. apply sum_list_with_app. Qed.

(** A window shows the whole tail [b] of a history exactly when the tail fits;
    otherwise it loses rows of it. *)
Lemma newest_window_tail k cap a b window : newest_window k cap (a ++ b) window →
  (sum_with (row_cost k) (selectable b) ≤ cap → ∃ pre, window = pre ++ selectable b) ∧
  (cap < sum_with (row_cost k) (selectable b) →
     ∃ lost, lost ≠ [] ∧ selectable b = lost ++ window).
Proof.
  intros (old & Hsplit & Hsum & Hmax). rewrite selectable_app in Hsplit.
  apply app_eq_inv in Hsplit as [(k1 & _ & Hw)|(k1 & -> & Hb)].
  - split; intros Hc; [by exists k1|]. rewrite Hw, sum_with_app in Hsum. lia.
  - split; intros Hc.
    + destruct (rev_case k1) as [->|(k2 & m & ->)]; [exists []; by rewrite Hb|].
      specialize (Hmax (selectable a ++ k2) m (app_assoc _ _ _)).
      rewrite Hb, !sum_with_app in Hc. unfold sum_with in *. simpl in Hc. lia.
    + exists k1. split; [|done]. intros ->. rewrite Hb in Hc. simpl in Hc. lia.
Qed.

(** The strategies show the model a gapless stretch of the history without
    the display-only markers: truncation the newest rows that fit the budget,
    compaction the newest that fit what the summary leaves and the retained
    share, the full strategy the oldest that fit; the next row would exceed the
    bound, and what is added never does. *)
Theorem strategies_select history budget messages summary retain :
  (∃ window, truncate history budget messages root = messages ++ (to_llm <$> window) ∧
     newest_window 0 budget history window) ∧
  (∃ window rest, full history budget messages root = messages ++ (to_llm <$> window) ∧
     selectable history = window ++ rest ∧ sum_with (row_cost 0) window ≤ budget ∧
     ∀ m rest', rest = m :: rest' → budget < sum_with (row_cost 0) window + row_cost 0 m) ∧
  (∃ shown window, compact history budget messages summary retain root =
       messages ++ (summary_block <$> option_list shown) ++ (to_llm <$> window) ∧
     (shown = None ∨ shown = nonempty summary) ∧
     newest_window 4
       ((budget - sum_with (λ t, estimate_tokens t + 4) (option_list shown)) `min` retain)
       history window ∧
     sum_with (λ t, estimate_tokens t + 4) (option_list shown) +
       sum_with (row_cost 4) window ≤ budget ∧
     sum_with (row_cost 4) window ≤ retain).
Proof.
  split; [apply truncate_keeps_newest_rows|]. split; [apply full_keeps_oldest|apply compact_window].
Qed.

End windows.

(** * The pre-checks *)

Lemma enumerate_snd {A} (l : list A) : snd <$> enumerate l = l.
Proof.
  unfold enumerate. rewrite fmap_imap. transitivity (imap (const id) l); [by apply imap_ext|].
  by rewrite imap_const, list_fmap_id.
Qed.

(** Without a duplicate the filter returns the history it was given. *)
Lemma filter_legacy_id history : has_legacy_duplicate_run_boundary_markers history = false →
  filter_legacy_duplicate_run_boundary_markers history = history.
Proof.
  unfold has_legacy_duplicate_run_boundary_markers, filter_legacy_duplicate_run_boundary_markers.
  intros H. rewrite filter_all; [apply enumerate_snd|].
  apply Forall_forall. intros [i m] Hin.
  destruct (keeps_marker history (i, m)) eqn:Hd; [done|].
  rewrite (proj2 (existsb_exists _ _)) in H; [done|]. exists (i, m).
  split; [by apply list_elem_of_In|]. unfold keeps_marker in Hd.
  destruct (negb _); [done|]. by apply negb_false_iff in Hd.
Qed.
