(* ===== verification/Episodic.v ===== *)
(** Memory across sessions: [alms-runtime/src/episodic.rs], and the store
    operations it relies on ([alms-session/src/sqlite/session_summaries.rs]).

    A run's end produces or extends the summary of its session; concurrent runs
    of one session are reconciled by an optimistic upsert on [last_run_id].  The
    model's answer is an argument; an upsert whose statement fails for another
    reason than the unique constraint is a label of the step relation. *)
From S2P Require Import Prelude Ident Session LlmTypes.

Inductive RunSummaryMode := ModeOff | Heuristic | ModeLlm | Unknown.

#[export] Instance RunSummaryMode_eq_dec : EqDecision RunSummaryMode.
Proof. solve_decision. Defined.

Definition HEURISTIC_INPUT_BYTES : nat := 120.
Definition HEURISTIC_OUTPUT_BYTES : nat := 80.
Definition HEURISTIC_MAX_TOTAL_BYTES : nat := 500.
Definition LLM_CONTEXT_BYTES : nat := 2000.

Record SummaryParams := {
  sp_mode : RunSummaryMode;
  sp_agent_id : AgentId;
  sp_session_id : SessionId;
  sp_run_id : RunId;
  sp_run_input : string;
  sp_run_output : string;
  sp_run_reasoning : option string;
  sp_context_id : string;
  sp_existing_summary : option string;
  sp_summary_model : option string;
  sp_agent_name : string;
  sp_summary_max_tokens : Z;
}.

Definition trim_start (s : string) : string :=
  of_bytes (drop_while_ws drop_ws (String.length s) (bytes_of s)).

Definition strip_reasoning_from_output (run_output : string) (run_reasoning : option string)
    : string :=
  match run_reasoning with
  | None => run_output
  | Some reasoning =>
      if String.eqb reasoning "" then run_output
      else if String.eqb run_output reasoning then ""
      else match strip_prefix reasoning run_output with
           | Some stripped => trim_start stripped
           | None => run_output
           end
  end.

(** * The heuristic *)

Definition dq : string := String (ascii_of_N 34) EmptyString.
Definition lf1 : string := String lf EmptyString.

(** A snippet in quotes, with dots when it was cut. *)
Definition quoted_snippet (text : string) (max : nat) : string :=
  let snippet := truncate_to_char_boundary text max in
  dq +:+ snippet +:+ (if Nat.ltb (String.length snippet) (String.length text) then "..." else "")
  +:+ dq.

Definition heuristic_entry (run_input sanitized_output : string) : string :=
  if String.eqb sanitized_output "" then quoted_snippet run_input HEURISTIC_INPUT_BYTES
  else quoted_snippet run_input HEURISTIC_INPUT_BYTES +:+ " -> " +:+
       quoted_snippet sanitized_output HEURISTIC_OUTPUT_BYTES.

(** The loop over [lines.iter().rev()]: [kept] newest first. *)
Fixpoint keep_lines (max_chars total : nat) (kept : list string) (rev_lines : list string)
    : list string :=
  match rev_lines with
  | [] => kept
  | line :: rest =>
      let line_cost := String.length line + 1 in
      if Nat.ltb max_chars (total + line_cost) && negb (Nat.eqb (length kept) 0) then kept
      else keep_lines max_chars (total + line_cost) (kept ++ [line]) rest
  end.

Definition trim_oldest_lines (text : string) (max_chars : nat) : string :=
  if Nat.leb (String.length text) max_chars then text
  else String.concat lf1 (rev (keep_lines max_chars 0 [] (rev (lines text)))).

Definition generate_heuristic (params : SummaryParams) : option string :=
  if String.eqb (sp_run_input params) "" then None
  else match derive_source_label (sp_context_id params) (sp_agent_name params) with
  | None => None
  | Some _ =>
      let sanitized := strip_reasoning_from_output (sp_run_output params) (sp_run_reasoning params) in
      let entry := heuristic_entry (sp_run_input params) sanitized in
      let combined := match nonempty (sp_existing_summary params) with
                      | Some existing => existing +:+ lf1 +:+ entry
                      | None => entry
                      end in
      Some (trim_oldest_lines combined HEURISTIC_MAX_TOTAL_BYTES)
  end.

(** * Screening *)

Definition REPETITION_MIN_TOKENS : nat := 20.
Definition REPETITION_MAX_TOKENS_PER_DISTINCT : nat := 10.

Inductive SummaryRejection := Truncated | Repetitive.

Definition flush (cur : list N) : list (list N) := match cur with [] => [] | _ => [cur] end.

(** [str::split_whitespace] on the bytes; a step consumes at least one. *)
Fixpoint split_ws (fuel : nat) (cur l : list N) : list (list N) :=
  match fuel, l with
  | S fuel, b :: l' =>
      match drop_ws l with
      | Some rest => flush cur ++ split_ws fuel [] rest
      | None => split_ws fuel (cur ++ [b]) l'
      end
  | _, _ => flush cur
  end.

Definition split_whitespace (s : string) : list (list N) :=
  split_ws (String.length s) [] (bytes_of s).

Definition is_repetitive (text : string) : bool :=
  let tokens := split_whitespace text in
  let total := length tokens in
  let distinct := length (remove_dups tokens) in
  Nat.leb REPETITION_MIN_TOKENS total &&
  Nat.ltb (distinct * REPETITION_MAX_TOKENS_PER_DISTINCT) total.

Definition screen_summary_output (text : string) (finish_reason : option string)
    : Result unit SummaryRejection :=
  if bool_decide (finish_reason = Some "length") then Err Truncated
  else if is_repetitive text then Err Repetitive
  else Ok tt.

(** * The model's summary *)

(** What [complete] came back with: an error, or the first choice's content and
    finish reason ([None] for both without a choice). *)
Inductive Completion :=
| CompletionFailed
| Completed (content finish_reason : option string).

Definition usable_text (c : Completion) : option string :=
  match c with
  | Completed (Some t) finish =>
      if String.eqb (trim t) "" then None
      else if is_ok (screen_summary_output (trim t) finish) then Some (trim t) else None
  | _ => None
  end.

Definition snippet_block (label text : string) : string :=
  let snippet := truncate_to_char_boundary text LLM_CONTEXT_BYTES in
  label +:+ ":" +:+ lf1 +:+ snippet +:+
  (if Nat.ltb (String.length snippet) (String.length text) then lf1 +:+ "[...truncated]" else "").

(** The user message of the summarizer request. *)
Definition summarizer_prompt (params : SummaryParams) : string :=
  let sanitized := strip_reasoning_from_output (sp_run_output params) (sp_run_reasoning params) in
  let peer := dm_peer (sp_context_id params) (sp_agent_name params) in
  (match peer with
   | Some p => "Context: This is a DM conversation between agent " +:+ dq +:+ sp_agent_name params
               +:+ dq +:+ " and agent " +:+ dq +:+ p +:+ dq +:+
               ". Use their actual names in the summary, not " +:+ dq +:+ "user" +:+ dq +:+ " or "
               +:+ dq +:+ "agent" +:+ dq +:+ "." +:+ lf1 +:+ lf1
   | None => ""
   end) +:+
  (match nonempty (sp_existing_summary params) with
   | Some existing => "Existing session summary:" +:+ lf1 +:+ existing +:+ lf1 +:+ lf1 +:+ "---"
                      +:+ lf1 +:+ lf1 +:+ "New interaction to incorporate:" +:+ lf1 +:+ lf1
   | None => ""
   end) +:+
  snippet_block (match peer with Some p => p +:+ "'s message" | None => "User input" end)
    (sp_run_input params) +:+
  (if String.eqb sanitized "" then ""
   else lf1 +:+ lf1 +:+
        snippet_block
          (match peer with Some _ => sp_agent_name params +:+ "'s response"
                         | None => "Agent response" end) sanitized).

Definition generate_llm (complete : string → Completion) (params : SummaryParams) : option string :=
  let sanitized := strip_reasoning_from_output (sp_run_output params) (sp_run_reasoning params) in
  if String.eqb (sp_run_input params) "" && String.eqb sanitized "" then None
  else usable_text (complete (summarizer_prompt params)).

Definition apply_llm_fallback (llm_result : option string) (params : SummaryParams)
    : option string :=
  match llm_result with
  | Some text => Some text
  | None =>
      match nonempty (sp_existing_summary params) with
      | Some _ => None
      | None => generate_heuristic params
      end
  end.

Definition generate_session_summary (complete : string → Completion) (params : SummaryParams)
    : option string :=
  match sp_mode params with
  | ModeOff | Unknown => None
  | Heuristic => generate_heuristic params
  | ModeLlm => apply_llm_fallback (generate_llm complete params) params
  end.

(** * Injection into the context *)

Record SessionSummary := {
  ss_agent_id : AgentId;
  ss_session_id : SessionId;
  ss_summary : string;
  ss_last_run_id : option RunId;
  ss_updated_at : Z;
  ss_source_label : option string;
}.

Definition episodic_header : string :=
  "[Your conversation history across sessions — most recent first]" +:+ lf1.
Definition open_tag : string := "<episodic_memory>" +:+ lf1.
Definition close_tag : string := lf1 +:+ "</episodic_memory>".

Section inject.
Context `{UuidCrate} (format_time : Z → string).

Definition episodic_entry (label : string) (s : SessionSummary) : string :=
  lf1 +:+ "**" +:+ label +:+ " — session " +:+
  str_take (Nat.min (String.length (uuid_to_string (session_uuid (ss_session_id s)))) 8)
    (uuid_to_string (session_uuid (ss_session_id s))) +:+
  " (last active: " +:+ format_time (ss_updated_at s) +:+ ")**" +:+ lf1 +:+ ss_summary s.

(** The loop over the summaries: entries in order, until one does not fit. *)
Fixpoint episodic_entries (remaining : nat) (summaries : list SessionSummary) : list string :=
  match summaries with
  | [] => []
  | s :: rest =>
      if String.eqb (ss_summary s) "" then episodic_entries remaining rest
      else match nonempty (ss_source_label s) with
      | None => episodic_entries remaining rest
      | Some label =>
          let entry := episodic_entry label s in
          if Nat.ltb remaining (estimate_tokens entry) then []
          else entry :: episodic_entries (remaining - estimate_tokens entry) rest
      end
  end.

Definition format_episodic_for_injection (summaries : list SessionSummary) (budget_tokens : nat)
    : option string :=
  if Nat.eqb (length summaries) 0 || Nat.eqb budget_tokens 0 then None
  else
    let header_tokens :=
      estimate_tokens episodic_header + (estimate_tokens open_tag + estimate_tokens close_tag) in
    if Nat.leb budget_tokens header_tokens then None
    else match episodic_entries (budget_tokens - header_tokens) summaries with
         | [] => None
         | entries => Some (open_tag +:+ episodic_header +:+ String.concat "" entries +:+ close_tag)
         end.

End inject.

(** * Bounds *)

Lemma truncate_length s max : String.length (truncate_to_char_boundary s max) ≤ max.
Proof.
  unfold truncate_to_char_boundary. destruct (Nat.leb_spec (String.length s) max); [done|].
  rewrite str_take_length. destruct (boundary_below_spec s max) as [? _]. lia.
Qed.

Lemma quoted_snippet_length text max : String.length (quoted_snippet text max) ≤ max + 5.
Proof.
  unfold quoted_snippet. rewrite !str_length_app. pose proof (truncate_length text max).
  destruct (Nat.ltb _ _); simpl; lia.
Qed.

Lemma heuristic_entry_length i o : String.length (heuristic_entry i o) ≤ 214.
Proof.
  unfold heuristic_entry.
  pose proof (quoted_snippet_length i HEURISTIC_INPUT_BYTES).
  pose proof (quoted_snippet_length o HEURISTIC_OUTPUT_BYTES).
  destruct (String.eqb o ""); rewrite ?str_length_app; [|change (String.length " -> ") with 4];
    unfold HEURISTIC_INPUT_BYTES, HEURISTIC_OUTPUT_BYTES in *; lia.
Qed.

Lemma heuristic_entry_nonempty i o : heuristic_entry i o ≠ "".
Proof. unfold heuristic_entry, quoted_snippet. by destruct (String.eqb o ""). Qed.

(** No line is longer than the text it comes from. *)
Lemma raw_lines_bound s : Forall (λ l, String.length l.1 ≤ String.length s) (raw_lines s).
Proof.
  induction s as [|c s IH]; simpl; [done|]. destruct (Ascii.eqb c lf).
  - constructor; [simpl; lia|]. eapply Forall_impl; [exact IH|]. simpl. lia.
  - destruct (raw_lines s) as [|[l t] ls]; [constructor; [simpl; lia|done]|].
    apply Forall_cons in IH as [H1 H2]. constructor; [simpl in *; lia|].
    eapply Forall_impl; [exact H2|]. simpl. lia.
Qed.

Lemma strip_cr_length s : String.length (strip_cr s) ≤ String.length s.
Proof.
  induction s as [|c s IH]; simpl; [done|].
  destruct s as [|d s]; [destruct (Ascii.eqb c cr); simpl; lia|]. simpl in *. lia.
Qed.

Lemma lines_bound s : Forall (λ l, String.length l ≤ String.length s) (lines s).
Proof.
  unfold lines. apply Forall_fmap. eapply Forall_impl; [apply raw_lines_bound|].
  intros [l t] H. simpl in *. unfold line_text. simpl. destruct t; [|done].
  pose proof (strip_cr_length l). lia.
Qed.

Lemma lines_app a b : lines (a +:+ lf1 +:+ b) = lines (a +:+ lf1) ++ lines b.
Proof. unfold lines, lf1. simpl. by rewrite raw_lines_app, map_app. Qed.

Lemma lines_nonempty s : s ≠ "" → lines s ≠ [].
Proof.
  destruct s as [|c s]; [done|]. intros _. unfold lines. simpl.
  destruct (Ascii.eqb c lf); [done|]. by destruct (raw_lines s) as [|[l t] ls].
Qed.

Definition lines_cost (l : list string) : nat := sum_with (λ s, String.length s + 1) l.

Lemma concat_length l : l ≠ [] → String.length (String.concat lf1 l) + 1 = lines_cost l.
Proof.
  induction l as [|s l IH]; [done|]. intros _. destruct l as [|t l].
  - unfold lines_cost. simpl. lia.
  - change (String.concat lf1 (s :: t :: l)) with (s +:+ lf1 +:+ String.concat lf1 (t :: l)).
    rewrite !str_length_app. specialize (IH ltac:(done)). unfold lines_cost in *. simpl in *. lia.
Qed.

Lemma lines_cost_app a b : lines_cost (a ++ b) = lines_cost a + lines_cost b.
Proof. apply sum_list_with_app. Qed.

(** Once a line is kept, the total never exceeds the cap. *)
Lemma keep_lines_bound max l : ∀ kept, kept ≠ [] → lines_cost kept ≤ max →
  keep_lines max (lines_cost kept) kept l ≠ [] ∧ lines_cost (keep_lines max (lines_cost kept) kept l) ≤ max.
Proof.
  induction l as [|s l IH]; intros kept Hne Hc; simpl; [done|].
  destruct (Nat.ltb_spec max (lines_cost kept + (String.length s + 1))) as [H|H]; simpl.
  - destruct kept; done.
  - replace (lines_cost kept + (String.length s + 1)) with (lines_cost (kept ++ [s]))
      by (rewrite lines_cost_app; unfold lines_cost; simpl; lia).
    apply IH; [by destruct kept|]. rewrite lines_cost_app. unfold lines_cost at 2. simpl. lia.
Qed.

Lemma trim_oldest_bound text max last rest : rev (lines text) = last :: rest →
  String.length last + 1 ≤ max → String.length (trim_oldest_lines text max) ≤ max.
Proof.
  intros Hl Hlast. unfold trim_oldest_lines.
  destruct (Nat.leb_spec (String.length text) max) as [|_]; [done|]. rewrite Hl.
  cbn [keep_lines]. rewrite andb_false_r.
  replace (0 + (String.length last + 1)) with (lines_cost ([] ++ [last])) by (unfold lines_cost; simpl; lia).
  destruct (keep_lines_bound max rest ([] ++ [last])) as [Hne Hb];
    [done|unfold lines_cost; simpl; lia|].
  set (k := keep_lines _ _ _ _) in *.
  assert (Hr : lines_cost (rev k) = lines_cost k).
  { clear. induction k as [|s k IH]; simpl; [done|]. rewrite lines_cost_app, IH.
    unfold lines_cost. simpl. lia. }
  pose proof (concat_length (rev k)) as Hcl. rewrite Hr in Hcl.
  assert (rev k ≠ []) by (intros H; apply (f_equal (@length string)) in H; rewrite length_rev in H; by destruct k).
  specialize (Hcl ltac:(done)). lia.
Qed.

(** The heuristic summary never exceeds its cap, however long the existing
    summary, the input and the output are and whatever lines they contain. *)
Theorem heuristic_bounded params s :
  generate_heuristic params = Some s → String.length s ≤ HEURISTIC_MAX_TOTAL_BYTES.
Proof.
  unfold generate_heuristic. destruct (String.eqb _ ""); [done|].
  destruct (derive_source_label _ _) as [label|]; [|done].
  set (entry := heuristic_entry _ _). intros [= <-].
  assert (He : String.length entry ≤ 214) by apply heuristic_entry_length.
  assert (Hlast : ∃ last rest, rev (lines entry) = last :: rest ∧ String.length last ≤ 214).
  { destruct (rev (lines entry)) as [|last rest] eqn:E.
    - exfalso. apply (lines_nonempty entry); [apply heuristic_entry_nonempty|].
      apply (f_equal (@rev string)) in E. by rewrite rev_involutive in E.
    - exists last, rest. split; [done|]. pose proof (lines_bound entry) as Hb.
      apply Forall_rev in Hb. rewrite E in Hb. apply Forall_cons in Hb as [Hb _]. lia. }
  destruct Hlast as (last & rest & Hrev & Hlen).
  destruct (nonempty (sp_existing_summary params)) as [ex|].
  - apply (trim_oldest_bound (ex +:+ lf1 +:+ entry) _ last (rest ++ rev (lines (ex +:+ lf1)))).
    + by rewrite lines_app, rev_app_distr, Hrev.
    + unfold HEURISTIC_MAX_TOTAL_BYTES. lia.
  - eapply trim_oldest_bound; [exact Hrev|]. unfold HEURISTIC_MAX_TOTAL_BYTES. lia.
Qed.

Definition example_params (mode : RunSummaryMode) (existing : option string) : SummaryParams :=
  {| sp_mode := mode; sp_agent_id := MkAgentId (MkUuid 1); sp_session_id := MkSessionId (MkUuid 2);
     sp_run_id := MkRunId (MkUuid 3); sp_run_input := "hello"; sp_run_output := "hi";
     sp_run_reasoning := None; sp_context_id := "web"; sp_existing_summary := existing;
     sp_summary_model := None; sp_agent_name := "atlas"; sp_summary_max_tokens := 1000 |}.

Lemma heuristic_bounded_witness :
  let s := "old" +:+ lf1 +:+ dq +:+ "hello" +:+ dq +:+ " -> " +:+ dq +:+ "hi" +:+ dq in
  generate_heuristic (example_params Heuristic (Some "old")) = Some s ∧ String.length s ≤ 500.
Proof.
  split; [vm_compute; reflexivity|].
  apply (heuristic_bounded (example_params Heuristic (Some "old"))). vm_compute. reflexivity.
Defined.

(** A summary the model did not produce never replaces one that exists: when
    the completion fails, is empty, was cut off at the token limit or loops, an
    existing summary is kept and only a session without one gets the heuristic. *)
Theorem bad_completion_keeps_summary complete params existing :
  sp_mode params = ModeLlm → nonempty (sp_existing_summary params) = Some existing →
  (∀ prompt, usable_text (complete prompt) = None) →
  generate_session_summary complete params = None.
Proof.
  intros Hm He Hc. unfold generate_session_summary. rewrite Hm.
  unfold apply_llm_fallback, generate_llm. rewrite Hc.
  destruct (_ && _); by rewrite He.
Qed.

Lemma bad_completion_keeps_summary_witness :
  generate_session_summary (λ _, Completed (Some "cut off in the midd") (Some "length"))
    (example_params ModeLlm (Some "old")) = None.
Proof.
  apply (bad_completion_keeps_summary _ (example_params ModeLlm (Some "old")) "old");
    [reflexivity..|intros _; vm_compute; reflexivity].
Defined.

(** What is accepted passed every check. *)
Lemma usable_text_spec c t : usable_text c = Some t ↔
  ∃ raw finish, c = Completed (Some raw) finish ∧ t = trim raw ∧ t ≠ "" ∧
    finish ≠ Some "length" ∧ is_repetitive t = false.
Proof.
  unfold usable_text, screen_summary_output. split.
  - destruct c as [|[raw|] finish]; [done| |done].
    destruct (String.eqb_spec (trim raw) "") as [|Hne]; [done|].
    destruct (bool_decide _) eqn:Hb; [done|]. destruct (is_repetitive _) eqn:Hr; [done|].
    intros [= <-]. apply bool_decide_eq_false_1 in Hb. by exists raw, finish.
  - intros (raw & finish & -> & -> & Hne & Hf & Hr).
    rewrite (proj2 (String.eqb_neq _ _) Hne), bool_decide_eq_false_2, Hr by done. done.
Qed.

Section inject_facts.
Context `{UuidCrate} (format_time : Z → string).

Lemma concat_app_estimate (l : list string) :
  estimate_tokens (String.concat "" l) ≤ sum_with estimate_tokens l.
Proof.
  induction l as [|s l IH]; [simpl; unfold estimate_tokens, div_ceil; simpl; lia|].
  destruct l as [|t l].
  - unfold sum_with. simpl. lia.
  - change (String.concat "" (s :: t :: l)) with (s +:+ "" +:+ String.concat "" (t :: l)).
    etransitivity; [apply estimate_tokens_app|]. unfold sum_with in *.
    change (String.append "" ?x) with x. cbn [sum_list_with] in *. simpl in *. lia.
Qed.

Lemma episodic_entries_cost summaries : ∀ remaining,
  sum_with estimate_tokens (episodic_entries format_time remaining summaries) ≤ remaining.
Proof.
  induction summaries as [|s l IH]; intros remaining; simpl; [lia|].
  destruct (String.eqb _ ""); [done|]. destruct (nonempty _) as [label|]; [|done].
  destruct (Nat.ltb_spec remaining (estimate_tokens (episodic_entry format_time label s))); simpl; [lia|].
  specialize (IH (remaining - estimate_tokens (episodic_entry format_time label s))).
  unfold sum_with in *. lia.
Qed.

(** The block of other sessions' summaries costs at most its budget, tags
    and header included. *)
Theorem episodic_fits_budget summaries budget text :
  format_episodic_for_injection format_time summaries budget = Some text →
  estimate_tokens text ≤ budget.
Proof.
  unfold format_episodic_for_injection. destruct (_ || _); [done|].
  set (header := _ + (_ + _)). destruct (Nat.leb_spec budget header) as [|Hlt]; [done|].
  pose proof (episodic_entries_cost summaries (budget - header)) as Hc.
  set (entries := episodic_entries _ _ _) in *.
  intros Ht. assert (text = open_tag +:+ episodic_header +:+ String.concat "" entries +:+ close_tag)
    as -> by (destruct entries; congruence).
  pose proof (concat_app_estimate entries).
  set (body := String.concat "" entries) in *.
  pose proof (estimate_tokens_app open_tag (episodic_header +:+ body +:+ close_tag)).
  pose proof (estimate_tokens_app episodic_header (body +:+ close_tag)).
  pose proof (estimate_tokens_app body close_tag).
  unfold header in *. lia.
Qed.
End inject_facts.

(** * The optimistic upsert

    The row of one (agent, session) pair.  [last_run_id] is a text cell: the id
    the code wrote, NULL, or something that does not parse. *)
Record SummaryRow := {
  row_summary : string;
  row_last_run_id : option string;
  row_source_label : option string;
}.

Section store.
Context `{U : UuidCrate}.

Definition run_to_string (r : RunId) : string := uuid_to_string (run_uuid r).

(** [parse_session_summary_row], as far as the writers use it: an unparseable
    id degrades to [None]. *)
Definition load_session_summary (row : option SummaryRow) : option (string * option RunId) :=
  r ← row; Some (row_summary r, c ← row_last_run_id r; MkRunId <$> parse_str c).

Definition new_row (text : string) (run_id : RunId) (label : string) : SummaryRow :=
  {| row_summary := text; row_last_run_id := Some (run_to_string run_id);
     row_source_label := Some label |}.

(** [UPDATE ... WHERE last_run_id = ?] or [IS NULL], then the [INSERT] that the
    unique constraint refuses when there is a row. *)
Definition upsert_session_summary_optimistic (text : string) (run_id : RunId) (label : string)
    (expected : option RunId) (row : option SummaryRow) : bool * option SummaryRow :=
  let updated :=
    match row with
    | Some r => bool_decide (row_last_run_id r = run_to_string <$> expected)
    | None => false
    end in
  if updated then (true, Some (new_row text run_id label))
  else if bool_decide (is_Some expected) then (false, row)
  else match row with
       | None => (true, Some (new_row text run_id label))
       | Some _ => (false, row)
       end.

(** Where a call of [generate_and_persist_summary] is.  [existing] and
    [expected] are the base it last loaded. *)
Inductive Writer :=
| WLoad
| WGenerate (attempt : nat) (existing : option string) (expected : option RunId)
| WUpsert (attempt : nat) (existing : option string) (expected : option RunId) (text : string)
| WReload (attempt : nat)
| WDone (persisted : bool).

Record SummaryState := {
  sm_row : option SummaryRow;
  sm_writers : gmap RunId Writer;
}.

(** The base taken from a load. *)
Definition base_of (row : option SummaryRow) (attempt : nat) : Writer :=
  match load_session_summary row with
  | Some (s, last) => WGenerate attempt (Some s) last
  | None => WGenerate attempt None None
  end.

(** What the environment decides at each step: whether a load or a statement
    fails, and what the model made of the base. *)
Inductive WriterStep :=
| SBegin
| SLoad (ok : bool)
| SGenerate (text : option string)
| SUpsert (statement_ok : bool)
| SReload (ok : bool).

Definition writer_step (label : string) (r : RunId) (a : WriterStep) (w : option Writer)
    (row : option SummaryRow) : option (Writer * option SummaryRow) :=
  match a, w with
  | SBegin, None => Some (WLoad, row)
  | SLoad ok, Some WLoad => Some (if ok then base_of row 1 else WGenerate 1 None None, row)
  | SGenerate None, Some (WGenerate _ _ _) => Some (WDone false, row)
  | SGenerate (Some text), Some (WGenerate n ex exp) => Some (WUpsert n ex exp text, row)
  | SUpsert true, Some (WUpsert n ex exp text) =>
      let '(persisted, row') := upsert_session_summary_optimistic text r label exp row in
      if persisted then Some (WDone true, row')
      else Some (if Nat.eqb n 3 then WDone false else WReload n, row')
  | SUpsert false, Some (WUpsert n ex exp text) =>
      Some (if Nat.ltb n 3 then WGenerate (S n) ex exp else WDone false, row)
  | SReload ok, Some (WReload n) => Some (if ok then base_of row (S n) else WDone false, row)
  | _, _ => None
  end.

Definition summary_step (label : string) (r : RunId) (a : WriterStep) (st : SummaryState)
    : option SummaryState :=
  match writer_step label r a (sm_writers st !! r) (sm_row st) with
  | Some (w, row) => Some {| sm_row := row; sm_writers := <[r := w]> (sm_writers st) |}
  | None => None
  end.

(** The run is not the one the stored row names already: its summary is written
    once, when it ends. *)
Definition new_run (row0 : option SummaryRow) (r : RunId) : Prop :=
  uuid_valid (run_uuid r) = true ∧
  ∀ row c, row0 = Some row → row_last_run_id row = Some c → parse_str c ≠ Some (run_uuid r).

(** Every interleaving of the writers of one session, one per run. *)
Inductive summary_reachable (label : string) (row0 : option SummaryRow) : SummaryState → Prop :=
| summary_start : summary_reachable label row0 {| sm_row := row0; sm_writers := ∅ |}
| summary_next st r a st' :
    summary_reachable label row0 st → new_run row0 r →
    summary_step label r a st = Some st' → summary_reachable label row0 st'.

(** Whether the upsert would be accepted against this row. *)
Definition cas_matches (expected : option RunId) (row : option SummaryRow) : Prop :=
  match row with
  | Some r => row_last_run_id r = run_to_string <$> expected
  | None => expected = None
  end.

#[export] Instance cas_matches_dec expected row : Decision (cas_matches expected row).
Proof. destruct row; unfold cas_matches; apply _. Defined.

Lemma upsert_spec text r label expected row :
  upsert_session_summary_optimistic text r label expected row =
  if decide (cas_matches expected row) then (true, Some (new_row text r label)) else (false, row).
Proof.
  unfold upsert_session_summary_optimistic. destruct row as [x|].
  - change (cas_matches expected (Some x)) with (row_last_run_id x = run_to_string <$> expected).
    destruct (decide _) as [H|H]; [by rewrite bool_decide_eq_true_2|].
    rewrite bool_decide_eq_false_2 by done. by destruct (bool_decide (is_Some expected)).
  - destruct expected as [e|]; [by rewrite decide_False|by rewrite decide_True].
Qed.

(** The steps left to a writer at most. *)
Definition writer_fuel (w : Writer) : nat :=
  match w with
  | WLoad => 9
  | WGenerate n _ _ => 3 * (3 - n) + 2
  | WUpsert n _ _ _ => 3 * (3 - n) + 1
  | WReload n => 3 * (3 - n)
  | WDone _ => 0
  end.

Definition attempt_ok (w : Writer) : Prop :=
  match w with
  | WGenerate n _ _ | WUpsert n _ _ _ => 1 ≤ n ≤ 3
  | WReload n => 1 ≤ n < 3
  | _ => True
  end.

(** ** What every interleaving keeps *)

(** The base a writer holds. *)
Definition writer_base (w : Writer) : option (option string * option RunId) :=
  match w with
  | WGenerate _ ex exp | WUpsert _ ex exp _ => Some (ex, exp)
  | _ => None
  end.

Definition cell_of (row : option SummaryRow) : option string := r ← row; row_last_run_id r.

(** A base whose upsert would be accepted is the current summary, unless the row
    has no id and the load failed. *)
Definition base_ok (row : option SummaryRow) (ex : option string) (exp : option RunId) : Prop :=
  cas_matches exp row →
  ex = row_summary <$> row ∨ (ex = None ∧ ∃ x, row = Some x ∧ row_last_run_id x = None).

Record summary_inv (row0 : option SummaryRow) (st : SummaryState) : Prop := {
  inv_base : ∀ r w ex exp, sm_writers st !! r = Some w → writer_base w = Some (ex, exp) →
    base_ok (sm_row st) ex exp;
  inv_expected : ∀ r w ex e, sm_writers st !! r = Some w → writer_base w = Some (ex, Some e) →
    uuid_valid (run_uuid e) = true ∧
    (new_run row0 e → sm_writers st !! e = Some (WDone true));
  inv_cell : ∀ c e, cell_of (sm_row st) = Some c → parse_str c = Some (run_uuid e) →
    new_run row0 e → sm_writers st !! e = Some (WDone true);
  inv_null : (∀ x, row0 = Some x → is_Some (row_last_run_id x)) →
    ∀ x, sm_row st = Some x → is_Some (row_last_run_id x);
}.

Context `{!UuidLaws U}.

Lemma run_to_string_inj e r : uuid_valid (run_uuid e) = true → uuid_valid (run_uuid r) = true →
  run_to_string e = run_to_string r → e = r.
Proof.
  intros He Hr H. unfold run_to_string in H.
  apply (f_equal parse_str) in H. rewrite !parse_to_string in H by done.
  injection H as H. destruct e, r; simpl in *; congruence.
Qed.

(** A step that leaves the row alone and moves [r] to a base that is in order. *)
Lemma inv_move row0 st r w :
  summary_inv row0 st → sm_writers st !! r ≠ Some (WDone true) →
  (∀ ex exp, writer_base w = Some (ex, exp) → base_ok (sm_row st) ex exp ∧
     ∀ e, exp = Some e → uuid_valid (run_uuid e) = true ∧
       (new_run row0 e → sm_writers st !! e = Some (WDone true))) →
  summary_inv row0 {| sm_row := sm_row st; sm_writers := <[r := w]> (sm_writers st) |}.
Proof.
  intros [H1 H2 H3 H4] Hr Hw.
  assert (Hdone : ∀ e, sm_writers st !! e = Some (WDone true) →
    <[r := w]> (sm_writers st) !! e = Some (WDone true)).
  { intros e He. rewrite lookup_insert_ne; [done|]. intros ->. done. }
  split; simpl; [intros r' w' ex exp|intros r' w' ex e|intros c e Hc Hp Hn|done].
  - destruct (decide (r' = r)) as [->|Hne]; simpl_lookup; [intros [= ->] Hb; by apply Hw|].
    intros; by eapply H1.
  - destruct (decide (r' = r)) as [->|Hne]; simpl_lookup.
    + intros [= ->] Hb. destruct (Hw ex (Some e) Hb) as [_ He].
      destruct (He e eq_refl) as [? Hd]. split; [done|]. auto.
    + intros Hl Hb. destruct (H2 r' w' ex e Hl Hb) as [? Hd]. split; [done|]. auto.
  - apply Hdone. by eapply H3.
Qed.

(** A fresh load gives a base that is in order. *)
Lemma base_of_ok row0 st n ex exp :
  summary_inv row0 st → writer_base (base_of (sm_row st) n) = Some (ex, exp) →
  base_ok (sm_row st) ex exp ∧
  ∀ e, exp = Some e → uuid_valid (run_uuid e) = true ∧
    (new_run row0 e → sm_writers st !! e = Some (WDone true)).
Proof.
  intros [_ _ H3 _]. unfold base_of, load_session_summary.
  destruct (sm_row st) as [x|] eqn:Hx; simpl.
  - intros [= <- <-]. split; [intros _; by left|]. intros e He.
    destruct (row_last_run_id x) as [c|] eqn:Hc; [|done]. simpl in He.
    apply fmap_Some in He as (u & Hu & ->). split; [by eapply parse_valid|].
    intros Hn. eapply (H3 c); [|done|done]. exact Hc.
  - intros [= <- <-]. split; [intros _; by left|]. done.
Qed.

Lemma inv_upsert row0 st label r n ex exp text :
  summary_inv row0 st → new_run row0 r → sm_writers st !! r = Some (WUpsert n ex exp text) →
  summary_inv row0 {| sm_row := Some (new_row text r label);
                      sm_writers := <[r := WDone true]> (sm_writers st) |}.
Proof.
  intros [H1 H2 H3 H4] [Hv Hn] Hr.
  split; simpl; [intros r' w' ex' exp'|intros r' w' ex' e|intros c e|].
  - destruct (decide (r' = r)) as [->|Hne]; simpl_lookup; [by intros [= <-]|].
    intros Hl Hb Hm. exfalso. simpl in Hm.
    destruct exp' as [e|]; [|done]. simpl in Hm. injection Hm as Hm.
    destruct (H2 r' w' ex' e Hl Hb) as [He Hd].
    assert (e = r) as -> by (by apply run_to_string_inj).
    specialize (Hd (conj Hv Hn)). congruence.
  - destruct (decide (r' = r)) as [->|Hne]; simpl_lookup; [by intros [= <-]|].
    intros Hl Hb. destruct (H2 r' w' ex' e Hl Hb) as [He Hd]. split; [done|]. intros Hne'.
    rewrite lookup_insert_ne; [auto|]. intros <-. specialize (Hd Hne'). congruence.
  - intros [= <-] Hp Hne. unfold run_to_string in Hp. rewrite parse_to_string in Hp by done.
    injection Hp as Hp. assert (e = r) as -> by (destruct e, r; simpl in *; congruence).
    by simpl_lookup.
  - intros _ x [= <-]. by eexists.
Qed.

Lemma summary_reachable_inv label row0 st :
  summary_reachable label row0 st → summary_inv row0 st.
Proof.
  induction 1 as [|st r a st' Hst IH Hnew Hstep].
  - split; simpl; [intros ???? H; by rewrite lookup_empty in H..| |].
    + intros c e Hc Hp [_ Hn]. destruct row0 as [x|]; [|done]. by destruct (Hn x c eq_refl Hc).
    + done.
  - unfold summary_step in Hstep.
    destruct (writer_step label r a (sm_writers st !! r) (sm_row st)) as [[w row]|] eqn:Hw; [|done].
    injection Hstep as <-.
    assert (Hbase : ∀ w0 ex exp, sm_writers st !! r = Some w0 → writer_base w0 = Some (ex, exp) →
      base_ok (sm_row st) ex exp ∧
      ∀ e, exp = Some e → uuid_valid (run_uuid e) = true ∧
        (new_run row0 e → sm_writers st !! e = Some (WDone true))).
    { intros w0 ex exp Hl Hb. split; [by eapply (inv_base _ _ IH)|]. intros e ->.
      by eapply (inv_expected _ _ IH). }
    destruct a as [|[]|[text|]|[]|[]]; simpl in Hw;
      destruct (sm_writers st !! r) as [[|n ex exp|n ex exp t|n|b]|] eqn:Hr; try done.
    1-5, 7-9: injection Hw as <- <-; apply inv_move; [done|congruence|intros ex' exp' Hb].
    + done.
    + by eapply base_of_ok.
    + injection Hb as <- <-. split; [|done]. intros Hm. unfold cas_matches in Hm.
      destruct (sm_row st) as [x|]; [right|by left]. split; [done|]. by exists x.
    + injection Hb as <- <-. by eapply Hbase.
    + done.
    + destruct (Nat.ltb n 3); [|done]. injection Hb as <- <-. by eapply Hbase.
    + by eapply base_of_ok.
    + done.
    + rewrite upsert_spec in Hw. destruct (decide _); injection Hw as <- <-.
      * by eapply inv_upsert.
      * apply inv_move; [done|congruence|]. intros ex' exp' Hb. by destruct (Nat.eqb n 3).
Qed.

(** C34: No update is lost.  Whatever the runs of a session do at the same time,
    an upsert the store accepts extends exactly the summary it replaces: the text
    was generated from the summary that is in the row at that moment. *)
Theorem no_lost_summary label row0 st r n ex exp text :
  summary_reachable label row0 st →
  (∀ x, row0 = Some x → is_Some (row_last_run_id x)) →
  sm_writers st !! r = Some (WUpsert n ex exp text) →
  fst (upsert_session_summary_optimistic text r label exp (sm_row st)) = true →
  ex = row_summary <$> sm_row st.
Proof.
  intros Hst Hnull Hr Hu. apply summary_reachable_inv in Hst.
  rewrite upsert_spec in Hu. destruct (decide (cas_matches exp (sm_row st))) as [Hm|]; [|done].
  destruct (inv_base _ _ Hst r _ ex exp Hr eq_refl Hm) as [|(_ & x & Hx & Hn)]; [done|].
  destruct (inv_null _ _ Hst Hnull x Hx). congruence.
Qed.

(** ** Every writer ends *)

Lemma writer_step_fuel label r a w row w' row' :
  writer_step label r a w row = Some (w', row') →
  (∀ w0, w = Some w0 → attempt_ok w0) →
  attempt_ok w' ∧ writer_fuel w' < match w with Some w0 => writer_fuel w0 | None => 10 end.
Proof.
  intros Hw Hok.
  assert (Hb : ∀ n, 1 ≤ n ≤ 3 → attempt_ok (base_of row n) ∧ writer_fuel (base_of row n) = 3 * (3 - n) + 2).
  { intros n Hn. unfold base_of. by destruct (load_session_summary row) as [[??]|]. }
  destruct w as [w0|]; [specialize (Hok w0 eq_refl)|];
    destruct a as [|[]|[text|]|[]|[]]; simpl in Hw; try done;
    try (destruct w0 as [|n ex exp|n ex exp t|n|b]; try done; simpl in Hok).
  all: try (destruct (upsert_session_summary_optimistic _ _ _ _ _) as [[] row1]).
  all: try (destruct (Nat.eqb_spec n 3)).
  all: try (destruct (Nat.ltb_spec n 3)).
  all: simplify_eq; try (simpl; lia).
  - destruct (Hb 1 ltac:(lia)) as [? ->]. simpl. split; [done|lia].
  - destruct (Hb (S n) ltac:(lia)) as [? ->]. simpl. split; [done|lia].
Qed.

(** A schedule is a list of steps, each by one run. *)
Fixpoint summary_run (label : string) (schedule : list (RunId * WriterStep)) (st : SummaryState)
    : option SummaryState :=
  match schedule with
  | [] => Some st
  | (r, a) :: rest =>
      match summary_step label r a st with
      | Some st' => summary_run label rest st'
      | None => None
      end
  end.

Definition steps_of (r : RunId) (schedule : list (RunId * WriterStep)) : nat :=
  length (filter (λ x, x.1 = r) schedule).

Definition fuel_left (st : SummaryState) (r : RunId) : nat :=
  match sm_writers st !! r with Some w => writer_fuel w | None => 10 end.

Lemma summary_run_fuel label schedule : ∀ st st' r,
  map_Forall (λ _ w, attempt_ok w) (sm_writers st) →
  summary_run label schedule st = Some st' →
  map_Forall (λ _ w, attempt_ok w) (sm_writers st') ∧
  steps_of r schedule + fuel_left st' r ≤ fuel_left st r.
Proof.
  induction schedule as [|[r' a] rest IH]; intros st st' r Hok; simpl; [by intros [= <-]|].
  unfold summary_step.
  destruct (writer_step label r' a (sm_writers st !! r') (sm_row st)) as [[w row]|] eqn:Hw; [|done].
  destruct (writer_step_fuel _ _ _ _ _ _ _ Hw) as [Hwok Hlt].
  { intros w0 Hl. by apply (Hok r'). }
  intros Hrun. apply (IH _ _ r) in Hrun as [Hend Hrun]; [|by apply map_Forall_insert_2].
  split; [done|].
  unfold steps_of in *. unfold fuel_left at 2 in Hrun. simpl in Hrun. unfold fuel_left at 2.
  destruct (decide (r' = r)) as [->|Hne].
  - rewrite filter_cons_True by done. rewrite lookup_insert_eq in Hrun. simpl length. lia.
  - rewrite filter_cons_False by done. by rewrite lookup_insert_ne in Hrun by done.
Qed.

(** The retries end.  In every interleaving a run takes at most ten steps to
    bring its summary in: at most three generations, and then it has stored the
    summary or given up. *)
Theorem summary_writer_terminates label row0 schedule st r :
  summary_run label schedule {| sm_row := row0; sm_writers := ∅ |} = Some st →
  steps_of r schedule ≤ 10 ∧
  (steps_of r schedule = 10 → ∃ persisted, sm_writers st !! r = Some (WDone persisted)).
Proof.
  intros H. apply (summary_run_fuel _ _ _ _ r) in H as [Hok Hf]; [|apply map_Forall_empty].
  unfold fuel_left at 2 in Hf. simpl in Hf. rewrite lookup_empty in Hf.
  split; [lia|]. intros Hten. rewrite Hten in Hf. unfold fuel_left in Hf.
  destruct (sm_writers st !! r) as [w|] eqn:Hw; [|lia]. apply Hok in Hw.
  destruct w as [|n ex exp|n ex exp t|n|b]; simpl in *; try lia. by exists b.
Qed.

End store.

Section store_witnesses.
Import SimpleUuid.

Definition run_a : RunId := MkRunId (MkUuid 10).
Definition run_b : RunId := MkRunId (MkUuid 11).
Definition row_before : SummaryRow :=
  {| row_summary := "S0"; row_last_run_id := Some (run_to_string (MkRunId (MkUuid 9)));
     row_source_label := Some "User chat" |}.

(** Both runs load the same base; the second is refused, reloads, and extends
    what the first wrote. *)
Definition race : list (RunId * WriterStep) :=
  [(run_a, SBegin); (run_b, SBegin); (run_a, SLoad true); (run_b, SLoad true);
   (run_a, SGenerate (Some "S0+a")); (run_b, SGenerate (Some "S0+b"));
   (run_a, SUpsert true); (run_b, SUpsert true); (run_b, SReload true);
   (run_b, SGenerate (Some "S0+a+b"))].

Definition race_end : option SummaryState :=
  summary_run "User chat" race {| sm_row := Some row_before; sm_writers := ∅ |}.

Lemma summary_run_reachable label row0 schedule : ∀ st st',
  summary_reachable label row0 st → Forall (λ x, new_run row0 x.1) schedule →
  summary_run label schedule st = Some st' → summary_reachable label row0 st'.
Proof.
  induction schedule as [|[r a] rest IH]; intros st st' Hst Hn; simpl; [by intros [= <-]|].
  apply Forall_cons in Hn as [Hr Hn]. destruct (summary_step label r a st) as [st1|] eqn:Hs; [|done].
  apply IH; [|done]. by eapply summary_next.
Qed.

Lemma no_lost_summary_witness :
  ∃ st, race_end = Some st ∧
    sm_writers st !! run_b = Some (WUpsert 2 (Some "S0+a") (Some run_a) "S0+a+b") ∧
    Some "S0+a" = row_summary <$> sm_row st.
Proof.
  destruct race_end as [st|] eqn:Hst; [|by vm_compute in Hst].
  assert (Hr : sm_writers st !! run_b = Some (WUpsert 2 (Some "S0+a") (Some run_a) "S0+a+b"))
    by (vm_compute in Hst; injection Hst as <-; reflexivity).
  exists st. split; [reflexivity|]. split; [exact Hr|].
  eapply (no_lost_summary "User chat" (Some row_before) st run_b); [|intros ? [= <-]; by eexists|exact Hr|].
  - eapply (summary_run_reachable _ _ race); [apply summary_start| |exact Hst].
    repeat (constructor; [split; [reflexivity|]; intros ? ? [= <-] [= <-]; vm_compute; discriminate|]).
    constructor.
  - vm_compute in Hst. injection Hst as <-. vm_compute. reflexivity.
Defined.

Lemma summary_writer_terminates_witness :
  steps_of run_b race ≤ 10 ∧
  (steps_of run_b race = 10 → ∃ persisted, (default {| sm_row := None; sm_writers := ∅ |} race_end).(sm_writers) !! run_b = Some (WDone persisted)).
Proof.
  eapply (summary_writer_terminates "User chat" (Some row_before) race).
  vm_compute. reflexivity.
Defined.

End store_witnesses.
