(* ===== verification/ContextBuild.v ===== *)
(** The context window of a request: [alms-runtime/src/context/mod.rs] and the
    compaction and assembly of [agent/context.rs].

    The fractions [compact_trigger_pct] and [compact_retain_pct] multiply the
    history budget in [f32]; that product is a function of the budget here.  The
    prompts compiled in from text files, the workspace prefix and the model's
    answer are arguments. *)
From S2P Require Import Prelude Ident Json Session LlmTypes Normalize ContextHistory Episodic.

Definition HISTORY_RESERVE : nat := 1000.

Record ContextConfig := {
  strategy : string;
  max_input_tokens : nat;
  trigger_of : nat → nat;      (* (compact_trigger_pct * budget as f32) as usize *)
  retain_of : nat → nat;       (* (compact_retain_pct * budget as f32) as usize *)
  summary_model : option string;
  summary_provider : option string;
  run_summary_mode : RunSummaryMode;
  run_summary_budget : nat;
  summary_max_tokens : Z;
}.

Section build.
Context (json_to_string : json → string) (path_exists : string → bool) (config : ContextConfig)
        (workspace_root : option string).

(** The pre-checks and filters in front of the strategies. *)
Definition history_after_dedup (history : list Message) : list Message :=
  if has_legacy_duplicate_run_boundary_markers history
  then filter_legacy_duplicate_run_boundary_markers history else history.

Definition without_peer_reasoning (agent : string) (history : list Message) : list Message :=
  filter (λ m, is_peer_reasoning_message m agent = false) history.

Definition effective_history (perspective_agent : option string) (history : list Message)
    : list Message :=
  match perspective_agent with
  | Some agent =>
      if existsb (λ m, is_peer_reasoning_message m agent) history
      then without_peer_reasoning agent history else history
  | None => history
  end.

Definition mapped_history (perspective_agent : option string) (history : list Message)
    : list Message :=
  match perspective_agent with
  | Some agent => (λ m, apply_perspective m agent) <$> history
  | None => history
  end.

(** The system messages in front and what they cost. *)
Definition prefix_messages (system_prompt : string) (episodic_summaries : option string)
    : list LlmMessage :=
  llm_system system_prompt :: (llm_system <$> option_list (nonempty episodic_summaries)).

Definition episodic_cost (episodic_summaries : option string) : nat :=
  match nonempty episodic_summaries with Some text => estimate_tokens text + 4 | None => 0 end.

Definition reserved_tokens (system_prompt current_input : string)
    (episodic_summaries : option string) : nat :=
  estimate_tokens system_prompt + estimate_tokens current_input +
  episodic_cost episodic_summaries + HISTORY_RESERVE.

Definition history_budget (system_prompt current_input : string)
    (episodic_summaries : option string) : nat :=
  max_input_tokens config - reserved_tokens system_prompt current_input episodic_summaries.

(** The [match self.config.strategy.as_str()]. *)
Definition select (history : list Message) (budget : nat) (messages : list LlmMessage)
    (existing_summary : option string) : list LlmMessage :=
  if String.eqb (strategy config) "full" then
    build_full json_to_string path_exists history budget messages workspace_root
  else if String.eqb (strategy config) "truncate" then
    build_truncate json_to_string path_exists history budget messages workspace_root
  else if String.eqb (strategy config) "compact" || String.eqb (strategy config) "sliding-summary" then
    build_compact json_to_string path_exists history budget messages existing_summary
      (retain_of config budget) workspace_root
  else build_truncate json_to_string path_exists history budget messages workspace_root.

Definition fresh_input (current_input : string) : list LlmMessage :=
  if String.eqb current_input "" then [] else [llm_user current_input].

Definition build_with_perspective (system_prompt : string) (history : list Message)
    (current_input : string) (existing_summary perspective_agent episodic_summaries : option string)
    : list LlmMessage :=
  let budget := history_budget system_prompt current_input episodic_summaries in
  let history_ref :=
    mapped_history perspective_agent
      (effective_history perspective_agent (history_after_dedup history)) in
  let messages :=
    select history_ref budget (prefix_messages system_prompt episodic_summaries) existing_summary in
  let messages := group_tool_calls messages in
  let messages := strip_orphaned_tool_results messages in
  let messages := messages ++ fresh_input current_input in
  normalize_for_llm messages (negb (String.eqb current_input "")).

Definition build (system_prompt : string) (history : list Message) (current_input : string)
    (existing_summary : option string) : list LlmMessage :=
  build_with_perspective system_prompt history current_input existing_summary None None.

(** * Compaction *)

(** [uncovered.iter().enumerate().rev()]: how many of the newest rows are kept.
    Display-only markers are free. *)
Definition marker_free_tokens (m : Message) : nat :=
  if is_stripped_display_marker m then 0 else estimate_session_message_tokens json_to_string m.

Definition kept_tail (retain_tokens : nat) (uncovered : list Message) : nat :=
  length (fit marker_free_tokens retain_tokens 0 (rev uncovered)).

Definition uncovered_tokens (uncovered : list Message) : nat :=
  sum_with (estimate_session_message_tokens json_to_string)
    (filter (λ m, is_stripped_display_marker m = false) uncovered).

Definition with_summary (text : string) (covered : nat) (now : Z) : ContextSummary :=
  {| summary_text := text; messages_covered := covered; summary_updated_at := Some now |}.

Definition clamp_covered (s : ContextSummary) (n : nat) : ContextSummary :=
  {| summary_text := summary_text s; messages_covered := Nat.min (messages_covered s) n;
     summary_updated_at := summary_updated_at s |}.

(** What one call decides before it talks to the model. *)
Inductive CompactPlan :=
| NothingToDo
| SkipMarkers (covered : nat)
| Summarize (sources : list Message) (covered : nat).

Definition plan_compaction (history : list Message) (current : ContextSummary)
    (overhead_tokens : nat) : CompactPlan :=
  let effective_budget := max_input_tokens config - overhead_tokens in
  let covered := messages_covered current in
  let uncovered := drop covered history in
  if Nat.ltb (uncovered_tokens uncovered) (trigger_of config effective_budget) then NothingToDo
  else
    let compress_end := length history - kept_tail (retain_of config effective_budget) uncovered in
    let to_compress := drop covered (take compress_end history) in
    match to_compress with
    | [] => NothingToDo
    | _ =>
        match selectable to_compress with
        | [] => SkipMarkers compress_end
        | sources => Summarize sources compress_end
        end
    end.

Definition role_label (self_name : option string) (m : Message) : string :=
  match from_agent_of m with
  | Some sender =>
      if bool_decide (self_name = Some sender) then "You (" +:+ sender +:+ ")" else sender
  | None => match msg_role m with
            | User => "User" | Assistant => "Assistant" | System => "System" | Tool => "Tool"
            end
  end.

Definition transcript (self_name : option string) (sources : list Message) : string :=
  String.concat lf1
    ((λ m, role_label self_name m +:+ ": " +:+
           to_display_string json_to_string (msg_content m)) <$> sources).

Definition has_agent_labels (sources : list Message) : bool :=
  existsb (λ m, bool_decide (is_Some (from_agent_of m))) sources.

(** [summarizer] is the system prompt, [fill] puts a transcript into the DM
    template. *)
Definition summary_request (summarizer : string) (fill : string → string) (self_name : option string)
    (current : ContextSummary) (sources : list Message) : list LlmMessage :=
  let t := transcript self_name sources in
  [llm_system summarizer;
   llm_user (if String.eqb (summary_text current) "" then "Summarize the following conversation:"
             else "Extend this existing summary with the new messages below." +:+ lf1 +:+
                  "Existing summary:" +:+ lf1 +:+ summary_text current +:+ lf1 +:+ lf1 +:+
                  "New messages to incorporate:");
   llm_user (if has_agent_labels sources then fill t else t)].

Section manager.
Context `{U : UuidCrate} `{CH : ChronoCrate} {St : Type} `{DB : SqliteStore St}.
Context (summarizer : string) (fill : string → string) (self_name : option string)
        (complete : list LlmMessage → Completion) (completion_error : AlmsError).

(** [session_manager.update_summary(...)?] followed by [Ok(current)]. *)
Definition store_summary (id : SessionId) (s : ContextSummary) (m : SessionManager St)
    : Result ContextSummary AlmsError * SessionManager St :=
  let '(r, m') := update_summary id s m in
  (match r with Ok _ => Ok s | Err e => Err e end, m').

Definition maybe_summarize (now : Z) (id : SessionId) (history : list Message)
    (current : ContextSummary) (overhead_tokens : nat) (m : SessionManager St)
    : Result ContextSummary AlmsError * SessionManager St :=
  if Nat.eqb (max_input_tokens config - overhead_tokens) 0 then (Ok current, m)
  else
    let current := clamp_covered current (length history) in
    match plan_compaction history current overhead_tokens with
    | NothingToDo => (Ok current, m)
    | SkipMarkers covered =>
        store_summary id (with_summary (summary_text current) covered now) m
    | Summarize sources covered =>
        match complete (summary_request summarizer fill self_name current sources) with
        | CompletionFailed => (Err completion_error, m)
        | answer =>
            match usable_text answer with
            | None => (Ok current, m)
            | Some text => store_summary id (with_summary text covered now) m
            end
        end
    end.

End manager.

(** * One request of a run

    [workspace_prefix] is the workspace's part of the system prompt for a budget
    ([None] without a workspace), [tool_loop] the guidance a rebuild adds,
    [dm_addendum] the text for a peer, [load_summaries] the store's query for at
    most so many other sessions. *)
Definition WORKSPACE_BUDGET_STEP_BYTES : nat := 1024.

Definition is_user_facing_context (context_id : string) : bool :=
  negb (starts_with context_id "dm:" || starts_with context_id "subagent_" ||
        starts_with context_id "job_" || starts_with context_id "notifications:" ||
        starts_with context_id "episodic:").

Definition fixed_system_prompt_for_budget (tool_loop : string) (dm_addendum : string → string)
    (base_prompt : string) (dm_peer : option string) : string :=
  base_prompt +:+ lf2 +:+ tool_loop +:+
  match dm_peer with Some peer => dm_addendum peer | None => "" end.

Definition workspace_prompt_budget_bytes (fixed_system_prompt : string) (other_context_tokens : nat)
    : nat :=
  let fixed_overhead :=
    estimate_tokens fixed_system_prompt + other_context_tokens + HISTORY_RESERVE * 2 in
  let headroom_tokens := (max_input_tokens config - fixed_overhead) / 2 in
  let budget_bytes := headroom_tokens * ESTIMATED_BYTES_PER_TOKEN in
  budget_bytes - budget_bytes mod WORKSPACE_BUDGET_STEP_BYTES.

Definition assemble_system_prompt (workspace_prefix : option (bool → nat → string))
    (base_prompt : string) (include_user : bool) (budget_bytes : nat) : string :=
  match workspace_prefix with
  | Some prefix =>
      let p := prefix include_user budget_bytes in
      if String.eqb p "" then base_prompt else base_prompt +:+ lf2 +:+ p
  | None => base_prompt
  end.

Definition load_episodic_summaries `{UuidCrate} (format_time : Z → string)
    (load_summaries : nat → Result (list SessionSummary) AlmsError) : option string :=
  let budget := run_summary_budget config in
  match load_summaries (budget / 30 + 5) with
  | Ok [] => None
  | Ok summaries => format_episodic_for_injection format_time summaries (budget - 4)
  | Err _ => None
  end.

Definition is_compact_strategy : bool :=
  String.eqb (strategy config) "compact" || String.eqb (strategy config) "sliding-summary".

Section request.
Context `{U : UuidCrate} `{CH : ChronoCrate} {St : Type} `{DB : SqliteStore St}.
Context (summarizer : string) (fill : string → string) (agent_name : option string)
        (complete : list LlmMessage → Completion) (completion_error : AlmsError).
Context (system_prompt tool_loop : string) (dm_addendum : string → string)
        (dm_implicit_reply : bool) (workspace_prefix : option (bool → nat → string))
        (format_time : Z → string)
        (load_summaries : nat → Result (list SessionSummary) AlmsError).

Record BuiltContext := { bc_messages : list LlmMessage; bc_workspace_budget_bytes : nat }.

Definition request_peer (context_id : string) : option string :=
  if dm_implicit_reply && starts_with context_id "dm:"
  then name ← agent_name; dm_peer context_id name else None.

Definition episodic_text (context_id : string) : option string :=
  if bool_decide (run_summary_mode config ≠ ModeOff) &&
     negb (String.eqb (classify_session_type context_id) "subagent")
  then load_episodic_summaries format_time load_summaries else None.

(** The summary a compacting request shows: what [maybe_summarize] returned. *)
Definition request_summary (now : Z) (id : SessionId) (history : list Message) (overhead : nat)
    (m : SessionManager St) : option string * SessionManager St :=
  if is_compact_strategy then
    let current := match get_summary id m with Ok s => s | Err _ => summary_default end in
    let '(r, m') := maybe_summarize summarizer fill agent_name complete completion_error now id
                      history current overhead m in
    (match r with Ok s => nonempty (Some (summary_text s)) | Err _ => None end, m')
  else (None, m).

Definition build_context_with_budget (now : Z) (id : SessionId) (context_id input : string)
    (m : SessionManager St) : BuiltContext * SessionManager St :=
  let include_user := is_user_facing_context context_id in
  let peer := request_peer context_id in
  let history := match get_context_history id m with Ok h => h | Err _ => [] end in
  let episodic := episodic_text context_id in
  let fixed := fixed_system_prompt_for_budget tool_loop dm_addendum system_prompt peer in
  let episodic_tokens :=
    match nonempty episodic with Some _ => run_summary_budget config | None => 0 end in
  let budget := workspace_prompt_budget_bytes fixed (estimate_tokens input + episodic_tokens) in
  let prompt := assemble_system_prompt workspace_prefix system_prompt include_user budget +:+
                match peer with Some p => dm_addendum p | None => "" end in
  let '(summary, m') := request_summary now id history (reserved_tokens prompt input episodic) m in
  let perspective := if starts_with context_id "dm:" then agent_name else None in
  ({| bc_messages := build_with_perspective prompt history input summary perspective episodic;
      bc_workspace_budget_bytes := budget |}, m').

End request.

(** The workspace's share leaves both reserves untouched: one for the builder,
    one for the history. *)
Lemma workspace_budget_spec fixed other :
  let b := workspace_prompt_budget_bytes fixed other in
  b mod WORKSPACE_BUDGET_STEP_BYTES = 0 ∧
  (b = 0 ∨ estimate_tokens fixed + other + HISTORY_RESERVE * 2 +
           2 * div_ceil b ESTIMATED_BYTES_PER_TOKEN ≤ max_input_tokens config).
Proof.
  unfold workspace_prompt_budget_bytes. cbv zeta.
  set (over := estimate_tokens fixed + other + HISTORY_RESERVE * 2).
  set (h := (max_input_tokens config - over) / 2). set (raw := h * ESTIMATED_BYTES_PER_TOKEN).
  assert (Hmod : raw - raw mod WORKSPACE_BUDGET_STEP_BYTES =
    WORKSPACE_BUDGET_STEP_BYTES * (raw / WORKSPACE_BUDGET_STEP_BYTES)).
  { pose proof (Nat.div_mod_eq raw WORKSPACE_BUDGET_STEP_BYTES). lia. }
  split; [rewrite Hmod, Nat.mul_comm; apply Nat.Div0.mod_mul|].
  destruct (Nat.eq_0_gt_0_cases h) as [Hz|Hz]; [left; unfold raw; rewrite Hz; done|right].
  assert (Hceil : div_ceil (raw - raw mod WORKSPACE_BUDGET_STEP_BYTES) ESTIMATED_BYTES_PER_TOKEN ≤ h).
  { apply div_ceil_le; [unfold ESTIMATED_BYTES_PER_TOKEN; lia|]. unfold raw. lia. }
  assert (2 * h ≤ max_input_tokens config - over) by (unfold h; apply Nat.Div0.mul_div_le).
  lia.
Qed.

(** Which contexts get [user.md], in terms of the session types. *)
Lemma user_facing_types context_id :
  is_user_facing_context context_id = true ↔
  classify_session_type context_id ∉ ["dm"; "subagent"; "job"; "notification"; "episodic"].
Proof.
  assert (Hin : ∀ s l, (s : string) ∈ l ↔ existsb (String.eqb s) l = true).
  { intros s l. rewrite existsb_exists. setoid_rewrite String.eqb_eq.
    rewrite list_elem_of_In. naive_solver. }
  rewrite Hin, not_true_iff_false. unfold is_user_facing_context, classify_session_type.
  destruct (starts_with context_id "dm:"), (starts_with context_id "subagent_"),
    (starts_with context_id "job_"), (starts_with context_id "notifications:"),
    (starts_with context_id "episodic:"), (starts_with context_id "telegram_"); done.
Qed.

(** * The assembled window *)

Lemma effective_history_filter agent history :
  effective_history (Some agent) history = without_peer_reasoning agent history.
Proof.
  simpl. destruct (existsb _ history) eqn:He; [done|]. symmetry. apply filter_all, Forall_forall.
  intros m Hm. destruct (is_peer_reasoning_message m agent) eqn:Hp; [|done].
  rewrite (proj2 (existsb_exists _ _)) in He; [done|]. exists m. by rewrite <- list_elem_of_In.
Qed.

Lemma history_after_dedup_filter history :
  history_after_dedup history = filter_legacy_duplicate_run_boundary_markers history.
Proof.
  unfold history_after_dedup. destruct (has_legacy_duplicate_run_boundary_markers history) eqn:H; [done|].
  by rewrite filter_legacy_id.
Qed.

(** The history a strategy sees, without the pre-checks that save copies. *)
Definition reference_history (perspective_agent : option string) (history : list Message)
    : list Message :=
  let deduped := filter_legacy_duplicate_run_boundary_markers history in
  match perspective_agent with
  | None => deduped
  | Some agent =>
      (λ m, apply_perspective m agent) <$>
        filter (λ m, is_peer_reasoning_message m agent = false) deduped
  end.

Definition selected_window (system_prompt : string) (history : list Message) (current_input : string)
    (existing_summary perspective_agent episodic_summaries : option string) : list LlmMessage :=
  select (reference_history perspective_agent history)
    (history_budget system_prompt current_input episodic_summaries)
    (prefix_messages system_prompt episodic_summaries) existing_summary.

(** The builder's shortcuts change nothing: it returns what filtering and
    mapping the whole history unconditionally would give. *)
Lemma build_reference system_prompt history current_input summary agent episodic :
  build_with_perspective system_prompt history current_input summary agent episodic =
  normalize_for_llm
    (strip_orphaned_tool_results
       (group_tool_calls (selected_window system_prompt history current_input summary agent episodic))
     ++ fresh_input current_input)
    (negb (String.eqb current_input "")).
Proof.
  unfold build_with_perspective, selected_window, reference_history.
  rewrite history_after_dedup_filter. destruct agent as [a|]; [|done].
  by rewrite effective_history_filter.
Qed.

Lemma call_ids_fresh_input current_input : call_ids (fresh_input current_input) = [].
Proof. unfold fresh_input. by destruct (String.eqb current_input ""). Qed.

Lemma call_ids_build system_prompt history current_input summary agent episodic :
  call_ids (build_with_perspective system_prompt history current_input summary agent episodic) =
  call_ids (selected_window system_prompt history current_input summary agent episodic).
Proof.
  rewrite build_reference, call_ids_normalize, call_ids_app, call_ids_fresh_input, app_nil_r.
  unfold strip_orphaned_tool_results. by rewrite call_ids_strip_orphans, call_ids_group.
Qed.

Lemma build_no_orphans system_prompt history current_input summary agent episodic :
  no_orphans (build_with_perspective system_prompt history current_input summary agent episodic).
Proof.
  rewrite build_reference. apply normalized_no_orphans.
  unfold fresh_input. destruct (String.eqb current_input ""); by repeat constructor.
Qed.

(** C33: What the model is shown of its tools is consistent.  Every tool result
    follows the call that asked for it; and when the calls of the window have
    distinct ids, every call is followed by its result, a synthetic one when it
    was interrupted. *)
Theorem tool_calls_and_results system_prompt history current_input summary agent episodic :
  let out := build_with_perspective system_prompt history current_input summary agent episodic in
  no_orphans out ∧
  (NoDup (call_ids (selected_window system_prompt history current_input summary agent episodic)) →
   ∀ l1 m l2 id, out = l1 ++ m :: l2 → id ∈ ids_of m →
     ∃ r, r ∈ l2 ∧ role r = "tool" ∧ tool_call_id r = Some id).
Proof.
  intros out. split; [apply build_no_orphans|]. intros Hnd.
  apply answered_after; [apply build_no_orphans|unfold out; by rewrite call_ids_build|].
  intros id Hid. unfold out in *. rewrite build_reference in *.
  by apply (canon_answered _ (normalize_shape _ _)).
Qed.

(** * The budget *)

Definition history_cost (window : list LlmMessage) : nat :=
  sum_with estimate_llm_message_tokens window.

(** The heading of the summary block costs ten tokens more than it is charged. *)
Lemma summary_block_cost text :
  estimate_llm_message_tokens (summary_block text) ≤ estimate_tokens text + 4 + 10.
Proof.
  unfold estimate_llm_message_tokens. cbn [tool_calls summary_block llm_system llm_text].
  rewrite Nat.add_0_r. unfold estimate_tokens. apply div_ceil_le; [unfold ESTIMATED_BYTES_PER_TOKEN; lia|].
  pose proof (div_ceil_upper (String.length text) ESTIMATED_BYTES_PER_TOKEN) as H.
  change (String.length (content_str (summary_block text))) with (42 + String.length text).
  unfold ESTIMATED_BYTES_PER_TOKEN in *. lia.
Qed.

Lemma history_cost_app a b : history_cost (a ++ b) = history_cost a + history_cost b.
Proof. apply sum_list_with_app. Qed.

Lemma history_cost_rows rows :
  history_cost ((λ m, session_msg_to_llm json_to_string path_exists m workspace_root) <$> rows) =
  sum_with (row_cost json_to_string path_exists workspace_root 0) rows.
Proof.
  unfold history_cost, sum_with. induction rows as [|m l IH]; [done|].
  rewrite fmap_cons. cbn [sum_list_with]. rewrite IH. unfold row_cost. lia.
Qed.

Lemma row_cost_overhead k rows :
  sum_with (row_cost json_to_string path_exists workspace_root 0) rows ≤
  sum_with (row_cost json_to_string path_exists workspace_root k) rows.
Proof. unfold sum_with. induction rows as [|m l IH]; simpl; [done|]. unfold row_cost in *. lia. Qed.

Lemma select_cost history budget messages summary :
  history_cost (select history budget messages summary) ≤ history_cost messages + budget + 10.
Proof.
  assert (Ht : history_cost (build_truncate json_to_string path_exists history budget messages workspace_root)
            ≤ history_cost messages + budget + 10).
  { destruct (truncate_keeps_newest_rows json_to_string path_exists workspace_root history budget messages)
      as (w & -> & old & _ & Hw & _).
    rewrite history_cost_app, history_cost_rows. lia. }
  unfold select. destruct (String.eqb _ "full"); [|destruct (String.eqb _ "truncate"); [done|]].
  - destruct (full_keeps_oldest json_to_string path_exists workspace_root history budget messages)
      as (w & rest & -> & _ & Hw & _).
    rewrite history_cost_app, history_cost_rows. lia.
  - destruct (_ || _); [|done].
    destruct (compact_window json_to_string path_exists workspace_root history budget messages summary
                (retain_of config budget)) as (shown & w & -> & _ & _ & Hw & _).
    rewrite !history_cost_app, history_cost_rows.
    pose proof (row_cost_overhead 4 w).
    destruct shown as [t|]; [pose proof (summary_block_cost t)|];
      unfold history_cost, sum_with in *; cbn in *; lia.
Qed.

(** C40: How far a window can go over the limit.  By the code's own estimate
    the messages selected, the input and the reserve together take at most ten
    tokens more than [max_input_tokens], the ten being the heading of a summary,
    which no budget charges ([heading_over_limit] is such a window).  Only when
    system prompt, input, summaries of other sessions and reserve alone exceed
    the limit do they set the bound instead: the history then adds nothing but
    that heading. *)
Theorem window_fits_model system_prompt history current_input summary agent episodic :
  history_cost (selected_window system_prompt history current_input summary agent episodic) +
    estimate_tokens current_input + HISTORY_RESERVE ≤
  max_input_tokens config `max` reserved_tokens system_prompt current_input episodic + 10.
Proof.
  unfold selected_window.
  pose proof (select_cost (reference_history agent history)
    (history_budget system_prompt current_input episodic) (prefix_messages system_prompt episodic) summary) as Hs.
  assert (Hp : history_cost (prefix_messages system_prompt episodic) ≤
    estimate_tokens system_prompt + episodic_cost episodic).
  { unfold prefix_messages, episodic_cost, history_cost, sum_with.
    destruct (nonempty episodic) as [t|]; simpl; unfold estimate_llm_message_tokens, content_str; simpl; lia. }
  unfold history_budget, reserved_tokens in *. lia.
Qed.

(** * Compaction *)

(** The rows a compaction covers are all put into the transcript, and the rows it
    leaves verbatim fit the retained share. *)
Lemma plan_summarize history current overhead sources covered :
  messages_covered current ≤ length history →
  plan_compaction history current overhead = Summarize sources covered →
  messages_covered current < covered ≤ length history ∧
  sources = selectable (drop (messages_covered current) (take covered history)) ∧ sources ≠ [] ∧
  sum_with marker_free_tokens (drop covered history) ≤
    retain_of config (max_input_tokens config - overhead).
Proof.
  unfold plan_compaction. intros Hle.
  set (budget := max_input_tokens config - overhead). set (c := messages_covered current) in *.
  destruct (Nat.ltb _ _); [done|].
  set (k := kept_tail _ _). set (e := length history - k).
  assert (Hk : k ≤ length history - c).
  { unfold k, kept_tail. destruct (fit_spec marker_free_tokens (retain_of config budget)
      (rev (drop c history)) 0 ltac:(lia)) as (rest & Hf & _).
    apply (f_equal (@length Message)) in Hf. rewrite length_rev, length_drop, length_app in Hf. lia. }
  destruct (drop c (take e history)) as [|x l] eqn:Hc; [done|].
  destruct (selectable (x :: l)) as [|y ys] eqn:Hsel; [done|]. intros [= <- <-].
  assert (Hlen : 0 < length (drop c (take e history))) by (rewrite Hc; simpl; lia).
  rewrite length_drop, length_take in Hlen.
  split_and!; [lia|lia|by rewrite Hc|done|].
  destruct (fit_spec marker_free_tokens (retain_of config budget) (rev (drop c history)) 0 ltac:(lia))
    as (rest & Hf & Hsum & _).
  assert (Hlk : length (fit marker_free_tokens (retain_of config budget) 0 (rev (drop c history))) = k)
    by done.
  set (kept := fit _ _ _ _) in *.
  assert (Hdrop : drop e history = rev kept).
  { apply (f_equal (@rev Message)) in Hf. rewrite rev_involutive, rev_app_distr in Hf.
    assert (Hr : length (rev rest) = e - c).
    { apply (f_equal (@length Message)) in Hf. rewrite length_app, length_drop, !length_rev in Hf.
      rewrite length_rev. unfold e. lia. }
    replace e with (c + (e - c)) by lia. rewrite <- drop_drop, Hf, <- Hr. apply drop_app_length. }
  rewrite Hdrop, sum_with_rev. lia.
Qed.
(** Below the trigger nothing is summarised. *)
Lemma plan_below_trigger history current overhead :
  uncovered_tokens (drop (messages_covered current) history) <
    trigger_of config (max_input_tokens config - overhead) →
  plan_compaction history current overhead = NothingToDo.
Proof. intros H. unfold plan_compaction. by rewrite (proj2 (Nat.ltb_lt _ _) H). Qed.

(** Between the two thresholds compaction loses history.  The window is cut at
    the retained share of the budget, but the summary is only extended once the
    rows it does not cover reach the higher trigger; in between, the oldest rows
    that the summary does not cover are in neither. *)
Theorem compact_gap history current overhead messages summary budget :
  budget = max_input_tokens config - overhead →
  uncovered_tokens (drop (messages_covered current) history) < trigger_of config budget →
  retain_of config budget <
    sum_with (row_cost json_to_string path_exists workspace_root 4)
      (selectable (drop (messages_covered current) history)) →
  plan_compaction history current overhead = NothingToDo ∧
  ∃ shown lost window,
    build_compact json_to_string path_exists history budget messages summary
      (retain_of config budget) workspace_root =
    messages ++ (summary_block <$> option_list shown) ++
      ((λ m, session_msg_to_llm json_to_string path_exists m workspace_root) <$> window) ∧
    selectable (drop (messages_covered current) history) = lost ++ window ∧ lost ≠ [].
Proof.
  intros -> Hu Hr. split; [by apply plan_below_trigger|].
  destruct (compact_window json_to_string path_exists workspace_root history
    (max_input_tokens config - overhead) messages summary
    (retain_of config (max_input_tokens config - overhead))) as (shown & w & -> & _ & Hw & _).
  rewrite <- (take_drop (messages_covered current) history) in Hw at 1.
  destruct (newest_window_tail _ _ _ _ _ _ _ _ Hw) as [_ (lost & Hne & Hl)]; [lia|].
  exists shown, lost, w. by split_and!.
Qed.

Section outcomes.
Context `{U : UuidCrate} `{CH : ChronoCrate} {St : Type} `{DB : SqliteStore St}.
Context (summarizer : string) (fill : string → string) (self_name : option string)
        (complete : list LlmMessage → Completion) (completion_error : AlmsError).

Lemma store_summary_ok id s (m m' : SessionManager St) s' :
  store_summary id s m = (Ok s', m') → s' = s ∧ summaries m' !! id = Some s.
Proof.
  unfold store_summary, update_summary. destruct (summaries m !! id); [|done].
  intros [= <- <-]. split; [done|]. simpl. by simpl_lookup.
Qed.

Lemma plan_skip history current overhead covered :
  plan_compaction history current overhead = SkipMarkers covered →
  selectable (drop (messages_covered current) (take covered history)) = [].
Proof.
  unfold plan_compaction. destruct (Nat.ltb _ _); [done|].
  match goal with |- context [drop ?c (take ?e history)] => destruct (drop c (take e history)) as [|x l] eqn:Hc end;
    [done|].
  destruct (selectable (x :: l)) eqn:Hs; [|done]. intros [= <-]. by rewrite Hc.
Qed.

(** A row leaves the verbatim part of the context only into a summary.
    Whenever [maybe_summarize] returns, either the summary text is unchanged and
    only display-only markers were passed over, or every other row it now covers
    was in the transcript of an answer that passed the screen, and that summary
    is the one the session manager holds. *)
Theorem compaction_accounts_for_rows now id history current overhead (m m' : SessionManager St) s' :
  maybe_summarize summarizer fill self_name complete completion_error now id history current
    overhead m = (Ok s', m') →
  let c := Nat.min (messages_covered current) (length history) in
  let passed := selectable (drop c (take (messages_covered s') history)) in
  (summary_text s' = summary_text current ∧ passed = []) ∨
  (usable_text (complete (summary_request summarizer fill self_name
       (clamp_covered current (length history)) passed)) = Some (summary_text s') ∧
   c < messages_covered s' ≤ length history ∧ summaries m' !! id = Some s').
Proof.
  unfold maybe_summarize.
  assert (Hnone : ∀ n, n ≤ Nat.min (messages_covered current) (length history) ∨ length history ≤ Nat.min (messages_covered current) (length history) →
    selectable (drop (Nat.min (messages_covered current) (length history)) (take n history)) = []).
  { intros n Hn. rewrite drop_ge; [done|]. rewrite length_take. lia. }
  destruct (Nat.eqb _ 0).
  { intros [= <- <-]. left. split; [done|]. apply Hnone. lia. }
  destruct (plan_compaction history (clamp_covered current (length history)) overhead)
    as [|covered|sources covered] eqn:Hp.
  - intros [= <- <-]. left. split; [done|]. apply Hnone. simpl. lia.
  - intros H. apply store_summary_ok in H as [-> _]. left. split; [done|].
    by apply plan_skip in Hp.
  - apply plan_summarize in Hp as (Hc & -> & _ & _); [|simpl; lia]. simpl in Hc.
    set (req := summary_request _ _ _ _ _).
    destruct (complete req) as [|content finish] eqn:Hr; [done|].
    destruct (usable_text (Completed content finish)) as [text|] eqn:Hu.
    + intros H. apply store_summary_ok in H as [-> Hs]. right. split; [|done].
      change (usable_text (complete req) = Some text). by rewrite Hr.
    + intros [= <- <-]. left. split; [done|]. apply Hnone. simpl. lia.
Qed.

End outcomes.
End build.

(** * Witnesses *)

Section witnesses.

Definition example_config : ContextConfig :=
  {| strategy := "compact"; max_input_tokens := 1100;
     trigger_of := (λ b, b * 8 / 10); retain_of := (λ b, b * 4 / 10);
     summary_model := None; summary_provider := None; run_summary_mode := ModeOff;
     run_summary_budget := 0; summary_max_tokens := 1000 |}.

Definition no_json (_ : json) : string := "{}".
Definition no_files (_ : string) : bool := false.

Definition row (id text : string) (r : Role) : Message :=
  {| msg_id := id; msg_role := r; msg_content := Text text; msg_timestamp := 0;
     msg_metadata := None |}.

(** Three rows of some twenty tokens each: sixty of a hundred, between the
    retained forty and the trigger at eighty. *)
Definition long_text : string := "sixty bytes of text, which is an estimate of twenty tokens..".
Definition gap_history : list Message :=
  [row "m1" long_text User; row "m2" long_text Assistant; row "m3" long_text User].

Lemma compact_gap_witness :
  plan_compaction no_json example_config gap_history summary_default 1000 = NothingToDo ∧
  ∃ shown lost window,
    build_compact no_json no_files gap_history 100 [] None 40 None =
    [] ++ (summary_block <$> option_list shown) ++
      ((λ m, session_msg_to_llm no_json no_files m None) <$> window) ∧
    selectable gap_history = lost ++ window ∧ lost ≠ [].
Proof.
  apply (compact_gap no_json no_files example_config None gap_history summary_default 1000 [] None 100);
    [reflexivity|vm_compute; lia|vm_compute; lia].
Defined.

(** A call that was interrupted: its row has no result row after it. *)
Definition open_call : list Message :=
  [{| msg_id := "m1"; msg_role := Assistant; msg_content := ToolCall "shell" (JObj []);
      msg_timestamp := 0; msg_metadata := Some (JObj [("tool_call_id", JStr "c1")]) |}].

Definition truncate_config : ContextConfig :=
  {| strategy := "truncate"; max_input_tokens := 2000; trigger_of := id; retain_of := id;
     summary_model := None; summary_provider := None; run_summary_mode := ModeOff;
     run_summary_budget := 0; summary_max_tokens := 1000 |}.

Lemma tool_calls_and_results_witness :
  ∃ l1 m l2,
    build_with_perspective no_json no_files truncate_config None "sys" open_call "hi" None None None =
      l1 ++ m :: l2 ∧ "c1" ∈ ids_of m ∧
    ∃ r, r ∈ l2 ∧ role r = "tool" ∧ tool_call_id r = Some "c1".
Proof.
  set (out := build_with_perspective _ _ _ _ _ _ _ _ _ _).
  assert (Hout : out = take 1 out ++ match out !! 1 with Some m => m | None => llm_user "" end :: drop 2 out)
    by (vm_compute; reflexivity).
  eexists _, _, _. split; [exact Hout|].
  assert (Hid : "c1" ∈ ids_of (match out !! 1 with Some m => m | None => llm_user "" end))
    by (vm_compute; by left).
  split; [exact Hid|].
  eapply (proj2 (tool_calls_and_results no_json no_files truncate_config None "sys" open_call "hi"
    None None None)); [|exact Hout|exact Hid].
  vm_compute. repeat constructor. intros H. by apply not_elem_of_nil in H.
Defined.

(** A summary that only just fits the budget takes its heading past the limit. *)
Example heading_over_limit :
  let config := {| strategy := "compact"; max_input_tokens := 1020; trigger_of := id; retain_of := id;
                   summary_model := None; summary_provider := None; run_summary_mode := ModeOff;
                   run_summary_budget := 0; summary_max_tokens := 1000 |} in
  let summary := Some "They agreed on a plan for this week" in
  reserved_tokens "Hi." "go on" None ≤ 1020 ∧
  history_cost (selected_window no_json no_files config None "Hi." [] "go on" summary None None) +
    estimate_tokens "go on" + HISTORY_RESERVE = 1029.
Proof. vm_compute. split; [lia|reflexivity]. Qed.

Import SimpleUuid SimpleChrono NullStore.

Definition the_session : SessionId := MkSessionId (MkUuid 5).
Definition example_manager : SessionManager unit :=
  set_summaries <[the_session := summary_default]> (session_manager_new session_config_default).

Definition small_config : ContextConfig :=
  {| strategy := "compact"; max_input_tokens := 1050;
     trigger_of := (λ b, b * 8 / 10); retain_of := (λ b, b * 4 / 10);
     summary_model := None; summary_provider := None; run_summary_mode := ModeOff;
     run_summary_budget := 0; summary_max_tokens := 1000 |}.

Definition good_answer (_ : list LlmMessage) : Completion :=
  Completed (Some "They agreed on a plan.") (Some "stop").

Lemma compaction_accounts_for_rows_witness :
  let r := maybe_summarize no_json small_config "sys" id None good_answer (Runtime "x") 7 the_session
             gap_history summary_default 1000 example_manager in
  r.1 = Ok (with_summary "They agreed on a plan." 2 7) ∧
  ((summary_text (with_summary "They agreed on a plan." 2 7) = "" ∧
    selectable (drop 0 (take 2 gap_history)) = []) ∨
   (usable_text (good_answer (summary_request no_json "sys" id None
      (clamp_covered summary_default 3) (selectable (drop 0 (take 2 gap_history))))) =
      Some "They agreed on a plan." ∧
    0 < 2 ≤ 3 ∧ summaries r.2 !! the_session = Some (with_summary "They agreed on a plan." 2 7))).
Proof.
  intros r.
  assert (Hr : r = (Ok (with_summary "They agreed on a plan." 2 7), r.2)) by (vm_compute; reflexivity).
  split; [by rewrite Hr|].
  exact (compaction_accounts_for_rows no_json small_config "sys" id None good_answer (Runtime "x") 7
    the_session gap_history summary_default 1000 example_manager r.2 _ Hr).
Defined.

End witnesses.
