(* ===== verification/ToolResults.v ===== *)
(** What a run leaves in its session for each tool call, and what a later run
    reads back: [alms-runtime/src/agent/loop_impl.rs] (persistence of calls and
    results), [agent/dm.rs] and [agent/helpers.rs].

    [json_to_string] and [from_str] are [serde_json]'s; fresh message ids and
    clock readings are arguments.  A failed append only logs, so what the code
    appends is the list of messages it builds. *)
From stdpp Require Import pretty.
From S2P Require Import Prelude Ident Json Run Session LlmTypes Normalize ContextHistory Truncate ContextBuild.

(** * Did a tool succeed? *)

Definition as_i64 (j : json) : option Z :=
  match j with
  | JNum n => if (- 2 ^ 63 <=? n)%Z && (n <=? i64_max)%Z then Some n else None
  | _ => None
  end.

Definition int_member (k : string) (j : json) : option Z := v ← json_get k j; as_i64 v.
Definition str_member (k : string) (j : json) : option string := v ← json_get k j; as_str v.
Definition bool_member (k : string) (j : json) : option bool := v ← json_get k j; as_bool v.

(** The checks in their order; each [return false] ends them. *)
Definition tool_result_ok (value : json) : bool :=
  match value with
  | JObj _ =>
      if match int_member "exit_code" value with Some c => negb (c =? 0)%Z | None => false end
      then false
      else if existsb (λ k, bool_decide (bool_member k value = Some true))
                ["user_denied"; "approval_unavailable"] then false
      else if bool_decide (is_Some (nonempty (str_member "error" value))) then false
      else if match int_member "status" value with Some s => (400 <=? s)%Z | None => false end
      then false
      else if match str_member "status" value with
              | Some s => eq_ignore_ascii_case s "failed" || eq_ignore_ascii_case s "error"
              | None => false
              end then false
      else true
  | _ => true
  end.

(** * Metadata of the rows *)

(** The agent as far as the rows name it. *)
Record RunIdentity := {
  ri_agent_name : option string;
  ri_agent_id : AgentId;
  ri_run_id : option RunId;
}.

Section rows.
Context `{U : UuidCrate}.
Context (json_to_string : json → string) (from_str : string → option json) (self : RunIdentity).

Definition dm_reasoning_metadata (is_dm : bool) : option json :=
  if is_dm then
    Some (JObj [("message_type", JStr "reasoning");
                ("from_agent", JStr (default "unknown" (ri_agent_name self)));
                ("from_agent_id", JStr (uuid_to_string (agent_uuid (ri_agent_id self))));
                ("run_id", JStr (match ri_run_id self with
                                 | Some r => uuid_to_string (run_uuid r) | None => "" end))])
  else None.

Definition dm_marker_metadata (is_dm : bool) : option json :=
  if is_dm then
    (λ name, JObj [("from_agent", JStr name);
                   ("from_agent_id", JStr (uuid_to_string (agent_uuid (ri_agent_id self))));
                   ("message_type", JStr "dm")]) <$> ri_agent_name self
  else None.

(** [for (k, v) in r_map { base_map.insert(k, v) }]. *)
Definition insert_all (r base : list (string * json)) : list (string * json) :=
  foldl (λ acc '(k, v), member_insert k v acc) base r.

Definition merge_reasoning_metadata (base : json) (is_dm : bool) : json :=
  match dm_reasoning_metadata is_dm with
  | Some reasoning =>
      match base, reasoning with
      | JObj b, JObj r => JObj (insert_all r b)
      | _, _ => JNull
      end
  | None => base
  end.

Definition merge_reasoning_blocks (base : option json) (reasoning_trace : option string)
    : option json :=
  match base, nonempty reasoning_trace with
  | None, None => None
  | Some b, None => Some b
  | base, Some text =>
      let blocks := JArr [JObj [("text", JStr text)]] in
      match base with
      | Some (JObj map) => Some (JObj (member_insert "reasoning_blocks" blocks map))
      | _ => Some (JObj [("reasoning_blocks", blocks)])
      end
  end.

(** A row; ids and clock readings are the caller's. *)
Definition mk_row (id : string) (now : Z) (r : Role) (c : Content) (md : option json) : Message :=
  {| msg_id := id; msg_role := r; msg_content := c; msg_timestamp := now; msg_metadata := md |}.

(** The text row in front of the calls, if there is one. *)
Definition text_row (id : string) (now : Z) (content reasoning_trace : option string) (is_dm : bool)
    : list Message :=
  let reasoning_meta := dm_reasoning_metadata is_dm in
  let r := if bool_decide (is_Some reasoning_meta) then User else Assistant in
  match nonempty content with
  | Some text => [mk_row id now r (Text text) (merge_reasoning_blocks reasoning_meta reasoning_trace)]
  | None =>
      match nonempty reasoning_trace with
      | Some trace => [mk_row id now r (Text "") (merge_reasoning_blocks reasoning_meta (Some trace))]
      | None => []
      end
  end.

Definition call_row (id : string) (now : Z) (is_dm : bool) (invocation_id : string)
    (tc : LlmToolCall) : Message :=
  let base_meta := JObj [("tool_call_id", JStr (tc_id tc)); ("tool_invocation_id", JStr invocation_id)] in
  let '(r, md) :=
    if bool_decide (is_Some (dm_reasoning_metadata is_dm))
    then (User, Some (merge_reasoning_metadata base_meta is_dm)) else (Assistant, Some base_meta) in
  mk_row id now r
    (ToolCall (fc_name (tc_function tc)) (normalize_tool_args from_str (fc_arguments (tc_function tc))))
    md.

(** [tool_calls.iter().zip(invocation_ids)]. *)
Definition persist_assistant_tool_calls (id : string) (now : Z)
    (content reasoning_trace : option string) (tool_calls : list LlmToolCall)
    (invocation_ids : list string) (is_dm : bool) : list Message :=
  text_row id now content reasoning_trace is_dm ++
  zip_with (λ tc inv, call_row id now is_dm inv tc) tool_calls invocation_ids.

(** * Results *)

Context (env : SpillEnv) (policy : ToolOutputTruncatePolicy) (spill_root : option Path).

(** The text of a result and whether the tool succeeded; [error] renders an
    [AlmsError]. *)
Definition raw_result (result : Result json string) : string * bool :=
  match result with
  | Ok value => (json_to_string value, tool_result_ok value)
  | Err e => ("Error: " +:+ e, false)
  end.

Definition result_metadata (ok : bool) (invocation_id : string) (o : TruncateOutcome) : json :=
  let base := [("ok", JBool ok); ("tool_invocation_id", JStr invocation_id)] in
  JObj (if to_truncated o then
          let m := member_insert "truncated_in_loop" (JBool true) base in
          let m := member_insert "original_bytes" (JNum (Z.of_nat (to_original_bytes o))) m in
          let m := member_insert "original_lines" (JNum (Z.of_nat (to_original_lines o))) m in
          match to_output_path o with
          | Some path => member_insert "spill_path" (JStr path) m
          | None => m
          end
        else base).

Definition result_row (id : string) (now : Z) (is_dm : bool) (invocation_id : string)
    (tc : LlmToolCall) (ok : bool) (o : TruncateOutcome) : Message :=
  let base_meta := result_metadata ok invocation_id o in
  let '(r, md) := if is_dm then (User, Some (merge_reasoning_metadata base_meta is_dm))
                  else (Tool, Some base_meta) in
  mk_row id now r
    (ToolResult (tc_id tc) (default (JStr (to_content o)) (from_str (to_content o)))) md.

(** The per-run records of a call and of its result. *)
Definition call_record (seq : Z) (now : Z) (invocation_id : string) (tc : LlmToolCall)
    : ToolCallRecord :=
  {| tc_seq := seq; tc_role := RoleAssistant; tc_tool_name := Some (fc_name (tc_function tc));
     tc_tool_id := Some (tc_id tc); tc_tool_invocation_id := Some invocation_id;
     tc_params := Some (fc_arguments (tc_function tc)); tc_result := None; tc_timestamp := now;
     tc_from_agent := ri_agent_name self |}.

Definition result_record (seq : Z) (now : Z) (invocation_id : string) (tc : LlmToolCall)
    (content : string) : ToolCallRecord :=
  {| tc_seq := seq; tc_role := RoleTool; tc_tool_name := Some (fc_name (tc_function tc));
     tc_tool_id := Some (tc_id tc); tc_tool_invocation_id := Some invocation_id;
     tc_params := None; tc_result := Some content; tc_timestamp := now;
     tc_from_agent := ri_agent_name self |}.

(** The row, the record and the content the live conversation continues with. *)
Definition persist_one_tool_result (fs : Files) (seq : Z) (id : string) (now : Z) (is_dm : bool)
    (invocation_id : string) (tc : LlmToolCall) (result : Result json string)
    : Files * (Message * ToolCallRecord * string) :=
  let '(raw_content, ok) := raw_result result in
  let '(fs', outcome) := truncate env fs raw_content policy (tc_id tc) spill_root in
  let content := to_content outcome in
  (fs', (result_row id now is_dm invocation_id tc ok outcome,
         result_record seq now invocation_id tc content, content)).

(** [process_tool_results]: the rows appended, the records and the live messages
    pushed. *)
Fixpoint process_tool_results (fs : Files) (seq : Z) (id : string) (now : Z) (is_dm : bool)
    (batch : list (LlmToolCall * Result json string * string))
    : Files * (list Message * list ToolCallRecord * list LlmMessage) :=
  match batch with
  | [] => (fs, ([], [], []))
  | (tc, result, inv) :: rest =>
      let '(fs1, (row, record, content)) :=
        persist_one_tool_result fs seq id now is_dm inv tc result in
      let '(fs2, (rows, records, live)) := process_tool_results fs1 (seq + 1) id now is_dm rest in
      (fs2, (row :: rows, record :: records, llm_tool_result (tc_id tc) content :: live))
  end.

(** The audit log's and the event stream's copy of a result. *)
Definition truncate_for_emit (fs : Files) (call_id : string) (value : json) : Files * json :=
  if negb (is_active policy) then (fs, value)
  else
    let '(fs', outcome) := truncate env fs (json_to_string value) policy call_id spill_root in
    (fs', if to_truncated outcome then JStr (to_content outcome) else value).

End rows.

(** * Conflicting direct-message tools *)

Section dm_conflict.
Context (from_str : string → option json).

Definition send_targets_peer (tc : LlmToolCall) (peer : string) : bool :=
  match (v ← from_str (fc_arguments (tc_function tc)); to ← json_get "to" v; as_str to) with
  | Some to => eq_ignore_ascii_case to peer
  | None => false
  end.

Definition is_ignore (tc : LlmToolCall) : bool :=
  String.eqb (fc_name (tc_function tc)) "ignore_message".

Definition is_peer_send (dm_peer : option string) (tc : LlmToolCall) : bool :=
  negb (is_ignore tc) && String.eqb (fc_name (tc_function tc)) "send_message" &&
  match dm_peer with Some peer => send_targets_peer tc peer | None => false end.

Definition indices_of (f : LlmToolCall → bool) (calls : list LlmToolCall) : list nat :=
  fst <$> filter (λ p, f p.2 = true) (enumerate calls).

Record DmConflictCheck := { conflict : bool; conflicting_indices : list nat }.

(** [merged.sort_unstable()] of the two index lists. *)
Definition detect_dm_conflict (tool_calls : list LlmToolCall) (dm_peer : option string)
    : DmConflictCheck :=
  let ignore_indices := indices_of is_ignore tool_calls in
  let peer_send_indices := indices_of (is_peer_send dm_peer) tool_calls in
  let c := negb (Nat.eqb (length peer_send_indices) 0) && negb (Nat.eqb (length ignore_indices) 0) in
  {| conflict := c;
     conflicting_indices :=
       if c then sort_by_key Z.of_nat (peer_send_indices ++ ignore_indices) else [] |}.

End dm_conflict.

(** * Reading the rows back *)

Section rebuild_rows.
Context `{U : UuidCrate}.
Context (json_to_string : json → string) (from_str : string → option json) (self : RunIdentity)
        (path_exists : string → bool) (root : option string).

(** What the next request makes of a row: through the agent's perspective in a
    direct message, as it is elsewhere. *)
Definition read_back (is_dm : bool) (m : Message) : LlmMessage :=
  session_msg_to_llm json_to_string path_exists
    (match is_dm, ri_agent_name self with
     | true, Some name => apply_perspective m name
     | _, _ => m
     end) root.

(** The reasoning fields replace nothing the rows look up. *)
Lemma merged_member is_dm base k :
  k ∉ ["message_type"; "from_agent"; "from_agent_id"; "run_id"] →
  json_get k (merge_reasoning_metadata self (JObj base) is_dm) = member k base.
Proof.
  intros Hk. unfold merge_reasoning_metadata, dm_reasoning_metadata. destruct is_dm; [|done].
  cbn [json_get insert_all foldl]. rewrite !member_insert_ne; [done|set_solver..].
Qed.

Lemma merged_reasoning base :
  json_get "message_type" (merge_reasoning_metadata self (JObj base) true) = Some (JStr "reasoning").
Proof.
  unfold merge_reasoning_metadata. cbn [dm_reasoning_metadata json_get insert_all foldl].
  rewrite !member_insert_ne by done. apply member_insert_eq.
Qed.

Lemma merged_from_agent base :
  json_get "from_agent" (merge_reasoning_metadata self (JObj base) true) =
  Some (JStr (default "unknown" (ri_agent_name self))).
Proof.
  unfold merge_reasoning_metadata. cbn [dm_reasoning_metadata json_get insert_all foldl].
  rewrite !member_insert_ne by done. apply member_insert_eq.
Qed.

(** A row of this agent in a direct message is read with its canonical role. *)
Lemma own_row_perspective m base name :
  msg_metadata m = Some (merge_reasoning_metadata self (JObj base) true) →
  ri_agent_name self = Some name →
  apply_perspective m name =
    with_role m (match msg_content m with ToolResult _ _ => Tool | _ => Assistant end).
Proof.
  intros Hm Hn. unfold apply_perspective, from_agent_of, is_reasoning_message, meta_str, metadata_get.
  rewrite Hm. cbn [mbind option_bind]. rewrite merged_from_agent, merged_reasoning, Hn. cbn.
  by rewrite String.eqb_refl.
Qed.

(** Tool calls survive persistence.  Whether the session is a direct message or
    not, the row of a call is read back as an assistant turn with that call, its
    name and its arguments as an object, and the row of its result as the tool
    message that answers it: the pair is found again by the same id. *)
Theorem tool_rows_roundtrip id now is_dm inv tc ok o :
  (is_dm = true → is_Some (ri_agent_name self)) →
  read_back is_dm (call_row from_str self id now is_dm inv tc) =
    {| role := "assistant"; content := None; reasoning_content := None;
       tool_calls := Some [tool_call_new (tc_id tc) (fc_name (tc_function tc))
         (json_to_string (normalize_tool_args from_str (fc_arguments (tc_function tc))))];
       tool_call_id := None |} ∧
  ∃ c, read_back is_dm (result_row from_str self id now is_dm inv tc ok o) = llm_tool_result (tc_id tc) c.
Proof.
  intros Hname.
  assert (Hheal : ∀ args, heal_params json_to_string (normalize_tool_args from_str args) =
    json_to_string (normalize_tool_args from_str args)).
  { intros args. pose proof (normalize_tool_args_object from_str args) as Ho.
    by destruct (normalize_tool_args from_str args). }
  unfold read_back. destruct is_dm.
  - destruct (Hname eq_refl) as [name Hn]. rewrite Hn. split.
    + erewrite own_row_perspective; [|reflexivity|exact Hn].
      unfold call_row, session_msg_to_llm, is_error_marker, meta_str, metadata_get.
      cbn [is_system with_role msg_role mk_row msg_content msg_metadata dm_reasoning_metadata].
      cbn -[merge_reasoning_metadata heal_params normalize_tool_args].
      rewrite merged_member by set_solver. cbn -[heal_params normalize_tool_args].
      by rewrite Hheal.
    + erewrite own_row_perspective; [|reflexivity|exact Hn]. by eexists.
  - split; [|by eexists].
    unfold call_row, session_msg_to_llm. cbn -[heal_params normalize_tool_args]. by rewrite Hheal.
Qed.

(** The bytes a later run reads are not the bytes the live agent saw.  A result
    that is no JSON text, such as every truncated preview and every error, is
    stored as a JSON string and read back in its quoted and escaped rendering, at
    least two bytes longer. *)
Theorem rebuilt_result_quoted id now inv tc ok o :
  (∀ s, ∃ t, json_to_string (JStr s) = String (ascii_of_N 34) t +:+ ch (ascii_of_N 34) ∧
    String.length s ≤ String.length t) →
  (∀ r rel, spill_file_missing path_exists r rel = false) →
  from_str (to_content o) = None →
  to_truncated o = true ∨ String.length (json_to_string (JStr (to_content o))) ≤ 2000 →
  ∃ c, read_back false (result_row from_str self id now false inv tc ok o) =
         llm_tool_result (tc_id tc) c ∧
    c = json_to_string (JStr (to_content o)) ∧
    String.length (to_content o) + 2 ≤ String.length c.
Proof.
  intros Hq Hspill Hnone Hcase. exists (json_to_string (JStr (to_content o))).
  split_and!; [|done|].
  - unfold read_back, session_msg_to_llm, result_row. cbn -[rebuilt_result]. rewrite Hnone.
    f_equal. unfold rebuilt_result, meta_bool, meta_str, metadata_get, result_metadata.
    destruct (to_truncated o) eqn:Htr; cbn -[Nat.ltb].
    + destruct (to_output_path o) as [path|]; cbn -[Nat.ltb]; destruct root as [r|]; try done. by rewrite Hspill.
    + destruct Hcase as [|Hle]; [done|]. by rewrite (proj2 (Nat.ltb_ge _ _) Hle).
  - destruct (Hq (to_content o)) as (t & -> & Hlen). rewrite str_length_app. simpl. lia.
Qed.

End rebuild_rows.

(** * Facts about conflicts *)

Section conflict_facts.
Context (from_str : string → option json).

Lemma elem_of_indices f calls i :
  i ∈ indices_of f calls ↔ ∃ tc, calls !! i = Some tc ∧ f tc = true.
Proof.
  unfold indices_of, enumerate. rewrite list_elem_of_fmap. split.
  - intros ([j tc] & -> & H). apply list_elem_of_filter in H as [Hf H].
    apply elem_of_lookup_imap in H as (k & x & [= <- <-] & Hk). by exists tc.
  - intros (tc & Hl & Hf). exists (i, tc). split; [done|]. apply list_elem_of_filter. split; [done|].
    apply elem_of_lookup_imap. by exists i, tc.
Qed.

Lemma nonempty_indices f calls :
  negb (Nat.eqb (length (indices_of f calls)) 0) = true ↔ ∃ i tc, calls !! i = Some tc ∧ f tc = true.
Proof.
  rewrite negb_true_iff, Nat.eqb_neq. split.
  - destruct (indices_of f calls) as [|i l] eqn:E; [done|]. intros _. exists i.
    apply elem_of_indices. rewrite E. by left.
  - intros (i & Hi) H. apply nil_length_inv in H. apply elem_of_indices in Hi. rewrite H in Hi.
    by apply not_elem_of_nil in Hi.
Qed.

(** A batch conflicts exactly when it both ends the conversation and sends to
    the current peer, and then exactly those calls are blocked, in the order of
    the batch: a message to a third agent still goes out. *)
Theorem dm_conflict_exact calls peer :
  let check := detect_dm_conflict from_str calls peer in
  (conflict check = true ↔
     (∃ i tc, calls !! i = Some tc ∧ is_ignore tc = true) ∧
     (∃ i tc, calls !! i = Some tc ∧ is_peer_send from_str peer tc = true)) ∧
  (∀ i, i ∈ conflicting_indices check ↔ conflict check = true ∧
     ∃ tc, calls !! i = Some tc ∧ (is_ignore tc = true ∨ is_peer_send from_str peer tc = true)) ∧
  StronglySorted (λ a b, (Z.of_nat a ≤ Z.of_nat b)%Z) (conflicting_indices check).
Proof.
  intros check. unfold check, detect_dm_conflict. cbn [conflict conflicting_indices].
  rewrite andb_true_iff, !nonempty_indices. split; [tauto|]. split.
  - intros i. destruct (_ && _) eqn:Hc.
    + rewrite sort_by_key_perm, elem_of_app, !elem_of_indices. naive_solver.
    + split; [intros H; by apply not_elem_of_nil in H|]. by intros [H _].
  - destruct (_ && _); [apply sort_by_key_sorted|constructor].
Qed.
End conflict_facts.

(** * Ids that repeat

    The Gemini adapter numbers the calls of one response from 1
    ([gemini.rs]), so the first call of every turn has the same id. *)
Section gemini.
Context (json_to_string : json → string).

Definition gemini_args (args : json) : string :=
  match args with JNull => "{}" | _ => json_to_string args end.

Fixpoint gemini_calls (counter : nat) (calls : list (string * json)) : list LlmToolCall :=
  match calls with
  | [] => []
  | (name, args) :: rest =>
      tool_call_new ("gemini_call_" +:+ pretty (S counter)) name (gemini_args args)
      :: gemini_calls (S counter) rest
  end.

Definition convert_gemini_calls (calls : list (string * json)) : list LlmToolCall :=
  gemini_calls 0 calls.

Lemma gemini_first_id name args rest name' args' rest' :
  tc_id <$> head (convert_gemini_calls ((name, args) :: rest)) =
  tc_id <$> head (convert_gemini_calls ((name', args') :: rest')).
Proof. done. Qed.
End gemini.

Section repeated_ids.
Import SimpleUuid.

Definition atlas : RunIdentity :=
  {| ri_agent_name := Some "atlas"; ri_agent_id := MkAgentId (MkUuid 7); ri_run_id := None |}.

Definition not_json (_ : string) : option json := None.

(** [fs_read] in the first turn, [shell] in the second. *)
Definition turn1 : LlmToolCall := tool_call_new "gemini_call_1" "fs_read" "{}".
Definition turn2 : LlmToolCall := tool_call_new "gemini_call_1" "shell" "{}".

Definition untruncated (c : string) : TruncateOutcome :=
  {| to_content := c; to_truncated := false; to_output_path := None;
     to_original_bytes := String.length c; to_original_lines := 1 |}.

(** The second call was interrupted: it has no result row. *)
Definition interrupted_history : list Message :=
  [call_row not_json atlas "m1" 0 false "i1" turn1;
   result_row not_json atlas "m2" 0 false "i1" turn1 true (untruncated "contents");
   call_row not_json atlas "m3" 0 false "i2" turn2].

Definition repeat_config : ContextConfig :=
  {| strategy := "truncate"; max_input_tokens := 2000; trigger_of := id; retain_of := id;
     summary_model := None; summary_provider := None; run_summary_mode := Episodic.ModeOff;
     run_summary_budget := 0; summary_max_tokens := 1000 |}.

(** An interrupted call whose id was already used in an earlier turn stays
    unanswered: the closing pass asks whether any result in the window has that
    id, so the context sent to the provider ends with a tool call without a
    result. *)
Theorem repeated_id_unanswered :
  turn1 ∈ convert_gemini_calls no_json [("fs_read", JNull)] ∧ turn2 ∈ convert_gemini_calls no_json [("shell", JNull)] ∧
  ∃ l1 m l2, build no_json no_files repeat_config None "You are Atlas." interrupted_history "" None =
      l1 ++ m :: l2 ∧
    "gemini_call_1" ∈ ids_of m ∧ Forall (λ r, tool_call_id r ≠ Some "gemini_call_1") l2.
Proof.
  split; [by left|]. split; [by left|].
  set (out := build _ _ _ _ _ _ _ _).
  assert (Hout : out = take 3 out ++ match out !! 3 with Some m => m | None => llm_user "" end :: drop 4 out)
    by (vm_compute; reflexivity).
  eexists _, _, _. split; [exact Hout|]. split; [vm_compute; by left|].
  vm_compute. repeat constructor; discriminate.
Qed.

(** A blocked [ignore_message] can count as carried out.  Its error result is
    matched by id over the whole run, so a successful result of another tool with
    the same provider id makes [ran_ignore_message_successfully] say yes. *)
Theorem repeated_id_ignores :
  let ignore := tool_call_new "gemini_call_1" "ignore_message" "{}" in
  let records :=
    [call_record atlas 0 0 "i1" turn1; result_record atlas 1 0 "i1" turn1 "contents";
     call_record atlas 2 0 "i2" ignore; result_record atlas 3 0 "i2" ignore "Error: blocked"] in
  ignore ∈ convert_gemini_calls no_json [("ignore_message", JNull)] ∧
  ran_ignore_message_successfully records = true.
Proof. split; [by left|]. vm_compute. reflexivity. Qed.

Lemma tool_rows_roundtrip_witness :
  read_back no_json atlas no_files None true (call_row not_json atlas "m1" 0 true "i1" turn1) =
    {| role := "assistant"; content := None; reasoning_content := None;
       tool_calls := Some [tool_call_new "gemini_call_1" "fs_read" "{}"]; tool_call_id := None |} ∧
  ∃ c, read_back no_json atlas no_files None true
         (result_row not_json atlas "m1" 0 true "i1" turn1 true (untruncated "contents")) =
       llm_tool_result "gemini_call_1" c.
Proof.
  apply (tool_rows_roundtrip no_json not_json atlas no_files None "m1" 0 true "i1" turn1 true
    (untruncated "contents")).
  intros _. by eexists.
Defined.

(** A rendering that only adds the quotes. *)
Definition quoting (j : json) : string :=
  match j with JStr s => String (ascii_of_N 34) s +:+ ch (ascii_of_N 34) | _ => "{}" end.

Lemma rebuilt_result_quoted_witness :
  ∃ c, read_back quoting atlas (λ _, true) None false
         (result_row not_json atlas "m1" 0 false "i1" turn1 false (untruncated "Error: no such file")) =
       llm_tool_result "gemini_call_1" c ∧
    c = quoting (JStr "Error: no such file") ∧ 19 + 2 ≤ String.length c.
Proof.
  apply (rebuilt_result_quoted quoting not_json atlas (λ _, true) None "m1" 0 "i1" turn1 false
    (untruncated "Error: no such file")).
  - intros s. exists s. split; [reflexivity|lia].
  - intros r rel. unfold spill_file_missing. reflexivity.
  - reflexivity.
  - right. vm_compute. lia.
Defined.

End repeated_ids.
