(* ===== verification/Scheduler.v ===== *)
(** The timer behind scheduled jobs: [alms-runtime/src/scheduler.rs].

    Pending firings lie in a min-heap by time; one runner sleeps until the
    earliest one is due and sends the ids of due jobs to the gateway.
    [std::collections::BinaryHeap] is the class [MinHeap] with what its
    documentation promises; which of several entries with the same time comes
    first is left open.  Instants and durations are nanoseconds. *)
From S2P Require Import Prelude Ident.

(** * Data *)

Record JobRun := { jr_job_id : JobId; jr_scheduled_at : Z; jr_ran_at : Z }.

Record PendingJob := { pj_id : JobId; pj_run_at : Z; pj_interval : option Z }.

#[export] Instance PendingJob_eq_dec : EqDecision PendingJob.
Proof. solve_decision. Defined.

(** A heap of pending jobs, earliest first ([Reverse] and the [Ord] instance). *)
Class MinHeap := {
  Heap : Type;
  heap_empty : Heap;
  heap_push : PendingJob → Heap → Heap;
  heap_peek : Heap → option PendingJob;
  heap_pop : Heap → option (PendingJob * Heap);
  heap_items : Heap → list PendingJob;
}.

Class MinHeapLaws (M : MinHeap) := {
  heap_items_empty : heap_items heap_empty = [];
  heap_items_push j h : heap_items (heap_push j h) ≡ₚ j :: heap_items h;
  heap_peek_pop h : heap_peek h = fst <$> heap_pop h;
  heap_pop_None h : heap_pop h = None → heap_items h = [];
  heap_pop_Some h j h' : heap_pop h = Some (j, h') →
    heap_items h ≡ₚ j :: heap_items h' ∧ Forall (λ k, (pj_run_at j ≤ pj_run_at k)%Z) (heap_items h');
}.

(** Sorted lists are such heaps. *)
Module ListHeap.
Fixpoint push (j : PendingJob) (h : list PendingJob) : list PendingJob :=
  match h with
  | [] => [j]
  | k :: h' => if (pj_run_at j <=? pj_run_at k)%Z then j :: h else k :: push j h'
  end.

(** Taking out the first entry with the least time needs no order. *)
Fixpoint pop (h : list PendingJob) : option (PendingJob * list PendingJob) :=
  match h with
  | [] => None
  | j :: h' =>
      match pop h' with
      | Some (k, rest) => if (pj_run_at k <? pj_run_at j)%Z then Some (k, j :: rest) else Some (j, h')
      | None => Some (j, h')
      end
  end.

#[export] Instance list_heap : MinHeap := {
  Heap := list PendingJob;
  heap_empty := [];
  heap_push := push;
  heap_peek h := fst <$> pop h;
  heap_pop := pop;
  heap_items := id;
}.

Lemma push_items j h : push j h ≡ₚ j :: h.
Proof.
  induction h as [|k h IH]; simpl; [done|]. destruct (_ <=? _)%Z; [done|]. rewrite IH. apply Permutation_swap.
Qed.

Lemma pop_items h j h' : pop h = Some (j, h') →
  h ≡ₚ j :: h' ∧ Forall (λ k, (pj_run_at j ≤ pj_run_at k)%Z) h'.
Proof.
  revert j h'; induction h as [|k h IH]; intros j h'; simpl; [done|].
  destruct (pop h) as [[k' rest]|] eqn:E.
  - destruct (IH _ _ eq_refl) as [Hp Hf]. destruct (Z.ltb_spec (pj_run_at k') (pj_run_at k)) as [Hlt|Hge];
      intros [= <- <-].
    + split; [rewrite Hp; apply Permutation_swap|]. constructor; [lia|done].
    + split; [done|]. rewrite Hp. constructor; [done|].
      eapply Forall_impl; [exact Hf|]. simpl. lia.
  - intros [= <- <-]. split; [done|]. destruct h as [|x h]; [done|]. simpl in E.
    by destruct (pop h) as [[??]|]; [destruct (_ <? _)%Z|].
Qed.

#[export] Instance list_heap_laws : MinHeapLaws list_heap.
Proof.
  split; simpl; [done|apply push_items|done| |apply pop_items].
  intros [|j h]; simpl; [done|]. destruct (pop h) as [[??]|]; [by destruct (_ <? _)%Z|done].
Qed.
End ListHeap.

Section scheduler.
Context `{M : MinHeap}.

Record Scheduler := {
  sc_pending : Heap;
  sc_cancelled : gset JobId;
  sc_history : list JobRun;
  (** The ids sent on the fire channel, oldest first; [None] without one. *)
  sc_fired : option (list JobId);
}.

Definition scheduler_new : Scheduler :=
  {| sc_pending := heap_empty; sc_cancelled := ∅; sc_history := []; sc_fired := None |}.

Definition with_fire_channel (s : Scheduler) : Scheduler :=
  {| sc_pending := sc_pending s; sc_cancelled := sc_cancelled s; sc_history := sc_history s; sc_fired := Some [] |}.

Definition set_pending (h : Heap) (s : Scheduler) : Scheduler :=
  {| sc_pending := h; sc_cancelled := sc_cancelled s; sc_history := sc_history s; sc_fired := sc_fired s |}.

(** * Operations *)

Definition schedule_once (id : JobId) (at_ : Z) (s : Scheduler) : Scheduler :=
  set_pending (heap_push {| pj_id := id; pj_run_at := at_; pj_interval := None |} (sc_pending s)) s.

Definition schedule_recurring (id : JobId) (start interval : Z) (s : Scheduler) : Scheduler :=
  set_pending (heap_push {| pj_id := id; pj_run_at := start; pj_interval := Some interval |} (sc_pending s)) s.

Definition sched_cancel (id : JobId) (s : Scheduler) : Scheduler :=
  {| sc_pending := sc_pending s; sc_cancelled := {[ id ]} ∪ sc_cancelled s; sc_history := sc_history s;
     sc_fired := sc_fired s |}.

(** [while let Some(top) = pending.peek() { if cancelled { pop } else { break } }]. *)
Fixpoint drain_cancelled (fuel : nat) (cancelled : gset JobId) (h : Heap) : Heap :=
  match fuel with
  | 0 => h
  | S fuel =>
      match heap_peek h with
      | Some top =>
          if bool_decide (pj_id top ∈ cancelled)
          then match heap_pop h with Some (_, h') => drain_cancelled fuel cancelled h' | None => h end
          else h
      | None => h
      end
  end.

Definition heap_fuel (h : Heap) : nat := length (heap_items h).

(** The block that computes [next_at], with the heap it leaves. *)
Definition next_at (s : Scheduler) : option Z * Scheduler :=
  let h := drain_cancelled (heap_fuel (sc_pending s)) (sc_cancelled s) (sc_pending s) in
  (pj_run_at <$> heap_peek h, set_pending h s).

(** [while let Some(job) = pending.peek() { if job.run_at <= now { pop, push to due } else { break } }]. *)
Fixpoint pop_due (fuel : nat) (now : Z) (h : Heap) : list PendingJob * Heap :=
  match fuel with
  | 0 => ([], h)
  | S fuel =>
      match heap_peek h with
      | Some job =>
          if (pj_run_at job <=? now)%Z
          then match heap_pop h with
               | Some (job, h') => let '(due, h'') := pop_due fuel now h' in (job :: due, h'')
               | None => ([], h)
               end
          else ([], h)
      | None => ([], h)
      end
  end.

(** The next firing of a recurring job that was not cancelled. *)
Definition rearm (cancelled : gset JobId) (job : PendingJob) : list PendingJob :=
  match pj_interval job with
  | Some interval =>
      if bool_decide (pj_id job ∈ cancelled) then []
      else [{| pj_id := pj_id job; pj_run_at := pj_run_at job + interval; pj_interval := Some interval |}]
  | None => []
  end.

Definition live (cancelled : gset JobId) (due : list PendingJob) : list PendingJob :=
  filter (λ j, pj_id j ∉ cancelled) due.

Definition process_due_jobs (now ran_at : Z) (s : Scheduler) : Scheduler :=
  let '(due, h) := pop_due (heap_fuel (sc_pending s)) now (sc_pending s) in
  let h' := foldl (λ h job, foldl (λ h j, heap_push j h) h (rearm (sc_cancelled s) job)) h due in
  let firing := live (sc_cancelled s) due in
  {| sc_pending := h'; sc_cancelled := sc_cancelled s;
     sc_history := sc_history s ++
       map (λ j, {| jr_job_id := pj_id j; jr_scheduled_at := pj_run_at j; jr_ran_at := ran_at |}) firing;
     sc_fired := (λ sent, sent ++ map pj_id firing) <$> sc_fired s |}.

(** One turn of [run_loop]: it computes [next_at] and waits; woken by a
    notification it starts over, woken by the timer at [now] it processes what
    is due. *)
Inductive LoopTurn := Notified | TimerAt (now ran_at : Z).

Definition run_loop_turn (turn : LoopTurn) (s : Scheduler) : option Scheduler :=
  let '(at_, s1) := next_at s in
  match turn, at_ with
  | Notified, _ => Some s1
  | TimerAt now ran_at, Some run_at =>
      if (run_at <=? now)%Z && (now <=? ran_at)%Z then Some (process_due_jobs now ran_at s1) else None
  | TimerAt _ _, None => None
  end.
End scheduler.

Section facts.
Context `{M : MinHeap} `{!MinHeapLaws M}.

Lemma heap_length_pop h j h' : heap_pop h = Some (j, h') → length (heap_items h) = S (length (heap_items h')).
Proof. intros [Hp _]%heap_pop_Some. by rewrite Hp. Qed.

(** Draining removes cancelled entries only, and afterwards the top is live. *)
Lemma drain_cancelled_spec cancelled fuel : ∀ h, length (heap_items h) ≤ fuel →
  let h' := drain_cancelled fuel cancelled h in
  (∃ dropped, heap_items h ≡ₚ dropped ++ heap_items h' ∧ Forall (λ j, pj_id j ∈ cancelled) dropped) ∧
  (∀ top, heap_peek h' = Some top → pj_id top ∉ cancelled).
Proof.
  induction fuel as [|fuel IH]; intros h Hf; simpl.
  - split; [by exists []|]. intros top Ht. rewrite heap_peek_pop in Ht.
    destruct (heap_pop h) as [[j h']|] eqn:E; [|done]. apply heap_length_pop in E. lia.
  - rewrite heap_peek_pop. destruct (heap_pop h) as [[j h']|] eqn:E; simpl.
    + case_bool_decide as Hc.
      * destruct (IH h') as [(dropped & Hd & Hall) Htop]; [apply heap_length_pop in E; lia|].
        split; [|done]. exists (j :: dropped). apply heap_pop_Some in E as [Hp _].
        split; [by rewrite Hp, Hd|by constructor].
      * split; [by exists []|]. intros top. rewrite heap_peek_pop, E. by intros [= <-].
    + split; [by exists []|]. intros top. by rewrite heap_peek_pop, E.
Qed.

(** The entries that are due leave the heap, earliest first; the others stay. *)
Lemma pop_due_spec now fuel : ∀ h, length (heap_items h) ≤ fuel →
  let '(due, h') := pop_due fuel now h in
  heap_items h ≡ₚ due ++ heap_items h' ∧ Forall (λ j, (pj_run_at j ≤ now)%Z) due ∧
  Forall (λ j, (now < pj_run_at j)%Z) (heap_items h') ∧
  StronglySorted (λ a b, (pj_run_at a ≤ pj_run_at b)%Z) due.
Proof.
  induction fuel as [|fuel IH]; intros h Hf; simpl.
  - assert (heap_items h = []) as -> by (destruct (heap_items h); [done|simpl in Hf; lia]).
    split_and!; [done|constructor..].
  - rewrite heap_peek_pop. destruct (heap_pop h) as [[j h1]|] eqn:E; simpl.
    + destruct (heap_pop_Some _ _ _ E) as [Hp Hmin].
      destruct (Z.leb_spec (pj_run_at j) now) as [Hdue|Hlater].
      * specialize (IH h1 ltac:(apply heap_length_pop in E; lia)).
        destruct (pop_due fuel now h1) as [due h2]. destruct IH as (Hp2 & Hd & Hr & Hs).
        split_and!; [by rewrite Hp, Hp2|by constructor|done|]. constructor; [done|].
        apply Forall_forall. intros k Hk. rewrite Forall_forall in Hmin. apply Hmin.
        rewrite Hp2. apply elem_of_app. by left.
      * split_and!; [done|constructor| |constructor]. rewrite Hp. constructor; [done|].
        eapply Forall_impl; [exact Hmin|]. simpl. lia.
    + rewrite (heap_pop_None _ E). split_and!; [done|constructor..].
Qed.

Lemma push_all_items l : ∀ h, heap_items (foldl (λ h j, heap_push j h) h l) ≡ₚ l ++ heap_items h.
Proof.
  induction l as [|j l IH]; intros h; simpl; [done|]. rewrite IH, heap_items_push.
  by rewrite Permutation_middle.
Qed.

Lemma rearm_all_items c due : ∀ h,
  heap_items (foldl (λ h job, foldl (λ h j, heap_push j h) h (rearm c job)) h due) ≡ₚ
  flat_map (rearm c) due ++ heap_items h.
Proof.
  induction due as [|j due IH]; intros h; simpl; [done|]. rewrite IH, push_all_items.
  by rewrite <- !app_assoc, (Permutation_app_comm (flat_map _ _)), <- !app_assoc,
    (Permutation_app_comm (heap_items h)).
Qed.

(** What a wake-up fires.  At time [now] exactly the pending entries that are
    due leave the heap; those whose job was not cancelled are recorded and sent
    in the order of their times; recurring ones are pending again one interval
    later; nothing else changes. *)
Theorem process_due_exact now ran_at (s : Scheduler) :
  let s' := process_due_jobs now ran_at s in
  ∃ due rest,
    heap_items (sc_pending s) ≡ₚ due ++ rest ∧ Forall (λ j, (pj_run_at j ≤ now)%Z) due ∧
    Forall (λ j, (now < pj_run_at j)%Z) rest ∧ StronglySorted (λ a b, (pj_run_at a ≤ pj_run_at b)%Z) due ∧
    sc_history s' = sc_history s ++
      map (λ j, {| jr_job_id := pj_id j; jr_scheduled_at := pj_run_at j; jr_ran_at := ran_at |})
        (live (sc_cancelled s) due) ∧
    sc_fired s' = (λ sent, sent ++ map pj_id (live (sc_cancelled s) due)) <$> sc_fired s ∧
    heap_items (sc_pending s') ≡ₚ flat_map (rearm (sc_cancelled s)) due ++ rest ∧
    sc_cancelled s' = sc_cancelled s.
Proof.
  intros s'. unfold s', process_due_jobs.
  pose proof (pop_due_spec now (heap_fuel (sc_pending s)) (sc_pending s) ltac:(done)) as H.
  destruct (pop_due _ now (sc_pending s)) as [due h]. destruct H as (Hp & Hd & Hr & Hs).
  exists due, (heap_items h). cbn. split_and!; try done. apply rearm_all_items.
Qed.

Lemma next_at_spec (s : Scheduler) :
  (∃ dropped, heap_items (sc_pending s) ≡ₚ dropped ++ heap_items (sc_pending (next_at s).2) ∧
     Forall (λ j, pj_id j ∈ sc_cancelled s) dropped) ∧
  sc_cancelled (next_at s).2 = sc_cancelled s ∧ sc_history (next_at s).2 = sc_history s ∧
  sc_fired (next_at s).2 = sc_fired s ∧
  (∀ j, j ∈ heap_items (sc_pending (next_at s).2) → ∃ t, (next_at s).1 = Some t ∧ (t ≤ pj_run_at j)%Z).
Proof.
  unfold next_at. cbn. destruct (drain_cancelled_spec (sc_cancelled s) (heap_fuel (sc_pending s)) (sc_pending s)
    ltac:(done)) as [Hd _]. split_and!; try done. intros j Hj. rewrite heap_peek_pop.
  set (h := drain_cancelled _ _ _) in *. destruct (heap_pop h) as [[k h']|] eqn:E.
  - destruct (heap_pop_Some _ _ _ E) as [Hp Hmin]. exists (pj_run_at k). split; [done|].
    rewrite Hp in Hj. apply elem_of_cons in Hj as [->|Hj]; [done|]. by rewrite Forall_forall in Hmin; apply Hmin.
  - apply heap_pop_None in E. rewrite E in Hj. by apply not_elem_of_nil in Hj.
Qed.

(** A live entry survives the draining. *)
Lemma next_at_keeps (s : Scheduler) j :
  j ∈ heap_items (sc_pending s) → pj_id j ∉ sc_cancelled s → j ∈ heap_items (sc_pending (next_at s).2).
Proof.
  intros Hj Hc. destruct (next_at_spec s) as [(dropped & Hp & Hall) _]. rewrite Hp in Hj.
  apply elem_of_app in Hj as [Hj|Hj]; [|done]. rewrite Forall_forall in Hall. by destruct (Hc (Hall _ Hj)).
Qed.

(** No job is overslept.  While an entry of a job that was not cancelled is
    pending, the runner never waits past its time: the wake-up it computes is no
    later, at any moment from that time on its timer can fire, and when it does
    the job runs, no earlier than it was due. *)
Theorem no_job_overslept (s : Scheduler) j now ran_at :
  j ∈ heap_items (sc_pending s) → pj_id j ∉ sc_cancelled s →
  (pj_run_at j ≤ now)%Z → (now ≤ ran_at)%Z →
  (∃ t, (next_at s).1 = Some t ∧ (t ≤ pj_run_at j)%Z) ∧
  ∃ s', run_loop_turn (TimerAt now ran_at) s = Some s' ∧
    {| jr_job_id := pj_id j; jr_scheduled_at := pj_run_at j; jr_ran_at := ran_at |} ∈ sc_history s' ∧
    (∀ sent, sc_fired s = Some sent → ∃ sent', sc_fired s' = Some (sent ++ sent') ∧ pj_id j ∈ sent').
Proof.
  intros Hj Hc Hnow Hran. pose proof (next_at_keeps s j Hj Hc) as Hk.
  destruct (next_at_spec s) as (_ & Hcan & Hhist & Hfir & Hnext).
  destruct (Hnext j Hk) as (t & Ht & Hle). split; [by exists t|].
  unfold run_loop_turn. destruct (next_at s) as [at_ s1]. cbn in *. subst at_.
  rewrite (proj2 (Z.leb_le t now)), (proj2 (Z.leb_le now ran_at)) by lia. cbn.
  eexists. split; [reflexivity|].
  unfold process_due_jobs. pose proof (pop_due_spec now (heap_fuel (sc_pending s1)) (sc_pending s1) ltac:(done)) as H.
  destruct (pop_due _ now (sc_pending s1)) as [due h]. destruct H as (Hp & _ & Hr & _).
  assert (Hdue : j ∈ live (sc_cancelled s1) due).
  { apply list_elem_of_filter. split; [by rewrite Hcan|]. rewrite Hp in Hk.
    apply elem_of_app in Hk as [?|Hk]; [done|]. rewrite Forall_forall in Hr. specialize (Hr _ Hk). simpl in Hr. lia. }
  cbn. split.
  - apply elem_of_app. right. apply list_elem_of_fmap. by exists j.
  - intros sent Hs. rewrite Hfir, Hs. eexists. split; [reflexivity|]. apply list_elem_of_fmap. by exists j.
Qed.
End facts.

(** * Sequences of calls and turns *)

Inductive SchedOp :=
| OpOnce (id : JobId) (at_ : Z)
| OpRecurring (id : JobId) (start interval : Z)
| OpCancel (id : JobId)
| OpTurn (turn : LoopTurn).

Section sequences.
Context `{M : MinHeap} `{!MinHeapLaws M}.

(** A timer turn that is not possible yet does not happen. *)
Definition sched_exec (s : Scheduler) (op : SchedOp) : Scheduler :=
  match op with
  | OpOnce id at_ => schedule_once id at_ s
  | OpRecurring id start interval => schedule_recurring id start interval s
  | OpCancel id => sched_cancel id s
  | OpTurn turn => default s (run_loop_turn turn s)
  end.

Definition pending_of (id : JobId) (s : Scheduler) : list PendingJob :=
  filter (λ j, pj_id j = id) (heap_items (sc_pending s)).
Definition runs_of (id : JobId) (s : Scheduler) : list JobRun :=
  filter (λ r, jr_job_id r = id) (sc_history s).

Definition once_calls (id : JobId) (ops : list SchedOp) : nat :=
  length (filter (λ op, match op with OpOnce i _ => bool_decide (i = id) | _ => false end = true) ops).

Definition leaves_alone (id : JobId) (op : SchedOp) : Prop :=
  match op with OpCancel i => i ≠ id | OpRecurring i _ _ => i ≠ id | _ => True end.

Record one_shot (id : JobId) (n : nat) (s : Scheduler) : Prop := {
  os_live : id ∉ sc_cancelled s;
  os_once : Forall (λ j, pj_interval j = None) (pending_of id s);
  os_count : length (pending_of id s) + length (runs_of id s) = n;
}.

Lemma runs_of_fire id c ran_at due :
  id ∉ c →
  length (filter (λ r, jr_job_id r = id)
    (map (λ j, {| jr_job_id := pj_id j; jr_scheduled_at := pj_run_at j; jr_ran_at := ran_at |}) (live c due))) =
  length (filter (λ j, pj_id j = id) due).
Proof.
  intros Hc. induction due as [|j due IH]; [done|]. unfold live in *. rewrite !filter_cons.
  destruct (decide (pj_id j ∉ c)) as [Hn|Hn]; simpl map.
  - rewrite filter_cons. simpl. destruct (decide (pj_id j = id)); simpl; lia.
  - destruct (decide (pj_id j = id)); [|done]. subst. by destruct Hn.
Qed.

Lemma rearm_once id c due : Forall (λ j, pj_interval j = None) (filter (λ j, pj_id j = id) due) →
  filter (λ j, pj_id j = id) (flat_map (rearm c) due) = [].
Proof.
  induction due as [|j due IH]; [done|]. rewrite filter_cons. simpl. rewrite filter_app.
  destruct (decide (pj_id j = id)) as [Hj|Hj].
  - intros [H1 H2]%Forall_cons. unfold rearm at 1. rewrite H1. simpl. by apply IH.
  - intros H. rewrite (IH H), app_nil_r. unfold rearm. destruct (pj_interval j); [|done].
    case_bool_decide; [done|]. rewrite filter_cons. by rewrite decide_False.
Qed.

Lemma one_shot_next id n s : one_shot id n s → one_shot id n (next_at s).2.
Proof.
  intros [H1 H2 H3]. destruct (next_at_spec s) as ((dropped & Hp & Hall) & Hc & Hh & _ & _).
  assert (He : pending_of id s ≡ₚ pending_of id (next_at s).2).
  { unfold pending_of. rewrite Hp, filter_app.
    rewrite (filter_none (λ j, pj_id j = id) dropped); [done|].
    eapply Forall_impl; [exact Hall|]. simpl. intros j Hj E. by subst id. }
  split; [by rewrite Hc|by rewrite <- He|]. unfold runs_of. rewrite Hh, <- He. exact H3.
Qed.

Lemma one_shot_process id n now ran_at s : one_shot id n s → one_shot id n (process_due_jobs now ran_at s).
Proof.
  intros [H1 H2 H3]. unfold process_due_jobs.
  pose proof (pop_due_spec now (heap_fuel (sc_pending s)) (sc_pending s) ltac:(done)) as H.
  destruct (pop_due _ now (sc_pending s)) as [due h]. destruct H as (Hp & _).
  assert (Hps : pending_of id s ≡ₚ filter (λ j, pj_id j = id) due ++ filter (λ j, pj_id j = id) (heap_items h))
    by (unfold pending_of; by rewrite Hp, filter_app).
  rewrite Hps in H2. apply Forall_app in H2 as [Hd Hr].
  assert (Hpend : filter (λ j, pj_id j = id)
    (heap_items (foldl (λ h job, foldl (λ h j, heap_push j h) h (rearm (sc_cancelled s) job)) h due)) ≡ₚ
    filter (λ j, pj_id j = id) (heap_items h)).
  { rewrite rearm_all_items, filter_app, rearm_once by done. done. }
  split; unfold pending_of, runs_of; cbn; [done|by rewrite Hpend|].
  rewrite Hpend, filter_app, length_app, runs_of_fire by done.
  rewrite Hps, length_app in H3. unfold runs_of in H3. lia.
Qed.

Lemma one_shot_turn id n turn s : one_shot id n s → one_shot id n (default s (run_loop_turn turn s)).
Proof.
  intros H0. pose proof (one_shot_next _ _ _ H0) as Hn. unfold run_loop_turn.
  destruct (next_at s) as [at_ s1]. cbn [snd] in Hn. destruct turn as [|now ran_at]; [exact Hn|].
  destruct at_ as [t|]; [|exact H0]. destruct (_ && _); [|exact H0]. by apply one_shot_process.
Qed.

Lemma one_shot_push id n s i at_ iv :
  (i = id → iv = None) → one_shot id n s →
  one_shot id (if bool_decide (i = id) then S n else n)
    (set_pending (heap_push {| pj_id := i; pj_run_at := at_; pj_interval := iv |} (sc_pending s)) s).
Proof.
  intros Hiv [H1 H2 H3]. split; [done| |].
  - unfold pending_of. cbn. rewrite heap_items_push, filter_cons. cbn.
    destruct (decide (i = id)) as [E|]; [|done]. constructor; [by apply Hiv|done].
  - unfold pending_of, runs_of. cbn. rewrite heap_items_push, filter_cons. cbn.
    destruct (decide (i = id)) as [E|E]; [rewrite bool_decide_eq_true_2 by done|rewrite bool_decide_eq_false_2 by done];
      unfold pending_of, runs_of in H3; simpl; lia.
Qed.

(** A job scheduled once fires once.  In every sequence of calls and turns of
    the runner that neither cancels it nor makes it recurring, the entries of a
    job that are pending and the runs recorded of it together are exactly the
    times it was scheduled: none is lost and none fires twice. *)
Theorem one_shot_fires_once id ops :
  Forall (leaves_alone id) ops →
  let s := foldl sched_exec scheduler_new ops in
  length (pending_of id s) + length (runs_of id s) = once_calls id ops.
Proof.
  intros Hops s. enough (H : one_shot id (0 + once_calls id ops) s) by apply H.
  assert (H0 : one_shot id 0 scheduler_new)
    by (split; unfold pending_of, runs_of; cbn; rewrite ?heap_items_empty; set_solver).
  unfold s. clear s. revert H0. generalize scheduler_new as s, 0 as n.
  induction Hops as [|op ops Hop _ IH]; intros s n H0; [by rewrite Nat.add_0_r|]. simpl foldl.
  assert (H1 : one_shot id (n + once_calls id [op]) (sched_exec s op)).
  { unfold once_calls. rewrite filter_cons. destruct op as [i at_|i st iv|i|turn]; cbn in Hop |- *.
    - pose proof (one_shot_push id n s i at_ None ltac:(done) H0) as H.
      destruct (bool_decide (i = id)); simpl; [by rewrite Nat.add_1_r|by rewrite Nat.add_0_r].
    - rewrite Nat.add_0_r. pose proof (one_shot_push id n s i st (Some iv) (λ E, False_ind _ (Hop E)) H0) as H.
      by rewrite bool_decide_eq_false_2 in H.
    - rewrite Nat.add_0_r. destruct H0 as [H1 H2 H3]. split; [cbn; set_solver|done..].
    - rewrite Nat.add_0_r. by apply one_shot_turn. }
  replace (n + once_calls id (op :: ops)) with (n + once_calls id [op] + once_calls id ops); [by apply IH|].
  unfold once_calls. rewrite !filter_cons. destruct (decide _); simpl; lia.
Qed.
End sequences.

Section scheduler_witnesses.
Local Existing Instances ListHeap.list_heap ListHeap.list_heap_laws.
Local Definition job_a : JobId := MkJobId (MkUuid 1).
Local Definition job_b : JobId := MkJobId (MkUuid 2).
Local Definition armed : Scheduler :=
  foldl sched_exec (with_fire_channel scheduler_new) [OpOnce job_b 30; OpRecurring job_a 10 15; OpCancel job_b; OpOnce job_a 12].

Lemma no_job_overslept_witness :
  (∃ t, (next_at armed).1 = Some t ∧ (t ≤ 12)%Z) ∧
  ∃ s', run_loop_turn (TimerAt 12 13) armed = Some s' ∧ sc_fired s' = Some [job_a; job_a].
Proof.
  destruct (no_job_overslept armed {| pj_id := job_a; pj_run_at := 12; pj_interval := None |} 12 13)
    as [H1 (s' & H2 & _)];
    [vm_compute; repeat constructor|apply (bool_decide_unpack _); vm_compute; exact I|simpl; lia|lia|].
  split; [exact H1|]. exists s'. split; [exact H2|]. vm_compute in H2. injection H2 as <-. reflexivity.
Defined.

Lemma one_shot_fires_once_witness :
  let ops := [OpOnce job_a 10; OpTurn Notified; OpOnce job_b 5; OpTurn (TimerAt 7 8); OpTurn (TimerAt 10 10)] in
  length (runs_of job_a (foldl sched_exec scheduler_new ops)) = 1 ∧
  length (pending_of job_a (foldl sched_exec scheduler_new ops)) + length (runs_of job_a (foldl sched_exec scheduler_new ops)) = 1.
Proof.
  intros ops. split; [vm_compute; reflexivity|].
  apply (one_shot_fires_once job_a ops). repeat constructor.
Defined.
End scheduler_witnesses.
