(* ===== verification/RunManager.v ===== *)
(** The gateway's run registry: [alms-gateway/src/server/run_manager.rs].

    Runs in memory over a write-through store, the transitions that many
    writers race for, per-run cancellation tokens, the in-flight reply text and
    the event feeds.  A method body holds the entry lock of the map it changes,
    so it is one step; between the steps of [send_event] other tasks run, which
    [EventFeed.feed_run] covers.

    SQLite is the class [RunStore]: whether a write succeeds is its affair, and
    what a successful write leaves is its law.  Clock readings are arguments.
    The failure switch that only test builds have is left out. *)
From S2P Require Import Prelude Ident Json Lifecycle Run EventLog EventFeed Session.

(** * The store *)

(** What a row keeps of a run: two of the token counts. *)
Definition row_of (r : Run) : Run :=
  mkRun (run_id r) (run_session_id r) (run_agent_id r) (run_status r) (run_input r) (run_output r) (run_error r)
    ((λ u, {| prompt_tokens := prompt_tokens u; completion_tokens := completion_tokens u; reasoning_tokens := None;
              cache_creation_input_tokens := None; cache_read_input_tokens := None |}) <$> run_usage r)
    (run_created_at r) (run_started_at r) (run_ended_at r) (run_job_id r) (run_parent_run_id r)
    (run_resolved_config r) (run_lifecycle_revision r) (run_terminal_reason r).

(** [INSERT .. ON CONFLICT(run_id) DO UPDATE .. WHERE excluded.lifecycle_revision > runs.lifecycle_revision],
    and whether a row was affected. *)
Definition save_run_on (r : Run) (rows : gmap RunId Run) : bool * gmap RunId Run :=
  match rows !! run_id r with
  | Some old => if (run_lifecycle_revision old <? run_lifecycle_revision r)%Z
                then (true, <[run_id r := row_of r]> rows) else (false, rows)
  | None => (true, <[run_id r := row_of r]> rows)
  end.

Class RunStore (St : Type) := {
  (** The rows of the [runs] table. *)
  run_rows : St → gmap RunId Run;
  save_run : Run → St → Result St string;
  save_run_with_initial_message : Run → Message → St → Result (Z * St) string;
  mark_stale_runs_failed : St → Result (nat * St) string;
  load_all_runs : St → Result (list Run) string;
}.

(** A successful write is committed, an admission is refused unless it wrote
    the row, and what is loaded are rows. *)
Class RunStoreLaws {St} (S : RunStore St) := {
  save_run_rows r st st' : save_run r st = Ok st' → run_rows st' = (save_run_on r (run_rows st)).2;
  admit_rows r msg st ts st' : save_run_with_initial_message r msg st = Ok (ts, st') →
    save_run_on r (run_rows st) = (true, run_rows st');
  load_rows st l : load_all_runs st = Ok l → Forall (λ r, run_rows st !! run_id r = Some r ∧ row_of r = r) l;
}.

(** Rows go with their session, or with an agent: those of the sessions deleted with it,
    and its own runs but for those in subagent sessions of others. *)
Inductive RunDeletion := RunsOfSession (sid : SessionId) | RunsOfAgent (aid : AgentId) (owned foreign : gset SessionId).

Definition deleted_with (d : RunDeletion) (r : Run) : bool :=
  match d with
  | RunsOfSession sid => bool_decide (run_session_id r = sid)
  | RunsOfAgent aid owned foreign =>
      bool_decide (run_session_id r ∈ owned) || (bool_decide (run_agent_id r = aid) && negb (bool_decide (run_session_id r ∈ foreign)))
  end.

(** The transactions of [delete_session] and [delete_agent], as far as they touch
    runs: all of it or nothing. *)
Class RunDeletions (St : Type) := { delete_runs : RunDeletion → St → Result St string }.
Class RunDeletionLaws {St} (S : RunStore St) (D : RunDeletions St) := {
  deleted_rows d st st' : delete_runs d st = Ok st' → run_rows st' = filter (λ kv, deleted_with d kv.2 = false) (run_rows st);
}.

(** * The manager *)

Record RunTextBuffer := { tb_text : string; tb_last_session_event_id : option Z }.

Record Subscribers := mkSubscribers {
  event_senders : SubscriberMap RunId;
  session_senders : SubscriberMap SessionId;
  agent_senders : SubscriberMap AgentId;
  activity_senders : SubscriberMap unit;
  channels : gmap Z Channel;
  next_subscription_id : Z;
}.

Record Logs := mkLogs {
  event_log : gmap RunId EventLog;
  session_event_log : gmap SessionId EventLog;
  agent_event_log : gmap AgentId EventLog;
  activity_event_log : gmap AgentId EventLog;
}.

Record RunManager (St : Type) := mkManager {
  rm_runs : gmap RunId Run;
  rm_store : option St;
  rm_text : gmap RunId RunTextBuffer;
  (** The token registered for a run; a token is shared with the run's task, so
      cancelling is recorded against the token. *)
  rm_tokens : gmap RunId Z;
  rm_cancelled : gset Z;
  rm_subs : Subscribers;
  rm_logs : Logs;
  rm_rejections : Z;
  rm_replay_gaps : Z;
  rm_in_flight : Z;
}.
Arguments mkManager {St}.
Arguments rm_runs {St}.
Arguments rm_store {St}.
Arguments rm_text {St}.
Arguments rm_tokens {St}.
Arguments rm_cancelled {St}.
Arguments rm_subs {St}.
Arguments rm_logs {St}.
Arguments rm_rejections {St}.
Arguments rm_replay_gaps {St}.
Arguments rm_in_flight {St}.

Section manager.
Context {St : Type}.
Implicit Types (m : RunManager St).

Definition manager_new : RunManager St :=
  mkManager ∅ None ∅ ∅ ∅ (mkSubscribers ∅ ∅ ∅ ∅ ∅ 1) (mkLogs ∅ ∅ ∅ ∅) 0 0 0.

Definition with_store (st : St) m : RunManager St :=
  mkManager (rm_runs m) (Some st) (rm_text m) (rm_tokens m) (rm_cancelled m) (rm_subs m) (rm_logs m)
    (rm_rejections m) (rm_replay_gaps m) (rm_in_flight m).

(** The fields the methods write. *)
Definition put_runs (runs : gmap RunId Run) (store : option St) m : RunManager St :=
  mkManager runs store (rm_text m) (rm_tokens m) (rm_cancelled m) (rm_subs m) (rm_logs m)
    (rm_rejections m) (rm_replay_gaps m) (rm_in_flight m).
Definition put_text (text : gmap RunId RunTextBuffer) m : RunManager St :=
  mkManager (rm_runs m) (rm_store m) text (rm_tokens m) (rm_cancelled m) (rm_subs m) (rm_logs m)
    (rm_rejections m) (rm_replay_gaps m) (rm_in_flight m).
Definition put_tokens (tokens : gmap RunId Z) (cancelled : gset Z) m : RunManager St :=
  mkManager (rm_runs m) (rm_store m) (rm_text m) tokens cancelled (rm_subs m) (rm_logs m)
    (rm_rejections m) (rm_replay_gaps m) (rm_in_flight m).
Definition put_feeds (subs : Subscribers) (logs : Logs) m : RunManager St :=
  mkManager (rm_runs m) (rm_store m) (rm_text m) (rm_tokens m) (rm_cancelled m) subs logs
    (rm_rejections m) (rm_replay_gaps m) (rm_in_flight m).
Definition put_counters (rejections gaps in_flight : Z) m : RunManager St :=
  mkManager (rm_runs m) (rm_store m) (rm_text m) (rm_tokens m) (rm_cancelled m) (rm_subs m) (rm_logs m)
    rejections gaps in_flight.

(** * Runs *)

Definition is_active (s : RunStatus) : bool := match s with Queued | Running => true | _ => false end.

Definition get_run m (run_id : RunId) : option Run := rm_runs m !! run_id.

Context `{RunStore St} `{UuidCrate}.

Definition persist_run_candidate (r : Run) m : Result (option St) string :=
  match rm_store m with
  | Some st => match save_run r st with Ok st' => Ok (Some st') | Err e => Err e end
  | None => Ok None
  end.

(** The transition both writers fall back to when the store refuses. *)
Definition quarantine (now : Z) (error : string) (r : Run) : Run :=
  (run_transition now r (Fail ("lifecycle persistence failed: " +:+ error) "persistence_failed")).1.

Definition transition_run (now : Z) (run_id : RunId) (t : RunTransition) m
    : RunManager St * Result (option (TransitionOutcome RunStatus)) string :=
  match rm_runs m !! run_id with
  | None => (m, Ok None)
  | Some entry =>
      let '(candidate, outcome) := run_transition now entry t in
      let rejected := match outcome with Rejected _ _ _ => true | _ => false end in
      let m1 := if rejected
                then put_counters ((rm_rejections m + 1) mod 2 ^ 64)%Z (rm_replay_gaps m) (rm_in_flight m) m else m in
      if rejected && (MAX_LIFECYCLE_REVISION <=? run_lifecycle_revision entry)%Z
      then (m1, Err ("run " +:+ uuid_to_string (run_uuid run_id) +:+ " lifecycle revision is exhausted"))
      else
        let reached_terminal := match outcome with Applied _ to _ => run_is_terminal to | _ => false end in
        if is_applied outcome then
          match persist_run_candidate candidate m1 with
          | Err error =>
              (put_text (base.delete run_id (rm_text m1))
                 (put_runs (<[run_id := quarantine now error entry]> (rm_runs m1)) (rm_store m1) m1), Err error)
          | Ok store =>
              let m2 := put_runs (<[run_id := candidate]> (rm_runs m1)) store m1 in
              (if reached_terminal then put_text (base.delete run_id (rm_text m2)) m2 else m2, Ok (Some outcome))
          end
        else (m1, Ok (Some outcome))
  end.

(** The [try_mark_*] wrappers: whether the transition was applied. *)
Definition try_mark (now : Z) (run_id : RunId) (t : RunTransition) m : RunManager St * Result bool string :=
  match transition_run now run_id t m with
  | (m', Ok o) => (m', Ok match o with Some outcome => is_applied outcome | None => false end)
  | (m', Err e) => (m', Err e)
  end.
Definition try_mark_run_as_running (now : Z) (run_id : RunId) := try_mark now run_id (Start None).
Definition try_mark_run_as_running_with_config (now : Z) (run_id : RunId) (cfg : ResolvedRunConfig) :=
  try_mark now run_id (Start (Some cfg)).
Definition try_mark_run_as_completed (now : Z) (run_id : RunId) (output : string) (usage : TokenUsage) :=
  try_mark now run_id (Complete output usage).
Definition try_mark_run_as_failed (now : Z) (run_id : RunId) (error : string) := try_mark now run_id (Fail error "failed").
Definition try_mark_run_as_cancelled (now : Z) (run_id : RunId) := try_mark now run_id (Cancel "cancelled").

Definition update_run (now : Z) (r : Run) m : RunManager St * Result bool string :=
  match rm_runs m !! run_id r with
  | None =>
      match persist_run_candidate r m with
      | Err error => (m, Err error)
      | Ok store => (put_runs (<[run_id r := r]> (rm_runs m)) store m, Ok true)
      end
  | Some current =>
      if (run_lifecycle_revision current <? run_lifecycle_revision r)%Z then
        match persist_run_candidate r m with
        | Err error =>
            (if is_active (run_status current) && run_is_terminal (run_status r)
             then put_runs (<[run_id r := quarantine now error current]> (rm_runs m)) (rm_store m) m else m, Err error)
        | Ok store => (put_runs (<[run_id r := r]> (rm_runs m)) store m, Ok true)
        end
      else (m, Ok false)
  end.

Definition insert_run (now : Z) (r : Run) m : RunManager St * Result unit string :=
  match update_run now r m with
  | (m', Ok _) => (m', Ok tt)
  | (m', Err e) => (m', Err e)
  end.

Definition persist_run_admission (r : Run) (message : Message) m : RunManager St * Result (option Z) string :=
  match rm_store m with
  | None => (m, Ok None)
  | Some st =>
      match save_run_with_initial_message r message st with
      | Ok (touched_at, st') => (put_runs (rm_runs m) (Some st') m, Ok (Some touched_at))
      | Err e => (m, Err e)
      end
  end.

Definition insert_persisted_run (r : Run) m : RunManager St * Result unit string :=
  match rm_runs m !! run_id r with
  | None => (put_runs (<[run_id r := r]> (rm_runs m)) (rm_store m) m, Ok tt)
  | Some _ => (m, Err ("run " +:+ uuid_to_string (run_uuid (run_id r)) +:+ " was already registered during admission"))
  end.

(** Rows the sweep could not reconcile are not projected. *)
Definition hydrate_from_store m : RunManager St :=
  match rm_store m with
  | None => m
  | Some st =>
      match mark_stale_runs_failed st with
      | Err _ => m
      | Ok (_, st') =>
          match load_all_runs st' with
          | Ok runs =>
              put_runs (foldl (λ acc r, if is_active (run_status r) then acc else <[run_id r := r]> acc) (rm_runs m) runs)
                (Some st') m
          | Err _ => put_runs (rm_runs m) (Some st') m
          end
      end
  end.

(** * Tokens *)

Definition register_cancel_token (run_id : RunId) (token : Z) m : RunManager St :=
  put_tokens (<[run_id := token]> (rm_tokens m)) (rm_cancelled m) m.

Definition cancel_run (run_id : RunId) m : RunManager St * bool :=
  match rm_tokens m !! run_id with
  | Some token => (put_tokens (rm_tokens m) ({[token]} ∪ rm_cancelled m) m, true)
  | None => (m, false)
  end.

Definition has_cancel_token (run_id : RunId) m : bool := bool_decide (is_Some (rm_tokens m !! run_id)).

Definition remove_cancel_token (run_id : RunId) m : RunManager St :=
  put_tokens (base.delete run_id (rm_tokens m)) (rm_cancelled m) m.

Definition cancel_all_in_flight m : RunManager St * nat :=
  (put_tokens (rm_tokens m) (foldr (λ kv c, {[kv.2]} ∪ c) (rm_cancelled m) (map_to_list (rm_tokens m))) m,
   length (map_to_list (rm_tokens m))).

(** The runs an iteration over the registry keeps. *)
Definition select (f : Run → bool) m : list Run :=
  filter (λ r, f r = true) (map snd (map_to_list (rm_runs m))).

Fixpoint cancel_each (ids : list RunId) m : RunManager St * nat :=
  match ids with
  | [] => (m, 0)
  | id :: ids' =>
      let '(m1, found) := cancel_run id m in
      let '(m2, n) := cancel_each ids' m1 in
      (m2, if found then S n else n)
  end.

Definition active_ids (f : Run → bool) m : list RunId :=
  map fst (filter (λ kv, f kv.2 && is_active (run_status kv.2) = true) (map_to_list (rm_runs m))).

Definition cancel_runs_for_job (target : JobId) m : RunManager St * nat :=
  cancel_each (active_ids (λ r, bool_decide (run_job_id r = Some target)) m) m.
Definition cancel_runs_for_session (target : SessionId) m : RunManager St * nat :=
  cancel_each (active_ids (λ r, bool_decide (run_session_id r = target)) m) m.
Definition cancel_runs_for_agent (target : AgentId) m : RunManager St * nat :=
  cancel_each (active_ids (λ r, bool_decide (run_agent_id r = target)) m) m.

(** * Queries *)

Definition has_active_runs (session_id : SessionId) m : bool :=
  existsb (λ r, bool_decide (run_session_id r = session_id) && is_active (run_status r)) (map snd (map_to_list (rm_runs m))).

Definition agent_has_running_run (agent_id : AgentId) m : bool :=
  existsb (λ r, bool_decide (run_agent_id r = agent_id) && bool_decide (run_status r = Running))
    (map snd (map_to_list (rm_runs m))).

Definition list_queued_for_agent (agent_id : AgentId) m : list Run :=
  sort_by_key run_created_at
    (select (λ r, bool_decide (run_agent_id r = agent_id) && bool_decide (run_status r = Queued)) m).

Definition list_queued_for_session (session_id : SessionId) m : list Run :=
  sort_by_key run_created_at
    (select (λ r, bool_decide (run_session_id r = session_id) && bool_decide (run_status r = Queued)) m).

(** [sort_by_key] with [Reverse]. *)
Definition list_by_session (session_id : SessionId) (limit : nat) m : list Run :=
  take limit (sort_by_key (λ r, - run_created_at r)%Z (select (λ r, bool_decide (run_session_id r = session_id)) m)).
Definition list_by_agent (agent_id : AgentId) (limit : nat) m : list Run :=
  take limit (sort_by_key (λ r, - run_created_at r)%Z (select (λ r, bool_decide (run_agent_id r = agent_id)) m)).

(** * Events *)

Definition is_ephemeral (event_type : string) : bool :=
  String.eqb event_type "token_delta" || String.eqb event_type "status"
  || String.eqb event_type "context_debug" || String.eqb event_type "subagent_activity".

(** [source_agent] present and not null. *)
Definition is_subagent (data : json) : bool :=
  match json_get "source_agent" data with Some JNull => false | Some _ => true | None => false end.

Definition append_delta (delta : string) (hwm : option Z) (b : RunTextBuffer) : RunTextBuffer := {|
  tb_text := tb_text b +:+ delta;
  tb_last_session_event_id :=
    match hwm with
    | Some id => Some (match tb_last_session_event_id b with Some prev => Z.max prev id | None => id end)
    | None => tb_last_session_event_id b
    end;
|}.

Definition buffer_default : RunTextBuffer := {| tb_text := ""; tb_last_session_event_id := None |}.

(** The text accumulator of [send_event]. *)
Definition accumulate (run_id : RunId) (hwm : option Z) (e : SseEventData) (text : gmap RunId RunTextBuffer)
    : gmap RunId RunTextBuffer :=
  if String.eqb (sse_event_type e) "token_delta" then
    match negb (is_subagent (sse_data e)), json_get "delta" (sse_data e) ≫= as_str with
    | true, Some delta => <[run_id := append_delta delta hwm (default buffer_default (text !! run_id))]> text
    | _, _ => text
    end
  else if String.eqb (sse_event_type e) "tool_start" || String.eqb (sse_event_type e) "tool_end" then
    if negb (is_subagent (sse_data e)) then base.delete run_id text else text
  else if String.eqb (sse_event_type e) "stream_reset" then
    if negb (is_subagent (sse_data e)) then base.delete run_id text else text
  else text.

Definition fan_run (k : RunId) (e : SseEventData) (s : Subscribers) : Subscribers :=
  let '(senders, chans) := fan_out_to (event_senders s) (channels s) k e in
  mkSubscribers senders (session_senders s) (agent_senders s) (activity_senders s) chans (next_subscription_id s).
Definition fan_session (k : SessionId) (e : SseEventData) (s : Subscribers) : Subscribers :=
  let '(senders, chans) := fan_out_to (session_senders s) (channels s) k e in
  mkSubscribers (event_senders s) senders (agent_senders s) (activity_senders s) chans (next_subscription_id s).
Definition fan_agent (k : AgentId) (e : SseEventData) (s : Subscribers) : Subscribers :=
  let '(senders, chans) := fan_out_to (agent_senders s) (channels s) k e in
  mkSubscribers (event_senders s) (session_senders s) senders (activity_senders s) chans (next_subscription_id s).
Definition fan_activity (e : SseEventData) (s : Subscribers) : Subscribers :=
  let '(senders, chans) := fan_out_to (activity_senders s) (channels s) tt e in
  mkSubscribers (event_senders s) (session_senders s) (agent_senders s) senders chans (next_subscription_id s).

Definition log_run (run_id : RunId) (session_id : SessionId) (now : Z) (e : SseEventData) (l : Logs) : Logs * Z :=
  let '(log, id) := run_log_event (event_log l) run_id session_id (sse_event_type e) (sse_data e) now in
  (mkLogs log (session_event_log l) (agent_event_log l) (activity_event_log l), id).
Definition log_session (session_id : SessionId) (run_id : RunId) (now : Z) (e : SseEventData) (l : Logs) : Logs * Z :=
  let '(log, id) := session_log_event (session_event_log l) session_id run_id (sse_event_type e) (sse_data e) now in
  (mkLogs (event_log l) log (agent_event_log l) (activity_event_log l), id).
Definition log_agent (agent_id : AgentId) (run_id : RunId) (session_id : SessionId) (now : Z) (e : SseEventData) (l : Logs)
    : Logs * Z :=
  let '(log, id) := agent_log_event (agent_event_log l) agent_id run_id session_id (sse_event_type e) (sse_data e) now in
  (mkLogs (event_log l) (session_event_log l) log (activity_event_log l), id).

Definition ACTIVITY_LOG_KEY : AgentId := MkAgentId (MkUuid 0xACACACACACACACACACACACACACACACAC).

Definition log_activity (run_id : RunId) (session_id : SessionId) (now : Z) (e : SseEventData) (l : Logs) : Logs * Z :=
  let '(log, id) := agent_log_event (activity_event_log l) ACTIVITY_LOG_KEY run_id session_id (sse_event_type e) (sse_data e) now in
  (mkLogs (event_log l) (session_event_log l) (agent_event_log l) log, id).

Definition send_event (now : Z) (run_id : RunId) (session_id : SessionId) (event : SseEventData) m : RunManager St :=
  let ephemeral := is_ephemeral (sse_event_type event) in
  let '(logs1, event1) :=
    if ephemeral then (rm_logs m, event)
    else let '(l, id) := log_run run_id session_id now event (rm_logs m) in (l, with_event_id id event) in
  let hwm := latest_event_id (session_event_log logs1) session_id in
  let text := accumulate run_id hwm event1 (rm_text m) in
  let subs1 := fan_run run_id event1 (rm_subs m) in
  let '(logs2, session_event) :=
    if ephemeral then (logs1, event1)
    else let '(l, id) := log_session session_id run_id now event1 logs1 in (l, with_event_id id event1) in
  put_text text (put_feeds (fan_session session_id session_event subs1) logs2 m).

Definition send_session_event (now : Z) (session_id : SessionId) (run_id : RunId) (event : SseEventData) m : RunManager St :=
  let '(logs, id) := log_session session_id run_id now event (rm_logs m) in
  put_feeds (fan_session session_id (with_event_id id event) (rm_subs m)) logs m.

Definition send_transient_session_event (session_id : SessionId) (event : SseEventData) m : RunManager St :=
  put_feeds (fan_session session_id event (rm_subs m)) (rm_logs m) m.

Definition send_activity_event (now : Z) (run_id : RunId) (session_id : SessionId) (event : SseEventData) m : RunManager St :=
  let '(logs, id) := log_activity run_id session_id now event (rm_logs m) in
  put_feeds (fan_activity (with_event_id id event) (rm_subs m)) logs m.

(** The [has_active_run] member the mirror adds to an object. *)
Definition stamp_active (active : bool) (e : SseEventData) : SseEventData := {|
  sse_event_type := sse_event_type e;
  sse_data := match sse_data e with
              | JObj ms => JObj (member_insert "has_active_run" (JBool active) ms)
              | d => d
              end;
  sse_ts := sse_ts e; sse_event_id := sse_event_id e;
|}.

Definition send_agent_event (now : Z) (agent_id : AgentId) (run_id : RunId) (session_id : SessionId)
    (event : SseEventData) m : RunManager St :=
  let '(m1, event1) :=
    if starts_with (sse_event_type event) "session_activity" then
      let e := stamp_active (has_active_runs session_id m) event in
      (send_activity_event now run_id session_id e m, e)
    else (m, event) in
  let '(logs, id) := log_agent agent_id run_id session_id now event1 (rm_logs m1) in
  put_feeds (fan_agent agent_id (with_event_id id event1) (rm_subs m1)) logs m1.

(** * Subscriptions and replay *)

Definition subscribe_run (run_id : RunId) m : RunManager St * Z :=
  let s := rm_subs m in
  let '(id, senders, chans, next) := subscribe_to (event_senders s) (channels s) (next_subscription_id s) run_id Lossless in
  (put_feeds (mkSubscribers senders (session_senders s) (agent_senders s) (activity_senders s) chans next) (rm_logs m) m, id).
Definition subscribe_session (session_id : SessionId) m : RunManager St * Z :=
  let s := rm_subs m in
  let '(id, senders, chans, next) := subscribe_to (session_senders s) (channels s) (next_subscription_id s) session_id Lossless in
  (put_feeds (mkSubscribers (event_senders s) senders (agent_senders s) (activity_senders s) chans next) (rm_logs m) m, id).
Definition subscribe_agent (agent_id : AgentId) m : RunManager St * Z :=
  let s := rm_subs m in
  let '(id, senders, chans, next) := subscribe_to (agent_senders s) (channels s) (next_subscription_id s) agent_id Bounded in
  (put_feeds (mkSubscribers (event_senders s) (session_senders s) senders (activity_senders s) chans next) (rm_logs m) m, id).
Definition subscribe_activity m : RunManager St * Z :=
  let s := rm_subs m in
  let '(id, senders, chans, next) := subscribe_to (activity_senders s) (channels s) (next_subscription_id s) tt Bounded in
  (put_feeds (mkSubscribers (event_senders s) (session_senders s) (agent_senders s) senders chans next) (rm_logs m) m, id).

Definition put_event_senders (senders : SubscriberMap RunId) m : RunManager St :=
  let s := rm_subs m in
  put_feeds (mkSubscribers senders (session_senders s) (agent_senders s) (activity_senders s) (channels s)
    (next_subscription_id s)) (rm_logs m) m.

Definition remove_senders (run_id : RunId) m : RunManager St :=
  put_event_senders (base.delete run_id (event_senders (rm_subs m))) m.

Definition purge_terminal_senders m : RunManager St :=
  put_event_senders
    (filter (λ kv, negb (match rm_runs m !! kv.1 with Some r => run_is_terminal (run_status r) | None => true end) = true)
       (event_senders (rm_subs m))) m.

Definition close_all_senders m : RunManager St :=
  put_feeds (mkSubscribers ∅ ∅ ∅ ∅ (channels (rm_subs m)) (next_subscription_id (rm_subs m))) (rm_logs m) m.

Definition observe_replay_window (w : ReplayWindow) m : RunManager St * ReplayWindow :=
  (if replay_gap w then put_counters (rm_rejections m) ((rm_replay_gaps m + 1) mod 2 ^ 64)%Z (rm_in_flight m) m else m, w).

Definition run_replay_window (run_id : RunId) (last_event_id : option Z) m : RunManager St * ReplayWindow :=
  observe_replay_window (manager_replay_window (event_log (rm_logs m)) run_id last_event_id) m.
Definition session_replay_window (session_id : SessionId) (last_event_id : option Z) m : RunManager St * ReplayWindow :=
  observe_replay_window (manager_replay_window (session_event_log (rm_logs m)) session_id last_event_id) m.
Definition agent_replay_window (agent_id : AgentId) (last_event_id : option Z) m : RunManager St * ReplayWindow :=
  observe_replay_window (manager_replay_window (agent_event_log (rm_logs m)) agent_id last_event_id) m.
Definition activity_replay_window (last_event_id : option Z) m : RunManager St * ReplayWindow :=
  observe_replay_window (manager_replay_window (activity_event_log (rm_logs m)) ACTIVITY_LOG_KEY last_event_id) m.

Definition run_text_buffer_snapshot (run_id : RunId) m : option RunTextBuffer := rm_text m !! run_id.
Definition evict_run_text_buffer (run_id : RunId) m : RunManager St := put_text (base.delete run_id (rm_text m)) m.

(** The in-flight counter is a [usize] and wraps. *)
Definition track_in_flight m : RunManager St :=
  put_counters (rm_rejections m) (rm_replay_gaps m) ((rm_in_flight m + 1) mod 2 ^ 64)%Z m.
(** With whether the drain waiters are woken. *)
Definition untrack_in_flight m : RunManager St * bool :=
  (put_counters (rm_rejections m) (rm_replay_gaps m) ((rm_in_flight m - 1) mod 2 ^ 64)%Z m,
   (rm_in_flight m =? 1)%Z).
End manager.

(** * The registry under concurrent writers *)

Section registry.
Context {St : Type} `{RunStore St} `{D : RunDeletions St} `{UuidCrate}.
Implicit Types (m : RunManager St).

Inductive RegistryOp :=
| OpTransition (now : Z) (run_id : RunId) (t : RunTransition)
| OpUpdate (now : Z) (r : Run)
| OpAdmit (r : Run) (message : Message)
| OpDelete (d : RunDeletion).

(** The writers' steps; [OpAdmit] is the admission of [create_run], persisted
    first and published when that succeeded; a deletion leaves memory alone. *)
Definition registry_step m (op : RegistryOp) : RunManager St :=
  match op with
  | OpTransition now id t => (transition_run now id t m).1
  | OpUpdate now r => (update_run now r m).1
  | OpAdmit r message =>
      match persist_run_admission r message m with
      | (m1, Ok _) => (insert_persisted_run r m1).1
      | (m1, Err _) => m1
      end
  | OpDelete d =>
      match rm_store m with
      | None => m
      | Some st => match delete_runs d st with Ok st' => put_runs (rm_runs m) (Some st') m | Err _ => m end
      end
  end.

Definition store_rows m : gmap RunId Run := match rm_store m with Some st => run_rows st | None => ∅ end.

(** Whose run it is. *)
Definition owner (r : Run) : SessionId * AgentId := (run_session_id r, run_agent_id r).

(** A writer that brings a new run brings a new id, and one that replaces a run
    keeps its owner. *)
Definition fresh_op m (op : RegistryOp) : Prop :=
  match op with
  | OpTransition _ _ _ | OpDelete _ => True
  | OpUpdate _ r => match rm_runs m !! run_id r with
                    | None => store_rows m !! run_id r = None
                    | Some cur => owner r = owner cur
                    end
  | OpAdmit r _ => rm_runs m !! run_id r = None
  end.

Fixpoint fresh_ops m (ops : list RegistryOp) : Prop :=
  match ops with
  | [] => True
  | op :: ops' => fresh_op m op ∧ fresh_ops (registry_step m op) ops'
  end.

(** A row of a run: what the run says, or an earlier revision of a run that was
    failed because the store refused its latest one. *)
Definition row_fits (row r : Run) : Prop :=
  owner row = owner r ∧
  (row = row_of r ∨
   (run_lifecycle_revision row < run_lifecycle_revision r)%Z ∧ run_status r = Failed ∧
   run_terminal_reason r = Some "persistence_failed").

(** The row fits where there is one, and is missing only after one of the
    deletions [ds]. *)
Definition gone (ds : list RunDeletion) (r : Run) : Prop := ∃ d, d ∈ ds ∧ deleted_with d r = true.

Definition tracked (ds : list RunDeletion) (rows : gmap RunId Run) (r : Run) : Prop :=
  match rows !! run_id r with Some row => row_fits row r | None => gone ds r end.

Definition tracks (ds : list RunDeletion) m : Prop :=
  ∀ id r, rm_runs m !! id = Some r → run_id r = id ∧ (is_Some (rm_store m) → tracked ds (store_rows m) r).

(** A request for a transition, and what it reports about a run. *)
Definition request (req : Z * RunId * RunTransition) m : RunManager St * Result (option (TransitionOutcome RunStatus)) string :=
  transition_run req.1.1 req.1.2 req.2 m.

Fixpoint requests (reqs : list (Z * RunId * RunTransition)) m
    : RunManager St * list (RunId * Result (option (TransitionOutcome RunStatus)) string) :=
  match reqs with
  | [] => (m, [])
  | req :: reqs' =>
      let '(m1, o) := request req m in
      let '(m2, os) := requests reqs' m1 in
      (m2, (req.1.2, o) :: os)
  end.

(** A report that the run reached a terminal status, or that the store refused
    and the run was failed for it. *)
Definition announces_end (id : RunId) (o : RunId * Result (option (TransitionOutcome RunStatus)) string) : bool :=
  bool_decide (o.1 = id) &&
  match o.2 with
  | Ok (Some (Applied _ to _)) => run_is_terminal to
  | Ok _ => false
  | Err _ => true
  end.

(** ** The reply text of a turn *)

(** A parent event that seals or retracts the text before it. *)
Definition boundary (e : SseEventData) : bool :=
  negb (is_subagent (sse_data e)) &&
  (String.eqb (sse_event_type e) "tool_start" || String.eqb (sse_event_type e) "tool_end" ||
   String.eqb (sse_event_type e) "stream_reset").

(** The text a parent event adds to the reply. *)
Definition delta_of (e : SseEventData) : option string :=
  if String.eqb (sse_event_type e) "token_delta" && negb (is_subagent (sse_data e))
  then json_get "delta" (sse_data e) ≫= as_str else None.

Fixpoint since_boundary (l : list SseEventData) : list SseEventData :=
  match l with
  | [] => []
  | e :: l' => if existsb boundary l' then since_boundary l' else if boundary e then l' else e :: l'
  end.

(** What a client that saw all events of a run shows as its unsealed reply. *)
Definition turn_text (l : list SseEventData) : option string :=
  match omap delta_of (since_boundary l) with
  | [] => None
  | deltas => Some (foldl String.append "" deltas)
  end.

Definition send m (x : Z * RunId * SessionId * SseEventData) : RunManager St :=
  send_event x.1.1.1 x.1.1.2 x.1.2 x.2 m.

Definition events_of_run (id : RunId) (l : list (Z * RunId * SessionId * SseEventData)) : list SseEventData :=
  map snd (filter (λ x, x.1.1.2 = id) l).
End registry.

(** * Facts *)

Section facts.
Context {St : Type} `{S : RunStore St} `{D : RunDeletions St} `{!RunStoreLaws S} `{!RunDeletionLaws S D} `{UuidCrate}.
Implicit Types (m : RunManager St).
Context (ds : list RunDeletion).
Abbreviation tracks := (tracks ds).
Abbreviation tracked := (tracked ds).

Lemma gone_owner r r' : owner r' = owner r → gone ds r → gone ds r'.
Proof. intros [= Es Ea] (d & Hd & E). exists d. split; [done|]. destruct d; simpl in *; by rewrite ?Es, ?Ea. Qed.

Lemma row_of_fits r : row_fits (row_of r) r.
Proof. split; [done|by left]. Qed.

Lemma row_of_id r : run_id (row_of r) = run_id r. Proof. done. Qed.

Lemma save_on_same r rows :
  (∀ old, rows !! run_id r = Some old → (run_lifecycle_revision old < run_lifecycle_revision r)%Z) →
  (save_run_on r rows).2 !! run_id r = Some (row_of r).
Proof.
  intros Hold. unfold save_run_on. destruct (rows !! run_id r) as [old|]; simpl; [|by rewrite lookup_insert_eq].
  destruct (Z.ltb_spec (run_lifecycle_revision old) (run_lifecycle_revision r)); simpl; [by rewrite lookup_insert_eq|].
  specialize (Hold _ eq_refl). lia.
Qed.

Lemma save_on_other r rows id : run_id r ≠ id → (save_run_on r rows).2 !! id = rows !! id.
Proof. intros Hne. unfold save_run_on. repeat case_match; simpl; by rewrite ?lookup_insert_ne. Qed.

Lemma persist_rows m r store :
  persist_run_candidate r m = Ok store →
  match rm_store m, store with
  | Some st, Some st' => run_rows st' = (save_run_on r (run_rows st)).2
  | None, None => True
  | _, _ => False
  end.
Proof.
  unfold persist_run_candidate. destruct (rm_store m) as [st|]; [|by intros [= <-]].
  destruct (save_run r st) as [st'|] eqn:E; [|done]. intros [= <-]. by apply save_run_rows.
Qed.

(** Writing a run of a later revision, in memory and in the store. *)
Lemma tracks_write m r store :
  tracks m → persist_run_candidate r m = Ok store →
  (∀ old, store_rows m !! run_id r = Some old → (run_lifecycle_revision old < run_lifecycle_revision r)%Z) →
  tracks (put_runs (<[run_id r := r]> (rm_runs m)) store m).
Proof.
  intros Ht Hp Hold id x Hx. simpl in Hx. pose proof (persist_rows _ _ _ Hp) as Hr. unfold RunManager.tracked.
  unfold store_rows in *. simpl. apply lookup_insert_Some in Hx as [[<- <-]|[Hne Hx]].
  - split; [done|]. intros [st' ->]. destruct (rm_store m) as [st|]; [|done].
    rewrite Hr, save_on_same by auto. apply row_of_fits.
  - destruct (Ht _ _ Hx) as [<- Htr]. split; [done|]. intros [st' ->]. destruct (rm_store m) as [st|] eqn:E; [|done].
    rewrite Hr, save_on_other by done. unfold RunManager.tracked, store_rows in Htr. rewrite E in Htr. apply Htr. by eexists.
Qed.

(** A change in memory only. *)
Lemma tracks_memory m r :
  tracks m → (is_Some (rm_store m) → tracked (store_rows m) r) →
  tracks (put_runs (<[run_id r := r]> (rm_runs m)) (rm_store m) m).
Proof.
  intros Ht Hr id x Hx. simpl in Hx. apply lookup_insert_Some in Hx as [[<- <-]|[Hne Hx]]; [done|].
  by apply Ht.
Qed.

Lemma tracked_revision rows r row :
  tracked rows r → rows !! run_id r = Some row → (run_lifecycle_revision row ≤ run_lifecycle_revision r)%Z.
Proof. unfold RunManager.tracked. intros Hrow E. rewrite E in Hrow. destruct Hrow as [_ [->|[? _]]]; simpl; lia. Qed.

Lemma run_transition_id now r t : run_id (run_transition now r t).1 = run_id r.
Proof.
  destruct (run_transition now r t) as [r' o] eqn:E.
  destruct (run_transition_cases _ _ _ _ _ E) as [[-> _]|[-> _]]; [done|]. by destruct t.
Qed.

Lemma run_transition_owner now r t : owner (run_transition now r t).1 = owner r.
Proof.
  destruct (run_transition now r t) as [r' o] eqn:E.
  destruct (run_transition_cases _ _ _ _ _ E) as [[-> _]|[-> _]]; [done|]. by destruct t.
Qed.

(** Failing an active run for the store keeps it behind its row. *)
Lemma tracked_quarantine now error rows r :
  tracked rows r → is_active (run_status r) = true → tracked rows (quarantine now error r).
Proof.
  unfold RunManager.tracked. rewrite (run_transition_id _ _ _ : run_id (quarantine now error r) = _). intros Htr Ha.
  pose proof (run_transition_owner _ _ _ : owner (quarantine now error r) = _) as Ho.
  destruct (rows !! run_id r) as [row|]; [|by eapply gone_owner].
  destruct Htr as [Hrow Hc]. split; [congruence|]. revert Ho. unfold quarantine.
  destruct (run_transition now r _) as [r' o] eqn:E. simpl. intros _.
  destruct (run_transition_cases _ _ _ _ _ E) as [[-> _]|[-> Hl]]; [done|].
  right. destruct Hc as [->|(_ & Hf & _)]; [simpl; split; [lia|done]|]. by rewrite Hf in Ha.
Qed.

Lemma applied_revision now r t r' o :
  run_transition now r t = (r', o) → is_applied o = true →
  run_lifecycle_revision r' = (run_lifecycle_revision r + 1)%Z ∧ is_active (run_status r) = true.
Proof.
  intros E Ho. destruct o; try done. destruct (lc_applied (L := run_lifecycle) _ _ _ _ _ _ _ E) as (-> & _ & Hf & -> & Hr & _).
  split; [done|]. simpl in Hf. by destruct (run_status r).
Qed.

Lemma tracks_same m m' :
  tracks m → rm_runs m' = rm_runs m → rm_store m' = rm_store m → tracks m'.
Proof. unfold tracks, store_rows. by intros Ht -> ->. Qed.

Lemma tracks_transition now id t m : tracks m → tracks (transition_run now id t m).1.
Proof.
  intros Ht. unfold transition_run. destruct (rm_runs m !! id) as [entry|] eqn:Ee; [|done].
  destruct (Ht _ _ Ee) as [<- Htr]. pose proof (run_transition_id now entry t) as Hid.
  destruct (run_transition now entry t) as [cand o] eqn:E. simpl in Hid.
  set (m1 := if match o with Rejected _ _ _ => true | _ => false end then _ else m).
  assert (tracks m1) as Ht1 by (unfold m1; by destruct o).
  assert (rm_store m1 = rm_store m ∧ rm_runs m1 = rm_runs m) as [Es Er] by (unfold m1; by destruct o).
  destruct (_ && _); [done|]. destruct (is_applied o) eqn:Ho; [|done].
  destruct (applied_revision _ _ _ _ _ E Ho) as [Hrev Hact].
  destruct (persist_run_candidate cand m1) as [store|error] eqn:Ep.
  - rewrite <-Hid. assert (tracks (put_runs (<[run_id cand := cand]> (rm_runs m1)) store m1)) as Hw.
    { apply tracks_write; [done..|]. intros old Hold. unfold store_rows in Hold, Htr. rewrite Es in Hold.
      destruct (rm_store m) as [st|] eqn:Em; [|by rewrite lookup_empty in Hold]. rewrite Hid in Hold.
      pose proof (tracked_revision _ _ _ (Htr ltac:(eauto)) Hold). lia. }
    destruct o as [from to rev| |]; try done. destruct (run_is_terminal to); [|done]. by eapply tracks_same.
  - apply (tracks_same (put_runs (<[run_id (quarantine now error entry) := quarantine now error entry]> (rm_runs m1)) (rm_store m1) m1));
      [|simpl; unfold quarantine; by rewrite run_transition_id|done].
    apply tracks_memory; [done|]. unfold store_rows. rewrite Es. intros Hs. apply tracked_quarantine; auto.
Qed.

Lemma tracks_update now r m : tracks m → fresh_op m (OpUpdate now r) → tracks (update_run now r m).1.
Proof.
  intros Ht Hf. unfold update_run. simpl in Hf. destruct (rm_runs m !! run_id r) as [cur|] eqn:Ec.
  - destruct (Ht _ _ Ec) as [Hid Htr]. destruct (Z.ltb_spec (run_lifecycle_revision cur) (run_lifecycle_revision r)); [|done].
    destruct (persist_run_candidate r m) as [store|error] eqn:Ep; simpl.
    + apply tracks_write; [done..|]. intros old Hold. rewrite <-Hid in Hold. unfold store_rows in Hold, Htr.
      destruct (rm_store m) as [st|]; [|by rewrite lookup_empty in Hold].
      pose proof (tracked_revision _ _ _ (Htr ltac:(eauto)) Hold). lia.
    + destruct (is_active (run_status cur)) eqn:Ha; [|done]. destruct (run_is_terminal (run_status r)); [|done]. simpl.
      rewrite <-Hid. replace (run_id cur) with (run_id (quarantine now error cur)) by apply run_transition_id.
      apply tracks_memory; [done|]. intros Hs. apply tracked_quarantine; auto.
  - destruct (persist_run_candidate r m) as [store|error] eqn:Ep; simpl; [|done].
    apply tracks_write; [done..|]. by rewrite Hf.
Qed.

Lemma tracks_admit r message m : tracks m → fresh_op m (OpAdmit r message) → tracks (registry_step m (OpAdmit r message)).
Proof.
  intros Ht Hf. simpl in *. unfold persist_run_admission. destruct (rm_store m) as [st|] eqn:Em.
  - destruct (save_run_with_initial_message r message st) as [[ts st']|e] eqn:E; [|done].
    apply admit_rows in E. unfold insert_persisted_run. simpl. rewrite Hf. simpl.
    intros id x Hx. simpl in Hx. apply lookup_insert_Some in Hx as [[<- <-]|[Hne Hx]].
    + split; [done|]. intros _. unfold RunManager.tracked, store_rows. simpl. unfold save_run_on in E.
      repeat case_match; try done; injection E as E; rewrite <- E, lookup_insert_eq in *; simplify_eq; apply row_of_fits.
    + destruct (Ht _ _ Hx) as [<- Htr]. split; [done|]. intros _. specialize (Htr ltac:(by rewrite Em)).
      unfold RunManager.tracked, store_rows in *. simpl. rewrite Em in Htr.
      apply (f_equal snd) in E. simpl in E. by rewrite <-E, save_on_other.
  - unfold insert_persisted_run. rewrite Hf. simpl. apply tracks_memory; [done|]. rewrite Em. by intros [? [=]].
Qed.

Lemma tracks_delete d m : d ∈ ds → tracks m → tracks (registry_step m (OpDelete d)).
Proof.
  intros Hd Ht. simpl. destruct (rm_store m) as [st|] eqn:Em; [|done]. destruct (delete_runs d st) as [st'|] eqn:E; [|done].
  apply deleted_rows in E. intros id r Hr. destruct (Ht _ _ Hr) as [<- Htr]. split; [done|]. intros _.
  specialize (Htr ltac:(by rewrite Em)). unfold RunManager.tracked, store_rows in *. simpl. rewrite Em in Htr. rewrite E.
  destruct (run_rows st !! run_id r) as [row|] eqn:Erow.
  - destruct (deleted_with d row) eqn:Edel.
    + rewrite map_lookup_filter_None_2 by (right; intros x Hx; simplify_eq; simpl; congruence).
      eapply gone_owner; [symmetry; apply Htr|]. by exists d.
    + by rewrite (map_lookup_filter_Some_2 _ _ _ row).
  - by rewrite map_lookup_filter_None_2 by (by left).
Qed.

Lemma tracks_run ops m :
  (∀ d, OpDelete d ∈ ops → d ∈ ds) → tracks m → fresh_ops m ops → tracks (foldl registry_step m ops).
Proof.
  revert m; induction ops as [|op ops IH]; intros m Hds Ht Hf; [done|]. destruct Hf as [Hf Hfs]. simpl.
  apply IH; [set_solver| |done]. destruct op; [by apply tracks_transition|by apply tracks_update|by apply tracks_admit|].
  apply tracks_delete; [apply Hds; left|done].
Qed.

Lemma hydrated_runs l (acc : gmap RunId Run) (P : Run → Prop) :
  Forall P l → (∀ id r, acc !! id = Some r → run_id r = id ∧ P r ∧ is_active (run_status r) = false) →
  ∀ id r, foldl (λ acc r, if is_active (run_status r) then acc else <[run_id r := r]> acc) acc l !! id = Some r →
    run_id r = id ∧ P r ∧ is_active (run_status r) = false.
Proof.
  intros Hl. revert acc. induction Hl as [|x l Hx Hl IH]; intros acc Hacc; simpl; [done|].
  apply IH. destruct (is_active (run_status x)) eqn:Ea; [done|].
  intros id r [[<- <-]|[_ Hr]]%lookup_insert_Some; [done|]. by apply Hacc.
Qed.

Lemma hydrate_tracks m :
  rm_runs m = ∅ → tracks (hydrate_from_store m) ∧
  ∀ id r, rm_runs (hydrate_from_store m) !! id = Some r → is_active (run_status r) = false.
Proof.
  intros Hm. unfold hydrate_from_store.
  assert (∀ m', rm_runs m' = ∅ → tracks m' ∧ ∀ id r, rm_runs m' !! id = Some r → is_active (run_status r) = false) as He.
  { intros m' E. unfold tracks. rewrite E. split; intros id r Hr; by rewrite lookup_empty in Hr. }
  destruct (rm_store m) as [st|]; [|by apply He]. destruct (mark_stale_runs_failed st) as [[n st']|]; [|by apply He].
  destruct (load_all_runs st') as [l|] eqn:El; [|by apply He].
  pose proof (hydrated_runs l (rm_runs m) _ (load_rows _ _ El)) as Hh. rewrite Hm in Hh |- *.
  specialize (Hh ltac:(intros id r Hr; by rewrite lookup_empty in Hr)). split.
  - intros id r Hr. destruct (Hh _ _ Hr) as (<- & [Hrow Heq] & _). split; [done|]. intros _.
    unfold RunManager.tracked. unfold store_rows. simpl. rewrite Hrow. split; [done|by left].
  - intros id r Hr. by apply Hh in Hr as (_ & _ & ?).
Qed.

(** ** Requests *)

(** A well-formed run is far from the last revision. *)
Lemma wf_below_max r : run_wf r → (MAX_LIFECYCLE_REVISION <=? run_lifecycle_revision r)%Z = false.
Proof. intros Hwf. pose proof (run_wf_revision r Hwf). unfold MAX_LIFECYCLE_REVISION, i64_max. apply Z.leb_gt. lia. Qed.

(** The store's refusal ends an active run. *)
Lemma quarantine_active now error r :
  run_wf r → is_active (run_status r) = true →
  quarantine now error r = run_effect now r (Fail ("lifecycle persistence failed: " +:+ error) "persistence_failed").
Proof.
  intros Hwf Ha. unfold quarantine, run_transition. cbn [target_status]. rewrite (wf_below_max r Hwf).
  rewrite decide_False by (intros E; by rewrite E in Ha). by destruct (run_status r).
Qed.

Lemma cancel_active now r :
  run_wf r → is_active (run_status r) = true →
  run_transition now r (Cancel "cancelled") =
    (run_effect now r (Cancel "cancelled"), Applied (run_status r) Cancelled (run_lifecycle_revision r + 1)%Z).
Proof.
  intros Hwf Ha. unfold run_transition. cbn [target_status]. rewrite (wf_below_max r Hwf).
  rewrite decide_False by (intros E; by rewrite E in Ha). by destruct (run_status r).
Qed.

Lemma quarantine_end now error r :
  run_wf r → run_is_terminal (run_status r) = false →
  run_wf (quarantine now error r) ∧ run_is_terminal (run_status (quarantine now error r)) = true.
Proof.
  intros Hwf Ht. rewrite quarantine_active by (done || by destruct (run_status r)).
  split; [|done]. apply run_wf_effect; [done|]. by destruct (run_status r).
Qed.

(** What a request reporting [o] did to the run [r]. *)
Definition request_effect (id : RunId) (r : Run) m m' (o : RunId * Result (option (TransitionOutcome RunStatus)) string) : Prop :=
  ∃ r', rm_runs m' !! id = Some r' ∧ run_wf r' ∧
        (if run_is_terminal (run_status r) then r' = r ∧ rm_text m' !! id = rm_text m !! id ∧ announces_end id o = false
         else announces_end id o = run_is_terminal (run_status r')).

Lemma request_no_effect id r m m' o :
  run_wf r → rm_runs m' !! id = Some r → rm_text m' !! id = rm_text m !! id → announces_end id o = false →
  request_effect id r m m' o.
Proof.
  intros Hwf Hr Ht Ha. exists r. rewrite Ha. split_and!; [done|done|]. by destruct (run_is_terminal (run_status r)).
Qed.

(** An applied transition is stored, or the run is failed. *)
Lemma request_applied now t id r m cand o :
  rm_runs m !! id = Some r → run_wf r → run_transition now r t = (cand, o) → is_applied o = true →
  let '(m', x) := request (now, id, t) m in request_effect id r m m' (id, x).
Proof.
  intros Hr Hwf E Ho. unfold request, transition_run. cbn [fst snd]. rewrite Hr, E, Ho.
  destruct o as [from to rev| |]; try done. cbn [andb].
  destruct (lc_applied (L := run_lifecycle) _ _ _ _ _ _ _ E) as (-> & Hto & Hf & _). simpl in Hto, Hf.
  destruct (run_transition_cases _ _ _ _ _ E) as [[_ ?]|[Hc Hl]]; [done|].
  assert (∀ x : Result (option (TransitionOutcome RunStatus)) string, announces_end id (id, x) =
    match x with Ok (Some (Applied _ to' _)) => run_is_terminal to' | Ok _ => false | Err _ => true end) as Ha
    by (intros x; unfold announces_end; simpl; by rewrite bool_decide_true).
  destruct (persist_run_candidate cand m) as [store|error] eqn:Ep; unfold request_effect; rewrite Hf, Ha.
  - exists cand. rewrite Hto. split; [|split; [subst cand; by apply run_wf_effect|done]].
    destruct (run_is_terminal (run_status cand)); simpl; by rewrite lookup_insert_eq.
  - destruct (quarantine_end now error r Hwf Hf) as [Hq Hqt].
    exists (quarantine now error r). simpl. rewrite lookup_insert_eq, Hqt. done.
Qed.

(** One request, seen from the run [id]. *)
Lemma request_end m id r req :
  rm_runs m !! id = Some r → run_wf r →
  let '(m', o) := request req m in request_effect id r m m' (req.1.2, o).
Proof.
  intros Hr Hwf. destruct req as [[now id'] t]. destruct (decide (id' = id)) as [->|Hne].
  - destruct (run_transition now r t) as [cand o] eqn:E.
    destruct (is_applied o) eqn:Ho; [by apply (request_applied now t id r m cand o)|].
    unfold request, transition_run. cbn [fst snd]. rewrite Hr, E, Ho.
    assert (announces_end id (id, Ok (Some o)) = false) as Ha
      by (unfold announces_end; simpl; rewrite bool_decide_true by done; by destruct o).
    destruct o as [| |from to rev]; [done|by apply request_no_effect|].
    rewrite (wf_below_max r Hwf). cbn [andb]. by apply request_no_effect.
  - assert (∀ o : Result _ string, announces_end id (id', o) = false) as Ha
      by (intros o; unfold announces_end; simpl; by rewrite bool_decide_false).
    unfold request, transition_run. cbn [fst snd].
    repeat case_match; simplify_eq; apply request_no_effect; simpl; rewrite ?lookup_insert_ne, ?lookup_delete_ne by done; done.
Qed.

(** ** Reply text *)

Lemma boundary_delta e : boundary e = true → delta_of e = None.
Proof.
  unfold boundary, delta_of. intros [_ Hb]%andb_true_iff.
  destruct (String.eqb_spec (sse_event_type e) "token_delta") as [E|]; [|done]. by rewrite E in Hb.
Qed.

Lemma since_boundary_snoc l e :
  since_boundary (l ++ [e]) = if boundary e then [] else since_boundary l ++ [e].
Proof.
  induction l as [|x l IH]; simpl; [by destruct (boundary e)|]. rewrite existsb_app, IH. simpl. rewrite orb_false_r.
  destruct (boundary e); [by rewrite orb_true_r|]. rewrite orb_false_r. by destruct (existsb boundary l), (boundary x).
Qed.

Lemma turn_text_snoc l e :
  turn_text (l ++ [e]) =
    if boundary e then None
    else match delta_of e with
         | Some d => Some (default "" (turn_text l) +:+ d)
         | None => turn_text l
         end.
Proof.
  unfold turn_text. rewrite since_boundary_snoc. destruct (boundary e); [done|]. rewrite omap_app. simpl.
  destruct (delta_of e) as [d|]; simpl; [|by rewrite app_nil_r].
  destruct (omap delta_of (since_boundary l)) as [|x xs]; simpl; [done|].
  by rewrite foldl_app.
Qed.

Lemma accumulate_other run_id hwm e text id :
  run_id ≠ id → accumulate run_id hwm e text !! id = text !! id.
Proof.
  intros Hne. unfold accumulate. repeat case_match; rewrite ?lookup_insert_ne, ?lookup_delete_ne by done; done.
Qed.

Lemma accumulate_same id hwm e text l :
  (tb_text <$> text !! id) = turn_text l →
  (tb_text <$> accumulate id hwm e text !! id) = turn_text (l ++ [e]).
Proof.
  intros Ht. rewrite turn_text_snoc. unfold accumulate, boundary, delta_of.
  destruct (String.eqb_spec (sse_event_type e) "token_delta") as [->|Hd]; simpl.
  - rewrite andb_false_r. destruct (is_subagent (sse_data e)); simpl; [done|].
    destruct (json_get "delta" (sse_data e) ≫= as_str) as [d|]; [|done].
    rewrite lookup_insert_eq. simpl. rewrite <-Ht. by destruct (text !! id).
  - destruct (is_subagent (sse_data e)); simpl; [by repeat case_match|].
    destruct (String.eqb (sse_event_type e) "tool_start" || String.eqb (sse_event_type e) "tool_end"); simpl.
    { by rewrite lookup_delete_eq. }
    destruct (String.eqb (sse_event_type e) "stream_reset"); [by rewrite lookup_delete_eq|done].
Qed.

(** The accumulator sees the event's type and data only. *)
Lemma accumulate_id run_id hwm id e text : accumulate run_id hwm (with_event_id id e) text = accumulate run_id hwm e text.
Proof. done. Qed.

Lemma send_event_text now run_id sid e m :
  ∃ hwm, rm_text (send_event now run_id sid e m) = accumulate run_id hwm e (rm_text m).
Proof.
  unfold send_event. destruct (is_ephemeral (sse_event_type e)).
  - eexists. simpl. reflexivity.
  - destruct (log_run run_id sid now e (rm_logs m)) as [l id]. destruct (log_session sid run_id now (with_event_id id e) l) as [l2 id2].
    eexists. cbn [rm_text put_text]. apply accumulate_id.
Qed.

Lemma send_event_runs now run_id sid e m :
  rm_runs (send_event now run_id sid e m) = rm_runs m ∧ rm_store (send_event now run_id sid e m) = rm_store m ∧
  rm_tokens (send_event now run_id sid e m) = rm_tokens m ∧ rm_cancelled (send_event now run_id sid e m) = rm_cancelled m.
Proof. unfold send_event. repeat case_match; done. Qed.

Lemma sends_text sends m id l :
  (tb_text <$> rm_text m !! id) = turn_text l →
  (tb_text <$> rm_text (foldl send m sends) !! id) = turn_text (l ++ events_of_run id sends).
Proof.
  revert m l; induction sends as [|x sends IH]; intros m l Hl; [by rewrite app_nil_r|].
  cbn [foldl]. unfold events_of_run. rewrite filter_cons.
  destruct (send_event_text x.1.1.1 x.1.1.2 x.1.2 x.2 m) as [hwm Hx].
  destruct (decide (x.1.1.2 = id)) as [<-|Hne].
  - simpl. change (x.2 :: ?t) with ([x.2] ++ t). rewrite (assoc_L (++)). apply IH. unfold send. rewrite Hx.
    by apply accumulate_same.
  - apply IH. unfold send. by rewrite Hx, accumulate_other.
Qed.

(** ** Tokens *)

Lemma cancel_each_spec ids m :
  let '(m', n) := cancel_each ids m in
  rm_runs m' = rm_runs m ∧ rm_tokens m' = rm_tokens m ∧
  n = length (filter (λ id, is_Some (rm_tokens m !! id)) ids) ∧
  ∀ tok, tok ∈ rm_cancelled m' ↔ tok ∈ rm_cancelled m ∨ ∃ id, id ∈ ids ∧ rm_tokens m !! id = Some tok.
Proof.
  revert m; induction ids as [|id ids IH]; intros m; simpl.
  { split_and!; try done. intros tok. split; [by left|]. intros [?|(id & Hid & _)]; [done|]. by apply not_elem_of_nil in Hid. }
  unfold cancel_run. rewrite filter_cons. destruct (rm_tokens m !! id) as [tok0|] eqn:Et.
  - specialize (IH (put_tokens (rm_tokens m) ({[tok0]} ∪ rm_cancelled m) m)).
    destruct (cancel_each ids _) as [m2 n]. destruct IH as (-> & -> & -> & Hc). rewrite decide_True by eauto.
    split_and!; try done. intros tok. rewrite Hc. simpl. setoid_rewrite elem_of_cons. set_solver.
  - specialize (IH m). destruct (cancel_each ids m) as [m2 n]. destruct IH as (-> & -> & -> & Hc).
    rewrite decide_False by (by intros [? [=]]).
    split_and!; try done. intros tok. rewrite Hc. setoid_rewrite elem_of_cons.
    split; intros [?|(id' & Hid & Htok)]; eauto. destruct Hid as [->|]; [congruence|eauto].
Qed.

Lemma active_ids_spec f m id :
  id ∈ active_ids f m ↔ ∃ r, rm_runs m !! id = Some r ∧ f r = true ∧ is_active (run_status r) = true.
Proof.
  unfold active_ids. rewrite list_elem_of_fmap. setoid_rewrite list_elem_of_filter. setoid_rewrite andb_true_iff. split.
  - intros ([id' r] & -> & [? ?] & Hr%elem_of_map_to_list). eauto.
  - intros (r & Hr & ? & ?). exists (id, r). split_and!; try done. by apply elem_of_map_to_list.
Qed.

Lemma active_ids_nodup f m : NoDup (active_ids f m).
Proof.
  unfold active_ids. eapply sublist_NoDup; [apply (NoDup_fst_map_to_list (rm_runs m))|]. apply fmap_sublist, sublist_filter.
Qed.
End facts.

(** * Properties *)

Section properties.
Context {St : Type} `{S : RunStore St} `{D : RunDeletions St} `{!RunStoreLaws S} `{!RunDeletionLaws S D} `{UuidCrate}.

(** The deletions among the operations. *)
Definition deletions (ops : list RegistryOp) : list RunDeletion := omap (λ op, match op with OpDelete d => Some d | _ => None end) ops.

(** C26: memory never runs ahead of the database unnoticed.  Start the registry
    from whatever the store holds and let any writers transition, replace and
    admit runs, and sessions and agents be deleted with their rows, each write
    succeeding or failing as the store decides.  Then the row of a run in memory
    says what the run says, unless the store refused the run's last transition:
    then the run is failed as [persistence_failed] and its row is of an earlier
    revision.  A run in memory is without a row only if a deletion among the
    operations was of its session or of its agent. *)
Theorem runs_durable (m : RunManager St) ops :
  rm_runs m = ∅ → fresh_ops (hydrate_from_store m) ops →
  let m' := foldl registry_step (hydrate_from_store m) ops in
  ∀ id r, rm_runs m' !! id = Some r →
    run_id r = id ∧
    (is_Some (rm_store m') →
     match store_rows m' !! id with
     | Some row => row = row_of r ∨
         (run_lifecycle_revision row < run_lifecycle_revision r)%Z ∧ run_status r = Failed ∧
         run_terminal_reason r = Some "persistence_failed"
     | None => ∃ d, OpDelete d ∈ ops ∧ deleted_with d r = true
     end).
Proof.
  intros Hm Hf m' id r Hr.
  assert (Hds : ∀ d, d ∈ deletions ops ↔ OpDelete d ∈ ops).
  { intros d. unfold deletions. rewrite list_elem_of_omap. split; [by intros ([] & ? & [= <-])|]. intros ?. by exists (OpDelete d). }
  pose proof (tracks_run (deletions ops) ops _ (λ d, proj2 (Hds d)) (proj1 (hydrate_tracks (deletions ops) m Hm)) Hf) as Ht.
  destruct (Ht _ _ Hr) as [<- Htr]. split; [done|]. intros Hs. specialize (Htr Hs). unfold tracked in Htr. unfold m'.
  destruct (store_rows _ !! run_id r) as [row|]; [apply Htr|]. destruct Htr as (d & Hd & E). exists d. by rewrite <- Hds.
Qed.

(** The end of a run is announced exactly once.  However many writers
    request transitions of however many runs, in whatever order and with
    whatever store failures in between, an active run has been reported ended
    (a terminal transition applied, or the store's refusal) once if it is
    terminal now, and never if it is not. *)
Theorem run_end_announced_once (m : RunManager St) id r reqs m' os :
  rm_runs m !! id = Some r → run_wf r → run_is_terminal (run_status r) = false →
  requests reqs m = (m', os) →
  ∃ r', rm_runs m' !! id = Some r' ∧ run_wf r' ∧
        length (filter (λ o, announces_end id o = true) os) = if run_is_terminal (run_status r') then 1 else 0.
Proof.
  intros Hr Hwf Ht E.
  enough (∃ r', rm_runs m' !! id = Some r' ∧ run_wf r' ∧
    length (filter (λ o, announces_end id o = true) os) + (if run_is_terminal (run_status r) then 1 else 0)
      = if run_is_terminal (run_status r') then 1 else 0) as (r' & ? & ? & Hc) by (exists r'; rewrite Ht in Hc; split_and!; [done..|lia]).
  clear Ht. revert m r m' os Hr Hwf E. induction reqs as [|req reqs IH]; intros m r m' os Hr Hwf E; simpl in E.
  { injection E as <- <-. exists r. by split_and!. }
  pose proof (request_end m id r req Hr Hwf) as Hreq. destruct (request req m) as [m1 o].
  destruct (requests reqs m1) as [m2 os2] eqn:E2. injection E as <- <-.
  destruct Hreq as (r1 & Hr1 & Hwf1 & Hc1). destruct (IH _ _ _ _ Hr1 Hwf1 E2) as (r' & Hr' & Hwf' & Hc').
  exists r'. split_and!; [done..|]. rewrite filter_cons, <-Hc'. destruct (run_is_terminal (run_status r)) eqn:Et.
  - destruct Hc1 as (-> & _ & ->). rewrite Et, decide_False by done. done.
  - rewrite Hc1. destruct (run_is_terminal (run_status r1)); simpl; lia.
Qed.

(** The rehydrated reply is the reply so far.  From a run without a buffer,
    after any events of any runs, the run's text buffer holds what a client that
    saw all the run's own events would show as its unsealed reply: the parent's
    text deltas since the parent's last tool boundary or stream reset, and
    nothing when there are none. *)
Theorem text_buffer_is_unsealed_reply (m : RunManager St) sends id :
  run_text_buffer_snapshot id m = None →
  (tb_text <$> run_text_buffer_snapshot id (foldl send m sends)) = turn_text (events_of_run id sends).
Proof. intros Hm. apply (sends_text sends m id []). unfold run_text_buffer_snapshot in Hm. by rewrite Hm. Qed.

(** A delta after the end of a run leaks its buffer.  A text delta that
    arrives after the run is terminal opens a buffer again, and no later
    transition request removes it. *)
Theorem late_delta_leaks (m : RunManager St) now id sid r e d reqs :
  rm_runs m !! id = Some r → run_wf r → run_is_terminal (run_status r) = true → delta_of e = Some d →
  let m' := (requests reqs (send_event now id sid e m)).1 in
  is_Some (run_text_buffer_snapshot id m').
Proof.
  intros Hr Hwf Ht Hd m'.
  assert (is_Some (rm_text (send_event now id sid e m) !! id)) as Hb.
  { destruct (send_event_text now id sid e m) as [hwm ->]. unfold accumulate. unfold delta_of in Hd.
    destruct (String.eqb (sse_event_type e) "token_delta"); [|done]. destruct (is_subagent (sse_data e)); [done|].
    simpl in *. rewrite Hd, lookup_insert_eq. eauto. }
  destruct (send_event_runs now id sid e m) as (Hruns & _). rewrite <-Hruns in Hr.
  unfold m', run_text_buffer_snapshot. revert Hb Hr. generalize (send_event now id sid e m). clear Hruns m'.
  induction reqs as [|req reqs IH]; intros m1 Hb Hr; simpl; [done|].
  pose proof (request_end m1 id r req Hr Hwf) as Hreq. destruct (request req m1) as [m2 o].
  destruct Hreq as (r1 & Hr1 & _ & Hc1). rewrite Ht in Hc1. destruct Hc1 as (-> & Htx & _).
  specialize (IH m2 ltac:(by rewrite Htx) Hr1). by destruct (requests reqs m2).
Qed.

(** Cancelling a session cancels its active runs and nothing else.  The
    count returned is the number of queued or running runs of the session that
    have a token, and a token is cancelled afterwards exactly when it was before
    or belongs to one of them; no run changes. *)
Theorem cancel_session_exact (m : RunManager St) target :
  let '(m', n) := cancel_runs_for_session target m in
  let mine id := ∃ r, rm_runs m !! id = Some r ∧ run_session_id r = target ∧ is_active (run_status r) = true in
  rm_runs m' = rm_runs m ∧ rm_tokens m' = rm_tokens m ∧
  (∀ tok, tok ∈ rm_cancelled m' ↔ tok ∈ rm_cancelled m ∨ ∃ id, mine id ∧ rm_tokens m !! id = Some tok) ∧
  ∃ ids, NoDup ids ∧ length ids = n ∧ ∀ id, id ∈ ids ↔ mine id ∧ is_Some (rm_tokens m !! id).
Proof.
  unfold cancel_runs_for_session. set (f := λ r, bool_decide (run_session_id r = target)).
  pose proof (cancel_each_spec (active_ids f m) m) as Hc. destruct (cancel_each (active_ids f m) m) as [m' n].
  destruct Hc as (-> & -> & -> & Hc).
  assert (∀ id, id ∈ active_ids f m ↔ ∃ r, rm_runs m !! id = Some r ∧ run_session_id r = target ∧ is_active (run_status r) = true) as Hids.
  { intros id. rewrite active_ids_spec. unfold f. by setoid_rewrite bool_decide_eq_true. }
  split_and!; try done.
  - intros tok. rewrite Hc. by setoid_rewrite Hids.
  - exists (filter (λ id, is_Some (rm_tokens m !! id)) (active_ids f m)).
    split; [apply NoDup_filter, active_ids_nodup|]. split; [done|].
    intros id. rewrite list_elem_of_filter, Hids. tauto.
Qed.
End properties.

(** * Witnesses *)

Section witnesses.
(** A store whose disk can fill up: it accepts [budget] more writes. *)
Record TableStore := { table : gmap RunId Run; budget : nat }.

Local Instance usage_eq_dec : EqDecision TokenUsage.
Proof. solve_decision. Defined.
Local Instance config_eq_dec : EqDecision ResolvedRunConfig.
Proof. solve_decision. Defined.
Local Instance run_eq_dec : EqDecision Run.
Proof. solve_decision. Defined.

Local Definition write (r : Run) (s : TableStore) : Result (bool * TableStore) string :=
  match budget s with
  | 0 => Err "disk full"
  | S n => let '(b, rows) := save_run_on r (table s) in Ok (b, {| table := rows; budget := n |})
  end.

Local Instance table_store : RunStore TableStore := {
  run_rows := table;
  save_run r s := match write r s with Ok (_, s') => Ok s' | Err e => Err e end;
  save_run_with_initial_message r _ s :=
    match write r s with Ok (true, s') => Ok (0%Z, s') | Ok (false, _) => Err "duplicate" | Err e => Err e end;
  mark_stale_runs_failed s := Ok (0, s);
  load_all_runs s := Ok (filter (λ r, table s !! run_id r = Some r ∧ row_of r = r) (map snd (map_to_list (table s))));
}.

Local Instance table_deletions : RunDeletions TableStore := {
  delete_runs d s := match budget s with
                     | 0 => Err "disk full"
                     | S n => Ok {| table := filter (λ kv, deleted_with d kv.2 = false) (table s); budget := n |}
                     end;
}.
Local Instance table_deletion_laws : RunDeletionLaws table_store table_deletions.
Proof. split. intros d st st'. simpl. by destruct (budget st); [|intros [= <-]]. Qed.

Local Instance table_store_laws : RunStoreLaws table_store.
Proof.
  split.
  - intros r st st'. simpl. unfold write. destruct (budget st) as [|n]; [done|].
    destruct (save_run_on r (table st)) as [b rows] eqn:E. by intros [= <-].
  - intros r msg st ts st'. simpl. unfold write. destruct (budget st) as [|n]; [done|].
    destruct (save_run_on r (table st)) as [[] rows] eqn:E; [|done]. by intros [= _ <-].
  - intros st l. simpl. intros [= <-]. apply Forall_forall. by intros r [? _]%list_elem_of_filter.
Qed.

Local Instance toy_uuid : UuidCrate :=
  {| parse_str _ := None; uuid_to_string _ := ""; new_v5 u _ := u |}.

Local Definition rid (n : N) := MkRunId (MkUuid n).
Local Definition sid := MkSessionId (MkUuid 100).
Local Definition aid := MkAgentId (MkUuid 200).
Local Definition msg : Message := {| msg_id := "m"; msg_role := User; msg_content := Text "hi"; msg_timestamp := 1; msg_metadata := None |}.
Local Definition usage : TokenUsage := {| prompt_tokens := 1; completion_tokens := 2; reasoning_tokens := None;
  cache_creation_input_tokens := None; cache_read_input_tokens := None |}.
Local Definition booted (n : nat) : RunManager TableStore := with_store {| table := ∅; budget := n |} manager_new.
Local Definition admitted : list RegistryOp :=
  [OpAdmit (run_new (rid 1) 5 sid aid "hi") msg; OpAdmit (run_new (rid 2) 6 sid aid "again") msg].
Local Definition steps : list RegistryOp :=
  admitted ++ [OpTransition 7 (rid 1) (Start None); OpTransition 8 (rid 1) (Complete "done" usage); OpTransition 9 (rid 2) (Start None)].

(** The fifth write finds the disk full: the run is failed, its row is still
    the queued one. *)
Local Definition after := foldl registry_step (hydrate_from_store (booted 4)) steps.
Local Definition refused : Run := quarantine 9 "disk full" (run_new (rid 2) 6 sid aid "again").

Lemma runs_durable_witness :
  (run_status <$> rm_runs after !! rid 1) = Some Completed ∧ (run_status <$> store_rows after !! rid 1) = Some Completed ∧
  match store_rows after !! rid 2 with
  | Some row => row = row_of refused ∨ (run_lifecycle_revision row < run_lifecycle_revision refused)%Z ∧ run_status refused = Failed ∧
      run_terminal_reason refused = Some "persistence_failed"
  | None => ∃ d, OpDelete d ∈ steps ∧ deleted_with d refused = true
  end.
Proof.
  split; [vm_compute; reflexivity|]. split; [vm_compute; reflexivity|].
  refine (proj2 (runs_durable (booted 4) steps eq_refl _ (rid 2) refused _) _).
  - vm_compute. intuition.
  - vm_compute. reflexivity.
  - vm_compute. eauto.
Defined.

Local Definition two_running : RunManager TableStore := foldl registry_step (booted 9) (admitted ++ [OpTransition 7 (rid 1) (Start None)]).
Local Definition started : Run := (run_transition 7 (run_new (rid 1) 5 sid aid "hi") (Start None)).1.
Local Definition race : list (Z * RunId * RunTransition) :=
  [(8, rid 1, Cancel "cancelled"); (9, rid 1, Complete "done" usage); (9, rid 2, Start None); (10, rid 1, Fail "late" "failed")]%Z.

Lemma run_end_announced_once_witness :
  length (filter (λ o, announces_end (rid 1) o = true) (requests race two_running).2) = 1.
Proof.
  destruct (run_end_announced_once two_running (rid 1) started race (requests race two_running).1 (requests race two_running).2)
    as (r' & Hr' & _ & ->).
  - vm_compute. reflexivity.
  - vm_compute. split_and!; eauto.
  - reflexivity.
  - vm_compute. reflexivity.
  - vm_compute in Hr'. injection Hr' as <-. reflexivity.
Defined.

Local Definition delta (s : string) : SseEventData :=
  {| sse_event_type := "token_delta"; sse_data := JObj [("delta", JStr s)]; sse_ts := 0; sse_event_id := None |}.
Local Definition tool_end : SseEventData :=
  {| sse_event_type := "tool_end"; sse_data := JObj []; sse_ts := 0; sse_event_id := None |}.

Lemma text_buffer_is_unsealed_reply_witness :
  (tb_text <$> run_text_buffer_snapshot (rid 1) (foldl send two_running
    [(1, rid 1, sid, delta "a"); (2, rid 1, sid, tool_end); (3, rid 1, sid, delta "b"); (4, rid 2, sid, delta "x");
     (5, rid 1, sid, delta "c")]%Z)) = Some "bc".
Proof. rewrite (text_buffer_is_unsealed_reply two_running); reflexivity. Defined.

Local Definition cancellable : RunManager TableStore := register_cancel_token (rid 1) 40 two_running.

Lemma cancel_session_exact_witness :
  (cancel_runs_for_session sid cancellable).2 = 1 ∧ 40%Z ∈ rm_cancelled (cancel_runs_for_session sid cancellable).1.
Proof.
  split; [vm_compute; reflexivity|].
  pose proof (cancel_session_exact cancellable sid) as Hc.
  destruct (cancel_runs_for_session sid cancellable) as [m' n]. destruct Hc as (_ & _ & Hc & _).
  apply Hc. right. exists (rid 1). split; [|vm_compute; reflexivity].
  exists started. vm_compute. done.
Defined.

Local Definition ended : RunManager TableStore := (requests race two_running).1.
Local Definition ended_run : Run := (run_transition 8 started (Cancel "cancelled")).1.

Lemma late_delta_leaks_witness :
  is_Some (run_text_buffer_snapshot (rid 1) (requests race (send_event 11 (rid 1) sid (delta "late") ended)).1).
Proof.
  apply (late_delta_leaks ended 11 (rid 1) sid ended_run (delta "late") "late" race); vm_compute; split_and?; eauto.
Defined.
End witnesses.
