(* ===== verification/RunControl.v ===== *)
(** Stopping runs from outside: [alms-gateway/src/approvals.rs] and the
    [cancel_run] handler of [alms-gateway/src/runs/lifecycle.rs].

    Both handlers end runs through [RunManager]'s transitions, so they race with
    the run itself.  A handler is given one clock reading.  The decision channel
    of an approval is a token; what is sent on it is recorded with the registry
    at the moment of the send, which is what the waiting runtime finds. *)
From S2P Require Import Prelude Ident Json Lifecycle Run EventLog EventFeed TextEdit RunManager.

(** * Events of the handlers *)

(** [str::to_lowercase], as far as ASCII patterns see it: of the characters
    outside ASCII only the Kelvin sign and the dotted capital I become text with
    ASCII letters. *)
Fixpoint lowercase_bytes (l : list N) : list N :=
  match l with
  | (226 :: 132 :: 170 :: l')%N => 107%N :: lowercase_bytes l'
  | (196 :: 176 :: l')%N => 105%N :: 204%N :: 135%N :: lowercase_bytes l'
  | b :: l' => (if (65 <=? b) && (b <=? 90) then b + 32 else b)%N :: lowercase_bytes l'
  | [] => []
  end.

Definition to_lowercase (s : string) : string := of_bytes (lowercase_bytes (bytes_of s)).

Definition any_of (patterns : list string) (s : string) : bool := existsb (λ p, str_contains p s) patterns.

Definition classify_error (msg : string) : string :=
  let lower := to_lowercase msg in
  if any_of ["401"; "403"; "unauthorized"; "forbidden"; "authentication"; "invalid api key"; "invalid x-api-key"] lower
  then "AUTH"
  else if any_of ["429"; "rate limit"; "rate_limit"; "too many requests"] lower then "RATE_LIMIT"
  else if any_of ["timeout"; "timed out"] lower then "TIMEOUT"
  else "INTERNAL".

Section handlers.
Context {St : Type} `{RunStore St} `{UuidCrate}.
(** [chrono]'s rendering of a stamp. *)
Context (ts_string : Z → string).
Implicit Types (m : RunManager St).

Definition sse_new (now : Z) (event_type : string) (data : json) : SseEventData :=
  {| sse_event_type := event_type; sse_data := data; sse_ts := now; sse_event_id := None |}.

Definition run_id_json (id : RunId) : json := JStr (uuid_to_string (run_uuid id)).

Definition approval_resolved (now : Z) (run_id : RunId) (approval_id decision : string) : SseEventData :=
  sse_new now "approval_resolved"
    (JObj [("run_id", run_id_json run_id); ("approval_id", JStr approval_id); ("decision", JStr decision);
           ("ts", JStr (ts_string now))]).

Definition run_error_with_code (now : Z) (run_id : RunId) (code message : string) : SseEventData :=
  sse_new now "run_error"
    (JObj [("run_id", run_id_json run_id); ("error", JObj [("code", JStr code); ("message", JStr message)])]).

Definition run_error_event (now : Z) (run_id : RunId) (error : string) : SseEventData :=
  run_error_with_code now run_id (classify_error error) error.

Definition run_cancelled (now : Z) (run_id : RunId) : SseEventData :=
  sse_new now "run_cancelled" (JObj [("run_id", run_id_json run_id); ("ts", JStr (ts_string now))]).

Definition session_activity_ended (now : Z) (session_id : SessionId) (run_id : RunId) (agent_id : AgentId) : SseEventData :=
  sse_new now "session_activity_ended"
    (JObj [("session_id", JStr (uuid_to_string (session_uuid session_id))); ("run_id", run_id_json run_id);
           ("agent_id", JStr (uuid_to_string (agent_uuid agent_id))); ("ts", JStr (ts_string now))]).

(** * Cancelling a run *)

Record ApiError := { ae_status : Z; ae_code : string; ae_message : string }.

Definition already_finished : ApiError :=
  {| ae_status := 409; ae_code := "ALREADY_FINISHED"; ae_message := "Run already finished" |}.

(** What is published when a cancellation could not be stored. *)
Definition publish_failed_cancel (now : Z) (id : RunId) (session_id : SessionId) (agent_id : AgentId) (message : string)
    m : RunManager St :=
  send_agent_event now agent_id id session_id (session_activity_ended now session_id id agent_id)
    (send_event now id session_id (run_error_event now id message) m).

Definition cancel_run_handler (now : Z) (id : RunId) m : RunManager St * Result unit ApiError :=
  match get_run m id with
  | None => (m, Err {| ae_status := 404; ae_code := "NOT_FOUND"; ae_message := "Run not found" |})
  | Some run =>
      if negb (is_active (run_status run)) then (m, Err already_finished)
      else if negb (has_cancel_token id m) then (m, Err already_finished)
      else
        match try_mark_run_as_cancelled now id m with
        | (m1, Ok true) =>
            (send_event now id (run_session_id run) (run_cancelled now id) (cancel_run id m1).1, Ok tt)
        | (m1, Ok false) =>
            match get_run m1 id with
            | Some r => if bool_decide (run_status r = Cancelled) then (m1, Ok tt) else (m1, Err already_finished)
            | None => (m1, Err already_finished)
            end
        | (m1, Err error) =>
            let message := "Run cancellation could not be committed: " +:+ error in
            (publish_failed_cancel now id (run_session_id run) (run_agent_id run) message (cancel_run id m1).1,
             Err {| ae_status := 500; ae_code := "LIFECYCLE_PERSISTENCE_FAILED"; ae_message := message |})
        end
  end.

(** * Approvals *)

Record PendingApproval := {
  approval_id : Uuid;
  ap_run_id : RunId;
  ap_tool : string;
  ap_params : json;
  ap_requested_at : Z;
  decision_tx : Z;
}.

Record ApprovalInfo := {
  ai_approval_id : Uuid; ai_run_id : RunId; ai_tool : string; ai_params : json; ai_requested_at : Z;
}.

Definition info_of (a : PendingApproval) : ApprovalInfo := {|
  ai_approval_id := approval_id a; ai_run_id := ap_run_id a; ai_tool := ap_tool a; ai_params := ap_params a;
  ai_requested_at := ap_requested_at a;
|}.

Notation ApprovalStore := (gmap Uuid PendingApproval).

Definition approval_insert (a : PendingApproval) (s : ApprovalStore) : ApprovalStore := <[approval_id a := a]> s.

Definition approval_take (id : Uuid) (s : ApprovalStore) : option (ApprovalInfo * Z) * ApprovalStore :=
  ((λ a, (info_of a, decision_tx a)) <$> s !! id, base.delete id s).

Definition clear_for_run (run_id : RunId) (s : ApprovalStore) : ApprovalStore :=
  filter (λ kv, ap_run_id kv.2 ≠ run_id) s.

Definition list_pending (s : ApprovalStore) : list ApprovalInfo := map (λ kv, info_of kv.2) (map_to_list s).

Definition list_approvals (session_id : option SessionId) (s : ApprovalStore) m : list ApprovalInfo :=
  match session_id with
  | None => list_pending s
  | Some sid =>
      filter (λ a, match get_run m (ai_run_id a) with Some r => bool_decide (run_session_id r = sid) | None => false end = true)
        (list_pending s)
  end.

(** A decision sent, with the registry it was sent under. *)
Record Decision := { dc_tx : Z; dc_approve : bool; dc_runs : gmap RunId Run }.

Record Gateway := mkGateway { gw_manager : RunManager St; gw_pending : ApprovalStore; gw_decisions : list Decision }.

(** [ApprovalStore::resolve]. *)
Definition approval_resolve (id : Uuid) (approve : bool) (g : Gateway) : Gateway * option ApprovalInfo :=
  let '(o, pending) := approval_take id (gw_pending g) in
  match o with
  | Some (info, tx) =>
      (mkGateway (gw_manager g) pending
         (gw_decisions g ++ [{| dc_tx := tx; dc_approve := approve; dc_runs := rm_runs (gw_manager g) |}]), Some info)
  | None => (mkGateway (gw_manager g) pending (gw_decisions g), None)
  end.

(** One queued run behind a denied one. *)
Definition cancel_queued (now : Z) (denied : RunId) m (queued : Run) : RunManager St :=
  if bool_decide (run_id queued = denied) then m
  else if negb (has_cancel_token (run_id queued) m) then m
  else
    match try_mark_run_as_cancelled now (run_id queued) m with
    | (m1, Err error) =>
        publish_failed_cancel now (run_id queued) (run_session_id queued) (run_agent_id queued)
          ("Queued run cancellation after tool denial could not be persisted: " +:+ error) m1
    | (m1, Ok true) =>
        send_event now (run_id queued) (run_session_id queued) (run_cancelled now (run_id queued))
          (cancel_run (run_id queued) m1).1
    | (m1, Ok false) => m1
    end.

Definition deny_queue (now : Z) (denied : RunId) (session_id : SessionId) m : RunManager St :=
  foldl (cancel_queued now denied) m (list_queued_for_session session_id m).

Definition parse_decision (decision : string) : option bool :=
  if String.eqb decision "approve" then Some true
  else if String.eqb decision "deny" then Some false else None.

Definition resolve_approval (now : Z) (id : Uuid) (decision : string) (g : Gateway) : Gateway * Result unit ApiError :=
  match parse_decision decision with
  | None => (g, Err {| ae_status := 400; ae_code := "BAD_REQUEST"; ae_message := "decision must be 'approve' or 'deny'" |})
  | Some approve =>
      let '(taken, pending) := approval_take id (gw_pending g) in
      match taken with
      | None =>
          (mkGateway (gw_manager g) pending (gw_decisions g),
           Err {| ae_status := 404; ae_code := "NOT_FOUND"; ae_message := "Approval not found or already resolved" |})
      | Some (info, tx) =>
          let run := get_run (gw_manager g) (ai_run_id info) in
          let m1 := match run with
                    | Some r => if negb approve then deny_queue now (ai_run_id info) (run_session_id r) (gw_manager g)
                                else gw_manager g
                    | None => gw_manager g
                    end in
          let decisions := gw_decisions g ++ [{| dc_tx := tx; dc_approve := approve; dc_runs := rm_runs m1 |}] in
          let m2 := match run with
                    | Some r => send_event now (ai_run_id info) (run_session_id r)
                                  (approval_resolved now (ai_run_id info) (uuid_to_string id) (if approve then "approve" else "deny")) m1
                    | None => m1
                    end in
          (mkGateway m2 pending decisions, Ok tt)
      end
  end.
End handlers.

(** * Facts *)

Section facts.
Context {St : Type} `{RunStore St} `{UuidCrate} (ts_string : Z → string).
Implicit Types (m : RunManager St).

(** What publishing leaves alone. *)
Definition same_control m m' : Prop :=
  rm_runs m' = rm_runs m ∧ rm_tokens m' = rm_tokens m ∧ rm_cancelled m' = rm_cancelled m.

Lemma send_event_control now id sid e m : same_control m (send_event now id sid e m).
Proof. by destruct (send_event_runs now id sid e m) as (? & _ & ? & ?). Qed.

Lemma send_agent_control now aid id sid e m : same_control m (send_agent_event now aid id sid e m).
Proof.
  unfold send_agent_event, send_activity_event. destruct (starts_with _ _); [destruct (log_activity _ _ _ _ _)|];
    destruct (log_agent _ _ _ _ _ _); done.
Qed.

Lemma publish_control now id sid aid msg m : same_control m (publish_failed_cancel ts_string now id sid aid msg m).
Proof.
  unfold publish_failed_cancel. destruct (send_event_control now id sid (run_error_event now id msg) m) as (? & ? & ?).
  edestruct send_agent_control as (E1 & E2 & E3). unfold same_control. rewrite E1, E2, E3. done.
Qed.

(** The three ways a cancellation of an active run can go. *)
Lemma try_cancel_active now id r m :
  rm_runs m !! id = Some r → run_wf r → is_active (run_status r) = true →
  let '(m', o) := try_mark_run_as_cancelled now id m in
  rm_tokens m' = rm_tokens m ∧ rm_cancelled m' = rm_cancelled m ∧
  (∀ id', id' ≠ id → rm_runs m' !! id' = rm_runs m !! id') ∧
  match o with
  | Ok b => b = true ∧ rm_runs m' !! id = Some (run_effect now r (Cancel "cancelled"))
  | Err e => rm_runs m' !! id = Some (quarantine now e r)
  end.
Proof.
  intros Hr Hwf Ha. unfold try_mark_run_as_cancelled, try_mark, transition_run. rewrite Hr.
  rewrite (cancel_active now r Hwf Ha).
  cbn [andb is_applied run_is_terminal]. destruct (persist_run_candidate _ _) as [store|error]; simpl;
    (split_and!; try done; [intros; by rewrite lookup_insert_ne|]); rewrite lookup_insert_eq; done.
Qed.

(** One step of the denial, for the run it is about and for the others. *)
Lemma cancel_queued_step now denied m q :
  (∀ r, rm_runs m !! run_id q = Some r → run_wf r ∧ run_status r = Queued) → is_Some (rm_runs m !! run_id q) →
  let m' := cancel_queued ts_string now denied m q in
  rm_tokens m' = rm_tokens m ∧
  (∀ id, id ≠ run_id q ∨ run_id q = denied ∨ rm_tokens m !! run_id q = None → rm_runs m' !! id = rm_runs m !! id) ∧
  (run_id q ≠ denied → is_Some (rm_tokens m !! run_id q) →
   ∃ r', rm_runs m' !! run_id q = Some r' ∧
     (run_status r' = Cancelled ∨ run_status r' = Failed ∧ run_terminal_reason r' = Some "persistence_failed") ∧
     (run_status r' = Cancelled → ∀ tok, rm_tokens m !! run_id q = Some tok → tok ∈ rm_cancelled m')) ∧
  rm_cancelled m ⊆ rm_cancelled m'.
Proof.
  intros Hq [r Hr]. destruct (Hq _ Hr) as [Hwf Hst]. unfold cancel_queued.
  destruct (bool_decide_reflect (run_id q = denied)) as [->|Hne]; [by split_and!|].
  unfold has_cancel_token. destruct (rm_tokens m !! run_id q) as [tok|] eqn:Et; simpl;
    [|split_and!; try done; by intros _ [? [=]]].
  pose proof (try_cancel_active now (run_id q) r m Hr Hwf ltac:(by rewrite Hst)) as Ht.
  destruct (try_mark_run_as_cancelled now (run_id q) m) as [m1 [b|error]]; destruct Ht as (Htok & Hcan & Hoth & Hres).
  - destruct Hres as [-> Hres]. edestruct send_event_control as (-> & -> & ->).
    unfold cancel_run. rewrite Htok, Et. simpl. rewrite Hcan. split_and!; try done; [..|set_solver].
    + intros id [?|[?|?]]; [by apply Hoth|done..].
    + intros _ _. eexists. split; [exact Hres|]. split; [by left|]. intros _ tok' [= <-]. set_solver.
  - edestruct publish_control as (-> & -> & ->). rewrite Hcan. split_and!; try done.
    + intros id [?|[?|?]]; [by apply Hoth|done..].
    + intros _ _. exists (quarantine now error r). split; [done|].
      rewrite quarantine_active by (done || by rewrite Hst). split; [by right|done].
Qed.

(** Ended by a denial: cancelled with its token, or failed by the store. *)
Definition ended_by_denial m m' (id : RunId) : Prop :=
  ∃ r', rm_runs m' !! id = Some r' ∧
    (run_status r' = Cancelled ∨ run_status r' = Failed ∧ run_terminal_reason r' = Some "persistence_failed") ∧
    (run_status r' = Cancelled → ∀ tok, rm_tokens m !! id = Some tok → tok ∈ rm_cancelled m').

Lemma deny_fold now denied l m :
  NoDup (map run_id l) →
  (∀ q, q ∈ l → rm_runs m !! run_id q = Some q ∧ run_wf q ∧ run_status q = Queued) →
  let m' := foldl (cancel_queued ts_string now denied) m l in
  rm_tokens m' = rm_tokens m ∧
  (∀ id, id ∉ map run_id l ∨ id = denied ∨ rm_tokens m !! id = None → rm_runs m' !! id = rm_runs m !! id) ∧
  (∀ q, q ∈ l → run_id q ≠ denied → is_Some (rm_tokens m !! run_id q) → ended_by_denial m m' (run_id q)) ∧
  rm_cancelled m ⊆ rm_cancelled m'.
Proof.
  revert m; induction l as [|q l IH]; intros m Hnd Hq; simpl.
  { split_and!; try done. by intros q Hin%not_elem_of_nil. }
  apply NoDup_cons in Hnd as [Hnin Hnd].
  destruct (Hq q ltac:(by left)) as (Hrq & Hwf & Hst).
  destruct (cancel_queued_step now denied m q) as (Ht1 & Hu1 & He1 & Hc1); [rewrite Hrq; by intros r [= <-]|by rewrite Hrq|].
  set (m1 := cancel_queued ts_string now denied m q) in *.
  destruct (IH m1 Hnd) as (Ht2 & Hu2 & He2 & Hc2).
  { intros x Hx. destruct (Hq x ltac:(by right)) as (Hrx & ? & ?). rewrite Hu1; [done|left].
    intros E. apply Hnin. rewrite <-E. by apply list_elem_of_fmap_2. }
  rewrite Ht1 in *. split_and!; [done|..|set_solver].
  - intros id Hid. rewrite Hu2, Hu1; [done|..].
    + destruct (decide (id = run_id q)) as [->|]; [right|by left].
      destruct Hid as [Hid|[->|?]]; [exfalso; apply Hid; by left|by left|by right].
    + destruct Hid as [Hid|Hid]; [left|by right]. intros Hin. apply Hid. by right.
  - intros x [->|Hx]%elem_of_cons Hne Htok.
    + destruct (He1 Hne Htok) as (r' & Hr' & Hs & Hcan). exists r'. rewrite Hu2 by (by left). split_and!; try done.
      intros E tok E'. apply Hc2. by apply Hcan.
    + destruct (He2 x Hx Hne Htok) as (r' & ? & ? & Hcan). exists r'. by rewrite Ht1 in Hcan.
Qed.

(** A registry whose runs are well formed under their own ids. *)
Definition well_keyed m : Prop := ∀ id r, rm_runs m !! id = Some r → run_id r = id ∧ run_wf r.

Lemma queued_elem sid m r :
  well_keyed m →
  (r ∈ list_queued_for_session sid m ↔
   rm_runs m !! run_id r = Some r ∧ run_session_id r = sid ∧ run_status r = Queued).
Proof.
  intros Hk. unfold list_queued_for_session, select. rewrite sort_by_key_perm, list_elem_of_filter, andb_true_iff, !bool_decide_eq_true.
  rewrite list_elem_of_fmap. split.
  - intros ([? ?] & [id x] & -> & Hx%elem_of_map_to_list). simpl in *. by destruct (Hk _ _ Hx) as [-> _].
  - intros (Hr & ? & ?). split; [done|]. exists (run_id r, r). split; [done|]. by apply elem_of_map_to_list.
Qed.

Lemma queued_nodup sid m : well_keyed m → NoDup (map run_id (list_queued_for_session sid m)).
Proof.
  intros Hk. unfold list_queued_for_session, select. rewrite sort_by_key_perm.
  apply (sublist_NoDup _ (map run_id (map snd (map_to_list (rm_runs m))))); [|apply fmap_sublist, sublist_filter].
  rewrite map_map. replace (map _ (map_to_list (rm_runs m))) with (map_to_list (rm_runs m)).*1; [apply NoDup_fst_map_to_list|].
  apply map_ext_in. intros [id r] Hin%list_elem_of_In%elem_of_map_to_list. simpl. by destruct (Hk _ _ Hin).
Qed.
End facts.

(** * Properties *)

Section properties.
Context {St : Type} `{RunStore St} `{UuidCrate} (ts_string : Z → string).

(** A denial stops the queue before it is heard.  Denying a pending approval
    of a known run succeeds, resolves the approval and sends [false]; when it is
    sent, every other queued run of the session that has a token has ended, as
    cancelled with its token or as failed by the store, and no other run, the
    denied one included, has changed. *)
Theorem deny_stops_queue now aid (g : Gateway) a run :
  well_keyed (gw_manager g) → gw_pending g !! aid = Some a → rm_runs (gw_manager g) !! ap_run_id a = Some run →
  let '(g', res) := resolve_approval ts_string now aid "deny" g in
  res = Ok tt ∧ gw_pending g' = base.delete aid (gw_pending g) ∧
  ∃ d, gw_decisions g' = gw_decisions g ++ [d] ∧ dc_tx d = decision_tx a ∧ dc_approve d = false ∧
    rm_runs (gw_manager g') = dc_runs d ∧
    ∀ id r, rm_runs (gw_manager g) !! id = Some r →
      let stopped := run_session_id r = run_session_id run ∧ run_status r = Queued ∧ id ≠ ap_run_id a ∧
                     is_Some (rm_tokens (gw_manager g) !! id) in
      (stopped → ended_by_denial (gw_manager g) (gw_manager g') id) ∧ (¬ stopped → dc_runs d !! id = Some r).
Proof.
  intros Hk Ha Hrun. unfold resolve_approval. cbn [parse_decision String.eqb]. unfold approval_take. rewrite Ha. simpl.
  unfold get_run. rewrite Hrun. split; [done|]. split; [done|]. eexists. split; [done|]. do 2 (split; [done|]). simpl.
  destruct (send_event_control now (ap_run_id a) (run_session_id run)
    (approval_resolved ts_string now (ap_run_id a) (uuid_to_string aid) "deny")
    (deny_queue ts_string now (ap_run_id a) (run_session_id run) (gw_manager g))) as (Er & Et & Ec). split; [exact Er|].
  destruct (deny_fold ts_string now (ap_run_id a) (list_queued_for_session (run_session_id run) (gw_manager g)) (gw_manager g)
    (queued_nodup _ _ Hk)) as (Htok & Hun & Hend & _).
  { intros q (Hq & _ & Hst)%queued_elem; [|done]. split; [done|]. split; [by destruct (Hk _ _ Hq)|done]. }
  intros id r Hr. destruct (Hk _ _ Hr) as [<- _]. split.
  - intros (Hs & Hst & Hne & Hto). unfold ended_by_denial. rewrite Er, Ec. apply Hend; [|done..].
    apply queued_elem; [done|]. by split_and!.
  - intros Hns. unfold deny_queue. rewrite Hun; [done|].
    destruct (decide (run_id r = ap_run_id a)) as [->|Hne]; [by right; left|].
    destruct (rm_tokens (gw_manager g) !! run_id r) eqn:Eto; [|by right; right].
    left. intros (q & Hid & Hq)%list_elem_of_fmap. apply queued_elem in Hq as (Hq & Hs & Hst); [|done].
    rewrite <-Hid, Hr in Hq. injection Hq as ->. apply Hns. split_and!; eauto.
Qed.

(** A cancellation is answered as it happened.  On a well-formed registry
    [POST /runs/{id}/cancel] answers 200 exactly when it cancelled the run and
    its token; 500 when the store refused, and then the run is failed and its
    token cancelled too; and otherwise, for an unknown, finished or unregistered
    run, it answers 404 or 409 and changes neither runs nor tokens. *)
Theorem cancel_answers_truthfully now id (m : RunManager St) :
  well_keyed m →
  let '(m', res) := cancel_run_handler ts_string now id m in
  match rm_runs m !! id, rm_tokens m !! id with
  | Some r, Some tok =>
      if is_active (run_status r) then
        tok ∈ rm_cancelled m' ∧
        match res with
        | Ok _ => run_status <$> rm_runs m' !! id = Some Cancelled
        | Err e => ae_status e = 500%Z ∧ (run_status <$> rm_runs m' !! id = Some Failed)
        end
      else res = Err already_finished ∧ same_control m m'
  | Some r, None => res = Err already_finished ∧ same_control m m'
  | None, _ => (∃ e, res = Err e ∧ ae_status e = 404%Z) ∧ same_control m m'
  end.
Proof.
  intros Hk. unfold cancel_run_handler, get_run, has_cancel_token.
  destruct (rm_runs m !! id) as [r|] eqn:Hr; [|split; [by eexists|done]].
  destruct (Hk _ _ Hr) as [_ Hwf].
  destruct (is_active (run_status r)) eqn:Ha; simpl; [|by destruct (rm_tokens m !! id)].
  destruct (rm_tokens m !! id) as [tok|] eqn:Et; simpl; [|done].
  pose proof (try_cancel_active now id r m Hr Hwf Ha) as Ht.
  destruct (try_mark_run_as_cancelled now id m) as [m1 [b|error]]; destruct Ht as (Htok & Hcan & Hoth & Hres).
  - destruct Hres as [-> Hres]. unfold cancel_run. rewrite Htok, Et. simpl.
    match goal with |- context [send_event ?n ?i ?sid ?e ?x] => destruct (send_event_control n i sid e x) as (-> & _ & ->) end. simpl. rewrite Hres. split; [set_solver|done].
  - unfold cancel_run. rewrite Htok, Et. simpl. match goal with |- context [publish_failed_cancel ?f ?n ?i ?sid ?a ?e ?x] => destruct (publish_control f n i sid a e x) as (-> & _ & ->) end. simpl. rewrite Hres.
    rewrite quarantine_active by done. split; [set_solver|done].
Qed.
End properties.

(** * Witnesses *)

Section witnesses.
(** A store that takes [budget] more writes. *)
Record CountedStore := { rows : gmap RunId Run; budget : nat }.

Local Definition write (r : Run) (s : CountedStore) : Result CountedStore string :=
  match budget s with
  | 0 => Err "disk full"
  | S n => Ok {| rows := (save_run_on r (rows s)).2; budget := n |}
  end.

Local Instance counted_store : RunStore CountedStore := {
  run_rows := rows;
  save_run := write;
  save_run_with_initial_message r _ s := match write r s with Ok s' => Ok (0%Z, s') | Err e => Err e end;
  mark_stale_runs_failed s := Ok (0, s);
  load_all_runs _ := Ok [];
}.

Local Instance toy_uuid : UuidCrate :=
  {| parse_str _ := None; uuid_to_string _ := "id"; new_v5 u _ := u |}.

Local Definition ts (_ : Z) : string := "now".
Local Definition rid (n : N) := MkRunId (MkUuid n).
Local Definition sid := MkSessionId (MkUuid 100).
Local Definition aid := MkAgentId (MkUuid 200).
Local Definition new_run (n : N) : Run := run_new (rid n) (Z.of_N n) sid aid "hi".
Local Definition started : Run := (run_transition 7 (new_run 1) (Start None)).1.

(** Run 1 waits for an approval; 2 and 3 are queued behind it, 3 without a
    token.  The store takes one more write. *)
Local Definition waiting : RunManager CountedStore :=
  register_cancel_token (rid 2) 12 (register_cancel_token (rid 1) 11
    (put_runs (<[rid 1 := started]> (<[rid 2 := new_run 2]> (<[rid 3 := new_run 3]> ∅)))
       (Some {| rows := ∅; budget := 1 |}) manager_new)).

Local Definition asked : PendingApproval :=
  {| approval_id := MkUuid 9; ap_run_id := rid 1; ap_tool := "shell"; ap_params := JNull; ap_requested_at := 7; decision_tx := 50 |}.
Local Definition gateway : Gateway := mkGateway waiting (approval_insert asked ∅) [].
Local Definition denied := resolve_approval ts 8 (MkUuid 9) "deny" gateway.

Lemma waiting_keyed : well_keyed waiting.
Proof.
  intros id r Hr. apply elem_of_map_to_list in Hr.
  assert (Forall (λ kv, run_id kv.2 = kv.1 ∧ run_wf kv.2) (map_to_list (rm_runs waiting))) as Hall
    by (vm_compute; repeat constructor; eauto).
  exact (proj1 (Forall_forall _ _) Hall _ Hr).
Qed.

Lemma deny_stops_queue_witness :
  denied.2 = Ok tt ∧ ended_by_denial waiting (gw_manager denied.1) (rid 2) ∧
  rm_runs (gw_manager denied.1) !! rid 1 = Some started ∧ rm_runs (gw_manager denied.1) !! rid 3 = Some (new_run 3).
Proof.
  pose proof (deny_stops_queue ts 8 (MkUuid 9) gateway asked started waiting_keyed eq_refl eq_refl) as Hx.
  unfold denied. destruct (resolve_approval ts 8 (MkUuid 9) "deny" gateway) as [g' res].
  destruct Hx as (Hres & _ & d & _ & _ & _ & Hr & Hall). cbn [fst snd]. rewrite Hr. split; [exact Hres|]. split_and!.
  - apply (proj1 (Hall (rid 2) (new_run 2) eq_refl)). split_and!; try done; by eexists.
  - apply (proj2 (Hall (rid 1) started eq_refl)). intros (_ & Hst & _). done.
  - apply (proj2 (Hall (rid 3) (new_run 3) eq_refl)). intros (_ & _ & _ & [? Htok]). vm_compute in Htok. done.
Defined.

Lemma cancel_answers_truthfully_witness :
  match (cancel_run_handler ts 8 (rid 2) waiting).2 with Ok _ => True | Err e => ae_status e = 500%Z end.
Proof.
  pose proof (cancel_answers_truthfully ts 8 (rid 2) waiting waiting_keyed) as Hx.
  destruct (cancel_run_handler ts 8 (rid 2) waiting) as [m' res]. cbn [snd].
  change (rm_runs waiting !! rid 2) with (Some (new_run 2)) in Hx. change (rm_tokens waiting !! rid 2) with (Some 12%Z) in Hx.
  cbn in Hx. destruct Hx as [_ Hx]. destruct res; [done|]. apply Hx.
Defined.

(** When the store refuses to cancel a queued run, a denial leaves its token
    alone, where the cancel handler cancels it. *)
Lemma refused_denial_keeps_token :
  let m := with_store {| rows := ∅; budget := 0 |} waiting in
  run_status <$> rm_runs (cancel_queued ts 8 (rid 1) m (new_run 2)) !! rid 2 = Some Failed ∧
  rm_cancelled (cancel_queued ts 8 (rid 1) m (new_run 2)) = ∅ ∧
  run_status <$> rm_runs (cancel_run_handler ts 8 (rid 2) m).1 !! rid 2 = Some Failed ∧
  rm_cancelled (cancel_run_handler ts 8 (rid 2) m).1 = {[12%Z]}.
Proof. vm_compute. split_and!; reflexivity. Qed.
End witnesses.
