(* ===== verification/JobStore.v ===== *)
(** The store of scheduled jobs: [alms-session/src/job_store.rs], and the
    guarded upsert of [alms-session/src/sqlite/jobs.rs].

    Jobs in memory over a write-through table.  A change is persisted before it
    is visible in memory, under the entry lock of the job, so a method is one
    step.  SQLite is the class [JobTable]; identifiers and clock readings are
    arguments.  The failure switch that only test builds have is left out. *)
From S2P Require Import Prelude Ident Lifecycle Job Session.

(** * The table *)

(** [INSERT .. ON CONFLICT(id) DO UPDATE .. WHERE excluded.lifecycle_revision > jobs.lifecycle_revision],
    and whether a row was affected. *)
Definition save_job_on (j : Job) (rows : gmap JobId Job) : bool * gmap JobId Job :=
  match rows !! job_id j with
  | Some old => if (job_lifecycle_revision old <? job_lifecycle_revision j)%Z
                then (true, <[job_id j := j]> rows) else (false, rows)
  | None => (true, <[job_id j := j]> rows)
  end.

Class JobTable (St : Type) := {
  (** The rows of the [jobs] table that can be parsed. *)
  job_rows : St → gmap JobId Job;
  save_job : Job → St → Result St AlmsError;
  load_all_jobs_unfiltered : St → Result (list Job) AlmsError;
}.

(** A successful write is committed, also when its guard keeps the row; what is
    loaded are the rows. *)
Class JobTableLaws {St} (T : JobTable St) := {
  save_job_rows j st st' : save_job j st = Ok st' → job_rows st' = (save_job_on j (job_rows st)).2;
  load_job_rows st l : load_all_jobs_unfiltered st = Ok l →
    ∀ id j, job_rows st !! id = Some j ↔ j ∈ l ∧ job_id j = id;
}.

(** * Data *)

Inductive RecordRunOutcome := Recorded | RefusedTerminal | NotFound.

Inductive DispatchFailureOutcome :=
| RetryScheduled (attempt : Z) (retry_at : Z)
| Exhausted (attempts : Z)
| DispatchRefusedTerminal
| DispatchNotFound.

Record CreateJobRequest := {
  req_agent_id : AgentId;
  req_prompt : string;
  req_schedule : JobSchedule;
}.

Record JobStore (St : Type) := mkJobStore {
  js_jobs : gmap JobId Job;
  js_store : option St;
  js_retry_attempts : Z;
  js_retry_exhaustions : Z;
  js_rearm_failures : Z;
  js_boot_catch_ups : Z;
  js_bootstrap_failures : Z;
}.
Arguments mkJobStore {St}.
Arguments js_jobs {St}.
Arguments js_store {St}.
Arguments js_retry_attempts {St}.
Arguments js_retry_exhaustions {St}.
Arguments js_rearm_failures {St}.
Arguments js_boot_catch_ups {St}.
Arguments js_bootstrap_failures {St}.

(** [fetch_add] on an [AtomicU64] wraps. *)
Definition fetch_add (n : Z) (counter : Z) : Z := ((counter + n) mod 2 ^ 64)%Z.

(** * Operations *)

Section store.
Context {St : Type}.
Implicit Types (s : JobStore St).

Definition job_store_new : JobStore St := mkJobStore ∅ None 0 0 0 0 0.

Definition put_jobs (jobs : gmap JobId Job) (store : option St) s : JobStore St :=
  mkJobStore jobs store (js_retry_attempts s) (js_retry_exhaustions s) (js_rearm_failures s)
    (js_boot_catch_ups s) (js_bootstrap_failures s).

Definition put_retries (attempts exhaustions : Z) s : JobStore St :=
  mkJobStore (js_jobs s) (js_store s) attempts exhaustions (js_rearm_failures s)
    (js_boot_catch_ups s) (js_bootstrap_failures s).

Definition record_rearm_failure s : JobStore St :=
  mkJobStore (js_jobs s) (js_store s) (js_retry_attempts s) (js_retry_exhaustions s)
    (fetch_add 1 (js_rearm_failures s)) (js_boot_catch_ups s) (js_bootstrap_failures s).

Definition record_boot_catch_ups (count : Z) s : JobStore St :=
  mkJobStore (js_jobs s) (js_store s) (js_retry_attempts s) (js_retry_exhaustions s)
    (js_rearm_failures s) (fetch_add count (js_boot_catch_ups s)) (js_bootstrap_failures s).

Definition record_bootstrap_failure s : JobStore St :=
  mkJobStore (js_jobs s) (js_store s) (js_retry_attempts s) (js_retry_exhaustions s)
    (js_rearm_failures s) (js_boot_catch_ups s) (fetch_add 1 (js_bootstrap_failures s)).

Definition job_get (id : JobId) s : option Job := js_jobs s !! id.

(** [sort_by_key] with [Reverse], over the map's own order. *)
Definition job_list s : list Job := sort_by_key (λ j, - job_created_at j)%Z (map snd (map_to_list (js_jobs s))).

Context `{JobTable St} `{UuidCrate}.

Definition load_jobs s : Result (JobStore St) AlmsError :=
  match js_store s with
  | None => Ok s
  | Some st =>
      let? jobs := load_all_jobs_unfiltered st in
      Ok (put_jobs (foldl (λ m j, <[job_id j := j]> m) (js_jobs s) jobs) (Some st) s)
  end.

Definition job_store_open (st : St) : Result (JobStore St) AlmsError :=
  load_jobs (put_jobs ∅ (Some st) job_store_new).

Definition persist_job (j : Job) s : Result (option St) AlmsError :=
  match js_store s with
  | Some st => let? st' := save_job j st in Ok (Some st')
  | None => Ok None
  end.

Definition create_with_next_run_at (fresh : JobId) (now : Z) (req : CreateJobRequest) (next_run_at : option Z) s
    : JobStore St * Result Job AlmsError :=
  let job := job_new fresh now (req_agent_id req) (req_prompt req) (req_schedule req) next_run_at in
  match persist_job job s with
  | Err e => (s, Err e)
  | Ok store => (put_jobs (<[job_id job := job]> (js_jobs s)) store s, Ok job)
  end.

Definition job_create (fresh : JobId) (now : Z) (req : CreateJobRequest) s : JobStore St * Result Job AlmsError :=
  create_with_next_run_at fresh now req (match req_schedule req with Once run_at => Some run_at | Recurring _ => None end) s.

Definition transition_job (id : JobId) (t : JobTransition) s
    : JobStore St * Result (option (TransitionOutcome JobStatus)) AlmsError :=
  match js_jobs s !! id with
  | None => (s, Ok None)
  | Some entry =>
      let '(candidate, outcome) := job_transition entry t in
      let rejected := match outcome with Rejected _ _ _ => true | _ => false end in
      if rejected && (MAX_LIFECYCLE_REVISION <=? job_lifecycle_revision candidate)%Z
      then (s, Err (Runtime ("job " +:+ uuid_to_string (job_uuid id) +:+ " lifecycle revision is exhausted")))
      else if is_applied outcome then
        match persist_job candidate s with
        | Err e => (s, Err e)
        | Ok store => (put_jobs (<[id := candidate]> (js_jobs s)) store s, Ok (Some outcome))
        end
      else (s, Ok (Some outcome))
  end.

Definition update_next_run_at (id : JobId) (next : option Z) s : JobStore St * Result unit AlmsError :=
  match transition_job id (SetNextRunAt next) s with
  | (s', Ok _) => (s', Ok tt)
  | (s', Err e) => (s', Err e)
  end.

(** [{:?}] of a status. *)
Definition job_status_debug (st : JobStatus) : string :=
  match st with
  | JobPending => "Pending" | JobActive => "Active" | JobCompleted => "Completed"
  | JobFailed => "Failed" | JobCancelled => "Cancelled"
  end.

(** The transition a new status stands for. *)
Definition run_transition_for (ran_at : Z) (new_status : JobStatus) (next_run_at : option Z)
    (terminal_reason : option JobTerminalReason) : Result JobTransition AlmsError :=
  match new_status with
  | JobActive => Ok (RecordRecurringRun ran_at next_run_at)
  | JobCompleted => Ok (CompleteOneShot ran_at (default ReasonCompleted terminal_reason))
  | _ => Err (InvalidConfig ("record_run cannot transition a job to " +:+ job_status_debug new_status))
  end.

Definition record_run_with_reason (id : JobId) (ran_at : Z) (new_status : JobStatus) (next_run_at : option Z)
    (terminal_reason : option JobTerminalReason) s : JobStore St * Result RecordRunOutcome AlmsError :=
  match run_transition_for ran_at new_status next_run_at terminal_reason with
  | Err e => (s, Err e)
  | Ok transition =>
      match transition_job id transition s with
      | (s', Err e) => (s', Err e)
      | (s', Ok None) => (s', Ok NotFound)
      | (s', Ok (Some (Applied _ _ _))) => (s', Ok Recorded)
      | (s', Ok (Some _)) => (s', Ok RefusedTerminal)
      end
  end.

Definition record_run (id : JobId) (ran_at : Z) (new_status : JobStatus) (next_run_at : option Z) s
    : JobStore St * Result RecordRunOutcome AlmsError :=
  record_run_with_reason id ran_at new_status next_run_at
    (if decide (new_status = JobCompleted) then Some ReasonCompleted else None) s.

Definition record_dispatch_failure (id : JobId) (error : string) (retry_at max_attempts : Z) s
    : JobStore St * Result DispatchFailureOutcome AlmsError :=
  match transition_job id (RecordDispatchFailure error retry_at max_attempts) s with
  | (s', Err e) => (s', Err e)
  | (s', Ok None) => (s', Ok DispatchNotFound)
  | (s', Ok (Some (Applied _ JobFailed _))) =>
      (put_retries (fetch_add 1 (js_retry_attempts s')) (fetch_add 1 (js_retry_exhaustions s')) s',
       Ok (Exhausted (default max_attempts (job_retry_count <$> job_get id s'))))
  | (s', Ok (Some (Applied _ _ _))) =>
      (put_retries (fetch_add 1 (js_retry_attempts s')) (js_retry_exhaustions s') s',
       Ok (RetryScheduled (default 1%Z (job_retry_count <$> job_get id s')) retry_at))
  | (s', Ok (Some _)) => (s', Ok DispatchRefusedTerminal)
  end.

Definition job_cancel (id : JobId) s : JobStore St * Result (option bool) AlmsError :=
  match transition_job id CancelJob s with
  | (s', Err e) => (s', Err e)
  | (s', Ok None) => (s', Ok None)
  | (s', Ok (Some o)) => (s', Ok (Some (is_applied o)))
  end.
End store.

(** * Sequences of calls *)

Inductive StoreOp :=
| OpCreate (fresh : JobId) (now : Z) (req : CreateJobRequest) (next_run_at : option Z)
| OpUpdateNext (id : JobId) (next : option Z)
| OpRecordRun (id : JobId) (ran_at : Z) (new_status : JobStatus) (next_run_at : option Z) (reason : option JobTerminalReason)
| OpDispatchFailure (id : JobId) (error : string) (retry_at max_attempts : Z)
| OpCancelJob (id : JobId).

Section facts.
Context {St : Type} `{T : JobTable St} `{!JobTableLaws T} `{UuidCrate}.
Implicit Types (s : JobStore St).

Definition store_step s (op : StoreOp) : JobStore St :=
  match op with
  | OpCreate fresh now req next => (create_with_next_run_at fresh now req next s).1
  | OpUpdateNext id next => (update_next_run_at id next s).1
  | OpRecordRun id ran_at st next reason => (record_run_with_reason id ran_at st next reason s).1
  | OpDispatchFailure id error retry_at m => (record_dispatch_failure id error retry_at m s).1
  | OpCancelJob id => (job_cancel id s).1
  end.

(** The request an operation makes of a job. *)
Definition op_request (op : StoreOp) : option (JobId * JobTransition) :=
  match op with
  | OpCreate _ _ _ _ => None
  | OpUpdateNext id next => Some (id, SetNextRunAt next)
  | OpRecordRun id ran_at st next reason =>
      match run_transition_for ran_at st next reason with Ok t => Some (id, t) | Err _ => None end
  | OpDispatchFailure id error retry_at m => Some (id, RecordDispatchFailure error retry_at m)
  | OpCancelJob id => Some (id, CancelJob)
  end.

(** What the caller hears: nothing but an error ([None]), or an answer that may
    say whether the request was applied. *)
Definition call_answer s (op : StoreOp) : option (option bool) :=
  match op with
  | OpCreate fresh now req next => match (create_with_next_run_at fresh now req next s).2 with Ok _ => Some None | Err _ => None end
  | OpUpdateNext id next => match (update_next_run_at id next s).2 with Ok _ => Some None | Err _ => None end
  | OpRecordRun id ran_at st next reason =>
      match (record_run_with_reason id ran_at st next reason s).2 with
      | Ok Recorded => Some (Some true)
      | Ok _ => Some (Some false)
      | Err _ => None
      end
  | OpDispatchFailure id error retry_at m =>
      match (record_dispatch_failure id error retry_at m s).2 with
      | Ok (RetryScheduled _ _) | Ok (Exhausted _) => Some (Some true)
      | Ok _ => Some (Some false)
      | Err _ => None
      end
  | OpCancelJob id =>
      match (job_cancel id s).2 with
      | Ok (Some b) => Some (Some b)
      | Ok None => Some (Some false)
      | Err _ => None
      end
  end.

(** The requests of a job whose calls returned no error, in their order, each with
    what its caller heard. *)
Fixpoint answered (id : JobId) s (ops : list StoreOp) : list (JobTransition * option bool) :=
  match ops with
  | [] => []
  | op :: ops' =>
      match op_request op, call_answer s op with
      | Some (i, t), Some a => if decide (i = id) then [(t, a)] else []
      | _, _ => []
      end ++ answered id (store_step s op) ops'
  end.

Definition tells (o : TransitionOutcome JobStatus) (a : option bool) : Prop :=
  match a with Some b => b = is_applied o | None => True end.

(** What a call may fail for: the table refused to write the new state of the job, the
    job's revision is exhausted, or no transition stands for the status asked for. *)
Definition table_refused s (j : Job) : Prop := ∃ st e, js_store s = Some st ∧ save_job j st = Err e.

Definition failure_cause s (op : StoreOp) : Prop :=
  match op, op_request op with
  | OpCreate fresh now req next, _ => table_refused s (job_new fresh now (req_agent_id req) (req_prompt req) (req_schedule req) next)
  | _, Some (id, t) => ∃ j, js_jobs s !! id = Some j ∧
      if is_applied (job_transition j t).2 then table_refused s (job_transition j t).1
      else (MAX_LIFECYCLE_REVISION ≤ job_lifecycle_revision j)%Z
  | _, None => True
  end.

(** A created id is new ([Uuid::new_v4]). *)
Definition creates_fresh s (op : StoreOp) : Prop :=
  match op with OpCreate fresh _ _ _ => js_jobs s !! fresh = None | _ => True end.

Fixpoint creates_fresh_all s (ops : list StoreOp) : Prop :=
  match ops with [] => True | op :: ops' => creates_fresh s op ∧ creates_fresh_all (store_step s op) ops' end.

(** Memory and table agree, and a job is filed under its own id. *)
Record in_step s : Prop := {
  is_rows st : js_store s = Some st → job_rows st = js_jobs s;
  is_keyed id j : js_jobs s !! id = Some j → job_id j = id;
}.

Lemma job_transition_keeps j t :
  job_id (job_transition j t).1 = job_id j ∧ job_schedule (job_transition j t).1 = job_schedule j ∧
  job_agent_id (job_transition j t).1 = job_agent_id j ∧ job_prompt (job_transition j t).1 = job_prompt j.
Proof.
  destruct (job_transition j t) as [j' o] eqn:E.
  destruct (job_transition_cases _ _ _ _ E) as [(-> & _)|(_ & _ & _ & -> & _)]; [done|].
  destruct t; simpl; try case_match; done.
Qed.

(** A write that must not collide leaves the job in the table. *)
Lemma persist_in_step s j store :
  in_step s → (∀ old, js_jobs s !! job_id j = Some old → (job_lifecycle_revision old < job_lifecycle_revision j)%Z) →
  persist_job j s = Ok store → in_step (put_jobs (<[job_id j := j]> (js_jobs s)) store s).
Proof.
  intros [Hr Hk] Hrev Hp. unfold persist_job in Hp. split; cbn.
  - intros st' Hst'. destruct (js_store s) as [st|] eqn:Es; [|congruence].
    destruct (save_job j st) as [st1|] eqn:Esave; cbn in Hp; [|done].
    assert (st1 = st') as -> by congruence. apply save_job_rows in Esave as ->.
    rewrite (Hr st eq_refl). unfold save_job_on.
    destruct (js_jobs s !! job_id j) as [old|] eqn:Eo; [|done].
    by rewrite (proj2 (Z.ltb_lt _ _) (Hrev _ eq_refl)).
  - intros id j' [[<- <-]|[_ Hj]]%lookup_insert_Some; [done|]. by apply Hk.
Qed.

(** What a transition does to the store. *)
Inductive transition_effect id t s : JobStore St → Result (option (TransitionOutcome JobStatus)) AlmsError → Prop :=
| te_missing : js_jobs s !! id = None → transition_effect id t s s (Ok None)
| te_failed j e : js_jobs s !! id = Some j →
    (if is_applied (job_transition j t).2 then table_refused s (job_transition j t).1
     else (MAX_LIFECYCLE_REVISION ≤ job_lifecycle_revision j)%Z) →
    transition_effect id t s s (Err e)
| te_unapplied j o : js_jobs s !! id = Some j → job_transition j t = (j, o) → is_applied o = false →
    transition_effect id t s s (Ok (Some o))
| te_applied j j' o store : js_jobs s !! id = Some j → job_transition j t = (j', o) → is_applied o = true →
    persist_job j' s = Ok store →
    transition_effect id t s (put_jobs (<[id := j']> (js_jobs s)) store s) (Ok (Some o)).

Lemma transition_job_effect id t s :
  transition_effect id t s (transition_job id t s).1 (transition_job id t s).2.
Proof.
  unfold transition_job. destruct (js_jobs s !! id) as [j|] eqn:Ej; [|by constructor].
  destruct (job_transition j t) as [j' o] eqn:Et.
  destruct (is_applied o) eqn:Ho.
  - assert (Hr : match o with Rejected _ _ _ => true | _ => false end = false) by (by destruct o). rewrite Hr. cbn [andb].
    destruct (persist_job j' s) as [store|e] eqn:Ep; [by eapply te_applied|]. apply (te_failed _ _ _ j); [done|]. rewrite Et. cbn. rewrite Ho.
    unfold persist_job in Ep. unfold table_refused. destruct (js_store s) as [st|]; [|done].
    destruct (save_job j' st) as [|e'] eqn:Es; [done|]. by exists st, e'.
  - destruct (job_transition_cases _ _ _ _ Et) as [(-> & _)|(_ & _ & _ & _ & ->)]; [|done].
    destruct (_ && _) eqn:Em; [|by eapply te_unapplied]. apply (te_failed _ _ _ j); [done|]. rewrite Et. cbn. rewrite Ho.
    apply andb_true_iff in Em as [_ Em]. by apply Z.leb_le.
Qed.

(** The job entry an operation on another id leaves alone, and what it does to
    its own: nothing, or one applied request. *)
Lemma transition_job_entry id t s i j :
  js_jobs s !! i = Some j →
  js_jobs (transition_job id t s).1 !! i = Some j ∨
  i = id ∧ ∃ j' o, job_transition j t = (j', o) ∧ is_applied o = true ∧ js_jobs (transition_job id t s).1 !! i = Some j'.
Proof.
  intros Hi. destruct (transition_job_effect id t s) as [| | |j0 j' o store Hj Ht Ho Hp]; auto.
  cbn. destruct (decide (i = id)) as [->|]; [|left; simpl_lookup].
  right. simplify_eq. split; [done|]. exists j', o. by rewrite lookup_insert_eq.
Qed.

Lemma in_step_transition id t s : in_step s → in_step (transition_job id t s).1.
Proof.
  intros Hs. destruct (transition_job_effect id t s) as [| | |j j' o store Hj Ht Ho Hp]; [done..|].
  destruct (job_transition_keeps j t) as [Hid _]. rewrite Ht in Hid. cbn in Hid.
  rewrite (is_keyed _ Hs _ _ Hj) in Hid. subst id. apply persist_in_step; [done| |done].
  intros old Hold. simplify_eq.
  destruct (job_transition_cases _ _ _ _ Ht) as [(_ & Hno & _)|(_ & _ & _ & -> & _)]; [congruence|].
  rewrite job_effect_revision. lia.
Qed.

(** Every operation but a creation is a transition of one job, up to the
    counters. *)
Lemma store_step_request s op :
  (∃ fresh now req next, op = OpCreate fresh now req next) ∨
  (js_jobs (store_step s op) = js_jobs s ∧ js_store (store_step s op) = js_store s) ∨
  ∃ i t, op_request op = Some (i, t) ∧ js_jobs (store_step s op) = js_jobs (transition_job i t s).1 ∧
    js_store (store_step s op) = js_store (transition_job i t s).1.
Proof.
  destruct op as [|id next|id ran_at st next reason|id e r m|id]; [by left; eauto 10|right..]; cbn.
  - right. do 2 eexists. split; [done|]. unfold update_next_run_at. by destruct (transition_job _ _ s) as [s' []].
  - unfold record_run_with_reason. destruct (run_transition_for _ _ _ _) as [t|]; [|by left].
    right. do 2 eexists. split; [done|]. by destruct (transition_job _ _ s) as [s' [[[]|]|]].
  - right. do 2 eexists. split; [done|]. unfold record_dispatch_failure.
    by destruct (transition_job _ _ s) as [s' [[[? [] ?| |]|]|]].
  - right. do 2 eexists. split; [done|]. unfold job_cancel. by destruct (transition_job _ _ s) as [s' [[]|]].
Qed.

Lemma in_step_ext s s' : js_jobs s' = js_jobs s → js_store s' = js_store s → in_step s → in_step s'.
Proof. intros Ej Es [H1 H2]. split; rewrite ?Ej, ?Es; auto. Qed.

Lemma in_step_store s op : in_step s → creates_fresh s op → in_step (store_step s op).
Proof.
  intros Hs Hf. destruct (store_step_request s op) as [(fresh & now & req & next & ->)|[[Ej Es]|(i & t & _ & Ej & Es)]];
    [|by eapply in_step_ext|eapply in_step_ext; [done..|by apply in_step_transition]].
  cbn in Hf |- *. unfold create_with_next_run_at. cbn [job_id job_new].
  set (job := job_new _ _ _ _ _ _).
  destruct (persist_job job s) as [store|e] eqn:Ep; [|done]. cbn.
  apply (persist_in_step s job store); [done| |done]. intros old. cbn. by rewrite Hf.
Qed.

Lemma in_step_run ops : ∀ s, in_step s → creates_fresh_all s ops → in_step (foldl store_step s ops).
Proof. induction ops as [|op ops IH]; intros s Hs; simpl; [done|]. intros [Hf Hr]. apply IH; [by apply in_step_store|done]. Qed.

Lemma loaded_jobs l (m : gmap JobId Job) id j :
  (∀ j', j' ∈ l → job_id j' = id → j' = j) →
  foldl (λ m j, <[job_id j := j]> m) m l !! id = Some j ↔ (∃ j', j' ∈ l ∧ job_id j' = id) ∨ m !! id = Some j.
Proof.
  revert m. induction l as [|j1 l IH]; intros m Hu; simpl.
  - split; [by right|]. by intros [(? & []%elem_of_nil & _)|].
  - rewrite IH by (intros; apply Hu; [by apply elem_of_cons; right|done]).
    destruct (decide (job_id j1 = id)) as [E|E].
    + rewrite <- E, lookup_insert_eq. assert (j1 = j) as -> by (apply Hu; [apply elem_of_cons; by left|done]).
      split; [|by right]. left. exists j. split; [apply elem_of_cons; by left|done].
    + rewrite lookup_insert_ne by done. split; (intros [(j' & Hin & Hid)|]; [left|by right]).
      * exists j'. split; [apply elem_of_cons; by right|done].
      * apply elem_of_cons in Hin as [->|Hin]; [done|]. by exists j'.
Qed.

Lemma foldl_insert_None l (m : gmap JobId Job) id :
  foldl (λ m j, <[job_id j := j]> m) m l !! id = None ↔ (∀ j, j ∈ l → job_id j ≠ id) ∧ m !! id = None.
Proof.
  revert m. induction l as [|j1 l IH]; intros m; simpl.
  - split; [|by intros [_ ?]]. intros ?. split; [|done]. by intros j ?%elem_of_nil.
  - rewrite IH, lookup_insert_None. split.
    + intros (H1 & H2 & H3). split; [|done]. intros j [->|?]%elem_of_cons; auto.
    + intros [H1 H2]. split; [intros; apply H1, elem_of_cons; auto|]. split; [done|]. apply H1, elem_of_cons. by left.
Qed.

(** Opening a table projects exactly its rows. *)
Lemma open_jobs st s : job_store_open st = Ok s → js_jobs s = job_rows st ∧ js_store s = Some st ∧ in_step s.
Proof.
  unfold job_store_open, load_jobs. cbn. destruct (load_all_jobs_unfiltered st) as [l|e] eqn:El; [|done].
  intros [= <-]. cbn. pose proof (load_job_rows st l El) as Hl.
  assert (foldl (λ m j, <[job_id j := j]> m) ∅ l = job_rows st) as Heq.
  { apply map_eq. intros id. destruct (job_rows st !! id) as [j|] eqn:Er.
    - pose proof Er as [Hin Hid]%Hl. apply loaded_jobs; [|by left; exists j].
      intros j' Hin' Hid'. assert (job_rows st !! id = Some j') by (by apply Hl). congruence.
    - apply foldl_insert_None. split; [|apply lookup_empty]. intros j Hj Hid.
      assert (job_rows st !! id = Some j) by (by apply Hl). congruence. }
  rewrite Heq. split_and!; [done..|]. split; cbn; [congruence|]. by intros id j [_ ?]%Hl.
Qed.

(** An answered request is an applied or a refused one, and its caller is told
    which. *)
Lemma answered_step s op i t : op_request op = Some (i, t) →
  js_jobs (store_step s op) = js_jobs (transition_job i t s).1 ∧
  match (transition_job i t s).2 with
  | Err _ => call_answer s op = None
  | Ok None => ∃ a, call_answer s op = Some a
  | Ok (Some o) => ∃ a, call_answer s op = Some a ∧ tells o a
  end.
Proof.
  destruct op as [|id next|id ran_at st next reason|id e r m|id]; cbn; [done|..].
  - intros [= -> <-]. unfold update_next_run_at. destruct (transition_job _ _ s) as [s' [[o|]|]]; cbn; (split; [done|done || (eexists; done) || (eexists; split; done)]).
  - unfold record_run_with_reason. destruct (run_transition_for _ _ _ _) as [t'|]; [|done]. intros [= -> ->].
    destruct (transition_job _ _ s) as [s' [[[]|]|]]; cbn; (split; [done|done || (eexists; done) || (eexists; split; done)]).
  - intros [= -> <-]. unfold record_dispatch_failure. destruct (transition_job _ _ s) as [s' [[[? [] ?| |]|]|]]; cbn; (split; [done|done || (eexists; done) || (eexists; split; done)]).
  - intros [= -> <-]. unfold job_cancel. destruct (transition_job _ _ s) as [s' [[o|]|]]; cbn; (split; [done|done || (eexists; done) || (eexists; split; done)]).
Qed.

(** One call, seen from a job. *)
Lemma call_lifecycle s op id j : creates_fresh s op → js_jobs s !! id = Some j →
  ∃ j1 os, js_jobs (store_step s op) !! id = Some j1 ∧
    lc_run j (map (λ x, (0%Z, x.1)) (answered id s [op])) = (j1, os) ∧ Forall2 (λ o x, tells o x.2) os (answered id s [op]).
Proof.
  intros Hf Hj. cbn [answered]. rewrite app_nil_r. destruct (op_request op) as [[i t]|] eqn:Hop.
  - destruct (answered_step s op i t Hop) as [-> Ha].
    destruct (transition_job_effect i t s) as [Hm|j0 e Hj0 _|j0 o Hj0 Ht Ho|j0 j' o store Hj0 Ht Ho _].
    + destruct Ha as [a ->]. rewrite decide_False by congruence. by exists j, [].
    + rewrite Ha. by exists j, [].
    + destruct Ha as (a & -> & Ha). destruct (decide (i = id)) as [->|]; [|by exists j, []].
      simplify_eq. exists j, [o]. cbn. rewrite Ht. by repeat constructor.
    + destruct Ha as (a & -> & Ha). cbn. destruct (decide (i = id)) as [->|]; [|exists j, []; by rewrite lookup_insert_ne].
      simplify_eq. exists j', [o]. cbn. rewrite Ht, lookup_insert_eq. by repeat constructor.
  - exists j, []. split; [|by destruct (call_answer s op)].
    destruct (store_step_request s op) as [(fresh & now & req & next & ->)|[[-> _]|(i & t & Hop' & _)]]; [|done|congruence].
    cbn in Hf |- *. unfold create_with_next_run_at. destruct (persist_job _ s); [|done]. cbn.
    rewrite lookup_insert_ne; [done|]. intros ->. congruence.
Qed.

Lemma answered_cons id s op ops : answered id s (op :: ops) = answered id s [op] ++ answered id (store_step s op) ops.
Proof. cbn [answered]. by rewrite app_nil_r. Qed.

Lemma lc_run_app (j : Job) l1 l2 j1 os1 j2 os2 :
  lc_run j l1 = (j1, os1) → lc_run j1 l2 = (j2, os2) → lc_run j (l1 ++ l2) = (j2, os1 ++ os2).
Proof.
  revert j os1. induction l1 as [|[now t] l1 IH]; intros j os1; cbn [lc_run app]; [by intros [= -> <-]|].
  destruct (lc_apply now j t) as [j' o]. destruct (lc_run j' l1) as [j1' os'] eqn:E. intros [= -> <-] E2. by rewrite (IH _ _ E E2).
Qed.

(** The jobs any sequence of calls leaves. *)
Lemma store_run_lifecycle ops : ∀ s id j, creates_fresh_all s ops → js_jobs s !! id = Some j →
  ∃ j' os, js_jobs (foldl store_step s ops) !! id = Some j' ∧
    lc_run j (map (λ x, (0%Z, x.1)) (answered id s ops)) = (j', os) ∧ Forall2 (λ o x, tells o x.2) os (answered id s ops).
Proof.
  induction ops as [|op ops IH]; intros s id j Hf Hj; [by exists j, []|]. destruct Hf as [Hf1 Hf2].
  destruct (call_lifecycle s op id j Hf1 Hj) as (j1 & os1 & H1 & H2 & H3).
  destruct (IH _ _ _ Hf2 H1) as (j' & os & H4 & H5 & H6). exists j', (os1 ++ os). rewrite answered_cons, map_app.
  split; [done|]. split; [by eapply lc_run_app|by apply Forall2_app].
Qed.

Lemma creates_fresh_app ops1 : ∀ s ops2, creates_fresh_all s (ops1 ++ ops2) → creates_fresh_all (foldl store_step s ops1) ops2.
Proof. induction ops1 as [|op ops1 IH]; intros s ops2; [done|]. intros [_ Hf]. by apply IH. Qed.

(** A call fails for a cause. *)
Lemma call_failure s op : call_answer s op = None → failure_cause s op.
Proof.
  destruct (op_request op) as [[i t]|] eqn:Hop.
  - intros Hn. destruct (answered_step s op i t Hop) as [_ Ha].
    assert (Hc : ∃ j, js_jobs s !! i = Some j ∧ if is_applied (job_transition j t).2 then table_refused s (job_transition j t).1
      else (MAX_LIFECYCLE_REVISION ≤ job_lifecycle_revision j)%Z).
    { destruct (transition_job_effect i t s) as [|j e Hj Hc|j o|j j' o store]; [|by exists j|..];
        destruct Ha as [a Ha]; rewrite ?Hn in Ha; try done; destruct Ha; congruence. }
    unfold failure_cause. by destruct op; [done|rewrite Hop..].
  - unfold failure_cause. destruct op; [|by rewrite Hop..]. cbn. unfold create_with_next_run_at, persist_job, table_refused.
    destruct (js_store s) as [st|]; [|done]. destruct (save_job _ st) as [|e] eqn:E; [done|]. intros _. by exists st, e.
Qed.

(** The table stays in place. *)
Lemma store_kept ops : ∀ s, is_Some (js_store s) → is_Some (js_store (foldl store_step s ops)).
Proof.
  induction ops as [|op ops IH]; intros s Hs; [done|]. apply IH.
  destruct (store_step_request s op) as [(fresh & now & req & next & ->)|[[_ ->]|(i & t & _ & _ & ->)]]; [|done|].
  - cbn. unfold create_with_next_run_at, persist_job. destruct Hs as [st Hs]. rewrite Hs. destruct (save_job _ st); cbn; rewrite ?Hs; eauto.
  - destruct (transition_job_effect i t s) as [| | |j j' o store _ _ _ Hp]; [done..|]. cbn.
    unfold persist_job in Hp. destruct Hs as [st Hs]. rewrite Hs in Hp.
    destruct (save_job j' st); cbn in Hp; [|done]. injection Hp as <-. eauto.
Qed.
End facts.

(** * Properties *)

Section properties.
Context {St : Type} `{T : JobTable St} `{!JobTableLaws T} `{UuidCrate}.
Implicit Types (s : JobStore St).

(** C32: The store of jobs implements the job state machine over an unreliable
    disk, and a restart loses nothing.  Take any sequence of calls on a store
    opened from a table, whichever writes fail.  A job that exists at some point is
    afterwards what the state machine makes of it under exactly the requests whose
    calls returned no error, in their order, and each caller that is told whether
    its request was applied is told the truth.  A call returns an error only when
    the table refused to write what it asked for, the job's revision is exhausted,
    or the status asked for stands for no transition; a creation that returns none
    has created its job.  The table holds exactly the jobs in memory, and opening
    it again gives back exactly those jobs. *)
Theorem job_store_refines_lifecycle st0 s0 ops :
  job_store_open st0 = Ok s0 → creates_fresh_all s0 ops →
  (∀ ops1 ops2 id j, ops = ops1 ++ ops2 → js_jobs (foldl store_step s0 ops1) !! id = Some j →
     let heard := answered id (foldl store_step s0 ops1) ops2 in
     ∃ j' os, js_jobs (foldl store_step s0 ops) !! id = Some j' ∧ lc_run j (map (λ x, (0%Z, x.1)) heard) = (j', os) ∧
       Forall2 (λ o x, tells o x.2) os heard) ∧
  (∀ ops1 op ops2, ops = ops1 ++ op :: ops2 → let s := foldl store_step s0 ops1 in
     (call_answer s op = None → failure_cause s op) ∧
     match op with
     | OpCreate fresh now req next => is_Some (call_answer s op) →
         js_jobs (store_step s op) !! fresh = Some (job_new fresh now (req_agent_id req) (req_prompt req) (req_schedule req) next)
     | _ => True
     end) ∧
  ∃ st, js_store (foldl store_step s0 ops) = Some st ∧ job_rows st = js_jobs (foldl store_step s0 ops) ∧
    (∀ s', job_store_open st = Ok s' → js_jobs s' = js_jobs (foldl store_step s0 ops)).
Proof.
  intros Hopen Hf. destruct (open_jobs _ _ Hopen) as (_ & Hst & Hin).
  pose proof (in_step_run ops s0 Hin Hf) as [Hrows _]. split; [|split].
  - intros ops1 ops2 id j -> Hj. rewrite foldl_app. apply store_run_lifecycle; [by apply creates_fresh_app|done].
  - intros ops1 op ops2 _ s. split; [apply call_failure|]. destruct op; try done. cbn. unfold create_with_next_run_at.
    destruct (persist_job _ s); cbn; [|by intros [? ?]]. intros _. apply lookup_insert_eq.
  - destruct (store_kept ops s0) as [st Es]; [by eauto|]. exists st. split_and!; [done|by apply Hrows|].
    intros s' Ho. destruct (open_jobs _ _ Ho) as (-> & _). by apply Hrows.
Qed.

(** The answer of a cancellation is what happened.  It is true exactly when
    this call ended the job, in memory and in the table; false when the job had
    ended before; absent for an unknown job; and an error means that nothing
    changed and the job is still live, unless its revision is exhausted. *)
Theorem job_cancel_truthful id s s' r :
  in_step s → job_cancel id s = (s', r) →
  match r with
  | Ok None => js_jobs s !! id = None ∧ s' = s
  | Ok (Some false) => ∃ j, js_jobs s !! id = Some j ∧ job_is_terminal (job_status j) = true ∧ s' = s
  | Ok (Some true) => ∃ j j', js_jobs s !! id = Some j ∧ job_is_terminal (job_status j) = false ∧
      js_jobs s' = <[id := j']> (js_jobs s) ∧ job_status j' = JobCancelled ∧ job_next_run_at j' = None ∧ in_step s'
  | Err _ => s' = s ∧ ∃ j, js_jobs s !! id = Some j ∧
      (job_is_terminal (job_status j) = false ∨ (MAX_LIFECYCLE_REVISION ≤ job_lifecycle_revision j)%Z)
  end.
Proof.
  intros Hs Hc. pose proof (in_step_transition id CancelJob s Hs) as Hs1. unfold job_cancel, transition_job in *.
  destruct (js_jobs s !! id) as [j|] eqn:Ej; [|by injection Hc as <- <-].
  destruct (job_transition j CancelJob) as [j' o] eqn:Et.
  destruct (job_transition_cases _ _ _ _ Et) as [(-> & Ho & _)|(Ht & _ & Hrev & -> & ->)].
  - rewrite Ho in *. destruct o as [|st rev|from to rev]; [done|..]; simpl andb in *.
    + injection Hc as <- <-. exists j. split_and!; [done| |done]. unfold job_transition in Et.
      destruct (job_is_terminal (job_status j)); [done|]. by destruct (negb _ || _).
    + destruct (Z.leb_spec MAX_LIFECYCLE_REVISION (job_lifecycle_revision j)) as [Hm|Hm]; injection Hc as <- <-; [eauto|].
      exists j. split_and!; [done| |done]. unfold job_transition in Et.
      destruct (job_is_terminal (job_status j)); [done|]. simpl in Et.
      by rewrite (proj2 (Z.leb_gt _ _) Hm) in Et.
  - simpl is_applied in *. cbn [andb] in *. destruct (persist_job _ s) as [store|e]; injection Hc as <- <-; [|eauto].
    do 2 eexists. split_and!; [done|done|cbn; reflexivity|done|done|exact Hs1].
Qed.
End properties.

(** * Witnesses *)

Section witnesses.
(** A table that takes as many writes as its budget allows. *)
Record TableWithBudget := { tb_table : gmap JobId Job; tb_budget : nat }.

Definition keyed_rows (st : TableWithBudget) : gmap JobId Job := filter (λ kv, job_id kv.2 = kv.1) (tb_table st).

Definition write_job (j : Job) (st : TableWithBudget) : Result TableWithBudget AlmsError :=
  match tb_budget st with
  | 0 => Err (Runtime "disk full")
  | S n => Ok {| tb_table := (save_job_on j (keyed_rows st)).2; tb_budget := n |}
  end.

#[export] Instance budget_table : JobTable TableWithBudget := {
  job_rows := keyed_rows;
  save_job := write_job;
  load_all_jobs_unfiltered st := Ok (map snd (map_to_list (keyed_rows st)));
}.

#[export] Instance budget_table_laws : JobTableLaws budget_table.
Proof.
  split.
  - intros j st st'. cbn. unfold write_job. destruct (tb_budget st); [done|]. intros [= <-].
    apply map_filter_id. cbn. intros id j' Hl.
    assert (Hk : ∀ i k, keyed_rows st !! i = Some k → job_id k = i) by (by intros i k [_ ?]%map_lookup_filter_Some).
    unfold save_job_on in Hl. destruct (keyed_rows st !! job_id j); [destruct (_ <? _)%Z|]; cbn in Hl;
      first [by apply Hk | apply lookup_insert_Some in Hl as [[<- <-]|[_ Hl]]; [done|by apply Hk]].
  - intros st l [= <-] id j. change (job_rows st) with (keyed_rows st). split.
    + intros Hl. split; [|by apply map_lookup_filter_Some in Hl as [_ ?]].
      apply list_elem_of_fmap. exists (id, j). split; [done|]. by apply elem_of_map_to_list.
    + intros [([k j'] & -> & Hl)%list_elem_of_fmap <-]. apply elem_of_map_to_list in Hl. cbn in *.
      pose proof Hl as [_ E]%map_lookup_filter_Some. cbn in E. by rewrite E.
Qed.

Local Instance toy_uuid : UuidCrate :=
  {| parse_str _ := None; uuid_to_string _ := ""; new_v5 u _ := u |}.

Local Definition jid (n : N) := MkJobId (MkUuid n).
Local Definition request : CreateJobRequest :=
  {| req_agent_id := MkAgentId (MkUuid 9); req_prompt := "report"; req_schedule := Recurring "0 9 * * *" |}.
Local Definition empty_store (n : nat) : JobStore TableWithBudget :=
  put_jobs ∅ (Some {| tb_table := ∅; tb_budget := n |}) job_store_new.
Local Definition opened : JobStore TableWithBudget :=
  (create_with_next_run_at (jid 1) 5 request (Some 100%Z) (empty_store 4)).1.
Local Definition opened_table : TableWithBudget := default {| tb_table := ∅; tb_budget := 0 |} (js_store opened).
Local Definition calls : list StoreOp :=
  [OpRecordRun (jid 1) 100 JobActive (Some 200%Z) None; OpDispatchFailure (jid 1) "full" 210 3;
   OpCreate (jid 2) 205 request (Some 300%Z); OpCancelJob (jid 1); OpRecordRun (jid 1) 220 JobActive None None].

(** The fourth write finds the disk full: the cancellation fails, and the job stays
    live in memory and in the table. *)
Local Definition reopened : JobStore TableWithBudget := put_jobs (js_jobs opened) (js_store opened) job_store_new.

Lemma job_store_refines_lifecycle_witness :
  map snd (answered (jid 1) reopened calls) = [Some true; Some true] ∧ call_answer (foldl store_step reopened (take 3 calls)) (OpCancelJob (jid 1)) = None ∧
  (∃ j' os, js_jobs (foldl store_step reopened calls) !! jid 1 = Some j' ∧
     lc_run (default (job_new (jid 1) 0 (MkAgentId (MkUuid 0)) "" (Once 0) None) (js_jobs opened !! jid 1))
       (map (λ x, (0%Z, x.1)) (answered (jid 1) reopened calls)) = (j', os) ∧
     Forall2 (λ o x, tells o x.2) os (answered (jid 1) reopened calls)) ∧
  (job_status <$> js_jobs (foldl store_step reopened calls) !! jid 1) = Some JobActive.
Proof.
  split; [vm_compute; reflexivity|]. split; [vm_compute; reflexivity|]. split; [|vm_compute; reflexivity].
  refine (proj1 (job_store_refines_lifecycle opened_table reopened calls _ _) [] calls (jid 1) _ eq_refl _).
  - vm_compute. reflexivity.
  - vm_compute. intuition.
  - vm_compute. reflexivity.
Defined.

Local Definition cancelled : JobStore TableWithBudget := (job_cancel (jid 1) opened).1.

Lemma job_cancel_truthful_witness : ∃ j', js_jobs cancelled = <[jid 1 := j']> (js_jobs opened).
Proof.
  assert (Ho : in_step opened).
  { split.
    - intros st E. vm_compute in E. injection E as <-. vm_compute. reflexivity.
    - intros id j Hl. assert (E : js_jobs opened = {[jid 1 := default (job_new (jid 1) 0 (MkAgentId (MkUuid 0)) "" (Once 0) None)
        (js_jobs opened !! jid 1)]}) by (vm_compute; reflexivity).
      rewrite E in Hl. apply lookup_singleton_Some in Hl as [<- <-]. vm_compute. reflexivity. }
  assert (Hc : job_cancel (jid 1) opened = (cancelled, Ok (Some true))) by (vm_compute; reflexivity).
  destruct (job_cancel_truthful (jid 1) opened cancelled (Ok (Some true)) Ho Hc) as (j & j' & _ & _ & E & _).
  by exists j'.
Defined.
End witnesses.
