(* ===== verification/Notify.v ===== *)
(** What the gateway tells people and agents outside of a run:
    [alms-gateway/src/runs/markers.rs], the notification texts and web-chat
    forwards of [runs/notifications.rs], their events in [sse.rs], and
    [alms-tools/src/dm_filter.rs].

    A notification is an event on a session's stream and a marker message in its
    history.  A lifecycle marker is for the interface only; an error marker is
    also read back into the model's context ([ContextHistory]).  Templates
    compiled in from text files, fresh ids and clock readings are arguments. *)
From stdpp Require Import pretty.
From S2P Require Import Prelude Ident Json Run Session TextEdit LlmTypes ContextHistory EventLog EventFeed MessageBus RunManager RunControl.

(** * Texts *)

Definition JOB_SUMMARY_MAX_CHARS : nat := 4000.
Definition JOB_NAME_MAX_CHARS : nat := 60.
Definition DM_HISTORY_MAX_CHARS : nat := 4000.

(** [chars().take(n).collect()]. *)
Definition take_chars (n : nat) (s : string) : string := scat (take n (str_chars s)).

Definition truncate_chars (s : string) (max_chars : nat) : string * bool :=
  if Nat.ltb max_chars (length (str_chars s)) then (take_chars max_chars s +:+ "...", true) else (s, false).
Arguments take_chars : simpl never.
Arguments truncate_chars : simpl never.

Fixpoint map_string (f : ascii → ascii) (s : string) : string :=
  match s with EmptyString => EmptyString | String c s' => String (f c) (map_string f s') end.

(** [replace(['\n', '\r'], " ")]. *)
Definition single_line (s : string) : string :=
  map_string (λ c, if Ascii.eqb c lf || Ascii.eqb c cr then " "%char else c) s.

Definition dq : string := ch (ascii_of_N 34).
Definition quoted (s : string) : string := dq +:+ s +:+ dq.

(** * Sessions *)

Definition INTERNAL_SESSION_PREFIXES : list string := ["job_"; "subagent_"; "dm:"; "notifications:"; "episodic:"].

Definition is_internal_context_id (context_id : string) : bool :=
  existsb (λ prefix, starts_with context_id prefix) INTERNAL_SESSION_PREFIXES.

Definition is_synthetic_marker (m : Message) : bool :=
  match msg_content m with
  | Text t =>
      String.eqb (trim t) "" || bool_decide (meta_str "message_type" m = Some "reasoning")
      || bool_decide (meta_bool "synthetic" m = Some true)
  | _ => true
  end.

Section notify.
Context `{U : UuidCrate} `{CH : ChronoCrate} {Ss Rs : Type} `{DB : SqliteStore Ss} `{RS : RunStore Rs}.
Context (ts_string : Z → string).

Abbreviation SM := (SessionManager Ss).
Abbreviation RM := (RunManager Rs).

Definition find_user_facing_session (agent_id : AgentId) (m : SM) : option Session :=
  List.find (λ s, bool_decide (sess_agent_id s = agent_id) && negb (is_internal_context_id (sess_context_id s)))
    (list_all m).

(** ** Markers *)

(** [base.extend(extras)]. *)
Definition extend_members (base : list (string * json)) (extra : json) : list (string * json) :=
  match extra with
  | JObj extras => foldl (λ ms kv, member_insert kv.1 kv.2 ms) base extras
  | _ => base
  end.

Definition lifecycle_marker (now : Z) (fresh : string) (marker_type display_text : string) (extra : json) : Message := {|
  msg_id := fresh; msg_role := System; msg_content := Text display_text; msg_timestamp := now;
  msg_metadata := Some (JObj (extend_members [("synthetic", JBool true); ("type", JStr marker_type)] extra));
|}.

Definition error_marker (now : Z) (fresh : string) (marker_type display_text : string) (extra : json) : Message := {|
  msg_id := fresh; msg_role := System; msg_content := Text display_text; msg_timestamp := now;
  msg_metadata := Some (JObj (extend_members
    [("synthetic", JBool true); ("kind", JStr "error"); ("type", JStr marker_type)] extra));
|}.

(** A failed append only logs. *)
Definition persist_lifecycle_marker (now : Z) (fresh : string) (session_id : SessionId)
    (marker_type display_text : string) (extra : json) (m : SM) : SM :=
  (append_message now session_id (lifecycle_marker now fresh marker_type display_text extra) m).2.

Definition persist_error_marker (now : Z) (fresh : string) (session_id : SessionId)
    (marker_type display_text : string) (extra : json) (m : SM) : SM :=
  (append_message now session_id (error_marker now fresh marker_type display_text extra) m).2.

(** ** Events *)

Definition session_id_json (id : SessionId) : json := JStr (uuid_to_string (session_uuid id)).
Definition opt_member (k : string) (v : option json) : list (string * json) :=
  match v with Some j => [(k, j)] | None => [] end.

Definition run_created (now : Z) (run_id : RunId) (session_id : SessionId) (is_notification : bool)
    (source : option string) (queued_behind : nat) : SseEventData :=
  sse_new now "run_created"
    (JObj ([("run_id", run_id_json run_id); ("session_id", session_id_json session_id);
            ("is_notification", JBool is_notification)] ++ opt_member "source" (JStr <$> source) ++
           [("queued_behind", JNum (Z.of_nat queued_behind)); ("ts", JStr (ts_string now))])).

Definition job_completed (now : Z) (session_id : SessionId) (job_name status summary : string) (run_id : RunId)
    (job_id : JobId) (job_session_id : string) (job_session_uuid : option string) (truncated : bool) : SseEventData :=
  sse_new now "job_completed"
    (JObj ([("session_id", session_id_json session_id); ("job_name", JStr (take_chars 100 job_name));
            ("status", JStr status); ("summary", JStr (truncate_chars summary JOB_SUMMARY_MAX_CHARS).1);
            ("run_id", run_id_json run_id); ("job_id", JStr (uuid_to_string (job_uuid job_id)));
            ("job_session_id", JStr job_session_id)] ++ opt_member "job_session_uuid" (JStr <$> job_session_uuid) ++
           [("truncated", JBool truncated); ("ts", JStr (ts_string now))])).

Definition subagent_completed (now : Z) (session_id : SessionId) (tool_invocation_id : option Uuid)
    (subagent_name : option string) (status summary : string) (subagent_session_id : SessionId) : SseEventData :=
  sse_new now "subagent_completed"
    (JObj ([("session_id", session_id_json session_id)] ++
           opt_member "tool_invocation_id" (JStr ∘ uuid_to_string <$> tool_invocation_id) ++
           opt_member "subagent_name" (JStr <$> subagent_name) ++
           [("status", JStr status); ("summary", JStr (take_chars 200 summary));
            ("subagent_session_id", session_id_json subagent_session_id); ("ts", JStr (ts_string now))])).

Definition dm_conversation_ended_webchat (now : Z) (session_id : SessionId) (ended_by peer reason context_id : string)
    (suppress_banner : bool) (detail : option string) : SseEventData :=
  sse_new now "dm_conversation_ended"
    (JObj ([("session_id", session_id_json session_id); ("ended_by", JStr ended_by); ("peer", JStr peer);
            ("reason", JStr reason); ("context_id", JStr context_id); ("ts", JStr (ts_string now))] ++
           (if suppress_banner then [("suppress_banner", JBool true)] else []) ++
           opt_member "detail" (JStr <$> detail))).

Definition dm_conversation_ended (now : Z) (session_id : SessionId) (ended_by peer reason context_id : string) : SseEventData :=
  dm_conversation_ended_webchat now session_id ended_by peer reason context_id false None.

Definition dm_activity_started (now : Z) (session_id : SessionId) (peer : string) : SseEventData :=
  sse_new now "dm_activity_started"
    (JObj [("session_id", session_id_json session_id); ("peer", JStr peer); ("ts", JStr (ts_string now))]).

Definition dm_message_event (now : Z) (session_id : SessionId) (from_agent from_agent_id message : string) (ts : Z) : SseEventData :=
  sse_new now "dm_message"
    (JObj [("session_id", session_id_json session_id); ("from_agent", JStr from_agent);
           ("from_agent_id", JStr from_agent_id); ("message", JStr message); ("ts", JStr (ts_string ts))]).

(** One iteration of [dm_event_loop]. *)
Definition forward_dm_event (now : Z) (dummy : RunId) (event : DmEvent) (m : RM) : RM :=
  send_session_event now (de_session_id event) dummy
    (dm_message_event now (de_session_id event) (de_from_agent event)
       (uuid_to_string (agent_uuid (de_from_agent_id event))) (de_message event) (de_ts event)) m.

(** ** Job completion *)

Record EpisodeCloseStats := {
  cs_turns : nat; cs_dm_count : nat; cs_subagent_count : nat; cs_timed_out : bool; cs_detached : nat;
}.

(** [Episode deadline reached after {}h] with the four hours of
    [EPISODE_DEADLINE_SECS]. *)
Definition deadline_note (stats : EpisodeCloseStats) : string :=
  "[Episode deadline reached after 4h — " +:+ pretty (cs_detached stats) +:+ " pending task(s) detached]" +:+ ch lf.

(** Status, text and whether the full text can be fetched. *)
Definition job_outcome (run : option Run) : string * string * bool :=
  match run with
  | Some r =>
      match run_status r with
      | Completed => ("success", default "" (run_output r), true)
      | Failed => ("error", default "unknown error" (run_error r), false)
      | Cancelled => ("cancelled", "run was cancelled", false)
      | Queued | Running => ("unknown", "run still in progress", false)
      end
  | None => ("error", "run record not found", false)
  end.

Definition job_context_id (job_id : JobId) : string := "job_" +:+ uuid_to_string (job_uuid job_id).

Definition marker_label (status : string) : string :=
  if String.eqb status "success" then "completed" else if String.eqb status "error" then "failed" else "finished".

Definition job_marker_text (status job_name summary : string) : string :=
  "[Scheduled job " +:+ marker_label status +:+ "] " +:+ job_name +:+ ch lf +:+ summary.

Definition episode_json (stats : EpisodeCloseStats) : json :=
  JObj [("turns", JNum (Z.of_nat (cs_turns stats))); ("dm_count", JNum (Z.of_nat (cs_dm_count stats)));
        ("subagent_count", JNum (Z.of_nat (cs_subagent_count stats))); ("timed_out", JBool (cs_timed_out stats));
        ("detached", JNum (Z.of_nat (cs_detached stats)))].

(** The card: session, name, status, summary, its truncation flag and the job
    session's id, or nothing without a session to show it in. *)
Record JobCard := {
  jc_target : SessionId; jc_name : string; jc_status : string; jc_summary : string; jc_truncated : bool;
  jc_session_uuid : option string;
}.

Definition job_card (agent_id : AgentId) (job_prompt : string) (run_id : RunId) (job_id : JobId)
    (episode : option EpisodeCloseStats) (s : SM) (m : RM) : option JobCard :=
  let '(status, text, fetchable) := job_outcome (get_run m run_id) in
  let raw_summary := match episode with
                     | Some stats => if cs_timed_out stats then deadline_note stats +:+ text else text
                     | None => text
                     end in
  let '(summary, capped) := truncate_chars raw_summary JOB_SUMMARY_MAX_CHARS in
  target ← find_user_facing_session agent_id s;
  Some {| jc_target := sess_id target; jc_name := (truncate_chars (single_line job_prompt) JOB_NAME_MAX_CHARS).1;
          jc_status := status; jc_summary := summary; jc_truncated := fetchable && capped;
          jc_session_uuid := (λ sid, uuid_to_string (session_uuid sid)) <$>
                               session_id_for_context agent_id (job_context_id job_id) s |}.

Definition job_card_meta (c : JobCard) (run_id : RunId) (job_id : JobId) (episode : option EpisodeCloseStats) : json :=
  JObj ([("job_status", JStr (jc_status c)); ("run_id", run_id_json run_id);
         ("job_id", JStr (uuid_to_string (job_uuid job_id))); ("job_session_id", JStr (job_context_id job_id));
         ("job_session_uuid", match jc_session_uuid c with Some u => JStr u | None => JNull end);
         ("truncated", JBool (jc_truncated c))] ++ opt_member "episode" (episode_json <$> episode)).

Definition job_card_event (now : Z) (c : JobCard) (run_id : RunId) (job_id : JobId) : SseEventData :=
  job_completed now (jc_target c) (jc_name c) (jc_status c) (jc_summary c) run_id job_id (job_context_id job_id)
    (jc_session_uuid c) (jc_truncated c).

Definition notify_job_completion (now : Z) (fresh : string) (dummy : RunId) (agent_id : AgentId) (job_prompt : string)
    (run_id : RunId) (job_id : JobId) (episode : option EpisodeCloseStats) (s : SM) (m : RM) : SM * RM :=
  match job_card agent_id job_prompt run_id job_id episode s m with
  | None => (s, m)
  | Some c =>
      let m' := send_session_event now (jc_target c) dummy (job_card_event now c run_id job_id) m in
      (persist_lifecycle_marker now fresh (jc_target c) "job_notification"
         (job_marker_text (jc_status c) (jc_name c) (jc_summary c)) (job_card_meta c run_id job_id episode) s, m')
  end.

(** ** The end of a DM *)

Definition end_reason_text (reason : string) : string :=
  if String.eqb reason "ignored" then "no further replies"
  else if String.eqb reason "depth_exceeded" then "message limit reached"
  else if String.eqb reason "user_cancelled" then "cancelled by user"
  else if String.eqb reason "errored" then "run failed" else reason.

Definition dm_ended_text (peer_name reason : string) (detail : option string) : string :=
  "[DM conversation ended] Conversation with " +:+ peer_name +:+ " ended (" +:+ end_reason_text reason +:+
  match detail with Some d => ": " +:+ d | None => "" end +:+ ").".

Definition notify_dm_ended_to_webchat (now : Z) (fresh : string) (dummy : RunId) (agent_id : AgentId)
    (peer_name reason : string) (detail : option string) (context_id : string)
    (run_target_session_ids : list SessionId) (s : SM) (m : RM) : SM * RM :=
  match find_user_facing_session agent_id s with
  | None => (s, m)
  | Some target =>
      let persist_marker := negb (bool_decide (sess_id target ∈ run_target_session_ids)) in
      let m' := send_session_event now (sess_id target) dummy
                  (dm_conversation_ended_webchat now (sess_id target) "system" peer_name reason context_id
                     (negb persist_marker) detail) m in
      (if persist_marker then
         persist_lifecycle_marker now fresh (sess_id target) "dm_ended_notification"
           (dm_ended_text peer_name reason detail)
           (JObj ([("peer", JStr peer_name); ("reason", JStr reason); ("context_id", JStr context_id)] ++
                  opt_member "detail" (JStr <$> detail))) s
       else s, m')
  end.

Definition notify_dm_started_to_webchat (now : Z) (dummy : RunId) (agent_id : AgentId) (peer_name : string) (s : SM) (m : RM) : RM :=
  match find_user_facing_session agent_id s with
  | None => m
  | Some target => send_session_event now (sess_id target) dummy (dm_activity_started now (sess_id target) peer_name) m
  end.

(** ** An end without a run *)

Record InterruptedEndRecord := {
  ie_session_id : SessionId; ie_peer_name : string; ie_reason : ConversationEndReason; ie_context_id : string;
}.

Definition INTERRUPTED_END_MARKER_TYPE : string := "dm_end_interrupted".

Definition format_interrupted_end_marker (peer_name : string) (reason : ConversationEndReason) : string :=
  let cause := match reason with
               | UserCancelled => "the run was cancelled by the user"
               | Errored message _ => "the run failed: " +:+ message
               | Ignored | DepthExceeded => "the run did not finish"
               end in
  "Your DM conversation with agent " +:+ quoted peer_name +:+ " was cut short before it finished (" +:+ cause +:+
  "). No reply is coming, and no notification turn was run for this end, so this record is its only trace. Use read_messages(from: "
  +:+ quoted peer_name +:+ ") to review what was said.".

(** The target's session, created when it is a deterministic notification
    fallback. *)
Definition ensure_end_target (now : Z) (agent_id : AgentId) (r : InterruptedEndRecord) (s : SM) : option SM :=
  if is_ok (session_get (ie_session_id r) s) then Some s
  else if negb (starts_with (ie_context_id r) "notifications:" &&
                bool_decide (ie_session_id r = deterministic (ie_context_id r))) then None
  else match get_or_create_with_id now (ie_session_id r) agent_id (ie_context_id r) s with
       | (Ok _, s') => Some s'
       | (Err _, _) => None
       end.

Definition persist_interrupted_end_marker (now : Z) (fresh : string) (agent_id : AgentId) (r : InterruptedEndRecord) (s : SM) : SM :=
  match ensure_end_target now agent_id r s with
  | None => s
  | Some s' =>
      persist_error_marker now fresh (ie_session_id r) INTERRUPTED_END_MARKER_TYPE
        (format_interrupted_end_marker (ie_peer_name r) (ie_reason r))
        (JObj [("peer", JStr (ie_peer_name r)); ("reason", JStr (reason_to_string (ie_reason r)));
               ("error_kind", JStr INTERRUPTED_END_MARKER_TYPE)]) s'
  end.
End notify.

(** * Transcripts *)

(** [%H:%M] of an instant in nanoseconds, in UTC. *)
Definition two_digits (n : Z) : string := if (n <? 10)%Z then "0" +:+ pretty n else pretty n.
Definition hour_minute (t : Z) : string :=
  let minutes := ((t / 60000000000) mod 1440)%Z in two_digits (minutes / 60) +:+ ":" +:+ two_digits (minutes mod 60).

Definition role_name (r : Role) : string :=
  match r with User => "user" | Assistant => "assistant" | System => "system" | Tool => "tool" end.

Definition transcript_line (m : Message) : option string :=
  if is_synthetic_marker m then None
  else match msg_content m with
       | Text t => Some ("[" +:+ hour_minute (msg_timestamp m) +:+ "] " +:+
                         default (role_name (msg_role m)) (from_agent_of m) +:+ ": " +:+ t)
       | _ => None
       end.

Definition join_lines (l : list string) : string := String.concat (ch lf) l.

(** How many lines, counted from the end, fit a budget: the loop over
    [lines.iter().enumerate().rev()], [sep] being the newline after the line. *)
Fixpoint lines_that_fit (budget accumulated sep : nat) (from_end : list string) : nat :=
  match from_end with
  | [] => 0
  | line :: rest =>
      let cost := String.length line + sep in
      if Nat.ltb budget (accumulated + cost) then 0
      else S (lines_that_fit budget (accumulated + cost) 1 rest)
  end.

Definition format_dm_conversation_history (messages : list Message) : string :=
  let lines := omap transcript_line messages in
  match lines with
  | [] => ""
  | _ =>
      let full := join_lines lines in
      if Nat.leb (String.length full) DM_HISTORY_MAX_CHARS then full
      else
        let included_start := length lines - lines_that_fit (DM_HISTORY_MAX_CHARS - 60) 0 0 (rev lines) in
        "[" +:+ pretty included_start +:+ " earlier message(s) omitted]" +:+ ch lf +:+
        join_lines (drop included_start lines)
  end.

Section templates.
Context (dm_ended_with_history dm_ended_no_history subagent_completed_template subagent_cancelled_template : string).
Context `{U : UuidCrate}.

Definition end_sentence (from_name : string) (reason : ConversationEndReason) (self_notification : bool) : string :=
  if self_notification then
    match reason with
    | Ignored => "Your DM conversation with agent " +:+ quoted from_name +:+ " has ended (you chose not to reply)."
    | DepthExceeded => "Your DM conversation with agent " +:+ quoted from_name +:+
                       " ended because the maximum message depth was reached."
    | UserCancelled => "Your DM conversation was cancelled by the user."
    | Errored message _ => "Your DM conversation with agent " +:+ quoted from_name +:+
                           " ended because the run failed: " +:+ message
    end
  else
    match reason with
    | Ignored => "Agent " +:+ quoted from_name +:+ " ended the conversation (chose not to reply)."
    | DepthExceeded => "The conversation with agent " +:+ quoted from_name +:+
                       " was terminated because the maximum message depth was reached."
    | UserCancelled => "The DM conversation was cancelled by the user."
    | Errored message _ => "The conversation with agent " +:+ quoted from_name +:+
                           " ended because the run failed: " +:+ message
    end.

Definition format_dm_ended_notification (from_name : string) (reason : ConversationEndReason)
    (conversation_history : option string) (self_notification : bool) : string :=
  let reason_text := end_sentence from_name reason self_notification in
  let no_history := str_replace "{from}" from_name (str_replace "{reason}" reason_text dm_ended_no_history) in
  match conversation_history with
  | Some history => if String.eqb history "" then no_history
                    else str_replace "{history}" history (str_replace "{reason}" reason_text dm_ended_with_history)
  | None => no_history
  end.

(** ** Subagents *)

Inductive TaskStatus := TaskPending | TaskRunning | TaskCompleted | TaskFailed | TaskCancelled.

Record SubagentDone := {
  sc_task_id : Uuid;
  sc_subagent_name : option string;
  sc_status : TaskStatus;
  sc_cancelled_directly : bool;
  sc_summary : string;
  sc_parent_session_id : SessionId;
  sc_parent_agent_id : AgentId;
  sc_subagent_session_id : SessionId;
  sc_task_description : option string;
  sc_tool_count : option Z;
  sc_duration_ms : option Z;
  sc_token_usage : option TokenUsage;
  sc_parent_tool_invocation_id : option Uuid;
}.

Definition format_completion_notification (c : SubagentDone) : string :=
  let status := match sc_status c with
                | TaskCompleted => "completed" | TaskFailed => "failed" | TaskCancelled => "cancelled" | _ => "finished"
                end in
  let '(label, follow_up) :=
    match sc_subagent_name c with
    | Some name => (quoted name, "Use read_subagent_session(" +:+ quoted name +:+ ") for the full conversation history.")
    | None => ("(task " +:+ uuid_to_string (sc_task_id c) +:+ ")",
               "Use read_subagent_session(session_id=" +:+ quoted (uuid_to_string (session_uuid (sc_subagent_session_id c))) +:+
               ") for the full conversation history.")
    end in
  str_replace "{follow_up}" follow_up
    (str_replace "{summary}" (sc_summary c)
      (str_replace "{status}" status (str_replace "{label}" label subagent_completed_template))).

Definition format_directly_cancelled_notification (c : SubagentDone) : string :=
  let label := match sc_subagent_name c with
               | Some name => quoted name
               | None => "(task " +:+ uuid_to_string (sc_task_id c) +:+ ")"
               end in
  str_replace "{session_id}" (uuid_to_string (session_uuid (sc_subagent_session_id c)))
    (str_replace "{label}" label subagent_cancelled_template).

Definition format_cancelled_subagent_record (c : SubagentDone) : string :=
  let session_id := uuid_to_string (session_uuid (sc_subagent_session_id c)) in
  let label := match sc_subagent_name c with
               | Some name => "Background subagent " +:+ quoted name
               | None => "An unnamed background subagent"
               end in
  label +:+ " (session_id: " +:+ session_id +:+ ") was cancelled before it finished and returned no result. " +:+
  "Its session keeps whatever it did: read_session(session_id: " +:+ quoted session_id +:+ ").".

Definition status_str (st : TaskStatus) : string :=
  match st with TaskFailed => "fail" | TaskCancelled => "cancelled" | _ => "done" end.

Definition usage_json (u : TokenUsage) : json :=
  JObj ([("prompt_tokens", JNum (prompt_tokens u)); ("completion_tokens", JNum (completion_tokens u))] ++
        opt_member "reasoning_tokens" (JNum <$> reasoning_tokens u) ++
        opt_member "cache_creation_input_tokens" (JNum <$> cache_creation_input_tokens u) ++
        opt_member "cache_read_input_tokens" (JNum <$> cache_read_input_tokens u)).

(** Name, label and metadata of the marker a finished subagent leaves. *)
Definition completion_marker_text (c : SubagentDone) : string :=
  "Subagent '" +:+ default "subagent" (sc_subagent_name c) +:+ "' " +:+
  match sc_status c with TaskFailed => "failed" | TaskCancelled => "cancelled" | _ => "completed" end +:+ ".".

Definition completion_marker_meta (c : SubagentDone) : json :=
  JObj ([("subagent_name", JStr (default "subagent" (sc_subagent_name c))); ("status", JStr (status_str (sc_status c)));
         ("session_id", JStr (uuid_to_string (session_uuid (sc_subagent_session_id c)))); ("summary", JStr (sc_summary c))] ++
        opt_member "tool_invocation_id" (JStr ∘ uuid_to_string <$> sc_parent_tool_invocation_id c) ++
        opt_member "task_description" (JStr <$> sc_task_description c) ++
        opt_member "tool_count" (JNum <$> sc_tool_count c) ++ opt_member "duration_ms" (JNum <$> sc_duration_ms c) ++
        opt_member "token_usage" (usage_json <$> sc_token_usage c)).

Definition SUBAGENT_CANCELLED_MARKER_TYPE : string := "subagent_cancelled".

Definition cancelled_record_meta (c : SubagentDone) : json :=
  JObj [("task_id", JStr (uuid_to_string (sc_task_id c)));
        ("subagent_name", match sc_subagent_name c with Some n => JStr n | None => JNull end);
        ("subagent_session_id", JStr (uuid_to_string (session_uuid (sc_subagent_session_id c))));
        ("status", JStr "cancelled")].
End templates.

(** * Facts *)

Lemma str_chars_scat cs : Forall real_char cs → str_chars (scat cs) = cs.
Proof. intros H. unfold str_chars. by rewrite utf8_chars_scat. Qed.

Lemma dots_real : Forall real_char [".";".";"."].
Proof. by repeat constructor. Qed.

(** Truncating twice is truncating once. *)
Lemma truncate_chars_idem s n : (truncate_chars (truncate_chars s n).1 n).1 = (truncate_chars s n).1.
Proof.
  unfold truncate_chars. destruct (Nat.ltb_spec n (length (str_chars s))) as [Hlt|Hge]; cbn [fst].
  2: { by rewrite (proj2 (Nat.ltb_ge _ _) Hge). }
  assert (∃ cs, utf8_chars s = Some cs) as [cs E]
    by (unfold str_chars in Hlt; destruct (utf8_chars s); [by eexists|simpl in Hlt; lia]).
  destruct (utf8_chars_spec s cs E) as [_ Hr].
  assert (Hcs : str_chars s = cs) by (unfold str_chars; by rewrite E). rewrite Hcs in Hlt. unfold take_chars. rewrite !Hcs.
  assert (Hreal : Forall real_char (take n cs ++ [".";".";"."]))
    by (apply Forall_app; split; [by apply Forall_take|apply dots_real]).
  assert (Eq : scat (take n cs) +:+ "..." = scat (take n cs ++ [".";".";"."])) by (by rewrite scat_app).
  rewrite Eq, str_chars_scat by done. rewrite length_app, length_take. cbn [length].
  rewrite (proj2 (Nat.ltb_lt _ _)) by lia. cbn [fst].
  rewrite take_app_le, take_ge by (rewrite length_take; lia). by rewrite <- Eq.
Qed.

Lemma high_not_newline a : byte_in 0 127 a = false → Ascii.eqb a lf || Ascii.eqb a cr = false.
Proof.
  intros H. apply orb_false_iff. split; apply Ascii.eqb_neq; intros ->; done.
Qed.

Lemma cont_high a : cont a = true → byte_in 0 127 a = false.
Proof.
  unfold cont, byte_in. rewrite andb_true_iff, andb_false_iff, !N.leb_le, !N.leb_gt. lia.
Qed.

Lemma single_line_app a b : single_line (a +:+ b) = single_line a +:+ single_line b.
Proof. unfold single_line. induction a as [|c a IH]; [done|]. simpl. by rewrite IH. Qed.

Lemma single_line_newline s : char_in lf (single_line s) = false.
Proof.
  unfold single_line. induction s as [|c s IH]; [done|]. simpl.
  destruct (Ascii.eqb c lf) eqn:E1; [done|]. simpl. destruct (Ascii.eqb c cr); [done|]. by rewrite E1.
Qed.

Lemma single_line_cont t : forall_chars cont t = true → single_line t = t.
Proof.
  unfold single_line. induction t as [|c t IH]; simpl; [done|]. intros [Hc Ht]%andb_true_iff.
  rewrite high_not_newline by (by apply cont_high). by rewrite IH.
Qed.

(** A character stays one character, a space at worst. *)
Lemma single_line_char c : real_char c → real_char (single_line c).
Proof.
  intros Hc. destruct (real_char_shape c Hc) as (a & t & -> & _ & Ht). destruct (byte_in 0 127 a) eqn:Ea.
  - unfold real_char in Hc. simpl in Hc. rewrite Ea in Hc. apply fmap_Some in Hc as (ct & Hct & [= -> <-]).
    unfold single_line. simpl. destruct (_ || _); [done|]. unfold real_char. simpl. by rewrite Ea.
  - assert (single_line (String a t) = String a t) as ->; [|done].
    unfold single_line. simpl. rewrite high_not_newline by done. f_equal. by apply single_line_cont.
Qed.

Lemma single_line_chars s cs : utf8_chars s = Some cs → utf8_chars (single_line s) = Some (map single_line cs).
Proof.
  intros H. destruct (utf8_chars_spec s cs H) as [<- Hr].
  assert (single_line (scat cs) = scat (map single_line cs)) as ->.
  { clear. induction cs as [|c cs IH]; [done|]. cbn [map]. by rewrite !scat_cons, single_line_app, IH. }
  apply utf8_chars_scat. apply Forall_fmap. eapply Forall_impl; [exact Hr|]. apply single_line_char.
Qed.


Lemma split_once_four k a b c d s :
  char_in k a = false → char_in k b = false → char_in k c = false → char_in k d = false →
  split_once k (a +:+ b +:+ c +:+ d +:+ ch k +:+ s) = Some (a +:+ b +:+ c +:+ d, s).
Proof.
  intros Ha Hb Hc Hd. assert (E : a +:+ b +:+ c +:+ d +:+ ch k +:+ s = (a +:+ b +:+ c +:+ d) +:+ String k s)
    by (by rewrite !string_app_assoc).
  rewrite E. apply split_once_app. by rewrite !char_in_app, Ha, Hb, Hc, Hd.
Qed.

(** The label of a job: one line, and short enough for the event's own cap. *)
Lemma job_name_label prompt :
  valid_utf8 prompt = true →
  let name := (truncate_chars (single_line prompt) JOB_NAME_MAX_CHARS).1 in
  take_chars 100 name = name ∧ char_in lf name = false.
Proof.
  intros [cs Hcs]%bool_decide_eq_true. pose proof (single_line_chars _ _ Hcs) as H.
  set (l := map single_line cs) in *. destruct (utf8_chars_spec _ _ H) as [Hs Hr].
  pose proof (single_line_newline prompt) as Hn.
  assert (Hl : str_chars (single_line prompt) = l) by (unfold str_chars; by rewrite H).
  unfold truncate_chars. rewrite Hl. assert (Ht : take_chars JOB_NAME_MAX_CHARS (single_line prompt) = scat (take JOB_NAME_MAX_CHARS l))
    by (unfold take_chars; by rewrite Hl). rewrite Ht.
  destruct (Nat.ltb_spec JOB_NAME_MAX_CHARS (length l)) as [Hlt|Hge]; cbn [fst].
  - assert (Eq : scat (take JOB_NAME_MAX_CHARS l) +:+ "..." = scat (take JOB_NAME_MAX_CHARS l ++ [".";".";"."])) by (by rewrite scat_app).
    split.
    + rewrite Eq. unfold take_chars. rewrite !str_chars_scat by (apply Forall_app; split; [by apply Forall_take|apply dots_real]).
      rewrite (take_ge (take _ l ++ _) 100); [done|]. rewrite length_app, length_take. cbn [length]. unfold JOB_NAME_MAX_CHARS. lia.
    + rewrite char_in_app. cbn [char_in]. rewrite orb_false_r.
      rewrite <- Hs, <- (take_drop JOB_NAME_MAX_CHARS l), scat_app, char_in_app in Hn. by apply orb_false_iff in Hn as [-> _].
  - split; [|done]. unfold take_chars. rewrite Hl.
    rewrite take_ge by (unfold JOB_NAME_MAX_CHARS in Hge; lia). done.
Qed.

Section facts.
Context `{U : UuidCrate} `{CH : ChronoCrate} {Ss Rs : Type} `{DB : SqliteStore Ss} `{RS : RunStore Rs}.
Context (ts_string : Z → string).

Lemma job_completed_members now sid name status summary rid jid jsid juuid truncated :
  let e := sse_data (job_completed ts_string now sid name status summary rid jid jsid juuid truncated) in
  json_get "summary" e = Some (JStr (truncate_chars summary JOB_SUMMARY_MAX_CHARS).1) ∧
  json_get "job_name" e = Some (JStr (take_chars 100 name)).
Proof. split; reflexivity. Qed.

(** A finished job looks the same live and after a reload.  The summary and
    the name in the live event are byte for byte those of the stored marker; the
    marker's text splits at its first line break into the label with the name
    and the whole summary, whatever the prompt contains; and "more to fetch" is
    claimed only for a completed run whose text was cut. *)
Theorem job_card_live_equals_stored now agent_id prompt run_id job_id episode (s : SessionManager Ss) (m : RunManager Rs) c :
  valid_utf8 prompt = true → job_card agent_id prompt run_id job_id episode s m = Some c →
  let event := sse_data (job_card_event ts_string now c run_id job_id) in
  json_get "summary" event = Some (JStr (jc_summary c)) ∧ json_get "job_name" event = Some (JStr (jc_name c)) ∧
  split_once lf (job_marker_text (jc_status c) (jc_name c) (jc_summary c)) =
    Some ("[Scheduled job " +:+ marker_label (jc_status c) +:+ "] " +:+ jc_name c, jc_summary c) ∧
  (jc_truncated c = true → ∃ r, get_run m run_id = Some r ∧ run_status r = Completed ∧ jc_status c = "success").
Proof.
  intros Hv. unfold job_card. destruct (job_outcome _) as [[status text] fetchable] eqn:Eo.
  set (raw := match episode with Some _ => _ | None => _ end).
  pose proof (truncate_chars_idem raw JOB_SUMMARY_MAX_CHARS) as Hidem.
  destruct (truncate_chars raw JOB_SUMMARY_MAX_CHARS) as [summary capped]. cbn [fst] in Hidem. clear raw.
  destruct (find_user_facing_session agent_id s) as [target|]; [|done]. intros Hc. apply (inj Some) in Hc as <-.
  destruct (job_name_label prompt Hv) as [Hname Hline]. cbv zeta. unfold job_card_event.
  cbn [jc_target jc_name jc_status jc_summary jc_truncated jc_session_uuid].
  set (name := (truncate_chars (single_line prompt) JOB_NAME_MAX_CHARS).1) in *.
  destruct (job_completed_members now (sess_id target) name status summary run_id job_id (job_context_id job_id)
    ((λ sid, uuid_to_string (session_uuid sid)) <$> session_id_for_context agent_id (job_context_id job_id) s)
    (fetchable && capped)) as [-> ->].
  rewrite Hidem, Hname. split_and!; [done|done| |].
  - apply split_once_four; [done| |done|done]. unfold marker_label. repeat case_match; done.
  - intros [Hf _]%andb_true_iff. unfold job_outcome in Eo.
    destruct (get_run m run_id) as [r|]; [|congruence]. exists r. split; [done|].
    destruct (run_status r); injection Eo as <- _ <-; done.
Qed.

End facts.

(** ** Markers and who reads them *)

Section marker_facts.
Context `{U : UuidCrate} `{CH : ChronoCrate} {Ss : Type} `{DB : SqliteStore Ss}.

Lemma member_extend ms extra k :
  match extra with JObj extras => Forall (λ kv, kv.1 ≠ k) extras | _ => True end →
  member k (extend_members ms extra) = member k ms.
Proof.
  destruct extra as [| | | | |extras]; try done. simpl. revert ms. induction extras as [|[k' v] l IH]; intros ms; [done|].
  intros [Hk Hl]%Forall_cons. cbn. rewrite IH by done. by apply member_insert_ne.
Qed.

Lemma error_marker_facts now fresh ty text extra :
  match extra with JObj extras => Forall (λ kv, kv.1 ∉ ["synthetic"; "kind"; "type"; "message_type"]) extras | _ => True end →
  let m := error_marker now fresh ty text extra in
  is_error_marker m = true ∧ is_stripped_display_marker m = false ∧ is_synthetic_marker m = true ∧
  is_legacy_lifecycle_error_marker m = String.eqb ty "run_boundary".
Proof.
  intros Hx m. assert (Hmem : ∀ k, k ∈ ["synthetic"; "kind"; "type"; "message_type"] →
    metadata_get k m = member k [("synthetic", JBool true); ("kind", JStr "error"); ("type", JStr ty)]).
  { intros k Hk. unfold metadata_get, m. cbn. rewrite member_extend; [done|]. destruct extra as [| | | | |extras]; try done.
    eapply Forall_impl; [exact Hx|]. intros [k' v]. cbn. set_solver. }
  assert (He : is_error_marker m = true)
    by (unfold is_error_marker, meta_str; rewrite Hmem by set_solver; done).
  split_and!; [done| | |].
  - unfold is_stripped_display_marker. by rewrite He, andb_false_r.
  - unfold is_synthetic_marker, meta_str, meta_bool. rewrite !Hmem by set_solver. unfold m. cbn. by rewrite orb_true_r.
  - unfold is_legacy_lifecycle_error_marker, meta_str. rewrite He, Hmem by set_solver. cbn.
    destruct (String.eqb_spec ty "run_boundary") as [->|Hne]; [done|]. apply bool_decide_eq_false. congruence.
Qed.

Lemma lifecycle_marker_facts now fresh ty text extra :
  match extra with JObj extras => Forall (λ kv, kv.1 ∉ ["synthetic"; "kind"; "message_type"]) extras | _ => True end →
  let m := lifecycle_marker now fresh ty text extra in
  is_error_marker m = false ∧ is_stripped_display_marker m = true ∧ is_synthetic_marker m = true.
Proof.
  intros Hx m. assert (Hmem : ∀ k, k ∈ ["synthetic"; "kind"; "message_type"] →
    metadata_get k m = member k [("synthetic", JBool true); ("type", JStr ty)]).
  { intros k Hk. unfold metadata_get, m. cbn. rewrite member_extend; [done|]. destruct extra as [| | | | |extras]; try done.
    eapply Forall_impl; [exact Hx|]. intros [k' v]. cbn. set_solver. }
  assert (He : is_error_marker m = false)
    by (unfold is_error_marker, meta_str; rewrite Hmem by set_solver; done).
  split_and!; [done| |].
  - unfold is_stripped_display_marker, meta_bool. rewrite He, Hmem by set_solver. done.
  - unfold is_synthetic_marker, meta_str, meta_bool. rewrite !Hmem by set_solver. unfold m. cbn. by rewrite orb_true_r.
Qed.

Lemma append_message_writes now id msg (s : SessionManager Ss) h :
  Session.history s !! id = Some h → Session.history (append_message now id msg s).2 = <[id := h ++ [msg]]> (Session.history s).
Proof.
  intros Hh. unfold append_message. rewrite Hh.
  assert (E : Session.history (set_history <[id := h ++ [msg]]> (persist (save_message id msg) s)) = <[id := h ++ [msg]]> (Session.history s)).
  { cbn. by destruct (persist_fields (save_message id msg) s) as (_ & _ & -> & _). }
  repeat case_match; try exact E. cbn [snd].
  match goal with |- Session.history (persist ?w ?m) = _ => destruct (persist_fields w m) as (_ & _ & -> & _) end. exact E.
Qed.

Lemma append_message_missing now id msg (s : SessionManager Ss) :
  Session.history s !! id = None → (append_message now id msg s).2 = s.
Proof. unfold append_message. by intros ->. Qed.

Lemma session_get_ok id (s : SessionManager Ss) : index_ok s → is_ok (session_get id s) = true ↔ is_Some (Session.history s !! id).
Proof.
  intros [_ H2 H3 _ _]. rewrite H3. unfold session_get. destruct (session_by_id s !! id) as [k|] eqn:E; cbn.
  - destruct (H2 _ _ E) as (x & -> & _). split; by eauto.
  - split; [done|by intros []].
Qed.

Lemma with_id_registers now id a ctx (s : SessionManager Ss) x s' :
  index_ok s → get_or_create_with_id now id a ctx s = (Ok x, s') →
  is_Some (Session.history s' !! id) ∧ ∀ j, j ≠ id → Session.history s' !! j = Session.history s !! j.
Proof.
  intros Hok Hc. pose proof (index_ok_with_id now id a ctx s Hok) as Hok'. rewrite Hc in Hok'. cbn [snd] in Hok'.
  rewrite (ix_history _ Hok'). unfold get_or_create_with_id in Hc. destruct (sessions s !! (a, ctx)) as [y|] eqn:E.
  - case_decide as Hne; [done|]. injection Hc as _ <-. split; [|done]. subst id.
    destruct (ix_session _ Hok _ _ E) as [_ ->]. eauto.
  - destruct (match session_by_id s !! id with Some _ => _ | None => _ end); [done|].
    pose proof (try_persist_fields (save_session (session_new now id a ctx)) s) as (E1 & E2 & E3 & _).
    destruct (try_persist _ s) as [[[]|e] s1]; cbn [snd] in *; [|done]. injection Hc as _ <-. cbn.
    split; [rewrite lookup_insert_eq; eauto|]. intros j Hj. rewrite E3.
    destruct (Session.history s !! id); simpl_lookup.
Qed.

(** An end that gets no run still reaches the agent.  Storing the record of an
    interrupted end adds one message to the session the run would have used: the
    next context shows it to the model as "[Error]" with the whole sentence, no
    filter of the history drops it, and it stays out of the transcripts of the
    conversation.  Nothing is written exactly when that session is gone and is
    not the agent's notification session, or when that one cannot be created. *)
Theorem interrupted_end_reaches_model json_to_string path_exists root now fresh agent_id r (s : SessionManager Ss) :
  index_ok s →
  let s' := persist_interrupted_end_marker now fresh agent_id r s in
  match ensure_end_target now agent_id r s with
  | Some s1 => ∃ h m, Session.history s1 !! ie_session_id r = Some h ∧ Session.history s' = <[ie_session_id r := h ++ [m]]> (Session.history s1) ∧
      (∀ j, j ≠ ie_session_id r → Session.history s1 !! j = Session.history s !! j) ∧
      session_msg_to_llm json_to_string path_exists m root =
        llm_user ("[Error] " +:+ format_interrupted_end_marker (ie_peer_name r) (ie_reason r)) ∧
      is_stripped_display_marker m = false ∧ is_legacy_lifecycle_error_marker m = false ∧ is_synthetic_marker m = true
  | None => s' = s ∧ Session.history s !! ie_session_id r = None ∧
      (starts_with (ie_context_id r) "notifications:" = true → ie_session_id r = deterministic (ie_context_id r) →
       is_ok (get_or_create_with_id now (ie_session_id r) agent_id (ie_context_id r) s).1 = false)
  end.
Proof.
  intros Hok s'. unfold s', persist_interrupted_end_marker, ensure_end_target.
  pose proof (session_get_ok (ie_session_id r) s Hok) as Hget.
  assert (Hwrite : ∀ s1 : SessionManager Ss, is_Some (Session.history s1 !! ie_session_id r) →
    (∀ j, j ≠ ie_session_id r → Session.history s1 !! j = Session.history s !! j) → ∃ h m, Session.history s1 !! ie_session_id r = Some h ∧
    Session.history (persist_error_marker now fresh (ie_session_id r) INTERRUPTED_END_MARKER_TYPE
      (format_interrupted_end_marker (ie_peer_name r) (ie_reason r))
      (JObj [("peer", JStr (ie_peer_name r)); ("reason", JStr (reason_to_string (ie_reason r)));
             ("error_kind", JStr INTERRUPTED_END_MARKER_TYPE)]) s1) = <[ie_session_id r := h ++ [m]]> (Session.history s1) ∧
    (∀ j, j ≠ ie_session_id r → Session.history s1 !! j = Session.history s !! j) ∧
    session_msg_to_llm json_to_string path_exists m root =
      llm_user ("[Error] " +:+ format_interrupted_end_marker (ie_peer_name r) (ie_reason r)) ∧
    is_stripped_display_marker m = false ∧ is_legacy_lifecycle_error_marker m = false ∧ is_synthetic_marker m = true).
  { intros s1 [h Hh] Hj. unfold persist_error_marker. eexists h, _. split; [done|].
    split; [by apply append_message_writes|]. split; [done|].
    match goal with |- context [error_marker ?n ?f ?ty ?t ?x] =>
      destruct (error_marker_facts n f ty t x) as (He & Hs & Hy & Hl); [apply (bool_decide_unpack _); vm_compute; exact I|] end.
    split_and!; [|done|by rewrite Hl|done]. unfold session_msg_to_llm. by rewrite He. }
  destruct (is_ok (session_get (ie_session_id r) s)) eqn:Eget; [apply Hwrite; [by apply Hget|done]|].
  assert (Hnone : Session.history s !! ie_session_id r = None).
  { apply eq_None_not_Some. intros Hs. apply Hget in Hs. congruence. }
  destruct (negb _) eqn:Ef.
  - split_and!; [done|done|]. intros H1 H2. apply negb_true_iff, andb_false_iff in Ef as [Ef|Ef%bool_decide_eq_false]; congruence.
  - destruct (get_or_create_with_id now _ _ _ s) as [[x|e] s1] eqn:Ec; [|done].
    destruct (with_id_registers _ _ _ _ _ _ _ Hok Ec) as [H1 H2]. by apply Hwrite.
Qed.
End marker_facts.

(** ** Transcripts *)

(** The bytes of lines joined by line breaks, in any order. *)
Definition joined_size (l : list string) : nat := sum_list_with String.length l + (length l - 1).

Lemma join_lines_length l : String.length (join_lines l) = joined_size l.
Proof.
  unfold join_lines, joined_size. induction l as [|x l IH]; [done|]. destruct l as [|y l]; [simpl; lia|].
  change (String.concat (ch lf) (x :: y :: l)) with (x +:+ ch lf +:+ String.concat (ch lf) (y :: l)).
  rewrite !str_length_app, IH. cbn [sum_list_with length String.length ch]. lia.
Qed.

Lemma joined_size_perm l l' : l ≡ₚ l' → joined_size l = joined_size l'.
Proof. intros Hp. unfold joined_size. by rewrite (Permutation_length Hp), Hp. Qed.

Lemma lines_that_fit_spec B l : ∀ acc sep, sep ≤ 1 → acc ≤ B →
  let n := lines_that_fit B acc sep l in
  n ≤ length l ∧ acc + sum_list_with String.length (take n l) + (n - 1) + (if decide (n = 0) then 0 else sep) ≤ B ∧
  (n < length l → B < acc + sum_list_with String.length (take (S n) l) + n + sep).
Proof.
  induction l as [|x l IH]; intros acc sep Hsep Hacc; cbn [lines_that_fit].
  { rewrite decide_True by done. cbn. lia. }
  destruct (Nat.ltb_spec B (acc + (String.length x + sep))) as [Hlt|Hge].
  - rewrite decide_True by done. cbn. destruct l; cbn; lia.
  - destruct (IH (acc + (String.length x + sep)) 1 ltac:(done) ltac:(lia)) as (H1 & H2 & H3).
    set (n := lines_that_fit B _ 1 l) in *. rewrite decide_False by lia. cbn [take length sum_list_with].
    destruct n as [|n]; cbn [take sum_list_with] in *; [rewrite decide_True in H2 by done|rewrite decide_False in H2 by done].
    + split_and!; [lia|lia|]. intros Hl. specialize (H3 ltac:(lia)). lia.
    + split_and!; [lia|lia|]. intros Hl. specialize (H3 ltac:(lia)). lia.
Qed.

(** The transcript a notification carries is the end of the conversation.  It
    is all the readable lines when they fit 4000 bytes; otherwise it is a note of
    how many lines were left out and the rest, which fit 3940 bytes, while one
    line more would not.  So a last message that alone is longer hides the whole
    conversation: nothing but the note remains. *)
Theorem dm_transcript_tail messages :
  let lines := omap transcript_line messages in
  let out := format_dm_conversation_history messages in
  if decide (joined_size lines ≤ DM_HISTORY_MAX_CHARS) then out = join_lines lines
  else ∃ k, out = "[" +:+ pretty k +:+ " earlier message(s) omitted]" +:+ ch lf +:+ join_lines (drop k lines) ∧
    0 < k ≤ length lines ∧ joined_size (drop k lines) ≤ 3940 ∧ 3940 < joined_size (drop (k - 1) lines) ∧
    (∀ lst, last lines = Some lst → 3940 < String.length lst → k = length lines ∧ join_lines (drop k lines) = "").
Proof.
  intros lines out. unfold out, format_dm_conversation_history. fold lines.
  assert (Hout : match lines with [] => "" | _ :: _ =>
      if Nat.leb (String.length (join_lines lines)) DM_HISTORY_MAX_CHARS then join_lines lines
      else "[" +:+ pretty (length lines - lines_that_fit (DM_HISTORY_MAX_CHARS - 60) 0 0 (rev lines))
           +:+ " earlier message(s) omitted]" +:+ ch lf +:+
           join_lines (drop (length lines - lines_that_fit (DM_HISTORY_MAX_CHARS - 60) 0 0 (rev lines)) lines) end =
    if Nat.leb (String.length (join_lines lines)) DM_HISTORY_MAX_CHARS then join_lines lines
      else "[" +:+ pretty (length lines - lines_that_fit (DM_HISTORY_MAX_CHARS - 60) 0 0 (rev lines))
           +:+ " earlier message(s) omitted]" +:+ ch lf +:+
           join_lines (drop (length lines - lines_that_fit (DM_HISTORY_MAX_CHARS - 60) 0 0 (rev lines)) lines)) by (by destruct lines).
  rewrite Hout. clear Hout. rewrite join_lines_length. case_decide as Hfit.
  { by rewrite (proj2 (Nat.leb_le _ _) Hfit). }
  rewrite (proj2 (Nat.leb_gt _ _)) by lia.
  change (DM_HISTORY_MAX_CHARS - 60) with 3940.
  assert (H4000 : DM_HISTORY_MAX_CHARS = 4000) by done. rewrite H4000 in Hfit. clear H4000.
  destruct (lines_that_fit_spec 3940 (rev lines) 0 0 ltac:(lia) ltac:(lia)) as (Hn & Hle & Hgt).
  set (n := lines_that_fit 3940 0 0 (rev lines)) in *. rewrite length_rev in Hn, Hgt.
  assert (Hdrop : ∀ k, k ≤ length lines → joined_size (drop (length lines - k) lines) = joined_size (take k (rev lines))).
  { intros k Hk. apply joined_size_perm. rewrite List.firstn_rev. apply Permutation_rev. }
  assert (Hlen : ∀ k, k ≤ length lines → length (take k (rev lines)) = k)
    by (intros k Hk; rewrite length_take, length_rev; lia).
  assert (Hlt : n < length lines).
  { destruct (decide (n = length lines)) as [E|]; [|lia]. exfalso. apply Hfit.
    rewrite (joined_size_perm _ _ (Permutation_rev lines)). rewrite take_ge in Hle by (rewrite length_rev; lia).
    unfold joined_size. rewrite length_rev. destruct (decide (n = 0)); lia. }
  specialize (Hgt Hlt).
  exists (length lines - n). split_and!; [done|lia|lia| | |].
  - rewrite Hdrop by lia. unfold joined_size. rewrite Hlen by lia. destruct (decide (n = 0)); lia.
  - replace (length lines - n - 1) with (length lines - S n) by lia. rewrite Hdrop by lia.
    unfold joined_size. rewrite Hlen by lia. lia.
  - intros lst Hlast Hlong. assert (n = 0) as ->.
    { unfold n. apply last_Some in Hlast as [l0 E]. rewrite E, rev_app_distr. simpl rev. simpl app.
      unfold lines_that_fit. by rewrite (proj2 (Nat.ltb_lt _ _)) by lia. }
    rewrite Nat.sub_0_r. split; [done|]. by rewrite drop_all.
Qed.

(** * Witnesses *)

Section witnesses.
Import SimpleUuid SimpleChrono NullStore.

Local Instance null_runs : RunStore unit := {|
  run_rows _ := ∅; save_run _ _ := Ok tt; save_run_with_initial_message _ _ _ := Ok (0%Z, tt);
  mark_stale_runs_failed _ := Ok (0, tt); load_all_runs _ := Ok [];
|}.

Local Definition agent : AgentId := MkAgentId (MkUuid 1).
Local Definition chat : SessionId := MkSessionId (MkUuid 5).
Local Definition run1 : RunId := MkRunId (MkUuid 9).
Local Definition job1 : JobId := MkJobId (MkUuid 8).
Local Definition with_chat : SessionManager unit :=
  (Session.get_or_create 1 chat agent "web" (session_manager_new session_config_default)).2.
Local Definition finished_run : Run :=
  (run_transition 4 (run_transition 3 (for_job run1 2 chat agent "check" job1) (Start None)).1
    (Complete "all good" {| prompt_tokens := 1; completion_tokens := 1; reasoning_tokens := None;
       cache_creation_input_tokens := None; cache_read_input_tokens := None |})).1.
Local Definition one_run : RunManager unit := put_runs {[run1 := finished_run]} None manager_new.
Local Definition prompt : string := "check" +:+ ch lf +:+ "the mail".

Lemma job_card_live_equals_stored_witness :
  ∃ c, job_card agent prompt run1 job1 None with_chat one_run = Some c ∧
    split_once lf (job_marker_text (jc_status c) (jc_name c) (jc_summary c)) =
      Some ("[Scheduled job completed] check the mail", "all good").
Proof.
  eexists. split; [vm_compute; reflexivity|].
  match goal with |- split_once lf (job_marker_text (jc_status ?c) _ _) = _ =>
    destruct (job_card_live_equals_stored (λ _, "") 5 agent prompt run1 job1 None with_chat one_run c
      ltac:(vm_compute; reflexivity) ltac:(vm_compute; reflexivity)) as (_ & _ & E & _) end.
  exact E.
Defined.

(** The peer's own chat is gone, so the end goes to its notification session. *)
Local Definition record_of_end : InterruptedEndRecord :=
  {| ie_session_id := deterministic "notifications:bob"; ie_peer_name := "alice";
     ie_reason := UserCancelled; ie_context_id := "notifications:bob" |}.

Local Definition in_chat : InterruptedEndRecord :=
  {| ie_session_id := chat; ie_peer_name := "alice"; ie_reason := UserCancelled; ie_context_id := "web" |}.
Local Definition nowhere : SessionManager unit := session_manager_new session_config_default.

Lemma interrupted_end_reaches_model_witness :
  persist_interrupted_end_marker 7 "m" agent in_chat nowhere = nowhere ∧
  is_ok (session_get (ie_session_id record_of_end) (persist_interrupted_end_marker 7 "m" agent record_of_end with_chat)) = true.
Proof.
  split; [|vm_compute; reflexivity].
  pose proof (interrupted_end_reaches_model (λ _, "") (λ _, true) None 7 "m" agent in_chat nowhere (index_ok_new _)) as H.
  assert (E : ensure_end_target 7 agent in_chat nowhere = None) by (vm_compute; reflexivity).
  cbv zeta in H. rewrite E in H. apply H.
Defined.
End witnesses.
