(* ===== verification/JobEngine.v ===== *)
(** The engine that drives scheduled jobs: the fire loop, admission, episode
    closing and re-arming of [alms-gateway/src/runs/notifications.rs], the job
    handlers of [jobs.rs], the start-up plan of [server/mod.rs] and
    [cron_utils.rs].

    It composes the store of jobs, the episode tracker, the timer, the run
    registry and the session manager, each behind its own lock; [AppState] holds
    the parts the engine touches.  A definition is the code between two awaits,
    or the sequential composition the source makes of such pieces.  The [cron]
    crate is the class [CronCrate]; what the agent's queue answers is an
    argument.  A handler reads each of its two clocks once. *)
From stdpp Require pretty.
From S2P Require Import Prelude Ident Json Lifecycle Run Job Session Episodic EventFeed MessageBus JobEpisode Scheduler RunManager RunControl JobStore Notify.

(** * Cron *)

Class CronCrate := {
  Schedule : Type;
  (** [Schedule::from_str] on six fields. *)
  schedule_from_str : string → option Schedule;
  (** [schedule.after(&t).next()]. *)
  schedule_next : Schedule → Z → option Z;
}.

Class CronLaws (C : CronCrate) :=
  schedule_next_later s t n : schedule_next s t = Some n → (t < n)%Z.

Definition SECOND : Z := 1000000000.
Definition JOB_DISPATCH_MAX_ATTEMPTS : Z := 3.
Definition JOB_DISPATCH_RETRY_BASE_SECS : Z := 5.
Definition JOB_REARM_MAX_ATTEMPTS : nat := 3.
Definition BOOT_CATCH_UP_LEAD_SECS : Z := 1.
Definition BOOT_CATCH_UP_SPACING_SECS : Z := 15.

(** * State *)

Record AppState (Js Rs Ss : Type) `{M : MinHeap} := mkApp {
  app_jobs : JobStore Js;
  app_episodes : JobEpisodeTracker;
  app_scheduler : Scheduler;
  app_runs : RunManager Rs;
  app_sessions : SessionManager Ss;
  operator_cancelled_jobs : gset JobId;
}.
Arguments mkApp {Js Rs Ss M}.
Arguments app_jobs {Js Rs Ss M}.
Arguments app_episodes {Js Rs Ss M}.
Arguments app_scheduler {Js Rs Ss M}.
Arguments app_runs {Js Rs Ss M}.
Arguments app_sessions {Js Rs Ss M}.
Arguments operator_cancelled_jobs {Js Rs Ss M}.

(** A firing admitted to its agent's queue. *)
Record AdmittedJobRun := {
  ar_job_id : JobId; ar_run_id : RunId; ar_session_id : SessionId; ar_agent_id : AgentId;
  ar_input : string; ar_context_id : string; ar_cancel_token : Z;
}.

Inductive BootstrapFire :=
| Scheduled (fire_at : Z)
| CatchUp (due_at : Z).

(** The write an episode's close makes, and how the job is armed after it. *)
Record ClosePlan := {
  cp_now : Z;
  cp_status : JobStatus;
  cp_next : option Z;
  cp_reason : option JobTerminalReason;
  (** The cron expression of a recurring job. *)
  cp_cron : option string;
  cp_catch_up : bool;
}.

(** A call made outside the engine while a cancelled episode is torn down. *)
Inductive TeardownCall :=
| EndConversation (sender_name : string) (sender_id : AgentId) (peer_name : string) (peer_id : AgentId)
| StopSubagent (session : SessionId).

Inductive CancelAnswer :=
| CancelCommitted
| CancelAnswered (r : Result unit ApiError).

Section engine.
Context `{U : UuidCrate} `{CH : ChronoCrate} `{CR : CronCrate} `{M : MinHeap}.
Context {Js Rs Ss : Type} `{JT : JobTable Js} `{RS : RunStore Rs} `{DB : SqliteStore Ss}.
Context (ts_string : Z → string) (json_from_str : string → option json).

Abbreviation App := (AppState Js Rs Ss).
Implicit Types (a : App).

Definition put_job_store (s : JobStore Js) a : App :=
  mkApp s (app_episodes a) (app_scheduler a) (app_runs a) (app_sessions a) (operator_cancelled_jobs a).
Definition put_episodes (t : JobEpisodeTracker) a : App :=
  mkApp (app_jobs a) t (app_scheduler a) (app_runs a) (app_sessions a) (operator_cancelled_jobs a).
Definition put_scheduler (s : Scheduler) a : App :=
  mkApp (app_jobs a) (app_episodes a) s (app_runs a) (app_sessions a) (operator_cancelled_jobs a).
Definition put_run_manager (m : RunManager Rs) a : App :=
  mkApp (app_jobs a) (app_episodes a) (app_scheduler a) m (app_sessions a) (operator_cancelled_jobs a).
Definition put_sessions (s : SessionManager Ss) a : App :=
  mkApp (app_jobs a) (app_episodes a) (app_scheduler a) (app_runs a) s (operator_cancelled_jobs a).
Definition put_operator_cancelled (c : gset JobId) a : App :=
  mkApp (app_jobs a) (app_episodes a) (app_scheduler a) (app_runs a) (app_sessions a) c.

Definition schedule_job (id : JobId) (at_ : Z) a : App := put_scheduler (schedule_once id at_ (app_scheduler a)) a.

Definition next_after (expr : string) (after : Z) : option Z :=
  schedule ← schedule_from_str ("0 " +:+ expr); schedule_next schedule after.

Definition schedule_fire_at (job : Job) (now : Z) : option Z :=
  match job_schedule job with
  | Once run_at => Some run_at
  | Recurring cron => next_after cron now
  end.

(** [(at - now).to_std().unwrap_or(ZERO)]. *)
Definition delay_until (at_ now : Z) : Z := Z.max 0 (at_ - now).

(** * Firing *)

(** [scheduler_fire_loop] up to the reservation: the agent to reserve for. *)
Definition fire_agent (id : JobId) a : option AgentId :=
  match job_get id (app_jobs a) with
  | Some job => if job_is_terminal (job_status job) then None else Some (job_agent_id job)
  | None => None
  end.

(** [admit_job_run] up to the session's admission guard. *)
Definition admit_begin (now : Z) (fresh : SessionId) (id : JobId) a : App * option (Job * SessionId) :=
  match job_get id (app_jobs a) with
  | None => (a, None)
  | Some job =>
      if job_is_terminal (job_status job) then (a, None)
      else
        let '(absorbed, episodes) := absorb_fire_if_open id (app_episodes a) in
        if absorbed then (put_episodes episodes a, None)
        else
          let '(session, sessions) := Session.get_or_create now fresh (job_agent_id job) (job_context_id id) (app_sessions a) in
          (put_sessions sessions a, Some (job, sess_id session))
  end.

(** [admit_job_run] under the guard; the section below the session lookup holds
    [job_trigger_cancellation_gate]. *)
Definition admit_finish (now : Z) (run_id : RunId) (token : Z) (job : Job) (session_id : SessionId) a
    : App * Result (option AdmittedJobRun) string :=
  let id := job_id job in
  match session_get session_id (app_sessions a) with
  | Err e => (a, Err (alms_error_to_string e))
  | Ok _ =>
      let run := for_job run_id now session_id (job_agent_id job) (job_prompt job) id in
      if match job_get id (app_jobs a) with Some j => job_is_terminal (job_status j) | None => true end
      then (a, Ok None)
      else
        match insert_run now run (register_cancel_token run_id token (app_runs a)) with
        | (m, Err e) => (put_run_manager (remove_cancel_token run_id m) a, Err e)
        | (m, Ok _) =>
            (put_episodes (open now id session_id (job_agent_id job) run_id (app_episodes a)) (put_run_manager m a),
             Ok (Some {| ar_job_id := id; ar_run_id := run_id; ar_session_id := session_id;
                         ar_agent_id := job_agent_id job; ar_input := run_input run;
                         ar_context_id := job_context_id id; ar_cancel_token := token |}))
        end
  end.

(** The delay before attempt [n + 1] in seconds. *)
Definition dispatch_delay_secs (retry_count : Z) : Z :=
  Z.min (JOB_DISPATCH_RETRY_BASE_SECS * 2 ^ Z.min retry_count 6) u64_max.

(** [record_job_dispatch_failure] up to the scheduler's lock: when to retry, or
    that the failure itself could not be stored. *)
Definition dispatch_failure_write (now mono : Z) (id : JobId) (error : string) a : App * Result (option Z) AlmsError :=
  match job_get id (app_jobs a) with
  | None => (a, Ok None)
  | Some job =>
      if job_is_terminal (job_status job) then (a, Ok None)
      else
        let delay_secs := dispatch_delay_secs (job_retry_count job) in
        match record_dispatch_failure id error (now + delay_secs * SECOND) JOB_DISPATCH_MAX_ATTEMPTS (app_jobs a) with
        | (s, Ok (RetryScheduled _ _)) => (put_job_store s a, Ok (Some (mono + delay_secs * SECOND)%Z))
        | (s, Ok _) => (put_job_store s a, Ok None)
        | (s, Err e) => (put_job_store s a, Err e)
        end
  end.

Definition record_job_dispatch_failure (now mono : Z) (id : JobId) (error : string) a : App :=
  match dispatch_failure_write now mono id error a with
  | (a', Ok (Some at_)) => schedule_job id at_ a'
  | (a', _) => a'
  end.

Definition abandon_admitted_job_run (now : Z) (r : AdmittedJobRun) a : App :=
  let episodes := (JobEpisode.remove (ar_job_id r) (app_episodes a)).2 in
  let m := match try_mark_run_as_failed now (ar_run_id r) "Run queue closed before dispatch" (app_runs a) with
           | (m, Ok _) => m
           | (m, Err e) =>
               send_event now (ar_run_id r) (ar_session_id r)
                 (run_error_event now (ar_run_id r) ("Scheduled run dispatch failure could not be persisted: " +:+ e)) m
           end in
  put_run_manager (remove_cancel_token (ar_run_id r) m) (put_episodes episodes a).

(** The [run_created] event of a submitted firing. *)
Definition announce_job_run (now : Z) (r : AdmittedJobRun) (queued_ahead : nat) a : App :=
  let queued_behind := queued_ahead + (if agent_has_running_run (ar_agent_id r) (app_runs a) then 1 else 0) in
  put_run_manager
    (send_session_event now (ar_session_id r) (ar_run_id r)
       (run_created ts_string now (ar_run_id r) (ar_session_id r) true (Some "job") queued_behind) (app_runs a)) a.

(** [AdmittedJobRun::execute] up to the run itself. *)
Definition start_admitted (utc now : Z) (r : AdmittedJobRun) a : App :=
  put_episodes (start_turn_one utc now (ar_job_id r) (ar_run_id r) (app_episodes a)) a.

(** * Closing an episode *)

Definition close_stats (ep : JobEpisode) (timed_out : bool) : EpisodeCloseStats := {|
  cs_turns := length (ep_runs ep); cs_dm_count := ep_dm_total ep; cs_subagent_count := ep_subagent_total ep;
  cs_timed_out := timed_out; cs_detached := pending_count ep |}.

(** The check under the completion gate. *)
Definition close_check (id : JobId) a : option Job :=
  match job_get id (app_jobs a) with
  | Some job => if job_is_terminal (job_status job) then None else Some job
  | None => None
  end.

(** [fresh_run] stands for the run id made up for an episode without runs. *)
Definition close_notify (now : Z) (fresh : string) (dummy fresh_run : RunId) (job : Job) (ep : JobEpisode) (timed_out : bool) a : App :=
  let '(sessions, m) :=
    notify_job_completion ts_string now fresh dummy (job_agent_id job) (job_prompt job)
      (default fresh_run (last (ep_runs ep))) (ep_job_id ep) (Some (close_stats ep timed_out)) (app_sessions a) (app_runs a) in
  put_sessions sessions (put_run_manager m a).

Definition missed_tick (now : Z) (cron : string) (ep : JobEpisode) : bool :=
  ep_catch_up_queued ep ||
  match next_after cron (ep_started_at ep) with Some t => (t <=? now)%Z | None => false end.

(** What [record_and_rearm] is about to write, decided at its clock reading. *)
Definition close_plan (now : Z) (job : Job) (ep : JobEpisode) (timed_out : bool) : ClosePlan :=
  match job_schedule job with
  | Once _ =>
      {| cp_now := now; cp_status := JobCompleted; cp_next := None;
         cp_reason := Some (if timed_out then DeadlineReached else ReasonCompleted); cp_cron := None; cp_catch_up := false |}
  | Recurring cron =>
      let missed := missed_tick now cron ep in
      {| cp_now := now; cp_status := JobActive; cp_next := if missed then Some now else next_after cron now;
         cp_reason := None; cp_cron := Some cron; cp_catch_up := missed |}
  end.

Definition close_write (id : JobId) (p : ClosePlan) a : App * Result RecordRunOutcome AlmsError :=
  let '(s, r) := record_run_with_reason id (cp_now p) (cp_status p) (cp_next p) (cp_reason p) (app_jobs a) in
  (put_job_store s a, r).

Fixpoint record_run_with_retry (retries : nat) (id : JobId) (p : ClosePlan) a : App * Result RecordRunOutcome AlmsError :=
  match close_write id p a with
  | (a', Ok outcome) => (a', Ok outcome)
  | (a', Err e) => match retries with
                   | S n => record_run_with_retry n id p a'
                   | 0 => (a', Err e)
                   end
  end.

Definition rearm_after_failed_close (now mono : Z) (id : JobId) (cron : string) a : App :=
  let a1 := put_job_store (record_rearm_failure (app_jobs a)) a in
  match next_after cron now with
  | Some next => schedule_job id (mono + delay_until next now) a1
  | None => a1
  end.

(** What follows the write. *)
Definition close_finish (mono : Z) (id : JobId) (p : ClosePlan) (r : Result RecordRunOutcome AlmsError) a : App :=
  match cp_cron p, r with
  | None, Ok _ => a
  | None, Err _ => put_job_store (record_rearm_failure (app_jobs a)) a
  | Some _, Ok Recorded =>
      if cp_catch_up p then schedule_job id mono a
      else match cp_next p with
           | Some next => schedule_job id (mono + delay_until next (cp_now p)) a
           | None => a
           end
  | Some _, Ok _ => a
  | Some cron, Err _ => rearm_after_failed_close (cp_now p) mono id cron a
  end.

Definition record_and_rearm (now mono : Z) (job : Job) (ep : JobEpisode) (timed_out : bool) a : App :=
  let p := close_plan now job ep timed_out in
  let '(a', r) := record_run_with_retry (JOB_REARM_MAX_ATTEMPTS - 1) (ep_job_id ep) p a in
  close_finish mono (ep_job_id ep) p r a'.

Definition close_episode (now mono : Z) (fresh : string) (dummy fresh_run : RunId) (ep : JobEpisode) (timed_out : bool) a : App :=
  match close_check (ep_job_id ep) a with
  | None => a
  | Some job => record_and_rearm now mono job ep timed_out (close_notify now fresh dummy fresh_run job ep timed_out a)
  end.

(** * Runs of an episode *)

Definition finish_episode_run (now mono : Z) (fresh : string) (dummy fresh_run : RunId) (job_id : option JobId)
    (run_id : RunId) (tool_calls : list ToolCallRecord) a : App :=
  match job_id with
  | None => a
  | Some id =>
      let '(c, episodes) :=
        on_run_complete id run_id (dms_opened json_from_str tool_calls) (subagents_spawned json_from_str tool_calls) (app_episodes a) in
      match c with
      | Closed ep => close_episode now mono fresh dummy fresh_run ep false (put_episodes episodes a)
      | Open | Untracked => put_episodes episodes a
      end
  end.

(** A continuation given up before its run existed. *)
Definition abandon_episode_continuation (now mono : Z) (fresh : string) (dummy fresh_run : RunId) (job_id : option JobId) a : App :=
  match job_id with
  | None => a
  | Some id =>
      let '(c, episodes) := abandon_reserved_continuation id (app_episodes a) in
      match c with
      | Closed ep => close_episode now mono fresh dummy fresh_run ep false (put_episodes episodes a)
      | Open | Untracked => put_episodes episodes a
      end
  end.

(** One tick of [job_episode_sweep_loop]: the episodes to close. *)
Definition sweep_episodes (mono : Z) a : App * list JobEpisode :=
  let '(expired, episodes) := take_expired mono (app_episodes a) in (put_episodes episodes a, expired).

(** * The handlers of jobs *)

Definition invalid_cron (message : string) : ApiError := {| ae_status := 422; ae_code := "INVALID_CRON"; ae_message := message |}.
Definition internal_error (e : AlmsError) : ApiError :=
  {| ae_status := 500; ae_code := "INTERNAL_ERROR"; ae_message := alms_error_to_string e |}.
Definition job_not_found : ApiError := {| ae_status := 404; ae_code := "NOT_FOUND"; ae_message := "job not found" |}.

Definition no_occurrence : ApiError := invalid_cron "cron expression is invalid or has no future occurrences".

(** The checks of [create_job] and the first fire time. *)
Definition first_fire_at (now : Z) (schedule : JobSchedule) : Result Z ApiError :=
  match schedule with
  | Once run_at => Ok (if (run_at <=? now)%Z then (now + 1 * SECOND)%Z else run_at)
  | Recurring cron =>
      let fields := length (split_whitespace cron) in
      if negb (Nat.eqb fields 5)
      then Err (invalid_cron ("cron expression must have exactly 5 fields, got " +:+ pretty.pretty fields))
      else match next_after cron now with
           | None => Err no_occurrence
           | Some next => Ok next
           end
  end.

(** [create_job] up to the scheduler's lock: the job and when it is due. *)
Definition create_job (now mono : Z) (fresh : JobId) (req : CreateJobRequest) a : App * Result (Job * Z) ApiError :=
  match first_fire_at now (req_schedule req) with
  | Err e => (a, Err e)
  | Ok fire_at =>
      match create_with_next_run_at fresh now req (Some fire_at) (app_jobs a) with
      | (s, Err e) => (put_job_store s a, Err (internal_error e))
      | (s, Ok job) => (put_job_store s a, Ok (job, (mono + delay_until fire_at now)%Z))
      end
  end.

(** [cancel_job] under the completion gate. *)
Definition cancel_commit (id : JobId) a : App * CancelAnswer :=
  match job_cancel id (app_jobs a) with
  | (s, Ok (Some true)) => (put_job_store s a, CancelCommitted)
  | (s, Ok (Some false)) =>
      (put_job_store s a,
       CancelAnswered match job_get id s with
         | Some job =>
             Err {| ae_status := 409;
                    ae_code := if decide (job_status job = JobCancelled) then "ALREADY_CANCELLED" else "JOB_TERMINAL";
                    ae_message := if decide (job_status job = JobCancelled) then "job is already cancelled"
                                  else "job is already terminal (" +:+ to_lowercase (job_status_debug (job_status job)) +:+ ")" |}
         | None => Err job_not_found
         end)
  | (s, Ok None) => (put_job_store s a, CancelAnswered (Err job_not_found))
  | (s, Err e) => (put_job_store s a, CancelAnswered (Err (internal_error e)))
  end.

(** The section of [cancel_job] under [job_trigger_cancellation_gate]. *)
Definition cancel_sweep (id : JobId) a : App * option JobEpisode :=
  let a1 := put_operator_cancelled ({[id]} ∪ operator_cancelled_jobs a) a in
  let '(episode, episodes) := JobEpisode.remove id (app_episodes a1) in
  let m1 := (cancel_runs_for_job id (app_runs a1)).1 in
  let m2 := match job_get id (app_jobs a1) with
            | Some job => match session_id_for_context (job_agent_id job) (job_context_id id) (app_sessions a1) with
                          | Some sid => (cancel_runs_for_session sid m1).1
                          | None => m1
                          end
            | None => m1
            end in
  (put_run_manager m2 (put_episodes episodes a1), episode).

Definition cancel_scheduled (id : JobId) a : App := put_scheduler (sched_cancel id (app_scheduler a)) a.

(** The call [teardown_episode] makes for one pending DM. *)
Definition teardown_dm (ep : JobEpisode) (dm : SessionId) a : list TeardownCall :=
  match session_get dm (app_sessions a) with
  | Err _ => []
  | Ok session =>
      match dm_participants (sess_context_id session), sm_store (app_sessions a) with
      | Some (name_a, name_b), Some st =>
          match load_agent_by_name name_a st, load_agent_by_name name_b st with
          | Ok (Some (id_a, na)), Ok (Some (id_b, nb)) =>
              if decide (id_a = ep_agent_id ep) then [EndConversation na id_a nb id_b]
              else [EndConversation nb id_b na id_a]
          | _, _ => []
          end
      | _, _ => []
      end
  end.

Definition teardown_episode (ep : JobEpisode) a : App * list TeardownCall :=
  let '(a', calls) :=
    foldl (λ acc dm, let '(a, calls) := acc in
             let a' := put_run_manager (cancel_runs_for_session dm (app_runs a)).1 a in
             (a', calls ++ teardown_dm ep dm a'))
      (a, []) (elements (ep_pending_dms ep)) in
  (a', calls ++ map (λ kv, StopSubagent kv.2) (map_to_list (ep_pending_subagents ep))).

(** * Start-up *)

Definition bootstrap_fire_at (job : Job) (now : Z) : option BootstrapFire :=
  if job_is_terminal (job_status job) then None
  else
    due_at ← match job_next_run_at job with Some t => Some t | None => schedule_fire_at job now end;
    Some (if (due_at <=? now)%Z then CatchUp due_at else Scheduled due_at).

(** [sort_by] on the due time, then on the id, as two stable sorts. *)
Definition plan_catch_up_cohort (cohort : list (JobId * Z)) (now : Z) : list (JobId * Z) :=
  imap (λ index jd, (jd.1, (now + (BOOT_CATCH_UP_LEAD_SECS + BOOT_CATCH_UP_SPACING_SECS * Z.of_nat index) * SECOND)%Z))
    (sort_by_key snd (sort_by_key (λ jd, Z.of_N (uuid_bits (job_uuid jd.1))) cohort)).

Definition boot_registrations (now : Z) (jobs : list Job) : list (JobId * Z * bool) :=
  map (λ jt, (jt, false)) (omap (λ job, match bootstrap_fire_at job now with Some (Scheduled t) => Some (job_id job, t) | _ => None end) jobs) ++
  map (λ jt, (jt, true))
    (plan_catch_up_cohort (omap (λ job, match bootstrap_fire_at job now with Some (CatchUp t) => Some (job_id job, t) | _ => None end) jobs) now).

(** One registration, with the numbers of catch-ups and of skipped jobs. *)
Definition boot_register (now mono : Z) (acc : App * Z * list JobId) (r : JobId * Z * bool) : App * Z * list JobId :=
  let '(a, catch_ups, skipped) := acc in
  let '(id, fire_at, is_catch_up) := r in
  match update_next_run_at id (Some fire_at) (app_jobs a) with
  | (s, Err _) => (put_job_store (record_bootstrap_failure s) a, catch_ups, skipped ++ [id])
  | (s, Ok _) => (schedule_job id (mono + delay_until fire_at now) (put_job_store s a),
                  (if is_catch_up then catch_ups + 1 else catch_ups)%Z, skipped)
  end.

(** The state after start-up and the jobs that could not be registered. *)
Definition bootstrap_scheduler (now mono : Z) a : App * list JobId :=
  let '(a', catch_ups, skipped) := foldl (boot_register now mono) (a, 0%Z, []) (boot_registrations now (job_list (app_jobs a))) in
  (if (0 <? catch_ups)%Z then put_job_store (record_boot_catch_ups catch_ups (app_jobs a')) a' else a', skipped).
End engine.
