(* ===== verification/Triggers.v ===== *)
(** Runs the gateway starts by itself: the trigger and completion loops of
    [alms-gateway/src/runs/notifications.rs].

    A trigger of the message bus, or the end of a background subagent, is routed
    to the sessions that should hear of it ([plan_triggered_runs]), and each
    target gets a run on its agent's queue ([enqueue_triggered_run]) unless the
    job it belongs to was cancelled meanwhile.  An iteration of either loop waits
    in between for queue slots, guards and event senders, so it is a
    [TriggerTask] that says what it does next, and [task_section] is what it does
    from one await to the next; firings, exits of runs, sweeps and cancellations
    may come between any two sections ([world_step]).  What the queue answers,
    fresh ids and the registry's name of an agent are arguments; each section
    reads each clock once.  Closing an episode is one section here; its own
    stages are those of [JobTasks.v], and none touches an episode. *)
From S2P Require Import Prelude Ident Json Lifecycle Run Job Session EventFeed MessageBus JobEpisode Scheduler RunManager RunControl JobStore Notify JobEngine.

(** * Routing *)

Record TriggeredRunTarget := {
  tg_session_id : SessionId;
  tg_context_id : string;
  tg_job_id : option JobId;
  tg_dm_ended_peer : option string;
}.

Record TriggerPlan := { tp_targets : list TriggeredRunTarget; tp_interrupted_end : option InterruptedEndRecord }.

Definition dm_ended_peer_for_source (source : MessageSource) : option string :=
  match source with
  | ConversationEnded _ from_name _ _ _ => Some from_name
  | FromAgent _ _ | SubagentCompletion => None
  end.

Definition end_was_interrupted (source : MessageSource) : bool :=
  match source with ConversationEnded _ _ reason _ _ => is_interrupted reason | _ => false end.

Definition plan_triggered_runs (source : MessageSource) (trigger_session_id : SessionId) (trigger_context_id : string)
    (episode_routes : list ContinuationRoute) : TriggerPlan :=
  let dm_ended_peer := dm_ended_peer_for_source source in
  match episode_routes with
  | _ :: _ =>
      {| tp_targets := map (λ route, {| tg_session_id := route_job_session_id route; tg_context_id := route_context_id route;
                                        tg_job_id := Some (route_job_id route); tg_dm_ended_peer := dm_ended_peer |})
                         episode_routes;
         tp_interrupted_end := None |}
  | [] =>
      if end_was_interrupted source then
        {| tp_targets := [];
           tp_interrupted_end :=
             match source with
             | ConversationEnded _ from_name reason _ _ =>
                 Some {| ie_session_id := trigger_session_id; ie_peer_name := from_name; ie_reason := reason;
                         ie_context_id := trigger_context_id |}
             | _ => None
             end |}
      else
        {| tp_targets := [{| tg_session_id := trigger_session_id; tg_context_id := trigger_context_id; tg_job_id := None;
                             tg_dm_ended_peer := dm_ended_peer |}];
           tp_interrupted_end := None |}
  end.

(** What the queue and the id generator give one triggered run: whether a slot
    was reserved, and the work queued ahead when the submission was taken. *)
Record QueueAnswer := {
  qa_reserved : bool;
  qa_submitted : option nat;
  qa_run_id : RunId;
  qa_token : Z;
}.

(** One call of [enqueue_triggered_run]. *)
Record EnqueueCall := {
  ec_agent_id : AgentId; ec_session_id : SessionId; ec_input : string; ec_context_id : string; ec_source_label : string;
  ec_is_peer_message : bool; ec_job_id : option JobId; ec_dm_ended_peer : option string;
}.

(** A run handed to the agent's queue. *)
Record TriggeredRun := {
  tw_run_id : RunId; tw_session_id : SessionId; tw_agent_id : AgentId; tw_input : string; tw_context_id : string;
  tw_cancel_token : Z; tw_is_peer_message : bool; tw_dm_ended_peer : option string;
}.

Section triggers.
Context `{U : UuidCrate} `{CH : ChronoCrate} `{CR : CronCrate} `{M : MinHeap}.
Context {Js Rs Ss : Type} `{JT : JobTable Js} `{RS : RunStore Rs} `{DB : SqliteStore Ss}.
Context (ts_string : Z → string) (json_from_str : string → option json) (fresh : string) (dummy fresh_run : RunId).

Abbreviation App := (AppState Js Rs Ss).
Implicit Types (a : App).

Definition operator_cancelled_job_for_context (context_id : string) a : option JobId :=
  raw ← strip_prefix "job_" context_id;
  u ← parse_str raw;
  if decide (MkJobId u ∈ operator_cancelled_jobs a) then Some (MkJobId u) else None.

(** * Enqueueing *)

(** The target session under its admission guard; a notification session
    begins life here. *)
Definition trigger_session (now : Z) (agent_id : AgentId) (session_id : SessionId) (context_id : string) a
    : App * option Session :=
  match session_get session_id (app_sessions a) with
  | Ok s => (a, Some s)
  | Err _ =>
      if starts_with context_id "notifications:" && bool_decide (session_id = deterministic context_id) then
        match get_or_create_with_id now session_id agent_id context_id (app_sessions a) with
        | (Ok s, sessions) => (put_sessions sessions a, Some s)
        | (Err _, sessions) => (put_sessions sessions a, None)
        end
      else (a, None)
  end.

(** The section under [job_trigger_cancellation_gate]: whether the run was
    registered. *)
Definition trigger_register (now : Z) (q : QueueAnswer) (agent_id : AgentId) (session_id : SessionId) (input context_id : string)
    (job_id : option JobId) a : App * bool :=
  match operator_cancelled_job_for_context context_id a with
  | Some _ => (a, false)
  | None =>
      let run := set_job (run_new (qa_run_id q) now session_id agent_id input) job_id None in
      match insert_run now run (register_cancel_token (qa_run_id q) (qa_token q) (app_runs a)) with
      | (m, Err _) => (put_run_manager (remove_cancel_token (qa_run_id q) m) a, false)
      | (m, Ok _) =>
          let a1 := put_run_manager m a in
          (match job_id with
           | Some id => put_episodes (note_run id (qa_run_id q) (app_episodes a1)) a1
           | None => a1
           end, true)
      end
  end.

(** The reservation, the session and the registration. *)
Definition trigger_admit (now : Z) (q : QueueAnswer) (agent_id : AgentId) (session_id : SessionId) (input context_id : string)
    (job_id : option JobId) a : App * bool :=
  if negb (qa_reserved q) then (a, false)
  else
    let '(a1, target) := trigger_session now agent_id session_id context_id a in
    match target with
    | None => (a1, false)
    | Some s => if decide (sess_id s = session_id)
                then trigger_register now q agent_id session_id input context_id job_id a1
                else (a1, false)
    end.

(** The submission found the queue closed: the run is failed, its exit still to be
    counted. *)
Definition trigger_unsubmitted (now : Z) (run_id : RunId) (session_id : SessionId) a : App :=
  let m := match try_mark_run_as_failed now run_id "Run queue closed before dispatch" (app_runs a) with
           | (m, Ok _) => m
           | (m, Err e) =>
               send_event now run_id session_id
                 (run_error_event now run_id ("Triggered run dispatch failure could not be persisted: " +:+ e)) m
           end in
  put_run_manager (remove_cancel_token run_id m) a.

(** The queue took the run. *)
Definition trigger_submitted (now : Z) (c : EnqueueCall) (q : QueueAnswer) (queued_ahead : nat) a : App * TriggeredRun :=
  let queued_behind := queued_ahead + (if agent_has_running_run (ec_agent_id c) (app_runs a) then 1 else 0) in
  (put_run_manager
     (send_session_event now (ec_session_id c) (qa_run_id q)
        (run_created ts_string now (qa_run_id q) (ec_session_id c) true (Some (ec_source_label c)) queued_behind) (app_runs a)) a,
   {| tw_run_id := qa_run_id q; tw_session_id := ec_session_id c; tw_agent_id := ec_agent_id c; tw_input := ec_input c;
      tw_context_id := ec_context_id c; tw_cancel_token := qa_token q; tw_is_peer_message := ec_is_peer_message c;
      tw_dm_ended_peer := ec_dm_ended_peer c |}).

(** * The trigger loop *)

Section loops.
Context (dm_ended_with_history dm_ended_no_history subagent_completed_template subagent_cancelled_template : string).
(** [load_agent_by_id], the agent's name. *)
Context (agent_name : AgentId → option string).

Definition trigger_label (source : MessageSource) : string :=
  match source with
  | FromAgent _ from_name => "peer:" +:+ from_name
  | SubagentCompletion => "subagent"
  | ConversationEnded _ from_name _ _ _ => "notification:dm_ended:" +:+ from_name
  end.

Definition is_peer_source (source : MessageSource) : bool := match source with FromAgent _ _ => true | _ => false end.

(** The transcript of the conversation that ended, if there is one to show. *)
Definition ended_history (from_name peer_name : string) a : option string :=
  match get_history (deterministic_dm from_name peer_name) (app_sessions a) with
  | Ok messages => let formatted := format_dm_conversation_history messages in
                   if String.eqb formatted "" then None else Some formatted
  | Err _ => None
  end.

Definition trigger_input (t : RunTrigger) a : string :=
  match tr_source t with
  | FromAgent _ _ | SubagentCompletion => tr_input t
  | ConversationEnded _ from_name reason self_notification _ =>
      format_dm_ended_notification dm_ended_with_history dm_ended_no_history from_name reason
        (agent_name (tr_agent_id t) ≫= λ peer_name, ended_history from_name peer_name a) self_notification
  end.

(** Resolving the episodes reserves their continuations. *)
Definition trigger_routes (t : RunTrigger) a : list ContinuationRoute * App :=
  match tr_source t with
  | ConversationEnded _ from_name _ _ _ =>
      match agent_name (tr_agent_id t) with
      | Some peer_name =>
          let '(routes, episodes) := resolve_dm (deterministic_dm from_name peer_name) (tr_agent_id t) (app_episodes a) in
          (routes, put_episodes episodes a)
      | None => ([], a)
      end
  | _ => ([], a)
  end.

(** The event for a conversation that hit the depth limit. *)
Definition announce_depth_end (now : Z) (t : RunTrigger) a : App :=
  match tr_source t with
  | ConversationEnded _ from_name DepthExceeded _ _ =>
      match agent_name (tr_agent_id t) with
      | Some peer_name =>
          let dm := deterministic_dm from_name peer_name in
          put_run_manager (send_session_event now dm dummy
            (dm_conversation_ended ts_string now dm from_name peer_name (reason_to_string DepthExceeded)
               (dm_context_id from_name peer_name)) (app_runs a)) a
      | None => a
      end
  | _ => a
  end.

(** The web-chat forward of an end, once the targets are known. *)
Definition forward_end (now : Z) (t : RunTrigger) (targets : list TriggeredRunTarget) a : App :=
  match tr_source t with
  | ConversationEnded _ from_name reason _ _ =>
      let dm_context := match agent_name (tr_agent_id t) with
                        | Some peer_name => dm_context_id from_name peer_name | None => "" end in
      let '(sessions, m) :=
        notify_dm_ended_to_webchat ts_string now fresh dummy (tr_agent_id t) from_name (reason_to_string reason)
          (detail reason) dm_context (map tg_session_id targets) (app_sessions a) (app_runs a) in
      put_sessions sessions (put_run_manager m a)
  | _ => a
  end.

(** The call for one target. *)
Definition call_of_target (t : RunTrigger) (input : string) (target : TriggeredRunTarget) : EnqueueCall := {|
  ec_agent_id := tr_agent_id t; ec_session_id := tg_session_id target; ec_input := input;
  ec_context_id := tg_context_id target; ec_source_label := trigger_label (tr_source t);
  ec_is_peer_message := is_peer_source (tr_source t); ec_job_id := tg_job_id target;
  ec_dm_ended_peer := tg_dm_ended_peer target |}.

(** The status bar of the agent's web chat, for a peer's message. *)
Definition start_dm (now : Z) (t : RunTrigger) a : App :=
  match tr_source t with
  | FromAgent _ from_name =>
      put_run_manager (notify_dm_started_to_webchat ts_string now dummy (tr_agent_id t) from_name (app_sessions a) (app_runs a)) a
  | _ => a
  end.

(** * The completion loop *)

(** The marker, then the event. *)
Definition record_completion (now : Z) (c : SubagentDone) a : App :=
  let sessions := persist_lifecycle_marker now fresh (sc_parent_session_id c) "subagent_completion"
                    (completion_marker_text c) (completion_marker_meta c) (app_sessions a) in
  let m := send_session_event now (sc_parent_session_id c) dummy
             (subagent_completed ts_string now (sc_parent_session_id c) (sc_parent_tool_invocation_id c)
                (sc_subagent_name c) (status_str (sc_status c)) (sc_summary c) (sc_subagent_session_id c)) (app_runs a) in
  put_sessions sessions (put_run_manager m a).

Definition call_of_completion (c : SubagentDone) (context_id : string) (route : option ContinuationRoute) : EnqueueCall := {|
  ec_agent_id := sc_parent_agent_id c; ec_session_id := sc_parent_session_id c;
  ec_input := match sc_status c with
              | TaskCancelled => if sc_cancelled_directly c then format_directly_cancelled_notification subagent_cancelled_template c
                                 else format_completion_notification subagent_completed_template c
              | _ => format_completion_notification subagent_completed_template c
              end;
  ec_context_id := context_id; ec_source_label := "subagent"; ec_is_peer_message := false;
  ec_job_id := route_job_id <$> route; ec_dm_ended_peer := None |}.

(** Resolving reserves the continuation; a stopped subagent outside an episode
    gets a record instead of a run. *)
Definition resolve_completion (c : SubagentDone) (context_id : string) a : App * option EnqueueCall :=
  let '(route, episodes) := resolve_subagent (sc_task_id c) (app_episodes a) in
  let a1 := put_episodes episodes a in
  let stopped := match sc_status c with TaskCancelled => negb (sc_cancelled_directly c) | _ => false end in
  match stopped, route with
  | true, None => (a1, None)
  | _, _ => (a1, Some (call_of_completion c context_id route))
  end.

(** * Between awaits *)

(** What an iteration does next.  [calls] are the runs it has yet to enqueue, [t]
    after them the trigger it was received with, if that is to be told on. *)
Inductive TriggerTask :=
| TrigReceived (t : RunTrigger)
| TrigRouting (t : RunTrigger)
| TrigForwarding (t : RunTrigger) (input : string) (plan : TriggerPlan)
| CompReceived (c : SubagentDone)
| CompResolving (c : SubagentDone) (context_id : string)
| Enqueueing (call : EnqueueCall) (calls : list EnqueueCall) (t : option RunTrigger)
| Submitting (call : EnqueueCall) (q : QueueAnswer) (calls : list EnqueueCall) (t : option RunTrigger)
| Unsubmitted (call : EnqueueCall) (run : RunId) (calls : list EnqueueCall) (t : option RunTrigger)
| Abandoning (call : EnqueueCall) (calls : list EnqueueCall) (t : option RunTrigger)
| Closing (ep : JobEpisode) (timed_out : bool) (calls : list EnqueueCall) (t : option RunTrigger)
| DmStarting (t : RunTrigger).

Inductive TriggerOutput :=
| RunHandedOver (run : TriggeredRun)
| EndRecorded (record : InterruptedEndRecord)
| StopRecorded (c : SubagentDone).

Definition after (calls : list EnqueueCall) (t : option RunTrigger) : option TriggerTask :=
  match calls with
  | call :: calls' => Some (Enqueueing call calls' t)
  | [] => DmStarting <$> t
  end.

(** The tracker answered that work of the call's episode ended; when that closed
    the episode, closing it comes next. *)
Definition completed (r : RunCompletion * JobEpisodeTracker) (calls : list EnqueueCall) (t : option RunTrigger) a
    : App * option TriggerTask :=
  (put_episodes r.2 a, match r.1 with Closed ep => Some (Closing ep false calls t) | Open | Untracked => after calls t end).

(** The section of [task], with the queue's answer to its call. *)
Definition task_section (now mono : Z) (q : QueueAnswer) (task : TriggerTask) a : App * option TriggerTask * list TriggerOutput :=
  match task with
  | TrigReceived t => (announce_depth_end now t a, Some (TrigRouting t), [])
  | TrigRouting t =>
      let input := trigger_input t a in
      let '(routes, a1) := trigger_routes t a in
      (a1, Some (TrigForwarding t input (plan_triggered_runs (tr_source t) (tr_session_id t) (tr_context_id t) routes)), [])
  | TrigForwarding t input plan =>
      (forward_end now t (tp_targets plan) a,
       after (map (call_of_target t input) (tp_targets plan)) (if is_peer_source (tr_source t) then Some t else None),
       match tp_interrupted_end plan with Some record => [EndRecorded record] | None => [] end)
  | CompReceived c =>
      match session_get (sc_parent_session_id c) (app_sessions a) with
      | Err _ => (a, None, [])
      | Ok parent => (record_completion now c a, Some (CompResolving c (sess_context_id parent)), [])
      end
  | CompResolving c context_id =>
      match resolve_completion c context_id a with
      | (a1, None) => (a1, None, [StopRecorded c])
      | (a1, Some call) => (a1, Some (Enqueueing call [] None), [])
      end
  | Enqueueing call calls t =>
      let '(a1, admitted) := trigger_admit now q (ec_agent_id call) (ec_session_id call) (ec_input call) (ec_context_id call)
                               (ec_job_id call) a in
      (a1, Some (if admitted then Submitting call q calls t else Abandoning call calls t), [])
  | Submitting call q' calls t =>
      match qa_submitted q' with
      | Some queued_ahead => let '(a1, run) := trigger_submitted now call q' queued_ahead a in (a1, after calls t, [RunHandedOver run])
      | None => (trigger_unsubmitted now (qa_run_id q') (ec_session_id call) a, Some (Unsubmitted call (qa_run_id q') calls t), [])
      end
  | Unsubmitted call run calls t =>
      (match ec_job_id call with
       | Some id => completed (on_run_complete id run [] [] (app_episodes a)) calls t a
       | None => (a, after calls t)
       end, [])
  | Abandoning call calls t =>
      (match ec_job_id call with
       | Some id => completed (abandon_reserved_continuation id (app_episodes a)) calls t a
       | None => (a, after calls t)
       end, [])
  | Closing ep timed_out calls t =>
      (close_episode ts_string now mono fresh dummy fresh_run ep timed_out a, after calls t, [])
  | DmStarting t => (start_dm now t a, None, [])
  end.
End loops.
End triggers.

(** * Reservations *)

Section reservations.
Context `{U : UuidCrate} `{CH : ChronoCrate} `{CR : CronCrate} `{M : MinHeap}.
Context {Js Rs Ss : Type} `{JT : JobTable Js} `{RS : RunStore Rs} `{DB : SqliteStore Ss}.
Context (ts_string : Z → string) (json_from_str : string → option json) (fresh : string) (dummy fresh_run : RunId).

Abbreviation App := (AppState Js Rs Ss).
Implicit Types (a : App) (t : JobEpisodeTracker).

(** The runs of an episode that have not finished. *)
Definition unfinished (ep : JobEpisode) : list RunId := filter (λ r, r ∉ ep_finished_runs ep) (ep_runs ep).

(** An episode counts its unfinished runs and [reserved] continuations. *)
Record counts_runs (reserved : nat) (ep : JobEpisode) : Prop := {
  cr_nodup : NoDup (ep_runs ep);
  cr_finished r : r ∈ ep_finished_runs ep → r ∈ ep_runs ep;
  cr_in_flight : ep_in_flight_runs ep = length (unfinished ep) + reserved;
}.

Definition all_count (reserved : JobId → nat) t : Prop :=
  tracker_ok t ∧ ∀ id ep, tk_episodes t !! id = Some ep → counts_runs (reserved id) ep.

(** No episode knows the run. *)
Definition unknown_run (run : RunId) t : Prop := ∀ id ep, tk_episodes t !! id = Some ep → run ∉ ep_runs ep.

Definition release (id : JobId) (reserved : JobId → nat) : JobId → nat := λ i, if decide (i = id) then reserved i - 1 else reserved i.

Lemma counts_runs_same n ep ep' : ep_runs ep' = ep_runs ep → ep_finished_runs ep' = ep_finished_runs ep →
  ep_in_flight_runs ep' = ep_in_flight_runs ep → counts_runs n ep → counts_runs n ep'.
Proof. intros H1 H2 H3 [A B C]. split; unfold unfinished; rewrite ?H1, ?H2, ?H3; auto. Qed.

(** One run more, reserved before. *)
Lemma counts_runs_note n ep ep' run : ep_runs ep' = ep_runs ep ++ [run] → ep_finished_runs ep' = ep_finished_runs ep →
  ep_in_flight_runs ep' = ep_in_flight_runs ep → run ∉ ep_runs ep → 0 < n → counts_runs n ep → counts_runs (n - 1) ep'.
Proof.
  intros H1 H2 H3 Hr Hn [A B C]. split; rewrite ?H1, ?H2, ?H3.
  - apply NoDup_app. split; [done|]. split; [|apply NoDup_singleton]. intros r Hin ->%list_elem_of_singleton. done.
  - intros r Hin%B. apply elem_of_app. by left.
  - unfold unfinished. rewrite H1, H2, filter_app, length_app, filter_cons, C. unfold unfinished.
    rewrite decide_True by (intros Hf%B; done). cbn. lia.
Qed.

(** A run of the episode finishes. *)
Lemma counts_runs_finish n ep run dms subs : run ∈ ep_runs ep → run ∉ ep_finished_runs ep →
  counts_runs n ep → counts_runs n (complete_run run dms subs ep).
Proof.
  intros Hin Hnf [A B C]. destruct (complete_run_fields run dms subs ep) as (_ & Hi & Hf & _ & Hr & _).
  assert (Hlen : length (filter (λ r, r ∉ ep_finished_runs ep) (ep_runs ep)) =
    S (length (filter (λ r, r ∉ {[run]} ∪ ep_finished_runs ep) (ep_runs ep)))).
  { clear -A Hin Hnf. induction (ep_runs ep) as [|r l IH]; [by apply elem_of_nil in Hin|]. apply NoDup_cons in A as [Hn A].
    rewrite !filter_cons. apply elem_of_cons in Hin as [->|Hin].
    - rewrite decide_True by done. rewrite (decide_False (P := r ∉ _)) by set_solver. cbn. f_equal.
      rewrite (filter_ext_in (λ r0, r0 ∉ ep_finished_runs ep) (λ r0, r0 ∉ {[r]} ∪ ep_finished_runs ep)); [done|].
      apply Forall_forall. intros x Hx. assert (x ≠ r) by (by intros ->). set_solver.
    - assert (r ≠ run) by (by intros ->). destruct (decide (r ∉ ep_finished_runs ep)) as [H1|H1]; destruct (decide (r ∉ {[run]} ∪ ep_finished_runs ep)) as [H2|H2];
        cbn; rewrite ?(IH A Hin); try done; set_solver. }
  split.
  - by rewrite Hr.
  - intros r. rewrite Hf, Hr. intros [->%elem_of_singleton|Hin'%B]%elem_of_union; done.
  - unfold unfinished in *. rewrite Hi, Hf, Hr. lia.
Qed.
(** *** Steps of the tracker *)

Lemma all_count_ext res res' t : (∀ id, res id = res' id) → all_count res t → all_count res' t.
Proof. intros H [Ht Hc]. split; [done|]. intros id ep He. rewrite <- H. by apply Hc. Qed.

Lemma all_count_update res res' id ep' t :
  (∀ i, i ≠ id → res' i = res i) → all_count res t → episode_ok id ep' → counts_runs (res' id) ep' →
  all_count res' (set_episodes (<[id := ep']> (tk_episodes t)) t).
Proof.
  intros Hr [Ht Hc] Hok Hep. split; [by apply tracker_ok_insert|]. intros i ep. cbn.
  intros [[<- <-]|[Hne He]]%lookup_insert_Some; [done|]. rewrite Hr by done. by apply Hc.
Qed.

Lemma all_count_settle res res' id ep ep0 t :
  (∀ i, i ≠ id → res' i = res i) → all_count res t → tk_episodes t !! id = Some ep0 →
  (is_quiescent ep = false → episode_ok id ep) → counts_runs (res' id) ep → all_count res' (settle id ep t).2.
Proof.
  intros Hr Hc He Hok Hep. unfold settle. destruct (is_quiescent ep) eqn:Eq; cbn [snd].
  - destruct Hc as [Ht Hc]. split; [apply tracker_ok_subset; [done|apply delete_subseteq]|]. intros i ep1. cbn.
    intros [Hne He1]%lookup_delete_Some. rewrite Hr by done. by apply Hc.
  - eapply all_count_update; [exact Hr|done|by apply Hok|done].
Qed.

Lemma release_other id res i : i ≠ id → release id res i = res i.
Proof. intros H. unfold release. by rewrite decide_False. Qed.

Lemma release_same id res : release id res id = res id - 1.
Proof. unfold release. by rewrite decide_True. Qed.

(** A lookup that fails leaves nothing to count. *)
Lemma all_count_missing res res' id t : (∀ i, i ≠ id → res' i = res i) → tk_episodes t !! id = None → all_count res t → all_count res' t.
Proof.
  intros Hr Hn [Ht Hc]. split; [done|]. intros i ep He. rewrite Hr; [by apply Hc|]. intros ->. congruence.
Qed.

Lemma abandon_counts id res t : 0 < res id → all_count res t → all_count (release id res) (abandon_reserved_continuation id t).2.
Proof.
  intros Hpos Hc. unfold abandon_reserved_continuation. destruct (tk_episodes t !! id) as [ep|] eqn:E.
  2:{ apply (all_count_missing res _ id); [apply release_other|done|done]. }
  destruct Hc as [Ht Hc]. destruct (Hc _ _ E) as [A B C]. destruct (Ht _ _ E).
  apply (all_count_settle res _ id _ ep); [apply release_other|done|done|by split|].
  rewrite release_same. split; [done|done|]. unfold unfinished in *. cbn. rewrite C. lia.
Qed.

Lemma note_counts id run res t : 0 < res id → unknown_run run t → all_count res t → all_count (release id res) (note_run id run t).
Proof.
  intros Hpos Hu Hc. unfold note_run. destruct (tk_episodes t !! id) as [ep|] eqn:E.
  2:{ apply (all_count_missing res _ id); [apply release_other|done|done]. }
  destruct Hc as [Ht Hc]. pose proof (Hc _ _ E) as Hep. destruct (Ht _ _ E) as [H1 H2 H3 H4 H5].
  apply (all_count_update res); [apply release_other|done| |].
  - split; try done. cbn. by destruct (ep_runs ep).
  - rewrite release_same. eapply counts_runs_note; try done. by eapply Hu.
Qed.

Lemma finish_counts id run dms subs res t :
  (∀ ep, tk_episodes t !! id = Some ep → run ∈ ep_runs ep) → all_count res t → all_count res (on_run_complete id run dms subs t).2.
Proof.
  intros Hin Hc. unfold on_run_complete. destruct (tk_episodes t !! id) as [ep|] eqn:E; [|done].
  case_bool_decide as Hf; [done|]. destruct Hc as [Ht Hc].
  apply (all_count_settle res _ id _ ep); [done|done|done|apply complete_run_ok; by apply Ht|].
  apply counts_runs_finish; [by apply Hin|done|by apply Hc].
Qed.

Definition routed (routes : list ContinuationRoute) (id : JobId) : nat := length (filter (λ r, route_job_id r = id) routes).

Lemma resolve_dm_counts dm agent res t : all_count res t →
  all_count (λ id, res id + routed (resolve_dm dm agent t).1 id) (resolve_dm dm agent t).2.
Proof.
  intros [Ht Hc]. split; [apply (tracker_ok_exec (OpResolveDm _ _)), Ht|]. intros id ep'.
  change (tk_episodes (resolve_dm dm agent t).2) with ((λ ep, if dm_matches dm agent ep then take_dm dm ep else ep) <$> tk_episodes t).
  rewrite lookup_fmap. destruct (tk_episodes t !! id) as [ep|] eqn:E; [|done]. cbn [fmap option_fmap option_map]. intros [= <-].
  assert (Hn : routed (resolve_dm dm agent t).1 id = if dm_matches dm agent ep then 1 else 0).
  { unfold routed, resolve_dm. cbn [fst]. pose proof (NoDup_fst_map_to_list (tk_episodes t)) as Hnd.
    assert (Hin : (id, ep) ∈ map_to_list (tk_episodes t)) by (by apply elem_of_map_to_list).
    assert (Hk : Forall (λ e, ep_job_id e.2 = e.1) (map_to_list (tk_episodes t))).
    { apply Forall_forall. intros [i e] He%elem_of_map_to_list. by apply (Ht _ _ He). }
    revert Hnd Hin Hk. generalize (map_to_list (tk_episodes t)) as l. clear. intros l Hnd Hin Hk.
    assert (Hzero : ∀ l', id ∉ l'.*1 → Forall (λ e, ep_job_id e.2 = e.1) l' →
      length (filter (λ r, route_job_id r = id) (route_of ∘ snd <$> filter (λ e, dm_matches dm agent e.2 = true) l')) = 0).
    { intros l'. induction l' as [|[i e] l' IH]; [done|]. intros Hni [Hi Hk']%Forall_cons. rewrite filter_cons.
      cbn in Hni, Hi. apply not_elem_of_cons in Hni as [Hne Hni]. specialize (IH Hni Hk').
      destruct (decide _); [|done]. rewrite fmap_cons, filter_cons. cbn. rewrite Hi. by rewrite decide_False by done. }
    induction l as [|[i e] l IH]; [by apply elem_of_nil in Hin|]. cbn in Hnd. apply NoDup_cons in Hnd as [Hni Hnd].
    apply Forall_cons in Hk as [Hi Hk]. cbn in Hi. rewrite filter_cons. cbn [snd].
    apply elem_of_cons in Hin as [[= <- <-]|Hin].
    - destruct (dm_matches dm agent ep) eqn:Em; [rewrite decide_True by done|rewrite decide_False by done; by apply Hzero].
      rewrite fmap_cons, filter_cons. cbn. rewrite Hi, decide_True by done. cbn. f_equal. by apply Hzero.
    - assert (id ≠ i) by (intros ->; apply Hni, list_elem_of_fmap; eexists; split; [|exact Hin]; done). specialize (IH Hnd Hin Hk).
      destruct (decide _); [|done]. rewrite fmap_cons, filter_cons. cbn. rewrite Hi. by rewrite decide_False by done. }
  rewrite Hn. destruct (Hc _ _ E) as [A B C]. destruct (dm_matches dm agent ep); [|rewrite Nat.add_0_r; by split].
  split; [done|done|]. unfold unfinished in *. cbn. lia.
Qed.

Lemma resolve_subagent_counts task res t : all_count res t →
  all_count (λ id, res id + if decide (route_job_id <$> (resolve_subagent task t).1 = Some id) then 1 else 0) (resolve_subagent task t).2.
Proof.
  intros [Ht Hc]. unfold resolve_subagent. destruct (List.find _ _) as [[id ep]|] eqn:E.
  2:{ split; [done|]. intros i ep He. rewrite decide_False, Nat.add_0_r by done. exact (Hc _ _ He). }
  apply List.find_some in E as [Hin _]. apply list_elem_of_In, elem_of_map_to_list in Hin. cbn.
  destruct (Ht _ _ Hin) as [H1 H2 H3 H4 H5]. destruct (Hc _ _ Hin) as [A B C].
  apply (all_count_update res).
  - intros i Hi. rewrite decide_False; [lia|]. rewrite H1. by intros [= ->].
  - done.
  - split; try done; cbn.
    + apply in_flight_not_quiescent. cbn. lia.
    + etrans; [|exact H5]. apply map_subseteq_size, delete_subseteq.
  - rewrite H1, decide_True by done. split; [done|done|]. unfold unfinished in *. cbn. lia.
Qed.
(** *** Runs stay with their episode *)

(** The open episodes were open before, and have kept their runs. *)
Definition grows t t' : Prop :=
  ∀ id ep', tk_episodes t' !! id = Some ep' → ∃ ep, tk_episodes t !! id = Some ep ∧ ∀ r, r ∈ ep_runs ep → r ∈ ep_runs ep'.

Lemma grows_refl t : grows t t.
Proof. intros id ep He. by exists ep. Qed.

Lemma grows_insert id ep0 ep t : tk_episodes t !! id = Some ep0 → (∀ r, r ∈ ep_runs ep0 → r ∈ ep_runs ep) →
  grows t (set_episodes (<[id := ep]> (tk_episodes t)) t).
Proof.
  intros H0 Hr i ep'. cbn. intros [[<- <-]|[_ He]]%lookup_insert_Some; [by exists ep0|by exists ep'].
Qed.

Lemma grows_subset m t : m ⊆ tk_episodes t → grows t (set_episodes m t).
Proof. intros Hm id ep He. exists ep. split; [by eapply lookup_weaken|done]. Qed.

Lemma grows_settle id ep0 ep t : tk_episodes t !! id = Some ep0 → ep_runs ep = ep_runs ep0 → grows t (settle id ep t).2.
Proof.
  intros H0 Hr. unfold settle. destruct (is_quiescent ep); cbn [snd].
  - apply grows_subset, delete_subseteq.
  - eapply grows_insert; [done|]. by rewrite Hr.
Qed.

Lemma grows_abandon id t : grows t (abandon_reserved_continuation id t).2.
Proof.
  unfold abandon_reserved_continuation. destruct (tk_episodes t !! id) as [ep|] eqn:E; [by apply (grows_settle id ep)|apply grows_refl].
Qed.

Lemma grows_finish id run dms subs t : grows t (on_run_complete id run dms subs t).2.
Proof.
  unfold on_run_complete. destruct (tk_episodes t !! id) as [ep|] eqn:E; [|apply grows_refl]. case_bool_decide; [apply grows_refl|].
  apply (grows_settle id ep); [done|]. by destruct (complete_run_fields run dms subs ep) as (_ & _ & _ & _ & Hr & _).
Qed.

Lemma grows_note id run t : grows t (note_run id run t).
Proof.
  unfold note_run. destruct (tk_episodes t !! id) as [ep|] eqn:E; [|apply grows_refl]. apply (grows_insert id ep); [done|]. cbn. set_solver.
Qed.

Lemma grows_resolve_dm dm agent t : grows t (resolve_dm dm agent t).2.
Proof.
  intros id ep'. change (tk_episodes (resolve_dm dm agent t).2) with ((λ ep, if dm_matches dm agent ep then take_dm dm ep else ep) <$> tk_episodes t).
  rewrite lookup_fmap. destruct (tk_episodes t !! id) as [ep|]; [|done]. cbn [fmap option_fmap option_map]. intros [= <-].
  exists ep. by destruct (dm_matches dm agent ep).
Qed.

Lemma grows_resolve_subagent task t : grows t (resolve_subagent task t).2.
Proof.
  unfold resolve_subagent. destruct (List.find _ _) as [[id ep]|] eqn:E; [|apply grows_refl].
  apply List.find_some in E as [Hin _]. apply list_elem_of_In, elem_of_map_to_list in Hin. by apply (grows_insert id ep).
Qed.

(** *** Handlers *)

(** Closing an episode is no business of the tracker. *)
Lemma close_episode_tracker now mono ep late a :
  app_episodes (close_episode ts_string now mono fresh dummy fresh_run ep late a) = app_episodes a.
Proof.
  unfold close_episode. destruct (close_check _ _) as [job|]; [|done]. unfold record_and_rearm.
  set (p := close_plan _ _ _ _).
  assert (Hn : app_episodes (close_notify ts_string now fresh dummy fresh_run job ep late a) = app_episodes a)
    by (unfold close_notify; by destruct (notify_job_completion _ _ _ _ _ _ _ _ _ _ _)).
  rewrite <- Hn. generalize (close_notify ts_string now fresh dummy fresh_run job ep late a) as a1. clear Hn. intros a1.
  assert (Hr : ∀ n a2, app_episodes (record_run_with_retry n (ep_job_id ep) p a2).1 = app_episodes a2).
  { induction n as [|n IH]; intros a2; cbn [record_run_with_retry]; unfold close_write;
      destruct (record_run_with_reason _ _ _ _ _ _) as [s [o|err]]; try done. by rewrite IH. }
  specialize (Hr (JOB_REARM_MAX_ATTEMPTS - 1) a1). destruct (record_run_with_retry _ _ _ _) as [a3 r]. cbn in Hr. rewrite <- Hr.
  unfold close_finish, rearm_after_failed_close. by destruct (cp_cron p), r as [[]|], (cp_catch_up p), (cp_next p); cbn; try case_match.
Qed.

(** What an admission does to the tracker. *)
Lemma trigger_admit_tracker now q agent session input context_id job a :
  app_episodes (trigger_admit now q agent session input context_id job a).1 =
  match (trigger_admit now q agent session input context_id job a).2, job with
  | true, Some id => note_run id (qa_run_id q) (app_episodes a)
  | _, _ => app_episodes a
  end.
Proof.
  unfold trigger_admit. destruct (negb (qa_reserved q)); [done|].
  assert (Hs : app_episodes (trigger_session now agent session context_id a).1 = app_episodes a).
  { unfold trigger_session. destruct (session_get _ _); [done|]. destruct (_ && _); [|done].
    by destruct (get_or_create_with_id _ _ _ _ _) as [[]]. }
  destruct (trigger_session _ _ _ _ a) as [a1 target]. cbn in Hs. rewrite <- Hs.
  destruct target as [target|]; [|done]. destruct (decide _); [|done]. unfold trigger_register.
  destruct (operator_cancelled_job_for_context _ _); [done|]. destruct (insert_run _ _ _) as [m [|]]; [|done]. by destruct job.
Qed.

Definition wanted (targets : list TriggeredRunTarget) (id : JobId) : nat :=
  length (filter (λ target, tg_job_id target = Some id) targets).

Lemma plan_wanted source session context_id routes id :
  wanted (tp_targets (plan_triggered_runs source session context_id routes)) id = routed routes id.
Proof.
  unfold plan_triggered_runs. destruct routes as [|r routes]; [by destruct (end_was_interrupted source)|].
  unfold wanted, routed. cbn [tp_targets]. generalize (r :: routes) as l. clear. induction l as [|r l IH]; [done|].
  cbn [map]. rewrite !filter_cons. cbn. repeat case_decide; simplify_eq; cbn; rewrite ?IH; done.
Qed.

Section work.
Context (dm_ended_with_history dm_ended_no_history subagent_completed_template subagent_cancelled_template : string).
Context (agent_name : AgentId → option string).

(** ** Tasks and reservations *)

Local Abbreviation section := (task_section ts_string fresh dummy fresh_run dm_ended_with_history dm_ended_no_history
  subagent_completed_template subagent_cancelled_template agent_name).

Definition calls_held (calls : list EnqueueCall) (id : JobId) : nat := length (filter (λ c, ec_job_id c = Some id) calls).

(** The continuations of a job's episode a task has yet to turn into runs or give up. *)
Definition held (k : TriggerTask) (id : JobId) : nat :=
  match k with
  | TrigForwarding _ _ plan => wanted (tp_targets plan) id
  | Submitting _ _ calls _ | Unsubmitted _ _ calls _ | Closing _ _ calls _ => calls_held calls id
  | Enqueueing call calls _ | Abandoning call calls _ => calls_held (call :: calls) id
  | _ => 0
  end.

Definition held_next (k : option TriggerTask) (id : JobId) : nat := from_option (λ k, held k id) 0 k.
Definition reserved (ks : list TriggerTask) (id : JobId) : nat := sum_list (map (λ k, held k id) ks).

(** The run of a job a task registered and has not handed over. *)
Definition bears (k : TriggerTask) : option (JobId * RunId) :=
  match k with
  | Submitting call q _ _ => (λ id, (id, qa_run_id q)) <$> ec_job_id call
  | Unsubmitted call run _ _ => (λ id, (id, run)) <$> ec_job_id call
  | _ => None
  end.

(** The application, the iterations under way, and the runs of jobs whose tasks have
    not ended: any of them can still report its exit. *)
Record World := mkWorld { w_app : App; w_tasks : list TriggerTask; w_runs : list (JobId * RunId) }.

(** No task or run of an earlier episode of the job is left. *)
Definition settled (id : JobId) (ks : list TriggerTask) (rs : list (JobId * RunId)) : Prop :=
  reserved ks id = 0 ∧ ∀ run, (id, run) ∉ rs.

(** Anything one task does between two awaits.  [step_fire] asks that the job's
    last episode has settled; [stale_exit_closes_episode] below is what happens
    otherwise. *)
Inductive world_step : World → World → Prop :=
| step_trigger tr a ks rs : world_step (mkWorld a ks rs) (mkWorld a (ks ++ [TrigReceived tr]) rs)
| step_completion c a ks rs : world_step (mkWorld a ks rs) (mkWorld a (ks ++ [CompReceived c]) rs)
| step_section now mono q a ks1 k ks2 rs a' k' out :
    unknown_run (qa_run_id q) (app_episodes a) → section now mono q k a = (a', k', out) →
    world_step (mkWorld a (ks1 ++ k :: ks2) rs) (mkWorld a' (ks1 ++ option_list k' ++ ks2) (option_list (k' ≫= bears) ++ rs))
| step_absorb now fresh_session id a ks rs :
    world_step (mkWorld a ks rs) (mkWorld (admit_begin now fresh_session id a).1 ks rs)
| step_fire now run token job session a ks rs a' r :
    settled (job_id job) ks rs → admit_finish now run token job session a = (a', Ok (Some r)) →
    world_step (mkWorld a ks rs) (mkWorld a' ks ((job_id job, run) :: rs))
| step_not_submitted now r a ks rs : world_step (mkWorld a ks rs) (mkWorld (abandon_admitted_job_run now r a) ks rs)
| step_start utc now r a ks rs : world_step (mkWorld a ks rs) (mkWorld (start_admitted utc now r a) ks rs)
| step_exit job run tool_calls a ks rs a' k' :
    (job, run) ∈ rs →
    completed (on_run_complete job run (dms_opened json_from_str tool_calls) (subagents_spawned json_from_str tool_calls)
                 (app_episodes a)) [] None a = (a', k') →
    world_step (mkWorld a ks rs) (mkWorld a' (ks ++ option_list k') rs)
| step_ended p a ks rs :
    (∀ k, k ∈ ks → bears k ≠ Some p) → (∀ ep, tk_episodes (app_episodes a) !! p.1 = Some ep → p.2 ∈ ep_finished_runs ep) →
    world_step (mkWorld a ks rs) (mkWorld a ks (filter (λ p', p' ≠ p) rs))
| step_sweep mono a ks rs a' expired :
    sweep_episodes mono a = (a', expired) →
    world_step (mkWorld a ks rs) (mkWorld a' (ks ++ map (λ ep, Closing ep true [] None) expired) rs)
| step_cancel job a ks rs : world_step (mkWorld a ks rs) (mkWorld (cancel_sweep job a).1 ks rs)
| step_other a a' ks rs : app_episodes a' = app_episodes a → world_step (mkWorld a ks rs) (mkWorld a' ks rs).

Record world_ok (w : World) : Prop := {
  wo_counts : all_count (reserved (w_tasks w)) (app_episodes (w_app w));
  wo_runs id run ep : (id, run) ∈ w_runs w → tk_episodes (app_episodes (w_app w)) !! id = Some ep → run ∈ ep_runs ep;
  wo_borne k p : k ∈ w_tasks w → bears k = Some p → p ∈ w_runs w;
}.

Lemma reserved_app ks ks' id : reserved (ks ++ ks') id = reserved ks id + reserved ks' id.
Proof. unfold reserved. by rewrite map_app, sum_list_with_app || (induction ks; cbn; lia). Qed.

Lemma reserved_option k id : reserved (option_list k) id = held_next k id.
Proof. destruct k; cbn; [unfold reserved; cbn; lia|done]. Qed.

Lemma elem_of_option_list {A} (x : A) (o : option A) : x ∈ option_list o ↔ o = Some x.
Proof. destruct o; cbn; [rewrite list_elem_of_singleton; naive_solver|]. split; [by intros ?%elem_of_nil|done]. Qed.

Lemma calls_held_cons call calls id : calls_held (call :: calls) id = (if decide (ec_job_id call = Some id) then 1 else 0) + calls_held calls id.
Proof. unfold calls_held. rewrite filter_cons. by destruct (decide _). Qed.

Lemma held_after calls (t : option RunTrigger) id : held_next (after calls t) id = calls_held calls id.
Proof. destruct calls; [by destruct t|done]. Qed.

Lemma bears_after calls (t : option RunTrigger) : after calls t ≫= bears = None.
Proof. destruct calls; [by destruct t|done]. Qed.

Lemma held_targets tr input targets id : calls_held (map (call_of_target tr input) targets) id = wanted targets id.
Proof. unfold calls_held, wanted. induction targets as [|x l IH]; [done|]. cbn [map]. rewrite !filter_cons. cbn. by destruct (decide _); cbn; rewrite IH. Qed.

(** What [completed] leaves. *)
Lemma completed_spec r calls (t : option RunTrigger) a a' k' : completed r calls t a = (a', k') →
  app_episodes a' = r.2 ∧ (∀ id, held_next k' id = calls_held calls id) ∧ k' ≫= bears = None.
Proof.
  unfold completed. intros [= <- <-]. split; [done|]. destruct r as [[ep| |] t']; cbn [fst]; [done|..];
    (split; [intros; apply held_after|apply bears_after]).
Qed.

Section sections.
Context (now mono : Z) (q : QueueAnswer).

(** What a section does to the tracker: the reservations its task held are still held, or
    noted, or given back; open episodes keep their runs; and a run it registers is noted. *)
Definition section_spec (k : TriggerTask) a a' (k' : option TriggerTask) : Prop :=
  (∀ res, all_count (λ id, res id + held k id) (app_episodes a) → all_count (λ id, res id + held_next k' id) (app_episodes a')) ∧
  grows (app_episodes a) (app_episodes a') ∧
  ∀ p ep, k' ≫= bears = Some p → bears k = Some p ∨ (tk_episodes (app_episodes a') !! p.1 = Some ep → p.2 ∈ ep_runs ep).

(** A section that leaves the tracker alone. *)
Lemma section_same k a a' k' :
  app_episodes a' = app_episodes a → (∀ id, held_next k' id = held k id) → (k' ≫= bears = None ∨ k' ≫= bears = bears k) →
  section_spec k a a' k'.
Proof.
  intros He Hh Hb. split; [|split].
  - intros res Hc. rewrite He. eapply all_count_ext; [|exact Hc]. intros id. cbv beta. by rewrite Hh.
  - rewrite He. apply grows_refl.
  - intros p ep Hp. left. destruct Hb as [Hb|Hb]; congruence.
Qed.

(** A section in which the tracker is asked to complete or to give up. *)
Lemma section_completed k r calls (t : option RunTrigger) a a' k' :
  completed r calls t a = (a', k') → grows (app_episodes a) r.2 →
  (∀ res, all_count (λ id, res id + held k id) (app_episodes a) → all_count (λ id, res id + calls_held calls id) r.2) →
  section_spec k a a' k'.
Proof.
  intros (He & Hh & Hb)%completed_spec Hg Hc. split; [|split].
  - intros res Hres%Hc. rewrite He. eapply all_count_ext; [|exact Hres]. intros id. cbv beta. by rewrite Hh.
  - by rewrite He.
  - rewrite Hb. done.
Qed.

Lemma routing_spec (t : RunTrigger) a : let '(a', k', _) := section now mono q (TrigRouting t) a in section_spec (TrigRouting t) a a' k'.
Proof.
  cbn [task_section]. set (input := trigger_input _ _ _ _ _).
  assert (H : let '(routes, a1) := trigger_routes agent_name t a in
    (∀ res, all_count res (app_episodes a) → all_count (λ id, res id + routed routes id) (app_episodes a1)) ∧
    grows (app_episodes a) (app_episodes a1)).
  { assert (Hn : ∀ res, all_count res (app_episodes a) → all_count (λ id, res id + routed [] id) (app_episodes a)).
    { intros res. apply all_count_ext. intros id. cbn. lia. }
    unfold trigger_routes. destruct (tr_source t); try (split; [done|apply grows_refl]).
    destruct (agent_name _) as [peer|]; [|split; [done|apply grows_refl]].
    match goal with |- context [resolve_dm ?dm ?ag (app_episodes a)] =>
      pose proof (λ res, resolve_dm_counts dm ag res (app_episodes a)) as Hr;
      pose proof (grows_resolve_dm dm ag (app_episodes a)) as Hg;
      destruct (resolve_dm dm ag (app_episodes a)) as [routes t2] end. done. }
  destruct (trigger_routes agent_name t a) as [routes a1]. destruct H as [H1 H2]. split; [|split; [done|done]].
  intros res Hres. eapply all_count_ext; [|apply H1, Hres]. intros id. cbn. rewrite plan_wanted. lia.
Qed.

Lemma resolving_spec c ctx a : let '(a', k', _) := section now mono q (CompResolving c ctx) a in section_spec (CompResolving c ctx) a a' k'.
Proof.
  cbn [task_section]. unfold resolve_completion.
  pose proof (λ res, resolve_subagent_counts (sc_task_id c) res (app_episodes a)) as Hr.
  pose proof (grows_resolve_subagent (sc_task_id c) (app_episodes a)) as Hg.
  destruct (resolve_subagent _ _) as [route t2]. cbn [fst snd] in Hr, Hg.
  assert (Hrun : section_spec (CompResolving c ctx) a (put_episodes t2 a)
    (Some (Enqueueing (call_of_completion subagent_completed_template subagent_cancelled_template c ctx route) [] None))).
  { split; [|split; [done|done]]. intros res Hres. eapply all_count_ext; [|apply Hr, Hres]. intros id. cbn [held_next from_option held].
    rewrite calls_held_cons. change (calls_held [] id) with 0. change (ec_job_id _) with (route_job_id <$> route).
    repeat case_decide; (done || lia). }
  destruct (match sc_status c with TaskCancelled => _ | _ => _ end); [|exact Hrun]. destruct route as [r|]; [exact Hrun|].
  split; [|split; [done|done]]. intros res Hres. eapply all_count_ext; [|apply Hr, Hres]. intros id. cbv beta. case_decide; [done|]. cbn. lia.
Qed.

Lemma enqueueing_spec call calls (t : option RunTrigger) a : unknown_run (qa_run_id q) (app_episodes a) →
  let '(a', k', _) := section now mono q (Enqueueing call calls t) a in section_spec (Enqueueing call calls t) a a' k'.
Proof.
  intros Hu. cbn [task_section].
  pose proof (trigger_admit_tracker now q (ec_agent_id call) (ec_session_id call) (ec_input call) (ec_context_id call) (ec_job_id call) a) as Ht.
  destruct (trigger_admit _ _ _ _ _ _ _ a) as [a1 admitted]. cbn [fst snd] in Ht.
  destruct admitted; [|by apply section_same; [..|left]]. unfold section_spec. rewrite Ht. cbn [held_next from_option held bears mbind option_bind].
  destruct (ec_job_id call) as [id|] eqn:Ej; cbn [fmap option_fmap option_map].
  - split; [|split; [apply grows_note|]].
    + intros res Hres. eapply all_count_ext; [|eapply (note_counts id); [|exact Hu|exact Hres]].
      * intros i. unfold release. rewrite calls_held_cons, Ej. case_decide as Hi.
        -- subst i. rewrite decide_True by done. lia.
        -- rewrite decide_False by congruence. lia.
      * cbv beta. rewrite calls_held_cons, Ej, decide_True by done. lia.
    + intros p ep [= <-]. right. cbn [fst snd]. unfold note_run. destruct (tk_episodes (app_episodes a) !! id) eqn:E; [|congruence].
      cbn [tk_episodes set_episodes]. rewrite lookup_insert_eq. intros [= <-]. cbn. set_solver.
  - split; [|split; [apply grows_refl|done]]. intros res. apply all_count_ext. intros i.
    rewrite calls_held_cons, Ej, decide_False by done. lia.
Qed.

Lemma section_ok k a a' k' out :
  unknown_run (qa_run_id q) (app_episodes a) → section now mono q k a = (a', k', out) →
  (∀ id run ep, bears k = Some (id, run) → tk_episodes (app_episodes a) !! id = Some ep → run ∈ ep_runs ep) →
  section_spec k a a' k'.
Proof.
  intros Hu E Hb. destruct k as [t|t|t input plan|c|c ctx|call calls t|call q' calls t|call run calls t|call calls t|ep late calls t|t].
  - injection E as <- <- <-. apply section_same; [|done|by left]. unfold announce_depth_end. by repeat case_match.
  - pose proof (routing_spec t a) as H. by rewrite E in H.
  - injection E as <- <- <-. apply section_same; [|intros; rewrite held_after; apply held_targets|left; apply bears_after].
    unfold forward_end. destruct (tr_source t); try done. by destruct (notify_dm_ended_to_webchat _ _ _ _ _ _ _ _ _ _ _ _).
  - cbn in E. destruct (session_get _ _); injection E as <- <- <-; apply section_same; (done || by left).
  - pose proof (resolving_spec c ctx a) as H. by rewrite E in H.
  - pose proof (enqueueing_spec call calls t a Hu) as H. by rewrite E in H.
  - cbn in E. destruct (qa_submitted q'); injection E as <- <- <-; apply section_same;
      (done || (intros; apply held_after) || (left; apply bears_after) || by right).
  - cbn [task_section] in E. destruct (ec_job_id call) as [id|] eqn:Ej.
    + destruct (completed _ _ _ _) as [a1 k1] eqn:Ec. injection E as <- <- <-. eapply section_completed; [exact Ec|apply grows_finish|].
      intros res Hres. apply finish_counts; [|done]. intros ep. apply Hb. cbn. by rewrite Ej.
    + injection E as <- <- <-. apply section_same; [done|intros; apply held_after|left; apply bears_after].
  - cbn [task_section] in E. destruct (ec_job_id call) as [id|] eqn:Ej.
    + destruct (completed _ _ _ _) as [a1 k1] eqn:Ec. injection E as <- <- <-. eapply section_completed; [exact Ec|apply grows_abandon|].
      intros res Hres. eapply all_count_ext; [|eapply (abandon_counts id); [|exact Hres]]; cbn [held].
      * intros i. unfold release. rewrite calls_held_cons, Ej. case_decide as Hi.
        -- subst i. rewrite decide_True by done. lia.
        -- rewrite decide_False by congruence. lia.
      * rewrite calls_held_cons, Ej, decide_True by done. lia.
    + injection E as <- <- <-. apply section_same; [done| |left; apply bears_after]. intros id. rewrite held_after. cbn [held].
      by rewrite calls_held_cons, Ej, decide_False.
  - injection E as <- <- <-. apply section_same; [apply close_episode_tracker|intros; apply held_after|left; apply bears_after].
  - injection E as <- <- <-. apply section_same; [|done|by left]. unfold start_dm. by destruct (tr_source t).
Qed.
End sections.

(** Why a firing waits for the last episode to settle: a run of an earlier episode
    that exits now takes the reservation of the new one's first turn, and the new
    episode closes before that turn has finished. *)
Lemma stale_exit_closes_episode now id session agent stale turn1 t : stale ≠ turn1 →
  ∃ ep, (on_run_complete id stale [] [] (open now id session agent turn1 t)).1 = Closed ep ∧
        ep_runs ep = [turn1] ∧ unfinished ep = [turn1].
Proof.
  intros Hne. unfold on_run_complete, open. cbn [tk_episodes set_episodes]. rewrite lookup_insert_eq. cbn [ep_finished_runs].
  rewrite bool_decide_false by set_solver. eexists. split; [reflexivity|]. split; [reflexivity|].
  unfold unfinished.
  change (ep_runs _) with [turn1]. rewrite filter_cons, decide_True; [done|]. cbn. set_solver.
Qed.

(** ** The invariant *)

(** A step that is no firing. *)
Lemma world_ok_grows w w' :
  (all_count (reserved (w_tasks w)) (app_episodes (w_app w)) → all_count (reserved (w_tasks w')) (app_episodes (w_app w'))) →
  grows (app_episodes (w_app w)) (app_episodes (w_app w')) →
  (∀ p, p ∈ w_runs w' → p ∈ w_runs w ∨ ∀ ep, tk_episodes (app_episodes (w_app w')) !! p.1 = Some ep → p.2 ∈ ep_runs ep) →
  (∀ k p, k ∈ w_tasks w' → bears k = Some p → p ∈ w_runs w') →
  world_ok w → world_ok w'.
Proof.
  intros Hc Hg Hr Hb [H1 H2 H3]. split; [by apply Hc| |done]. intros id run ep Hin He.
  destruct (Hr _ Hin) as [Hin'|Hnew]; [|by apply Hnew]. destruct (Hg _ _ He) as (ep0 & He0 & Hsub). apply Hsub. by eapply H2.
Qed.

Lemma all_count_subset res m t : all_count res t → m ⊆ tk_episodes t → all_count res (set_episodes m t).
Proof.
  intros [Ht Hc] Hm. split; [by apply tracker_ok_subset|]. intros id ep He. apply Hc. by eapply lookup_weaken.
Qed.

(** Tasks that hold and bear nothing may be added. *)
Lemma world_ok_tasks a a' ks new rs :
  world_ok (mkWorld a ks rs) →
  (all_count (reserved ks) (app_episodes a) → all_count (reserved ks) (app_episodes a')) →
  grows (app_episodes a) (app_episodes a') →
  (∀ k, k ∈ new → bears k = None ∧ ∀ id, held k id = 0) → world_ok (mkWorld a' (ks ++ new) rs).
Proof.
  intros Hok Hc Hg Hnew. apply (world_ok_grows (mkWorld a ks rs)); cbn; [|done|by left| |done].
  - intros H%Hc. eapply all_count_ext; [|exact H]. intros id. rewrite reserved_app.
    enough (reserved new id = 0) by lia. induction new as [|k new IH]; [done|]. unfold reserved in *. cbn.
    rewrite (proj2 (Hnew k (list_elem_of_here _ _))), IH; [done|]. intros k' Hk'. apply Hnew. by right.
  - intros k p [Hk|Hk]%elem_of_app Hp; [by eapply (wo_borne _ Hok)|]. by rewrite (proj1 (Hnew k Hk)) in Hp.
Qed.

Lemma world_ok_section now mono q a ks1 k ks2 rs a' k' out :
  unknown_run (qa_run_id q) (app_episodes a) → section now mono q k a = (a', k', out) →
  world_ok (mkWorld a (ks1 ++ k :: ks2) rs) →
  world_ok (mkWorld a' (ks1 ++ option_list k' ++ ks2) (option_list (k' ≫= bears) ++ rs)).
Proof.
  intros Hu E Hok. destruct (section_ok now mono q k a a' k' out Hu E) as (Hc & Hg & Hb).
  { intros id run ep Hp He. eapply (wo_runs _ Hok); [|exact He]. eapply (wo_borne _ Hok); [|exact Hp]. cbn. set_solver. }
  apply (world_ok_grows (mkWorld a (ks1 ++ k :: ks2) rs)); cbn [w_app w_tasks w_runs]; [|done| | |done].
  - intros H. eapply all_count_ext; [|apply (Hc (λ id, reserved ks1 id + reserved ks2 id))].
    + intros id. cbv beta. rewrite !reserved_app, reserved_option. lia.
    + eapply all_count_ext; [|exact H]. intros id. rewrite reserved_app. unfold reserved. cbn. lia.
  - intros p [Hp|Hp]%elem_of_app; [|by left]. apply elem_of_option_list in Hp. destruct (bears k) as [p'|] eqn:Ek.
    + destruct (decide (p' = p)) as [->|Hne]; [left; eapply (wo_borne _ Hok); [|exact Ek]; cbn; set_solver|].
      right. intros ep. destruct (Hb p ep Hp) as [[= ->]|H]; done.
    + right. intros ep. by destruct (Hb p ep Hp).
  - intros k0 p Hk0 Hp. rewrite !elem_of_app in Hk0. rewrite elem_of_app. destruct Hk0 as [Hk0|[Hk0|Hk0]].
    + right. eapply (wo_borne _ Hok); [|exact Hp]. cbn. set_solver.
    + left. apply elem_of_option_list in Hk0 as ->. cbn. rewrite Hp. set_solver.
    + right. eapply (wo_borne _ Hok); [|exact Hp]. cbn. set_solver.
Qed.

Lemma world_ok_fire now run token job session a ks rs a' r :
  settled (job_id job) ks rs → admit_finish now run token job session a = (a', Ok (Some r)) →
  world_ok (mkWorld a ks rs) → world_ok (mkWorld a' ks ((job_id job, run) :: rs)).
Proof.
  intros [Hz Hn] Ha [Hc Hr Hb].
  assert (He : app_episodes a' = open now (job_id job) session (job_agent_id job) run (app_episodes a)).
  { unfold admit_finish in Ha. destruct (session_get _ _); [|done]. destruct (match job_get _ _ with Some _ => _ | None => _ end); [done|].
    destruct (insert_run _ _ _) as [m [|]]; [|done]. by injection Ha as <- _. }
  split; cbn [w_app w_tasks w_runs] in *; rewrite ?He.
  - apply (all_count_update (reserved ks)); [done|done|by split|]. rewrite Hz. split; cbn; [apply NoDup_singleton|set_solver|].
    unfold unfinished. cbn. by rewrite decide_True by set_solver.
  - intros id run' ep Hin. cbn. intros [[<- <-]|[Hne Hep]]%lookup_insert_Some.
    + cbn. apply elem_of_cons in Hin as [[= ->]|Hin]; [set_solver|]. by apply Hn in Hin.
    + apply elem_of_cons in Hin as [[= -> ->]|Hin]; [done|]. by eapply Hr.
  - intros k p Hk Hp. right. by eapply Hb.
Qed.

Lemma absorb_counts id res t : all_count res t → all_count res (absorb_fire_if_open id t).2 ∧ grows t (absorb_fire_if_open id t).2.
Proof.
  intros Hc. unfold absorb_fire_if_open. destruct (tk_episodes t !! id) as [ep|] eqn:E; [|split; [done|apply grows_refl]].
  split; [|by apply (grows_insert id ep)]. pose proof Hc as [Ht Hcs].
  apply (all_count_update res); [done|done|by destruct (Ht _ _ E)|]. apply (counts_runs_same _ ep); [done..|by apply Hcs].
Qed.

Lemma start_counts utc mono id run res t :
  all_count res t → all_count res (start_turn_one utc mono id run t) ∧ grows t (start_turn_one utc mono id run t).
Proof.
  intros Hc. unfold start_turn_one. destruct (tk_episodes t !! id) as [ep|] eqn:E; [|split; [done|apply grows_refl]].
  case_bool_decide; [|split; [done|apply grows_refl]]. split; [|by apply (grows_insert id ep)]. pose proof Hc as [Ht Hcs].
  apply (all_count_update res); [done|done|by destruct (Ht _ _ E)|]. apply (counts_runs_same _ ep); [done..|by apply Hcs].
Qed.

Lemma world_ok_step w w' : world_step w w' → world_ok w → world_ok w'.
Proof.
  assert (Happ : ∀ a a' ks rs, world_ok (mkWorld a ks rs) →
    (all_count (reserved ks) (app_episodes a) → all_count (reserved ks) (app_episodes a') ∧ grows (app_episodes a) (app_episodes a')) →
    world_ok (mkWorld a' ks rs)).
  { intros a a' ks rs Hok H. rewrite <- (app_nil_r ks). destruct (H (wo_counts _ Hok)). apply (world_ok_tasks a); [done|done|done|]. set_solver. }
  intros Hw Hok. destruct Hw as [t a ks rs|c a ks rs|now mono q a ks1 k ks2 rs a' k' out Hu E|now fs id a ks rs|
    now run token job session a ks rs a' r Hs Ha|now r a ks rs|utc now r a ks rs|job run tool_calls a ks rs a' k' Hin E|
    p a ks rs Hnb Hf|mono a ks rs a' expired E|job a ks rs|a a' ks rs He].
  - apply (world_ok_tasks a); [done|done|apply grows_refl|]. by intros k ->%list_elem_of_singleton.
  - apply (world_ok_tasks a); [done|done|apply grows_refl|]. by intros k ->%list_elem_of_singleton.
  - by eapply world_ok_section.
  - apply (Happ a); [done|]. intros Hc. unfold admit_begin. destruct (job_get _ _) as [job|]; [|by split; [|apply grows_refl]].
    destruct (job_is_terminal _); [by split; [|apply grows_refl]|].
    pose proof (absorb_counts id _ _ Hc) as Hab. destruct (absorb_fire_if_open id (app_episodes a)) as [[] t']; [done|].
    destruct (Session.get_or_create _ _ _ _ _) as [s ss]. by split; [|apply grows_refl].
  - by eapply world_ok_fire.
  - apply (Happ a); [done|]. intros Hc. split; [by apply all_count_subset; [|apply delete_subseteq]|by apply grows_subset, delete_subseteq].
  - apply (Happ a); [done|]. intros Hc. by apply start_counts.
  - pose proof (completed_spec _ _ _ _ _ _ E) as (He & Hh & Hb). apply (world_ok_tasks a); [done|..]; rewrite ?He.
    + intros Hc. apply finish_counts; [|done]. intros ep. by apply (wo_runs _ Hok).
    + apply grows_finish.
    + intros k Hk%elem_of_option_list. subst k'. cbn in Hb. split; [done|]. intros id. exact (Hh id).
  - destruct Hok as [H1 H2 H3]. split; [done| |]; cbn in *.
    + intros id run ep [_ Hin]%list_elem_of_filter. by apply H2.
    + intros k p' Hk Hp'. apply list_elem_of_filter. split; [|by eapply H3]. intros ->. by eapply Hnb.
  - injection E as <- <-. apply (world_ok_tasks a); [done|..].
    + intros Hc. apply all_count_subset; [done|]. apply foldr_delete_subseteq.
    + apply grows_subset, foldr_delete_subseteq.
    + intros k. rewrite list_elem_of_fmap. by intros (ep & -> & _).
  - apply (Happ a); [done|]. intros Hc. split; [by apply all_count_subset; [|apply delete_subseteq]|by apply grows_subset, delete_subseteq].
  - apply (Happ a); [done|]. rewrite He. intros Hc. split; [done|apply grows_refl].
Qed.
End work.
End reservations.

(** * Properties *)

Section properties.
Context `{U : UuidCrate} `{CH : ChronoCrate} `{CR : CronCrate} `{M : MinHeap}.
Context {Js Rs Ss : Type} `{JT : JobTable Js} `{RS : RunStore Rs} `{DB : SqliteStore Ss}.
Context (ts_string : Z → string) (json_from_str : string → option json) (fresh : string) (dummy fresh_run : RunId).
Context (dm_ended_with_history dm_ended_no_history subagent_completed_template subagent_cancelled_template : string).
Context (agent_name : AgentId → option string).
Implicit Types (a : AppState Js Rs Ss).

(** C31: No reservation leaks.  Let triggers and subagent completions be handled
    section by section between their awaits, with any answers of the queues and
    any refusals of the store, and let firings, exits of runs (repeated ones
    included), sweeps and cancellations come in between.  Then an open episode
    counts exactly its runs that have not finished, each noted once, and the
    continuations that handlers under way have reserved and neither registered
    nor given up.  So with nothing pending and no such handler it is open only
    while a run of it is unfinished.  A job is taken not to be fired while a
    handler or a run of an earlier episode of it, one that was swept or
    cancelled, is still under way. *)
Theorem in_flight_exact a deadline w id ep :
  app_episodes a = tracker_new deadline →
  rtc (world_step ts_string json_from_str fresh dummy fresh_run dm_ended_with_history dm_ended_no_history
         subagent_completed_template subagent_cancelled_template agent_name) (mkWorld a [] []) w →
  tk_episodes (app_episodes (w_app w)) !! id = Some ep →
  ep_in_flight_runs ep = length (unfinished ep) + reserved (w_tasks w) id ∧
  NoDup (ep_runs ep) ∧ (∀ r, r ∈ ep_finished_runs ep → r ∈ ep_runs ep) ∧
  (ep_pending_dms ep = ∅ → ep_pending_subagents ep = ∅ → reserved (w_tasks w) id = 0 → unfinished ep ≠ []).
Proof.
  intros H0 Hw He.
  assert (Hok : world_ok w).
  { assert (Hok0 : world_ok (mkWorld a [] [])).
    { split; cbn; [|set_solver..]. rewrite H0. split; intros i e; cbn; by rewrite lookup_empty. }
    clear H0 He. revert Hok0. induction Hw as [|w1 w2 w3 H12 _ IH]; [done|]. intros H1. by eapply IH, world_ok_step. }
  destruct (wo_counts _ Hok) as [Ht Hc]. destruct (Hc _ _ He) as [A B C]. split_and!; [done..|].
  intros Hd Hs Hz Hn. destruct (Ht _ _ He) as [_ Hq _ _ _]. apply not_true_iff_false in Hq. apply Hq, is_quiescent_true.
  split_and!; [done..|]. by rewrite C, Hn, Hz.
Qed.
End properties.

(** * Witness *)

Section witness.
Import SimpleUuid SimpleChrono NullStore ListHeap.

Local Instance no_runs : RunStore unit := {|
  run_rows _ := ∅; save_run _ _ := Ok tt; save_run_with_initial_message _ _ _ := Ok (0%Z, tt);
  mark_stale_runs_failed _ := Ok (0, tt); load_all_runs _ := Ok [];
|}.

Local Instance no_cron : CronCrate := {
  Schedule := unit; schedule_from_str _ := None; schedule_next _ _ := None;
}.

Local Definition owner : AgentId := MkAgentId (MkUuid 9).
Local Definition nightly : Job := job_new (MkJobId (MkUuid 1)) 1 owner "report" (Once 5) (Some 5%Z).
Local Definition job_session : SessionId := MkSessionId (MkUuid 20).
Local Definition a_run (n : N) : RunId := MkRunId (MkUuid n).

Local Abbreviation App := (AppState TableWithBudget unit unit).
Local Definition idle : App :=
  mkApp (put_jobs {[job_id nightly := nightly]} None job_store_new) (tracker_new 1000) scheduler_new manager_new
    (get_or_create_with_id 1 job_session owner (job_context_id (job_id nightly)) (session_manager_new session_config_default)).2 ∅.

Local Definition spawned (_ : string) : option json :=
  Some (JObj [("task_id", JStr "00000000000000000000000000000063"); ("session_id", JStr "00000000000000000000000000000064")]).
Local Definition spawn_call : ToolCallRecord :=
  {| tc_seq := 1; tc_role := RoleTool; tc_tool_name := Some "invoke_agent"; tc_tool_id := None; tc_tool_invocation_id := None;
     tc_params := None; tc_result := Some "{}"; tc_timestamp := 3; tc_from_agent := None |}.
Local Definition ended_task : SubagentDone :=
  {| sc_task_id := MkUuid 99; sc_subagent_name := None; sc_status := TaskCompleted; sc_cancelled_directly := false;
     sc_summary := "done"; sc_parent_session_id := job_session; sc_parent_agent_id := owner;
     sc_subagent_session_id := MkSessionId (MkUuid 100); sc_task_description := None; sc_tool_count := None;
     sc_duration_ms := None; sc_token_usage := None; sc_parent_tool_invocation_id := None |}.
Local Definition accepted : QueueAnswer := {| qa_reserved := true; qa_submitted := Some 0; qa_run_id := a_run 31; qa_token := 8 |}.

(** The job fires, its first run hands work to a subagent and exits, and the
    subagent's end is resolved and starts a second run. *)
Local Definition fired : App := (admit_finish 2 (a_run 30) 7 nightly job_session idle).1.
Local Definition handed_over : App :=
  (completed (on_run_complete (job_id nightly) (a_run 30) (dms_opened spawned [spawn_call]) (subagents_spawned spawned [spawn_call])
     (app_episodes fired)) [] None fired).1.
Local Definition sect : TriggerTask → App → App * option TriggerTask * list TriggerOutput :=
  task_section (λ _, "") "m" (a_run 40) (a_run 41) "" "" "" "" (λ _, None) 6 6 accepted.
Local Definition k1 : TriggerTask := CompReceived ended_task.
Local Definition recorded : App := (sect k1 handed_over).1.1.
Local Definition k2 : TriggerTask := CompResolving ended_task (job_context_id (job_id nightly)).
Local Definition resolved : App := (sect k2 recorded).1.1.
Local Definition k3 : TriggerTask := default k2 (sect k2 recorded).1.2.
Local Definition continued : App := (sect k3 resolved).1.1.
Local Definition k4 : TriggerTask := default k3 (sect k3 resolved).1.2.
Local Definition open_episode (a : App) : JobEpisode :=
  default (mkEpisode (job_id nightly) job_session owner 0 None ∅ ∅ 0 [] ∅ 0 0 false) (tk_episodes (app_episodes a) !! job_id nightly).

Lemma in_flight_exact_witness :
  size (ep_pending_subagents (open_episode handed_over)) = 1 ∧ ep_in_flight_runs (open_episode handed_over) = 0 ∧
  ep_in_flight_runs (open_episode resolved) = 1 ∧ unfinished (open_episode resolved) = [] ∧
  ep_runs (open_episode continued) = [a_run 30; a_run 31] ∧
  ep_in_flight_runs (open_episode continued) = length (unfinished (open_episode continued)) + reserved [k4] (job_id nightly) ∧
  length (unfinished (open_episode continued)) = 1.
Proof.
  split; [vm_compute; reflexivity|]. split; [vm_compute; reflexivity|]. split; [vm_compute; reflexivity|].
  split; [vm_compute; reflexivity|]. split; [vm_compute; reflexivity|].
  split; [|vm_compute; reflexivity].
  refine (proj1 (in_flight_exact (λ _, "") spawned "m" (a_run 40) (a_run 41) "" "" "" "" (λ _, None) idle 1000
    (mkWorld continued [k4] [(job_id nightly, a_run 31); (job_id nightly, a_run 30)]) (job_id nightly) _ eq_refl _ _)); [|vm_compute; reflexivity].
  assert (Hfresh : ∀ a : App, bool_decide (map_Forall (λ _ e, a_run 31 ∉ ep_runs e) (tk_episodes (app_episodes a))) = true →
    unknown_run (a_run 31) (app_episodes a)).
  { intros a Ha. exact (bool_decide_eq_true_1 _ Ha). }
  eapply rtc_l; [|eapply rtc_l; [|eapply rtc_l; [|eapply rtc_l; [|eapply rtc_l; [|eapply rtc_l; [|apply rtc_refl]]]]]].
  - eapply (step_fire _ _ _ _ _ _ _ _ _ _ 2 (a_run 30) 7 nightly job_session).
    + split; [reflexivity|]. intros run. apply not_elem_of_nil.
    + vm_compute. reflexivity.
  - eapply (step_exit _ _ _ _ _ _ _ _ _ _ (job_id nightly) (a_run 30) [spawn_call] _ [] _ handed_over None).
    + left.
    + vm_compute. reflexivity.
  - apply (step_completion _ _ _ _ _ _ _ _ _ _ ended_task).
  - apply (step_section _ _ _ _ _ _ _ _ _ _ 6 6 accepted handed_over [] k1 [] _ recorded (Some k2) []).
    + apply Hfresh. vm_compute. reflexivity.
    + vm_compute. reflexivity.
  - apply (step_section _ _ _ _ _ _ _ _ _ _ 6 6 accepted recorded [] k2 [] _ resolved (Some k3) []).
    + apply Hfresh. vm_compute. reflexivity.
    + vm_compute. reflexivity.
  - apply (step_section _ _ _ _ _ _ _ _ _ _ 6 6 accepted resolved [] k3 [] _ continued (Some k4) []).
    + apply Hfresh. vm_compute. reflexivity.
    + vm_compute. reflexivity.
Defined.
End witness.
