(* ===== verification/JobTasks.v ===== *)
(** The tasks that fire, close, create and cancel scheduled jobs, interleaved.

    The parts of [JobEngine.v] run in different tasks of the gateway
    ([runs/notifications.rs], [jobs.rs], [server/mod.rs]): the timer, the fire
    loop, one closing task per finished episode, the handlers of requests, the
    trigger loops.  An [Engine] is the shared state with the point each task has
    reached; a label is what one task does between two awaits.  The gate that
    serialises the close of a job's episode with its cancellation is held by a
    closing task from its check to its end.  What other requests do to runs and
    sessions is left open. *)
From S2P Require Import Prelude Ident Json Lifecycle Run Job Session EventFeed MessageBus JobEpisode Scheduler RunManager RunControl JobStore Notify JobEngine Triggers.

(** * Tasks *)

(** Where [scheduler_fire_loop] is. *)
Inductive FireLoop :=
| LoopReceiving
| LoopReserving (id : JobId)
| LoopGuarding (job : Job) (session : SessionId)
| LoopArming (id : JobId) (at_ : Z)
| LoopSubmitting (r : AdmittedJobRun)
| LoopStopped.

(** Where [close_episode] is; from the second stage on it holds the job's gate. *)
Inductive CloseStage :=
| CloseWaiting
| CloseNotifying (job : Job)
| ClosePlanning (job : Job)
| CloseWriting (p : ClosePlan) (retries : nat)
| CloseArming (p : ClosePlan) (r : Result RecordRunOutcome AlmsError).

Record Closer := { cl_episode : JobEpisode; cl_timed_out : bool; cl_stage : CloseStage }.

Definition cl_job (c : Closer) : JobId := ep_job_id (cl_episode c).
Definition at_stage (c : Closer) (st : CloseStage) : Closer :=
  {| cl_episode := cl_episode c; cl_timed_out := cl_timed_out c; cl_stage := st |}.

(** Where a [cancel_job] that committed is. *)
Inductive CancelStage :=
| CancelSweeping
| CancelUnscheduling (episode : option JobEpisode)
| CancelTearing (episode : option JobEpisode).

(** Why a job is no longer driven although it has not ended.  The log has an
    error for each but the dropped handler. *)
Inductive AbandonCause :=
| FailureNotStored
| CompletionNotStored
| NoOccurrence
| HandlerDropped
| QueueClosed
| BootNotStored.

Inductive Output :=
| CardShown (id : JobId)
| RunFired (id : JobId) (run : RunId)
| RunTriggered (context_id : string) (run : RunId)
| CancelDone (id : JobId)
| Abandoned (id : JobId) (why : AbandonCause).

Record Engine (Js Rs Ss : Type) `{M : MinHeap} := mkEngine {
  en_app : AppState Js Rs Ss;
  en_loop : FireLoop;
  (** How many ids the loop has taken from the fire channel. *)
  en_received : nat;
  en_closers : list Closer;
  (** [create_job] handlers about to schedule the job they stored. *)
  en_creating : list (JobId * Z);
  en_cancelling : list (JobId * CancelStage);
}.
Arguments mkEngine {Js Rs Ss M}.
Arguments en_app {Js Rs Ss M}.
Arguments en_loop {Js Rs Ss M}.
Arguments en_received {Js Rs Ss M}.
Arguments en_closers {Js Rs Ss M}.
Arguments en_creating {Js Rs Ss M}.
Arguments en_cancelling {Js Rs Ss M}.

Section engine.
Context `{U : UuidCrate} `{CH : ChronoCrate} `{CR : CronCrate} `{M : MinHeap}.
Context {Js Rs Ss : Type} `{JT : JobTable Js} `{RS : RunStore Rs} `{DB : SqliteStore Ss}.
Context (ts_string : Z → string) (json_from_str : string → option json).

Abbreviation App := (AppState Js Rs Ss).
Abbreviation Eng := (Engine Js Rs Ss).
Implicit Types (a : App) (e : Eng).

Inductive Label :=
| LTimer (turn : LoopTurn)
| LReceive
| LReserved (now : Z) (fresh : SessionId)
| LQueueClosed
| LAdmit (now mono : Z) (run_id : RunId) (token : Z)
| LArm
| LSubmit (now : Z) (queued_ahead : option nat)
| LStartTurn (utc now : Z) (r : AdmittedJobRun)
| LRunExit (job : JobId) (run : RunId) (tool_calls : list ToolCallRecord)
| LAbandonContinuation (job : JobId)
| LTrigger (now : Z) (q : QueueAnswer) (agent : AgentId) (session : SessionId) (input context_id : string) (job : option JobId)
| LResolveDm (dm : SessionId) (agent : AgentId)
| LResolveSubagent (task : Uuid)
| LSweep (mono : Z)
| LClose (i : nat) (now mono : Z) (fresh : string) (dummy fresh_run : RunId)
| LCreate (now mono : Z) (fresh : JobId) (req : CreateJobRequest)
| LSchedule (i : nat)
| LDropCreate (i : nat)
| LCancel (id : JobId)
| LCancelNext (i : nat)
| LWorld (m : RunManager Rs) (s : SessionManager Ss).

Definition put_app a e : Eng := mkEngine a (en_loop e) (en_received e) (en_closers e) (en_creating e) (en_cancelling e).
Definition put_loop (l : FireLoop) e : Eng :=
  mkEngine (en_app e) l (en_received e) (en_closers e) (en_creating e) (en_cancelling e).
Definition put_received (n : nat) e : Eng :=
  mkEngine (en_app e) (en_loop e) n (en_closers e) (en_creating e) (en_cancelling e).
Definition put_closers (cs : list Closer) e : Eng :=
  mkEngine (en_app e) (en_loop e) (en_received e) cs (en_creating e) (en_cancelling e).
Definition put_creating (cs : list (JobId * Z)) e : Eng :=
  mkEngine (en_app e) (en_loop e) (en_received e) (en_closers e) cs (en_cancelling e).
Definition put_cancelling (cs : list (JobId * CancelStage)) e : Eng :=
  mkEngine (en_app e) (en_loop e) (en_received e) (en_closers e) (en_creating e) cs.

Definition start_close (ep : JobEpisode) (timed_out : bool) : Closer :=
  {| cl_episode := ep; cl_timed_out := timed_out; cl_stage := CloseWaiting |}.

(** ** The timer and the fire loop *)

(** The ids on the fire channel. *)
Definition channel e : list JobId := drop (en_received e) (default [] (sc_fired (app_scheduler (en_app e)))).

Definition timer_step (turn : LoopTurn) e : option Eng :=
  s ← run_loop_turn turn (app_scheduler (en_app e)); Some (put_app (put_scheduler s (en_app e)) e).

Definition receive_step e : option Eng :=
  match en_loop e, head (channel e) with
  | LoopReceiving, Some id =>
      let e1 := put_received (S (en_received e)) e in
      Some match fire_agent id (en_app e) with Some _ => put_loop (LoopReserving id) e1 | None => e1 end
  | _, _ => None
  end.

Definition reserved_step (now : Z) (fresh : SessionId) e : option Eng :=
  match en_loop e with
  | LoopReserving id =>
      let '(a, r) := admit_begin now fresh id (en_app e) in
      Some (put_loop match r with Some (job, session) => LoopGuarding job session | None => LoopReceiving end (put_app a e))
  | _ => None
  end.

Definition queue_closed_step e : option (Eng * list Output) :=
  match en_loop e with
  | LoopReserving id => Some (put_loop LoopStopped e, [Abandoned id QueueClosed])
  | _ => None
  end.

Definition admit_step (now mono : Z) (run_id : RunId) (token : Z) e : option (Eng * list Output) :=
  match en_loop e with
  | LoopGuarding job session =>
      Some match admit_finish now run_id token job session (en_app e) with
      | (a, Ok (Some r)) => (put_loop (LoopSubmitting r) (put_app a e), [RunFired (ar_job_id r) (ar_run_id r)])
      | (a, Ok None) => (put_loop LoopReceiving (put_app a e), [])
      | (a, Err error) =>
          match dispatch_failure_write now mono (job_id job) error a with
          | (a', Ok (Some at_)) => (put_loop (LoopArming (job_id job) at_) (put_app a' e), [])
          | (a', Ok None) => (put_loop LoopReceiving (put_app a' e), [])
          | (a', Err _) => (put_loop LoopReceiving (put_app a' e), [Abandoned (job_id job) FailureNotStored])
          end
      end
  | _ => None
  end.

Definition arm_step e : option Eng :=
  match en_loop e with
  | LoopArming id at_ => Some (put_loop LoopReceiving (put_app (schedule_job id at_ (en_app e)) e))
  | _ => None
  end.

Definition submit_step (now : Z) (queued_ahead : option nat) e : option (Eng * list Output) :=
  match en_loop e with
  | LoopSubmitting r =>
      Some match queued_ahead with
      | Some n => (put_loop LoopReceiving (put_app (announce_job_run ts_string now r n (en_app e)) e), [])
      | None => (put_loop LoopStopped (put_app (abandon_admitted_job_run now r (en_app e)) e), [Abandoned (ar_job_id r) QueueClosed])
      end
  | _ => None
  end.

(** ** Runs and episodes *)

(** A completion that closed the episode starts a closing task. *)
Definition completed_step (c : RunCompletion * JobEpisodeTracker) e : Eng :=
  let e1 := put_app (put_episodes c.2 (en_app e)) e in
  match c.1 with
  | Closed ep => put_closers (en_closers e ++ [start_close ep false]) e1
  | Open | Untracked => e1
  end.

Definition sweep_step (mono : Z) e : Eng :=
  let '(a, expired) := sweep_episodes mono (en_app e) in
  put_closers (en_closers e ++ map (λ ep, start_close ep true) expired) (put_app a e).

Definition trigger_step (now : Z) (q : QueueAnswer) (agent : AgentId) (session : SessionId) (input context_id : string)
    (job : option JobId) e : Eng * list Output :=
  let '(a, admitted) := trigger_admit now q agent session input context_id job (en_app e) in
  (put_app a e, if admitted then [RunTriggered context_id (qa_run_id q)] else []).

(** ** Closing *)

Definition holds_gate (c : Closer) : bool := match cl_stage c with CloseWaiting => false | _ => true end.

Definition gate_free (id : JobId) e : bool :=
  forallb (λ c, negb (holds_gate c && bool_decide (cl_job c = id))) (en_closers e).

(** What a finished close leaves undone. *)
Definition close_reports (id : JobId) (p : ClosePlan) (r : Result RecordRunOutcome AlmsError) : list Output :=
  match cp_cron p, r with
  | None, Err _ => [Abandoned id CompletionNotStored]
  | Some _, Ok Recorded => match cp_next p with Some _ => [] | None => [Abandoned id NoOccurrence] end
  | Some cron, Err _ => match next_after cron (cp_now p) with Some _ => [] | None => [Abandoned id NoOccurrence] end
  | _, _ => []
  end.

Definition close_step (i : nat) (now mono : Z) (fresh : string) (dummy fresh_run : RunId) e : option (Eng * list Output) :=
  c ← en_closers e !! i;
  let go st a := put_closers (<[i := at_stage c st]> (en_closers e)) (put_app a e) in
  let stop a := put_closers (delete i (en_closers e)) (put_app a e) in
  match cl_stage c with
  | CloseWaiting =>
      if gate_free (cl_job c) e then
        Some (match close_check (cl_job c) (en_app e) with
              | Some job => go (CloseNotifying job) (en_app e)
              | None => stop (en_app e)
              end, [])
      else None
  | CloseNotifying job =>
      Some (go (ClosePlanning job)
              (close_notify ts_string now fresh dummy fresh_run job (cl_episode c) (cl_timed_out c) (en_app e)),
            [CardShown (cl_job c)])
  | ClosePlanning job =>
      Some (go (CloseWriting (close_plan now job (cl_episode c) (cl_timed_out c)) (JOB_REARM_MAX_ATTEMPTS - 1)) (en_app e), [])
  | CloseWriting p retries =>
      Some (match close_write (cl_job c) p (en_app e), retries with
            | (a, Ok outcome), _ => go (CloseArming p (Ok outcome)) a
            | (a, Err _), S n => go (CloseWriting p n) a
            | (a, Err err), 0 => go (CloseArming p (Err err)) a
            end, [])
  | CloseArming p r => Some (stop (close_finish mono (cl_job c) p r (en_app e)), close_reports (cl_job c) p r)
  end.

(** ** Requests *)

Definition create_step (now mono : Z) (fresh : JobId) (req : CreateJobRequest) e : option Eng :=
  match job_get fresh (app_jobs (en_app e)) with
  | Some _ => None
  | None =>
      Some match create_job now mono fresh req (en_app e) with
      | (a, Ok (job, at_)) => put_creating (en_creating e ++ [(job_id job, at_)]) (put_app a e)
      | (a, Err _) => put_app a e
      end
  end.

Definition schedule_step (i : nat) e : option Eng :=
  c ← en_creating e !! i;
  Some (put_creating (delete i (en_creating e)) (put_app (schedule_job c.1 c.2 (en_app e)) e)).

(** The connection closed while the handler waited for the scheduler's lock. *)
Definition drop_create_step (i : nat) e : option (Eng * list Output) :=
  c ← en_creating e !! i;
  Some (put_creating (delete i (en_creating e)) e, [Abandoned c.1 HandlerDropped]).

Definition cancel_step (id : JobId) e : option Eng :=
  if gate_free id e then
    Some match cancel_commit id (en_app e) with
    | (a, CancelCommitted) => put_cancelling (en_cancelling e ++ [(id, CancelSweeping)]) (put_app a e)
    | (a, CancelAnswered _) => put_app a e
    end
  else None.

Definition cancel_next_step (i : nat) e : option (Eng * list Output) :=
  c ← en_cancelling e !! i;
  let go st a := put_cancelling (<[i := (c.1, st)]> (en_cancelling e)) (put_app a e) in
  Some match c.2 with
  | CancelSweeping => let '(a, ep) := cancel_sweep c.1 (en_app e) in (go (CancelUnscheduling ep) a, [])
  | CancelUnscheduling ep => (go (CancelTearing ep) (cancel_scheduled c.1 (en_app e)), [])
  | CancelTearing ep =>
      let a := match ep with Some ep => (teardown_episode ep (en_app e)).1 | None => en_app e end in
      (put_cancelling (delete i (en_cancelling e)) (put_app a e), [CancelDone c.1])
  end.

(** ** Steps *)

Definition quiet (o : option Eng) : option (Eng * list Output) := (λ e, (e, [])) <$> o.

Definition engine_step (l : Label) e : option (Eng * list Output) :=
  match l with
  | LTimer turn => quiet (timer_step turn e)
  | LReceive => quiet (receive_step e)
  | LReserved now fresh => quiet (reserved_step now fresh e)
  | LQueueClosed => queue_closed_step e
  | LAdmit now mono run_id token => admit_step now mono run_id token e
  | LArm => quiet (arm_step e)
  | LSubmit now queued_ahead => submit_step now queued_ahead e
  | LStartTurn utc now r => Some (put_app (start_admitted utc now r (en_app e)) e, [])
  | LRunExit job run tool_calls =>
      Some (completed_step (on_run_complete job run (dms_opened json_from_str tool_calls)
                              (subagents_spawned json_from_str tool_calls) (app_episodes (en_app e))) e, [])
  | LAbandonContinuation job => Some (completed_step (abandon_reserved_continuation job (app_episodes (en_app e))) e, [])
  | LTrigger now q agent session input context_id job => Some (trigger_step now q agent session input context_id job e)
  | LResolveDm dm agent => Some (put_app (put_episodes (resolve_dm dm agent (app_episodes (en_app e))).2 (en_app e)) e, [])
  | LResolveSubagent task => Some (put_app (put_episodes (resolve_subagent task (app_episodes (en_app e))).2 (en_app e)) e, [])
  | LSweep mono => Some (sweep_step mono e, [])
  | LClose i now mono fresh dummy fresh_run => close_step i now mono fresh dummy fresh_run e
  | LCreate now mono fresh req => quiet (create_step now mono fresh req e)
  | LSchedule i => quiet (schedule_step i e)
  | LDropCreate i => drop_create_step i e
  | LCancel id => quiet (cancel_step id e)
  | LCancelNext i => cancel_next_step i e
  | LWorld m s => Some (put_app (put_sessions s (put_run_manager m (en_app e))) e, [])
  end.

Fixpoint engine_run (ls : list Label) e : option (Eng * list Output) :=
  match ls with
  | [] => Some (e, [])
  | l :: ls' =>
      match engine_step l e with
      | Some (e1, out1) => match engine_run ls' e1 with Some (e2, out2) => Some (e2, out1 ++ out2) | None => None end
      | None => None
      end
  end.

(** ** Start-up *)

(** Jobs that have not ended and will never fire again. *)
Definition boot_silent (now : Z) (jobs : list Job) : list Output :=
  omap (λ job, if job_is_terminal (job_status job) then None
               else match bootstrap_fire_at job now with
                    | Some _ => None
                    | None => Some (Abandoned (job_id job) NoOccurrence)
                    end) jobs.

(** The engine after [bootstrap_scheduler]; no task has run yet. *)
Definition boot (now mono deadline : Z) (s : JobStore Js) (m : RunManager Rs) (sessions : SessionManager Ss) : Eng * list Output :=
  let a0 := mkApp s (tracker_new deadline) (with_fire_channel scheduler_new) m sessions ∅ in
  let '(a, skipped) := bootstrap_scheduler now mono a0 in
  (mkEngine a LoopReceiving 0 [] [] [],
   boot_silent now (job_list s) ++ map (λ id, Abandoned id BootNotStored) skipped).

Inductive engine_reachable : Eng → list Output → Prop :=
| en_boot st now mono deadline s m sessions :
    job_store_open st = Ok s →
    engine_reachable (boot now mono deadline s m sessions).1 (boot now mono deadline s m sessions).2
| en_step l e outs e' new :
    engine_reachable e outs → engine_step l e = Some (e', new) → engine_reachable e' (outs ++ new).

(** ** Drivers *)

Definition count (id : JobId) (l : list JobId) : nat := length (filter (λ i, i = id) l).

(** The job the fire loop is working on; once its episode is open the episode
    counts. *)
Definition loop_job (l : FireLoop) : list JobId :=
  match l with
  | LoopReserving id | LoopArming id _ => [id]
  | LoopGuarding job _ => [job_id job]
  | LoopReceiving | LoopSubmitting _ | LoopStopped => []
  end.

Definition pending_ids (s : Scheduler) : list JobId := map pj_id (heap_items (sc_pending s)).
Definition opens (id : JobId) (t : JobEpisodeTracker) : nat := if decide (is_Some (tk_episodes t !! id)) then 1 else 0.

(** Everything that will fire the job, or is firing or closing it. *)
Definition drivers (id : JobId) e : nat :=
  count id (pending_ids (app_scheduler (en_app e))) +
  count id (channel e) +
  count id (loop_job (en_loop e)) +
  opens id (app_episodes (en_app e)) +
  count id (map cl_job (en_closers e)) +
  count id (map fst (en_creating e)).
End engine.

#[global] Arguments count : simpl never.
#[global] Arguments pending_ids : simpl never.
#[global] Arguments opens : simpl never.
