(* ===== verification/JobLiveness.v ===== *)
(** Every job is driven: the invariant of the engine of [JobTasks.v].

    [engine_ok] holds from start-up on ([boot_ok]) and every label keeps it
    ([engine_step_ok]): a job has at most one driver, and a job that has not
    ended has one unless an output says why not.  From it follow the properties
    at the end: jobs stay driven, cancelled jobs stay silent, and a closing task
    does what [close_episode] does. *)
From S2P Require Import Prelude Ident Json Lifecycle Run Job Session EventFeed MessageBus JobEpisode Scheduler RunManager RunControl JobStore Notify JobEngine Triggers JobTasks.

(** * Counting drivers *)

Section counting.
Implicit Types (id : JobId) (l : list JobId).

Lemma count_app id l1 l2 : count id (l1 ++ l2) = count id l1 + count id l2.
Proof. unfold count. by rewrite filter_app, length_app. Qed.

Lemma count_nil id : count id [] = 0.
Proof. done. Qed.

Lemma count_cons id i l : count id (i :: l) = (if decide (i = id) then 1 else 0) + count id l.
Proof. unfold count. rewrite filter_cons. by destruct (decide (i = id)). Qed.

#[export] Instance count_proper id : Proper ((≡ₚ) ==> (=)) (count id).
Proof. intros l1 l2 H. unfold count. by rewrite H. Qed.

Lemma count_pos id l : id ∈ l ↔ 0 < count id l.
Proof.
  induction l as [|i l IHl]; [split; [by intros ?%elem_of_nil|rewrite count_nil; lia]|].
  rewrite elem_of_cons, count_cons, IHl. destruct (decide (i = id)); [split; [lia|naive_solver]|].
  split; [intros [->|]; [done|lia]|]. right. lia.
Qed.

Lemma count_zero id l : count id l = 0 ↔ id ∉ l.
Proof. rewrite count_pos. lia. Qed.

(** Replacing or deleting an entry of a list of tasks. *)
Lemma map_insert_same {A} (f : A → JobId) i (x y : A) (l : list A) :
  l !! i = Some x → f y = f x → map f (<[i := y]> l) = map f l.
Proof.
  intros Hi Hf. change (map f (<[i := y]> l)) with (f <$> <[i := y]> l). rewrite list_fmap_insert. apply list_insert_id. by rewrite list_lookup_fmap, Hi, Hf.
Qed.

Lemma count_delete {A} (f : A → JobId) id i (x : A) (l : list A) :
  l !! i = Some x →
  count id (map f l) = (if decide (f x = id) then 1 else 0) + count id (map f (delete i l)).
Proof. intros Hi. by rewrite (delete_Permutation l i x Hi) at 1; cbn [map]; rewrite count_cons. Qed.
End counting.

(** ** The timer *)

Section timer.
Context `{M : MinHeap} `{!MinHeapLaws M}.
Implicit Types (s : Scheduler).

Definition all_once s : Prop := Forall (λ j, pj_interval j = None) (heap_items (sc_pending s)).

Lemma pending_schedule id at_ s : pending_ids (schedule_once id at_ s) ≡ₚ id :: pending_ids s.
Proof. unfold pending_ids. cbn. by rewrite heap_items_push. Qed.

Lemma all_once_schedule id at_ s : all_once s → all_once (schedule_once id at_ s).
Proof. unfold all_once. cbn. rewrite heap_items_push. by constructor. Qed.

Lemma rearm_all_once c (due : list PendingJob) : Forall (λ j, pj_interval j = None) due → flat_map (rearm c) due = [].
Proof. induction 1 as [|j due Hj _ IH]; [done|]. cbn. unfold rearm at 1. by rewrite Hj, IH. Qed.

(** A turn moves due entries of live jobs to the channel and drops entries of
    cancelled jobs only. *)
Lemma turn_moves turn s s' :
  all_once s → run_loop_turn turn s = Some s' →
  all_once s' ∧ sc_cancelled s' = sc_cancelled s ∧
  ∃ ids dropped, sc_fired s' = (λ sent, sent ++ ids) <$> sc_fired s ∧
    pending_ids s ≡ₚ dropped ++ ids ++ pending_ids s' ∧ Forall (λ i, i ∈ sc_cancelled s) dropped.
Proof.
  intros Ho. unfold run_loop_turn. destruct (next_at_spec s) as ((dr & Hp & Hdr) & Hc & _ & Hf & _).
  destruct (next_at s) as [at_ s1]. cbn [fst snd] in *. intros H.
  assert (Ho1 : all_once s1) by (unfold all_once in *; rewrite Hp in Ho; apply Forall_app in Ho as [_ Ho]; exact Ho).
  assert (Hd1 : Forall (λ i, i ∈ sc_cancelled s) (map pj_id dr)) by (by apply Forall_fmap).
  destruct turn as [|now ran_at].
  { injection H as <-. split_and!; [done..|]. exists [], (map pj_id dr). split_and!; [|unfold pending_ids; by rewrite Hp, map_app|done].
    rewrite Hf. destruct (sc_fired s); cbn; [by rewrite app_nil_r|done]. }
  destruct at_ as [t|]; [|done]. destruct (_ && _); [|done]. injection H as <-.
  destruct (process_due_exact now ran_at s1) as (due & rest & Hp1 & _ & _ & _ & _ & Hf1 & Hrest & Hc1).
  unfold all_once in Ho1. rewrite Hp1 in Ho1. apply Forall_app in Ho1 as [Hod Hor].
  rewrite (rearm_all_once _ _ Hod) in Hrest. cbn in Hrest.
  split_and!; [unfold all_once; by rewrite Hrest|by rewrite Hc1|].
  exists (map pj_id (live (sc_cancelled s1) due)),
    (map pj_id dr ++ map pj_id (filter (λ j, pj_id j ∈ sc_cancelled s1) due)).
  split_and!.
  - by rewrite Hf1, Hf.
  - unfold pending_ids, live. rewrite Hp, Hp1, Hrest, (filter_split (λ j, pj_id j ∈ sc_cancelled s1) due) at 1.
    by rewrite !map_app, <- !app_assoc.
  - apply Forall_app. split; [done|]. apply Forall_fmap, Forall_forall. intros j [Hj _]%list_elem_of_filter. cbn. by rewrite <- Hc.
Qed.
End timer.

(** ** The jobs *)

(** What a change that is no cancellation leaves of a job. *)
Record same_job (j j' : Job) : Prop := {
  sj_id : job_id j' = job_id j;
  sj_schedule : job_schedule j' = job_schedule j;
  sj_terminal : job_is_terminal (job_status j) = true → j' = j;
}.

Definition evolves (m m' : gmap JobId Job) : Prop := ∀ id, option_Forall2 same_job (m !! id) (m' !! id).

(** Nothing is cancelled. *)
Definition uncancelled (m m' : gmap JobId Job) : Prop :=
  ∀ id j j', m !! id = Some j → m' !! id = Some j' → job_status j' = JobCancelled → job_status j = JobCancelled.

Lemma same_job_refl j : same_job j j.
Proof. by split. Qed.

Lemma evolves_refl m : evolves m m.
Proof. intros id. destruct (m !! id); constructor. apply same_job_refl. Qed.

Lemma same_job_trans j1 j2 j3 : same_job j1 j2 → same_job j2 j3 → same_job j1 j3.
Proof.
  intros [A1 A2 A3] [B1 B2 B3]. split; [congruence|congruence|]. intros Ht. rewrite B3; [by apply A3|]. by rewrite (A3 Ht).
Qed.

Lemma evolves_trans m1 m2 m3 : evolves m1 m2 → evolves m2 m3 → evolves m1 m3.
Proof.
  intros H1 H2 id. specialize (H1 id). specialize (H2 id). destruct H1 as [j1 j2 H1|]; inversion H2; subst; constructor.
  by eapply same_job_trans.
Qed.

Lemma uncancelled_refl m : uncancelled m m.
Proof. intros id j j' H1 H2. congruence. Qed.
#[export] Hint Resolve same_job_refl evolves_refl uncancelled_refl : core.

Lemma evolves_lookup m m' id j' : evolves m m' → m' !! id = Some j' → ∃ j, m !! id = Some j ∧ same_job j j'.
Proof. intros He Hj. specialize (He id). rewrite Hj in He. inversion He; subst. eauto. Qed.

Lemma evolves_keeps m m' id j : evolves m m' → m !! id = Some j → ∃ j', m' !! id = Some j' ∧ same_job j j'.
Proof. intros He Hj. specialize (He id). rewrite Hj in He. inversion He; subst. eauto. Qed.

Lemma evolves_none m m' id : evolves m m' → m' !! id = None → m !! id = None.
Proof. intros He Hj. specialize (He id). rewrite Hj in He. by inversion He. Qed.

Lemma same_job_live j j' : same_job j j' → job_is_terminal (job_status j') = false → job_is_terminal (job_status j) = false.
Proof.
  intros [_ _ Ht] Hl. destruct (job_is_terminal (job_status j)) eqn:E; [|done]. specialize (Ht eq_refl). congruence.
Qed.

Lemma same_job_transition j t : same_job j (job_transition j t).1.
Proof.
  destruct (job_transition_keeps j t) as (H1 & H2 & _). split; [done..|]. intros Ht.
  destruct (job_transition j t) as [j' o] eqn:E. by destruct (job_transition_cases _ _ _ _ E) as [(-> & _)|(Hn & _)]; [|congruence].
Qed.

Definition is_cancel (t : JobTransition) : bool := match t with CancelJob => true | _ => false end.

Lemma transition_status j t j' o :
  job_transition j t = (j', o) → is_cancel t = false → job_status j' = JobCancelled → job_status j = JobCancelled.
Proof.
  intros Ht Hc Hs. destruct (job_transition_cases _ _ _ _ Ht) as [(-> & _)|(_ & _ & _ & -> & _)]; [done|].
  rewrite job_effect_status in Hs. destruct t; simpl in *; try case_match; simplify_eq; done.
Qed.

Section store.
Context {Js : Type} `{JT : JobTable Js} `{UuidCrate}.
Implicit Types (s : JobStore Js).

Lemma evolves_transition id t s : evolves (js_jobs s) (js_jobs (transition_job id t s).1).
Proof.
  destruct (transition_job_effect id t s) as [| | |j j' o store Hj Ht Ho Hp]; [done..|]. cbn. intros i.
  destruct (decide (i = id)) as [->|]; [rewrite lookup_insert_eq, Hj|rewrite lookup_insert_ne by done; by apply evolves_refl].
  constructor. pose proof (same_job_transition j t) as Hs. by rewrite Ht in Hs.
Qed.

Lemma uncancelled_transition id t s : is_cancel t = false → uncancelled (js_jobs s) (js_jobs (transition_job id t s).1).
Proof.
  intros Hc. destruct (transition_job_effect id t s) as [| | |j j' o store Hj Ht Ho Hp]; [done..|]. cbn.
  intros i j1 j1' H1 [[<- <-]|[_ Hl]]%lookup_insert_Some; [|congruence]. simplify_eq. by eapply transition_status.
Qed.

(** A legal request of a live job fails or is applied. *)
Lemma transition_live id t s j :
  js_jobs s !! id = Some j → job_is_terminal (job_status j) = false → job_legal j t = true →
  (match t with SetNextRunAt _ => False | _ => True end) →
  (∃ e, (transition_job id t s).2 = Err e) ∨
  ∃ from to rev j', (transition_job id t s).2 = Ok (Some (Applied from to rev)) ∧
    js_jobs (transition_job id t s).1 !! id = Some j' ∧ job_status j' = to ∧ job_status j' = job_target j t.
Proof.
  intros Hj Hl Hlegal Ht. unfold transition_job. rewrite Hj. unfold job_transition. rewrite Hl, Hlegal.
  assert ((match t with SetNextRunAt next => bool_decide (job_next_run_at j = next) | _ => false end) = false) as ->
    by (by destruct t).
  cbn [negb orb]. destruct (MAX_LIFECYCLE_REVISION <=? job_lifecycle_revision j)%Z eqn:Er.
  { left. cbn. rewrite Er. eauto. }
  destruct (job_effect j t) as [j' to] eqn:Ee. cbn [andb is_applied].
  destruct (persist_job j' s) as [store|err]; [|left; eauto]. right. exists (job_status j), to, (job_lifecycle_revision j + 1)%Z, j'.
  pose proof (job_effect_status j t) as H1. pose proof (job_effect_target j t) as H2. rewrite Ee in H1, H2. cbn in *.
  split_and!; [done|by rewrite lookup_insert_eq|done|congruence].
Qed.
End store.

(** ** Closing tasks *)

Definition ended (m : gmap JobId Job) (id : JobId) : Prop :=
  ∀ j, m !! id = Some j → job_is_terminal (job_status j) = true.

Lemma ended_evolves m m' id : evolves m m' → ended m id → ended m' id.
Proof.
  intros He Hd j' Hj'. destruct (evolves_lookup _ _ _ _ He Hj') as (j & Hj & Hs).
  rewrite (sj_terminal _ _ Hs (Hd j Hj)). by apply Hd.
Qed.

(** A plan made for the job's schedule. *)
Definition plan_fits (p : ClosePlan) (j : Job) : Prop :=
  match job_schedule j with
  | Once _ => cp_cron p = None ∧ cp_status p = JobCompleted ∧
              ∃ late : bool, cp_reason p = Some (if late then DeadlineReached else ReasonCompleted)
  | Recurring cron => cp_cron p = Some cron ∧ cp_status p = JobActive
  end.

(** An answer that leaves the job as its plan wants it. *)
Definition outcome_fits (m : gmap JobId Job) (id : JobId) (p : ClosePlan) (r : Result RecordRunOutcome AlmsError) : Prop :=
  match r with
  | Ok Recorded => cp_cron p = None → ended m id
  | Ok _ => ended m id
  | Err _ => True
  end.

(** A task that holds the gate works on a stored job that is not cancelled. *)
Definition closer_ok (m : gmap JobId Job) (c : Closer) : Prop :=
  match cl_stage c with
  | CloseWaiting => True
  | st =>
      ∃ j, m !! cl_job c = Some j ∧ job_status j ≠ JobCancelled ∧
        match st with
        | CloseWaiting => True
        | CloseNotifying job | ClosePlanning job => job_schedule job = job_schedule j
        | CloseWriting p _ => plan_fits p j
        | CloseArming p r => plan_fits p j ∧ outcome_fits m (cl_job c) p r
        end
  end.

Lemma plan_fits_same p j j' : same_job j j' → plan_fits p j → plan_fits p j'.
Proof. intros [_ Hs _]. unfold plan_fits. by rewrite Hs. Qed.

Lemma closer_ok_evolves m m' c :
  evolves m m' → (cl_stage c = CloseWaiting ∨ ∀ j j', m !! cl_job c = Some j → m' !! cl_job c = Some j' →
    job_status j' = JobCancelled → job_status j = JobCancelled) →
  closer_ok m c → closer_ok m' c.
Proof.
  intros He Hu. unfold closer_ok. destruct (cl_stage c) eqn:Est; [done|..];
    (intros (j & Hj & Hc & Hst); destruct (evolves_keeps _ _ _ _ He Hj) as (j' & Hj' & Hs);
     exists j'; split; [done|]; split; [destruct Hu as [Hu|Hu]; [done|]; intros Hc'; by eapply Hc, Hu|]).
  - by rewrite (sj_schedule _ _ Hs).
  - by rewrite (sj_schedule _ _ Hs).
  - by eapply plan_fits_same.
  - destruct Hst as [Hp Ho]. split; [by eapply plan_fits_same|]. unfold outcome_fits in *.
    destruct r as [[]|]; [intros Hn; eapply ended_evolves; [done|auto]|eapply ended_evolves; [done|auto]..|done].
Qed.

Section writes.
Context `{U : UuidCrate} `{CH : ChronoCrate} `{CR : CronCrate} `{M : MinHeap}.
Context {Js Rs Ss : Type} `{JT : JobTable Js} `{RS : RunStore Rs} `{DB : SqliteStore Ss}.

Abbreviation App := (AppState Js Rs Ss).
Implicit Types (a : App).

Definition jobs_of a : gmap JobId Job := js_jobs (app_jobs a).

(** Two states that differ in the stored jobs at most. *)
Definition same_but_jobs a a' : Prop :=
  app_episodes a' = app_episodes a ∧ app_scheduler a' = app_scheduler a ∧
  operator_cancelled_jobs a' = operator_cancelled_jobs a.

Lemma close_plan_fits now job j ep late : job_schedule job = job_schedule j → plan_fits (close_plan now job ep late) j.
Proof.
  intros Hs. unfold plan_fits, close_plan. rewrite <- Hs. destruct (job_schedule job); cbn; [|done].
  split_and!; [done..|]. by exists late.
Qed.

Lemma close_write_effect id p a j :
  jobs_of a !! id = Some j → plan_fits p j →
  same_but_jobs a (close_write id p a).1 ∧ evolves (jobs_of a) (jobs_of (close_write id p a).1) ∧
  uncancelled (jobs_of a) (jobs_of (close_write id p a).1) ∧
  outcome_fits (jobs_of (close_write id p a).1) id p (close_write id p a).2.
Proof.
  intros Hj Hp. unfold close_write, record_run_with_reason.
  assert (∃ t, run_transition_for (cp_now p) (cp_status p) (cp_next p) (cp_reason p) = Ok t ∧ is_cancel t = false ∧
    job_legal j t = true ∧ match t with SetNextRunAt _ => False | _ => True end ∧ (cp_cron p = None → job_target j t = JobCompleted))
    as (t & -> & Hc & Hl & Hn & Ht).
  { unfold plan_fits in Hp. unfold job_legal. destruct (job_schedule j) as [at_|cron].
    - destruct Hp as (_ & -> & late & ->). eexists. split; [done|]. by destruct late.
    - destruct Hp as (Hcr & ->). eexists. split; [done|]. split_and!; [done..|]. by rewrite Hcr. }
  pose proof (evolves_transition id t (app_jobs a)) as He.
  pose proof (uncancelled_transition id t (app_jobs a) Hc) as Hu.
  pose proof (transition_live id t (app_jobs a) j Hj) as Hlive.
  destruct (transition_job id t (app_jobs a)) as [s' r]. cbn [fst snd] in *.
  assert (Hend : (job_is_terminal (job_status j) = false → False) → ended (js_jobs s') id).
  { intros Hf. eapply ended_evolves; [exact He|]. intros j' Hj'. unfold jobs_of in *. simplify_eq.
    by destruct (job_is_terminal (job_status j)) eqn:Et; [|destruct (Hf eq_refl)]. }
  split; [by destruct r as [[[]|]|]|]. split; [by destruct r as [[[]|]|]|]. split; [by destruct r as [[[]|]|]|].
  destruct r as [[[from to rev|from rev|from to rev]|]|err]; cbn; [| | | |done].
  - intros Hcr. destruct (job_is_terminal (job_status j)) eqn:Et; [by apply Hend|].
    destruct (Hlive eq_refl Hl Hn) as [[? ?]|(? & ? & ? & j' & _ & Hj' & _ & Hto)]; [done|].
    intros j2 Hj2. unfold jobs_of in Hj2. cbn in Hj2. simplify_eq. by rewrite Hto, (Ht Hcr).
  - apply Hend. intros Hlv. by destruct (Hlive Hlv Hl Hn) as [[? ?]|(? & ? & ? & ? & ? & _)].
  - apply Hend. intros Hlv. by destruct (Hlive Hlv Hl Hn) as [[? ?]|(? & ? & ? & ? & ? & _)].
  - apply Hend. intros Hlv. by destruct (Hlive Hlv Hl Hn) as [[? ?]|(? & ? & ? & ? & ? & _)].
Qed.

(** A dispatch failure is stored with a retry to come, or ends the job, or could
    not be stored. *)
Lemma dispatch_failure_effect now mono id err a :
  let '(a', r) := dispatch_failure_write now mono id err a in
  same_but_jobs a a' ∧ evolves (jobs_of a) (jobs_of a') ∧ uncancelled (jobs_of a) (jobs_of a') ∧
  (r = Ok None → ended (jobs_of a') id).
Proof.
  unfold dispatch_failure_write, job_get, jobs_of. destruct (js_jobs (app_jobs a) !! id) as [j|] eqn:Hj.
  2:{ split_and!; [done..|]. intros _ j Hj'. unfold jobs_of in Hj'. congruence. }
  destruct (job_is_terminal (job_status j)) eqn:Et.
  { split_and!; [done..|]. intros _ j' Hj'. unfold jobs_of in Hj'. congruence. }
  set (d := dispatch_delay_secs _). unfold record_dispatch_failure. set (t := RecordDispatchFailure _ _ _).
  pose proof (evolves_transition id t (app_jobs a)) as He.
  pose proof (uncancelled_transition id t (app_jobs a) eq_refl) as Hu.
  pose proof (transition_live id t (app_jobs a) j Hj Et eq_refl I) as Hlive.
  destruct (transition_job id t (app_jobs a)) as [s' r]. cbn [fst snd] in *.
  destruct Hlive as [[e ->]|(from & to & rev & j' & -> & Hj' & <- & Hto)]; [by split_and!|].
  destruct (job_status j') eqn:Es; (split_and!; [done..|]; try done).
  intros _ j2 Hj2. cbn in Hj2. simplify_eq. by rewrite Es.
Qed.
End writes.

(** ** Episodes *)

Section episodes.
Context `{U : UuidCrate}.
Implicit Types (t : JobEpisodeTracker).

Definition same_open t t' : Prop := ∀ id, is_Some (tk_episodes t' !! id) ↔ is_Some (tk_episodes t !! id).

Lemma same_open_opens t t' id : same_open t t' → opens id t' = opens id t.
Proof. intros H. unfold opens. specialize (H id). by repeat case_decide; tauto. Qed.

Lemma same_open_insert t id ep ep' : tk_episodes t !! id = Some ep → same_open t (set_episodes (<[id := ep']> (tk_episodes t)) t).
Proof.
  intros He i. cbn. destruct (decide (i = id)) as [->|]; [rewrite lookup_insert_eq, He|by rewrite lookup_insert_ne].
  split; by eauto.
Qed.

Lemma same_open_note id run t : same_open t (note_run id run t).
Proof. unfold note_run. destruct (tk_episodes t !! id) eqn:E; [by eapply same_open_insert|done]. Qed.

Lemma same_open_start utc now id run t : same_open t (start_turn_one utc now id run t).
Proof.
  unfold start_turn_one. destruct (tk_episodes t !! id) eqn:E; [|done]. case_bool_decide; [by eapply same_open_insert|done].
Qed.

Lemma same_open_resolve_dm dm agent t : same_open t (resolve_dm dm agent t).2.
Proof. intros i. cbn. rewrite lookup_fmap. by destruct (tk_episodes t !! i). Qed.

Lemma same_open_resolve_subagent task t : same_open t (resolve_subagent task t).2.
Proof.
  unfold resolve_subagent. destruct (List.find _ _) as [[job ep]|] eqn:E; [|done].
  apply List.find_some in E as [Hin _]. apply list_elem_of_In, elem_of_map_to_list in Hin. by eapply same_open_insert.
Qed.

Lemma opens_delete id i t :
  opens id (set_episodes (delete i (tk_episodes t)) t) = if decide (i = id) then 0 else opens id t.
Proof.
  unfold opens. cbn. destruct (decide (i = id)) as [->|]; [|by rewrite lookup_delete_ne].
  rewrite lookup_delete_eq. by rewrite decide_False by (by intros []).
Qed.

Lemma opens_open id now i session agent run t :
  opens id (open now i session agent run t) = if decide (i = id) then 1 else opens id t.
Proof.
  unfold opens, open. cbn. destruct (decide (i = id)) as [->|]; [|by rewrite lookup_insert_ne].
  rewrite lookup_insert_eq. by rewrite decide_True by eauto.
Qed.

(** A completion that closes an episode passes it on. *)
Lemma settle_opens id job ep ep0 t : tk_episodes t !! job = Some ep0 → ep_job_id ep = job →
  count id match (settle job ep t).1 with Closed ep => [ep_job_id ep] | _ => [] end + opens id (settle job ep t).2 = opens id t.
Proof.
  intros He Hj. unfold settle. destruct (is_quiescent ep); cbn [fst snd].
  - rewrite opens_delete, count_cons, count_nil, Hj. unfold opens. destruct (decide (job = id)) as [->|]; [|done].
    rewrite He. by rewrite decide_True by eauto.
  - rewrite count_nil. by apply same_open_opens; eapply same_open_insert.
Qed.

Lemma completion_opens id job run dms subs t : tracker_ok t →
  let c := on_run_complete job run dms subs t in
  count id match c.1 with Closed ep => [ep_job_id ep] | _ => [] end + opens id c.2 = opens id t.
Proof.
  intros Hok. unfold on_run_complete. destruct (tk_episodes t !! job) as [ep|] eqn:E; [|done].
  case_bool_decide; [done|]. eapply settle_opens; [done|].
  destruct (complete_run_fields run dms subs ep) as (_ & _ & _ & -> & _). by apply (Hok _ _ E).
Qed.

Lemma abandon_opens id job t : tracker_ok t →
  let c := abandon_reserved_continuation job t in
  count id match c.1 with Closed ep => [ep_job_id ep] | _ => [] end + opens id c.2 = opens id t.
Proof.
  intros Hok. unfold abandon_reserved_continuation. destruct (tk_episodes t !! job) as [ep|] eqn:E; [|done].
  eapply settle_opens; [done|]. by apply (Hok _ _ E).
Qed.

(** The sweep passes on each expired episode once. *)
Lemma expired_opens id mono t : tracker_ok t →
  count id (map ep_job_id (take_expired mono t).1) + opens id (take_expired mono t).2 = opens id t.
Proof.
  intros Hok. unfold take_expired. set (late := filter _ (map_to_list _)). cbn [fst snd].
  assert (Hnd : NoDup (fst <$> late)).
  { eapply sublist_NoDup; [apply (NoDup_fst_map_to_list (tk_episodes t))|]. apply fmap_sublist, sublist_filter. }
  assert (Hin : ∀ i, i ∈ fst <$> late → is_Some (tk_episodes t !! i)).
  { intros i ([i' ep] & -> & Hi)%list_elem_of_fmap. apply list_elem_of_filter in Hi as [_ Hi].
    apply elem_of_map_to_list in Hi. cbn. eauto. }
  revert Hnd Hin. generalize (fst <$> late) as ids. clear late. intros ids.
  assert (Hmap : (∀ i, i ∈ ids → is_Some (tk_episodes t !! i)) → map ep_job_id (omap (λ i, tk_episodes t !! i) ids) = ids).
  { induction ids as [|i ids IH]; intros Hin; [done|]. cbn. destruct (Hin i ltac:(by left)) as [ep He].
    rewrite He. cbn. rewrite IH by (intros; apply Hin; by right). f_equal. by apply (Hok _ _ He). }
  intros Hnd Hin. rewrite (Hmap Hin). clear Hmap. unfold opens. cbn [tk_episodes set_episodes].
  destruct (decide (id ∈ ids)) as [Hid|Hid].
  - rewrite (decide_True _ _ (Hin _ Hid)), decide_False.
    + assert (count id ids = 1); [|lia]. clear Hin. induction Hnd as [|i ids Hi Hnd IH]; [by apply elem_of_nil in Hid|].
      rewrite count_cons. apply elem_of_cons in Hid as [->|Hid]; [|rewrite decide_False by (by intros ->); by apply IH].
      rewrite decide_True by done. apply count_zero in Hi. lia.
    + rewrite foldr_delete_lookup, bool_decide_eq_true_2 by done. by intros [].
  - rewrite (proj2 (count_zero id ids) Hid). cbn. by rewrite foldr_delete_lookup, bool_decide_eq_false_2 by done.
Qed.
End episodes.

(** * The invariant *)

Section invariant.
Context `{U : UuidCrate} `{CH : ChronoCrate} `{CR : CronCrate} `{M : MinHeap} `{!MinHeapLaws M}.
Context {Js Rs Ss : Type} `{JT : JobTable Js} `{!JobTableLaws JT} `{RS : RunStore Rs} `{DB : SqliteStore Ss}.
Context (ts_string : Z → string) (json_from_str : string → option json).

Abbreviation App := (AppState Js Rs Ss).
Abbreviation Eng := (Engine Js Rs Ss).
Implicit Types (a : App) (e : Eng).

Definition jobs_in e : gmap JobId Job := jobs_of (en_app e).
Definition sched_in e : Scheduler := app_scheduler (en_app e).
Definition episodes_in e : JobEpisodeTracker := app_episodes (en_app e).
Definition swept_in e : gset JobId := operator_cancelled_jobs (en_app e).

Definition cancelling e (id : JobId) : Prop :=
  id ∈ sc_cancelled (sched_in e) ∨ id ∈ swept_in e ∨ id ∈ map fst (en_cancelling e).

Definition driven_or_reported e (outs : list Output) (id : JobId) : Prop :=
  drivers id e = 1 ∨ ∃ why, Abandoned id why ∈ outs.

Record sched_ok e : Prop := {
  so_once : all_once (sched_in e);
  so_channel : ∃ sent, sc_fired (sched_in e) = Some sent ∧ en_received e ≤ length sent;
}.

Record engine_ok e (outs : list Output) : Prop := {
  eo_keyed id j : jobs_in e !! id = Some j → job_id j = id;
  eo_tracker : tracker_ok (episodes_in e);
  eo_sched : sched_ok e;
  eo_cancelled id : cancelling e id → ∃ j, jobs_in e !! id = Some j ∧ job_status j = JobCancelled;
  eo_swept id : id ∈ swept_in e → tk_episodes (episodes_in e) !! id = None;
  eo_closers : Forall (closer_ok (jobs_in e)) (en_closers e);
  eo_known id : jobs_in e !! id = None → drivers id e = 0;
  eo_single id : drivers id e ≤ 1;
  eo_driven id j : jobs_in e !! id = Some j → job_is_terminal (job_status j) = false → driven_or_reported e outs id;
}.

(** No driver appears, and one of a job that has not ended is lost only with a
    report. *)
Definition balanced e e' (new : list Output) : Prop := ∀ id,
  drivers id e' = drivers id e ∨
  drivers id e' ≤ drivers id e ∧ (ended (jobs_in e') id ∨ ∃ why, Abandoned id why ∈ new).

Lemma balanced_same e e' new : (∀ id, drivers id e' = drivers id e) → balanced e e' new.
Proof. intros H id. by left. Qed.

Lemma ended_cancelled e outs id : engine_ok e outs → cancelling e id → ended (jobs_in e) id.
Proof. intros Hok (j & Hj & Hs)%(eo_cancelled _ _ Hok) j' Hj'. simplify_eq. by rewrite Hs. Qed.

Lemma engine_ok_evolves e e' outs new :
  engine_ok e outs → evolves (jobs_in e) (jobs_in e') → tracker_ok (episodes_in e') → sched_ok e' →
  (∀ id, cancelling e' id → cancelling e id ∨ ∃ j, jobs_in e' !! id = Some j ∧ job_status j = JobCancelled) →
  (∀ id, id ∈ swept_in e' → tk_episodes (episodes_in e') !! id = None) →
  Forall (closer_ok (jobs_in e')) (en_closers e') → balanced e e' new → engine_ok e' (outs ++ new).
Proof.
  intros Hok He Ht Hs Hc Hsw Hcl Hb. split; [|done|done| |done|done| | |].
  - intros id j' Hj'. destruct (evolves_lookup _ _ _ _ He Hj') as (j & Hj & Hsj). rewrite (sj_id _ _ Hsj). by apply (eo_keyed _ _ Hok).
  - intros id Hid. destruct (Hc _ Hid) as [Hid'|]; [|done]. destruct (eo_cancelled _ _ Hok id Hid') as (j & Hj & Hst).
    destruct (evolves_keeps _ _ _ _ He Hj) as (j' & Hj' & Hsj). exists j'. split; [done|].
    rewrite (sj_terminal _ _ Hsj); [done|]. by rewrite Hst.
  - intros id Hid. pose proof (eo_known _ _ Hok id (evolves_none _ _ _ He Hid)). destruct (Hb id) as [|[? _]]; lia.
  - intros id. pose proof (eo_single _ _ Hok id). destruct (Hb id) as [|[? _]]; lia.
  - intros id j' Hj' Hl. destruct (evolves_lookup _ _ _ _ He Hj') as (j & Hj & Hsj).
    destruct (eo_driven _ _ Hok id j Hj (same_job_live _ _ Hsj Hl)) as [Hd|[why Hin]].
    2:{ right. exists why. apply elem_of_app. by left. }
    destruct (Hb id) as [Heq|[_ [Hend|[why Hin]]]]; [left; lia| |].
    + specialize (Hend _ Hj'). congruence.
    + right. exists why. apply elem_of_app. by right.
Qed.

Lemma engine_ok_keep e e' outs new :
  engine_ok e outs → evolves (jobs_in e) (jobs_in e') → tracker_ok (episodes_in e') → sched_ok e' →
  (∀ id, cancelling e' id → cancelling e id) → (∀ id, id ∈ swept_in e' → tk_episodes (episodes_in e') !! id = None) →
  Forall (closer_ok (jobs_in e')) (en_closers e') → balanced e e' new → engine_ok e' (outs ++ new).
Proof. intros Hok He Ht Hs Hc. intros. eapply engine_ok_evolves; try done. intros id Hid. left. by apply Hc. Qed.

(** Steps that leave the jobs as they are. *)
Lemma engine_ok_same e e' outs new :
  engine_ok e outs → jobs_in e' = jobs_in e → tracker_ok (episodes_in e') → sched_ok e' →
  (∀ id, cancelling e' id → cancelling e id) → (∀ id, id ∈ swept_in e' → tk_episodes (episodes_in e') !! id = None) →
  Forall (closer_ok (jobs_in e)) (en_closers e') → balanced e e' new → engine_ok e' (outs ++ new).
Proof. intros Hok Hj. intros. eapply engine_ok_keep; try done; by rewrite Hj. Qed.

(** Swept jobs stay without an episode when none is opened. *)
Lemma swept_same_open e e' outs :
  engine_ok e outs → swept_in e' = swept_in e → same_open (episodes_in e) (episodes_in e') →
  ∀ id, id ∈ swept_in e' → tk_episodes (episodes_in e') !! id = None.
Proof.
  intros Hok Hs Ho id Hid. rewrite Hs in Hid. apply eq_None_not_Some. rewrite (Ho id).
  by rewrite (eo_swept _ _ Hok id Hid); intros [].
Qed.

(** ** The timer and the fire loop *)

Lemma timer_ok turn e e' outs : timer_step turn e = Some e' → engine_ok e outs → engine_ok e' (outs ++ []).
Proof.
  unfold timer_step. destruct (run_loop_turn turn _) as [s'|] eqn:Et; [|done]. intros [= <-] Hok.
  destruct (so_channel _ (eo_sched _ _ Hok)) as (sent & Hsent & Hlen).
  destruct (turn_moves turn (app_scheduler (en_app e)) s' (so_once _ (eo_sched _ _ Hok)) Et) as (Ho & Hc & ids & dropped & Hf & Hp & Hd).
  unfold sched_in in Hsent. eapply engine_ok_same; [done|done|apply Hok| | |apply Hok|apply Hok|].
  - split; cbn; [done|]. rewrite Hf, Hsent. eexists. split; [done|]. rewrite length_app. lia.
  - intros id. unfold cancelling, sched_in. cbn. by rewrite Hc.
  - intros id. unfold drivers, channel. cbn.
    rewrite Hp, Hf, Hsent. cbn. rewrite drop_app_le by done. rewrite !count_app.
    destruct (decide (count id dropped = 0)) as [H0|H0]; [left; lia|]. right. split; [lia|]. left.
    apply (ended_cancelled e outs id Hok). left. rewrite Forall_forall in Hd. apply Hd, count_pos. lia.
Qed.

Lemma receive_ok e e' outs : receive_step e = Some e' → engine_ok e outs → engine_ok e' (outs ++ []).
Proof.
  unfold receive_step. destruct (en_loop e) eqn:El; try done. destruct (head (channel e)) as [id|] eqn:Eh; [|done].
  intros H Hok. injection H as <-. destruct (so_channel _ (eo_sched _ _ Hok)) as (sent & Hsent & Hlen).
  unfold sched_in in Hsent.
  assert (Hch : channel e = id :: drop (S (en_received e)) sent).
  { unfold channel in *. rewrite Hsent in *. cbn in *. destruct (drop (en_received e) sent) as [|i l] eqn:Ed; [done|].
    injection Eh as ->. f_equal. replace (S (en_received e)) with (en_received e + 1) by lia.
    rewrite <- drop_drop, Ed. done. }
  assert (Hlen' : S (en_received e) ≤ length sent).
  { assert (length (channel e) ≠ 0) as Hl by (by rewrite Hch). unfold channel in Hl. rewrite Hsent in Hl. cbn in Hl.
    rewrite length_drop in Hl. lia. }
  destruct (fire_agent id (en_app e)) as [agent|] eqn:Ef.
  - eapply engine_ok_same; [done|done|apply Hok| |done|apply Hok|apply Hok|].
    + split; [apply Hok|]. exists sent. by split.
    + apply balanced_same. intros i. unfold drivers. rewrite Hch, El. unfold channel. cbn. rewrite Hsent. cbn.
      rewrite !count_cons, !count_nil. lia.
  - eapply engine_ok_same; [done|done|apply Hok| |done|apply Hok|apply Hok|].
    + split; [apply Hok|]. exists sent. by split.
    + intros i. unfold drivers. rewrite Hch. unfold channel. cbn. rewrite Hsent. cbn. rewrite !count_cons.
      destruct (decide (id = i)) as [->|]; [|left; lia]. right. split; [lia|]. left. intros j Hj.
      unfold fire_agent, job_get in Ef. unfold jobs_in, jobs_of in Hj. cbn in Hj. rewrite Hj in Ef.
      by destruct (job_is_terminal (job_status j)).
Qed.
Lemma reserved_ok now fresh e e' outs : reserved_step now fresh e = Some e' → engine_ok e outs → engine_ok e' (outs ++ []).
Proof.
  unfold reserved_step. destruct (en_loop e) as [|id| | | |] eqn:El; try done. intros H Hok.
  unfold admit_begin, job_get in H. fold (jobs_of (en_app e)) in H.
  assert (Hgone : ended (jobs_in e) id → engine_ok (put_loop LoopReceiving (put_app (en_app e) e)) (outs ++ [])).
  { intros Hend. eapply engine_ok_same; [done|done|apply Hok|by destruct (eo_sched _ _ Hok)|done|apply Hok|apply Hok|].
    intros i. unfold drivers. rewrite El. cbn. rewrite count_cons, !count_nil. destruct (decide (id = i)) as [->|]; [|by left].
    right. split; [unfold channel; cbn; lia|by left]. }
  destruct (jobs_of (en_app e) !! id) as [job|] eqn:Ej.
  2:{ injection H as <-. apply Hgone. intros j Hj. unfold jobs_in in Hj. congruence. }
  destruct (job_is_terminal (job_status job)) eqn:Et.
  { injection H as <-. apply Hgone. intros j Hj. unfold jobs_in in Hj. congruence. }
  unfold absorb_fire_if_open in H. destruct (tk_episodes (app_episodes (en_app e)) !! id) as [ep|] eqn:Eep.
  { exfalso. pose proof (eo_single _ _ Hok id) as Hs. unfold drivers, opens in Hs. rewrite El, Eep in Hs. cbn in Hs.
    rewrite count_cons, decide_True in Hs by done. rewrite decide_True in Hs by eauto. lia. }
  destruct (Session.get_or_create _ _ _ _ _) as [session sessions]. injection H as <-.
  eapply engine_ok_same; [done|done|apply Hok|by destruct (eo_sched _ _ Hok)|done|apply Hok|apply Hok|].
  apply balanced_same. intros i. unfold drivers. rewrite El. cbn. by rewrite (eo_keyed _ _ Hok _ _ Ej).
Qed.

Lemma queue_closed_ok e e' new outs : queue_closed_step e = Some (e', new) → engine_ok e outs → engine_ok e' (outs ++ new).
Proof.
  unfold queue_closed_step. destruct (en_loop e) as [|id| | | |] eqn:El; try done. intros [= <- <-] Hok.
  eapply engine_ok_same; [done|done|apply Hok|by destruct (eo_sched _ _ Hok)|done|apply Hok|apply Hok|].
  intros i. unfold drivers. rewrite El. cbn. rewrite count_cons, !count_nil. destruct (decide (id = i)) as [->|]; [|by left].
  right. split; [unfold channel; cbn; lia|]. right. exists QueueClosed. by left.
Qed.

Lemma admit_finish_cases now run_id token job session a :
  let '(a', r) := admit_finish now run_id token job session a in
  app_jobs a' = app_jobs a ∧ app_scheduler a' = app_scheduler a ∧ operator_cancelled_jobs a' = operator_cancelled_jobs a ∧
  match r with
  | Ok (Some ar) =>
      ar_job_id ar = job_id job ∧
      app_episodes a' = open now (job_id job) session (job_agent_id job) run_id (app_episodes a) ∧
      ¬ ended (jobs_of a) (job_id job)
  | Ok None => app_episodes a' = app_episodes a ∧ ended (jobs_of a) (job_id job)
  | Err _ => app_episodes a' = app_episodes a
  end.
Proof.
  unfold admit_finish, job_get. destruct (session_get _ _); [|done]. fold (jobs_of a).
  destruct (jobs_of a !! job_id job) as [j|] eqn:Ej.
  2:{ split_and!; [done..|]. intros j Hj. congruence. }
  destruct (job_is_terminal (job_status j)) eqn:Et.
  { split_and!; [done..|]. intros j' Hj'. congruence. }
  destruct (insert_run _ _ _) as [m [|]]; [|done]. cbn. split_and!; [done..|].
  intros Hend. specialize (Hend _ Ej). congruence.
Qed.

(** The loop gives up a firing that could not be dispatched. *)
Lemma admit_failure_ok now mono err job a e e' outs new :
  engine_ok e outs → (∃ session, en_loop e = LoopGuarding job session) →
  jobs_of a = jobs_in e → app_scheduler a = sched_in e → operator_cancelled_jobs a = swept_in e → app_episodes a = episodes_in e →
  match dispatch_failure_write now mono (job_id job) err a with
  | (a', Ok (Some at_)) => (put_loop (LoopArming (job_id job) at_) (put_app a' e), [])
  | (a', Ok None) => (put_loop LoopReceiving (put_app a' e), [])
  | (a', Err _) => (put_loop LoopReceiving (put_app a' e), [Abandoned (job_id job) FailureNotStored])
  end = (e', new) → engine_ok e' (outs ++ new).
Proof.
  intros Hok [session El] Hj Hs Ho He. pose proof (dispatch_failure_effect now mono (job_id job) err a) as Hd.
  destruct (dispatch_failure_write _ _ _ _ _) as [a' r]. destruct Hd as ((He' & Hs' & Ho') & Hev & Hun & Hend).
  rewrite He in He'. rewrite Hs in Hs'. rewrite Ho in Ho'. rewrite Hj in Hev, Hun.
  assert (Hgen : ∀ l (new' : list Output), (∀ i, count i (loop_job l) = count i [job_id job] ∨
      count i (loop_job l) = 0 ∧ (ended (jobs_of a') i ∨ ∃ why, Abandoned i why ∈ new')) →
      engine_ok (put_loop l (put_app a' e)) (outs ++ new')).
  { intros l new' Hl. eapply engine_ok_keep; [exact Hok|done|..].
    - unfold episodes_in. cbn. rewrite He'. apply Hok.
    - destruct (eo_sched _ _ Hok) as [H1 H2]. split; unfold sched_in; cbn; by rewrite Hs'.
    - intros id. unfold cancelling, sched_in, swept_in. cbn. by rewrite Hs', Ho'.
    - unfold swept_in, episodes_in. cbn. rewrite Ho', He'. apply Hok.
    - eapply Forall_impl; [apply (eo_closers _ _ Hok)|]. intros c. apply closer_ok_evolves; [done|right]. intros; by eapply Hun.
    - intros i. specialize (Hl i). unfold drivers, channel. rewrite El. cbn. rewrite Hs', He'. unfold sched_in, episodes_in.
      destruct Hl as [->|[-> Hr]]; [by left|]. right. split; [lia|]. exact Hr. }
  assert (Hnone : ∀ new' : list Output, ended (jobs_of a') (job_id job) ∨ (∃ why, Abandoned (job_id job) why ∈ new') →
      ∀ i, count i (loop_job LoopReceiving) = count i [job_id job] ∨
      count i (loop_job LoopReceiving) = 0 ∧ (ended (jobs_of a') i ∨ ∃ why, Abandoned i why ∈ new')).
  { intros new' Hw i. cbn. rewrite count_cons, count_nil. destruct (decide (job_id job = i)) as [<-|]; [by right|by left]. }
  destruct r as [[at_|]|err']; intros [= <- <-]; apply Hgen; [by left|apply Hnone..].
  - left. by apply Hend.
  - right. exists FailureNotStored. by left.
Qed.

Lemma admit_ok now mono run_id token e e' new outs :
  admit_step now mono run_id token e = Some (e', new) → engine_ok e outs → engine_ok e' (outs ++ new).
Proof.
  unfold admit_step. destruct (en_loop e) as [| |job session| | |] eqn:El; try done. intros H Hok.
  pose proof (admit_finish_cases now run_id token job session (en_app e)) as Hc.
  destruct (admit_finish _ _ _ _ _ _) as [a r]. destruct Hc as (Hj & Hs & Ho & Hr).
  destruct r as [[ar|]|err].
  - destruct Hr as (Hid & He & Hlive). injection H as <- <-.
    assert (Hnew : tk_episodes (episodes_in e) !! job_id job = None).
    { pose proof (eo_single _ _ Hok (job_id job)) as H1. unfold drivers in H1. rewrite El in H1. cbn in H1.
      rewrite count_cons, decide_True in H1 by done. apply eq_None_not_Some. intros Hsome.
      unfold opens in H1. rewrite decide_True in H1 by done. lia. }
    eapply engine_ok_same; [exact Hok|unfold jobs_in, jobs_of; cbn; by rewrite Hj|..].
    + unfold episodes_in. cbn. rewrite He. apply (tracker_ok_exec (OpOpen _ _ _ _ _)), Hok.
    + destruct (eo_sched _ _ Hok) as [H1 H2]. split; unfold sched_in; cbn; by rewrite Hs.
    + intros id. unfold cancelling, sched_in, swept_in. cbn. by rewrite Hs, Ho.
    + unfold swept_in, episodes_in. cbn. rewrite Ho, He. intros id Hin. cbn. rewrite lookup_insert_ne; [by apply Hok|].
      intros Heq. apply Hlive. rewrite Heq. apply (ended_cancelled e outs id Hok). right. by left.
    + apply Hok.
    + apply balanced_same. intros i. unfold drivers, channel. rewrite El. cbn. rewrite Hs, He, opens_open, count_cons, !count_nil.
      destruct (decide (job_id job = i)) as [<-|]; [|done]. unfold episodes_in in Hnew. unfold opens at 1.
      rewrite Hnew, decide_False by (by intros []). lia.
  - destruct Hr as (He & Hend). injection H as <- <-.
    eapply engine_ok_same; [exact Hok|unfold jobs_in, jobs_of; cbn; by rewrite Hj|..].
    + unfold episodes_in. cbn. rewrite He. apply Hok.
    + destruct (eo_sched _ _ Hok) as [H1 H2]. split; unfold sched_in; cbn; by rewrite Hs.
    + intros id. unfold cancelling, sched_in, swept_in. cbn. by rewrite Hs, Ho.
    + unfold swept_in, episodes_in. cbn. rewrite Ho, He. apply Hok.
    + apply Hok.
    + intros i. unfold drivers, channel. rewrite El. cbn. rewrite Hs, He, count_cons, !count_nil.
      destruct (decide (job_id job = i)) as [<-|]; [|by left]. right. split; [lia|]. left.
      unfold jobs_in, jobs_of. cbn. by rewrite Hj.
  - injection H as H. eapply admit_failure_ok; [exact Hok|by eexists|..|exact H].
    + unfold jobs_in, jobs_of. by rewrite Hj.
    + done.
    + done.
    + done.
Qed.

Lemma arm_ok e e' outs : arm_step e = Some e' → engine_ok e outs → engine_ok e' (outs ++ []).
Proof.
  unfold arm_step. destruct (en_loop e) as [| | |id at_| |] eqn:El; try done. intros [= <-] Hok.
  eapply engine_ok_same; [exact Hok|done|apply Hok| |done|apply Hok|apply Hok|].
  - destruct (eo_sched _ _ Hok) as [H1 H2]. split; [by apply all_once_schedule|done].
  - apply balanced_same. intros i. unfold drivers, channel. rewrite El. cbn.
    rewrite pending_schedule, !count_cons, count_nil. lia.
Qed.
(** ** Runs and episodes *)

(** Steps that change no job, no timer and open or close no episode. *)
Lemma engine_ok_app a e outs new :
  engine_ok e outs → app_jobs a = app_jobs (en_app e) → app_scheduler a = app_scheduler (en_app e) →
  operator_cancelled_jobs a = operator_cancelled_jobs (en_app e) →
  same_open (app_episodes (en_app e)) (app_episodes a) → tracker_ok (app_episodes a) →
  engine_ok (put_app a e) (outs ++ new).
Proof.
  intros Hok Hj Hs Ho Hsame Ht. eapply engine_ok_same; [exact Hok|unfold jobs_in, jobs_of; cbn; by rewrite Hj|done|..].
  - destruct (eo_sched _ _ Hok) as [H1 H2]. split; unfold sched_in; cbn; by rewrite Hs.
  - intros id. unfold cancelling, sched_in, swept_in. cbn. by rewrite Hs, Ho.
  - by eapply swept_same_open.
  - apply Hok.
  - apply balanced_same. intros i. unfold drivers, channel. cbn. rewrite Hs. by rewrite (same_open_opens _ _ i Hsame).
Qed.

Lemma same_open_refl t : same_open t t.
Proof. by intros id. Qed.

Lemma put_loop_receiving e outs new r :
  engine_ok e (outs ++ new) → en_loop e = LoopSubmitting r → engine_ok (put_loop LoopReceiving e) (outs ++ new).
Proof.
  intros Hok El. rewrite <- (app_nil_r (outs ++ new)).
  eapply engine_ok_same; [exact Hok|done|apply Hok|by destruct (eo_sched _ _ Hok)|done|apply Hok|apply Hok|].
  apply balanced_same. intros i. unfold drivers. by rewrite El.
Qed.

Lemma submit_ok now queued e e' new outs :
  submit_step ts_string now queued e = Some (e', new) → engine_ok e outs → engine_ok e' (outs ++ new).
Proof.
  unfold submit_step. destruct (en_loop e) as [| | | |r|] eqn:El; try done. intros H Hok.
  destruct queued as [n|]; injection H as <- <-.
  - eapply (put_loop_receiving (put_app _ e)); [|exact El]. apply engine_ok_app; [done..|apply same_open_refl|apply Hok].
  - eapply engine_ok_same; [exact Hok|done| |by destruct (eo_sched _ _ Hok)|done| |apply Hok|].
    + apply (tracker_ok_exec (OpRemove _)), Hok.
    + intros id Hid. apply lookup_delete_None. right. by apply Hok.
    + intros i. unfold drivers. cbn. rewrite El, opens_delete. cbn. unfold channel. cbn.
      destruct (decide (ar_job_id r = i)) as [<-|]; [|by left]. right. split; [lia|]. right. exists QueueClosed. by left.
Qed.

Lemma start_turn_ok utc now r e outs : engine_ok e outs → engine_ok (put_app (start_admitted utc now r (en_app e)) e) (outs ++ []).
Proof.
  intros Hok. apply engine_ok_app; [done..|apply same_open_start|]. apply (tracker_ok_exec (OpStart _ _ _ _)), Hok.
Qed.

Lemma completed_ok c e outs :
  engine_ok e outs → tracker_ok c.2 → (∀ id, is_Some (tk_episodes c.2 !! id) → is_Some (tk_episodes (episodes_in e) !! id)) →
  (∀ id, count id match c.1 with Closed ep => [ep_job_id ep] | _ => [] end + opens id c.2 = opens id (episodes_in e)) →
  engine_ok (completed_step c e) (outs ++ []).
Proof.
  intros Hok Ht Hsub Hc. unfold completed_step.
  assert (Hsw : ∀ id, id ∈ swept_in e → tk_episodes c.2 !! id = None).
  { intros id Hid. apply eq_None_not_Some. intros Hs%Hsub. rewrite (eo_swept _ _ Hok id Hid) in Hs. by destruct Hs. }
  destruct c as [[ep| |] t']; cbn [fst snd] in *.
  - eapply engine_ok_same; [exact Hok|done|done|by destruct (eo_sched _ _ Hok)|done|done| |].
    + apply Forall_app. split; [apply Hok|]. by constructor.
    + apply balanced_same. intros i. specialize (Hc i). unfold drivers, channel. cbn.
      rewrite map_app, count_app.
      change (map cl_job [start_close ep false]) with [ep_job_id ep]. unfold episodes_in in *. lia.
  - eapply engine_ok_same; [exact Hok|done|done|by destruct (eo_sched _ _ Hok)|done|done|apply Hok|].
    apply balanced_same. intros i. specialize (Hc i). unfold drivers, channel, episodes_in in *. rewrite count_nil in Hc. cbn. lia.
  - eapply engine_ok_same; [exact Hok|done|done|by destruct (eo_sched _ _ Hok)|done|done|apply Hok|].
    apply balanced_same. intros i. specialize (Hc i). unfold drivers, channel, episodes_in in *. rewrite count_nil in Hc. cbn. lia.
Qed.

Lemma opens_le_some id t t' : opens id t' ≤ opens id t → is_Some (tk_episodes t' !! id) → is_Some (tk_episodes t !! id).
Proof. unfold opens. repeat case_decide; try done. lia. Qed.

Lemma run_exit_ok job run dms subs e outs :
  engine_ok e outs → engine_ok (completed_step (on_run_complete job run dms subs (app_episodes (en_app e))) e) (outs ++ []).
Proof.
  intros Hok. pose proof (λ id, completion_opens id job run dms subs (episodes_in e) (eo_tracker _ _ Hok)) as Hc.
  apply completed_ok; [done|apply (tracker_ok_exec (OpComplete _ _ _ _)), Hok| |exact Hc].
  intros id. apply opens_le_some. specialize (Hc id). cbn in Hc. unfold episodes_in in *. lia.
Qed.

Lemma abandon_ok job e outs :
  engine_ok e outs → engine_ok (completed_step (abandon_reserved_continuation job (app_episodes (en_app e))) e) (outs ++ []).
Proof.
  intros Hok. pose proof (λ id, abandon_opens id job (episodes_in e) (eo_tracker _ _ Hok)) as Hc.
  apply completed_ok; [done|apply (tracker_ok_exec (OpAbandon _)), Hok| |exact Hc].
  intros id. apply opens_le_some. specialize (Hc id). cbn in Hc. unfold episodes_in in *. lia.
Qed.

Lemma sweep_ok mono e outs : engine_ok e outs → engine_ok (sweep_step mono e) (outs ++ []).
Proof.
  intros Hok. unfold sweep_step, sweep_episodes.
  pose proof (λ id, expired_opens id mono (episodes_in e) (eo_tracker _ _ Hok)) as Hc. unfold episodes_in in Hc.
  pose proof (tracker_ok_exec (OpTakeExpired mono) _ (eo_tracker _ _ Hok)) as Ht. cbn [exec_episode] in Ht.
  destruct (take_expired mono (app_episodes (en_app e))) as [late t'] eqn:El. cbn [fst snd] in *.
  unfold episodes_in in Ht. rewrite El in Ht. cbn in Ht.
  eapply engine_ok_same; [exact Hok|done|done|by destruct (eo_sched _ _ Hok)|done| | |].
  - intros id Hid. unfold episodes_in. cbn. apply eq_None_not_Some. intros Hs.
    apply (opens_le_some id (app_episodes (en_app e))) in Hs; [|specialize (Hc id); lia].
    pose proof (eo_swept _ _ Hok id Hid) as Hn. unfold episodes_in in Hn. rewrite Hn in Hs. by destruct Hs.
  - apply Forall_app. split; [apply Hok|]. apply Forall_fmap, Forall_true. done.
  - apply balanced_same. intros i. specialize (Hc i). unfold drivers, channel. cbn. rewrite map_app, count_app, map_map.
    change (map (λ ep, cl_job (start_close ep true)) late) with (map ep_job_id late). lia.
Qed.
Lemma trigger_admit_keeps now q agent session input context_id job a :
  let '(a', admitted) := trigger_admit now q agent session input context_id job a in
  app_jobs a' = app_jobs a ∧ app_scheduler a' = app_scheduler a ∧ operator_cancelled_jobs a' = operator_cancelled_jobs a ∧
  same_open (app_episodes a) (app_episodes a') ∧ (tracker_ok (app_episodes a) → tracker_ok (app_episodes a')) ∧
  (admitted = true → operator_cancelled_job_for_context context_id a = None).
Proof.
  unfold trigger_admit. destruct (negb (qa_reserved q)); [split_and!; first [done|apply same_open_refl]|].
  assert (Hses : let a1 := (trigger_session now agent session context_id a).1 in
    app_jobs a1 = app_jobs a ∧ app_scheduler a1 = app_scheduler a ∧ operator_cancelled_jobs a1 = operator_cancelled_jobs a ∧
    app_episodes a1 = app_episodes a).
  { unfold trigger_session. destruct (session_get _ _); [done|]. destruct (_ && _); [|done].
    by destruct (get_or_create_with_id _ _ _ _ _) as [[]]. }
  destruct (trigger_session _ _ _ _ a) as [a1 target]. cbn in Hses. destruct Hses as (H1 & H2 & H3 & H4).
  assert (Hstay : app_jobs a1 = app_jobs a ∧ app_scheduler a1 = app_scheduler a ∧
    operator_cancelled_jobs a1 = operator_cancelled_jobs a ∧ same_open (app_episodes a) (app_episodes a1) ∧
    (tracker_ok (app_episodes a) → tracker_ok (app_episodes a1)) ∧
    (false = true → operator_cancelled_job_for_context context_id a = None)).
  { rewrite H4. split_and!; first [done|apply same_open_refl]. }
  destruct target as [target|]; [|done]. destruct (decide _); [|done]. clear Hstay.
  unfold trigger_register.
  assert (Hcan : operator_cancelled_job_for_context context_id a1 = operator_cancelled_job_for_context context_id a)
    by (unfold operator_cancelled_job_for_context; by rewrite H3).
  rewrite Hcan. destruct (operator_cancelled_job_for_context context_id a).
  { rewrite H4. split_and!; first [done|apply same_open_refl]. }
  destruct (insert_run _ _ _) as [m [|]]; [|cbn; rewrite H4; split_and!; first [done|apply same_open_refl]].
  destruct job as [job|]; cbn; rewrite ?H4; (split_and!; [done..| | |done]); try apply same_open_refl; [apply same_open_note| |done].
  apply (tracker_ok_exec (OpNote _ _)).
Qed.

Lemma trigger_ok now q agent session input context_id job e outs :
  engine_ok e outs →
  engine_ok (trigger_step now q agent session input context_id job e).1
    (outs ++ (trigger_step now q agent session input context_id job e).2).
Proof.
  intros Hok. unfold trigger_step. pose proof (trigger_admit_keeps now q agent session input context_id job (en_app e)) as Hk.
  destruct (trigger_admit _ _ _ _ _ _ _ _) as [a admitted]. destruct Hk as (H1 & H2 & H3 & H4 & H5 & _).
  apply engine_ok_app; [done..|]. apply H5, Hok.
Qed.

Lemma resolve_dm_ok dm agent e outs : engine_ok e outs →
  engine_ok (put_app (put_episodes (resolve_dm dm agent (app_episodes (en_app e))).2 (en_app e)) e) (outs ++ []).
Proof.
  intros Hok. apply engine_ok_app; [done..|apply same_open_resolve_dm|]. apply (tracker_ok_exec (OpResolveDm _ _)), Hok.
Qed.

Lemma resolve_subagent_ok task e outs : engine_ok e outs →
  engine_ok (put_app (put_episodes (resolve_subagent task (app_episodes (en_app e))).2 (en_app e)) e) (outs ++ []).
Proof.
  intros Hok. apply engine_ok_app; [done..|apply same_open_resolve_subagent|]. apply (tracker_ok_exec (OpResolveSubagent _)), Hok.
Qed.

Lemma world_ok m sessions e outs : engine_ok e outs →
  engine_ok (put_app (put_sessions sessions (put_run_manager m (en_app e))) e) (outs ++ []).
Proof. intros Hok. apply engine_ok_app; [done..|apply same_open_refl|apply Hok]. Qed.

(** ** Closing *)

Lemma gate_free_waiting id e c : gate_free id e = true → c ∈ en_closers e → cl_job c = id → cl_stage c = CloseWaiting.
Proof.
  unfold gate_free. intros Hg Hc Hid. rewrite forallb_forall in Hg. specialize (Hg c ltac:(by apply list_elem_of_In)).
  rewrite bool_decide_eq_true_2 in Hg by done. unfold holds_gate in Hg. by destruct (cl_stage c).
Qed.

(** A task that moves on to another stage. *)
Lemma stage_ok i c st a e outs new :
  engine_ok e outs → en_closers e !! i = Some c → same_but_jobs (en_app e) a →
  evolves (jobs_in e) (jobs_of a) → uncancelled (jobs_in e) (jobs_of a) →
  closer_ok (jobs_of a) (at_stage c st) →
  engine_ok (put_closers (<[i := at_stage c st]> (en_closers e)) (put_app a e)) (outs ++ new).
Proof.
  intros Hok Hi (He & Hs & Ho) Hev Hun Hc. eapply engine_ok_keep; [exact Hok|done|..].
  - unfold episodes_in. cbn. rewrite He. apply Hok.
  - destruct (eo_sched _ _ Hok) as [H1 H2]. split; unfold sched_in; cbn; by rewrite Hs.
  - intros id. unfold cancelling, sched_in, swept_in. cbn. by rewrite Hs, Ho.
  - unfold swept_in, episodes_in. cbn. rewrite Ho, He. apply Hok.
  - cbn. apply Forall_insert; [|done]. eapply Forall_impl; [apply (eo_closers _ _ Hok)|].
    intros c' Hc'. eapply closer_ok_evolves; [exact Hev|right|done]. intros; by eapply Hun.
  - apply balanced_same. intros id. unfold drivers, channel. cbn. by rewrite Hs, He, (map_insert_same cl_job i c (at_stage c st)).
Qed.

(** A task that ends, possibly after re-arming its job. *)
Lemma stop_ok i c a e outs new :
  engine_ok e outs → en_closers e !! i = Some c →
  jobs_of a = jobs_in e → app_episodes a = episodes_in e → operator_cancelled_jobs a = swept_in e →
  (app_scheduler a = sched_in e ∧ (ended (jobs_in e) (cl_job c) ∨ ∃ why, Abandoned (cl_job c) why ∈ new)
   ∨ ∃ at_, app_scheduler a = schedule_once (cl_job c) at_ (sched_in e)) →
  engine_ok (put_closers (delete i (en_closers e)) (put_app a e)) (outs ++ new).
Proof.
  intros Hok Hi Hj He Ho Hs. eapply engine_ok_same; [exact Hok|done|..].
  - unfold episodes_in. cbn. rewrite He. apply Hok.
  - destruct (eo_sched _ _ Hok) as [H1 H2]. destruct Hs as [[Hs _]|[at_ Hs]]; split; unfold sched_in; cbn; rewrite Hs; try done.
    by apply all_once_schedule.
  - intros id. unfold cancelling, swept_in, sched_in. cbn. rewrite Ho. by destruct Hs as [[-> _]|[at_ ->]].
  - unfold swept_in, episodes_in. cbn. rewrite Ho, He. apply Hok.
  - cbn. apply Forall_delete, Hok.
  - intros id. unfold drivers, channel. cbn. rewrite He, (count_delete cl_job id i c (en_closers e)) by done.
    unfold sched_in, episodes_in in *. destruct Hs as [[-> Hr]|[at_ ->]].
    + destruct (decide (cl_job c = id)) as [<-|]; [|by left]. right. split; [lia|]. unfold jobs_in at 1. cbn. by rewrite Hj.
    + left. rewrite pending_schedule, count_cons. cbn. lia.
Qed.
Lemma close_finish_keeps mono id p r a :
  jobs_of (close_finish mono id p r a) = jobs_of a ∧ app_episodes (close_finish mono id p r a) = app_episodes a ∧
  operator_cancelled_jobs (close_finish mono id p r a) = operator_cancelled_jobs a ∧
  (outcome_fits (jobs_of a) id p r →
   app_scheduler (close_finish mono id p r a) = app_scheduler a ∧
     (ended (jobs_of a) id ∨ ∃ why, Abandoned id why ∈ close_reports id p r)
   ∨ ∃ at_, app_scheduler (close_finish mono id p r a) = schedule_once id at_ (app_scheduler a)).
Proof.
  unfold close_finish, close_reports, outcome_fits, rearm_after_failed_close.
  destruct (cp_cron p) as [cron|]; destruct r as [[]|err]; try (split_and!; [done..|auto]; fail).
  - destruct (cp_catch_up p), (cp_next p); (split_and!; [done..|]); intros _; try (right; eexists; done).
    left. split; [done|]. right. exists NoOccurrence. by left.
  - destruct (next_after cron (cp_now p)); (split_and!; [done..|]); intros _; [right; by eexists|].
    left. split; [done|]. right. exists NoOccurrence. by left.
  - split_and!; [done..|]. intros _. left. split; [done|]. right. exists CompletionNotStored. by left.
Qed.

Lemma close_ok i now mono fresh dummy fresh_run e e' new outs :
  close_step ts_string i now mono fresh dummy fresh_run e = Some (e', new) → engine_ok e outs → engine_ok e' (outs ++ new).
Proof.
  unfold close_step. destruct (en_closers e !! i) as [c|] eqn:Ei; [|done]. cbn [mbind option_bind]. intros H Hok.
  pose proof (proj1 (Forall_lookup _ _) (eo_closers _ _ Hok) _ _ Ei) as Hc. unfold closer_ok in Hc.
  assert (Hkeep : ∀ a : App, app_jobs a = app_jobs (en_app e) → jobs_of a = jobs_in e) by (intros a Ha; unfold jobs_in, jobs_of; by rewrite Ha).
  destruct (cl_stage c) as [|job|job|p retries|p r] eqn:Est.
  - destruct (gate_free _ e); [|done]. unfold close_check, job_get in H. fold (jobs_of (en_app e)) in H. injection H as <- <-.
    destruct (jobs_of (en_app e) !! cl_job c) as [job|] eqn:Ej.
    2:{ apply (stop_ok i c); try done.
      left. split; [done|]. left. intros j Hj. unfold jobs_in in Hj. congruence. }
    destruct (job_is_terminal (job_status job)) eqn:Et.
    + apply (stop_ok i c); try done. left. split; [done|]. left. intros j Hj. unfold jobs_in in Hj. congruence.
    + apply (stage_ok i c); try done. exists job. split; [done|].
      split; [by intros E; rewrite E in Et|done].
  - injection H as <- <-.
    assert (Hn : let a := close_notify ts_string now fresh dummy fresh_run job (cl_episode c) (cl_timed_out c) (en_app e) in
      app_jobs a = app_jobs (en_app e) ∧ same_but_jobs (en_app e) a).
    { unfold close_notify. by destruct (notify_job_completion _ _ _ _ _ _ _ _ _ _ _). }
    destruct Hn as [Hj Hs]. pose proof (Hkeep _ Hj) as Hj'.
    apply (stage_ok i c); try done; by rewrite Hj'.
  - injection H as <- <-. apply (stage_ok i c); try done.
    destruct Hc as (j & Hj & Hcan & Hs). exists j. split_and!; [done..|]. by apply close_plan_fits.
  - destruct Hc as (j & Hj & Hcan & Hp). pose proof (close_write_effect (cl_job c) p (en_app e) j Hj Hp) as Hw.
    destruct (close_write (cl_job c) p (en_app e)) as [a r]. cbn in Hw. destruct Hw as (Hs & Hev & Hun & Hfit).
    destruct (evolves_keeps _ _ _ _ Hev Hj) as (j' & Hj' & Hsj).
    assert (Hnc : job_status j' ≠ JobCancelled) by (intros E; by eapply Hcan, Hun).
    pose proof (plan_fits_same p _ _ Hsj Hp) as Hp'.
    destruct r as [outcome|err]; [|destruct retries as [|n]]; injection H as <- <-;
      apply (stage_ok i c); try done; exists j'; by split_and!.
  - injection H as <- <-. destruct Hc as (j & Hj & Hcan & Hp & Hfit).
    destruct (close_finish_keeps mono (cl_job c) p r (en_app e)) as (H1 & H2 & H3 & H4).
    apply (stop_ok i c); try done. by apply H4.
Qed.

(** ** Requests *)

Lemma creating_delete_balance i c e : en_creating e !! i = Some c →
  ∀ id, count id (map fst (en_creating e)) = count id [c.1] + count id (map fst (delete i (en_creating e))).
Proof. intros Hi id. rewrite (count_delete fst id i c) by done. by rewrite count_cons, count_nil, Nat.add_0_r. Qed.

Lemma schedule_ok i e e' outs : schedule_step i e = Some e' → engine_ok e outs → engine_ok e' (outs ++ []).
Proof.
  unfold schedule_step. destruct (en_creating e !! i) as [c|] eqn:Ei; [|done]. intros [= <-] Hok.
  eapply engine_ok_same; [exact Hok|done|apply Hok| |done|apply Hok|apply Hok|].
  - destruct (eo_sched _ _ Hok) as [H1 H2]. split; [by apply all_once_schedule|done].
  - apply balanced_same. intros id. unfold drivers, channel. cbn.
    rewrite pending_schedule, count_cons, (creating_delete_balance i c e Ei), count_cons, count_nil. lia.
Qed.

Lemma drop_create_ok i e e' new outs : drop_create_step i e = Some (e', new) → engine_ok e outs → engine_ok e' (outs ++ new).
Proof.
  unfold drop_create_step. destruct (en_creating e !! i) as [c|] eqn:Ei; [|done]. intros [= <- <-] Hok.
  eapply engine_ok_same; [exact Hok|done|apply Hok|by destruct (eo_sched _ _ Hok)|done|apply Hok|apply Hok|].
  intros id. unfold drivers, channel. cbn. rewrite (creating_delete_balance i c e Ei), count_cons, count_nil.
  destruct (decide (c.1 = id)) as [<-|]; [|by left]. right. split; [lia|]. right. exists HandlerDropped. by left.
Qed.
Lemma closer_ok_insert m id j c : m !! id = None → closer_ok m c → closer_ok (<[id := j]> m) c.
Proof.
  intros Hn. unfold closer_ok. destruct (cl_stage c) eqn:Est; [done|..];
    (intros (j0 & Hj & Hc & Hst); exists j0; (rewrite lookup_insert_ne by congruence); split; [done|]; split; [done|]); try done.
  destruct Hst as [Hp Ho]. split; [done|]. unfold outcome_fits, ended in *. rewrite lookup_insert_ne by congruence. done.
Qed.

Lemma create_ok now mono fresh req e e' outs :
  create_step now mono fresh req e = Some e' → engine_ok e outs → engine_ok e' (outs ++ []).
Proof.
  unfold create_step, job_get. destruct (js_jobs _ !! fresh) as [|] eqn:Hn; [done|]. intros H Hok. injection H as H.
  unfold create_job, create_with_next_run_at in H.
  assert (Hsame : engine_ok (put_app (en_app e) e) (outs ++ [])) by (apply engine_ok_app; [done..|apply same_open_refl|apply Hok]).
  destruct (first_fire_at now (req_schedule req)) as [fire_at|err]; [|by subst].
  set (job := job_new _ _ _ _ _ _) in H. destruct (persist_job job (app_jobs (en_app e))) as [store|err].
  2:{ subst. apply engine_ok_app; [done..|apply same_open_refl|apply Hok]. }
  subst e'. set (e' := put_creating _ _).
  assert (Hj : jobs_in e' = <[fresh := job]> (jobs_in e)) by done.
  assert (Hd : ∀ id, drivers id e' = drivers id e + if decide (fresh = id) then 1 else 0).
  { intros id. unfold drivers, channel. cbn. rewrite map_app, count_app. cbn. rewrite count_cons, count_nil. lia. }
  fold (jobs_of (en_app e)) in Hn. fold (jobs_in e) in Hn. pose proof (eo_known _ _ Hok _ Hn) as H0. rewrite app_nil_r. split.
  - intros id j. rewrite Hj. intros [[<- <-]|[_ ?]]%lookup_insert_Some; [done|by apply (eo_keyed _ _ Hok)].
  - apply Hok.
  - by destruct (eo_sched _ _ Hok).
  - intros id Hid. destruct (eo_cancelled _ _ Hok id Hid) as (j & Hj' & Hst). exists j. split; [|done].
    rewrite Hj, lookup_insert_ne; [done|congruence].
  - apply Hok.
  - rewrite Hj. eapply Forall_impl; [apply (eo_closers _ _ Hok)|]. intros c. by apply closer_ok_insert.
  - intros id. rewrite Hj. intros [Hid Hne]%lookup_insert_None. rewrite Hd, decide_False by done.
    pose proof (eo_known _ _ Hok id Hid). lia.
  - intros id. rewrite Hd. pose proof (eo_single _ _ Hok id). destruct (decide (fresh = id)) as [<-|]; lia.
  - intros id j. rewrite Hj. unfold driven_or_reported. rewrite Hd. intros [[<- <-]|[Hne Hl]]%lookup_insert_Some Ht.
    + left. rewrite decide_True by done. lia.
    + rewrite decide_False, Nat.add_0_r by done. by eapply eo_driven.
Qed.

(** What a cancellation commits. *)
Lemma cancel_commit_cases id a :
  let '(a', r) := cancel_commit id a in
  same_but_jobs a a' ∧ evolves (jobs_of a) (jobs_of a') ∧ (∀ i, i ≠ id → jobs_of a' !! i = jobs_of a !! i) ∧
  match r with
  | CancelCommitted => ∃ j, jobs_of a' !! id = Some j ∧ job_status j = JobCancelled
  | CancelAnswered _ => jobs_of a' = jobs_of a
  end.
Proof.
  unfold cancel_commit, job_cancel. pose proof (evolves_transition id CancelJob (app_jobs a)) as Hev.
  pose proof (transition_job_effect id CancelJob (app_jobs a)) as Heff.
  destruct (transition_job id CancelJob (app_jobs a)) as [s' r]. cbn [fst snd] in *.
  destruct Heff as [Hno|err|j o Hj Ht Ho|j j' o store Hj Ht Ho Hps]; [by split_and!..| |].
  - rewrite Ho. by split_and!.
  - rewrite Ho. split_and!; [done..|intros i Hne; by apply lookup_insert_ne|]. exists j'.
    split; [by apply lookup_insert_eq|]. destruct (job_transition_cases _ _ _ _ Ht) as [(_ & Hno & _)|(_ & _ & _ & -> & _)]; [congruence|].
    by rewrite job_effect_status.
Qed.

Lemma cancel_ok id e e' outs : cancel_step id e = Some e' → engine_ok e outs → engine_ok e' (outs ++ []).
Proof.
  unfold cancel_step. destruct (gate_free id e) eqn:Eg; [|done]. intros H Hok. injection H as <-.
  pose proof (cancel_commit_cases id (en_app e)) as Hc. destruct (cancel_commit id (en_app e)) as [a r].
  destruct Hc as ((He & Hs & Ho) & Hev & Hother & Hr).
  assert (Hcl : Forall (closer_ok (jobs_of a)) (en_closers e)).
  { apply Forall_forall. intros c Hin. pose proof (proj1 (Forall_forall _ _) (eo_closers _ _ Hok) c Hin) as Hc.
    eapply closer_ok_evolves; [exact Hev| |exact Hc]. destruct (decide (cl_job c = id)) as [Hid|Hid].
    - left. by eapply gate_free_waiting.
    - right. intros j j' Hj Hj'. rewrite Hother in Hj' by done. unfold jobs_in in *. congruence. }
  destruct r as [|r]; (eapply engine_ok_evolves; [exact Hok|exact Hev|..]); try exact Hcl;
    try (unfold episodes_in; cbn; rewrite He; by apply Hok);
    try (destruct (eo_sched _ _ Hok) as [H1 H2]; split; unfold sched_in; cbn; by rewrite Hs);
    try (unfold swept_in, episodes_in; cbn; rewrite Ho, He; by apply Hok);
    try (apply balanced_same; intros i; unfold drivers, channel; cbn; by rewrite Hs, He).
  - intros i. unfold cancelling, sched_in, swept_in. cbn. rewrite Hs, Ho, map_app, elem_of_app. cbn. rewrite list_elem_of_singleton.
    intros [?|[?|[?| ->]]]; [left; by left|left; right; by left|left; right; by right|by right].
  - intros i. unfold cancelling, sched_in, swept_in. cbn. rewrite Hs, Ho. by left.
Qed.

Lemma teardown_keeps ep a :
  let a' := (teardown_episode ep a).1 in
  app_jobs a' = app_jobs a ∧ app_scheduler a' = app_scheduler a ∧ operator_cancelled_jobs a' = operator_cancelled_jobs a ∧
  app_episodes a' = app_episodes a.
Proof.
  unfold teardown_episode. set (f := λ _ _, _). generalize (elements (ep_pending_dms ep)) as dms. intros dms.
  assert (H : ∀ acc : App * list TeardownCall, let a' := (foldl f acc dms).1 in
    app_jobs a' = app_jobs acc.1 ∧ app_scheduler a' = app_scheduler acc.1 ∧
    operator_cancelled_jobs a' = operator_cancelled_jobs acc.1 ∧ app_episodes a' = app_episodes acc.1).
  { induction dms as [|dm dms IH]; intros [a1 calls]; [done|]. cbn [foldl]. destruct (IH (f (a1, calls) dm)) as (-> & -> & -> & ->). done. }
  specialize (H (a, [])). by destruct (foldl f (a, []) dms) as [a' calls].
Qed.

Lemma map_fst_insert i (c : JobId * CancelStage) st (l : list (JobId * CancelStage)) :
  l !! i = Some c → map fst (<[i := (c.1, st)]> l) = map fst l.
Proof. intros Hi. by apply (map_insert_same fst i c (c.1, st)). Qed.

Lemma cancel_next_ok i e e' new outs :
  cancel_next_step i e = Some (e', new) → engine_ok e outs → engine_ok e' (outs ++ new).
Proof.
  unfold cancel_next_step. destruct (en_cancelling e !! i) as [[id stage]|] eqn:Ei; [|done].
  cbn [mbind option_bind fst snd]. intros H Hok.
  assert (Hcan : cancelling e id).
  { right. right. apply list_elem_of_fmap. exists (id, stage). split; [done|]. by eapply list_elem_of_lookup_2. }
  destruct stage as [|ep|ep].
  - unfold cancel_sweep, JobEpisode.remove in H. cbn [fst snd] in H. injection H as <- <-.
    eapply engine_ok_same; [exact Hok|done| |by destruct (eo_sched _ _ Hok)| | |apply Hok|].
    + apply (tracker_ok_exec (OpRemove _)), Hok.
    + intros i'. unfold cancelling, sched_in, swept_in. cbn. rewrite (map_fst_insert i (id, CancelSweeping)) by done.
      intros [|[[->%elem_of_singleton|]%elem_of_union|]]; [by left|done|right; by left|right; by right].
    + unfold swept_in, episodes_in. cbn. intros i' [->%elem_of_singleton|Hin]%elem_of_union; [by rewrite lookup_delete_eq|].
      apply lookup_delete_None. right. by apply (eo_swept _ _ Hok).
    + intros i'. unfold drivers, channel. cbn. rewrite opens_delete. destruct (decide (id = i')) as [<-|]; [|by left].
      right. split; [lia|]. left. by apply (ended_cancelled e outs).
  - injection H as <- <-. eapply engine_ok_same; [exact Hok|done|apply Hok|by destruct (eo_sched _ _ Hok)| |apply Hok|apply Hok|by apply balanced_same].
    intros i'. unfold cancelling, sched_in, swept_in. cbn. rewrite (map_fst_insert i (id, CancelUnscheduling ep)) by done.
    intros [[->%elem_of_singleton|]%elem_of_union|[|]]; [done|by left|right; by left|right; by right].
  - injection H as <- <-. set (a := match ep with Some ep => _ | None => _ end).
    assert (Ha : app_jobs a = app_jobs (en_app e) ∧ app_scheduler a = app_scheduler (en_app e) ∧
      operator_cancelled_jobs a = operator_cancelled_jobs (en_app e) ∧ app_episodes a = app_episodes (en_app e))
      by (unfold a; destruct ep; [apply teardown_keeps|done]). clearbody a. destruct Ha as (H1 & H2 & H3 & H4).
    eapply engine_ok_same; [exact Hok|unfold jobs_in, jobs_of; cbn; by rewrite H1|..].
    + unfold episodes_in. cbn. rewrite H4. apply Hok.
    + destruct (eo_sched _ _ Hok) as [Hs1 Hs2]. split; unfold sched_in; cbn; by rewrite H2.
    + intros i'. unfold cancelling, sched_in, swept_in. cbn. rewrite H2, H3. intros [|[|Hin]]; [by left|right; by left|].
      right. right. rewrite (delete_Permutation _ _ _ Ei). by right.
    + unfold swept_in, episodes_in. cbn. rewrite H3, H4. apply Hok.
    + apply Hok.
    + apply balanced_same. intros i'. unfold drivers, channel. cbn. by rewrite H2, H4.
Qed.

Lemma engine_step_ok l e e' new outs :
  engine_step ts_string json_from_str l e = Some (e', new) → engine_ok e outs → engine_ok e' (outs ++ new).
Proof.
  assert (Hq : ∀ o : option Eng, quiet o = Some (e', new) → o = Some e' ∧ new = [])
    by (intros [e0|]; cbn; [|done]; by intros [= -> <-]).
  destruct l; cbn [engine_step]; intros H Hok;
    try (apply Hq in H as [H ->]);
    eauto using timer_ok, receive_ok, reserved_ok, queue_closed_ok, admit_ok, arm_ok, submit_ok, close_ok, create_ok, schedule_ok,
      drop_create_ok, cancel_ok, cancel_next_ok; try (injection H as <- <-);
    eauto using start_turn_ok, run_exit_ok, abandon_ok, resolve_dm_ok, resolve_subagent_ok, sweep_ok, world_ok.
  2: exact (resolve_dm_ok dm agent e outs Hok).
  injection H as H. pose proof (trigger_ok now q agent session input context_id job e outs Hok) as Ht. by rewrite H in Ht.
Qed.
(** ** Start-up *)

(** The ids of the jobs that will fire. *)
Definition firing_ids (now : Z) (jobs : list Job) : list JobId :=
  omap (λ job, (λ _, job_id job) <$> bootstrap_fire_at job now) jobs.

Lemma imap_ids {B} (f : nat → JobId * Z → B) (g : B → JobId) (l : list (JobId * Z)) :
  (∀ n x, g (f n x) = x.1) → map g (imap f l) = map fst l.
Proof. revert f. induction l as [|x l IH]; intros f Hf; [done|]. cbn. rewrite Hf. f_equal. apply IH. intros; apply Hf. Qed.

Lemma cohort_ids cohort now : map fst (plan_catch_up_cohort cohort now) ≡ₚ map fst cohort.
Proof. unfold plan_catch_up_cohort. rewrite imap_ids by done. by rewrite !sort_by_key_perm. Qed.

Lemma registration_ids now jobs : map (λ r, r.1.1) (boot_registrations now jobs) ≡ₚ firing_ids now jobs.
Proof.
  unfold boot_registrations. rewrite map_app, !map_map. cbn [fst]. rewrite cohort_ids.
  induction jobs as [|job jobs IH]; [done|]. unfold firing_ids in *. cbn.
  destruct (bootstrap_fire_at job now) as [[t|t]|]; cbn; [by rewrite IH|by rewrite <- Permutation_middle, IH|done].
Qed.

Lemma boot_register_fold now mono regs : ∀ (acc : App * Z * list JobId),
  let acc' := foldl (boot_register now mono) acc regs in
  let a := acc.1.1 in let a' := acc'.1.1 in
  evolves (jobs_of a) (jobs_of a') ∧ app_episodes a' = app_episodes a ∧ operator_cancelled_jobs a' = operator_cancelled_jobs a ∧
  sc_cancelled (app_scheduler a') = sc_cancelled (app_scheduler a) ∧ sc_fired (app_scheduler a') = sc_fired (app_scheduler a) ∧
  (all_once (app_scheduler a) → all_once (app_scheduler a')) ∧
  ∀ id, count id (pending_ids (app_scheduler a')) + count id acc'.2 =
        count id (map (λ r, r.1.1) regs) + count id (pending_ids (app_scheduler a)) + count id acc.2.
Proof.
  induction regs as [|[[id fire_at] late] regs IH]; intros [[a n] skipped]; cbn [foldl].
  { split_and!; try done. }
  specialize (IH (boot_register now mono (a, n, skipped) (id, fire_at, late))).
  destruct (foldl _ _ regs) as [[a' n'] skipped']. revert IH. cbn [fst snd boot_register map].
  unfold update_next_run_at. pose proof (evolves_transition id (SetNextRunAt (Some fire_at)) (app_jobs a)) as Hev.
  destruct (transition_job id (SetNextRunAt (Some fire_at)) (app_jobs a)) as [s' [o|err]]; cbn [fst snd] in *;
    intros (H1 & H2 & H3 & H4 & H5 & H6 & H7); (split_and!; [|done..| |]).
  - by eapply evolves_trans.
  - intros Ho. apply H6. by apply all_once_schedule.
  - intros i. rewrite H7. cbn. rewrite pending_schedule, !count_cons. cbn. lia.
  - by eapply evolves_trans.
  - intros Ho. by apply H6.
  - intros i. rewrite H7. cbn. rewrite count_app, !count_cons, count_nil. cbn. lia.
Qed.
Lemma job_list_ids (s : JobStore Js) : (∀ id j, js_jobs s !! id = Some j → job_id j = id) →
  NoDup (map job_id (job_list s)) ∧ ∀ id j, js_jobs s !! id = Some j → j ∈ job_list s.
Proof.
  intros Hk. unfold job_list. split.
  - rewrite sort_by_key_perm, map_map.
    replace (map (λ x, job_id x.2) (map_to_list (js_jobs s))) with (map fst (map_to_list (js_jobs s)));
      [apply NoDup_fst_map_to_list|].
    apply map_ext_in. intros [id j] Hin. apply list_elem_of_In, elem_of_map_to_list in Hin. cbn. by rewrite (Hk _ _ Hin).
  - intros id j Hj. rewrite sort_by_key_perm. apply list_elem_of_fmap. exists (id, j). split; [done|]. by apply elem_of_map_to_list.
Qed.

Lemma firing_ids_count now jobs id : NoDup (map job_id jobs) → count id (firing_ids now jobs) ≤ 1.
Proof.
  unfold firing_ids. induction jobs as [|job jobs IH]; intros Hnd; [by rewrite count_nil; lia|].
  cbn in Hnd |- *. apply NoDup_cons in Hnd as [Hn Hnd]. specialize (IH Hnd).
  destruct (bootstrap_fire_at job now); [|exact IH]. cbn. rewrite count_cons. destruct (decide (job_id job = id)) as [<-|]; [|lia].
  enough (count (job_id job) (omap (λ job0, (λ _, job_id job0) <$> bootstrap_fire_at job0 now) jobs) = 0) by lia.
  apply count_zero. intros (j & Hj & Hf)%list_elem_of_omap. apply Hn, list_elem_of_fmap. exists j.
  destruct (bootstrap_fire_at j now); cbn in Hf; simplify_eq. done.
Qed.

Lemma firing_ids_elem now jobs id : id ∈ firing_ids now jobs ↔ ∃ j, j ∈ jobs ∧ job_id j = id ∧ is_Some (bootstrap_fire_at j now).
Proof.
  unfold firing_ids. rewrite list_elem_of_omap. split.
  - intros (j & Hj & Hf). exists j. destruct (bootstrap_fire_at j now); cbn in Hf; simplify_eq. eauto.
  - intros (j & Hj & <- & [f Hf]). exists j. by rewrite Hf.
Qed.

Lemma boot_ok st now mono deadline s m sessions :
  job_store_open st = Ok s → engine_ok (boot now mono deadline s m sessions).1 (boot now mono deadline s m sessions).2.
Proof.
  intros Hopen. destruct (open_jobs st s Hopen) as (_ & _ & Hin). pose proof (is_keyed _ Hin) as Hk.
  destruct (job_list_ids s Hk) as [Hnd Hall]. unfold boot, bootstrap_scheduler.
  set (a0 := mkApp s _ _ m sessions ∅). set (regs := boot_registrations now _).
  pose proof (boot_register_fold now mono regs (a0, 0%Z, [])) as Hf. cbn zeta in Hf.
  change (job_list (app_jobs a0)) with (job_list s) in *.
  destruct (foldl (boot_register now mono) (a0, 0%Z, []) regs) as [[a' n] skipped].
  cbn [fst snd] in Hf. destruct Hf as (Hev & He & Ho & Hc & Hfi & Hon & Hcnt).
  set (a := if (0 <? n)%Z then _ else a').
  assert (Ha : jobs_of a = jobs_of a' ∧ app_episodes a = app_episodes a' ∧ app_scheduler a = app_scheduler a' ∧
    operator_cancelled_jobs a = operator_cancelled_jobs a') by (unfold a; by destruct (0 <? n)%Z). clearbody a.
  destruct Ha as (Hja & Hea & Hsa & Hoa). cbn [fst snd]. set (e := mkEngine a _ _ _ _ _).
  assert (Hd : ∀ id, drivers id e + count id skipped = count id (firing_ids now (job_list s))).
  { intros id. specialize (Hcnt id). unfold regs in Hcnt. rewrite registration_ids in Hcnt. unfold drivers, channel, e. cbn.
    rewrite Hsa, Hfi, Hea, He. cbn. unfold opens. cbn. rewrite lookup_empty, decide_False by (by intros []).
    unfold pending_ids in Hcnt at 2. cbn in Hcnt. rewrite heap_items_empty in Hcnt. cbn in Hcnt. rewrite !count_nil in Hcnt |- *. lia. }
  assert (Hje : jobs_in e = jobs_of a') by done.
  split.
  - intros id j'. rewrite Hje. intros Hj'. destruct (evolves_lookup _ _ _ _ Hev Hj') as (j & Hj & Hs).
    rewrite (sj_id _ _ Hs). by apply Hk.
  - intros id ep. unfold episodes_in, e. cbn. rewrite Hea, He. cbn. by rewrite lookup_empty.
  - split; unfold sched_in, e; cbn; rewrite Hsa.
    + apply Hon. unfold all_once. cbn. rewrite heap_items_empty. constructor.
    + rewrite Hfi. by exists [].
  - intros id. unfold cancelling, sched_in, swept_in, e. cbn. rewrite Hsa, Hc, Hoa, Ho. cbn. set_solver.
  - intros id. unfold swept_in, e. cbn. rewrite Hoa, Ho. set_solver.
  - constructor.
  - intros id Hid. specialize (Hd id). enough (count id (firing_ids now (job_list s)) = 0) by lia. apply count_zero.
    intros (j & Hj & <- & _)%firing_ids_elem. rewrite Hje in Hid. apply (evolves_none _ _ _ Hev) in Hid.
    unfold job_list in Hj. rewrite sort_by_key_perm in Hj. apply list_elem_of_fmap in Hj as ([id j'] & -> & Hin').
    apply elem_of_map_to_list in Hin'. cbn in Hid. rewrite (Hk _ _ Hin') in Hid. unfold jobs_of in Hid. cbn in Hid. congruence.
  - intros id. pose proof (firing_ids_count now (job_list s) id Hnd). specialize (Hd id). lia.
  - intros id j'. rewrite Hje. intros Hj' Hl. destruct (evolves_lookup _ _ _ _ Hev Hj') as (j & Hj & Hs).
    pose proof (same_job_live _ _ Hs Hl) as Hlive. pose proof (Hall _ _ Hj) as Hin'. specialize (Hd id). unfold driven_or_reported.
    destruct (bootstrap_fire_at j now) as [f|] eqn:Ef.
    + assert (0 < count id (firing_ids now (job_list s))).
      { apply count_pos, firing_ids_elem. exists j. rewrite Ef. split; [done|]. split; [by apply Hk|by eexists]. }
      pose proof (firing_ids_count now (job_list s) id Hnd).
      destruct (decide (count id skipped = 0)) as [Hz|Hz]; [left; lia|]. right. exists BootNotStored.
      apply elem_of_app. right. apply list_elem_of_fmap. exists id. split; [done|]. apply count_pos. lia.
    + right. exists NoOccurrence. apply elem_of_app. left. apply list_elem_of_omap. exists j. split; [done|].
      rewrite Hlive, Ef. by rewrite (Hk _ _ Hj).
Qed.

Lemma engine_reachable_ok e outs : engine_reachable ts_string json_from_str e outs → engine_ok e outs.
Proof. induction 1 as [st now mono deadline s m sessions Ho|l e outs e' new _ IH Hs]; [by eapply boot_ok|by eapply engine_step_ok]. Qed.
(** ** What a step does to the jobs and what it puts out *)

(** A job that has ended stays as it is, and no sweep is undone. *)
Definition lasting e e' : Prop :=
  (∀ id j, jobs_in e !! id = Some j → ∃ j', jobs_in e' !! id = Some j' ∧ same_job j j') ∧ swept_in e ⊆ swept_in e'.

Lemma lasting_same e e' : jobs_in e' = jobs_in e → swept_in e' = swept_in e → lasting e e'.
Proof. intros Hj Hs. split; rewrite ?Hj, ?Hs; [|done]. intros id j H. exists j. by split; [|apply same_job_refl]. Qed.

Lemma lasting_evolves e e' : evolves (jobs_in e) (jobs_in e') → swept_in e' = swept_in e → lasting e e'.
Proof. intros He Hs. split; [|by rewrite Hs]. intros id j. by apply evolves_keeps. Qed.

Lemma admit_lasting now mono run_id token e e' new :
  admit_step now mono run_id token e = Some (e', new) → lasting e e' ∧
  (∀ id run, RunFired id run ∈ new → ¬ ended (jobs_in e) id) ∧ ∀ o, o ∈ new → (∃ id why, o = Abandoned id why) ∨ (∃ id run, o = RunFired id run).
Proof.
  unfold admit_step. destruct (en_loop e) as [| |job session| | |]; try done. intros H.
  pose proof (admit_finish_cases now run_id token job session (en_app e)) as Hc.
  destruct (admit_finish _ _ _ _ _ _) as [a r]. destruct Hc as (Hj & Hs & Ho & Hr).
  assert (Hja : jobs_of a = jobs_in e) by (unfold jobs_in, jobs_of; by rewrite Hj).
  destruct r as [[ar|]|err].
  - destruct Hr as (Hid & He & Hlive). injection H as <- <-. split_and!; [by apply lasting_same| |].
    + intros id run [= -> ->]%list_elem_of_singleton. by rewrite Hid.
    + intros o ->%list_elem_of_singleton. right. eauto.
  - injection H as <- <-. split_and!; [by apply lasting_same|by intros ??[]%elem_of_nil|by intros ?[]%elem_of_nil].
  - injection H as H. pose proof (dispatch_failure_effect now mono (job_id job) err a) as Hd.
    destruct (dispatch_failure_write _ _ _ _ _) as [a' r]. destruct Hd as ((He' & Hs' & Ho') & Hev & _).
    assert (Hl : ∀ l, lasting e (put_loop l (put_app a' e))).
    { intros l. apply lasting_evolves; [by rewrite <- Hja|unfold swept_in; cbn; by rewrite Ho', Ho]. }
    destruct r as [[at_|]|err']; injection H as <- <-; (split_and!; [apply Hl| |]);
      try (by intros ??[]%elem_of_nil); try (by intros ?[]%elem_of_nil).
    + by intros ?? ?%list_elem_of_singleton.
    + intros o ->%list_elem_of_singleton. left. eauto.
Qed.
Lemma close_lasting i now mono fresh dummy fresh_run e e' new outs :
  engine_ok e outs → close_step ts_string i now mono fresh dummy fresh_run e = Some (e', new) → lasting e e' ∧
  (∀ id, CardShown id ∈ new → ∃ j, jobs_in e !! id = Some j ∧ job_status j ≠ JobCancelled) ∧
  ∀ o, o ∈ new → (∃ id why, o = Abandoned id why) ∨ (∃ id, o = CardShown id).
Proof.
  intros Hok. unfold close_step. destruct (en_closers e !! i) as [c|] eqn:Ei; [|done]. cbn [mbind option_bind]. intros H.
  pose proof (proj1 (Forall_lookup _ _) (eo_closers _ _ Hok) _ _ Ei) as Hc. unfold closer_ok in Hc.
  assert (Hnil : ∀ l : Eng, lasting e l → lasting e l ∧
    (∀ id, CardShown id ∈ [] → ∃ j, jobs_in e !! id = Some j ∧ job_status j ≠ JobCancelled) ∧
    ∀ o : Output, o ∈ [] → (∃ id why, o = Abandoned id why) ∨ (∃ id, o = CardShown id)).
  { intros l Hl. split_and!; [done|by intros ?[]%elem_of_nil|by intros ?[]%elem_of_nil]. }
  destruct (cl_stage c) as [|job|job|p retries|p r] eqn:Est.
  - destruct (gate_free _ e); [|done]. injection H as <- <-. apply Hnil.
    destruct (close_check (cl_job c) (en_app e)); by apply lasting_same.
  - injection H as <- <-. split_and!.
    + apply lasting_same; unfold jobs_in, jobs_of, swept_in, close_notify; cbn;
        by destruct (notify_job_completion _ _ _ _ _ _ _ _ _ _ _).
    + intros id [= ->]%list_elem_of_singleton. destruct Hc as (j & Hj & Hcan & _). eauto.
    + intros o ->%list_elem_of_singleton. right. eauto.
  - injection H as <- <-. apply Hnil. by apply lasting_same.
  - destruct Hc as (j & Hj & _ & Hp). pose proof (close_write_effect (cl_job c) p (en_app e) j Hj Hp) as Hw.
    destruct (close_write (cl_job c) p (en_app e)) as [a r]. cbn in Hw. destruct Hw as ((_ & _ & Ho) & Hev & _).
    destruct r as [outcome|err]; [|destruct retries as [|n]]; injection H as <- <-; apply Hnil; by apply lasting_evolves.
  - injection H as <- <-. destruct (close_finish_keeps mono (cl_job c) p r (en_app e)) as (H1 & _ & H3 & _).
    split_and!; [by apply lasting_same|..].
    + unfold close_reports. intros id Hin. destruct (cp_cron p) as [cron|], r as [[]|]; try (by apply elem_of_nil in Hin);
        [destruct (cp_next p)|destruct (next_after cron (cp_now p))|]; (by apply elem_of_nil in Hin) || (by apply list_elem_of_singleton in Hin).
    + unfold close_reports. intros o Hin. left. destruct (cp_cron p) as [cron|], r as [[]|]; try (by apply elem_of_nil in Hin);
        [destruct (cp_next p)|destruct (next_after cron (cp_now p))|];
        first [by apply elem_of_nil in Hin|apply list_elem_of_singleton in Hin as ->; eauto].
Qed.

Lemma create_lasting now mono fresh req e e' : create_step now mono fresh req e = Some e' → lasting e e'.
Proof.
  unfold create_step, job_get. destruct (js_jobs _ !! fresh) eqn:Hn; [done|]. intros H. injection H as H.
  unfold create_job, create_with_next_run_at in H.
  destruct (first_fire_at now (req_schedule req)); [|subst; by apply lasting_same].
  destruct (persist_job _ _); [|subst; by apply lasting_same]. subst. split; [|done].
  intros id j Hj. exists j. split; [|apply same_job_refl]. unfold jobs_in, jobs_of in *. cbn.
  rewrite lookup_insert_ne; [done|congruence].
Qed.

Lemma cancel_lasting id e e' : cancel_step id e = Some e' → lasting e e'.
Proof.
  unfold cancel_step. destruct (gate_free id e); [|done]. intros H. injection H as <-.
  pose proof (cancel_commit_cases id (en_app e)) as Hc. destruct (cancel_commit id (en_app e)) as [a [|r]];
    destruct Hc as ((_ & _ & Ho) & Hev & _); by apply lasting_evolves.
Qed.

Lemma cancel_next_lasting i e e' new : cancel_next_step i e = Some (e', new) →
  lasting e e' ∧ ∀ o, o ∈ new → ∃ id, o = CancelDone id.
Proof.
  unfold cancel_next_step. destruct (en_cancelling e !! i) as [[id stage]|]; [|done]. cbn [mbind option_bind fst snd].
  destruct stage as [|ep|ep]; intros H.
  - unfold cancel_sweep, JobEpisode.remove in H. injection H as <- <-. split; [|by intros ?[]%elem_of_nil].
    split; [intros i' j Hj; exists j; by split; [|apply same_job_refl]|]. unfold swept_in. cbn. set_solver.
  - injection H as <- <-. split; [by apply lasting_same|by intros ?[]%elem_of_nil].
  - injection H as <- <-. split; [|intros o ->%list_elem_of_singleton; eauto].
    destruct ep as [ep|]; [|by apply lasting_same]. destruct (teardown_keeps ep (en_app e)) as (H1 & _ & H3 & _).
    apply lasting_same; unfold jobs_in, jobs_of, swept_in; cbn; by rewrite ?H1, ?H3.
Qed.
(** What may be put out in a state. *)
Definition may_say e (o : Output) : Prop :=
  match o with
  | CardShown id => ∃ j, jobs_in e !! id = Some j ∧ job_status j ≠ JobCancelled
  | RunFired id _ => ¬ ended (jobs_in e) id
  | RunTriggered context_id _ => operator_cancelled_job_for_context context_id (en_app e) = None
  | CancelDone _ | Abandoned _ _ => True
  end.

Lemma timer_lasting turn e e' : timer_step turn e = Some e' → lasting e e'.
Proof. unfold timer_step. destruct (run_loop_turn _ _); [|done]. intros [= <-]. by apply lasting_same. Qed.

Lemma loop_lasting e e' : (receive_step e = Some e' ∨ (∃ now fresh, reserved_step now fresh e = Some e') ∨ arm_step e = Some e') →
  lasting e e'.
Proof.
  unfold receive_step, reserved_step, arm_step, admit_begin. intros [H|[(now & fresh & H)|H]]; destruct (en_loop e); try done.
  - destruct (head (channel e)); [|done]. injection H as <-. destruct (fire_agent _ _); by apply lasting_same.
  - destruct (job_get id _) as [job|]; [|injection H as <-; by apply lasting_same].
    destruct (job_is_terminal _); [injection H as <-; by apply lasting_same|].
    destruct (absorb_fire_if_open _ _) as [[]]; [injection H as <-; by apply lasting_same|].
    destruct (Session.get_or_create _ _ _ _ _). injection H as <-. by apply lasting_same.
  - injection H as <-. by apply lasting_same.
Qed.

Lemma completed_lasting c e : lasting e (completed_step c e).
Proof. unfold completed_step. by destruct (c.1); apply lasting_same. Qed.

Lemma engine_step_says l e e' outs new :
  engine_ok e outs → engine_step ts_string json_from_str l e = Some (e', new) →
  lasting e e' ∧ ∀ o, o ∈ new → may_say e o.
Proof.
  intros Hok.
  assert (Hq : ∀ o : option Eng, (∀ e0, o = Some e0 → lasting e e0) → quiet o = Some (e', new) →
    lasting e e' ∧ ∀ o, o ∈ new → may_say e o).
  { intros [e0|] Hl; cbn; [|done]. intros [= -> <-]. split; [by apply Hl|by intros ?[]%elem_of_nil]. }
  assert (Hs : ∀ e0, lasting e e0 → Some (e0, []) = Some (e', new) → lasting e e' ∧ ∀ o, o ∈ new → may_say e o).
  { intros e0 Hl [= -> <-]. split; [done|by intros ?[]%elem_of_nil]. }
  destruct l; cbn [engine_step]; try (apply Hq; eauto using timer_lasting, create_lasting, cancel_lasting; fail);
    try (apply Hs; first [by apply lasting_same|by apply completed_lasting]).
  - apply Hq. intros e0 H0. apply loop_lasting. by left.
  - apply Hq. intros e0 H0. apply loop_lasting. right. left. eauto.
  - unfold queue_closed_step. destruct (en_loop e); try done. intros [= <- <-]. split; [by apply lasting_same|].
    by intros o ->%list_elem_of_singleton.
  - intros H. destruct (admit_lasting _ _ _ _ _ _ _ H) as (Hl & Hf & Ho). split; [done|]. intros o Hin.
    destruct (Ho o Hin) as [(id & why & ->)|(id & run & ->)]; [done|]. by eapply Hf.
  - apply Hq. intros e0 H0. apply loop_lasting. by right; right.
  - unfold submit_step. destruct (en_loop e) as [| | | |r|]; try done. intros H. injection H as H.
    destruct queued_ahead as [n|]; injection H as <- <-; (split; [by apply lasting_same|]); [by intros ?[]%elem_of_nil|].
    by intros o ->%list_elem_of_singleton.
  - intros [= H]. unfold trigger_step in H. pose proof (trigger_admit_keeps now q agent session input context_id job (en_app e)) as Hk.
    destruct (trigger_admit _ _ _ _ _ _ _ _) as [a admitted]. destruct Hk as (H1 & H2 & H3 & _ & _ & H6). injection H as <- <-.
    split; [apply lasting_same; unfold jobs_in, jobs_of, swept_in; cbn; by rewrite ?H1, ?H3|].
    destruct admitted; [|by intros ?[]%elem_of_nil]. intros o ->%list_elem_of_singleton. by apply H6.
  - intros H. destruct (close_lasting _ _ _ _ _ _ _ _ _ _ Hok H) as (Hl & Hf & Ho). split; [done|]. intros o Hin.
    destruct (Ho o Hin) as [(id & why & ->)|(id & ->)]; [done|]. by eapply Hf.
  - apply Hq. intros e0. unfold schedule_step. destruct (en_creating e !! i); [|done]. intros [= <-]. by apply lasting_same.
  - unfold drop_create_step. destruct (en_creating e !! i); [|done]. intros [= <- <-]. split; [by apply lasting_same|].
    by intros o ->%list_elem_of_singleton.
  - intros H. destruct (cancel_next_lasting _ _ _ _ H) as [Hl Ho]. split; [done|]. intros o Hin. by destruct (Ho o Hin) as [id ->].
Qed.
(** ** A closing task by itself *)

Section alone.
Context (now mono : Z) (fresh : string) (dummy fresh_run : RunId) (i : nat) (ep : JobEpisode) (late : bool) (e : Eng).

Definition close_turn : Label (Rs:=Rs) (Ss:=Ss) := LClose i now mono fresh dummy fresh_run.

(** The engine with the task at a stage, and without the task. *)
Definition task_at (st : CloseStage) (a : App) : Eng :=
  put_closers (<[i := at_stage (start_close ep late) st]> (en_closers e)) (put_app a e).
Definition task_gone (a : App) : Eng := put_closers (delete i (en_closers e)) (put_app a e).

Definition runs_to (n : nat) (e1 e2 : Eng) : Prop :=
  ∃ k outs, k ≤ n ∧ engine_run ts_string json_from_str (replicate k close_turn) e1 = Some (e2, outs).

Lemma runs_to_step n e1 e2 e3 new :
  engine_step ts_string json_from_str close_turn e1 = Some (e2, new) → runs_to n e2 e3 → runs_to (S n) e1 e3.
Proof.
  intros Hs (k & outs & Hk & Hr). exists (S k), (new ++ outs). split; [lia|]. cbn [replicate engine_run].
  rewrite Hs. cbn. by rewrite Hr.
Qed.

Lemma runs_to_refl n e1 : runs_to n e1 e1.
Proof. exists 0, []. split; [lia|done]. Qed.

Context (Hi : en_closers e !! i = Some (start_close ep late)).

Lemma task_at_lookup st a : en_closers (task_at st a) !! i = Some (at_stage (start_close ep late) st).
Proof. apply list_lookup_insert_eq. by apply lookup_lt_Some in Hi. Qed.

Lemma task_moves st st' a a' : put_closers (<[i := at_stage (at_stage (start_close ep late) st) st']> (en_closers (task_at st a)))
  (put_app a' (task_at st a)) = task_at st' a'.
Proof. unfold task_at, put_closers, put_app. cbn. by rewrite list_insert_insert_eq. Qed.

Lemma task_stops st a a' : put_closers (delete i (en_closers (task_at st a))) (put_app a' (task_at st a)) = task_gone a'.
Proof.
  unfold task_at, task_gone, put_closers, put_app. cbn. f_equal. apply list_eq. intros k.
  assert (H : i < length (en_closers e)) by (by apply lookup_lt_Some in Hi).
  destruct (decide (k < i)).
  - rewrite !list_lookup_delete_lt by done. by rewrite list_lookup_insert_ne by lia.
  - rewrite !list_lookup_delete_ge by lia. by rewrite list_lookup_insert_ne by lia.
Qed.

Lemma task_writes retries p : ∀ a, runs_to (S (S retries)) (task_at (CloseWriting p retries) a)
  (task_gone (let '(a', r) := record_run_with_retry retries (ep_job_id ep) p a in close_finish mono (ep_job_id ep) p r a')).
Proof.
  assert (Harm : ∀ n r a, runs_to (S n) (task_at (CloseArming p r) a) (task_gone (close_finish mono (ep_job_id ep) p r a))).
  { intros n r a. eapply runs_to_step; [|apply runs_to_refl]. cbn [engine_step close_turn]. unfold close_step.
    rewrite task_at_lookup. cbn [mbind option_bind at_stage cl_stage]. by rewrite task_stops. }
  induction retries as [|n IH]; intros a; cbn [record_run_with_retry];
    destruct (close_write (ep_job_id ep) p a) as [a' [outcome|err]] eqn:Ew.
  1,2,3: (eapply runs_to_step; [|apply Harm]; cbn [engine_step close_turn]; unfold close_step;
    rewrite task_at_lookup; cbn [mbind option_bind at_stage cl_stage];
    change (close_write _ p (en_app (task_at _ a))) with (close_write (ep_job_id ep) p a); rewrite Ew; by rewrite task_moves).
  eapply runs_to_step; [|apply IH]. cbn [engine_step close_turn]. unfold close_step.
  rewrite task_at_lookup. cbn [mbind option_bind at_stage cl_stage].
  change (close_write _ p (en_app (task_at _ a))) with (close_write (ep_job_id ep) p a). rewrite Ew. by rewrite task_moves.
Qed.

Lemma task_runs : gate_free (ep_job_id ep) e = true →
  runs_to 7 e (task_gone (close_episode ts_string now mono fresh dummy fresh_run ep late (en_app e))).
Proof.
  intros Hg. unfold close_episode. destruct (close_check (ep_job_id ep) (en_app e)) as [job|] eqn:Ec.
  2:{ eapply (runs_to_step 6); [|apply runs_to_refl]. cbn [engine_step close_turn]. unfold close_step. rewrite Hi.
    cbn [mbind option_bind start_close cl_stage]. change (cl_job _) with (ep_job_id ep). by rewrite Hg, Ec. }
  eapply (runs_to_step 6 e (task_at (CloseNotifying job) (en_app e))).
  { cbn [engine_step close_turn]. unfold close_step. rewrite Hi. cbn [mbind option_bind start_close cl_stage].
    change (cl_job _) with (ep_job_id ep). by rewrite Hg, Ec. }
  eapply (runs_to_step 5 _ (task_at (ClosePlanning job) (close_notify ts_string now fresh dummy fresh_run job ep late (en_app e)))).
  { cbn [engine_step close_turn]. unfold close_step. rewrite task_at_lookup. cbn [mbind option_bind at_stage cl_stage].
    by rewrite task_moves. }
  eapply runs_to_step; [|apply (task_writes (JOB_REARM_MAX_ATTEMPTS - 1) (close_plan now job ep late))].
  cbn [engine_step close_turn]. unfold close_step. rewrite task_at_lookup. cbn [mbind option_bind at_stage cl_stage].
  by rewrite task_moves.
Qed.
End alone.
End invariant.

(** * Properties *)

Section properties.
Context `{U : UuidCrate} `{CH : ChronoCrate} `{CR : CronCrate} `{M : MinHeap} `{!MinHeapLaws M}.
Context {Js Rs Ss : Type} `{JT : JobTable Js} `{!JobTableLaws JT} `{RS : RunStore Rs} `{DB : SqliteStore Ss}.
Context (ts_string : Z → string) (json_from_str : string → option json).
Implicit Types (e : Engine Js Rs Ss).

(** C3: No job is forgotten and none fires twice.  In every engine that start-up
    and any interleaving of the tasks can reach, whatever writes the store
    refuses, a job has at most one driver: an entry of the timer, a place in the
    fire channel, the fire loop, an open episode, a closing task or the handler
    that created it.  A job that has not ended has exactly one, which its timer
    entry cannot lose, unless an output says that it was abandoned and why. *)
Theorem live_jobs_driven e outs id :
  engine_reachable ts_string json_from_str e outs →
  drivers id e ≤ 1 ∧
  ∀ j, jobs_in e !! id = Some j → job_is_terminal (job_status j) = false →
    id ∉ sc_cancelled (sched_in e) ∧ (drivers id e = 1 ∨ ∃ why, Abandoned id why ∈ outs).
Proof.
  intros Hr. pose proof (engine_reachable_ok _ _ _ _ Hr) as Hok. split; [apply Hok|].
  intros j Hj Hl. split; [|by eapply eo_driven]. intros Hc.
  destruct (eo_cancelled _ _ Hok id (or_introl Hc)) as (j' & Hj' & Hs). simplify_eq. by rewrite Hs in Hl.
Qed.

Lemma run_silent ls : ∀ e outs e' new id j,
  engine_ok e outs → jobs_in e !! id = Some j → job_status j = JobCancelled →
  engine_run ts_string json_from_str ls e = Some (e', new) →
  engine_ok e' (outs ++ new) ∧ jobs_in e' !! id = Some j ∧ swept_in e ⊆ swept_in e' ∧
  CardShown id ∉ new ∧ (∀ run, RunFired id run ∉ new) ∧
  (id ∈ swept_in e → uuid_valid (job_uuid id) = true → UuidLaws U → ∀ run, RunTriggered (job_context_id id) run ∉ new).
Proof.
  induction ls as [|l ls IH]; intros e outs e' new id j Hok Hj Hc; cbn.
  { intros [= <- <-]. rewrite app_nil_r. split_and!; [done..|by intros []%elem_of_nil|by intros ? []%elem_of_nil|].
    by intros _ _ _ ? []%elem_of_nil. }
  destruct (engine_step _ _ l e) as [[e1 new1]|] eqn:Es; [|done].
  destruct (engine_run _ _ ls e1) as [[e2 new2]|] eqn:Er; [|done]. intros [= <- <-].
  destruct (engine_step_says _ _ _ _ _ _ _ Hok Es) as [[Hl Hsw] Hsay].
  pose proof (engine_step_ok _ _ _ _ _ _ _ Es Hok) as Hok1. destruct (Hl id j Hj) as (j1 & Hj1 & Hs1).
  rewrite (sj_terminal _ _ Hs1) in Hj1 by (by rewrite Hc).
  destruct (IH e1 _ _ _ _ _ Hok1 Hj1 Hc Er) as (Hok2 & Hj2 & Hsw2 & Hcard & Hfire & Htrig).
  split_and!; [by rewrite app_assoc|done|set_solver|..].
  - intros [Hin|Hin]%elem_of_app; [|done]. destruct (Hsay _ Hin) as (j' & Hj' & Hn). simplify_eq.
  - intros run [Hin|Hin]%elem_of_app; [|by eapply Hfire]. apply (Hsay _ Hin). intros j' Hj'. simplify_eq. by rewrite Hc.
  - intros Hid Hv Hlaws run [Hin|Hin]%elem_of_app; [|by eapply Htrig; auto]. pose proof (Hsay _ Hin) as Hn. cbn in Hn.
    unfold operator_cancelled_job_for_context in Hn. change (strip_prefix "job_" _) with (Some (uuid_to_string (job_uuid id))) in Hn.
    cbn [mbind option_bind] in Hn. rewrite parse_to_string in Hn by done. cbn in Hn. destruct id as [u]. cbn in Hn. by rewrite decide_True in Hn.
Qed.

Lemma engine_reachable_run ls : ∀ e outs e' new,
  engine_reachable ts_string json_from_str e outs → engine_run ts_string json_from_str ls e = Some (e', new) →
  engine_reachable ts_string json_from_str e' (outs ++ new).
Proof.
  induction ls as [|l ls IH]; intros e outs e' new Hr; cbn; [intros [= <- <-]; by rewrite app_nil_r|].
  destruct (engine_step _ _ l e) as [[e1 new1]|] eqn:Es; [|done].
  destruct (engine_run _ _ ls e1) as [[e2 new2]|] eqn:Erun; [|done]. intros [= <- <-]. rewrite app_assoc.
  by apply (IH e1); [eapply en_step|].
Qed.

(** C4: A cancelled job is silent.  Once the cancellation of a job is committed the
    job stays as it is: whatever the tasks do from then on, also those that were
    closing or firing it, no completion card of it is shown and the fire loop
    starts no run of it.  A trigger that holds its id may still continue its
    session until the cancellation's sweep; after the sweep the job has no open
    episode and no trigger starts a run in its session. *)
Theorem cancelled_job_silent `{!UuidLaws U} e outs ls e' new id j :
  engine_reachable ts_string json_from_str e outs → uuid_valid (job_uuid id) = true →
  jobs_in e !! id = Some j → job_status j = JobCancelled →
  engine_run ts_string json_from_str ls e = Some (e', new) →
  jobs_in e' !! id = Some j ∧ CardShown id ∉ new ∧ (∀ run, RunFired id run ∉ new) ∧
  (id ∈ swept_in e →
   tk_episodes (episodes_in e') !! id = None ∧ ∀ run, RunTriggered (job_context_id id) run ∉ new).
Proof.
  intros Hr Hv Hj Hc Hrun.
  destruct (run_silent ls e outs e' new id j (engine_reachable_ok _ _ _ _ Hr) Hj Hc Hrun) as (Hok & Hj' & Hsw & Hcard & Hfire & Htrig).
  split_and!; [done..|]. intros Hid. split; [apply (eo_swept _ _ Hok); set_solver|by apply Htrig].
Qed.

(** A closing task ends and does what [close_episode] says.  Once the gate of
    the job is free, a task that closes an episode ends after at most seven
    turns of its own; left to itself it leaves the shared state exactly as the
    sequential handler does, with its retries, and nothing else of the engine
    changed. *)
Theorem close_task_is_close_episode now mono fresh dummy fresh_run i ep late e :
  en_closers e !! i = Some (start_close ep late) → gate_free (ep_job_id ep) e = true →
  ∃ n outs, n ≤ 7 ∧
    engine_run ts_string json_from_str (replicate n (LClose i now mono fresh dummy fresh_run)) e =
      Some (put_closers (delete i (en_closers e))
              (put_app (close_episode ts_string now mono fresh dummy fresh_run ep late (en_app e)) e), outs).
Proof. apply task_runs. Qed.
End properties.

(** * Witnesses *)

Section witnesses.
Import SimpleUuid SimpleChrono NullStore ListHeap.

Local Instance null_runs : RunStore unit := {|
  run_rows _ := ∅; save_run _ _ := Ok tt; save_run_with_initial_message _ _ _ := Ok (0%Z, tt);
  mark_stale_runs_failed _ := Ok (0, tt); load_all_runs _ := Ok [];
|}.

(** One expression, every thousand seconds. *)
Local Instance every_thousand : CronCrate := {
  Schedule := unit;
  schedule_from_str s := if String.eqb s "0 * * * * *" then Some tt else None;
  schedule_next _ t := Some (t + 1000 * SECOND)%Z;
}.

Local Definition once_id : JobId := MkJobId (MkUuid 1).
Local Definition cron_id : JobId := MkJobId (MkUuid 2).
Local Definition some_agent : AgentId := MkAgentId (MkUuid 9).
Local Definition turn_run (n : N) : RunId := MkRunId (MkUuid n).

(** Two stored jobs, and a disk that takes [n] more writes. *)
Local Definition two_jobs (n : nat) : TableWithBudget :=
  {| tb_table := {[once_id := job_new once_id 1 some_agent "report" (Once 5) (Some 5%Z);
                   cron_id := job_new cron_id 2 some_agent "check" (Recurring "* * * * *") (Some (500 * SECOND)%Z)]};
     tb_budget := n |}.
Local Definition opened_jobs (n : nat) : JobStore TableWithBudget :=
  match job_store_open (two_jobs n) with Ok s => s | Err _ => job_store_new end.

Local Abbreviation Eng := (Engine TableWithBudget unit unit).
Local Definition booted (n : nat) : Eng * list Output :=
  boot (10 * SECOND) 0 (14400 * SECOND) (opened_jobs n) manager_new (session_manager_new session_config_default).
Local Abbreviation run := (engine_run (Js:=TableWithBudget) (Rs:=unit) (Ss:=unit) (λ _, "") (λ _, None)).

(** The due job fires, runs one turn and is closed. *)
Local Definition first_fire : list (Label (Rs:=unit) (Ss:=unit)) :=
  [LTimer (TimerAt (2 * SECOND) (2 * SECOND)); LReceive; LReserved 12 (MkSessionId (MkUuid 20)); LAdmit 13 2 (turn_run 30) 7;
   LSubmit 14 (Some 0); LRunExit once_id (turn_run 30) []].
Local Definition close_turns (n : nat) : list (Label (Rs:=unit) (Ss:=unit)) :=
  replicate n (LClose 0 (20 * SECOND) (8 * SECOND) "m" (turn_run 31) (turn_run 32)).

Local Definition result (o : option (Eng * list Output)) : Eng * list Output := default (booted 0) o.

(** With the disk full after one write the completion of the first job cannot be stored: it is
    reported, and the other job still waits in the timer. *)
Lemma live_jobs_driven_witness :
  let r := result (run (first_fire ++ close_turns 7) (booted 1).1) in
  r.2 = [RunFired once_id (turn_run 30); CardShown once_id; Abandoned once_id CompletionNotStored] ∧
  drivers once_id r.1 = 0 ∧ drivers cron_id r.1 = 1 ∧ drivers once_id r.1 ≤ 1.
Proof.
  intros r. split; [vm_compute; reflexivity|]. split; [vm_compute; reflexivity|]. split; [vm_compute; reflexivity|].
  assert (Hr : run (first_fire ++ close_turns 7) (booted 1).1 = Some r) by (vm_compute; reflexivity).
  refine (proj1 (live_jobs_driven (λ _, "") (λ _, None) r.1 ((booted 1).2 ++ r.2) once_id _)).
  eapply engine_reachable_run; [|rewrite Hr; by destruct r].
  apply (en_boot (λ _, "") (λ _, None) (two_jobs 1)). vm_compute. reflexivity.
Defined.
(** The operator cancels the job while its episode waits to be closed. *)
Local Definition cancelled_early : Eng * list Output :=
  result (run (first_fire ++ [LCancel once_id; LCancelNext 0]) (booted 9).1).

Lemma cancelled_job_silent_witness :
  let r := result (run (LCancelNext 0 :: close_turns 1 ++ [LCancelNext 0]) cancelled_early.1) in
  r.2 = [CancelDone once_id] ∧ CardShown once_id ∉ r.2 ∧ tk_episodes (episodes_in r.1) !! once_id = None.
Proof.
  intros r. split; [vm_compute; reflexivity|].
  assert (H1 : run (first_fire ++ [LCancel once_id; LCancelNext 0]) (booted 9).1 = Some cancelled_early) by (vm_compute; reflexivity).
  assert (H2 : run (LCancelNext 0 :: close_turns 1 ++ [LCancelNext 0]) cancelled_early.1 = Some (r.1, r.2)) by (vm_compute; reflexivity).
  assert (Hr : engine_reachable (λ _, "") (λ _, None) cancelled_early.1 ((booted 9).2 ++ cancelled_early.2)).
  { eapply engine_reachable_run; [|rewrite H1; by destruct cancelled_early].
    apply (en_boot (λ _, "") (λ _, None) (two_jobs 9)). vm_compute. reflexivity. }
  destruct (jobs_in cancelled_early.1 !! once_id) as [j|] eqn:Ej; [|exfalso; vm_compute in Ej; discriminate].
  assert (Hs : job_status j = JobCancelled) by (vm_compute in Ej; injection Ej as <-; reflexivity).
  destruct (cancelled_job_silent (λ _, "") (λ _, None) _ _ _ _ _ once_id j Hr ltac:(vm_compute; reflexivity) Ej Hs H2)
    as (_ & Hcard & _ & Hswept). split; [exact Hcard|].
  refine (proj1 (Hswept (proj1 (bool_decide_eq_true (once_id ∈ swept_in cancelled_early.1)) _))). vm_compute. reflexivity.
Defined.

Local Definition closing : Eng * list Output := result (run first_fire (booted 9).1).

Lemma close_task_is_close_episode_witness :
  ∃ ep n outs, en_closers closing.1 !! 0 = Some (start_close ep false) ∧ n ≤ 7 ∧
    run (replicate n (LClose 0 (20 * SECOND) 0 "m" (turn_run 31) (turn_run 32))) closing.1 =
      Some (put_closers [] (put_app (close_episode (λ _, "") (20 * SECOND) 0 "m" (turn_run 31) (turn_run 32) ep false
                                        (en_app closing.1)) closing.1), outs).
Proof.
  destruct (en_closers closing.1) as [|c l] eqn:Ec; [exfalso; vm_compute in Ec; discriminate|].
  assert (Hc : c = start_close (cl_episode c) false ∧ l = [])
    by (vm_compute in Ec; injection Ec as <- <-; split; vm_compute; reflexivity).
  destruct Hc as [Hc ->]. rewrite Hc in Ec. exists (cl_episode c).
  destruct (close_task_is_close_episode (λ _, "") (λ _, None) (20 * SECOND) 0 "m" (turn_run 31) (turn_run 32) 0
    (cl_episode c) false closing.1 ltac:(by rewrite Ec) ltac:(unfold gate_free; rewrite Ec; reflexivity)) as (n & outs & Hn & Hr).
  exists n, outs. split_and!; [cbn; by f_equal|done|]. rewrite Hr, Ec. reflexivity.
Defined.
End witnesses.
