(* ===== verification/Errors.v ===== *)
(** Errors as people, logs and models see them: [alms-core/src/error.rs].

    The error type itself is in [Session.v].  An error of a provider carries the
    raw answer of the provider ([llm_api_error]); what is written to the history
    of a session, and so into the context of later turns, and to the audit log is
    derived from it by the two functions below. *)
From stdpp Require Import pretty.
From S2P Require Import Prelude Ident Run EventFeed Session TextEdit Notify.

(** * Building *)

(** [secrets.rs]: the providers whose keys the secrets store keeps. *)
Definition VALID_PROVIDERS : list string := ["openai"; "anthropic"; "openrouter"; "gemini"; "telegram"].

Definition MAX_PROVIDER_LABEL_CHARS : nat := 64.

Definition normalise_provider_label (raw : string) : string :=
  let trimmed := trim (single_line raw) in
  if String.eqb trimmed "" then "unknown"
  else
    let clamped := take_chars MAX_PROVIDER_LABEL_CHARS trimmed in
    if Nat.ltb MAX_PROVIDER_LABEL_CHARS (length (str_chars trimmed)) then clamped +:+ "…" else clamped.

Definition llm_api_error (provider : string) (status : Z) (body : string) : AlmsError :=
  LlmApiError (normalise_provider_label provider) status (single_line body).

(** * Showing *)

Definition llm_auth_error_hint (provider : string) (status : Z) : string :=
  let head := "LLM authentication error: " +:+ provider +:+ " rejected the API key (HTTP " +:+ pretty status +:+ "). " in
  if bool_decide (provider ∈ VALID_PROVIDERS)
  then head +:+ "Check the " +:+ provider +:+ " key in the dashboard Settings."
  else head +:+ "Check the api_key_env / api_key declared under [llm.providers." +:+ provider +:+
       "] in alms.toml and restart the gateway.".

(** The label of a [Runtime] error, from words in its message. *)
Definition runtime_label (msg : string) : string :=
  if str_contains "401" msg || str_contains "403" msg then "LLM authentication error"
  else if str_contains "429" msg then "LLM rate limit exceeded"
  else if str_contains "timeout" msg || str_contains "timed out" msg then "LLM request timed out"
  else if str_contains "context" msg || str_contains "summary" msg then "Context building failed"
  else if str_contains "maximum" msg && str_contains "iteration" msg then "Agent stopped after reaching its iteration limit"
  else if str_contains "maximum duration" msg then "Agent stopped after reaching its time limit"
  else if str_contains "stalled" msg then "Agent stopped after stalling (no activity)"
  else "Runtime error".

(** [split(':').next()]. *)
Definition before_colon (msg : string) : string :=
  match split_once ":"%char msg with Some (head, _) => head | None => msg end.

Definition sanitize_error_for_session (err : AlmsError) : string :=
  match err with
  | Runtime msg => runtime_label msg
  | ToolExecution msg => "Tool execution failed: " +:+ before_colon msg
  | SessionNotFound _ => "Session not found"
  | InvalidConfig _ => "Invalid configuration"
  | CancelledError => "Run cancelled by user"
  | IoError _ => "I/O error"
  | LlmApiError provider status _ =>
      if (status =? 401)%Z || (status =? 403)%Z then llm_auth_error_hint provider status
      else if (status =? 429)%Z then "LLM rate limit exceeded"
      else if (400 <=? status)%Z && (status <=? 499)%Z then "LLM request rejected"
      else if (500 <=? status)%Z && (status <=? 599)%Z then "LLM server error"
      else "LLM error"
  | ToolBlocked _ _ => "Tool blocked by policy"
  | _ => "Internal error"
  end.

Fixpoint audit_error_string (err : AlmsError) : string :=
  match err with
  | LlmApiError _ _ _ => sanitize_error_for_session err
  | FailedWithToolCalls source _ => audit_error_string source
  | _ => alms_error_to_string err
  end.

(** * What they show *)

(** The error without what a provider answered and what tools returned. *)
Fixpoint redact (err : AlmsError) : AlmsError :=
  match err with
  | LlmApiError provider status _ => LlmApiError provider status ""
  | FailedWithToolCalls source _ => FailedWithToolCalls (redact source) []
  | e => e
  end.

(** The fixed labels of [sanitize_error_for_session]. *)
Definition session_labels : list string :=
  ["LLM authentication error"; "LLM rate limit exceeded"; "LLM request timed out"; "Context building failed";
   "Agent stopped after reaching its iteration limit"; "Agent stopped after reaching its time limit";
   "Agent stopped after stalling (no activity)"; "Runtime error"; "Session not found"; "Invalid configuration";
   "Run cancelled by user"; "I/O error"; "LLM request rejected"; "LLM server error"; "LLM error";
   "Tool blocked by policy"; "Internal error"].

(** ** Single lines *)

Lemma single_line_clean c s : c = lf ∨ c = cr → char_in c (single_line s) = false.
Proof.
  intros Hc. unfold single_line. induction s as [|a s IH]; [done|]. simpl. rewrite IH, orb_false_r.
  destruct (Ascii.eqb a lf || Ascii.eqb a cr) eqn:E; [by destruct Hc as [-> | ->]|].
  apply orb_false_iff in E as [E1 E2]. by destruct Hc as [-> | ->].
Qed.

Lemma single_line_length s : String.length (single_line s) = String.length s.
Proof. unfold single_line. induction s; simpl; congruence. Qed.

Lemma char_in_bytes c s : char_in c s = false ↔ Forall (λ b, b ≠ N_of_ascii c) (bytes_of s).
Proof.
  induction s as [|a s IH]; simpl; [by split|]. rewrite orb_false_iff, IH, Forall_cons, Ascii.eqb_neq.
  enough (a ≠ c ↔ N_of_ascii a ≠ N_of_ascii c) by naive_solver.
  split; intros H E; apply H; [|by rewrite E]. rewrite <- (ascii_N_embedding a), <- (ascii_N_embedding c). by f_equal.
Qed.

Lemma trim_no_char c s : char_in c s = false → char_in c (trim s) = false.
Proof.
  rewrite !char_in_bytes. intros H. unfold trim. rewrite bytes_of_of_bytes by apply trim_bytes_forall, bytes_of_lt.
  by apply trim_bytes_forall.
Qed.

Lemma take_chars_no_char c n s : char_in c s = false → char_in c (take_chars n s) = false.
Proof.
  unfold take_chars, str_chars. destruct (utf8_chars s) as [cs|] eqn:E; [|by destruct n].
  apply utf8_chars_spec in E as [<- _]. cbn [default]. rewrite <- (take_drop n cs) at 1.
  rewrite scat_app, char_in_app. by intros [? _]%orb_false_iff.
Qed.

Lemma provider_label_clean c p : c = lf ∨ c = cr → char_in c (normalise_provider_label p) = false.
Proof.
  intros Hc. unfold normalise_provider_label. pose proof (trim_no_char c _ (single_line_clean c p Hc)) as Ht.
  destruct (String.eqb _ _); [by destruct Hc as [-> | ->]|]. pose proof (take_chars_no_char c MAX_PROVIDER_LABEL_CHARS _ Ht) as Hk.
  destruct (Nat.ltb _ _); [|done]. rewrite char_in_app, Hk. by destruct Hc as [-> | ->].
Qed.

Lemma pretty_no_char c (z : Z) : is_ascii_digit c = false → c ≠ "-"%char → char_in c (pretty z) = false.
Proof.
  intros Hc Hm. assert (Hn : ∀ n : N, char_in c (pretty n) = false).
  { intros n. unfold pretty, pretty_N. destruct (decide (n = 0%N)).
    - cbn [char_in]. destruct (Ascii.eqb_spec "0" c) as [<-|]; [discriminate|done].
    - apply (forall_chars_not_in is_ascii_digit); [apply (pretty_go_digits n "" eq_refl)|exact Hc]. }
  destruct z as [|p|p]; [|apply Hn|].
  - change (pretty 0%Z) with "0". cbn [char_in]. destruct (Ascii.eqb_spec "0" c) as [<-|]; [discriminate|done].
  - change (pretty (Z.neg p)) with ("-" +:+ pretty (N.pos p)). rewrite char_in_app, Hn, orb_false_r. cbn [char_in].
    destruct (Ascii.eqb_spec "-" c) as [<-|]; done.
Qed.

Lemma label_in s : existsb (String.eqb s) session_labels = true → s ∈ session_labels.
Proof. intros (x & Hx & E%String.eqb_eq)%existsb_exists. subst. by apply list_elem_of_In. Qed.

(** * Properties *)

(** A provider's error is one line.  Whatever a provider answered and however
    the provider is named in the configuration, the error shown for it has no
    line break, keeps every other byte of the answer in its place, and its label
    is not empty. *)
Theorem llm_error_one_line provider status body c :
  c = lf ∨ c = cr →
  char_in c (alms_error_to_string (llm_api_error provider status body)) = false ∧
  (∃ label text, llm_api_error provider status body = LlmApiError label status text ∧
     String.length text = String.length body ∧ (char_in lf body = false → char_in cr body = false → text = body)).
Proof.
  intros Hc. split.
  - cbn [llm_api_error alms_error_to_string]. rewrite !char_in_app, provider_label_clean, single_line_clean by done.
    rewrite (pretty_no_char c) by (by destruct Hc as [-> | ->]). by destruct Hc as [-> | ->].
  - eexists _, _. split; [reflexivity|]. split; [apply single_line_length|].
    unfold single_line. induction body as [|a b IH]; [done|]. simpl. rewrite !orb_false_iff. intros [-> Hl] [-> Hr]. by rewrite IH.
Qed.

(** Nothing a provider answered and nothing a tool returned reaches a session
    or the audit log by way of an error.  Both texts of an error are those of the
    error without these parts.  What a session shows is one of seventeen labels, the
    hint with the configured name of the provider whose key was refused, or the
    part of a tool's message before its first colon. *)
Theorem error_texts_redacted err :
  sanitize_error_for_session (redact err) = sanitize_error_for_session err ∧
  audit_error_string (redact err) = audit_error_string err ∧
  (sanitize_error_for_session err ∈ session_labels ∨
   (∃ provider status body, err = LlmApiError provider status body ∧ (status = 401 ∨ status = 403)%Z ∧
      sanitize_error_for_session err = llm_auth_error_hint provider status) ∨
   (∃ msg head rest, err = ToolExecution msg ∧ msg = head +:+ rest ∧ char_in ":" head = false ∧
      (rest = "" ∨ ∃ r, rest = String ":" r) ∧ sanitize_error_for_session err = "Tool execution failed: " +:+ head)).
Proof.
  split_and!.
  - by destruct err.
  - by induction err.
  - destruct err; try (left; apply label_in; reflexivity).
    + right; right. cbn. unfold before_colon. destruct (split_once ":" msg) as [[h r]|] eqn:E.
      * apply split_once_Some in E as [-> Hh]. exists (h +:+ String ":" r), h, (String ":" r). split_and!; eauto.
      * apply split_once_None in E. exists msg, msg, "". rewrite string_app_nil_r. split_and!; eauto.
    + left. cbn. unfold runtime_label. by repeat destruct (_ || _); repeat destruct (str_contains _ _); cbn; apply label_in.
    + cbn. destruct (Z.eqb_spec status 401) as [->|]; [right; left; cbn; eauto 8|].
      destruct (Z.eqb_spec status 403) as [->|]; [right; left; cbn; eauto 8|]. cbn. left.
      by repeat destruct (_ =? _)%Z; repeat destruct (_ <=? _)%Z; cbn; apply label_in.
Qed.

(** * Witness *)

Lemma llm_error_one_line_witness :
  alms_error_to_string (llm_api_error (" my" +:+ ch lf +:+ "llm ") 400 ("{" +:+ ch cr +:+ ch lf +:+ "}")) = "LLM error (my llm 400): {  }" ∧
  char_in lf (alms_error_to_string (llm_api_error (" my" +:+ ch lf +:+ "llm ") 400 ("{" +:+ ch cr +:+ ch lf +:+ "}"))) = false.
Proof.
  split; [vm_compute; reflexivity|]. exact (proj1 (llm_error_one_line _ 400 _ lf (or_introl eq_refl))).
Defined.
