(* ===== verification/RuntimeTypes.v ===== *)
(** Data the runtime shares with the gateway and the coordinator:
    [alms-runtime/src/agent/types.rs] and [events.rs].

    An event is what a run tells whoever watches it.  The reply channel of an
    approval and the payload of a context dump are left out. *)
From S2P Require Import Prelude Ident Json Run.

Inductive Posture := FullControl | Guarded | Autonomous.

#[export] Instance posture_eq_dec : EqDecision Posture.
Proof. solve_decision. Defined.

Definition posture_to_string (p : Posture) : string :=
  match p with FullControl => "full_control" | Guarded => "guarded" | Autonomous => "autonomous" end.

Definition posture_from_str (s : string) : Result Posture string :=
  if String.eqb s "full_control" then Ok FullControl
  else if String.eqb s "guarded" then Ok Guarded
  else if String.eqb s "autonomous" then Ok Autonomous
  else Err ("Invalid posture '" +:+ s +:+ "'. Must be one of: full_control, guarded, autonomous").

Record RunOutput := {
  ro_response : string;
  ro_usage : TokenUsage;
  ro_tool_calls : list ToolCallRecord;
  ro_reasoning : option string;
}.

Definition PHASE_BUILDING_CONTEXT : string := "building_context".
Definition PHASE_CALLING_LLM : string := "calling_llm".
Definition PHASE_EXECUTING_TOOLS : string := "executing_tools".

Inductive RuntimeEvent :=
| EvToolStart (invocation_id : Uuid) (tool : string) (params : json) (source_agent task_id : option string)
| EvToolEnd (invocation_id : Uuid) (ok : bool) (result : json) (source_agent task_id : option string)
| EvTokenDelta (delta : string) (source_agent : option string)
| EvReasoningDelta (text : string) (source_agent : option string)
| EvStreamReset (source_agent : option string)
| EvStatus (phase : string) (detail : option string)
| EvApprovalRequired (approval_id : Uuid) (tool : string) (params : json) (source_agent : option string)
| EvWarning (code message : string) (source_agent : option string)
| EvSubagentStarted (tool_invocation_id : Uuid) (subagent_name : option string) (subagent_session_id : SessionId) (is_background : bool)
| EvContextDebug.

(** What a stored or configured posture reads back as. *)
Lemma posture_roundtrip p : posture_from_str (posture_to_string p) = Ok p.
Proof. by destruct p. Qed.
