(* ===== verification/LlmCall.v ===== *)
(** One call of a language model: [alms-runtime/src/agent/loop_impl.rs]
    ([stream_llm_call], [call_llm_with_cancellation]) and the stream types of
    [llm_types.rs].

    The client is not modelled: what it yields is a script, the chunks of the
    stream with the times they arrive, how the stream ends, and what a buffered
    call answers.  A fired token can end the call wherever the code waits. *)
From S2P Require Import Prelude Ident Json Run Session LlmTypes TextEdit RuntimeTypes.

(** * Types of the wire *)

Record Usage := {
  us_prompt_tokens : Z;
  us_completion_tokens : Z;
  us_total_tokens : Z;
  us_reasoning_tokens : option Z;
  (** [completion_tokens_details], and in it [reasoning_tokens]. *)
  us_completion_tokens_details : option (option Z);
  us_cache_creation_input_tokens : option Z;
  us_cache_read_input_tokens : option Z;
}.

Definition reasoning_tokens_effective (u : Usage) : option Z :=
  or_else (u' ← us_completion_tokens_details u; u') (us_reasoning_tokens u).

Record FunctionCallDelta := { fd_name : option string; fd_arguments : option string }.
Record ToolCallDelta := { td_index : nat; td_id : option string; td_function : option FunctionCallDelta }.
Record Delta := { dl_content : option string; dl_reasoning_content : option string; dl_tool_calls : option (list ToolCallDelta) }.

(** A chunk: the deltas of its choices and its usage. *)
Record StreamChunk := { ch_choices : list Delta; ch_usage : option Usage }.

(** A buffered answer: the messages of its choices and its usage. *)
Record CompletionResponse := { cr_choices : list LlmMessage; cr_usage : option Usage }.

Record StreamCallResult := {
  sc_content : option string;
  sc_reasoning : option string;
  sc_tool_calls : option (list LlmToolCall);
  sc_usage : option Usage;
}.

(** * Assembling an answer *)

(** Text that is only reasoning becomes the answer, unless tools are called. *)
Definition finalize_content_and_reasoning (content reasoning_content : string) (has_tool_calls : bool)
    : option string * option string :=
  if negb (String.eqb content "") then
    (Some content, if String.eqb reasoning_content "" then None else Some reasoning_content)
  else if String.eqb reasoning_content "" then (None, None)
  else if has_tool_calls then (None, Some reasoning_content)
  else (Some reasoning_content, Some reasoning_content).

Definition max_option (a b : option Z) : option Z :=
  match a, b with Some x, Some y => Some (Z.max x y) | _, _ => or_else a b end.

(** The usage of a stream so far with that of a chunk; sums are in 32 bits. *)
Definition merge_usage (usage chunk : option Usage) : option Usage :=
  match chunk with
  | None => usage
  | Some c =>
      match usage with
      | None => Some c
      | Some prev =>
          let p := Z.max (us_prompt_tokens prev) (us_prompt_tokens c) in
          let q := Z.max (us_completion_tokens prev) (us_completion_tokens c) in
          Some {| us_prompt_tokens := p; us_completion_tokens := q; us_total_tokens := ((p + q) `mod` 2 ^ 32)%Z;
                  us_reasoning_tokens := max_option (reasoning_tokens_effective prev) (reasoning_tokens_effective c);
                  us_completion_tokens_details := None;
                  us_cache_creation_input_tokens :=
                    max_option (us_cache_creation_input_tokens prev) (us_cache_creation_input_tokens c);
                  us_cache_read_input_tokens := max_option (us_cache_read_input_tokens prev) (us_cache_read_input_tokens c) |}
      end
  end.

(** Id, name and arguments of a call under construction. *)
Abbreviation CallAcc := (string * string * string)%type.

Definition empty_call : CallAcc := ("", "", "").

Definition grow (n : nat) (acc : list CallAcc) : list CallAcc := acc ++ replicate (n - length acc) empty_call.

Definition apply_call_delta (acc : list CallAcc) (d : ToolCallDelta) : list CallAcc :=
  let acc := grow (S (td_index d)) acc in
  alter (λ c : CallAcc,
    let '(id, name, args) := c in
    let id := default id (td_id d) in
    match td_function d with
    | Some f => (id, default name (fd_name f), args +:+ default "" (fd_arguments f))
    | None => (id, name, args)
    end) (td_index d) acc.

Definition finished_calls (acc : list CallAcc) : option (list LlmToolCall) :=
  match omap (λ c : CallAcc, let '(id, name, args) := c in
    if negb (String.eqb id "") && negb (String.eqb name "") then Some (tool_call_new id name args) else None) acc with
  | [] => None
  | calls => Some calls
  end.

(** * The stream *)

Record StreamState := mkStream {
  st_content : string;
  st_reasoning : string;
  st_calls : list CallAcc;
  st_usage : option Usage;
  st_emitted : bool;
  st_last_activity : Z;
  st_events : list RuntimeEvent;
}.

Section call.
(** [event_sender.is_some()]. *)
Context (has_sender : bool).

Definition sent (evs : list RuntimeEvent) : list RuntimeEvent := if has_sender then evs else [].

(** A delta with text: appended, a sign of activity, and shown. *)
Definition push_content (now : Z) (text : string) (s : StreamState) : StreamState :=
  mkStream (st_content s +:+ text) (st_reasoning s) (st_calls s) (st_usage s) (st_emitted s || has_sender) now
    (st_events s ++ sent [EvTokenDelta text None]).

Definition push_reasoning (now : Z) (text : string) (s : StreamState) : StreamState :=
  mkStream (st_content s) (st_reasoning s +:+ text) (st_calls s) (st_usage s) (st_emitted s || has_sender) now
    (st_events s ++ sent [EvReasoningDelta text None]).

Definition push_calls (ds : list ToolCallDelta) (s : StreamState) : StreamState :=
  mkStream (st_content s) (st_reasoning s) (foldl apply_call_delta (st_calls s) ds) (st_usage s) (st_emitted s)
    (st_last_activity s) (st_events s).

Definition push_usage (u : option Usage) (s : StreamState) : StreamState :=
  mkStream (st_content s) (st_reasoning s) (st_calls s) (merge_usage (st_usage s) u) (st_emitted s) (st_last_activity s) (st_events s).

Definition on_chunk (s : StreamState) (c : Z * StreamChunk) : StreamState :=
  let '(now, chunk) := c in
  let s := push_usage (ch_usage chunk) s in
  match ch_choices chunk with
  | [] => s
  | delta :: _ =>
      let s := match nonempty (dl_content delta) with Some text => push_content now text s | None => s end in
      let s := match nonempty (dl_reasoning_content delta) with Some text => push_reasoning now text s | None => s end in
      match dl_tool_calls delta with Some ds => push_calls ds s | None => s end
  end.

Definition stream_start (last_activity : Z) : StreamState := mkStream "" "" [] None false last_activity [].

Definition stream_result (s : StreamState) : StreamCallResult :=
  let calls := finished_calls (st_calls s) in
  let '(content, reasoning) := finalize_content_and_reasoning (st_content s) (st_reasoning s) (bool_decide (is_Some calls)) in
  {| sc_content := content; sc_reasoning := reasoning; sc_tool_calls := calls; sc_usage := st_usage s |}.

(** * The call *)

(** [s.split_once(body_prefix)]: what a provider said does not count. *)
Definition before_body_prefix (s : string) : string :=
  match split_at_str "body_prefix=" s with Some (head, _) => head | None => s end.

Definition stream_error_is_timeout (err : AlmsError) : bool :=
  match err with Runtime s => str_contains "operation timed out" (before_body_prefix s) | _ => false end.

Definition buffered_fallback_reconcile_events (emitted : bool) (content reasoning : option string) : list RuntimeEvent :=
  if negb emitted then []
  else EvStreamReset None ::
       match nonempty reasoning with Some text => [EvReasoningDelta text None] | None => [] end ++
       match nonempty content with Some text => [EvTokenDelta text None] | None => [] end.

(** How the stream ended: [stream_llm_call] returned, or the token was fired. *)
Inductive StreamEnd :=
| StreamDone
| StreamFailed (e : AlmsError)
| StreamCancelled.

Record LlmScript := {
  lm_chunks : list (Z * StreamChunk);
  lm_end : StreamEnd;
  (** The buffered call, [None] when the token was fired during it. *)
  lm_buffered : option (Result CompletionResponse AlmsError);
}.

Definition buffered_result (emitted : bool) (response : CompletionResponse)
    : list RuntimeEvent * Result StreamCallResult AlmsError :=
  match cr_choices response with
  | [] => ([], Err (Runtime "LLM returned empty choices array"))
  | message :: _ =>
      let calls := tool_calls message in
      let '(content, reasoning) :=
        finalize_content_and_reasoning (default "" (LlmTypes.content message)) (default "" (LlmTypes.reasoning_content message))
          (bool_decide (is_Some calls)) in
      (sent (buffered_fallback_reconcile_events emitted content reasoning),
       Ok {| sc_content := content; sc_reasoning := reasoning; sc_tool_calls := calls; sc_usage := cr_usage response |})
  end.

(** Events, the time of the last activity and the answer. *)
Definition call_llm_with_cancellation (script : LlmScript) (last_activity : Z)
    : list RuntimeEvent * Z * Result StreamCallResult AlmsError :=
  let s := foldl on_chunk (stream_start last_activity) (lm_chunks script) in
  let evs := sent [EvStatus PHASE_CALLING_LLM None] ++ st_events s in
  match lm_end script with
  | StreamDone => (evs, st_last_activity s, Ok (stream_result s))
  | StreamCancelled => (evs, st_last_activity s, Err CancelledError)
  | StreamFailed e =>
      if stream_error_is_timeout e then (evs, st_last_activity s, Err e)
      else
        match lm_buffered script with
        | None => (evs, st_last_activity s, Err CancelledError)
        | Some (Err e') => (evs, st_last_activity s, Err e')
        | Some (Ok response) =>
            let '(evs', r) := buffered_result (st_emitted s) response in (evs ++ evs', st_last_activity s, r)
        end
  end.
End call.

(** * What is shown and what is returned *)

(** The text and the reasoning on a screen that follows the events. *)
Definition paint_event (screen : string * string) (e : RuntimeEvent) : string * string :=
  match e with
  | EvTokenDelta delta _ => (screen.1 +:+ delta, screen.2)
  | EvReasoningDelta text _ => (screen.1, screen.2 +:+ text)
  | EvStreamReset _ => ("", "")
  | _ => screen
  end.

Definition painted (evs : list RuntimeEvent) : string * string := foldl paint_event ("", "") evs.

Lemma painted_snoc evs e : painted (evs ++ [e]) = paint_event (painted evs) e.
Proof. unfold painted. by rewrite foldl_app. Qed.

Definition stream_ok (s : StreamState) : Prop :=
  painted (st_events s) = (st_content s, st_reasoning s) ∧
  st_emitted s = negb (String.eqb (st_content s) "" && String.eqb (st_reasoning s) "").

Lemma app_nonempty a b : b ≠ "" → String.eqb (a +:+ b) "" = false.
Proof. destruct a, b; done. Qed.

Lemma on_chunk_ok s c : stream_ok s → stream_ok (on_chunk true s c).
Proof.
  destruct c as [now chunk]. intros Hs. unfold on_chunk. assert (H0 : stream_ok (push_usage (ch_usage chunk) s)) by done.
  destruct (ch_choices chunk) as [|delta rest]; [done|]. generalize dependent (push_usage (ch_usage chunk) s). clear s Hs. intros s Hs.
  assert (H1 : stream_ok (match nonempty (dl_content delta) with Some text => push_content true now text s | None => s end)).
  { destruct (nonempty (dl_content delta)) as [t|] eqn:E; [|done]. apply nonempty_Some in E as [_ Ht]. destruct Hs as [Hp He].
    unfold push_content, stream_ok. cbn. rewrite painted_snoc, Hp. split; [done|]. by rewrite app_nonempty, orb_true_r. }
  generalize dependent (match nonempty (dl_content delta) with Some text => push_content true now text s | None => s end). clear s Hs. intros s Hs.
  assert (H2 : stream_ok (match nonempty (dl_reasoning_content delta) with Some text => push_reasoning true now text s | None => s end)).
  { destruct (nonempty (dl_reasoning_content delta)) as [t|] eqn:E; [|done]. apply nonempty_Some in E as [_ Ht]. destruct Hs as [Hp He].
    unfold push_reasoning, stream_ok. cbn. rewrite painted_snoc, Hp. split; [done|]. by rewrite (app_nonempty _ t), orb_true_r, andb_false_r. }
  by destruct (dl_tool_calls delta).
Qed.

Lemma stream_run_ok last chunks : stream_ok (foldl (on_chunk true) (stream_start last) chunks).
Proof.
  assert (H : stream_ok (stream_start last)) by done. revert H. generalize (stream_start last). induction chunks as [|c chunks IH]; [done|].
  intros s Hs. apply IH. by apply on_chunk_ok.
Qed.

Lemma finalize_exact c r h : let '(content, reasoning) := finalize_content_and_reasoning c r h in
  reasoning = nonempty (Some r) ∧ content = match nonempty (Some c) with Some t => Some t | None => if h then None else nonempty (Some r) end.
Proof.
  unfold finalize_content_and_reasoning. cbn. destruct (String.eqb_spec c ""); cbn; [|by destruct (String.eqb r "")].
  destruct (String.eqb_spec r ""); [by destruct h|by destruct h].
Qed.

(** Whether the calls an answer carries keep its reasoning from becoming its text. *)
Definition calls_tools (r : StreamCallResult) : bool := bool_decide (is_Some (sc_tool_calls r)).

Lemma painted_app evs evs' : painted (evs ++ evs') = foldl paint_event (painted evs) evs'.
Proof. apply foldl_app. Qed.

Lemma finalize_idem c r h : let '(content, reasoning) := finalize_content_and_reasoning c r h in
  finalize_content_and_reasoning (default "" content) (default "" reasoning) h = (content, reasoning).
Proof.
  unfold finalize_content_and_reasoning. destruct (String.eqb_spec c ""); cbn.
  - destruct (String.eqb_spec r ""); cbn; [done|]. destruct h; cbn; destruct (String.eqb_spec r ""); done.
  - destruct (String.eqb_spec r ""); cbn; destruct (String.eqb_spec c ""); try done; cbn; by destruct (String.eqb_spec r "").
Qed.

Lemma reconcile_paints screen content reasoning :
  foldl paint_event screen (buffered_fallback_reconcile_events true content reasoning) = (default "" content, default "" reasoning).
Proof.
  unfold buffered_fallback_reconcile_events, nonempty. cbn.
  destruct reasoning as [r|]; [destruct (String.eqb_spec r "")|]; (destruct content as [c|]; [destruct (String.eqb_spec c "")|]); by subst.
Qed.

Definition ends_well (script : LlmScript) : bool :=
  match lm_end script with StreamDone => true | _ => false end.

(** What is on the screen after these chunks. *)
Definition shown_by (chunks : list (Z * StreamChunk)) (last : Z) : string * string :=
  painted (st_events (foldl (on_chunk true) (stream_start last) chunks)).

(** C39: when the screen shows what the call returns.  However the stream is cut
    into chunks, when it ends well, or breaks after something was shown and the
    buffered call answers, the text and the reasoning on a screen that follows the
    events are those of the result, where an answer that is only reasoning counts as
    text as well.  When it breaks before anything was shown, the answer of the
    buffered call is returned and the screen stays empty. *)
Theorem screen_shows_answer script last r :
  (call_llm_with_cancellation true script last).2 = Ok r →
  let screen := painted (call_llm_with_cancellation true script last).1.1 in
  if ends_well script || bool_decide (shown_by (lm_chunks script) last ≠ ("", ""))
  then (sc_content r, sc_reasoning r) = finalize_content_and_reasoning screen.1 screen.2 (calls_tools r)
  else screen = ("", "").
Proof.
  unfold call_llm_with_cancellation, ends_well, shown_by. destruct (stream_run_ok last (lm_chunks script)) as [Hp He].
  set (s := foldl (on_chunk true) (stream_start last) (lm_chunks script)) in *.
  assert (Hs : painted (sent true [EvStatus PHASE_CALLING_LLM None] ++ st_events s) = (st_content s, st_reasoning s)).
  { rewrite painted_app. exact Hp. }
  destruct (lm_end script) as [|e|]; [|destruct (stream_error_is_timeout e); [done|]; destruct (lm_buffered script) as [[response|]|]; try done|done].
  - cbn [fst snd orb]. intros [= <-]. rewrite Hs. unfold stream_result, calls_tools.
    destruct (finalize_content_and_reasoning (st_content s) (st_reasoning s) (bool_decide (is_Some (finished_calls (st_calls s))))) eqn:E.
    cbn [sc_content sc_reasoning sc_tool_calls fst snd]. by rewrite E.
  - unfold buffered_result. destruct (cr_choices response) as [|m rest]; [done|].
    pose proof (finalize_idem (default "" (LlmTypes.content m)) (default "" (reasoning_content m)) (bool_decide (is_Some (tool_calls m)))) as Hi.
    destruct (finalize_content_and_reasoning _ _ _) as [content reasoning]. cbn [fst snd]. intros [= <-]. cbn [sc_content sc_reasoning].
    rewrite painted_app, Hs, Hp. cbn [orb]. destruct (st_emitted s) eqn:Ee.
    + rewrite bool_decide_eq_true_2 by (intros [= Ec Er]; by rewrite Ec, Er in He).
      cbn [sent]. rewrite reconcile_paints. unfold calls_tools. cbn. by rewrite Hi.
    + apply eq_sym, negb_false_iff, andb_true_iff in He as [->%String.eqb_eq ->%String.eqb_eq].
      by rewrite bool_decide_eq_false_2 by auto.
Qed.

(** * Calls cut into deltas *)

Definition apply_one (c : CallAcc) (d : ToolCallDelta) : CallAcc :=
  let '(id, name, args) := c in
  let id := default id (td_id d) in
  match td_function d with
  | Some f => (id, default name (fd_name f), args +:+ default "" (fd_arguments f))
  | None => (id, name, args)
  end.

Lemma grow_lookup n acc i : (i < n)%nat → grow n acc !! i = Some (default empty_call (acc !! i)).
Proof.
  intros Hi. unfold grow. destruct (acc !! i) as [c|] eqn:E; [by apply lookup_app_l_Some|].
  apply lookup_ge_None in E. rewrite lookup_app_r by done. cbn. apply lookup_replicate. split; [done|lia].
Qed.

Lemma grow_length n acc : length (grow n acc) = length acc `max` n.
Proof. unfold grow. rewrite length_app, length_replicate. lia. Qed.

Lemma apply_delta_lookup acc d i :
  default empty_call (apply_call_delta acc d !! i) =
  if decide (td_index d = i) then apply_one (default empty_call (acc !! i)) d else default empty_call (acc !! i).
Proof.
  unfold apply_call_delta. rewrite list_lookup_alter. case_decide as E.
  - subst i. by rewrite grow_lookup by lia.
  - destruct (decide (i < S (td_index d))%nat) as [Hi|Hi]; [by rewrite grow_lookup|].
    unfold grow. destruct (acc !! i) as [c|] eqn:Ea; [by erewrite lookup_app_l_Some|]. apply lookup_ge_None in Ea.
    rewrite lookup_app_r by done. by rewrite (proj2 (lookup_ge_None _ _)) by (rewrite length_replicate; lia).
Qed.

Definition of_call (i : nat) (ds : list ToolCallDelta) : list ToolCallDelta := filter (λ d, td_index d = i) ds.

Lemma deltas_lookup ds acc i :
  default empty_call (foldl apply_call_delta acc ds !! i) = foldl apply_one (default empty_call (acc !! i)) (of_call i ds).
Proof.
  revert acc. induction ds as [|d ds IH]; intros acc; [done|]. cbn [foldl]. rewrite IH, apply_delta_lookup. unfold of_call. rewrite filter_cons.
  by case_decide.
Qed.

Lemma deltas_length ds acc : length (foldl apply_call_delta acc ds) = foldl (λ n d, n `max` S (td_index d))%nat (length acc) ds.
Proof. revert acc. induction ds as [|d ds IH]; intros acc; [done|]. cbn. rewrite IH. f_equal. unfold apply_call_delta. by rewrite length_alter, grow_length. Qed.

(** The deltas of one call: its id and name with a first piece of the arguments, the
    other pieces after. *)
Definition pieces (d : ToolCallDelta) : string := default "" (td_function d ≫= fd_arguments).
Definition cut_of (tc : LlmToolCall) (ds : list ToolCallDelta) : Prop :=
  ∃ d rest, ds = d :: rest ∧ td_id d = Some (tc_id tc) ∧ td_function d ≫= fd_name = Some (fc_name (tc_function tc)) ∧
    Forall (λ d, td_id d = None ∧ td_function d ≫= fd_name = None) rest ∧
    foldr (λ d acc, pieces d +:+ acc) "" ds = fc_arguments (tc_function tc).

Lemma apply_rest id name args rest : Forall (λ d, td_id d = None ∧ td_function d ≫= fd_name = None) rest →
  foldl apply_one (id, name, args) rest = (id, name, args +:+ foldr (λ d acc, pieces d +:+ acc) "" rest).
Proof.
  intros H. revert args. induction H as [|d rest [Hid Hn] _ IH]; intros args; cbn; [by rewrite string_app_nil_r|].
  unfold pieces at 1. rewrite Hid. cbn. destruct (td_function d) as [f|]; cbn in *.
  - rewrite Hn. cbn. rewrite IH. by rewrite string_app_assoc.
  - by rewrite IH.
Qed.

Lemma cut_applied tc ds : cut_of tc ds →
  foldl apply_one empty_call ds = (tc_id tc, fc_name (tc_function tc), fc_arguments (tc_function tc)).
Proof.
  intros (d & rest & -> & Hid & Hn & Hr & Ha). cbn in *. rewrite Hid, <- Ha. clear Ha. unfold pieces at 1.
  destruct (td_function d) as [f|]; [|done]. cbn in *. rewrite Hn. cbn. by rewrite (apply_rest _ _ _ _ Hr).
Qed.

(** Streamed calls come together.  However the deltas of several tool calls are
    interleaved and their arguments are cut, the calls of the answer are those the
    model made, in order. *)
Theorem streamed_calls_assembled calls ds :
  Forall (λ tc, tc = tool_call_new (tc_id tc) (fc_name (tc_function tc)) (fc_arguments (tc_function tc)) ∧
               tc_id tc ≠ "" ∧ fc_name (tc_function tc) ≠ "") calls →
  Forall (λ d, td_index d < length calls)%nat ds →
  (∀ i tc, calls !! i = Some tc → cut_of tc (of_call i ds)) →
  finished_calls (foldl apply_call_delta [] ds) = match calls with [] => None | _ => Some calls end.
Proof.
  intros Hcalls Hlen Hcut.
  assert (E : foldl apply_call_delta [] ds = (λ tc, (tc_id tc, fc_name (tc_function tc), fc_arguments (tc_function tc))) <$> calls).
  { apply list_eq_same_length with (length calls).
    - by rewrite length_fmap.
    - rewrite deltas_length. apply Nat.le_antisymm.
      + assert (H : ∀ n, (n ≤ length calls)%nat → (foldl (λ n d, n `max` S (td_index d)) n ds ≤ length calls)%nat).
        { clear Hcut. induction Hlen as [|d ds Hd _ IH]; [done|]. intros n Hn. cbn. apply IH. lia. }
        apply H. cbn. lia.
      + assert (Hin : ∀ d n, d ∈ ds → (S (td_index d) ≤ foldl (λ n d, n `max` S (td_index d)) n ds)%nat).
        { clear. induction ds as [|e ds IH]; [by intros d n Hd%elem_of_nil|]. intros d n [->|Hd]%elem_of_cons; [|by apply IH]. cbn.
          assert (Hm : ∀ n, (n ≤ foldl (λ n d, n `max` S (td_index d)) n ds)%nat).
          { clear. induction ds as [|e' ds IH]; [done|]. intros n. cbn. specialize (IH (n `max` S (td_index e'))). lia. }
          specialize (Hm (n `max` S (td_index e))). lia. }
        destruct (decide (length calls = 0)%nat) as [|Hne]; [lia|].
        destruct (lookup_lt_is_Some_2 calls (length calls - 1)) as [tc Htc]; [lia|].
        destruct (Hcut _ _ Htc) as (d & rest & Hd & _).
        assert (Hd' : d ∈ of_call (length calls - 1) ds) by (rewrite Hd; by left).
        apply list_elem_of_filter in Hd' as [Hi Hd']. specialize (Hin d 0 Hd'). cbn. lia.
    - intros i x y Hi Hx Hy. rewrite list_lookup_fmap in Hy. apply fmap_Some in Hy as (tc & Htc & ->).
      pose proof (deltas_lookup ds [] i) as H. rewrite Hx in H. cbn in H. rewrite H. apply cut_applied. by apply Hcut. }
  rewrite E. unfold finished_calls.
  assert (Ho : omap (λ c : CallAcc, let '(id, name, args) := c in
    if negb (String.eqb id "") && negb (String.eqb name "") then Some (tool_call_new id name args) else None)
    ((λ tc, (tc_id tc, fc_name (tc_function tc), fc_arguments (tc_function tc))) <$> calls) = calls).
  { clear E Hlen Hcut. induction Hcalls as [|tc calls (He & Hid & Hn) _ IH]; [done|]. simpl.
    apply String.eqb_neq in Hid, Hn. rewrite Hid, Hn. cbn. f_equal; [by symmetry|]. exact IH. }
  rewrite Ho. by destruct calls.
Qed.

(** * A stream that breaks *)

Definition demo_text (text : string) : StreamChunk :=
  {| ch_choices := [{| dl_content := Some text; dl_reasoning_content := None; dl_tool_calls := None |}]; ch_usage := None |}.

(** Half of the answer is shown, then the buffered call gives all of it. *)
Definition demo_broken : LlmScript := {|
  lm_chunks := [(1%Z, demo_text "Half an ")]; lm_end := StreamFailed (Runtime "connection reset");
  lm_buffered := Some (Ok {| cr_choices := [llm_assistant "Half an answer."]; cr_usage := None |}) |}.

Lemma screen_shows_answer_witness :
  let screen := painted (call_llm_with_cancellation true demo_broken 0).1.1 in
  screen = ("Half an answer.", "") ∧ ∃ r, (call_llm_with_cancellation true demo_broken 0).2 = Ok r ∧
  (sc_content r, sc_reasoning r) = finalize_content_and_reasoning screen.1 screen.2 (calls_tools r).
Proof.
  split; [vm_compute; reflexivity|]. eexists. split; [vm_compute; reflexivity|].
  apply (screen_shows_answer demo_broken 0). vm_compute. reflexivity.
Defined.

(** Two calls whose deltas alternate. *)
Definition demo_piece (i : nat) (id name arguments : option string) : ToolCallDelta :=
  {| td_index := i; td_id := id; td_function := Some {| fd_name := name; fd_arguments := arguments |} |}.

Definition demo_deltas : list ToolCallDelta :=
  [demo_piece 0 (Some "a") (Some "shell") (Some "{"); demo_piece 1 (Some "b") (Some "fs_read") None;
   demo_piece 0 None None (Some "}"); demo_piece 1 None None (Some "{}")].

Lemma streamed_calls_assembled_witness :
  finished_calls (foldl apply_call_delta [] demo_deltas) =
  Some [tool_call_new "a" "shell" "{}"; tool_call_new "b" "fs_read" "{}"].
Proof.
  refine (streamed_calls_assembled [tool_call_new "a" "shell" "{}"; tool_call_new "b" "fs_read" "{}"] demo_deltas _ _ _).
  - repeat constructor; discriminate.
  - repeat constructor.
  - intros [|[|i]] tc [= <-]; (eexists _, _; split; [reflexivity|]; split_and!; [reflexivity..| |reflexivity]; repeat constructor).
Defined.
