(* ===== verification/ToolCalls.v ===== *)
(** The tool calls of one turn: [alms-runtime/src/agent/loop_impl.rs]
    ([execute_tool_call], [run_tool_calls], [run_tool_calls_parallel]).

    A call is cut where it waits, for an approval or for its tool; a batch is a
    sequence of the pieces of its calls, of tokens fired by others, and of the turn
    the [select!] takes.  Tools and approvals are outside: what they answer is in
    the labels.  Audit entries are the list of those appended; a failed append is
    ignored by the code. *)
From S2P Require Import Prelude Ident Json Run Session LlmTypes Truncate ToolResults Errors RuntimeTypes.

Definition DM_CONFLICT_MSG : string :=
  "send_message and ignore_message are mutually exclusive — you can only use one per turn. Choose one.".

Definition USER_DENIED_MESSAGE : string :=
  "The user denied this tool call. Do not retry it or work around the denial.".
Definition user_denied_result : json := JObj [("user_denied", JBool true); ("message", JStr USER_DENIED_MESSAGE)].

Definition APPROVAL_UNAVAILABLE_MESSAGE : string :=
  "No one could be asked to approve this tool call, so it was denied automatically. Do not retry it or work around the denial.".
Definition approval_unavailable_result : json :=
  JObj [("approval_unavailable", JBool true); ("message", JStr APPROVAL_UNAVAILABLE_MESSAGE)].

(** * State *)

(** The agent as far as calls read it. *)
Record AgentSelf := {
  ag_identity : RunIdentity;
  ag_session : SessionId;
  ag_posture : Posture;
  (** [event_sender], [cancel_token] and [unroutable_approval_denied] are set. *)
  ag_has_sender : bool;
  ag_has_token : bool;
  ag_unroutable : bool;
}.

Record CallState := mkCalls {
  cs_events : list RuntimeEvent;
  cs_audits : list AuditEvent;
  cs_files : Files;
  cs_inflight : gmap Uuid string;
  (** The run's token is fired, and the one of unroutable approvals. *)
  cs_fired : bool;
  cs_denied : bool;
}.

Inductive CallStage :=
| NotStarted
| AwaitingDecision (args : json)
| Executing (args : json)
| Finished (r : Result json AlmsError).

Definition is_finished (st : CallStage) : bool := match st with Finished _ => true | _ => false end.
Definition is_waiting (st : CallStage) : bool := match st with AwaitingDecision _ | Executing _ => true | _ => false end.

Section calls.
Context `{U : UuidCrate}.
Context (json_to_string : json → string) (from_str : string → option json) (parse_error : string → string)
        (env : SpillEnv) (policy : ToolOutputTruncatePolicy) (spill_root : option Path)
        (tool_contains tool_auto_approved : string → bool) (self : AgentSelf).

Definition emit (e : RuntimeEvent) (s : CallState) : CallState :=
  if ag_has_sender self
  then mkCalls (cs_events s ++ [e]) (cs_audits s) (cs_files s) (cs_inflight s) (cs_fired s) (cs_denied s) else s.
Definition audit_call (e : AuditEvent) (s : CallState) : CallState :=
  mkCalls (cs_events s) (cs_audits s ++ [e]) (cs_files s) (cs_inflight s) (cs_fired s) (cs_denied s).
Definition put_inflight (f : gmap Uuid string) (s : CallState) : CallState :=
  mkCalls (cs_events s) (cs_audits s) (cs_files s) f (cs_fired s) (cs_denied s).
Definition put_files (fs : Files) (s : CallState) : CallState :=
  mkCalls (cs_events s) (cs_audits s) fs (cs_inflight s) (cs_fired s) (cs_denied s).
Definition fire (denied : bool) (s : CallState) : CallState :=
  mkCalls (cs_events s) (cs_audits s) (cs_files s) (cs_inflight s) (cs_fired s || ag_has_token self)
    (cs_denied s || (denied && ag_unroutable self)).

Definition unregister_inflight (inv : Uuid) (s : CallState) : CallState := put_inflight (delete inv (cs_inflight s)) s.

Definition audit_event (now : Z) (tool : string) (decision : AuditDecision) (params : json) (result : option json)
    (error : option string) : AuditEvent := {|
  audit_session_id := ag_session self; audit_run_id := ri_run_id (ag_identity self); audit_tool := tool;
  audit_decision := decision; audit_params := params; audit_result := result; audit_error := error; audit_timestamp := now |}.

Definition tool_end (inv : Uuid) (ok : bool) (result : json) : RuntimeEvent := EvToolEnd inv ok result None None.
Definition error_json (msg : string) : json := JObj [("error", JStr msg)].

(** * One call *)

Definition tool_name (tc : LlmToolCall) : string := fc_name (tc_function tc).
Definition arg_text (tc : LlmToolCall) : string := fc_arguments (tc_function tc).

Definition parse_args (tc : LlmToolCall) : option json :=
  if String.eqb (trim (arg_text tc)) "" then Some (JObj []) else from_str (arg_text tc).

Definition needs_approval_gate (tc : LlmToolCall) : bool :=
  bool_decide (ag_posture self = Guarded) && negb (tool_auto_approved (tool_name tc)).

(** Up to the first wait.  [tracked] is whether an in-flight tracker was passed. *)
Definition start_call (tracked : bool) (tc : LlmToolCall) (inv approval_id : Uuid) (now : Z) (s : CallState)
    : CallState * CallStage :=
  match parse_args tc with
  | None =>
      let err := ToolExecution ("Invalid arguments: " +:+ parse_error (arg_text tc)) in
      (audit_call (audit_event now (tool_name tc) Deny (JStr (arg_text tc)) None (Some (audit_error_string err))) s, Finished (Err err))
  | Some args =>
      if negb (tool_contains (tool_name tc)) then
        let err := ToolExecution ("Tool '" +:+ tool_name tc +:+ "' not allowed") in
        (audit_call (audit_event now (tool_name tc) Deny args None (Some (audit_error_string err))) s, Finished (Err err))
      else if needs_approval_gate tc && negb (ag_has_sender self) then
        (s, Finished (Err (Runtime "Guarded posture requires an event sender for approvals")))
      else
        let s := if tracked then put_inflight (<[inv := tool_name tc]> (cs_inflight s)) s else s in
        let s := emit (EvToolStart inv (tool_name tc) args None None) s in
        if needs_approval_gate tc
        then (emit (EvApprovalRequired approval_id (tool_name tc) args None) s, AwaitingDecision args)
        else (s, Executing args)
  end.

(** The reason of a denial and its result: nobody could be asked, or the user said
    no. *)
Definition denial (tc : LlmToolCall) : string * json :=
  if ag_unroutable self
  then ("Tool '" +:+ tool_name tc +:+ "' denied automatically: no one could be asked to approve it", approval_unavailable_result)
  else ("Tool '" +:+ tool_name tc +:+ "' denied by user", user_denied_result).

Definition deny_call (tc : LlmToolCall) (inv : Uuid) (now : Z) (args : json) (reason : string) (result : json) (s : CallState)
    : CallState :=
  let s := unregister_inflight inv s in
  let s := audit_call (audit_event now (tool_name tc) Deny args None (Some reason)) s in
  emit (tool_end inv false result) s.

(** The answer of the approval, [None] for a sender that was dropped.  A denial
    stops the run: it fires its token. *)
Definition decide_call (tc : LlmToolCall) (inv : Uuid) (now : Z) (decision : option bool) (args : json) (s : CallState)
    : CallState * CallStage :=
  let '(reason, result) := denial tc in
  match decision with
  | Some true => (s, Executing args)
  | Some false => (fire true (deny_call tc inv now args reason result s), Finished (Ok result))
  | None =>
      if ag_has_token self then (fire true (deny_call tc inv now args reason result s), Finished (Ok result))
      else
        let reason := "Tool '" +:+ tool_name tc +:+ "' approval channel closed" in
        (deny_call tc inv now args reason (error_json "approval channel closed") s, Finished (Err (ToolExecution reason)))
  end.

(** The token was fired while the approval was awaited. *)
Definition approval_cancelled (tc : LlmToolCall) (inv : Uuid) (now : Z) (args : json) (s : CallState) : CallState * CallStage :=
  let reason := "Tool '" +:+ tool_name tc +:+ "' approval cancelled by run cancellation" in
  (deny_call tc inv now args reason (error_json "run cancelled") s, Finished (Err CancelledError)).

(** The tool answered. *)
Definition finish_call (tc : LlmToolCall) (inv : Uuid) (now : Z) (result : Result json AlmsError) (args : json) (s : CallState)
    : CallState * CallStage :=
  let s := unregister_inflight inv s in
  match result with
  | Ok value =>
      let '(fs, shown) := truncate_for_emit json_to_string env policy spill_root (cs_files s) (tc_id tc) value in
      let s := audit_call (audit_event now (tool_name tc) Allow args (Some shown) None) (put_files fs s) in
      (emit (tool_end inv (tool_result_ok value) shown) s, Finished (Ok value))
  | Err e =>
      let target := match e with ToolBlocked _ target => target | _ => None end in
      let s := audit_call (audit_event now (tool_name tc) AuditError args ((λ t, JObj [("target", JStr t)]) <$> target)
                 (Some (audit_error_string e))) s in
      let shown := match target with
                   | Some t => JObj [("error", JStr (alms_error_to_string e)); ("target", JStr t)]
                   | None => error_json (alms_error_to_string e)
                   end in
      (emit (tool_end inv false shown) s, Finished (Err e))
  end.

(** * A batch *)

Record BatchCall := { bc_call : LlmToolCall; bc_inv : Uuid; bc_approval : Uuid }.

(** A piece of a call, by the index of the call; [FireToken] is anyone who cancels
    the run. *)
Inductive BatchLabel :=
| StartCall (i : nat) (now : Z)
| Decision (i : nat) (now : Z) (decision : option bool)
| DecisionCancelled (i : nat) (now : Z)
| ToolAnswered (i : nat) (now : Z) (result : Result json AlmsError)
| FireToken.

Definition is_sequential : bool := bool_decide (ag_posture self = Guarded).

(** Calls are started one after the other in the guarded posture, the token read
    before each; else whenever the executor gets to them. *)
Definition may_start (i : nat) (stages : list CallStage) (s : CallState) : bool :=
  if is_sequential then forallb is_finished (take i stages) && negb (ag_has_token self && cs_fired s) else true.

Definition batch_step (calls : list BatchCall) (l : BatchLabel) (b : CallState * list CallStage)
    : option (CallState * list CallStage) :=
  let '(s, stages) := b in
  match l with
  | StartCall i now =>
      match calls !! i, stages !! i with
      | Some c, Some NotStarted =>
          if may_start i stages s then
            let tracked := negb is_sequential || ag_has_token self in
            let '(s, st) := start_call tracked (bc_call c) (bc_inv c) (bc_approval c) now s in Some (s, <[i := st]> stages)
          else None
      | _, _ => None
      end
  | Decision i now decision =>
      match calls !! i, stages !! i with
      | Some c, Some (AwaitingDecision args) =>
          let '(s, st) := decide_call (bc_call c) (bc_inv c) now decision args s in Some (s, <[i := st]> stages)
      | _, _ => None
      end
  | DecisionCancelled i now =>
      match calls !! i, stages !! i with
      | Some c, Some (AwaitingDecision args) =>
          if ag_has_token self && cs_fired s then
            let '(s, st) := approval_cancelled (bc_call c) (bc_inv c) now args s in Some (s, <[i := st]> stages)
          else None
      | _, _ => None
      end
  | ToolAnswered i now result =>
      match calls !! i, stages !! i with
      | Some c, Some (Executing args) =>
          let '(s, st) := finish_call (bc_call c) (bc_inv c) now result args s in Some (s, <[i := st]> stages)
      | _, _ => None
      end
  | FireToken => if ag_has_token self then Some (fire false s, stages) else None
  end.

Fixpoint batch_run (calls : list BatchCall) (ls : list BatchLabel) (b : CallState * list CallStage)
    : option (CallState * list CallStage) :=
  match ls with
  | [] => Some b
  | l :: ls' => b' ← batch_step calls l b; batch_run calls ls' b'
  end.

(** A conflicting call is never started. *)
Definition initial_stages (calls : list BatchCall) (conflicting : list nat) : list CallStage :=
  imap (λ i _, if bool_decide (i ∈ conflicting) then Finished (Err (ToolExecution DM_CONFLICT_MSG)) else NotStarted) calls.

Definition stage_result (st : CallStage) : option (Result json AlmsError) := match st with Finished r => Some r | _ => None end.

Definition is_cancelled_result (r : Result json AlmsError) : bool := match r with Err CancelledError => true | _ => false end.

(** The calls whose results are kept when the batch is cancelled: in the guarded
    posture those so far, but no cancelled one; else those that have finished, but
    no conflicting one. *)
Fixpoint results_so_far (stages : list CallStage) : list (Result json AlmsError) :=
  match stages with Finished r :: rest => r :: results_so_far rest | _ => [] end.

Definition kept_results (conflicting : list nat) (stages : list CallStage) : list (nat * Result json AlmsError) :=
  if is_sequential
  then filter (λ p, is_cancelled_result p.2 = false) (imap pair (results_so_far stages))
  else omap (λ p : nat * CallStage, if bool_decide (p.1 ∈ conflicting) then None else pair p.1 <$> stage_result p.2) (imap pair stages).

Definition result_text (r : Result json AlmsError) : Result json string :=
  match r with Ok v => Ok v | Err e => Err (alms_error_to_string e) end.

(** In the order the map of calls in flight is drained. *)
Definition synthesize_cancel_tool_ends (s : CallState) : CallState :=
  foldl (λ s p, emit (tool_end p.1 false (error_json "run cancelled")) s) (put_inflight ∅ s) (map_to_list (cs_inflight s)).

Inductive BatchEnd :=
| AllAnswered (results : list (Result json AlmsError))
| BatchCancelled (kept : list (nat * Result json AlmsError)).

(** How a batch ends, [None] while it goes on or where the labels cannot happen.
    It stops for the token only where it waits: a call is left. *)
Definition run_tool_calls (calls : list BatchCall) (conflicting : list nat) (ls : list BatchLabel) (stopped : bool) (s : CallState)
    : option (CallState * BatchEnd) :=
  '(s, stages) ← batch_run calls ls (put_inflight ∅ s, initial_stages calls conflicting);
  if forallb is_finished stages then
    if stopped then None else Some (s, AllAnswered (omap stage_result stages))
  else if stopped && ag_has_token self && cs_fired s
  then Some (synthesize_cancel_tool_ends s, BatchCancelled (kept_results conflicting stages))
  else None.
End calls.
