(* ===== verification/ToolCallProps.v ===== *)
(** What a batch of tool calls guarantees: every call that is shown to start is
    shown to end, exactly once and however the batch ends; in the guarded posture
    no tool runs that nobody approved, and a denial is the last thing that
    happens. *)
From S2P Require Import Prelude Ident Json Run Session LlmTypes Truncate ToolResults Errors RuntimeTypes ToolCalls.

(** * The calls a screen shows as running *)

Definition open_step (o : option (gset Uuid)) (e : RuntimeEvent) : option (gset Uuid) :=
  S ← o;
  match e with
  | EvToolStart inv _ _ _ _ => if bool_decide (inv ∈ S) then None else Some ({[inv]} ∪ S)
  | EvToolEnd inv _ _ _ _ => if bool_decide (inv ∈ S) then Some (S ∖ {[inv]}) else None
  | _ => Some S
  end.

(** [None] where a call starts that runs or one ends that does not. *)
Definition open_tools (evs : list RuntimeEvent) : option (gset Uuid) := foldl open_step (Some ∅) evs.

Definition started (evs : list RuntimeEvent) : list Uuid :=
  omap (λ e, match e with EvToolStart inv _ _ _ _ => Some inv | _ => None end) evs.

Lemma open_tools_app evs evs' : open_tools (evs ++ evs') = foldl open_step (open_tools evs) evs'.
Proof. apply foldl_app. Qed.

Lemma started_app evs evs' : started (evs ++ evs') = started evs ++ started evs'.
Proof. apply omap_app. Qed.

(** Ending calls that run, each once. *)
Lemma open_ends (f : Uuid → RuntimeEvent) ids S :
  (∀ inv, ∃ ok v, f inv = tool_end inv ok v) → NoDup ids → (∀ inv, inv ∈ ids → inv ∈ S) →
  foldl open_step (Some S) (f <$> ids) = Some (S ∖ list_to_set ids).
Proof.
  intros Hf Hnd. revert S. induction ids as [|inv ids IH]; intros S Hin.
  - simpl. f_equal. set_solver.
  - apply NoDup_cons in Hnd as [Hni Hnd]. destruct (Hf inv) as (ok & v & E). simpl. rewrite E. cbn.
    rewrite bool_decide_true by (apply Hin; by left). rewrite (IH Hnd); [f_equal; set_solver|].
    intros x Hx. apply elem_of_difference. split; [apply Hin; by right|]. set_unfold. by intros ->.
Qed.

(** * The pieces of a batch *)

Section pieces.
Context `{U : UuidCrate}.
Context (json_to_string : json → string) (from_str : string → option json) (parse_error : string → string)
        (env : SpillEnv) (policy : ToolOutputTruncatePolicy) (spill_root : option Path)
        (tool_contains tool_auto_approved : string → bool) (self : AgentSelf) (calls : list BatchCall).

Abbreviation step := (batch_step json_to_string from_str parse_error env policy spill_root tool_contains tool_auto_approved self calls).
Abbreviation steps := (batch_run json_to_string from_str parse_error env policy spill_root tool_contains tool_auto_approved self calls).

Definition tracked : bool := negb (is_sequential self) || ag_has_token self.

(** What one label does to the call it moves. *)
Inductive piece (i : nat) (c : BatchCall) (s : CallState) (stages : list CallStage) : BatchLabel → CallStage → CallState → CallStage → Prop :=
| piece_start now s' st' :
    may_start self i stages s = true →
    start_call from_str parse_error tool_contains tool_auto_approved self tracked (bc_call c) (bc_inv c) (bc_approval c) now s = (s', st') →
    piece i c s stages (StartCall i now) NotStarted s' st'
| piece_decide now d args s' st' :
    decide_call self (bc_call c) (bc_inv c) now d args s = (s', st') →
    piece i c s stages (Decision i now d) (AwaitingDecision args) s' st'
| piece_cancelled now args s' st' :
    ag_has_token self && cs_fired s = true →
    approval_cancelled self (bc_call c) (bc_inv c) now args s = (s', st') →
    piece i c s stages (DecisionCancelled i now) (AwaitingDecision args) s' st'
| piece_finish now r args s' st' :
    finish_call json_to_string env policy spill_root self (bc_call c) (bc_inv c) now r args s = (s', st') →
    piece i c s stages (ToolAnswered i now r) (Executing args) s' st'.

Lemma step_cases l s stages s' stages' :
  step l (s, stages) = Some (s', stages') →
  (l = FireToken ∧ ag_has_token self = true ∧ s' = fire self false s ∧ stages' = stages) ∨
  ∃ i c st st', calls !! i = Some c ∧ stages !! i = Some st ∧ stages' = <[i := st']> stages ∧ piece i c s stages l st s' st'.
Proof.
  unfold batch_step.
  destruct l as [i now|i now d|i now|i now r|]; [| | | |destruct (ag_has_token self); [intros [= <- <-]; by left|done]];
    (destruct (calls !! i) as [c|] eqn:Hc; [|done]); (destruct (stages !! i) as [st|] eqn:Hs; [|done]); (destruct st as [|args|args|res]; try done);
    intros H; right; exists i, c.
  - destruct (may_start self i stages s) eqn:Hm; [|done]. destruct (start_call _ _ _ _ _ _ _ _ _ _ _) as [s1 st1] eqn:E. injection H as <- <-.
    eexists _, _. split_and!; [done..|]. by constructor.
  - destruct (decide_call _ _ _ _ _ _ _) as [s1 st1] eqn:E. injection H as <- <-. eexists _, _. split_and!; [done..|]. by constructor.
  - destruct (ag_has_token self && cs_fired s) eqn:Hf; [|done]. destruct (approval_cancelled _ _ _ _ _ _) as [s1 st1] eqn:E. injection H as <- <-.
    eexists _, _. split_and!; [done..|]. by constructor.
  - destruct (finish_call _ _ _ _ _ _ _ _ _ _ _) as [s1 st1] eqn:E. injection H as <- <-. eexists _, _. split_and!; [done..|]. by constructor.
Qed.

Lemma finish_call_finished tc inv now r args s : ∃ r', (finish_call json_to_string env policy spill_root self tc inv now r args s).2 = Finished r'.
Proof. unfold finish_call. destruct r; [destruct (truncate_for_emit _ _ _ _ _ _ _)|]; by eexists. Qed.

(** Where a piece leaves its call. *)
Lemma piece_end i c s stages l st s' st' :
  piece i c s stages l st s' st' → is_finished st = false ∧
    (is_waiting st' = true →
      (st = NotStarted ∧ may_start self i stages s = true ∧ (∀ args, st' = Executing args → needs_approval_gate tool_auto_approved self (bc_call c) = false)) ∨
      (is_waiting st = true ∧ ∃ now, l = Decision i now (Some true))).
Proof.
  intros H. destruct H as [now s' st' Hm E|now d args s' st' E|now args s' st' Hf E|now r args s' st' E]; (split; [done|]); intros Hw.
  - left. split_and!; [done|done|]. intros args ->. unfold start_call in E. destruct (parse_args _ _); [|done]. destruct (tool_contains _); [|done]. cbn in E.
    destruct (needs_approval_gate _ _ _); [|done]. destruct (ag_has_sender self); done.
  - unfold decide_call in E. destruct (denial self (bc_call c)).
    destruct d as [[|]|]; [right; split; [done|]; by exists now|by injection E as _ <-|destruct (ag_has_token self); by injection E as _ <-].
  - by injection E as _ <-.
  - destruct (finish_call_finished (bc_call c) (bc_inv c) now r args s) as [r' E']. rewrite E in E'. cbn in E'. by rewrite E' in Hw.
Qed.

Lemma steps_app ls ls' b : steps (ls ++ ls') b = (b' ← steps ls b; steps ls' b').
Proof. revert b. induction ls as [|l ls IH]; intros b; [done|]. cbn. destruct (step l b); [apply IH|done]. Qed.
End pieces.

Section batch.
Context `{U : UuidCrate}.
Context (json_to_string : json → string) (from_str : string → option json) (parse_error : string → string)
        (env : SpillEnv) (policy : ToolOutputTruncatePolicy) (spill_root : option Path)
        (tool_contains tool_auto_approved : string → bool) (self : AgentSelf) (calls : list BatchCall).

Abbreviation step := (batch_step json_to_string from_str parse_error env policy spill_root tool_contains tool_auto_approved self calls).
Abbreviation steps := (batch_run json_to_string from_str parse_error env policy spill_root tool_contains tool_auto_approved self calls).
Abbreviation run_batch := (run_tool_calls json_to_string from_str parse_error env policy spill_root tool_contains tool_auto_approved self calls).

Abbreviation tracked := (tracked self).

(** * The shape of a step *)

Inductive moved (c : BatchCall) (f : gmap Uuid string) : CallStage → CallStage → list RuntimeEvent → gmap Uuid string → Prop :=
| moved_refused r : moved c f NotStarted (Finished r) [] f
| moved_started st tool args rest :
    is_waiting st = true → (∀ args', st = Executing args' → needs_approval_gate tool_auto_approved self (bc_call c) = false) →
    (∀ o, foldl open_step o rest = o) → started rest = [] →
    moved c f NotStarted st (EvToolStart (bc_inv c) tool args None None :: rest)
      (if tracked then <[bc_inv c := tool]> f else f)
| moved_approved args : moved c f (AwaitingDecision args) (Executing args) [] f
| moved_ended st r ok v : is_waiting st = true → moved c f st (Finished r) [tool_end (bc_inv c) ok v] (delete (bc_inv c) f).

Context (Hsender : ag_has_sender self = true).

Lemma emit_events e s : cs_events (emit self e s) = cs_events s ++ [e].
Proof. unfold emit. by rewrite Hsender. Qed.

Lemma emit_inflight e s : cs_inflight (emit self e s) = cs_inflight s.
Proof. unfold emit. by destruct (ag_has_sender self). Qed.

Lemma start_call_moved tc inv appr now s s' st :
  start_call from_str parse_error tool_contains tool_auto_approved self tracked tc inv appr now s = (s', st) →
  ∃ evs, cs_events s' = cs_events s ++ evs ∧
    moved {| bc_call := tc; bc_inv := inv; bc_approval := appr |} (cs_inflight s) NotStarted st evs (cs_inflight s').
Proof.
  unfold start_call. rewrite Hsender, andb_false_r. intros H.
  destruct (parse_args from_str tc) as [args|].
  2:{ injection H as <- <-. exists []. rewrite app_nil_r. split; [done|constructor]. }
  destruct (tool_contains (tool_name tc)); cbn [negb] in H.
  2:{ injection H as <- <-. exists []. rewrite app_nil_r. split; [done|constructor]. }
  set (s1 := if tracked then _ else s) in H.
  assert (He : cs_events s1 = cs_events s) by (unfold s1; by destruct tracked).
  assert (Hf : cs_inflight s1 = if tracked then <[inv:=tool_name tc]> (cs_inflight s) else cs_inflight s) by (unfold s1; by destruct tracked).
  destruct (needs_approval_gate tool_auto_approved self tc) eqn:Hg; injection H as <- <-; eexists;
    rewrite !emit_events, !emit_inflight, He, Hf, <- ?app_assoc; (split; [reflexivity|]);
    econstructor; cbn; try done; by intros [?|].
Qed.

Lemma deny_call_ended tc inv now args reason result s :
  let s' := deny_call self tc inv now args reason result s in
  cs_events s' = cs_events s ++ [tool_end inv false result] ∧ cs_inflight s' = delete inv (cs_inflight s).
Proof. unfold deny_call. by rewrite emit_events, emit_inflight. Qed.

Lemma decide_call_moved c now d args s s' st :
  decide_call self (bc_call c) (bc_inv c) now d args s = (s', st) →
  ∃ evs, cs_events s' = cs_events s ++ evs ∧ moved c (cs_inflight s) (AwaitingDecision args) st evs (cs_inflight s').
Proof.
  unfold decide_call. destruct (denial self (bc_call c)) as [reason result]. intros H.
  assert (Hdeny : ∀ reason result r, ∃ evs,
    cs_events (deny_call self (bc_call c) (bc_inv c) now args reason result s) = cs_events s ++ evs ∧
    moved c (cs_inflight s) (AwaitingDecision args) (Finished r) evs
      (cs_inflight (deny_call self (bc_call c) (bc_inv c) now args reason result s))).
  { intros reason' result' r. destruct (deny_call_ended (bc_call c) (bc_inv c) now args reason' result' s) as [He Hf].
    rewrite He, Hf. eexists. split; [done|]. by constructor. }
  destruct d as [[|]|]; [|injection H as <- <-; apply Hdeny|destruct (ag_has_token self); injection H as <- <-; apply Hdeny].
  injection H as <- <-. exists []. rewrite app_nil_r. split; [done|constructor].
Qed.

Lemma approval_cancelled_moved c now args s s' st :
  approval_cancelled self (bc_call c) (bc_inv c) now args s = (s', st) →
  ∃ evs, cs_events s' = cs_events s ++ evs ∧ moved c (cs_inflight s) (AwaitingDecision args) st evs (cs_inflight s').
Proof.
  unfold approval_cancelled. intros [= <- <-].
  rewrite (proj1 (deny_call_ended _ _ _ _ _ _ _)), (proj2 (deny_call_ended _ _ _ _ _ _ _)).
  eexists. split; [done|]. by constructor.
Qed.

Lemma finish_call_moved c now r args s s' st :
  finish_call json_to_string env policy spill_root self (bc_call c) (bc_inv c) now r args s = (s', st) →
  ∃ evs, cs_events s' = cs_events s ++ evs ∧ moved c (cs_inflight s) (Executing args) st evs (cs_inflight s').
Proof.
  unfold finish_call. intros H. destruct r as [v|e].
  - destruct (truncate_for_emit _ _ _ _ _ _ _) as [fs shown]. injection H as <- <-. rewrite emit_events, emit_inflight.
    eexists. split; [done|]. by constructor.
  - injection H as <- <-. rewrite emit_events, emit_inflight. eexists. split; [done|]. by constructor.
Qed.

(** A step fires the token or moves one call. *)
Lemma step_shape l s stages s' stages' :
  step l (s, stages) = Some (s', stages') →
  (l = FireToken ∧ ag_has_token self = true ∧ s' = fire self false s ∧ stages' = stages) ∨
  ∃ i c st st' evs, calls !! i = Some c ∧ stages !! i = Some st ∧ stages' = <[i := st']> stages ∧
    cs_events s' = cs_events s ++ evs ∧ moved c (cs_inflight s) st st' evs (cs_inflight s').
Proof.
  intros H. apply step_cases in H as [?|(i & c & st & st' & Hc & Hs & -> & Hp)]; [by left|right].
  assert (Hm : ∃ evs, cs_events s' = cs_events s ++ evs ∧ moved c (cs_inflight s) st st' evs (cs_inflight s')).
  { destruct Hp as [now s' st' _ E|now d args s' st' E|now args s' st' _ E|now r args s' st' E].
    - destruct c. by apply start_call_moved in E.
    - by apply decide_call_moved in E.
    - by apply approval_cancelled_moved in E.
    - by apply finish_call_moved in E. }
  destruct Hm as (evs & He & Hm). by exists i, c, st, st', evs.
Qed.

(** * The invariant of a batch *)

Definition waiting_id (stages : list CallStage) (x : Uuid) : Prop :=
  ∃ i c st, calls !! i = Some c ∧ stages !! i = Some st ∧ is_waiting st = true ∧ bc_inv c = x.

Definition begun_id (stages : list CallStage) (x : Uuid) : Prop :=
  ∃ i c st, calls !! i = Some c ∧ stages !! i = Some st ∧ st ≠ NotStarted ∧ bc_inv c = x.

Record batch_ok (seen : list RuntimeEvent) (b : CallState * list CallStage) : Prop := {
  bo_length : length b.2 = length calls;
  bo_open : ∃ evs S, cs_events b.1 = seen ++ evs ∧ open_tools evs = Some S ∧ (∀ x, x ∈ S ↔ waiting_id b.2 x) ∧
    NoDup (started evs) ∧ (∀ x, x ∈ started evs → begun_id b.2 x);
  bo_inflight : ∀ x, is_Some (cs_inflight b.1 !! x) ↔ tracked = true ∧ waiting_id b.2 x;
}.

Context (Hids : NoDup (bc_inv <$> calls)).

Lemma same_call i j c d : calls !! i = Some c → calls !! j = Some d → bc_inv c = bc_inv d → i = j.
Proof.
  intros Hi Hj E. eapply (NoDup_lookup _ i j (bc_inv c) Hids); rewrite list_lookup_fmap; [by rewrite Hi|by rewrite Hj, E].
Qed.

Lemma waiting_insert stages i c st st' x :
  calls !! i = Some c → stages !! i = Some st →
  waiting_id (<[i := st']> stages) x ↔ (x = bc_inv c ∧ is_waiting st' = true) ∨ (x ≠ bc_inv c ∧ waiting_id stages x).
Proof.
  intros Hc Hs. assert (Hlt : i < length stages) by (by eapply lookup_lt_Some). split.
  - intros (j & d & sd & Hd & Hsd & Hw & <-). destruct (decide (i = j)) as [<-|Hne].
    + rewrite list_lookup_insert_eq in Hsd by done. left. by simplify_eq.
    + rewrite list_lookup_insert_ne in Hsd by done. right. split; [|by exists j, d, sd].
      intros E. by apply Hne, (same_call i j c d).
  - intros [[-> Hw]|[Hx (j & d & sd & Hd & Hsd & Hw & <-)]].
    + exists i, c, st'. by rewrite list_lookup_insert_eq.
    + exists j, d, sd. rewrite list_lookup_insert_ne; [done|]. intros ->. by simplify_eq.
Qed.

Lemma begun_insert stages i c st st' x :
  calls !! i = Some c → stages !! i = Some st → st' ≠ NotStarted →
  begun_id stages x → begun_id (<[i := st']> stages) x.
Proof.
  intros Hc Hs Hst (j & d & sd & Hd & Hsd & Hw & <-). destruct (decide (i = j)) as [<-|Hne].
  - exists i, d, st'. by rewrite list_lookup_insert_eq by (by eapply lookup_lt_Some).
  - exists j, d, sd. by rewrite list_lookup_insert_ne.
Qed.

Lemma waiting_at stages i c st : calls !! i = Some c → stages !! i = Some st → waiting_id stages (bc_inv c) ↔ is_waiting st = true.
Proof.
  intros Hc Hs. split; [|intros; by exists i, c, st]. intros (j & d & sd & Hd & Hsd & Hw & E).
  assert (j = i) as -> by (by eapply same_call). by simplify_eq.
Qed.

Lemma begun_at stages i c : calls !! i = Some c → stages !! i = Some NotStarted → ¬ begun_id stages (bc_inv c).
Proof. intros Hc Hs (j & d & sd & Hd & Hsd & Hw & E). assert (j = i) as -> by (by eapply same_call). by simplify_eq. Qed.

(** Moving a call without a waiting stage before or after, or between two. *)
Lemma move_silent seen s stages s' i c st st' :
  batch_ok seen (s, stages) → calls !! i = Some c → stages !! i = Some st → is_waiting st = is_waiting st' → st' ≠ NotStarted →
  cs_events s' = cs_events s → cs_inflight s' = cs_inflight s → batch_ok seen (s', <[i := st']> stages).
Proof.
  intros [Hl (evs & S & He & Ho & HS & Hnd & Hb) Hf] Hc Hs Hw Hst E F. cbn [fst snd] in *.
  assert (Hsame : ∀ x, waiting_id (<[i := st']> stages) x ↔ waiting_id stages x).
  { intros x. rewrite (waiting_insert stages i c st st' x Hc Hs). destruct (decide (x = bc_inv c)) as [->|Hne]; [|naive_solver].
    rewrite (waiting_at stages i c st Hc Hs), Hw. naive_solver. }
  split; cbn [fst snd].
  - by rewrite length_insert.
  - exists evs, S. rewrite E. split_and!; [done|done|intros x; by rewrite HS, Hsame|done|].
    intros x Hx. by eapply begun_insert; eauto.
  - intros x. by rewrite F, Hf, Hsame.
Qed.

Lemma move_started seen s stages s' i c st' tool args rest :
  batch_ok seen (s, stages) → calls !! i = Some c → stages !! i = Some NotStarted → is_waiting st' = true →
  (∀ o, foldl open_step o rest = o) → started rest = [] →
  cs_events s' = cs_events s ++ EvToolStart (bc_inv c) tool args None None :: rest →
  cs_inflight s' = (if tracked then <[bc_inv c := tool]> (cs_inflight s) else cs_inflight s) →
  batch_ok seen (s', <[i := st']> stages).
Proof.
  intros [Hl (evs & S & He & Ho & HS & Hnd & Hb) Hf] Hc Hs Hw Hr1 Hr2 E F. cbn [fst snd] in *.
  assert (Hnew : bc_inv c ∉ S) by (rewrite HS, (waiting_at stages i c NotStarted Hc Hs); done).
  assert (Hnb : bc_inv c ∉ started evs) by (intros Hx; by eapply begun_at; eauto).
  assert (Hst : st' ≠ NotStarted) by (by intros ->).
  split; cbn [fst snd].
  - by rewrite length_insert.
  - exists (evs ++ EvToolStart (bc_inv c) tool args None None :: rest), ({[bc_inv c]} ∪ S). split_and!.
    + by rewrite E, He, <- app_assoc.
    + rewrite open_tools_app, Ho. cbn. rewrite bool_decide_false by done. apply Hr1.
    + intros x. rewrite (waiting_insert stages i c NotStarted st' x Hc Hs), elem_of_union, elem_of_singleton, HS.
      destruct (decide (x = bc_inv c)); naive_solver.
    + rewrite started_app. simpl. rewrite Hr2. apply NoDup_app. split_and!; [done| |apply NoDup_singleton]. set_solver.
    + intros x. rewrite started_app. simpl. rewrite Hr2, elem_of_app, list_elem_of_singleton. intros [Hx| ->].
      * eapply begun_insert; eauto.
      * exists i, c, st'. by rewrite list_lookup_insert_eq by (by eapply lookup_lt_Some).
  - intros x. rewrite F, (waiting_insert stages i c NotStarted st' x Hc Hs). specialize (Hf x).
    destruct tracked; [|naive_solver]. destruct (decide (x = bc_inv c)) as [->|Hne].
    + rewrite lookup_insert_eq. naive_solver.
    + rewrite lookup_insert_ne by done. naive_solver.
Qed.

Lemma move_ended seen s stages s' i c st r ok v :
  batch_ok seen (s, stages) → calls !! i = Some c → stages !! i = Some st → is_waiting st = true →
  cs_events s' = cs_events s ++ [tool_end (bc_inv c) ok v] → cs_inflight s' = delete (bc_inv c) (cs_inflight s) →
  batch_ok seen (s', <[i := Finished r]> stages).
Proof.
  intros [Hl (evs & S & He & Ho & HS & Hnd & Hb) Hf] Hc Hs Hw E F. cbn [fst snd] in *.
  assert (Hin : bc_inv c ∈ S) by (by rewrite HS, (waiting_at stages i c st Hc Hs)).
  assert (Hwi := λ x, waiting_insert stages i c st (Finished r) x Hc Hs).
  split; cbn [fst snd].
  - by rewrite length_insert.
  - exists (evs ++ [tool_end (bc_inv c) ok v]), (S ∖ {[bc_inv c]}). split_and!.
    + by rewrite E, He, <- app_assoc.
    + rewrite open_tools_app, Ho. cbn. by rewrite bool_decide_true.
    + intros x. rewrite Hwi, elem_of_difference, elem_of_singleton, HS. cbn. naive_solver.
    + rewrite started_app. simpl. by rewrite app_nil_r.
    + intros x. rewrite started_app. simpl. rewrite app_nil_r. intros Hx. by eapply begun_insert; eauto.
  - intros x. rewrite F, Hwi. cbn. rewrite lookup_delete_is_Some, Hf. naive_solver.
Qed.

Lemma step_ok seen l b b' : batch_ok seen b → step l b = Some b' → batch_ok seen b'.
Proof.
  destruct b as [s stages], b' as [s' stages']. intros Hok H.
  apply step_shape in H as [(_ & _ & -> & ->)|(i & c & st & st' & evs & Hc & Hs & -> & He & Hm)].
  - by destruct Hok.
  - inversion Hm as [r E1 E2 E3 E4|st0 tool args rest Hw Hg Hr1 Hr2 E1 E2 E3 E4|args E1 E2 E3 E4|st0 r ok v Hw E1 E2 E3 E4]; subst.
    + rewrite app_nil_r in He. by eapply (move_silent seen s stages s' i c NotStarted (Finished r)).
    + by eapply (move_started seen s stages s' i c st' tool args rest).
    + rewrite app_nil_r in He. by eapply (move_silent seen s stages s' i c (AwaitingDecision args) (Executing args)).
    + by eapply (move_ended seen s stages s' i c st r ok v).
Qed.

Lemma steps_ok seen ls b b' : batch_ok seen b → steps ls b = Some b' → batch_ok seen b'.
Proof.
  revert b. induction ls as [|l ls IH]; intros b Hok H; [by simplify_eq/=|].
  cbn in H. apply bind_Some in H as (b1 & H1 & H2). eapply IH; [|done]. by eapply step_ok.
Qed.

Lemma initial_not_waiting conflicting i st :
  initial_stages calls conflicting !! i = Some st → is_waiting st = false ∧ ∀ args, st ≠ Executing args.
Proof.
  unfold initial_stages. rewrite list_lookup_imap. intros H. apply fmap_Some in H as (c & _ & ->). by case_bool_decide.
Qed.

Lemma initial_ok conflicting s : batch_ok (cs_events s) (put_inflight ∅ s, initial_stages calls conflicting).
Proof.
  assert (Hno : ∀ x, ¬ waiting_id (initial_stages calls conflicting) x).
  { intros x (i & c & st & _ & Hst & Hw & _). apply initial_not_waiting in Hst as [Hst _]. congruence. }
  split; cbn [fst snd].
  - unfold initial_stages. apply length_imap.
  - exists [], ∅. rewrite app_nil_r. split_and!; [done|done| |by constructor|by intros x ?%not_elem_of_nil].
    intros x. split; [set_solver|]. intros H. by apply Hno in H.
  - intros x. cbn. rewrite lookup_empty. split; [by intros [? [=]]|]. intros [_ H]. by apply Hno in H.
Qed.

Lemma none_waiting stages x : forallb is_finished stages = true → ¬ waiting_id stages x.
Proof.
  intros Hall (i & c & st & _ & Hst & Hw & _). apply list_elem_of_lookup_2, list_elem_of_In in Hst.
  eapply forallb_forall in Hall; [|done]. by destruct st.
Qed.

Lemma synthesized s :
  cs_events (synthesize_cancel_tool_ends self s) =
  cs_events s ++ ((λ inv, tool_end inv false (error_json "run cancelled")) <$> (map_to_list (cs_inflight s)).*1).
Proof.
  unfold synthesize_cancel_tool_ends. generalize (map_to_list (cs_inflight s)). intros l.
  change (cs_events s) with (cs_events (put_inflight ∅ s)). generalize (put_inflight ∅ s). clear s.
  induction l as [|p l IH]; intros s; simpl; [by rewrite app_nil_r|]. by rewrite IH, emit_events, <- app_assoc.
Qed.

(** C7: what starts on a screen ends there.  However the calls of a batch
    interleave, are approved, denied, cancelled or dropped in flight, the events of the
    batch show every call that started as ended, exactly once and after its start,
    and no call ends or starts twice. *)
Theorem batch_ends_what_it_starts conflicting ls stopped s s' e :
  run_batch conflicting ls stopped s = Some (s', e) →
  ∃ evs, cs_events s' = cs_events s ++ evs ∧ open_tools evs = Some ∅ ∧ NoDup (started evs).
Proof.
  unfold run_tool_calls. intros H. apply bind_Some in H as ([s1 stages] & Hrun & H).
  pose proof (steps_ok _ _ _ _ (initial_ok conflicting s) Hrun) as [_ (evs & S & He & Ho & HS & Hnd & _) Hf]. cbn [fst snd] in *.
  destruct (forallb is_finished stages) eqn:Hall.
  - destruct stopped; [done|]. injection H as <- _. exists evs. split_and!; [done| |done]. rewrite Ho. f_equal.
    apply set_eq. intros x. rewrite HS. split; [by intros []%none_waiting|set_solver].
  - destruct (stopped && ag_has_token self && cs_fired s1) eqn:Hstop; [|done]. injection H as <- _.
    apply andb_true_iff in Hstop as [[_ Htok]%andb_true_iff _].
    assert (Htr : tracked = true) by (unfold tracked; by rewrite Htok, orb_true_r).
    assert (Hdom : ∀ x, x ∈ (map_to_list (cs_inflight s1)).*1 ↔ x ∈ S).
    { intros x. rewrite HS. transitivity (is_Some (cs_inflight s1 !! x)); [|rewrite Hf; naive_solver].
      rewrite list_elem_of_fmap. split.
      - intros ([y v] & -> & Hv%elem_of_map_to_list). by exists v.
      - intros [v Hv%elem_of_map_to_list]. by exists (x, v). }
    eexists. rewrite synthesized, He, <- app_assoc. split; [done|]. split.
    + rewrite open_tools_app, Ho, open_ends; [|by eexists _, _|apply NoDup_fst_map_to_list|intros inv; apply Hdom].
      f_equal. apply set_eq. intros x. rewrite elem_of_difference, elem_of_list_to_set, Hdom. set_solver.
    + rewrite started_app. assert (Hnil : started ((λ inv, tool_end inv false (error_json "run cancelled")) <$> (map_to_list (cs_inflight s1)).*1) = []); [|by rewrite Hnil, app_nil_r].
      clear. by induction ((map_to_list (cs_inflight s1)).*1) as [|inv l IH].
Qed.
End batch.

(** * The guarded posture *)

Section guarded.
Context `{U : UuidCrate}.
Context (json_to_string : json → string) (from_str : string → option json) (parse_error : string → string)
        (env : SpillEnv) (policy : ToolOutputTruncatePolicy) (spill_root : option Path)
        (tool_contains tool_auto_approved : string → bool) (self : AgentSelf) (calls : list BatchCall).

Abbreviation step := (batch_step json_to_string from_str parse_error env policy spill_root tool_contains tool_auto_approved self calls).
Abbreviation steps := (batch_run json_to_string from_str parse_error env policy spill_root tool_contains tool_auto_approved self calls).

(** Which label leaves a call waiting, and where it was. *)
Lemma step_moves l s stages s' stages' i st' :
  step l (s, stages) = Some (s', stages') → stages' !! i = Some st' → is_waiting st' = true →
  stages !! i = Some st' ∨
  (∃ c, calls !! i = Some c ∧ may_start self i stages s = true ∧
     (∀ args, st' = Executing args → needs_approval_gate tool_auto_approved self (bc_call c) = false)) ∨
  (∃ st now, stages !! i = Some st ∧ is_waiting st = true ∧ l = Decision i now (Some true)).
Proof.
  intros H Hi Hw. apply step_cases in H as [(_ & _ & _ & ->)|(j & c & st & st1 & Hc & Hs & -> & Hp)]; [by left|].
  destruct (decide (i = j)) as [->|Hne]; [right|left; by rewrite list_lookup_insert_ne in Hi].
  rewrite list_lookup_insert_eq in Hi by (by eapply lookup_lt_Some). injection Hi as ->.
  destruct (piece_end _ _ _ _ _ _ _ _ _ _ _ _ _ _ _ _ _ Hp) as [_ [(-> & Hm & Hg)|(Hw' & now & ->)]]; [done|left; by exists c|right; by exists st, now].
Qed.

Definition approved (i : nat) (ls : list BatchLabel) : Prop := ∃ now, Decision i now (Some true) ∈ ls.

(** Every call in front of one that waits has ended. *)
Definition in_turn (stages : list CallStage) : Prop :=
  ∀ i j st st', i < j → stages !! i = Some st → stages !! j = Some st' → is_waiting st' = true → is_finished st = true.

Context (Hguarded : ag_posture self = Guarded).

Lemma finished_before i stages j st s :
  may_start self j stages s = true → i < j → stages !! i = Some st → is_finished st = true.
Proof.
  unfold may_start, is_sequential. rewrite bool_decide_true by done. intros [Hall _]%andb_true_iff Hlt Hi.
  eapply forallb_forall; [exact Hall|]. apply list_elem_of_In, list_elem_of_lookup. exists i. by rewrite lookup_take_lt.
Qed.

Lemma step_finished l s stages s' stages' i r : step l (s, stages) = Some (s', stages') → stages !! i = Some (Finished r) → stages' !! i = Some (Finished r).
Proof.
  intros H Hi. apply step_cases in H as [(_ & _ & _ & ->)|(j & c & st & st1 & Hc & Hs & -> & Hp)]; [done|].
  destruct (decide (i = j)) as [->|Hne]; [|by rewrite list_lookup_insert_ne]. simplify_eq.
  apply piece_end in Hp as [[=] _].
Qed.

Lemma step_length l s stages s' stages' : step l (s, stages) = Some (s', stages') → length stages' = length stages.
Proof. intros H. apply step_cases in H as [(_ & _ & _ & ->)|(j & c & st & st1 & Hc & Hs & -> & Hp)]; [done|apply length_insert]. Qed.

Lemma steps_length ls b b' : steps ls b = Some b' → length b'.2 = length b.2.
Proof.
  revert b. induction ls as [|l ls IH]; intros b H; [by injection H as <-|]. cbn in H. apply bind_Some in H as ([s1 st1] & H1 & H2).
  rewrite (IH _ H2). destruct b. eapply step_length. exact H1.
Qed.

Lemma is_finished_Finished st : is_finished st = true → ∃ r, st = Finished r.
Proof. destruct st; try done. by eexists. Qed.

Lemma step_in_turn l s stages s' stages' : step l (s, stages) = Some (s', stages') → in_turn stages → in_turn stages'.
Proof.
  intros H Hin i j st st' Hlt Hi Hj Hw.
  assert (Hold : ∃ st0, stages !! i = Some st0).
  { apply lookup_lt_is_Some. rewrite <- (step_length _ _ _ _ _ H). by eapply lookup_lt_Some. }
  destruct Hold as [st0 Hst0]. assert (Hf : is_finished st0 = true).
  { destruct (step_moves _ _ _ _ _ _ _ H Hj Hw) as [Hs|[(c & _ & Hm & _)|(st1 & now & Hs & Hw1 & _)]].
    - by eapply Hin.
    - by eapply finished_before.
    - by eapply Hin. }
  apply is_finished_Finished in Hf as [r ->]. eapply step_finished in Hst0; [|exact H]. by simplify_eq.
Qed.

Lemma step_approved l s stages s' stages' i args c :
  step l (s, stages) = Some (s', stages') → stages' !! i = Some (Executing args) → calls !! i = Some c →
  tool_auto_approved (tool_name (bc_call c)) = false →
  (∃ args', stages !! i = Some (Executing args')) ∨ ∃ now, l = Decision i now (Some true).
Proof.
  intros H Hi Hc Ha. destruct (step_moves _ _ _ _ _ _ _ H Hi eq_refl) as [Hs|[(d & Hd & _ & Hg)|(st1 & now & _ & _ & ->)]].
  - left. by eexists.
  - simplify_eq. specialize (Hg args eq_refl). unfold needs_approval_gate in Hg. by rewrite bool_decide_true, Ha in Hg.
  - right. by eexists.
Qed.

Lemma steps_approved ls s stages s' stages' :
  steps ls (s, stages) = Some (s', stages') →
  (in_turn stages → in_turn stages') ∧
  ∀ i args c, stages' !! i = Some (Executing args) → calls !! i = Some c → tool_auto_approved (tool_name (bc_call c)) = false →
    (∃ args', stages !! i = Some (Executing args')) ∨ approved i ls.
Proof.
  revert s stages. induction ls as [|l ls IH]; intros s stages H.
  - injection H as <- <-. split; [done|]. intros i args c Hi _ _. left. by eexists.
  - cbn in H. apply bind_Some in H as ([s1 stages1] & H1 & H2). destruct (IH _ _ H2) as [Hin Hap]. split.
    + intros Hi. by apply Hin, (step_in_turn _ _ _ _ _ H1).
    + intros i args c Hi Hc Ha. destruct (Hap i args c Hi Hc Ha) as [[args' Hi']|[now Hd]].
      * destruct (step_approved _ _ _ _ _ _ _ _ H1 Hi' Hc Ha) as [?|[now ->]]; [by left|]. right. exists now. by left.
      * right. exists now. by right.
Qed.

(** C5: nothing runs unapproved.  In the guarded posture a tool that is not
    auto-approved executes only after someone answered its approval with yes, and at
    any moment at most one call waits for an answer or executes. *)
Theorem guarded_runs_approved conflicting ls s s' stages :
  steps ls (put_inflight ∅ s, initial_stages calls conflicting) = Some (s', stages) →
  (∀ i args c, stages !! i = Some (Executing args) → calls !! i = Some c → tool_auto_approved (tool_name (bc_call c)) = false →
     approved i ls) ∧
  (∀ i j st st', stages !! i = Some st → stages !! j = Some st' → is_waiting st = true → is_waiting st' = true → i = j).
Proof.
  intros H. destruct (steps_approved _ _ _ _ _ H) as [Hin Hap].
  assert (H0 : ∀ i st, initial_stages calls conflicting !! i = Some st → is_waiting st = false ∧ ∀ args, st ≠ Executing args)
    by (intros i st; by apply initial_not_waiting). split.
  - intros i args c Hi Hc Ha. destruct (Hap i args c Hi Hc Ha) as [[args' Hi']|?]; [|done]. apply H0 in Hi' as [_ Hne]. by destruct (Hne args').
  - assert (Hturn : in_turn stages) by (apply Hin; intros i j st st' _ _ Hj Hw; apply H0 in Hj as [? _]; congruence).
    intros i j st st' Hi Hj Hw Hw'. destruct (Nat.lt_trichotomy i j) as [Hlt|[?|Hlt]]; [|done|].
    + assert (is_finished st = true) by (by eapply Hturn). by destruct st.
    + assert (is_finished st' = true) by (by eapply Hturn). by destruct st'.
Qed.

(** * A denial *)

Lemma emit_fired e s : cs_fired (emit self e s) = cs_fired s.
Proof. unfold emit. by destruct (ag_has_sender self). Qed.

Lemma start_call_fired t tc inv appr now s : cs_fired (start_call from_str parse_error tool_contains tool_auto_approved self t tc inv appr now s).1 = cs_fired s.
Proof.
  unfold start_call. destruct (parse_args _ _); [|done]. destruct (tool_contains _); [|done]. cbn [negb].
  destruct (needs_approval_gate _ _ _); cbn; [destruct (ag_has_sender self); cbn; [|done]|]; rewrite ?emit_fired; by destruct t.
Qed.

Lemma finish_call_fired tc inv now r args s : cs_fired (finish_call json_to_string env policy spill_root self tc inv now r args s).1 = cs_fired s.
Proof. unfold finish_call. destruct r; [destruct (truncate_for_emit _ _ _ _ _ _ _)|]; cbn; by rewrite emit_fired. Qed.

Lemma deny_call_fired tc inv now args reason result s : cs_fired (deny_call self tc inv now args reason result s) = cs_fired s.
Proof. unfold deny_call. by rewrite emit_fired. Qed.

(** A fired token stays fired, and a denial fires it. *)
Definition denies (i : nat) (l : BatchLabel) : Prop := ∃ now d, l = Decision i now d ∧ d ≠ Some true.

Lemma step_fired l s stages s' stages' :
  step l (s, stages) = Some (s', stages') → cs_fired s = true ∨ (ag_has_token self = true ∧ ∃ i, denies i l) → cs_fired s' = true.
Proof.
  intros H Hf. apply step_cases in H as [(-> & _ & -> & _)|(i & c & st & st' & _ & _ & _ & Hp)].
  { destruct Hf as [Hf|(_ & i & now & d & [=] & _)]. cbn. by rewrite Hf. }
  destruct Hp as [now s' st' _ E|now d args s' st' E|now args s' st' _ E|now r args s' st' E]; apply (f_equal fst) in E; cbn in E; subst s'.
  - rewrite start_call_fired. by destruct Hf as [?|(_ & j & n & d & [=] & _)].
  - unfold decide_call. destruct (denial self (bc_call c)) as [reason result]. destruct d as [[|]|].
    + by destruct Hf as [?|(_ & j & n & d & [= -> -> <-] & Hd)].
    + cbn. rewrite deny_call_fired. destruct Hf as [->|(-> & _)]; [done|apply orb_true_r].
    + destruct (ag_has_token self) eqn:Ht; cbn; rewrite deny_call_fired; [by rewrite Ht, orb_true_r|]. by destruct Hf as [?|[[=] _]].
  - cbn. rewrite deny_call_fired. by destruct Hf as [?|(_ & j & n & d & [=] & _)].
  - rewrite finish_call_fired. by destruct Hf as [?|(_ & j & n & d & [=] & _)].
Qed.

Lemma steps_fired ls b b' : steps ls b = Some b' → cs_fired b.1 = true → cs_fired b'.1 = true.
Proof.
  revert b. induction ls as [|l ls IH]; intros b H Hf; [by injection H as <-|].
  cbn in H. apply bind_Some in H as ([s1 st1] & H1 & H2). apply (IH _ H2). destruct b. eapply step_fired; [exact H1|by left].
Qed.

Lemma steps_denied ls b b' i l : steps ls b = Some b' → ag_has_token self = true → l ∈ ls → denies i l → cs_fired b'.1 = true.
Proof.
  intros H Ht (ls1 & ls2 & ->)%list_elem_of_split Hd. rewrite steps_app in H. apply bind_Some in H as ([s1 st1] & _ & H).
  cbn in H. apply bind_Some in H as ([s2 st2] & H1 & H2). eapply steps_fired; [exact H2|]. eapply step_fired; [exact H1|]. right. eauto.
Qed.

(** After a denial no call of the batch starts. *)
Lemma denied_starts_none ls1 l ls2 b b' i j now :
  steps (ls1 ++ l :: ls2) b = Some b' → ag_has_token self = true → denies i l → StartCall j now ∉ ls2.
Proof.
  intros H Ht Hd (ls3 & ls4 & ->)%list_elem_of_split.
  replace (ls1 ++ l :: ls3 ++ StartCall j now :: ls4) with ((ls1 ++ l :: ls3) ++ StartCall j now :: ls4) in H by (by rewrite <- app_assoc).
  rewrite steps_app in H. apply bind_Some in H as ([s1 st1] & H1 & H). cbn [batch_run] in H.
  assert (Hf : cs_fired s1 = true) by (eapply (steps_denied _ _ (s1, st1)); [exact H1|done| |exact Hd]; apply elem_of_app; right; by left).
  apply bind_Some in H as ([s2 st2] & H2 & _). cbn in H2.
  destruct (calls !! j); [|done]. destruct (st1 !! j) as [[]|]; try done.
  unfold may_start, is_sequential in H2. rewrite bool_decide_true, Ht, Hf, andb_false_r in H2; done.
Qed.
End guarded.

(** * What a call ended in *)

Section outcomes.
Context `{U : UuidCrate}.
Context (json_to_string : json → string) (from_str : string → option json) (parse_error : string → string)
        (env : SpillEnv) (policy : ToolOutputTruncatePolicy) (spill_root : option Path)
        (tool_contains tool_auto_approved : string → bool) (self : AgentSelf) (calls : list BatchCall).

Abbreviation step := (batch_step json_to_string from_str parse_error env policy spill_root tool_contains tool_auto_approved self calls).
Abbreviation steps := (batch_run json_to_string from_str parse_error env policy spill_root tool_contains tool_auto_approved self calls).

(** The result of call [i], read off the labels of its batch: refused before it was
    started, denied, cut off at its approval, or what its tool answered. *)
Inductive ended_by (ls : list BatchLabel) (i : nat) (tc : LlmToolCall) : Result json AlmsError → Prop :=
| ended_invalid :
    trim (arg_text tc) ≠ "" → from_str (arg_text tc) = None →
    ended_by ls i tc (Err (ToolExecution ("Invalid arguments: " +:+ parse_error (arg_text tc))))
| ended_unknown :
    tool_contains (tool_name tc) = false → ended_by ls i tc (Err (ToolExecution ("Tool '" +:+ tool_name tc +:+ "' not allowed")))
| ended_unaskable :
    ag_posture self = Guarded → tool_auto_approved (tool_name tc) = false → ag_has_sender self = false →
    ended_by ls i tc (Err (Runtime "Guarded posture requires an event sender for approvals"))
| ended_denied now d :
    Decision i now d ∈ ls → d = Some false ∨ (d = None ∧ ag_has_token self = true) →
    ended_by ls i tc (Ok (if ag_unroutable self then approval_unavailable_result else user_denied_result))
| ended_closed now :
    Decision i now None ∈ ls → ag_has_token self = false →
    ended_by ls i tc (Err (ToolExecution ("Tool '" +:+ tool_name tc +:+ "' approval channel closed")))
| ended_cancelled now : DecisionCancelled i now ∈ ls → ended_by ls i tc (Err CancelledError)
| ended_answered now r : ToolAnswered i now r ∈ ls → ended_by ls i tc r.

(** A conflicting call ends in its conflict and in nothing else. *)
Definition ended_with (conflicting : list nat) (ls : list BatchLabel) (i : nat) (tc : LlmToolCall) (r : Result json AlmsError) : Prop :=
  (i ∈ conflicting ∧ r = Err (ToolExecution DM_CONFLICT_MSG)) ∨ (i ∉ conflicting ∧ ended_by ls i tc r).

Lemma ended_by_mono ls ls' i tc r : ls ⊆ ls' → ended_by ls i tc r → ended_by ls' i tc r.
Proof. intros Hsub []; by econstructor; eauto. Qed.

Lemma piece_ended i c s stages l st s' r :
  piece json_to_string from_str parse_error env policy spill_root tool_contains tool_auto_approved self i c s stages l st s' (Finished r) →
  ended_by [l] i (bc_call c) r.
Proof.
  inversion 1 as [now s1 st1 _ E|now d args s1 st1 E|now args s1 st1 _ E|now r' args s1 st1 E]; subst.
  - unfold start_call in E. destruct (parse_args from_str (bc_call c)) eqn:Ea.
    2:{ injection E as _ <-. unfold parse_args in Ea. destruct (String.eqb_spec (trim (arg_text (bc_call c))) ""); [done|]. by constructor. }
    destruct (tool_contains _) eqn:Ec; cbn [negb] in E; [|injection E as _ <-; by constructor].
    destruct (needs_approval_gate _ _ _) eqn:Hg; [|done]. destruct (ag_has_sender self) eqn:Hs; [done|]. injection E as _ <-.
    unfold needs_approval_gate in Hg. apply andb_true_iff in Hg as [Hg%bool_decide_eq_true Ha%negb_true_iff]. by constructor.
  - unfold decide_call, denial in E.
    destruct (ag_unroutable self) eqn:Hu; (destruct d as [[|]|]; [done| |destruct (ag_has_token self) eqn:Ht]); injection E as _ <-;
      first [by eapply ended_closed; [left|]
            |replace (Ok _) with (Ok (E := AlmsError) (if ag_unroutable self then approval_unavailable_result else user_denied_result)) by (by rewrite Hu);
             eapply ended_denied; [by left|by eauto]].
  - injection E as _ <-. eapply ended_cancelled. by left.
  - eapply ended_answered. unfold finish_call in E. destruct r'; [destruct (truncate_for_emit _ _ _ _ _ _ _)|]; injection E as _ <-; by left.
Qed.

Lemma steps_ended ls b b' i c r :
  steps ls b = Some b' → calls !! i = Some c → b'.2 !! i = Some (Finished r) →
  b.2 !! i = Some (Finished r) ∨ ended_by ls i (bc_call c) r.
Proof.
  intros H Hc. revert b H. induction ls as [|l ls IH]; intros [s stages] H Hr; [injection H as <-; by left|].
  cbn in H. apply bind_Some in H as ([s1 stages1] & H1 & H2). destruct (IH _ H2 Hr) as [Hi|Hi].
  - cbn in Hi. apply step_cases in H1 as [(_ & _ & _ & ->)|(j & d & st & st1 & Hd & Hs & -> & Hp)]; [by left|].
    destruct (decide (i = j)) as [->|Hne]; [|left; by rewrite list_lookup_insert_ne in Hi].
    rewrite list_lookup_insert_eq in Hi by (by eapply lookup_lt_Some). injection Hi as ->. simplify_eq. right.
    eapply ended_by_mono; [|by eapply piece_ended]. set_solver.
  - right. eapply ended_by_mono; [|exact Hi]. set_solver.
Qed.

Lemma steps_finished ls b b' i r : steps ls b = Some b' → b.2 !! i = Some (Finished r) → b'.2 !! i = Some (Finished r).
Proof.
  revert b. induction ls as [|l ls IH]; intros [s stages] H Hr; [by injection H as <-|].
  cbn in H. apply bind_Some in H as ([s1 stages1] & H1 & H2). apply (IH _ H2). cbn in Hr |- *. eapply step_finished; [exact H1|exact Hr].
Qed.

(** Every call that ended by the end of its batch. *)
Lemma batch_ended conflicting ls s b i c r :
  steps ls (s, initial_stages calls conflicting) = Some b → calls !! i = Some c → b.2 !! i = Some (Finished r) →
  ended_with conflicting ls i (bc_call c) r.
Proof.
  intros H Hc Hr. assert (Hi : initial_stages calls conflicting !! i =
    Some (if bool_decide (i ∈ conflicting) then Finished (Err (ToolExecution DM_CONFLICT_MSG)) else NotStarted))
    by (unfold initial_stages; by rewrite list_lookup_imap, Hc).
  case_bool_decide as Hin; [left|right]; (split; [done|]).
  - eapply (steps_finished _ _ _ i) in H; [|exact Hi]. congruence.
  - eapply steps_ended in H; [|exact Hc|exact Hr]. destruct H as [H|]; [|done]. cbn in H. congruence.
Qed.

Lemma finished_results stages i r :
  forallb is_finished stages = true → omap stage_result stages !! i = Some r → stages !! i = Some (Finished r).
Proof.
  revert i. induction stages as [|st stages IH]; intros i; [done|]. simpl. intros [Hst Hall]%andb_true_iff.
  destruct st; try done. cbn. destruct i as [|i]; cbn; [by intros [= ->]|by apply IH].
Qed.
End outcomes.

(** * A batch on a screen *)

Section demo.
Import SimpleUuid.

Definition demo_json (_ : json) : string := "{}".

Definition demo_spill : SpillEnv := {| se_create_dir_ok := true; se_write := WriteOk; se_nanos := 0 |}.

Definition demo_self : AgentSelf := {|
  ag_identity := atlas; ag_session := MkSessionId (MkUuid 3); ag_posture := Guarded; ag_has_sender := true; ag_has_token := true;
  ag_unroutable := false |}.

Definition demo_calls : list BatchCall :=
  [{| bc_call := tool_call_new "a" "shell" "{}"; bc_inv := MkUuid 1; bc_approval := MkUuid 11 |};
   {| bc_call := tool_call_new "b" "fs_write" "{}"; bc_inv := MkUuid 2; bc_approval := MkUuid 12 |}].

Definition demo_state : CallState := mkCalls [] [] ∅ ∅ false false.

Abbreviation demo_steps := (batch_run demo_json (λ _, Some (JObj [])) id demo_spill policy_disabled None (λ _, true) (λ _, false) demo_self demo_calls).
Abbreviation demo_batch := (run_tool_calls demo_json (λ _, Some (JObj [])) id demo_spill policy_disabled None (λ _, true) (λ _, false) demo_self demo_calls).

(** The first call is approved and cut off while it executes. *)
Definition demo_labels : list BatchLabel := [StartCall 0 5; Decision 0 6 (Some true); FireToken].

Lemma batch_ends_what_it_starts_witness :
  match demo_batch [] demo_labels true demo_state with
  | Some (s', _) => ∃ evs, cs_events s' = [] ++ evs ∧ open_tools evs = Some ∅ ∧ NoDup (started evs)
  | None => False
  end.
Proof.
  destruct (demo_batch [] demo_labels true demo_state) as [[s' e]|] eqn:E; [|by vm_compute in E].
  refine (batch_ends_what_it_starts _ _ _ _ _ _ _ _ demo_self demo_calls _ _ [] demo_labels true demo_state s' e E).
  - reflexivity.
  - apply NoDup_cons. split; [by intros H%list_elem_of_singleton|apply NoDup_singleton].
Defined.

Lemma guarded_runs_approved_witness :
  match demo_steps demo_labels (put_inflight ∅ demo_state, initial_stages demo_calls []) with
  | Some (_, stages) =>
      (∀ i args c, stages !! i = Some (Executing args) → demo_calls !! i = Some c → false = false → approved i demo_labels) ∧
      (∀ i j st st', stages !! i = Some st → stages !! j = Some st' → is_waiting st = true → is_waiting st' = true → i = j)
  | None => False
  end.
Proof.
  destruct (demo_steps demo_labels _) as [[s' stages]|] eqn:E; [|by vm_compute in E].
  refine (guarded_runs_approved _ _ _ _ _ _ _ _ demo_self demo_calls _ [] demo_labels demo_state s' stages E). reflexivity.
Defined.

(** A cancelled approval can go without an audit entry: the outer [select!] drops the
    call before its own cancellation arm runs. *)
Lemma cancelled_approval_unaudited :
  ∃ s' kept, demo_batch [] [StartCall 0 5; FireToken] true demo_state = Some (s', BatchCancelled kept) ∧ cs_audits s' = [] ∧
  ∃ s'' kept', demo_batch [] [StartCall 0 5; FireToken; DecisionCancelled 0 6] true demo_state = Some (s'', BatchCancelled kept') ∧
    length (cs_audits s'') = 1.
Proof. eexists _, _. split; [vm_compute; reflexivity|]. split; [done|]. eexists _, _. split; [vm_compute; reflexivity|done]. Qed.

(** The spilled output of a call is lost to a later call with the same provider id:
    the file is the same, and the preview of the first still points to it. *)
Lemma repeated_id_overwrites_spill env fs fs1 fs2 dir id raw1 raw2 p p' :
  write_spill env fs dir id raw1 = (fs1, Some p) → write_spill env fs1 dir id raw2 = (fs2, Some p') → p' = p ∧ fs2 !! p = Some raw2.
Proof.
  unfold write_spill. destruct (se_create_dir_ok env); [|done]. destruct (se_write env) as [|[]]; try done.
  intros [= <- <-] [= <- <-]. split; [done|]. by apply lookup_insert_eq.
Qed.

End demo.
