(* ===== verification/AgentLoop.v ===== *)
(** The loop of one run: [alms-runtime/src/agent/loop_impl.rs]
    ([agent_loop_with_workspace_budget] and what it asks of phases and clocks).

    A turn is a script: the clock readings, the answer of the model, the fresh ids,
    the pieces of the tool batch and whether the run's token was fired meanwhile.
    Times are nanoseconds.  Rows are those appended; a failed append of the loop
    only logs. *)
From stdpp Require Import pretty.
From S2P Require Import Prelude Ident Json Run Session LlmTypes Normalize ContextHistory Truncate ContextBuild ToolResults Errors RuntimeTypes LlmCall ToolCalls.

(** * Phases *)

Inductive RunPhase := AwaitingFirstActivity | BetweenIterations | ExecutingTools | ExecutingBlockingSubagent | AwaitingApproval.

#[export] Instance run_phase_eq_dec : EqDecision RunPhase.
Proof. solve_decision. Defined.

Definition label (p : RunPhase) : string :=
  match p with
  | AwaitingFirstActivity => "awaiting the first response"
  | BetweenIterations => "between iterations"
  | ExecutingTools => "executing tools"
  | ExecutingBlockingSubagent => "executing a blocking subagent"
  | AwaitingApproval => "awaiting human approval"
  end.

Definition as_secs (nanos : Z) : Z := nanos `div` 10 ^ 9.

Definition stall_error (phase : RunPhase) (idle budget_secs : Z) : option string :=
  if (budget_secs =? 0)%Z || (as_secs idle <? budget_secs)%Z then None
  else Some ("agent run stalled -- no activity for " +:+ pretty (as_secs idle) +:+ "s during " +:+ label phase).

(** Nanoseconds since [base], in 64 bits. *)
Definition idle (base last now : Z) : Z := Z.max 0 (now - base - (last - base) `mod` 2 ^ 64).

(** The limits a run is configured with. *)
Record LoopConfig := {
  lc_max_iterations : Z;
  lc_max_run_duration_secs : Z;
  lc_between_iterations_secs : Z;
  lc_tool_phase_ceiling_secs : Z;
  lc_stream_chunk_timeout_secs : Z;
}.

Definition inactivity_budget (c : LoopConfig) (p : RunPhase) : Z :=
  match p with
  | AwaitingFirstActivity => Z.min (lc_stream_chunk_timeout_secs c + 30) (2 ^ 64 - 1)
  | BetweenIterations => lc_between_iterations_secs c
  | ExecutingTools => lc_tool_phase_ceiling_secs c
  | ExecutingBlockingSubagent | AwaitingApproval => 0
  end.

Definition INVOKE_AGENT_TOOL_NAME : string := "invoke_agent".

Section batch_kinds.
Context (from_str : string → option json) (tool_auto_approved : string → bool).

Definition invoke_agent_call_is_background (arguments : string) : bool :=
  default false (v ← from_str arguments; b ← json_get "background" v; as_bool b).

Definition batch_has_blocking_invoke_agent (calls : list LlmToolCall) (conflicting : list nat) : bool :=
  existsb (λ p : nat * LlmToolCall,
    String.eqb (tool_name p.2) INVOKE_AGENT_TOOL_NAME && negb (bool_decide (p.1 ∈ conflicting)) &&
    negb (invoke_agent_call_is_background (arg_text p.2))) (imap pair calls).

Definition batch_needs_approval (posture : Posture) (calls : list LlmToolCall) (conflicting : list nat) : bool :=
  bool_decide (posture = Guarded) &&
  existsb (λ p : nat * LlmToolCall,
    negb (bool_decide (p.1 ∈ conflicting)) && negb (tool_auto_approved (tool_name p.2))) (imap pair calls).
End batch_kinds.

(** * State *)

Definition wrap32 (x : Z) : Z := x `mod` 2 ^ 32.

Definition add_count (acc more : option Z) : option Z :=
  match more with Some n => Some (wrap32 (default 0%Z acc + n)) | None => acc end.

(** The usage of one call on the run's; the counters are [u32]. *)
Definition add_usage (total : TokenUsage) (usage : option Usage) : TokenUsage :=
  match usage with
  | None => total
  | Some u => {|
      prompt_tokens := wrap32 (prompt_tokens total + us_prompt_tokens u);
      completion_tokens := wrap32 (completion_tokens total + us_completion_tokens u);
      reasoning_tokens := add_count (reasoning_tokens total) (reasoning_tokens_effective u);
      cache_creation_input_tokens := add_count (cache_creation_input_tokens total) (us_cache_creation_input_tokens u);
      cache_read_input_tokens := add_count (cache_read_input_tokens total) (us_cache_read_input_tokens u) |}
  end.

Definition usage_default : TokenUsage :=
  {| prompt_tokens := 0; completion_tokens := 0; reasoning_tokens := None; cache_creation_input_tokens := None;
     cache_read_input_tokens := None |}.

Record AgentLoopOutput := { lo_response : string; lo_usage : TokenUsage; lo_reasoning : option string }.

Record LoopState := mkLoop {
  lp_messages : list LlmMessage;
  lp_usage : TokenUsage;
  lp_records : list ToolCallRecord;
  lp_seq : Z;
  lp_nudges : Z;
  lp_iterations : Z;
  lp_last_activity : Z;
  lp_phase : RunPhase;
  lp_rows : list Message;
  lp_calls : CallState;
}.

Record TurnScript := {
  (** The token was fired since the last turn. *)
  tu_fired : bool;
  (** The run's duration and its idle time are read one after the other. *)
  tu_elapsed_at : Z;
  tu_idle_at : Z;
  tu_llm : LlmScript;
  tu_answered_at : Z;
  tu_ids : list (Uuid * Uuid);
  tu_row_id : string;
  tu_row_now : Z;
  tu_batch_at : Z;
  tu_labels : list BatchLabel;
  tu_stopped : bool;
  (** The workspace's part of a rebuilt prompt. *)
  tu_prefix : option (bool → nat → string);
}.

Definition DM_EMPTY_REPLY_MAX_RETRIES : Z := 1.
Definition DM_EMPTY_REPLY_RETRY_MSG : string :=
  "ERROR: Your run produced no reply text for the other agent. In a direct message conversation your final message text IS your reply — it is delivered to the other agent automatically. Either write your reply as plain text now, or use the `ignore_message` tool to explicitly end the conversation. Do not respond with an empty message.".

(** * A turn *)

Section loop.
Context `{U : UuidCrate}.
Context (json_to_string : json → string) (from_str : string → option json) (parse_error : string → string)
        (env : SpillEnv) (policy : ToolOutputTruncatePolicy) (spill_root : option Path)
        (tool_contains tool_auto_approved : string → bool) (self : AgentSelf) (cfg : LoopConfig).
(** The run: when it and its activity clock started, and how its prompt is made. *)
Context (run_start base : Z) (is_dm dm_implicit_reply include_user : bool) (dm_peer_name : option string)
        (system_prompt tool_loop : string) (dm_addendum : string → string) (workspace_budget_bytes : nat).

Abbreviation id_text inv := (uuid_to_string inv) (only parsing).

Definition on_calls (f : CallState → CallState) (s : LoopState) : LoopState :=
  mkLoop (lp_messages s) (lp_usage s) (lp_records s) (lp_seq s) (lp_nudges s) (lp_iterations s) (lp_last_activity s)
    (lp_phase s) (lp_rows s) (f (lp_calls s)).
Definition push_message (m : LlmMessage) (s : LoopState) : LoopState :=
  mkLoop (lp_messages s ++ [m]) (lp_usage s) (lp_records s) (lp_seq s) (lp_nudges s) (lp_iterations s) (lp_last_activity s)
    (lp_phase s) (lp_rows s) (lp_calls s).
Definition with_messages (ms : list LlmMessage) (s : LoopState) : LoopState :=
  mkLoop ms (lp_usage s) (lp_records s) (lp_seq s) (lp_nudges s) (lp_iterations s) (lp_last_activity s) (lp_phase s)
    (lp_rows s) (lp_calls s).
Definition push_rows (rows : list Message) (s : LoopState) : LoopState :=
  mkLoop (lp_messages s) (lp_usage s) (lp_records s) (lp_seq s) (lp_nudges s) (lp_iterations s) (lp_last_activity s)
    (lp_phase s) (lp_rows s ++ rows) (lp_calls s).
(** Records are numbered by [tool_seq]. *)
Definition push_records (records : list ToolCallRecord) (s : LoopState) : LoopState :=
  mkLoop (lp_messages s) (lp_usage s) (lp_records s ++ records) (lp_seq s + Z.of_nat (length records)) (lp_nudges s)
    (lp_iterations s) (lp_last_activity s) (lp_phase s) (lp_rows s) (lp_calls s).
Definition count_usage (u : option Usage) (s : LoopState) : LoopState :=
  mkLoop (lp_messages s) (add_usage (lp_usage s) u) (lp_records s) (lp_seq s) (lp_nudges s) (lp_iterations s)
    (lp_last_activity s) (lp_phase s) (lp_rows s) (lp_calls s).
Definition count_iteration (s : LoopState) : LoopState :=
  mkLoop (lp_messages s) (lp_usage s) (lp_records s) (lp_seq s) (lp_nudges s) (wrap32 (lp_iterations s + 1))
    (lp_last_activity s) (lp_phase s) (lp_rows s) (lp_calls s).
Definition count_nudge (s : LoopState) : LoopState :=
  mkLoop (lp_messages s) (lp_usage s) (lp_records s) (lp_seq s) (lp_nudges s + 1) (lp_iterations s)
    (lp_last_activity s) (lp_phase s) (lp_rows s) (lp_calls s).
Definition active_at (now : Z) (s : LoopState) : LoopState :=
  mkLoop (lp_messages s) (lp_usage s) (lp_records s) (lp_seq s) (lp_nudges s) (lp_iterations s) now (lp_phase s)
    (lp_rows s) (lp_calls s).
Definition in_phase (p : RunPhase) (s : LoopState) : LoopState :=
  mkLoop (lp_messages s) (lp_usage s) (lp_records s) (lp_seq s) (lp_nudges s) (lp_iterations s) (lp_last_activity s) p
    (lp_rows s) (lp_calls s).
Definition send (e : RuntimeEvent) : LoopState → LoopState := on_calls (emit self e).

(** ** The checks in front of a call *)

Definition token_fired (s : LoopState) : bool := ag_has_token self && cs_fired (lp_calls s).

Definition cap_error (t : TurnScript) (s : LoopState) : option AlmsError :=
  if (0 <? lc_max_iterations cfg)%Z && (lc_max_iterations cfg <? lp_iterations s)%Z then
    Some (Runtime ("agent loop exceeded the maximum of " +:+ pretty (lc_max_iterations cfg) +:+
                   " iterations without producing a final response"))
  else if (0 <? lc_max_run_duration_secs cfg)%Z &&
          (lc_max_run_duration_secs cfg <=? as_secs (tu_elapsed_at t - run_start))%Z then
    Some (Runtime ("agent run exceeded the maximum duration of " +:+ pretty (lc_max_run_duration_secs cfg) +:+
                   " seconds without producing a final response"))
  else
    Runtime <$> stall_error (lp_phase s) (idle base (lp_last_activity s) (tu_idle_at t)) (inactivity_budget cfg (lp_phase s)).

Definition checkpoint (t : TurnScript) (s : LoopState) : LoopState * option AlmsError :=
  let s := if tu_fired t then on_calls (fire self false) s else s in
  if token_fired s then (s, Some CancelledError)
  else let s := count_iteration s in (s, cap_error t s).

(** ** The model *)

(** A call is given up only for a token that was fired. *)
Definition llm_cancelled (script : LlmScript) : bool :=
  match lm_end script with
  | StreamCancelled => true
  | StreamFailed e => negb (stream_error_is_timeout e) && bool_decide (lm_buffered script = None)
  | StreamDone => false
  end.

Definition ask_model (t : TurnScript) (s : LoopState) : option (LoopState * Result StreamCallResult AlmsError) :=
  let cancelled := llm_cancelled (tu_llm t) in
  if cancelled && negb (ag_has_token self) then None
  else
    let '(evs, last, r) := call_llm_with_cancellation (ag_has_sender self) (tu_llm t) (lp_last_activity s) in
    let s := foldl (λ s e, send e s) (active_at last s) evs in
    Some (if cancelled then on_calls (fire self false) s else s, r).

(** ** The prompt of the next call *)

Definition rebuilt_prompt (t : TurnScript) : string :=
  assemble_system_prompt (tu_prefix t) system_prompt include_user workspace_budget_bytes +:+ lf2 +:+ tool_loop +:+
  match dm_peer_name with Some peer => dm_addendum peer | None => "" end.

Definition rebuild_system_prompt (prompt : string) (messages : list LlmMessage) : list LlmMessage :=
  match messages with
  | m :: rest => if String.eqb (role m) "system" then llm_system prompt :: rest else messages
  | [] => []
  end.

Definition rebuild (t : TurnScript) (s : LoopState) : LoopState :=
  with_messages (rebuild_system_prompt (rebuilt_prompt t) (lp_messages s)) s.

(** ** Tool calls *)

(** The assistant turn: the message, its rows and its records. *)
Definition record_calls (t : TurnScript) (content reasoning : option string) (calls : list LlmToolCall) (s : LoopState)
    : LoopState :=
  let invs := (λ p, id_text (fst p)) <$> tu_ids t in
  let s := push_message {| role := "assistant"; content := content; reasoning_content := None; tool_calls := Some calls;
                           tool_call_id := None |} s in
  let s := push_rows (persist_assistant_tool_calls from_str (ag_identity self) (tu_row_id t) (tu_row_now t) content reasoning
                        calls invs is_dm) s in
  push_records (imap (λ i p, call_record (ag_identity self) (lp_seq s + Z.of_nat i) (tu_row_now t) p.2 p.1) (zip calls invs)) s.

(** The phase of a batch, and its status, where any of its calls runs. *)
Definition announce_batch (t : TurnScript) (calls : list LlmToolCall) (conflicting : list nat) (s : LoopState) : LoopState :=
  let names := omap (λ p : nat * LlmToolCall, if bool_decide (p.1 ∈ conflicting) then None else Some (tool_name p.2)) (imap pair calls) in
  match names with
  | [] => s
  | _ =>
      let s := send (EvStatus PHASE_EXECUTING_TOOLS (Some (String.concat ", " names))) s in
      let s := active_at (tu_batch_at t) s in
      in_phase (if batch_has_blocking_invoke_agent from_str calls conflicting then ExecutingBlockingSubagent
                else if batch_needs_approval tool_auto_approved (ag_posture self) calls conflicting then AwaitingApproval
                else ExecutingTools) s
  end.

(** Rows and records of results, with what the live conversation is answered. *)
Definition persist_results (t : TurnScript) (batch : list (LlmToolCall * Result json AlmsError * Uuid)) (s : LoopState)
    : LoopState * list LlmMessage :=
  let '(fs, (rows, records, live)) :=
    process_tool_results json_to_string from_str (ag_identity self) env policy spill_root (cs_files (lp_calls s)) (lp_seq s)
      (tu_row_id t) (tu_row_now t) is_dm ((λ '(tc, r, inv), (tc, result_text r, id_text inv)) <$> batch) in
  (push_records records (push_rows rows (on_calls (put_files fs) s)), live).

Definition kept_batch (calls : list LlmToolCall) (ids : list (Uuid * Uuid)) (kept : list (nat * Result json AlmsError))
    : list (LlmToolCall * Result json AlmsError * Uuid) :=
  omap (λ p : nat * Result json AlmsError, tc ← calls !! p.1; id ← ids !! p.1; Some (tc, p.2, id.1)) kept.

Definition batch_calls (calls : list LlmToolCall) (ids : list (Uuid * Uuid)) : list BatchCall :=
  zip_with (λ tc p, {| bc_call := tc; bc_inv := p.1; bc_approval := p.2 |}) calls ids.

(** How a turn ends: with the loop's result, or with another turn. *)
Abbreviation TurnEnd := (LoopState * option (Result AgentLoopOutput AlmsError))%type.

Definition answer_calls (t : TurnScript) (calls : list LlmToolCall) (results : list (Result json AlmsError)) (s : LoopState)
    : TurnEnd :=
  let '(s, live) := persist_results t (zip (zip calls results) (fst <$> tu_ids t)) s in
  let s := with_messages (lp_messages s ++ live) s in
  if ran_ignore_message_successfully (lp_records s)
  then (s, Some (Ok {| lo_response := ""; lo_usage := lp_usage s; lo_reasoning := None |}))
  else (rebuild t s, None).

Definition take_calls (t : TurnScript) (content reasoning : option string) (calls : list LlmToolCall) (s : LoopState)
    : option TurnEnd :=
  if negb (Nat.eqb (length (tu_ids t)) (length calls)) then None
  else
    let s := record_calls t content reasoning calls s in
    let conflicting := conflicting_indices (detect_dm_conflict from_str calls dm_peer_name) in
    let s := announce_batch t calls conflicting s in
    '(c, e) ← run_tool_calls json_to_string from_str parse_error env policy spill_root tool_contains tool_auto_approved self
                (batch_calls calls (tu_ids t)) conflicting (tu_labels t) (tu_stopped t) (lp_calls s);
    let s := on_calls (λ _, c) s in
    Some (match e with
          | BatchCancelled kept => ((persist_results t (kept_batch calls (tu_ids t) kept) s).1, Some (Err CancelledError))
          | AllAnswered results => answer_calls t calls results s
          end).

(** ** Text *)

Definition take_text (t : TurnScript) (content reasoning : option string) (s : LoopState) : TurnEnd :=
  let missing := is_dm && dm_implicit_reply &&
                 bool_decide (deliverable_dm_reply (default "" content) reasoning = None) in
  if missing && (lp_nudges s <? DM_EMPTY_REPLY_MAX_RETRIES)%Z then
    let s := send (EvWarning "DM_EMPTY_REPLY_RETRY"
      "Agent produced no reply text in a DM session. Retrying once with instructions to reply with text or use ignore_message." None)
      (count_nudge s) in
    (rebuild t (push_message (llm_user DM_EMPTY_REPLY_RETRY_MSG) s), None)
  else
    let s := if missing then
      send (EvWarning "DM_EMPTY_REPLY"
        "Agent failed to produce reply text after the nudge. The DM conversation will be ended with an error so the peer is notified." None) s
      else s in
    (s, Some (Ok {| lo_response := default "" content; lo_usage := lp_usage s; lo_reasoning := reasoning |})).

(** ** The loop *)

Definition take_answer (t : TurnScript) (a : StreamCallResult) (s : LoopState) : option TurnEnd :=
  let s := if bool_decide (is_Some (sc_content a)) || bool_decide (is_Some (sc_reasoning a)) || bool_decide (is_Some (sc_tool_calls a))
           then active_at (tu_answered_at t) s else s in
  let s := count_usage (sc_usage a) (in_phase BetweenIterations s) in
  match sc_tool_calls a with
  | Some calls => take_calls t (sc_content a) (sc_reasoning a) calls s
  | None => Some (take_text t (sc_content a) (sc_reasoning a) s)
  end.

(** [None] where the script cannot happen. *)
Definition loop_turn (t : TurnScript) (s : LoopState) : option TurnEnd :=
  let '(s, failed) := checkpoint t s in
  match failed with
  | Some e => Some (s, Some (Err e))
  | None =>
      '(s, r) ← ask_model t s;
      match r with
      | Err e => Some (s, Some (Err e))
      | Ok a => take_answer t a s
      end
  end.

(** The turns of a run; [None] for its result while it goes on. *)
Fixpoint agent_loop (turns : list TurnScript) (s : LoopState) : option TurnEnd :=
  match turns with
  | [] => Some (s, None)
  | t :: rest =>
      '(s, r) ← loop_turn t s;
      match r with Some _ => Some (s, r) | None => agent_loop rest s end
  end.

Definition loop_start (messages : list LlmMessage) (calls : CallState) : LoopState :=
  mkLoop messages usage_default [] 0 0 0 base AwaitingFirstActivity [] calls.
End loop.
