(* ===== verification/AgentLoopProps.v ===== *)
(** What a run of the agent loop guarantees: it ends, the conversation it sends
    grows by answered calls only, its records are numbered without a gap and answer
    recorded calls, and a denial is the end of it. *)
From S2P Require Import Prelude Ident Json Run Session LlmTypes ContextHistory Truncate ContextBuild ToolResults Errors RuntimeTypes LlmCall ToolCalls ToolCallProps AgentLoop.

Section loop.
Context `{U : UuidCrate}.
Context (json_to_string : json → string) (from_str : string → option json) (parse_error : string → string)
        (env : SpillEnv) (policy : ToolOutputTruncatePolicy) (spill_root : option Path)
        (tool_contains tool_auto_approved : string → bool) (self : AgentSelf) (cfg : LoopConfig).
Context (run_start base : Z) (is_dm dm_implicit_reply include_user : bool) (dm_peer_name : option string)
        (system_prompt tool_loop : string) (dm_addendum : string → string) (workspace_budget_bytes : nat).

Abbreviation turn := (loop_turn json_to_string from_str parse_error env policy spill_root tool_contains tool_auto_approved self cfg
  run_start base is_dm dm_implicit_reply include_user dm_peer_name system_prompt tool_loop dm_addendum workspace_budget_bytes).
Abbreviation loop := (agent_loop json_to_string from_str parse_error env policy spill_root tool_contains tool_auto_approved self cfg
  run_start base is_dm dm_implicit_reply include_user dm_peer_name system_prompt tool_loop dm_addendum workspace_budget_bytes).
Abbreviation take := (take_calls json_to_string from_str parse_error env policy spill_root tool_contains tool_auto_approved self
  is_dm include_user dm_peer_name system_prompt tool_loop dm_addendum workspace_budget_bytes).
Abbreviation persist := (persist_results json_to_string from_str env policy spill_root self is_dm).
Abbreviation prompt := (rebuilt_prompt include_user dm_peer_name system_prompt tool_loop dm_addendum workspace_budget_bytes).
Abbreviation run_batch := (run_tool_calls json_to_string from_str parse_error env policy spill_root tool_contains tool_auto_approved self).

(** * What a turn leaves alone *)

(** The conversation and the records. *)
Definition transcript (s : LoopState) : list LlmMessage * list ToolCallRecord * Z := (lp_messages s, lp_records s, lp_seq s).

Lemma send_all_frame evs s : 
  let s' := foldl (λ s e, send self e s) s evs in transcript s' = transcript s ∧ lp_iterations s' = lp_iterations s ∧ lp_nudges s' = lp_nudges s.
Proof. cbn. revert s. induction evs as [|e evs IH]; intros s; [done|]. exact (IH (send self e s)). Qed.

Lemma checkpoint_frame t s :
  let s' := (checkpoint self cfg run_start base t s).1 in transcript s' = transcript s ∧ lp_nudges s' = lp_nudges s.
Proof. cbn. unfold checkpoint. destruct (tu_fired t); by destruct (token_fired _ _). Qed.

Lemma ask_model_frame t s s' r : ask_model self t s = Some (s', r) →
  transcript s' = transcript s ∧ lp_iterations s' = lp_iterations s ∧ lp_nudges s' = lp_nudges s.
Proof.
  unfold ask_model. destruct (_ && _); [done|]. destruct (call_llm_with_cancellation _ _ _) as [[evs last] r0]. intros [= <- <-].
  destruct (llm_cancelled _); apply (send_all_frame evs (active_at last s)).
Qed.

Lemma ask_model_answer t s s' r : ask_model self t s = Some (s', r) →
  ∃ last, (call_llm_with_cancellation (ag_has_sender self) (tu_llm t) last).2 = r.
Proof.
  unfold ask_model. destruct (_ && _); [done|]. intros H. exists (lp_last_activity s).
  destruct (call_llm_with_cancellation _ _ _) as [[evs last] r0]. by injection H as _ <-.
Qed.

Lemma announce_frame t calls conflicting s :
  let s' := announce_batch from_str tool_auto_approved self t calls conflicting s in
  transcript s' = transcript s ∧ lp_iterations s' = lp_iterations s ∧ lp_nudges s' = lp_nudges s.
Proof. cbn. unfold announce_batch. by destruct (omap _ _). Qed.

(** * Results of a batch *)

Lemma all_finished_results stages : forallb is_finished stages = true → length (omap stage_result stages) = length stages.
Proof.
  induction stages as [|st stages IH]; [done|]. simpl. intros [Hst Hr]%andb_true_iff. destruct st; try done. exact (f_equal S (IH Hr)).
Qed.

Lemma batch_results calls conflicting ls stopped s s' results :
  run_batch calls conflicting ls stopped s = Some (s', AllAnswered results) → length results = length calls ∧
  ∀ i c r, calls !! i = Some c → results !! i = Some r →
    ended_with from_str parse_error tool_contains tool_auto_approved self conflicting ls i (bc_call c) r.
Proof.
  unfold run_tool_calls. intros H. apply bind_Some in H as ([s1 stages] & Hrun & H).
  assert (Hl : length stages = length calls).
  { apply steps_length in Hrun. cbn in Hrun. rewrite Hrun. unfold initial_stages. apply length_imap. }
  destruct (forallb is_finished stages) eqn:Hall.
  - destruct stopped; [done|]. injection H as <- <-. split; [by rewrite all_finished_results|]. intros i c r Hc Hr.
    eapply batch_ended; [exact Hrun|exact Hc|by apply finished_results].
  - destruct (_ && _); done.
Qed.

(** The text of a result as the model reads it, cut to the output policy; the files
    spilled to so far do not change it, only the path in its notice. *)
Definition result_said (r : Result json string) : string :=
  match r with Ok v => json_to_string v | Err e => "Error: " +:+ e end.
Definition says_result (tc : LlmToolCall) (r : Result json string) (c : string) : Prop :=
  ∃ fs, c = to_content (truncate env fs (result_said r) policy (tc_id tc) spill_root).2.

(** What the live conversation and the records get for a batch of results. *)
Lemma process_results fs seq id now batch :
  let r := (process_tool_results json_to_string from_str (ag_identity self) env policy spill_root fs seq id now is_dm batch).2 in
  Forall2 (λ m b, ∃ c, m = llm_tool_result (tc_id b.1.1) c ∧ says_result b.1.1 b.1.2 c) r.2 batch ∧
  tc_seq <$> r.1.2 = seqZ seq (Z.of_nat (length batch)) ∧
  Forall2 (λ rec b, tc_role rec = RoleTool ∧ tc_tool_id rec = Some (tc_id b.1.1) ∧ tc_tool_invocation_id rec = Some b.2) r.1.2 batch.
Proof.
  cbn. revert fs seq. induction batch as [|[[tc r] inv] batch IH]; intros fs seq.
  { split; [constructor|]. split; [done|constructor]. }
  cbn. unfold persist_one_tool_result. assert (Hraw : (raw_result json_to_string r).1 = result_said r) by (by destruct r).
  destruct (raw_result json_to_string r) as [raw ok]. cbn in Hraw. subst raw.
  destruct (truncate env fs (result_said r) policy (tc_id tc) spill_root) as [fs1 o] eqn:Eo.
  specialize (IH fs1 (seq + 1)%Z). destruct (process_tool_results _ _ _ _ _ _ _ _ _ _ _ batch) as [fs2 [[rows records] live]].
  cbn in *. destruct IH as [Hlive [Hseq Hall]]. split_and!.
  - constructor; [|done]. eexists. split; [done|]. exists fs. cbn. by rewrite Eo.
  - rewrite Hseq, (seqZ_cons seq) by lia. unfold Z.succ. do 2 f_equal. lia.
  - by constructor.
Qed.

(** * Records *)

(** A result's record answers an earlier record of its call. *)
Definition answered (records : list ToolCallRecord) (r : ToolCallRecord) : Prop :=
  ∃ c, c ∈ records ∧ tc_role c = RoleAssistant ∧ tc_tool_invocation_id c = tc_tool_invocation_id r ∧ tc_tool_id c = tc_tool_id r.

Record records_ok (records : list ToolCallRecord) (seq : Z) : Prop := {
  ro_seq : seq = Z.of_nat (length records);
  ro_numbered : tc_seq <$> records = seqZ 0 seq;
  ro_answered : ∀ l1 r l2, records = l1 ++ r :: l2 → tc_role r = RoleTool → answered l1 r;
}.

Lemma records_extend records seq more :
  records_ok records seq → tc_seq <$> more = seqZ seq (Z.of_nat (length more)) →
  (∀ r, r ∈ more → tc_role r = RoleTool → answered records r) → records_ok (records ++ more) (seq + Z.of_nat (length more)).
Proof.
  intros [Hs Hn Ha] Hm Hr. split.
  - rewrite length_app. lia.
  - rewrite fmap_app, Hn, Hm, seqZ_app by lia. do 2 f_equal; lia.
  - intros l1 r l2 E Ht. apply app_eq_inv in E as [(k & E1 & E2)|(k & E1 & E2)].
    + destruct k as [|x k]; cbn in E2.
      * rewrite app_nil_r in E1. subst l1. apply Hr; [|done]. rewrite <- E2. by left.
      * injection E2 as <- E2. by eapply Ha.
    + subst l1. destruct (Hr r) as (c & Hc & ?); [subst more; apply elem_of_app; right; by left|done|].
      exists c. split; [|done]. apply elem_of_app. by left.
Qed.

(** The records of a batch's calls. *)
Lemma call_records_ok seq now l :
  let more := imap (λ i (p : LlmToolCall * string), call_record (ag_identity self) (seq + Z.of_nat i) now p.2 p.1) l in
  tc_seq <$> more = seqZ seq (Z.of_nat (length more)) ∧ (∀ r, r ∈ more → tc_role r = RoleAssistant) ∧
  (∀ tc inv, (tc, inv) ∈ l → ∃ c, c ∈ more ∧ tc_role c = RoleAssistant ∧ tc_tool_invocation_id c = Some inv ∧ tc_tool_id c = Some (tc_id tc)).
Proof.
  cbn. rewrite length_imap. split_and!.
  - apply list_eq. intros i. rewrite list_lookup_fmap, list_lookup_imap. destruct (l !! i) as [p|] eqn:E; cbn.
    + symmetry. apply lookup_seqZ. apply lookup_lt_Some in E. lia.
    + symmetry. apply lookup_ge_None in E. apply lookup_seqZ_ge. lia.
  - intros r (i & p & -> & _)%elem_of_lookup_imap. done.
  - intros tc inv (i & Hi)%list_elem_of_lookup. eexists. split; [apply elem_of_lookup_imap; by exists i, (tc, inv)|done].
Qed.

(** Rows, records and messages of results, for calls that were recorded. *)
Lemma persist_ok t batch s :
  records_ok (lp_records s) (lp_seq s) →
  (∀ tc r inv, (tc, r, inv) ∈ batch → ∃ c, c ∈ lp_records s ∧ tc_role c = RoleAssistant ∧
     tc_tool_invocation_id c = Some (uuid_to_string inv) ∧ tc_tool_id c = Some (tc_id tc)) →
  let '(s', live) := persist t batch s in
  records_ok (lp_records s') (lp_seq s') ∧ lp_messages s' = lp_messages s ∧ lp_iterations s' = lp_iterations s ∧
  lp_nudges s' = lp_nudges s ∧
  Forall2 (λ m b, ∃ c, m = llm_tool_result (tc_id b.1.1) c ∧ says_result b.1.1 (result_text b.1.2) c) live batch.
Proof.
  intros Hok Hin. unfold persist_results.
  pose proof (process_results (cs_files (lp_calls s)) (lp_seq s) (tu_row_id t) (tu_row_now t)
    ((λ '(tc, r, inv), (tc, result_text r, uuid_to_string inv)) <$> batch)) as H. cbn in H.
  destruct (process_tool_results _ _ _ _ _ _ _ _ _ _ _ _) as [fs [[rows records] live]]. cbn in *.
  destruct H as [Hlive [Hseq Hall]]. rewrite length_fmap in *.
  assert (Hlen : length records = length batch) by (rewrite <- (length_fmap tc_seq), Hseq, length_seqZ; lia).
  split_and!; [|done|done|done|].
  - apply records_extend; [done|by rewrite Hlen|]. intros r (i & Hi)%list_elem_of_lookup Hr.
    destruct (Forall2_lookup_l _ _ _ _ _ Hall Hi) as (b & Hb & _ & Hid & Hinv).
    rewrite list_lookup_fmap in Hb. apply fmap_Some in Hb as ([[tc res] inv] & Hb & ->). cbn in *.
    destruct (Hin tc res inv) as (c & Hc & Hrole & Hi1 & Hi2); [by eapply list_elem_of_lookup_2|].
    exists c. by rewrite Hi1, Hi2, Hid, Hinv.
  - apply Forall2_fmap_r in Hlive. eapply Forall2_impl; [exact Hlive|]. by intros m [[tc r] inv].
Qed.

(** * A turn *)

(** A call of the batch has a record. *)
Definition recorded (records : list ToolCallRecord) (tc : LlmToolCall) (inv : Uuid) : Prop :=
  ∃ c, c ∈ records ∧ tc_role c = RoleAssistant ∧ tc_tool_invocation_id c = Some (uuid_to_string inv) ∧ tc_tool_id c = Some (tc_id tc).

Definition call_message (content : option string) (calls : list LlmToolCall) : LlmMessage :=
  {| role := "assistant"; content := content; reasoning_content := None; tool_calls := Some calls; tool_call_id := None |}.

Lemma record_calls_ok t content reasoning calls s :
  records_ok (lp_records s) (lp_seq s) →
  let s' := record_calls from_str self is_dm t content reasoning calls s in
  records_ok (lp_records s') (lp_seq s') ∧ lp_messages s' = lp_messages s ++ [call_message content calls] ∧
  lp_iterations s' = lp_iterations s ∧ lp_nudges s' = lp_nudges s ∧
  (∀ tc inv, (tc, inv) ∈ zip calls (fst <$> tu_ids t) → recorded (lp_records s') tc inv).
Proof.
  intros Hok s'. destruct (call_records_ok (lp_seq s) (tu_row_now t) (zip calls ((λ p, uuid_to_string (fst p)) <$> tu_ids t))) as (Hseq & Hrole & Hin).
  split_and!; [|done..|].
  - apply records_extend; [done|done|]. intros r Hr Ht. apply Hrole in Hr. congruence.
  - intros tc inv (k & Hk)%list_elem_of_lookup. apply lookup_zip_with_Some in Hk as (tc' & inv' & [= <- <-] & H1 & H2).
    rewrite list_lookup_fmap in H2. apply fmap_Some in H2 as (id & H2 & ->).
    destruct (Hin tc (uuid_to_string id.1)) as (c & Hc & ?).
    { apply list_elem_of_lookup. exists k. apply lookup_zip_with_Some. eexists _, _. split_and!; [done|done|]. by rewrite list_lookup_fmap, H2. }
    exists c. split; [|done]. apply elem_of_app. by right.
Qed.

(** The model's message with its calls, and behind it at the place of each call, under
    the id of this call, what it ended in. *)
Definition calls_answered (t : TurnScript) (content : option string) (calls : list LlmToolCall) (block : list LlmMessage) : Prop :=
  length block = S (length calls) ∧ block !! 0 = Some (call_message content calls) ∧
  ∀ i tc, calls !! i = Some tc → ∃ r c,
    ended_with from_str parse_error tool_contains tool_auto_approved self
      (conflicting_indices (detect_dm_conflict from_str calls dm_peer_name)) (tu_labels t) i tc r ∧
    says_result tc (result_text r) c ∧ block !! S i = Some (llm_tool_result (tc_id tc) c).

(** What a turn adds to the conversation for the answer of its model call: its calls
    with what each ended in, or the nudge for an answer that leaves the peer of a
    direct message without a reply. *)
Definition answered_block (t : TurnScript) (block : list LlmMessage) : Prop :=
  ∃ last a, (call_llm_with_cancellation (ag_has_sender self) (tu_llm t) last).2 = Ok a ∧
    match sc_tool_calls a with
    | Some calls => calls_answered t (sc_content a) calls block
    | None => is_dm = true ∧ dm_implicit_reply = true ∧ deliverable_dm_reply (default "" (sc_content a)) (sc_reasoning a) = None ∧
        block = [llm_user DM_EMPTY_REPLY_RETRY_MSG]
    end.

(** The facts of a turn that has counted its iteration, with what it may add. *)
Definition turn_ok (t : TurnScript) (adds : list LlmMessage → Prop) (s : LoopState)
    (o : LoopState * option (Result AgentLoopOutput AlmsError)) : Prop :=
  let '(s', r) := o in
  records_ok (lp_records s') (lp_seq s') ∧ lp_iterations s' = lp_iterations s ∧
  (r = None → ∃ block, adds block ∧ lp_messages s' = rebuild_system_prompt (prompt t) (lp_messages s ++ block)).

Lemma zip_results (calls : list LlmToolCall) ids results tc (r : Result json AlmsError) (inv : Uuid) :
  (tc, r, inv) ∈ zip (zip calls results) ids → (tc, inv) ∈ zip calls ids.
Proof.
  intros (k & Hk)%list_elem_of_lookup. apply lookup_zip_with_Some in Hk as ([tc' r'] & inv' & [= <- <- <-] & H1 & H2).
  apply lookup_zip_with_Some in H1 as (? & ? & [= <- <-] & H1 & _). apply list_elem_of_lookup. exists k.
  apply lookup_zip_with_Some. by eexists _, _.
Qed.

Lemma kept_calls calls ids kept tc r inv : (tc, r, inv) ∈ kept_batch calls ids kept → (tc, inv) ∈ zip calls (fst <$> ids).
Proof.
  unfold kept_batch. intros ([i r'] & _ & H)%list_elem_of_omap. apply bind_Some in H as (tc' & H1 & H). cbn in H1.
  apply bind_Some in H as ([inv' ap] & H2 & [= <- <- <-]). cbn in H2. apply list_elem_of_lookup. exists i.
  apply lookup_zip_with_Some. exists tc', inv'. split_and!; [done|done|]. by rewrite list_lookup_fmap, H2.
Qed.

(** Live messages of a batch whose calls all ended. *)
Lemma answers_in_place t content calls results live :
  length (tu_ids t) = length calls → length results = length calls →
  (∀ i c r, batch_calls calls (tu_ids t) !! i = Some c → results !! i = Some r →
     ended_with from_str parse_error tool_contains tool_auto_approved self
       (conflicting_indices (detect_dm_conflict from_str calls dm_peer_name)) (tu_labels t) i (bc_call c) r) →
  Forall2 (λ m b, ∃ c, m = llm_tool_result (tc_id b.1.1) c ∧ says_result b.1.1 (result_text b.1.2) c) live
    (zip (zip calls results) (fst <$> tu_ids t)) →
  calls_answered t content calls (call_message content calls :: live).
Proof.
  intros Hids Hres Hends Hlive. split_and!; [|done|].
  - apply Forall2_length in Hlive. cbn. rewrite Hlive, !length_zip_with, length_fmap. lia.
  - intros i tc Htc. pose proof (lookup_lt_Some _ _ _ Htc) as Hlt.
    destruct (lookup_lt_is_Some_2 results i) as [r Hr]; [lia|]. destruct (lookup_lt_is_Some_2 (tu_ids t) i) as [p Hp]; [lia|].
    assert (Hz : zip (zip calls results) (fst <$> tu_ids t) !! i = Some (tc, r, p.1)).
    { apply lookup_zip_with_Some. exists (tc, r), p.1. split_and!; [done| |by rewrite list_lookup_fmap, Hp].
      apply lookup_zip_with_Some. by exists tc, r. }
    destruct (Forall2_lookup_r _ _ _ _ _ Hlive Hz) as (m & Hm & c & -> & Hc). exists r, c. split_and!; [|done|done].
    eapply (Hends i {| bc_call := tc; bc_inv := p.1; bc_approval := p.2 |}); [|done].
    apply lookup_zip_with_Some. by exists tc, p.
Qed.

Lemma take_calls_ok t content reasoning calls s o :
  records_ok (lp_records s) (lp_seq s) → take t content reasoning calls s = Some o → turn_ok t (calls_answered t content calls) s o.
Proof.
  intros Hok. unfold take_calls. destruct (Nat.eqb_spec (length (tu_ids t)) (length calls)) as [Hids|]; [|done]. cbn [negb].
  destruct (record_calls_ok t content reasoning calls s Hok) as (Hok1 & Hm1 & Hi1 & _ & Hrec).
  set (s1 := record_calls from_str self is_dm t content reasoning calls s) in *.
  set (conflicting := conflicting_indices _). destruct (announce_frame t calls conflicting s1) as ([= Hm2 Hr2 Hq2] & Hi2 & _).
  set (s2 := announce_batch from_str tool_auto_approved self t calls conflicting s1) in *.
  intros H. apply bind_Some in H as ([c e] & Hrun & [= <-]).
  set (s3 := on_calls (λ _, c) s2). assert (Hok3 : records_ok (lp_records s3) (lp_seq s3)) by (cbn; by rewrite Hr2, Hq2).
  destruct e as [results|kept]; unfold turn_ok.
  - apply batch_results in Hrun as [Hrun Hends]. unfold batch_calls in Hrun. rewrite length_zip_with_l_eq in Hrun by done.
    unfold answer_calls. pose proof (persist_ok t (zip (zip calls results) (fst <$> tu_ids t)) s3 Hok3) as Hp.
    destruct (persist t _ s3) as [s4 live]. destruct Hp as (Hok4 & Hm4 & Hi4 & _ & Hlive).
    { intros tc r inv Hin. cbn. rewrite Hr2. by eapply Hrec, zip_results. }
    destruct (ran_ignore_message_successfully _); cbn.
    { split_and!; [done| |done]. by rewrite Hi4; cbn; rewrite Hi2. }
    split_and!; [done|rewrite Hi4; cbn; by rewrite Hi2|]. intros _. exists (call_message content calls :: live). split.
    + eapply answers_in_place; [done|done|exact Hends|exact Hlive].
    + rewrite Hm4. cbn [s3 on_calls lp_messages].
      replace (lp_messages s2) with (lp_messages s ++ [call_message content calls]) by (rewrite <- Hm1; by symmetry). by rewrite <- app_assoc.
  - pose proof (persist_ok t (kept_batch calls (tu_ids t) kept) s3 Hok3) as Hp.
    destruct (persist t _ s3) as [s4 live]. destruct Hp as (Hok4 & Hm4 & Hi4 & _ & _).
    { intros tc r inv Hin. cbn. rewrite Hr2. by eapply Hrec, kept_calls. }
    cbn. split_and!; [done|by rewrite Hi4; cbn; rewrite Hi2|done].
Qed.

Lemma send_frame e s : transcript (send self e s) = transcript s ∧ lp_iterations (send self e s) = lp_iterations s.
Proof. done. Qed.

Lemma take_text_ok t content reasoning s :
  records_ok (lp_records s) (lp_seq s) →
  turn_ok t (λ block, is_dm = true ∧ dm_implicit_reply = true ∧ deliverable_dm_reply (default "" content) reasoning = None ∧
    block = [llm_user DM_EMPTY_REPLY_RETRY_MSG]) s (take_text self is_dm dm_implicit_reply include_user dm_peer_name system_prompt tool_loop dm_addendum workspace_budget_bytes t content reasoning s).
Proof.
  intros Hok. unfold take_text. set (missing := is_dm && dm_implicit_reply && bool_decide (deliverable_dm_reply _ _ = None)). destruct missing eqn:Hmiss; [cbn; destruct (_ <? _)%Z|done].
  - split_and!; [done..|]. intros _. eexists. split; [|done].
    apply andb_true_iff in Hmiss as [[-> ->]%andb_true_iff Hd%bool_decide_eq_true]. by split_and!.
  - done.
Qed.

Lemma take_answer_ok t a s o :
  records_ok (lp_records s) (lp_seq s) →
  take_answer json_to_string from_str parse_error env policy spill_root tool_contains tool_auto_approved self is_dm dm_implicit_reply include_user
    dm_peer_name system_prompt tool_loop dm_addendum workspace_budget_bytes t a s = Some o →
  turn_ok t (λ block, match sc_tool_calls a with
    | Some calls => calls_answered t (sc_content a) calls block
    | None => is_dm = true ∧ dm_implicit_reply = true ∧ deliverable_dm_reply (default "" (sc_content a)) (sc_reasoning a) = None ∧
        block = [llm_user DM_EMPTY_REPLY_RETRY_MSG]
    end) s o.
Proof.
  intros Hok. unfold take_answer. set (s1 := count_usage _ _).
  assert (H1 : lp_records s1 = lp_records s ∧ lp_seq s1 = lp_seq s ∧ lp_messages s1 = lp_messages s ∧ lp_iterations s1 = lp_iterations s)
    by (unfold s1; by destruct (_ || _)). destruct H1 as (Hr & Hq & Hm & Hi).
  assert (Hlift : ∀ P, turn_ok t P s1 o → turn_ok t P s o) by (intros P; destruct o; unfold turn_ok; by rewrite Hm, Hi).
  assert (Hok1 : records_ok (lp_records s1) (lp_seq s1)) by (by rewrite Hr, Hq).
  destruct (sc_tool_calls a) as [calls|]; intros H; apply Hlift; [by eapply take_calls_ok|].
  injection H as <-. by apply take_text_ok.
Qed.

Lemma turn_spec t s s' r :
  records_ok (lp_records s) (lp_seq s) → turn t s = Some (s', r) →
  records_ok (lp_records s') (lp_seq s') ∧
  (r = None → lp_iterations s' = wrap32 (lp_iterations s + 1) ∧
    (lc_max_iterations cfg = 0 ∨ lc_max_iterations cfg < 0 ∨ lp_iterations s' <= lc_max_iterations cfg)%Z ∧
    ∃ block, answered_block t block ∧ lp_messages s' = rebuild_system_prompt (prompt t) (lp_messages s ++ block)).
Proof.
  intros Hok. unfold loop_turn. destruct (checkpoint_frame t s) as [[= Hm Hr Hq] _].
  destruct (checkpoint self cfg run_start base t s) as [s1 failed] eqn:Ec. cbn in *.
  assert (Hok1 : records_ok (lp_records s1) (lp_seq s1)) by (by rewrite Hr, Hq).
  destruct failed as [e|]; [by intros [= <- <-]|]. intros H. apply bind_Some in H as ([s2 r2] & Ha & H).
  destruct (ask_model_frame t s1 s2 r2 Ha) as ([= Hm2 Hr2 Hq2] & Hi2 & _).
  assert (Hok2 : records_ok (lp_records s2) (lp_seq s2)) by (by rewrite Hr2, Hq2).
  destruct r2 as [a|e]; [|by injection H as <- <-]. apply take_answer_ok in H; [|done]. destruct H as (Hok' & Hi' & Hb).
  split; [done|]. intros Hnone. rewrite Hi', Hi2.
  assert (Hit : lp_iterations s1 = wrap32 (lp_iterations s + 1) ∧ cap_error cfg run_start base t s1 = None).
  { unfold checkpoint in Ec. destruct (tu_fired t); (destruct (token_fired self _); [done|]); by injection Ec as <- Hcap. }
  destruct Hit as [-> Hcap]. split; [done|]. split.
  - unfold cap_error in Hcap. destruct (0 <? lc_max_iterations cfg)%Z eqn:Hp; [|apply Z.ltb_ge in Hp; lia].
    destruct (lc_max_iterations cfg <? lp_iterations s1)%Z eqn:Hq'; [done|]. apply Z.ltb_ge in Hq'. apply Z.ltb_lt in Hp.
    right. right. revert Hq'. unfold checkpoint in Ec. destruct (tu_fired t); (destruct (token_fired self _); [done|]); by injection Ec as <- _.
  - destruct (Hb Hnone) as (block & Hbl & ->). exists block. rewrite Hm2, Hm. split; [|done].
    destruct (ask_model_answer t s1 s2 _ Ha) as [last Hl]. by exists last, a.
Qed.

(** * A run *)

Definition same_but_prompt (a b : list LlmMessage) : Prop :=
  a = b ∨ ∃ p p' rest, role p = "system" ∧ role p' = "system" ∧ a = p :: rest ∧ b = p' :: rest.

(** What [loop_start] leaves: no records, an iteration count of zero. *)
Definition starts (s : LoopState) : Prop := lp_records s = [] ∧ lp_seq s = 0%Z ∧ lp_iterations s = 0%Z.

Lemma starts_ok s : starts s → records_ok (lp_records s) (lp_seq s).
Proof. intros (-> & -> & _). split; [done|done|]. intros l1 r l2 E. by destruct l1. Qed.

Lemma loop_start_starts messages calls : starts (loop_start base messages calls).
Proof. done. Qed.

Lemma rebuild_same p messages : same_but_prompt messages (rebuild_system_prompt p messages).
Proof.
  unfold rebuild_system_prompt. destruct messages as [|m rest]; [by left|]. destruct (String.eqb_spec (role m) "system") as [E|]; [|by left].
  right. by exists m, (llm_system p), rest.
Qed.

Lemma same_app a b c : same_but_prompt a b → same_but_prompt (a ++ c) (b ++ c).
Proof. intros [->|(p & p' & rest & Hp & Hp' & -> & ->)]; [by left|right]. by exists p, p', (rest ++ c). Qed.

Lemma same_trans a b c : same_but_prompt a b → same_but_prompt b c → same_but_prompt a c.
Proof.
  intros [->|(p & p' & rest & Hp & Hp' & -> & ->)]; [done|].
  intros [<-|(q & q' & rest' & Hq & Hq' & [= <- <-] & ->)]; right; [by exists p, p', rest|by exists p, q', rest].
Qed.

Lemma loop_spec turns s s' r :
  records_ok (lp_records s) (lp_seq s) → loop turns s = Some (s', r) →
  records_ok (lp_records s') (lp_seq s') ∧
  (r = None → ∃ blocks, Forall2 answered_block turns blocks ∧
    same_but_prompt (lp_messages s ++ concat blocks) (lp_messages s')).
Proof.
  revert s. induction turns as [|t turns IH]; intros s Hok H; cbn in H.
  - injection H as <- <-. split; [done|]. intros _. exists []. rewrite app_nil_r. by repeat split; left.
  - apply bind_Some in H as ([s1 r1] & H1 & H). destruct (turn_spec t s s1 r1 Hok H1) as [Hok1 Hnone].
    destruct r1 as [r1|]; [by injection H as <- <-|]. destruct (Hnone eq_refl) as (_ & _ & block & Hb & Hm).
    destruct (IH s1 Hok1 H) as [Hok' Hrest]. split; [done|]. intros Hr. destruct (Hrest Hr) as (blocks & Hbs & Hs).
    exists (block :: blocks). split; [by constructor|]. cbn [concat]. rewrite app_assoc.
    eapply same_trans; [|exact Hs]. rewrite Hm. apply same_app, rebuild_same.
Qed.

(** C8: no call is sent unanswered.  After any number of turns the conversation is
    the one the run started with, up to its system prompt, followed by one block per
    turn.  Where the model answered with calls the block is its message with them and
    at the place of each, under its id, the text of what this very call ended in: its
    conflict, its refusal, its denial, or what its tool answered, cut to the output
    policy.  Only where the model answered without calls and a direct message would
    get no reply is it the nudge instead. *)
Theorem conversation_answered turns messages calls s' :
  loop turns (loop_start base messages calls) = Some (s', None) →
  ∃ blocks, Forall2 answered_block turns blocks ∧ same_but_prompt (messages ++ concat blocks) (lp_messages s').
Proof. intros H. by eapply loop_spec in H as [_ H]; [apply H|apply starts_ok]. Qed.

(** The records of a run have no gap.  However a run ends, cancelled in the
    middle of a batch or failed, its tool call records are numbered from zero in their
    order, and every result answers an earlier record of its call, with its
    invocation and its provider id. *)
Theorem records_numbered turns messages calls s' r :
  loop turns (loop_start base messages calls) = Some (s', r) →
  tc_seq <$> lp_records s' = seqZ 0 (Z.of_nat (length (lp_records s'))) ∧
  ∀ l1 rec l2, lp_records s' = l1 ++ rec :: l2 → tc_role rec = RoleTool → answered l1 rec.
Proof. intros H. eapply loop_spec in H as [[Hq Hn Ha] _]; [|by apply starts_ok]. by rewrite Hq in Hn. Qed.

(** C18: a run ends.  With a cap on its iterations, no run goes on past one turn more
    than the cap, whatever the model answers and the tools do: the first turns up to
    there give the result. *)
Theorem run_ends turns messages calls s' r :
  (0 < lc_max_iterations cfg < 2 ^ 32 - 1)%Z → (lc_max_iterations cfg < Z.of_nat (length turns))%Z →
  loop turns (loop_start base messages calls) = Some (s', r) →
  is_Some r ∧ loop (firstn (S (Z.to_nat (lc_max_iterations cfg))) turns) (loop_start base messages calls) = Some (s', r).
Proof.
  intros Hmax. generalize (loop_start_starts messages calls). generalize (loop_start base messages calls).
  intros s (Hr & Hq & Hi) Hlen. replace (lc_max_iterations cfg) with (lc_max_iterations cfg - lp_iterations s)%Z in Hlen by lia.
  replace (Z.to_nat (lc_max_iterations cfg)) with (Z.to_nat (lc_max_iterations cfg - lp_iterations s)) by (f_equal; lia).
  assert (Hok : records_ok (lp_records s) (lp_seq s)) by (by apply starts_ok).
  assert (Hle : (0 <= lp_iterations s <= lc_max_iterations cfg)%Z) by lia. clear Hr Hq Hi.
  revert s Hlen Hok Hle. induction turns as [|t turns IH]; intros s Hlen Hok Hle H; cbn [length] in Hlen; [lia|].
  cbn in H. apply bind_Some in H as ([s1 r1] & H1 & H). cbn [firstn agent_loop]. rewrite H1. cbn.
  destruct (turn_spec t s s1 r1 Hok H1) as [Hok1 Hnone].
  destruct r1 as [r1|]; [by injection H as <- <-|]. destruct (Hnone eq_refl) as (Hi & Hcap & _).
  unfold wrap32 in Hi. rewrite Z.mod_small in Hi by lia.
  destruct (IH s1) as [Hs Hf]; [lia|done|lia|done|]. split; [done|].
  replace (Z.to_nat (lc_max_iterations cfg - lp_iterations s)) with (S (Z.to_nat (lc_max_iterations cfg - lp_iterations s1))) by lia.
  done.
Qed.

Lemma synthesize_fired s : cs_fired (synthesize_cancel_tool_ends self s) = cs_fired s.
Proof.
  unfold synthesize_cancel_tool_ends. generalize (map_to_list (cs_inflight s)). intros l.
  change (cs_fired s) with (cs_fired (put_inflight ∅ s)). generalize (put_inflight ∅ s). clear s.
  induction l as [|p l IH]; intros s; [done|]. cbn [foldl]. by rewrite IH, emit_fired.
Qed.

Lemma batch_denied calls conflicting ls stopped s s' e i l :
  run_batch calls conflicting ls stopped s = Some (s', e) → ag_has_token self = true → l ∈ ls → denies i l → cs_fired s' = true.
Proof.
  unfold run_tool_calls. intros H Ht Hl Hd. apply bind_Some in H as ([s1 stages] & Hrun & H).
  assert (Hf : cs_fired s1 = true) by (eapply (steps_denied _ _ _ _ _ _ _ _ _ _ _ _ (s1, stages)); eauto).
  destruct (forallb is_finished stages); [destruct stopped; [done|]; by injection H as <- _|].
  destruct (_ && _); [|done]. injection H as <- _. by rewrite synthesize_fired.
Qed.

Lemma persist_fired t batch s : cs_fired (lp_calls (persist t batch s).1) = cs_fired (lp_calls s).
Proof. unfold persist_results. by destruct (process_tool_results _ _ _ _ _ _ _ _ _ _ _ _) as [fs [[rows records] live]]. Qed.

Lemma fired_ends t turns s : token_fired self s = true →
  ∃ s', loop (t :: turns) s = Some (s', Some (Err CancelledError)) ∧ cs_events (lp_calls s') = cs_events (lp_calls s).
Proof.
  intros Hf. cbn. unfold loop_turn, checkpoint.
  assert (Hf' : token_fired self (if tu_fired t then on_calls (fire self false) s else s) = true).
  { destruct (tu_fired t); [|done]. unfold token_fired in *. cbn. apply andb_true_iff in Hf as [-> ->]. done. }
  rewrite Hf'. cbn. eexists. split; [done|]. by destruct (tu_fired t).
Qed.

(** C6: a denial is the end.  In the guarded posture and with a cancellation token,
    once an approval of a batch was answered with no or its asker is gone, no
    further call of the batch starts and the run is over: it is cancelled now, or by
    the next turn before the model is asked or anything is shown; only where the
    run's records show an [ignore_message] that was carried out does it end as done
    instead, with an empty response. *)
Theorem denial_ends_run t content reasoning calls s s' r ls1 l ls2 i :
  ag_posture self = Guarded → ag_has_token self = true → tu_labels t = ls1 ++ l :: ls2 → denies i l →
  take t content reasoning calls s = Some (s', r) →
  (∀ j now, StartCall j now ∉ ls2) ∧
  ((∃ out, r = Some (Ok out) ∧ lo_response out = "" ∧ ran_ignore_message_successfully (lp_records s') = true) ∨ r = Some (Err CancelledError) ∨
   (r = None ∧ ∀ t' turns, ∃ s'', loop (t' :: turns) s' = Some (s'', Some (Err CancelledError)) ∧
      cs_events (lp_calls s'') = cs_events (lp_calls s'))).
Proof.
  intros Hg Ht Hls Hd. unfold take_calls. destruct (negb _); [done|]. intros H. apply bind_Some in H as ([c e] & Hrun & [= H]).
  split.
  - intros j now. unfold run_tool_calls in Hrun. apply bind_Some in Hrun as (b & Hsteps & _). rewrite Hls in Hsteps.
    by eapply denied_starts_none.
  - assert (Hf : cs_fired c = true) by (eapply batch_denied; [exact Hrun|done| |exact Hd]; rewrite Hls; apply elem_of_app; right; by left).
    destruct e as [results|kept]; [|right; left; by injection H as _ <-].
    unfold answer_calls in H. set (s3 := on_calls _ _) in H. pose proof (persist_fired t (zip (zip calls results) (fst <$> tu_ids t)) s3) as Hp.
    destruct (persist t _ s3) as [s4 live]. destruct (ran_ignore_message_successfully _) eqn:Er; injection H as <- <-; [left; by eexists|].
    right. right. split; [done|]. intros t' turns. apply fired_ends. unfold token_fired. cbn in Hp |- *. by rewrite Ht, Hp.
Qed.
End loop.

(** * A run *)

Section demo.
Import SimpleUuid.

Definition demo_cfg : LoopConfig := {|
  lc_max_iterations := 1; lc_max_run_duration_secs := 0; lc_between_iterations_secs := 60; lc_tool_phase_ceiling_secs := 600;
  lc_stream_chunk_timeout_secs := 180 |}.

Definition demo_delta (index : nat) (id name : string) : ToolCallDelta :=
  {| td_index := index; td_id := Some id; td_function := Some {| fd_name := Some name; fd_arguments := Some "{}" |} |}.

(** The model calls two tools. *)
Definition demo_answer : LlmScript := {|
  lm_chunks := [(7, {| ch_choices := [{| dl_content := None; dl_reasoning_content := None;
                                        dl_tool_calls := Some [demo_delta 0 "a" "shell"; demo_delta 1 "b" "fs_write"] |}]; ch_usage := None |})]%Z;
  lm_end := StreamDone; lm_buffered := None |}.

Definition demo_turn (labels : list BatchLabel) (stopped : bool) : TurnScript := {|
  tu_fired := false; tu_elapsed_at := 0; tu_idle_at := 0; tu_llm := demo_answer; tu_answered_at := 8;
  tu_ids := [(MkUuid 1, MkUuid 11); (MkUuid 2, MkUuid 12)]; tu_row_id := "m"; tu_row_now := 9; tu_batch_at := 9;
  tu_labels := labels; tu_stopped := stopped; tu_prefix := None |}.

(** Both calls are approved and answered. *)
Definition demo_both : list BatchLabel :=
  [StartCall 0 5; Decision 0 6 (Some true); ToolAnswered 0 7 (Ok (JObj [])); StartCall 1 8; Decision 1 9 (Some true);
   ToolAnswered 1 10 (Err (ToolExecution "no such file"))].

(** The first is denied. *)
Definition demo_denial : BatchLabel := Decision 0 6 (Some false).

Abbreviation demo_loop := (agent_loop demo_json (λ _, Some (JObj [])) id demo_spill policy_disabled None (λ _, true) (λ _, false)
  demo_self demo_cfg 0 0 false false true None "You are Atlas." "Continue." id 0).
Abbreviation demo_take := (take_calls demo_json (λ _, Some (JObj [])) id demo_spill policy_disabled None (λ _, true) (λ _, false)
  demo_self false true None "You are Atlas." "Continue." id 0).

Definition demo_messages : list LlmMessage := [llm_system "You are Atlas."; llm_user "Clean up."].

Lemma conversation_answered_witness :
  match demo_loop [demo_turn demo_both false] (loop_start 0 demo_messages demo_state) with
  | Some (s', None) => ∃ blocks,
      Forall2 (answered_block demo_json (λ _, Some (JObj [])) id demo_spill policy_disabled None (λ _, true) (λ _, false) demo_self false false None)
        [demo_turn demo_both false] blocks ∧ same_but_prompt (demo_messages ++ concat blocks) (lp_messages s')
  | _ => False
  end.
Proof.
  destruct (demo_loop [demo_turn demo_both false] _) as [[s' [r|]]|] eqn:E; [by vm_compute in E| |by vm_compute in E].
  exact (conversation_answered _ _ _ _ _ _ _ _ demo_self demo_cfg 0 0 false false true None _ _ _ 0 [demo_turn demo_both false] demo_messages
    demo_state s' E).
Defined.

Lemma records_numbered_witness :
  match demo_loop [demo_turn demo_both false] (loop_start 0 demo_messages demo_state) with
  | Some (s', _) => tc_seq <$> lp_records s' = seqZ 0 (Z.of_nat (length (lp_records s'))) ∧
      ∀ l1 rec l2, lp_records s' = l1 ++ rec :: l2 → tc_role rec = RoleTool → answered l1 rec
  | None => False
  end.
Proof.
  destruct (demo_loop [demo_turn demo_both false] _) as [[s' r]|] eqn:E; [|by vm_compute in E].
  exact (records_numbered _ _ _ _ _ _ _ _ demo_self demo_cfg 0 0 false false true None _ _ _ 0 [demo_turn demo_both false] demo_messages
    demo_state s' r E).
Defined.

Lemma run_ends_witness :
  match demo_loop (replicate 5 (demo_turn demo_both false)) (loop_start 0 demo_messages demo_state) with
  | Some (s', r) => is_Some r ∧
      demo_loop (firstn 2 (replicate 5 (demo_turn demo_both false))) (loop_start 0 demo_messages demo_state) = Some (s', r)
  | None => False
  end.
Proof.
  destruct (demo_loop (replicate 5 _) _) as [[s' r]|] eqn:E; [|by vm_compute in E].
  refine (run_ends _ _ _ _ _ _ _ _ demo_self demo_cfg 0 0 false false true None _ _ _ 0 (replicate 5 (demo_turn demo_both false)) demo_messages
    demo_state s' r _ _ E); [split|]; reflexivity.
Defined.

Lemma denial_ends_run_witness :
  match demo_take (demo_turn [StartCall 0 5; demo_denial] true) None None (bc_call <$> demo_calls) (loop_start 0 demo_messages demo_state) with
  | Some (s', r) => (∀ j now, StartCall j now ∉ []) ∧
      ((∃ out, r = Some (Ok out) ∧ lo_response out = "" ∧ ran_ignore_message_successfully (lp_records s') = true) ∨ r = Some (Err CancelledError) ∨
       (r = None ∧ ∀ t' turns, ∃ s'', demo_loop (t' :: turns) s' = Some (s'', Some (Err CancelledError)) ∧
          cs_events (lp_calls s'') = cs_events (lp_calls s')))
  | None => False
  end.
Proof.
  destruct (demo_take _ None None _ _) as [[s' r]|] eqn:E; [|by vm_compute in E].
  refine (denial_ends_run _ _ _ _ _ _ _ _ demo_self demo_cfg 0 0 false false true None _ _ _ 0 (demo_turn [StartCall 0 5; demo_denial] true)
    None None _ _ s' r [StartCall 0 5] demo_denial [] 0 eq_refl eq_refl eq_refl _ E).
  exists 6%Z, (Some false). by split.
Defined.
End demo.
