(* ===== verification/AgentRun.v ===== *)
(** A run from its session to its record: [alms-runtime/src/agent/mod.rs] ([run],
    [run_on_session], [finish_run_with_workspace_budget]).

    The context is built, the loop runs, and the session is left with a reply, a
    cancellation marker or a failure marker.  Nobody else appends to the session
    meanwhile; the audit entries stay in the state of the calls. *)
From S2P Require Import Prelude Ident Json Run Session LlmTypes ContextHistory Episodic Truncate ContextBuild ToolResults Errors RuntimeTypes LlmCall ToolCalls AgentLoop.

(** The end of a run: the clock and the id of its last row, and whether the
    gateway was shutting down. *)
Record TailScript := { tl_id : string; tl_now : Z; tl_shutdown : bool }.

Section run.
Context `{U : UuidCrate} `{CH : ChronoCrate} {St : Type} `{DB : SqliteStore St}.
(** What [ContextBuild], [ToolCalls] and [AgentLoop] take from outside. *)
Context (json_to_string : json → string) (from_str : string → option json) (parse_error : string → string)
        (path_exists : string → bool) (config : ContextConfig) (workspace_root : option string)
        (summarizer : string) (fill : string → string) (complete : list LlmMessage → Completion) (completion_error : AlmsError)
        (format_time : Z → string) (load_summaries : nat → Result (list SessionSummary) AlmsError)
        (workspace_prefix : option (bool → nat → string))
        (env : SpillEnv) (policy : ToolOutputTruncatePolicy) (spill_root : option Path)
        (tool_contains tool_auto_approved : string → bool).
Context (agent_id : AgentId) (posture : Posture) (has_sender has_token unroutable dm_implicit_reply debug_mode : bool)
        (identity : RunIdentity) (cfg : LoopConfig) (system_prompt tool_loop : string) (dm_addendum : string → string).

Abbreviation SM := (SessionManager St).

Definition agent_name : option string := ri_agent_name identity.

Definition self_on (id : SessionId) : AgentSelf := {|
  ag_identity := identity; ag_session := id; ag_posture := posture; ag_has_sender := has_sender; ag_has_token := has_token;
  ag_unroutable := unroutable |}.

(** * The last row *)

Definition is_dm_context (context_id : string) : bool := starts_with context_id "dm:".

Definition cancellation_record (shutdown_fired : bool) (c : CallState) : string :=
  if shutdown_fired then RUN_INTERRUPTED_BY_SHUTDOWN
  else if cs_denied c then RUN_STOPPED_APPROVAL_UNROUTABLE
  else RUN_CANCELLED_BY_USER.

Definition marker_row (t : TailScript) (is_dm : bool) (text : string) : Message :=
  mk_row (tl_id t) (tl_now t) (if is_dm && bool_decide (is_Some agent_name) then User else Assistant) (Text text)
    (dm_marker_metadata identity is_dm).

(** Reasoning of an implicit reply; a failed append is ignored. *)
Definition trace_row (t : TailScript) (is_dm : bool) (out : AgentLoopOutput) : option Message :=
  if is_dm && dm_implicit_reply then
    match nonempty (lo_reasoning out) with
    | Some trace =>
        if String.eqb trace (lo_response out) then None
        else Some (mk_row (tl_id t) (tl_now t) User (Text "") (merge_reasoning_blocks (dm_reasoning_metadata identity is_dm) (Some trace)))
    | None => None
    end
  else None.

(** The reply; a failed append fails the run. *)
Definition reply_row (t : TailScript) (is_dm : bool) (records : list ToolCallRecord) (out : AgentLoopOutput) : option Message :=
  if (is_dm && dm_implicit_reply) || String.eqb (lo_response out) "" || (is_dm && negb (Nat.eqb (length records) 0)) then None
  else
    let base_meta := if is_dm then dm_reasoning_metadata identity is_dm else None in
    Some (mk_row (tl_id t) (tl_now t) (if is_dm && bool_decide (is_Some base_meta) then User else Assistant)
            (Text (lo_response out)) (merge_reasoning_blocks base_meta (lo_reasoning out))).

(** * The tail *)

Definition append_row (id : SessionId) (m : SM) (row : Message) : SM := (append_message (msg_timestamp row) id row m).2.

Definition close_run (t : TailScript) (id : SessionId) (is_dm : bool) (s : LoopState) (r : Result AgentLoopOutput AlmsError) (m : SM)
    : Result RunOutput AlmsError * SM :=
  match r with
  | Ok out =>
      let m := foldl (append_row id) m (option_list (trace_row t is_dm out)) in
      let '(appended, m) := match reply_row t is_dm (lp_records s) out with
                            | Some row => append_message (msg_timestamp row) id row m
                            | None => (Ok tt, m)
                            end in
      (match appended with
       | Ok _ => Ok {| ro_response := lo_response out; ro_usage := lo_usage out; ro_tool_calls := lp_records s;
                       ro_reasoning := lo_reasoning out |}
       | Err e => Err e
       end, m)
  | Err CancelledError =>
      (Err (CancelledWithToolCalls (lp_records s)), append_row id m (marker_row t is_dm (cancellation_record (tl_shutdown t) (lp_calls s))))
  | Err e =>
      (Err (FailedWithToolCalls e (lp_records s)),
       append_row id m (marker_row t is_dm ("[Run failed: " +:+ sanitize_error_for_session e +:+ "]")))
  end.

(** [None] for its result while the loop goes on. *)
Definition finish_run (run_start base : Z) (t : TailScript) (id : SessionId) (context_id : string) (history : Result BuiltContext AlmsError)
    (turns : list TurnScript) (c : CallState) (m : SM) : option (option (Result RunOutput AlmsError) * LoopState * SM) :=
  let is_dm := is_dm_context context_id in
  '(s, r) ← match history with
            | Err e => Some (loop_start base [] c, Some (Err e))
            | Ok h =>
                agent_loop json_to_string from_str parse_error env policy spill_root tool_contains tool_auto_approved (self_on id) cfg
                  run_start base is_dm dm_implicit_reply (is_user_facing_context context_id)
                  (request_peer agent_name dm_implicit_reply context_id) system_prompt tool_loop dm_addendum
                  (bc_workspace_budget_bytes h) turns
                  (loop_start base (bc_messages h) (if debug_mode then emit (self_on id) EvContextDebug c else c))
            end;
  let m := foldl (append_row id) m (lp_rows s) in
  match r with
  | None => Some (None, s, m)
  | Some r => let '(out, m) := close_run t id is_dm s r m in Some (Some out, s, m)
  end.

Definition build_context (now : Z) (id : SessionId) (context_id input : string) (m : SM) : BuiltContext * SM :=
  build_context_with_budget json_to_string path_exists config workspace_root summarizer fill agent_name complete completion_error
    system_prompt tool_loop dm_addendum dm_implicit_reply workspace_prefix format_time load_summaries now id context_id input m.

(** The input is stored after the context was built from the history without it. *)
Definition run (now : Z) (fresh : SessionId) (input_id : string) (run_start base : Z) (t : TailScript) (context_id input : string)
    (turns : list TurnScript) (c : CallState) (m : SM) : option (option (Result RunOutput AlmsError) * LoopState * SM) :=
  let '(session, m) := get_or_create now fresh agent_id context_id m in
  let id := sess_id session in
  let c := emit (self_on id) (EvStatus PHASE_BUILDING_CONTEXT None) c in
  let '(history, m) := build_context now id context_id input m in
  let user_msg := mk_row input_id now User (Text input) None in
  let '(appended, m) := append_message now id user_msg m in
  match appended with
  | Err e => Some (Some (Err e), loop_start base [] c, m)
  | Ok _ => finish_run run_start base t id context_id (Ok history) turns c m
  end.

(** The input of a shared session is already in its history. *)
Definition run_on_session (now : Z) (run_start base : Z) (t : TailScript) (id : SessionId) (context_id : string)
    (turns : list TurnScript) (c : CallState) (m : SM) : option (option (Result RunOutput AlmsError) * LoopState * SM) :=
  match session_get id m with
  | Err e => Some (Some (Err e), loop_start base [] c, m)
  | Ok _ =>
      let c := emit (self_on id) (EvStatus PHASE_BUILDING_CONTEXT None) c in
      let '(history, m) := build_context now id context_id "" m in
      finish_run run_start base t id context_id (Ok history) turns c m
  end.
End run.
