(* ===== verification/AgentRunProps.v ===== *)
(** What a run leaves behind: its rows in its session, and one of them saying how
    it ended. *)
From S2P Require MessageBus.
From S2P Require Import Prelude Ident Json Run Session LlmTypes ContextHistory Episodic Truncate ContextBuild ToolResults Errors RuntimeTypes LlmCall ToolCalls ToolCallProps AgentLoop AgentLoopProps AgentRun.

Section run.
Context `{U : UuidCrate} `{CH : ChronoCrate} {St : Type} `{DB : SqliteStore St}.

Abbreviation SM := (SessionManager St).

(** The history of one session grew, the others did not change. *)
Definition grew (id : SessionId) (rows : list Message) (m m' : SM) : Prop :=
  (∀ h, history m !! id = Some h → history m' !! id = Some (h ++ rows)) ∧ (∀ j, j ≠ id → history m' !! j = history m !! j).

Lemma grew_nil id m : grew id [] m m.
Proof. split; [|done]. intros h Hh. by rewrite app_nil_r. Qed.

Lemma grew_trans id a b m1 m2 m3 : grew id a m1 m2 → grew id b m2 m3 → grew id (a ++ b) m1 m3.
Proof.
  intros [H1 N1] [H2 N2]. split; [intros h Hh; by rewrite app_assoc, (H2 _ (H1 _ Hh))|]. intros j Hj. by rewrite N2, N1.
Qed.

Lemma append_grew now id row (m : SM) h : history m !! id = Some h →
  (append_message now id row m).1 = Ok tt ∧ grew id [row] m (append_message now id row m).2.
Proof.
  intros Hh. pose proof (MessageBus.append_message_history now id row m) as H. rewrite Hh in H.
  destruct (append_message now id row m) as [r m']. destruct H as (-> & H1 & H2). split; [done|]. split; [|done].
  intros h' Hh'. by simplify_eq.
Qed.

Lemma append_rows_grew id rows (m : SM) h : history m !! id = Some h → grew id rows m (foldl (append_row id) m rows).
Proof.
  revert m h. induction rows as [|row rows IH]; intros m h Hh; [apply grew_nil|]. cbn [foldl].
  destruct (append_grew (msg_timestamp row) id row m h Hh) as [_ Hg]. change (row :: rows) with ([row] ++ rows).
  eapply grew_trans; [exact Hg|]. eapply IH. by apply Hg.
Qed.

Context (json_to_string : json → string) (from_str : string → option json) (parse_error : string → string)
        (path_exists : string → bool) (config : ContextConfig) (workspace_root : option string)
        (summarizer : string) (fill : string → string) (complete : list LlmMessage → Completion) (completion_error : AlmsError)
        (format_time : Z → string) (load_summaries : nat → Result (list SessionSummary) AlmsError)
        (workspace_prefix : option (bool → nat → string))
        (env : SpillEnv) (policy : ToolOutputTruncatePolicy) (spill_root : option Path)
        (tool_contains tool_auto_approved : string → bool).
Context (agent_id : AgentId) (posture : Posture) (has_sender has_token unroutable dm_implicit_reply debug_mode : bool)
        (identity : RunIdentity) (cfg : LoopConfig) (system_prompt tool_loop : string) (dm_addendum : string → string).

Abbreviation finish := (finish_run json_to_string from_str parse_error env policy spill_root tool_contains tool_auto_approved posture
  has_sender has_token unroutable dm_implicit_reply debug_mode identity cfg system_prompt tool_loop dm_addendum).
Abbreviation start_run := (run json_to_string from_str parse_error path_exists config workspace_root summarizer fill complete completion_error
  format_time load_summaries workspace_prefix env policy spill_root tool_contains tool_auto_approved agent_id posture
  has_sender has_token unroutable dm_implicit_reply debug_mode identity cfg system_prompt tool_loop dm_addendum).
Abbreviation marker := (marker_row identity).

(** A marker: on the agent's side, or in a conversation with a peer on the side of
    the named agent, as every row there. *)
Definition says (t : TailScript) (is_dm : bool) (text : string) (row : Message) : Prop :=
  msg_id row = tl_id t ∧ msg_timestamp row = tl_now t ∧ msg_content row = Text text ∧
  msg_role row = (if is_dm && bool_decide (is_Some (ri_agent_name identity)) then User else Assistant) ∧
  msg_metadata row = dm_marker_metadata identity is_dm.

(** Why a cancelled run was cancelled. *)
Definition cancellation_cause (t : TailScript) (s : LoopState) (text : string) : Prop :=
  (tl_shutdown t = true ∧ text = "[Run interrupted by gateway shutdown]") ∨
  (tl_shutdown t = false ∧ cs_denied (lp_calls s) = true ∧ text = "[Run stopped: tool approval could not be requested]") ∨
  (tl_shutdown t = false ∧ cs_denied (lp_calls s) = false ∧ text = "[Run cancelled by user]").

(** The row of an answer.  A reply that is delivered to a peer is not stored here,
    only reasoning that is not the reply itself; a reply to a user is, unless it is
    empty; in a conversation with a peer it is not after tool calls, whose rows hold
    it. *)
Definition answer_row (is_dm : bool) (s : LoopState) (o : AgentLoopOutput) (last : list Message) : Prop :=
  let response := lo_response o in
  if is_dm && dm_implicit_reply then
    match lo_reasoning o with
    | Some trace => if bool_decide (trace = "" ∨ trace = response) then last = []
                    else ∃ row, last = [row] ∧ msg_role row = User ∧ msg_content row = Text "" ∧
                           msg_metadata row = merge_reasoning_blocks (dm_reasoning_metadata identity is_dm) (Some trace)
    | None => last = []
    end
  else if bool_decide (response = "" ∨ (is_dm = true ∧ lp_records s ≠ [])) then last = []
  else ∃ row, last = [row] ∧ msg_role row = (if is_dm then User else Assistant) ∧ msg_content row = Text response ∧
         msg_metadata row = merge_reasoning_blocks (dm_reasoning_metadata identity is_dm) (lo_reasoning o).

(** What the loop came to, the last row of the run, and what its caller is told. *)
Definition closed (t : TailScript) (is_dm : bool) (s : LoopState) (r : Result AgentLoopOutput AlmsError)
    (out : Result RunOutput AlmsError) (last : list Message) : Prop :=
  match r with
  | Ok o =>
      out = Ok {| ro_response := lo_response o; ro_usage := lo_usage o; ro_tool_calls := lp_records s; ro_reasoning := lo_reasoning o |} ∧
      answer_row is_dm s o last
  | Err CancelledError =>
      out = Err (CancelledWithToolCalls (lp_records s)) ∧ ∃ text row, cancellation_cause t s text ∧ last = [row] ∧ says t is_dm text row
  | Err e =>
      out = Err (FailedWithToolCalls e (lp_records s)) ∧
      ∃ row, last = [row] ∧ says t is_dm ("[Run failed: " +:+ sanitize_error_for_session e +:+ "]") row
  end.

Lemma marker_says t is_dm text : says t is_dm text (marker t is_dm text).
Proof. by split_and!. Qed.

Lemma cancellation_named t s : cancellation_cause t s (cancellation_record (tl_shutdown t) (lp_calls s)).
Proof. unfold cancellation_cause, cancellation_record. destruct (tl_shutdown t), (cs_denied _); auto. Qed.

Lemma trace_alone t is_dm s o : is_dm && dm_implicit_reply = true →
  answer_row is_dm s o (option_list (trace_row dm_implicit_reply identity t is_dm o)).
Proof.
  intros E. unfold answer_row, trace_row. rewrite E. destruct (lo_reasoning o) as [trace|]; [|done]. unfold nonempty.
  destruct (String.eqb_spec trace ""); [by rewrite bool_decide_true by (by left)|].
  destruct (String.eqb_spec trace (lo_response o)); [by rewrite bool_decide_true by (by right)|].
  rewrite bool_decide_false by (by intros [?|?]). by eexists.
Qed.

Lemma reply_alone t is_dm s o : is_dm && dm_implicit_reply = false →
  answer_row is_dm s o (option_list (reply_row dm_implicit_reply identity t is_dm (lp_records s) o)).
Proof.
  intros E. unfold answer_row, reply_row. rewrite E. cbn [orb]. destruct (String.eqb_spec (lo_response o) "") as [Hr|Hr]; cbn [orb].
  { by rewrite bool_decide_true by (by left). }
  destruct is_dm; cbn [andb].
  - destruct (lp_records s) as [|r l]; cbn [length Nat.eqb negb].
    + rewrite bool_decide_false by (intros [?|[_ ?]]; done). by eexists.
    + by rewrite bool_decide_true by (by right).
  - rewrite bool_decide_false by (intros [?|[? _]]; done). by eexists.
Qed.

Lemma close_run_closed t id is_dm s r (m : SM) h :
  history m !! id = Some h →
  let '(out, m') := close_run dm_implicit_reply identity t id is_dm s r m in
  ∃ last, closed t is_dm s r out last ∧ grew id last m m'.
Proof.
  intros Hh. unfold close_run. destruct r as [out|e].
  - pose proof (append_rows_grew id (option_list (trace_row dm_implicit_reply identity t is_dm out)) m h Hh) as Hg1.
    set (m1 := foldl (append_row id) m _) in *. pose proof (proj1 Hg1 _ Hh) as Hh1.
    destruct (is_dm && dm_implicit_reply) eqn:E.
    + assert (Er : reply_row dm_implicit_reply identity t is_dm (lp_records s) out = None) by (unfold reply_row; by rewrite E).
      rewrite Er. eexists. split; [|exact Hg1]. split; [done|by apply trace_alone].
    + assert (Et : trace_row dm_implicit_reply identity t is_dm out = None) by (unfold trace_row; by rewrite E).
      rewrite Et in Hg1. pose proof (reply_alone t is_dm s out E) as Ha.
      destruct (reply_row dm_implicit_reply identity t is_dm (lp_records s) out) as [row|] eqn:Er.
      * destruct (append_grew (msg_timestamp row) id row m1 _ Hh1) as [Hok Hg2].
        destruct (append_message (msg_timestamp row) id row m1) as [ok m2]. cbn in Hok. subst ok. eexists. split; [split; [done|exact Ha]|].
        change (option_list (Some row)) with ([] ++ [row]). by eapply grew_trans.
      * eexists. split; [split; [done|exact Ha]|exact Hg1].
  - assert (Hm : ∀ text, grew id [marker t is_dm text] m (append_row id m (marker t is_dm text))) by (intros text; by eapply append_grew).
    destruct e; try (eexists; split; [|apply Hm]; split; [done|]; eexists; split; [done|apply marker_says]).
    eexists. split; [|apply Hm]. split; [done|]. do 2 eexists. split; [apply cancellation_named|split; [done|apply marker_says]].
Qed.

(** How a run ended: its context could not be built, or what its loop came to. *)
Definition came_to (run_start base : Z) (id : SessionId) (context_id : string) (history0 : Result BuiltContext AlmsError)
    (turns : list TurnScript) (c : CallState) (s : LoopState) (r : Result AgentLoopOutput AlmsError) : Prop :=
  match history0 with
  | Err e => s = loop_start base [] c ∧ r = Err e
  | Ok h =>
      agent_loop json_to_string from_str parse_error env policy spill_root tool_contains tool_auto_approved
        (self_on posture has_sender has_token unroutable identity id) cfg run_start base (is_dm_context context_id) dm_implicit_reply
        (is_user_facing_context context_id) (request_peer (ri_agent_name identity) dm_implicit_reply context_id) system_prompt tool_loop dm_addendum
        (bc_workspace_budget_bytes h) turns
        (loop_start base (bc_messages h) (if debug_mode then emit (self_on posture has_sender has_token unroutable identity id) EvContextDebug c else c)) =
      Some (s, Some r)
  end.

Lemma finish_closed run_start base t id context_id history0 turns c (m m' : SM) s out h :
  history m !! id = Some h →
  finish run_start base t id context_id history0 turns c m = Some (Some out, s, m') →
  ∃ r last, came_to run_start base id context_id history0 turns c s r ∧ closed t (is_dm_context context_id) s r out last ∧
    grew id (lp_rows s ++ last) m m'.
Proof.
  intros Hh. unfold finish_run. intros H. apply bind_Some in H as ([s1 r] & Hl & H). destruct r as [r|]; [|done].
  pose proof (append_rows_grew id (lp_rows s1) m h Hh) as Hg. set (m1 := foldl (append_row id) m _) in *.
  pose proof (close_run_closed t id (is_dm_context context_id) s1 r m1 _ (proj1 Hg _ Hh)) as Hc.
  destruct (close_run _ _ _ _ _ _ _ m1) as [out1 m2]. injection H as <- <- <-. destruct Hc as (last & Hc & Hg').
  exists r, last. split_and!; [|done|by eapply grew_trans]. destruct history0; [exact Hl|by injection Hl as <- <-].
Qed.

(** C19: a run leaves one record of its end.  In a session that exists, a run
    appends the rows of its turns and after them at most one row, which the result of
    its loop decides.  Cancelled, it is one marker that says the gateway was shutting
    down, nobody could be asked for an approval, or the user cancelled, and its caller
    hears of a cancelled run; failed, for whatever cause, it is one marker with that
    error, and its caller gets the error; else it is the answer, unless there is none
    to keep, and its caller gets the answer.  The caller gets every tool call record
    in each case, and no other session changes. *)
Theorem run_leaves_one_record run_start base t id context_id history0 turns c (m m' : SM) s out h :
  history m !! id = Some h →
  finish run_start base t id context_id history0 turns c m = Some (Some out, s, m') →
  ∃ r last, came_to run_start base id context_id history0 turns c s r ∧ closed t (is_dm_context context_id) s r out last ∧
    grew id (lp_rows s ++ last) m m'.
Proof.
  apply finish_closed.
Qed.

(** A reply that cannot be stored: the session was deleted during the run.  The
    caller gets the bare error, without the records of the run's tool calls. *)
Lemma vanished_session_drops_records t id is_dm s out (m : SM) row :
  history m !! id = None → reply_row dm_implicit_reply identity t is_dm (lp_records s) out = Some row →
  trace_row dm_implicit_reply identity t is_dm out = None →
  close_run dm_implicit_reply identity t id is_dm s (Ok out) m = (not_found id, m).
Proof. intros Hh Hr Ht. unfold close_run. rewrite Ht, Hr. cbn. unfold append_message. by rewrite Hh. Qed.

(** Building the context may store a summary; it leaves every history alone. *)
Lemma update_summary_history id summary (m : SM) : history (update_summary id summary m).2 = history m.
Proof. unfold update_summary. destruct (summaries m !! id); [|done]. cbn. by destruct (persist_fields (save_summary id summary) m) as (_ & _ & -> & _). Qed.

Lemma maybe_summarize_history now id h current overhead (m : SM) :
  history (maybe_summarize json_to_string config summarizer fill (ri_agent_name identity) complete completion_error now id h current overhead m).2 = history m.
Proof.
  assert (Hs : ∀ sm, history (store_summary id sm m).2 = history m).
  { intros sm. unfold store_summary. pose proof (update_summary_history id sm m) as H. by destruct (update_summary id sm m). }
  unfold maybe_summarize. destruct (Nat.eqb _ 0); [done|]. destruct (plan_compaction _ _ _ _) as [|covered|sources covered]; [done|apply Hs|].
  destruct (complete _); try done; (destruct (usable_text _); [apply Hs|done]).
Qed.

Abbreviation build_ctx := (build_context json_to_string path_exists config workspace_root summarizer fill complete completion_error
  format_time load_summaries workspace_prefix dm_implicit_reply identity system_prompt tool_loop dm_addendum).

Lemma build_context_history now id context_id input (m : SM) : history (build_ctx now id context_id input m).2 = history m.
Proof.
  unfold build_context, build_context_with_budget, request_summary. destruct (is_compact_strategy config); [|done].
  set (h := match get_context_history id m with Ok h => h | Err _ => [] end).
  set (cur := match get_summary id m with Ok s => s | Err _ => summary_default end). set (o := reserved_tokens _ _ _).
  pose proof (maybe_summarize_history now id h cur o m) as H. unfold agent_name. by destruct (maybe_summarize json_to_string config summarizer fill (ri_agent_name identity) complete completion_error now id h cur o m).
Qed.

(** The input is stored once.  A run on its own session leaves there the input,
    once and after everything that was there, then its rows and the record of its end. *)
Theorem run_stores_input_once now fresh input_id run_start base t context_id input turns c (m m1 m' : SM) session s out h :
  get_or_create now fresh agent_id context_id m = (session, m1) → history m1 !! sess_id session = Some h →
  start_run now fresh input_id run_start base t context_id input turns c m = Some (Some out, s, m') →
  ∃ r last, closed t (is_dm_context context_id) s r out last ∧
    grew (sess_id session) (mk_row input_id now User (Text input) None :: lp_rows s ++ last) m1 m'.
Proof.
  intros Hs Hh. unfold run. rewrite Hs. set (id := sess_id session) in *.
  pose proof (build_context_history now id context_id input m1) as Hb.
  destruct (build_ctx now id context_id input m1) as [hist m2]. cbn in Hb.
  set (row := mk_row input_id now User (Text input) None). assert (Hh2 : history m2 !! id = Some h) by (by rewrite Hb).
  destruct (append_grew now id row m2 h Hh2) as [Hok Hg]. destruct (append_message now id row m2) as [ok m3]. cbn in Hok, Hg. subst ok.
  intros H. destruct (finish_closed _ _ _ _ _ _ _ _ _ _ _ _ _ (proj1 Hg _ Hh2) H) as (r & last & _ & Hc & Hg'). exists r, last. split; [done|].
  assert (Hg12 : grew id [row] m1 m3) by (destruct Hg as [G1 G2]; split; [intros h'; rewrite <- Hb; apply G1|intros j; rewrite <- Hb; apply G2]).
  change (row :: lp_rows s ++ last) with ([row] ++ lp_rows s ++ last). by eapply grew_trans.
Qed.
End run.

(** * A run in a session *)

Section demo.
Import SimpleUuid SimpleChrono NullStore.

Definition demo_session : SessionId := MkSessionId (MkUuid 5).
Definition demo_agent : AgentId := MkAgentId (MkUuid 1).
Definition demo_manager : SessionManager unit := (get_or_create 1 demo_session demo_agent "web" (session_manager_new session_config_default)).2.

(** The model answers with text. *)
Definition demo_reply : TurnScript := {|
  tu_fired := false; tu_elapsed_at := 0; tu_idle_at := 0;
  tu_llm := {| lm_chunks := [(7%Z, demo_text "Hello.")]; lm_end := StreamDone; lm_buffered := None |};
  tu_answered_at := 8; tu_ids := []; tu_row_id := "m"; tu_row_now := 9; tu_batch_at := 9; tu_labels := []; tu_stopped := false; tu_prefix := None |}.

Definition demo_tail : TailScript := {| tl_id := "end"; tl_now := 20; tl_shutdown := false |}.

Abbreviation demo_finish := (finish_run demo_json (λ _, Some (JObj [])) id demo_spill policy_disabled None (λ _, true) (λ _, false) Guarded
  true true false false false atlas demo_cfg "You are Atlas." "Continue." id).
Abbreviation demo_run := (run demo_json (λ _, Some (JObj [])) id no_files example_config None "summarise" id (λ _, CompletionFailed) (Runtime "no model")
  (λ _, "") (λ _, Ok []) None demo_spill policy_disabled None (λ _, true) (λ _, false) demo_agent Guarded
  true true false false false atlas demo_cfg "You are Atlas." "Continue." id).

(** The user says no to the first of two calls. *)
Definition demo_context : BuiltContext := {| bc_messages := demo_messages; bc_workspace_budget_bytes := 0 |}.
Definition demo_denied : TurnScript := demo_turn [StartCall 0 5; demo_denial] true.

Lemma run_leaves_one_record_witness :
  match demo_finish 0 0 demo_tail demo_session "web" (Ok demo_context) [demo_denied] demo_state demo_manager with
  | Some (Some out, s, m') => is_ok out = false ∧ ∃ r last,
      came_to demo_json (λ _, Some (JObj [])) id demo_spill policy_disabled None (λ _, true) (λ _, false) Guarded true true false false false atlas
        demo_cfg "You are Atlas." "Continue." id 0 0 demo_session "web" (Ok demo_context) [demo_denied] demo_state s r ∧
      closed false atlas demo_tail false s r out last ∧ grew demo_session (lp_rows s ++ last) demo_manager m'
  | _ => False
  end.
Proof.
  destruct (demo_finish _ _ _ _ _ _ _ _ demo_manager) as [[[[out|] s] m']|] eqn:E; [|by vm_compute in E..].
  split; [vm_compute in E; by injection E as <- _ _|].
  refine (run_leaves_one_record _ _ _ _ _ _ _ _ Guarded true true false false false atlas demo_cfg _ _ _ 0 0 demo_tail demo_session "web"
    (Ok demo_context) [demo_denied] demo_state demo_manager m' s out [] _ E). vm_compute. reflexivity.
Defined.

Lemma run_stores_input_once_witness :
  match demo_run 10 demo_session "in" 0 0 demo_tail "web" "Hi" [demo_reply] demo_state (session_manager_new session_config_default) with
  | Some (Some out, s, m') => ∃ r last, closed false atlas demo_tail false s r out last ∧
      grew demo_session (mk_row "in" 10 User (Text "Hi") None :: lp_rows s ++ last)
        (get_or_create 10 demo_session demo_agent "web" (session_manager_new session_config_default)).2 m'
  | _ => False
  end.
Proof.
  destruct (demo_run _ _ _ _ _ _ _ _ _ _ _) as [[[[out|] s] m']|] eqn:E; [|by vm_compute in E..].
  refine (run_stores_input_once _ _ _ _ _ _ _ _ _ _ _ _ _ _ _ _ _ _ demo_agent Guarded true true false false false atlas demo_cfg _ _ _ 10
    demo_session "in" 0 0 demo_tail "web" "Hi" [demo_reply] demo_state (session_manager_new session_config_default)
    (get_or_create 10 demo_session demo_agent "web" (session_manager_new session_config_default)).2 m'
    (get_or_create 10 demo_session demo_agent "web" (session_manager_new session_config_default)).1 s out [] _ _ E);
    vm_compute; reflexivity.
Defined.
End demo.
