(* ===== verification/Coordinator.v ===== *)
(** The coordinator of subagents: [alms-coordinator/src/lib.rs].

    An agent hands a task to a subagent with [invoke_agent]; the coordinator gives
    the subagent a session, keeps a handle for it while it runs and reports its end.
    This file has the data and the pieces [run_subagent] and its callers are made
    of; [Subagents.v] runs them as tasks.  The agent loop itself is a parameter:
    what it returns is a [LoopEnd].  The registrar of runs is the class
    [RunRegistrar]. *)
From S2P Require Import Prelude Ident Json Lifecycle Run Session MessageBus EventFeed RunManager TextEdit Notify RuntimeTypes.

(** * Data *)

(** [TaskId] is its UUID. *)
Abbreviation TaskId := Uuid.

Definition NOTIFICATION_SUMMARY_MAX_CHARS : nat := 800.

Record SubagentRequest := mkRequest {
  sq_task : string;
  sq_parent_session : SessionId;
  sq_parent_agent_id : AgentId;
  sq_parent_run_id : option RunId;
  sq_subagent_name : option string;
  sq_parent_tool_invocation_id : option Uuid;
}.

Record TaskResult := {
  tr_task_id : TaskId;
  tr_status : TaskStatus;
  tr_result : json;
  tr_tokens_used : option Z;
}.

Record SubagentActivity := {
  sa_kind : string;
  sa_tool : option string;
  sa_tool_invocation_id : option Uuid;
  sa_parent_tool_invocation_id : option Uuid;
}.

Record SubagentActivitySnapshot := {
  ss_label : string;
  ss_activity : SubagentActivity;
  ss_parent_run_id : option RunId;
}.

(** [h_parent_token] is the token of the parent's run of which [cancel_token] is a
    child, [h_token_fired] whether the child itself was fired; of the two
    receivers only whether they are still there. *)
Record SubagentHandle := mkHandle {
  h_task_id : TaskId;
  h_status : TaskStatus;
  h_parent_token : option Z;
  h_token_fired : bool;
  h_cancelled_directly : bool;
  h_parent_run_id : option RunId;
  h_parent_session_id : SessionId;
  h_parent_agent_id : AgentId;
  h_subagent_session_id : SessionId;
  h_is_background : bool;
  h_label : string;
  h_latest_activity : option SubagentActivity;
  h_result_rx : bool;
  h_completed_result : option TaskResult;
  h_error_rx : bool;
}.

#[export] Instance task_status_eq_dec : EqDecision TaskStatus.
Proof. solve_decision. Defined.

Inductive SubagentRunOutcome :=
| OutcomeCompleted (usage : TokenUsage)
| OutcomeFailed (error : string)
| OutcomeCancelled.

(** The calls on an [EventForwarder] ([alms-tools/src/event_forwarder.rs]). *)
Inductive Forwarded :=
| FwToolStart (invocation_id : Uuid) (tool : string) (params : json) (source_agent task_id : option string)
| FwToolEnd (invocation_id : Uuid) (ok : bool) (result : json) (source_agent task_id : option string)
| FwTokenDelta (delta : string) (source_agent : option string)
| FwReasoningDelta (text : string) (source_agent : option string)
| FwStreamReset
| FwStatus (phase : string) (detail : option string)
| FwWarning (code message : string) (source_agent : option string)
| FwSubagentActivity (kind : string) (tool : option string) (tool_invocation_id parent_tool_invocation_id : option Uuid) (source_agent : string)
| FwSubagentStarted (tool_invocation_id : Uuid) (subagent_name : option string) (subagent_session_id : SessionId) (is_background : bool)
| FwRunTerminal (outcome : SubagentRunOutcome).

(** [alms-core/src/run.rs]: where a subagent's run is registered and updated. *)
Class RunRegistrar (Reg : Type) := {
  register_run : Z → Run → Reg → Reg * Result unit AlmsError;
  update_registered : Z → Run → Reg → Reg * Result unit AlmsError;
  registered : Reg → gmap RunId Run;
}.

(** A new run is stored or nothing changes; a newer record replaces the one
    stored, or that one alone may be changed. *)
Class RunRegistrarLaws {Reg : Type} (R : RunRegistrar Reg) := {
  register_run_ok now run reg : registered reg !! run_id run = None →
    match register_run now run reg with
    | (reg', Ok _) => registered reg' = <[run_id run := run]> (registered reg)
    | (reg', Err _) => registered reg' = registered reg
    end;
  update_registered_ok now run cur reg : registered reg !! run_id run = Some cur →
    (run_lifecycle_revision cur < run_lifecycle_revision run)%Z →
    match update_registered now run reg with
    | (reg', Ok _) => registered reg' = <[run_id run := run]> (registered reg)
    | (reg', Err _) =>
        (∀ id, id ≠ run_id run → registered reg' !! id = registered reg !! id) ∧
        ∃ cur', registered reg' !! run_id run = Some cur' ∧ (cur' = cur ∨ run_status cur' = Failed)
    end;
}.

(** [RunManager] as the registrar ([alms-gateway/src/server/run_manager.rs]). *)
Section manager.
Context {St : Type} `{RunStore St}.

Definition manager_registrar (as_error : string → AlmsError) : RunRegistrar (RunManager St) := {|
  register_run now run m := match insert_run now run m with (m', Ok _) => (m', Ok tt) | (m', Err e) => (m', Err (as_error e)) end;
  update_registered now run m := match update_run now run m with (m', Ok _) => (m', Ok tt) | (m', Err e) => (m', Err (as_error e)) end;
  registered := rm_runs;
|}.
End manager.

(** * Names and identities *)

Definition is_live (s : TaskStatus) : bool := match s with TaskPending | TaskRunning => true | _ => false end.

Section coordinator.
Context `{U : UuidCrate} `{CH : ChronoCrate} {Ss : Type} `{DB : SqliteStore Ss}.

Abbreviation SM := (SessionManager Ss).

Definition subagent_label (task_id : TaskId) (subagent_name : option string) : string :=
  match subagent_name with Some n => n | None => "subagent-" +:+ str_take 8 (uuid_to_string task_id) end.

Definition canonicalize_subagent_name (request : SubagentRequest) (m : SM) : SubagentRequest :=
  match sq_subagent_name request with
  | None => request
  | Some name =>
      mkRequest (sq_task request) (sq_parent_session request) (sq_parent_agent_id request) (sq_parent_run_id request)
        (Some (canonical_subagent_name name m)) (sq_parent_tool_invocation_id request)
  end.

Definition derive_subagent_identity (fresh_agent : AgentId) (task_id : TaskId) (request : SubagentRequest) (m : SM) : AgentId * string :=
  match sq_subagent_name request with
  | Some name => named_subagent_key (sq_parent_agent_id request) name m
  | None => (fresh_agent, "subagent_" +:+ uuid_to_string (agent_uuid (sq_parent_agent_id request)) +:+ "_" +:+ uuid_to_string task_id)
  end.

Definition named_key (request : SubagentRequest) : option (AgentId * string) :=
  pair (sq_parent_agent_id request) <$> sq_subagent_name request.

Definition already_running (name : string) : AlmsError :=
  Runtime ("Named subagent '" +:+ name +:+ "' is already running for this parent agent — concurrent invocations of the same "
           +:+ "named subagent from the same parent are not supported").

Definition new_handle (task_id : TaskId) (request : SubagentRequest) (session : SessionId) (is_background : bool)
    (parent_token : option Z) : SubagentHandle := {|
  h_task_id := task_id; h_status := TaskPending; h_parent_token := parent_token; h_token_fired := false;
  h_cancelled_directly := false; h_parent_run_id := sq_parent_run_id request;
  h_parent_session_id := sq_parent_session request; h_parent_agent_id := sq_parent_agent_id request;
  h_subagent_session_id := session; h_is_background := is_background;
  h_label := subagent_label task_id (sq_subagent_name request); h_latest_activity := None; h_result_rx := true;
  h_completed_result := None; h_error_rx := true;
|}.

(** The event [spawn_subagent] puts on the parent's stream. *)
Definition started_event (has_parent_tx : bool) (request : SubagentRequest) (session : SessionId) (is_background : bool)
    : list Forwarded :=
  match has_parent_tx, sq_parent_tool_invocation_id request with
  | true, Some inv => [FwSubagentStarted inv (sq_subagent_name request) session is_background]
  | _, _ => []
  end.
End coordinator.

Definition resolve_subagent_posture (is_background : bool) (posture : Posture) : Posture :=
  if is_background && bool_decide (posture = Guarded) then Autonomous else posture.

(** * Handles *)

Definition set_h_status (s : TaskStatus) (h : SubagentHandle) : SubagentHandle :=
  mkHandle (h_task_id h) s (h_parent_token h) (h_token_fired h) (h_cancelled_directly h) (h_parent_run_id h)
    (h_parent_session_id h) (h_parent_agent_id h) (h_subagent_session_id h) (h_is_background h) (h_label h)
    (h_latest_activity h) (h_result_rx h) (h_completed_result h) (h_error_rx h).

Definition fire_handle (directly : bool) (h : SubagentHandle) : SubagentHandle :=
  mkHandle (h_task_id h) (h_status h) (h_parent_token h) true (h_cancelled_directly h || directly) (h_parent_run_id h)
    (h_parent_session_id h) (h_parent_agent_id h) (h_subagent_session_id h) (h_is_background h) (h_label h)
    (h_latest_activity h) (h_result_rx h) (h_completed_result h) (h_error_rx h).

Definition set_h_activity (a : SubagentActivity) (h : SubagentHandle) : SubagentHandle :=
  mkHandle (h_task_id h) (h_status h) (h_parent_token h) (h_token_fired h) (h_cancelled_directly h) (h_parent_run_id h)
    (h_parent_session_id h) (h_parent_agent_id h) (h_subagent_session_id h) (h_is_background h) (h_label h)
    (Some a) (h_result_rx h) (h_completed_result h) (h_error_rx h).

Definition take_receivers (error_too : bool) (h : SubagentHandle) : SubagentHandle :=
  mkHandle (h_task_id h) (h_status h) (h_parent_token h) (h_token_fired h) (h_cancelled_directly h) (h_parent_run_id h)
    (h_parent_session_id h) (h_parent_agent_id h) (h_subagent_session_id h) (h_is_background h) (h_label h)
    (h_latest_activity h) false (h_completed_result h) (h_error_rx h && negb error_too).

Definition finish_handle (r : TaskResult) (h : SubagentHandle) : SubagentHandle :=
  mkHandle (h_task_id h) (tr_status r) (h_parent_token h) (h_token_fired h) (h_cancelled_directly h) (h_parent_run_id h)
    (h_parent_session_id h) (h_parent_agent_id h) (h_subagent_session_id h) (h_is_background h) (h_label h)
    (h_latest_activity h) (h_result_rx h) (Some r) (h_error_rx h).

Abbreviation Handles := (gmap TaskId SubagentHandle).

(** [take_result_rx] and [take_error_rx] together, as [dispatch] calls them, or
    the first alone. *)
Definition take_rx (error_too : bool) (task_id : TaskId) (hs : Handles) : Handles := alter (take_receivers error_too) task_id hs.

(** The first live handle of the session, in the iteration order of the map. *)
Definition live_handle (session : SessionId) (hs : Handles) : option TaskId :=
  fst <$> List.find (λ kv, bool_decide (h_subagent_session_id kv.2 = session) && is_live (h_status kv.2)) (map_to_list hs).

Definition fire_subagent_cancel (session : SessionId) (directly : bool) (hs : Handles) : Handles * bool :=
  match live_handle session hs with
  | Some id => (alter (fire_handle directly) id hs, true)
  | None => (hs, false)
  end.

Definition cancel_subagent_by_session (session : SessionId) : Handles → Handles * bool := fire_subagent_cancel session true.
Definition stop_subagent_by_session (session : SessionId) : Handles → Handles * bool := fire_subagent_cancel session false.

Definition snapshot_of (h : SubagentHandle) : option SubagentActivitySnapshot :=
  (λ a, {| ss_label := h_label h; ss_activity := a; ss_parent_run_id := h_parent_run_id h |}) <$> h_latest_activity h.

Definition subagent_activity_snapshot (parent_session : SessionId) (hs : Handles) : list SubagentActivitySnapshot :=
  omap snapshot_of
    (filter (λ h, bool_decide (h_parent_session_id h = parent_session) && is_live (h_status h) = true) (map snd (map_to_list hs))).

(** * The end of a run *)

Definition subagent_error_status (e : AlmsError) : TaskStatus :=
  match e with CancelledError | CancelledWithToolCalls _ => TaskCancelled | _ => TaskFailed end.

(** What [run_agent_loop] and the token give the [select!].  The tokens of an
    output are added in 32 bits. *)
Inductive LoopEnd :=
| TokenFired
| LoopReturned (output : Result RunOutput AlmsError).

(** The five values of the [select!]. *)
Record Outcome := mkOutcome {
  oc_status : TaskStatus;
  oc_result : json;
  oc_tokens : option Z;
  oc_output : option RunOutput;
  oc_error : option AlmsError;
}.

Definition cancelled_outcome : Outcome :=
  mkOutcome TaskCancelled (JObj [("cancelled", JBool true)]) None None None.

Definition failed_outcome (e : AlmsError) : Outcome :=
  mkOutcome TaskFailed (JObj [("error", JStr (alms_error_to_string e))]) None None (Some e).

Definition outcome_of (e : LoopEnd) : Outcome :=
  match e with
  | TokenFired => cancelled_outcome
  | LoopReturned (Ok output) =>
      mkOutcome TaskCompleted (JObj [("response", JStr (ro_response output))])
        (Some ((prompt_tokens (ro_usage output) + completion_tokens (ro_usage output)) `mod` 2 ^ 32)%Z) (Some output) None
  | LoopReturned (Err e) =>
      if bool_decide (subagent_error_status e = TaskCancelled) then cancelled_outcome else failed_outcome e
  end.

Definition str_member (k : string) (j : json) : option string := json_get k j ≫= as_str.

Definition error_text (result : json) : string := default "unknown error" (str_member "error" result).

Definition truncated_text (text : string) : string :=
  let truncated := truncate_to_char_boundary text NOTIFICATION_SUMMARY_MAX_CHARS in
  if Nat.eqb (String.length truncated) (String.length text) then text else truncated +:+ "…[truncated]".

Definition truncate_for_notification (result : json) : string :=
  truncated_text (default "[no content]"
    (match str_member "response" result with Some s => Some s | None => str_member "error" result end)).

Section registrar.
Context {Reg : Type} `{RR : RunRegistrar Reg}.

Definition new_subagent_run (now : Z) (fresh : RunId) (session : SessionId) (agent : AgentId) (request : SubagentRequest) : Run :=
  (mark_running now
     match sq_parent_run_id request with
     | Some parent => for_subagent fresh now session agent (sq_task request) parent
     | None => run_new fresh now session agent (sq_task request)
     end).1.

Definition registration_error (e : AlmsError) : AlmsError :=
  Runtime ("Failed to persist subagent run registration: " +:+ alms_error_to_string e).

Definition update_message (e : AlmsError) : string :=
  "Failed to persist subagent lifecycle transition: " +:+ alms_error_to_string e.

(** The snapshot of the run with its end. *)
Definition ended_run (now : Z) (o : Outcome) (run : Run) : Run :=
  match oc_status o, oc_output o with
  | TaskCompleted, Some output => (mark_completed now run (ro_response output) (ro_usage output)).1
  | TaskFailed, _ => (mark_failed now run (error_text (oc_result o))).1
  | TaskCancelled, _ => (mark_cancelled now run).1
  | _, _ => run
  end.

(** Storing the end of the run; a failure to do so is the outcome then. *)
Definition commit_outcome (now : Z) (run : option Run) (o : Outcome) (reg : option Reg) : option Reg * Outcome :=
  match reg, run with
  | Some r, Some run =>
      match update_registered now (ended_run now o run) r with
      | (r', Ok _) => (Some r', o)
      | (r', Err e) =>
          (Some r', mkOutcome TaskFailed (JObj [("error", JStr (update_message e))]) (oc_tokens o) (oc_output o)
                      (Some (Runtime (update_message e))))
      end
  | _, _ => (reg, o)
  end.
End registrar.

Definition token_usage_zero : TokenUsage := {|
  prompt_tokens := 0; completion_tokens := 0; reasoning_tokens := None; cache_creation_input_tokens := None;
  cache_read_input_tokens := None |}.

(** What the subagent's own session is told at the end. *)
Definition terminal_outcome (o : Outcome) : SubagentRunOutcome :=
  match oc_status o with
  | TaskCompleted => OutcomeCompleted (match oc_output o with Some output => ro_usage output | None => token_usage_zero end)
  | TaskFailed => OutcomeFailed (error_text (oc_result o))
  | _ => OutcomeCancelled
  end.

Definition task_result (task_id : TaskId) (o : Outcome) : TaskResult :=
  {| tr_task_id := task_id; tr_status := oc_status o; tr_result := oc_result o; tr_tokens_used := oc_tokens o |}.

(** What is read of a background handle when its status flips. *)
Definition background_info (o : Outcome) (h : SubagentHandle) : option (SessionId * AgentId * SessionId * bool) :=
  if h_is_background h
  then Some (h_parent_session_id h, h_parent_agent_id h, h_subagent_session_id h,
             bool_decide (oc_status o = TaskCancelled) && h_cancelled_directly h)
  else None.

Definition completion_of (task_id : TaskId) (request : SubagentRequest) (elapsed_ms : Z) (o : Outcome)
    (info : SessionId * AgentId * SessionId * bool) : SubagentDone :=
  let '(parent_session, parent_agent, session, directly) := info in {|
  sc_task_id := task_id; sc_subagent_name := sq_subagent_name request; sc_status := oc_status o;
  sc_cancelled_directly := directly; sc_summary := truncate_for_notification (oc_result o);
  sc_parent_session_id := parent_session; sc_parent_agent_id := parent_agent; sc_subagent_session_id := session;
  sc_task_description := Some (truncated_text (sq_task request));
  sc_tool_count := (λ output, Z.of_nat (length (ro_tool_calls output)) `mod` 2 ^ 32)%Z <$> oc_output o;
  sc_duration_ms := Some elapsed_ms; sc_token_usage := ro_usage <$> oc_output o;
  sc_parent_tool_invocation_id := sq_parent_tool_invocation_id request;
|}.

(** The completion the guard sends when the task unwinds. *)
Definition panic_completion (task_id : TaskId) (request : SubagentRequest) (session : SessionId) : SubagentDone := {|
  sc_task_id := task_id; sc_subagent_name := sq_subagent_name request; sc_status := TaskFailed; sc_cancelled_directly := false;
  sc_summary := "subagent task panicked before emitting a completion"; sc_parent_session_id := sq_parent_session request;
  sc_parent_agent_id := sq_parent_agent_id request; sc_subagent_session_id := session;
  sc_task_description := Some (truncated_text (sq_task request)); sc_tool_count := None; sc_duration_ms := None;
  sc_token_usage := None; sc_parent_tool_invocation_id := sq_parent_tool_invocation_id request;
|}.

(** [dispatch] after the channels: [None] for a channel whose sender is gone. *)
Definition dispatch_answer (result : option TaskResult) (error : option AlmsError) : Result string AlmsError :=
  match result with
  | None => Err (Runtime "Subagent result channel closed unexpectedly")
  | Some r =>
      match tr_status r with
      | TaskCompleted => Ok (default "[no response]" (str_member "response" (tr_result r)))
      | TaskFailed =>
          match error with
          | Some typed => Err typed
          | None => Err (Runtime (default "subagent failed" (str_member "error" (tr_result r))))
          end
      | TaskCancelled => Err (Runtime "Subagent was cancelled")
      | _ => Err (Runtime "Subagent ended in unexpected state")
      end
  end.

(** * Relaying events *)

Definition REASONING : string := "reasoning".
Definition WRITING : string := "writing".
Definition TOOL_START : string := "tool_start".
Definition TOOL_END : string := "tool_end".

Definition forward_event_to_self (event : RuntimeEvent) : option Forwarded :=
  match event with
  | EvToolStart inv tool params _ _ => Some (FwToolStart inv tool params None None)
  | EvToolEnd inv ok result _ _ => Some (FwToolEnd inv ok result None None)
  | EvTokenDelta delta _ => Some (FwTokenDelta delta None)
  | EvReasoningDelta text _ => Some (FwReasoningDelta text None)
  | EvStatus phase detail => Some (FwStatus phase detail)
  | EvWarning code message _ => Some (FwWarning code message None)
  | EvStreamReset _ => Some FwStreamReset
  | _ => None
  end.

(** An activity is recorded on the handle and then emitted, two steps another
    task can come between. *)
Inductive RelayAction :=
| NoteActivity (a : SubagentActivity)
| Emit (f : Forwarded)
| Deny (approval_id : Uuid).

Definition activity_of (event : RuntimeEvent) : option (string * option string * option Uuid) :=
  match event with
  | EvToolStart inv tool _ _ _ => Some (TOOL_START, Some tool, Some inv)
  | EvToolEnd inv _ _ _ _ => Some (TOOL_END, None, Some inv)
  | EvReasoningDelta _ _ => Some (REASONING, None, None)
  | EvTokenDelta _ _ => Some (WRITING, None, None)
  | _ => None
  end.

Definition is_delta_kind (kind : string) : bool := String.eqb kind REASONING || String.eqb kind WRITING.

Definition emit_activity (label : string) (a : SubagentActivity) : RelayAction :=
  Emit (FwSubagentActivity (sa_kind a) (sa_tool a) (sa_tool_invocation_id a) (sa_parent_tool_invocation_id a) label).

Definition forward_status_to_parent (event : RuntimeEvent) (label : string) (parent_inv : option Uuid) (last : option string)
    : option string * list RelayAction :=
  match event with
  | EvWarning code message _ => (last, [Emit (FwWarning code message (Some label))])
  | _ =>
      match activity_of event with
      | None => (last, [])
      | Some (kind, tool, inv) =>
          if is_delta_kind kind && bool_decide (last = Some kind) then (last, [])
          else
            let a := {| sa_kind := kind; sa_tool := tool; sa_tool_invocation_id := inv; sa_parent_tool_invocation_id := parent_inv |} in
            (Some kind, [NoteActivity a; emit_activity label a])
      end
  end.

(** The parent's half of one turn of the relay. *)
Definition relay_to_parent (event : RuntimeEvent) (label : string) (parent_inv : option Uuid) (last : option string)
    : option string * list RelayAction :=
  match event with
  | EvApprovalRequired id _ _ _ => (last, [Deny id])
  | _ => forward_status_to_parent event label parent_inv last
  end.

Fixpoint relay_all (events : list RuntimeEvent) (label : string) (parent_inv : option Uuid) (last : option string) : list RelayAction :=
  match events with
  | [] => []
  | e :: events' =>
      let '(last', actions) := relay_to_parent e label parent_inv last in actions ++ relay_all events' label parent_inv last'
  end.
