(* ===== verification/Subagents.v ===== *)
(** Subagents as tasks: [alms-coordinator/src/lib.rs], interleaved.

    A [Coord] is the state the coordinator shares with the point each task has
    reached; a label is what one task does between two points where another can
    act.  A task may also panic before its end.  The receiver of the completion
    channel is not part of the state: it has every completion ever sent.  What
    other requests do to sessions and runs is the relation [world_step]. *)
From S2P Require Import Prelude Ident Json Lifecycle Run Session MessageBus EventFeed RunManager Notify RuntimeTypes Coordinator.

(** * Tasks *)

(** Where [run_subagent] is. *)
Inductive Stage :=
| Spawned
| Registering
| Looping (run : option Run)
| Concluded (run : option Run) (o : Outcome)
| Committed (o : Outcome)
| Flipped (o : Outcome) (info : option (SessionId * AgentId * SessionId * bool))
| Notified (o : Outcome)
| Released (o : Outcome)
| Retained.

Record Task := mkTask {
  sub_id : TaskId;
  sub_request : SubagentRequest;
  sub_agent : AgentId;
  sub_context : string;
  sub_session : SessionId;
  sub_background : bool;
  sub_stage : Stage;
}.

Definition at_stage (t : Task) (st : Stage) : Task :=
  mkTask (sub_id t) (sub_request t) (sub_agent t) (sub_context t) (sub_session t) (sub_background t) st.

(** A [spawn_subagent] that has passed the guard of the name. *)
Record Spawning := {
  sp_request : SubagentRequest;
  sp_background : bool;
  sp_parent_token : option Z;
  sp_parent_tx : bool;
}.

Record Coord (Ss Reg : Type) := mkCoord {
  co_subagents : Handles;
  co_active_named : gset (AgentId * string);
  co_sessions : SessionManager Ss;
  co_registrar : option Reg;
  (** The tokens of parent runs that were fired. *)
  co_fired : gset Z;
  (** [completion_tx.is_some()]. *)
  co_channel : bool;
  co_completions : list SubagentDone;
  (** What was sent to [dispatch]. *)
  co_results : gmap TaskId (option AlmsError * TaskResult);
  co_spawning : list Spawning;
  co_tasks : list Task;
}.
Arguments mkCoord {Ss Reg}.
Arguments co_subagents {Ss Reg}.
Arguments co_active_named {Ss Reg}.
Arguments co_sessions {Ss Reg}.
Arguments co_registrar {Ss Reg}.
Arguments co_fired {Ss Reg}.
Arguments co_channel {Ss Reg}.
Arguments co_completions {Ss Reg}.
Arguments co_results {Ss Reg}.
Arguments co_spawning {Ss Reg}.
Arguments co_tasks {Ss Reg}.

(** What happened, for the statements below. *)
Inductive SubOutput :=
| SpawnedTask (id : TaskId) (request : SubagentRequest) (session : SessionId) (background : bool) (events : list Forwarded)
| RefusedName (key : AgentId * string)
| EndedLoop (id : TaskId) (e : LoopEnd)
| EndedTask (id : TaskId) (o : Outcome)
| ToldSession (session : SessionId) (o : SubagentRunOutcome)
| CancelAccepted (id : TaskId) (directly : bool)
| CancelRefused (session : SessionId)
| Panicked (id : TaskId).

Inductive SubLabel :=
| SReserve (request : SubagentRequest) (background : bool) (parent_token : option Z) (parent_tx : bool)
| SSpawn (i : nat) (now : Z) (fresh_task : TaskId) (fresh_agent : AgentId) (fresh_session : SessionId)
| SStart (i : nat)
| SRegister (i : nat) (now : Z) (fresh_run : RunId)
| SLoop (i : nat) (e : LoopEnd)
| SActivity (id : TaskId) (a : SubagentActivity)
| SCommit (i : nat) (now : Z)
| SFlip (i : nat)
| SNotify (i : nat) (elapsed_ms : Z)
| SRelease (i : nat)
| SDeliver (i : nat)
| SRemove (i : nat)
| SPanic (i : nat)
| SStopParent (token : Z)
| SCancel (session : SessionId) (directly : bool).

Section engine.
Context `{U : UuidCrate} `{CH : ChronoCrate} {Ss Reg : Type} `{DB : SqliteStore Ss} `{RR : RunRegistrar Reg}.

Abbreviation Co := (Coord Ss Reg).
Implicit Types (c : Co).

Definition put_handles (hs : Handles) c : Co :=
  mkCoord hs (co_active_named c) (co_sessions c) (co_registrar c) (co_fired c) (co_channel c) (co_completions c) (co_results c)
    (co_spawning c) (co_tasks c).
Definition put_names (ns : gset (AgentId * string)) c : Co :=
  mkCoord (co_subagents c) ns (co_sessions c) (co_registrar c) (co_fired c) (co_channel c) (co_completions c) (co_results c)
    (co_spawning c) (co_tasks c).
Definition put_world (m : SessionManager Ss) (r : option Reg) c : Co :=
  mkCoord (co_subagents c) (co_active_named c) m r (co_fired c) (co_channel c) (co_completions c) (co_results c)
    (co_spawning c) (co_tasks c).
Definition put_fired (f : gset Z) c : Co :=
  mkCoord (co_subagents c) (co_active_named c) (co_sessions c) (co_registrar c) f (co_channel c) (co_completions c) (co_results c)
    (co_spawning c) (co_tasks c).
Definition put_completions (ds : list SubagentDone) c : Co :=
  mkCoord (co_subagents c) (co_active_named c) (co_sessions c) (co_registrar c) (co_fired c) (co_channel c) ds (co_results c)
    (co_spawning c) (co_tasks c).
Definition put_results (rs : gmap TaskId (option AlmsError * TaskResult)) c : Co :=
  mkCoord (co_subagents c) (co_active_named c) (co_sessions c) (co_registrar c) (co_fired c) (co_channel c) (co_completions c) rs
    (co_spawning c) (co_tasks c).
Definition put_spawning (sp : list Spawning) c : Co :=
  mkCoord (co_subagents c) (co_active_named c) (co_sessions c) (co_registrar c) (co_fired c) (co_channel c) (co_completions c)
    (co_results c) sp (co_tasks c).
Definition put_tasks (ts : list Task) c : Co :=
  mkCoord (co_subagents c) (co_active_named c) (co_sessions c) (co_registrar c) (co_fired c) (co_channel c) (co_completions c)
    (co_results c) (co_spawning c) ts.

Definition move (i : nat) (t : Task) (st : Stage) c : Co := put_tasks (<[i := at_stage t st]> (co_tasks c)) c.

(** ** [spawn_subagent] *)

(** Up to the guard of the name. *)
Definition reserve_step (request : SubagentRequest) (background : bool) (parent_token : option Z) (parent_tx : bool) c
    : Co * list SubOutput :=
  let request := canonicalize_subagent_name request (co_sessions c) in
  let sp := {| sp_request := request; sp_background := background; sp_parent_token := parent_token; sp_parent_tx := parent_tx |} in
  match named_key request with
  | None => (put_spawning (co_spawning c ++ [sp]) c, [])
  | Some key =>
      if bool_decide (key ∈ co_active_named c) then (c, [RefusedName key])
      else (put_spawning (co_spawning c ++ [sp]) (put_names ({[key]} ∪ co_active_named c) c), [])
  end.

(** The rest: identity, session, handle and task.  A caller that waits for the
    result takes both receivers at once, one that does not drops the first. *)
Definition spawn_step (i : nat) (now : Z) (task_id : TaskId) (fresh_agent : AgentId) (fresh_session : SessionId) c
    : option (Co * list SubOutput) :=
  sp ← co_spawning c !! i;
  let request := sp_request sp in
  let '(agent, context) := derive_subagent_identity fresh_agent task_id request (co_sessions c) in
  let '(session, m) := get_or_create now fresh_session agent context (co_sessions c) in
  let handle := take_receivers (negb (sp_background sp))
                  (new_handle task_id request (sess_id session) (sp_background sp) (sp_parent_token sp)) in
  let task := mkTask task_id request agent context (sess_id session) (sp_background sp) Spawned in
  Some (put_tasks (co_tasks c ++ [task]) (put_spawning (delete i (co_spawning c))
          (put_handles (<[task_id := handle]> (co_subagents c)) (put_world m (co_registrar c) c))),
        [SpawnedTask task_id request (sess_id session) (sp_background sp)
           (started_event (sp_parent_tx sp) request (sess_id session) (sp_background sp))]).

(** ** [run_subagent] *)

Definition start_step (i : nat) c : option Co :=
  t ← co_tasks c !! i;
  match sub_stage t with
  | Spawned => Some (move i t Registering (put_handles (alter (set_h_status TaskRunning) (sub_id t) (co_subagents c)) c))
  | _ => None
  end.

Definition register_step (i : nat) (now : Z) (fresh : RunId) c : option Co :=
  t ← co_tasks c !! i;
  match sub_stage t with
  | Registering =>
      Some match co_registrar c with
      | None => move i t (Looping None) c
      | Some reg =>
          let run := new_subagent_run now fresh (sub_session t) (sub_agent t) (sub_request t) in
          match register_run now run reg with
          | (reg', Ok _) => move i t (Looping (Some run)) (put_world (co_sessions c) (Some reg') c)
          | (reg', Err e) =>
              move i t (Concluded None (failed_outcome (registration_error e))) (put_world (co_sessions c) (Some reg') c)
          end
      end
  | _ => None
  end.

(** The child's token is fired, or its parent's. *)
Definition token_fired (id : TaskId) c : bool :=
  match co_subagents c !! id with
  | Some h => h_token_fired h || match h_parent_token h with Some p => bool_decide (p ∈ co_fired c) | None => false end
  | None => false
  end.

Definition loop_step (i : nat) (e : LoopEnd) c : option (Co * list SubOutput) :=
  t ← co_tasks c !! i;
  match sub_stage t with
  | Looping run =>
      if match e with TokenFired => token_fired (sub_id t) c | LoopReturned _ => true end
      then Some (move i t (Concluded run (outcome_of e)) c, [EndedLoop (sub_id t) e])
      else None
  | _ => None
  end.

Definition activity_step (id : TaskId) (a : SubagentActivity) c : Co :=
  put_handles (alter (set_h_activity a) id (co_subagents c)) c.

(** The token is fired for whoever still waits on it, the end of the run is
    stored and the subagent's own session is told. *)
Definition commit_step (i : nat) (now : Z) c : option (Co * list SubOutput) :=
  t ← co_tasks c !! i;
  match sub_stage t with
  | Concluded run o =>
      let '(reg, o) := commit_outcome now run o (co_registrar c) in
      Some (move i t (Committed o)
              (put_handles (alter (fire_handle false) (sub_id t) (co_subagents c)) (put_world (co_sessions c) reg c)),
            [EndedTask (sub_id t) o; ToldSession (sub_session t) (terminal_outcome o)])
  | _ => None
  end.

Definition flip_step (i : nat) c : option Co :=
  t ← co_tasks c !! i;
  match sub_stage t with
  | Committed o =>
      Some (move i t (Flipped o (co_subagents c !! sub_id t ≫= background_info o))
              (put_handles (alter (finish_handle (task_result (sub_id t) o)) (sub_id t) (co_subagents c)) c))
  | _ => None
  end.

Definition notify_step (i : nat) (elapsed_ms : Z) c : option Co :=
  t ← co_tasks c !! i;
  match sub_stage t with
  | Flipped o info =>
      Some (move i t (Notified o)
              match info with
              | Some info =>
                  if co_channel c
                  then put_completions (co_completions c ++ [completion_of (sub_id t) (sub_request t) elapsed_ms o info]) c
                  else c
              | None => c
              end)
  | _ => None
  end.

(** [NamedSubagentGuard::drop]. *)
Definition drop_named_guard (request : SubagentRequest) (names : gset (AgentId * string)) : gset (AgentId * string) :=
  match named_key request with Some key => names ∖ {[key]} | None => names end.

Definition release_step (i : nat) c : option Co :=
  t ← co_tasks c !! i;
  match sub_stage t with
  | Notified o => Some (move i t (Released o) (put_names (drop_named_guard (sub_request t) (co_active_named c)) c))
  | _ => None
  end.

(** [dispatch_background] has dropped the receiver of the result. *)
Definition deliver_step (i : nat) c : option Co :=
  t ← co_tasks c !! i;
  match sub_stage t with
  | Released o =>
      Some (move i t Retained
              (if sub_background t then c
               else put_results (<[sub_id t := (oc_error o, task_result (sub_id t) o)]> (co_results c)) c))
  | _ => None
  end.

Definition remove_step (i : nat) c : option Co :=
  t ← co_tasks c !! i;
  match sub_stage t with
  | Retained => Some (put_tasks (delete i (co_tasks c)) (put_handles (delete (sub_id t) (co_subagents c)) c))
  | _ => None
  end.

(** Before the completion guard is disarmed, after both guards exist. *)
Definition may_panic (st : Stage) : bool :=
  match st with Registering | Looping _ | Concluded _ _ | Committed _ | Flipped _ _ => true | _ => false end.

(** The task unwinds: the completion guard sends, then the name is released. *)
Definition panic_step (i : nat) c : option (Co * list SubOutput) :=
  t ← co_tasks c !! i;
  if may_panic (sub_stage t) then
    let c1 := if sub_background t && co_channel c
              then put_completions (co_completions c ++ [panic_completion (sub_id t) (sub_request t) (sub_session t)]) c else c in
    Some (put_tasks (delete i (co_tasks c)) (put_names (drop_named_guard (sub_request t) (co_active_named c1)) c1),
          [Panicked (sub_id t)])
  else None.

(** ** Cancelling *)

Definition cancel_step (session : SessionId) (directly : bool) c : Co * list SubOutput :=
  match live_handle session (co_subagents c) with
  | Some id => (put_handles (fire_subagent_cancel session directly (co_subagents c)).1 c, [CancelAccepted id directly])
  | None => (c, [CancelRefused session])
  end.

(** ** Steps *)

Definition silent (o : option Co) : option (Co * list SubOutput) := (λ c, (c, [])) <$> o.

Definition sub_step (l : SubLabel) c : option (Co * list SubOutput) :=
  match l with
  | SReserve request background token tx => Some (reserve_step request background token tx c)
  | SSpawn i now task agent session => spawn_step i now task agent session c
  | SStart i => silent (start_step i c)
  | SRegister i now fresh => silent (register_step i now fresh c)
  | SLoop i e => loop_step i e c
  | SActivity id a => Some (activity_step id a c, [])
  | SCommit i now => commit_step i now c
  | SFlip i => silent (flip_step i c)
  | SNotify i ms => silent (notify_step i ms c)
  | SRelease i => silent (release_step i c)
  | SDeliver i => silent (deliver_step i c)
  | SRemove i => silent (remove_step i c)
  | SPanic i => panic_step i c
  | SStopParent token => Some (put_fired ({[token]} ∪ co_fired c) c, [])
  | SCancel session directly => Some (cancel_step session directly c)
  end.

Fixpoint sub_run (ls : list SubLabel) c : option (Co * list SubOutput) :=
  match ls with
  | [] => Some (c, [])
  | l :: ls' =>
      match sub_step l c with
      | Some (c1, out1) => match sub_run ls' c1 with Some (c2, out2) => Some (c2, out1 ++ out2) | None => None end
      | None => None
      end
  end.

(** [Coordinator::new] with its builders. *)
Definition coordinator_new (m : SessionManager Ss) (r : option Reg) (channel : bool) : Co :=
  mkCoord ∅ ∅ m r ∅ channel [] ∅ [] [].
End engine.

(** Every way a step can go. *)
Ltac sub_cases H :=
  cbn [sub_step] in H;
  unfold silent, reserve_step, spawn_step, start_step, register_step, loop_step, commit_step, flip_step, notify_step,
    release_step, deliver_step, remove_step, panic_step, cancel_step, mbind, option_bind, fmap, option_fmap, option_map in H;
  repeat case_match; simplify_eq.
