(* ===== verification/SubagentSafety.v ===== *)
(** What holds in every interleaving of the tasks of [Subagents.v].

    [coord_ok] relates the handles, the guard of the names and the completion
    channel to the tasks and to what happened; [sub_reachable] adds to the steps of
    the tasks what other requests do to sessions and runs. *)
From S2P Require Import Prelude Ident Json Lifecycle Run Session MessageBus EventFeed RunManager Notify RuntimeTypes Coordinator Subagents.

(** * What happened *)

Definition before_notify (st : Stage) : bool := match st with Notified _ | Released _ | Retained => false | _ => true end.
Definition holds_name (st : Stage) : bool := match st with Released _ | Retained => false | _ => true end.

Definition spawned_of (o : SubOutput) : option (TaskId * (SubagentRequest * SessionId * bool)) :=
  match o with SpawnedTask id request session background _ => Some (id, (request, session, background)) | _ => None end.

(** Request, session and mode of a task that was ever spawned. *)
Definition spawned_as (id : TaskId) (outs : list SubOutput) : option (SubagentRequest * SessionId * bool) :=
  snd <$> List.find (λ kv, bool_decide (kv.1 = id)) (omap spawned_of outs).

(** The operator's own cancel of the subagent was accepted. *)
Definition direct_in (id : TaskId) (outs : list SubOutput) : bool :=
  existsb (λ o, match o with CancelAccepted i true => bool_decide (i = id) | _ => false end) outs.

Definition panicked_in (id : TaskId) (outs : list SubOutput) : bool :=
  existsb (λ o, match o with Panicked i => bool_decide (i = id) | _ => false end) outs.

Definition quiet_output (o : SubOutput) : bool :=
  match o with SpawnedTask _ _ _ _ _ | Panicked _ => false | CancelAccepted _ directly => negb directly | _ => true end.

Lemma spawned_as_app id outs new :
  spawned_as id (outs ++ new) = match spawned_as id outs with Some x => Some x | None => spawned_as id new end.
Proof.
  unfold spawned_as. rewrite omap_app. induction (omap spawned_of outs) as [|[i x] l IH]; [done|].
  cbn. by destruct (bool_decide (i = id)).
Qed.

Lemma direct_in_app id outs new : direct_in id (outs ++ new) = direct_in id outs || direct_in id new.
Proof. apply existsb_app. Qed.

Lemma panicked_in_app id outs new : panicked_in id (outs ++ new) = panicked_in id outs || panicked_in id new.
Proof. apply existsb_app. Qed.

Lemma quiet_says new : forallb quiet_output new = true →
  ∀ id, spawned_as id new = None ∧ direct_in id new = false ∧ panicked_in id new = false.
Proof.
  intros H id. induction new as [|o new IH]; [done|]. simpl in H. apply andb_true_iff in H as [Ho H]. destruct (IH H) as (H1 & H2 & H3).
  unfold spawned_as, direct_in, panicked_in in *. cbn. rewrite H2, H3. by destruct o; try destruct directly.
Qed.

(** * Invariant *)

Section invariant.
Context `{U : UuidCrate} `{CH : ChronoCrate} {Ss Reg : Type} `{DB : SqliteStore Ss} `{RR : RunRegistrar Reg}.

Abbreviation Co := (Coord Ss Reg).
Implicit Types (c : Co).

Definition working (id : TaskId) c : bool :=
  existsb (λ t, bool_decide (sub_id t = id) && before_notify (sub_stage t)) (co_tasks c).

Definition completions_for (id : TaskId) c : nat := length (filter (λ d, sc_task_id d = id) (co_completions c)).

Definition task_key (t : Task) : option (AgentId * string) := if holds_name (sub_stage t) then named_key (sub_request t) else None.
Definition holders c : list (AgentId * string) :=
  omap (λ sp, named_key (sp_request sp)) (co_spawning c) ++ omap task_key (co_tasks c).

Definition names_ok c : Prop := NoDup (holders c) ∧ ∀ key, key ∈ co_active_named c ↔ key ∈ holders c.

Definition stage_ok (outs : list SubOutput) (t : Task) (h : SubagentHandle) : Prop :=
  match sub_stage t with
  | Spawned => h_status h = TaskPending
  | Registering | Looping _ => h_status h = TaskRunning
  | Concluded _ o => h_status h = TaskRunning ∧ is_live (oc_status o) = false
  | Committed o => h_status h = TaskRunning ∧ is_live (oc_status o) = false ∧ EndedTask (sub_id t) o ∈ outs
  | Flipped o info =>
      is_live (h_status h) = false ∧ EndedTask (sub_id t) o ∈ outs ∧
      info = if sub_background t
             then Some (sq_parent_session (sub_request t), sq_parent_agent_id (sub_request t), sub_session t,
                        bool_decide (oc_status o = TaskCancelled) && h_cancelled_directly h)
             else None
  | Notified _ | Released _ | Retained => is_live (h_status h) = false
  end.

Record handle_of (t : Task) (h : SubagentHandle) : Prop := {
  ho_background : h_is_background h = sub_background t;
  ho_session : h_subagent_session_id h = sub_session t;
  ho_parent : h_parent_session_id h = sq_parent_session (sub_request t);
  ho_agent : h_parent_agent_id h = sq_parent_agent_id (sub_request t);
}.

Record task_ok c outs (t : Task) : Prop := {
  to_handle : ∃ h, co_subagents c !! sub_id t = Some h ∧ handle_of t h ∧ stage_ok outs t h;
  to_spawned : spawned_as (sub_id t) outs = Some (sub_request t, sub_session t, sub_background t);
  to_alive : panicked_in (sub_id t) outs = false;
}.

Record handle_ok c outs (id : TaskId) (h : SubagentHandle) : Prop := {
  hk_direct : h_cancelled_directly h = direct_in id outs;
  hk_spawned : ∃ request background, spawned_as id outs = Some (request, h_subagent_session_id h, background);
  hk_live : is_live (h_status h) = true → id ∈ map sub_id (co_tasks c) ∨ panicked_in id outs = true;
}.

(** What was sent for a task. *)
Definition sent_ok outs (d : SubagentDone) : Prop :=
  ∃ request session, spawned_as (sc_task_id d) outs = Some (request, session, true) ∧
    if panicked_in (sc_task_id d) outs then d = panic_completion (sc_task_id d) request session
    else ∃ o ms, EndedTask (sc_task_id d) o ∈ outs ∧
      d = completion_of (sc_task_id d) request ms o
            (sq_parent_session request, sq_parent_agent_id request, session,
             bool_decide (oc_status o = TaskCancelled) && direct_in (sc_task_id d) outs).

Definition expected (id : TaskId) c outs : nat :=
  match spawned_as id outs with
  | Some (_, _, background) => if background && co_channel c && negb (working id c) then 1 else 0
  | None => 0
  end.

Record coord_ok c outs : Prop := {
  ck_ids : NoDup (map sub_id (co_tasks c));
  ck_tasks : ∀ t, t ∈ co_tasks c → task_ok c outs t;
  ck_handles : ∀ id h, co_subagents c !! id = Some h → handle_ok c outs id h;
  ck_names : names_ok c;
  ck_count : ∀ id, completions_for id c = expected id c outs;
  ck_sent : ∀ d, d ∈ co_completions c → sent_ok outs d;
  ck_unknown : ∀ id, spawned_as id outs = None → direct_in id outs = false ∧ panicked_in id outs = false;
}.

(** ** One task moves *)

Lemma elem_of_insert_task (l : list Task) i t t' u : l !! i = Some t → u ∈ <[i := t']> l →
  u = t' ∨ ∃ j, j ≠ i ∧ l !! j = Some u.
Proof.
  intros Hi (j & Hj)%list_elem_of_lookup. apply list_lookup_insert_Some in Hj as [(_ & <- & _)|[Hne Hj]]; eauto.
Qed.

Lemma ids_insert (l : list Task) i t t' : l !! i = Some t → sub_id t' = sub_id t → map sub_id (<[i := t']> l) = map sub_id l.
Proof.
  intros Hi He. change (sub_id <$> <[i := t']> l = sub_id <$> l). rewrite list_fmap_insert, He. apply list_insert_id.
  by rewrite list_lookup_fmap, Hi.
Qed.

Lemma ids_distinct c i j t u :
  NoDup (map sub_id (co_tasks c)) → co_tasks c !! i = Some t → co_tasks c !! j = Some u → i ≠ j → sub_id u ≠ sub_id t.
Proof.
  intros Hok Hi Hj Hne He. apply Hne. eapply (NoDup_lookup (map sub_id (co_tasks c)) i j (sub_id t)); [exact Hok|..];
    rewrite list_lookup_fmap, ?Hi, ?Hj; cbn; by f_equal.
Qed.

Lemma working_other (l : list Task) i t t' id : l !! i = Some t → sub_id t ≠ id → sub_id t' ≠ id →
  existsb (λ t, bool_decide (sub_id t = id) && before_notify (sub_stage t)) (<[i := t']> l) =
  existsb (λ t, bool_decide (sub_id t = id) && before_notify (sub_stage t)) l.
Proof.
  revert i. induction l as [|u l IH]; intros [|i] Hi H1 H2; try done; simpl in *.
  - simplify_eq. by rewrite !bool_decide_eq_false_2.
  - by rewrite (IH i).
Qed.

Lemma working_own c i t : NoDup (map sub_id (co_tasks c)) → co_tasks c !! i = Some t → working (sub_id t) c = before_notify (sub_stage t).
Proof.
  intros Hok Hi. unfold working. apply eq_bool_prop_intro. split.
  - intros H%Is_true_true%existsb_exists. destruct H as (u & Hu%list_elem_of_In & [Hid%bool_decide_eq_true Hst]%andb_true_iff).
    apply list_elem_of_lookup in Hu as [j Hj]. destruct (decide (i = j)) as [->|Hne]; [|by destruct (ids_distinct _ _ _ _ _ Hok Hi Hj Hne)].
    simplify_eq. by rewrite Hst.
  - intros H%Is_true_true. apply Is_true_true, existsb_exists. exists t. split; [by eapply list_elem_of_In, list_elem_of_lookup_2|].
    by rewrite bool_decide_eq_true_2.
Qed.

(** Steps of one task: what a step may change for the invariant to survive. *)
Record task_moves c outs (i : nat) (t : Task) (st : Stage) (c' : Co) (new : list SubOutput) : Prop := {
  mv_tasks : co_tasks c' = <[i := at_stage t st]> (co_tasks c);
  mv_rest : co_spawning c' = co_spawning c ∧ co_channel c' = co_channel c;
  mv_handles : ∀ j, j ≠ sub_id t → co_subagents c' !! j = co_subagents c !! j;
  mv_handle : ∀ h, co_subagents c !! sub_id t = Some h → stage_ok outs t h →
    ∃ h', co_subagents c' !! sub_id t = Some h' ∧ h_cancelled_directly h' = h_cancelled_directly h ∧
      (handle_of t h → handle_of t h' ∧ stage_ok (outs ++ new) (at_stage t st) h');
  mv_quiet : forallb quiet_output new = true;
  mv_names : (holds_name st = holds_name (sub_stage t) ∧ co_active_named c' = co_active_named c) ∨
    (holds_name (sub_stage t) = true ∧ holds_name st = false ∧
     co_active_named c' = drop_named_guard (sub_request t) (co_active_named c));
  mv_sent : (before_notify st = before_notify (sub_stage t) ∧ co_completions c' = co_completions c) ∨
    (before_notify (sub_stage t) = true ∧ before_notify st = false ∧
     if sub_background t && co_channel c
     then ∃ d, co_completions c' = co_completions c ++ [d] ∧ sc_task_id d = sub_id t ∧ sent_ok outs d
     else co_completions c' = co_completions c);
}.

Lemma sent_ok_mono outs new d :
  (∀ id, spawned_as id new = None ∧ direct_in id new = false ∧ panicked_in id new = false) → sent_ok outs d → sent_ok (outs ++ new) d.
Proof.
  intros Hq (rq & s & Hs & Hp). exists rq, s. destruct (Hq (sc_task_id d)) as (H1 & H2 & H3).
  rewrite spawned_as_app, Hs, panicked_in_app, H3, orb_false_r. split; [done|].
  destruct (panicked_in _ outs); [done|]. destruct Hp as (o & ms & Ho & Hd). exists o, ms. split; [set_solver|].
  by rewrite direct_in_app, H2, orb_false_r.
Qed.

Lemma stage_ok_mono outs new t h : stage_ok outs t h → stage_ok (outs ++ new) t h.
Proof. unfold stage_ok. destruct (sub_stage t); naive_solver set_solver. Qed.

Lemma task_ok_mono c c' outs new t :
  (∀ id, spawned_as id new = None ∧ direct_in id new = false ∧ panicked_in id new = false) →
  co_subagents c' !! sub_id t = co_subagents c !! sub_id t → task_ok c outs t → task_ok c' (outs ++ new) t.
Proof.
  intros Hq He [(h & Hh & Hho & Hst) Hs Ha]. destruct (Hq (sub_id t)) as (H1 & H2 & H3). split.
  - exists h. rewrite He. split_and!; [done..|]. by apply stage_ok_mono.
  - by rewrite spawned_as_app, Hs.
  - by rewrite panicked_in_app, Ha.
Qed.

Lemma names_moves c outs i t st c' new : co_tasks c !! i = Some t → task_moves c outs i t st c' new → names_ok c → names_ok c'.
Proof.
  intros Hi [Ht [Hsp _] _ _ _ Hn _] [Hd Ha]. unfold names_ok, holders in *. rewrite Ht, Hsp.
  set (rest := omap (λ sp, named_key (sp_request sp)) (co_spawning c)) in *.
  rewrite (omap_insert_perm task_key _ i t _ Hi). rewrite (omap_delete_perm task_key _ i t Hi) in Hd.
  assert (Ha' : ∀ key, key ∈ co_active_named c ↔ key ∈ rest ++ option_list (task_key t) ++ omap task_key (delete i (co_tasks c))).
  { intros key. rewrite Ha. by rewrite (omap_delete_perm task_key _ i t Hi). }
  set (own := omap task_key (delete i (co_tasks c))) in *. destruct Hn as [[Hh ->]|(Hh & Hst & ->)].
  - assert (E : task_key (at_stage t st) = task_key t) by (unfold task_key; cbn; by rewrite Hh).
    rewrite E. split; [done|]. intros key. by rewrite Ha', (omap_insert_perm task_key _ i t _ Hi), E.
  - assert (E1 : task_key (at_stage t st) = None) by (unfold task_key; cbn; by rewrite Hst).
    assert (E2 : task_key t = named_key (sub_request t)) by (unfold task_key; by rewrite Hh).
    rewrite E2 in Hd, Ha'. rewrite E1. cbn [option_list option_rect app]. unfold drop_named_guard.
    assert (Hgoal : ∀ key, key ∈ rest ++ omap task_key (<[i := at_stage t st]> (co_tasks c)) ↔ key ∈ rest ++ own).
    { intros key. by rewrite (omap_insert_perm task_key _ i t _ Hi), E1. }
    destruct (named_key (sub_request t)) as [k|]; cbn [option_list option_rect app] in *.
    + rewrite <- Permutation_middle in Hd. apply NoDup_cons in Hd as [Hk Hd]. split; [done|]. intros key.
      rewrite elem_of_difference, Ha', Hgoal, elem_of_singleton, !elem_of_app, elem_of_cons.
      rewrite elem_of_app in Hk. naive_solver.
    + split; [done|]. intros key. by rewrite Ha', Hgoal.
Qed.

Lemma completions_snoc d c c' id : co_completions c' = co_completions c ++ [d] →
  completions_for id c' = completions_for id c + if decide (sc_task_id d = id) then 1 else 0.
Proof. intros H. unfold completions_for. rewrite H, filter_app, length_app, filter_cons, filter_nil. by case_decide. Qed.

Lemma expected_quiet id c c' outs new : forallb quiet_output new = true → working id c' = working id c → co_channel c' = co_channel c →
  expected id c' (outs ++ new) = expected id c outs.
Proof.
  intros Hq Hw Hc. unfold expected. destruct (quiet_says _ Hq id) as (H & _ & _). rewrite spawned_as_app, H, Hw, Hc.
  by destruct (spawned_as id outs).
Qed.

Lemma count_moves c outs i t st c' new : coord_ok c outs → co_tasks c !! i = Some t → task_moves c outs i t st c' new →
  NoDup (map sub_id (co_tasks c')) → ∀ id, completions_for id c' = expected id c' (outs ++ new).
Proof.
  intros Hok Hi [Ht [_ Hch] _ _ Hq _ Hs] Hnd id.
  assert (Hi' : co_tasks c' !! i = Some (at_stage t st)) by (rewrite Ht; apply list_lookup_insert_eq; by eapply lookup_lt_Some).
  pose proof (working_own c' i _ Hnd Hi') as Hw'. pose proof (working_own c i t (ck_ids _ _ Hok) Hi) as Hw. cbn in Hw'.
  assert (Hwo : id ≠ sub_id t → working id c' = working id c).
  { intros Hne. unfold working. rewrite Ht. eapply working_other; [exact Hi|congruence|cbn; congruence]. }
  pose proof (ck_count _ _ Hok id) as Hcnt. destruct Hs as [[Hb Hc]|(Hb & Hb' & Hd)].
  - replace (completions_for id c') with (completions_for id c) by (unfold completions_for; by rewrite Hc). rewrite Hcnt.
    symmetry. apply expected_quiet; [done| |done]. destruct (decide (id = sub_id t)) as [->|Hne]; [by rewrite Hw', Hw, Hb|auto].
  - destruct (decide (id = sub_id t)) as [->|Hne].
    + rewrite Hw, Hb in *. unfold expected in *. destruct (quiet_says _ Hq (sub_id t)) as (Hqs & _ & _).
      rewrite spawned_as_app, (to_spawned _ _ _ (ck_tasks _ _ Hok t ltac:(by eapply list_elem_of_lookup_2))) in *.
      rewrite Hw', Hb', Hch. rewrite Hw, andb_false_r in Hcnt. cbn [negb]. rewrite andb_true_r.
      destruct (sub_background t && co_channel c).
      * destruct Hd as (d & Hd & Hid & _). rewrite (completions_snoc _ _ _ _ Hd), Hcnt, decide_True by done. done.
      * unfold completions_for in *. by rewrite Hd.
    + assert (completions_for id c' = completions_for id c) as ->.
      { destruct (sub_background t && co_channel c); [|unfold completions_for; by rewrite Hd].
        destruct Hd as (d & Hd & Hid & _). rewrite (completions_snoc _ _ _ _ Hd), decide_False by congruence. lia. }
      rewrite Hcnt. symmetry. apply expected_quiet; auto.
Qed.

Lemma unknown_quiet outs new :
  (∀ id, spawned_as id new = None ∧ direct_in id new = false ∧ panicked_in id new = false) →
  (∀ id, spawned_as id outs = None → direct_in id outs = false ∧ panicked_in id outs = false) →
  ∀ id, spawned_as id (outs ++ new) = None → direct_in id (outs ++ new) = false ∧ panicked_in id (outs ++ new) = false.
Proof.
  intros Hq Hu id. destruct (Hq id) as (H1 & H2 & H3). rewrite spawned_as_app, direct_in_app, panicked_in_app, H1, H2, H3, !orb_false_r.
  destruct (spawned_as id outs) eqn:E; [done|]. intros _. by apply Hu.
Qed.

Lemma handle_of_stage t st h : handle_of t h → handle_of (at_stage t st) h.
Proof. intros []. by split. Qed.

Lemma ok_move c outs i t st c' new : coord_ok c outs → co_tasks c !! i = Some t → task_moves c outs i t st c' new →
  coord_ok c' (outs ++ new).
Proof.
  intros Hok Hi Hmv. pose proof Hmv as [Ht Hrest Hhs Hh Hq Hn Hs]. pose proof (quiet_says _ Hq) as Hqs.
  assert (Hin : t ∈ co_tasks c) by by eapply list_elem_of_lookup_2.
  destruct (ck_tasks _ _ Hok t Hin) as [(h & Hlk & Hho & Hst) Hsp Hal].
  destruct (Hh h Hlk Hst) as (h' & Hlk' & Hdir & Hnew). destruct (Hnew Hho) as [Hho' Hst'].
  assert (Hids : map sub_id (co_tasks c') = map sub_id (co_tasks c)) by (rewrite Ht; by eapply ids_insert).
  assert (Hnd : NoDup (map sub_id (co_tasks c'))) by (rewrite Hids; apply Hok).
  split.
  - done.
  - intros u Hu. rewrite Ht in Hu. destruct (elem_of_insert_task _ _ _ _ _ Hi Hu) as [->|(j & Hne & Hj)].
    + destruct (Hqs (sub_id t)) as (H1 & H2 & H3). split; cbn; [|by rewrite spawned_as_app, Hsp|by rewrite panicked_in_app, Hal].
      exists h'. split_and!; [done|by apply handle_of_stage|done].
    + eapply task_ok_mono; [done| |by eapply (ck_tasks _ _ Hok), list_elem_of_lookup_2]. apply Hhs.
      by eapply (ids_distinct c i j); [apply Hok|..].
  - intros id k Hk. destruct (Hqs id) as (H1 & H2 & H3).
    assert (Hko : ∃ k0, co_subagents c !! id = Some k0 ∧ h_cancelled_directly k = h_cancelled_directly k0 ∧
      h_subagent_session_id k = h_subagent_session_id k0 ∧ (is_live (h_status k) = true → is_live (h_status k0) = true ∨ id = sub_id t)).
    { destruct (decide (id = sub_id t)) as [->|Hne]; [|rewrite Hhs in Hk by done; eauto 6]. simplify_eq. exists h.
      by rewrite (ho_session _ _ Hho), (ho_session _ _ Hho'); auto. }
    destruct Hko as (k0 & Hk0 & Hd & Hse & Hl). destruct (ck_handles _ _ Hok id k0 Hk0) as [Hkd Hks Hkl]. split.
    + by rewrite Hd, Hkd, direct_in_app, H2, orb_false_r.
    + destruct Hks as (rq & b & Hx). exists rq, b. by rewrite Hse, spawned_as_app, Hx.
    + rewrite Hids, panicked_in_app, H3, orb_false_r. intros Hlive. destruct (Hl Hlive) as [Hl0| ->]; [auto|]. left.
      change (sub_id t ∈ sub_id <$> co_tasks c). apply list_elem_of_fmap. eauto.
  - eapply names_moves; [exact Hi|exact Hmv|apply Hok].
  - by eapply count_moves.
  - intros d Hd. apply sent_ok_mono; [done|]. destruct Hs as [[_ Hc]|(_ & _ & Hc)]; [rewrite Hc in Hd; by apply (ck_sent _ _ Hok)|].
    destruct (sub_background t && co_channel c); [|rewrite Hc in Hd; by apply (ck_sent _ _ Hok)].
    destruct Hc as (d' & Hc & _ & Hs'). rewrite Hc in Hd. apply elem_of_app in Hd as [Hd| ->%list_elem_of_singleton]; [by apply (ck_sent _ _ Hok)|done].
  - apply unknown_quiet; [done|apply Hok].
Qed.

Lemma moves_intro c outs i t st c' new f :
  co_tasks c' = <[i := at_stage t st]> (co_tasks c) → co_spawning c' = co_spawning c → co_channel c' = co_channel c →
  co_subagents c' = alter f (sub_id t) (co_subagents c) →
  (∀ h, co_subagents c !! sub_id t = Some h → stage_ok outs t h → h_cancelled_directly (f h) = h_cancelled_directly h ∧
     (handle_of t h → handle_of t (f h) ∧ stage_ok (outs ++ new) (at_stage t st) (f h))) →
  forallb quiet_output new = true →
  ((holds_name st = holds_name (sub_stage t) ∧ co_active_named c' = co_active_named c) ∨
   (holds_name (sub_stage t) = true ∧ holds_name st = false ∧ co_active_named c' = drop_named_guard (sub_request t) (co_active_named c))) →
  ((before_notify st = before_notify (sub_stage t) ∧ co_completions c' = co_completions c) ∨
   (before_notify (sub_stage t) = true ∧ before_notify st = false ∧
    if sub_background t && co_channel c
    then ∃ d, co_completions c' = co_completions c ++ [d] ∧ sc_task_id d = sub_id t ∧ sent_ok outs d
    else co_completions c' = co_completions c)) →
  task_moves c outs i t st c' new.
Proof.
  intros Ht Hs Hc Hh Hf Hq Hn Hd. split; [done|by split| | |done..].
  - intros j Hj. by rewrite Hh, lookup_alter_ne.
  - intros h Hlk Hst. exists (f h). rewrite Hh, lookup_alter_eq, Hlk. split; [done|]. by apply Hf.
Qed.

Lemma alter_same {A} (m : gmap TaskId A) id : m = alter (λ x, x) id m.
Proof. symmetry. apply alter_id. done. Qed.

Lemma working_live c outs t : coord_ok c outs → t ∈ co_tasks c → (∃ h, co_subagents c !! sub_id t = Some h ∧ is_live (h_status h) = true) →
  before_notify (sub_stage t) = true ∧ working (sub_id t) c = true.
Proof.
  intros Hok Hin (h & Hh & Hl). destruct (ck_tasks _ _ Hok t Hin) as [(h' & Hh' & _ & Hst) _ _]. simplify_eq.
  assert (Hb : before_notify (sub_stage t) = true).
  { unfold stage_ok in Hst. destruct (sub_stage t); try done; naive_solver congruence. }
  split; [done|]. apply list_elem_of_lookup in Hin as [i Hi]. by rewrite (working_own c i t (ck_ids _ _ Hok) Hi).
Qed.

Lemma sent_counted c d : d ∈ co_completions c → completions_for (sc_task_id d) c ≠ 0.
Proof.
  intros Hd Hz. unfold completions_for in Hz. apply nil_length_inv in Hz.
  assert (Hin : d ∈ filter (λ x, sc_task_id x = sc_task_id d) (co_completions c)) by by apply list_elem_of_filter.
  rewrite Hz in Hin. by apply elem_of_nil in Hin.
Qed.

Lemma ok_alter c outs new f id :
  coord_ok c outs → (∀ h, h_status (f h) = h_status h ∧ h_subagent_session_id (f h) = h_subagent_session_id h ∧ ∀ t, handle_of t h → handle_of t (f h)) →
  (∀ j, spawned_as j new = None ∧ panicked_in j new = false) →
  (∀ j h, co_subagents c !! j = Some h →
     (if decide (j = id) then h_cancelled_directly (f h) else h_cancelled_directly h) = h_cancelled_directly h || direct_in j new) →
  (∀ j, direct_in j new = true → ∃ h, co_subagents c !! j = Some h ∧ is_live (h_status h) = true) →
  coord_ok (put_handles (alter f id (co_subagents c)) c) (outs ++ new).
Proof.
  intros Hok Hf Hq Hdir Hlv. set (c' := put_handles _ c).
  assert (Hlk : ∀ j h, co_subagents c !! j = Some h → ∃ h', co_subagents c' !! j = Some h' ∧ h_status h' = h_status h ∧
    (h_subagent_session_id h' = h_subagent_session_id h ∧ ∀ t, handle_of t h → handle_of t h') ∧
    h_cancelled_directly h' = h_cancelled_directly h || direct_in j new).
  { intros j h Hj. specialize (Hdir j h Hj). cbn. rewrite lookup_alter. destruct (decide (j = id)) as [->|Hne].
    - rewrite decide_True, Hj by done. exists (f h). destruct (Hf h) as (? & ? & ?). eauto 6.
    - rewrite decide_False, Hj by congruence. exists h. eauto. }
  assert (Hinv : ∀ j h', co_subagents c' !! j = Some h' → is_Some (co_subagents c !! j)).
  { intros j h'. cbn. rewrite lookup_alter. destruct (decide (id = j)) as [->|]; [|by eauto]. intros (h & Hh & _)%fmap_Some. eauto. }
  split.
  - apply Hok.
  - intros t Ht. destruct (ck_tasks _ _ Hok t Ht) as [(h & Hh & Hho & Hst) Hs Ha]. destruct (Hq (sub_id t)) as [H1 H2].
    destruct (Hlk _ _ Hh) as (h' & Hh' & Hst' & (_ & Hho') & Hd). split; [|by rewrite spawned_as_app, Hs|by rewrite panicked_in_app, Ha].
    exists h'. split_and!; [done|by apply Hho'|]. pose proof (stage_ok_mono outs new _ _ Hst) as Hst2.
    unfold stage_ok in *. destruct (sub_stage t); rewrite ?Hst'; try done; try (by rewrite <- Hst' in Hst2).
    destruct Hst2 as (Hl & He & Hinfo). split_and!; [done..|]. rewrite Hd. destruct (direct_in (sub_id t) new) eqn:E; [|by rewrite orb_false_r].
    destruct (Hlv _ E) as (h2 & Hh2 & Hl2). simplify_eq. congruence.
  - intros j h' Hj. destruct (Hinv _ _ Hj) as [h Hh]. destruct (Hlk _ _ Hh) as (h2 & Hh2 & Hst2 & (Hse & _) & Hd). simplify_eq.
    destruct (ck_handles _ _ Hok j h Hh) as [Hkd Hks Hkl]. destruct (Hq j) as [H1 H2]. split.
    + by rewrite Hd, Hkd, direct_in_app.
    + destruct Hks as (rq & b & Hx). exists rq, b. by rewrite Hse, spawned_as_app, Hx.
    + rewrite Hst2, panicked_in_app, H2, orb_false_r. done.
  - apply Hok.
  - intros j. change (completions_for j c') with (completions_for j c). rewrite (ck_count _ _ Hok j). unfold expected.
    destruct (Hq j) as [H1 _]. rewrite spawned_as_app, H1. by destruct (spawned_as j outs) as [[[] ]|].
  - intros d Hd. destruct (ck_sent _ _ Hok d Hd) as (rq & s & Hs & Hp). exists rq, s. destruct (Hq (sc_task_id d)) as [H1 H2].
    rewrite spawned_as_app, Hs, panicked_in_app, H2, orb_false_r. split; [done|].
    destruct (panicked_in (sc_task_id d) outs) eqn:Ep; [done|]. destruct Hp as (o & ms & Ho & Hd2). exists o, ms. split; [set_solver|].
    rewrite direct_in_app. destruct (direct_in (sc_task_id d) new) eqn:Ed; [exfalso|by rewrite orb_false_r].
    destruct (Hlv _ Ed) as (h & Hh & Hl). destruct (hk_live _ _ _ _ (ck_handles _ _ Hok _ _ Hh) Hl) as [Hin|Hpan]; [|congruence].
    change (map sub_id (co_tasks c)) with (sub_id <$> co_tasks c) in Hin. apply list_elem_of_fmap in Hin as (t & Hid & Ht).
    rewrite Hid in Hh. destruct (working_live c outs t Hok Ht) as [_ Hw]; [eauto|].
    pose proof (sent_counted c _ Hd) as Hn. rewrite (ck_count _ _ Hok) in Hn. apply Hn. unfold expected. rewrite Hs, Hid, Hw. by rewrite andb_false_r.
  - intros j. destruct (Hq j) as [H1 H2]. rewrite spawned_as_app, direct_in_app, panicked_in_app, H1, H2, orb_false_r.
    destruct (spawned_as j outs) eqn:E; [done|]. intros _. destruct (ck_unknown _ _ Hok j E) as [-> ->]. split; [|done].
    destruct (direct_in j new) eqn:Ed; [|done]. destruct (Hlv j Ed) as (h & Hh & _).
    destruct (hk_spawned _ _ _ _ (ck_handles _ _ Hok j h Hh)) as (rq & b & Hx). congruence.
Qed.

Lemma ok_same c c' outs new :
  coord_ok c outs → forallb quiet_output new = true → co_tasks c' = co_tasks c → co_subagents c' = co_subagents c →
  co_completions c' = co_completions c → co_channel c' = co_channel c → names_ok c' → coord_ok c' (outs ++ new).
Proof.
  intros Hok Hq Ht Hh Hc Hch Hn. pose proof (quiet_says _ Hq) as Hqs. split.
  - rewrite Ht. apply Hok.
  - intros t Hin. rewrite Ht in Hin. eapply task_ok_mono; [done|by rewrite Hh|by apply Hok].
  - intros id h Hlk. rewrite Hh in Hlk. destruct (ck_handles _ _ Hok id h Hlk) as [Hd (rq & b & Hx) Hl]. destruct (Hqs id) as (H1 & H2 & H3).
    split; [by rewrite direct_in_app, H2, orb_false_r|exists rq, b; by rewrite spawned_as_app, Hx|].
    by rewrite Ht, panicked_in_app, H3, orb_false_r.
  - done.
  - intros id. replace (completions_for id c') with (completions_for id c) by (unfold completions_for; by rewrite Hc).
    rewrite (ck_count _ _ Hok). symmetry. apply expected_quiet; [done| |done]. unfold working. by rewrite Ht.
  - intros d Hd. rewrite Hc in Hd. apply sent_ok_mono; [done|]. by apply Hok.
  - apply unknown_quiet; [done|apply Hok].
Qed.

Lemma reserve_ok c outs request background token tx c' new :
  coord_ok c outs → reserve_step request background token tx c = (c', new) → coord_ok c' (outs ++ new).
Proof.
  intros Hok. unfold reserve_step. set (rq := canonicalize_subagent_name _ _). pose proof (ck_names _ _ Hok) as [Hnd Ha].
  destruct (named_key rq) as [key|] eqn:Ek; [case_bool_decide as Hin|]; intros [= <- <-].
  - by apply (ok_same c).
  - assert (Hp : ∀ sp, sp_request sp = rq → holders (put_spawning (co_spawning c ++ [sp]) (put_names ({[key]} ∪ co_active_named c) c)) ≡ₚ
      key :: holders c).
    { intros sp Hsp. unfold holders. cbn. rewrite omap_app. cbn. rewrite Hsp, Ek. cbn. rewrite <- app_assoc. cbn. by rewrite <- Permutation_middle. }
    apply (ok_same c); [done..|]. split.
    + rewrite (Hp {| sp_request := rq; sp_background := background; sp_parent_token := token; sp_parent_tx := tx |} eq_refl).
      apply NoDup_cons. split; [by rewrite <- Ha|done].
    + intros k. rewrite (Hp {| sp_request := rq; sp_background := background; sp_parent_token := token; sp_parent_tx := tx |} eq_refl).
      cbn. rewrite elem_of_cons, <- Ha. set_solver.
  - apply (ok_same c); [done..|]. unfold names_ok, holders. cbn. rewrite omap_app. cbn. rewrite Ek, app_nil_r. by split.
Qed.

Lemma start_ok c outs i c' : coord_ok c outs → start_step i c = Some c' → coord_ok c' (outs ++ []).
Proof.
  intros Hok. unfold start_step. destruct (co_tasks c !! i) as [t|] eqn:Hi; [|done]. cbn [mbind option_bind].
  destruct (sub_stage t) eqn:Es; try done. intros [= <-]. eapply (ok_move _ _ i t Registering); [done..|].
  apply (moves_intro _ _ _ _ _ _ _ (set_h_status TaskRunning)); try done; [|by left; rewrite Es..].
  intros h _ _. split; [done|]. intros []. split; [by split|]. done.
Qed.

Lemma register_ok c outs i now fresh c' : coord_ok c outs → register_step i now fresh c = Some c' → coord_ok c' (outs ++ []).
Proof.
  intros Hok. unfold register_step. destruct (co_tasks c !! i) as [t|] eqn:Hi; [|done]. cbn [mbind option_bind].
  destruct (sub_stage t) eqn:Es; try done. intros [= <-].
  assert (Hm : ∀ st (c1 : Co), match st with Looping _ => True | Concluded _ o => is_live (oc_status o) = false | _ => False end →
    co_tasks c1 = co_tasks c → co_spawning c1 = co_spawning c → co_channel c1 = co_channel c → co_subagents c1 = co_subagents c →
    co_active_named c1 = co_active_named c → co_completions c1 = co_completions c → coord_ok (move i t st c1) (outs ++ [])).
  { intros st c1 Hst H1 H2 H3 H4 H5 H6. eapply (ok_move _ _ i t st); [done..|].
    apply (moves_intro _ _ _ _ _ _ _ (λ h, h)); cbn; rewrite ?H1, ?H2, ?H3, ?H4, ?H5, ?H6; try done; [by rewrite <- alter_same| |left; rewrite Es; by destruct st..].
    intros h _ Hso. split; [done|]. intros Hho. split; [done|]. unfold stage_ok in *. rewrite Es in Hso. cbn. by destruct st. }
  destruct (co_registrar c) as [reg|]; [|by apply Hm].
  destruct (register_run _ _ _) as [reg' [|e]]; by apply Hm.
Qed.

Lemma outcome_dead e : is_live (oc_status (outcome_of e)) = false.
Proof. destruct e as [|[output|e]]; [done..|]. cbn. by case_bool_decide. Qed.

Lemma commit_dead now run o (reg : option Reg) : is_live (oc_status o) = false → is_live (oc_status (commit_outcome now run o reg).2) = false.
Proof. intros H. unfold commit_outcome. destruct reg, run; [|done..]. by destruct (update_registered _ _ _) as [? [|]]. Qed.

Lemma loop_ok c outs i e c' new : coord_ok c outs → loop_step i e c = Some (c', new) → coord_ok c' (outs ++ new).
Proof.
  intros Hok. unfold loop_step. destruct (co_tasks c !! i) as [t|] eqn:Hi; [|done]. cbn [mbind option_bind].
  destruct (sub_stage t) as [| |run| | | | | |] eqn:Es; try done. destruct (match e with TokenFired => _ | _ => _ end); [|done]. intros [= <- <-].
  eapply (ok_move _ _ i t (Concluded run (outcome_of e))); [done..|].
  apply (moves_intro _ _ _ _ _ _ _ (λ h, h)); cbn; try done; [by rewrite <- alter_same| |by left; rewrite Es..].
  intros h Hlk Hst. split; [done|]. intros Hho. split; [done|]. unfold stage_ok in *. rewrite Es in Hst. cbn. split; [done|]. apply outcome_dead.
Qed.

Lemma commit_ok c outs i now c' new : coord_ok c outs → commit_step i now c = Some (c', new) → coord_ok c' (outs ++ new).
Proof.
  intros Hok. unfold commit_step. destruct (co_tasks c !! i) as [t|] eqn:Hi; [|done]. cbn [mbind option_bind].
  destruct (sub_stage t) as [| | |run o| | | | |] eqn:Es; try done.
  pose proof (commit_dead now run o (co_registrar c)) as Hdead. destruct (commit_outcome now run o (co_registrar c)) as [reg o'].
  intros [= <- <-]. eapply (ok_move _ _ i t (Committed o')); [done..|].
  apply (moves_intro _ _ _ _ _ _ _ (fire_handle false)); try done; [|by left; rewrite Es..].
  intros h Hlk Hst. split; [apply orb_false_r|]. intros []. split; [by split|]. unfold stage_ok in *. rewrite Es in Hst. cbn.
  destruct Hst as [H1 H2]. split_and!; [done|by apply Hdead|set_solver].
Qed.

Lemma flip_ok c outs i c' : coord_ok c outs → flip_step i c = Some c' → coord_ok c' (outs ++ []).
Proof.
  intros Hok. unfold flip_step. destruct (co_tasks c !! i) as [t|] eqn:Hi; [|done]. cbn [mbind option_bind].
  destruct (sub_stage t) as [| | | |o| | | |] eqn:Es; try done. intros [= <-].
  eapply (ok_move _ _ i t); [done..|]. apply (moves_intro _ _ _ _ _ _ _ (finish_handle (task_result (sub_id t) o))); try done; [|by left; rewrite Es..].
  intros h Hlk Hst. split; [done|]. intros [Hb Hse Hp Hag]. split; [by split|]. unfold stage_ok in *. rewrite Es in Hst. cbn.
  destruct Hst as (H1 & H2 & H3). split_and!; [done|set_solver|]. rewrite Hlk. cbn. unfold background_info. by rewrite Hb, Hse, Hp, Hag.
Qed.

Lemma notify_ok c outs i ms c' : coord_ok c outs → notify_step i ms c = Some c' → coord_ok c' (outs ++ []).
Proof.
  intros Hok. unfold notify_step. destruct (co_tasks c !! i) as [t|] eqn:Hi; [|done]. cbn [mbind option_bind].
  destruct (sub_stage t) as [| | | | |o info| | |] eqn:Es; try done. intros [= <-].
  destruct (ck_tasks _ _ Hok t) as [(h0 & Hh0 & Hho0 & Hst0) Hsp Hal]; [by eapply list_elem_of_lookup_2|].
  pose proof Hst0 as Hst1. unfold stage_ok in Hst1. rewrite Es in Hst1. destruct Hst1 as (Hl & He & ->).
  pose proof (hk_direct _ _ _ _ (ck_handles _ _ Hok _ _ Hh0)) as Hd.
  eapply (ok_move _ _ i t (Notified o)); [done..|].
  apply (moves_intro _ _ _ _ _ _ _ (λ h, h)); try done.
  - by repeat case_match.
  - by repeat case_match.
  - by repeat case_match.
  - rewrite <- alter_same. by repeat case_match.
  - intros h Hlk Hst. split; [done|]. intros Hho. split; [done|]. unfold stage_ok in *. by rewrite Es in Hst; destruct Hst as (H1 & _).
  - left. rewrite Es. by repeat case_match.
  - right. rewrite Es. split; [done|]. split; [done|]. destruct (sub_background t) eqn:Eb; cbn; [|done].
    destruct (co_channel c); cbn; [|done]. eexists. split; [reflexivity|]. split; [done|].
    exists (sub_request t), (sub_session t). cbn. rewrite Hsp, Hal. split; [done|]. exists o, ms. split; [done|]. by rewrite Hd.
Qed.

Lemma release_ok c outs i c' : coord_ok c outs → release_step i c = Some c' → coord_ok c' (outs ++ []).
Proof.
  intros Hok. unfold release_step. destruct (co_tasks c !! i) as [t|] eqn:Hi; [|done]. cbn [mbind option_bind].
  destruct (sub_stage t) as [| | | | | |o| |] eqn:Es; try done. intros [= <-].
  eapply (ok_move _ _ i t (Released o)); [done..|]. apply (moves_intro _ _ _ _ _ _ _ (λ h, h)); try done.
  - by rewrite <- alter_same.
  - intros h Hlk Hst. split; [done|]. intros Hho. split; [done|]. unfold stage_ok in *. by rewrite Es in Hst.
  - right. by rewrite Es.
  - left. by rewrite Es.
Qed.

Lemma deliver_ok c outs i c' : coord_ok c outs → deliver_step i c = Some c' → coord_ok c' (outs ++ []).
Proof.
  intros Hok. unfold deliver_step. destruct (co_tasks c !! i) as [t|] eqn:Hi; [|done]. cbn [mbind option_bind].
  destruct (sub_stage t) as [| | | | | | |o|] eqn:Es; try done. intros [= <-].
  eapply (ok_move _ _ i t Retained); [done..|]. apply (moves_intro _ _ _ _ _ _ _ (λ h, h)); try done; try (by destruct (sub_background t)).
  - rewrite <- alter_same. by destruct (sub_background t).
  - intros h Hlk Hst. split; [done|]. intros Hho. split; [done|]. unfold stage_ok in *. by rewrite Es in Hst.
  - left. rewrite Es. by destruct (sub_background t).
  - left. rewrite Es. by destruct (sub_background t).
Qed.

(** *** Tasks that come and go *)

Lemma elem_of_delete_task (l : list Task) i u : u ∈ delete i l → u ∈ l.
Proof. rewrite delete_take_drop, elem_of_app. intros [H|H]; [by eapply elem_of_take in H as (? & H & _); eapply list_elem_of_lookup_2|].
  apply list_elem_of_lookup in H as [j Hj]. rewrite lookup_drop in Hj. by eapply list_elem_of_lookup_2. Qed.

Lemma ids_delete (l : list Task) i t : l !! i = Some t → map sub_id l ≡ₚ sub_id t :: map sub_id (delete i l).
Proof. intros Hi. rewrite (delete_Permutation l i t Hi) at 1. done. Qed.

Lemma working_delete c i t id : co_tasks c !! i = Some t →
  existsb (λ t, bool_decide (sub_id t = id) && before_notify (sub_stage t)) (delete i (co_tasks c)) =
  if decide (sub_id t = id) then existsb (λ t, bool_decide (sub_id t = id) && before_notify (sub_stage t)) (delete i (co_tasks c)) else working id c.
Proof.
  intros Hi. case_decide as Hid; [done|]. unfold working. generalize dependent (co_tasks c). intros l. revert i.
  induction l as [|u l IH]; intros [|i] Hi; try done; simpl in *.
  - simplify_eq. by rewrite bool_decide_eq_false_2.
  - by rewrite (IH i).
Qed.

Lemma working_gone (l : list Task) id : id ∉ map sub_id l →
  existsb (λ t, bool_decide (sub_id t = id) && before_notify (sub_stage t)) l = false.
Proof.
  intros Hn. apply not_true_iff_false. intros (t & Ht%list_elem_of_In & [Hid%bool_decide_eq_true _]%andb_true_iff)%existsb_exists.
  apply Hn. change (id ∈ sub_id <$> l). apply list_elem_of_fmap. eauto.
Qed.

Lemma spawn_names c i sp t c' : co_spawning c !! i = Some sp → sub_request t = sp_request sp → sub_stage t = Spawned →
  co_spawning c' = delete i (co_spawning c) → co_tasks c' = co_tasks c ++ [t] → co_active_named c' = co_active_named c →
  names_ok c → names_ok c'.
Proof.
  intros Hi Hr Hst H1 H2 H3 [Hnd Ha].
  assert (Hp : holders c' ≡ₚ holders c).
  { unfold holders. rewrite H1, H2. rewrite (omap_delete_perm (λ sp, named_key (sp_request sp)) _ i sp Hi), omap_app.
    assert (E : omap task_key [t] = option_list (named_key (sp_request sp)))
      by (cbn; unfold task_key; rewrite Hst, Hr; cbn; by destruct (named_key _)).
    rewrite E. solve_Permutation. }
  split; [by rewrite Hp|]. intros key. by rewrite H3, Hp.
Qed.

Lemma spawn_ok c outs i now id fresh_agent fresh_session c' new :
  coord_ok c outs → spawned_as id outs = None → spawn_step i now id fresh_agent fresh_session c = Some (c', new) → coord_ok c' (outs ++ new).
Proof.
  intros Hok Hfresh. unfold spawn_step. destruct (co_spawning c !! i) as [sp|] eqn:Hi; [|done]. cbn [mbind option_bind].
  destruct (derive_subagent_identity _ _ _ _) as [agent context]. destruct (get_or_create _ _ _ _ _) as [session m].
  set (h := take_receivers _ _). set (t := mkTask _ _ _ _ _ _ _). intros [= <- <-].
  destruct (ck_unknown _ _ Hok id Hfresh) as [Hdir Hpan].
  assert (Hnew : ∀ j, spawned_as j [SpawnedTask id (sp_request sp) (sess_id session) (sp_background sp)
      (started_event (sp_parent_tx sp) (sp_request sp) (sess_id session) (sp_background sp))] =
      if decide (id = j) then Some (sp_request sp, sess_id session, sp_background sp) else None).
  { intros j. unfold spawned_as. cbn. by case_bool_decide; case_decide. }
  set (new := [SpawnedTask _ _ _ _ _]) in *. 
  assert (Hnone : co_subagents c !! id = None).
  { apply eq_None_not_Some. intros [k Hk]. destruct (hk_spawned _ _ _ _ (ck_handles _ _ Hok id k Hk)) as (rq & b & Hx). congruence. }
  assert (Hids : id ∉ map sub_id (co_tasks c)).
  { intros Hin. change (id ∈ sub_id <$> co_tasks c) in Hin. apply list_elem_of_fmap in Hin as (u & -> & Hu).
    pose proof (to_spawned _ _ _ (ck_tasks _ _ Hok u Hu)). congruence. }
  assert (Hdn : ∀ j, direct_in j new = false ∧ panicked_in j new = false) by done.
  assert (Hsa : ∀ j x, spawned_as j outs = Some x → spawned_as j (outs ++ new) = Some x) by (intros j x Hx; by rewrite spawned_as_app, Hx).
  assert (Hda : ∀ j, direct_in j (outs ++ new) = direct_in j outs) by (intros j; rewrite direct_in_app; by rewrite orb_false_r).
  assert (Hpa : ∀ j, panicked_in j (outs ++ new) = panicked_in j outs) by (intros j; rewrite panicked_in_app; by rewrite orb_false_r).
  split; cbn.
  - rewrite map_app. cbn. apply NoDup_app. split_and!; [apply Hok| |apply NoDup_singleton]. intros x Hx ->%list_elem_of_singleton. done.
  - intros u [Hu| ->%list_elem_of_singleton]%elem_of_app.
    + destruct (ck_tasks _ _ Hok u Hu) as [(k & Hk & Hho & Hst) Hs Ha]. split; [|by apply Hsa|by rewrite Hpa].
      exists k. cbn. rewrite lookup_insert_ne by congruence. split_and!; [done..|]. by apply stage_ok_mono.
    + split; cbn; [|by rewrite spawned_as_app, Hfresh, Hnew, decide_True|by rewrite Hpa].
      exists h. split_and!; [by rewrite lookup_insert_eq|by split|done].
  - intros j k. rewrite lookup_insert_Some. intros [[<- <-]|[Hne Hk]].
    + split; cbn; [by rewrite Hda|exists (sp_request sp), (sp_background sp); by rewrite spawned_as_app, Hfresh, Hnew, decide_True|]. intros _. left. rewrite map_app, elem_of_app. right. by left.
    + destruct (ck_handles _ _ Hok j k Hk) as [Hd (rq & b & Hx) Hl]. split; cbn; [by rewrite Hda|exists rq, b; by apply Hsa|].
      rewrite Hpa. intros Hlive. destruct (Hl Hlive) as [Hin|?]; [left|by right]. rewrite map_app, elem_of_app. by left.
  - eapply (spawn_names c i sp t); try done. apply Hok.
  - intros j. transitivity (completions_for j c); [done|]. rewrite (ck_count _ _ Hok j). unfold expected, working. cbn.
    rewrite spawned_as_app, existsb_app, Hnew. cbn. rewrite orb_false_r, andb_true_r. case_decide as Hj.
    + subst j. by rewrite Hfresh, bool_decide_eq_true_2, orb_true_r, andb_false_r by done.
    + rewrite bool_decide_eq_false_2, orb_false_r by done. by destruct (spawned_as j outs).
  - intros d Hd. destruct (ck_sent _ _ Hok d Hd) as (rq & s & Hs & Hp). exists rq, s. rewrite Hpa, Hda. split; [by apply Hsa|].
    destruct (panicked_in (sc_task_id d) outs); [done|]. destruct Hp as (o & ms & Ho & Hd2). exists o, ms. split; [set_solver|done].
  - intros j. rewrite spawned_as_app, Hda, Hpa. destruct (spawned_as j outs) eqn:E; [done|]. intros _. by apply (ck_unknown _ _ Hok).
Qed.

Lemma delete_other (l : list Task) i t u : NoDup (map sub_id l) → l !! i = Some t → u ∈ delete i l → u ∈ l ∧ sub_id u ≠ sub_id t.
Proof.
  intros Hnd Hi Hu. split; [by eapply elem_of_delete_task|]. rewrite (ids_delete _ _ _ Hi) in Hnd. apply NoDup_cons in Hnd as [Hn _].
  intros E. apply Hn. rewrite <- E. change (sub_id u ∈ sub_id <$> delete i l). apply list_elem_of_fmap. eauto.
Qed.

Lemma delete_keeps (l : list Task) i t id : l !! i = Some t → id ≠ sub_id t → id ∈ map sub_id l → id ∈ map sub_id (delete i l).
Proof. intros Hi Hne Hin. rewrite (ids_delete _ _ _ Hi) in Hin. apply elem_of_cons in Hin as [?|?]; done. Qed.

Lemma names_delete c i t c' : co_tasks c !! i = Some t → co_tasks c' = delete i (co_tasks c) → co_spawning c' = co_spawning c →
  co_active_named c' = (if holds_name (sub_stage t) then drop_named_guard (sub_request t) (co_active_named c) else co_active_named c) →
  names_ok c → names_ok c'.
Proof.
  intros Hi H1 H2 H3 [Hnd Ha]. unfold names_ok, holders in *. rewrite H1, H2, H3.
  set (rest := omap (λ sp, named_key (sp_request sp)) (co_spawning c)) in *. set (own := omap task_key (delete i (co_tasks c))) in *.
  assert (Ha' : ∀ key, key ∈ co_active_named c ↔ key ∈ rest ++ option_list (task_key t) ++ own).
  { intros key. rewrite Ha. by rewrite (omap_delete_perm task_key _ i t Hi). }
  rewrite (omap_delete_perm task_key _ i t Hi) in Hnd. fold own in Hnd. unfold task_key at 1 in Hnd. unfold task_key in Ha' at 1.
  destruct (holds_name (sub_stage t)); [|by split]. unfold drop_named_guard.
  destruct (named_key (sub_request t)) as [k|]; cbn [option_list option_rect app] in *; [|by split].
  rewrite <- Permutation_middle in Hnd. apply NoDup_cons in Hnd as [Hk Hnd]. split; [done|]. intros key.
  rewrite elem_of_difference, Ha', elem_of_singleton, !elem_of_app, elem_of_cons. rewrite elem_of_app in Hk. naive_solver.
Qed.

Lemma working_after_delete c c' i t id : NoDup (map sub_id (co_tasks c)) → co_tasks c !! i = Some t → co_tasks c' = delete i (co_tasks c) →
  working id c' = if decide (id = sub_id t) then false else working id c.
Proof.
  intros Hnd Hi Ht. unfold working at 1. rewrite Ht, (working_delete c i t id Hi). case_decide as H1; case_decide as H2; try congruence.
  subst id. apply working_gone. rewrite (ids_delete _ _ _ Hi) in Hnd. by apply NoDup_cons in Hnd as [? _].
Qed.

Lemma remove_ok c outs i c' : coord_ok c outs → remove_step i c = Some c' → coord_ok c' (outs ++ []).
Proof.
  intros Hok. unfold remove_step. destruct (co_tasks c !! i) as [t|] eqn:Hi; [|done]. cbn [mbind option_bind].
  destruct (sub_stage t) eqn:Es; try done. intros [= <-]. rewrite app_nil_r. pose proof (ck_ids _ _ Hok) as Hnd. split.
  - cbn. rewrite (ids_delete _ _ _ Hi) in Hnd. by apply NoDup_cons in Hnd as [_ ?].
  - intros u Hu. destruct (delete_other _ _ _ _ Hnd Hi Hu) as [Hin Hne]. destruct (ck_tasks _ _ Hok u Hin) as [(h & Hh & Hho & Hst) Hs Ha].
    split; [|done..]. exists h. cbn. by rewrite lookup_delete_ne.
  - intros id h. cbn. rewrite lookup_delete_Some. intros [Hne Hh]. destruct (ck_handles _ _ Hok id h Hh) as [Hd Hs Hl]. split; [done..|].
    intros Hlive. destruct (Hl Hlive) as [Hin|?]; [left|by right]. by eapply delete_keeps.
  - eapply (names_delete c i t); try done; [by rewrite Es|apply Hok].
  - intros id. transitivity (completions_for id c); [done|]. rewrite (ck_count _ _ Hok). unfold expected.
    rewrite (working_after_delete c (put_tasks (delete i (co_tasks c)) (put_handles (delete (sub_id t) (co_subagents c)) c)) i t id Hnd Hi eq_refl).
    case_decide as E; [|done]. subst id. by rewrite (working_own c i t Hnd Hi), Es.
  - intros d Hd. by apply (ck_sent _ _ Hok).
  - apply Hok.
Qed.

Lemma panic_ok c outs i c' new : coord_ok c outs → panic_step i c = Some (c', new) → coord_ok c' (outs ++ new).
Proof.
  intros Hok. unfold panic_step. destruct (co_tasks c !! i) as [t|] eqn:Hi; [|done]. cbn [mbind option_bind].
  destruct (may_panic (sub_stage t)) eqn:Em; [|done]. intros [= <- <-].
  pose proof (ck_ids _ _ Hok) as Hnd. destruct (ck_tasks _ _ Hok t) as [_ Hsp Hal]; [by eapply list_elem_of_lookup_2|].
  assert (Hst : before_notify (sub_stage t) = true ∧ holds_name (sub_stage t) = true) by (by destruct (sub_stage t)).
  destruct Hst as [Hb Hho].
  match goal with |- coord_ok ?x _ => set (c' := x) end.
  assert (H1 : co_tasks c' = delete i (co_tasks c)) by (unfold c'; by case_match).
  assert (H2 : co_spawning c' = co_spawning c) by (unfold c'; by case_match).
  assert (H3 : co_active_named c' = drop_named_guard (sub_request t) (co_active_named c)) by (unfold c'; by case_match).
  assert (H4 : co_subagents c' = co_subagents c) by (unfold c'; by case_match).
  assert (H5 : co_channel c' = co_channel c) by (unfold c'; by case_match).
  assert (H6 : co_completions c' = co_completions c ++
    (if sub_background t && co_channel c then [panic_completion (sub_id t) (sub_request t) (sub_session t)] else [])).
  { unfold c'. case_match; [done|]. cbn. by rewrite app_nil_r. }
  clearbody c'.
  set (new := [Panicked (sub_id t)]).
  assert (Hsa : ∀ j, spawned_as j (outs ++ new) = spawned_as j outs).
  { intros j. rewrite spawned_as_app. by destruct (spawned_as j outs). }
  assert (Hda : ∀ j, direct_in j (outs ++ new) = direct_in j outs) by (intros j; rewrite direct_in_app; by rewrite orb_false_r).
  assert (Hpa : ∀ j, panicked_in j (outs ++ new) = panicked_in j outs || bool_decide (sub_id t = j)).
  { intros j. rewrite panicked_in_app. cbn. by rewrite orb_false_r. }
  assert (Hzero : completions_for (sub_id t) c = 0).
  { rewrite (ck_count _ _ Hok). unfold expected. rewrite Hsp, (working_own c i t Hnd Hi), Hb. by rewrite andb_false_r. }
  split.
  - rewrite H1. rewrite (ids_delete _ _ _ Hi) in Hnd. by apply NoDup_cons in Hnd as [_ ?].
  - intros u Hu. rewrite H1 in Hu. destruct (delete_other _ _ _ _ Hnd Hi Hu) as [Hin Hne].
    destruct (ck_tasks _ _ Hok u Hin) as [(h & Hh & Huo & Hust) Hs Ha].
    split; [|by rewrite Hsa|by rewrite Hpa, Ha, bool_decide_eq_false_2 by congruence]. exists h. rewrite H4. split_and!; [done..|]. by apply stage_ok_mono.
  - intros id h Hh. rewrite H4 in Hh. destruct (ck_handles _ _ Hok id h Hh) as [Hd Hs Hl]. split; [by rewrite Hda|by rewrite Hsa|].
    rewrite Hpa, H1. intros Hlive. destruct (decide (id = sub_id t)) as [->|Hne]; [right; by rewrite bool_decide_eq_true_2, orb_true_r|].
    destruct (Hl Hlive) as [Hin| ->]; [left; by eapply delete_keeps|by right].
  - eapply (names_delete c i t); try done; [by rewrite Hho|apply Hok].
  - intros id. unfold expected. rewrite Hsa, (working_after_delete c c' i t id Hnd Hi H1), H5.
    assert (Hc : completions_for id c' = completions_for id c + if decide (id = sub_id t) then (if sub_background t && co_channel c then 1 else 0) else 0).
    { unfold completions_for. rewrite H6, filter_app, length_app. f_equal. case_match; [rewrite filter_cons, filter_nil; cbn|]; repeat case_decide; cbn in *; congruence. }
    rewrite Hc. case_decide as E; [subst id; by rewrite Hzero, Hsp, andb_true_r|]. rewrite (ck_count _ _ Hok), Nat.add_0_r. done.
  - intros d Hd. rewrite H6 in Hd. apply elem_of_app in Hd as [Hd|Hd].
    + destruct (ck_sent _ _ Hok d Hd) as (rq & s & Hs & Hp). exists rq, s. rewrite Hsa, Hpa, Hda, bool_decide_eq_false_2, orb_false_r.
      * split; [done|]. destruct (panicked_in (sc_task_id d) outs); [done|]. destruct Hp as (o & ms & Ho & Hd2). exists o, ms. split; [set_solver|done].
      * intros E. pose proof (sent_counted c d Hd) as Hn. by rewrite <- E in Hn.
    + destruct (sub_background t) eqn:Eb; [|by apply elem_of_nil in Hd]. destruct (co_channel c); [|by apply elem_of_nil in Hd].
      apply list_elem_of_singleton in Hd as ->. exists (sub_request t), (sub_session t). cbn. rewrite Hsa, Hpa, Hsp. split; [done|].
      by rewrite bool_decide_eq_true_2, orb_true_r.
  - intros j. rewrite Hsa, Hda, Hpa. intros Hj. destruct (ck_unknown _ _ Hok j Hj) as [-> ->]. split; [done|].
    apply bool_decide_eq_false_2. intros <-. congruence.
Qed.

Lemma live_handle_Some session (hs : Handles) id : live_handle session hs = Some id →
  ∃ h, hs !! id = Some h ∧ h_subagent_session_id h = session ∧ is_live (h_status h) = true.
Proof.
  unfold live_handle. destruct (List.find _ _) as [[i h]|] eqn:E; [|done]. cbn. intros [= <-].
  apply List.find_some in E as [Hin [Hs%bool_decide_eq_true Hl]%andb_true_iff]. exists h. split_and!; [|done..].
  by apply list_elem_of_In, elem_of_map_to_list in Hin.
Qed.

Lemma live_handle_None session (hs : Handles) : live_handle session hs = None →
  ∀ id h, hs !! id = Some h → h_subagent_session_id h = session → is_live (h_status h) = false.
Proof.
  unfold live_handle. destruct (List.find _ _) eqn:E; [done|]. intros _ id h Hh Hs. apply not_true_iff_false. intros Hl.
  assert (Hin : In (id, h) (map_to_list hs)) by (by apply list_elem_of_In, elem_of_map_to_list).
  pose proof (List.find_none _ _ E _ Hin) as Hf. cbn in Hf. by rewrite Hl, bool_decide_eq_true_2 in Hf.
Qed.

Lemma cancel_step_ok c outs session directly c' new : coord_ok c outs → cancel_step session directly c = (c', new) → coord_ok c' (outs ++ new).
Proof.
  intros Hok. unfold cancel_step. destruct (live_handle session (co_subagents c)) as [id|] eqn:El; intros [= <- <-].
  2:{ apply (ok_same c); [done..|]. apply Hok. }
  destruct (live_handle_Some _ _ _ El) as (h & Hh & Hs & Hl). unfold fire_subagent_cancel. rewrite El. cbn [fst].
  apply ok_alter; [done| | | |].
  - intros k. split_and!; [done..|]. intros t []. by split.
  - done.
  - intros j k Hk. unfold direct_in. cbn. destruct directly; cbn; case_decide as E; try (rewrite ?orb_false_r; done).
    + subst j. by rewrite bool_decide_eq_true_2, !orb_true_r.
    + by rewrite bool_decide_eq_false_2, !orb_false_r by congruence.
  - intros j. unfold direct_in. cbn. destruct directly; cbn; [|done]. rewrite orb_false_r, bool_decide_eq_true. intros <-. eauto.
Qed.

(** ** Steps *)

(** Ids drawn at random are new. *)
Definition label_fresh (l : SubLabel) c outs : Prop :=
  match l with
  | SSpawn _ _ id _ session =>
      spawned_as id outs = None ∧ session_by_id (co_sessions c) !! session = None ∧ ∀ t, t ∈ co_tasks c → sub_session t ≠ session
  | _ => True
  end.

Lemma sub_step_ok l c outs c' new : coord_ok c outs → label_fresh l c outs → sub_step l c = Some (c', new) → coord_ok c' (outs ++ new).
Proof.
  intros Hok Hf. destruct l; cbn [sub_step]; unfold silent; try (intros (c1 & Hc & [= -> ->])%fmap_Some).
  - intros [= H]. by eapply reserve_ok.
  - destruct Hf as [Hf _]. by apply spawn_ok.
  - by eapply start_ok.
  - by eapply register_ok.
  - by apply loop_ok.
  - intros [= <- <-]. apply ok_alter; [done| |done| |done].
    + intros h. split_and!; [done..|]. intros t []. by split.
    + intros j h _. rewrite orb_false_r. by case_decide.
  - by apply commit_ok.
  - by eapply flip_ok.
  - by eapply notify_ok.
  - by eapply release_ok.
  - by eapply deliver_ok.
  - by eapply remove_ok.
  - by apply panic_ok.
  - intros [= <- <-]. apply (ok_same c); [done..|]. apply Hok.
  - intros [= H]. by eapply cancel_step_ok.
Qed.
End invariant.

(** * Reachable states *)

Section reachable.
Context `{U : UuidCrate} `{CH : ChronoCrate} {Ss Reg : Type} `{DB : SqliteStore Ss} `{RR : RunRegistrar Reg}.
Implicit Types (c : Coord Ss Reg).

(** Other requests may do anything to sessions and runs but give the id of a
    session in use to another context. *)
Definition world_ok c (m : SessionManager Ss) : Prop :=
  index_ok m ∧ ∀ t key, t ∈ co_tasks c → session_by_id m !! sub_session t = Some key →
    session_by_id (co_sessions c) !! sub_session t = Some key.

Inductive sub_reachable (ok : SubLabel → Coord Ss Reg → Prop) : Coord Ss Reg → list SubOutput → Prop :=
| reach_new m r channel : index_ok m → sub_reachable ok (coordinator_new m r channel) []
| reach_step l c outs c' new :
    sub_reachable ok c outs → ok l c → label_fresh l c outs → sub_step l c = Some (c', new) → sub_reachable ok c' (outs ++ new)
| reach_world m r c outs : sub_reachable ok c outs → world_ok c m → sub_reachable ok (put_world m r c) outs.

Lemma sub_reachable_ok ok c outs : sub_reachable ok c outs → coord_ok c outs.
Proof.
  induction 1 as [m r channel _|l c outs c' new _ IH _ Hf Hs|m r c outs _ IH _].
  - split; try done.
    + constructor.
    + by intros t Ht%elem_of_nil.
    + split; [constructor|]. intros key. cbn. set_solver.
    + by intros d Hd%elem_of_nil.
  - by eapply sub_step_ok.
  - rewrite <- (app_nil_r outs). apply (ok_same c); [done..|]. apply IH.
Qed.

(** ** Which tasks there are *)

Definition same_task (t t' : Task) : Prop :=
  sub_id t' = sub_id t ∧ sub_request t' = sub_request t ∧ sub_agent t' = sub_agent t ∧ sub_context t' = sub_context t ∧
  sub_session t' = sub_session t ∧ sub_background t' = sub_background t.

Lemma same_task_refl t : same_task t t.
Proof. done. Qed.

Lemma moved_tasks c i t st : co_tasks c !! i = Some t →
  ∀ u, u ∈ <[i := at_stage t st]> (co_tasks c) → ∃ u', u' ∈ co_tasks c ∧ same_task u' u.
Proof.
  intros Hi u Hu. destruct (elem_of_insert_task _ _ _ _ _ Hi Hu) as [->|(j & _ & Hj)].
  - exists t. split; [by eapply list_elem_of_lookup_2|done].
  - exists u. split; [by eapply list_elem_of_lookup_2|done].
Qed.

(** A step that spawns nothing keeps sessions and identities. *)
Lemma step_identity l c c' new : (match l with SSpawn _ _ _ _ _ => False | _ => True end) → sub_step l c = Some (c', new) →
  co_sessions c' = co_sessions c ∧ (∀ u, u ∈ co_tasks c' → ∃ u', u' ∈ co_tasks c ∧ same_task u' u).
Proof.
  assert (Hsame : ∀ (l : list Task) u, u ∈ l → ∃ u', u' ∈ l ∧ same_task u' u) by eauto using same_task_refl.
  assert (Hdel : ∀ (l : list Task) i u, u ∈ delete i l → ∃ u', u' ∈ l ∧ same_task u' u) by eauto using same_task_refl, elem_of_delete_task.
  intros Hl Hs. destruct l; try done; sub_cases Hs; (split; [done|]); first [exact (Hsame _)|exact (moved_tasks _ _ _ _ ltac:(eassumption))|intros u Hu; exact (Hdel _ _ u Hu)].
Qed.

(** ** Sessions of named subagents *)

(** The registry answers about the name of a request as it did when the guard
    was taken, and a parent's id is a UUID. *)
Definition registry_stable (l : SubLabel) c : Prop :=
  match l with
  | SSpawn i _ _ _ _ => ∀ sp n, co_spawning c !! i = Some sp → sq_subagent_name (sp_request sp) = Some n →
      canonical_subagent_name n (co_sessions c) = n
  | SReserve request _ _ _ => uuid_valid (agent_uuid (sq_parent_agent_id request)) = true
  | _ => True
  end.

Record sessions_ok c : Prop := {
  so_index : index_ok (co_sessions c);
  so_own : ∀ t key, t ∈ co_tasks c → session_by_id (co_sessions c) !! sub_session t = Some key → key = (sub_agent t, sub_context t);
  so_apart : ∀ t u, t ∈ co_tasks c → u ∈ co_tasks c → sub_session t = sub_session u → sub_context t = sub_context u;
  so_named : ∀ t n, t ∈ co_tasks c → sq_subagent_name (sub_request t) = Some n →
    sub_context t = named_subagent_context_id (sq_parent_agent_id (sub_request t)) n ∧
    uuid_valid (agent_uuid (sq_parent_agent_id (sub_request t))) = true;
  so_spawning : ∀ sp, sp ∈ co_spawning c → uuid_valid (agent_uuid (sq_parent_agent_id (sp_request sp))) = true;
}.

Lemma sessions_kept c c' : co_sessions c' = co_sessions c → (∀ u, u ∈ co_tasks c' → ∃ u', u' ∈ co_tasks c ∧ same_task u' u) →
  (∀ sp, sp ∈ co_spawning c' → uuid_valid (agent_uuid (sq_parent_agent_id (sp_request sp))) = true) → sessions_ok c → sessions_ok c'.
Proof.
  intros Hs Ht Hsp [H1 H2 H3 H4 H5]. rewrite <- Hs in H1, H2. split; [done| | | |done].
  - intros t key Hin Hk. destruct (Ht t Hin) as (u & Hu & _ & _ & -> & -> & E & _). apply H2; [done|congruence].
  - intros t u Hin Hin'. destruct (Ht t Hin) as (t' & Ht' & _ & _ & _ & -> & -> & _).
    destruct (Ht u Hin') as (u' & Hu' & _ & _ & _ & -> & -> & _). by apply H3.
  - intros t n Hin. destruct (Ht t Hin) as (t' & Ht' & _ & -> & _ & -> & _ & _). by apply H4.
Qed.

Lemma step_spawning l c c' new : registry_stable l c → sub_step l c = Some (c', new) → sessions_ok c →
  ∀ sp, sp ∈ co_spawning c' → uuid_valid (agent_uuid (sq_parent_agent_id (sp_request sp))) = true.
Proof.
  intros Hr Hs Hok sp. assert (Hsp : co_spawning c' = co_spawning c ∨ (∃ i, co_spawning c' = delete i (co_spawning c)) ∨
    ∃ rq b t x, l = SReserve rq b t x ∧ (sp ∈ co_spawning c' → sp ∈ co_spawning c ∨ sp_request sp = canonicalize_subagent_name rq (co_sessions c))).
  { destruct l; sub_cases Hs; eauto 6; right; right; exists request, background, parent_token, parent_tx; (split; [done|]);
      cbn; rewrite elem_of_app, list_elem_of_singleton; (intros [?| ->]; auto). }
  intros Hin. destruct Hsp as [E|[[i E]|(rq & b & t & x & -> & Hin')]].
  - rewrite E in Hin. by apply Hok.
  - rewrite E, delete_take_drop in Hin. apply (so_spawning _ Hok).
    apply elem_of_app in Hin as [Hin|Hin]; [by apply subseteq_take in Hin|by apply subseteq_drop in Hin].
  - destruct (Hin' Hin) as [?| ->]; [by apply Hok|]. unfold canonicalize_subagent_name. by destruct (sq_subagent_name rq).
Qed.

Lemma created_session now fresh agent context (m : SessionManager Ss) s m' :
  index_ok m → session_by_id m !! fresh = None → get_or_create now fresh agent context m = (s, m') →
  index_ok m' ∧ session_by_id m' !! sess_id s = Some (agent, context) ∧
  (∀ id, id ≠ fresh → session_by_id m' !! id = session_by_id m !! id) ∧
  (session_by_id m !! sess_id s = Some (agent, context) ∨ sess_id s = fresh).
Proof.
  intros Hix Hf Hg. assert (Hm : index_ok m').
  { replace m' with (exec (OpGetOrCreate now fresh agent context) m) by (cbn; by rewrite Hg).
    apply index_ok_exec; [done|]. by apply bool_decide_eq_true. }
  split; [done|]. unfold get_or_create in Hg. destruct (sessions m !! (agent, context)) as [s0|] eqn:E; simplify_eq.
  - destruct (ix_session _ Hix _ _ E) as [_ Hi]. auto.
  - destruct (persist_fields (save_session (session_new now fresh agent context)) (register_session fresh (agent, context) m)) as (_ & Hb & _).
    cbn in *. rewrite Hb, lookup_insert_eq. split_and!; [done| |by right]. intros id Hne. by rewrite lookup_insert_ne.
Qed.

Lemma spawn_sessions i now id fresh_agent fresh_session c c' new :
  session_by_id (co_sessions c) !! fresh_session = None → (∀ t, t ∈ co_tasks c → sub_session t ≠ fresh_session) →
  registry_stable (SSpawn i now id fresh_agent fresh_session) c → spawn_step i now id fresh_agent fresh_session c = Some (c', new) →
  sessions_ok c → (∀ sp, sp ∈ co_spawning c' → uuid_valid (agent_uuid (sq_parent_agent_id (sp_request sp))) = true) → sessions_ok c'.
Proof.
  intros Hf1 Hf2 Hr. unfold spawn_step. destruct (co_spawning c !! i) as [sp|] eqn:Hi; [|done]. cbn [mbind option_bind].
  destruct (derive_subagent_identity _ _ _ _) as [agent context] eqn:Ed. destruct (get_or_create _ _ _ _ _) as [session m] eqn:Eg.
  intros [= <- <-] Hok Hsp. set (t := mkTask _ _ _ _ _ _ _) in *. cbn in Hsp.
  pose proof (so_index _ Hok) as Hix.
  destruct (created_session now fresh_session agent context (co_sessions c) session m Hix Hf1 Eg) as (Hm & Hown & Hold & Hnew).
  assert (Hother : ∀ u, u ∈ co_tasks c → session_by_id m !! sub_session u = session_by_id (co_sessions c) !! sub_session u).
  { intros u Hu. apply Hold. by apply Hf2. }
  assert (Hmeet : ∀ u, u ∈ co_tasks c → sub_session u = sess_id session → sub_context u = context).
  { intros u Hu E. destruct Hnew as [Hnew|Hnew]; [|by destruct (Hf2 u Hu); congruence].
    rewrite <- E in Hnew. pose proof (so_own _ Hok u _ Hu Hnew); congruence. }
  split; cbn.
  - done.
  - intros u key [Hu| ->%list_elem_of_singleton]%elem_of_app; [rewrite Hother by done; by apply Hok|]. cbn. congruence.
  - intros u v [Hu| ->%list_elem_of_singleton]%elem_of_app [Hv| ->%list_elem_of_singleton]%elem_of_app E; cbn in *.
    + by apply (so_apart _ Hok).
    + by apply Hmeet.
    + symmetry. by apply Hmeet.
    + done.
  - intros u n [Hu| ->%list_elem_of_singleton]%elem_of_app Hn; [by apply (so_named _ Hok)|]. cbn in *.
    split; [|by apply (so_spawning _ Hok), list_elem_of_lookup_2 with i].
    specialize (Hr sp n Hi Hn). unfold derive_subagent_identity in Ed. rewrite Hn in Ed. unfold named_subagent_key in Ed. unfold canonical_subagent_name in Hr. rewrite Hr in Ed.
    by destruct (lookup_subagent_record _ _) as [[? ?]|]; simplify_eq.
  - exact Hsp.
Qed.
End reachable.
