(* ===== verification/SubagentProps.v ===== *)
(** What the coordinator of subagents promises, over every interleaving.

    The theorems use the invariants of [SubagentSafety.v]; the last section has
    the concrete executions they are tried on. *)
From S2P Require Import Prelude Ident Json Lifecycle Run Session MessageBus EventFeed RunManager Notify RuntimeTypes Coordinator Subagents SubagentSafety.

Section safety.
Context `{U : UuidCrate} `{UL : !UuidLaws U} `{CH : ChronoCrate} {Ss Reg : Type} `{DB : SqliteStore Ss} `{RR : RunRegistrar Reg}.
Implicit Types (c : Coord Ss Reg).

(** * Sessions *)

Lemma sessions_world c m r : sessions_ok c → world_ok c m → sessions_ok (put_world m r c).
Proof.
  intros [H1 H2 H3 H4 H5] [Hm Hw]. split; [done| |done..]. intros t key Ht Hk. apply H2; [done|]. by apply Hw.
Qed.

Lemma reachable_sessions_ok c outs : sub_reachable registry_stable c outs → sessions_ok c.
Proof.
  induction 1 as [m r channel Hm|l c outs c' new _ IH Hr Hf Hs|m r c outs _ IH Hw].
  - split; [done|..]; cbn; intros; set_solver.
  - pose proof (step_spawning l c c' new Hr Hs IH) as Hsp.
    pose proof (step_identity l c c' new) as Hid. destruct l; try (destruct (Hid I Hs) as [E Ht]; exact (sessions_kept c c' E Ht Hsp IH)).
    destruct Hf as (_ & Hf1 & Hf2). by eapply spawn_sessions.
  - by apply sessions_world.
Qed.

(** C21: two subagents never run in one session.  As long as the registry answers
    about a name, when the session is derived, as it did when the guard of the
    name was taken, two different tasks that hold the guard of a name are in
    different sessions, whatever is spawned, cancelled, finished or panics in
    between and whatever other requests do to the session manager. *)
Theorem named_subagents_exclusive c outs i j t u n n' :
  sub_reachable registry_stable c outs →
  co_tasks c !! i = Some t → co_tasks c !! j = Some u → i ≠ j →
  sq_subagent_name (sub_request t) = Some n → sq_subagent_name (sub_request u) = Some n' →
  holds_name (sub_stage t) = true → holds_name (sub_stage u) = true →
  sub_session t ≠ sub_session u.
Proof.
  intros Hre Hi Hj Hne Hn Hn' Ht Hu E. pose proof (reachable_sessions_ok _ _ Hre) as Hok.
  assert (Hti : t ∈ co_tasks c) by by eapply list_elem_of_lookup_2.
  assert (Huj : u ∈ co_tasks c) by by eapply list_elem_of_lookup_2.
  pose proof (so_apart _ Hok t u Hti Huj E) as Hc.
  destruct (so_named _ Hok t n Hti Hn) as [Ec Hv]. destruct (so_named _ Hok u n' Huj Hn') as [Ec' Hv'].
  rewrite Ec, Ec' in Hc. pose proof (split_named_subagent _ n Hv) as Hs. rewrite Hc, (split_named_subagent _ n' Hv') in Hs.
  apply Hne. destruct (ck_names _ _ (sub_reachable_ok _ _ _ Hre)) as [Hnd _]. apply NoDup_app in Hnd as (_ & _ & Hnd).
  eapply (omap_NoDup_index task_key _ i j t u (sq_parent_agent_id (sub_request t), n) Hnd Hi Hj); unfold task_key, named_key.
  - by rewrite Ht, Hn.
  - rewrite Hu, Hn'. cbn. congruence.
Qed.

(** * Completions *)

Lemma completions_unique (ds : list SubagentDone) : length ds = 1%nat → ∃ d, ds = [d].
Proof. destruct ds as [|d [|]]; try done. eauto. Qed.

(** C20: one completion per background subagent.  Once the task of a background
    subagent has passed its notification, or has panicked, the parent's channel
    has had exactly one completion for it, and before that none: the card of the
    outcome the run was committed with, marked as cancelled directly exactly when
    it was cancelled and the user's own cancel of it had been accepted, or the
    card of a panic.  A foreground subagent never has one. *)
Theorem subagent_completes_once ok c outs id request session background :
  sub_reachable ok c outs → spawned_as id outs = Some (request, session, background) →
  if background && co_channel c && negb (working id c)
  then ∃ d, filter (λ d, sc_task_id d = id) (co_completions c) = [d] ∧
    if panicked_in id outs then d = panic_completion id request session
    else ∃ o ms, EndedTask id o ∈ outs ∧
      d = completion_of id request ms o
            (sq_parent_session request, sq_parent_agent_id request, session,
             bool_decide (oc_status o = TaskCancelled) && direct_in id outs)
  else filter (λ d, sc_task_id d = id) (co_completions c) = [].
Proof.
  intros Hre Hsp. pose proof (sub_reachable_ok _ _ _ Hre) as Hok. pose proof (ck_count _ _ Hok id) as Hc.
  unfold completions_for, expected in Hc. rewrite Hsp in Hc. destruct (background && _ && _); [|by apply nil_length_inv].
  destruct (completions_unique _ Hc) as [d Hd]. exists d. split; [done|].
  assert (Hin : d ∈ filter (λ d, sc_task_id d = id) (co_completions c)) by (rewrite Hd; by apply list_elem_of_singleton).
  apply list_elem_of_filter in Hin as [Hid Hin]. destruct (ck_sent _ _ Hok d Hin) as (rq & s & Hs & Hp).
  rewrite Hid in *. rewrite Hsp in Hs. by simplify_eq.
Qed.

(** * Cancelling *)

Definition flipped (st : Stage) : bool := match st with Flipped _ _ | Notified _ | Released _ | Retained => true | _ => false end.

Lemma stage_live outs t h : stage_ok outs t h → is_live (h_status h) = negb (flipped (sub_stage t)).
Proof. unfold stage_ok. by destruct (sub_stage t); cbn; [intros ->|intros ->|intros ->|intros [-> _]|intros [-> _]|intros [-> _]|..]. Qed.

(** A cancellation answers what it did.  An accepted one fired the token of a
    subagent of that session which has not yet flipped its status, or one whose
    task panicked; a refused one changed nothing, and every subagent of the
    session has flipped. *)
Theorem subagent_cancel_truthful ok c outs session directly c' new :
  sub_reachable ok c outs → cancel_step session directly c = (c', new) →
  (∃ id request background, new = [CancelAccepted id directly] ∧ spawned_as id outs = Some (request, session, background) ∧
     token_fired id c' = true ∧ co_tasks c' = co_tasks c ∧
     ((∃ t, t ∈ co_tasks c ∧ sub_id t = id ∧ sub_session t = session ∧ flipped (sub_stage t) = false) ∨ panicked_in id outs = true)) ∨
  (new = [CancelRefused session] ∧ c' = c ∧ ∀ t, t ∈ co_tasks c → sub_session t = session → flipped (sub_stage t) = true).
Proof.
  intros Hre Hc. pose proof (sub_reachable_ok _ _ _ Hre) as Hok. unfold cancel_step in Hc.
  destruct (live_handle session (co_subagents c)) as [id|] eqn:El; simplify_eq.
  - left. destruct (live_handle_Some _ _ _ El) as (h & Hh & <- & Hl).
    destruct (ck_handles _ _ Hok id h Hh) as [_ (rq & b & Hsp) Hin]. exists id, rq, b. unfold fire_subagent_cancel. rewrite El. cbn.
    split_and!; [done|done| |done|].
    + unfold token_fired. cbn. by rewrite lookup_alter_eq, Hh.
    + destruct (Hin Hl) as [Ht|?]; [left|by right]. apply list_elem_of_fmap in Ht as (t & -> & Ht). exists t.
      destruct (ck_tasks _ _ Hok t Ht) as [(h' & Hh' & Hho & Hst) _ _]. simplify_eq. rewrite (ho_session _ _ Hho).
      pose proof (stage_live _ _ _ Hst) as E. rewrite Hl in E. by destruct (flipped _).
  - right. split_and!; [done..|]. intros t Ht Hs. destruct (ck_tasks _ _ Hok t Ht) as [(h & Hh & Hho & Hst) _ _].
    pose proof (live_handle_None _ _ El _ _ Hh ltac:(by rewrite (ho_session _ _ Hho))) as Hd. rewrite (stage_live _ _ _ Hst) in Hd.
    by destruct (flipped _).
Qed.

(** * The guard of the names *)

(** A name is taken exactly while a subagent of the name is about: from the
    moment its spawn passed the guard until its task released it, and each name by
    one of them; so an invocation is refused exactly when another of the same
    parent and name has not come to its end. *)
Theorem names_held_exactly ok c outs request background token tx :
  sub_reachable ok c outs →
  NoDup (holders c) ∧ (∀ key, key ∈ co_active_named c ↔ key ∈ holders c) ∧
  let key := named_key (canonicalize_subagent_name request (co_sessions c)) in
  match reserve_step request background token tx c with
  | (c', [RefusedName k]) => c' = c ∧ key = Some k ∧ k ∈ holders c
  | (c', out) => out = [] ∧ match key with Some k => k ∉ holders c ∧ co_active_named c' = {[k]} ∪ co_active_named c | None => co_active_named c' = co_active_named c end
  end.
Proof.
  intros Hre. destruct (ck_names _ _ (sub_reachable_ok _ _ _ Hre)) as [Hnd Ha]. split; [done|]. split; [done|]. cbn zeta.
  unfold reserve_step. destruct (named_key _) as [k|]; [|done]. case_bool_decide as Hk; rewrite Ha in Hk; done.
Qed.

(** * Panics *)

Lemma step_other_handles l c c' new id h :
  sub_step l c = Some (c', new) → (∀ t, t ∈ co_tasks c → sub_id t ≠ id) →
  match l with SSpawn _ _ id' _ _ => id' ≠ id | _ => True end → co_subagents c !! id = Some h →
  ∃ h', co_subagents c' !! id = Some h' ∧ h_status h' = h_status h.
Proof.
  intros Hs Hne Hl Hh.
  assert (Halter : ∀ f j, j ≠ id ∨ (∀ k, h_status (f k) = h_status k) →
    ∃ h', alter f j (co_subagents c) !! id = Some h' ∧ h_status h' = h_status h).
  { intros f j Hf. destruct (decide (j = id)) as [->|Hj].
    - rewrite lookup_alter_eq, Hh. eexists. split; [done|]. by destruct Hf.
    - rewrite lookup_alter_ne by done. eauto. }
  assert (Hat : ∀ i t, co_tasks c !! i = Some t → sub_id t ≠ id) by eauto using list_elem_of_lookup_2.
  destruct l; sub_cases Hs; eauto 8.
  all: try (apply Halter; eauto 6).
  - cbn. rewrite lookup_insert_ne by done. eauto.
  - cbn. rewrite lookup_delete_ne by eauto. eauto.
  - unfold fire_subagent_cancel. cbn. case_match; [apply Halter; auto|eauto].
Qed.

Lemma panicked_snoc id outs new : panicked_in id (outs ++ new) = true → panicked_in id outs = true ∨ Panicked id ∈ new.
Proof.
  rewrite panicked_in_app, orb_true_iff. intros [?|H]; [by left|right]. apply existsb_exists in H as (o & Ho%list_elem_of_In & H).
  destruct o; try done. by apply bool_decide_eq_true in H as ->.
Qed.

Lemma panic_output l c c' new id : sub_step l c = Some (c', new) → Panicked id ∈ new →
  ∃ i t, l = SPanic i ∧ co_tasks c !! i = Some t ∧ id = sub_id t ∧ co_subagents c' = co_subagents c ∧ panic_step i c = Some (c', new).
Proof.
  intros Hs Hin. destruct l; try (exfalso; sub_cases Hs; set_solver). exists i. pose proof Hs as Hs'. sub_cases Hs'; apply list_elem_of_singleton in Hin; simplify_eq; eauto 8.
Qed.

(** The handle of a subagent whose task panicked stays for good.  Whatever
    happens afterwards, the handle is still in the map, and if the task had not
    committed an outcome it is still pending or running there: a cancellation of
    its session is accepted, however often, although there is nothing to stop. *)
Theorem panicked_handle_stays ok c outs id :
  sub_reachable ok c outs → panicked_in id outs = true →
  ∃ h, co_subagents c !! id = Some h ∧
    ((∀ o, EndedTask id o ∉ outs) → is_live (h_status h) = true ∧
       ∀ directly, ∃ id', (cancel_step (h_subagent_session_id h) directly c).2 = [CancelAccepted id' directly]).
Proof.
  intros Hre Hp. assert (H : ∃ h, co_subagents c !! id = Some h ∧ ((∀ o, EndedTask id o ∉ outs) → is_live (h_status h) = true)).
  - induction Hre as [|l c outs c' new Hre IH _ Hf Hs|m r c outs Hre IH Hw]; [done| |by apply IH].
    pose proof (sub_reachable_ok _ _ _ Hre) as Hok. destruct (panicked_snoc _ _ _ Hp) as [Hold|Hnew].
    + destruct (IH Hold) as (h & Hh & Hl). destruct (step_other_handles l c c' new id h Hs) as (h' & Hh' & E); [| |done|].
      * intros t Ht <-. pose proof (to_alive _ _ _ (ck_tasks _ _ Hok t Ht)). congruence.
      * destruct l; try done. intros ->. destruct Hf as (Hf & _). destruct (ck_unknown _ _ Hok _ Hf). congruence.
      * exists h'. rewrite E. split; [done|]. intros Hn. apply Hl. set_solver.
    + destruct (panic_output _ _ _ _ _ Hs Hnew) as (i & t & -> & Hi & -> & Hsame & Hpan).
      destruct (ck_tasks _ _ Hok t ltac:(by eapply list_elem_of_lookup_2)) as [(h & Hh & Hho & Hst) _ _].
      exists h. rewrite Hsame. split; [done|]. intros Hn. rewrite (stage_live _ _ _ Hst).
      unfold panic_step in Hpan. rewrite Hi in Hpan. cbn in Hpan. unfold stage_ok in Hst.
      destruct (sub_stage t); try done. destruct Hst as (_ & He & _). exfalso. by eapply Hn, elem_of_app; left.
  - destruct H as (h & Hh & Hl). exists h. split; [done|]. intros Hn. split; [by apply Hl|]. intros directly. unfold cancel_step.
    destruct (live_handle _ _) as [id'|] eqn:El; [by exists id'|]. pose proof (live_handle_None _ _ El id h Hh eq_refl). specialize (Hl Hn). congruence.
Qed.
End safety.

(** * The registrar of the gateway *)

Section registrar.
Context {St : Type} `{RunStore St}.

(** The run manager is a registrar, whatever its store does. *)
#[export] Instance manager_registrar_laws as_error : RunRegistrarLaws (manager_registrar (St:=St) as_error).
Proof.
  split; cbn.
  - intros now run m Hn. unfold insert_run, update_run. rewrite Hn. by destruct (persist_run_candidate run m).
  - intros now run cur m Hc Hr. unfold update_run. rewrite Hc, (proj2 (Z.ltb_lt _ _) Hr).
    destruct (persist_run_candidate run m) as [store|e]; cbn; [done|].
    destruct (is_active (run_status cur) && _) eqn:E; cbn; [|eauto].
    split; [intros id Hne; by rewrite lookup_insert_ne|]. rewrite lookup_insert_eq. eexists. split; [done|].
    unfold quarantine. destruct (run_transition _ _ _) as [r o] eqn:Et. cbn.
    destruct (run_transition_cases _ _ _ _ _ Et) as [[-> _]|[-> _]]; auto.
Qed.
End registrar.

(** * The end of a run *)

Section ends.
Context {Reg : Type} `{RR : RunRegistrar Reg} `{!RunRegistrarLaws RR}.

(** How the loop ended: [None] when it was stopped, whoever saw it. *)
Definition end_of (e : LoopEnd) : option (Result RunOutput AlmsError) :=
  match e with
  | TokenFired => None
  | LoopReturned (Ok output) => Some (Ok output)
  | LoopReturned (Err err) => if bool_decide (subagent_error_status err = TaskCancelled) then None else Some (Err err)
  end.

Definition end_transition (e : LoopEnd) : RunTransition :=
  match end_of e with
  | None => Cancel "cancelled"
  | Some (Ok output) => Complete (ro_response output) (ro_usage output)
  | Some (Err err) => Fail (alms_error_to_string err) "failed"
  end.

Definition end_answer (e : LoopEnd) : Result string AlmsError * SubagentRunOutcome * TaskStatus :=
  match end_of e with
  | None => (Err (Runtime "Subagent was cancelled"), OutcomeCancelled, TaskCancelled)
  | Some (Ok output) => (Ok (ro_response output), OutcomeCompleted (ro_usage output), TaskCompleted)
  | Some (Err err) => (Err err, OutcomeFailed (alms_error_to_string err), TaskFailed)
  end.

Lemma running_transition now run t : run_status run = Running → (run_lifecycle_revision run < MAX_LIFECYCLE_REVISION)%Z →
  run_legal t Running = true → (run_transition now run t).1 = run_effect now run t.
Proof.
  intros Hs Hr Ht. unfold run_transition. rewrite Hs, decide_False by (by destruct t). rewrite Ht. cbn.
  by rewrite (proj2 (Z.leb_gt _ _) Hr).
Qed.

Lemma mark_effect now run t : (let '(r, o) := run_transition now run t in (r, is_applied o)).1 = (run_transition now run t).1.
Proof. by destruct (run_transition now run t). Qed.

Lemma ended_run_effect now run e : run_status run = Running → (run_lifecycle_revision run < MAX_LIFECYCLE_REVISION)%Z →
  ended_run now (outcome_of e) run = run_effect now run (end_transition e).
Proof.
  intros Hs Hr. unfold ended_run, mark_completed, mark_failed, mark_cancelled, end_transition, outcome_of, end_of.
  destruct e as [|[output|err]]; [| |case_bool_decide]; cbn; rewrite mark_effect; by apply running_transition.
Qed.

Lemma outcome_answer id e : let o := outcome_of e in
  (dispatch_answer (Some (task_result id o)) (oc_error o), terminal_outcome o, oc_status o) = end_answer e.
Proof. unfold end_answer, outcome_of, end_of. destruct e as [|[output|err]]; [done..|]. by case_bool_decide. Qed.

(** Everyone hears the same end.  When the end of a registered run is stored,
    the record of the run, the subagent's own session, the status of its task and
    the answer of the caller that waits are those of what the agent loop returned:
    its reply, the very error it failed with, or a cancellation, whichever arm of
    the race saw the token.  When the store refuses, all of them say that the end
    could not be stored, and the record is left running or is failed. *)
Theorem subagent_end_agrees now run reg id e :
  registered reg !! run_id run = Some run → run_status run = Running →
  (run_lifecycle_revision run < MAX_LIFECYCLE_REVISION)%Z →
  let '(reg', o) := commit_outcome now (Some run) (outcome_of e) (Some reg) in
  let stored := reg' ≫= λ r, registered r !! run_id run in
  let heard := (dispatch_answer (Some (task_result id o)) (oc_error o), terminal_outcome o, oc_status o) in
  match (update_registered now (ended_run now (outcome_of e) run) reg).2 with
  | Ok _ => stored = Some (run_effect now run (end_transition e)) ∧ heard = end_answer e
  | Err err =>
      (∃ cur, stored = Some cur ∧ (cur = run ∨ run_status cur = Failed)) ∧
      heard = (Err (Runtime (update_message err)), OutcomeFailed (update_message err), TaskFailed)
  end.
Proof.
  intros Hreg Hs Hr. unfold commit_outcome. pose proof (ended_run_effect now run e Hs Hr) as He.
  assert (Hid : run_id (ended_run now (outcome_of e) run) = run_id run) by (rewrite He; by destruct (end_transition e)).
  pose proof (update_registered_ok now (ended_run now (outcome_of e) run) run reg) as Hlaw. rewrite Hid in Hlaw.
  specialize (Hlaw Hreg). rewrite He, run_effect_revision in Hlaw. specialize (Hlaw ltac:(lia)). rewrite <- He in Hlaw.
  destruct (update_registered now (ended_run now (outcome_of e) run) reg) as [reg' [u|err]]; cbn in *.
  - split; [|exact (outcome_answer id e)]. by rewrite Hlaw, lookup_insert_eq, He.
  - destruct Hlaw as [_ (cur & Hc & Hd)]. split; [by exists cur|done].
Qed.
End ends.

(** * Termination *)

Section winding_down.
Context `{U : UuidCrate} `{CH : ChronoCrate} {Ss Reg : Type} `{DB : SqliteStore Ss} `{RR : RunRegistrar Reg}.
Implicit Types (c : Coord Ss Reg).

(** Turns a task still has to take. *)
Definition turns_left (st : Stage) : nat :=
  match st with
  | Spawned => 9 | Registering => 8 | Looping _ => 7 | Concluded _ _ => 6 | Committed _ => 5 | Flipped _ _ => 4
  | Notified _ => 3 | Released _ => 2 | Retained => 1
  end.

(** The step a task takes from its stage, when the loop ends with [e]. *)
Definition own_step (i : nat) (st : Stage) (now : Z) (fresh : RunId) (e : LoopEnd) (ms : Z) : SubLabel :=
  match st with
  | Spawned => SStart i | Registering => SRegister i now fresh | Looping _ => SLoop i e | Concluded _ _ => SCommit i now
  | Committed _ => SFlip i | Flipped _ _ => SNotify i ms | Notified _ => SRelease i | Released _ => SDeliver i | Retained => SRemove i
  end.

(** The task a step belongs to. *)
Definition index_of (l : SubLabel) : option nat :=
  match l with
  | SStart i | SRegister i _ _ | SLoop i _ | SCommit i _ | SFlip i | SNotify i _ | SRelease i | SDeliver i | SRemove i | SPanic i => Some i
  | _ => None
  end.

Definition turns c : nat := sum_list_with (λ t, turns_left (sub_stage t)) (co_tasks c).

Lemma turns_insert (l : list Task) i t st : l !! i = Some t →
  sum_list_with (λ t, turns_left (sub_stage t)) (<[i := at_stage t st]> l) + turns_left (sub_stage t) =
  sum_list_with (λ t, turns_left (sub_stage t)) l + turns_left st.
Proof. revert i. induction l as [|u l IH]; intros [|i] Hi; try done; simpl in *; simplify_eq; cbn; [lia|]. specialize (IH i Hi). lia. Qed.

Lemma turns_delete (l : list Task) i t : l !! i = Some t →
  sum_list_with (λ t, turns_left (sub_stage t)) (delete i l) + turns_left (sub_stage t) = sum_list_with (λ t, turns_left (sub_stage t)) l.
Proof. revert i. induction l as [|u l IH]; intros [|i] Hi; try done; simpl in *; simplify_eq; cbn; [lia|]. specialize (IH i Hi). lia. Qed.

(** Subagents wind down.  A task is never stuck, since the step of its stage
    is always enabled once its loop returns; every step of a task, a panic
    included, uses up turns of the fixed number it has, and no step of anything
    else but a spawn gives any. *)
Theorem subagents_wind_down c :
  (∀ i t now fresh output ms, co_tasks c !! i = Some t →
     is_Some (sub_step (own_step i (sub_stage t) now fresh (LoopReturned output) ms) c)) ∧
  (∀ l c' new, sub_step l c = Some (c', new) →
     match l, index_of l with
     | SSpawn _ _ _ _ _, _ => turns c' = turns c + 9
     | _, Some _ => turns c' < turns c
     | _, None => turns c' = turns c
     end).
Proof.
  split.
  - intros i t now fresh output ms Hi. destruct (sub_stage t) eqn:Es; cbn; unfold start_step, register_step, loop_step, commit_step,
      flip_step, notify_step, release_step, deliver_step, remove_step; rewrite Hi; cbn; rewrite Es; cbn; try done.
    by destruct (commit_outcome _ _ _ _).
  - intros l c' new Hs. unfold turns.
    assert (Hmove : ∀ i t st (c1 : Coord Ss Reg), co_tasks c !! i = Some t → turns_left st < turns_left (sub_stage t) → co_tasks c1 = co_tasks c →
      sum_list_with (λ t, turns_left (sub_stage t)) (co_tasks (move i t st c1)) < sum_list_with (λ t, turns_left (sub_stage t)) (co_tasks c)).
    { intros i t st c1 Hi Hl Hc. cbn. rewrite Hc. pose proof (turns_insert _ i t st Hi). lia. }
    assert (Hdel : ∀ i t, co_tasks c !! i = Some t →
      sum_list_with (λ t, turns_left (sub_stage t)) (delete i (co_tasks c)) < sum_list_with (λ t, turns_left (sub_stage t)) (co_tasks c)).
    { intros i t Hi. pose proof (turns_delete _ i t Hi). assert (0 < turns_left (sub_stage t)) by (destruct (sub_stage t); cbn; lia). lia. }
    destruct l; sub_cases Hs; cbn [index_of]; try done;
      try (eapply Hmove; [eassumption|match goal with E : sub_stage _ = _ |- _ => rewrite E end; cbn; lia|done]); try by eapply Hdel.
    cbn. rewrite sum_list_with_app. cbn. lia.
Qed.
End winding_down.

(** * The relay to the parent *)

Section relay.
Variables (label : string) (parent_inv : option Uuid).

Definition noted_of (a : RelayAction) : option SubagentActivity := match a with NoteActivity a => Some a | _ => None end.
Definition shown_of (a : RelayAction) : option SubagentActivity :=
  match a with
  | Emit (FwSubagentActivity kind tool inv pinv source) =>
      if bool_decide (source = label)
      then Some {| sa_kind := kind; sa_tool := tool; sa_tool_invocation_id := inv; sa_parent_tool_invocation_id := pinv |} else None
  | _ => None
  end.
Definition is_denial (a : RelayAction) : option Uuid := match a with Deny id => Some id | _ => None end.
Definition warned_of (a : RelayAction) : option (string * string) :=
  match a with Emit (FwWarning code message (Some source)) => if bool_decide (source = label) then Some (code, message) else None | _ => None end.

Definition approval_of (e : RuntimeEvent) : option Uuid := match e with EvApprovalRequired id _ _ _ => Some id | _ => None end.
Definition warning_of (e : RuntimeEvent) : option (string * string) := match e with EvWarning code message _ => Some (code, message) | _ => None end.

(** The signal an event stands for. *)
Definition signal_of (e : RuntimeEvent) : option SubagentActivity :=
  (λ x, let '(kind, tool, inv) := x in
        {| sa_kind := kind; sa_tool := tool; sa_tool_invocation_id := inv; sa_parent_tool_invocation_id := parent_inv |}) <$> activity_of e.

(** Runs of one kind of delta count once. *)
Fixpoint collapse (last : option string) (l : list SubagentActivity) : list SubagentActivity :=
  match l with
  | [] => []
  | a :: l' =>
      if is_delta_kind (sa_kind a) && bool_decide (last = Some (sa_kind a)) then collapse last l' else a :: collapse (Some (sa_kind a)) l'
  end.

Definition coarse (a : RelayAction) : bool :=
  match a with
  | Emit (FwSubagentActivity _ _ _ _ source) => bool_decide (source = label)
  | Emit (FwWarning _ _ source) => bool_decide (source = Some label)
  | Emit _ => false
  | _ => true
  end.

(** What one event gives the parent. *)
Lemma relay_event e last : let '(last', actions) := relay_to_parent e label parent_inv last in
  omap is_denial actions = option_list (approval_of e) ∧ omap warned_of actions = option_list (warning_of e) ∧
  forallb coarse actions = true ∧
  match signal_of e with
  | Some a =>
      if is_delta_kind (sa_kind a) && bool_decide (last = Some (sa_kind a)) then actions = [] ∧ last' = last
      else actions = [NoteActivity a; emit_activity label a] ∧ last' = Some (sa_kind a)
  | None => last' = last ∧ omap noted_of actions = [] ∧ omap shown_of actions = []
  end.
Proof.
  destruct e; cbn; rewrite ?bool_decide_eq_true_2 by done; try done; case_bool_decide; cbn; rewrite ?bool_decide_eq_true_2 by done; done.
Qed.

Lemma shown_emit a : shown_of (emit_activity label a) = Some a.
Proof. unfold emit_activity. cbn. rewrite bool_decide_eq_true_2 by done. by destruct a. Qed.

Lemma omap_first {A} (f : RelayAction → option A) x l : omap f (x :: l) = option_list (f x) ++ omap f l.
Proof. simpl. by destruct (f x). Qed.

(** What a parent sees of its subagent.  Nothing of the content: only tagged
    activity signals and tagged warnings.  The signals are those of the events in
    order, a run of deltas of one kind counted once; every warning is passed on,
    every request for approval is denied, and each signal is recorded on the
    handle as it is sent. *)
Theorem relay_signals events last :
  let actions := relay_all events label parent_inv last in
  forallb coarse actions = true ∧
  omap shown_of actions = collapse last (omap signal_of events) ∧ omap noted_of actions = omap shown_of actions ∧
  omap warned_of actions = omap warning_of events ∧ omap is_denial actions = omap approval_of events.
Proof.
  cbn zeta. revert last. induction events as [|e events IH]; intros last; [done|]. cbn [relay_all].
  pose proof (relay_event e last) as He. destruct (relay_to_parent e label parent_inv last) as [last' actions].
  destruct He as (Hd & Hw & Hc & Ha). destruct (IH last') as (I1 & I2 & I3 & I4 & I5).
  rewrite forallb_app, Hc, I1, !omap_app, I2, I3, I4, I5, Hd, Hw. change (e :: events) with ([e] ++ events). rewrite !omap_app.
  split; [done|]. assert (E : ∀ {A} (f : RuntimeEvent → option A), omap f [e] = option_list (f e)) by (intros A f; cbn; by destruct (f e)).
  rewrite !E.
  assert (H : omap shown_of actions ++ collapse last' (omap signal_of events) = collapse last (option_list (signal_of e) ++ omap signal_of events) ∧
    omap noted_of actions = omap shown_of actions).
  { destruct (signal_of e) as [a|]; cbn [option_list option_rect app]; [|by destruct Ha as (-> & -> & ->)].
    cbn [collapse]. destruct (is_delta_kind _ && _); destruct Ha as [-> ->]; [done|].
    rewrite !omap_first, shown_emit. done. }
  destruct H as [H1 H2]. by rewrite H1, H2, I2, H1.
Qed.

Lemma relay_shape e last : let actions := (relay_to_parent e label parent_inv last).2 in
  actions = [] ∨ (∃ x, actions = [x] ∧ noted_of x = None ∧ shown_of x = None) ∨
  ∃ a, actions = [NoteActivity a; emit_activity label a].
Proof. destruct e; cbn; try case_bool_decide; eauto 8. Qed.

(** A session that attaches late is not behind.  Wherever the relay stands, the
    activity recorded on the handle is the last one sent to the parent, or the next. *)
Theorem snapshot_fresh events last done todo :
  relay_all events label parent_inv last = done ++ todo →
  omap noted_of done = omap shown_of done ∨
  ∃ a, omap noted_of done = omap shown_of done ++ [a] ∧ head (omap shown_of todo) = Some a.
Proof.
  revert last done. induction events as [|e events IH]; intros last done H; cbn [relay_all] in H.
  { symmetry in H. apply app_eq_nil in H as [-> ->]. by left. }
  pose proof (relay_shape e last) as He. destruct (relay_to_parent e label parent_inv last) as [last' actions]. cbn [snd] in He.
  destruct He as [->|[(x & -> & Hn & Hs)|(a & ->)]].
  - exact (IH _ _ H).
  - destruct done as [|y done]; [by left|]. injection H as <- H. specialize (IH _ _ H). by rewrite !omap_first, Hn, Hs.
  - pose proof (shown_emit a) as Hs. destruct done as [|y [|z done]]; [by left|injection H as <- <-|injection H as <- <- H].
    + right. exists a. by rewrite !omap_first, Hs.
    + destruct (IH _ _ H) as [E|(b & E & Hb)]; [left|right; exists b]; rewrite !omap_first, Hs; cbn; by rewrite E.
Qed.
End relay.

(** * Executions *)

Section running.
Context `{U : UuidCrate} `{CH : ChronoCrate} {Ss Reg : Type} `{DB : SqliteStore Ss} `{RR : RunRegistrar Reg}.
Implicit Types (c : Coord Ss Reg).

Definition label_fresh_b (l : SubLabel) c (outs : list SubOutput) : bool :=
  match l with
  | SSpawn _ _ id _ session =>
      match spawned_as id outs, session_by_id (co_sessions c) !! session with
      | None, None => forallb (λ t, negb (bool_decide (sub_session t = session))) (co_tasks c)
      | _, _ => false
      end
  | _ => true
  end.

Definition registry_stable_b (l : SubLabel) c : bool :=
  match l with
  | SSpawn i _ _ _ _ =>
      match co_spawning c !! i with
      | Some sp => match sq_subagent_name (sp_request sp) with Some n => String.eqb (canonical_subagent_name n (co_sessions c)) n | None => true end
      | None => true
      end
  | SReserve request _ _ _ => uuid_valid (agent_uuid (sq_parent_agent_id request))
  | _ => true
  end.

Lemma label_fresh_spec l c outs : label_fresh_b l c outs = true → label_fresh l c outs.
Proof.
  destruct l; try done. cbn. destruct (spawned_as _ _); [done|]. destruct (session_by_id _ !! _); [done|]. intros H.
  split_and!; [done..|]. intros t Ht E. apply list_elem_of_In in Ht. apply (proj1 (forallb_forall _ _) H) in Ht. by rewrite bool_decide_eq_true_2 in Ht.
Qed.

Lemma registry_stable_spec l c : registry_stable_b l c = true → registry_stable l c.
Proof.
  destruct l; try done. cbn. intros H sp n Hi Hn. rewrite Hi, Hn in H. by apply String.eqb_eq.
Qed.

(** Runs a schedule, checking ids and what else is asked of the labels. *)
Fixpoint checked_run (ok : SubLabel → Coord Ss Reg → bool) (ls : list SubLabel) c (outs : list SubOutput)
    : option (Coord Ss Reg * list SubOutput) :=
  match ls with
  | [] => Some (c, outs)
  | l :: ls' =>
      if label_fresh_b l c outs && ok l c
      then match sub_step l c with Some (c', new) => checked_run ok ls' c' (outs ++ new) | None => None end
      else None
  end.

Lemma checked_run_reachable (ok : SubLabel → Coord Ss Reg → bool) (P : SubLabel → Coord Ss Reg → Prop) ls c outs c' outs' :
  (∀ l c, ok l c = true → P l c) →
  sub_reachable P c outs → checked_run ok ls c outs = Some (c', outs') → sub_reachable P c' outs'.
Proof.
  intros Hok. revert c outs. induction ls as [|l ls IH]; intros c outs Hre H; cbn in H; [by simplify_eq|].
  destruct (label_fresh_b l c outs) eqn:Ef; [|done]. destruct (ok l c) eqn:Er; [|done]. cbn in H.
  destruct (sub_step l c) as [[c1 new]|] eqn:Es; [|done].
  apply (IH _ _ ltac:(eapply reach_step; [exact Hre|by apply Hok|by apply label_fresh_spec|exact Es]) H).
Qed.
End running.

Section witnesses.
Import SimpleUuid SimpleChrono.

(** A registry with at most one agent. *)
Local Definition Registry : Type := option (AgentId * string).
Local Instance one_agent : SqliteStore Registry := {
  save_session _ st := (Ok tt, st); save_message _ _ st := (Ok tt, st); save_audit _ st := (Ok tt, st);
  save_summary _ _ st := (Ok tt, st); delete_session _ st := (Ok tt, st); load_all_sessions _ := Ok [];
  load_messages _ _ := Ok []; load_audit _ _ := Ok []; load_summary _ _ := Ok None;
  load_agent_by_name name st :=
    Ok match st with Some (id, n) => if eq_ignore_ascii_case n name then Some (id, n) else None | None => None end;
}.
Local Instance no_table : RunStore unit := {|
  run_rows _ := ∅; save_run _ _ := Ok tt; save_run_with_initial_message _ _ _ := Ok (0%Z, tt);
  mark_stale_runs_failed _ := Ok (0, tt); load_all_runs _ := Ok [];
|}.
Local Instance registrar : RunRegistrar (RunManager unit) := manager_registrar Runtime.

Local Definition parent : AgentId := MkAgentId (MkUuid 1).
Local Definition chat : SessionId := MkSessionId (MkUuid 5).
Local Definition task_a : TaskId := MkUuid 11.
Local Definition task_b : TaskId := MkUuid 12.
Local Definition new_agent : AgentId := MkAgentId (MkUuid 20).
Local Definition session_a : SessionId := MkSessionId (MkUuid 31).
Local Definition session_b : SessionId := MkSessionId (MkUuid 32).
Local Definition invoke (name : option string) : SubagentRequest := mkRequest "look around" chat parent None name None.
Local Definition m0 (r : Registry) : SessionManager Registry := set_store r (session_manager_new session_config_default).
Local Definition c0 : Coord Registry (RunManager unit) := coordinator_new (m0 None) (Some manager_new) true.
Local Definition reply : RunOutput := {| ro_response := "found it"; ro_usage := token_usage_zero; ro_tool_calls := []; ro_reasoning := None |}.
Local Definition any (l : SubLabel) (c : Coord Registry (RunManager unit)) : bool := true.
Local Definition run_from (ok : SubLabel → Coord Registry (RunManager unit) → bool) (ls : list SubLabel)
    (s : Coord Registry (RunManager unit) * list SubOutput) : Coord Registry (RunManager unit) * list SubOutput :=
  default s (checked_run ok ls s.1 s.2).

Local Lemma run_from_reachable ok (P : SubLabel → Coord Registry (RunManager unit) → Prop) ls s :
  (∀ l c, ok l c = true → P l c) → sub_reachable P s.1 s.2 → sub_reachable P (run_from ok ls s).1 (run_from ok ls s).2.
Proof.
  intros Hok Hre. unfold run_from. destruct (checked_run ok ls s.1 s.2) as [[c' outs']|] eqn:E; [|done].
  by eapply checked_run_reachable.
Qed.

Local Lemma c0_reachable P : sub_reachable P c0 [].
Proof. apply reach_new. eapply index_ok_ext; [|apply (index_ok_new session_config_default)]. by split_and!. Qed.

(** The registry at a later moment. *)
Local Definition registered_later (r : Registry) (s : Coord Registry (RunManager unit) * list SubOutput) :=
  (put_world (set_store r (co_sessions s.1)) (co_registrar s.1) s.1, s.2).

Local Definition raced : Coord Registry (RunManager unit) * list SubOutput :=
  run_from any [SSpawn 0 1 task_a new_agent session_a; SReserve (invoke (Some "Scout")) true None false;
                SSpawn 0 2 task_b new_agent session_b; SStart 0; SStart 1]
    (registered_later (Some (new_agent, "Scout")) (run_from any [SReserve (invoke (Some "scout")) true None false] (c0, []))).

(** A name registered at the wrong moment puts two subagents in one session.
    An invocation of "scout" takes the guard of that name while no such agent is
    registered; "Scout" is registered before its session is derived, which is then
    the session of "Scout"; an invocation of "Scout" takes the guard of the other
    spelling and gets the same session.  No read of the store failed. *)
Theorem registration_race_shares_session :
  sub_reachable (λ _ _, True) raced.1 raced.2 ∧
  map (λ t, (sub_id t, sq_subagent_name (sub_request t), sub_session t)) (co_tasks raced.1) =
    [(task_a, Some "scout", session_a); (task_b, Some "Scout", session_a)] ∧
  forallb (λ t, holds_name (sub_stage t)) (co_tasks raced.1) = true.
Proof.
  split; [|by vm_compute]. unfold raced. apply run_from_reachable; [done|]. apply reach_world.
  - apply run_from_reachable; [done|]. apply c0_reachable.
  - split; [|by intros t key Ht%elem_of_nil]. apply (index_ok_ext (session_manager_new session_config_default)); [by vm_compute|apply index_ok_new].
Qed.

Local Definition stable (l : SubLabel) (c : Coord Registry (RunManager unit)) : bool := registry_stable_b l c.

(** Two named subagents of one parent at work, both in the background. *)
Local Definition two_at_work : Coord Registry (RunManager unit) * list SubOutput :=
  run_from stable [SReserve (invoke (Some "scout")) true None false; SReserve (invoke (Some "tester")) true None false;
    SSpawn 0 1 task_a new_agent session_a; SSpawn 0 2 task_b new_agent session_b;
    SStart 0; SStart 1; SRegister 0 3 (MkRunId (MkUuid 41)); SRegister 1 4 (MkRunId (MkUuid 42))] (c0, []).

(** The first is cancelled by the user and sees it, the second panics. *)
Local Definition both_over : Coord Registry (RunManager unit) * list SubOutput :=
  run_from stable [SCancel session_a true; SLoop 0 TokenFired; SCommit 0 5; SFlip 0; SNotify 0 77; SPanic 1] two_at_work.

Local Lemma two_at_work_reachable : sub_reachable registry_stable two_at_work.1 two_at_work.2.
Proof. apply run_from_reachable; [apply registry_stable_spec|]. apply c0_reachable. Qed.

Local Lemma both_over_reachable : sub_reachable registry_stable both_over.1 both_over.2.
Proof. apply run_from_reachable; [apply registry_stable_spec|]. apply two_at_work_reachable. Qed.

Lemma named_subagents_exclusive_witness :
  ∃ t u, co_tasks two_at_work.1 = [t; u] ∧ sub_session t ≠ sub_session u.
Proof.
  destruct (co_tasks two_at_work.1) as [|t [|u [|v l]]] eqn:E; [vm_compute in E; discriminate E..| |vm_compute in E; discriminate E].
  exists t, u. split; [reflexivity|].
  pose proof (f_equal head E) as Et. pose proof (f_equal (λ l, l !! 1%nat) E) as Eu. vm_compute in Et, Eu.
  injection Et as <-. injection Eu as <-.
  eapply (named_subagents_exclusive _ _ 0 1 _ _ "scout" "tester" two_at_work_reachable); rewrite ?E; try reflexivity. done.
Defined.

Lemma subagent_completes_once_witness :
  map (λ d, (sc_task_id d, sc_status d, sc_cancelled_directly d)) (co_completions both_over.1) =
    [(task_a, TaskCancelled, true); (task_b, TaskFailed, false)] ∧
  ∃ d, filter (λ d, sc_task_id d = task_a) (co_completions both_over.1) = [d].
Proof.
  split; [vm_compute; reflexivity|].
  pose proof (subagent_completes_once _ _ _ task_a (invoke (Some "scout")) session_a true both_over_reachable ltac:(vm_compute; reflexivity)) as H.
  replace (true && co_channel both_over.1 && negb (working task_a both_over.1)) with true in H by (vm_compute; reflexivity).
  destruct H as (d & Hd & _). exists d. exact Hd.
Defined.

Lemma subagent_cancel_truthful_witness :
  ∃ c', cancel_step session_a true both_over.1 = (c', [CancelRefused session_a]) ∧ c' = both_over.1.
Proof.
  destruct (subagent_cancel_truthful _ _ _ session_a true both_over.1 [CancelRefused session_a] both_over_reachable ltac:(vm_compute; reflexivity))
    as [(id & rq & b & H & _)|(_ & H & _)]; [discriminate H|]. exists both_over.1. split; [vm_compute; reflexivity|exact H].
Defined.

Lemma names_held_exactly_witness :
  snd (reserve_step (invoke (Some "SCOUT")) true None false two_at_work.1) = [RefusedName (parent, "scout")] ∧ NoDup (holders two_at_work.1).
Proof.
  split; [vm_compute; reflexivity|]. apply (names_held_exactly _ _ _ (invoke None) true None false two_at_work_reachable).
Defined.

Lemma panicked_handle_stays_witness :
  ∃ h, co_subagents both_over.1 !! task_b = Some h ∧ is_live (h_status h) = true.
Proof.
  destruct (panicked_handle_stays _ _ _ task_b both_over_reachable ltac:(vm_compute; reflexivity)) as (h & Hh & H). exists h. split; [exact Hh|].
  apply H. intros o Ho. vm_compute in Ho. repeat (apply elem_of_cons in Ho as [Ho|Ho]; [discriminate Ho|]). by apply elem_of_nil in Ho.
Defined.

Local Definition running : Run := new_subagent_run 3 (MkRunId (MkUuid 41)) session_a new_agent (invoke (Some "scout")).
Local Definition recorded : RunManager unit := put_runs {[run_id running := running]} None manager_new.

Lemma subagent_end_agrees_witness :
  let '(reg', o) := commit_outcome 9 (Some running) (outcome_of (LoopReturned (Ok reply))) (Some recorded) in
  dispatch_answer (Some (task_result task_a o)) (oc_error o) = Ok "found it".
Proof.
  pose proof (subagent_end_agrees (RR:=registrar) 9 running recorded task_a (LoopReturned (Ok reply)) ltac:(vm_compute; reflexivity) ltac:(vm_compute; reflexivity)
    ltac:(vm_compute; reflexivity)) as H.
  replace (update_registered 9 (ended_run 9 (outcome_of (LoopReturned (Ok reply))) running) recorded).2 with (@Ok unit AlmsError tt) in H
    by (vm_compute; reflexivity).
  destruct (commit_outcome 9 (Some running) (outcome_of (LoopReturned (Ok reply))) (Some recorded)) as [reg' o].
  destruct H as [_ H]. exact (f_equal (λ x, x.1.1) H).
Defined.

Lemma snapshot_fresh_witness :
  omap noted_of (take 3 (relay_all [EvTokenDelta "a" None; EvToolStart task_a "fs_read" JNull None None; EvTokenDelta "b" None] "scout" None None)) =
    map (λ k, {| sa_kind := k.1.1; sa_tool := k.1.2; sa_tool_invocation_id := k.2; sa_parent_tool_invocation_id := None |})
      [("writing", None, None); ("tool_start", Some "fs_read", Some task_a)].
Proof.
  destruct (snapshot_fresh "scout" None [EvTokenDelta "a" None; EvToolStart task_a "fs_read" JNull None None; EvTokenDelta "b" None] None
    (take 3 (relay_all [EvTokenDelta "a" None; EvToolStart task_a "fs_read" JNull None None; EvTokenDelta "b" None] "scout" None None))
    (drop 3 (relay_all [EvTokenDelta "a" None; EvToolStart task_a "fs_read" JNull None None; EvTokenDelta "b" None] "scout" None None))
    ltac:(symmetry; apply take_drop)) as [H|(a & H & Ha)]; [vm_compute in H; discriminate H|].
  vm_compute in Ha. rewrite H. injection Ha as <-. vm_compute. reflexivity.
Defined.
End witnesses.
