(* ===== verification/F32.v ===== *)
(** The 32-bit floats of the configuration: [f32] as the standard library's
    model of IEEE 754 binary32, the literals the code compares with, and the
    casts [usize as f32] and [f32 as usize].  Everything computes. *)
From Stdlib Require Import ZArith SpecFloat.
From S2P Require Import Prelude.

Definition f32 : Type := spec_float.

Definition f32_prec : Z := 24.
Definition f32_emax : Z := 128.

Definition f32_add : f32 → f32 → f32 := SFadd f32_prec f32_emax.
Definition f32_mul : f32 → f32 → f32 := SFmul f32_prec f32_emax.
Definition f32_le : f32 → f32 → bool := SFleb.

Definition f32_is_finite (x : f32) : bool :=
  match x with S754_zero _ | S754_finite _ _ _ => true | S754_infinity _ | S754_nan => false end.

(** [(lo..=hi).contains(&x)]. *)
Definition f32_between (lo hi x : f32) : bool := f32_le lo x && f32_le x hi.

(** [n as f32]: rounded to nearest, ties to even. *)
Definition f32_of_Z (n : Z) : f32 := binary_normalize f32_prec f32_emax n 0 false.

(** [x as usize]: truncated and saturating; [NaN] is [0]. *)
Definition f32_to_usize (x : f32) : Z :=
  match x with
  | S754_finite false m e => Z.min (Z.shiftl (Z.pos m) e) u64_max
  | S754_infinity false => u64_max
  | _ => 0
  end%Z.

(** The nearest binary32 of the decimal literals. *)
Definition f32_0_10 : f32 := S754_finite false 13421773 (-27).
Definition f32_0_20 : f32 := S754_finite false 13421773 (-26).
Definition f32_0_40 : f32 := S754_finite false 13421773 (-25).
Definition f32_0_50 : f32 := S754_finite false 8388608 (-24).
Definition f32_0_60 : f32 := S754_finite false 10066330 (-24).
Definition f32_0_80 : f32 := S754_finite false 13421773 (-24).
Definition f32_0_95 : f32 := S754_finite false 15938355 (-24).

(** Each literal is within half a unit in the last place of its decimal. *)
Example f32_literals :
  Forall (λ '(num, m, e), (Z.abs (2 * (num * 2 ^ e - 100 * m)) ≤ 100)%Z)
    [(10, 13421773, 27); (20, 13421773, 26); (40, 13421773, 25); (50, 8388608, 24);
     (60, 10066330, 24); (80, 13421773, 24); (95, 15938355, 24)]%Z.
Proof. repeat (constructor; [vm_compute; discriminate|]). constructor. Qed.

Example f32_casts :
  f32_to_usize (f32_mul f32_0_80 (f32_of_Z 128000)) = 102400%Z ∧
  f32_to_usize (f32_mul f32_0_40 (f32_of_Z 128000)) = 51200%Z ∧
  f32_le (f32_add f32_0_40 f32_0_10) f32_0_80 = true.
Proof. repeat split; vm_compute; reflexivity. Qed.
