(* ===== verification/LlmClient.v ===== *)
(** Which provider a model client talks to, and with which key:
    [alms-runtime/src/llm_client/mod.rs] (the part that is no I/O),
    [alms-runtime/src/summary_client.rs], the provider table of
    [alms-core/src/config/types.rs] and the lookups of
    [alms-core/src/secrets.rs].

    A client is its configuration and the wire protocol it speaks.  The secrets
    file is the map it was read into; an environment variable is looked up in
    [env]. *)
From S2P Require Import Prelude TextEdit.

(** * Providers *)

Inductive ProviderKind := OpenAiCompatible | KindAnthropic | KindGemini.
#[export] Instance provider_kind_eq_dec : EqDecision ProviderKind.
Proof. solve_decision. Defined.

Inductive AuthScheme := Bearer | Header (name : string).

Record ProviderQuirks := { tool_gap_fill : bool; drop_empty_content : bool }.
Definition quirks_default : ProviderQuirks := {| tool_gap_fill := false; drop_empty_content := false |}.

Record ProviderEntry := {
  pe_kind : ProviderKind;
  pe_base_url : string;
  pe_api_key_env : option string;
  pe_api_key : option string;
  pe_model : option string;
  pe_auth_scheme : AuthScheme;
  pe_quirks : ProviderQuirks;
}.

(** The keys of a [SecretsStore]. *)
Definition SecretsStore : Type := gmap string string.

Definition resolve_key (provider : string) (s : SecretsStore) : option string := s !! provider.

(** [SecretsStore::masked_key], on the characters of the key. *)
Definition masked_key (key : string) : string :=
  let chars := str_chars key in
  if Nat.leb (length chars) 12 then scat (replicate (length chars) "*")
  else scat (take 4 chars) +:+ "..." +:+ scat (drop (length chars - 4) chars).

(** * The client *)

Inductive Protocol := OpenAi | Anthropic | Gemini.
#[export] Instance protocol_eq_dec : EqDecision Protocol.
Proof. solve_decision. Defined.

Record LlmConfig := {
  lc_provider : string;
  lc_api_key : string;
  lc_base_url : string;
  lc_default_model : string;
  lc_timeout_secs : Z;
  lc_mock : bool;
  lc_stream_chunk_timeout_secs : Z;
  lc_auth_scheme : AuthScheme;
  lc_quirks : ProviderQuirks;
  lc_providers : gmap string ProviderEntry;
}.

Record LlmClient := { lm_config : LlmConfig; lm_protocol : Protocol }.

Definition protocol_of_kind (k : ProviderKind) : Protocol :=
  match k with KindAnthropic => Anthropic | KindGemini => Gemini | OpenAiCompatible => OpenAi end.

Definition sugar_kind (provider : string) : ProviderKind :=
  if String.eqb provider "anthropic" then KindAnthropic
  else if String.eqb provider "gemini" then KindGemini
  else OpenAiCompatible.

(** [resolve_protocol]. *)
Definition resolve_protocol (c : LlmConfig) : Protocol :=
  match lc_providers c !! lc_provider c with
  | Some entry => protocol_of_kind (pe_kind entry)
  | None => protocol_of_kind (sugar_kind (lc_provider c))
  end.

Definition OPENROUTER_URL : string := "https://openrouter.ai/api/v1".
Definition ANTHROPIC_URL : string := "https://api.anthropic.com/v1".
Definition GEMINI_URL : string := "https://generativelanguage.googleapis.com/v1beta".
Definition OPENAI_URL : string := "https://api.openai.com/v1".

Definition set_url (url : string) (c : LlmConfig) : LlmConfig := {|
  lc_provider := lc_provider c; lc_api_key := lc_api_key c; lc_base_url := url; lc_default_model := lc_default_model c;
  lc_timeout_secs := lc_timeout_secs c; lc_mock := lc_mock c; lc_stream_chunk_timeout_secs := lc_stream_chunk_timeout_secs c;
  lc_auth_scheme := lc_auth_scheme c; lc_quirks := lc_quirks c; lc_providers := lc_providers c |}.

(** [LlmClient::new] once the HTTP client was built. *)
Definition client_new (c : LlmConfig) : LlmClient :=
  let p := resolve_protocol c in
  let c := match p with
           | Anthropic => if String.eqb (lc_base_url c) OPENROUTER_URL then set_url ANTHROPIC_URL c else c
           | Gemini => if String.eqb (lc_base_url c) OPENROUTER_URL then set_url GEMINI_URL c else c
           | OpenAi => c
           end in
  {| lm_config := c; lm_protocol := p |}.

Definition provider (l : LlmClient) : string := lc_provider (lm_config l).
Definition default_model (l : LlmClient) : string := lc_default_model (lm_config l).
Definition api_key (l : LlmClient) : string := lc_api_key (lm_config l).
Definition base_url (l : LlmClient) : string := lc_base_url (lm_config l).
Definition providers_snapshot (l : LlmClient) : gmap string ProviderEntry := lc_providers (lm_config l).
Definition is_mock (l : LlmClient) : bool := lc_mock (lm_config l).
Definition has_api_key (l : LlmClient) : bool := negb (String.eqb (api_key l) "").

(** [provider_kind]; the gateway's [provider_kind_for_name] on a name. *)
Definition provider_kind_for_name (provider : string) (providers : gmap string ProviderEntry) : ProviderKind :=
  match providers !! provider with
  | Some entry => pe_kind entry
  | None => sugar_kind provider
  end.

Definition provider_kind (l : LlmClient) : ProviderKind := provider_kind_for_name (provider l) (providers_snapshot l).

Definition with_model (model : string) (l : LlmClient) : LlmClient :=
  let c := lm_config l in
  {| lm_config := {| lc_provider := lc_provider c; lc_api_key := lc_api_key c; lc_base_url := lc_base_url c;
                     lc_default_model := model; lc_timeout_secs := lc_timeout_secs c; lc_mock := lc_mock c;
                     lc_stream_chunk_timeout_secs := lc_stream_chunk_timeout_secs c; lc_auth_scheme := lc_auth_scheme c;
                     lc_quirks := lc_quirks c; lc_providers := lc_providers c |};
     lm_protocol := lm_protocol l |}.

Definition with_key (key : string) (l : LlmClient) : LlmClient :=
  let c := lm_config l in
  {| lm_config := {| lc_provider := lc_provider c; lc_api_key := key; lc_base_url := lc_base_url c;
                     lc_default_model := lc_default_model c; lc_timeout_secs := lc_timeout_secs c; lc_mock := lc_mock c;
                     lc_stream_chunk_timeout_secs := lc_stream_chunk_timeout_secs c; lc_auth_scheme := lc_auth_scheme c;
                     lc_quirks := lc_quirks c; lc_providers := lc_providers c |};
     lm_protocol := lm_protocol l |}.

(** Everything [apply_provider] derives from the provider but the key. *)
Definition retarget (provider : string) (l : LlmClient) : LlmClient :=
  let c := lm_config l in
  let '(protocol, url, auth, quirks, model) :=
    match lc_providers c !! provider with
    | Some e => (protocol_of_kind (pe_kind e), pe_base_url e, pe_auth_scheme e, pe_quirks e, default (lc_default_model c) (pe_model e))
    | None =>
        let '(url, auth) :=
          if String.eqb provider "anthropic" then (ANTHROPIC_URL, Header "x-api-key")
          else if String.eqb provider "gemini" then (GEMINI_URL, Header "x-goog-api-key")
          else if String.eqb provider "openrouter" then (OPENROUTER_URL, Bearer)
          else if String.eqb provider "openai" then (OPENAI_URL, Bearer)
          else (lc_base_url c, lc_auth_scheme c) in
        (protocol_of_kind (sugar_kind provider), url, auth, quirks_default, lc_default_model c)
    end in
  {| lm_config := {| lc_provider := provider; lc_api_key := lc_api_key c; lc_base_url := url; lc_default_model := model;
                     lc_timeout_secs := lc_timeout_secs c; lc_mock := lc_mock c;
                     lc_stream_chunk_timeout_secs := lc_stream_chunk_timeout_secs c; lc_auth_scheme := auth;
                     lc_quirks := quirks; lc_providers := lc_providers c |};
     lm_protocol := protocol |}.

Section env.
(** [std::env::var]. *)
Context (env : string → option string).

(** [filter(|v| !v.is_empty())]. *)
Definition non_empty (o : option string) : option string :=
  match o with Some s => if String.eqb s "" then None else Some s | None => None end.

(** [ProviderEntry::resolve_api_key]. *)
Definition resolve_api_key (e : ProviderEntry) : option string :=
  match non_empty (pe_api_key_env e ≫= env) with
  | Some key => Some key
  | None => non_empty (pe_api_key e)
  end.

Definition resolve_key_from (provider : string) (providers : gmap string ProviderEntry) (s : SecretsStore) : option string :=
  match resolve_key provider s with
  | Some key => Some key
  | None => providers !! provider ≫= resolve_api_key
  end.

Definition apply_provider (provider : string) (secrets : option SecretsStore) (l : LlmClient) : LlmClient :=
  let old_provider := lc_provider (lm_config l) in
  let l' := retarget provider l in
  match secrets with
  | Some s => with_key (default "" (resolve_key_from provider (providers_snapshot l) s)) l'
  | None => if String.eqb old_provider provider then l' else with_key "" l'
  end.

Definition with_provider (provider : string) (l : LlmClient) : LlmClient := apply_provider provider None l.
Definition with_provider_and_secrets (provider : string) (s : SecretsStore) (l : LlmClient) : LlmClient :=
  apply_provider provider (Some s) l.

Definition with_secrets (s : SecretsStore) (l : LlmClient) : LlmClient :=
  with_key (default "" (resolve_key_from (provider l) (providers_snapshot l) s)) l.

(** * The client of the summaries *)

Definition build_summary_client (l : LlmClient) (summary_provider summary_model : option string) (secrets : option SecretsStore)
    : LlmClient :=
  match summary_provider with
  | None => l
  | Some p =>
      let switched := match secrets with
                      | Some s => with_provider_and_secrets p s l
                      | None => with_provider p l
                      end in
      match summary_model with
      | Some m => with_model m switched
      | None => if String.eqb (default_model switched) (default_model l) then with_model "" switched else switched
      end
  end.
End env.

(** * What they show *)

Section facts.
Context (env : string → option string).

(** Where a switch knows the address: an entry, or one of the built-in names. *)
Definition addressable (provider : string) (providers : gmap string ProviderEntry) : bool :=
  bool_decide (is_Some (providers !! provider)) || bool_decide (provider ∈ ["anthropic"; "gemini"; "openrouter"; "openai"]).

(** What no switch changes. *)
Definition same_rest (l1 l2 : LlmClient) : Prop :=
  providers_snapshot l1 = providers_snapshot l2 ∧ is_mock l1 = is_mock l2 ∧
  lc_timeout_secs (lm_config l1) = lc_timeout_secs (lm_config l2) ∧
  lc_stream_chunk_timeout_secs (lm_config l1) = lc_stream_chunk_timeout_secs (lm_config l2).

#[export] Instance same_rest_equiv : Equivalence same_rest.
Proof.
  split; [done|by intros l1 l2 (?&?&?&?)|].
  intros l1 l2 l3 (E1 & E2 & E3 & E4) (F1 & F2 & F3 & F4). repeat split; congruence.
Qed.

Lemma retarget_rest p l : same_rest (retarget p l) l.
Proof. unfold retarget. destruct (_ !! p); [done|]. by repeat case_match. Qed.

Lemma retarget_provider p l : provider (retarget p l) = p.
Proof. unfold retarget. by repeat case_match. Qed.

Lemma retarget_key p l : api_key (retarget p l) = api_key l.
Proof. unfold retarget. by repeat case_match. Qed.

Lemma apply_provider_rest p secrets l : same_rest (apply_provider env p secrets l) l.
Proof.
  pose proof (retarget_rest p l) as H. unfold apply_provider.
  destruct secrets; [done|]. by destruct (String.eqb _ _).
Qed.

Lemma apply_provider_name p secrets l : provider (apply_provider env p secrets l) = p.
Proof.
  pose proof (retarget_provider p l) as H. unfold apply_provider.
  destruct secrets; [done|]. by destruct (String.eqb _ _).
Qed.

Lemma apply_provider_model p secrets l :
  default_model (apply_provider env p secrets l) = default (default_model l) (providers_snapshot l !! p ≫= pe_model).
Proof.
  unfold apply_provider, providers_snapshot. enough (E : default_model (retarget p l) =
    default (default_model l) (lc_providers (lm_config l) !! p ≫= pe_model)).
  { destruct secrets; [done|]. by destruct (String.eqb _ _). }
  unfold retarget, default_model. destruct (_ !! p); [done|]. by repeat (destruct (String.eqb p _); [done|]).
Qed.

(** The key a client has after a switch: resolved for the new provider, or,
    without a store of secrets, kept only by the same provider. *)
Lemma apply_provider_key p secrets l :
  api_key (apply_provider env p secrets l) =
  match secrets with
  | Some s => default "" (resolve_key_from env p (providers_snapshot l) s)
  | None => if String.eqb (provider l) p then api_key l else ""
  end.
Proof.
  unfold apply_provider. destruct secrets; [done|]. fold (provider l).
  destruct (String.eqb _ _); [|done]. apply retarget_key.
Qed.

Lemma retarget_anywhere p l1 l2 :
  addressable p (providers_snapshot l1) = true → same_rest l1 l2 →
  with_model "" (with_key "" (retarget p l1)) = with_model "" (with_key "" (retarget p l2)).
Proof.
  unfold addressable. intros Ha (E1 & E2 & E3 & E4).
  destruct l1 as [[p1 k1 u1 m1 t1 mo1 c1 a1 q1 ps1] w1], l2 as [[p2 k2 u2 m2 t2 mo2 c2 a2 q2 ps2] w2].
  unfold retarget, providers_snapshot, is_mock in *. simpl in *. subst. destruct (_ !! p) as [e|] eqn:E; [done|].
  apply orb_true_iff in Ha as [Ha%bool_decide_eq_true_1|Ha%bool_decide_eq_true_1]; [by destruct Ha|].
  repeat (apply elem_of_cons in Ha as [->|Ha]; [done|]). by apply elem_of_nil in Ha.
Qed.

Lemma client_eq l1 l2 :
  with_model "" (with_key "" l1) = with_model "" (with_key "" l2) → api_key l1 = api_key l2 → default_model l1 = default_model l2 →
  l1 = l2.
Proof.
  destruct l1 as [[p1 k1 u1 m1 t1 mo1 c1 a1 q1 ps1] w1], l2 as [[p2 k2 u2 m2 t2 mo2 c2 a2 q2 ps2] w2].
  unfold with_model, with_key, api_key, default_model. simpl. intros [=] E1 E2. by subst.
Qed.

(** A switch to an addressable provider and a model forgets the client it
    starts from. *)
Lemma switch_forgets p m s l1 l2 :
  addressable p (providers_snapshot l1) = true → same_rest l1 l2 →
  with_model m (with_provider_and_secrets env p s l1) = with_model m (with_provider_and_secrets env p s l2).
Proof.
  intros Ha Hr. pose proof (retarget_anywhere p l1 l2 Ha Hr) as H.
  assert (E : providers_snapshot l1 = providers_snapshot l2) by apply Hr.
  apply client_eq; [exact H| |done].
  change (api_key (apply_provider env p (Some s) l1) = api_key (apply_provider env p (Some s) l2)).
  by rewrite !apply_provider_key, E.
Qed.

(** A key that [s] or the entry of [p] holds now. *)
Definition key_of (p : string) (l : LlmClient) (s : SecretsStore) (key : string) : Prop :=
  s !! p = Some key ∨ ∃ e, providers_snapshot l !! p = Some e ∧ resolve_api_key env e = Some key.

Lemma resolved_key_of p l s key :
  resolve_key_from env p (providers_snapshot l) s = Some key → key_of p l s key.
Proof.
  unfold resolve_key_from, resolve_key. destruct (s !! p) eqn:E; [intros [= ->]; by left|].
  intros (e & He & Hk)%bind_Some. right. eauto.
Qed.
End facts.
