(* ===== verification/RunConfig.v ===== *)
(** The configuration one run commits to: [alms-gateway/src/configuration.rs]
    and [configuration/resolution.rs], the agent record of
    [alms-core/src/registry.rs] with its updates in
    [alms-gateway/src/agents.rs], and the checks of [runs/lifecycle.rs] in
    front of the agent loop.

    An agent's record is layered over the server's configuration; the client is
    retargeted at the agent's provider and its key resolved again.  [AgentConfig]
    holds the fields that are layered, checked, patched or stored; the others
    pass through unread. *)
From S2P Require Import Prelude Ident Budget Run Session Episodic F32 ContextBuild RuntimeTypes LlmClient.

(** * Data *)

(** [ContextConfig], with its fractions as the floats they are. *)
Record ContextSettings := {
  cx_strategy : string;
  cx_max_input_tokens : Z;
  cx_compact_trigger_pct : f32;
  cx_compact_retain_pct : f32;
  cx_summary_model : option string;
  cx_summary_provider : option string;
  cx_run_summary_mode : RunSummaryMode;
  cx_run_summary_budget : Z;
  cx_summary_max_tokens : Z;
}.

(** A fraction of a budget: [(pct * budget as f32) as usize]. *)
Definition fraction_of (pct : f32) (budget : nat) : nat := Z.to_nat (f32_to_usize (f32_mul pct (f32_of_Z (Z.of_nat budget)))).

(** The configuration the context builder reads. *)
Definition context_config_of (c : ContextSettings) : ContextConfig := {|
  strategy := cx_strategy c; max_input_tokens := Z.to_nat (cx_max_input_tokens c);
  trigger_of := fraction_of (cx_compact_trigger_pct c); retain_of := fraction_of (cx_compact_retain_pct c);
  summary_model := cx_summary_model c; summary_provider := cx_summary_provider c;
  run_summary_mode := cx_run_summary_mode c; run_summary_budget := Z.to_nat (cx_run_summary_budget c);
  summary_max_tokens := cx_summary_max_tokens c |}.

Definition context_settings_default : ContextSettings := {|
  cx_strategy := "truncate"; cx_max_input_tokens := 128000; cx_compact_trigger_pct := f32_0_80; cx_compact_retain_pct := f32_0_40;
  cx_summary_model := Some "google/gemma-4-31b-it"; cx_summary_provider := Some "openrouter";
  cx_run_summary_mode := ModeLlm; cx_run_summary_budget := 2000; cx_summary_max_tokens := 1000 |}.

Definition is_compiled_default_summary_pair (provider model : option string) : bool :=
  bool_decide (provider = cx_summary_provider context_settings_default) && bool_decide (model = cx_summary_model context_settings_default).

Record AgentConfig := {
  ac_system_prompt : string;
  ac_max_tokens : Z;
  ac_context : ContextSettings;
  ac_posture : Posture;
  ac_sandbox_root : string;
  ac_shell_policy : string;
  ac_debug_mode : bool;
  ac_anthropic_thinking_budget : Z;
  ac_anthropic_prompt_cache_enabled : bool;
  ac_openai_reasoning_effort : option ReasoningEffort;
  ac_gemini_thinking_budget : option Z;
  ac_gemini_cache_enabled : bool;
  ac_gemini_cache_ttl_seconds : Z;
}.

Inductive WorktreeMode := WorktreeOff | WorktreeGit.
#[export] Instance worktree_mode_eq_dec : EqDecision WorktreeMode.
Proof. solve_decision. Defined.

Record AgentRecord := {
  rec_id : AgentId;
  rec_name : string;
  rec_description : string;
  rec_model : option string;
  rec_posture : option string;
  rec_provider : option string;
  rec_telegram_token : option string;
  rec_thinking_budget_tokens : option Z;
  rec_reasoning_effort : option ReasoningEffort;
  rec_gemini_thinking_budget : option Z;
  rec_summary_provider : option string;
  rec_summary_model : option string;
  rec_worktree_mode : WorktreeMode;
  rec_debug_mode : bool;
  rec_is_default : bool;
  rec_created_at : Z;
  rec_last_active : Z;
}.

Definition set_system_prompt (prompt : string) (c : AgentConfig) : AgentConfig := {|
  ac_system_prompt := prompt; ac_max_tokens := ac_max_tokens c; ac_context := ac_context c; ac_posture := ac_posture c;
  ac_sandbox_root := ac_sandbox_root c; ac_shell_policy := ac_shell_policy c; ac_debug_mode := ac_debug_mode c;
  ac_anthropic_thinking_budget := ac_anthropic_thinking_budget c;
  ac_anthropic_prompt_cache_enabled := ac_anthropic_prompt_cache_enabled c;
  ac_openai_reasoning_effort := ac_openai_reasoning_effort c; ac_gemini_thinking_budget := ac_gemini_thinking_budget c;
  ac_gemini_cache_enabled := ac_gemini_cache_enabled c; ac_gemini_cache_ttl_seconds := ac_gemini_cache_ttl_seconds c |}.

Definition set_posture (p : Posture) (c : AgentConfig) : AgentConfig := {|
  ac_system_prompt := ac_system_prompt c; ac_max_tokens := ac_max_tokens c; ac_context := ac_context c; ac_posture := p;
  ac_sandbox_root := ac_sandbox_root c; ac_shell_policy := ac_shell_policy c; ac_debug_mode := ac_debug_mode c;
  ac_anthropic_thinking_budget := ac_anthropic_thinking_budget c;
  ac_anthropic_prompt_cache_enabled := ac_anthropic_prompt_cache_enabled c;
  ac_openai_reasoning_effort := ac_openai_reasoning_effort c; ac_gemini_thinking_budget := ac_gemini_thinking_budget c;
  ac_gemini_cache_enabled := ac_gemini_cache_enabled c; ac_gemini_cache_ttl_seconds := ac_gemini_cache_ttl_seconds c |}.

(** * Provider and model *)

Definition model_belongs_to_kind (model : string) (kind : ProviderKind) : bool :=
  let model := to_ascii_lowercase model in
  match kind with
  | OpenAiCompatible => true
  | KindAnthropic => starts_with model "claude-"
  | KindGemini => starts_with model "gemini-" || starts_with model "models/gemini-"
  end.

Record MissingModel := { mm_new_provider : string; mm_prev_provider : string }.

Definition resolve_effective_provider_and_model (record_provider record_model : option string)
    (server_provider server_default_model : string) (providers : gmap string ProviderEntry) : Result (string * string) MissingModel :=
  let effective_provider := default server_provider record_provider in
  let provider_changed := negb (String.eqb effective_provider server_provider) in
  let effective_kind := provider_kind_for_name effective_provider providers in
  let surviving := match record_model with
                   | None => None
                   | Some m => if negb provider_changed then Some m
                               else if model_belongs_to_kind m effective_kind then Some m else None
                   end in
  match surviving with
  | Some model => Ok (effective_provider, model)
  | None =>
      match providers !! effective_provider ≫= pe_model with
      | Some entry_model => Ok (effective_provider, entry_model)
      | None => if provider_changed
                then Err {| mm_new_provider := effective_provider; mm_prev_provider := server_provider |}
                else Ok (effective_provider, server_default_model)
      end
  end.

(** [Display] of [ResolveAgentConfigError]. *)
Definition missing_model_message `{UuidCrate} (agent_id : AgentId) (e : MissingModel) : string :=
  "agent " +:+ uuid_to_string (agent_uuid agent_id) +:+ " overrides provider to " +:+ mm_new_provider e +:+
  " but no model was supplied; previous provider " +:+ mm_prev_provider e +:+ "'s default cannot be reused".

(** * The configuration of a run *)

Record ResolvedAgentConfig := {
  ra_agent_config : AgentConfig;
  ra_llm : LlmClient;
  ra_agent_name : option string;
  ra_worktree_mode : WorktreeMode;
}.

(** The record over the base configuration. *)
Definition layer_record (r : AgentRecord) (c : AgentConfig) : AgentConfig :=
  let x := ac_context c in {|
  ac_system_prompt := ac_system_prompt c; ac_max_tokens := ac_max_tokens c;
  ac_context := {|
    cx_strategy := cx_strategy x; cx_max_input_tokens := cx_max_input_tokens x;
    cx_compact_trigger_pct := cx_compact_trigger_pct x; cx_compact_retain_pct := cx_compact_retain_pct x;
    cx_summary_model := match rec_summary_model r with Some m => Some m | None => cx_summary_model x end;
    cx_summary_provider := match rec_summary_provider r with Some p => Some p | None => cx_summary_provider x end;
    cx_run_summary_mode := cx_run_summary_mode x; cx_run_summary_budget := cx_run_summary_budget x;
    cx_summary_max_tokens := cx_summary_max_tokens x |};
  ac_posture := match rec_posture r with
                | Some p => match posture_from_str p with Ok posture => posture | Err _ => ac_posture c end
                | None => ac_posture c
                end;
  ac_sandbox_root := ac_sandbox_root c; ac_shell_policy := ac_shell_policy c;
  ac_debug_mode := if rec_debug_mode r then true else ac_debug_mode c;
  ac_anthropic_thinking_budget := default (ac_anthropic_thinking_budget c) (rec_thinking_budget_tokens r);
  ac_anthropic_prompt_cache_enabled := ac_anthropic_prompt_cache_enabled c;
  ac_openai_reasoning_effort := match rec_reasoning_effort r with Some e => Some e | None => ac_openai_reasoning_effort c end;
  ac_gemini_thinking_budget := match rec_gemini_thinking_budget r with Some b => Some b | None => ac_gemini_thinking_budget c end;
  ac_gemini_cache_enabled := ac_gemini_cache_enabled c; ac_gemini_cache_ttl_seconds := ac_gemini_cache_ttl_seconds c |}.

(** The registry's answer, or [None] without a store; a failure only logs. *)
Definition loaded_record (loaded : option (Result (option AgentRecord) AlmsError)) : option AgentRecord :=
  match loaded with Some (Ok r) => r | _ => None end.

Section resolution.
Context (env : string → option string).

Definition resolve_agent_config (loaded : option (Result (option AgentRecord) AlmsError)) (base_config : AgentConfig) (llm : LlmClient)
    (secrets : option SecretsStore) : Result ResolvedAgentConfig MissingModel :=
  let record := loaded_record loaded in
  match resolve_effective_provider_and_model (record ≫= rec_provider) (record ≫= rec_model) (provider llm) (default_model llm)
          (providers_snapshot llm) with
  | Err e => Err e
  | Ok (_, effective_model) =>
      let llm := match record ≫= rec_provider with
                 | Some p => match secrets with
                             | Some s => with_provider_and_secrets env p s llm
                             | None => with_provider env p llm
                             end
                 | None => match secrets with Some s => with_secrets env s llm | None => llm end
                 end in
      Ok {| ra_agent_config := match record with Some r => layer_record r base_config | None => base_config end;
            ra_llm := with_model effective_model llm;
            ra_agent_name := rec_name <$> record;
            ra_worktree_mode := match record with Some r => rec_worktree_mode r | None => WorktreeOff end |}
  end.
End resolution.

Definition build_resolved_config (c : AgentConfig) (llm : LlmClient) : ResolvedRunConfig := {|
  rc_provider := provider llm; rc_model := default_model llm; rc_max_tokens := ac_max_tokens c;
  rc_posture := posture_to_string (ac_posture c); rc_debug_mode := ac_debug_mode c;
  rc_thinking_budget_tokens := ac_anthropic_thinking_budget c; rc_reasoning_effort := ac_openai_reasoning_effort c;
  rc_gemini_thinking_budget := ac_gemini_thinking_budget c |}.

(** [mode] is [ValidationMode::from_env]. *)
Definition evaluate_pre_flight_token_budget (mode : ValidationMode) (c : AgentConfig) (llm : LlmClient) : Result unit TokenBudgetError :=
  if is_mock llm then Ok tt
  else match validate_token_budget (provider llm) (default_model llm) (cx_max_input_tokens (ac_context c)) (ac_max_tokens c) with
       | Ok _ => Ok tt
       | Err e => match mode with Strict => Err e | Warn => Ok tt end
       end.

Definition resolve_posture_for_run (posture : Posture) (is_system_triggered : bool) : Posture :=
  if is_system_triggered then match posture with Guarded => Autonomous | p => p end else posture.

(** * The summary pair *)

Definition normalize_summary_field (value : option string) : option string :=
  match value with
  | Some v => let t := trim v in if String.eqb t "" then None else Some t
  | None => None
  end.

Inductive SummaryPairError := ProviderRequiresModel | ModelRequiresProvider.
#[export] Instance summary_pair_error_eq_dec : EqDecision SummaryPairError.
Proof. solve_decision. Defined.

Definition summary_pair_code (e : SummaryPairError) : string :=
  match e with
  | ProviderRequiresModel => "SUMMARY_PROVIDER_REQUIRES_MODEL"
  | ModelRequiresProvider => "SUMMARY_MODEL_REQUIRES_PROVIDER"
  end.

Definition check_summary_pair (provider model : option string) : Result unit SummaryPairError :=
  match provider, model with
  | Some _, None => Err ProviderRequiresModel
  | None, Some _ => Err ModelRequiresProvider
  | _, _ => Ok tt
  end.

(** [validate_summary_pair]: the pair, or the code of the rejection. *)
Definition validate_summary_pair (env : string → option string) (provider model : option string) (providers : gmap string ProviderEntry)
    (secrets : SecretsStore) : Result (option string * option string) string :=
  let provider := normalize_summary_field provider in
  let model := normalize_summary_field model in
  match check_summary_pair provider model with
  | Err e => Err (summary_pair_code e)
  | Ok _ =>
      match provider with
      | None => Ok (provider, model)
      | Some p =>
          match providers !! p with
          | None => Err "SUMMARY_PROVIDER_UNKNOWN"
          | Some entry =>
              match resolve_api_key env entry, resolve_key p secrets with
              | None, None => Err "SUMMARY_PROVIDER_MISSING_API_KEY"
              | _, _ => Ok (provider, model)
              end
          end
      end
  end.

(** * Updating a record *)

Record UpdateAgentRequest := {
  up_description : option string;
  up_model : option string;
  up_posture : option string;
  up_provider : option string;
  up_telegram_token : option string;
  up_thinking_budget_tokens : option Z;
  up_reasoning_effort : option ReasoningEffort;
  up_gemini_thinking_budget : option Z;
  up_clear_thinking_budget_tokens : option bool;
  up_clear_reasoning_effort : option bool;
  up_clear_gemini_thinking_budget : option bool;
  up_summary_provider : option string;
  up_summary_model : option string;
  up_clear_summary_provider : option bool;
  up_clear_summary_model : option bool;
  up_worktree_mode : option WorktreeMode;
  up_debug_mode : option bool;
}.

Inductive UpdateAgentError :=
| InvalidPosture (message : string)
| ClearAndValueConflict (field : string)
| EmptySummaryField (field : string).

(** An empty string clears. *)
Definition text_override (current update : option string) : option string :=
  match update with Some s => if String.eqb s "" then None else Some s | None => current end.

(** A value, a [clear_*] flag, or neither; both are refused. *)
Definition clearable {A} (field : string) (current update : option A) (clear : option bool) : Result (option A) UpdateAgentError :=
  match update, clear with
  | Some _, Some true => Err (ClearAndValueConflict field)
  | _, Some true => Ok None
  | Some v, _ => Ok (Some v)
  | None, _ => Ok current
  end.

Definition clearable_text (field : string) (current update : option string) (clear : option bool) : Result (option string) UpdateAgentError :=
  match clearable field current update clear with
  | Err e => Err e
  | Ok v => match update with
            | Some s => if String.eqb (trim s) "" then Err (EmptySummaryField field) else Ok (Some (trim s))
            | None => Ok v
            end
  end.

Definition validate_posture (posture : string) : Result unit UpdateAgentError :=
  if String.eqb posture "" then Ok tt
  else match posture_from_str posture with Ok _ => Ok tt | Err m => Err (InvalidPosture m) end.

Definition apply_update_request (now : Z) (a : AgentRecord) (req : UpdateAgentRequest) : Result AgentRecord UpdateAgentError :=
  match (match up_posture req with Some p => validate_posture p | None => Ok tt end),
        clearable "thinking_budget_tokens" (rec_thinking_budget_tokens a) (up_thinking_budget_tokens req) (up_clear_thinking_budget_tokens req),
        clearable "reasoning_effort" (rec_reasoning_effort a) (up_reasoning_effort req) (up_clear_reasoning_effort req),
        clearable "gemini_thinking_budget" (rec_gemini_thinking_budget a) (up_gemini_thinking_budget req) (up_clear_gemini_thinking_budget req),
        clearable_text "summary_provider" (rec_summary_provider a) (up_summary_provider req) (up_clear_summary_provider req),
        clearable_text "summary_model" (rec_summary_model a) (up_summary_model req) (up_clear_summary_model req) with
  | Err e, _, _, _, _, _ | Ok _, Err e, _, _, _, _ | Ok _, Ok _, Err e, _, _, _ | Ok _, Ok _, Ok _, Err e, _, _
  | Ok _, Ok _, Ok _, Ok _, Err e, _ | Ok _, Ok _, Ok _, Ok _, Ok _, Err e => Err e
  | Ok _, Ok thinking, Ok effort, Ok gemini, Ok summary_provider, Ok summary_model =>
      Ok {| rec_id := rec_id a; rec_name := rec_name a; rec_description := default (rec_description a) (up_description req);
            rec_model := text_override (rec_model a) (up_model req); rec_posture := text_override (rec_posture a) (up_posture req);
            rec_provider := text_override (rec_provider a) (up_provider req);
            rec_telegram_token := text_override (rec_telegram_token a) (up_telegram_token req);
            rec_thinking_budget_tokens := thinking; rec_reasoning_effort := effort; rec_gemini_thinking_budget := gemini;
            rec_summary_provider := summary_provider; rec_summary_model := summary_model;
            rec_worktree_mode := default (rec_worktree_mode a) (up_worktree_mode req);
            rec_debug_mode := default (rec_debug_mode a) (up_debug_mode req);
            rec_is_default := rec_is_default a; rec_created_at := rec_created_at a; rec_last_active := now |}
  end.

(** [update_agent] up to the worktree and the store: the new record, or the
    first check that refused. *)
Inductive UpdateRefusal := RefusedUpdate (e : UpdateAgentError) | RefusedPair (code : string).

Definition checked_update (env : string → option string) (now : Z) (providers : gmap string ProviderEntry) (secrets : SecretsStore)
    (a : AgentRecord) (req : UpdateAgentRequest) : Result AgentRecord UpdateRefusal :=
  match apply_update_request now a req with
  | Err e => Err (RefusedUpdate e)
  | Ok a' => match validate_summary_pair env (rec_summary_provider a') (rec_summary_model a') providers secrets with
             | Err code => Err (RefusedPair code)
             | Ok _ => Ok a'
             end
  end.

(** * What they show *)

Section facts.
Context (env : string → option string).

(** How a model was chosen for a provider the server does not default to. *)
Definition model_of_new_provider (record_model : option string) (providers : gmap string ProviderEntry) (p m : string) : Prop :=
  (record_model = Some m ∧ model_belongs_to_kind m (provider_kind_for_name p providers) = true) ∨
  providers !! p ≫= pe_model = Some m.

Lemma effective_pair_spec rp rm sp sm ps :
  match resolve_effective_provider_and_model rp rm sp sm ps with
  | Ok (p, m) =>
      p = default sp rp ∧
      (p ≠ sp → model_of_new_provider rm ps p m) ∧
      (p = sp → m = default (default sm (ps !! sp ≫= pe_model)) rm)
  | Err e =>
      mm_prev_provider e = sp ∧ rp = Some (mm_new_provider e) ∧ mm_new_provider e ≠ sp ∧
      ∀ m, ¬ model_of_new_provider rm ps (mm_new_provider e) m
  end.
Proof.
  unfold resolve_effective_provider_and_model. set (p := default sp rp).
  destruct (String.eqb_spec p sp) as [E|E]; simpl.
  - destruct rm as [m|]; simpl; [by repeat split|].
    rewrite E. destruct (ps !! sp ≫= pe_model); simpl; by repeat split.
  - destruct rm as [m|]; simpl.
    + destruct (model_belongs_to_kind m _) eqn:Hk; [by split_and!; [|left|]|].
      destruct (ps !! p ≫= pe_model) as [m'|] eqn:Hm; [by split_and!; [|right|]|].
      simpl. unfold p in *. destruct rp; [|done]. simpl in *. repeat split; [done|].
      intros m' [[[= <-] Hb]|Hb]; congruence.
    + destruct (ps !! p ≫= pe_model) as [m'|] eqn:Hm; [by split_and!; [|right|]|].
      simpl. unfold p in *. destruct rp; [|done]. simpl in *. repeat split; [done|].
      intros m' [[? _]|Hb]; congruence.
Qed.

(** A provider that is not the server's gets its model from the agent or its own
    entry: the server's pair does not matter. *)
Lemma effective_pair_free p rm sp sm sp' sm' ps x :
  p ≠ sp → p ≠ sp' → resolve_effective_provider_and_model (Some p) rm sp sm ps = Ok x →
  resolve_effective_provider_and_model (Some p) rm sp' sm' ps = Ok x.
Proof.
  unfold resolve_effective_provider_and_model. simpl. intros H H'.
  destruct (String.eqb_spec p sp); [done|]. destruct (String.eqb_spec p sp'); [done|]. simpl.
  destruct rm as [m|]; [destruct (model_belongs_to_kind _ _)|]; try done; by destruct (ps !! p ≫= pe_model).
Qed.

(** The name that comes with a configuration is the record's. *)
Lemma resolved_name loaded base llm secrets r :
  resolve_agent_config env loaded base llm secrets = Ok r → ra_agent_name r = rec_name <$> loaded_record loaded.
Proof. unfold resolve_agent_config. destruct (resolve_effective_provider_and_model _ _ _ _ _) as [[p m]|e]; [|done]. by intros [= <-]. Qed.

Lemma with_secrets_forgets s k l : with_secrets env s (with_key k l) = with_secrets env s l.
Proof. done. Qed.

Lemma switch_forgets_key p s k l : with_provider_and_secrets env p s (with_key k l) = with_provider_and_secrets env p s l.
Proof.
  unfold with_provider_and_secrets, apply_provider.
  assert (E : with_key "" (retarget p (with_key k l)) = with_key "" (retarget p l)).
  { unfold retarget. simpl. destruct (_ !! p); [done|]. by repeat (destruct (String.eqb p _); [done|]). }
  apply client_eq; [|done|].
  - change (with_model "" (with_key "" (retarget p (with_key k l))) = with_model "" (with_key "" (retarget p l))). by rewrite E.
  - change (default_model (with_key "" (retarget p (with_key k l))) = default_model (with_key "" (retarget p l))). by rewrite E.
Qed.
End facts.

Section properties.
Context (env : string → option string).

(** C22: The client a run gets.  Its provider is the agent's, or the server's when
    the agent names none.  On another provider than the server's the model is the
    agent's own, of a name that provider speaks, or the provider entry's, never
    the server's default; on the server's provider it is the agent's, the entry's
    or the default, in this order.  The key is the one the secrets hold for that
    provider now, else the one its entry resolves to, else none, whatever key the
    shared client carries.  A run whose agent asks for another provider, one that
    is configured or built in, gets the very same client from every shared client
    with these providers, timeouts and mock flag that is not on it either; only a
    provider of unknown address keeps the shared client's.  A run is refused
    exactly when its agent switches the provider and no layer names a model for
    the new one. *)
Theorem run_client_isolated loaded base llm s :
  let record := loaded_record loaded in
  let asked := default (provider llm) (record ≫= rec_provider) in
  let ps := providers_snapshot llm in
  match resolve_agent_config env loaded base llm (Some s) with
  | Ok r =>
      provider (ra_llm r) = asked ∧
      (asked ≠ provider llm → model_of_new_provider (record ≫= rec_model) ps asked (default_model (ra_llm r))) ∧
      (asked = provider llm →
         default_model (ra_llm r) = default (default (default_model llm) (ps !! asked ≫= pe_model)) (record ≫= rec_model)) ∧
      api_key (ra_llm r) = match s !! asked with Some key => key | None => default "" (ps !! asked ≫= resolve_api_key env) end ∧
      (∀ k, resolve_agent_config env loaded base (with_key k llm) (Some s) = Ok r) ∧
      (asked ≠ provider llm → addressable asked ps = true → ∀ llm', same_rest llm llm' → asked ≠ provider llm' →
         resolve_agent_config env loaded base llm' (Some s) = Ok r)
  | Err e => asked = mm_new_provider e ∧ asked ≠ provider llm ∧ ∀ m, ¬ model_of_new_provider (record ≫= rec_model) ps asked m
  end.
Proof.
  unfold resolve_agent_config. set (record := loaded_record loaded).
  change (provider (with_key ?k llm)) with (provider llm). change (default_model (with_key ?k llm)) with (default_model llm).
  change (providers_snapshot (with_key ?k llm)) with (providers_snapshot llm).
  pose proof (effective_pair_spec (record ≫= rec_provider) (record ≫= rec_model) (provider llm) (default_model llm) (providers_snapshot llm)) as Hm.
  destruct (resolve_effective_provider_and_model _ _ _ _ _) as [[p m]|e] eqn:Heff.
  - destruct Hm as (-> & Hnew & Hsame). simpl. split_and!.
    + destruct (record ≫= rec_provider) as [p|]; [apply apply_provider_name|done].
    + exact Hnew.
    + intros E. rewrite E. by apply Hsame.
    + transitivity (default "" (resolve_key_from env (default (provider llm) (record ≫= rec_provider)) (providers_snapshot llm) s)).
      { destruct (record ≫= rec_provider) as [p|]; [apply (apply_provider_key env p (Some s))|done]. }
      unfold resolve_key_from, resolve_key. by destruct (s !! _).
    + intros k. do 3 f_equal. destruct (record ≫= rec_provider) as [p|]; [apply switch_forgets_key|done].
    + intros Hne Ha llm' Hr Hne'. destruct (record ≫= rec_provider) as [p|] eqn:Hp; [|done]. simpl in *.
      assert (providers_snapshot llm' = providers_snapshot llm) as -> by (symmetry; apply Hr).
      rewrite (effective_pair_free _ _ _ _ (provider llm') (default_model llm') _ _ Hne Hne' Heff).
      do 2 f_equal. symmetry. by apply switch_forgets.
  - destruct Hm as (Hp & Hr & Hne & Hno). rewrite Hr. simpl. split_and!; [done|exact Hne|exact Hno].
Qed.

(** The client of the summaries is on the provider it was asked for, with its
    own key, and never carries the agent's model over to it. *)
Theorem summary_client_isolated l p m secrets :
  let c := build_summary_client env l (Some p) m secrets in
  provider c = p ∧
  match m with
  | Some m => default_model c = m
  | None => default_model c = "" ∨ (providers_snapshot l !! p ≫= pe_model = Some (default_model c) ∧ default_model c ≠ default_model l)
  end ∧
  match secrets with
  | Some s => api_key c = "" ∨ key_of env p l s (api_key c)
  | None => p ≠ provider l → api_key c = ""
  end.
Proof.
  unfold build_summary_client, with_provider, with_provider_and_secrets.
  set (sw := match secrets with Some s => _ | None => _ end).
  assert (E : sw = apply_provider env p secrets l) by (by destruct secrets).
  assert (Hk : match secrets with Some s => api_key sw = "" ∨ key_of env p l s (api_key sw) | None => p ≠ provider l → api_key sw = "" end).
  { rewrite E, apply_provider_key. destruct secrets as [s|].
    - destruct (resolve_key_from _ _ _ _) eqn:Hk; [|by left]. right. by apply resolved_key_of.
    - intros Hne. by destruct (String.eqb_spec (provider l) p). }
  assert (Hp : provider sw = p) by (rewrite E; apply apply_provider_name).
  destruct m as [m|]; [done|]. destruct (String.eqb_spec (default_model sw) (default_model l)) as [Em|Em]; [by split_and!; [|left|]|].
  split_and!; [done| |done]. right. split; [|done]. revert Em. rewrite E, apply_provider_model.
  by destruct (_ !! p ≫= pe_model).
Qed.

(** The guard compares names: a provider entry that names the very model the
    agent uses loses it. *)
Lemma summary_guard_clears_entry_model l p e s :
  providers_snapshot l !! p = Some e → pe_model e = Some (default_model l) →
  default_model (build_summary_client env l (Some p) None (Some s)) = "".
Proof.
  intros He Hm. unfold build_summary_client, with_provider_and_secrets.
  rewrite apply_provider_model, He. simpl. rewrite Hm. simpl. by rewrite String.eqb_refl.
Qed.

(** A provider that is neither configured nor built in keeps the address of the
    provider before it, and gets the key stored under its own name. *)
Lemma unconfigured_provider_keeps_address p s l :
  addressable p (providers_snapshot l) = false →
  base_url (with_provider_and_secrets env p s l) = base_url l ∧
  api_key (with_provider_and_secrets env p s l) = default "" (s !! p).
Proof.
  unfold addressable. intros [Hn Hs]%orb_false_iff. apply bool_decide_eq_false in Hn, Hs.
  assert (E : providers_snapshot l !! p = None) by (destruct (_ !! p); [exfalso; eauto|done]).
  split.
  - unfold with_provider_and_secrets, apply_provider, retarget, providers_snapshot in *. rewrite E. simpl.
    repeat match goal with |- context [String.eqb p ?n] => destruct (String.eqb_spec p n) as [->|_]; [exfalso; apply Hs; repeat constructor|] end.
    done.
  - unfold with_provider_and_secrets. rewrite apply_provider_key. unfold resolve_key_from, resolve_key. rewrite E. by destruct (s !! p).
Qed.

Lemma apply_update_ok now a req a' :
  apply_update_request now a req = Ok a' →
  (rec_id a', rec_name a', rec_is_default a', rec_created_at a') = (rec_id a, rec_name a, rec_is_default a, rec_created_at a) ∧
  rec_posture a' = text_override (rec_posture a) (up_posture req) ∧
  (∀ q, up_posture req = Some q → validate_posture q = Ok tt).
Proof.
  unfold apply_update_request.
  destruct (match up_posture req with Some p => validate_posture p | None => Ok tt end) as [[]|] eqn:Hq; [|done].
  destruct (clearable "thinking_budget_tokens" _ _ _); [|done]. destruct (clearable "reasoning_effort" _ _ _); [|done].
  destruct (clearable "gemini_thinking_budget" _ _ _); [|done]. destruct (clearable_text "summary_provider" _ _ _); [|done].
  destruct (clearable_text "summary_model" _ _ _); [|done]. intros [= <-]. split_and!; [done|done|].
  intros q E. by rewrite E in Hq.
Qed.

(** An accepted update keeps the identity of the agent, leaves a posture that
    parses wherever it wrote one, and a summary pair that is set as a whole on a
    provider that is configured and has a key. *)
Theorem accepted_update_ok now providers secrets a req a' :
  checked_update env now providers secrets a req = Ok a' →
  (rec_id a', rec_name a', rec_is_default a', rec_created_at a') = (rec_id a, rec_name a, rec_is_default a, rec_created_at a) ∧
  (∀ s, rec_posture a' = Some s → rec_posture a = Some s ∨ is_ok (posture_from_str s) = true) ∧
  match normalize_summary_field (rec_summary_provider a'), normalize_summary_field (rec_summary_model a') with
  | None, None => True
  | Some p, Some _ => ∃ e, providers !! p = Some e ∧ (is_Some (resolve_api_key env e) ∨ is_Some (secrets !! p))
  | _, _ => False
  end.
Proof.
  unfold checked_update. intros H. destruct (apply_update_request now a req) as [a''|] eqn:Ha; [|done].
  destruct (validate_summary_pair _ _ _ _ _) as [pair|] eqn:Hv; [|done]. injection H as <-. split_and!.
  - by apply apply_update_ok in Ha as [? _].
  - apply apply_update_ok in Ha as (_ & -> & Hq). unfold text_override. destruct (up_posture req) as [q|]; [|by left].
    specialize (Hq q eq_refl). unfold validate_posture in Hq. destruct (String.eqb q ""); [done|].
    intros s [= <-]. right. by destruct (posture_from_str q).
  - unfold validate_summary_pair, check_summary_pair in Hv.
    destruct (normalize_summary_field (rec_summary_provider a'')) as [p|], (normalize_summary_field (rec_summary_model a'')); try done.
    destruct (providers !! p) as [e|]; [|done]. exists e. split; [done|]. unfold resolve_key in Hv.
    destruct (resolve_api_key env e); [by left; eauto|]. destruct (secrets !! p); [by right; eauto|done].
Qed.
End properties.

Section witnesses.

Local Definition no_env (_ : string) : option string := None.
Local Definition entry (kind : ProviderKind) (url : string) (key model : option string) (auth : AuthScheme) : ProviderEntry := {|
  pe_kind := kind; pe_base_url := url; pe_api_key_env := None; pe_api_key := key; pe_model := model; pe_auth_scheme := auth;
  pe_quirks := quirks_default |}.
Local Definition table : gmap string ProviderEntry :=
  {["openrouter" := entry OpenAiCompatible OPENROUTER_URL None (Some "z-ai/glm-5.2") Bearer;
    "anthropic" := entry KindAnthropic ANTHROPIC_URL None (Some "claude-haiku-4-5") (Header "x-api-key")]}.
Local Definition secrets : SecretsStore := {["anthropic" := "sk-ant"; "telegram" := "123:bot-token"]}.
Local Definition server : LlmClient := client_new {|
  lc_provider := "openrouter"; lc_api_key := "sk-or-stale"; lc_base_url := OPENROUTER_URL; lc_default_model := "z-ai/glm-5.2";
  lc_timeout_secs := 600; lc_mock := false; lc_stream_chunk_timeout_secs := 180; lc_auth_scheme := Bearer; lc_quirks := quirks_default;
  lc_providers := table |}.
Local Definition base : AgentConfig := {|
  ac_system_prompt := ""; ac_max_tokens := 32000; ac_context := context_settings_default; ac_posture := Guarded; ac_sandbox_root := ".";
  ac_shell_policy := "sandboxed"; ac_debug_mode := false; ac_anthropic_thinking_budget := 0; ac_anthropic_prompt_cache_enabled := true;
  ac_openai_reasoning_effort := None; ac_gemini_thinking_budget := None; ac_gemini_cache_enabled := false; ac_gemini_cache_ttl_seconds := 300 |}.
Local Definition agent_on (provider model : option string) : AgentRecord := {|
  rec_id := MkAgentId (MkUuid 1); rec_name := "atlas"; rec_description := ""; rec_model := model; rec_posture := Some "autonomous";
  rec_provider := provider; rec_telegram_token := None; rec_thinking_budget_tokens := None; rec_reasoning_effort := None;
  rec_gemini_thinking_budget := None; rec_summary_provider := None; rec_summary_model := None; rec_worktree_mode := WorktreeOff;
  rec_debug_mode := false; rec_is_default := true; rec_created_at := 0; rec_last_active := 0 |}.
Local Definition resolved (p m : option string) : Result ResolvedAgentConfig MissingModel :=
  resolve_agent_config no_env (Some (Ok (Some (agent_on p m)))) base server (Some secrets).

(** A model of the old provider's namespace gives way to the entry's. *)
Lemma run_client_isolated_witness :
  match resolved (Some "anthropic") (Some "gpt-4o") with
  | Ok r => default_model (ra_llm r) = "claude-haiku-4-5" ∧ api_key (ra_llm r) = "sk-ant" ∧ base_url (ra_llm r) = ANTHROPIC_URL ∧
            ac_posture (ra_agent_config r) = Autonomous ∧
            resolve_agent_config no_env (Some (Ok (Some (agent_on (Some "anthropic") (Some "gpt-4o"))))) base
              (with_key "rotated" server) (Some secrets) = Ok r
  | Err _ => False
  end.
Proof.
  pose proof (run_client_isolated no_env (Some (Ok (Some (agent_on (Some "anthropic") (Some "gpt-4o"))))) base server secrets) as H.
  unfold resolved. destruct (resolve_agent_config _ _ _ _ _) as [r|e] eqn:E; [|vm_compute in E; discriminate E].
  destruct H as (_ & _ & _ & _ & Hk & _). specialize (Hk "rotated").
  assert (Er : Ok r = resolved (Some "anthropic") (Some "gpt-4o")) by (rewrite <- E; reflexivity).
  clear E. vm_compute in Er. injection Er as ->. split_and!; [reflexivity..|exact Hk].
Defined.

(** An agent whose provider is the name of the Telegram secret: its token goes
    to the address of the server's provider. *)
Example telegram_token_leaves :
  match resolved (Some "telegram") (Some "m") with
  | Ok r => base_url (ra_llm r) = OPENROUTER_URL ∧ api_key (ra_llm r) = "123:bot-token" ∧ lm_protocol (ra_llm r) = OpenAi
  | Err _ => False
  end.
Proof. vm_compute. by split_and!. Qed.

Lemma accepted_update_ok_witness :
  let req := {| up_description := None; up_model := Some ""; up_posture := Some "guarded"; up_provider := None; up_telegram_token := None;
                up_thinking_budget_tokens := Some 0%Z; up_reasoning_effort := None; up_gemini_thinking_budget := None;
                up_clear_thinking_budget_tokens := None; up_clear_reasoning_effort := Some true; up_clear_gemini_thinking_budget := None;
                up_summary_provider := Some " anthropic "; up_summary_model := Some "claude-haiku-4-5"; up_clear_summary_provider := None;
                up_clear_summary_model := Some false; up_worktree_mode := None; up_debug_mode := Some true |} in
  match checked_update no_env 9 table secrets (agent_on None (Some "old")) req with
  | Ok a => rec_name a = "atlas" ∧ rec_model a = None ∧ rec_posture a = Some "guarded" ∧ rec_summary_provider a = Some "anthropic" ∧
            (∀ s, rec_posture a = Some s → rec_posture (agent_on None (Some "old")) = Some s ∨ is_ok (posture_from_str s) = true)
  | Err _ => False
  end.
Proof.
  intros req. destruct (checked_update _ _ _ _ _ _) as [a|] eqn:E; [|vm_compute in E; discriminate E].
  pose proof (accepted_update_ok no_env 9 table secrets _ req a E) as (_ & Hp & _).
  assert (Er : Ok a = checked_update no_env 9 table secrets (agent_on None (Some "old")) req) by (rewrite <- E; reflexivity).
  vm_compute in Er. injection Er as ->. split_and!; [reflexivity..|exact Hp].
Defined.

Example summary_guard_example :
  default_model (build_summary_client no_env server (Some "openrouter") None (Some secrets)) = "" ∧
  default_model (build_summary_client no_env server (Some "anthropic") None (Some secrets)) = "claude-haiku-4-5".
Proof. vm_compute. by split. Qed.
End witnesses.
