(* ===== verification/Settings.v ===== *)
(** The settings an operator changes while the server runs:
    [alms-gateway/src/settings.rs] ([patch_settings] and what is written to
    [settings.json]), the rebuild of the shared client and the start-up of
    [server/state.rs].

    A request is checked and committed section by section under one lock, so a
    whole [PATCH] is one step.  The parsed body is a record of options; a
    rejected field is an error of the answer, one constructor per check.  The
    registry of agents is read through [agents]; writing the file does not
    fail. *)
From S2P Require Import Prelude Ident Json Budget Run Session F32 LlmClient RunConfig.

(** * The request *)

Record PatchContext := {
  px_strategy : option string; px_max_input_tokens : option Z; px_compact_trigger_pct : option f32; px_compact_retain_pct : option f32;
  px_summary_model : option string; px_summary_provider : option string;
}.

Record PatchSession := {
  ps_max_messages : option Z; ps_max_context_tokens : option Z; ps_idle_timeout_secs : option Z; ps_auto_archive : option bool;
  ps_archive_ttl_secs : option Z;
}.

Record PatchTools := {
  pt_shell_policy : option string; pt_sandbox_root : option string; pt_timeout_secs : option Z; pt_max_output_bytes : option Z;
}.

(** [PatchLlm], its three parts in one. *)
Record PatchLlm := {
  pl_thinking_budget_tokens : option Z; pl_prompt_cache_enabled : option bool; pl_reasoning_effort : option string;
  pl_thinking_budget : option Z; pl_cache_enabled : option bool; pl_cache_ttl_seconds : option Z;
}.

Record PatchSettingsRequest := {
  pr_context : option PatchContext; pr_session : option PatchSession; pr_tools : option PatchTools; pr_llm : option PatchLlm;
  pr_model : option string; pr_provider : option string;
}.

(** * The state *)

Record ToolsConfig := { tc_timeout_secs : Z; tc_max_output_bytes : Z; tc_sandbox_root : string; tc_shell_policy : string }.

Record ServerLlmDefault := { sd_model : string; sd_provider : string }.

(** [settings.json].  The sections are always written whole. *)
Record PersistedSettings := {
  pe_strategy : string; pe_max_input_tokens : Z; pe_compact_trigger_pct : f32; pe_compact_retain_pct : f32;
  (** [Some ""] is a cleared field, [None] one that is not overridden. *)
  pe_summary_model : option string; pe_summary_provider : option string;
  pe_session : SessionConfig;
  pe_tools : ToolsConfig;
  pe_thinking_budget_tokens : Z; pe_prompt_cache_enabled : bool;
  (** The wire string, [""] for none. *)
  pe_reasoning_effort : string;
  pe_gemini_thinking_budget : option Z; pe_cache_enabled : bool; pe_cache_ttl_seconds : Z;
  pe_default : ServerLlmDefault;
}.

Record Settings := mkSettings {
  se_agent : AgentConfig;
  se_session : SessionConfig;
  se_tools : ToolsConfig;
  (** [state.llm], the client runs start from. *)
  se_llm : LlmClient;
  se_default : ServerLlmDefault;
  se_disk : option PersistedSettings;
}.

Inductive PatchError :=
| BadStrategy (strategy : string)
| ZeroInputTokens
| TriggerOutOfRange (v : f32)
| RetainOutOfRange (v : f32)
| CompactGap (retain trigger : f32)
| SummaryPair (code : string)
| SessionBelowContext (session context : Z)
| BadShellPolicy (policy : string)
| ZeroToolTimeout
| BadReasoningEffort (effort : string)
| ZeroCacheTtl
| EmptyProvider
| UnknownProvider (provider : string)
| EmptyModel
| IncompatibleModel (provider : string) (model : option string).

Inductive PatchAnswer :=
(** [200]. *)
| PatchOk
(** [422]: what passed is committed, nothing is written to disk. *)
| PatchPartial (errors : list PatchError)
(** [400] before anything is read. *)
| PatchRefused (code : string)
(** [400 INVALID_TOKEN_BUDGET_FOR_PROVIDER], with the agents over budget. *)
| PatchOverBudget (e : TokenBudgetError) (agents : list string)
(** [503 AGENT_STORE_UNAVAILABLE]. *)
| PatchStoreDown.

(** * The raw body *)

Definition reject_security_knob (body : json) : bool :=
  match body with JObj ms => bool_decide (is_Some (member "security" ms)) | _ => false end.

(** The deprecated fields the body names. *)
Definition reject_legacy_context_fields (body : json) : list string :=
  match body with
  | JObj ms =>
      match member "context" ms with
      | Some (JObj ctx) => filter (λ f, is_Some (member f ctx)) ["recent_window"; "summary_interval"]
      | _ => []
      end
  | _ => []
  end.

(** * Budgets *)

Section patch.
Context (env : string → option string) (mode : ValidationMode) (secrets : SecretsStore) (providers : gmap string ProviderEntry) (mock : bool).
(** [list_agents], or [None] without a store. *)
Context (agents : option (Result (list AgentRecord) AlmsError)).

Definition put_agent (c : AgentConfig) (s : Settings) : Settings :=
  mkSettings c (se_session s) (se_tools s) (se_llm s) (se_default s) (se_disk s).

Definition nonempty_str (o : option string) : option string := non_empty o.

(** The pair the budget is checked against. *)
Definition candidate_pair (body : PatchSettingsRequest) (live : ServerLlmDefault) : string * string :=
  let named := nonempty_str (pr_provider body) in
  let candidate_provider := match named with
                            | Some p => if bool_decide (is_Some (providers !! p)) then p else sd_provider live
                            | None => sd_provider live
                            end in
  let entry_model := match named with
                     | Some p => if String.eqb p (sd_provider live) then None else providers !! p ≫= pe_model
                     | None => None
                     end in
  (candidate_provider,
   match nonempty_str (pr_model body) with
   | Some m => m
   | None => default (sd_model live) entry_model
   end).

(** The agents whose own pair does not fit, in the order of the registry. *)
Definition offenders (server_provider server_model : string) (input max_tokens : Z) (records : list AgentRecord)
    : list (AgentRecord * TokenBudgetError) :=
  omap (λ r, match resolve_effective_provider_and_model (rec_provider r) (rec_model r) server_provider server_model providers with
             | Ok (p, m) => match validate_token_budget p m input max_tokens with Err e => Some (r, e) | Ok _ => None end
             | Err _ => None
             end) records.

Definition validate_patch_budget (body : PatchSettingsRequest) (server_provider server_model : string) (s : Settings) : option PatchAnswer :=
  match pr_context body ≫= px_max_input_tokens with
  | None => None
  | Some input =>
      if (input <=? 0)%Z || mock then None
      else
        let max_tokens := ac_max_tokens (se_agent s) in
        match validate_token_budget server_provider server_model input max_tokens, mode with
        | Err e, Strict => Some (PatchOverBudget e [])
        | _, _ =>
            match agents with
            | None => None
            | Some (Err _) => Some PatchStoreDown
            | Some (Ok records) =>
                match offenders server_provider server_model input max_tokens records, mode with
                | (r, e) :: rest, Strict => Some (PatchOverBudget e (rec_name <$> r :: (fst <$> rest)))
                | _, _ => None
                end
            end
        end
  end.

(** * Sections *)

(** A candidate fraction: the live value when none was sent or it is out of
    range. *)
Definition candidate_pct (lo hi live : f32) (sent : option f32) : f32 * bool :=
  match sent with
  | Some v => if f32_between lo hi v && f32_is_finite v then (v, true) else (live, false)
  | None => (live, true)
  end.

Definition is_sent {A} (o : option A) : bool := match o with Some _ => true | None => false end.

Definition patch_strategy (live : string) (sent : option string) : string * list PatchError :=
  match sent with
  | None => (live, [])
  | Some s => if bool_decide (s ∈ ["compact"; "sliding-summary"; "full"; "truncate"])
              then (if String.eqb s "sliding-summary" then "compact" else s, [])
              else (live, [BadStrategy s])
  end.

Definition patch_input_tokens (live : Z) (sent : option Z) : Z * list PatchError :=
  match sent with
  | None => (live, [])
  | Some v => if (v =? 0)%Z then (live, [ZeroInputTokens]) else (v, [])
  end.

(** The two fractions, with what was wrong. *)
Definition patch_compact (trigger retain : f32) (sent_trigger sent_retain : option f32) : (f32 * f32) * list PatchError :=
  let '(next_trigger, trigger_ok) := candidate_pct f32_0_50 f32_0_95 trigger sent_trigger in
  let '(next_retain, retain_ok) := candidate_pct f32_0_20 f32_0_60 retain sent_retain in
  let gap_ok := f32_le (f32_add next_retain f32_0_10) next_trigger in
  let errors :=
    (if trigger_ok then [] else option_list (TriggerOutOfRange <$> sent_trigger)) ++
    (if retain_ok then [] else option_list (RetainOutOfRange <$> sent_retain)) ++
    (if negb gap_ok && (is_sent sent_trigger || is_sent sent_retain) then [CompactGap next_retain next_trigger] else []) in
  ((if gap_ok && trigger_ok && is_sent sent_trigger then next_trigger else trigger,
    if gap_ok && retain_ok && is_sent sent_retain then next_retain else retain), errors).

(** The summary pair: (model, provider). *)
Definition patch_summary (model provider sent_model sent_provider : option string) : (option string * option string) * list PatchError :=
  if is_sent sent_model || is_sent sent_provider then
    match validate_summary_pair env (match sent_provider with Some p => Some p | None => provider end)
            (match sent_model with Some m => Some m | None => model end) providers secrets with
    | Ok (p, m) => ((if is_sent sent_model then m else model, if is_sent sent_provider then p else provider), [])
    | Err code => ((model, provider), [SummaryPair code])
    end
  else ((model, provider), []).

Definition patch_context (p : PatchContext) (s : Settings) : Settings * list PatchError :=
  let a := se_agent s in
  let x := ac_context a in
  let '(strategy, e1) := patch_strategy (cx_strategy x) (px_strategy p) in
  let '(input, e2) := patch_input_tokens (cx_max_input_tokens x) (px_max_input_tokens p) in
  let '((trigger, retain), e3) :=
    patch_compact (cx_compact_trigger_pct x) (cx_compact_retain_pct x) (px_compact_trigger_pct p) (px_compact_retain_pct p) in
  let '((model, provider), e4) := patch_summary (cx_summary_model x) (cx_summary_provider x) (px_summary_model p) (px_summary_provider p) in
  (put_agent {|
     ac_system_prompt := ac_system_prompt a; ac_max_tokens := ac_max_tokens a;
     ac_context := {| cx_strategy := strategy; cx_max_input_tokens := input; cx_compact_trigger_pct := trigger;
                      cx_compact_retain_pct := retain; cx_summary_model := model; cx_summary_provider := provider;
                      cx_run_summary_mode := cx_run_summary_mode x; cx_run_summary_budget := cx_run_summary_budget x;
                      cx_summary_max_tokens := cx_summary_max_tokens x |};
     ac_posture := ac_posture a; ac_sandbox_root := ac_sandbox_root a; ac_shell_policy := ac_shell_policy a;
     ac_debug_mode := ac_debug_mode a; ac_anthropic_thinking_budget := ac_anthropic_thinking_budget a;
     ac_anthropic_prompt_cache_enabled := ac_anthropic_prompt_cache_enabled a;
     ac_openai_reasoning_effort := ac_openai_reasoning_effort a; ac_gemini_thinking_budget := ac_gemini_thinking_budget a;
     ac_gemini_cache_enabled := ac_gemini_cache_enabled a; ac_gemini_cache_ttl_seconds := ac_gemini_cache_ttl_seconds a |} s,
   e1 ++ e2 ++ e3 ++ e4).

Definition patch_session (body : PatchSettingsRequest) (p : PatchSession) (s : Settings) : Settings * list PatchError :=
  let live := se_session s in
  let next := default (max_context_tokens live) (ps_max_context_tokens p) in
  let names_either_half := is_sent (ps_max_context_tokens p) || is_sent (pr_context body ≫= px_max_input_tokens) in
  let ctx_max := cx_max_input_tokens (ac_context (se_agent s)) in
  if names_either_half && (next <? ctx_max)%Z then (s, [SessionBelowContext next ctx_max])
  else (mkSettings (se_agent s)
          {| idle_timeout_secs := default (idle_timeout_secs live) (ps_idle_timeout_secs p);
             auto_archive := default (auto_archive live) (ps_auto_archive p);
             archive_ttl_secs := default (archive_ttl_secs live) (ps_archive_ttl_secs p);
             max_messages := default (max_messages live) (ps_max_messages p); max_context_tokens := next |}
          (se_tools s) (se_llm s) (se_default s) (se_disk s), []).

(** The policy and the root also live in the agent configuration. *)
Definition patch_tools (p : PatchTools) (s : Settings) : Settings * list PatchError :=
  let a := se_agent s in
  let t := se_tools s in
  let '(policy, agent_policy, e1) :=
    match pt_shell_policy p with
    | None => (tc_shell_policy t, ac_shell_policy a, [])
    | Some v => if bool_decide (v ∈ ["sandboxed"; "unrestricted"]) then (v, v, []) else (tc_shell_policy t, ac_shell_policy a, [BadShellPolicy v])
    end in
  let '(timeout, e2) := match pt_timeout_secs p with
                        | None => (tc_timeout_secs t, [])
                        | Some v => if (v =? 0)%Z then (tc_timeout_secs t, [ZeroToolTimeout]) else (v, [])
                        end in
  (mkSettings {|
     ac_system_prompt := ac_system_prompt a; ac_max_tokens := ac_max_tokens a; ac_context := ac_context a; ac_posture := ac_posture a;
     ac_sandbox_root := default (ac_sandbox_root a) (pt_sandbox_root p); ac_shell_policy := agent_policy; ac_debug_mode := ac_debug_mode a;
     ac_anthropic_thinking_budget := ac_anthropic_thinking_budget a;
     ac_anthropic_prompt_cache_enabled := ac_anthropic_prompt_cache_enabled a;
     ac_openai_reasoning_effort := ac_openai_reasoning_effort a; ac_gemini_thinking_budget := ac_gemini_thinking_budget a;
     ac_gemini_cache_enabled := ac_gemini_cache_enabled a; ac_gemini_cache_ttl_seconds := ac_gemini_cache_ttl_seconds a |}
     (se_session s)
     {| tc_timeout_secs := timeout; tc_max_output_bytes := default (tc_max_output_bytes t) (pt_max_output_bytes p);
        tc_sandbox_root := default (tc_sandbox_root t) (pt_sandbox_root p); tc_shell_policy := policy |}
     (se_llm s) (se_default s) (se_disk s), e1 ++ e2).

Definition patch_llm (p : PatchLlm) (s : Settings) : Settings * list PatchError :=
  let a := se_agent s in
  let '(effort, e1) := match pl_reasoning_effort p with
                       | None => (ac_openai_reasoning_effort a, [])
                       | Some v => if String.eqb v "" then (None, [])
                                   else match effort_from_str v with
                                        | Ok e => (Some e, [])
                                        | Err m => (ac_openai_reasoning_effort a, [BadReasoningEffort m])
                                        end
                       end in
  let '(ttl, e2) := match pl_cache_ttl_seconds p with
                    | None => (ac_gemini_cache_ttl_seconds a, [])
                    | Some v => if (v =? 0)%Z then (ac_gemini_cache_ttl_seconds a, [ZeroCacheTtl]) else (v, [])
                    end in
  (put_agent {|
     ac_system_prompt := ac_system_prompt a; ac_max_tokens := ac_max_tokens a; ac_context := ac_context a; ac_posture := ac_posture a;
     ac_sandbox_root := ac_sandbox_root a; ac_shell_policy := ac_shell_policy a; ac_debug_mode := ac_debug_mode a;
     ac_anthropic_thinking_budget := default (ac_anthropic_thinking_budget a) (pl_thinking_budget_tokens p);
     ac_anthropic_prompt_cache_enabled := default (ac_anthropic_prompt_cache_enabled a) (pl_prompt_cache_enabled p);
     ac_openai_reasoning_effort := effort;
     ac_gemini_thinking_budget := match pl_thinking_budget p with Some v => Some v | None => ac_gemini_thinking_budget a end;
     ac_gemini_cache_enabled := default (ac_gemini_cache_enabled a) (pl_cache_enabled p); ac_gemini_cache_ttl_seconds := ttl |} s,
   e1 ++ e2).

(** ** The server's provider and model *)

(** Phase 1a: the halves that are usable on their own. *)
Definition named_halves (body : PatchSettingsRequest) : option string * option string * list PatchError :=
  let '(provider, e1) := match pr_provider body with
                         | None => (None, [])
                         | Some p => if String.eqb p "" then (None, [EmptyProvider])
                                     else match providers !! p with
                                          | None => (None, [UnknownProvider p])
                                          | Some _ => (Some p, [])
                                          end
                         end in
  let '(model, e2) := match pr_model body with
                      | None => (None, [])
                      | Some m => if String.eqb m "" then (None, [EmptyModel]) else (Some m, [])
                      end in
  (provider, model, e1 ++ e2).

(** The model a named provider would run: the body's, the entry's on a switch,
    the live one. *)
Definition post_patch_model (live : ServerLlmDefault) (provider : string) (named_model : option string) : option string :=
  match named_model with
  | Some m => Some m
  | None =>
      match (if String.eqb provider (sd_provider live) then None else nonempty_str (providers !! provider ≫= pe_model)) with
      | Some m => Some m
      | None => nonempty_str (Some (sd_model live))
      end
  end.

Record StagedPair := { st_provider : option string; st_model : option string }.

(** Phase 1b: what is staged for the commit, and what was wrong. *)
Definition stage_pair (live : ServerLlmDefault) (named_provider named_model : option string) : StagedPair * list PatchError :=
  let '(provider, entry_model, errors) :=
    match named_provider with
    | Some p =>
        let candidate := post_patch_model live p named_model in
        match candidate with
        | Some m =>
            if model_belongs_to_kind m (provider_kind_for_name p providers)
            then (Some p, if negb (is_sent named_model) && negb (String.eqb p (sd_provider live)) then Some m else None, [])
            else (None, None, [IncompatibleModel p (Some m)])
        | None => (None, None, [IncompatibleModel p None])
        end
    | None =>
        (None, None,
         match named_model with
         | Some m => if model_belongs_to_kind m (provider_kind_for_name (sd_provider live) providers) then []
                     else [IncompatibleModel (sd_provider live) (Some m)]
         | None => []
         end)
    end in
  ({| st_provider := provider; st_model := match named_model with Some m => Some m | None => entry_model end |}, errors).

(** [refresh_llm_from_server_default]. *)
Definition refresh_llm (target : ServerLlmDefault) (l : LlmClient) : LlmClient :=
  with_model (sd_model target) (with_provider_and_secrets env (sd_provider target) secrets l).

(** Phase 2. *)
Definition commit_pair (p : StagedPair) (s : Settings) : Settings :=
  let live := se_default s in
  let target := {| sd_model := default (sd_model live) (st_model p); sd_provider := default (sd_provider live) (st_provider p) |} in
  let changed := negb (String.eqb (sd_provider target) (sd_provider live) && String.eqb (sd_model target) (sd_model live)) in
  mkSettings (se_agent s) (se_session s) (se_tools s)
    (if changed then refresh_llm target (se_llm s) else se_llm s) target (se_disk s).

Definition patch_pair (body : PatchSettingsRequest) (s : Settings) : Settings * list PatchError :=
  let '(named_provider, named_model, e1) := named_halves body in
  match e1 with
  | _ :: _ => (s, e1)
  | [] => let '(staged, e2) := stage_pair (se_default s) named_provider named_model in
          match e2 with
          | [] => (commit_pair staged s, [])
          | _ :: _ => (s, e2)
          end
  end.

(** * [settings.json] *)

Definition persist (s : Settings) : PersistedSettings :=
  let a := se_agent s in
  let x := ac_context a in
  let compiled := is_compiled_default_summary_pair (cx_summary_provider x) (cx_summary_model x) in {|
  pe_strategy := cx_strategy x; pe_max_input_tokens := cx_max_input_tokens x; pe_compact_trigger_pct := cx_compact_trigger_pct x;
  pe_compact_retain_pct := cx_compact_retain_pct x;
  pe_summary_model := if compiled then None else Some (default "" (cx_summary_model x));
  pe_summary_provider := if compiled then None else Some (default "" (cx_summary_provider x));
  pe_session := se_session s; pe_tools := se_tools s;
  pe_thinking_budget_tokens := ac_anthropic_thinking_budget a; pe_prompt_cache_enabled := ac_anthropic_prompt_cache_enabled a;
  pe_reasoning_effort := match ac_openai_reasoning_effort a with Some e => effort_as_wire_str e | None => "" end;
  pe_gemini_thinking_budget := ac_gemini_thinking_budget a; pe_cache_enabled := ac_gemini_cache_enabled a;
  pe_cache_ttl_seconds := ac_gemini_cache_ttl_seconds a; pe_default := se_default s |}.

Definition persist_settings (s : Settings) : Settings :=
  mkSettings (se_agent s) (se_session s) (se_tools s) (se_llm s) (se_default s) (Some (persist s)).

(** The four [apply_to] and the pair, over the configuration of this start;
    [in_file] is the client it built. *)
Definition restored_agent (p : PersistedSettings) (a : AgentConfig) : AgentConfig :=
  let x := ac_context a in {|
  ac_system_prompt := ac_system_prompt a; ac_max_tokens := ac_max_tokens a;
  ac_context := {|
    cx_strategy := if String.eqb (pe_strategy p) "sliding-summary" then "compact" else pe_strategy p;
    cx_max_input_tokens := pe_max_input_tokens p; cx_compact_trigger_pct := pe_compact_trigger_pct p;
    cx_compact_retain_pct := pe_compact_retain_pct p;
    cx_summary_model := match pe_summary_model p with Some v => normalize_summary_field (Some v) | None => cx_summary_model x end;
    cx_summary_provider := match pe_summary_provider p with Some v => normalize_summary_field (Some v) | None => cx_summary_provider x end;
    cx_run_summary_mode := cx_run_summary_mode x; cx_run_summary_budget := cx_run_summary_budget x;
    cx_summary_max_tokens := cx_summary_max_tokens x |};
  ac_posture := ac_posture a; ac_sandbox_root := tc_sandbox_root (pe_tools p); ac_shell_policy := tc_shell_policy (pe_tools p);
  ac_debug_mode := ac_debug_mode a; ac_anthropic_thinking_budget := pe_thinking_budget_tokens p;
  ac_anthropic_prompt_cache_enabled := pe_prompt_cache_enabled p;
  ac_openai_reasoning_effort := if String.eqb (pe_reasoning_effort p) "" then None
                                else match effort_from_str (pe_reasoning_effort p) with
                                     | Ok e => Some e
                                     | Err _ => ac_openai_reasoning_effort a
                                     end;
  ac_gemini_thinking_budget := match pe_gemini_thinking_budget p with Some v => Some v | None => ac_gemini_thinking_budget a end;
  ac_gemini_cache_enabled := pe_cache_enabled p; ac_gemini_cache_ttl_seconds := pe_cache_ttl_seconds p |}.

Definition restored_llm (p : PersistedSettings) (l : LlmClient) : LlmClient :=
  let '(model, provider) := (sd_model (pe_default p), sd_provider (pe_default p)) in
  let valid := String.eqb provider "" || bool_decide (is_Some (providers !! provider)) in
  let l := if negb (String.eqb provider "") && valid then with_provider_and_secrets env provider secrets l else l in
  if valid && negb (String.eqb model "") then with_model model l else l.

(** The start-up, over what the files and the environment say. *)
Definition boot (agent : AgentConfig) (session : SessionConfig) (tools : ToolsConfig) (in_file : LlmClient) (disk : option PersistedSettings)
    : Settings :=
  match disk with
  | None => mkSettings agent session tools in_file {| sd_model := default_model in_file; sd_provider := provider in_file |} None
  | Some p =>
      let llm := restored_llm p in_file in
      let '(model, provider) := (sd_model (pe_default p), sd_provider (pe_default p)) in
      let valid := String.eqb provider "" || bool_decide (is_Some (providers !! provider)) in
      mkSettings (restored_agent p agent) (pe_session p) (pe_tools p) llm
        {| sd_model := if valid && negb (String.eqb model "") then model else default_model in_file;
           sd_provider := if negb (String.eqb provider "") && valid then provider else LlmClient.provider in_file |} (Some p)
  end.

(** * [patch_settings] *)

Definition optional_section {P} (f : P → Settings → Settings * list PatchError) (p : option P) (s : Settings) : Settings * list PatchError :=
  match p with Some p => f p s | None => (s, []) end.

Definition patch_sections (body : PatchSettingsRequest) (s : Settings) : Settings * list PatchError :=
  let '(s, e1) := optional_section patch_context (pr_context body) s in
  let '(s, e2) := optional_section (patch_session body) (pr_session body) s in
  let '(s, e3) := optional_section patch_tools (pr_tools body) s in
  let '(s, e4) := optional_section patch_llm (pr_llm body) s in
  let '(s, e5) := patch_pair body s in
  (s, e1 ++ e2 ++ e3 ++ e4 ++ e5).

Definition patch_parsed (body : PatchSettingsRequest) (s : Settings) : Settings * PatchAnswer :=
  let '(candidate_provider, candidate_model) := candidate_pair body (se_default s) in
  match validate_patch_budget body candidate_provider candidate_model s with
  | Some refusal => (s, refusal)
  | None =>
      let '(s', errors) := patch_sections body s in
      match errors with
      | [] => (persist_settings s', PatchOk)
      | _ :: _ => (s', PatchPartial errors)
      end
  end.

Definition patch_settings (parse : json → option PatchSettingsRequest) (raw : json) (s : Settings) : Settings * PatchAnswer :=
  if reject_security_knob raw then (s, PatchRefused "SECURITY_KNOB_NOT_PATCHABLE")
  else match reject_legacy_context_fields raw with
       | _ :: _ => (s, PatchRefused "CONTEXT_LEGACY_FIELD_DEPRECATED")
       | [] => match parse raw with
               | None => (s, PatchRefused "Invalid PATCH /settings body")
               | Some body => patch_parsed body s
               end
       end.
End patch.

(** * Invariant *)

Section invariant.
Context (env : string → option string) (secrets : SecretsStore) (providers : gmap string ProviderEntry).

(** The client runs start from is the pair that is shown and stored, the pair
    can run, and every checked field has a value the checks accept.  Two checks are
    of the moment and not here: the bound of a session against the input budget, and
    the key of the summary provider. *)
Record settings_ok (s : Settings) : Prop := {
  ok_provider : provider (se_llm s) = sd_provider (se_default s);
  ok_model : default_model (se_llm s) = sd_model (se_default s);
  ok_table : providers_snapshot (se_llm s) = providers;
  ok_configured : is_Some (providers !! sd_provider (se_default s));
  ok_named : sd_model (se_default s) ≠ "" ∧ sd_provider (se_default s) ≠ "";
  ok_coherent : model_belongs_to_kind (sd_model (se_default s)) (provider_kind_for_name (sd_provider (se_default s)) providers) = true;
  ok_policy : ac_shell_policy (se_agent s) = tc_shell_policy (se_tools s) ∧ tc_shell_policy (se_tools s) ∈ ["sandboxed"; "unrestricted"];
  ok_root : ac_sandbox_root (se_agent s) = tc_sandbox_root (se_tools s);
  ok_strategy : cx_strategy (ac_context (se_agent s)) ∈ ["compact"; "full"; "truncate"];
  ok_input : cx_max_input_tokens (ac_context (se_agent s)) ≠ 0%Z;
  ok_trigger : f32_between f32_0_50 f32_0_95 (cx_compact_trigger_pct (ac_context (se_agent s))) = true;
  ok_retain : f32_between f32_0_20 f32_0_60 (cx_compact_retain_pct (ac_context (se_agent s))) = true;
  ok_gap : f32_le (f32_add (cx_compact_retain_pct (ac_context (se_agent s))) f32_0_10) (cx_compact_trigger_pct (ac_context (se_agent s))) = true;
  ok_summary : normalize_summary_field (cx_summary_provider (ac_context (se_agent s))) = cx_summary_provider (ac_context (se_agent s)) ∧
               normalize_summary_field (cx_summary_model (ac_context (se_agent s))) = cx_summary_model (ac_context (se_agent s)) ∧
               check_summary_pair (cx_summary_provider (ac_context (se_agent s))) (cx_summary_model (ac_context (se_agent s))) = Ok tt;
  ok_timeout : tc_timeout_secs (se_tools s) ≠ 0%Z;
  ok_ttl : ac_gemini_cache_ttl_seconds (se_agent s) ≠ 0%Z;
}.

Lemma normalize_idem v : normalize_summary_field (normalize_summary_field v) = normalize_summary_field v.
Proof.
  destruct v as [v|]; [|done]. unfold normalize_summary_field. destruct (String.eqb (trim v) "") eqn:E; [done|].
  by rewrite trim_idem, E.
Qed.

Lemma patch_strategy_ok live sent strategy e :
  patch_strategy live sent = (strategy, e) → live ∈ ["compact"; "full"; "truncate"] → strategy ∈ ["compact"; "full"; "truncate"].
Proof.
  unfold patch_strategy. destruct sent as [s|]; [|by intros [= <- <-]]. case_bool_decide as H; [|by intros [= <- <-]].
  intros [= <- <-] _. destruct (String.eqb_spec s "sliding-summary") as [_|Hne]; [set_solver|]. set_solver.
Qed.

Lemma patch_input_tokens_ok live sent v e : patch_input_tokens live sent = (v, e) → live ≠ 0%Z → v ≠ 0%Z.
Proof. unfold patch_input_tokens. destruct sent as [n|]; [destruct (Z.eqb_spec n 0)|]; intros [= <- <-]; done. Qed.

Lemma candidate_pct_ok lo hi live sent v ok :
  candidate_pct lo hi live sent = (v, ok) → f32_between lo hi live = true →
  f32_between lo hi v = true ∧ (if ok && is_sent sent then v else live) = v.
Proof.
  unfold candidate_pct. destruct sent as [x|]; [|by intros [= <- <-]].
  destruct (f32_between lo hi x && f32_is_finite x) eqn:E; intros [= <- <-] Hl; [|done].
  by apply andb_true_iff in E as [-> _].
Qed.

Lemma patch_compact_ok trigger retain st sr trigger' retain' e :
  patch_compact trigger retain st sr = ((trigger', retain'), e) →
  f32_between f32_0_50 f32_0_95 trigger = true → f32_between f32_0_20 f32_0_60 retain = true →
  f32_le (f32_add retain f32_0_10) trigger = true →
  f32_between f32_0_50 f32_0_95 trigger' = true ∧ f32_between f32_0_20 f32_0_60 retain' = true ∧
  f32_le (f32_add retain' f32_0_10) trigger' = true.
Proof.
  unfold patch_compact. destruct (candidate_pct _ _ trigger st) as [nt tok] eqn:Et, (candidate_pct _ _ retain sr) as [nr rok] eqn:Er.
  intros [= <- <- _] Ht Hr Hg. destruct (candidate_pct_ok _ _ _ _ _ _ Et Ht) as [Hnt Ent], (candidate_pct_ok _ _ _ _ _ _ Er Hr) as [Hnr Enr].
  destruct (f32_le (f32_add nr f32_0_10) nt) eqn:G; [|done]. rewrite !andb_true_l, Ent, Enr. done.
Qed.

Definition summary_whole (provider model : option string) : Prop :=
  normalize_summary_field provider = provider ∧ normalize_summary_field model = model ∧ check_summary_pair provider model = Ok tt.

(** A summary pair stays, or moves to one that is set or cleared as a whole, on a
    provider that is configured and has a key. *)
Lemma patch_summary_ok model provider sm sp model' provider' e :
  patch_summary env secrets providers model provider sm sp = ((model', provider'), e) → summary_whole provider model →
  summary_whole provider' model' ∧
  ((model', provider') = (model, provider) ∨
   ∀ p, provider' = Some p → ∃ e, providers !! p = Some e ∧ (is_Some (resolve_api_key env e) ∨ is_Some (secrets !! p))).
Proof.
  intros H Hin. unfold patch_summary in H. destruct (is_sent sm || is_sent sp); [|injection H as <- <- <-; split; [done|by left]].
  unfold validate_summary_pair in H.
  set (np := normalize_summary_field (match sp with Some p => Some p | None => provider end)) in H.
  set (nm := normalize_summary_field (match sm with Some m => Some m | None => model end)) in H.
  assert (Enp : (if is_sent sp then np else provider) = np) by (unfold np; destruct sp; [done|symmetry; apply Hin]).
  assert (Enm : (if is_sent sm then nm else model) = nm) by (unfold nm; destruct sm; [done|symmetry; apply Hin]).
  assert (Hok : normalize_summary_field np = np ∧ normalize_summary_field nm = nm) by (split; apply normalize_idem).
  destruct (check_summary_pair np nm) as [[]|e'] eqn:Ec; [|injection H as <- <- <-; split; [done|by left]].
  destruct np as [p|] eqn:Ep.
  - destruct (providers !! p) as [entry|] eqn:Ee; [|injection H as <- <- <-; split; [done|by left]].
    destruct (resolve_api_key env entry) eqn:Ek, (resolve_key p secrets) eqn:Es; injection H as <- <- <-; [..|split; [done|by left]];
      rewrite Enp, Enm; (split; [destruct Hok; by split_and!|]); right; intros q [= <-]; exists entry; (split; [done|]);
      first [by left; eexists|by right; eexists].
  - injection H as <- <- <-. rewrite Enp, Enm. split; [destruct Hok; by split_and!|by right].
Qed.

Lemma patch_context_ok p s : settings_ok s → settings_ok (patch_context env secrets providers p s).1.
Proof.
  intros []. unfold patch_context.
  destruct (patch_strategy _ _) as [strategy e1] eqn:E1, (patch_input_tokens _ _) as [input e2] eqn:E2,
    (patch_compact _ _ _ _) as [[trigger retain] e3] eqn:E3, (patch_summary _ _ _ _ _ _ _) as [[model prov] e4] eqn:E4.
  destruct (patch_compact_ok _ _ _ _ _ _ _ E3 ltac:(done) ltac:(done) ltac:(done)) as (?&?&?).
  destruct (patch_summary_ok _ _ _ _ _ _ _ E4 ltac:(done)) as [(?&?&?) _].
  split; simpl; eauto using patch_strategy_ok, patch_input_tokens_ok.
Qed.

Lemma patch_session_ok body p s : settings_ok s → settings_ok (patch_session body p s).1.
Proof. intros []. unfold patch_session. destruct (_ && _); by split. Qed.

Lemma patch_tools_ok p s : settings_ok s → settings_ok (patch_tools p s).1.
Proof.
  intros []. unfold patch_tools. destruct (pt_timeout_secs p) as [n|]; [destruct (Z.eqb_spec n 0)|];
  (destruct (pt_shell_policy p) as [v|]; [case_bool_decide|]; split; simpl; try done; by rewrite ok_root0).
Qed.

Lemma patch_llm_ok p s : settings_ok s → settings_ok (patch_llm p s).1.
Proof.
  intros []. unfold patch_llm.
  destruct (match pl_reasoning_effort p with Some _ => _ | None => _ end) as [effort e1].
  assert (Httl : (match pl_cache_ttl_seconds p with
                  | None => (ac_gemini_cache_ttl_seconds (se_agent s), [])
                  | Some v => if (v =? 0)%Z then (ac_gemini_cache_ttl_seconds (se_agent s), [ZeroCacheTtl]) else (v, [])
                  end).1 ≠ 0%Z) by (destruct (pl_cache_ttl_seconds p) as [v|]; [destruct (Z.eqb_spec v 0)|]; done).
  destruct (match pl_cache_ttl_seconds p with Some _ => _ | None => _ end) as [ttl e2]. by split.
Qed.

(** ** The pair *)

Lemma non_empty_spec o v : non_empty o = Some v ↔ o = Some v ∧ v ≠ "".
Proof.
  unfold non_empty. destruct o as [x|]; [|naive_solver]. destruct (String.eqb_spec x "") as [->|H]; naive_solver.
Qed.

Lemma named_halves_spec body np nm :
  named_halves providers body = (np, nm, []) →
  pr_provider body = np ∧ pr_model body = nm ∧ (∀ p, np = Some p → p ≠ "" ∧ is_Some (providers !! p)) ∧ (∀ m, nm = Some m → m ≠ "").
Proof.
  unfold named_halves.
  destruct (match pr_provider body with Some _ => _ | None => _ end) as [np' e1] eqn:E1.
  destruct (match pr_model body with Some _ => _ | None => _ end) as [nm' e2] eqn:E2.
  intros H. injection H as -> -> [-> ->]%app_eq_nil. split_and!.
  - destruct (pr_provider body) as [p|]; [|by injection E1]. destruct (String.eqb p ""); [done|]. destruct (providers !! p); by injection E1.
  - destruct (pr_model body) as [m|]; [|by injection E2]. destruct (String.eqb m ""); by injection E2.
  - intros p ->. destruct (pr_provider body) as [q|]; [|done]. destruct (String.eqb_spec q ""); [done|].
    destruct (providers !! q) eqn:E; [|done]. injection E1 as ->. by rewrite E.
  - intros m ->. destruct (pr_model body) as [q|]; [|done]. destruct (String.eqb_spec q ""); [done|]. by injection E2 as ->.
Qed.

Lemma post_patch_model_nonempty live p nm m :
  (∀ x, nm = Some x → x ≠ "") → post_patch_model providers live p nm = Some m → m ≠ "".
Proof.
  unfold post_patch_model, nonempty_str. intros Hn H. destruct nm as [x|]; [injection H as <-; eauto|].
  destruct (String.eqb p (sd_provider live)); [|destruct (non_empty (providers !! p ≫= pe_model)) as [y|] eqn:E].
  - by apply non_empty_spec in H as [_ ?].
  - injection H as <-. by apply non_empty_spec in E as [_ ?].
  - by apply non_empty_spec in H as [_ ?].
Qed.

(** The pair a commit leaves, from the live one. *)
Definition target_of (live : ServerLlmDefault) (p : StagedPair) : ServerLlmDefault := {|
  sd_model := default (sd_model live) (st_model p); sd_provider := default (sd_provider live) (st_provider p) |}.

Lemma stage_pair_spec live np nm staged :
  stage_pair providers live np nm = (staged, []) → sd_model live ≠ "" →
  model_belongs_to_kind (sd_model live) (provider_kind_for_name (sd_provider live) providers) = true →
  st_provider staged = np ∧
  model_belongs_to_kind (sd_model (target_of live staged)) (provider_kind_for_name (sd_provider (target_of live staged)) providers) = true ∧
  match np with
  | Some p => post_patch_model providers live p nm = Some (sd_model (target_of live staged))
  | None => sd_model (target_of live staged) = default (sd_model live) nm
  end.
Proof.
  intros H Hne Hk. unfold stage_pair in H. destruct np as [p|].
  - destruct (post_patch_model providers live p nm) as [m|] eqn:Em; [|done].
    destruct (model_belongs_to_kind m (provider_kind_for_name p providers)) eqn:Eb; [|done]. injection H as <-. simpl.
    enough (Et : default (sd_model live) (match nm with Some m => Some m | None =>
              if negb (is_sent nm) && negb (String.eqb p (sd_provider live)) then Some m else None end) = m) by (rewrite Et; done).
    unfold post_patch_model, nonempty_str in Em. destruct nm as [x|]; [by injection Em|]. simpl.
    destruct (String.eqb p (sd_provider live)); [|done]. simpl. by apply non_empty_spec in Em as [[= ->] _].
  - destruct nm as [m|]; [|by injection H as <-]. destruct (model_belongs_to_kind m _) eqn:Eb; [|done]. by injection H as <-.
Qed.

Lemma refresh_llm_pair t l :
  provider (refresh_llm env secrets t l) = sd_provider t ∧ default_model (refresh_llm env secrets t l) = sd_model t ∧
  providers_snapshot (refresh_llm env secrets t l) = providers_snapshot l.
Proof.
  destruct (apply_provider_rest env (sd_provider t) (Some secrets) l) as (E & _).
  split_and!; [apply (apply_provider_name env (sd_provider t) (Some secrets) l)|done|exact E].
Qed.

Lemma commit_pair_target staged s :
  se_default (commit_pair env secrets staged s) = target_of (se_default s) staged.
Proof. done. Qed.

Lemma commit_pair_ok staged s :
  settings_ok s → sd_model (target_of (se_default s) staged) ≠ "" →
  sd_provider (target_of (se_default s) staged) ≠ "" → is_Some (providers !! sd_provider (target_of (se_default s) staged)) →
  model_belongs_to_kind (sd_model (target_of (se_default s) staged))
    (provider_kind_for_name (sd_provider (target_of (se_default s) staged)) providers) = true →
  settings_ok (commit_pair env secrets staged s).
Proof.
  intros [] Hm Hp Hc Hk. fold (target_of (se_default s) staged) in *. unfold commit_pair. fold (target_of (se_default s) staged).
  set (t := target_of (se_default s) staged) in *.
  destruct (refresh_llm_pair t (se_llm s)) as (Rp & Rm & Rt).
  destruct (String.eqb_spec (sd_provider t) (sd_provider (se_default s))) as [Ep|];
    [destruct (String.eqb_spec (sd_model t) (sd_model (se_default s))) as [Em|]|]; cbn [negb andb]; split;
    cbn [se_llm se_default se_agent se_tools]; congruence || done.
Qed.

Lemma patch_pair_ok body s : settings_ok s → settings_ok (patch_pair env secrets providers body s).1.
Proof.
  intros Hok. unfold patch_pair. destruct (named_halves providers body) as [[np nm] [|? ?]] eqn:En; [|done].
  destruct (stage_pair providers (se_default s) np nm) as [staged [|? ?]] eqn:Es; [|done]. simpl.
  apply named_halves_spec in En as (_ & _ & Hnp & Hnm). destruct (ok_named _ Hok) as [Hm Hp].
  destruct (stage_pair_spec _ _ _ _ Es Hm (ok_coherent _ Hok)) as (Hsp & Hk & Ht).
  apply commit_pair_ok; [done|..|exact Hk].
  - destruct np as [p|]; [by eapply post_patch_model_nonempty|]. rewrite Ht. destruct nm; [by apply Hnm|done].
  - simpl. rewrite Hsp. destruct np as [p|]; [by apply (Hnp p)|done].
  - simpl. rewrite Hsp. destruct np as [p|]; [by apply (Hnp p)|apply Hok].
Qed.

Lemma patch_sections_ok body s : settings_ok s → settings_ok (patch_sections env secrets providers body s).1.
Proof.
  intros Hok. unfold patch_sections.
  assert (Hopt : ∀ {P} (f : P → Settings → Settings * list PatchError) p s, (∀ x s, settings_ok s → settings_ok (f x s).1) →
            settings_ok s → settings_ok (optional_section f p s).1).
  { intros P f p s' Hf Hs. destruct p; [by apply Hf|done]. }
  destruct (optional_section _ (pr_context body) s) as [s1 e1] eqn:E1.
  assert (H1 : settings_ok s1) by (rewrite <- (f_equal fst E1 : _ = s1); apply Hopt; [intros; by apply patch_context_ok|done]).
  destruct (optional_section _ (pr_session body) s1) as [s2 e2] eqn:E2.
  assert (H2 : settings_ok s2) by (rewrite <- (f_equal fst E2 : _ = s2); apply Hopt; [intros; by apply patch_session_ok|done]).
  destruct (optional_section _ (pr_tools body) s2) as [s3 e3] eqn:E3.
  assert (H3 : settings_ok s3) by (rewrite <- (f_equal fst E3 : _ = s3); apply Hopt; [intros; by apply patch_tools_ok|done]).
  destruct (optional_section _ (pr_llm body) s3) as [s4 e4] eqn:E4.
  assert (H4 : settings_ok s4) by (rewrite <- (f_equal fst E4 : _ = s4); apply Hopt; [intros; by apply patch_llm_ok|done]).
  pose proof (patch_pair_ok body s4 H4) as H5. by destruct (patch_pair _ _ _ body s4).
Qed.
End invariant.
