(* ===== verification/SettingsProps.v ===== *)
(** What [PATCH /settings] promises: the settings stay usable whatever is sent,
    a restart comes back with what an accepted request left, and a context
    budget is only accepted when every registered agent's runs still pass the
    check in front of them. *)
From S2P Require Import Prelude Ident Json Budget Run Session Episodic F32 ContextBuild LlmClient RunConfig Settings.

Section properties.
Context (env : string → option string) (secrets : SecretsStore) (providers : gmap string ProviderEntry).

(** ** Any sequence of requests *)

(** A request with what the handler reads around it: the validation mode, mock,
    the registry. *)
Record Patching := { pg_mode : ValidationMode; pg_mock : bool; pg_agents : option (Result (list AgentRecord) AlmsError); pg_raw : json }.

Definition patch_one (parse : json → option PatchSettingsRequest) (s : Settings) (p : Patching) : Settings :=
  (patch_settings env (pg_mode p) secrets providers (pg_mock p) (pg_agents p) parse (pg_raw p) s).1.

Lemma patch_parsed_ok mode mock agents body s :
  settings_ok providers s → settings_ok providers (patch_parsed env mode secrets providers mock agents body s).1.
Proof.
  intros Hok. unfold patch_parsed. destruct (candidate_pair providers body _) as [cp cm]. destruct (validate_patch_budget _ _ _ _ _ _ _); [done|].
  pose proof (patch_sections_ok env secrets providers body s Hok) as H. destruct (patch_sections _ _ _ body s) as [s' [|e es]]; [|done].
  destruct H. by split.
Qed.

(** What the later sections leave. *)
Definition checked_together (s : Settings) :=
  let x := ac_context (se_agent s) in (se_session s, cx_max_input_tokens x, (cx_summary_model x, cx_summary_provider x)).

Lemma later_sections_keep s :
  (∀ p, checked_together (patch_tools p s).1 = checked_together s) ∧ (∀ p, checked_together (patch_llm p s).1 = checked_together s) ∧
  (∀ body, checked_together (patch_pair env secrets providers body s).1 = checked_together s).
Proof.
  split_and!.
  - intros p. unfold patch_tools. destruct (match pt_shell_policy p with Some _ => _ | None => _ end) as [[policy ap] e1].
    by destruct (match pt_timeout_secs p with Some _ => _ | None => _ end).
  - intros p. unfold patch_llm. destruct (match pl_reasoning_effort p with Some _ => _ | None => _ end) as [effort e1].
    by destruct (match pl_cache_ttl_seconds p with Some _ => _ | None => _ end).
  - intros body. unfold patch_pair. destruct (named_halves providers body) as [[np nm] [|? ?]]; [|done].
    by destruct (stage_pair providers _ np nm) as [staged [|? ?]].
Qed.

Lemma optional_keeps {P} (f : P → Settings → Settings * list PatchError) o s :
  (∀ p, checked_together (f p s).1 = checked_together s) → checked_together (optional_section f o s).1 = checked_together s.
Proof. destruct o; [intros H; apply H|done]. Qed.

(** What a request may move only after a check: the bound of a session, to one the
    input budget fits under, and the summary pair, to a provider that is configured
    and has a key. *)
Record checked_moves (s s' : Settings) : Prop := {
  cm_session : max_context_tokens (se_session s') ≠ max_context_tokens (se_session s) →
    (cx_max_input_tokens (ac_context (se_agent s')) <= max_context_tokens (se_session s'))%Z;
  cm_summary : let x := ac_context (se_agent s) in let x' := ac_context (se_agent s') in
    (cx_summary_model x', cx_summary_provider x') = (cx_summary_model x, cx_summary_provider x) ∨
    ∀ p, cx_summary_provider x' = Some p → ∃ e, providers !! p = Some e ∧ (is_Some (resolve_api_key env e) ∨ is_Some (secrets !! p));
}.

Lemma moves_none s : checked_moves s s.
Proof. split; [done|by left]. Qed.

Lemma patch_context_moves p s :
  settings_ok providers s →
  let s' := (patch_context env secrets providers p s).1 in se_session s' = se_session s ∧ checked_moves s s'.
Proof.
  intros Hok. unfold patch_context.
  destruct (patch_strategy _ _), (patch_input_tokens _ _), (patch_compact _ _ _ _) as [[? ?] ?], (patch_summary _ _ _ _ _ _ _) as [[? ?] ?] eqn:E.
  split; [done|]. split; [done|]. apply (patch_summary_ok _ _ _ _ _ _ _ _ _ _ E). apply Hok.
Qed.

Lemma patch_session_moves body p s :
  let s' := (patch_session body p s).1 in se_agent s' = se_agent s ∧ checked_moves s s'.
Proof.
  unfold patch_session. destruct (ps_max_context_tokens p) as [v|] eqn:Ev; simpl.
  - destruct (v <? _)%Z eqn:Hlt; simpl; (split; [done|]); [apply moves_none|]. split; [|by left]. intros _. by apply Z.ltb_ge in Hlt.
  - destruct (_ && _); (split; [done|]); [apply moves_none|]. split; [done|by left].
Qed.

Lemma patch_sections_moves body s : settings_ok providers s → checked_moves s (patch_sections env secrets providers body s).1.
Proof.
  intros Hok. unfold patch_sections. destruct (optional_section _ (pr_context body) s) as [s1 e1] eqn:E1.
  assert (H1 : se_session s1 = se_session s ∧ checked_moves s s1).
  { destruct (pr_context body) as [p|]; [|injection E1 as <- <-; split; [done|apply moves_none]]. simpl in E1.
    pose proof (patch_context_moves p s Hok) as H. by rewrite E1 in H. }
  destruct (optional_section _ (pr_session body) s1) as [s2 e2] eqn:E2.
  assert (H2 : se_agent s2 = se_agent s1 ∧ checked_moves s1 s2).
  { destruct (pr_session body) as [p|]; [|injection E2 as <- <-; split; [done|apply moves_none]]. simpl in E2.
    pose proof (patch_session_moves body p s1) as H. by rewrite E2 in H. }
  pose proof (optional_keeps patch_tools (pr_tools body) s2 (proj1 (later_sections_keep s2))) as H3.
  destruct (optional_section _ (pr_tools body) s2) as [s3 e3]. simpl in H3.
  pose proof (optional_keeps patch_llm (pr_llm body) s3 (proj1 (proj2 (later_sections_keep s3)))) as H4.
  destruct (optional_section _ (pr_llm body) s3) as [s4 e4]. simpl in H4.
  pose proof (proj2 (proj2 (later_sections_keep s4)) body) as H5. destruct (patch_pair _ _ _ body s4) as [s5 e5]. simpl in *.
  rewrite H4, H3 in H5. injection H5 as Es Ei Em Ep. destruct H1 as [Hs1 [_ Hp]], H2 as [Ha2 [Hm _]].
  split; [rewrite Es, Ei, <- Hs1; exact Hm|]. cbn zeta in *. rewrite Em, Ep, Ha2. exact Hp.
Qed.

Lemma patch_one_kept parse s p :
  settings_ok providers s → settings_ok providers (patch_one parse s p) ∧ checked_moves s (patch_one parse s p).
Proof.
  intros Hok. unfold patch_one, patch_settings. pose proof (moves_none s) as Hs.
  destruct (reject_security_knob _); [done|]. destruct (reject_legacy_context_fields _); [|done].
  destruct (parse _) as [body|]; [|done]. split; [by apply patch_parsed_ok|]. unfold patch_parsed.
  destruct (candidate_pair providers body _) as [cp cm]. destruct (validate_patch_budget _ _ _ _ _ _ _ _); [done|].
  pose proof (patch_sections_moves body s Hok) as H. destruct (patch_sections _ _ _ body s) as [s' [|e es]]; [|done].
  destruct H. by split.
Qed.

(** C24: Whatever is sent to [PATCH /settings], and in whatever order, while the table
    of providers and the keys stay, the settings stay usable: the client that runs
    start from is always on the provider and model shown as the server's default;
    that provider is configured and speaks the model; the two copies of the shell
    policy and of the sandbox root agree; the strategy is a known one, the input
    budget, the timeout of the tools and the lifetime of a Gemini cache are not zero,
    both compaction fractions stay in range and far enough apart, and the summary
    pair is set or cleared as a whole.  Two checks hold of the request that moves the
    value: the bound of a session moves only to one the input budget fits under,
    which a later budget may exceed, and the summary pair only to a provider that is
    configured and has a key. *)
Theorem settings_stay_ok parse requests p s :
  settings_ok providers s →
  let before := fold_left (patch_one parse) requests s in
  settings_ok providers before ∧ checked_moves before (patch_one parse before p).
Proof.
  intros Hok before. enough (H : settings_ok providers before) by (split; [done|by apply patch_one_kept]).
  unfold before. clear p before. revert s Hok. induction requests as [|p ps IH]; intros s Hok; [done|]. by apply IH, patch_one_kept.
Qed.

(** ** The budget and the fleet *)

(** The fields the check in front of a run reads. *)
Definition checked_fields (c : AgentConfig) : Z * Z := (cx_max_input_tokens (ac_context c), ac_max_tokens c).

Lemma patch_input_tokens_sent live v x : patch_input_tokens live (Some v) = (x, []) → x = v.
Proof. unfold patch_input_tokens. by destruct (v =? 0)%Z; intros [= <-]. Qed.

Lemma patch_context_tokens p s s' :
  patch_context env secrets providers p s = (s', []) → se_default s' = se_default s ∧ se_llm s' = se_llm s ∧
  checked_fields (se_agent s') = (default (cx_max_input_tokens (ac_context (se_agent s))) (px_max_input_tokens p), ac_max_tokens (se_agent s)).
Proof.
  unfold patch_context.
  destruct (patch_strategy _ _) as [strategy e1], (patch_input_tokens _ _) as [input e2] eqn:E2, (patch_compact _ _ _ _) as [[trigger retain] e3],
    (patch_summary _ _ _ _ _ _ _) as [[model prov] e4].
  intros H. apply pair_equal_spec in H as [<- He]. split; [done|]. split; [done|].
  apply app_eq_nil in He as [-> He]. apply app_eq_nil in He as [-> _]. unfold checked_fields. cbn -[patch_input_tokens]. f_equal.
  destruct (px_max_input_tokens p) as [v|]; [by apply patch_input_tokens_sent in E2|by injection E2].
Qed.

Lemma patch_session_tokens body p s s' e :
  patch_session body p s = (s', e) → se_default s' = se_default s ∧ se_llm s' = se_llm s ∧ se_agent s' = se_agent s.
Proof. unfold patch_session. by destruct (_ && _); intros [= <- _]. Qed.

Lemma patch_tools_tokens p s s' e :
  patch_tools p s = (s', e) →
  se_default s' = se_default s ∧ se_llm s' = se_llm s ∧ checked_fields (se_agent s') = checked_fields (se_agent s).
Proof.
  unfold patch_tools. destruct (match pt_shell_policy p with Some _ => _ | None => _ end) as [[policy ap] e1].
  destruct (match pt_timeout_secs p with Some _ => _ | None => _ end) as [timeout e2]. by intros [= <- _].
Qed.

Lemma patch_llm_tokens p s s' e :
  patch_llm p s = (s', e) →
  se_default s' = se_default s ∧ se_llm s' = se_llm s ∧ checked_fields (se_agent s') = checked_fields (se_agent s).
Proof.
  unfold patch_llm. destruct (match pl_reasoning_effort p with Some _ => _ | None => _ end) as [effort e1].
  destruct (match pl_cache_ttl_seconds p with Some _ => _ | None => _ end) as [ttl e2]. by intros [= <- _].
Qed.

Lemma non_empty_some v : v ≠ "" → non_empty (Some v) = Some v.
Proof. intros H. unfold non_empty. by apply String.eqb_neq in H as ->. Qed.

Lemma commit_pair_agent staged s : se_agent (commit_pair env secrets staged s) = se_agent s.
Proof. done. Qed.

(** Without a rejected half the commit installs the pair the budget was checked
    against. *)
Lemma patch_pair_candidate body s s' :
  (∀ p e, pr_provider body = Some p → providers !! p = Some e → pe_model e ≠ Some "") → sd_model (se_default s) ≠ "" →
  model_belongs_to_kind (sd_model (se_default s)) (provider_kind_for_name (sd_provider (se_default s)) providers) = true →
  patch_pair env secrets providers body s = (s', []) →
  candidate_pair providers body (se_default s) = (sd_provider (se_default s'), sd_model (se_default s')) ∧ se_agent s' = se_agent s.
Proof.
  intros Hent Hlm Hk H. unfold patch_pair in H. destruct (named_halves providers body) as [[np nm] [|? ?]] eqn:En; [|done].
  destruct (stage_pair providers (se_default s) np nm) as [staged [|? ?]] eqn:Es; [|done]. injection H as <-. split; [|done].
  rewrite commit_pair_target. apply named_halves_spec in En as (Ep & Em & Hp & Hm).
  destruct (stage_pair_spec env _ _ _ _ _ Es Hlm Hk) as (Hsp & _ & Ht). unfold candidate_pair, nonempty_str. rewrite Ep, Em.
  assert (Enm : non_empty nm = nm) by (destruct nm as [m|]; [by apply non_empty_some, Hm|done]).
  assert (Enp : non_empty np = np) by (destruct np as [p|]; [by apply non_empty_some, (Hp p)|done]).
  rewrite Enm, Enp. destruct np as [p|]; cbn [sd_provider sd_model target_of]; rewrite Hsp; cbn [default from_option].
  - rewrite bool_decide_eq_true_2 by apply (Hp p eq_refl). f_equal. unfold post_patch_model, nonempty_str in Ht.
    rewrite (non_empty_some (sd_model (se_default s)) Hlm) in Ht. destruct nm as [m|]; [by injection Ht|].
    destruct (String.eqb p (sd_provider (se_default s))); [by injection Ht|].
    destruct (providers !! p ≫= pe_model) as [m|] eqn:Eme; [|by injection Ht].
    rewrite non_empty_some in Ht; [by injection Ht|]. intros ->. destruct (providers !! p) as [e|] eqn:Ee; [|done]. by apply (Hent p e Ep Ee).
  - f_equal. by destruct nm.
Qed.

(** What an accepted request leaves in the checked fields and the pair. *)
Lemma patch_sections_budget body s s' input :
  (∀ p e, pr_provider body = Some p → providers !! p = Some e → pe_model e ≠ Some "") → settings_ok providers s →
  pr_context body ≫= px_max_input_tokens = Some input →
  patch_sections env secrets providers body s = (s', []) →
  checked_fields (se_agent s') = (input, ac_max_tokens (se_agent s)) ∧
  candidate_pair providers body (se_default s) = (sd_provider (se_default s'), sd_model (se_default s')).
Proof.
  intros Hent Hok Hi H. unfold patch_sections in H. destruct (pr_context body) as [c|]; [|done]. simpl in H, Hi.
  destruct (patch_context env secrets providers c s) as [s1 e1] eqn:E1.
  destruct (optional_section (patch_session body) (pr_session body) s1) as [s2 e2] eqn:E2.
  destruct (optional_section patch_tools (pr_tools body) s2) as [s3 e3] eqn:E3.
  destruct (optional_section patch_llm (pr_llm body) s3) as [s4 e4] eqn:E4.
  destruct (patch_pair env secrets providers body s4) as [s5 e5] eqn:E5.
  injection H as <- He. repeat (apply app_eq_nil in He as [-> He]). subst e5.
  apply patch_context_tokens in E1 as (D1 & L1 & F1).
  assert (H2 : se_default s2 = se_default s1 ∧ checked_fields (se_agent s2) = checked_fields (se_agent s1)).
  { destruct (pr_session body); [|by injection E2 as <-]. by apply patch_session_tokens in E2 as (-> & _ & ->). }
  assert (H3 : se_default s3 = se_default s2 ∧ checked_fields (se_agent s3) = checked_fields (se_agent s2)).
  { destruct (pr_tools body); [|by injection E3 as <-]. by apply patch_tools_tokens in E3 as (-> & _ & ->). }
  assert (H4 : se_default s4 = se_default s3 ∧ checked_fields (se_agent s4) = checked_fields (se_agent s3)).
  { destruct (pr_llm body); [|by injection E4 as <-]. by apply patch_llm_tokens in E4 as (-> & _ & ->). }
  destruct H2 as [D2 F2], H3 as [D3 F3], H4 as [D4 F4]. assert (D : se_default s4 = se_default s) by congruence.
  destruct (ok_named _ _ Hok) as [Hlm _].
  destruct (patch_pair_candidate body s4 s5 Hent) as [Hc Ha]; rewrite ?D; [done|apply Hok|done|]. rewrite D in Hc. split; [|done].
  rewrite Ha, F4, F3, F2, F1, Hi. done.
Qed.

(** The check in front of a run of an agent reads the pair the fleet check
    resolved for it. *)
Lemma resolved_budget r llm base res :
  resolve_agent_config env (Some (Ok (Some r))) base llm (Some secrets) = Ok res →
  resolve_effective_provider_and_model (rec_provider r) (rec_model r) (provider llm) (default_model llm) (providers_snapshot llm) =
    Ok (provider (ra_llm res), default_model (ra_llm res)) ∧
  checked_fields (ra_agent_config res) = checked_fields base.
Proof.
  unfold resolve_agent_config. simpl.
  pose proof (effective_pair_spec (rec_provider r) (rec_model r) (provider llm) (default_model llm) (providers_snapshot llm)) as Hp.
  destruct (resolve_effective_provider_and_model _ _ _ _ _) as [[p m]|e]; [|done]. destruct Hp as (-> & _).
  intros [= <-]. simpl. split; [|done]. do 2 f_equal.
  destruct (rec_provider r) as [p|]; simpl; [symmetry; apply (apply_provider_name env p (Some secrets) llm)|done].
Qed.

Lemma offenders_none sp sm input max_tokens records r p m :
  offenders providers sp sm input max_tokens records = [] → r ∈ records →
  resolve_effective_provider_and_model (rec_provider r) (rec_model r) sp sm providers = Ok (p, m) →
  validate_token_budget p m input max_tokens = Ok tt.
Proof.
  intros H Hr E. destruct (validate_token_budget p m input max_tokens) as [[]|e] eqn:Hv; [done|exfalso].
  enough (Hin : (r, e) ∈ offenders providers sp sm input max_tokens records) by (rewrite H in Hin; set_solver).
  apply list_elem_of_omap. exists r. by rewrite E, Hv.
Qed.

Lemma patch_parsed_accepted mode mock agents body s s' :
  patch_parsed env mode secrets providers mock agents body s = (s', PatchOk) →
  let '(cp, cm) := candidate_pair providers body (se_default s) in
  validate_patch_budget mode providers mock agents body cp cm s = None ∧
  ∃ s0, patch_sections env secrets providers body s = (s0, []) ∧ s' = persist_settings s0.
Proof.
  unfold patch_parsed. destruct (candidate_pair _ _ _) as [cp cm]. intros H.
  destruct (validate_patch_budget _ _ _ _ _ _ _ _) as [a|] eqn:Hv.
  - exfalso. injection H as <- ->. revert Hv. unfold validate_patch_budget.
    by repeat (match goal with |- context [match ?x with _ => _ end] => destruct x end).
  - split; [done|]. destruct (patch_sections _ _ _ _ _) as [s0 [|? ?]]; [|done]. injection H as <-. eauto.
Qed.

(** C23: A context budget that [PATCH /settings] accepts fits the whole fleet.
    When an operator's request with a [max_input_tokens] is answered [200] in
    strict mode, every registered agent's next run, resolved from the settings
    the request left, passes the token check in front of the agent loop, and so
    does the server's own pair; with provider, model and budget changed in one
    request, the pair checked is the one committed.  The entry of a provider the
    request names must not have an empty model: the check takes the empty model
    for one, the commit does not ([blank_entry_model_skips_budget]). *)
Theorem accepted_budget_fits_fleet body records s s' input r res :
  settings_ok providers s →
  (∀ p e, pr_provider body = Some p → providers !! p = Some e → pe_model e ≠ Some "") →
  pr_context body ≫= px_max_input_tokens = Some input → (0 < input)%Z →
  patch_parsed env Strict secrets providers false (Some (Ok records)) body s = (s', PatchOk) →
  r ∈ records → resolve_agent_config env (Some (Ok (Some r))) (se_agent s') (se_llm s') (Some secrets) = Ok res →
  evaluate_pre_flight_token_budget Strict (ra_agent_config res) (ra_llm res) = Ok tt ∧
  validate_token_budget (provider (se_llm s')) (default_model (se_llm s')) input (ac_max_tokens (se_agent s')) = Ok tt.
Proof.
  intros Hok Hent Hi Hpos H Hr Hres. apply patch_parsed_accepted in H. destruct (candidate_pair providers body _) as [cp cm] eqn:Hc.
  destruct H as (Hv & s0 & Hs & ->). destruct (patch_sections_budget _ _ _ _ Hent Hok Hi Hs) as [Hf Hc'].
  pose proof (patch_sections_ok env secrets providers body s Hok) as Hok'. rewrite Hs in Hok'. simpl in Hok'.
  rewrite Hc in Hc'. injection Hc' as -> ->. apply resolved_budget in Hres as [He Hf']. simpl in *.
  rewrite (ok_provider _ _ Hok'), (ok_model _ _ Hok'), (ok_table _ _ Hok') in *. rewrite Hf in Hf'.
  unfold checked_fields in Hf, Hf'. injection Hf as Hfi Hfm. injection Hf' as Hfi' Hfm'.
  unfold validate_patch_budget in Hv. rewrite Hi in Hv. destruct (Z.leb_spec input 0); [lia|]. simpl in Hv.
  destruct (validate_token_budget (sd_provider _) _ _ _) as [[]|] eqn:Hserver; [|done].
  destruct (offenders _ _ _ _ _ _) as [|[? ?] ?] eqn:Ho; [|done]. rewrite Hfm. split; [|done].
  unfold evaluate_pre_flight_token_budget. destruct (is_mock _); [done|].
  rewrite Hfi', Hfm', (offenders_none _ _ _ _ _ _ _ _ Ho Hr He). done.
Qed.
(** ** A restart *)

(** What a request can change in the agent configuration. *)
Definition patchable (c : AgentConfig) :=
  let x := ac_context c in
  ((cx_strategy x, cx_max_input_tokens x, cx_compact_trigger_pct x, cx_compact_retain_pct x),
   (cx_summary_model x, cx_summary_provider x),
   (ac_sandbox_root c, ac_shell_policy c),
   (ac_anthropic_thinking_budget c, ac_anthropic_prompt_cache_enabled c, ac_openai_reasoning_effort c),
   (ac_gemini_thinking_budget c, ac_gemini_cache_enabled c, ac_gemini_cache_ttl_seconds c)).

(** What it cannot. *)
Definition unpatchable (c : AgentConfig) :=
  let x := ac_context c in
  (ac_system_prompt c, ac_max_tokens c, ac_posture c, ac_debug_mode c,
   (cx_run_summary_mode x, cx_run_summary_budget x, cx_summary_max_tokens x)).

(** The two values the file cannot hold: the compiled-default summary pair and
    an absent Gemini budget fall back to the configuration of the start. *)
Definition storable (in_file c : AgentConfig) : Prop :=
  let x := ac_context c in
  (is_compiled_default_summary_pair (cx_summary_provider x) (cx_summary_model x) = true →
     (cx_summary_provider (ac_context in_file), cx_summary_model (ac_context in_file)) = (cx_summary_provider x, cx_summary_model x)) ∧
  (ac_gemini_thinking_budget c = None → ac_gemini_thinking_budget in_file = None).

Lemma effort_wire_roundtrip e : effort_from_str (effort_as_wire_str e) = Ok e ∧ effort_as_wire_str e ≠ "".
Proof. by destruct e. Qed.

Lemma stored_summary v : normalize_summary_field v = v → normalize_summary_field (Some (default "" v)) = v.
Proof. by destruct v. Qed.

Lemma restored_patchable s in_file :
  settings_ok providers s → storable in_file (se_agent s) →
  patchable (restored_agent (persist s) in_file) = patchable (se_agent s).
Proof.
  intros [? ? ? ? ? ? [Epol _] Eroot Hstrat ? ? ? ? (Hp & Hm & _)] [Hsum Hgem]. unfold patchable, restored_agent, persist. simpl.
  rewrite Eroot, Epol. repeat (apply pair_equal_spec; split); try done.
  - destruct (String.eqb_spec (cx_strategy (ac_context (se_agent s))) "sliding-summary") as [E|_]; [|done]. rewrite E in Hstrat. set_solver.
  - destruct (is_compiled_default_summary_pair _ _) eqn:Ec; [by specialize (Hsum eq_refl); injection Hsum|by apply stored_summary].
  - destruct (is_compiled_default_summary_pair _ _) eqn:Ec; [by specialize (Hsum eq_refl); injection Hsum|by apply stored_summary].
  - destruct (ac_openai_reasoning_effort (se_agent s)) as [e|]; [|done]. by destruct e.
  - destruct (ac_gemini_thinking_budget (se_agent s)); [done|by apply Hgem].
Qed.

Lemma restored_llm_pair p l :
  is_Some (providers !! sd_provider (pe_default p)) → sd_model (pe_default p) ≠ "" → sd_provider (pe_default p) ≠ "" →
  providers_snapshot l = providers →
  let c := restored_llm env secrets providers p l in
  provider c = sd_provider (pe_default p) ∧ default_model c = sd_model (pe_default p) ∧ providers_snapshot c = providers ∧
  api_key c = default "" (resolve_key_from env (sd_provider (pe_default p)) providers secrets).
Proof.
  intros Hc Hm Hp Hl. unfold restored_llm. rewrite (bool_decide_eq_true_2 _ Hc), orb_true_r.
  apply String.eqb_neq in Hp as ->. apply String.eqb_neq in Hm as ->. simpl.
  destruct (apply_provider_rest env (sd_provider (pe_default p)) (Some secrets) l) as (E & _). split_and!.
  - apply (apply_provider_name env (sd_provider (pe_default p)) (Some secrets) l).
  - done.
  - etrans; [exact E|done].
  - rewrite <- Hl. apply (apply_provider_key env (sd_provider (pe_default p)) (Some secrets) l).
Qed.

(** C25: An accepted [PATCH /settings] survives a restart.  Started over the file
    it wrote, with the same provider table, the server has the session and tool
    settings and the default pair the request left; its client is on that pair
    with the key that provider resolves to; every patchable field of the agent
    configuration is the one left, and every other field is the start's own.
    This is for values the file can hold ([storable]): the compiled-default summary
    pair and an absent Gemini budget are not written, so the start's own must be the
    same ([chosen_default_pair_is_lost] is where it is not). *)
Theorem restart_keeps_settings mode mock agents body s s' agent session tools in_file :
  settings_ok providers s → patch_parsed env mode secrets providers mock agents body s = (s', PatchOk) →
  providers_snapshot in_file = providers → storable agent (se_agent s') →
  let b := boot env secrets providers agent session tools in_file (se_disk s') in
  se_session b = se_session s' ∧ se_tools b = se_tools s' ∧ se_default b = se_default s' ∧
  api_key (se_llm b) = default "" (resolve_key_from env (sd_provider (se_default s')) providers secrets) ∧
  patchable (se_agent b) = patchable (se_agent s') ∧ unpatchable (se_agent b) = unpatchable agent ∧
  settings_ok providers b.
Proof.
  intros Hok H Hl Hst b. pose proof (patch_parsed_ok mode mock agents body s Hok) as Hok'. rewrite H in Hok'. simpl in Hok'.
  apply patch_parsed_accepted in H. destruct (candidate_pair _ _ _) as [cp cm]. destruct H as (_ & s0 & _ & ->).
  destruct (ok_named _ _ Hok') as [Hm Hp]. pose proof (ok_configured _ _ Hok') as Hc.
  destruct (restored_llm_pair (persist s0) in_file Hc Hm Hp Hl) as (Lp & Lm & Lt & Lk).
  pose proof (restored_patchable (persist_settings s0) agent Hok' Hst) as Hpat.
  assert (Hd : se_default b = se_default s0).
  { unfold b. simpl in *. rewrite (bool_decide_eq_true_2 _ Hc), orb_true_r.
    apply String.eqb_neq in Hp as ->. apply String.eqb_neq in Hm as ->. by destruct (se_default s0) as []. }
  change (se_agent b) with (restored_agent (persist s0) agent). change (se_agent (persist_settings s0)) with (se_agent s0) in *.
  split_and!; try done. repeat match goal with E : (_, _) = (_, _) |- _ => apply pair_equal_spec in E as [? ?] | E : patchable _ = _ |- _ => unfold patchable in E end.
  destruct Hok'. split; rewrite ?Hd; try done.
  all: change (se_agent b) with (restored_agent (persist (persist_settings s0)) agent); change (se_tools b) with (se_tools s0).
  all: by repeat match goal with E : _ (restored_agent _ _) = _ |- _ => rewrite E; clear E | E : _ (_ (restored_agent _ _)) = _ |- _ => rewrite E; clear E end.
Qed.
End properties.

Section witnesses.

Local Definition no_body : PatchSettingsRequest := {|
  pr_context := None; pr_session := None; pr_tools := None; pr_llm := None; pr_model := None; pr_provider := None |}.
Local Definition context_body (input : Z) : PatchContext := {|
  px_strategy := Some "sliding-summary"; px_max_input_tokens := Some input; px_compact_trigger_pct := None; px_compact_retain_pct := None;
  px_summary_model := None; px_summary_provider := None |}.
Local Definition first : Settings :=
  boot RunConfig.no_env RunConfig.secrets RunConfig.table RunConfig.base session_config_default
    {| tc_timeout_secs := 120; tc_max_output_bytes := 100000; tc_sandbox_root := "."; tc_shell_policy := "sandboxed" |} RunConfig.server None.

Local Definition patched (records : list AgentRecord) (body : PatchSettingsRequest) (s : Settings) : Settings * PatchAnswer :=
  patch_parsed RunConfig.no_env Strict RunConfig.secrets RunConfig.table false (Some (Ok records)) body s.

(** The budget, the provider and the effort in one request. *)
Local Definition move_to_anthropic : PatchSettingsRequest := {|
  pr_context := Some (context_body 150000); pr_session := None; pr_tools := None;
  pr_llm := Some {| pl_thinking_budget_tokens := None; pl_prompt_cache_enabled := None; pl_reasoning_effort := Some "high";
                    pl_thinking_budget := Some 512%Z; pl_cache_enabled := None; pl_cache_ttl_seconds := None |};
  pr_model := None; pr_provider := Some "anthropic" |}.

Local Definition fleet : list AgentRecord := [RunConfig.agent_on None None; RunConfig.agent_on (Some "openrouter") (Some "anthropic/claude-haiku-4-5")].

Lemma first_ok : settings_ok RunConfig.table first.
Proof.
  split; try (vm_compute; reflexivity || done).
  - by eexists.
  - split; [reflexivity|left].
  - do 2 right. left.
Defined.

Lemma table_models p e : RunConfig.table !! p = Some e → pe_model e ≠ Some "".
Proof.
  unfold RunConfig.table. intros H. apply lookup_insert_Some in H as [[_ <-]|[_ H]]; [done|].
  by apply lookup_singleton_Some in H as [_ <-].
Defined.

Lemma settings_stay_ok_witness :
  let parse (raw : json) := match raw with JNum n => Some (if (n =? 0)%Z then no_body else move_to_anthropic) | _ => None end in
  let requests := (λ raw, {| pg_mode := Strict; pg_mock := false; pg_agents := Some (Ok fleet); pg_raw := raw |}) <$>
                    [JNum 1; JStr "not a body"; JObj [("security", JNull)]; JNum 0] in
  sd_provider (se_default (fold_left (patch_one RunConfig.no_env RunConfig.secrets RunConfig.table parse) requests first)) = "anthropic" ∧
  let before := fold_left (patch_one RunConfig.no_env RunConfig.secrets RunConfig.table parse) requests first in
  let p := {| pg_mode := Strict; pg_mock := false; pg_agents := None; pg_raw := JNum 0 |} in
  settings_ok RunConfig.table before ∧
  checked_moves RunConfig.no_env RunConfig.secrets RunConfig.table before (patch_one RunConfig.no_env RunConfig.secrets RunConfig.table parse before p).
Proof. intros parse requests. split; [vm_compute; reflexivity|]. intros before p. apply settings_stay_ok, first_ok. Defined.

Lemma accepted_budget_fits_fleet_witness :
  match patched fleet move_to_anthropic first with
  | (s', PatchOk) =>
      sd_model (se_default s') = "claude-haiku-4-5" ∧
      match resolve_agent_config RunConfig.no_env (Some (Ok (Some (RunConfig.agent_on None None)))) (se_agent s') (se_llm s') (Some RunConfig.secrets) with
      | Ok res => evaluate_pre_flight_token_budget Strict (ra_agent_config res) (ra_llm res) = Ok tt
      | Err _ => False
      end
  | _ => False
  end.
Proof.
  destruct (patched fleet move_to_anthropic first) as [s' a] eqn:E.
  assert (Ea : a = PatchOk) by (assert (H : a = (patched fleet move_to_anthropic first).2) by (rewrite E; reflexivity); rewrite H; vm_compute; reflexivity).
  subst a. assert (Es : s' = (patched fleet move_to_anthropic first).1) by (rewrite E; reflexivity).
  split; [rewrite Es; vm_compute; reflexivity|].
  destruct (resolve_agent_config _ _ _ _ _) as [res|e] eqn:R.
  - refine (proj1 (accepted_budget_fits_fleet RunConfig.no_env RunConfig.secrets RunConfig.table move_to_anthropic fleet first s' 150000
      (RunConfig.agent_on None None) res first_ok (λ p e _, table_models p e) eq_refl _ E _ R)); [reflexivity|left].
  - rewrite Es in R. vm_compute in R. discriminate R.
Defined.

Lemma restart_keeps_settings_witness :
  match patched fleet move_to_anthropic first with
  | (s', PatchOk) =>
      let b := boot RunConfig.no_env RunConfig.secrets RunConfig.table RunConfig.base session_config_default (se_tools first) RunConfig.server (se_disk s') in
      ac_openai_reasoning_effort (se_agent s') = Some High ∧ patchable (se_agent b) = patchable (se_agent s') ∧ se_default b = se_default s'
  | _ => False
  end.
Proof.
  destruct (patched fleet move_to_anthropic first) as [s' a] eqn:E.
  assert (Ea : a = PatchOk) by (assert (H : a = (patched fleet move_to_anthropic first).2) by (rewrite E; reflexivity); rewrite H; vm_compute; reflexivity).
  subst a. assert (Es : s' = (patched fleet move_to_anthropic first).1) by (rewrite E; reflexivity). cbv zeta.
  assert (Hst : storable RunConfig.base (se_agent s')) by (rewrite Es; vm_compute; split; [reflexivity|discriminate]).
  destruct (restart_keeps_settings RunConfig.no_env RunConfig.secrets RunConfig.table Strict false (Some (Ok fleet)) move_to_anthropic first s'
    RunConfig.base session_config_default (se_tools first) RunConfig.server first_ok E eq_refl Hst) as (_ & _ & Hd & _ & Hp & _).
  split; [rewrite Es; vm_compute; reflexivity|split; [exact Hp|exact Hd]].
Defined.

(** ** What the examples show *)

(** A model the live provider does not speak passes the budget, which knows no
    window for it, and is then rejected: the budget stays and no run of the
    live pair passes any more. *)
Example rejected_pair_leaves_budget :
  let on_anthropic := (patched [] move_to_anthropic first).1 in
  let body := {| pr_context := Some (context_body 900000); pr_session := None; pr_tools := None; pr_llm := None;
                 pr_model := Some "gpt-x"; pr_provider := None |} in
  let '(s, answer) := patched [] body on_anthropic in
  answer = PatchPartial [IncompatibleModel "anthropic" (Some "gpt-x")] ∧ cx_max_input_tokens (ac_context (se_agent s)) = 900000%Z ∧
  is_ok (evaluate_pre_flight_token_budget Strict (se_agent on_anthropic) (se_llm on_anthropic)) = true ∧
  is_ok (evaluate_pre_flight_token_budget Strict (se_agent s) (se_llm s)) = false.
Proof. vm_compute. by split_and!. Qed.

(** The compiled-default summary pair, chosen over another pair of the
    configuration file, is not written and so is lost at the next start. *)
Example chosen_default_pair_is_lost :
  let config pair_provider pair_model := {|
    ac_system_prompt := ""; ac_max_tokens := 32000;
    ac_context := {| cx_strategy := "compact"; cx_max_input_tokens := 128000; cx_compact_trigger_pct := f32_0_80;
                     cx_compact_retain_pct := f32_0_40; cx_summary_model := Some pair_model; cx_summary_provider := Some pair_provider;
                     cx_run_summary_mode := ModeLlm; cx_run_summary_budget := 2000; cx_summary_max_tokens := 1000 |};
    ac_posture := ac_posture RunConfig.base; ac_sandbox_root := "."; ac_shell_policy := "sandboxed"; ac_debug_mode := false; ac_anthropic_thinking_budget := 0;
    ac_anthropic_prompt_cache_enabled := true; ac_openai_reasoning_effort := None; ac_gemini_thinking_budget := None;
    ac_gemini_cache_enabled := false; ac_gemini_cache_ttl_seconds := 300 |} in
  let in_file := config "anthropic" "claude-haiku-4-5" in
  let start disk := boot RunConfig.no_env {["openrouter" := "sk"; "anthropic" := "sk-ant"]} RunConfig.table in_file session_config_default (se_tools first)
                      RunConfig.server disk in
  let body := {| pr_context := Some {| px_strategy := None; px_max_input_tokens := None; px_compact_trigger_pct := None;
                    px_compact_retain_pct := None; px_summary_model := Some "google/gemma-4-31b-it"; px_summary_provider := Some "openrouter" |};
                 pr_session := None; pr_tools := None; pr_llm := None; pr_model := None; pr_provider := None |} in
  let '(s, answer) := patch_parsed RunConfig.no_env Strict {["openrouter" := "sk"; "anthropic" := "sk-ant"]} RunConfig.table false None body (start None) in
  answer = PatchOk ∧ cx_summary_provider (ac_context (se_agent s)) = Some "openrouter" ∧
  cx_summary_provider (ac_context (se_agent (start (se_disk s)))) = Some "anthropic".
Proof. vm_compute. by split_and!. Qed.

(** A provider entry with an empty model: the budget is checked against no model,
    the switch commits the live one, and no run of the new pair passes. *)
Example blank_entry_model_skips_budget :
  let blank := {["openrouter" := RunConfig.entry OpenAiCompatible OPENROUTER_URL (Some "sk") (Some "") Bearer;
                 "proxy" := RunConfig.entry OpenAiCompatible "https://proxy" (Some "sk") (Some "anthropic/claude-haiku-4-5") Bearer]} in
  let server := client_new {|
    lc_provider := "proxy"; lc_api_key := "sk"; lc_base_url := "https://proxy"; lc_default_model := "anthropic/claude-haiku-4-5";
    lc_timeout_secs := 600; lc_mock := false; lc_stream_chunk_timeout_secs := 180; lc_auth_scheme := Bearer; lc_quirks := quirks_default;
    lc_providers := blank |} in
  let live := boot RunConfig.no_env ∅ blank RunConfig.base session_config_default (se_tools first) server None in
  let body := {| pr_context := Some (context_body 900000); pr_session := None; pr_tools := None; pr_llm := None; pr_model := None;
                 pr_provider := Some "openrouter" |} in
  let '(s, answer) := patch_parsed RunConfig.no_env Strict ∅ blank false (Some (Ok [])) body live in
  answer = PatchOk ∧ sd_model (se_default s) = "anthropic/claude-haiku-4-5" ∧
  is_ok (evaluate_pre_flight_token_budget Strict (se_agent s) (se_llm s)) = false.
Proof. vm_compute. by split_and!. Qed.

(** A patched model reaches no run of an agent without a model of its own while
    the server's provider entry names one. *)
Example patched_model_is_shadowed :
  let body := {| pr_context := None; pr_session := None; pr_tools := None; pr_llm := None;
                 pr_model := Some "deepseek/deepseek-chat"; pr_provider := None |} in
  let '(s, answer) := patched [] body first in
  answer = PatchOk ∧ sd_model (se_default s) = "deepseek/deepseek-chat" ∧ default_model (se_llm s) = "deepseek/deepseek-chat" ∧
  match resolve_agent_config RunConfig.no_env (Some (Ok (Some (RunConfig.agent_on None None)))) (se_agent s) (se_llm s) (Some RunConfig.secrets) with
  | Ok r => default_model (ra_llm r) = "z-ai/glm-5.2"
  | Err _ => False
  end.
Proof. vm_compute. by split_and!. Qed.
End witnesses.
