(* ===== verification/Exec.v ===== *)
(** Asynchronous handlers: a sequence of accesses to state that other tasks
    share.

    Between two accesses anything may happen, and an access may unwind the
    handler.  [Exec] is the monad of such handlers: a [Schedule] says what the
    other tasks did before each access and which access panics; a handler
    gives its result, or [None] when it unwound, the state it leaves and what it
    put out.  [wp] is its weakest precondition: under schedules on which the
    others stay within [rely], the postcondition holds of the result, the state
    and the trace so far. *)
From S2P Require Import Prelude.

Record Schedule (W : Type) := { outside : nat → W → W; unwinds : nat → bool }.
Arguments outside {W}.
Arguments unwinds {W}.

(** The number is how many accesses were made before. *)
Definition Exec (W O A : Type) : Type := Schedule W → nat → W → option A * nat * W * list O.

Section monad.
Context {W O : Type}.

#[export] Instance exec_ret : MRet (Exec W O) := λ A a _ n w, (Some a, n, w, []).

#[export] Instance exec_bind : MBind (Exec W O) := λ A B k m sched n w,
  match m sched n w with
  | (Some a, n', w', o) => let '(r, n'', w'', o') := k a sched n' w' in (r, n'', w'', o ++ o')
  | (None, n', w', o) => (None, n', w', o)
  end.

(** One access: what the others did, then the step, unless it panics.  A called
    step may itself unwind. *)
Definition call {A} (f : W → option A * W * list O) : Exec W O A := λ sched n w,
  let w := outside sched n w in
  if unwinds sched n then (None, S n, w, []) else let '(r, w', o) := f w in (r, S n, w', o).

Definition access {A} (f : W → A * W * list O) : Exec W O A := call (λ w, let '(a, w', o) := f w in (Some a, w', o)).

Definition read {A} (f : W → A) : Exec W O A := access (λ w, (f w, w, [])).
(** A read whose answer the trace keeps. *)
Definition ask {A} (f : W → A) (note : W → list O) : Exec W O A := access (λ w, (f w, w, note w)).
Definition write (f : W → W) : Exec W O () := access (λ w, ((), f w, [])).
Definition put_out (x : O) : Exec W O () := access (λ w, ((), w, [x])).
Definition when (b : bool) (m : Exec W O ()) : Exec W O () := if b then m else mret ().

(** [for x in xs]. *)
Fixpoint for_each {X} (f : X → Exec W O ()) (xs : list X) : Exec W O () :=
  match xs with [] => mret () | x :: xs => _ ← f x; for_each f xs end.

(** A guard whose [drop] runs however the body ends. *)
Definition guarded_by {A} (drop : W → W) (m : Exec W O A) : Exec W O A := λ sched n w,
  let '(r, n', w', o) := m sched n w in (r, S n', drop (outside sched n' w'), o).

(** [catch_unwind]. *)
Definition catch_unwind (m handler : Exec W O ()) : Exec W O () := λ sched n w,
  match m sched n w with
  | (Some _, n', w', o) => (Some (), n', w', o)
  | (None, n', w', o) => let '(r, n'', w'', o') := handler sched n' w' in (r, n'', w'', o ++ o')
  end.
End monad.

(** * Weakest preconditions *)

Section wp.
Context {W O : Type}.
(** What the other tasks may do. *)
Context (rely : W → W → Prop).

Definition respects (sched : Schedule W) : Prop := ∀ n w, rely w (outside sched n w).

Definition wp {A} (m : Exec W O A) (Q : option A → W → list O → Prop) (w : W) (t : list O) : Prop :=
  ∀ sched n, respects sched → let '(r, _, w', o) := m sched n w in Q r w' (t ++ o).

Lemma wp_ret {A} (a : A) (Q : option A → W → list O → Prop) w t : Q (Some a) w t → wp (mret a) Q w t.
Proof. intros H sched n _. unfold mret, exec_ret. by rewrite app_nil_r. Qed.

Lemma wp_bind {A B} (m : Exec W O A) (k : A → Exec W O B) (Q : option B → W → list O → Prop) w t :
  wp m (λ r w t, match r with Some a => wp (k a) Q w t | None => Q None w t end) w t → wp (m ≫= k) Q w t.
Proof.
  intros H sched n Hs. specialize (H sched n Hs). unfold mbind, exec_bind. destruct (m sched n w) as [[[[a|] n'] w'] o]; [|done].
  specialize (H sched n' Hs). destruct (k a sched n' w') as [[[r n''] w''] o']. by rewrite app_assoc.
Qed.

Lemma wp_call {A} (f : W → option A * W * list O) (Q : option A → W → list O → Prop) w t :
  (∀ w', rely w w' → Q None w' t ∧ Q (f w').1.1 (f w').1.2 (t ++ (f w').2)) → wp (call f) Q w t.
Proof.
  intros H sched n Hs. unfold call. destruct (H _ (Hs n w)) as [Hn Hr]. destruct (unwinds sched n); [by rewrite app_nil_r|].
  by destruct (f (outside sched n w)) as [[r w'] o].
Qed.

Lemma wp_access {A} (f : W → A * W * list O) (Q : option A → W → list O → Prop) w t :
  (∀ w', rely w w' → Q None w' t ∧ Q (Some (f w').1.1) (f w').1.2 (t ++ (f w').2)) → wp (access f) Q w t.
Proof.
  intros H. apply wp_call. intros w' Hr. destruct (H w' Hr) as [Hn Ha]. by destruct (f w') as [[a w''] o].
Qed.

Lemma wp_mono {A} (m : Exec W O A) (Q Q' : option A → W → list O → Prop) w t :
  wp m Q w t → (∀ r w t, Q r w t → Q' r w t) → wp m Q' w t.
Proof. intros H HQ sched n Hs. specialize (H sched n Hs). destruct (m sched n w) as [[[r n'] w'] o]. by apply HQ. Qed.

Lemma wp_when b (m : Exec W O ()) (Q : option () → W → list O → Prop) w t :
  (b = true → wp m Q w t) → (b = false → Q (Some ()) w t) → wp (when b m) Q w t.
Proof. intros H1 H2. destruct b; [by apply H1|apply wp_ret; by apply H2]. Qed.

(** A loop keeps what its body keeps. *)
Lemma wp_for_each {X} (f : X → Exec W O ()) xs (I : W → list O → Prop) w t :
  (∀ x w t, I w t → wp (f x) (λ _, I) w t) → I w t → wp (for_each f xs) (λ _, I) w t.
Proof.
  intros Hf. revert w t. induction xs as [|x xs IH]; intros w t Hi; simpl; [by apply wp_ret|].
  apply wp_bind. eapply wp_mono; [by apply Hf|]. intros [[]|] w' t' Hi'; [by apply IH|done].
Qed.

Lemma wp_guarded {A} (drop : W → W) (m : Exec W O A) (Q : option A → W → list O → Prop) w t :
  wp m (λ r w t, ∀ w', rely w w' → Q r (drop w') t) w t → wp (guarded_by drop m) Q w t.
Proof.
  intros H sched n Hs. specialize (H sched n Hs). unfold guarded_by. destruct (m sched n w) as [[[r n'] w'] o]. apply H, Hs.
Qed.

Lemma wp_catch (m h : Exec W O ()) (Q : option () → W → list O → Prop) w t :
  wp m (λ r w t, match r with Some _ => Q (Some ()) w t | None => wp h Q w t end) w t → wp (catch_unwind m h) Q w t.
Proof.
  intros H sched n Hs. specialize (H sched n Hs). unfold catch_unwind. destruct (m sched n w) as [[[[[]|] n'] w'] o]; [done|].
  specialize (H sched n' Hs). destruct (h sched n' w') as [[[r n''] w''] o']. by rewrite app_assoc.
Qed.

(** The trace only grows. *)
Lemma wp_grows {A} (m : Exec W O A) (Q : option A → W → list O → Prop) w t :
  wp m (λ r w' t', t `prefix_of` t' → Q r w' t') w t → wp m Q w t.
Proof.
  intros H sched n Hs. specialize (H sched n Hs). destruct (m sched n w) as [[[r n'] w'] o]. apply H. by eexists.
Qed.

(** What a run of the handler shows. *)
Lemma wp_run {A} (m : Exec W O A) (Q : option A → W → list O → Prop) sched n w r n' w' o :
  respects sched → wp m Q w [] → m sched n w = (r, n', w', o) → Q r w' o.
Proof. intros Hs H E. specialize (H sched n Hs). by rewrite E in H. Qed.
End wp.

(** Nothing is relied on. *)
Definition anything {W} : W → W → Prop := λ _ _, True.

(** * Totality *)

Section total.
Context {W O : Type}.

(** A handler comes back unless an access panics. *)
Definition comes_back {A} (m : Exec W O A) : Prop := ∀ sched n w, (∀ n, unwinds sched n = false) → is_Some (m sched n w).1.1.1.

Lemma comes_back_ret {A} (a : A) : comes_back (mret a).
Proof. by eexists. Qed.

Lemma comes_back_bind {A B} (m : Exec W O A) (k : A → Exec W O B) : comes_back m → (∀ a, comes_back (k a)) → comes_back (m ≫= k).
Proof.
  intros Hm Hk sched n w Hs. destruct (Hm sched n w Hs) as [a E]. unfold mbind, exec_bind.
  destruct (m sched n w) as [[[r n'] w'] o]. simpl in E. subst r. destruct (Hk a sched n' w' Hs) as [b E].
  destruct (k a sched n' w') as [[[r n''] w''] o']. by exists b.
Qed.

Lemma comes_back_access {A} (f : W → A * W * list O) : comes_back (access f).
Proof. intros sched n w Hs. unfold access, call. rewrite Hs. destruct (f _) as [[a w'] o]. by exists a. Qed.

Lemma comes_back_when b (m : Exec W O ()) : comes_back m → comes_back (when b m).
Proof. intros H. destruct b; [done|apply comes_back_ret]. Qed.

Lemma comes_back_for_each {X} (f : X → Exec W O ()) xs : (∀ x, comes_back (f x)) → comes_back (for_each f xs).
Proof. intros Hf. induction xs as [|x xs IH]; [apply comes_back_ret|]. apply comes_back_bind; [apply Hf|done]. Qed.
End total.
