(* ===== verification/RunExec.v ===== *)
(** A run's turn in the gateway: [execute_run] and its panic boundary in
    [alms-gateway/src/runs/lifecycle.rs], and what becomes of the conversation of
    a run that answers a direct message, [runs/dm_lifecycle.rs].

    Each definition is a handler of [Exec.v]; an access is one call on shared
    state, in the order of the source, and the readings of clocks and fresh ids
    are part of the state.  The two calls that take locks of their own more than
    once, [finish_episode_run] and the bus's, are one access each; [JobTasks.v] and
    [MessageBus.v] have their interleavings.  The agent loop is the interface
    [AgentRuntime], with the task that forwards its live events, which the source
    waits for before it goes on; [AgentRun.v] models the loop.  The wiring of spill
    directories and of the shell's environment has no definition. *)
From S2P Require Import Prelude FsPath Ident Lifecycle Json Budget Run EventLog EventFeed Session Errors MessageBus JobEpisode Episodic ContextBuild RunManager RunControl JobStore Scheduler Notify JobEngine RuntimeTypes LlmClient RunConfig Settings Exec.

(** * Data *)

Record RunParams := {
  rp_run_id : RunId; rp_session_id : SessionId; rp_agent_id : AgentId; rp_input : string; rp_context_id : string;
  rp_cancel_token : Z;
  rp_is_peer_message : bool; rp_is_system_triggered : bool; rp_input_pre_persisted : bool; rp_dm_ended_peer : option string;
}.

(** Clocks, fresh ids and files looked at. *)
Record Readings := {
  rd_now : Z; rd_mono : Z; rd_env : Env; rd_uuid : string; rd_dummy : RunId; rd_run : RunId;
  (** Whether an agent of this name has no [personality.md]. *)
  rd_needs_bootstrap : string → bool;
}.

Inductive SandboxRoot :=
| Unrestricted
(** With the sibling directory that stays readable. *)
| Worktree (dir sibling : list Component)
| ProjectRoot (dir : list Component).

(** The recipient [send_message] refuses. *)
Inductive Folded := FoldPeer (peer : option string) | FoldEnded (peer : option string).

(** The builder calls on [AgentRuntime]. *)
Record RuntimeSetup := {
  su_config : AgentConfig; su_llm : LlmClient; su_run_id : RunId; su_cancel_token : Z; su_agent_name : option string;
  su_dm_implicit_reply : bool; su_summary_llm : option LlmClient; su_root : SandboxRoot; su_workspace : bool;
  su_tools : list string; su_folded : option Folded;
}.

(** [run], which stores the input, or [run_on_session]. *)
Inductive AgentCall := CallRun (context_id input : string) | CallOnSession (session_id : SessionId) (context_id input : string).

Record PersistSummaryRequest := {
  pq_mode : RunSummaryMode; pq_agent_id : AgentId; pq_session_id : SessionId; pq_run_id : RunId; pq_run_input : string;
  pq_run_output : string; pq_run_reasoning : option string; pq_context_id : string; pq_summary_model : option string;
  pq_agent_name : string; pq_summary_max_tokens : Z; pq_llm : LlmClient;
}.

(** [ErroredExit] is the source's [Errored], a name the reasons of the bus have. *)
Inductive DmRunExit := NotPeerDm | Delivered | Ended | ErroredExit.
#[export] Instance dm_run_exit_eq_dec : EqDecision DmRunExit.
Proof. solve_decision. Defined.

(** What a handler does to the world beyond its state. *)
Inductive Output :=
(** [send_event], [send_agent_event] and [send_session_event]. *)
| Published (run : RunId) (session : SessionId) (e : SseEventData)
| Activity (e : SseEventData)
| SessionNews (session : SessionId) (e : SseEventData)
(** A transition of the run, with the answer of the registry. *)
| Marked (t : RunTransition) (answer : Result bool string)
| AgentCalled (setup : RuntimeSetup) (call : AgentCall)
| CallsSaved (records : list ToolCallRecord)
| SummarySpawned (r : PersistSummaryRequest)
(** What the registry answered: the name of the run's agent, and the agent of a
    name. *)
| NameRead (name : option string)
| PeerRead (peer : string) (found : option AgentId)
(** A call of the bus for both sides, with its answer. *)
| BusEnded (agent_name peer : string) (peer_id : AgentId) (reason : ConversationEndReason) (answer : Result unit SendError)
| BusSent (agent_name peer : string) (peer_id : AgentId) (reply : string) (answer : Result DeliveryReceipt SendError)
(** The conversation was left alone, and the log says why. *)
| PeerSkipped
| EpisodeFed (job : option JobId) (records : list ToolCallRecord)
| AgentTouched.

(** [AgentRuntime::new], and the loop from [run] or [run_on_session] until it
    and the forwarder of its events are done; [None] where it unwinds. *)
Class AgentRuntime (W : Type) := {
  runtime_new : AgentConfig → LlmClient → Result unit AlmsError;
  runtime_run : RuntimeSetup → AgentCall → W → option (Result RunOutput AlmsError) * W;
}.

(** * Errors for a peer *)

Definition PEER_ERROR_MESSAGE_MAX_LEN : nat := 300.

Definition truncate_error_for_peer (err : AlmsError) : string :=
  let s := sanitize_error_for_session err in
  if Nat.leb (String.length s) PEER_ERROR_MESSAGE_MAX_LEN then s else truncate_to_char_boundary s PEER_ERROR_MESSAGE_MAX_LEN +:+ "...".

Definition send_error_to_string (e : SendError) : string :=
  match e with
  | RecipientNotFound name => "Recipient agent '" +:+ name +:+ "' not found in registry"
  | SendDepthExceeded => "Message depth exceeded maximum -- possible loop"
  | SelfMessage => "Cannot send message to self"
  | Internal msg => "Delivery failed: " +:+ msg
  end.

Definition peer_error_with_prefix (prefix error : string) : string := prefix +:+ truncate_error_for_peer (Runtime error).

Definition extract_peer_from_dm_context (context_id agent_name : string) : option string := dm_peer context_id agent_name.

Definition apply_send_message_fold (is_peer_message : bool) (context_id agent_name : string) (dm_ended_peer : option string) : Folded :=
  if is_peer_message then FoldPeer (extract_peer_from_dm_context context_id agent_name) else FoldEnded dm_ended_peer.

Definition should_signal_dm_end (is_peer_message : bool) (calls : list ToolCallRecord) (context_id : string) : bool :=
  is_peer_message && ran_ignore_message_successfully calls && starts_with context_id "dm:".

Definition is_peer_dm (p : RunParams) : bool := rp_is_peer_message p && starts_with (rp_context_id p) "dm:".

(** * The state *)

Record World (Js Rs Ss : Type) `{M : MinHeap} := mkWorld {
  wd_app : AppState Js Rs Ss;
  wd_bus : MessageBus (SessionManager Ss);
  wd_approvals : gmap Uuid PendingApproval;
  (** The token graceful shutdown fires. *)
  wd_shutdown : bool;
  wd_settings : Settings;
  wd_secrets : SecretsStore;
  wd_readings : Readings;
}.
Arguments mkWorld {Js Rs Ss M}.
Arguments wd_app {Js Rs Ss M}.
Arguments wd_bus {Js Rs Ss M}.
Arguments wd_approvals {Js Rs Ss M}.
Arguments wd_shutdown {Js Rs Ss M}.
Arguments wd_settings {Js Rs Ss M}.
Arguments wd_secrets {Js Rs Ss M}.
Arguments wd_readings {Js Rs Ss M}.

Section exec.
Context `{U : UuidCrate} `{CH : ChronoCrate} `{CR : CronCrate} `{M : MinHeap}.
Context {Js Rs Ss : Type} `{JT : JobTable Js} `{RS : RunStore Rs} `{DB : SqliteStore Ss}.
Context (ts_string : Z → string) (json_from_str : string → option json).
(** The environment, the validation mode, the registry's read by id, the
    security list, and the directories of the server. *)
Context (env : string → option string) (mode : ValidationMode) (agent_by_id : AgentId → Ss → Result (option AgentRecord) AlmsError)
        (is_full_os_access_agent : string → bool) (project_root : list Component) (has_workspace_dir : bool)
        (bootstrap_prompt : string).

Abbreviation W := (World Js Rs Ss).
Abbreviation Handler := (Exec W Output).
Context `{AR : AgentRuntime W}.
Implicit Types (w : W) (p : RunParams).

Definition runs_of w : RunManager Rs := app_runs (wd_app w).
Definition sessions_of w : SessionManager Ss := app_sessions (wd_app w).
Definition now_of w : Z := rd_now (wd_readings w).

Definition put_app (a : AppState Js Rs Ss) w : W :=
  mkWorld a (wd_bus w) (wd_approvals w) (wd_shutdown w) (wd_settings w) (wd_secrets w) (wd_readings w).
Definition on_runs (f : RunManager Rs → RunManager Rs) w : W := put_app (put_run_manager (f (runs_of w)) (wd_app w)) w.
Definition put_sessions_of (m : SessionManager Ss) w : W := put_app (put_sessions m (wd_app w)) w.
Definition put_approvals (s : gmap Uuid PendingApproval) w : W :=
  mkWorld (wd_app w) (wd_bus w) s (wd_shutdown w) (wd_settings w) (wd_secrets w) (wd_readings w).

(** The bus works on the server's session manager. *)
Definition bus_of w : MessageBus (SessionManager Ss) := set_session_manager (sessions_of w) (wd_bus w).
Definition put_bus (b : MessageBus (SessionManager Ss)) w : W :=
  mkWorld (put_sessions (session_manager b) (wd_app w)) b (wd_approvals w) (wd_shutdown w) (wd_settings w) (wd_secrets w)
    (wd_readings w).

(** ** Events *)

Definition resolved_config_json (c : ResolvedRunConfig) : json :=
  JObj ([("provider", JStr (rc_provider c)); ("model", JStr (rc_model c)); ("max_tokens", JNum (rc_max_tokens c));
         ("posture", JStr (rc_posture c)); ("debug_mode", JBool (rc_debug_mode c));
         ("thinking_budget_tokens", JNum (rc_thinking_budget_tokens c))] ++
        opt_member "reasoning_effort" ((λ e, JStr (effort_as_wire_str e)) <$> rc_reasoning_effort c) ++
        opt_member "gemini_thinking_budget" (JNum <$> rc_gemini_thinking_budget c)).

Definition run_started_with_config (now : Z) (id : RunId) (sid : SessionId) (c : ResolvedRunConfig) : SseEventData :=
  sse_new now "run_started"
    (JObj [("run_id", run_id_json id); ("session_id", session_id_json sid); ("ts", JStr (ts_string now));
           ("resolved_config", resolved_config_json c)]).

Definition run_finished (now : Z) (id : RunId) (ok : bool) (u : TokenUsage) : SseEventData :=
  sse_new now "run_finished"
    (JObj ([("run_id", run_id_json id); ("ok", JBool ok); ("prompt_tokens", JNum (prompt_tokens u));
            ("completion_tokens", JNum (completion_tokens u))] ++
           opt_member "reasoning_tokens" (JNum <$> reasoning_tokens u) ++
           opt_member "cache_creation_input_tokens" (JNum <$> cache_creation_input_tokens u) ++
           opt_member "cache_read_input_tokens" (JNum <$> cache_read_input_tokens u) ++ [("ts", JStr (ts_string now))])).

Definition run_queue_position (now : Z) (id : RunId) (sid : SessionId) (aid : AgentId) (position : nat) : SseEventData :=
  sse_new now "run_queue_position"
    (JObj [("run_id", run_id_json id); ("session_id", session_id_json sid); ("agent_id", JStr (uuid_to_string (agent_uuid aid)));
           ("position", JNum (Z.of_nat position)); ("ts", JStr (ts_string now))]).

Definition dm_activity_ended (now : Z) (sid : SessionId) (peer : string) : SseEventData :=
  sse_new now "dm_activity_ended" (JObj [("session_id", session_id_json sid); ("peer", JStr peer); ("ts", JStr (ts_string now))]).

Definition session_activity_started (now : Z) (sid : SessionId) (id : RunId) (aid : AgentId) : SseEventData :=
  sse_new now "session_activity_started"
    (JObj [("session_id", session_id_json sid); ("run_id", run_id_json id); ("agent_id", JStr (uuid_to_string (agent_uuid aid)));
           ("ts", JStr (ts_string now))]).

(** ** Accesses *)

Definition send_run_event (id : RunId) (sid : SessionId) (event : Z → SseEventData) : Handler () := access (λ w,
  let e := event (now_of w) in ((), on_runs (send_event (now_of w) id sid e) w, [Published id sid e])).

Definition send_activity p (event : Z → SseEventData) : Handler () := access (λ w,
  let e := event (now_of w) in
  ((), on_runs (send_agent_event (now_of w) (rp_agent_id p) (rp_run_id p) (rp_session_id p) e) w, [Activity e])).

Definition send_session_news (sid : SessionId) (id : W → RunId) (event : Z → SseEventData) : Handler () := access (λ w,
  let e := event (now_of w) in ((), on_runs (send_session_event (now_of w) sid (id w) e) w, [SessionNews sid e])).

Definition activity_ended p : Handler () :=
  send_activity p (λ now, session_activity_ended ts_string now (rp_session_id p) (rp_run_id p) (rp_agent_id p)).

Definition run_failed p (message : string) : Handler () :=
  send_run_event (rp_run_id p) (rp_session_id p) (λ now, run_error_event now (rp_run_id p) message).

(** A [try_mark_*] on the run. *)
Definition mark p (t : RunTransition) : Handler (Result bool string) := access (λ w,
  let '(m, r) := try_mark (now_of w) (rp_run_id p) t (runs_of w) in (r, on_runs (λ _, m) w, [Marked t r])).

Definition drop_senders p : Handler () := write (on_runs (remove_senders (rp_run_id p))).
Definition purge_senders : Handler () := write (on_runs purge_terminal_senders).
Definition drop_cancel_token p : Handler () := write (on_runs (remove_cancel_token (rp_run_id p))).
Definition clear_approvals p : Handler () := write (λ w, put_approvals (clear_for_run (rp_run_id p) (wd_approvals w)) w).

Definition run_of p : Handler (option Run) := read (λ w, get_run (runs_of w) (rp_run_id p)).

(** [finish_episode_run]. *)
Definition feed_episode p (job : option JobId) (records : list ToolCallRecord) : Handler () := access (λ w,
  let rd := wd_readings w in
  ((), put_app (finish_episode_run ts_string json_from_str (rd_now rd) (rd_mono rd) (rd_uuid rd) (rd_dummy rd) (rd_run rd) job (rp_run_id p)
                  records (wd_app w)) w, [EpisodeFed job records])).

Definition broadcast_queue_advance (aid : AgentId) : Handler () :=
  queued ← read (λ w, list_queued_for_agent aid (runs_of w));
  match queued with
  | [] => mret ()
  | _ :: _ =>
      running ← read (λ w, agent_has_running_run aid (runs_of w));
      for_each (λ '(position, r),
        if Nat.eqb position 0 then mret ()
        else send_run_event (run_id r) (run_session_id r) (λ now, run_queue_position now (run_id r) (run_session_id r) aid position))
        (imap (λ idx r, (idx + (if running : bool then 1 else 0), r)) queued)
  end.

(** The last two steps of every exit. *)
Definition leave_queue p (job : option JobId) (records : list ToolCallRecord) : Handler () :=
  _ ← feed_episode p job records; broadcast_queue_advance (rp_agent_id p).

Definition lifecycle_persistence_error_for_peer p (observed : option string) : Handler (option string) :=
  run ← run_of p;
  let authoritative := run ≫= λ r, if bool_decide (run_terminal_reason r = Some "persistence_failed")
                                   then Some (default "lifecycle persistence failed" (run_error r)) else None in
  mret ((λ message, truncate_error_for_peer (Runtime message)) <$> match authoritative with Some e => Some e | None => observed end).

(** ** The conversation a run answers *)

(** The agent a name is registered under. *)
Definition agent_named (name : string) w : option AgentId :=
  match sm_store (sessions_of w) with
  | None => None
  | Some st => match load_agent_by_name name st with Ok (Some (id, _)) => Some id | _ => None end
  end.

Definition registered_record (id : AgentId) w : option (Result (option AgentRecord) AlmsError) :=
  agent_by_id id <$> sm_store (sessions_of w).

Definition end_on_bus p (agent_name peer : string) (peer_id : AgentId) (reason : ConversationEndReason) : Handler (Result unit SendError) :=
  access (λ w, let '(r, b) := end_conversation (rd_env (wd_readings w)) agent_name (rp_agent_id p) peer peer_id reason (bus_of w) in
               (r, put_bus b w, [BusEnded agent_name peer peer_id reason r])).

Definition announce_dm_end p (agent_name peer : string) (reason : ConversationEndReason) : Handler () :=
  send_session_news (rp_session_id p) (λ _, rp_run_id p) (λ now,
    dm_conversation_ended ts_string now (rp_session_id p) agent_name peer (reason_to_string reason) (rp_context_id p)).

(** The name the run's agent is registered under. *)
Definition own_name p w : option string := rec_name <$> loaded_record (registered_record (rp_agent_id p) w).

Definition read_name p : Handler (option string) := ask (own_name p) (λ w, [NameRead (own_name p w)]).

(** The names and ids on both sides, or the reason logged. *)
Definition find_dm_pair p (agent_name : option string) : Handler (option (string * string * AgentId)) :=
  let skip := _ ← put_out PeerSkipped; mret None in
  match agent_name with
  | None => skip
  | Some name =>
      match extract_peer_from_dm_context (rp_context_id p) name with
      | None => skip
      | Some peer =>
          found ← ask (agent_named peer) (λ w, [PeerRead peer (agent_named peer w)]);
          match found with None => skip | Some peer_id => mret (Some (name, peer, peer_id)) end
      end
  end.

Definition handle_dm_run_failure p (agent_name : option string) (reason : ConversationEndReason) : Handler (Result unit AlmsError) :=
  if negb (is_peer_dm p) then mret (Ok tt)
  else
    pair ← find_dm_pair p agent_name;
    match pair with
    | None => mret (Ok tt)
    | Some (name, peer, peer_id) =>
        r ← end_on_bus p name peer peer_id reason;
        match r with
        | Err e => mret (Err (Runtime (send_error_to_string e)))
        | Ok _ => _ ← announce_dm_end p name peer reason; mret (Ok tt)
        end
    end.

Definition cancelled_run_end_reason (transitioned : bool) : Handler ConversationEndReason :=
  if transitioned then
    stopping ← read wd_shutdown;
    mret (if stopping : bool then Errored "the gateway shut down" true else UserCancelled)
  else mret UserCancelled.

Definition notify_dm_peer_of_setup_outcome p (agent_name : option string) (reason : ConversationEndReason) : Handler () :=
  if negb (is_peer_dm p) then mret ()
  else
    name ← match agent_name with
           | Some name => mret (Some name)
           | None => read_name p
           end;
    _ ← handle_dm_run_failure p name reason;
    mret ().

Definition notify_dm_peer_of_setup_failure p (agent_name : option string) (message : string) : Handler () :=
  notify_dm_peer_of_setup_outcome p agent_name (Errored message true).

Definition notify_dm_peer_of_setup_cancellation p (agent_name : option string) (transitioned : bool) : Handler () :=
  reason ← cancelled_run_end_reason transitioned;
  notify_dm_peer_of_setup_outcome p agent_name reason.

(** ** The gate a completed run passes *)

Definition signal_dm_end_on_completion p (agent_name : option string) : Handler DmRunExit :=
  pair ← find_dm_pair p agent_name;
  match pair with
  | None => mret ErroredExit
  | Some (name, peer, peer_id) =>
      r ← end_on_bus p name peer peer_id Ignored;
      match r with
      | Ok _ => _ ← announce_dm_end p name peer Ignored; mret Ended
      | Err _ => mret ErroredExit
      end
  end.

Definition deliver_implicit_reply p (agent_name : option string) (reply : string) : Handler DmRunExit :=
  pair ← find_dm_pair p agent_name;
  match pair with
  | None => mret ErroredExit
  | Some (name, peer, peer_id) =>
      r ← access (λ w, let '(r, b) := MessageBus.send (rd_env (wd_readings w)) name (rp_agent_id p) peer peer_id reply (Some (rp_session_id p)) (bus_of w) in
                       (r, put_bus b w, [BusSent name peer peer_id reply r]));
      match r with
      | Ok _ => mret Delivered
      | Err SendDepthExceeded => mret Ended
      | Err e =>
          _ ← handle_dm_run_failure p agent_name
                (Errored (peer_error_with_prefix "reply delivery failed: " (send_error_to_string e)) false);
          mret ErroredExit
      end
  end.

Definition handle_dm_run_completion p (agent_name : option string) (out : RunOutput) : Handler DmRunExit :=
  if negb (is_peer_dm p) then mret NotPeerDm
  else if should_signal_dm_end (rp_is_peer_message p) (ro_tool_calls out) (rp_context_id p) then signal_dm_end_on_completion p agent_name
  else match deliverable_dm_reply (ro_response out) (ro_reasoning out) with
       | Some reply => deliver_implicit_reply p agent_name reply
       | None =>
           _ ← handle_dm_run_failure p agent_name (Errored "agent run completed without producing a reply" false);
           mret ErroredExit
       end.

(** ** Ends of a run *)

(** [try_mark_run_as_failed], with the event unless somebody else ended the run;
    the message as it was announced. *)
Definition fail_run p (message prefix : string) : Handler string :=
  r ← mark p (Fail message "failed");
  let '(message, emit_failure) := match r with Ok transitioned => (message, transitioned) | Err e => (prefix +:+ e, true) end in
  _ ← when emit_failure (run_failed p message);
  mret message.

(** [try_mark_run_as_cancelled]; whether it was applied, and what the store
    answered otherwise. *)
Definition cancel_this_run p : Handler (bool * option string) :=
  r ← mark p (Cancel "cancelled");
  match r with
  | Ok transitioned =>
      _ ← when transitioned (send_run_event (rp_run_id p) (rp_session_id p) (λ now, run_cancelled ts_string now (rp_run_id p)));
      mret (transitioned, None)
  | Err e =>
      let message := "Run cancellation could not be persisted: " +:+ e in
      _ ← run_failed p message; mret (false, Some message)
  end.

(** The three releases, in the order of most exits. *)
Definition release p : Handler () := _ ← drop_senders p; _ ← drop_cancel_token p; clear_approvals p.

Definition FAILURE_PREFIX : string := "Run failure could not be persisted: ".

(** ** Exits before the agent loop *)

Definition claim_failed p (job : option JobId) (e : AlmsError) : Handler () :=
  _ ← fail_run p ("Failed to claim accepted run input: " +:+ alms_error_to_string e) "Run input claim failure could not be persisted: ";
  _ ← activity_ended p;
  _ ← release p;
  leave_queue p job [].

Definition cancelled_before_start p (job : option JobId) : Handler () :=
  '(transitioned, refused) ← cancel_this_run p;
  _ ← activity_ended p;
  _ ← drop_cancel_token p;
  _ ← drop_senders p;
  lost ← lifecycle_persistence_error_for_peer p refused;
  _ ← match lost with
      | Some message => notify_dm_peer_of_setup_failure p None message
      | None => notify_dm_peer_of_setup_cancellation p None transitioned
      end;
  leave_queue p job [].

Definition config_failed p (job : option JobId) (e : MissingModel) : Handler () :=
  message ← fail_run p (missing_model_message (rp_agent_id p) e) FAILURE_PREFIX;
  _ ← activity_ended p;
  _ ← notify_dm_peer_of_setup_failure p None (truncate_error_for_peer (Runtime message));
  _ ← release p;
  leave_queue p job [].

Definition budget_rejected p (job : option JobId) (agent_name : option string) (e : TokenBudgetError) : Handler () :=
  let message := budget_message e in
  r ← mark p (Fail message "failed");
  let refused := match r with Err e => Some (FAILURE_PREFIX +:+ e) | Ok _ => None end in
  _ ← match refused with
      | Some error => run_failed p error
      | None => send_run_event (rp_run_id p) (rp_session_id p) (λ now,
                  run_error_with_code now (rp_run_id p) "INVALID_TOKEN_BUDGET_FOR_PROVIDER" message)
      end;
  _ ← activity_ended p;
  _ ← notify_dm_peer_of_setup_failure p agent_name (truncate_error_for_peer (Runtime (default message refused)));
  _ ← release p;
  leave_queue p job [].

Definition start_refused p (job : option JobId) (agent_name : option string) (e : string) : Handler () :=
  let message := "Run start could not be persisted: " +:+ e in
  _ ← run_failed p message;
  _ ← activity_ended p;
  _ ← drop_cancel_token p;
  _ ← drop_senders p;
  _ ← clear_approvals p;
  _ ← notify_dm_peer_of_setup_failure p agent_name (truncate_error_for_peer (Runtime message));
  leave_queue p job [].

Definition start_rejected p (job : option JobId) (agent_name : option string) : Handler () :=
  _ ← activity_ended p;
  _ ← drop_cancel_token p;
  _ ← drop_senders p;
  _ ← clear_approvals p;
  lost ← lifecycle_persistence_error_for_peer p None;
  _ ← match lost with
      | Some message => notify_dm_peer_of_setup_failure p agent_name message
      | None => notify_dm_peer_of_setup_cancellation p agent_name false
      end;
  leave_queue p job [].

Definition put_marker (m : Z → string → SessionManager Ss → SessionManager Ss) : Handler () := write (λ w,
  put_sessions_of (m (now_of w) (rd_uuid (wd_readings w)) (sessions_of w)) w).

Definition runtime_failed p (job : option JobId) (agent_name : option string) (e : AlmsError) : Handler () :=
  message ← fail_run p (alms_error_to_string e) FAILURE_PREFIX;
  _ ← activity_ended p;
  _ ← when (negb (is_internal_context_id (rp_context_id p)))
        (let safe_reason := sanitize_error_for_session e in
         put_marker (λ now fresh, persist_error_marker now fresh (rp_session_id p) "runtime_init_error"
           ("(runtime initialization failed) " +:+ safe_reason)
           (JObj [("run_id", run_id_json (rp_run_id p)); ("status", JStr "failed"); ("error", JStr safe_reason);
                  ("error_kind", JStr "runtime_init")])));
  _ ← notify_dm_peer_of_setup_failure p agent_name (truncate_error_for_peer (Runtime message));
  _ ← release p;
  leave_queue p job [].

(** ** The agent loop *)

(** The name of an agent is one path component. *)
Definition worktree_path (agent_name : string) : list Component :=
  path_join project_root [Normal ".alms"; Normal "worktrees"; Normal agent_name].

Definition sandbox_root (agent_name : option string) (worktree : WorktreeMode) : SandboxRoot :=
  if match agent_name with Some n => is_full_os_access_agent n | None => false end then Unrestricted
  else match worktree, agent_name with
       | WorktreeGit, Some name => Worktree (worktree_path name) (path_join project_root [Normal ".alms"; Normal "agents"])
       | _, _ => ProjectRoot project_root
       end.

(** The tools a run adds to the registry, by name. *)
Definition registered_tools p (agent_name : option string) : list string :=
  ["invoke_agent"; "read_subagent_session"; "read_session"] ++
  match agent_name with
  | Some _ => ["send_message"; "list_agents"; "read_messages"; "list_my_sessions"] ++
              (if starts_with (rp_context_id p) "dm:" then ["ignore_message"] else [])
  | None => []
  end.

Definition runtime_setup p (agent_name : option string) (worktree : WorktreeMode) (cfg : AgentConfig) (llm summary : LlmClient) : RuntimeSetup := {|
  su_config := cfg; su_llm := llm; su_run_id := rp_run_id p; su_cancel_token := rp_cancel_token p; su_agent_name := agent_name;
  su_dm_implicit_reply := is_peer_dm p;
  su_summary_llm := match cx_summary_provider (ac_context cfg) with Some _ => Some summary | None => None end;
  su_root := sandbox_root agent_name worktree;
  su_workspace := has_workspace_dir && match agent_name with Some _ => true | None => false end;
  su_tools := registered_tools p agent_name;
  su_folded := (λ name, apply_send_message_fold (rp_is_peer_message p) (rp_context_id p) name (rp_dm_ended_peer p)) <$> agent_name;
|}.

Definition call_agent (setup : RuntimeSetup) (c : AgentCall) : Handler (Result RunOutput AlmsError) := call (λ w,
  let '(r, w) := runtime_run setup c w in (r, w, [AgentCalled setup c])).

(** Without a store the session manager takes the message alone. *)
Definition persist_notification_input p (msg : Message) : Handler (Result unit AlmsError) :=
  let id := rp_session_id p in
  durable ← read (λ w, bool_decide (is_Some (sm_store (sessions_of w))));
  if durable : bool then
    saved ← access (λ w, let '(r, m) := try_persist (save_message id msg) (sessions_of w) in (r, put_sessions_of m w, []));
    match saved with
    | Err e => mret (Err e)
    | Ok _ =>
        appended ← access (λ w, let '(r, m) := append_persisted_message id msg (msg_timestamp msg) (sessions_of w) in (r, put_sessions_of m w, []));
        match appended with
        | Err e => mret (Err e)
        | Ok _ =>
            session ← read (λ w, session_get id (sessions_of w));
            _ ← match session with
                | Ok s => write (λ w, put_sessions_of (Session.persist (save_session s) (sessions_of w)) w)
                | Err _ => mret ()
                end;
            mret (Ok tt)
        end
    end
  else access (λ w, let '(r, m) := append_message (now_of w) id msg (sessions_of w) in (r, put_sessions_of m w, [])).

Definition notification_message (now : Z) (fresh input : string) : Message := {|
  msg_id := fresh; msg_role := User; msg_content := Text input; msg_timestamp := now;
  msg_metadata := Some (JObj [("notification_input", JBool true)]) |}.

Definition run_agent_loop p (setup : RuntimeSetup) : Handler (Result RunOutput AlmsError) :=
  let on_session := call_agent setup (CallOnSession (rp_session_id p) (rp_context_id p) (rp_input p)) in
  if rp_is_peer_message p then on_session
  else if rp_input_pre_persisted p then on_session
  else if rp_is_system_triggered p && negb (is_internal_context_id (rp_context_id p)) then
    msg ← read (λ w, notification_message (now_of w) (rd_uuid (wd_readings w)) (rp_input p));
    r ← persist_notification_input p msg;
    match r with Ok _ => on_session | Err e => mret (Err e) end
  else
    r ← (if rp_is_system_triggered p then
           access (λ w, let '(r, m) := get_or_create_with_id (now_of w) (rp_session_id p) (rp_agent_id p) (rp_context_id p) (sessions_of w) in
                        (match r with Ok _ => Ok tt | Err e => Err e end, put_sessions_of m w, []))
         else mret (Ok tt));
    match r with Ok _ => call_agent setup (CallRun (rp_context_id p) (rp_input p)) | Err e => mret (Err e) end.

(** [persist_tool_calls]. *)
Definition save_calls (records : list ToolCallRecord) : Handler () := access (λ w,
  ((), w, match records, sm_store (sessions_of w) with _ :: _, Some _ => [CallsSaved records] | _, _ => [] end)).

(** The summary of a completed run, in a task of its own. *)
Definition summary_request p (agent_name : option string) (cfg : AgentConfig) (llm summary : LlmClient) (out : RunOutput) : option PersistSummaryRequest :=
  let cx := ac_context cfg in
  let name := default "" agent_name in
  if negb (bool_decide (cx_run_summary_mode cx = ModeOff)) && bool_decide (is_Some (derive_source_label (rp_context_id p) name)) then
    Some {| pq_mode := cx_run_summary_mode cx; pq_agent_id := rp_agent_id p; pq_session_id := rp_session_id p; pq_run_id := rp_run_id p;
            pq_run_input := rp_input p; pq_run_output := ro_response out; pq_run_reasoning := ro_reasoning out;
            pq_context_id := rp_context_id p;
            pq_summary_model := match cx_summary_provider cx, cx_summary_model cx with
                                | _, Some m => Some m
                                | Some _, None => None
                                | None, None => Some (default_model llm)
                                end;
            pq_agent_name := name; pq_summary_max_tokens := cx_summary_max_tokens cx; pq_llm := summary |}
  else None.

Definition spawn_summary (r : option PersistSummaryRequest) : Handler () :=
  match r with
  | Some r => _ ← write (on_runs track_in_flight); put_out (SummarySpawned r)
  | None => mret ()
  end.

(** ** What the loop returned *)

Definition run_completed p (agent_name : option string) (request : option PersistSummaryRequest) (out : RunOutput) : Handler () :=
  _ ← save_calls (ro_tool_calls out);
  _ ← when (negb (is_internal_context_id (rp_context_id p)))
        (put_marker (λ now fresh, persist_lifecycle_marker now fresh (rp_session_id p) "run_boundary" "(run completed)"
           (JObj [("run_id", run_id_json (rp_run_id p)); ("status", JStr "completed")])));
  r ← mark p (Complete (ro_response out) (ro_usage out));
  '(transitioned, refused) ← match r with
      | Ok transitioned => mret (transitioned, None)
      | Err e => let message := "Run completion could not be persisted: " +:+ e in
                 _ ← run_failed p message; mret (false, Some message)
      end;
  if transitioned : bool then
    _ ← send_run_event (rp_run_id p) (rp_session_id p) (λ now, run_finished now (rp_run_id p) true (ro_usage out));
    _ ← spawn_summary request;
    _ ← handle_dm_run_completion p agent_name out;
    mret ()
  else
    lost ← lifecycle_persistence_error_for_peer p refused;
    _ ← handle_dm_run_failure p agent_name (match lost with Some message => Errored message true | None => UserCancelled end);
    mret ().

Definition run_was_cancelled p (agent_name : option string) : Handler () :=
  '(transitioned, refused) ← cancel_this_run p;
  lost ← lifecycle_persistence_error_for_peer p refused;
  reason ← match lost with Some message => mret (Errored message true) | None => cancelled_run_end_reason transitioned end;
  _ ← handle_dm_run_failure p agent_name reason;
  mret ().

Definition run_has_failed p (agent_name : option string) (e : AlmsError) : Handler () :=
  message ← fail_run p (alms_error_to_string e) FAILURE_PREFIX;
  _ ← handle_dm_run_failure p agent_name (Errored (truncate_error_for_peer (Runtime message)) true);
  mret ().

(** The records a job's episode is told of. *)
Definition outcome_records (result : Result RunOutput AlmsError) : list ToolCallRecord :=
  match result with
  | Ok out => ro_tool_calls out
  | Err (CancelledWithToolCalls records) | Err (FailedWithToolCalls _ records) => records
  | Err _ => []
  end.

Definition settle_result p (agent_name : option string) (request : RunOutput → option PersistSummaryRequest) (result : Result RunOutput AlmsError)
    : Handler () :=
  match result with
  | Ok out => run_completed p agent_name (request out) out
  | Err CancelledError => run_was_cancelled p agent_name
  | Err (CancelledWithToolCalls records) => _ ← save_calls records; run_was_cancelled p agent_name
  | Err (FailedWithToolCalls source records) => _ ← save_calls records; run_has_failed p agent_name source
  | Err e => run_has_failed p agent_name e
  end.

(** The end of the turn on the agent's own chat. *)
Definition tell_webchat p (agent_name : option string) : Handler () :=
  match agent_name ≫= extract_peer_from_dm_context (rp_context_id p) with
  | None => mret ()
  | Some peer =>
      target ← read (λ w, find_user_facing_session (rp_agent_id p) (sessions_of w));
      match target with
      | None => mret ()
      | Some s => send_session_news (sess_id s) (λ w, rd_dummy (wd_readings w)) (λ now, dm_activity_ended now (sess_id s) peer)
      end
  end.

Definition touch_agent : Handler () := access (λ w, ((), w, match sm_store (sessions_of w) with Some _ => [AgentTouched] | None => [] end)).

Definition common_tail p (job : option JobId) (agent_name : option string) (records : list ToolCallRecord) : Handler () :=
  _ ← activity_ended p;
  _ ← tell_webchat p agent_name;
  _ ← touch_agent;
  _ ← drop_senders p;
  _ ← purge_senders;
  _ ← drop_cancel_token p;
  _ ← clear_approvals p;
  leave_queue p job (match job with Some _ => records | None => [] end).

(** ** [execute_run] *)

Definition claim_input p : Handler (Result unit AlmsError) :=
  if rp_input_pre_persisted p then
    access (λ w, let '(r, m) := claim_pending_input (now_of w) (rp_session_id p) (rp_run_id p) (sessions_of w) in (r, put_sessions_of m w, []))
  else mret (Ok tt).

Definition must_stop p : Handler bool :=
  cancelled ← read (λ w, bool_decide (rp_cancel_token p ∈ rm_cancelled (runs_of w)));
  if cancelled : bool then mret true else read wd_shutdown.

Definition resolve_config p : Handler (Result ResolvedAgentConfig MissingModel) :=
  base ← read (λ w, se_agent (wd_settings w));
  server_llm ← read (λ w, se_llm (wd_settings w));
  ask (λ w, resolve_agent_config env (registered_record (rp_agent_id p) w) base server_llm (Some (wd_secrets w))) (λ w, [NameRead (own_name p w)]).

(** The overrides of posture and prompt. *)
Definition adjust_config p (r : ResolvedAgentConfig) : Handler AgentConfig :=
  let cfg := set_posture (resolve_posture_for_run (ac_posture (ra_agent_config r)) (rp_is_system_triggered p)) (ra_agent_config r) in
  match has_workspace_dir, ra_agent_name r with
  | true, Some name =>
      if rp_is_system_triggered p then mret cfg
      else interview ← read (λ w, rd_needs_bootstrap (wd_readings w) name);
           mret (if interview : bool then set_system_prompt bootstrap_prompt cfg else cfg)
  | _, _ => mret cfg
  end.

(** From the announcement of the start. *)
Definition run_started p (job : option JobId) (agent_name : option string) (worktree : WorktreeMode) (cfg : AgentConfig) (llm : LlmClient) : Handler () :=
  let cx := ac_context cfg in
  _ ← send_run_event (rp_run_id p) (rp_session_id p) (λ now,
        run_started_with_config now (rp_run_id p) (rp_session_id p) (build_resolved_config cfg llm));
  _ ← send_activity p (λ now, session_activity_started now (rp_session_id p) (rp_run_id p) (rp_agent_id p));
  summary ← read (λ w, build_summary_client env llm (cx_summary_provider cx) (cx_summary_model cx) (Some (wd_secrets w)));
  match runtime_new cfg llm with
  | Err e => runtime_failed p job agent_name e
  | Ok _ =>
      result ← run_agent_loop p (runtime_setup p agent_name worktree cfg llm summary);
      _ ← settle_result p agent_name (summary_request p agent_name cfg llm summary) result;
      common_tail p job agent_name (outcome_records result)
  end.

Definition run_turn p : Handler () :=
  run ← run_of p;
  let job := run ≫= run_job_id in
  claimed ← claim_input p;
  match claimed with
  | Err e => claim_failed p job e
  | Ok _ =>
      stop ← must_stop p;
      if stop : bool then cancelled_before_start p job
      else
        resolved ← resolve_config p;
        match resolved with
        | Err e => config_failed p job e
        | Ok r =>
            match evaluate_pre_flight_token_budget mode (ra_agent_config r) (ra_llm r) with
            | Err e => budget_rejected p job (ra_agent_name r) e
            | Ok _ =>
                cfg ← adjust_config p r;
                started ← mark p (Start (Some (build_resolved_config cfg (ra_llm r))));
                match started with
                | Err e => start_refused p job (ra_agent_name r) e
                | Ok false => start_rejected p job (ra_agent_name r)
                | Ok true => run_started p job (ra_agent_name r) (ra_worktree_mode r) cfg (ra_llm r)
                end
            end
        end
  end.

Definition execute_run p : Handler () :=
  _ ← write (on_runs track_in_flight);
  guarded_by (on_runs (λ m, (untrack_in_flight m).1)) (run_turn p).

(** ** The panic boundary *)

Definition PANIC_REASON : string := "Run panicked during execution".

Definition reconcile_panic p (job : option JobId) : Handler () :=
  r ← mark p (Fail PANIC_REASON "failed");
  let '(announce, message, peer_message) := match r with
      | Ok transitioned => (transitioned, PANIC_REASON, PANIC_REASON)
      | Err e => (true, "Run panic could not be persisted: " +:+ e, peer_error_with_prefix "Run panic could not be persisted: " e)
      end in
  _ ← when announce
        (_ ← run_failed p message;
         _ ← handle_dm_run_failure p None (Errored peer_message true);
         mret ());
  _ ← activity_ended p;
  _ ← drop_senders p;
  _ ← purge_senders;
  _ ← drop_cancel_token p;
  _ ← clear_approvals p;
  leave_queue p job [].

Definition execute_run_guarded p : Handler () :=
  run ← run_of p;
  let job := run ≫= run_job_id in
  catch_unwind (execute_run p) (reconcile_panic p job).
End exec.
