(* ===== verification/RunTrace.v ===== *)
(** What a run's turn puts out: lemmas on the traces of [RunExec.v].

    A projection of the trace singles out one kind of output; a handler is
    [silent] for it when it puts out none of that kind, whatever the other
    tasks do and wherever it unwinds. *)
From S2P Require Import Prelude FsPath Ident Lifecycle Json Budget Run EventLog EventFeed Session Errors MessageBus JobEpisode Episodic ContextBuild RunManager RunControl JobStore Scheduler Notify JobEngine RuntimeTypes LlmClient RunConfig Settings Exec RunExec.

(** * Projections of the trace *)

Section silent.
Context {W O X : Type} (π : O → option X).

Definition silent {A} (m : Exec W O A) : Prop := ∀ w t, wp anything m (λ _ _ t', omap π t' = omap π t) w t.

Lemma silent_ret {A} (a : A) : silent (mret a).
Proof. intros w t. by apply wp_ret. Qed.

Lemma silent_bind {A B} (m : Exec W O A) (k : A → Exec W O B) : silent m → (∀ a, silent (k a)) → silent (m ≫= k).
Proof.
  intros Hm Hk w t. apply wp_bind. eapply wp_mono; [apply Hm|]. intros [a|] w' t' E; [|done].
  eapply wp_mono; [apply Hk|]. intros _ _ t'' ->. done.
Qed.

Lemma silent_call {A} (f : W → option A * W * list O) : (∀ w, omap π (f w).2 = []) → silent (call f).
Proof. intros Hf w t. apply wp_call. intros w' _. by rewrite omap_app, Hf, app_nil_r. Qed.

Lemma silent_access {A} (f : W → A * W * list O) : (∀ w, omap π (f w).2 = []) → silent (access f).
Proof. intros Hf w t. apply wp_access. intros w' _. by rewrite omap_app, Hf, app_nil_r. Qed.

Lemma silent_read {A} (f : W → A) : silent (read f).
Proof. by apply silent_access. Qed.

Lemma silent_write (f : W → W) : silent (write f).
Proof. by apply silent_access. Qed.

Lemma silent_put_out x : π x = None → silent (put_out x).
Proof. intros Hx. apply silent_access. intros w. simpl. by rewrite Hx. Qed.

Lemma silent_when b (m : Exec W O ()) : silent m → silent (when b m).
Proof. intros Hm. destruct b; [done|apply silent_ret]. Qed.

Lemma silent_for_each {Y} (f : Y → Exec W O ()) xs : (∀ x, silent (f x)) → silent (for_each f xs).
Proof. intros Hf. induction xs as [|x xs IH]; [apply silent_ret|]. apply silent_bind; [apply Hf|done]. Qed.

Lemma silent_guarded {A} (drop : W → W) (m : Exec W O A) : silent m → silent (guarded_by drop m).
Proof. intros Hm w t. apply wp_guarded. eapply wp_mono; [apply Hm|]. by intros r w' t' E. Qed.

(** A silent part of a handler. *)
Lemma wp_silent {A} (m : Exec W O A) (Q : option A → W → list O → Prop) w t :
  silent m → (∀ r w' t', omap π t' = omap π t → Q r w' t') → wp anything m Q w t.
Proof. intros Hm HQ. eapply wp_mono; [apply Hm|]. intros r w' t' E. by apply HQ. Qed.
End silent.

Create HintDb exec.
#[export] Hint Resolve silent_ret silent_read silent_write silent_put_out silent_when silent_for_each : exec.

(** Splits a handler into its accesses. *)
Ltac silent_step :=
  match goal with
  | |- silent _ (mret _) => apply silent_ret
  | |- silent _ (read _) => apply silent_read
  | |- silent _ (write _) => apply silent_write
  | |- silent _ (put_out _) => apply silent_put_out
  | |- silent _ (when _ _) => apply silent_when
  | |- silent _ (for_each _ _) => apply silent_for_each; intros ?
  | |- silent _ (_ ≫= _) => apply silent_bind; [|intros ?]
  | |- silent _ (if ?b then _ else _) => destruct b
  | |- silent _ (match ?x with _ => _ end) => destruct x
  | |- silent _ _ => solve [auto 3 with exec nocore]
  end.
Ltac silents := repeat silent_step; auto with exec.

Section run.
Context `{U : UuidCrate} `{CH : ChronoCrate} `{CR : CronCrate} `{M : MinHeap}.
Context {Js Rs Ss : Type} `{JT : JobTable Js} `{RS : RunStore Rs} `{DB : SqliteStore Ss}.
Context (ts_string : Z → string) (json_from_str : string → option json).
Context (env : string → option string) (mode : ValidationMode) (agent_by_id : AgentId → Ss → Result (option AgentRecord) AlmsError)
        (is_full_os_access_agent : string → bool) (project_root : list Component) (has_workspace_dir : bool)
        (bootstrap_prompt : string).
Abbreviation W := (World Js Rs Ss).
Context `{AR : AgentRuntime W}.
Implicit Types (w : W) (p : RunParams).

(** The events that tell where a run is. *)
Definition lifecycle_event (e : SseEventData) : bool :=
  existsb (String.eqb (sse_event_type e)) ["run_started"; "run_finished"; "run_error"; "run_cancelled"].

(** ** Handlers that say nothing about the run or its conversation *)

Class Aside {X} (π : Output → option X) : Prop := {
  aside_activity e : π (Activity e) = None;
  aside_news s e : π (SessionNews s e) = None;
  aside_calls l : π (CallsSaved l) = None;
  aside_summary r : π (SummarySpawned r) = None;
  aside_fed j l : π (EpisodeFed j l) = None;
  aside_touched : π AgentTouched = None;
  aside_name name : π (NameRead name) = None;
  aside_peer peer found : π (PeerRead peer found) = None;
  aside_position r s e : lifecycle_event e = false → π (Published r s e) = None;
}.

Section aside.
Context {X : Type} (π : Output → option X) `{HA : !Aside π}.

Lemma silent_activity p event : silent π (send_activity p event : Exec W Output ()).
Proof using HA. apply silent_access. intros w. simpl. by rewrite aside_activity. Qed.
Lemma silent_news sid id event : silent π (send_session_news sid id event : Exec W Output ()).
Proof using HA. apply silent_access. intros w. simpl. by rewrite aside_news. Qed.
Lemma silent_feed p job l : silent π (feed_episode ts_string json_from_str p job l : Exec W Output ()).
Proof using HA. apply silent_access. intros w. simpl. by rewrite aside_fed. Qed.
Lemma silent_save_calls l : silent π (save_calls l : Exec W Output ()).
Proof using HA. apply silent_access. intros w. simpl. destruct l; [done|]. destruct (sm_store _); simpl; [|done]. by rewrite aside_calls. Qed.
Lemma silent_touch : silent π (touch_agent : Exec W Output ()).
Proof using HA. apply silent_access. intros w. simpl. destruct (sm_store _); simpl; [|done]. by rewrite aside_touched. Qed.
Lemma silent_event id sid event : (∀ now, lifecycle_event (event now) = false) → silent π (send_run_event id sid event : Exec W Output ()).
Proof using HA. intros He. apply silent_access. intros w. simpl. by rewrite aside_position. Qed.
End aside.
#[local] Hint Resolve silent_activity silent_news silent_feed silent_save_calls silent_touch silent_event aside_activity aside_summary : exec.

Section turn.
Context {X : Type} (π : Output → option X) `{HA : !Aside π}.

Lemma silent_advance aid : silent π (broadcast_queue_advance ts_string aid : Exec W Output ()).
Proof using HA. unfold broadcast_queue_advance. silents. Qed.
Lemma silent_leave p job l : silent π (leave_queue ts_string json_from_str p job l : Exec W Output ()).
Proof using HA. apply silent_bind; [auto with exec|]. intros _. apply silent_advance. Qed.
Lemma silent_ended p : silent π (activity_ended ts_string p : Exec W Output ()).
Proof using HA. apply silent_activity, HA. Qed.
Lemma silent_release p : silent π (release p : Exec W Output ()).
Proof using HA. unfold release, drop_senders, drop_cancel_token, clear_approvals. silents. Qed.
Lemma silent_lost p o : silent π (lifecycle_persistence_error_for_peer p o : Exec W Output (option string)).
Proof using HA. unfold lifecycle_persistence_error_for_peer, run_of. silents. Qed.
Lemma silent_reason b : silent π (cancelled_run_end_reason b : Exec W Output ConversationEndReason).
Proof using HA. unfold cancelled_run_end_reason. silents. Qed.
Lemma silent_webchat p name : silent π (tell_webchat ts_string p name : Exec W Output ()).
Proof using HA. unfold tell_webchat. silents. Qed.
Lemma silent_spawn r : silent π (spawn_summary r : Exec W Output ()).
Proof using HA. unfold spawn_summary. silents. Qed.
Lemma silent_resolve p : silent π (resolve_config env agent_by_id p : Exec W Output (Result ResolvedAgentConfig MissingModel)).
Proof using HA. unfold resolve_config. silents. apply silent_access. intros w. simpl. by rewrite aside_name. Qed.
Lemma silent_name p : silent π (read_name agent_by_id p : Exec W Output (option string)).
Proof using HA. apply silent_access. intros w. simpl. by rewrite aside_name. Qed.
Lemma silent_stop p : silent π (must_stop p : Exec W Output bool).
Proof using HA. unfold must_stop. silents. Qed.
Lemma silent_adjust p r : silent π (adjust_config has_workspace_dir bootstrap_prompt p r : Exec W Output AgentConfig).
Proof using HA. unfold adjust_config. silents. Qed.
Lemma silent_claim p : silent π (claim_input p : Exec W Output (Result unit AlmsError)).
Proof using HA. unfold claim_input. silents. apply silent_access. intros w. by destruct (claim_pending_input _ _ _ _). Qed.
Lemma silent_marker f : silent π (put_marker f : Exec W Output ()).
Proof using HA. unfold put_marker. silents. Qed.
Lemma silent_persist p msg : silent π (persist_notification_input p msg : Exec W Output (Result unit AlmsError)).
Proof using HA.
  unfold persist_notification_input. silents; apply silent_access; intros w.
  - by destruct (try_persist _ _).
  - by destruct (append_persisted_message _ _ _ _).
  - by destruct (append_message _ _ _ _).
Qed.
End turn.
#[local] Hint Resolve silent_advance silent_leave silent_ended silent_release silent_lost silent_reason silent_webchat silent_spawn silent_resolve silent_name
  silent_stop silent_adjust silent_claim silent_marker silent_persist : exec.

Section turn2.
Context {X : Type} (π : Output → option X) `{HA : !Aside π}.

Lemma silent_tail p job name l : silent π (common_tail ts_string json_from_str p job name l : Exec W Output ()).
Proof using HA. unfold common_tail, drop_senders, purge_senders, drop_cancel_token, clear_approvals. silents. Qed.

End turn2.
#[local] Hint Resolve silent_tail : exec.

(** Projections that miss the conversation, the run's life, the call of the agent. *)
Class NoTalk {X} (π : Output → option X) : Prop := {
  nt_end name peer id reason r : π (BusEnded name peer id reason r) = None;
  nt_sent name peer id reply r : π (BusSent name peer id reply r) = None;
  nt_skip : π PeerSkipped = None }.
Class NoLife {X} (π : Output → option X) : Prop := { nl_marked t r : π (Marked t r) = None; nl_published r s e : π (Published r s e) = None }.
Class NoCall {X} (π : Output → option X) : Prop := nc_call su c : π (AgentCalled su c) = None.

#[local] Hint Extern 0 (Aside _) => apply _ : exec.
#[local] Hint Extern 0 (NoTalk _) => apply _ : exec.
#[local] Hint Extern 0 (NoLife _) => apply _ : exec.
#[local] Hint Extern 0 (NoCall _) => apply _ : exec.

Section talk.
Context {X : Type} (π : Output → option X) `{HA : !Aside π} `{HT : !NoTalk π}.

Lemma silent_pair p name : silent π (find_dm_pair p name : Exec W Output (option (string * string * AgentId))).
Proof using HA HT. unfold find_dm_pair. silents; first [apply nt_skip|apply silent_access; intros w; simpl; by rewrite aside_peer]. Qed.
Lemma silent_end_on_bus p name peer id reason : silent π (end_on_bus p name peer id reason : Exec W Output (Result unit SendError)).
Proof using HT. apply silent_access. intros w. destruct (end_conversation _ _ _ _ _ _ _) as [r b]. simpl. by rewrite nt_end. Qed.
Lemma silent_failure p name reason : silent π (handle_dm_run_failure ts_string p name reason : Exec W Output (Result unit AlmsError)).
Proof using HA HT. unfold handle_dm_run_failure, announce_dm_end. silents; [apply silent_pair|apply silent_end_on_bus]. Qed.
Lemma silent_outcome p name reason : silent π (notify_dm_peer_of_setup_outcome ts_string agent_by_id p name reason : Exec W Output ()).
Proof using HA HT. unfold notify_dm_peer_of_setup_outcome. silents; apply silent_failure. Qed.
Lemma silent_setup_failure p name m : silent π (notify_dm_peer_of_setup_failure ts_string agent_by_id p name m : Exec W Output ()).
Proof using HA HT. apply silent_outcome. Qed.
Lemma silent_setup_cancellation p name b : silent π (notify_dm_peer_of_setup_cancellation ts_string agent_by_id p name b : Exec W Output ()).
Proof using HA HT. unfold notify_dm_peer_of_setup_cancellation. silents; apply silent_outcome. Qed.
Lemma silent_completion p name out : silent π (handle_dm_run_completion ts_string p name out : Exec W Output DmRunExit).
Proof using HA HT.
  unfold handle_dm_run_completion, signal_dm_end_on_completion, deliver_implicit_reply, announce_dm_end.
  silents; try apply silent_pair; try apply silent_end_on_bus; try apply silent_failure.
  apply silent_access. intros w. destruct (MessageBus.send _ _ _ _ _ _ _ _) as [r b]. simpl. by rewrite nt_sent.
Qed.
End talk.
#[local] Hint Resolve silent_pair silent_end_on_bus silent_failure silent_outcome silent_setup_failure silent_setup_cancellation silent_completion : exec.

Section life.
Context {X : Type} (π : Output → option X) `{HA : !Aside π} `{HL : !NoLife π}.

Lemma silent_mark p t : silent π (mark p t : Exec W Output (Result bool string)).
Proof using HL. apply silent_access. intros w. destruct (try_mark _ _ _ _) as [m r]. simpl. by rewrite nl_marked. Qed.
Lemma silent_publish id sid event : silent π (send_run_event id sid event : Exec W Output ()).
Proof using HL. apply silent_access. intros w. simpl. by rewrite nl_published. Qed.
Lemma silent_run_failed p m : silent π (run_failed p m : Exec W Output ()).
Proof using HL. apply silent_publish. Qed.
#[local] Hint Resolve silent_mark silent_publish silent_run_failed : exec.
Lemma silent_fail p m prefix : silent π (fail_run p m prefix : Exec W Output string).
Proof using HL. unfold fail_run. silents. Qed.
Lemma silent_cancel p : silent π (cancel_this_run ts_string p : Exec W Output (bool * option string)).
Proof using HL. unfold cancel_this_run. silents. Qed.
End life.
#[local] Hint Resolve silent_mark silent_publish silent_run_failed silent_fail silent_cancel : exec.

Section call.
Context {X : Type} (π : Output → option X) `{HA : !Aside π} `{HC : !NoCall π}.

Lemma silent_agent su c : silent π (call_agent su c : Exec W Output (Result RunOutput AlmsError)).
Proof using HC. apply silent_call. intros w. destruct (runtime_run su c w) as [r w']. simpl. by rewrite nc_call. Qed.
#[local] Hint Resolve silent_agent : exec.
Lemma silent_loop p su : silent π (run_agent_loop p su : Exec W Output (Result RunOutput AlmsError)).
Proof using HA HC. unfold run_agent_loop. silents. apply silent_access. intros w. by destruct (get_or_create_with_id _ _ _ _ _). Qed.
End call.
#[local] Hint Resolve silent_agent silent_loop : exec.

(** ** What is announced, and what was settled *)

(** The lifecycle events of the trace. *)
Definition announcement (x : Output) : option (RunId * SessionId * string) :=
  match x with
  | Published r s e => if lifecycle_event e then Some (r, s, sse_event_type e) else None
  | _ => None
  end.
Definition announced (o : list Output) := omap announcement o.

(** The event a transition of the run calls for: none when somebody else had
    ended it, an error when the store refused. *)
Definition settlement p (x : Output) : option (RunId * SessionId * string) :=
  let tell type := Some (rp_run_id p, rp_session_id p, type) in
  match x with
  | Marked _ (Err _) => tell "run_error"
  | Marked t (Ok true) => tell (match t with Start _ => "run_started" | Complete _ _ => "run_finished" | Fail _ _ => "run_error" | Cancel _ => "run_cancelled" end)
  | _ => None
  end.
Definition settled p (o : list Output) := omap (settlement p) o.

Definition agent_call (x : Output) : option (RuntimeSetup * AgentCall) :=
  match x with AgentCalled su c => Some (su, c) | _ => None end.
Definition agent_calls (o : list Output) := omap agent_call o.

#[local] Instance announcement_aside : Aside announcement.
Proof. split; try done. intros r s e He. simpl. by rewrite He. Qed.
#[local] Instance announcement_talk : NoTalk announcement.
Proof. by split. Qed.
#[local] Instance announcement_call : NoCall announcement.
Proof. done. Qed.
#[local] Instance settlement_aside p : Aside (settlement p).
Proof. by split. Qed.
#[local] Instance settlement_talk p : NoTalk (settlement p).
Proof. by split. Qed.
#[local] Instance settlement_call p : NoCall (settlement p).
Proof. done. Qed.
#[local] Instance agent_call_aside : Aside agent_call.
Proof. by split. Qed.
#[local] Instance agent_call_talk : NoTalk agent_call.
Proof. by split. Qed.
#[local] Instance agent_call_life : NoLife agent_call.
Proof. by split. Qed.

Lemma wp_mark p t Q w tr :
  (∀ w', Q None w' tr ∧ ∀ r, Q (Some r) w' (tr ++ [Marked t r])) → wp anything (mark p t : Exec W Output _) Q w tr.
Proof.
  intros H. apply wp_access. intros w' _. destruct (try_mark _ _ _ _) as [m r]. simpl. split; apply H.
Qed.

Lemma wp_publish id sid event Q w tr :
  (∀ w', Q None w' tr ∧ ∀ now, Q (Some ()) w' (tr ++ [Published id sid (event now)])) →
  wp anything (send_run_event id sid event : Exec W Output ()) Q w tr.
Proof. intros H. apply wp_access. intros w' _. split; apply H. Qed.

Section balance.
Context (p : RunParams).

(** Every settlement is announced before the handler goes on; where it unwinds
    one may be missing, none is made up. *)
Definition balanced {A} (m : Exec W Output A) : Prop := ∀ w t,
  announced t = settled p t →
  wp anything m (λ r _ t', match r with Some _ => announced t' = settled p t' | None => announced t' `prefix_of` settled p t' end) w t.

Lemma balanced_ret {A} (a : A) : balanced (mret a).
Proof. intros w t E. by apply wp_ret. Qed.

Lemma balanced_bind {A B} (m : Exec W Output A) (k : A → Exec W Output B) : balanced m → (∀ a, balanced (k a)) → balanced (m ≫= k).
Proof.
  intros Hm Hk w t E. apply wp_bind. eapply wp_mono; [by apply Hm|]. intros [a|] w' t' E'; [|done]. by apply Hk.
Qed.

Lemma balanced_silent {A} (m : Exec W Output A) : silent announcement m → silent (settlement p) m → balanced m.
Proof.
  intros Ha Hs w t E sched n Hr. specialize (Ha w t sched n Hr). specialize (Hs w t sched n Hr).
  destruct (m sched n w) as [[[r n'] w'] o]. change (announced (t ++ o) = announced t) in Ha. change (settled p (t ++ o) = settled p t) in Hs.
  rewrite Ha, Hs, E. by destruct r.
Qed.

(** A transition, and its announcement. *)
Definition announces (m : Exec W Output ()) (type : string) : Prop := ∀ w t,
  settled p t = announced t ++ [(rp_run_id p, rp_session_id p, type)] →
  wp anything m (λ r _ t', match r with Some _ => announced t' = settled p t' | None => announced t' `prefix_of` settled p t' end) w t.

Lemma announces_event type event :
  existsb (String.eqb type) ["run_started"; "run_finished"; "run_error"; "run_cancelled"] = true →
  (∀ now, sse_event_type (event now) = type) →
  announces (send_run_event (rp_run_id p) (rp_session_id p) event) type.
Proof.
  intros Ht He w t E. apply wp_publish. intros w'. unfold announced, settled in *. split; [rewrite E; by eexists|].
  intros now. rewrite !omap_app, E. simpl. unfold lifecycle_event. rewrite He, Ht. by rewrite app_nil_r.
Qed.

Lemma announces_failed message : announces (run_failed p message) "run_error".
Proof. by apply announces_event. Qed.

Lemma announces_when type m (b : bool) w t :
  announces m type → settled p t = announced t ++ (if b then [(rp_run_id p, rp_session_id p, type)] else []) →
  wp anything (when b m) (λ r _ t', match r with Some _ => announced t' = settled p t' | None => announced t' `prefix_of` settled p t' end) w t.
Proof. intros Hm E. destruct b; [by apply Hm|]. apply wp_ret. by rewrite E, app_nil_r. Qed.

(** The continuation of a transition. *)
Lemma balanced_mark {B} t (k : Result bool string → Exec W Output B) :
  (∀ r w tr, settled p tr = announced tr ++ option_list (settlement p (Marked t r)) →
     wp anything (k r) (λ r _ t', match r with Some _ => announced t' = settled p t' | None => announced t' `prefix_of` settled p t' end) w tr) →
  balanced (mark p t ≫= k).
Proof.
  intros Hk w tr E. apply wp_bind, wp_mark. intros w'. split; [by rewrite E|]. intros r. apply Hk.
  unfold settled, announced in *. rewrite !omap_app, E. simpl.
  by destruct r as [[]|]; destruct t; simpl; rewrite ?app_nil_r.
Qed.

Lemma balanced_fail m prefix : balanced (fail_run p m prefix).
Proof.
  apply balanced_mark. intros r w tr E.
  assert (∀ b (message : string) w tr, settled p tr = announced tr ++ (if b : bool then [(rp_run_id p, rp_session_id p, "run_error")] else []) →
    wp anything (_ ← when b (run_failed p message); mret message)
      (λ r _ t', match r with Some _ => announced t' = settled p t' | None => announced t' `prefix_of` settled p t' end) w tr) as Hw.
  { intros b message w' tr' E'. apply wp_bind. eapply wp_mono; [by eapply announces_when; [apply announces_failed|]|].
    intros [[]|] w'' t'' E''; [by apply wp_ret|done]. }
  destruct r as [[]|e]; by apply Hw.
Qed.

Lemma balanced_cancel : balanced (cancel_this_run ts_string p).
Proof.
  apply balanced_mark. intros [b|e] w tr E; apply wp_bind.
  - eapply wp_mono; [eapply (announces_when "run_cancelled"); [by apply announces_event|by destruct b]|].
    intros [[]|] w' t' E'; [by apply wp_ret|done].
  - eapply wp_mono; [by eapply announces_failed|]. intros [[]|] w' t' E'; [by apply wp_ret|done].
Qed.

Lemma balanced_aside {A} (m : Exec W Output A) :
  (∀ X (π : Output → option X), Aside π → NoTalk π → NoCall π → silent π m) → balanced m.
Proof. intros H. apply balanced_silent; apply H; apply _. Qed.

Lemma balanced_loop su : balanced (run_agent_loop p su).
Proof. apply balanced_aside. auto with exec. Qed.

Lemma balanced_completed name request out : balanced (run_completed ts_string p name request out).
Proof.
  apply balanced_bind; [apply balanced_aside; auto with exec|]. intros _.
  apply balanced_bind; [apply balanced_aside; intros; silents|]. intros _.
  assert (∀ b refused, balanced (if b : bool then
      _ ← spawn_summary request; _ ← handle_dm_run_completion ts_string p name out; mret ()
    else lost ← lifecycle_persistence_error_for_peer p refused;
         _ ← handle_dm_run_failure ts_string p name (match lost with Some message => Errored message true | None => UserCancelled end); mret ()))
    as Hrest by (intros; apply balanced_aside; intros; silents).
  apply balanced_mark. intros [b|e] w tr E; apply wp_bind; [apply wp_ret|apply wp_bind].
  - destruct b.
    + apply wp_bind. eapply wp_mono; [eapply (announces_event "run_finished"); done|].
      intros [[]|] w' t' E'; [by apply (Hrest true None)|done].
    + apply (Hrest false None). by rewrite E, app_nil_r.
  - eapply wp_mono; [by eapply announces_failed|]. intros [[]|] w' t' E'; [|done]. apply wp_ret. by apply (Hrest false).
Qed.

Lemma balanced_cancelled name : balanced (run_was_cancelled ts_string p name).
Proof.
  apply balanced_bind; [apply balanced_cancel|]. intros [b refused]. apply balanced_aside. intros. silents.
Qed.

Lemma balanced_failed name e : balanced (run_has_failed ts_string p name e).
Proof. apply balanced_bind; [apply balanced_fail|]. intros m. apply balanced_aside. intros. silents. Qed.

Lemma balanced_result name request r : balanced (settle_result ts_string p name request r).
Proof.
  assert (∀ l, balanced (save_calls l)) as Hs by (intros; apply balanced_aside; auto with exec).
  destruct r as [out|e]; [apply balanced_completed|]. destruct e; simpl; try apply balanced_failed; try apply balanced_cancelled;
    (apply balanced_bind; [apply Hs|]; intros _); [apply balanced_cancelled|apply balanced_failed].
Qed.

Lemma balanced_claim_failed job e : balanced (claim_failed ts_string json_from_str p job e).
Proof. apply balanced_bind; [apply balanced_fail|]. intros m. apply balanced_aside. intros. silents. Qed.
Lemma balanced_config_failed job e : balanced (config_failed ts_string json_from_str agent_by_id p job e).
Proof. apply balanced_bind; [apply balanced_fail|]. intros m. apply balanced_aside. intros. silents. Qed.
Lemma balanced_runtime_failed job name e : balanced (runtime_failed ts_string json_from_str agent_by_id p job name e).
Proof. apply balanced_bind; [apply balanced_fail|]. intros m. apply balanced_aside. intros. silents. Qed.
Lemma balanced_early job : balanced (cancelled_before_start ts_string json_from_str agent_by_id p job).
Proof.
  apply balanced_bind; [apply balanced_cancel|]. intros [b refused]. unfold drop_cancel_token, drop_senders. apply balanced_aside. intros. silents.
Qed.
Lemma balanced_rejected job name : balanced (start_rejected ts_string json_from_str agent_by_id p job name).
Proof. unfold start_rejected, drop_cancel_token, drop_senders, clear_approvals. apply balanced_aside. intros. silents. Qed.

Lemma balanced_started job name wt cfg llm w tr :
  settled p tr = announced tr ++ [(rp_run_id p, rp_session_id p, "run_started")] →
  wp anything (run_started ts_string json_from_str env agent_by_id is_full_os_access_agent project_root has_workspace_dir p job name wt cfg llm)
    (λ r _ t', match r with Some _ => announced t' = settled p t' | None => announced t' `prefix_of` settled p t' end) w tr.
Proof.
  intros E. apply wp_bind. eapply wp_mono; [by eapply (announces_event "run_started")|]. intros [[]|] w' t' E'; [|done].
  apply balanced_bind; [apply balanced_aside; auto with exec|intros _|done].
  apply balanced_bind; [apply balanced_aside; auto with exec|intros summary].
  destruct (runtime_new cfg llm); [|apply balanced_runtime_failed].
  apply balanced_bind; [apply balanced_loop|intros r]. apply balanced_bind; [apply balanced_result|intros _].
  apply balanced_aside. auto with exec.
Qed.

Lemma balanced_start job name wt cfg llm :
  balanced (started ← mark p (Start (Some (build_resolved_config cfg llm)));
    match started with
    | Err e => start_refused ts_string json_from_str agent_by_id p job name e
    | Ok false => start_rejected ts_string json_from_str agent_by_id p job name
    | Ok true => run_started ts_string json_from_str env agent_by_id is_full_os_access_agent project_root has_workspace_dir p job name wt cfg llm
    end).
Proof.
  apply balanced_mark. intros [[]|e] w tr E.
  - by apply balanced_started.
  - apply balanced_rejected. by rewrite E, app_nil_r.
  - apply wp_bind. eapply wp_mono; [by eapply announces_failed|]. intros [[]|] w' t' E'; [|done].
    unfold drop_cancel_token, drop_senders, clear_approvals. revert E'. apply balanced_aside. intros. silents.
Qed.

(** The token check refused a run somebody else had ended. *)
Definition told_twice (o : list Output) : Prop :=
  settled p o = [] ∧ announced o = [(rp_run_id p, rp_session_id p, "run_error")] ∧ agent_calls o = [] ∧
  ∃ e, Marked (Fail (budget_message e) "failed") (Ok false) ∈ o.

Definition well_told (r : option ()) (o : list Output) : Prop :=
  match r with Some _ => announced o = settled p o | None => announced o `prefix_of` settled p o end ∨ told_twice o.

Definition unsaid (o : list Output) : Prop := announced o = [] ∧ settled p o = [] ∧ agent_calls o = [].

Lemma told_rest {A} (m : Exec W Output A) w tr :
  (∀ X (π : Output → option X), Aside π → NoTalk π → silent π m) → told_twice tr →
  wp anything m (λ _ _ t', told_twice t') w tr.
Proof.
  intros Hm (Es & Ea & Ec & e & He). apply wp_grows. intros sched n Hs.
  pose proof (Hm _ announcement _ _ w tr sched n Hs) as Ha. pose proof (Hm _ (settlement p) _ _ w tr sched n Hs) as Hb.
  pose proof (Hm _ agent_call _ _ w tr sched n Hs) as Hc.
  destruct (m sched n w) as [[[r n'] w'] o]. unfold told_twice, announced, settled, agent_calls in *. rewrite Ha, Hb, Hc.
  intros [o' ->]. split_and!; try done. exists e. set_solver.
Qed.

Lemma told_budget job name e w tr :
  unsaid tr → wp anything (budget_rejected ts_string json_from_str agent_by_id p job name e) (λ r _ t', well_told r t') w tr.
Proof.
  intros (Ea & Es & Ec).
  pose (rest := λ m, _ ← activity_ended ts_string p; _ ← notify_dm_peer_of_setup_failure ts_string agent_by_id p name m;
                 _ ← release p; leave_queue ts_string json_from_str p job [] : Exec W Output ()).
  assert (∀ m X (π : Output → option X), Aside π → NoTalk π → silent π (rest m)) as Hr by (intros; unfold rest; silents).
  assert (∀ m w t, told_twice t → wp anything (rest m) (λ r _ t', well_told r t') w t) as Htold.
  { intros m w' t' Ht. eapply wp_mono; [apply told_rest; [apply Hr|exact Ht]|]. intros r w'' t'' ?. by right. }
  assert (∀ m w t, announced t = settled p t → wp anything (rest m) (λ r _ t', well_told r t') w t) as Hbal.
  { intros m w' t' Ht. eapply wp_mono; [by apply (balanced_aside (rest m)); [auto|]|]. intros r w'' t'' ?. by left. }
  apply wp_bind, wp_mark. intros w'. split; [left; by rewrite Ea, Es|]. intros r. unfold well_told, announced, settled in *.
  destruct r as [b|error]; apply wp_bind.
  - apply wp_publish. intros w2. split; [left; rewrite !omap_app, Ea, Es; apply prefix_nil|]. intros now.
    destruct b; [apply Hbal; unfold announced, settled; by rewrite !omap_app, Ea, Es|]. apply Htold. unfold told_twice, announced, settled, agent_calls in *.
    rewrite !omap_app, Ea, Es, Ec. split_and!; try done. exists e. set_solver.
  - eapply wp_mono; [eapply announces_failed; unfold announced, settled; by rewrite !omap_app, Ea, Es|].
    intros [[]|] w2 t2 E2; [by apply Hbal|by left].
Qed.

(** Nothing is said before the configuration is known. *)
Lemma unsaid_step {A} (m : Exec W Output A) (k : A → Exec W Output ()) w tr :
  (∀ X (π : Output → option X), Aside π → NoTalk π → silent π m) →
  (∀ a w tr, unsaid tr → wp anything (k a) (λ r _ t', well_told r t') w tr) →
  unsaid tr → wp anything (m ≫= k) (λ r _ t', well_told r t') w tr.
Proof.
  intros Hm Hk (Ea & Es & Ec). apply wp_bind. intros sched n Hs.
  pose proof (Hm _ announcement _ _ w tr sched n Hs) as Ha. pose proof (Hm _ (settlement p) _ _ w tr sched n Hs) as Hb.
  pose proof (Hm _ agent_call _ _ w tr sched n Hs) as Hc. unfold unsaid, well_told, announced, settled, agent_calls in *.
  destruct (m sched n w) as [[[[a|] n'] w'] o]; [apply Hk; split_and!; congruence|left; by rewrite Ha, Hb, Ea, Es].
Qed.

Lemma told_turn w tr :
  unsaid tr →
  wp anything (run_turn ts_string json_from_str env mode agent_by_id is_full_os_access_agent project_root has_workspace_dir bootstrap_prompt p)
    (λ r _ t', well_told r t') w tr.
Proof.
  assert (∀ m : Exec W Output (), balanced m → ∀ w tr, unsaid tr → wp anything m (λ r _ t', well_told r t') w tr) as Hbal.
  { intros m Hm w' t' (Ea & Es & _). eapply wp_mono; [apply Hm; by rewrite Ea, Es|]. intros r ? ? ?. by left. }
  revert w tr. unfold run_turn.
  intros w tr. apply unsaid_step; [unfold run_of; intros; silents|]. intros run. clear w tr.
  intros w tr. apply unsaid_step; [intros; silents|]. intros [[]|e]; clear w tr; [|apply Hbal, balanced_claim_failed].
  intros w tr. apply unsaid_step; [intros; silents|]. intros [|]; clear w tr; [apply Hbal, balanced_early|].
  intros w tr. apply unsaid_step; [intros; silents|]. intros [r|e]; clear w tr; [|apply Hbal, balanced_config_failed].
  destruct (evaluate_pre_flight_token_budget _ _ _) as [[]|e]; [|intros w tr; apply told_budget].
  intros w tr. apply unsaid_step; [intros; silents|]. intros cfg. apply Hbal, balanced_start.
Qed.
End balance.

(** ** The call of the agent *)

Section calls.
Context (p : RunParams).

Definition call_fits (c : AgentCall) : Prop :=
  match c with
  | CallOnSession sid ctx input => sid = rp_session_id p ∧ ctx = rp_context_id p ∧ input = rp_input p
  | CallRun ctx input => ctx = rp_context_id p ∧ input = rp_input p ∧ rp_is_peer_message p = false ∧ rp_input_pre_persisted p = false
  end.

(** What the agent may be called with. *)
Record setup_fits (su : RuntimeSetup) : Prop := {
  sf_run : su_run_id su = rp_run_id p ∧ su_cancel_token su = rp_cancel_token p;
  sf_budget : evaluate_pre_flight_token_budget mode (su_config su) (su_llm su) = Ok tt;
  sf_posture : rp_is_system_triggered p = true → ac_posture (su_config su) ≠ Guarded;
  sf_root : su_root su = Unrestricted → ∃ name, su_agent_name su = Some name ∧ is_full_os_access_agent name = true;
}.

(** The start was stored and announced with the configuration of the call. *)
Definition start_told (su : RuntimeSetup) (o : list Output) : Prop :=
  let rc := build_resolved_config (su_config su) (su_llm su) in
  Marked (Start (Some rc)) (Ok true) ∈ o ∧
  ∃ now, Published (rp_run_id p) (rp_session_id p) (run_started_with_config ts_string now (rp_run_id p) (rp_session_id p) rc) ∈ o.

Definition called_well (o : list Output) : Prop :=
  agent_calls o = [] ∨
  ∃ su c o1 o2, o = o1 ++ AgentCalled su c :: o2 ∧ agent_calls o1 = [] ∧ agent_calls o2 = [] ∧ start_told su o1 ∧ setup_fits su ∧ call_fits c.

Lemma uncalled_rest {A} (m : Exec W Output A) w tr :
  silent agent_call m → agent_calls tr = [] → wp anything m (λ _ _ t', called_well t') w tr.
Proof. intros Hm E. eapply wp_silent; [exact Hm|]. intros r w' t' E'. left. unfold agent_calls in *. congruence. Qed.

Lemma called_rest {A} (m : Exec W Output A) w tr :
  silent agent_call m → called_well tr → wp anything m (λ _ _ t', called_well t') w tr.
Proof.
  intros Hm [E|(su & c & o1 & o2 & -> & E1 & E2 & Hst & Hsu & Hc)]; [by apply uncalled_rest|].
  intros sched n Hs. specialize (Hm w (o1 ++ AgentCalled su c :: o2) sched n Hs). destruct (m sched n w) as [[[r n'] w'] o].
  rewrite omap_app in Hm. assert (agent_calls o = []) as Eo.
  { unfold agent_calls. apply length_zero_iff_nil. apply (f_equal length) in Hm. rewrite length_app in Hm. lia. }
  right. exists su, c, o1, (o2 ++ o). unfold agent_calls in *. rewrite <-app_assoc. split_and!; try done. by rewrite omap_app, E2, Eo.
Qed.

Lemma uncalled_step {A B} (m : Exec W Output A) (k : A → Exec W Output B) w tr :
  silent agent_call m → (∀ a w tr', tr `prefix_of` tr' → agent_calls tr' = [] → wp anything (k a) (λ _ _ t', called_well t') w tr') →
  agent_calls tr = [] → wp anything (m ≫= k) (λ _ _ t', called_well t') w tr.
Proof.
  intros Hm Hk E. apply wp_bind, wp_grows. eapply wp_silent; [exact Hm|]. intros r w' t' E' Hp.
  destruct r as [a|]; [apply Hk; [done|]|left]; unfold agent_calls in *; congruence.
Qed.

Lemma called_agent su c w tr :
  agent_calls tr = [] → start_told su tr → setup_fits su → call_fits c →
  wp anything (call_agent su c : Exec W Output _) (λ _ _ t', called_well t') w tr.
Proof.
  intros E Hst Hsu Hc. apply wp_call. intros w' _. destruct (runtime_run su c w') as [r w'']. simpl. split; [by left|].
  right. exists su, c, tr, []. split_and!; try done.
Qed.

Lemma start_told_grows su t t' : t `prefix_of` t' → start_told su t → start_told su t'.
Proof. intros [o ->] [H1 [now H2]]. split; [|exists now]; set_solver. Qed.

Lemma called_loop su w tr :
  agent_calls tr = [] → start_told su tr → setup_fits su → wp anything (run_agent_loop p su) (λ _ _ t', called_well t') w tr.
Proof.
  intros E Hst Hsu. unfold run_agent_loop.
  destruct (rp_is_peer_message p) eqn:Ep; [by apply called_agent|].
  destruct (rp_input_pre_persisted p) eqn:Ei; [by apply called_agent|].
  destruct (rp_is_system_triggered p && _).
  - apply uncalled_step; [silents| |done]. intros msg w1 t1 Hp1 E1.
    apply uncalled_step; [silents| |done].
    intros [[]|e] w2 t2 Hp2 E2; [|by apply uncalled_rest; [silents|]].
    apply called_agent; [done| |done..]. do 2 (eapply start_told_grows; [eassumption|]). done.
  - apply uncalled_step; [|intros [a|e] w2 t2 Hp2 E2|done].
    + silents. apply silent_access. intros w'. by destruct (get_or_create_with_id _ _ _ _ _).
    + apply called_agent; [done|by eapply start_told_grows|done|done].
    + by apply uncalled_rest; [silents|].
Qed.

Lemma adjusted r w tr :
  evaluate_pre_flight_token_budget mode (ra_agent_config r) (ra_llm r) = Ok tt →
  wp anything (adjust_config has_workspace_dir bootstrap_prompt p r : Exec W Output _) (λ x _ t', t' = tr ∧ ∀ cfg, x = Some cfg →
    evaluate_pre_flight_token_budget mode cfg (ra_llm r) = Ok tt ∧ (rp_is_system_triggered p = true → ac_posture cfg ≠ Guarded)) w tr.
Proof.
  intros He. unfold adjust_config.
  set (cfg := set_posture _ _).
  assert (evaluate_pre_flight_token_budget mode cfg (ra_llm r) = Ok tt ∧ (rp_is_system_triggered p = true → ac_posture cfg ≠ Guarded)) as Hcfg.
  { split; [exact He|]. intros Hs. unfold cfg. simpl. rewrite Hs. simpl. by destruct (ac_posture (ra_agent_config r)). }
  assert (∀ x w, wp anything (mret x : Exec W Output AgentConfig) (λ x' _ t', t' = tr ∧ ∀ c, x' = Some c → c = x) w tr) as Hret.
  { intros x w'. apply wp_ret. split; [done|]. by intros c [= ->]. }
  destruct has_workspace_dir; [destruct (ra_agent_name r)|];
    try (eapply wp_mono; [apply Hret|]; intros x ? ? [-> Hx]; split; [done|]; intros c Hc; by rewrite (Hx c Hc)).
  destruct (rp_is_system_triggered p) eqn:Es;
    [eapply wp_mono; [apply Hret|]; intros x ? ? [-> Hx]; split; [done|]; intros c Hc; by rewrite (Hx c Hc)|].
  apply wp_bind, wp_access. intros w' _. simpl. rewrite app_nil_r. split; [done|]. apply wp_ret. split; [done|]. intros c [= <-].
  by destruct (rd_needs_bootstrap _ _).
Qed.

Lemma runtime_setup_fits name wt cfg llm summary :
  evaluate_pre_flight_token_budget mode cfg llm = Ok tt → (rp_is_system_triggered p = true → ac_posture cfg ≠ Guarded) →
  setup_fits (runtime_setup is_full_os_access_agent project_root has_workspace_dir p name wt cfg llm summary).
Proof.
  intros He Hp. split; try done. simpl. unfold sandbox_root. destruct name as [n|]; [|by destruct wt].
  destruct (is_full_os_access_agent n) eqn:En; [by exists n|by destruct wt].
Qed.

Lemma called_started job name wt cfg llm w tr :
  agent_calls tr = [] → Marked (Start (Some (build_resolved_config cfg llm))) (Ok true) ∈ tr →
  evaluate_pre_flight_token_budget mode cfg llm = Ok tt → (rp_is_system_triggered p = true → ac_posture cfg ≠ Guarded) →
  wp anything (run_started ts_string json_from_str env agent_by_id is_full_os_access_agent project_root has_workspace_dir p job name wt cfg llm)
    (λ _ _ t', called_well t') w tr.
Proof.
  intros E Hm He Hp. apply wp_bind, wp_publish. intros w1. split; [by left|]. intros now.
  set (t1 := tr ++ _). assert (agent_calls t1 = []) as E1 by (unfold t1, agent_calls in *; by rewrite omap_app, E).
  assert (∀ summary, start_told (runtime_setup is_full_os_access_agent project_root has_workspace_dir p name wt cfg llm summary) t1) as Hst.
  { intros summary. split; [set_solver|]. exists now. set_solver. }
  apply uncalled_step; [silents| |done]. intros _ w2 t2 Hp2 E2. apply uncalled_step; [silents| |done]. intros summary w3 t3 Hp3 E3.
  destruct (runtime_new cfg llm); [|apply uncalled_rest; [|done]; unfold runtime_failed; silents].
  apply wp_bind. eapply wp_mono.
  - apply called_loop; [done|do 2 (eapply start_told_grows; [eassumption|]); apply Hst|by apply runtime_setup_fits].
  - intros [r|] w4 t4 H4; [|done]. apply called_rest; [|done].
    apply silent_bind; [|intros _; silents]. destruct r as [out|[]]; simpl; unfold run_completed, run_was_cancelled, run_has_failed; silents.
Qed.

Lemma called_turn w tr :
  agent_calls tr = [] →
  wp anything (run_turn ts_string json_from_str env mode agent_by_id is_full_os_access_agent project_root has_workspace_dir bootstrap_prompt p)
    (λ _ _ t', called_well t') w tr.
Proof.
  intros E. unfold run_turn.
  apply uncalled_step; [unfold run_of; silents| |done]. intros run w1 t1 _ E1.
  apply uncalled_step; [silents| |done]. intros [[]|e] w2 t2 _ E2; [|apply uncalled_rest; [|done]; unfold claim_failed; silents].
  apply uncalled_step; [silents| |done]. intros [|] w3 t3 _ E3.
  { apply uncalled_rest; [|done]. unfold cancelled_before_start, drop_cancel_token, drop_senders. silents. }
  apply uncalled_step; [silents| |done]. intros [r|e] w4 t4 _ E4; [|apply uncalled_rest; [|done]; unfold config_failed; silents].
  destruct (evaluate_pre_flight_token_budget _ _ _) as [[]|e] eqn:He; [|apply uncalled_rest; [|done]; unfold budget_rejected; silents].
  apply wp_bind. eapply wp_mono; [by apply adjusted|]. intros [cfg|] w5 t5 [-> Hcfg]; [|by left].
  destruct (Hcfg cfg eq_refl) as [He' Hp]. apply wp_bind, wp_mark. intros w6. split; [by left|]. intros [[]|e].
  - apply called_started; [unfold agent_calls in *; by rewrite omap_app, E4|set_solver|done..].
  - apply uncalled_rest; [|unfold agent_calls in *; by rewrite omap_app, E4]. unfold start_rejected, drop_cancel_token, drop_senders, clear_approvals. silents.
  - apply uncalled_rest; [|unfold agent_calls in *; by rewrite omap_app, E4]. unfold start_refused, drop_cancel_token, drop_senders, clear_approvals. silents.
Qed.
End calls.

(** ** What the peer of a direct message is told *)

(** A word about a conversation: both names and the peer's id, and what the bus
    said to it; or that the conversation was left alone. *)
Inductive DmSignal :=
| SignalEnd (name peer : string) (id : AgentId) (reason : ConversationEndReason) (answer : Result unit SendError)
| SignalSent (name peer : string) (id : AgentId) (reply : string) (answer : Result DeliveryReceipt SendError)
| SignalSkip.

Definition dm_signal (x : Output) : option DmSignal :=
  match x with
  | BusEnded name peer id reason a => Some (SignalEnd name peer id reason a)
  | BusSent name peer id reply a => Some (SignalSent name peer id reply a)
  | PeerSkipped => Some SignalSkip
  | _ => None
  end.
Definition dm_signals (o : list Output) := omap dm_signal o.

#[local] Instance dm_signal_aside : Aside dm_signal.
Proof. by split. Qed.
#[local] Instance dm_signal_life : NoLife dm_signal.
Proof. by split. Qed.
#[local] Instance dm_signal_call : NoCall dm_signal.
Proof. done. Qed.

Section told.
Context (p : RunParams).

(** The reply is the answer the run's record holds. *)
Definition stored_reply (reply : string) (o : list Output) : Prop :=
  ∃ out usage reasoning, Marked (Complete out usage) (Ok true) ∈ o ∧ deliverable_dm_reply out reasoning = Some reply.

(** Both sides of the conversation, as the registry named them. *)
Definition sides (name peer : string) (id : AgentId) (o : list Output) : Prop :=
  NameRead (Some name) ∈ o ∧ dm_peer (rp_context_id p) name = Some peer ∧ PeerRead peer (Some id) ∈ o.

(** Why a conversation may be left alone: the registry does not know the agent or
    its peer, or the context is of no peer of its. *)
Inductive side_unknown (o : list Output) : Prop :=
| agent_unknown : NameRead None ∈ o → side_unknown o
| context_of_others name : NameRead (Some name) ∈ o → dm_peer (rp_context_id p) name = None → side_unknown o
| peer_unknown name peer :
    NameRead (Some name) ∈ o → dm_peer (rp_context_id p) name = Some peer → PeerRead peer None ∈ o → side_unknown o.

(** The end of the conversation brought to the bus; the bus carries it out or
    refuses it, which the code only logs. *)
Definition ends (reason_ok : ConversationEndReason → Prop) (g : DmSignal) (o : list Output) : Prop :=
  ∃ name peer id reason a, g = SignalEnd name peer id reason a ∧ sides name peer id o ∧ reason_ok reason.
Definition left_alone (g : DmSignal) (o : list Output) : Prop := g = SignalSkip ∧ side_unknown o.

Inductive outcome_on_bus (o : list Output) : Prop :=
| outcome_ended g : dm_signals o = [g] → ends (λ _, True) g o → outcome_on_bus o
| outcome_replied name peer id reply a :
    dm_signals o = [SignalSent name peer id reply a] → sides name peer id o → stored_reply reply o →
    is_ok a = true ∨ a = Err SendDepthExceeded → outcome_on_bus o
| outcome_undeliverable name peer id reply e g :
    dm_signals o = [SignalSent name peer id reply (Err e); g] → sides name peer id o → stored_reply reply o → e ≠ SendDepthExceeded →
    ends (λ r, ∃ m, r = Errored m false) g o ∨ left_alone g o → outcome_on_bus o
| outcome_skipped g : dm_signals o = [g] → left_alone g o → outcome_on_bus o.

Definition conversation_settled (o : list Output) : Prop := if is_peer_dm p then outcome_on_bus o else dm_signals o = [].

Lemma sides_grows name peer id t t' : t `prefix_of` t' → sides name peer id t → sides name peer id t'.
Proof. intros [o ->] (? & ? & ?). split_and!; [set_solver|done|set_solver]. Qed.

Lemma ends_grows P g t t' : t `prefix_of` t' → ends P g t → ends P g t'.
Proof. intros Hp (name & peer & id & reason & a & -> & Hs & Hr). do 5 eexists. split_and!; [done|by eapply sides_grows|done]. Qed.

Lemma left_alone_grows g t t' : t `prefix_of` t' → left_alone g t → left_alone g t'.
Proof. intros [o ->] [-> H]. split; [done|]. destruct H; [apply agent_unknown|eapply context_of_others|eapply peer_unknown]; eauto; set_solver. Qed.

Lemma stored_grows reply t t' : t `prefix_of` t' → stored_reply reply t → stored_reply reply t'.
Proof. intros [o ->] (x & u & y & Hin & Hd). exists x, u, y. split; [set_solver|done]. Qed.

#[local] Hint Resolve sides_grows ends_grows left_alone_grows stored_grows : told.

(** On what returned. *)
Definition returned {A} (P : A → list Output → Prop) (r : option A) (_ : W) (t : list Output) : Prop :=
  match r with Some a => P a t | None => True end.

Lemma returned_silent {A B} (m : Exec W Output A) (k : A → Exec W Output B) P w t :
  silent dm_signal m →
  (∀ a w t', t `prefix_of` t' → dm_signals t' = dm_signals t → wp anything (k a) (returned P) w t') →
  wp anything (m ≫= k) (returned P) w t.
Proof.
  intros Hm Hk. apply wp_bind, wp_grows. eapply wp_silent; [exact Hm|]. intros [a|] w' t' E Hp; [by apply Hk|done].
Qed.

Lemma conversation_settled_grows t t' :
  t `prefix_of` t' → dm_signals t' = dm_signals t → conversation_settled t → conversation_settled t'.
Proof.
  intros Hp E. unfold conversation_settled. destruct (is_peer_dm p); [|congruence].
  intros [g Eg Hg|name peer id reply a Eg Hs Hst Ha|name peer id reply e g Eg Hs Hst He Hg|g Eg Hg]; rewrite <-E in Eg;
    [eapply outcome_ended|eapply outcome_replied|eapply outcome_undeliverable|eapply outcome_skipped]; eauto with told.
  destruct Hg; eauto with told.
Qed.

Lemma settled_after {A} (m : Exec W Output A) w t :
  silent dm_signal m → conversation_settled t → wp anything m (returned (λ _, conversation_settled)) w t.
Proof.
  intros Hm Ht. apply wp_grows. eapply wp_silent; [exact Hm|]. intros [a|] w' t' E Hp; [|done]. by eapply conversation_settled_grows.
Qed.

(** The lookup of both sides, for an agent under the name the registry gave. *)
Definition found_pair (t : list Output) (pair : option (string * string * AgentId)) (t' : list Output) : Prop :=
  t `prefix_of` t' ∧
  match pair with
  | Some (nm, peer, id) => dm_signals t' = dm_signals t ∧ sides nm peer id t'
  | None => dm_signals t' = dm_signals t ++ [SignalSkip] ∧ side_unknown t'
  end.

Lemma pair_signals name w t :
  NameRead name ∈ t → wp anything (find_dm_pair p name : Exec W Output _) (returned (found_pair t)) w t.
Proof.
  intros Hn.
  assert (∀ w' t1, t `prefix_of` t1 → dm_signals t1 = dm_signals t → side_unknown t1 →
    wp anything (_ ← put_out PeerSkipped; mret None : Exec W Output (option (string * string * AgentId))) (returned (found_pair t)) w' t1) as Hskip.
  { intros w' t1 Hp E Hu. apply wp_bind, wp_access. intros w2 _. split; [done|]. apply wp_ret. split; [by apply prefix_app_r|].
    split; [unfold dm_signals in *; by rewrite omap_app, E|]. eapply (left_alone_grows SignalSkip); [|by split]. by eexists. }
  unfold find_dm_pair. destruct name as [name|]; [|apply Hskip; [done|done|by apply agent_unknown]].
  destruct (extract_peer_from_dm_context _ _) as [peer|] eqn:Ep; [|apply Hskip; [done|done|by eapply context_of_others]].
  apply wp_bind, wp_access. intros w' _. split; [done|]. simpl. set (t1 := t ++ _).
  assert (t `prefix_of` t1) as Hp by by eexists. assert (dm_signals t1 = dm_signals t) as E by (unfold t1, dm_signals; by rewrite omap_app, app_nil_r).
  destruct (agent_named _ _) as [id|].
  - apply wp_ret. split; [done|]. split; [done|]. split_and!; [set_solver|done|set_solver].
  - apply Hskip; [done|done|]. eapply peer_unknown; [|exact Ep|]; set_solver.
Qed.

Lemma end_signals {B} name peer id reason (k : Result unit SendError → Exec W Output B) P w t :
  (∀ r w t', t `prefix_of` t' → dm_signals t' = dm_signals t ++ [SignalEnd name peer id reason r] → wp anything (k r) (returned P) w t') →
  wp anything (end_on_bus p name peer id reason ≫= k) (returned P) w t.
Proof.
  intros Hk. apply wp_bind, wp_access. intros w' _. split; [done|]. destruct (end_conversation _ _ _ _ _ _ _) as [r b]. simpl.
  apply Hk; [by eexists|]. unfold dm_signals. by rewrite omap_app.
Qed.

(** One signal to the peer. *)
Lemma failure_signals name reason w t :
  NameRead name ∈ t →
  wp anything (handle_dm_run_failure ts_string p name reason : Exec W Output _)
    (returned (λ _ t', t `prefix_of` t' ∧
       if is_peer_dm p then ∃ g, dm_signals t' = dm_signals t ++ [g] ∧ (ends (λ r, r = reason) g t' ∨ left_alone g t')
       else dm_signals t' = dm_signals t)) w t.
Proof.
  intros Hn. unfold handle_dm_run_failure. destruct (is_peer_dm p); simpl; [|by apply wp_ret].
  apply wp_bind. eapply wp_mono; [by apply pair_signals|]. intros [[[[nm peer] id]|]|] w' t' H; [| |done].
  2: { apply wp_ret. destruct H as (Hp & E & Hu). split; [done|]. exists SignalSkip. split; [done|right; by split]. }
  destruct H as (Hp & E & Hs). apply end_signals. intros r w2 t2 Hp2 E2. rewrite E in E2.
  assert (∀ t3, t2 `prefix_of` t3 → dm_signals t3 = dm_signals t2 → t `prefix_of` t3 ∧
    ∃ g, dm_signals t3 = dm_signals t ++ [g] ∧ (ends (λ r, r = reason) g t3 ∨ left_alone g t3)) as Hend.
  { intros t3 Hp3 E3. split; [by do 2 (etrans; [eassumption|])|]. eexists. split; [by rewrite E3|]. left. do 5 eexists. split_and!; [done| |done].
    eapply sides_grows; [|exact Hs]. by etrans. }
  destruct r as [[]|e]; [|apply wp_ret; by apply Hend].
  apply returned_silent; [unfold announce_dm_end; silents|]. intros _ w3 t3 Hp3 E3. apply wp_ret. by apply Hend.
Qed.

Lemma failure_settles name reason w t :
  dm_signals t = [] → NameRead name ∈ t →
  wp anything (handle_dm_run_failure ts_string p name reason : Exec W Output _) (returned (λ _, conversation_settled)) w t.
Proof.
  intros E Hn. eapply wp_mono; [by apply failure_signals|]. unfold conversation_settled. rewrite E. intros [r|] w' t' H; [|done]. simpl in *.
  destruct H as [_ H]. destruct (is_peer_dm p); [|done]. destruct H as (g & Eg & [Hg|Hg]); [|by eapply outcome_skipped].
  apply (outcome_ended _ g); [done|]. destruct Hg as (nm & peer & id & re & a & -> & Hs & _). by exists nm, peer, id, re, a.
Qed.

Lemma completion_settles name out w t :
  dm_signals t = [] → NameRead name ∈ t → Marked (Complete (ro_response out) (ro_usage out)) (Ok true) ∈ t →
  wp anything (handle_dm_run_completion ts_string p name out : Exec W Output _) (returned (λ _, conversation_settled)) w t.
Proof.
  intros E Hn Hm. unfold handle_dm_run_completion, conversation_settled. destruct (is_peer_dm p) eqn:Ep; simpl; [|by apply wp_ret].
  assert (∀ reason w, wp anything (_ ← handle_dm_run_failure ts_string p name reason; mret ErroredExit : Exec W Output DmRunExit)
    (returned (λ _, outcome_on_bus)) w t) as Hend.
  { intros reason w'. apply wp_bind. eapply wp_mono; [apply (failure_settles name reason w' t E Hn)|]. unfold conversation_settled. rewrite Ep.
    intros [r|] w2 t2 H; [|done]. by apply wp_ret. }
  destruct (should_signal_dm_end _ _ _).
  - unfold signal_dm_end_on_completion. apply wp_bind. eapply wp_mono; [by apply pair_signals|].
    intros [[[[nm peer] id]|]|] w' t' H; [| |done]; destruct H as (Hp & E1 & Hs); rewrite E in E1;
      [|apply wp_ret; by eapply outcome_skipped].
    apply end_signals. intros r w2 t2 Hp2 E2. rewrite E1 in E2.
    assert (∀ t3, t2 `prefix_of` t3 → dm_signals t3 = dm_signals t2 → outcome_on_bus t3) as Hig.
    { intros t3 Hp3 E3. eapply outcome_ended; [by rewrite E3|]. do 5 eexists. split_and!; [done| |done]. eapply sides_grows; [|exact Hs]. by etrans. }
    destruct r as [[]|e]; [|apply wp_ret; by apply Hig].
    apply returned_silent; [unfold announce_dm_end; silents|]. intros _ w3 t3 Hp3 E3. apply wp_ret. by apply Hig.
  - destruct (deliverable_dm_reply _ _) as [reply|] eqn:Ed; [|apply Hend].
    assert (stored_reply reply t) as Hst by (by exists (ro_response out), (ro_usage out), (ro_reasoning out)).
    unfold deliver_implicit_reply. apply wp_bind. eapply wp_mono; [by apply pair_signals|].
    intros [[[[nm peer] id]|]|] w' t' H; [| |done]; destruct H as (Hp1 & E1 & Hs); rewrite E in E1;
      [|apply wp_ret; by eapply outcome_skipped].
    apply (stored_grows _ _ _ Hp1) in Hst.
    apply wp_bind, wp_access. intros w2 _. split; [done|]. destruct (MessageBus.send _ _ _ _ _ _ _ _) as [r b]. simpl.
    set (t2 := t' ++ _). assert (dm_signals t2 = [SignalSent nm peer id reply r]) as E2 by (unfold t2, dm_signals in *; by rewrite omap_app, E1).
    assert (t' `prefix_of` t2) as Hp2 by by eexists. apply (stored_grows _ _ _ Hp2) in Hst. apply (sides_grows _ _ _ _ _ Hp2) in Hs.
    assert (NameRead name ∈ t2) as Hn2 by (destruct Hp1 as [o1 ->]; unfold t2; set_solver).
    destruct r as [receipt|e]; [apply wp_ret; eapply outcome_replied; eauto|].
    assert (e = SendDepthExceeded ∨ e ≠ SendDepthExceeded) as [->|He] by (destruct e; auto); [apply wp_ret; eapply outcome_replied; eauto|].
    assert (∀ m w, wp anything (_ ← handle_dm_run_failure ts_string p name (Errored m false); mret ErroredExit : Exec W Output DmRunExit)
      (returned (λ _, outcome_on_bus)) w t2) as Hfault; [|by destruct e; try apply Hfault].
    intros m w3.
    apply wp_bind. eapply wp_mono; [by apply failure_signals|]. rewrite Ep, E2. intros [r|] w4 t3 H; [|done].
    destruct H as (Hp3 & g & Eg & Hg). apply wp_ret. eapply outcome_undeliverable; [exact Eg|by eapply sides_grows|by eapply stored_grows|done|].
    destruct Hg as [(? & ? & ? & ? & ? & ? & ? & ->)|Hg]; [left|by right]. do 5 eexists. split_and!; [done|done|by eexists].
Qed.

(** ** The exits *)

(** The name a handler goes by is the registry's, where it has one already. *)
Definition knows (k : option (option string)) (t : list Output) : Prop := match k with Some name => NameRead name ∈ t | None => True end.

Lemma knows_grows k t t' : t `prefix_of` t' → knows k t → knows k t'.
Proof. intros [o ->]. destruct k; simpl; [set_solver|done]. Qed.

(** A conversation without a word so far gets its outcome. *)
Definition settles (k : option (option string)) (m : Exec W Output ()) : Prop := ∀ w t,
  dm_signals t = [] → knows k t → wp anything m (returned (λ _, conversation_settled)) w t.

Lemma settles_silent {A} k (m : Exec W Output A) (f : A → Exec W Output ()) :
  silent dm_signal m → (∀ a, settles k (f a)) → settles k (m ≫= f).
Proof.
  intros Hm Hf w t E Hk. apply returned_silent; [done|]. intros a w' t' Hp E'. apply Hf; [congruence|by eapply knows_grows].
Qed.

Lemma settles_then {A} k (m : Exec W Output A) (f : A → Exec W Output ()) :
  (∀ w t, dm_signals t = [] → knows k t → wp anything m (returned (λ _, conversation_settled)) w t) → (∀ a, silent dm_signal (f a)) →
  settles k (m ≫= f).
Proof.
  intros Hm Hf w t E Hk. apply wp_bind. eapply wp_mono; [by apply Hm|]. intros [a|] w' t' H; [|done]. by apply settled_after.
Qed.

Lemma settles_failure name reason : settles (Some name) (_ ← handle_dm_run_failure ts_string p name reason; mret ()).
Proof. apply settles_then; [intros w t; apply failure_settles|]. intros; silents. Qed.

(** A missing name is looked up. *)
Lemma settles_outcome k name reason :
  k = Some name ∨ name = None → settles k (notify_dm_peer_of_setup_outcome ts_string agent_by_id p name reason).
Proof.
  intros Hk w t E Hn. unfold notify_dm_peer_of_setup_outcome. destruct (is_peer_dm p) eqn:Ep; simpl.
  2: { apply wp_ret. simpl. unfold conversation_settled. by rewrite Ep. }
  destruct name as [name|].
  - destruct Hk as [->|[=]]. apply wp_bind, wp_ret. by apply settles_failure.
  - apply wp_bind, wp_access. intros w' _. split; [done|]. apply settles_failure; [unfold dm_signals in *; by rewrite omap_app, E|].
    simpl. set_solver.
Qed.

Lemma settles_cancellation k name b :
  k = Some name ∨ name = None → settles k (notify_dm_peer_of_setup_cancellation ts_string agent_by_id p name b).
Proof. intros Hk. apply settles_silent; [silents|]. intros reason. by apply settles_outcome. Qed.

Lemma settles_lost k name b (lost : option string) :
  k = Some name ∨ name = None →
  settles k (match lost with
             | Some message => notify_dm_peer_of_setup_failure ts_string agent_by_id p name message
             | None => notify_dm_peer_of_setup_cancellation ts_string agent_by_id p name b
             end).
Proof. intros Hk. destruct lost; [by apply settles_outcome|by apply settles_cancellation]. Qed.

Lemma settles_cancelled name : settles (Some name) (run_was_cancelled ts_string p name).
Proof.
  apply settles_silent; [silents|]. intros [b refused]. apply settles_silent; [silents|]. intros lost.
  apply settles_silent; [silents|]. intros reason. apply settles_failure.
Qed.

Lemma settles_failed name e : settles (Some name) (run_has_failed ts_string p name e).
Proof. apply settles_silent; [silents|]. intros m. apply settles_failure. Qed.

Lemma settles_completed name request out : settles (Some name) (run_completed ts_string p name request out).
Proof.
  apply settles_silent; [silents|]. intros _. apply settles_silent; [silents|]. intros _. intros w t E Hk.
  apply wp_bind, wp_mark. intros w'. split; [done|]. intros r. set (t1 := t ++ _).
  assert (dm_signals t1 = []) as E1 by (unfold t1, dm_signals in *; by rewrite omap_app, E).
  assert (knows (Some name) t1) as Hk1 by (eapply knows_grows; [by eexists|exact Hk]).
  assert (∀ refused, settles (Some name) (lost ← lifecycle_persistence_error_for_peer p refused;
    _ ← handle_dm_run_failure ts_string p name (match lost with Some message => Errored message true | None => UserCancelled end); mret ())) as Hlost.
  { intros refused. apply settles_silent; [silents|]. intros lost. apply settles_failure. }
  destruct r as [[]|e].
  - apply wp_bind, wp_ret. cbv beta iota. apply returned_silent; [silents|]. intros _ w2 t2 Hp2 E2. apply returned_silent; [silents|]. intros _ w3 t3 Hp3 E3.
    assert (t1 `prefix_of` t3) as Hp by by etrans.
    apply wp_bind. eapply wp_mono; [apply (completion_settles name out)|].
    + congruence.
    + by eapply (knows_grows (Some name)).
    + destruct Hp as [o ->]. unfold t1. set_solver.
    + intros [x|] w4 t4 H; [|done]. by apply wp_ret.
  - apply wp_bind, wp_ret. by apply Hlost.
  - apply wp_bind, wp_bind, wp_grows. eapply wp_silent; [apply (silent_run_failed dm_signal)|]. intros [[]|] w2 t2 E2 Hp2; [|done].
    apply wp_ret. apply Hlost; [unfold dm_signals in *; congruence|by eapply knows_grows].
Qed.

Lemma settles_result name request r : settles (Some name) (settle_result ts_string p name request r).
Proof.
  destruct r as [out|e]; [apply settles_completed|]. destruct e; simpl; try apply settles_failed; try apply settles_cancelled;
    (apply settles_silent; [silents|]; intros _); [apply settles_cancelled|apply settles_failed].
Qed.

Lemma settles_exit k name message (rest : Exec W Output ()) :
  k = Some name ∨ name = None → silent dm_signal rest →
  settles k (_ ← notify_dm_peer_of_setup_failure ts_string agent_by_id p name message; rest).
Proof. intros Hk Hr. apply settles_then; [intros w t; by apply settles_outcome|by intros _]. Qed.

(** One access at a time up to the word to the peer. *)
Ltac before_word := repeat (apply settles_silent; [solve [silents]|intros ?]).

Lemma settles_budget job name e : settles (Some name) (budget_rejected ts_string json_from_str agent_by_id p job name e).
Proof. unfold budget_rejected. before_word. apply settles_exit; [by left|]. silents. Qed.

Lemma settles_started job name wt cfg llm :
  settles (Some name) (run_started ts_string json_from_str env agent_by_id is_full_os_access_agent project_root has_workspace_dir p job name wt cfg llm).
Proof.
  unfold run_started. before_word. destruct (runtime_new cfg llm).
  - apply settles_silent; [silents|]. intros r. apply settles_then; [intros w t; apply settles_result|]. intros _. silents.
  - unfold runtime_failed. before_word. apply settles_exit; [by left|]. silents.
Qed.

Lemma settles_claim (k : Result unit AlmsError → Exec W Output ()) :
  settles None (k (Ok tt)) → (∀ e, rp_input_pre_persisted p = true → settles None (k (Err e))) → settles None (claim_input p ≫= k).
Proof.
  intros Ho He. unfold claim_input. destruct (rp_input_pre_persisted p).
  - apply settles_silent; [apply silent_access; intros w; by destruct (claim_pending_input _ _ _ _)|]. intros [[]|e]; [done|by apply He].
  - intros w t E Hk. apply wp_bind, wp_ret. by apply Ho.
Qed.

(** The configuration comes with the name the registry has. *)
Lemma settles_resolve (k : Result ResolvedAgentConfig MissingModel → Exec W Output ()) :
  (∀ r, settles (Some (ra_agent_name r)) (k (Ok r))) → (∀ e, settles None (k (Err e))) → settles None (resolve_config env agent_by_id p ≫= k).
Proof.
  intros Ho He w t E _. apply wp_bind, wp_bind, wp_access. intros w1 _. split; [done|]. simpl. rewrite app_nil_r.
  apply wp_bind, wp_access. intros w2 _. split; [done|]. simpl. rewrite app_nil_r. apply wp_access. intros w3 _. split; [done|]. simpl.
  destruct (resolve_agent_config _ _ _ _ _) as [r|e] eqn:Er.
  - apply Ho; [unfold dm_signals in *; by rewrite omap_app, E|]. simpl. apply resolved_name in Er. rewrite Er. set_solver.
  - apply He; [unfold dm_signals in *; by rewrite omap_app, E|done].
Qed.

Lemma settles_turn :
  (rp_input_pre_persisted p = true → is_peer_dm p = false) →
  settles None (run_turn ts_string json_from_str env mode agent_by_id is_full_os_access_agent project_root has_workspace_dir bootstrap_prompt p).
Proof.
  intros Hpre. apply settles_silent; [unfold run_of; silents|]. intros run. apply settles_claim.
  2: { intros e He w t E _. apply settled_after; [unfold claim_failed; silents|]. unfold conversation_settled. by rewrite (Hpre He). }
  apply settles_silent; [silents|]. intros [|].
  { unfold cancelled_before_start, drop_cancel_token, drop_senders. apply settles_silent; [silents|]. intros [b refused]. before_word.
    apply settles_then; [intros w t; apply settles_lost; by right|]. intros _. silents. }
  apply settles_resolve; [intros r|intros e; unfold config_failed; before_word; apply settles_exit; [by right|silents]].
  destruct (evaluate_pre_flight_token_budget _ _ _) as [[]|e]; [|apply settles_budget].
  apply settles_silent; [silents|]. intros cfg. apply settles_silent; [silents|]. intros [[]|e]; [apply settles_started| |].
  - unfold start_rejected, drop_cancel_token, drop_senders, clear_approvals. before_word.
    apply settles_then; [intros w t; apply settles_lost; by left|]. intros _. silents.
  - unfold start_refused, drop_cancel_token, drop_senders, clear_approvals. before_word. apply settles_exit; [by left|]. silents.
Qed.

(** ** The whole execution *)

Lemma wp_execution (Q : option () → W → list Output → Prop) w :
  (∀ w', wp anything (run_turn ts_string json_from_str env mode agent_by_id is_full_os_access_agent project_root has_workspace_dir bootstrap_prompt p)
           (λ r _ t', ∀ w'', Q r w'' t') w' []) →
  (∀ w', Q None w' []) →
  wp anything (execute_run ts_string json_from_str env mode agent_by_id is_full_os_access_agent project_root has_workspace_dir bootstrap_prompt p)
    Q w [].
Proof.
  intros Ht Hn. apply wp_bind, wp_access. intros w' _. split; [apply Hn|]. apply wp_guarded. eapply wp_mono; [apply Ht|].
  intros r w2 t2 H w3 _. apply H.
Qed.
End told.

(** ** The panic boundary *)

(** A word to the bus. *)
Definition bus_word (x : Output) : option () := match x with BusEnded _ _ _ _ _ | BusSent _ _ _ _ _ => Some () | _ => None end.

#[local] Instance bus_word_aside : Aside bus_word.
Proof. by split. Qed.
#[local] Instance bus_word_life : NoLife bus_word.
Proof. by split. Qed.

Lemma reconcile_says_nothing p job : silent bus_word (reconcile_panic ts_string json_from_str p job : Exec W Output ()).
Proof.
  assert (∀ reason, silent bus_word (handle_dm_run_failure ts_string p None reason : Exec W Output (Result unit AlmsError))) as Hf.
  { intros reason w t. unfold handle_dm_run_failure. destruct (is_peer_dm p); [|by apply wp_ret].
    apply wp_bind, wp_bind, wp_access. intros w' _. split; [done|]. apply wp_ret. cbv beta iota. apply wp_ret.
    simpl. by rewrite omap_app, app_nil_r. }
  unfold reconcile_panic, drop_senders, purge_senders, drop_cancel_token, clear_approvals. silents.
Qed.
End run.
