(* ===== verification/RunSettles.v ===== *)
(** What a run's turn leaves behind: lemmas on the states of [RunExec.v].

    The other tasks may end the run, as the cancel handlers do, but neither
    start it nor take it back, and none hands it a token or an approval: that is
    [rely].  Every access of the turn but the start stays within it, so whatever
    holds of a state and is [stable] is kept. *)
From S2P Require Import Prelude FsPath Ident Lifecycle Json Budget Run EventLog EventFeed Session Errors MessageBus JobEpisode Episodic ContextBuild RunManager RunControl JobStore Scheduler Notify JobEngine RuntimeTypes LlmClient RunConfig Settings Exec RunExec.

Create HintDb steady.

Section settles.
Context `{U : UuidCrate} `{CH : ChronoCrate} `{CR : CronCrate} `{M : MinHeap}.
Context {Js Rs Ss : Type} `{JT : JobTable Js} `{RS : RunStore Rs} `{DB : SqliteStore Ss}.
Context (ts_string : Z → string) (json_from_str : string → option json).
Context (env : string → option string) (mode : ValidationMode) (agent_by_id : AgentId → Ss → Result (option AgentRecord) AlmsError)
        (is_full_os_access_agent : string → bool) (project_root : list Component) (has_workspace_dir : bool)
        (bootstrap_prompt : string).
Abbreviation W := (World Js Rs Ss).
Context `{AR : AgentRuntime W}.
Context (p : RunParams).
Implicit Types (w : W).

Definition run_at w : option Run := rm_runs (runs_of w) !! rp_run_id p.
Definition token_at w : option Z := rm_tokens (runs_of w) !! rp_run_id p.

(** ** What the others may do *)

Definition run_rely (o o' : option Run) : Prop :=
  match o with
  | None => o' = None
  | Some r => run_wf r → ∃ r', o' = Some r' ∧ run_wf r' ∧ (run_status r' = run_status r ∨ run_is_terminal (run_status r') = true)
  end.

(** The agent asks for approvals while it runs. *)
Definition agent_rely w w' : Prop := run_rely (run_at w) (run_at w') ∧ (token_at w = None → token_at w' = None).

Definition no_approval w : Prop := clear_for_run (rp_run_id p) (wd_approvals w) = wd_approvals w.

Definition rely w w' : Prop := agent_rely w w' ∧ (no_approval w → no_approval w').

(** ** States *)

Definition well_formed w : Prop := match run_at w with Some r => run_wf r | None => True end.
(** The run is unknown or well formed, and in one of these states or over. *)
Definition within (l : list RunStatus) w : Prop :=
  match run_at w with Some r => run_wf r ∧ (run_status r ∈ l ∨ run_is_terminal (run_status r) = true) | None => True end.
Definition over : W → Prop := within [].
Definition no_token w : Prop := token_at w = None.

Definition settled_state w : Prop := over w ∧ no_token w ∧ no_approval w.

Definition stable (P : W → Prop) : Prop := ∀ w w', rely w w' → P w → P w'.
Definition agent_stable (P : W → Prop) : Prop := ∀ w w', agent_rely w w' → P w → P w'.

Lemma agent_stable_stable P : agent_stable P → stable P.
Proof. intros H w w' [Hr _]. by apply H. Qed.

Lemma within_agent_stable l : agent_stable (within l).
Proof.
  intros w w' [Hr _]. unfold within, run_rely in *. destruct (run_at w) as [r|]; [|by rewrite Hr].
  intros [Hwf Hs]. destruct (Hr Hwf) as (r' & -> & Hwf' & Hs'). split; [done|]. destruct Hs' as [->|?]; [done|by right].
Qed.

Lemma well_formed_stable : stable well_formed.
Proof.
  intros w w' [[Hr _] _]. unfold well_formed, run_rely in *. destruct (run_at w) as [r|]; [|by rewrite Hr].
  intros Hwf. by destruct (Hr Hwf) as (r' & -> & ? & _).
Qed.

Lemma within_stable l : stable (within l).
Proof. apply agent_stable_stable, within_agent_stable. Qed.
Lemma no_token_stable : stable no_token.
Proof. intros w w' [[_ H] _]. apply H. Qed.
Lemma no_approval_stable : stable no_approval.
Proof. by intros w w' [_ H]. Qed.
Lemma stable_and P Q : stable P → stable Q → stable (λ w, P w ∧ Q w).
Proof. intros HP HQ w w' Hr [? ?]. split; eauto. Qed.
Lemma settled_stable : stable settled_state.
Proof. repeat apply stable_and; [apply within_stable|apply no_token_stable|apply no_approval_stable]. Qed.

Lemma within_wf l w : within l w → well_formed w.
Proof. unfold within, well_formed. destruct (run_at w); [by intros [? _]|done]. Qed.
Lemma over_within l w : over w → within l w.
Proof.
  unfold over, within. destruct (run_at w); [|done]. intros [Hwf [Hin|Ht]]; [by apply not_elem_of_nil in Hin|]. split; [done|by right].
Qed.

(** ** Accesses within the rely *)

Lemma run_rely_refl o : run_rely o o.
Proof. destruct o as [r|]; [|done]. intros ?. exists r. auto. Qed.

Lemma agent_frame w w' :
  rm_runs (runs_of w') = rm_runs (runs_of w) → rm_tokens (runs_of w') = rm_tokens (runs_of w) → agent_rely w w'.
Proof.
  intros H1 H2. unfold agent_rely, run_at, token_at. rewrite H1, H2. split; [apply run_rely_refl|done].
Qed.

Lemma rely_frame w w' :
  rm_runs (runs_of w') = rm_runs (runs_of w) → rm_tokens (runs_of w') = rm_tokens (runs_of w) → wd_approvals w' = wd_approvals w → rely w w'.
Proof. intros H1 H2 H3. split; [by apply agent_frame|]. unfold no_approval. by rewrite H3. Qed.

(** A handler that keeps what is stable, wherever it unwinds. *)
Definition steady {A} (m : Exec W Output A) : Prop := ∀ P, stable P → ∀ w t, P w → wp rely m (λ _ w' _, P w') w t.

Lemma steady_ret {A} (a : A) : steady (mret a).
Proof. intros P _ w t Hp. by apply wp_ret. Qed.
Lemma steady_bind {A B} (m : Exec W Output A) (k : A → Exec W Output B) : steady m → (∀ a, steady (k a)) → steady (m ≫= k).
Proof.
  intros Hm Hk P HP w t Hp. apply wp_bind. eapply wp_mono; [by apply (Hm P)|]. intros [a|] w' t' Hp'; [by apply (Hk a P)|done].
Qed.
Lemma steady_access {A} (f : W → A * W * list Output) : (∀ w, rely w (f w).1.2) → steady (access f).
Proof. intros Hf P HP w t Hp. apply wp_access. intros w' Hr. assert (P w') by (by eapply HP). split; [done|]. by eapply HP. Qed.
Lemma steady_read {A} (f : W → A) : steady (read f).
Proof. apply steady_access. intros w. by apply rely_frame. Qed.
Lemma steady_ask {A} (f : W → A) note : steady (ask f note).
Proof. apply steady_access. intros w. by apply rely_frame. Qed.
Lemma steady_put_out x : steady (put_out x).
Proof. apply steady_access. intros w. by apply rely_frame. Qed.
Lemma steady_write f : (∀ w, rely w (f w)) → steady (write f).
Proof. intros H. apply steady_access, H. Qed.
Lemma steady_when b (m : Exec W Output ()) : steady m → steady (when b m).
Proof. intros Hm. destruct b; [done|apply steady_ret]. Qed.
Lemma steady_for_each {X} (f : X → Exec W Output ()) xs : (∀ x, steady (f x)) → steady (for_each f xs).
Proof. intros Hf. induction xs as [|x xs IH]; [apply steady_ret|]. apply steady_bind; [apply Hf|done]. Qed.

Ltac steady_step :=
  match goal with
  | |- steady (mret _) => apply steady_ret
  | |- steady (read _) => apply steady_read
  | |- steady (ask _ _) => apply steady_ask
  | |- steady (put_out _) => apply steady_put_out
  | |- steady (when _ _) => apply steady_when
  | |- steady (for_each _ _) => apply steady_for_each; intros ?
  | |- steady (_ ≫= _) => apply steady_bind; [|intros ?]
  | |- steady (if ?b then _ else _) => destruct b
  | |- steady (match ?x with _ => _ end) => destruct x
  | |- steady _ => first [solve [auto 1 with steady nocore] | progress cbv zeta]
  end.
Ltac steadies := repeat steady_step; auto with steady.

Lemma steady_session (f : W → SessionManager Ss) : steady (write (λ w, put_sessions_of (f w) w)).
Proof. apply steady_write. intros w. by apply rely_frame. Qed.
Lemma steady_on_sessions {A} (f : W → A * SessionManager Ss) : steady (access (λ w, let '(r, m) := f w in (r, put_sessions_of m w, []))).
Proof. apply steady_access. intros w. destruct (f w) as [r m]. by apply rely_frame. Qed.

Lemma steady_event id sid event : steady (send_run_event id sid event).
Proof. apply steady_access. intros w. apply rely_frame; [..|done]; simpl; by destruct (send_event_control (now_of w) id sid (event (now_of w)) (runs_of w)) as (? & ? & ?). Qed.
Lemma steady_activity event : steady (send_activity p event).
Proof.
  apply steady_access. intros w. apply rely_frame; [..|done]; simpl;
    by edestruct (send_agent_control (now_of w) (rp_agent_id p) (rp_run_id p) (rp_session_id p) (event (now_of w)) (runs_of w)) as (? & ? & ?).
Qed.
Lemma session_event_control now sid id e (m : RunManager Rs) : same_control m (send_session_event now sid id e m).
Proof. unfold send_session_event. by destruct (log_session _ _ _ _ _). Qed.
Lemma steady_news sid id event : steady (send_session_news sid id event).
Proof.
  apply steady_access. intros w. apply rely_frame; [..|done]; simpl;
    by destruct (session_event_control (now_of w) sid (id w) (event (now_of w)) (runs_of w)) as (? & ? & ?).
Qed.
Lemma steady_senders : steady (drop_senders p).
Proof. apply steady_write. intros w. by apply rely_frame. Qed.
Lemma steady_purge : steady purge_senders.
Proof. apply steady_write. intros w. by apply rely_frame. Qed.
Lemma rely_token w : rely w (on_runs (remove_cancel_token (rp_run_id p)) w).
Proof. split; [|done]. split; [apply run_rely_refl|]. intros _. apply lookup_delete_eq. Qed.
Lemma clear_idempotent (s : gmap Uuid PendingApproval) :
  clear_for_run (rp_run_id p) (clear_for_run (rp_run_id p) s) = clear_for_run (rp_run_id p) s.
Proof. unfold clear_for_run. apply map_filter_id. intros i x Hx. by apply map_lookup_filter_Some in Hx as [_ ?]. Qed.
Lemma rely_clear w : rely w (put_approvals (clear_for_run (rp_run_id p) (wd_approvals w)) w).
Proof. split; [by apply agent_frame|]. intros _. apply clear_idempotent. Qed.

(** Closing an episode publishes; it touches no run. *)
Lemma close_write_runs id plan (a : AppState Js Rs Ss) : app_runs (close_write id plan a).1 = app_runs a.
Proof. unfold close_write. by destruct (record_run_with_reason _ _ _ _ _ _). Qed.

Lemma record_retry_runs n id plan (a : AppState Js Rs Ss) : app_runs (record_run_with_retry n id plan a).1 = app_runs a.
Proof.
  revert a. induction n as [|n IH]; intros a; simpl; pose proof (close_write_runs id plan a) as E;
    destruct (close_write id plan a) as [a' [o|e]]; simpl in *; [done..|]. by rewrite IH.
Qed.

Lemma close_finish_runs mono id plan r (a : AppState Js Rs Ss) : app_runs (close_finish mono id plan r a) = app_runs a.
Proof.
  unfold close_finish, rearm_after_failed_close, schedule_job.
  destruct (cp_cron plan), r as [[]|]; repeat case_match; done.
Qed.

Lemma close_episode_control now mono fresh dummy fresh_run ep timed_out (a : AppState Js Rs Ss) :
  same_control (app_runs a) (app_runs (close_episode ts_string now mono fresh dummy fresh_run ep timed_out a)).
Proof.
  unfold close_episode. destruct (close_check _ a) as [job|]; [|done]. unfold record_and_rearm.
  set (a1 := close_notify _ _ _ _ _ _ _ _ _).
  pose proof (record_retry_runs (JOB_REARM_MAX_ATTEMPTS - 1) (ep_job_id ep) (close_plan now job ep timed_out) a1) as E.
  destruct (record_run_with_retry _ _ _ a1) as [a2 r]. rewrite close_finish_runs. simpl in E. rewrite E. unfold a1, close_notify, notify_job_completion.
  destruct (job_card _ _ _ _ _ _ _) as [c|]; [|done]. apply session_event_control.
Qed.

Lemma finish_episode_control now mono fresh dummy fresh_run job id l (a : AppState Js Rs Ss) :
  same_control (app_runs a) (app_runs (finish_episode_run ts_string json_from_str now mono fresh dummy fresh_run job id l a)).
Proof.
  unfold finish_episode_run. destruct job as [job|]; [|done]. destruct (on_run_complete _ _ _ _ _) as [c eps].
  destruct c; try done. apply (close_episode_control _ _ _ _ _ _ _ (put_episodes eps a)).
Qed.

Lemma steady_feed job l : steady (feed_episode ts_string json_from_str p job l).
Proof.
  apply steady_access. intros w. apply rely_frame; [..|done]; simpl;
    by edestruct (finish_episode_control (rd_now (wd_readings w)) (rd_mono (wd_readings w)) (rd_uuid (wd_readings w)) (rd_dummy (wd_readings w))
      (rd_run (wd_readings w)) job (rp_run_id p) l (wd_app w)) as (? & ? & ?).
Qed.
Lemma steady_bus {A} (f : W → A * MessageBus (SessionManager Ss)) (o : A → list Output) :
  steady (access (λ w, let '(r, b) := f w in (r, put_bus b w, o r))).
Proof. apply steady_access. intros w. destruct (f w) as [r b]. by apply rely_frame. Qed.
Lemma steady_token : steady (drop_cancel_token p).
Proof. apply steady_write, rely_token. Qed.
Lemma steady_clear : steady (clear_approvals p).
Proof. apply steady_write, rely_clear. Qed.
Lemma steady_save_calls l : steady (save_calls l).
Proof. apply steady_access. intros w. by apply rely_frame. Qed.
Lemma steady_touch : steady touch_agent.
Proof. apply steady_access. intros w. by apply rely_frame. Qed.

(** ** Transitions *)

Lemma transition_cases now r t :
  run_wf r →
  if run_legal t (run_status r) then ∃ rev, run_transition now r t = (run_effect now r t, Applied (run_status r) (target_status t) rev)
  else (run_transition now r t).1 = r ∧ is_applied (run_transition now r t).2 = false.
Proof.
  intros Hwf. unfold run_transition. rewrite (wf_below_max r Hwf).
  destruct (run_legal t (run_status r)) eqn:Hl.
  - rewrite decide_False by (intros E; destruct t, (run_status r); done). by eexists.
  - destruct (decide _); by simpl.
Qed.

(** What a transition does to the run. *)
Lemma marked now t (m m' : RunManager Rs) r :
  try_mark now (rp_run_id p) t m = (m', r) →
  rm_tokens m' = rm_tokens m ∧
  match rm_runs m !! rp_run_id p with
  | None => rm_runs m' !! rp_run_id p = None ∧ r = Ok false
  | Some run =>
      run_wf run → ∃ run', rm_runs m' !! rp_run_id p = Some run' ∧ run_wf run' ∧
        if run_legal t (run_status run) then
          match r with
          | Ok b => b = true ∧ run_status run' = target_status t
          | Err _ => run_is_terminal (run_status run') = true
          end
        else run' = run ∧ r ≠ Ok true
  end.
Proof.
  unfold try_mark, transition_run. destruct (rm_runs m !! rp_run_id p) as [run|] eqn:Hr; [|intros [= <- <-]; by rewrite Hr].
  destruct (run_transition now run t) as [cand o] eqn:Et.
  destruct (is_applied o) eqn:Ea.
  - assert (match o with Rejected _ _ _ => true | _ => false end = false) as -> by (by destruct o). simpl.
    destruct (persist_run_candidate _ _) as [st|e] eqn:Es.
    + intros [= <- <-]. split; [by destruct o as [? ? ?|? ?|? ? ?]; simpl; try destruct (run_is_terminal _)|]. intros Hwf.
      pose proof (transition_cases now run t Hwf) as Hc. rewrite Et in Hc. destruct (run_legal t (run_status run)) eqn:Hl; [|simpl in Hc; by destruct Hc; congruence].
      destruct Hc as [rev [= -> ->]]. exists (run_effect now run t). simpl. split; [destruct (run_is_terminal _); simpl; by rewrite lookup_insert_eq|].
      split; [by apply run_wf_effect|]. split; [done|]. by destruct t.
    + intros [= <- <-]. split; [done|]. intros Hwf. simpl.
      pose proof (transition_cases now run t Hwf) as Hc. rewrite Et in Hc. destruct (run_legal t (run_status run)) eqn:Hl; [|simpl in Hc; by destruct Hc; congruence].
      destruct (quarantine_end now e run Hwf) as [Hq Hterm]; [by destruct t, (run_status run)|].
      exists (quarantine now e run). by rewrite lookup_insert_eq.
  - assert (∀ m1 : RunManager Rs, rm_runs m1 = rm_runs m → rm_tokens m1 = rm_tokens m → r ≠ Ok true →
      rm_tokens m1 = rm_tokens m ∧ (run_wf run → ∃ run', rm_runs m1 !! rp_run_id p = Some run' ∧ run_wf run' ∧
        if run_legal t (run_status run) then match r with Ok b => b = true ∧ run_status run' = target_status t | Err _ => run_is_terminal (run_status run') = true end
        else run' = run ∧ r ≠ Ok true)) as Hsame.
    { intros m1 E1 E2 Hne. split; [done|]. intros Hwf. exists run. rewrite E1. split; [done|]. split; [done|].
      pose proof (transition_cases now run t Hwf) as Hc. rewrite Et in Hc. destruct (run_legal t (run_status run)); [|done].
      destruct Hc as [rev [= -> ->]]. done. }
    destruct (match o with Rejected _ _ _ => true | _ => false end && _); intros [= <- <-]; apply Hsame; try done; by destruct o.
Qed.

(** A transition but the start ends the run, or finds it over. *)
Definition ending (t : RunTransition) : bool := match t with Start _ => false | _ => true end.
Definition endable (t : RunTransition) : list RunStatus := match t with Complete _ _ => [Running] | _ => [Queued; Running] end.

Lemma wf_within w : well_formed w → within [Queued; Running] w.
Proof. unfold well_formed, within. destruct (run_at w) as [r|]; [|done]. intros Hwf. split; [done|]. destruct (run_status r); simpl; try (by right); left; clear; set_solver. Qed.

Lemma mark_ends now t w m' r :
  ending t = true → try_mark now (rp_run_id p) t (runs_of w) = (m', r) →
  let w' := on_runs (λ _, m') w in rely w w' ∧ (within (endable t) w → over w').
Proof.
  intros Ht Em w'. destruct (marked _ _ _ _ _ Em) as [Etok Hrun]. change (rm_runs (runs_of w) !! rp_run_id p) with (run_at w) in Hrun.
  change (rm_runs m' !! rp_run_id p) with (run_at w') in Hrun. split.
  - split; [|done]. split; [|by unfold token_at; change (runs_of w') with m'; rewrite Etok]. unfold run_rely.
    destruct (run_at w) as [run|]; [|by destruct Hrun].
    intros Hwf. destruct (Hrun Hwf) as (run' & Hr' & Hwf' & Hc). exists run'. split; [done|]. split; [done|].
    destruct (run_legal t (run_status run)); [|left; by destruct Hc as [-> _]]. right.
    destruct r as [b|e]; [|done]. destruct Hc as [_ ->]. by destruct t.
  - unfold over, within. destruct (run_at w) as [run|]; [|by destruct Hrun as [-> _]].
    intros [Hwf Hs]. destruct (Hrun Hwf) as (run' & -> & Hwf' & Hc). split; [done|]. right.
    destruct (run_legal t (run_status run)) eqn:Hl.
    + destruct r as [b|e]; [|done]. destruct Hc as [_ ->]. by destruct t.
    + destruct Hc as [-> _]. destruct Hs as [Hin|]; [|done]. exfalso. clear -Ht Hin Hl. destruct t; simpl in *; destruct (run_status run); set_solver.
Qed.

Lemma wp_mark_ends t (P : W → Prop) w tr :
  ending t = true → stable P → P w → within (endable t) w →
  wp rely (mark p t) (λ r w' _, P w' ∧ match r with Some _ => over w' | None => True end) w tr.
Proof.
  intros Ht HP Hp Hin. apply wp_access. intros w1 Hr. assert (P w1) as Hp1 by (by eapply HP).
  assert (within (endable t) w1) as Hin1 by (by eapply within_stable). split; [done|].
  destruct (try_mark (now_of w1) (rp_run_id p) t (runs_of w1)) as [m' r] eqn:Em. simpl.
  destruct (mark_ends _ _ _ _ _ Ht Em) as [H1 H2]. split; [by eapply HP|by apply H2].
Qed.

Lemma steady_mark t : ending t = true → steady (mark p t).
Proof.
  intros Ht. apply steady_access. intros w. destruct (try_mark (now_of w) (rp_run_id p) t (runs_of w)) as [m' r] eqn:Em. simpl.
  by destruct (mark_ends _ _ _ _ _ Ht Em).
Qed.

#[local] Hint Resolve steady_event steady_activity steady_news steady_senders steady_purge steady_feed steady_token steady_clear
  steady_save_calls steady_touch steady_session steady_on_sessions steady_bus : steady.

(** ** Handlers *)

Lemma steady_advance aid : steady (broadcast_queue_advance ts_string aid).
Proof. unfold broadcast_queue_advance. steadies. Qed.
Lemma steady_leave job l : steady (leave_queue ts_string json_from_str p job l).
Proof. unfold leave_queue. steadies. apply steady_advance. Qed.
Lemma steady_ended : steady (activity_ended ts_string p).
Proof. apply steady_activity. Qed.
Lemma steady_failed m : steady (run_failed p m).
Proof. apply steady_event. Qed.
Lemma steady_lost o : steady (lifecycle_persistence_error_for_peer p o : Exec W Output (option string)).
Proof. unfold lifecycle_persistence_error_for_peer, run_of. steadies. Qed.
Lemma steady_pair name : steady (find_dm_pair p name).
Proof. unfold find_dm_pair. steadies. Qed.
Lemma steady_end_on_bus name peer id reason : steady (end_on_bus p name peer id reason).
Proof. apply steady_access. intros w. destruct (end_conversation _ _ _ _ _ _ _) as [r b]. by apply rely_frame. Qed.
#[local] Hint Resolve steady_advance steady_leave steady_ended steady_failed steady_lost steady_pair steady_end_on_bus : steady.
Lemma steady_failure name reason : steady (handle_dm_run_failure ts_string p name reason).
Proof. unfold handle_dm_run_failure, announce_dm_end. steadies. Qed.
#[local] Hint Resolve steady_failure : steady.
Lemma steady_outcome name reason : steady (notify_dm_peer_of_setup_outcome ts_string agent_by_id p name reason).
Proof. unfold notify_dm_peer_of_setup_outcome, read_name. steadies. Qed.
Lemma steady_reason b : steady (cancelled_run_end_reason b : Exec W Output ConversationEndReason).
Proof. unfold cancelled_run_end_reason. steadies. Qed.
#[local] Hint Resolve steady_outcome steady_reason : steady.
Lemma steady_setup_failure name m : steady (notify_dm_peer_of_setup_failure ts_string agent_by_id p name m).
Proof. apply steady_outcome. Qed.
Lemma steady_setup_cancellation name b : steady (notify_dm_peer_of_setup_cancellation ts_string agent_by_id p name b).
Proof. unfold notify_dm_peer_of_setup_cancellation. steadies. Qed.
Lemma steady_completion name out : steady (handle_dm_run_completion ts_string p name out).
Proof.
  unfold handle_dm_run_completion, signal_dm_end_on_completion, deliver_implicit_reply, announce_dm_end. steadies.
Qed.
Lemma steady_marker f : steady (put_marker f).
Proof. apply steady_write. intros w. by apply rely_frame. Qed.
Lemma steady_spawn r : steady (spawn_summary r).
Proof. unfold spawn_summary. steadies. apply steady_write. intros w. by apply rely_frame. Qed.
Lemma steady_webchat name : steady (tell_webchat ts_string p name).
Proof. unfold tell_webchat. steadies. Qed.
Lemma steady_claim : steady (claim_input p).
Proof. unfold claim_input. steadies. Qed.
Lemma steady_stop : steady (must_stop p).
Proof. unfold must_stop. steadies. Qed.
Lemma steady_resolve : steady (resolve_config env agent_by_id p).
Proof. unfold resolve_config. steadies. Qed.
Lemma steady_adjust r : steady (adjust_config has_workspace_dir bootstrap_prompt p r).
Proof. unfold adjust_config. steadies. Qed.
#[local] Hint Resolve steady_setup_failure steady_setup_cancellation steady_completion steady_marker steady_spawn steady_webchat steady_claim steady_stop
  steady_resolve steady_adjust : steady.

(** ** Exits *)

Definition leaves {A} (r : option A) w (_ : list Output) : Prop := match r with Some _ => settled_state w | None => well_formed w end.

Lemma settled_wf w : settled_state w → well_formed w.
Proof. intros (H & _). by eapply within_wf. Qed.

Lemma leaves_rest {A} (m : Exec W Output A) w t : steady m → settled_state w → wp rely m leaves w t.
Proof.
  intros Hm Hs. eapply wp_mono; [by apply (Hm _ settled_stable)|]. intros [a|] w' t' H; [done|by apply settled_wf].
Qed.

Lemma leaves_step {A B} (P : W → Prop) (m : Exec W Output A) (k : A → Exec W Output B) w t :
  stable P → (∀ w, P w → well_formed w) → steady m → P w → (∀ a w t, P w → wp rely (k a) leaves w t) → wp rely (m ≫= k) leaves w t.
Proof.
  intros HP Hwf Hm Hp Hk. apply wp_bind. eapply wp_mono; [by apply (Hm P)|]. intros [a|] w' t' H; [by apply Hk|by apply Hwf].
Qed.

(** A step that reaches [R] as well. *)
Definition reaches {A} (R : W → Prop) (m : Exec W Output A) : Prop := ∀ P, stable P → ∀ w t, P w → well_formed w →
  wp rely m (λ r w' _, P w' ∧ match r with Some _ => R w' | None => True end) w t.

Lemma leaves_reach {A B} (P R : W → Prop) (m : Exec W Output A) (k : A → Exec W Output B) w t :
  stable P → (∀ w, P w → well_formed w) → reaches R m → P w → (∀ a w t, P w → R w → wp rely (k a) leaves w t) → wp rely (m ≫= k) leaves w t.
Proof.
  intros HP Hwf Hm Hp Hk. apply wp_bind. eapply wp_mono; [by apply (Hm P); auto|].
  intros [a|] w' t' [H1 H2]; [by apply Hk|by apply Hwf].
Qed.

(** Afterwards it is kept. *)
Lemma reaches_then {A B} (R : W → Prop) (m : Exec W Output A) (k : A → Exec W Output B) :
  stable R → reaches R m → (∀ a, steady (k a)) → reaches R (m ≫= k).
Proof.
  intros HR Hm Hk P HP w t Hp Hwf. apply wp_bind. eapply wp_mono; [by apply (Hm P)|]. intros [a|] w' t' [H1 H2]; [|done].
  eapply wp_mono; [by apply (Hk a _ (stable_and P R HP HR))|]. intros r w2 t2 [? ?]. split; [done|by destruct r].
Qed.

Lemma reaches_over t : ending t = true → endable t = [Queued; Running] → reaches over (mark p t).
Proof. intros Ht He P HP w tr Hp Hwf. apply wp_mark_ends; [done..|]. rewrite He. by apply wf_within. Qed.

Lemma over_stable : stable over.
Proof. apply within_stable. Qed.

Lemma reaches_fail m prefix : reaches over (fail_run p m prefix).
Proof. apply (reaches_then over); [apply over_stable|by apply reaches_over|]. intros r. steadies. Qed.
Lemma reaches_cancel : reaches over (cancel_this_run ts_string p).
Proof. apply (reaches_then over); [apply over_stable|by apply reaches_over|]. intros r. steadies. Qed.
Lemma reaches_no_token : reaches no_token (drop_cancel_token p).
Proof.
  intros P HP w t Hp _. apply wp_access. intros w' Hr. assert (P w') by (by eapply HP). split; [done|].
  split; [eapply HP; [apply rely_token|done]|]. apply lookup_delete_eq.
Qed.
Lemma reaches_no_approval : reaches no_approval (clear_approvals p).
Proof.
  intros P HP w t Hp _. apply wp_access. intros w' Hr. assert (P w') by (by eapply HP). split; [done|].
  split; [eapply HP; [apply rely_clear|done]|]. apply clear_idempotent.
Qed.

Lemma leaves_then {A B} (m : Exec W Output A) (k : A → Exec W Output B) w t :
  wp rely m leaves w t → (∀ a, steady (k a)) → wp rely (m ≫= k) leaves w t.
Proof.
  intros Hm Hk. apply wp_bind. eapply wp_mono; [exact Hm|]. intros [a|] w' t' H; [by apply leaves_rest|done].
Qed.

Lemma leaves_last (P : W → Prop) (m : Exec W Output ()) w t :
  wp rely (m ≫= mret) leaves w t → wp rely m leaves w t.
Proof.
  intros H sched n Hs. specialize (H sched n Hs). unfold mbind, exec_bind in H. destruct (m sched n w) as [[[[a|] n'] w'] o]; [|done].
  unfold mret, exec_ret in H. by rewrite app_nil_r in H.
Qed.

(** The releases, of a run that is over. *)
Lemma leaves_cleared w t : over w → no_token w → wp rely (clear_approvals p) leaves w t.
Proof.
  intros Ho Hn. eapply wp_mono; [apply (reaches_no_approval (λ w, over w ∧ no_token w))|].
  - apply stable_and; [apply over_stable|apply no_token_stable].
  - done.
  - by eapply within_wf.
  - intros [a|] w' t' [[H1 H2] H3]; [done|by eapply within_wf].
Qed.

Lemma leaves_release w t : over w → wp rely (release p) leaves w t.
Proof.
  intros Ho. apply (leaves_step over); [apply over_stable|apply within_wf|apply steady_senders|done|]. intros _ w1 t1 Ho1.
  apply (leaves_reach over no_token); [apply over_stable|apply within_wf|apply reaches_no_token|done|].
  intros _ w2 t2 Ho2 Hn2. by apply leaves_cleared.
Qed.

(** Steps on a run that is over. *)
Lemma over_step {A B} (m : Exec W Output A) (k : A → Exec W Output B) w t :
  steady m → over w → (∀ a w t, over w → wp rely (k a) leaves w t) → wp rely (m ≫= k) leaves w t.
Proof. intros Hm Ho Hk. by apply (leaves_step over); [apply over_stable|apply within_wf|..]. Qed.

Lemma leaves_end {A} (m : Exec W Output A) (k : A → Exec W Output ()) w t :
  reaches over m → well_formed w → (∀ a w t, over w → wp rely (k a) leaves w t) → wp rely (m ≫= k) leaves w t.
Proof.
  intros Hm Hwf Hk. apply (leaves_reach well_formed over); [apply well_formed_stable|done|done|done|]. intros a w' t' _. apply Hk.
Qed.

Lemma leaves_claim_failed job e w t : well_formed w → wp rely (claim_failed ts_string json_from_str p job e) leaves w t.
Proof.
  intros Hwf. apply leaves_end; [apply reaches_fail|done|]. intros m w1 t1 Ho. apply over_step; [steadies|done|]. intros _ w2 t2 Ho2.
  apply leaves_then; [by apply leaves_release|]. intros _. steadies.
Qed.

Lemma leaves_config_failed job e w t : well_formed w → wp rely (config_failed ts_string json_from_str agent_by_id p job e) leaves w t.
Proof.
  intros Hwf. apply leaves_end; [apply reaches_fail|done|]. intros m w1 t1 Ho. do 2 (apply over_step; [steadies|assumption|]; clear w1 t1 Ho; intros _ w1 t1 Ho).
  apply leaves_then; [by apply leaves_release|]. intros _. steadies.
Qed.

Lemma leaves_runtime_failed job name e w t : well_formed w → wp rely (runtime_failed ts_string json_from_str agent_by_id p job name e) leaves w t.
Proof.
  intros Hwf. apply leaves_end; [apply reaches_fail|done|]. intros m w1 t1 Ho. do 3 (apply over_step; [steadies|assumption|]; clear w1 t1 Ho; intros _ w1 t1 Ho).
  apply leaves_then; [by apply leaves_release|]. intros _. steadies.
Qed.

Lemma leaves_budget job name e w t : well_formed w → wp rely (budget_rejected ts_string json_from_str agent_by_id p job name e) leaves w t.
Proof.
  intros Hwf. apply leaves_end; [by apply reaches_over|done|]. intros m w1 t1 Ho. do 3 (apply over_step; [steadies|assumption|]; clear w1 t1 Ho; intros _ w1 t1 Ho).
  apply leaves_then; [by apply leaves_release|]. intros _. steadies.
Qed.

Lemma leaves_early job w t :
  well_formed w → no_approval w → wp rely (cancelled_before_start ts_string json_from_str agent_by_id p job) leaves w t.
Proof.
  intros Hwf Hc. apply (leaves_reach (λ w, well_formed w ∧ no_approval w) over);
    [apply stable_and; [apply well_formed_stable|apply no_approval_stable]|by intros ? [? _]|apply reaches_cancel|done|].
  intros [b refused] w1 t1 [_ Hc1] Ho1.
  assert (stable (λ w, over w ∧ no_approval w)) as HP by (apply stable_and; [apply over_stable|apply no_approval_stable]).
  apply (leaves_step (λ w, over w ∧ no_approval w)); [done|intros ? [? _]; by eapply within_wf|steadies|done|]. intros _ w2 t2 H2.
  apply (leaves_reach (λ w, over w ∧ no_approval w) no_token); [done|intros ? [? _]; by eapply within_wf|apply reaches_no_token|done|].
  intros _ w3 t3 [Ho3 Hc3] Hn3. apply leaves_rest; [|done]. steadies.
Qed.

(** The exits of a start that was not made. *)
Lemma leaves_unstarted (m rest : Exec W Output ()) w t :
  over w → steady m → steady rest →
  wp rely (_ ← m; _ ← drop_cancel_token p; _ ← drop_senders p; _ ← clear_approvals p; rest) leaves w t.
Proof.
  intros Ho Hm Hr. apply over_step; [done..|]. intros _ w1 t1 Ho1.
  apply (leaves_reach over no_token); [apply over_stable|apply within_wf|apply reaches_no_token|done|]. intros _ w2 t2 Ho2 Hn2.
  apply (leaves_step (λ w, over w ∧ no_token w)); [apply stable_and; [apply over_stable|apply no_token_stable]|intros ? [? _]; by eapply within_wf|steadies|done|].
  intros _ w3 t3 [Ho3 Hn3]. apply leaves_then; [by apply leaves_cleared|]. by intros _.
Qed.

(** ** The run itself *)

Definition busy : W → Prop := within [Running].
Definition idle : W → Prop := within [Queued].

(** Of the agent: it too ends no more than its own run. *)
Context (Hagent : ∀ su c w, agent_rely w (runtime_run su c w).2).

Lemma busy_agent su c w t : busy w → wp rely (call_agent su c : Exec W Output _) (λ _ w' _, busy w') w t.
Proof using Hagent.
  intros Hb. apply wp_call. intros w' Hr. assert (busy w') as Hb' by (by eapply within_stable). split; [done|].
  pose proof (Hagent su c w') as Ha. destruct (runtime_run su c w') as [r w2]. by eapply within_agent_stable.
Qed.

Lemma busy_step {A B} (m : Exec W Output A) (k : A → Exec W Output B) w t :
  steady m → busy w → (∀ a w t, busy w → wp rely (k a) (λ _ w' _, busy w') w t) → wp rely (m ≫= k) (λ _ w' _, busy w') w t.
Proof.
  intros Hm Hb Hk. apply wp_bind. eapply wp_mono; [by apply (Hm busy (within_stable _))|]. intros [a|] w' t' H; [by apply Hk|done].
Qed.

Lemma steady_persist msg : steady (persist_notification_input p msg).
Proof. unfold persist_notification_input. steadies. Qed.

Lemma busy_loop su w t : busy w → wp rely (run_agent_loop p su) (λ _ w' _, busy w') w t.
Proof using Hagent.
  intros Hb. unfold run_agent_loop. destruct (rp_is_peer_message p); [by apply busy_agent|].
  destruct (rp_input_pre_persisted p); [by apply busy_agent|]. destruct (rp_is_system_triggered p && _).
  - apply busy_step; [steadies|done|]. intros msg w1 t1 Hb1. apply busy_step; [apply steady_persist|done|].
    intros [[]|e] w2 t2 Hb2; [by apply busy_agent|by apply wp_ret].
  - apply busy_step; [|done|].
    + destruct (rp_is_system_triggered p); [|steadies]. apply steady_access. intros w'. destruct (get_or_create_with_id _ _ _ _ _). by apply rely_frame.
    + intros [a|e] w2 t2 Hb2; [by apply busy_agent|by apply wp_ret].
Qed.

Definition ended {A} (r : option A) w (_ : list Output) : Prop := match r with Some _ => over w | None => well_formed w end.

Lemma ended_rest {A} (m : Exec W Output A) w t : steady m → over w → wp rely m ended w t.
Proof. intros Hm Ho. eapply wp_mono; [by apply (Hm _ over_stable)|]. intros [a|] w' t' H; [done|by eapply within_wf]. Qed.

Lemma ended_step {A B} (m : Exec W Output A) (k : A → Exec W Output B) w t :
  steady m → busy w → (∀ a w t, busy w → wp rely (k a) ended w t) → wp rely (m ≫= k) ended w t.
Proof.
  intros Hm Hb Hk. apply wp_bind. eapply wp_mono; [by apply (Hm busy (within_stable _))|]. intros [a|] w' t' H; [by apply Hk|by eapply within_wf].
Qed.

Lemma ended_mark {B} t (k : Result bool string → Exec W Output B) w tr :
  ending t = true → within (endable t) w → (∀ r, steady (k r)) → wp rely (mark p t ≫= k) ended w tr.
Proof.
  intros Ht Hin Hk. apply wp_bind. eapply wp_mono; [apply (wp_mark_ends t well_formed); [done|apply well_formed_stable|by eapply within_wf|done]|].
  intros [r|] w' t' [H1 H2]; [by apply ended_rest|done].
Qed.

Lemma ended_reach {A B} (m : Exec W Output A) (k : A → Exec W Output B) w t :
  reaches over m → well_formed w → (∀ a, steady (k a)) → wp rely (m ≫= k) ended w t.
Proof.
  intros Hm Hwf Hk. apply wp_bind. eapply wp_mono; [by apply (Hm well_formed well_formed_stable)|].
  intros [a|] w' t' [H1 H2]; [by apply ended_rest|done].
Qed.

Lemma ended_completed name request out w t : busy w → wp rely (run_completed ts_string p name request out) ended w t.
Proof.
  intros Hb. apply ended_step; [steadies|done|]. intros _ w1 t1 Hb1. apply ended_step; [steadies|done|]. intros _ w2 t2 Hb2.
  apply ended_mark; [done|done|]. intros r. steadies.
Qed.

Lemma ended_cancel_arm name w t : busy w → wp rely (run_was_cancelled ts_string p name) ended w t.
Proof. intros Hb. apply ended_reach; [apply reaches_cancel|by eapply within_wf|]. intros [b refused]. steadies. Qed.

Lemma ended_failed name e w t : busy w → wp rely (run_has_failed ts_string p name e) ended w t.
Proof. intros Hb. apply ended_reach; [apply reaches_fail|by eapply within_wf|]. intros m. steadies. Qed.

Lemma ended_result name request r w t : busy w → wp rely (settle_result ts_string p name request r) ended w t.
Proof.
  intros Hb. destruct r as [out|e]; [by apply ended_completed|]. destruct e; simpl; try (by apply ended_failed); try (by apply ended_cancel_arm);
    (apply ended_step; [steadies|done|]; intros _ w1 t1 Hb1); [by apply ended_cancel_arm|by apply ended_failed].
Qed.

Lemma leaves_tail job name l w t : over w → wp rely (common_tail ts_string json_from_str p job name l) leaves w t.
Proof.
  intros Ho. unfold common_tail. do 5 (apply over_step; [steadies|assumption|]; clear w t Ho; intros _ w t Ho).
  apply (leaves_reach over no_token); [apply over_stable|apply within_wf|apply reaches_no_token|done|]. intros _ w2 t2 Ho2 Hn2.
  apply leaves_then; [by apply leaves_cleared|]. intros _. steadies.
Qed.

Lemma leaves_started job name wt cfg llm w t :
  busy w → wp rely (run_started ts_string json_from_str env agent_by_id is_full_os_access_agent project_root has_workspace_dir p job name wt cfg llm) leaves w t.
Proof using Hagent bootstrap_prompt.
  intros Hb. do 3 (apply (leaves_step busy); [apply within_stable|apply within_wf|steadies|assumption|]; clear w t Hb; intros ? w t Hb).
  destruct (runtime_new cfg llm); [|apply leaves_runtime_failed; by eapply within_wf].
  apply wp_bind. eapply wp_mono; [by apply busy_loop|]. intros [r|] w1 t1 Hb1; [|by eapply within_wf].
  apply wp_bind. eapply wp_mono; [by apply ended_result|]. intros [[]|] w2 t2 H; [by apply leaves_tail|done].
Qed.

Lemma wp_mark_start c w t :
  idle w → wp rely (mark p (Start c)) (λ r w' _, match r with Some (Ok true) => busy w' | Some _ => over w' | None => well_formed w' end) w t.
Proof.
  intros Hi. apply wp_access. intros w1 Hr. assert (idle w1) as Hi1 by (by eapply within_stable). split; [by eapply within_wf|].
  destruct (try_mark (now_of w1) (rp_run_id p) (Start c) (runs_of w1)) as [m' r] eqn:Em. simpl. destruct (marked _ _ _ _ _ Em) as [_ Hrun].
  set (w' := on_runs _ w1). change (rm_runs (runs_of w1) !! rp_run_id p) with (run_at w1) in Hrun.
  change (rm_runs m' !! rp_run_id p) with (run_at w') in Hrun. unfold idle, busy, over, within in *.
  destruct (run_at w1) as [run|]; [|by destruct Hrun as [-> ->]]. destruct Hi1 as [Hwf Hs].
  destruct (Hrun Hwf) as (run' & -> & Hwf' & Hc). destruct Hs as [Hin|Hterm].
  - assert (run_status run = Queued) as Hq by (clear -Hin; set_solver). rewrite Hq in Hc. simpl in Hc. destruct r as [b|e]; [|auto].
    destruct Hc as [-> ->]. split; [done|left; clear; set_solver].
  - assert (run_legal (Start c) (run_status run) = false) as Hl by (by destruct (run_status run)). rewrite Hl in Hc. destruct Hc as [-> Hne].
    destruct r as [[]|e]; [done|auto..].
Qed.

Lemma leaves_turn w t :
  idle w → no_approval w →
  wp rely (run_turn ts_string json_from_str env mode agent_by_id is_full_os_access_agent project_root has_workspace_dir bootstrap_prompt p) leaves w t.
Proof using All.
  intros Hi Hc. set (P := λ w, idle w ∧ no_approval w).
  assert (stable P) as HP by (apply stable_and; [apply within_stable|apply no_approval_stable]).
  assert (∀ w, P w → well_formed w) as Hwf by (intros ? [? _]; by eapply within_wf).
  assert (P w) as Hp by done. clear Hi Hc.
  apply (leaves_step P); [done|done|unfold run_of; steadies|done|]. clear w t Hp. intros run w t Hp.
  apply (leaves_step P); [done|done|steadies|done|]. clear w t Hp. intros [[]|e] w t Hp; [|by apply leaves_claim_failed, Hwf].
  apply (leaves_step P); [done|done|steadies|done|]. clear w t Hp. intros [|] w t Hp; [apply leaves_early; [by apply Hwf|apply Hp]|].
  apply (leaves_step P); [done|done|steadies|done|]. clear w t Hp. intros [r|e] w t Hp; [|by apply leaves_config_failed, Hwf].
  destruct (evaluate_pre_flight_token_budget _ _ _) as [[]|e]; [|by apply leaves_budget, Hwf].
  apply (leaves_step P); [done|done|steadies|done|]. clear w t Hp. intros cfg w t [Hi _].
  apply wp_bind. eapply wp_mono; [by apply wp_mark_start|]. intros [[[]|e]|] w1 t1 H1; [by apply leaves_started| | |done].
  - unfold start_rejected. apply (leaves_unstarted (activity_ended ts_string p)); [done|steadies|steadies].
  - unfold start_refused. apply over_step; [steadies|done|]. intros _ w2 t2 Ho2.
    apply (leaves_unstarted (activity_ended ts_string p)); [done|steadies|steadies].
Qed.

(** ** With the panic boundary *)

Lemma leaves_reconciled job w t : well_formed w → wp rely (reconcile_panic ts_string json_from_str p job) leaves w t.
Proof.
  intros Hwf. apply leaves_end; [by apply reaches_over|done|]. intros r. clear w t Hwf.
  destruct (match r with Ok transitioned => _ | Err e => _ end) as [[announce message] peer_message]. intros w t Ho.
  do 4 (apply over_step; [steadies|assumption|]; clear w t Ho; intros _ w t Ho).
  apply (leaves_reach over no_token); [apply over_stable|apply within_wf|apply reaches_no_token|done|]. intros _ w2 t2 Ho2 Hn2.
  apply leaves_then; [by apply leaves_cleared|]. intros _. steadies.
Qed.

Lemma counted_frame (f : RunManager Rs → RunManager Rs) w :
  (∀ m, rm_runs (f m) = rm_runs m ∧ rm_tokens (f m) = rm_tokens m) → rely w (on_runs f w).
Proof. intros H. by apply rely_frame; [apply H|apply H|]. Qed.

Lemma leaves_execution w t :
  idle w → no_approval w →
  wp rely (execute_run ts_string json_from_str env mode agent_by_id is_full_os_access_agent project_root has_workspace_dir bootstrap_prompt p) leaves w t.
Proof using All.
  intros Hi Hc. assert (stable (λ w, idle w ∧ no_approval w)) as HP by (apply stable_and; [apply within_stable|apply no_approval_stable]).
  apply (leaves_step (λ w, idle w ∧ no_approval w)); [done|intros ? [? _]; by eapply within_wf| |done|].
  { apply steady_write. intros w'. by apply counted_frame. }
  intros _ w1 t1 [Hi1 Hc1]. apply wp_guarded. eapply wp_mono; [by apply leaves_turn|].
  assert (∀ w, rely w (on_runs (λ m, (untrack_in_flight m).1) w)) as Hu by (intros; by apply counted_frame).
  intros [[]|] w2 t2 H w3 Hr; [eapply settled_stable; [apply Hu|]; by eapply settled_stable|
    eapply well_formed_stable; [apply Hu|]; by eapply well_formed_stable].
Qed.

Lemma leaves_guarded w t :
  idle w → no_approval w →
  wp rely (execute_run_guarded ts_string json_from_str env mode agent_by_id is_full_os_access_agent project_root has_workspace_dir bootstrap_prompt p)
    leaves w t.
Proof using All.
  intros Hi Hc. assert (stable (λ w, idle w ∧ no_approval w)) as HP by (apply stable_and; [apply within_stable|apply no_approval_stable]).
  apply (leaves_step (λ w, idle w ∧ no_approval w)); [done|intros ? [? _]; by eapply within_wf|unfold run_of; steadies|done|].
  intros run w1 t1 [Hi1 Hc1]. apply wp_catch. eapply wp_mono; [by apply leaves_execution|].
  intros [[]|] w2 t2 H; [done|]. by apply leaves_reconciled.
Qed.

(** ** It comes back *)

Ltac comes :=
  repeat match goal with
  | |- comes_back (mret _) => apply comes_back_ret
  | |- comes_back (_ ≫= _) => apply comes_back_bind; [|intros ?]
  | |- comes_back (when _ _) => apply comes_back_when
  | |- comes_back (for_each _ _) => apply comes_back_for_each; intros ?
  | |- comes_back (if ?b then _ else _) => destruct b
  | |- comes_back (match ?x with _ => _ end) => destruct x
  | |- comes_back (access _) => apply comes_back_access
  end.

Lemma comes_back_advance aid : comes_back (broadcast_queue_advance ts_string aid : Exec W Output ()).
Proof. unfold broadcast_queue_advance, read. comes. unfold send_run_event. comes. Qed.

Lemma comes_back_failure name reason : comes_back (handle_dm_run_failure ts_string p name reason : Exec W Output (Result unit AlmsError)).
Proof. unfold handle_dm_run_failure, find_dm_pair, end_on_bus, announce_dm_end, put_out, read, ask, send_session_news. comes. Qed.

Lemma comes_back_reconcile job : comes_back (reconcile_panic ts_string json_from_str p job).
Proof.
  unfold reconcile_panic, mark, run_failed, send_run_event, activity_ended, send_activity, drop_senders, purge_senders, drop_cancel_token,
    clear_approvals, leave_queue, feed_episode, write. comes; first [apply comes_back_failure|apply comes_back_advance].
Qed.

Lemma comes_back_guarded :
  comes_back (execute_run_guarded ts_string json_from_str env mode agent_by_id is_full_os_access_agent project_root has_workspace_dir bootstrap_prompt p).
Proof.
  apply comes_back_bind; [apply comes_back_access|]. intros run sched n w Hu. unfold catch_unwind.
  destruct (execute_run _ _ _ _ _ _ _ _ _ _ _ _ _) as [[[[[]|] n'] w'] o]; [by eexists|].
  pose proof (comes_back_reconcile (run ≫= run_job_id) sched n' w' Hu) as H.
  by destruct (reconcile_panic _ _ _ _ _ _ _) as [[[r n2] w2] o2].
Qed.
End settles.
