(* ===== verification/RunExecProps.v ===== *)
(** The theorems on a run's turn, for every schedule of the other tasks.

    The first three are about what the turn puts out, whatever the others do and
    wherever it unwinds; the fourth about what it leaves, when the others do no
    more to the run than end it. *)
From S2P Require Import Prelude FsPath Ident Lifecycle Json Budget Run EventLog EventFeed Session Errors MessageBus JobEpisode Episodic ContextBuild RunManager RunControl JobStore Scheduler Notify JobEngine RuntimeTypes F32 LlmClient RunConfig Settings Exec RunExec RunTrace RunSettles.

Section properties.
Context `{U : UuidCrate} `{CH : ChronoCrate} `{CR : CronCrate} `{M : MinHeap}.
Context {Js Rs Ss : Type} `{JT : JobTable Js} `{RS : RunStore Rs} `{DB : SqliteStore Ss}.
Context (ts_string : Z → string) (json_from_str : string → option json).
Context (env : string → option string) (mode : ValidationMode) (agent_by_id : AgentId → Ss → Result (option AgentRecord) AlmsError)
        (is_full_os_access_agent : string → bool) (project_root : list Component) (has_workspace_dir : bool)
        (bootstrap_prompt : string).
Abbreviation W := (World Js Rs Ss).
Context `{AR : AgentRuntime W}.
Implicit Types (w : W) (p : RunParams).

Abbreviation execute := (execute_run ts_string json_from_str env mode agent_by_id is_full_os_access_agent project_root has_workspace_dir bootstrap_prompt).
Abbreviation execute_guarded :=
  (execute_run_guarded ts_string json_from_str env mode agent_by_id is_full_os_access_agent project_root has_workspace_dir bootstrap_prompt).

(** C9: watchers hear of a run exactly what its turn settled.  Whatever the
    other tasks do meanwhile, the lifecycle events an execution of [execute_run]
    publishes are, in order, those its own transitions call for, one for each it
    had applied or the store refused and none for a transition somebody else was
    first to, and an execution that unwinds has published no event it did not
    settle first; the one exception is the token check, which announces its
    rejection of a run that somebody else had ended, without calling the agent. *)
Theorem run_told_once p sched n w :
  let '(r, _, _, o) := execute p sched n w in
  match r with Some _ => announced o = settled p o | None => announced o `prefix_of` settled p o end ∨ told_twice p o.
Proof.
  destruct (execute p sched n w) as [[[r n'] w'] o] eqn:E.
  refine (wp_run anything _ (λ r _ o, well_told p r o) _ _ _ _ _ _ _ _ _ E); [done|].
  apply wp_execution; [|intros w2; left; apply prefix_nil].
  intros w2. eapply wp_mono; [by apply told_turn|]. by intros x w3 t3 H w4.
Qed.

(** C10: the agent is called at most once, and only as announced.  The call
    comes after the start was stored and published with the very configuration
    the agent gets; that configuration passed the token check, asks nobody for
    approval when no human started the run, and leaves the file sandbox only for
    an agent on the operator's list; and the input of a peer's message, or one
    stored on admission, is not stored again. *)
Theorem agent_called_as_announced p sched n w :
  let '(_, _, _, o) := execute p sched n w in called_well ts_string mode is_full_os_access_agent p o.
Proof.
  destruct (execute p sched n w) as [[[r n'] w'] o] eqn:E.
  refine (wp_run anything _ (λ _ _ o, called_well ts_string mode is_full_os_access_agent p o) _ _ _ _ _ _ _ _ _ E); [done|].
  apply wp_execution; [|by left]. intros w2. eapply wp_mono; [by apply called_turn|]. by intros x w3 t3 H w4.
Qed.

(** C11: the outcome of a direct message reaches the bus.  An execution that comes
    back for a peer's message, whose input is not claimed from a pending row, has
    brought exactly one of these to the bus, for the agent under the name the
    registry gave and the peer it found under the other name of the context: the
    end of the conversation, or the answer its run record holds, or an answer the
    bus refused and then the end as not interrupted.  At the depth limit the bus
    ends the conversation instead of delivering; an end the bus itself refuses is
    only logged.  The conversation is left alone only where the registry named no
    agent, the context is of no peer of its, or the registry had no such peer.  An
    execution for any other run touches no conversation. *)
Theorem dm_outcome_reaches_bus p sched n w :
  (rp_input_pre_persisted p = true → is_peer_dm p = false) →
  let '(r, _, _, o) := execute p sched n w in r = Some tt → conversation_settled p o.
Proof.
  intros Hpre. destruct (execute p sched n w) as [[[r n'] w'] o] eqn:E.
  refine (wp_run anything _ (λ r _ o, r = Some tt → conversation_settled p o) _ _ _ _ _ _ _ _ _ E); [done|].
  apply wp_execution; [|done]. intros w2. eapply wp_mono; [by apply settles_turn|]. intros x w3 t3 H w4 ->. exact H.
Qed.

(** C12: a turn settles its run even when it panics.  From a queued run, while
    the others end it at most, an execution behind the panic boundary that comes
    back leaves the run unknown or in a terminal state, without a cancellation
    token and without pending approvals, wherever the turn itself unwound; and
    it does come back, whatever the agent does, unless an access of the gateway
    panics. *)
Theorem guarded_run_settles p sched n w :
  respects (rely p) sched → (∀ su c w, agent_rely p w (runtime_run su c w).2) → idle p w → no_approval p w →
  let '(r, _, w', _) := execute_guarded p sched n w in
  (r = Some tt → settled_state p w') ∧ ((∀ n, unwinds sched n = false) → r = Some tt).
Proof.
  intros Hs Ha Hi Hc. destruct (execute_guarded p sched n w) as [[[r n'] w'] o] eqn:E. split.
  - intros ->. exact (wp_run (rely p) _ _ _ _ _ _ _ _ _ Hs (leaves_guarded _ _ _ _ _ _ _ _ _ p Ha w [] Hi Hc) E).
  - intros Hu. assert (is_Some r) as [[] ->]; [|done].
    change (is_Some (r, n', w', o).1.1.1). rewrite <-E. apply comes_back_guarded, Hu.
Qed.

(** The panic boundary has no name to look the peer up by: it tells no peer. *)
Theorem panic_tells_no_peer p job sched n w :
  let '(_, _, _, o) := reconcile_panic ts_string json_from_str p job sched n w in
  Forall (λ x, match x with BusEnded _ _ _ _ _ | BusSent _ _ _ _ _ => False | _ => True end) o.
Proof.
  destruct (reconcile_panic ts_string json_from_str p job sched n w) as [[[r n'] w'] o] eqn:E.
  pose proof (reconcile_says_nothing ts_string json_from_str p job w [] sched n ltac:(done)) as H. rewrite E in H. simpl in H.
  apply Forall_forall. intros x Hx. destruct x; try done; exfalso; apply list_elem_of_split in Hx as (o1 & o2 & ->);
    rewrite omap_app in H; simpl in H; by apply app_nil in H as [_ H].
Qed.

(** What a peer is told of an error is short. *)
Theorem peer_error_bounded e : String.length (truncate_error_for_peer e) ≤ 303.
Proof.
  unfold truncate_error_for_peer. destruct (Nat.leb_spec (String.length (sanitize_error_for_session e)) PEER_ERROR_MESSAGE_MAX_LEN);
    [unfold PEER_ERROR_MESSAGE_MAX_LEN in *; lia|].
  rewrite str_length_app. pose proof (truncate_length (sanitize_error_for_session e) PEER_ERROR_MESSAGE_MAX_LEN). simpl. unfold PEER_ERROR_MESSAGE_MAX_LEN in *. lia.
Qed.
End properties.

(** * Witnesses *)

Section witnesses.
Import SimpleUuid SimpleChrono ListHeap.

Local Instance null_runs : RunStore unit := {|
  run_rows _ := ∅; save_run _ _ := Ok tt; save_run_with_initial_message _ _ _ := Ok (0%Z, tt);
  mark_stale_runs_failed _ := Ok (0, tt); load_all_runs _ := Ok [];
|}.

Local Instance no_cron : CronCrate := { Schedule := unit; schedule_from_str _ := None; schedule_next _ _ := None }.

Local Definition atlas : AgentId := MkAgentId (MkUuid 1).
Local Definition bob : AgentId := MkAgentId (MkUuid 2).

(** Two agents, and no memory. *)
Local Instance registry : SqliteStore unit := {|
  save_session _ st := (Ok tt, st); save_message _ _ st := (Ok tt, st); save_audit _ st := (Ok tt, st);
  save_summary _ _ st := (Ok tt, st); delete_session _ st := (Ok tt, st);
  load_all_sessions _ := Ok []; load_messages _ _ := Ok []; load_audit _ _ := Ok []; load_summary _ _ := Ok None;
  load_agent_by_name name _ := Ok (if String.eqb name "atlas" then Some (atlas, name) else if String.eqb name "bob" then Some (bob, name) else None);
|}.

Local Abbreviation Wd := (World TableWithBudget unit unit).

(** What the agent does with a turn. *)
Local Definition agent (answer : option (Result RunOutput AlmsError)) : AgentRuntime Wd :=
  {| runtime_new _ _ := Ok tt; runtime_run _ _ w := (answer, w) |}.

Local Definition rid : RunId := MkRunId (MkUuid 10).
Local Definition sid : SessionId := deterministic_dm "atlas" "bob".
Local Definition readings : Readings := {|
  rd_now := 5; rd_mono := 5; rd_env := {| env_instant := 5; env_instant_done := 5; env_utc := 5; env_uuid := MkUuid 77 |};
  rd_uuid := "m"; rd_dummy := MkRunId (MkUuid 90); rd_run := MkRunId (MkUuid 91); rd_needs_bootstrap _ := false |}.
Local Definition settings : Settings :=
  Settings.boot RunConfig.no_env RunConfig.secrets RunConfig.table RunConfig.base session_config_default
    {| tc_timeout_secs := 120; tc_max_output_bytes := 100000; tc_sandbox_root := "."; tc_shell_policy := "sandboxed" |} RunConfig.server None.

(** Bob has written; atlas's run is queued. *)
Local Definition sessions0 : SessionManager unit :=
  (get_or_create_shared 1 sid "dm:atlas:bob" (match Session.with_store session_config_default tt with Ok m => m | Err _ => session_manager_new session_config_default end)).2.
Local Definition bus0 : MessageBus (SessionManager unit) :=
  set_pairs {["dm:atlas:bob" := ("bob", 1%Z)]} ∅ ∅ ∅ (bus_new sessions0).
Local Definition runs0 : RunManager unit :=
  register_cancel_token rid 7 (put_runs {[rid := run_new rid 2 sid atlas "hello"]} (Some tt) manager_new).
Local Definition jobs0 : JobStore TableWithBudget := job_store_new.
Local Definition w0 : Wd :=
  mkWorld (mkApp jobs0 (tracker_new 1000) scheduler_new runs0 sessions0 ∅) bus0 ∅ false settings RunConfig.secrets readings.

Local Definition turn : RunParams := {|
  rp_run_id := rid; rp_session_id := sid; rp_agent_id := atlas; rp_input := "hello"; rp_context_id := "dm:atlas:bob"; rp_cancel_token := 7;
  rp_is_peer_message := true; rp_is_system_triggered := true; rp_input_pre_persisted := false; rp_dm_ended_peer := None |}.

Local Definition record_of (provider : option string) (id : AgentId) (_ : unit) : Result (option AgentRecord) AlmsError :=
  Ok (Some (RunConfig.agent_on provider None)).

Local Definition calm : Schedule Wd := {| outside _ w := w; unwinds _ := false |}.
Local Definition run_with (answer : option (Result RunOutput AlmsError)) (sched : Schedule Wd) (w : Wd) :=
  execute_run_guarded (AR := agent answer) (λ _, "") (λ _, None) RunConfig.no_env Strict (record_of None) (λ _, false) [] false "" turn sched 0 w.
Local Definition used : TokenUsage := {| prompt_tokens := 1; completion_tokens := 2; reasoning_tokens := None; cache_creation_input_tokens := None;
  cache_read_input_tokens := None |}.
Local Definition said (text : string) : Result RunOutput AlmsError :=
  Ok {| ro_response := text; ro_usage := used; ro_tool_calls := []; ro_reasoning := None |}.

Local Definition with_input_budget (tokens : Z) : AgentConfig :=
  let c := RunConfig.base in let x := ac_context c in {|
  ac_system_prompt := ac_system_prompt c; ac_max_tokens := ac_max_tokens c;
  ac_context := {| cx_strategy := cx_strategy x; cx_max_input_tokens := tokens; cx_compact_trigger_pct := cx_compact_trigger_pct x;
    cx_compact_retain_pct := cx_compact_retain_pct x; cx_summary_model := cx_summary_model x; cx_summary_provider := cx_summary_provider x;
    cx_run_summary_mode := cx_run_summary_mode x; cx_run_summary_budget := cx_run_summary_budget x; cx_summary_max_tokens := cx_summary_max_tokens x |};
  ac_posture := ac_posture c; ac_sandbox_root := ac_sandbox_root c; ac_shell_policy := ac_shell_policy c; ac_debug_mode := ac_debug_mode c;
  ac_anthropic_thinking_budget := ac_anthropic_thinking_budget c; ac_anthropic_prompt_cache_enabled := ac_anthropic_prompt_cache_enabled c;
  ac_openai_reasoning_effort := ac_openai_reasoning_effort c; ac_gemini_thinking_budget := ac_gemini_thinking_budget c;
  ac_gemini_cache_enabled := ac_gemini_cache_enabled c; ac_gemini_cache_ttl_seconds := ac_gemini_cache_ttl_seconds c |}.

(** What a watcher and the peer saw, and how the run ended. *)
Local Definition seen (x : option () * nat * Wd * list Output) : option () * list string * list DmSignal * option RunStatus :=
  let '(r, _, w, o) := x in (r, snd <$> announced o, dm_signals o, run_status <$> rm_runs (runs_of w) !! rid).

(** An operator cancels the run before access [k]. *)
Local Definition cancelled_at (k : nat) : Schedule Wd :=
  {| outside n w := if n =? k then on_runs (λ _, (try_mark_run_as_cancelled 5 rid (runs_of w)).1) w else w; unwinds _ := false |}.

Lemma cancelled_at_respects k : respects (rely turn) (cancelled_at k).
Proof.
  intros n w. simpl. destruct (n =? k); [|by apply rely_frame].
  unfold try_mark_run_as_cancelled. destruct (try_mark 5 rid (Cancel "cancelled") (runs_of w)) as [m r] eqn:E.
  exact (proj1 (mark_ends turn _ (Cancel "cancelled") _ _ _ eq_refl E)).
Defined.

Lemma w0_idle : idle turn w0 ∧ no_approval turn w0.
Proof. split; [|reflexivity]. vm_compute. split; [|left; left]. repeat split; discriminate. Defined.

Local Definition execution (answer : option (Result RunOutput AlmsError)) (sched : Schedule Wd) (w : Wd) :=
  execute_run (AR := agent answer) (λ _, "") (λ _, None) RunConfig.no_env Strict (record_of None) (λ _, false) [] false "" turn sched 0 w.

(** The answer reaches the peer. *)
Lemma dm_outcome_reaches_bus_witness :
  let '(r, _, _, o) := execution (Some (said "hi")) calm w0 in
  r = Some tt ∧ (∃ name peer id, dm_signals o = [SignalSent name peer id "hi" (Ok {| receipt_session_id := sid |})]) ∧ conversation_settled turn o.
Proof.
  assert (E1 : (execution (Some (said "hi")) calm w0).1.1.1 = Some tt) by (vm_compute; reflexivity).
  assert (E2 : ∃ name peer id, dm_signals (execution (Some (said "hi")) calm w0).2 = [SignalSent name peer id "hi" (Ok {| receipt_session_id := sid |})])
    by (do 3 eexists; vm_compute; reflexivity).
  pose proof (dm_outcome_reaches_bus (AR := agent (Some (said "hi"))) (λ _, "") (λ _, None) RunConfig.no_env Strict (record_of None) (λ _, false) [] false ""
    turn calm 0 w0 ltac:(discriminate)) as H.
  fold (execution (Some (said "hi")) calm w0) in H. destruct (execution (Some (said "hi")) calm w0) as [[[r n] w] o].
  split; [exact E1|]. split; [exact E2|]. exact (H E1).
Defined.

(** The agent panics while an operator cancels the run. *)
Lemma guarded_run_settles_witness :
  let '(r, _, w, _) := run_with None (cancelled_at 12) w0 in r = Some tt ∧ run_status <$> rm_runs (runs_of w) !! rid = Some Cancelled ∧ settled_state turn w.
Proof.
  assert (E1 : (run_with None (cancelled_at 12) w0).1.1.1 = Some tt) by (vm_compute; reflexivity).
  assert (E2 : run_status <$> rm_runs (runs_of (run_with None (cancelled_at 12) w0).1.2) !! rid = Some Cancelled) by (vm_compute; reflexivity).
  pose proof (guarded_run_settles (AR := agent None) (λ _, "") (λ _, None) RunConfig.no_env Strict (record_of None) (λ _, false) [] false ""
    turn (cancelled_at 12) 0 w0 (cancelled_at_respects 12) ltac:(intros; by apply agent_frame) (proj1 w0_idle) (proj2 w0_idle)) as H.
  fold (run_with None (cancelled_at 12) w0) in H. destruct (run_with None (cancelled_at 12) w0) as [[[r n] w] o].
  split; [exact E1|]. split; [exact E2|]. exact (proj1 H E1).
Defined.

(** An operator's cancellation between the first checks and the token check: the
    run is announced as failed although it stays cancelled. *)
Lemma cancelled_run_announced_failed :
  let w := mkWorld (wd_app w0) bus0 ∅ false
    (mkSettings (with_input_budget 10000000) (se_session settings) (se_tools settings) (se_llm settings) (se_default settings) (se_disk settings))
    RunConfig.secrets readings in
  let x := execute_run_guarded (AR := agent (Some (said "hi"))) (λ _, "") (λ _, None) RunConfig.no_env Strict (record_of (Some "anthropic")) (λ _, false)
    [] false "" turn (cancelled_at 6) 0 w in
  let '(r, told, _, status) := seen x in
  r = Some tt ∧ told = ["run_error"] ∧ status = Some Cancelled.
Proof. vm_compute. done. Qed.

(** A turn that panics leaves its peer without a word. *)
Lemma panicked_turn_says_nothing :
  let '(r, told, signals, status) := seen (run_with None calm w0) in
  r = Some tt ∧ told = ["run_started"; "run_error"] ∧ signals = [SignalSkip] ∧ status = Some Failed.
Proof. vm_compute. done. Qed.
End witnesses.
