(* ===== verification/Wire.v ===== *)
(** What derived decoders read from JSON, and the OpenAI shapes of a model's
    answer: [alms-runtime/src/llm_types.rs] (the [Deserialize] side).

    A decoder takes a value of [Json.v]; a struct is read from an object whose
    members are distinct, as the code's providers send them.  A member the type
    does not name is ignored; an [Option] is [None] where the member is missing or
    null; a number has to fit its type.  An array in place of an object, which
    [serde] reads by position, is refused here. *)
From S2P Require Import Prelude Ident Json LlmTypes LlmCall F32.

(** * Decoders *)

Definition de_string : json → option string := as_str.
Definition de_bool : json → option bool := as_bool.
Definition de_value (j : json) : option json := Some j.

Definition de_below (bound : Z) (j : json) : option Z :=
  match j with JNum n => if (0 <=? n)%Z && (n <=? bound)%Z then Some n else None | _ => None end.
Definition de_u32 : json → option Z := de_below u32_max.
Definition de_u64 : json → option Z := de_below u64_max.

Definition de_vec {A} (d : json → option A) (j : json) : option (list A) :=
  match j with JArr l => mapM d l | _ => None end.

Definition de_option {A} (d : json → option A) (j : json) : option (option A) :=
  match j with JNull => Some None | _ => Some <$> d j end.

(** A field without [serde(default)]. *)
Definition field {A} (d : json → option A) (k : string) (j : json) : option A := json_get k j ≫= d.

(** A field with it; [Option] fields have it in effect. *)
Definition field_default {A} (dflt : A) (d : json → option A) (k : string) (j : json) : option A :=
  match j with
  | JObj ms => match member k ms with Some v => d v | None => Some dflt end
  | _ => None
  end.

Definition field_opt {A} (d : json → option A) : string → json → option (option A) := field_default None (de_option d).

(** * The chunks of a stream *)

Definition de_function_call_delta (j : json) : option FunctionCallDelta :=
  name ← field_opt de_string "name" j;
  arguments ← field_opt de_string "arguments" j;
  Some {| fd_name := name; fd_arguments := arguments |}.

Definition de_tool_call_delta (j : json) : option ToolCallDelta :=
  index ← field de_u32 "index" j;
  id ← field_opt de_string "id" j;
  function ← field_opt de_function_call_delta "function" j;
  Some {| td_index := Z.to_nat index; td_id := id; td_function := function |}.

(** [Delta]'s own [Deserialize]: the first of three spellings that says
    something. *)
Definition de_delta (j : json) : option Delta :=
  _ ← field_opt de_string "role" j;
  content ← field_opt de_string "content" j;
  reasoning_content ← field_opt de_string "reasoning_content" j;
  reasoning_summary ← field_opt de_string "reasoning_summary" j;
  reasoning ← field_opt de_string "reasoning" j;
  tool_calls ← field_opt (de_vec de_tool_call_delta) "tool_calls" j;
  Some {| dl_content := content;
          dl_reasoning_content := or_else (nonempty reasoning_content) (or_else (nonempty reasoning_summary) (nonempty reasoning));
          dl_tool_calls := tool_calls |}.

Definition de_stream_choice (j : json) : option Delta :=
  _ ← field de_u32 "index" j;
  delta ← field de_delta "delta" j;
  _ ← field_opt de_string "finish_reason" j;
  Some delta.

Definition de_completion_tokens_details (j : json) : option (option Z) := field_opt de_u32 "reasoning_tokens" j.

Definition de_usage (j : json) : option Usage :=
  prompt ← field de_u32 "prompt_tokens" j;
  completion ← field de_u32 "completion_tokens" j;
  total ← field de_u32 "total_tokens" j;
  reasoning ← field_opt de_u32 "reasoning_tokens" j;
  details ← field_opt de_completion_tokens_details "completion_tokens_details" j;
  creation ← field_opt de_u32 "cache_creation_input_tokens" j;
  cached ← field_opt de_u32 "cache_read_input_tokens" j;
  Some {| us_prompt_tokens := prompt; us_completion_tokens := completion; us_total_tokens := total; us_reasoning_tokens := reasoning;
          us_completion_tokens_details := details; us_cache_creation_input_tokens := creation; us_cache_read_input_tokens := cached |}.

Definition de_stream_chunk (j : json) : option StreamChunk :=
  _ ← field de_string "id" j;
  _ ← field de_string "object" j;
  _ ← field de_u64 "created" j;
  _ ← field de_string "model" j;
  choices ← field (de_vec de_stream_choice) "choices" j;
  usage ← field_opt de_usage "usage" j;
  Some {| ch_choices := choices; ch_usage := usage |}.

(** * The answer of a buffered call *)

Definition de_function_call (j : json) : option FunctionCall :=
  name ← field de_string "name" j;
  arguments ← field de_string "arguments" j;
  Some {| fc_name := name; fc_arguments := arguments |}.

Definition de_tool_call (j : json) : option LlmToolCall :=
  id ← field de_string "id" j;
  call_type ← field_default "function" de_string "type" j;
  function ← field de_function_call "function" j;
  Some {| tc_id := id; tc_call_type := call_type; tc_function := function |}.

(** [LlmMessage]'s own [Deserialize]. *)
Definition de_llm_message (j : json) : option LlmMessage :=
  role ← field de_string "role" j;
  content ← field_opt de_string "content" j;
  reasoning_content ← field_opt de_string "reasoning_content" j;
  reasoning_summary ← field_opt de_string "reasoning_summary" j;
  reasoning ← field_opt de_string "reasoning" j;
  tool_calls ← field_opt (de_vec de_tool_call) "tool_calls" j;
  tool_call_id ← field_opt de_string "tool_call_id" j;
  Some (from_raw {| raw_role := role; raw_content := content; raw_reasoning_content := reasoning_content;
                    raw_reasoning_summary := reasoning_summary; raw_reasoning := reasoning;
                    raw_tool_calls := tool_calls; raw_tool_call_id := tool_call_id |}).

Definition de_choice (j : json) : option LlmMessage :=
  _ ← field de_u32 "index" j;
  message ← field de_llm_message "message" j;
  _ ← field_opt de_string "finish_reason" j;
  Some message.

Definition de_completion_response (j : json) : option CompletionResponse :=
  _ ← field de_string "id" j;
  _ ← field de_string "object" j;
  _ ← field de_u64 "created" j;
  _ ← field de_string "model" j;
  choices ← field (de_vec de_choice) "choices" j;
  usage ← field_opt de_usage "usage" j;
  Some {| cr_choices := choices; cr_usage := usage |}.

(** [SseParseResult]. *)
Inductive SseParseResult :=
| Chunk (c : StreamChunk)
| Done
| Skip.

(** * Requests *)

Record FunctionDefinition := { fn_name : string; fn_description : string; fn_parameters : json }.

(** A tool is its function: its type is always ["function"].  [StreamOptions] is
    its one field. *)
Record CompletionRequest := {
  rq_model : string;
  rq_messages : list LlmMessage;
  rq_tools : option (list FunctionDefinition);
  rq_temperature : option f32;
  rq_max_tokens : option Z;
  rq_stream : option bool;
  rq_stream_options : option bool;
  rq_thinking_budget_tokens : option Z;
  rq_reasoning_effort : option string;
  rq_prompt_cache_enabled : option bool;
  rq_gemini_thinking_budget : option Z;
  rq_gemini_cache_enabled : option bool;
  rq_gemini_cache_ttl_seconds : option Z;
  rq_session_id : option SessionId;
}.

(** The builder methods in use here. *)
Definition request_new (model : string) (messages : list LlmMessage) : CompletionRequest := {|
  rq_model := model; rq_messages := messages; rq_tools := None; rq_temperature := None; rq_max_tokens := None; rq_stream := None;
  rq_stream_options := None; rq_thinking_budget_tokens := None; rq_reasoning_effort := None; rq_prompt_cache_enabled := None;
  rq_gemini_thinking_budget := None; rq_gemini_cache_enabled := None; rq_gemini_cache_ttl_seconds := None; rq_session_id := None |}.

(** * Joining neighbours

    Both adapters fold their messages so that neighbours of one role become one
    message; [push] is the body of the fold, on the messages so far with the newest
    first. *)
Section merging.
Context {A R B : Type} (key : A → R) (parts : A → list B) (push : list A → A → list A).

(** What each part is and who says it. *)
Definition said (l : list A) : list (R * B) := l ≫= λ m, pair (key m) <$> parts m.

Definition alternating (l : list A) : Prop := ∀ l1 a b l2, l = l1 ++ a :: b :: l2 → key a ≠ key b.

Record joins : Prop := {
  push_first : ∀ m, push [] m = [m];
  push_cases : ∀ p rest m,
    key p ≠ key m ∧ push (p :: rest) m = m :: p :: rest ∨
    ∃ p', key p = key m ∧ push (p :: rest) m = p' :: rest ∧ key p' = key p ∧ parts p' = parts p ++ parts m;
}.

Hypothesis J : joins.

Lemma said_app l l' : said (l ++ l') = said l ++ said l'.
Proof. apply bind_app. Qed.

Lemma said_one m : said [m] = pair (key m) <$> parts m.
Proof. unfold said. simpl. by rewrite app_nil_r. Qed.

Lemma push_said acc m : said (rev (push acc m)) = said (rev acc) ++ said [m].
Proof.
  destruct acc as [|p rest]; [by rewrite (push_first J)|].
  destruct (push_cases J p rest m) as [[_ ->]|(p' & Hk & -> & Hk' & Hp)]; simpl; rewrite !said_app; [done|].
  rewrite <- app_assoc. f_equal. rewrite !said_one, Hk', Hp, fmap_app, Hk. unfold said. simpl. by rewrite app_nil_r.
Qed.

Lemma joined_said l acc : said (rev (foldl push acc l)) = said (rev acc) ++ said l.
Proof.
  revert acc. induction l as [|m l IH]; intros acc; simpl; [by rewrite app_nil_r|].
  rewrite IH, push_said, <- app_assoc. f_equal. symmetry. apply (said_app [m] l).
Qed.

Lemma push_head acc m : key <$> head (push acc m) = Some (key m).
Proof.
  destruct acc as [|p rest]; [by rewrite (push_first J)|].
  destruct (push_cases J p rest m) as [[_ ->]|(p' & Hk & -> & Hk' & _)]; simpl; congruence.
Qed.

Lemma joined_last l m : last l = Some m → key <$> last (rev (foldl push [] l)) = Some (key m).
Proof.
  intros (l' & ->)%last_Some. rewrite foldl_app. simpl. rewrite <- (push_head (foldl push [] l') m).
  destruct (push (foldl push [] l') m); [done|]. simpl. by rewrite last_snoc.
Qed.

(** Neighbours differ, read in either direction. *)
Fixpoint differing (l : list A) : Prop :=
  match l with a :: (b :: _) as l' => key a ≠ key b ∧ differing l' | _ => True end.

Lemma push_differing acc m : differing acc → differing (push acc m).
Proof.
  destruct acc as [|p rest]; [by rewrite (push_first J)|]. intros H.
  destruct (push_cases J p rest m) as [[Hk ->]|(p' & Hk & -> & Hk' & _)]; [by split|].
  destruct rest as [|q rest]; [done|]. destruct H as [Hn H]. split; [congruence|done].
Qed.

Lemma joined_differing l acc : differing acc → differing (foldl push acc l).
Proof. revert acc. induction l as [|m l IH]; intros acc H; [done|]. by apply IH, push_differing. Qed.

Lemma differing_alternating l : differing l → alternating (rev l).
Proof.
  intros H l1 a b l2 E. apply (f_equal (@rev A)) in E. rewrite rev_involutive, rev_app_distr in E. simpl in E.
  rewrite <- !app_assoc in E. simpl in E. subst l. revert H. induction (rev l2) as [|x l IH]; [intros [? _]; congruence|].
  intros H. apply IH. destruct l; [by destruct H|by destruct H].
Qed.

Lemma joined_alternating l : alternating (rev (foldl push [] l)).
Proof. by apply differing_alternating, joined_differing. Qed.

Lemma push_parts acc m : Forall (λ p, parts p ≠ []) acc → parts m ≠ [] → Forall (λ p, parts p ≠ []) (push acc m).
Proof.
  intros Hacc Hm. destruct acc as [|p rest]; [rewrite (push_first J); by apply Forall_singleton|]. apply Forall_cons in Hacc as [Hp Hr].
  destruct (push_cases J p rest m) as [[_ ->]|(p' & _ & -> & _ & E)]; [by repeat constructor|].
  constructor; [|done]. rewrite E. by destruct (parts p).
Qed.

Lemma joined_parts l : Forall (λ p, parts p ≠ []) l → Forall (λ p, parts p ≠ []) (rev (foldl push [] l)).
Proof.
  intros H. apply Forall_rev. assert (H0 : Forall (λ p : A, parts p ≠ []) []) by done. revert H0. generalize (@nil A).
  induction H as [|m l Hm _ IH]; intros acc Hacc; [done|]. by apply IH, push_parts.
Qed.
End merging.
#[global] Arguments said {A R B} key parts l : simpl never.
