(* ===== verification/Anthropic.v ===== *)
(** The Anthropic adapter: [alms-runtime/src/anthropic.rs].

    A request in the shape of the Messages API, the answer of a buffered call, and
    the events of a streamed one.  [json_from_str] and [json_to_string] are
    [serde_json]'s; [default_hash] is the standard library's [DefaultHasher], whose
    algorithm is not specified. *)
From S2P Require Import Prelude Ident Json LlmTypes LlmCall TextEdit F32 Wire.
Import SimpleUuid.

(** * Types of the wire *)

(** [ContentBlock]. *)
Inductive ContentBlock :=
| TextBlock (text : string)
| ToolUse (id name : string) (input : json)
| ToolResultBlock (tool_use_id content : string)
| Thinking (thinking : string) (signature : option string).

Inductive AnthropicContent :=
| PlainText (text : string)
| Blocks (blocks : list ContentBlock).

Record AnthropicMessage := mkAnthropic { am_role : string; am_content : AnthropicContent }.

(** [CacheControl::ephemeral]. *)
Definition ephemeral : string := "ephemeral".

Record AnthropicSystemBlock := { sb_text : string; sb_cache_control : option string }.
Inductive AnthropicSystem :=
| SystemText (text : string)
| SystemBlocks (blocks : list AnthropicSystemBlock).

Record AnthropicTool := { at_name : string; at_description : string; at_input_schema : json; at_cache_control : option string }.

Record AnthropicRequest := {
  ar_model : string;
  ar_messages : list AnthropicMessage;
  ar_system : option AnthropicSystem;
  ar_tools : option (list AnthropicTool);
  ar_max_tokens : Z;
  ar_stream : option bool;
  (** [AnthropicThinking], whose kind is always ["enabled"]. *)
  ar_thinking : option Z;
}.

Record AnthropicUsage := {
  au_input_tokens : Z;
  au_output_tokens : Z;
  au_cache_creation_input_tokens : option Z;
  au_cache_read_input_tokens : option Z;
}.

Record AnthropicResponse := {
  an_id : string;
  an_content : list ContentBlock;
  an_model : string;
  an_stop_reason : option string;
  an_usage : AnthropicUsage;
}.

Record StreamDelta := {
  sd_delta_type : string;
  sd_text : option string;
  sd_partial_json : option string;
  sd_thinking : option string;
  sd_usage : option AnthropicUsage;
}.

Record StreamEvent := {
  ev_index : option Z;
  ev_delta : option StreamDelta;
  ev_content_block : option ContentBlock;
  ev_message : option AnthropicResponse;
  ev_usage : option AnthropicUsage;
}.

(** ** Their decoders *)

Definition de_content_block (j : json) : option ContentBlock :=
  tag ← field de_string "type" j;
  if String.eqb tag "text" then TextBlock <$> field de_string "text" j
  else if String.eqb tag "tool_use" then
    id ← field de_string "id" j;
    name ← field de_string "name" j;
    ToolUse id name <$> field de_value "input" j
  else if String.eqb tag "tool_result" then
    id ← field de_string "tool_use_id" j;
    ToolResultBlock id <$> field de_string "content" j
  else if String.eqb tag "thinking" then
    thinking ← field de_string "thinking" j;
    Thinking thinking <$> field_opt de_string "signature" j
  else None.

Definition de_anthropic_usage (j : json) : option AnthropicUsage :=
  input ← field_default 0%Z de_u32 "input_tokens" j;
  output ← field de_u32 "output_tokens" j;
  creation ← field_opt de_u32 "cache_creation_input_tokens" j;
  cached ← field_opt de_u32 "cache_read_input_tokens" j;
  Some {| au_input_tokens := input; au_output_tokens := output; au_cache_creation_input_tokens := creation;
          au_cache_read_input_tokens := cached |}.

Definition de_anthropic_response (j : json) : option AnthropicResponse :=
  id ← field de_string "id" j;
  content ← field (de_vec de_content_block) "content" j;
  model ← field de_string "model" j;
  stop_reason ← field_opt de_string "stop_reason" j;
  usage ← field de_anthropic_usage "usage" j;
  Some {| an_id := id; an_content := content; an_model := model; an_stop_reason := stop_reason; an_usage := usage |}.

Definition de_stream_delta (j : json) : option StreamDelta :=
  delta_type ← field de_string "type" j;
  text ← field_opt de_string "text" j;
  partial_json ← field_opt de_string "partial_json" j;
  thinking ← field_opt de_string "thinking" j;
  _ ← field_opt de_string "signature" j;
  _ ← field_opt de_string "_stop_reason" j;
  usage ← field_opt de_anthropic_usage "usage" j;
  Some {| sd_delta_type := delta_type; sd_text := text; sd_partial_json := partial_json; sd_thinking := thinking; sd_usage := usage |}.

Definition de_stream_event (j : json) : option StreamEvent :=
  _ ← field de_string "type" j;
  index ← field_opt de_u32 "index" j;
  delta ← field_opt de_stream_delta "delta" j;
  content_block ← field_opt de_content_block "content_block" j;
  message ← field_opt de_anthropic_response "message" j;
  usage ← field_opt de_anthropic_usage "usage" j;
  Some {| ev_index := index; ev_delta := delta; ev_content_block := content_block; ev_message := message; ev_usage := usage |}.

Section adapter.
Context (json_from_str : string → option json) (json_to_string : json → string) (default_hash : string → Z).

(** * Requests *)

Definition id_char (c : ascii) : bool := is_ascii_alphanumeric c || Ascii.eqb c "-"%char || Ascii.eqb c "_"%char.

(** One underscore per character, however many bytes it has. *)
Fixpoint clean_id (cs : list string) : string :=
  match cs with
  | [] => ""
  | c :: cs => (if forall_chars id_char c then c else "_") +:+ clean_id cs
  end.

Definition sanitize_anthropic_tool_id (id : string) : string :=
  if existsb (forall_chars id_char) (str_chars id) then clean_id (str_chars id)
  else "call_" +:+ hex_print 16 (Z.to_N (default_hash id)).

Definition tool_use_block (tc : LlmToolCall) : ContentBlock :=
  ToolUse (sanitize_anthropic_tool_id (tc_id tc)) (fc_name (tc_function tc)) (normalize_tool_args json_from_str (fc_arguments (tc_function tc))).

Definition assistant_blocks (text : option string) (calls : list LlmToolCall) : list ContentBlock :=
  match nonempty text with Some t => [TextBlock t] | None => [] end ++ map tool_use_block calls.

Definition push_tool_result (block : ContentBlock) (messages : list AnthropicMessage) : list AnthropicMessage :=
  match last messages with
  | Some m =>
      match am_content m with
      | Blocks bs =>
          if String.eqb (am_role m) "user" then removelast messages ++ [mkAnthropic "user" (Blocks (bs ++ [block]))]
          else messages ++ [mkAnthropic "user" (Blocks [block])]
      | PlainText _ => messages ++ [mkAnthropic "user" (Blocks [block])]
      end
  | None => messages ++ [mkAnthropic "user" (Blocks [block])]
  end.

(** The body of the loop over the messages. *)
Definition convert_message (acc : list string * list AnthropicMessage) (msg : LlmMessage) : list string * list AnthropicMessage :=
  let '(system_parts, messages) := acc in
  if String.eqb (role msg) "system" then
    (match content msg with Some text => system_parts ++ [text] | None => system_parts end, messages)
  else if String.eqb (role msg) "user" then (system_parts, messages ++ [mkAnthropic "user" (PlainText (content_str msg))])
  else if String.eqb (role msg) "assistant" then
    (system_parts,
     messages ++ [mkAnthropic "assistant" (match tool_calls msg with
                                            | Some calls => Blocks (assistant_blocks (content msg) calls)
                                            | None => PlainText (content_str msg)
                                            end)])
  else if String.eqb (role msg) "tool" then
    (system_parts, push_tool_result (ToolResultBlock (sanitize_anthropic_tool_id (default "" (tool_call_id msg))) (content_str msg)) messages)
  else acc.

Definition content_to_blocks (c : AnthropicContent) : list ContentBlock :=
  match c with PlainText text => [TextBlock text] | Blocks bs => bs end.

(** The messages merged so far, the newest first. *)
Definition merge_push (merged : list AnthropicMessage) (msg : AnthropicMessage) : list AnthropicMessage :=
  match merged with
  | prev :: rest =>
      if String.eqb (am_role prev) (am_role msg)
      then mkAnthropic (am_role prev) (Blocks (content_to_blocks (am_content prev) ++ content_to_blocks (am_content msg))) :: rest
      else msg :: merged
  | [] => [msg]
  end.

Definition merge_consecutive_roles (messages : list AnthropicMessage) : list AnthropicMessage := rev (foldl merge_push [] messages).

(** The last element of a list gets the mark. *)
Fixpoint mark_last {A B} (f : option string → A → B) (mark : option string) (l : list A) : list B :=
  match l with
  | [] => []
  | [x] => [f mark x]
  | x :: l => f None x :: mark_last f mark l
  end.

Definition DEFAULT_AGENT_MAX_TOKENS : Z := 32000.

Definition to_anthropic_request (req : CompletionRequest) : AnthropicRequest :=
  let '(system_parts, messages) := foldl convert_message ([], []) (rq_messages req) in
  let cache_enabled := default false (rq_prompt_cache_enabled req) in
  let mark := if cache_enabled then Some ephemeral else None in
  {| ar_model := rq_model req;
     ar_messages := merge_consecutive_roles messages;
     ar_system :=
       match system_parts with
       | [] => None
       | _ => Some (if cache_enabled
                    then SystemBlocks (mark_last (λ mark text, {| sb_text := text; sb_cache_control := mark |}) mark system_parts)
                    else SystemText (String.concat (LF +:+ LF) system_parts))
       end;
     ar_tools := mark_last (λ mark d, {| at_name := fn_name d; at_description := fn_description d; at_input_schema := fn_parameters d;
                                         at_cache_control := mark |}) mark <$> rq_tools req;
     ar_max_tokens := default DEFAULT_AGENT_MAX_TOKENS (rq_max_tokens req);
     ar_stream := rq_stream req;
     ar_thinking := (n ← rq_thinking_budget_tokens req; if (0 <? n)%Z then Some n else None) |}.

(** * Answers *)

Definition block_text (b : ContentBlock) : option string := match b with TextBlock text => Some text | _ => None end.
Definition block_thinking (b : ContentBlock) : option string := match b with Thinking t _ => Some t | _ => None end.
Definition block_call (b : ContentBlock) : option LlmToolCall :=
  match b with ToolUse id name input => Some (tool_call_new id name (json_to_string input)) | _ => None end.

Definition joined (parts : list string) : option string := match parts with [] => None | _ => Some (String.concat "" parts) end.
Definition some_calls (calls : list LlmToolCall) : option (list LlmToolCall) := match calls with [] => None | _ => Some calls end.

(** The sum is in 32 bits. *)
Definition usage_of (u : AnthropicUsage) : Usage := {|
  us_prompt_tokens := au_input_tokens u; us_completion_tokens := au_output_tokens u;
  us_total_tokens := ((au_input_tokens u + au_output_tokens u) `mod` 2 ^ 32)%Z;
  us_reasoning_tokens := None; us_completion_tokens_details := None;
  us_cache_creation_input_tokens := au_cache_creation_input_tokens u; us_cache_read_input_tokens := au_cache_read_input_tokens u |}.

Definition from_anthropic_response (resp : AnthropicResponse) : CompletionResponse := {|
  cr_choices := [{| role := "assistant";
                    content := joined (omap block_text (an_content resp));
                    reasoning_content := joined (omap block_thinking (an_content resp));
                    tool_calls := some_calls (omap block_call (an_content resp));
                    tool_call_id := None |}];
  cr_usage := Some (usage_of (an_usage resp)) |}.

(** * Events of a stream *)

(** A chunk with one choice. *)
Definition chunk_of (content reasoning : option string) (calls : option (list ToolCallDelta)) : SseParseResult :=
  Chunk {| ch_choices := [{| dl_content := content; dl_reasoning_content := reasoning; dl_tool_calls := calls |}]; ch_usage := None |}.

Definition content_block_delta (ev : StreamEvent) : SseParseResult :=
  match ev_delta ev with
  | None => Skip
  | Some delta =>
      let index := default 0%Z (ev_index ev) in
      if String.eqb (sd_delta_type delta) "text_delta" then chunk_of (sd_text delta) None None
      else if String.eqb (sd_delta_type delta) "thinking_delta" then chunk_of None (sd_thinking delta) None
      else if String.eqb (sd_delta_type delta) "signature_delta" then Skip
      else if String.eqb (sd_delta_type delta) "input_json_delta" then
        chunk_of None None (Some [{| td_index := Z.to_nat index; td_id := None;
                                     td_function := Some {| fd_name := None; fd_arguments := sd_partial_json delta |} |}])
      else Skip
  end.

Definition content_block_start (ev : StreamEvent) : SseParseResult :=
  match ev_content_block ev with
  | Some (ToolUse id name _) =>
      chunk_of None None (Some [{| td_index := Z.to_nat (default 0%Z (ev_index ev)); td_id := Some id;
                                   td_function := Some {| fd_name := Some name; fd_arguments := None |} |}])
  | _ => Skip
  end.

Definition message_delta (ev : StreamEvent) : SseParseResult :=
  match or_else (d ← ev_delta ev; sd_usage d) (ev_usage ev) with
  | Some u => Chunk {| ch_choices := []; ch_usage := Some (usage_of u) |}
  | None => Skip
  end.

Definition message_start (ev : StreamEvent) : SseParseResult :=
  match ev_message ev with
  | Some msg => Chunk {| ch_choices := [{| dl_content := None; dl_reasoning_content := None; dl_tool_calls := None |}];
                         ch_usage := Some (usage_of (an_usage msg)) |}
  | None => Skip
  end.

Definition parse_anthropic_sse (event_type data : string) : SseParseResult :=
  let on_event (k : StreamEvent → SseParseResult) :=
    match json_from_str data ≫= de_stream_event with Some ev => k ev | None => Skip end in
  if String.eqb event_type "content_block_delta" then on_event content_block_delta
  else if String.eqb event_type "content_block_start" then on_event content_block_start
  else if String.eqb event_type "message_delta" then on_event message_delta
  else if String.eqb event_type "message_start" then on_event message_start
  else if String.eqb event_type "message_stop" then Done
  else Skip.
End adapter.
