(* ===== verification/AnthropicProps.v ===== *)
(** What holds of the Anthropic adapter: a canonical conversation becomes a
    request the Messages API takes, and a streamed answer is the buffered one. *)
From S2P Require Import Prelude Ident Json LlmTypes Normalize TextEdit LlmCall F32 Wire Anthropic.
Import SimpleUuid.

Section requests.
Context (json_from_str : string → option json) (default_hash : string → Z).

(** * What a conversation says *)

Abbreviation parts := (λ m : AnthropicMessage, content_to_blocks (am_content m)).
Abbreviation said_on_wire := (said am_role parts).

(** The blocks of one message and who says them on the wire. *)
Definition spoken (m : LlmMessage) : list (string * ContentBlock) :=
  if has_role "user" m then [("user", TextBlock (content_str m))]
  else if has_role "assistant" m then
    pair "assistant" <$> match tool_calls m with
                         | Some calls => assistant_blocks json_from_str default_hash (content m) calls
                         | None => [TextBlock (content_str m)]
                         end
  else if has_role "tool" m then
    [("user", ToolResultBlock (sanitize_anthropic_tool_id default_hash (default "" (tool_call_id m))) (content_str m))]
  else [].

Definition system_text (m : LlmMessage) : option string := if has_role "system" m then content m else None.

Lemma pushes_join : joins am_role parts Anthropic.merge_push.
Proof.
  split; [done|]. intros p rest m. unfold Anthropic.merge_push. destruct (String.eqb_spec (am_role p) (am_role m)); [right|by left].
  by eexists.
Qed.

Lemma push_tool_result_said b l : said_on_wire (push_tool_result b l) = said_on_wire l ++ [("user", b)].
Proof.
  unfold push_tool_result. assert (H : said_on_wire (l ++ [mkAnthropic "user" (Blocks [b])]) = said_on_wire l ++ [("user", b)]) by (by rewrite said_app).
  destruct (last l) as [m|] eqn:El; [|done]. destruct (am_content m) as [|bs] eqn:Em; [done|].
  destruct (String.eqb_spec (am_role m) "user") as [Er|]; [|done]. apply last_Some in El as [l' ->].
  rewrite removelast_last, !said_app, <- app_assoc. f_equal. rewrite !said_one. simpl. by rewrite Em, Er, fmap_app.
Qed.

Ltac role_tests :=
  repeat match goal with
  | |- context [String.eqb (role ?m) ?r] => let H := fresh "Hr" in destruct (String.eqb_spec (role m) r) as [H|H]; [rewrite ?H; cbn|]
  end.

Lemma convert_said m acc :
  said_on_wire (convert_message json_from_str default_hash acc m).2 = said_on_wire acc.2 ++ spoken m ∧
  (convert_message json_from_str default_hash acc m).1 = acc.1 ++ match system_text m with Some t => [t] | None => [] end.
Proof.
  destruct acc as [sys l]. unfold convert_message, spoken, system_text, has_role. simpl.
  role_tests; rewrite ?app_nil_r; try by (destruct (content m); rewrite ?app_nil_r).
  - by rewrite said_app.
  - rewrite said_app, said_one. split; [|done]. f_equal. simpl. by destruct (tool_calls m).
  - by rewrite push_tool_result_said.
Qed.

Lemma converted l : ∀ acc,
  said_on_wire (foldl (convert_message json_from_str default_hash) acc l).2 = said_on_wire acc.2 ++ (l ≫= spoken) ∧
  (foldl (convert_message json_from_str default_hash) acc l).1 = acc.1 ++ omap system_text l.
Proof.
  induction l as [|m l IH]; intros acc; simpl; [by rewrite !app_nil_r|].
  destruct (IH (convert_message json_from_str default_hash acc m)) as [-> ->].
  destruct (convert_said m acc) as [-> ->]. rewrite <- !app_assoc. split; [done|]. f_equal. by destruct (system_text m).
Qed.

(** * Ids *)

(** [^[a-zA-Z0-9_-]+$]. *)
Definition valid_id (id : string) : bool := negb (String.eqb id "") && forall_chars id_char id.

Lemma hex_print_id k n : forall_chars id_char (hex_print k n) = true.
Proof.
  revert n. induction k as [|k IH]; intros n; [done|]. simpl. rewrite forall_chars_app, IH. simpl. rewrite andb_true_r.
  assert (H : (n mod 16 < 16)%N) by (apply N.mod_lt; done). revert H. generalize (n mod 16)%N. intros d Hd.
  assert (E : ∃ i, i < 16 ∧ d = N.of_nat i) by (exists (N.to_nat d); lia). destruct E as (i & Hi & ->).
  do 16 (destruct i as [|i]; [reflexivity|]). lia.
Qed.

Lemma clean_id_chars cs : forall_chars id_char (clean_id cs) = true.
Proof. induction cs as [|c cs IH]; [done|]. simpl. rewrite forall_chars_app, IH, andb_true_r. by destruct (forall_chars id_char c) eqn:E. Qed.

Lemma sanitized_valid id : valid_id (sanitize_anthropic_tool_id default_hash id) = true.
Proof.
  unfold valid_id, sanitize_anthropic_tool_id. destruct (existsb _ _) eqn:E.
  - rewrite clean_id_chars, andb_true_r. unfold str_chars in *. destruct (utf8_chars id) as [[|c cs]|] eqn:Ec; [done| |done]. simpl.
    apply utf8_chars_spec in Ec as [_ [Hc _]%Forall_cons]. destruct (forall_chars id_char c); [|done]. by destruct c.
  - rewrite forall_chars_app, hex_print_id. done.
Qed.

(** * What the API asks of a request *)

Definition block_id (b : ContentBlock) : option string :=
  match b with ToolUse id _ _ | ToolResultBlock id _ => Some id | _ => None end.

Record accepted (l : list LlmMessage) (r : AnthropicRequest) : Prop := {
  (** Every message is said, in order and by its side. *)
  acc_said : said_on_wire (ar_messages r) = l ≫= spoken;
  acc_system : match ar_system r with
    | None => omap system_text l = []
    | Some (SystemText text) => text = String.concat lf2 (omap system_text l)
    | Some (SystemBlocks bs) => sb_text <$> bs = omap system_text l ∧
        (** One mark, on the last block. *)
        ∃ bs' b, bs = bs' ++ [b] ∧ sb_cache_control b = Some ephemeral ∧ Forall (λ b, sb_cache_control b = None) bs'
    end;
  acc_alternating : alternating am_role (ar_messages r);
  acc_user_last : am_role <$> last (ar_messages r) = Some "user";
  acc_no_empty : Forall (λ m, parts m ≠ []) (ar_messages r) ∧ ∀ who, (who, TextBlock "") ∉ said_on_wire (ar_messages r);
  acc_ids : ∀ who b id, (who, b) ∈ said_on_wire (ar_messages r) → block_id b = Some id → valid_id id = true;
  acc_inputs : ∀ who id name input, (who, ToolUse id name input) ∈ said_on_wire (ar_messages r) → is_object input = true;
  (** A call is answered, and a result has its call before it. *)
  acc_answered : ∀ id name input, ("assistant", ToolUse id name input) ∈ said_on_wire (ar_messages r) →
    ∃ text, ("user", ToolResultBlock id text) ∈ said_on_wire (ar_messages r);
  acc_called : ∀ s1 s2 id text, said_on_wire (ar_messages r) = s1 ++ ("user", ToolResultBlock id text) :: s2 →
    ∃ name input, ("assistant", ToolUse id name input) ∈ s1;
}.

Definition only_assistants_call (m : LlmMessage) : Prop := role m ≠ "assistant" → tool_calls m = None.

(** What the context builder sends ([normalized_ready]): canonical, no result
    without its call, and only an assistant calls tools. *)
Record ready (l : list LlmMessage) : Prop := {
  ready_canonical : canonical l;
  ready_paired : no_orphans l;
  ready_calls : Forall only_assistants_call l;
}.

Lemma strip_mid_forall P l : Forall P l → Forall P (strip_mid_history_system_markers l).
Proof.
  assert (Hs : ∀ l, Forall P l → Forall P (strip_systems l)) by (induction 1; simpl; [done|]; destruct (has_role "system" _); auto).
  intros H. induction H as [|m l Hm Hl IH]; simpl; [done|]. destruct (has_role "system" m); [by constructor|]. constructor; auto.
Qed.

Lemma strip_orphans_forall P l known : Forall P l → Forall P (strip_orphans known l).
Proof. intros H. revert known. induction H; intros known; simpl; [done|]. destruct (_ && _); auto. Qed.

Lemma normalized_ready messages extra has_fresh_input :
  Forall only_assistants_call messages → Forall only_assistants_call extra → Forall (λ m, role m ≠ "tool") extra →
  ready (normalize_for_llm (strip_orphaned_tool_results messages ++ extra) has_fresh_input).
Proof.
  intros Hm He Hx. split; [apply normalize_shape|by apply normalized_no_orphans|].
  unfold normalize_for_llm. rewrite close_unfold.
  match goal with |- Forall _ (ensure_trailing_user ?x _) =>
    assert (H : Forall only_assistants_call x); [|destruct (ensure_cases x has_fresh_input) as [E|E]; rewrite E; [done|]] end.
  - apply close_from_forall; [done|]. rewrite merge_unfold.
    assert (H : Forall only_assistants_call (drop_empty_content_messages (strip_mid_history_system_markers (strip_orphaned_tool_results messages ++ extra)))).
    { apply drop_empty_forall, strip_mid_forall, Forall_app. split; [by apply strip_orphans_forall|done]. }
    destruct H as [|m l ??]; [done|]. by apply merge_from_forall.
  - apply Forall_app. split; [done|]. by apply Forall_singleton.
Qed.

Lemma spoken_user m : role m = "user" → spoken m = [("user", TextBlock (content_str m))].
Proof. unfold spoken, has_role. by intros ->. Qed.

Lemma spoken_assistant m : role m = "assistant" →
  spoken m = pair "assistant" <$> match tool_calls m with
                                  | Some calls => assistant_blocks json_from_str default_hash (content m) calls
                                  | None => [TextBlock (content_str m)]
                                  end.
Proof. unfold spoken, has_role. by intros ->. Qed.

Lemma spoken_tool m : role m = "tool" →
  spoken m = [("user", ToolResultBlock (sanitize_anthropic_tool_id default_hash (default "" (tool_call_id m))) (content_str m))].
Proof. unfold spoken, has_role. by intros ->. Qed.

(** The block a message speaks tells its role. *)
Lemma spoken_inv m who b : (who, b) ∈ spoken m →
  role m = "user" ∧ who = "user" ∧ b = TextBlock (content_str m) ∨
  role m = "tool" ∧ who = "user" ∧ b = ToolResultBlock (sanitize_anthropic_tool_id default_hash (default "" (tool_call_id m))) (content_str m) ∨
  role m = "assistant" ∧ who = "assistant" ∧
    (tool_calls m = None ∧ b = TextBlock (content_str m) ∨
     ∃ calls, tool_calls m = Some calls ∧ (nonempty (content m) = match b with TextBlock t => Some t | _ => None end ∧ (∃ t, b = TextBlock t) ∨
       ∃ tc, tc ∈ calls ∧ b = tool_use_block json_from_str default_hash tc)).
Proof.
  destruct (decide (role m = "user")) as [Hr|Hu]; [|destruct (decide (role m = "assistant")) as [Hr|Ha]; [|destruct (decide (role m = "tool")) as [Hr|Ht]]].
  - rewrite spoken_user by done. intros [= -> ->]%list_elem_of_singleton. by left.
  - rewrite spoken_assistant by done. intros (b' & [= -> ->] & Hb)%list_elem_of_fmap. right. right. split; [done|]. split; [done|].
    destruct (tool_calls m) as [calls|]; [|left; apply list_elem_of_singleton in Hb; done]. right. exists calls. split; [done|].
    unfold assistant_blocks in Hb. apply elem_of_app in Hb as [Hb|(tc & -> & Htc)%list_elem_of_fmap]; [left|right; by exists tc].
    destruct (nonempty (content m)) as [t|]; [|by apply elem_of_nil in Hb]. apply list_elem_of_singleton in Hb as ->. split; [done|by eexists].
  - rewrite spoken_tool by done. intros [= -> ->]%list_elem_of_singleton. right. by left.
  - unfold spoken, has_role. rewrite !(proj2 (String.eqb_neq _ _)) by done. by intros ?%elem_of_nil.
Qed.

Lemma spoken_call m id : id ∈ ids_of m → ∃ name input, ("assistant", ToolUse (sanitize_anthropic_tool_id default_hash id) name input) ∈ spoken m.
Proof.
  unfold ids_of. destruct (has_role "assistant" m) eqn:Hr; [|by intros ?%elem_of_nil]. apply String.eqb_eq in Hr.
  rewrite spoken_assistant by done. destruct (tool_calls m) as [calls|]; [|by intros ?%elem_of_nil].
  intros (tc & -> & Htc)%list_elem_of_fmap. do 2 eexists. apply list_elem_of_fmap. eexists. split; [done|].
  apply elem_of_app. right. by apply (list_elem_of_fmap_2 (tool_use_block json_from_str default_hash)).
Qed.

(** Where a part of a conversation comes from. *)
Lemma bind_split {A B} (f : A → list B) l s1 x s2 : l ≫= f = s1 ++ x :: s2 →
  ∃ l1 a l2 u v, l = l1 ++ a :: l2 ∧ f a = u ++ x :: v ∧ s1 = (l1 ≫= f) ++ u.
Proof.
  revert s1. induction l as [|a l IH]; intros s1 E; simpl in E; [by destruct s1|].
  apply app_eq_inv in E as [(k & E1 & E2)|(k & E1 & E2)].
  - destruct k as [|y k]; simpl in E2.
    + destruct (IH [] (eq_sym E2)) as (l1 & a' & l2 & u & v & -> & Hf & Hs). exists (a :: l1), a', l2, u, v.
      split; [done|]. split; [done|]. rewrite app_nil_r in E1. by rewrite bind_cons, <- app_assoc, <- Hs, E1, app_nil_r.
    + injection E2 as <- ->. exists [], a, l, s1, k. by rewrite E1.
  - destruct (IH k E2) as (l1 & a' & l2 & u & v & -> & Hf & Hs). exists (a :: l1), a', l2, u, v.
    split; [done|]. split; [done|]. by rewrite bind_cons, E1, Hs, app_assoc.
Qed.

Lemma inputs_are_objects args : is_object (normalize_tool_args json_from_str args) = true.
Proof. unfold normalize_tool_args. destruct (String.eqb (trim args) ""); [done|]. destruct (json_from_str args) as [v|]; [|done]. by destruct (is_object v) eqn:E. Qed.

Lemma marked_last texts : texts ≠ [] →
  let bs := mark_last (λ mark text, {| sb_text := text; sb_cache_control := mark |}) (Some ephemeral) texts in
  sb_text <$> bs = texts ∧ ∃ bs' b, bs = bs' ++ [b] ∧ sb_cache_control b = Some ephemeral ∧ Forall (λ b, sb_cache_control b = None) bs'.
Proof.
  induction texts as [|t texts IH]; [done|]. intros _. destruct texts as [|t' texts].
  - split; [done|]. eexists [], _. split; [reflexivity|]. split; [reflexivity|constructor].
  - destruct IH as (E & bs' & b & Eb & Hb & Hbs); [done|]. split; [by rewrite <- E at 2|].
    eexists (_ :: bs'), b. split; [by simpl in *; rewrite Eb|]. split; [done|]. by constructor.
Qed.

Lemma assistant_blocks_some m calls : role m = "assistant" → has_payload m = true → tool_calls m = Some calls →
  assistant_blocks json_from_str default_hash (content m) calls ≠ [].
Proof.
  intros Hr Hp Hc. unfold has_payload, has_role in Hp. rewrite Hr, Hc in Hp. unfold assistant_blocks, nonempty.
  destruct (content m) as [t|]; [destruct (String.eqb_spec t "")|]; try done; subst; by destruct calls.
Qed.

Lemma push_tool_result_parts b ms : Forall (λ m, parts m ≠ []) ms → Forall (λ m, parts m ≠ []) (push_tool_result b ms).
Proof.
  intros H. assert (Hs : Forall (λ m, parts m ≠ []) (ms ++ [mkAnthropic "user" (Blocks [b])])).
  { apply Forall_app. split; [done|]. by apply Forall_singleton. }
  unfold push_tool_result. destruct (last ms) as [q|] eqn:El; [|done]. destruct (am_content q) as [|bs]; [done|].
  destruct (String.eqb (am_role q) "user"); [|done]. apply last_Some in El as [ms' ->]. rewrite removelast_last.
  apply Forall_app in H as [? _]. apply Forall_app. split; [done|]. apply Forall_singleton. simpl. by destruct bs.
Qed.

Lemma converted_parts l acc :
  Forall (λ m, has_payload m = true) l → Forall (λ m, parts m ≠ []) acc.2 →
  Forall (λ m, parts m ≠ []) (foldl (convert_message json_from_str default_hash) acc l).2.
Proof.
  intros Hl. revert acc. induction Hl as [|m l Hp _ IH]; intros [sys ms] Hacc; [done|]. apply IH. unfold convert_message. simpl in *.
  destruct (String.eqb_spec (role m) "system"); [done|].
  destruct (String.eqb_spec (role m) "user"); [by apply Forall_app; split; [|apply Forall_singleton]|].
  destruct (String.eqb_spec (role m) "assistant").
  - apply Forall_app. split; [done|]. apply Forall_singleton. simpl. destruct (tool_calls m) as [calls|] eqn:Ec; [|done].
    by apply assistant_blocks_some.
  - destruct (String.eqb_spec (role m) "tool"); [by apply push_tool_result_parts|done].
Qed.

(** ** The clauses, of what the messages speak *)

Lemma elem_of_spoken l x : x ∈ l ≫= spoken ↔ ∃ m, x ∈ spoken m ∧ m ∈ l.
Proof. apply list_elem_of_bind. Qed.

Lemma spoken_not_empty l who : Forall (λ m, has_payload m = true) l → Forall only_assistants_call l →
  (who, TextBlock "") ∉ l ≫= spoken.
Proof.
  intros Hp Hc (m & Hb & Hm)%elem_of_spoken. rewrite Forall_forall in Hp, Hc. specialize (Hp m Hm). specialize (Hc m Hm). unfold has_payload, has_role in Hp.
  apply spoken_inv in Hb as [(Hr & _ & [= E])|[(_ & _ & [=])|(Hr & _ & [[Hn [= E]]|(calls & _ & [[E _]|(tc & _ & [=])])])]].
  - unfold content_str in E. rewrite Hr, Hc in Hp by (by rewrite Hr). destruct (content m); simpl in *; by subst.
  - unfold content_str in E. rewrite Hr, Hn in Hp. destruct (content m); simpl in *; by subst.
  - unfold nonempty in E. destruct (content m) as [t|]; [|done]. destruct (String.eqb_spec t ""); [done|]. by injection E.
Qed.

Lemma spoken_ids l who b id : (who, b) ∈ l ≫= spoken → block_id b = Some id → valid_id id = true.
Proof.
  intros (m & Hb & _)%elem_of_spoken Hi.
  apply spoken_inv in Hb as [(_ & _ & ->)|[(_ & _ & ->)|(_ & _ & [[_ ->]|(calls & _ & [[_ (t & ->)]|(tc & _ & ->)])])]]; try done;
    injection Hi as <-; apply sanitized_valid.
Qed.

(** A call on the wire is a call of an assistant. *)
Lemma spoken_use m who id name input : (who, ToolUse id name input) ∈ spoken m →
  is_object input = true ∧ ∃ raw, id = sanitize_anthropic_tool_id default_hash raw ∧ raw ∈ ids_of m.
Proof.
  intros [(_ & _ & [=])|[(_ & _ & [=])|(Hr & _ & [[_ [=]]|(calls & Hc & [[_ (t & [=])]|(tc & Htc & [= -> -> ->])])])]]%spoken_inv.
  split; [apply inputs_are_objects|]. exists (tc_id tc). split; [done|]. unfold ids_of, has_role. rewrite Hr, Hc. by apply list_elem_of_fmap_2.
Qed.

Lemma spoken_answered l who id name input : canonical l → (who, ToolUse id name input) ∈ l ≫= spoken →
  ∃ text, ("user", ToolResultBlock id text) ∈ l ≫= spoken.
Proof.
  intros Hc (m & (_ & raw & -> & Hraw)%spoken_use & Hm)%elem_of_spoken.
  destruct (canon_answered l Hc raw) as (m' & Hm' & Hr & Hi).
  { apply list_elem_of_In, in_flat_map. exists m. by rewrite <- !list_elem_of_In. }
  exists (content_str m'). apply elem_of_spoken. exists m'. split; [|done]. rewrite spoken_tool by done. rewrite Hi. by apply list_elem_of_singleton.
Qed.

Lemma spoken_called l s1 s2 id text : no_orphans l → l ≫= spoken = s1 ++ ("user", ToolResultBlock id text) :: s2 →
  ∃ name input, ("assistant", ToolUse id name input) ∈ s1.
Proof.
  intros Hn (l1 & m & l2 & u & v & -> & Hs & ->)%bind_split.
  assert (Hb : ("user", ToolResultBlock id text) ∈ spoken m) by (rewrite Hs; set_solver).
  apply spoken_inv in Hb as [(_ & _ & [=])|[(Hr & _ & [= -> ->])|(_ & [=] & _)]].
  destruct (Hn l1 m l2 eq_refl Hr) as (raw & -> & Hraw). apply list_elem_of_In, in_flat_map in Hraw as (m' & Hm' & Hid).
  apply list_elem_of_In in Hm', Hid. apply spoken_call in Hid as (name & input & Hu). exists name, input.
  apply elem_of_app. left. apply elem_of_spoken. by exists m'.
Qed.

Lemma converted_last l m acc : last l = Some m → role m = "user" →
  last (foldl (convert_message json_from_str default_hash) acc l).2 = Some (mkAnthropic "user" (PlainText (content_str m))).
Proof.
  intros (l' & ->)%last_Some Hr. rewrite foldl_app. simpl. destruct (foldl _ acc l') as [texts ms]. unfold convert_message. rewrite Hr. simpl.
  by rewrite last_snoc.
Qed.

(** C15: a canonical conversation becomes a request the Messages API takes.  The
    request says every message, in order and by its side, although results of
    tools are moved into turns of the user and neighbours are joined; turns
    alternate, the last is the user's, none is empty; every id is well formed and
    every input an object; each call is answered, and each result has its call
    before it; the system prompt is whole and carries one cache mark at most, at
    its end. *)
Theorem canonical_accepted req : ready (rq_messages req) →
  accepted (rq_messages req) (to_anthropic_request json_from_str default_hash req).
Proof.
  intros [Hc Hn Hcalls]. unfold to_anthropic_request. destruct (converted (rq_messages req) ([], [])) as [Hs Ht].
  destruct (canon_last _ Hc) as (m & Hl & Hu). pose proof (converted_last _ m ([], []) Hl Hu) as Hlast.
  pose proof (converted_parts (rq_messages req) ([], []) (canon_payload _ Hc) ltac:(done)) as Hp.
  destruct (foldl _ _ _) as [texts ms]. simpl in Hs, Ht, Hp, Hlast.
  assert (Hsaid : said_on_wire (merge_consecutive_roles ms) = rq_messages req ≫= spoken).
  { unfold merge_consecutive_roles. rewrite (joined_said _ _ _ pushes_join). exact Hs. }
  split; cbn [ar_messages ar_system]; rewrite ?Hsaid; try done.
  - rewrite <- Ht. destruct texts as [|t texts]; [done|]. destruct (default false (rq_prompt_cache_enabled req)); [|done]. by apply marked_last.
  - exact (joined_alternating _ _ _ pushes_join ms).
  - unfold merge_consecutive_roles. by rewrite (joined_last _ _ _ pushes_join _ _ Hlast).
  - split; [exact (joined_parts _ _ _ pushes_join ms Hp)|]. intros who. apply spoken_not_empty; [apply Hc|done].
  - apply spoken_ids.
  - by intros who id name input (m' & [Hi _]%spoken_use & _)%elem_of_spoken.
  - intros id name input. by apply spoken_answered.
  - intros s1 s2 id text. by apply spoken_called.
Qed.
End requests.

(** * Witnesses *)

Section witnesses.
(** A conversation with two calls, one of them cut off. *)
Local Definition history : list LlmMessage :=
  [llm_system "be brief"; llm_user "list it"; llm_text "assistant" "";
   with_tool_calls (llm_text "assistant" "on it") [tool_call_new "a:1" "fs_list" "{}"; tool_call_new "b" "fs_read" ""];
   llm_tool_result "a:1" "x.txt"].

Local Definition conversation : list LlmMessage := normalize_for_llm (strip_orphaned_tool_results history ++ [llm_user "and?"]) true.

Local Definition request : CompletionRequest := {|
  rq_model := "claude"; rq_messages := conversation; rq_tools := None; rq_temperature := None; rq_max_tokens := None; rq_stream := Some true;
  rq_stream_options := None; rq_thinking_budget_tokens := None; rq_reasoning_effort := None; rq_prompt_cache_enabled := Some true;
  rq_gemini_thinking_budget := None; rq_gemini_cache_enabled := None; rq_gemini_cache_ttl_seconds := None; rq_session_id := None |}.

Lemma canonical_accepted_witness :
  ar_messages (to_anthropic_request (λ _, None) (λ _, 0%Z) request) =
    [mkAnthropic "user" (PlainText "list it");
     mkAnthropic "assistant" (Blocks [TextBlock "on it"; ToolUse "a_1" "fs_list" (JObj [("_raw", JStr "{}")]); ToolUse "b" "fs_read" (JObj [])]);
     mkAnthropic "user" (Blocks [ToolResultBlock "b" INTERRUPTED_TOOL_RESULT; ToolResultBlock "a_1" "x.txt"; TextBlock "and?"])] ∧
  accepted (λ _, None) (λ _, 0%Z) conversation (to_anthropic_request (λ _, None) (λ _, 0%Z) request).
Proof.
  split; [vm_compute; reflexivity|].
  apply (canonical_accepted (λ _, None) (λ _, 0%Z) request). apply normalized_ready; repeat (apply Forall_cons; split; [by vm_compute|]); by apply Forall_nil.
Defined.
End witnesses.
