(* ===== verification/Gemini.v ===== *)
(** The Gemini adapter: [alms-runtime/src/gemini.rs].

    A request in the shape of [generateContent], the answer of a buffered call, and
    the events of a streamed one.  [json_from_str] and [json_to_string] are
    [serde_json]'s. *)
From stdpp Require Import pretty.
From S2P Require Import Prelude Json LlmTypes LlmCall TextEdit F32 Wire.

(** * Types of the wire *)

Inductive GeminiPart :=
| TextPart (text : string) (thought : bool)
| FunctionCallPart (name : string) (args : json)
| FunctionResponsePart (name : string) (response : json).

Record GeminiContent := mkGemini { gc_role : option string; gc_parts : list GeminiPart }.

Record ThinkingConfig := { th_thinking_budget : Z; th_include_thoughts : bool }.

Record GenerationConfig := {
  gn_max_output_tokens : option Z;
  gn_temperature : option f32;
  gn_thinking_config : option ThinkingConfig;
}.

Record GeminiRequest := {
  gr_contents : list GeminiContent;
  gr_system_instruction : option GeminiContent;
  (** One tools entry with all declarations. *)
  gr_tools : option (list (list FunctionDefinition));
  gr_generation_config : option GenerationConfig;
  gr_cached_content : option string;
}.

Record Candidate := { ca_content : option GeminiContent; ca_finish_reason : option string }.

Record UsageMetadata := {
  um_prompt_token_count : Z;
  um_candidates_token_count : Z;
  um_total_token_count : Z;
  um_thoughts_token_count : option Z;
  um_cached_content_token_count : option Z;
}.

Record GeminiResponse := { gm_candidates : list Candidate; gm_usage_metadata : option UsageMetadata }.

(** ** Their decoders *)

(** Untagged: the first shape that fits. *)
Definition de_text_part (j : json) : option GeminiPart :=
  text ← field de_string "text" j;
  TextPart text <$> field_default false de_bool "thought" j.

Definition de_function_call_part (j : json) : option GeminiPart :=
  call ← field de_value "functionCall" j;
  name ← field de_string "name" call;
  FunctionCallPart name <$> field_default JNull de_value "args" call.

Definition de_function_response_part (j : json) : option GeminiPart :=
  r ← field de_value "functionResponse" j;
  name ← field de_string "name" r;
  FunctionResponsePart name <$> field de_value "response" r.

Definition de_gemini_part (j : json) : option GeminiPart :=
  or_else (de_text_part j) (or_else (de_function_call_part j) (de_function_response_part j)).

Definition de_gemini_content (j : json) : option GeminiContent :=
  role ← field_opt de_string "role" j;
  parts ← field (de_vec de_gemini_part) "parts" j;
  Some (mkGemini role parts).

Definition de_candidate (j : json) : option Candidate :=
  content ← field_opt de_gemini_content "content" j;
  finish_reason ← field_opt de_string "finishReason" j;
  Some {| ca_content := content; ca_finish_reason := finish_reason |}.

Definition de_usage_metadata (j : json) : option UsageMetadata :=
  prompt ← field_default 0%Z de_u32 "promptTokenCount" j;
  candidates ← field_default 0%Z de_u32 "candidatesTokenCount" j;
  total ← field_default 0%Z de_u32 "totalTokenCount" j;
  thoughts ← field_opt de_u32 "thoughtsTokenCount" j;
  cached ← field_opt de_u32 "cachedContentTokenCount" j;
  Some {| um_prompt_token_count := prompt; um_candidates_token_count := candidates; um_total_token_count := total;
          um_thoughts_token_count := thoughts; um_cached_content_token_count := cached |}.

Definition de_gemini_response (j : json) : option GeminiResponse :=
  candidates ← field_default [] (de_vec de_candidate) "candidates" j;
  usage ← field_opt de_usage_metadata "usageMetadata" j;
  _ ← field_opt de_string "modelVersion" j;
  Some {| gm_candidates := candidates; gm_usage_metadata := usage |}.

Section adapter.
Context (json_from_str : string → option json) (json_to_string : json → string).

(** * Requests *)

(** The names of all calls by id; a later call of the same id wins. *)
Definition tool_name_by_id (messages : list LlmMessage) : gmap string string :=
  foldl (λ names tc, <[tc_id tc := fc_name (tc_function tc)]> names) ∅
    (messages ≫= λ m, if String.eqb (role m) "assistant" then default [] (tool_calls m) else []).

Definition function_call_part (tc : LlmToolCall) : GeminiPart :=
  FunctionCallPart (fc_name (tc_function tc)) (normalize_tool_args json_from_str (fc_arguments (tc_function tc))).

Definition assistant_parts (m : LlmMessage) : list GeminiPart :=
  match nonempty (content m) with Some text => [TextPart text false] | None => [] end ++
  map function_call_part (default [] (tool_calls m)).

Definition response_object (raw : string) : json :=
  match json_from_str raw with
  | Some v => if is_object v then v else JObj [("result", v)]
  | None => JObj [("result", JStr raw)]
  end.

Definition response_part (names : gmap string string) (m : LlmMessage) : GeminiPart :=
  FunctionResponsePart (default (default "" (tool_call_id m)) (names !! default "" (tool_call_id m))) (response_object (content_str m)).

Definition push_response (part : GeminiPart) (contents : list GeminiContent) : list GeminiContent :=
  match last contents with
  | Some c =>
      if bool_decide (gc_role c = Some "user") then removelast contents ++ [mkGemini (gc_role c) (gc_parts c ++ [part])]
      else contents ++ [mkGemini (Some "user") [part]]
  | None => contents ++ [mkGemini (Some "user") [part]]
  end.

Definition convert_message (names : gmap string string) (acc : list string * list GeminiContent) (msg : LlmMessage)
    : list string * list GeminiContent :=
  let '(system_parts, contents) := acc in
  if String.eqb (role msg) "system" then
    (match content msg with Some text => system_parts ++ [text] | None => system_parts end, contents)
  else if String.eqb (role msg) "user" then
    match nonempty (content msg) with
    | Some text => (system_parts, contents ++ [mkGemini (Some "user") [TextPart text false]])
    | None => acc
    end
  else if String.eqb (role msg) "assistant" then
    match assistant_parts msg with
    | [] => acc
    | parts => (system_parts, contents ++ [mkGemini (Some "model") parts])
    end
  else if String.eqb (role msg) "tool" then (system_parts, push_response (response_part names msg) contents)
  else acc.

(** The entries merged so far, the newest first. *)
Definition merge_push (merged : list GeminiContent) (entry : GeminiContent) : list GeminiContent :=
  match merged with
  | prev :: rest =>
      if bool_decide (gc_role prev = gc_role entry) then mkGemini (gc_role prev) (gc_parts prev ++ gc_parts entry) :: rest
      else entry :: merged
  | [] => [entry]
  end.

Definition merge_consecutive_roles (contents : list GeminiContent) : list GeminiContent := rev (foldl merge_push [] contents).

Definition thinking_config (budget : option Z) : option ThinkingConfig :=
  match budget with
  | Some n => if (0 <? n)%Z then Some {| th_thinking_budget := n; th_include_thoughts := true |} else None
  | None => None
  end.

Definition generation_config (req : CompletionRequest) : option GenerationConfig :=
  match rq_max_tokens req, rq_temperature req, thinking_config (rq_gemini_thinking_budget req) with
  | None, None, None => None
  | m, t, th => Some {| gn_max_output_tokens := m; gn_temperature := t; gn_thinking_config := th |}
  end.

Definition to_gemini_request (req : CompletionRequest) : GeminiRequest :=
  let '(system_parts, contents) := foldl (convert_message (tool_name_by_id (rq_messages req))) ([], []) (rq_messages req) in
  {| gr_contents := merge_consecutive_roles contents;
     gr_system_instruction :=
       match system_parts with [] => None | _ => Some (mkGemini None [TextPart (String.concat (LF +:+ LF) system_parts) false]) end;
     gr_tools := (λ defs, [defs]) <$> rq_tools req;
     gr_generation_config := generation_config req;
     gr_cached_content := None |}.

(** * Answers *)

Definition lowered_finish_reason (r : string) : string :=
  if String.eqb r "STOP" then "stop"
  else if String.eqb r "MAX_TOKENS" then "length"
  else if String.eqb r "TOOL_USE" || String.eqb r "FUNCTION_CALL" then "tool_calls"
  else to_ascii_lowercase r.

(** The parts of the first candidate, if it has any. *)
Definition first_parts (resp : GeminiResponse) : list GeminiPart :=
  match gm_candidates resp with
  | c :: _ => match ca_content c with Some content => gc_parts content | None => [] end
  | [] => []
  end.

Definition part_text (q : GeminiPart) : option string := match q with TextPart text false => Some text | _ => None end.
Definition part_thought (q : GeminiPart) : option string := match q with TextPart text true => Some text | _ => None end.

(** Gemini gives calls no ids: they are numbered from [n] on.  Without arguments a
    call has an empty object. *)
Definition args_text (args : json) : string := match args with JNull => "{}" | _ => json_to_string args end.
Definition synthetic_id (n : nat) : string := "gemini_call_" +:+ pretty n.

Fixpoint numbered_calls (n : nat) (parts : list GeminiPart) : list LlmToolCall :=
  match parts with
  | [] => []
  | FunctionCallPart name args :: parts => tool_call_new (synthetic_id n) name (args_text args) :: numbered_calls (S n) parts
  | _ :: parts => numbered_calls n parts
  end.

Definition joined (parts : list string) : option string := match parts with [] => None | _ => Some (String.concat "" parts) end.

(** Sums are in 32 bits. *)
Definition usage_of (u : UsageMetadata) : Usage := {|
  us_prompt_tokens := um_prompt_token_count u; us_completion_tokens := um_candidates_token_count u;
  us_total_tokens := if (0 <? um_total_token_count u)%Z then um_total_token_count u
                     else ((um_prompt_token_count u + um_candidates_token_count u) `mod` 2 ^ 32)%Z;
  us_reasoning_tokens := um_thoughts_token_count u; us_completion_tokens_details := None;
  us_cache_creation_input_tokens := None; us_cache_read_input_tokens := um_cached_content_token_count u |}.

Definition from_gemini_response (resp : GeminiResponse) : CompletionResponse :=
  let parts := first_parts resp in
  {| cr_choices := [{| role := "assistant";
                       content := joined (omap part_text parts);
                       reasoning_content := joined (omap part_thought parts);
                       tool_calls := match numbered_calls 1 parts with [] => None | calls => Some calls end;
                       tool_call_id := None |}];
     cr_usage := usage_of <$> gm_usage_metadata resp |}.

(** * Events of a stream *)

Definition call_delta (i : nat) (tc : LlmToolCall) : ToolCallDelta :=
  {| td_index := i; td_id := Some (tc_id tc);
     td_function := Some {| fd_name := Some (fc_name (tc_function tc)); fd_arguments := Some (fc_arguments (tc_function tc)) |} |}.

Definition parse_gemini_sse (data : string) : SseParseResult :=
  let data := trim data in
  if String.eqb data "" then Skip
  else if String.eqb data "[DONE]" then Done
  else match json_from_str data ≫= de_gemini_response with
  | None => Skip
  | Some event =>
      let parts := first_parts event in
      let content_text := nonempty (Some (String.concat "" (omap part_text parts))) in
      let reasoning_text := nonempty (Some (String.concat "" (omap part_thought parts))) in
      let deltas := imap call_delta (numbered_calls 1 parts) in
      let finish_reason := match gm_candidates event with c :: _ => lowered_finish_reason <$> ca_finish_reason c | [] => None end in
      let usage := usage_of <$> gm_usage_metadata event in
      match content_text, reasoning_text, deltas, finish_reason, usage with
      | None, None, [], None, None => Skip
      | _, _, _, _, _ =>
          Chunk {| ch_choices := [{| dl_content := content_text; dl_reasoning_content := reasoning_text;
                                     dl_tool_calls := match deltas with [] => None | _ => Some deltas end |}];
                   ch_usage := usage |}
      end
  end.
End adapter.
