(* ===== verification/GeminiProps.v ===== *)
(** What holds of the Gemini adapter: the shape of its requests, and what becomes
    of calls whose ids are numbers that start over. *)
From S2P Require Import Prelude Json LlmTypes Normalize TextEdit LlmCall F32 Wire Anthropic AnthropicProps Gemini.

Section requests.
Context (json_from_str : string → option json).

Abbreviation entries_say := (said gc_role gc_parts).

(** The parts of one message and who says them on the wire. *)
Definition uttered (names : gmap string string) (m : LlmMessage) : list (option string * GeminiPart) :=
  if has_role "user" m then match nonempty (content m) with Some text => [(Some "user", TextPart text false)] | None => [] end
  else if has_role "assistant" m then pair (Some "model") <$> assistant_parts json_from_str m
  else if has_role "tool" m then [(Some "user", response_part json_from_str names m)]
  else [].

Lemma entries_join : joins gc_role gc_parts Gemini.merge_push.
Proof.
  split; [done|]. intros q rest m. unfold Gemini.merge_push. case_bool_decide; [right|by left]. by eexists.
Qed.

Lemma push_response_says part l : entries_say (push_response part l) = entries_say l ++ [(Some "user", part)].
Proof.
  unfold push_response. assert (H : entries_say (l ++ [mkGemini (Some "user") [part]]) = entries_say l ++ [(Some "user", part)]) by (by rewrite said_app).
  destruct (last l) as [c|] eqn:El; [|done]. case_bool_decide as Hr; [|done]. apply last_Some in El as [l' ->].
  rewrite removelast_last, !said_app, <- app_assoc. f_equal. rewrite !said_one. simpl. by rewrite Hr, fmap_app.
Qed.

Lemma convert_says names m acc :
  entries_say (Gemini.convert_message json_from_str names acc m).2 = entries_say acc.2 ++ uttered names m ∧
  (Gemini.convert_message json_from_str names acc m).1 = acc.1 ++ match system_text m with Some t => [t] | None => [] end.
Proof.
  destruct acc as [sys l]. unfold Gemini.convert_message, uttered, system_text, has_role. cbn [fst snd].
  destruct (String.eqb_spec (role m) "system") as [Hr|_]; [rewrite Hr; simpl; rewrite app_nil_r; by destruct (content m); rewrite ?app_nil_r|].
  destruct (String.eqb_spec (role m) "user") as [Hr|_]; [destruct (nonempty (content m)); cbn [fst snd]; rewrite ?said_app, ?app_nil_r; done|].
  destruct (String.eqb_spec (role m) "assistant") as [Hr|_].
  - destruct (assistant_parts json_from_str m) as [|q qs] eqn:E; cbn [fst snd]; rewrite ?said_app, ?app_nil_r; [done|]. by rewrite said_one.
  - destruct (String.eqb_spec (role m) "tool") as [Hr|_]; cbn [fst snd]; rewrite ?push_response_says, ?app_nil_r; done.
Qed.

Lemma entries_converted names l : ∀ acc,
  entries_say (foldl (Gemini.convert_message json_from_str names) acc l).2 = entries_say acc.2 ++ (l ≫= uttered names) ∧
  (foldl (Gemini.convert_message json_from_str names) acc l).1 = acc.1 ++ omap system_text l.
Proof.
  induction l as [|m l IH]; intros acc; simpl; [by rewrite !app_nil_r|].
  destruct (IH (Gemini.convert_message json_from_str names acc m)) as [-> ->].
  destruct (convert_says names m acc) as [-> ->]. rewrite <- !app_assoc. split; [done|]. f_equal. by destruct (system_text m).
Qed.

Lemma entries_nonempty names l : ∀ acc, Forall (λ c, gc_parts c ≠ []) acc.2 →
  Forall (λ c, gc_parts c ≠ []) (foldl (Gemini.convert_message json_from_str names) acc l).2.
Proof.
  induction l as [|m l IH]; intros [sys cs] Hacc; [done|]. apply IH. unfold Gemini.convert_message. simpl in *.
  assert (Happ : ∀ c, gc_parts c ≠ [] → Forall (λ c, gc_parts c ≠ []) (cs ++ [c])) by (intros c Hc; apply Forall_app; split; [done|by apply Forall_singleton]).
  destruct (String.eqb (role m) "system"); [done|]. destruct (String.eqb (role m) "user"); [destruct (nonempty (content m)); [by apply Happ|done]|].
  destruct (String.eqb (role m) "assistant"); [destruct (assistant_parts json_from_str m); [done|by apply Happ]|].
  destruct (String.eqb (role m) "tool"); [|done]. cbn [snd]. unfold push_response. destruct (last cs) as [c|] eqn:El; [|by apply Happ].
  case_bool_decide; [|by apply Happ]. apply last_Some in El as [cs' ->]. rewrite removelast_last. apply Forall_app in Hacc as [? _].
  apply Forall_app. split; [done|]. apply Forall_singleton. simpl. by destruct (gc_parts c).
Qed.

Lemma last_entry names l m acc text : last l = Some m → role m = "user" → nonempty (content m) = Some text →
  last (foldl (Gemini.convert_message json_from_str names) acc l).2 = Some (mkGemini (Some "user") [TextPart text false]).
Proof.
  intros (l' & ->)%last_Some Hr Ht. rewrite foldl_app. simpl. destruct (foldl _ acc l') as [texts cs]. unfold Gemini.convert_message.
  rewrite Hr, Ht. simpl. by rewrite last_snoc.
Qed.

(** ** Names of calls *)

Definition calls_in (l : list LlmMessage) : list LlmToolCall := l ≫= λ m, if String.eqb (role m) "assistant" then default [] (tool_calls m) else [].

Lemma names_lookup calls id : ∀ (names : gmap string string) n,
  foldl (λ names tc, <[tc_id tc := fc_name (tc_function tc)]> names) names calls !! id = Some n →
  names !! id = Some n ∨ ∃ tc, tc ∈ calls ∧ tc_id tc = id ∧ fc_name (tc_function tc) = n.
Proof.
  induction calls as [|tc calls IH]; intros names n; simpl; [by left|]. intros [H|(tc' & ? & ? & ?)]%IH; [|right; exists tc'; by repeat split; [right|..]].
  destruct (decide (tc_id tc = id)) as [<-|Hne]; [rewrite lookup_insert_eq in H; injection H as <-; right; exists tc; split; [left|done]|].
  rewrite lookup_insert_ne in H by done. by left.
Qed.

Lemma names_total calls id : ∀ names : gmap string string, is_Some (names !! id) ∨ (∃ tc, tc ∈ calls ∧ tc_id tc = id) →
  is_Some (foldl (λ names tc, <[tc_id tc := fc_name (tc_function tc)]> names) names calls !! id).
Proof.
  induction calls as [|tc calls IH]; intros names; simpl; [intros [H|(tc & []%elem_of_nil & _)]; done|]. intros H. apply IH.
  destruct (decide (tc_id tc = id)) as [<-|Hne]; [left; rewrite lookup_insert_eq; by eexists|]. rewrite lookup_insert_ne by done.
  destruct H as [H|(tc' & [->|Hin]%elem_of_cons & Hid)]; [by left|done|right; by exists tc'].
Qed.

(** No two calls of a conversation share an id but not their name. *)
Definition unambiguous (l : list LlmMessage) : Prop :=
  ∀ tc tc', tc ∈ calls_in l → tc' ∈ calls_in l → tc_id tc = tc_id tc' → fc_name (tc_function tc) = fc_name (tc_function tc').

Record gemini_shaped (l : list LlmMessage) (r : GeminiRequest) : Prop := {
  gs_said : entries_say (gr_contents r) = l ≫= uttered (tool_name_by_id l);
  gs_system : gr_system_instruction r = match omap system_text l with
    | [] => None
    | texts => Some (mkGemini None [TextPart (String.concat lf2 texts) false])
    end;
  gs_alternating : alternating gc_role (gr_contents r);
  gs_user_last : gc_role <$> last (gr_contents r) = Some (Some "user");
  gs_no_empty : Forall (λ c, gc_parts c ≠ []) (gr_contents r) ∧ ∀ who th, (who, TextPart "" th) ∉ entries_say (gr_contents r);
  gs_objects : ∀ who q, (who, q) ∈ entries_say (gr_contents r) →
    match q with FunctionCallPart _ o | FunctionResponsePart _ o => is_object o = true | TextPart _ _ => True end;
  (** A response names a function whose call came before it. *)
  gs_named : unambiguous l → ∀ s1 s2 name o, entries_say (gr_contents r) = s1 ++ (Some "user", FunctionResponsePart name o) :: s2 →
    ∃ args, (Some "model", FunctionCallPart name args) ∈ s1;
}.

Lemma uttered_inv names m who q : (who, q) ∈ uttered names m →
  role m = "user" ∧ (∃ text, nonempty (content m) = Some text ∧ q = TextPart text false) ∨
  role m = "assistant" ∧ ((∃ text, nonempty (content m) = Some text ∧ q = TextPart text false) ∨
    ∃ tc, tc ∈ default [] (tool_calls m) ∧ q = function_call_part json_from_str tc) ∨
  role m = "tool" ∧ q = response_part json_from_str names m.
Proof.
  unfold uttered, has_role. destruct (String.eqb_spec (role m) "user") as [Hr|_].
  { destruct (nonempty (content m)) as [t|]; [|by intros ?%elem_of_nil]. intros [= -> ->]%list_elem_of_singleton. left. split; [done|]. by exists t. }
  destruct (String.eqb_spec (role m) "assistant") as [Hr|_].
  { intros (q' & [= -> ->] & Hq)%list_elem_of_fmap. right. left. split; [done|]. unfold assistant_parts in Hq. apply elem_of_app in Hq as [Hq|Hq].
    - left. destruct (nonempty (content m)) as [t|]; [|by apply elem_of_nil in Hq]. apply list_elem_of_singleton in Hq as ->. by exists t.
    - right. apply list_elem_of_fmap in Hq as (tc & -> & Htc). by exists tc. }
  destruct (String.eqb_spec (role m) "tool") as [Hr|_]; [|by intros ?%elem_of_nil].
  intros [= -> ->]%list_elem_of_singleton. right. by right.
Qed.

Lemma response_is_object raw : is_object (response_object json_from_str raw) = true.
Proof. unfold response_object. destruct (json_from_str raw) as [v|]; [|done]. by destruct (is_object v) eqn:E. Qed.

Lemma nonempty_not_empty o : nonempty o ≠ Some "".
Proof. destruct o as [t|]; [|done]. simpl. destruct (String.eqb_spec t ""); congruence. Qed.

Lemma ids_calls l id : id ∈ call_ids l ↔ ∃ tc, tc ∈ calls_in l ∧ tc_id tc = id.
Proof.
  unfold call_ids, calls_in. rewrite list_elem_of_In, in_flat_map. split.
  - intros (m & Hm & Hid). apply list_elem_of_In in Hm, Hid. unfold ids_of, has_role in Hid. destruct (String.eqb (role m) "assistant") eqn:Er; [|by apply elem_of_nil in Hid].
    destruct (tool_calls m) as [calls|] eqn:Ec; [|by apply elem_of_nil in Hid]. apply list_elem_of_fmap in Hid as (tc & -> & Htc). exists tc.
    split; [|done]. apply list_elem_of_bind. exists m. by rewrite Er, Ec.
  - intros (tc & (m & Htc & Hm)%list_elem_of_bind & <-). exists m. split; [by apply list_elem_of_In|]. apply list_elem_of_In. unfold ids_of, has_role.
    destruct (String.eqb (role m) "assistant"); [|by apply elem_of_nil in Htc]. destruct (tool_calls m); [|by apply elem_of_nil in Htc].
    by apply list_elem_of_fmap_2.
Qed.

Lemma uttered_called l s1 s2 name o : no_orphans l → unambiguous l →
  l ≫= uttered (tool_name_by_id l) = s1 ++ (Some "user", FunctionResponsePart name o) :: s2 →
  ∃ args, (Some "model", FunctionCallPart name args) ∈ s1.
Proof.
  intros Hn Hu (l1 & m & l2 & u & v & El & Hs & ->)%bind_split.
  assert (Hq : (Some "user", FunctionResponsePart name o) ∈ uttered (tool_name_by_id l) m) by (rewrite Hs; apply elem_of_app; right; by left).
  apply uttered_inv in Hq as [(_ & t & _ & [=])|[(_ & [(t & _ & [=])|(tc & _ & [=])])|(Hr & Hq)]].
  unfold response_part in Hq. destruct (Hn l1 m l2 El Hr) as (id & Hid & Hin). rewrite Hid in Hq. simpl in Hq. injection Hq as Hq _.
  apply ids_calls in Hin as (tc & Htc & <-). assert (Hall : ∀ tc, tc ∈ calls_in l1 → tc ∈ calls_in l).
  { intros tc' (m' & ? & ?)%list_elem_of_bind. apply list_elem_of_bind. exists m'. split; [done|]. rewrite El. apply elem_of_app. by left. }
  destruct (names_total (calls_in l) (tc_id tc) ∅) as [n' En]; [right; exists tc; auto|].
  assert (En' : tool_name_by_id l !! tc_id tc = Some n') by exact En. rewrite En' in Hq. simpl in Hq. subst n'.
  apply names_lookup in En as [[=]|(tc' & Htc' & Hid' & <-)]. rewrite (Hu tc' tc) by (auto; done).
  apply list_elem_of_bind in Htc as (m' & Htc & Hm'). exists (normalize_tool_args json_from_str (fc_arguments (tc_function tc))).
  apply elem_of_app. left. apply list_elem_of_bind. exists m'. split; [|done]. unfold uttered, has_role. destruct (String.eqb_spec (role m') "assistant") as [Hr'|]; [|by apply elem_of_nil in Htc].
  rewrite Hr'. simpl. apply list_elem_of_fmap. eexists. split; [done|]. unfold assistant_parts. apply elem_of_app. right.
  apply list_elem_of_fmap. by exists tc.
Qed.

Lemma user_says_something m : only_assistants_call m → has_payload m = true → role m = "user" → ∃ text, nonempty (content m) = Some text.
Proof.
  intros Hc Hp Hr. unfold has_payload, has_role in Hp. rewrite Hr, Hc in Hp by (by rewrite Hr). unfold nonempty.
  destruct (content m) as [t|]; [|done]. simpl in Hp. destruct (String.eqb t ""); [done|by eexists].
Qed.

(** C16: a canonical conversation becomes a request of the shape Gemini asks for.
    The request says every message in order and by its side, with turns that
    alternate and end with the user's, no empty part, objects for arguments and
    responses; and where no two functions share a call id, each response names
    the function of an earlier call. *)
Theorem canonical_shaped req : ready (rq_messages req) → gemini_shaped (rq_messages req) (to_gemini_request json_from_str req).
Proof.
  intros [Hc Hn Hcalls]. unfold to_gemini_request. set (names := tool_name_by_id (rq_messages req)).
  destruct (entries_converted names (rq_messages req) ([], [])) as [Hs Ht].
  pose proof (entries_nonempty names (rq_messages req) ([], []) ltac:(done)) as Hp.
  destruct (canon_last _ Hc) as (m & Hl & Hu). pose proof (canon_payload _ Hc) as Hpay.
  assert (Hm : m ∈ rq_messages req) by (apply last_Some in Hl as [l' ->]; apply elem_of_app; right; by left).
  rewrite Forall_forall in Hcalls, Hpay. destruct (user_says_something m (Hcalls m Hm) (Hpay m Hm) Hu) as [text Htext].
  pose proof (last_entry names _ m ([], []) text Hl Hu Htext) as Hlast.
  destruct (foldl _ _ _) as [texts cs]. simpl in Hs, Ht, Hp, Hlast.
  assert (Hsaid : entries_say (Gemini.merge_consecutive_roles cs) = rq_messages req ≫= uttered names).
  { unfold Gemini.merge_consecutive_roles. rewrite (joined_said _ _ _ entries_join). exact Hs. }
  split; cbn [gr_contents gr_system_instruction]; rewrite ?Hsaid; try done.
  - rewrite <- Ht. by destruct texts.
  - exact (joined_alternating _ _ _ entries_join cs).
  - unfold Gemini.merge_consecutive_roles. by rewrite (joined_last _ _ _ entries_join _ _ Hlast).
  - split; [exact (joined_parts _ _ _ entries_join cs Hp)|]. intros who th (m' & Hq & _)%list_elem_of_bind.
    apply uttered_inv in Hq as [(_ & t & Ht' & [= <- _])|[(_ & [(t & Ht' & [= <- _])|(tc & _ & [=])])|(_ & [=])]]; by apply nonempty_not_empty in Ht'.
  - intros who q (m' & Hq & _)%list_elem_of_bind.
    apply uttered_inv in Hq as [(_ & t & _ & ->)|[(_ & [(t & _ & ->)|(tc & _ & ->)])|(_ & ->)]]; try done; [apply inputs_are_objects|apply response_is_object].
  - intros Ha s1 s2 name o. by apply uttered_called.
Qed.
End requests.

(** * Witness, and numbers that start over *)

Section witnesses.
Local Definition turn (id name : string) : list LlmMessage :=
  [with_tool_calls (llm_text "assistant" "") [tool_call_new id name "{}"]; llm_tool_result id "done"].

Local Definition asked : list LlmMessage → CompletionRequest := request_new "gemini".

Local Definition normalized (history : list LlmMessage) : list LlmMessage :=
  normalize_for_llm (strip_orphaned_tool_results history ++ [llm_user "and?"]) true.

Local Definition response_names (r : GeminiRequest) : list string :=
  omap (λ q, match q with FunctionResponsePart name _ => Some name | _ => None end) (gr_contents r ≫= gc_parts).

Lemma canonical_shaped_witness :
  let l := normalized (llm_user "go" :: turn "a" "fs_list" ++ turn "b" "fs_read") in
  response_names (to_gemini_request (λ _, None) (asked l)) = ["fs_list"; "fs_read"] ∧ gemini_shaped (λ _, None) l (to_gemini_request (λ _, None) (asked l)).
Proof.
  intros l. split; [vm_compute; reflexivity|]. apply (canonical_shaped (λ _, None) (asked l)).
  apply normalized_ready; repeat (apply Forall_cons; split; [by vm_compute|]); by apply Forall_nil.
Defined.

(** The calls of every answer are numbered from one, so two turns share an id: the
    first response is sent under the name of the second call. *)
Lemma renumbered_call_renames :
  response_names (to_gemini_request (λ _, None) (asked (normalized (llm_user "go" :: turn (synthetic_id 1) "fs_list" ++ turn (synthetic_id 1) "fs_read"))))
  = ["fs_read"; "fs_read"].
Proof. vm_compute. done. Qed.

Local Definition call_event (name : string) : json :=
  JObj [("candidates", JArr [JObj [("content", JObj [("role", JStr "model"); ("parts", JArr [
    JObj [("functionCall", JObj [("name", JStr name)])]])])]])].

Local Definition calls_streamed (events : list json) : option (list LlmToolCall) :=
  let chunks := omap (λ e, match parse_gemini_sse (λ _, Some e) (λ _, "{}") "x" with Chunk c => Some c | _ => None end) events in
  sc_tool_calls (stream_result (foldl (on_chunk false) (stream_start 0) (map (pair 0%Z) chunks))).

(** The calls of every event are numbered from one as well: two calls in two events
    become one, the name of the second with the arguments of both. *)
Lemma calls_in_two_events_merge : calls_streamed [call_event "fs_list"; call_event "fs_read"] = Some [tool_call_new (synthetic_id 1) "fs_read" "{}{}"].
Proof. vm_compute. done. Qed.
End witnesses.
