(* ===== verification/SseStream.v ===== *)
(** From the bytes of an HTTP response to the chunks of a model's answer:
    [alms-runtime/src/llm_client/streaming.rs], [sse_parsers.rs] and
    [diagnostic.rs].

    The response is a script of network reads: bytes as they arrive, a failure of
    the connection with its chain of causes, or silence until the timeout.  The
    [unfold] of [stream_response] is [stream_items], everything a consumer can
    poll. *)
From stdpp Require Import pretty.
From S2P Require Import Prelude Ident Json Session Errors TextEdit FsRead LlmTypes LlmCall F32 LlmClient Wire Anthropic Gemini.
Import SimpleUuid.

(** * Diagnostics *)

Definition BODY_PREFIX_MAX_BYTES : nat := 512.

Record DecodeDiagnostic := {
  dg_provider : string;
  dg_model : string;
  dg_status : option Z;
  dg_content_type : option string;
  dg_content_length : option Z;
  dg_bytes_read : option Z;
  dg_body_prefix : option string;
}.

(** Snapped back to the last character that fits. *)
Definition truncate_for_diagnostic (s : string) (max_bytes : nat) : string :=
  if Nat.leb (String.length s) max_bytes then s else truncate_to_char_boundary s max_bytes +:+ "…".

Definition escape_char (c : ascii) : string :=
  if Ascii.eqb c lf then "\n"
  else if Ascii.eqb c cr then "\r"
  else if Ascii.eqb c (ascii_of_N 9) then "\t"
  else if Ascii.eqb c (ascii_of_N 34) then String "\"%char (ch (ascii_of_N 34))
  else if Ascii.eqb c "\"%char then "\\"
  else if (N_of_ascii c <? 32)%N || (N_of_ascii c =? 127)%N then "\x" +:+ hex_print 2 (N_of_ascii c)
  else ch c.

(** Bytes above 127 are no control characters and stay. *)
Fixpoint escape_for_diagnostic (s : string) : string :=
  match s with EmptyString => "" | String c s => escape_char c +:+ escape_for_diagnostic s end.

(** One [key=value] per field that is there; an empty provider or model is not. *)
Definition format_decode_error (context : string) (d : DecodeDiagnostic) (underlying : string) : string :=
  let fields :=
    (if String.eqb (dg_provider d) "" then [] else ["provider=" +:+ dg_provider d]) ++
    (if String.eqb (dg_model d) "" then [] else ["model=" +:+ dg_model d]) ++
    match dg_status d with Some n => ["status=" +:+ pretty n] | None => [] end ++
    match dg_content_type d with Some ct => ["content_type=" +:+ ct] | None => [] end ++
    match dg_content_length d with Some n => ["content_length=" +:+ pretty n] | None => [] end ++
    match dg_bytes_read d with Some n => ["bytes_read=" +:+ pretty n] | None => [] end in
  context +:+ " [" +:+ String.concat " " fields +:+ "]: " +:+ underlying +:+
  match dg_body_prefix d with
  | Some body => "; body_prefix=" +:+ ch (ascii_of_N 34) +:+
                 escape_for_diagnostic (truncate_for_diagnostic body BODY_PREFIX_MAX_BYTES) +:+ ch (ascii_of_N 34)
  | None => ""
  end.

(** An error as what its links display, the outermost first. *)
Fixpoint chain_from (depth : nat) (causes : list string) : string :=
  match causes with
  | [] => ""
  | c :: causes => if Nat.leb 8 depth then ": <chain truncated>" else ": " +:+ c +:+ chain_from (S depth) causes
  end.
Definition flatten_error_chain (top : string) (causes : list string) : string := top +:+ chain_from 0 causes.

Section stream.
Context (json_from_str : string → option json) (json_to_string : json → string).

(** * Event blocks *)

(** What follows [data:] in a line that is neither empty nor a comment. *)
Definition field_of (name l : string) : option string :=
  match strip_prefix (name +:+ ": ") l with Some r => Some r | None => strip_prefix (name +:+ ":") l end.

Definition ignored_line (l : string) : bool := String.eqb l "" || starts_with l ":".

Fixpoint openai_lines (ls : list string) : SseParseResult :=
  match ls with
  | [] => Skip
  | l :: ls =>
      let l := trim l in
      if ignored_line l then openai_lines ls
      else match field_of "data" l with
           | Some data =>
               let data := trim data in
               if String.eqb data "[DONE]" then Done
               else match json_from_str data ≫= de_stream_chunk with Some c => Chunk c | None => openai_lines ls end
           | None => openai_lines ls
           end
  end.
Definition parse_openai_sse (event : string) : SseParseResult := openai_lines (lines event).

Fixpoint gemini_lines (ls : list string) : SseParseResult :=
  match ls with
  | [] => Skip
  | l :: ls =>
      let l := trim l in
      if ignored_line l then gemini_lines ls
      else match field_of "data" l with
           | Some data => parse_gemini_sse json_from_str json_to_string (trim data)
           | None => gemini_lines ls
           end
  end.
Definition parse_gemini_sse_block (event : string) : SseParseResult := gemini_lines (lines event).

(** The last [event:] and the last [data:] of a block count. *)
Definition anthropic_line (acc : option string * option string) (l : string) : option string * option string :=
  let l := trim l in
  if ignored_line l then acc
  else (or_else (trim <$> field_of "event" l) acc.1, or_else (trim <$> field_of "data" l) acc.2).

Definition parse_anthropic_sse_block (event : string) : SseParseResult :=
  match foldl anthropic_line (None, None) (lines event) with
  | (Some et, Some d) => parse_anthropic_sse json_from_str et d
  | (Some et, None) => if String.eqb et "message_stop" then Done else Skip
  | (None, _) => Skip
  end.

Definition dispatch_sse_event (p : Protocol) (event : string) : SseParseResult :=
  match p with
  | OpenAi => parse_openai_sse event
  | Anthropic => parse_anthropic_sse_block event
  | Gemini => parse_gemini_sse_block event
  end.

(** * The stream *)

Inductive NetRead :=
| NetBytes (b : string)
| NetError (top : string) (causes : list string)
| NetStall.

Context (p : Protocol) (provider_name model : string) (chunk_timeout : Z).

(** The chunks of the complete events at the front of the buffer, and what stays in
    it, unless one of them ends the stream. *)
Fixpoint drain_loop (fuel : nat) (buf : string) : list StreamChunk * option string :=
  match fuel with
  | 0 => ([], Some buf)
  | S fuel =>
      match split_at_str (LF +:+ LF) buf with
      | None => ([], Some buf)
      | Some (event_text, rest) =>
          match dispatch_sse_event p event_text with
          | Chunk c => let '(cs, b) := drain_loop fuel rest in (c :: cs, b)
          | Done => ([], None)
          | Skip => drain_loop fuel rest
          end
      end
  end.
Definition drain (buf : string) : list StreamChunk * option string := drain_loop (String.length buf) buf.

(** The end of the response with something left in the buffer. *)
Definition last_event (buf : string) : list StreamChunk :=
  if String.eqb (trim buf) "" then []
  else match dispatch_sse_event p (trim buf) with Chunk c => [c] | _ => [] end.

Definition decode_bytes (b : string) : string := str_replace CRLF LF (from_utf8_lossy b).

Definition read_failed (buf : string) (total : Z) (top : string) (causes : list string) : AlmsError :=
  Runtime (format_decode_error "LLM stream decode failed"
    {| dg_provider := provider_name; dg_model := model;
       dg_status := None; dg_content_type := None; dg_content_length := None; dg_bytes_read := Some total;
       dg_body_prefix := if String.eqb buf "" then None else Some buf |}
    (flatten_error_chain top causes)).

Definition stalled (total : Z) : AlmsError :=
  Runtime ("LLM stream stalled [provider=" +:+ provider_name +:+ " model=" +:+ model +:+ " bytes_read=" +:+ pretty total +:+
           "] (no data for " +:+ pretty chunk_timeout +:+ "s) — partial response discarded").

Fixpoint stream_items (reads : list NetRead) (buf : string) (total : Z) : list (Result StreamChunk AlmsError) :=
  let '(cs, kept) := drain buf in
  map Ok cs ++
  match kept with
  | None => []
  | Some buf =>
      match reads with
      | [] => map Ok (last_event buf)
      | NetBytes b :: reads => stream_items reads (buf +:+ decode_bytes b) (sat_add_u64 total (Z.of_nat (String.length b)))
      | NetError top causes :: reads => Err (read_failed buf total top causes) :: stream_items reads buf total
      | NetStall :: reads => Err (stalled total) :: stream_items reads buf total
      end
  end.

Definition stream_response (reads : list NetRead) : list (Result StreamChunk AlmsError) := stream_items reads "" 0.

(** What [stream_llm_call] takes of it: it returns at the first error. *)
Fixpoint taken (items : list (Result StreamChunk AlmsError)) : list StreamChunk * StreamEnd :=
  match items with
  | [] => ([], StreamDone)
  | Ok c :: items => let '(cs, e) := taken items in (c :: cs, e)
  | Err e :: _ => ([], StreamFailed e)
  end.
End stream.
