(* ===== verification/StreamProps.v ===== *)
(** What holds of streamed answers: how the network cuts the bytes does not
    matter, unless it cuts a character or a line ending, and a streamed Anthropic
    answer is the buffered one. *)
From S2P Require Import Prelude Ident Json Session Errors TextEdit FsRead LlmTypes LlmCall F32 LlmClient Wire Anthropic Gemini SseStream.

(** * Texts cut in two *)

Lemma strip_prefix_app_l q a b r : strip_prefix q a = Some r → strip_prefix q (a +:+ b) = Some (r +:+ b).
Proof. intros ->%strip_prefix_Some. rewrite string_app_assoc. apply strip_prefix_app. Qed.

Lemma strip_prefix_app_None q : ∀ a b, strip_prefix q a = None → String.length q ≤ String.length a → strip_prefix q (a +:+ b) = None.
Proof.
  induction q as [|c q IH]; intros a b; [done|]. destruct a as [|d a]; simpl; [lia|]. destruct (Ascii.eqb c d); [|done].
  intros H Hl. apply IH; [done|lia].
Qed.

Lemma split_at_str_short q s : String.length s < String.length q → split_at_str q s = None.
Proof.
  intros H. destruct (split_at_str q s) as [[x y]|] eqn:E; [|done]. apply split_at_str_Some in E as ->. rewrite !str_length_app in H. lia.
Qed.

(** The first occurrence stays the first. *)
Lemma split_at_str_app q a b x y : split_at_str q a = Some (x, y) → split_at_str q (a +:+ b) = Some (x, y +:+ b).
Proof.
  revert x. induction a as [|c a IH]; intros x E.
  - simpl in E. destruct (strip_prefix q "") as [r|] eqn:Es; [|done]. injection E as <- <-. apply strip_prefix_app_l with (b := b) in Es.
    destruct ("" +:+ b) eqn:Eb; simpl; by rewrite Es.
  - assert (Hl : String.length q ≤ String.length (String c a)).
    { destruct (Nat.le_gt_cases (String.length q) (String.length (String c a))) as [|Hl]; [done|].
      by rewrite (split_at_str_short _ _ Hl) in E. }
    change (String c a +:+ b) with (String c (a +:+ b)). cbn [split_at_str] in *.
    destruct (strip_prefix q (String c a)) as [r|] eqn:Es.
    + injection E as <- <-. apply strip_prefix_app_l with (b := b) in Es. change (String c a +:+ b) with (String c (a +:+ b)) in Es. by rewrite Es.
    + apply strip_prefix_app_None with (b := b) in Es; [|done]. change (String c a +:+ b) with (String c (a +:+ b)) in Es. rewrite Es.
      destruct (split_at_str q a) as [[x' y']|]; [|done]. injection E as <- <-. by rewrite (IH x').
Qed.

(** ** Valid text is decoded as it is *)

Lemma lossy_valid s : valid_utf8 s = true → from_utf8_lossy s = s.
Proof.
  unfold valid_utf8. intros H%bool_decide_eq_true. remember (String.length s) as n eqn:Hn. revert s H Hn.
  induction (lt_wf n) as [n _ IH]. intros s H ->.
  assert (Hrec : ∀ t, String.length t < String.length s → is_Some (utf8_chars t) → from_utf8_lossy t = t) by (intros t Ht Hs; by apply (IH _ Ht)).
  clear IH. destruct s as [|a s1]; [done|]. cbn [utf8_chars from_utf8_lossy] in *.
  destruct (byte_in 0 127 a); [f_equal; apply Hrec; [simpl; lia|]; by destruct (utf8_chars s1); [eexists|destruct H]|].
  destruct s1 as [|b s2]; [by destruct H|]. destruct (two_bytes a b) eqn:E2.
  { do 2 f_equal. apply Hrec; [simpl; lia|]. by destruct (utf8_chars s2); [eexists|destruct H]. }
  destruct s2 as [|c s3]; [by destruct H|]. unfold three_bytes in H.
  change (byte_in 224 224 a && byte_in 160 191 b || byte_in 225 236 a && cont b || byte_in 237 237 a && byte_in 128 159 b
          || byte_in 238 239 a && cont b) with (second_of_three a b) in H.
  destruct (second_of_three a b && cont c) eqn:E3.
  { apply andb_true_iff in E3 as [-> ->]. simpl. do 3 f_equal. apply Hrec; [simpl; lia|]. by destruct (utf8_chars s3); [eexists|destruct H]. }
  destruct s3 as [|e s4]; [by destruct H|]. unfold four_bytes in H.
  change (byte_in 240 240 a && byte_in 144 191 b || byte_in 241 243 a && cont b || byte_in 244 244 a && byte_in 128 143 b)
    with (second_of_four a b) in H.
  destruct (second_of_four a b && cont c && cont e) eqn:E4; [|by destruct H].
  apply andb_true_iff in E4 as [[E4 Ec]%andb_true_iff Ee]. rewrite E4, orb_true_r, Ec. simpl.
  rewrite Ec, andb_true_r in E3. rewrite E3, Ee. do 4 f_equal. apply Hrec; [simpl; lia|]. by destruct (utf8_chars s4); [eexists|destruct H].
Qed.

Lemma valid_app a b : valid_utf8 a = true → valid_utf8 b = true → valid_utf8 (a +:+ b) = true.
Proof.
  unfold valid_utf8. rewrite !bool_decide_eq_true. intros [ca Ha] [cb Hb]. rewrite (utf8_chars_app a ca b Ha), Hb. by eexists.
Qed.

(** ** Line endings *)

(** [str_replace CRLF LF] as a walk. *)
Fixpoint unified (s : string) : string :=
  match s with
  | EmptyString => ""
  | String c s1 =>
      match s1 with
      | String d s2 => if Ascii.eqb c cr && Ascii.eqb d lf then String lf (unified s2) else String c (unified s1)
      | EmptyString => s
      end
  end.

Lemma split_at_str_cons q c s : split_at_str q (String c s) =
  match strip_prefix q (String c s) with
  | Some r => Some ("", r)
  | None => match split_at_str q s with Some (a, b) => Some (String c a, b) | None => None end
  end.
Proof. done. Qed.

Lemma crlf_prefix c d s : strip_prefix CRLF (String c (String d s)) = if Ascii.eqb cr c && Ascii.eqb lf d then Some s else None.
Proof. unfold CRLF, ch. cbn [strip_prefix]. destruct (Ascii.eqb cr c); [|done]. cbn [andb]. by destruct (Ascii.eqb lf d). Qed.

Lemma unified_cons c d s : unified (String c (String d s)) =
  if Ascii.eqb cr c && Ascii.eqb lf d then String lf (unified s) else String c (unified (String d s)).
Proof. rewrite (Ascii.eqb_sym cr), (Ascii.eqb_sym lf). done. Qed.

Lemma unified_split s : match split_at_str CRLF s with
                        | Some (x, y) => unified s = x +:+ LF +:+ unified y ∧ String.length y < String.length s
                        | None => unified s = s
                        end.
Proof.
  induction s as [|c s1 IH]; [done|]. destruct s1 as [|d s2].
  - by rewrite (split_at_str_short CRLF (String c "")) by (simpl; lia).
  - rewrite split_at_str_cons, crlf_prefix, unified_cons. destruct (Ascii.eqb cr c && Ascii.eqb lf d); [split; [done|simpl; lia]|].
    destruct (split_at_str CRLF (String d s2)) as [[x y]|]; [|by rewrite IH]. destruct IH as [-> Hl]. split; [done|simpl in *; lia].
Qed.

Lemma replace_unified s : str_replace CRLF LF s = unified s.
Proof.
  unfold str_replace. simpl. assert (H : ∀ n s, String.length s ≤ n → replace_loop n CRLF LF s = unified s); [|by apply H].
  clear. induction n as [|n IH]; intros s Hs; [by destruct s; [|simpl in Hs; lia]|].
  cbn [replace_loop]. pose proof (unified_split s) as H. destruct (split_at_str CRLF s) as [[x y]|]; [|done].
  destruct H as [-> Hl]. rewrite IH by lia. done.
Qed.

(** A cut is clean unless it parts a carriage return from its line feed. *)
Definition clean_cut (a b : string) : Prop := ∀ u v, a = u +:+ ch cr → b ≠ String lf v.

Lemma clean_cut_tail c a b : clean_cut (String c a) b → clean_cut a b.
Proof. intros H u v ->. by apply (H (String c u)). Qed.

Lemma unified_app a b : clean_cut a b → unified (a +:+ b) = unified a +:+ unified b.
Proof.
  remember (String.length a) as n eqn:Hn. revert a Hn. induction (lt_wf n) as [n _ IH]. intros a -> H.
  destruct a as [|c a1]; [done|]. destruct a1 as [|d a2].
  - destruct b as [|d b]; [done|]. change (String c "" +:+ String d b) with (String c (String d b)). rewrite unified_cons.
    destruct (Ascii.eqb_spec cr c) as [<-|]; [|done]. destruct (Ascii.eqb_spec lf d) as [<-|]; [|done]. by destruct (H "" b).
  - change (String c (String d a2) +:+ b) with (String c (String d (a2 +:+ b))).
    assert (E1 : unified (a2 +:+ b) = unified a2 +:+ unified b) by (eapply IH; [|done|by do 2 eapply clean_cut_tail]; simpl; lia).
    assert (E2 : unified (String d a2 +:+ b) = unified (String d a2) +:+ unified b) by (eapply IH; [|done|by eapply clean_cut_tail]; simpl; lia).
    change (String d a2 +:+ b) with (String d (a2 +:+ b)) in E2.
    rewrite !unified_cons, E1, E2. by destruct (_ && _).
Qed.

(** Reads that cut the bytes at characters and outside line endings. *)
Fixpoint clean_reads (bs : list string) : Prop :=
  match bs with
  | [] => True
  | b :: bs => valid_utf8 b = true ∧ clean_cut b (scat bs) ∧ clean_reads bs
  end.

Lemma clean_reads_valid bs : clean_reads bs → valid_utf8 (scat bs) = true.
Proof. induction bs as [|b bs IH]; [done|]. intros (Hv & _ & Hr). rewrite scat_cons. apply valid_app; auto. Qed.

Lemma clean_without_cr bs : char_in cr (scat bs) = false → Forall (λ b, valid_utf8 b = true) bs → clean_reads bs.
Proof.
  intros H Hv. induction Hv as [|b bs Hb _ IH]; [done|]. rewrite scat_cons, char_in_app in H. apply orb_false_iff in H as [Hc H].
  split; [done|]. split; [|by apply IH]. intros u v -> _. rewrite char_in_app in Hc. apply orb_false_iff in Hc as [_ Hc]. done.
Qed.

Lemma decode_clean bs : clean_reads bs → scat (map decode_bytes bs) = decode_bytes (scat bs).
Proof.
  induction bs as [|b bs IH]; [done|]. intros (Hv & Hc & Hr). simpl map. rewrite !scat_cons, IH by done. unfold decode_bytes.
  rewrite !lossy_valid by auto using valid_app, clean_reads_valid. rewrite !replace_unified. by rewrite unified_app.
Qed.

(** * The buffer *)

Section chunking.
Context (json_from_str : string → option json) (json_to_string : json → string).
Context (p : Protocol) (provider_name model : string) (chunk_timeout : Z).

Abbreviation drain_of := (drain json_from_str json_to_string p).
Abbreviation loop_of := (drain_loop json_from_str json_to_string p).
Abbreviation items_of := (stream_items json_from_str json_to_string p provider_name model chunk_timeout).
Abbreviation response_of := (stream_response json_from_str json_to_string p provider_name model chunk_timeout).

Lemma split_rest_short s x y : split_at_str (LF +:+ LF) s = Some (x, y) → String.length y < String.length s.
Proof. intros ->%split_at_str_Some. rewrite !str_length_app. simpl. lia. Qed.

Lemma drain_loop_fuel n m s : String.length s ≤ n → String.length s ≤ m → loop_of n s = loop_of m s.
Proof.
  revert m s. induction n as [|n IH]; intros [|m] s Hn Hm; [done| | |].
  - destruct s; [done|simpl in Hn; lia].
  - destruct s; [done|simpl in Hm; lia].
  - cbn [drain_loop]. destruct (split_at_str _ s) as [[x y]|] eqn:E; [|done]. apply split_rest_short in E.
    by rewrite (IH m y) by lia.
Qed.

Lemma drain_unfold s : drain_of s =
  match split_at_str (LF +:+ LF) s with
  | None => ([], Some s)
  | Some (event_text, rest) =>
      match dispatch_sse_event json_from_str json_to_string p event_text with
      | Chunk c => let '(cs, b) := drain_of rest in (c :: cs, b)
      | Done => ([], None)
      | Skip => drain_of rest
      end
  end.
Proof.
  unfold drain. rewrite (drain_loop_fuel _ (S (String.length s)) s) by lia. cbn [drain_loop].
  destruct (split_at_str _ s) as [[x y]|] eqn:E; [|done]. apply split_rest_short in E. by rewrite (drain_loop_fuel _ (String.length y) y) by lia.
Qed.

(** More bytes never change what was read. *)
Lemma drain_app a b : drain_of (a +:+ b) =
  match drain_of a with
  | (cs, Some kept) => let '(cs', r) := drain_of (kept +:+ b) in (cs ++ cs', r)
  | (cs, None) => (cs, None)
  end.
Proof.
  remember (String.length a) as n eqn:Hn. revert a Hn. induction (lt_wf n) as [n _ IH]. intros a ->.
  rewrite (drain_unfold a). destruct (split_at_str (LF +:+ LF) a) as [[x y]|] eqn:E; [|by destruct (drain_of (a +:+ b))].
  rewrite (drain_unfold (a +:+ b)), (split_at_str_app _ _ _ _ _ E). apply split_rest_short in E.
  rewrite (IH _ E y) by done. destruct (dispatch_sse_event _ _ p x) as [c| |]; [|done|by destruct (drain_of y) as [cs [kept|]]].
  destruct (drain_of y) as [cs [kept|]]; [|done]. by destruct (drain_of (kept +:+ b)).
Qed.

(** ** The whole response *)

Lemma items_bytes bs rest : ∀ buf total, ∃ total',
  items_of (map NetBytes bs ++ rest) buf total = items_of rest (buf +:+ scat (map decode_bytes bs)) total'.
Proof.
  induction bs as [|b bs IH]; intros buf total; simpl map; [exists total; by rewrite string_app_nil_r|].
  rewrite scat_cons. cbn [app].
  assert (H : items_of (NetBytes b :: map NetBytes bs ++ rest) buf total =
    map Ok (drain_of buf).1 ++ match (drain_of buf).2 with
      | None => []
      | Some kept => items_of (map NetBytes bs ++ rest) (kept +:+ decode_bytes b) (sat_add_u64 total (Z.of_nat (String.length b)))
      end) by (cbn [stream_items]; by destruct (drain_of buf)).
  rewrite H. clear H. destruct (drain_of buf) as [cs [kept|]] eqn:Ed; cbn [fst snd].
  - destruct (IH (kept +:+ decode_bytes b) (sat_add_u64 total (Z.of_nat (String.length b)))) as [total' ->]. exists total'.
    rewrite string_app_assoc. destruct rest as [|r rest]; cbn [stream_items];
      rewrite (drain_app buf), Ed; destruct (drain_of (kept +:+ _)) as [cs' r']; by rewrite map_app, app_assoc.
  - exists total. destruct rest as [|r rest]; cbn [stream_items]; by rewrite (drain_app buf), Ed.
Qed.

Definition fails (r : NetRead) : Prop := match r with NetBytes _ => False | _ => True end.

Lemma taken_ok cs items : taken (map Ok cs ++ items) = (cs ++ (taken items).1, (taken items).2).
Proof. induction cs as [|c cs IH]; simpl; [by destruct (taken items)|]. by rewrite IH. Qed.

Lemma clean_reads_app bs more : clean_reads (bs ++ more) → clean_reads bs ∧ clean_reads more ∧ clean_cut (scat bs) (scat more).
Proof.
  induction bs as [|b bs IH]; [intros H; split; [done|]; split; [done|]; by intros [] ?|]. intros (Hv & Hc & Hr). destruct (IH Hr) as (H1 & H2 & H3).
  rewrite scat_app in Hc. split; [split; [done|split; [|done]]|split; [done|]].
  - intros u v Hb E. apply (Hc u (v +:+ scat more) Hb). by rewrite E.
  - rewrite scat_cons. intros u v E Hm. destruct bs as [|b' bs'] eqn:Eb.
    + rewrite string_app_nil_r in E. by apply (Hc u v E).
    + destruct (scat (b' :: bs')) as [|x t] eqn:Es; [rewrite string_app_nil_r in E; by apply (Hc u v E)|].
      assert (Hu : ∃ u', String x t = u' +:+ ch cr).
      { clear -E. revert u E. induction b as [|y b IHb]; intros u E; [by exists u|]. destruct u as [|z u]; [by destruct b|]. injection E as _ E. by apply (IHb u). }
      destruct Hu as [u' Hu]. by apply (H3 u' v).
Qed.

Lemma response_bytes bs rest : clean_reads bs → ∃ total, response_of (map NetBytes bs ++ rest) = items_of rest (decode_bytes (scat bs)) total.
Proof. intros H. destruct (items_bytes bs rest "" 0) as [total E]. exists total. unfold stream_response. by rewrite E, decode_clean. Qed.

Lemma items_end buf total total' : items_of [] buf total = items_of [] buf total'.
Proof. done. Qed.

(** C17: how the network cuts an answer does not matter.  When no read ends inside
    a character or between a carriage return and its line feed, the consumer gets
    exactly what it gets from the whole body in one read; and when the connection
    breaks or stalls, it has got a prefix of that. *)
Theorem cuts_do_not_matter bs :
  (clean_reads bs → response_of (map NetBytes bs) = response_of [NetBytes (scat bs)]) ∧
  ∀ more r rest, clean_reads (bs ++ more) → fails r →
    ∃ err, (taken (response_of (map NetBytes bs ++ r :: rest))).2 ∈ [StreamDone; StreamFailed err] ∧
    (taken (response_of (map NetBytes bs ++ r :: rest))).1 `prefix_of` (taken (response_of [NetBytes (scat (bs ++ more))])).1.
Proof.
  assert (Hone : ∀ b, valid_utf8 b = true → clean_reads [b]) by (intros b Hb; split; [done|split; [|done]]; by intros u v _).
  assert (Hscat : ∀ x, scat [x] = x) by done. split.
  - intros H. destruct (response_bytes bs [] H) as [t E]. rewrite app_nil_r in E. rewrite E.
    destruct (response_bytes [scat bs] [] (Hone _ (clean_reads_valid _ H))) as [t' E']. cbn [map app] in E'. rewrite E'.
    rewrite Hscat. apply (items_end _ t t').
  - intros more r rest H Hr. destruct (clean_reads_app _ _ H) as (Hb & Hm & Hc).
    destruct (response_bytes bs (r :: rest) Hb) as [t ->].
    destruct (response_bytes [scat (bs ++ more)] [] (Hone _ (clean_reads_valid _ H))) as [t' E']. cbn [map app] in E'. rewrite E'.
    rewrite Hscat, <- (decode_clean (bs ++ more)) by done. rewrite map_app, scat_app, !decode_clean by done.
    cbn [stream_items]. rewrite (drain_app (decode_bytes (scat bs))).
    destruct (drain_of (decode_bytes (scat bs))) as [cs [kept|]]; rewrite !taken_ok.
    + destruct (drain_of (kept +:+ _)) as [cs' k']. rewrite taken_ok. cbn [fst snd].
      destruct r as [b|top causes|]; [done| |]; eexists; (split; [right; by left|]); simpl; rewrite app_nil_r, <- app_assoc; by eexists.
    + exists (Runtime ""). split; [by left|]. done.
Qed.
End chunking.

(** * Cuts that do matter *)

Section cuts.
(** A decoder under which every text is a chunk that says it. *)
Local Definition echo (text : string) : option json :=
  Some (JObj [("id", JStr ""); ("object", JStr ""); ("created", JNum 0); ("model", JStr "");
              ("choices", JArr [JObj [("index", JNum 0); ("delta", JObj [("content", JStr text)])]])]).

Local Definition contents (reads : list string) : list string :=
  omap (λ c, head (ch_choices c) ≫= dl_content)
    (taken (stream_response echo (λ _, "") OpenAi "openai" "m" 30 (map NetBytes reads))).1.

(** A read that ends inside a character: both halves become replacement
    characters. *)
Lemma cut_character_is_lost :
  contents ["data: é" +:+ LF +:+ LF] = ["é"] ∧
  contents [of_bytes (bytes_of "data: " ++ [195%N]); of_bytes [169; 10; 10]%N] = [replacement_character +:+ replacement_character].
Proof. vm_compute. done. Qed.

(** A read that ends between a carriage return and its line feed: two events run
    into one, and the second is lost. *)
Lemma cut_line_ending_loses_event :
  contents ["data: A" +:+ CRLF +:+ CRLF +:+ "data: B" +:+ CRLF +:+ CRLF] = ["A"; "B"] ∧
  contents ["data: A" +:+ CRLF +:+ ch cr; ch lf +:+ "data: B" +:+ CRLF +:+ CRLF] = ["A"].
Proof. vm_compute. done. Qed.

Local Definition two_reads : list string := ["data: é" +:+ LF; LF +:+ "data: B"].

Lemma cuts_do_not_matter_witness :
  contents two_reads = ["é"; "B"] ∧
  stream_response echo (λ _, "") OpenAi "openai" "m" 30 (map NetBytes two_reads) =
  stream_response echo (λ _, "") OpenAi "openai" "m" 30 [NetBytes (scat two_reads)] ∧
  ∃ err, (taken (stream_response echo (λ _, "") OpenAi "openai" "m" 30 (map NetBytes two_reads ++ [NetStall]))).2 ∈ [StreamDone; StreamFailed err] ∧
    (taken (stream_response echo (λ _, "") OpenAi "openai" "m" 30 (map NetBytes two_reads ++ [NetStall]))).1 `prefix_of`
    (taken (stream_response echo (λ _, "") OpenAi "openai" "m" 30 [NetBytes (scat (two_reads ++ []))])).1.
Proof.
  assert (H : clean_reads two_reads) by (apply clean_without_cr; [vm_compute; reflexivity|repeat constructor]).
  split; [vm_compute; reflexivity|]. destruct (cuts_do_not_matter echo (λ _, "") OpenAi "openai" "m" 30 two_reads) as [H1 H2].
  split; [by apply H1|]. apply (H2 [] NetStall []); [by rewrite app_nil_r|done].
Defined.
End cuts.
