(* ===== verification/AnswerProps.v ===== *)
(** A streamed Anthropic answer is the buffered one: from the events the Messages
    API documents for an answer, through the network, the event blocks and the
    assembly of [LlmCall.v]. *)
From S2P Require Import Prelude Ident Json Session Errors TextEdit FsRead LlmTypes RuntimeTypes LlmCall ToolCalls F32 LlmClient Wire Anthropic Gemini SseStream StreamProps.

(** * The events of an answer *)













(** * Texts on the wire *)





Section answers.
Context (json_from_str : string → option json) (json_to_string : json → string).




(** * What the parser makes of the events *)














(** ** The chunks of a block *)






(** ** Event blocks *)







(** ** The chunks of a body *)

Abbreviation drain_of := (drain json_from_str json_to_string LlmClient.Anthropic).





(** * Assembling the chunks *)





(** ** What the chunks of an answer say *)



















End answers.

(** * Witness *)

Section witness.








End witness.
