(* ===== verification/LlmRequest.v ===== *)
(** The requests of a model client: [alms-runtime/src/llm_client/request.rs],
    [cache_retry.rs], the store of [gemini_cache.rs] and the part of
    [llm_client/mod.rs] that builds a request and reads an answer.

    An answer of a server is its status and the network reads of its body, as in
    [SseStream.v].  [reqwest]'s decoding of a body by its content type, the wording of
    [serde_json]'s errors and the hash of [std] are arguments. *)
From stdpp Require Import pretty.
From S2P Require Import Prelude Ident Json Session Errors TextEdit FsRead LlmTypes LlmCall F32 LlmClient Wire Anthropic Gemini SseStream.

(** * What a request is adapted to *)

Definition apply_auth (scheme : AuthScheme) (api_key : string) : list (string * string) :=
  if String.eqb api_key "" then []
  else match scheme with
       | Bearer => [("Authorization", "Bearer " +:+ api_key)]
       | Header name => [(name, api_key)]
       end.

(** What [drop_empty_content] keeps. *)
Definition says_something (m : LlmMessage) : bool :=
  bool_decide (is_Some (nonempty (content m))) ||
  match tool_calls m with Some (_ :: _) => true | _ => false end ||
  String.eqb (role m) "tool".

Definition is_tool (m : LlmMessage) : bool := String.eqb (role m) "tool".

Definition insert_at {A} (i : nat) (x : A) (l : list A) : list A := take i l ++ x :: drop i l.

(** The loop of [tool_gap_fill], from the index [i] to the front. *)
Fixpoint gap_fill (i : nat) (ms : list LlmMessage) : list LlmMessage :=
  match i with
  | 0 => ms
  | S j =>
      gap_fill j
        (match ms !! S j, ms !! j with
         | Some m, Some m' => if is_tool m && is_tool m' then insert_at (S j) (llm_user "") ms else ms
         | _, _ => ms
         end)
  end.

Definition apply_quirks (q : ProviderQuirks) (ms : list LlmMessage) : list LlmMessage :=
  let ms := if drop_empty_content q then List.filter says_something ms else ms in
  if tool_gap_fill q && Nat.ltb 1 (length ms) then gap_fill (length ms - 1) ms else ms.

(** [rsplit_once('/')], the part after. *)
Fixpoint after_last (c : ascii) (s : string) : option string :=
  match s with
  | EmptyString => None
  | String a s' => match after_last c s' with Some r => Some r | None => if Ascii.eqb a c then Some s' else None end
  end.

Definition is_openai_reasoning_model (model base_url : string) : bool :=
  if str_contains "deepseek" (to_ascii_lowercase base_url) then false
  else
    let model_lower := to_ascii_lowercase model in
    let name := default model_lower (after_last "/"%char model_lower) in
    if existsb (starts_with name) ["o1"; "o3"; "o4"; "o5"; "gpt-5"] then true
    else starts_with name "grok-" &&
         (str_contains "-reasoning" name || starts_with name "grok-3-mini" || starts_with name "grok-4").

(** * Requests and answers *)

Record CreateCacheRequest := {
  cc_model : string;
  cc_system_instruction : option GeminiContent;
  cc_tools : option (list (list FunctionDefinition));
  cc_ttl : string;
}.

Inductive Body :=
| OpenAiBody (r : CompletionRequest)
| AnthropicBody (r : AnthropicRequest)
| GeminiBody (r : GeminiRequest)
| CacheBody (r : CreateCacheRequest).

Record HttpRequest := { hr_url : string; hr_headers : list (string * string); hr_body : Body }.

Record HttpResponse := {
  ha_status : Z;
  ha_content_type : option string;
  ha_content_length : option Z;
  ha_reads : list NetRead;
}.

(** No response is whatever [send] fails with, a request that cannot be built
    included. *)
Inductive HttpAnswer := NoAnswer (e : string) | Answered (r : HttpResponse).

Definition is_success (status : Z) : bool := (200 <=? status)%Z && (status <? 300)%Z.

(** * The Gemini cache *)

(** [CacheHandle::Active]. *)
Record CacheHandle := { ch_name : string; ch_prefix_hash : Z }.

Record GeminiCacheStore := { gs_entries : gmap SessionId CacheHandle; gs_too_small : gset Z }.

Inductive CacheLookup := Hit (name : string) | Miss.

Inductive CreateError := TooSmall | OtherError.

Definition remove_entry (s : SessionId) (g : GeminiCacheStore) : GeminiCacheStore :=
  {| gs_entries := delete s (gs_entries g); gs_too_small := gs_too_small g |}.
Definition insert_entry (s : SessionId) (h : CacheHandle) (g : GeminiCacheStore) : GeminiCacheStore :=
  {| gs_entries := <[s := h]> (gs_entries g); gs_too_small := gs_too_small g |}.
Definition mark_too_small (hash : Z) (g : GeminiCacheStore) : GeminiCacheStore :=
  {| gs_entries := gs_entries g; gs_too_small := {[hash]} ∪ gs_too_small g |}.

Definition is_cache_not_found_error (error_body : string) : bool :=
  let lower := to_ascii_lowercase error_body in
  str_contains "cachedcontent" lower &&
  (str_contains "not found" lower || str_contains "expired" lower || str_contains "does not exist" lower || str_contains "not_found" lower).

Inductive CacheRetryDecision := Retry (session_id : SessionId) | Propagate.

Definition decide_cache_retry (cache_name : option string) (error_body : string) (session_id : option SessionId) : CacheRetryDecision :=
  match cache_name with
  | None => Propagate
  | Some _ =>
      if is_cache_not_found_error error_body
      then match session_id with Some sid => Retry sid | None => Propagate end
      else Propagate
  end.

(** ** The prefix a cache is made of *)

Definition gemini_part_json (p : GeminiPart) : json :=
  match p with
  | TextPart text thought => JObj (("text", JStr text) :: if thought then [("thought", JBool true)] else [])
  | FunctionCallPart name args => JObj [("functionCall", JObj [("name", JStr name); ("args", args)])]
  | FunctionResponsePart name response => JObj [("functionResponse", JObj [("name", JStr name); ("response", response)])]
  end.

Definition gemini_content_json (c : GeminiContent) : json :=
  JObj (match gc_role c with Some r => [("role", JStr r)] | None => [] end ++ [("parts", JArr (map gemini_part_json (gc_parts c)))]).

Definition function_json (f : FunctionDefinition) : json :=
  JObj [("name", JStr (fn_name f)); ("description", JStr (fn_description f)); ("parameters", fn_parameters f)].

Definition gemini_tools_json (tools : list (list FunctionDefinition)) : json :=
  JArr (map (λ fs, JObj [("functionDeclarations", JArr (map function_json fs))]) tools).

Section client.
Context (json_from_str : string → option json) (json_to_string : json → string).
(** [DefaultHasher] fed with one string, and with a list of them. *)
Context (default_hash : string → Z) (default_hash_all : list string → Z).
(** [Response::text] on the content type and the bytes, and the message of a
    failed [from_str] of what on which text. *)
Context (decode_text : option string → string → string) (serde_error : string → string → string).

Definition hash_prefix (system_instruction : option GeminiContent) (tools : option (list (list FunctionDefinition))) : Z :=
  default_hash_all
    [default "" (json_to_string ∘ gemini_content_json <$> system_instruction);
     default "" (json_to_string ∘ gemini_tools_json <$> tools)].

Definition request_hash (r : GeminiRequest) : Z := hash_prefix (gr_system_instruction r) (gr_tools r).

(** * Building a request *)

Definition with_messages (ms : list LlmMessage) (r : CompletionRequest) : CompletionRequest := {|
  rq_model := rq_model r; rq_messages := ms; rq_tools := rq_tools r; rq_temperature := rq_temperature r;
  rq_max_tokens := rq_max_tokens r; rq_stream := rq_stream r; rq_stream_options := rq_stream_options r;
  rq_thinking_budget_tokens := rq_thinking_budget_tokens r; rq_reasoning_effort := rq_reasoning_effort r;
  rq_prompt_cache_enabled := rq_prompt_cache_enabled r; rq_gemini_thinking_budget := rq_gemini_thinking_budget r;
  rq_gemini_cache_enabled := rq_gemini_cache_enabled r; rq_gemini_cache_ttl_seconds := rq_gemini_cache_ttl_seconds r;
  rq_session_id := rq_session_id r |}.

Definition with_effort (effort : option string) (r : CompletionRequest) : CompletionRequest := {|
  rq_model := rq_model r; rq_messages := rq_messages r; rq_tools := rq_tools r; rq_temperature := rq_temperature r;
  rq_max_tokens := rq_max_tokens r; rq_stream := rq_stream r; rq_stream_options := rq_stream_options r;
  rq_thinking_budget_tokens := rq_thinking_budget_tokens r; rq_reasoning_effort := effort;
  rq_prompt_cache_enabled := rq_prompt_cache_enabled r; rq_gemini_thinking_budget := rq_gemini_thinking_budget r;
  rq_gemini_cache_enabled := rq_gemini_cache_enabled r; rq_gemini_cache_ttl_seconds := rq_gemini_cache_ttl_seconds r;
  rq_session_id := rq_session_id r |}.

Definition with_cache_name (name : option string) (r : GeminiRequest) : GeminiRequest := {|
  gr_contents := gr_contents r; gr_system_instruction := gr_system_instruction r; gr_tools := gr_tools r;
  gr_generation_config := gr_generation_config r; gr_cached_content := name |}.

Definition CONTENT_TYPE : string * string := ("Content-Type", "application/json").

Definition build_request (l : LlmClient) (request : CompletionRequest) (gemini_cache_name : option string) : HttpRequest :=
  let c := lm_config l in
  let auth := apply_auth (lc_auth_scheme c) (lc_api_key c) in
  match lm_protocol l with
  | OpenAi =>
      let req_body := with_messages (apply_quirks (lc_quirks c) (rq_messages request)) request in
      let req_body :=
        if bool_decide (is_Some (rq_reasoning_effort req_body)) && negb (is_openai_reasoning_model (rq_model req_body) (lc_base_url c))
        then with_effort None req_body else req_body in
      {| hr_url := lc_base_url c +:+ "/chat/completions"; hr_headers := CONTENT_TYPE :: auth; hr_body := OpenAiBody req_body |}
  | LlmClient.Anthropic =>
      {| hr_url := lc_base_url c +:+ "/messages"; hr_headers := ("anthropic-version", "2023-06-01") :: CONTENT_TYPE :: auth;
         hr_body := AnthropicBody (to_anthropic_request json_from_str default_hash request) |}
  | LlmClient.Gemini =>
      let method := if default false (rq_stream request) then "streamGenerateContent?alt=sse" else "generateContent" in
      {| hr_url := lc_base_url c +:+ "/models/" +:+ rq_model request +:+ ":" +:+ method; hr_headers := CONTENT_TYPE :: auth;
         hr_body := GeminiBody (with_cache_name gemini_cache_name (to_gemini_request json_from_str request)) |}
  end.

Definition create_cache_request (base_url api_key model : string) (system_instruction : option GeminiContent)
    (tools : option (list (list FunctionDefinition))) (ttl_seconds : Z) : HttpRequest := {|
  hr_url := base_url +:+ "/cachedContents";
  hr_headers := [CONTENT_TYPE; ("x-goog-api-key", api_key)];
  hr_body := CacheBody {| cc_model := "models/" +:+ model; cc_system_instruction := system_instruction; cc_tools := tools;
                          cc_ttl := pretty ttl_seconds +:+ "s" |} |}.

(** * Reading an answer *)

(** The bytes of a body read to its end without a timer of its own. *)
Fixpoint body_bytes (reads : list NetRead) : option string :=
  match reads with
  | [] => Some ""
  | NetBytes b :: reads => String.append b <$> body_bytes reads
  | NetError _ _ :: _ => None
  | NetStall :: reads => body_bytes reads
  end.

Definition response_text (r : HttpResponse) : option string := decode_text (ha_content_type r) <$> body_bytes (ha_reads r).

(** [create_cache] after its request.  The text of another error is only
    logged. *)
Definition created_cache (a : HttpAnswer) : Result string CreateError :=
  match a with
  | NoAnswer _ => Err OtherError
  | Answered r =>
      let body_text := default "<unavailable>" (response_text r) in
      if negb (is_success (ha_status r)) then
        let lower := to_ascii_lowercase body_text in
        if str_contains "too small" lower || str_contains "below the minimum" lower || str_contains "minimum cache size" lower
        then Err TooSmall else Err OtherError
      else match json_from_str body_text ≫= field_default "" de_string "name" with
           | None => Err OtherError
           | Some name => if String.eqb name "" then Err OtherError else Ok name
           end
  end.

Definition diagnostic (l : LlmClient) (model : string) (r : HttpResponse) (bytes_read : option Z) (body_prefix : option string) : DecodeDiagnostic := {|
  dg_provider := lc_provider (lm_config l); dg_model := model; dg_status := Some (ha_status r);
  dg_content_type := ha_content_type r; dg_content_length := ha_content_length r;
  dg_bytes_read := bytes_read; dg_body_prefix := body_prefix |}.

(** [read_body_with_idle_timeout]; [body] is what has arrived. *)
Fixpoint read_body (l : LlmClient) (model : string) (r : HttpResponse) (reads : list NetRead) (body : string) : Result string AlmsError :=
  let failed underlying :=
    Err (Runtime (format_decode_error "LLM response decode failed" (diagnostic l model r (Some (Z.of_nat (String.length body))) None) underlying)) in
  match reads with
  | [] => Ok (from_utf8_lossy body)
  | NetBytes b :: reads => read_body l model r reads (body +:+ b)
  | NetError top causes :: _ => failed (flatten_error_chain top causes)
  | NetStall :: _ =>
      failed ("response body stalled (no data for " +:+ pretty (lc_stream_chunk_timeout_secs (lm_config l)) +:+ "s) — operation timed out")
  end.

(** The name a parse failure gives the provider, and the decoder of its
    answers. *)
Definition completion_decoder (p : Protocol) : string * (json → option CompletionResponse) :=
  match p with
  | OpenAi => ("OpenAI", de_completion_response)
  | LlmClient.Anthropic => ("Anthropic", λ j, from_anthropic_response json_to_string <$> de_anthropic_response j)
  | LlmClient.Gemini => ("Gemini", λ j, from_gemini_response json_to_string <$> de_gemini_response j)
  end.

Definition parse_completion_response (l : LlmClient) (request : CompletionRequest) (r : HttpResponse) : Result CompletionResponse AlmsError :=
  let? body_text := read_body l (rq_model request) r (ha_reads r) "" in
  let '(label, decode) := completion_decoder (lm_protocol l) in
  match json_from_str body_text ≫= decode with
  | Some c => Ok c
  | None => Err (Runtime (format_decode_error ("LLM response parse failed (" +:+ label +:+ ")")
                            (diagnostic l (rq_model request) r None (Some body_text)) (serde_error label body_text)))
  end.

(** A failed request's error. *)
Definition api_error (l : LlmClient) (r : HttpResponse) (error_text : string) : AlmsError :=
  llm_api_error (lc_provider (lm_config l)) (ha_status r) error_text.
End client.

(** * The mock provider *)

Definition no_usage : Usage := {|
  us_prompt_tokens := 0; us_completion_tokens := 0; us_total_tokens := 0; us_reasoning_tokens := None;
  us_completion_tokens_details := None; us_cache_creation_input_tokens := None; us_cache_read_input_tokens := None |}.

(** The text of the last user message. *)
Definition mock_text (request : CompletionRequest) : string :=
  default "(no user input)" (m ← last (List.filter (λ m, String.eqb (role m) "user") (rq_messages request)); content m).

Definition mock_response (request : CompletionRequest) : CompletionResponse :=
  {| cr_choices := [llm_assistant ("[mock] " +:+ mock_text request)]; cr_usage := Some no_usage |}.

(** [split_inclusive(' ')]; [w] is the word so far. *)
Fixpoint words_from (w s : string) : list string :=
  match s with
  | EmptyString => if String.eqb w "" then [] else [w]
  | String a s => if Ascii.eqb a " "%char then (w +:+ ch a) :: words_from "" s else words_from (w +:+ ch a) s
  end.

Definition mock_chunk (word : string) (usage : option Usage) : StreamChunk :=
  {| ch_choices := [{| dl_content := Some word; dl_reasoning_content := None; dl_tool_calls := None |}]; ch_usage := usage |}.

(** The last word carries the usage. *)
Fixpoint mock_chunks (words : list string) : list StreamChunk :=
  match words with
  | [] => []
  | [w] => [mock_chunk w (Some no_usage)]
  | w :: words => mock_chunk w None :: mock_chunks words
  end.

Definition mock_stream_chunks (request : CompletionRequest) : list StreamChunk :=
  mock_chunks (words_from "" ("[mock] " +:+ mock_text request)).
