(* ===== verification/LlmHttp.v ===== *)
(** A completion over HTTP: [ensure_cache] of [alms-runtime/src/gemini_cache.rs],
    [complete] and [complete_stream] of [llm_client/mod.rs].

    The store of cache names is shared by every clone of a client, so a call is a
    program of [Exec.v]: one access per lookup or update of a map, and one per
    request with its answer.  The world also holds what the providers will answer
    and, for the statements, what Google keeps under which name. *)
From S2P Require Import Prelude Ident Json Session LlmTypes LlmCall LlmClient Wire Gemini SseStream Exec LlmRequest.

Record HttpWorld := {
  hw_store : GeminiCacheStore;
  hw_kept : list (string * CreateCacheRequest);
  hw_net : list HttpAnswer;
}.

(** A request that went out, with its answer. *)
Inductive HttpOut := Sent (r : HttpRequest) (a : HttpAnswer).

Section client.
Context (json_from_str : string → option json) (json_to_string : json → string).
Context (default_hash : string → Z) (default_hash_all : list string → Z).
Context (decode_text : option string → string → string) (serde_error : string → string → string).

Local Notation Http := (Exec HttpWorld HttpOut).

Definition on_store (f : GeminiCacheStore → GeminiCacheStore) (w : HttpWorld) : HttpWorld :=
  {| hw_store := f (hw_store w); hw_kept := hw_kept w; hw_net := hw_net w |}.

Definition next_answer (w : HttpWorld) : HttpAnswer := default (NoAnswer "") (head (hw_net w)).

(** What is kept after a request: a creation that was answered with a name is. *)
Definition kept_after (r : HttpRequest) (a : HttpAnswer) (kept : list (string * CreateCacheRequest)) : list (string * CreateCacheRequest) :=
  match hr_body r, created_cache json_from_str decode_text a with
  | CacheBody b, Ok name => (name, b) :: kept
  | _, _ => kept
  end.

Definition exchange (r : HttpRequest) (w : HttpWorld) : HttpAnswer * HttpWorld * list HttpOut :=
  let a := next_answer w in
  (a, {| hw_store := hw_store w; hw_kept := kept_after r a (hw_kept w); hw_net := tail (hw_net w) |}, [Sent r a]).

Definition send (r : HttpRequest) : Http HttpAnswer := access (exchange r).

(** * The cache *)

Definition ensure_cache (session_id : SessionId) (model base_url api_key : string) (system_instruction : option GeminiContent)
    (tools : option (list (list FunctionDefinition))) (ttl_seconds : Z) : Http CacheLookup :=
  let hash := hash_prefix json_to_string default_hash_all system_instruction tools in
  small ← read (λ w, bool_decide (hash ∈ gs_too_small (hw_store w)));
  if small : bool then _ ← write (on_store (remove_entry session_id)); mret Miss
  else
    entry ← read (λ w, gs_entries (hw_store w) !! session_id);
    match h ← entry; (if (ch_prefix_hash h =? hash)%Z then Some (ch_name h) else None) with
    | Some name => mret (Hit name)
    | None =>
        stored ← read (λ w, bool_decide (is_Some (gs_entries (hw_store w) !! session_id)));
        _ ← when stored (write (on_store (remove_entry session_id)));
        a ← send (create_cache_request base_url api_key model system_instruction tools ttl_seconds);
        match created_cache json_from_str decode_text a with
        | Ok name =>
            _ ← write (on_store (insert_entry session_id {| ch_name := name; ch_prefix_hash := hash |}));
            mret (Hit name)
        | Err TooSmall => _ ← write (on_store (mark_too_small hash)); mret Miss
        | Err OtherError => mret Miss
        end
    end.

Definition resolve_gemini_cache (l : LlmClient) (request : CompletionRequest) : Http CacheLookup :=
  let c := lm_config l in
  match lm_protocol l, rq_gemini_cache_enabled request, rq_session_id request with
  | LlmClient.Gemini, Some true, Some session_id =>
      let gemini_req := to_gemini_request json_from_str request in
      ensure_cache session_id (rq_model request) (lc_base_url c) (lc_api_key c) (gr_system_instruction gemini_req) (gr_tools gemini_req)
        (default 300%Z (rq_gemini_cache_ttl_seconds request))
  | _, _, _ => mret Miss
  end.

(** * The call *)

Definition cache_name (lookup : CacheLookup) : option string := match lookup with Hit n => Some n | Miss => None end.

Definition send_error (e : string) : AlmsError := Runtime ("HTTP request failed: " +:+ e).
Definition error_text (r : HttpResponse) : string := default "Unknown error" (response_text decode_text r).

(** The flow of both calls; [on_success] is what each makes of a good answer. *)
Definition dispatch {R} (on_success : HttpResponse → Result R AlmsError) (l : LlmClient) (request : CompletionRequest)
    : Http (Result R AlmsError) :=
  lookup ← resolve_gemini_cache l request;
  a ← send (build_request json_from_str default_hash l request (cache_name lookup));
  match a with
  | NoAnswer e => mret (Err (send_error e))
  | Answered r =>
      if negb (is_success (ha_status r)) then
        match decide_cache_retry (cache_name lookup) (error_text r) (rq_session_id request) with
        | Retry session_id =>
            _ ← write (on_store (remove_entry session_id));
            a' ← send (build_request json_from_str default_hash l request None);
            match a' with
            | NoAnswer e => mret (Err (send_error e))
            | Answered r' =>
                if negb (is_success (ha_status r')) then mret (Err (api_error l r' (error_text r'))) else mret (on_success r')
            end
        | Propagate => mret (Err (api_error l r (error_text r)))
        end
      else mret (on_success r)
  end.

Definition complete (l : LlmClient) (request : CompletionRequest) : Http (Result CompletionResponse AlmsError) :=
  if lc_mock (lm_config l) then mret (Ok (mock_response request))
  else dispatch (parse_completion_response json_from_str json_to_string serde_error l request) l request.

Definition for_streaming (p : Protocol) (r : CompletionRequest) : CompletionRequest := {|
  rq_model := rq_model r; rq_messages := rq_messages r; rq_tools := rq_tools r; rq_temperature := rq_temperature r;
  rq_max_tokens := rq_max_tokens r; rq_stream := Some true;
  rq_stream_options := match p with OpenAi => Some true | _ => rq_stream_options r end;
  rq_thinking_budget_tokens := rq_thinking_budget_tokens r; rq_reasoning_effort := rq_reasoning_effort r;
  rq_prompt_cache_enabled := rq_prompt_cache_enabled r; rq_gemini_thinking_budget := rq_gemini_thinking_budget r;
  rq_gemini_cache_enabled := rq_gemini_cache_enabled r; rq_gemini_cache_ttl_seconds := rq_gemini_cache_ttl_seconds r;
  rq_session_id := rq_session_id r |}.

(** The stream of an answer, as what a consumer can poll. *)
Definition open_stream (l : LlmClient) (request : CompletionRequest) (r : HttpResponse) : Result (list (Result StreamChunk AlmsError)) AlmsError :=
  let c := lm_config l in
  Ok (stream_response json_from_str json_to_string (lm_protocol l) (lc_provider c) (rq_model request) (lc_stream_chunk_timeout_secs c) (ha_reads r)).

Definition complete_stream (l : LlmClient) (request : CompletionRequest) : Http (Result (list (Result StreamChunk AlmsError)) AlmsError) :=
  if lc_mock (lm_config l) then mret (Ok (map Ok (mock_stream_chunks request)))
  else
    let request := for_streaming (lm_protocol l) request in
    dispatch (open_stream l request) l request.
End client.
