(* ===== verification/LlmHttpProps.v ===== *)
(** What a completion over HTTP sends and answers, whatever the other calls do
    with the shared store of cache names meanwhile. *)
From stdpp Require Import pretty.
From S2P Require Import Prelude Ident Json Session Errors TextEdit LlmTypes LlmCall LlmClient Normalize Wire Anthropic AnthropicProps Gemini SseStream Exec LlmRequest LlmHttp.

(** * The store under other calls *)

Section calls.
Context (json_from_str : string → option json) (json_to_string : json → string).
Context (default_hash : string → Z) (default_hash_all : list string → Z).
Context (decode_text : option string → string → string) (serde_error : string → string → string).

Local Notation build := (build_request json_from_str default_hash).
Local Notation exchanged := (exchange json_from_str decode_text).
Local Notation prefix_hash := (hash_prefix json_to_string default_hash_all).
Local Notation text_of := (error_text decode_text).

(** Google keeps a prefix of this hash under the name. *)
Definition kept_prefix (w : HttpWorld) (name : string) (hash : Z) : Prop :=
  ∃ b, (name, b) ∈ hw_kept w ∧ prefix_hash (cc_system_instruction b) (cc_tools b) = hash.

Definition store_ok (w : HttpWorld) : Prop :=
  map_Forall (λ _ h, kept_prefix w (ch_name h) (ch_prefix_hash h)) (gs_entries (hw_store w)).

(** What one call leaves to the others, and relies on. *)
Definition grown (w w' : HttpWorld) : Prop := store_ok w' ∧ hw_kept w ⊆ hw_kept w'.
Definition others (w w' : HttpWorld) : Prop := store_ok w → grown w w'.

Lemma kept_grows w w' name hash : kept_prefix w name hash → hw_kept w ⊆ hw_kept w' → kept_prefix w' name hash.
Proof. intros (b & Hb & E) H. exists b. auto. Qed.

Lemma store_grows w w' : store_ok w → gs_entries (hw_store w') = gs_entries (hw_store w) → hw_kept w ⊆ hw_kept w' → store_ok w'.
Proof. intros Hw E H s h Hh. rewrite E in Hh. eapply kept_grows; [by eapply Hw|done]. Qed.

Lemma grown_refl w : store_ok w → grown w w.
Proof. by split. Qed.

Lemma grown_others w w' w'' : grown w w' → others w' w'' → grown w w''.
Proof. intros [H1 H2] Ho. destruct (Ho H1) as [H3 H4]. split; [done|by etrans]. Qed.

Lemma grown_remove w w' s : grown w w' → grown w (on_store (remove_entry s) w').
Proof. intros [H1 H2]. split; [|done]. intros s' h Hh. cbn in Hh. apply lookup_delete_Some in Hh as [_ Hh]. by eapply H1. Qed.

Lemma grown_small w w' hash : grown w w' → grown w (on_store (mark_too_small hash) w').
Proof. intros [H1 H2]. by split. Qed.

Lemma grown_insert w w' s name hash :
  grown w w' → kept_prefix w' name hash → grown w (on_store (insert_entry s {| ch_name := name; ch_prefix_hash := hash |}) w').
Proof. intros [H1 H2] Hk. split; [|done]. intros s' h Hh. cbn in Hh. apply lookup_insert_Some in Hh as [[<- <-]|[_ Hh]]; [done|by eapply H1]. Qed.

Lemma kept_after_grows r a kept : kept ⊆ kept_after json_from_str decode_text r a kept.
Proof. unfold kept_after. destruct (hr_body r); try done. destruct (created_cache _ _ _); [|done]. intros x Hx. by right. Qed.

Lemma grown_exchange w w' r : grown w w' → grown w (exchanged r w').1.2.
Proof.
  intros [H1 H2]. pose proof (kept_after_grows r (next_answer w') (hw_kept w')) as Hg. split; [|by etrans].
  by apply (store_grows w').
Qed.

Lemma created_kept w r b name :
  hr_body r = CacheBody b → created_cache json_from_str decode_text (next_answer w) = Ok name →
  kept_prefix (exchanged r w).1.2 name (prefix_hash (cc_system_instruction b) (cc_tools b)).
Proof. intros Hb Ha. exists b. split; [|done]. cbn. unfold kept_after. rewrite Hb, Ha. by left. Qed.

(** ** Accesses *)

Lemma grown_read {A} (f : HttpWorld → A) (Q : option A → HttpWorld → list HttpOut → Prop) w0 w t :
  grown w0 w → (∀ w', grown w0 w' → hw_kept w ⊆ hw_kept w' → Q None w' t ∧ Q (Some (f w')) w' t) → wp others (read f) Q w t.
Proof.
  intros Hw H. apply wp_access. intros w' Ho. cbn. rewrite app_nil_r. apply H; [by eapply grown_others|]. by apply Ho, Hw.
Qed.

Lemma grown_write (f : HttpWorld → HttpWorld) (Q : option () → HttpWorld → list HttpOut → Prop) w0 w t :
  grown w0 w → (∀ w', grown w0 w' → hw_kept w ⊆ hw_kept w' → Q None w' t ∧ Q (Some ()) (f w') t) → wp others (write f) Q w t.
Proof.
  intros Hw H. apply wp_access. intros w' Ho. cbn. rewrite app_nil_r. apply H; [by eapply grown_others|]. by apply Ho, Hw.
Qed.

Lemma grown_send r (Q : option HttpAnswer → HttpWorld → list HttpOut → Prop) w0 w t :
  grown w0 w → (∀ w', grown w0 w' → hw_kept w ⊆ hw_kept w' →
    Q None w' t ∧ Q (Some (next_answer w')) (exchanged r w').1.2 (t ++ [Sent r (next_answer w')])) →
  wp others (send json_from_str decode_text r) Q w t.
Proof. intros Hw H. apply wp_access. intros w' Ho. apply H; [by eapply grown_others|]. by apply Ho, Hw. Qed.

(** * What a call sends *)

(** A creation of a cache, as this request asks for one. *)
Inductive creates (l : LlmClient) (request : CompletionRequest) : HttpOut → Prop :=
| creates_cache a :
    lm_protocol l = LlmClient.Gemini → rq_gemini_cache_enabled request = Some true → is_Some (rq_session_id request) →
    creates l request (Sent (create_cache_request (lc_base_url (lm_config l)) (lc_api_key (lm_config l)) (rq_model request)
      (gr_system_instruction (to_gemini_request json_from_str request)) (gr_tools (to_gemini_request json_from_str request))
      (default 300%Z (rq_gemini_cache_ttl_seconds request))) a).

(** The answer says that the cache a request named is gone. *)
Definition cache_gone (request : CompletionRequest) (name : option string) (r : HttpResponse) : Prop :=
  is_success (ha_status r) = false ∧ is_Some name ∧ is_cache_not_found_error (text_of r) = true ∧ is_Some (rq_session_id request).

(** What an answer is to the caller. *)
Definition verdict {R} (on_success : HttpResponse → Result R AlmsError) (l : LlmClient) (a : HttpAnswer) : Result R AlmsError :=
  match a with
  | NoAnswer e => Err (send_error e)
  | Answered r => if is_success (ha_status r) then on_success r else Err (api_error l r (text_of r))
  end.

(** The completions a call sends and its result, [None] when it unwound: the
    request, and a second time without the cache where that is gone. *)
Inductive answered {R} (on_success : HttpResponse → Result R AlmsError) (l : LlmClient) (request : CompletionRequest) (name : option string) :
    list HttpOut → option (Result R AlmsError) → Prop :=
| nothing_sent : answered on_success l request name [] None
| sent_once a res :
    (∀ x, res = Some x → x = verdict on_success l a ∧ ∀ r, a = Answered r → ¬ cache_gone request name r) →
    answered on_success l request name [Sent (build l request name) a] res
| sent_again r a res : cache_gone request name r → (∀ x, res = Some x → x = verdict on_success l a) →
    answered on_success l request name [Sent (build l request name) (Answered r); Sent (build l request None) a] res.

(** A call as a whole.  A name in a request is one Google keeps a prefix of the
    same hash under. *)
Definition dispatched {R} (on_success : HttpResponse → Result R AlmsError) (l : LlmClient) (request : CompletionRequest)
    (w : HttpWorld) (t : list HttpOut) (res : option (Result R AlmsError)) : Prop :=
  ∃ creations name sent, t = creations ++ sent ∧ length creations ≤ 1 ∧ Forall (creates l request) creations ∧
    (∀ n, name = Some n → kept_prefix w n (request_hash json_to_string default_hash_all (to_gemini_request json_from_str request))) ∧
    answered on_success l request name sent res.

Local Notation ensured := (ensure_cache json_from_str json_to_string default_hash_all decode_text).

Definition cache_found (w0 : HttpWorld) (hash : Z) (creation : HttpOut → Prop) (t : list HttpOut)
    (r : option CacheLookup) (w : HttpWorld) (t' : list HttpOut) : Prop :=
  grown w0 w ∧ ∃ c, t' = t ++ c ∧ length c ≤ 1 ∧ Forall creation c ∧ ∀ name, r = Some (Hit name) → kept_prefix w name hash.

Lemma found_nothing w0 hash creation t r w : grown w0 w → (∀ name, r ≠ Some (Hit name)) → cache_found w0 hash creation t r w t.
Proof. intros Hw Hr. split; [done|]. exists []. rewrite app_nil_r. repeat split; [simpl; lia|done|]. intros name E. by destruct (Hr name). Qed.

Lemma found_sent w0 hash (creation : HttpOut → Prop) t o r w :
  grown w0 w → creation o → (∀ name, r = Some (Hit name) → kept_prefix w name hash) → cache_found w0 hash creation t r w (t ++ [o]).
Proof. intros Hw Ho Hr. split; [done|]. exists [o]. repeat split; [simpl; lia|by constructor|done]. Qed.

Lemma ensure_cache_found s model base_url api_key sys tools ttl w0 w t :
  grown w0 w →
  wp others (ensured s model base_url api_key sys tools ttl)
    (cache_found w0 (prefix_hash sys tools) (λ o, ∃ a, o = Sent (create_cache_request base_url api_key model sys tools ttl) a) t) w t.
Proof.
  intros Hw. unfold ensure_cache. set (hash := prefix_hash sys tools). set (req := create_cache_request _ _ _ _ _ _).
  assert (Hnone : ∀ w, grown w0 w → cache_found w0 hash (λ o, ∃ a, o = Sent req a) t None w t) by (intros; by apply found_nothing).
  assert (Hmiss : ∀ w, grown w0 w → cache_found w0 hash (λ o, ∃ a, o = Sent req a) t (Some Miss) w t) by (intros; by apply found_nothing).
  apply wp_bind. eapply grown_read; [done|]. intros w1 H1 _. split; [by apply Hnone|]. destruct (bool_decide _).
  { apply wp_bind. eapply grown_write; [done|]. intros w2 H2 _. split; [by apply Hnone|]. apply wp_ret, Hmiss. by apply grown_remove. }
  apply wp_bind. eapply grown_read; [done|]. intros w2 H2 _. split; [by apply Hnone|].
  destruct (h ← _; _) as [name|] eqn:E.
  { apply wp_ret. split; [done|]. exists []. rewrite app_nil_r. repeat split; [simpl; lia|done|]. intros n [= <-].
    apply bind_Some in E as (h & Hh & E). destruct (Z.eqb_spec (ch_prefix_hash h) hash) as [<-|]; [|done]. injection E as <-. by eapply (proj1 H2). }
  clear E. apply wp_bind. eapply grown_read; [done|]. intros w3 H3 _. split; [by apply Hnone|].
  apply wp_bind. eapply (wp_mono _ _ (λ r w', λ t', t' = t ∧ grown w0 w')).
  { apply wp_when; [|done]. intros _. eapply grown_write; [done|]. intros w4 H4 _. split; [done|]. split; [done|]. by apply grown_remove. }
  intros [[]|] w4 t4 [-> H4]; [|by apply Hnone]. apply wp_bind. eapply grown_send; [done|]. intros w5 H5 _. split; [by apply Hnone|].
  pose proof (grown_exchange w0 w5 req H5) as H6. pose proof (λ name, created_kept w5 req _ name eq_refl) as Hkept.
  set (o := Sent req (next_answer w5)). assert (Ho : ∃ a, o = Sent req a) by (by eexists).
  destruct (created_cache _ _ _) as [name|[|]].
  - specialize (Hkept name eq_refl). apply wp_bind. eapply grown_write; [done|]. intros w7 H7 H67.
    split; [by apply found_sent|]. apply wp_ret. apply found_sent; [|done|].
    + apply grown_insert; [done|]. by eapply kept_grows.
    + intros n [= <-]. by eapply kept_grows.
  - apply wp_bind. eapply grown_write; [done|]. intros w7 H7 _. split; [by apply found_sent|]. apply wp_ret. apply found_sent; [|done|done]. by apply grown_small.
  - apply wp_ret. by apply found_sent.
Qed.

Local Notation hash_of request := (request_hash json_to_string default_hash_all (to_gemini_request json_from_str request)).

Lemma resolve_found l request w0 w t :
  grown w0 w →
  wp others (resolve_gemini_cache json_from_str json_to_string default_hash_all decode_text l request)
    (cache_found w0 (hash_of request) (creates l request) t) w t.
Proof.
  intros Hw. unfold resolve_gemini_cache.
  assert (Hmiss : wp others (mret Miss) (cache_found w0 (hash_of request) (creates l request) t) w t) by (by apply wp_ret, found_nothing).
  destruct (lm_protocol l) eqn:Ep; [done..|]. destruct (rq_gemini_cache_enabled request) as [[|]|] eqn:Ee; [|done..].
  destruct (rq_session_id request) as [s|] eqn:Es; [|done].
  eapply wp_mono; [by apply ensure_cache_found|]. intros r w' t' (H1 & c & -> & Hlen & Hc & Hk). split; [done|]. exists c.
  repeat split; [done| |done]. eapply Forall_impl; [exact Hc|]. intros o [a ->]. by apply creates_cache.
Qed.

Lemma retry_decided request name r :
  is_success (ha_status r) = false →
  match decide_cache_retry name (text_of r) (rq_session_id request) with
  | Retry _ => cache_gone request name r
  | Propagate => ¬ cache_gone request name r
  end.
Proof.
  intros Hs. unfold decide_cache_retry, cache_gone. destruct name as [n|]; [|by intros (_ & [? [=]] & _)].
  destruct (is_cache_not_found_error _); [|by intros (_ & _ & [=] & _)].
  destruct (rq_session_id request); [|by intros (_ & _ & _ & [? [=]])]. split; [done|]. split; [by eexists|]. split; [done|by eexists].
Qed.

Lemma dispatch_dispatched {R} (on_success : HttpResponse → Result R AlmsError) l request w :
  store_ok w →
  wp others (dispatch json_from_str json_to_string default_hash default_hash_all decode_text on_success l request)
    (λ res w' t, grown w w' ∧ dispatched on_success l request w' t res) w [].
Proof.
  intros Hw. apply wp_bind. eapply wp_mono; [by apply resolve_found, grown_refl|]. intros found w1 t1 (H1 & c & -> & Hlen & Hc & Hk).
  rewrite app_nil_l.
  assert (Hnot : ∀ w', grown w w' → grown w w' ∧ dispatched on_success l request w' c None).
  { intros w' Hg. split; [done|]. exists c, None, []. rewrite app_nil_r. split; [done|]. split; [done|]. split; [done|]. split; [done|constructor]. }
  destruct found as [lookup|]; [|by apply Hnot].
  set (name := cache_name lookup).
  assert (Hn : ∀ n, name = Some n → kept_prefix w1 n (hash_of request)) by (intros n E; apply Hk; destruct lookup; [by injection E as ->|done]).
  assert (Hend : ∀ w' sent res, grown w w' → hw_kept w1 ⊆ hw_kept w' → answered on_success l request name sent res →
    grown w w' ∧ dispatched on_success l request w' (c ++ sent) res).
  { intros w' sent res Hg H1' Ha. split; [done|]. exists c, name, sent. split; [done|]. split; [done|]. split; [done|]. split; [|done]. intros n E. eapply kept_grows; [by apply Hn|done]. }
  apply wp_bind. eapply grown_send; [done|]. intros w2 H2 K12. split; [by apply Hnot|].
  pose proof (grown_exchange w w2 (build l request name) H2) as H3.
  assert (K13 : hw_kept w1 ⊆ hw_kept (exchanged (build l request name) w2).1.2) by (etrans; [done|]; apply kept_after_grows).
  set (w3 := (exchanged _ w2).1.2) in *. destruct (next_answer w2) as [e|r].
  { apply wp_ret, Hend; [done..|]. constructor. intros x [= <-]. by split. }
  destruct (is_success (ha_status r)) eqn:Es; simpl negb; cbv iota.
  { apply wp_ret, Hend; [done..|]. constructor. intros x [= <-]. simpl. rewrite Es. split; [done|]. intros r' [= <-] [H _]. congruence. }
  pose proof (retry_decided request name r Es) as Hd. destruct (decide_cache_retry _ _ _) as [s|].
  - assert (Hstop : answered on_success l request name [Sent (build l request name) (Answered r)] None) by (by constructor).
    apply wp_bind. eapply grown_write; [done|]. intros w4 H4 K34. split; [apply Hend; [done|by etrans|done]|].
    apply wp_bind. eapply grown_send; [by apply grown_remove|]. intros w5 H5 K45. simpl in K45.
    assert (K15 : hw_kept w1 ⊆ hw_kept w5) by (etrans; [done|by etrans]). split; [by apply Hend|].
    pose proof (grown_exchange w w5 (build l request None) H5) as H6.
    rewrite <- app_assoc. cbn [app].
    assert (Hagain : ∀ x, x = verdict on_success l (next_answer w5) → wp others (mret x)
      (λ res w' t, grown w w' ∧ dispatched on_success l request w' t res) (exchanged (build l request None) w5).1.2
      (c ++ [Sent (build l request name) (Answered r); Sent (build l request None) (next_answer w5)])).
    { intros x ->. apply wp_ret, Hend; [done|etrans; [done|apply kept_after_grows]|]. constructor; [done|]. by intros x [= <-]. }
    destruct (next_answer w5) as [e|r'] eqn:E5; [by apply Hagain|]. destruct (is_success (ha_status r')) eqn:Es'; apply Hagain; simpl; by rewrite Es'.
  - apply wp_ret, Hend; [done..|]. constructor. intros x [= <-]. simpl. rewrite Es. split; [done|]. by intros r' [= <-].
Qed.

(** C14: what a call over HTTP does.  Whatever the other calls do with the shared
    cache, and wherever it is dropped, a call sends its own request to the
    provider of its client, after at most one creation of a cache; it sends it a
    second time, without the cache, exactly when the provider says that the cache
    it named is gone; its result is the last answer; and a cache name it sends is
    one Google keeps this very prefix under, as far as the hash can tell.  The
    mock sends nothing. *)
Theorem calls_dispatch sched n w l request :
  respects others sched → store_ok w →
  (let '(res, _, w', t) := complete json_from_str json_to_string default_hash default_hash_all decode_text serde_error l request sched n w in
   grown w w' ∧
   if lc_mock (lm_config l) then w' = w ∧ t = [] ∧ res = Some (Ok (mock_response request))
   else dispatched (parse_completion_response json_from_str json_to_string serde_error l request) l request w' t res) ∧
  (let '(res, _, w', t) := complete_stream json_from_str json_to_string default_hash default_hash_all decode_text l request sched n w in
   grown w w' ∧
   if lc_mock (lm_config l) then w' = w ∧ t = [] ∧ res = Some (Ok (map Ok (mock_stream_chunks request)))
   else let asked := for_streaming (lm_protocol l) request in dispatched (open_stream json_from_str json_to_string l asked) l asked w' t res).
Proof.
  intros Hs Hw. unfold complete, complete_stream. destruct (lc_mock (lm_config l)).
  - by repeat split.
  - split; by apply (dispatch_dispatched _ _ _ _ Hw sched n Hs).
Qed.
End calls.

(** * The quirks of OpenAI-compatible providers *)

(** A message that says something, in words, in calls or as a result. *)
Definition speaks (m : LlmMessage) : bool :=
  match content m with Some text => negb (String.eqb text "") | None => false end ||
  match tool_calls m with Some calls => Nat.ltb 0 (length calls) | None => false end ||
  bool_decide (role m = "tool").

(** An empty turn of the user between neighbours that are both results. *)
Fixpoint gaps (l : list LlmMessage) : list LlmMessage :=
  match l with
  | m :: (m' :: _) as l' =>
      m :: (if bool_decide (role m = "tool" ∧ role m' = "tool") then [llm_user ""] else []) ++ gaps l'
  | _ => l
  end.

Lemma gaps_cons m m' l : gaps (m :: m' :: l) = m :: (if is_tool m && is_tool m' then [llm_user ""] else []) ++ gaps (m' :: l).
Proof.
  cbn [gaps]. unfold is_tool. destruct (String.eqb_spec (role m) "tool"), (String.eqb_spec (role m') "tool"); cbn [andb];
    [by rewrite bool_decide_eq_true_2|by rewrite bool_decide_eq_false_2 by tauto..].
Qed.

Lemma gaps_snoc l x y : gaps (l ++ [x; y]) = gaps (l ++ [x]) ++ (if is_tool x && is_tool y then [llm_user ""] else []) ++ [y].
Proof.
  induction l as [|m l IH]; [cbn [app]; by rewrite gaps_cons|].
  destruct l as [|m' l]; cbn [app] in *.
  - rewrite (gaps_cons m x [y]), IH, (gaps_cons m x []). cbn [app]. by rewrite <- app_assoc.
  - rewrite (gaps_cons m m' (l ++ [x; y])), IH, (gaps_cons m m' (l ++ [x])). cbn [app]. by rewrite <- app_assoc.
Qed.

Lemma gap_fill_gaps pre : ∀ x post, gap_fill (length pre) (pre ++ x :: post) = gaps (pre ++ [x]) ++ post.
Proof.
  induction pre as [|y pre IH] using rev_ind; intros x post; [done|]. rewrite length_app, Nat.add_1_r. cbn [gap_fill].
  rewrite <- app_assoc. cbn [app].
  assert (E : (pre ++ y :: x :: post) !! S (length pre) = Some x) by (by rewrite lookup_app_r, Nat.sub_succ_l, Nat.sub_diag by (simpl; lia)).
  rewrite E, list_lookup_middle, <- app_assoc by done. cbn [app]. rewrite gaps_snoc, <- !app_assoc, (andb_comm (is_tool y)). destruct (is_tool x && is_tool y); [|by rewrite IH].
  assert (Ei : insert_at (S (length pre)) (llm_user "") (pre ++ y :: x :: post) = pre ++ y :: llm_user "" :: x :: post).
  { unfold insert_at. change (y :: x :: post) with ([y] ++ x :: post). rewrite app_assoc.
    rewrite take_app_length', drop_app_length' by (rewrite length_app; simpl; lia). by rewrite <- app_assoc. }
  by rewrite Ei, IH.
Qed.

Lemma gaps_said l : List.filter speaks (gaps l) = List.filter speaks l.
Proof.
  induction l as [|m l IH]; [done|]. destruct l as [|m' l]; [done|]. rewrite gaps_cons. cbn [List.filter] in *.
  rewrite List.filter_app, IH. by destruct (_ && _).
Qed.

Lemma gaps_apart l : ∀ l1 a b l2, gaps l = l1 ++ a :: b :: l2 → is_tool a && is_tool b = false.
Proof.
  induction l as [|m l IH]; intros l1 a b l2 E; [by destruct l1|].
  destruct l as [|m' l]; [by destruct l1 as [|? [|]]|]. rewrite gaps_cons in E.
  assert (Hhd : ∃ rest, gaps (m' :: l) = m' :: rest).
  { destruct l as [|m'' l]; [by exists []|]. rewrite gaps_cons. by eexists. }
  destruct Hhd as [rest Hhd]. destruct (is_tool m && is_tool m') eqn:Et; cbn [app] in E.
  - destruct l1 as [|? [|? l1]]; [by injection E as _ <- _; apply andb_false_r|by injection E as _ <- _|].
    injection E as _ _ E. by eapply IH.
  - destruct l1 as [|? l1]; [|injection E as _ E; by eapply IH].
    rewrite Hhd in E. by injection E as <- <- _.
Qed.

Lemma says_speaks m : says_something m = speaks m.
Proof.
  unfold says_something, speaks, nonempty. destruct (content m) as [c|]; [destruct (String.eqb c "")|];
    (destruct (tool_calls m) as [[|]|]; [..|]); simpl; try done;
    (destruct (String.eqb_spec (role m) "tool"); [by rewrite bool_decide_eq_true_2|by rewrite bool_decide_eq_false_2]).
Qed.

Lemma filter_twice {A} (f : A → bool) l : List.filter f (List.filter f l) = List.filter f l.
Proof. induction l as [|x l IH]; [done|]. simpl. destruct (f x) eqn:E; simpl; [by rewrite E, IH|done]. Qed.

(** C38: What the quirks of a provider do to any list of messages.  With
    [drop_empty_content] exactly the messages that say nothing (no text, no call,
    not a tool's result) are left out; with [tool_gap_fill] exactly one empty user
    turn is put between neighbours that are both results, so no two results are
    next to each other in the request; with neither the list is sent as it is.
    In every case the messages that say something are all sent, unchanged and in
    order. *)
Theorem quirks_keep_conversation q ms :
  let kept := if drop_empty_content q then List.filter speaks ms else ms in
  apply_quirks q ms = (if tool_gap_fill q then gaps kept else kept) ∧
  List.filter speaks (apply_quirks q ms) = List.filter speaks ms ∧
  (tool_gap_fill q = true → ∀ l1 a b l2, apply_quirks q ms = l1 ++ a :: b :: l2 → ¬ (role a = "tool" ∧ role b = "tool")).
Proof.
  intros kept. assert (E : apply_quirks q ms = if tool_gap_fill q then gaps kept else kept).
  { unfold apply_quirks. assert (Ef : (if drop_empty_content q then List.filter says_something ms else ms) = kept).
    { unfold kept. destruct (drop_empty_content q); [|done]. apply List.filter_ext. exact says_speaks. }
    rewrite Ef. destruct (tool_gap_fill q); [|done]. simpl. destruct (Nat.ltb_spec 1 (length kept)) as [Hl|Hl].
    - destruct kept as [|m l _] using rev_ind; [simpl in Hl; lia|]. rewrite length_app, Nat.add_sub, gap_fill_gaps. by rewrite app_nil_r.
    - destruct kept as [|m [|]]; [done..|simpl in Hl; lia]. }
  assert (Hk : List.filter speaks kept = List.filter speaks ms).
  { unfold kept. destruct (drop_empty_content q); [apply filter_twice|done]. }
  split; [done|]. rewrite E. split; [destruct (tool_gap_fill q); [by rewrite gaps_said|done]|].
  intros ->. intros l1 a b l2 Eg [Ha Hb]. apply gaps_apart in Eg. unfold is_tool in Eg. by rewrite Ha, Hb in Eg.
Qed.

(** * Witnesses and executions *)

Section executions.
Local Definition from_str (text : string) : option json :=
  if String.eqb text "created" then Some (JObj [("name", JStr "cachedContents/1")])
  else if String.eqb text "answer" then Some (JObj [("candidates", JArr [JObj [("content", JObj [("parts", JArr [JObj [("text", JStr "hi")]])])]])])
  else None.
Local Definition to_str (j : json) : string := match j with JObj _ => "object" | JArr _ => "array" | _ => "scalar" end.
Local Definition hash_all (l : list string) : Z := Z.of_nat (String.length (String.concat "," l)).

Local Definition answer (status : Z) (text : string) : HttpAnswer :=
  Answered {| ha_status := status; ha_content_type := None; ha_content_length := None; ha_reads := [NetBytes text] |}.

Local Definition client : LlmClient := {|
  lm_config := {| lc_provider := "gemini"; lc_api_key := "k"; lc_base_url := GEMINI_URL; lc_default_model := "a"; lc_timeout_secs := 60;
                  lc_mock := false; lc_stream_chunk_timeout_secs := 30; lc_auth_scheme := Header "x-goog-api-key";
                  lc_quirks := quirks_default; lc_providers := ∅ |};
  lm_protocol := LlmClient.Gemini |}.

Local Definition asked (model : string) : CompletionRequest :=
  let r := request_new model [llm_system "be brief"; llm_user "hello"] in {|
  rq_model := rq_model r; rq_messages := rq_messages r; rq_tools := rq_tools r; rq_temperature := rq_temperature r;
  rq_max_tokens := rq_max_tokens r; rq_stream := rq_stream r; rq_stream_options := rq_stream_options r;
  rq_thinking_budget_tokens := rq_thinking_budget_tokens r; rq_reasoning_effort := rq_reasoning_effort r;
  rq_prompt_cache_enabled := rq_prompt_cache_enabled r; rq_gemini_thinking_budget := rq_gemini_thinking_budget r;
  rq_gemini_cache_enabled := Some true; rq_gemini_cache_ttl_seconds := None; rq_session_id := Some (MkSessionId (MkUuid 1)) |}.

Local Definition fresh (net : list HttpAnswer) : HttpWorld := {| hw_store := {| gs_entries := ∅; gs_too_small := ∅ |}; hw_kept := []; hw_net := net |}.
Local Definition alone : Schedule HttpWorld := {| outside := λ _ w, w; unwinds := λ _, false |}.
Local Definition plain_text (_ : option string) (b : string) : string := b.

Local Definition turn (model : string) := complete from_str to_str (λ _, 0%Z) hash_all plain_text (λ _ _, "") client (asked model).

Local Definition cache_names (t : list HttpOut) : list (option string) :=
  omap (λ o, let 'Sent r _ := o in match hr_body r with GeminiBody g => Some (gr_cached_content g) | _ => None end) t.

(** A cache is made, is gone when it is used, and the request succeeds without
    it. *)
Local Definition lost_cache : HttpWorld := fresh [answer 200 "created"; answer 404 "CachedContent was not found"; answer 200 "answer"].

Lemma calls_dispatch_witness :
  cache_names (turn "a" alone 0 lost_cache).2 = [Some "cachedContents/1"; None] ∧
  (let '(res, _, w', t) := turn "a" alone 0 lost_cache in
   grown to_str hash_all lost_cache w' ∧
   dispatched from_str to_str (λ _, 0%Z) hash_all plain_text
     (parse_completion_response from_str to_str (λ _ _, "") client (asked "a")) client (asked "a") w' t res).
Proof.
  split; [vm_compute; reflexivity|].
  assert (Hs : respects (others to_str hash_all) alone) by (intros n w Hw; by apply grown_refl).
  assert (Hw : store_ok to_str hash_all lost_cache) by (intros s h [=]).
  exact (proj1 (calls_dispatch from_str to_str (λ _, 0%Z) hash_all plain_text (λ _ _, "") alone 0 lost_cache client (asked "a") Hs Hw)).
Defined.

(** One turn after the other, each with what the providers answer it. *)
Fixpoint turns (script : list (string * list HttpAnswer)) (w : HttpWorld) : list (option (Result CompletionResponse AlmsError) * list (option string)) :=
  match script with
  | [] => []
  | (model, net) :: script =>
      let '(res, _, w', t) := turn model alone 0 {| hw_store := hw_store w; hw_kept := hw_kept w; hw_net := net |} in
      (res, cache_names t) :: turns script w'
  end.

(** The hash leaves the model out.  When a session goes on with another model, its
    requests name the cache of the first; the refusal does not say that the cache
    is gone, so it stays and so does the refusal. *)
Local Definition mismatch : HttpAnswer :=
  answer 400 "Model used by GenerateContent request (models/b) and CachedContent (models/a) has to be the same.".

Lemma model_switch_wedges_session :
  let refused := Some (Err (api_error client {| ha_status := 400; ha_content_type := None; ha_content_length := None; ha_reads := [] |}
    "Model used by GenerateContent request (models/b) and CachedContent (models/a) has to be the same.")) in
  turns [("a", [answer 200 "created"; answer 200 "answer"]); ("b", [mismatch]); ("b", [mismatch])] (fresh []) =
  [(Some (Ok (from_gemini_response to_str {| gm_candidates := [{| ca_content := Some (mkGemini None [TextPart "hi" false]); ca_finish_reason := None |}];
                                            gm_usage_metadata := None |})), [Some "cachedContents/1"]);
   (refused, [Some "cachedContents/1"]); (refused, [Some "cachedContents/1"])].
Proof. vm_compute. reflexivity. Qed.

(** Two results in a row, before the user's next turn. *)
Local Definition two_results : list LlmMessage :=
  normalize_for_llm (strip_orphaned_tool_results
    [llm_user "go"; with_tool_calls (llm_text "assistant" "") [tool_call_new "1" "fs_list" "{}"; tool_call_new "2" "fs_read" "{}"];
     llm_tool_result "1" "x"; llm_tool_result "2" "y"] ++ [llm_user "and?"]) true.

Example quirks_two_results :
  let q := {| tool_gap_fill := true; drop_empty_content := true |} in
  map role (apply_quirks q two_results) = ["user"; "assistant"; "tool"; "user"; "tool"; "user"].
Proof. vm_compute. reflexivity. Qed.
End executions.
